(* ===== verification/_CoqProject ===== *)
-Q . S2P
Prelude.v
SeccompTables.v
Seccomp.v
SeccompRun.v
SeccompProps.v
Wire.v
AioFrames.v
Utf8.v
PyVal.v
Wasm.v
WasmProps.v
Sha256.v
SnapshotAuth.v
PyStr.v
HttpFetch.v
HttpFetchProps.v
Limits.v
Gate.v
GateProps.v
Preflight.v
Tokenizer.v
PreflightProps.v
NativeScan.v
StaticGateProps.v
Template.v
TemplateInv.v
TemplateSteps.v
TemplateHost.v
TemplateProps.v
SandboxPool.v
SandboxPoolCap.v
SandboxPoolProps.v
Journal.v
JournalProps.v
JournalValue.v
AgentSession.v
AgentSessionProps.v
ToolProc.v
ToolProcProps.v
SessionPool.v
SessionPoolProps.v
Regex.v
Errors.v
ErrorsProps.v
Results.v
ResultsProps.v
Lease.v
LeaseInv.v
LeaseOps.v
LeaseProps.v
ToolBridge.v
Feed.v
FeedProps.v
Front.v
FrontSession.v
FrontProps.v
Pump.v
HostSide.v
Isolated.v
IsolatedInv.v
IsolatedProps.v
IsolatedCaps.v
IsolatedFail.v
AioRuntime.v
AioRuntimeInv.v
AioCount.v
AioRuntimeProps.v
AioSupervisor.v
Schema.v
SchemaProps.v
ThreadBudget.v
ToolThread.v
ToolThreadInv.v
ToolThreadCalls.v
ToolThreadProps.v
Catalog.v
CatalogProps.v
CallLimit.v
Prompt.v
PromptProps.v
