(* ===== verification/Prelude.v ===== *)
(** * pydeno: a verification development (root file)

    pydeno runs JavaScript a host does not trust.  A guest lives in a worker process: the native
    V8 runtime behind an OS sandbox.  The parent talks to it in length-prefixed frames over two
    pipes, supervises its time, memory and threads, serves the host functions it was given and
    nothing else, and kills it when it breaks a rule.  On top of that are pools of pre-started
    workers, agent sessions whose runs are journalled, signed and replayed, a pool that persists
    sessions, gates that judge source before it runs, and tools for guests (an allow-listed HTTP
    fetch, bridges to Python functions, WebAssembly modules).  The program is the Python package
    under [src/python/pydeno]; the native extension (Rust), its source scanner included, is outside
    this development.

    ** Parts, files and the code they model

    Shared:
    - [Prelude] (this file): results and exceptions, tactics, integers as bytes, sums.
    - [Utf8], [PyVal], [PyStr], [Regex]: Python's text, values, string methods and regular
      expressions; [Sha256]: [hashlib]/[hmac].

    The worker's confinement:
    - [SeccompTables], [Seccomp], [SeccompRun], [SeccompProps]: [_sandbox.py], the tables and the
      assembler [_seccomp_program] of the syscall filter.
    - [HostSide]: [_isolated.py], the pure parts: [_worker_v8_flags], [_error_reply] and
      [_Redaction], [_remote_error], the checks around console and module handlers.
    - [Pump]: [_isolated.py], [_Pump], the clock of a command.
    - [Isolated], [IsolatedInv], [IsolatedProps], [IsolatedCaps], [IsolatedFail]: [_isolated.py],
      [IsolatedRuntime]: [_request], [_acquire_slot], [_pump], [_supervise], [_idle_check], [_on_call] and the
      handler runs, [_send_reply], [bind_function], [bind_object], [revoke_op], module hooks,
      [close].
    - [Wire]: [_wire.py], [FrameWriter.send_encoded] and [FrameReader.read].
    - [AioFrames]: [_aio.py], [_FrameReader], the same for an event loop, with back-pressure.
    - [AioRuntime], [AioRuntimeInv], [AioCount], [AioRuntimeProps]: [_aio.py], the commands of an
      asynchronous runtime, its host calls, replies and kills, as interleaved steps of one loop;
      [AioSupervisor]: the passes of the supervisor's thread and the usage requests.

    Source and values:
    - [Preflight], [Tokenizer], [PreflightProps]: [_preflight.py], [_preflight_reference.py], the
      scan of source against a policy; [NativeScan]: [_preflight.py], [check_source] and
      [_native_check], which hand the text to the native scanner or to the reference.
    - [Gate], [GateProps], [StaticGateProps]: [_gate.py], decisions, combinators, hooks, the
      thread pool, and the static gate composed with the scan.
    - [Results], [ResultsProps]: [_result.py], console capture and bounded JSON results.
    - [Errors], [ErrorsProps]: [_errors.py], [classify_error].
    - [Limits]: [_limits.py].
    - [Wasm], [WasmProps]: [_wasm.py], reading modules, signatures, calls.
    - [SnapshotAuth]: [_snapshot_auth.py], signed V8 snapshots.
    - [ToolBridge]: [_tools.py], the whole class.
    - [Schema], [SchemaProps]: [_schema.py], names, [SchemaTool] and JSON Schema as TypeScript.
    - [Catalog], [CatalogProps]: [_agent.py], [as_schema_tool] of [_schema.py]: the tools a caller
      gives ([_normalize_tools], [_configure]), the lazy catalog with [search_tools] and
      [describe_tool], and which calls the guest may make ([_Shim], [check_catalog],
      [_check_call]).
    - [CallLimit]: [_agent.py], the JavaScript wrappers of [_prelude] that hold back tool calls.
    - [Prompt], [PromptProps]: [_agent.py], [describe_tools], [typescript_stubs] and
      [describe_tool_catalog], from Python signatures ([ts_type], [_spec]) and schemas.
    - [HttpFetch], [HttpFetchProps]: [tools/http_fetch.py], the whole tool.

    Sessions and pools:
    - [Template], [TemplateInv], [TemplateSteps], [TemplateHost], [TemplateProps]: [_template.py],
      the fork template: the template process, the frames, the host's threads and the kernel's
      table of pids interleaved; the manager and its rotation.
    - [SandboxPool], [SandboxPoolCap], [SandboxPoolProps]: [_sandbox_pool.py], the threaded pool.
    - [Journal], [JournalProps]: [_agent.py], journals: [_seal], [_open], [_parse],
      [_replay_plan]; [JournalValue]: [_encode], [_decode], [_digest].
    - [AgentSession], [AgentSessionProps]: [_agent.py], the session state machine: [_start],
      [_resume], [_answer], [_inline_call], [_observe], [_mark_dead], [_journal], [_replay].
    - [ThreadBudget], [ToolThread], [ToolThreadInv], [ToolThreadCalls], [ToolThreadProps]:
      [_agent.py], [_isolated.py], [_front.py]: [_ThreadBudget] (a chain of counters under locks),
      the tool and loop threads of sessions, and calls given up on by [tool_timeout] ([_TimedCall],
      [_Outlasted]), as interleaved steps.
    - [ToolProc], [ToolProcProps]: [_toolproc.py], a child that runs host tools: its callers,
      reader and watcher ([_Child]) as interleaved steps, and [ToolProcess] with its restarts.
    - [Feed], [FeedProps]: [_front.py], preparing a feed: [_top_level_tokens], [_completion].
    - [Front], [FrontSession], [FrontProps]: [_front.py], limits, inputs, errors and the default
      printer; [PydenoSession] and [PydenoSnapshot] on an agent session.
    - [SessionPool], [SessionPoolProps]: [_pool.py], identifiers, the journal store, rollback
      counters, eviction.
    - [Lease], [LeaseInv], [LeaseOps], [LeaseProps]: [_pool.py], the lease protocol ([get],
      [_acquire], [_release], [_persist], [drop], [close]) as interleaved tasks.

    A struct or an object is a record, an operation a function on it; code that may raise
    returns [result]; shared state under interleaving is a step relation or a sequence of turns
    ([SandboxPool.step], [AioFrames.step], [ToolProc.step], [Template.exec], [Lease.turn],
    [AioRuntime.exec], [ThreadBudget.budget_step], [ToolThread.exec],
    [CallLimit.limiter_step]); the straight-line parent of a worker is
    a state and error monad ([Isolated.M]).  What the operating system, a worker, the network, a
    store or a host function does is an input of the definitions, in any order and with any
    value, never an assumption.

    ** Interfaces

    What lies outside is a class, with the laws the theorems use: [BpfMachine] (the kernel's
    filter machine, the six opcodes), [Mac] (a keyed digest of fixed length; HMAC-SHA-256 is the
    instance), [Std] with [StdLaws] (of [HttpFetch]: IPv6 text, address classes, IDNA, [urljoin];
    the laws: an IPv6 address has 128 bits and its text, with a colon, is read back as it),
    [NativeScanner] with [NativeLaws] (the native source scanner: it finds what the reference
    finds), [Unicode] (Python's character classes, on ASCII), [JournalStore] with [HonestStore] (the
    in-memory store is the instance), [OpRegistry] with [OpLaws] (a runtime a bridge binds into).
    [TextForms] (the text of integers, floats, datetimes and bytes, with its round trips),
    [WordChars] ([\d] and [\w], on ASCII), [Guest] (a session's guest: a deterministic program
    that runs until it calls a tool or ends; no laws).  [json.dumps]/[loads], [repr] of a float,
    base64, [str.lower], what [inspect] says of a callable, set order, the engine's own V8 flags, the class tests of [_failure] and whether a
    source parses are parameters.

    ** What the theorems show

    - Confinement: the assembled filter decides what its specification says
      ([seccomp_program_refines_verdict]) and keeps the refusals
      ([refused_calls_stay_refused], [process_calls_on_self_only]); [strict_eval=True] cannot be
      undone by flags ([strict_eval_holds]).
    - The parent against any worker: only registered, unrevoked host functions are ever called
      ([capabilities_confined]), at most [max_host_calls] times ([host_calls_bounded]); every
      ending of a command is the worker's own answer, leaves the runtime closed, or is a refusal
      of the parent that changed nothing ([request_ends_well]); nothing is written after a
      kill ([silent_after_kill]); of host errors only public and exposed ones reach it
      ([host_errors_redacted]); the clock
      decides as a meter of guest time would ([pump_refines_meter]), so a command is bounded
      ([supervised_command_bounded]).  The same for a loop: one command at a time
      ([aio_commands_in_sync]), exact counts of calls in flight ([aio_calls_bounded]), one reply
      per call and none after a kill ([aio_replies_matched]); the supervisor kills for an
      overrun only ([supervisor_sound]) and leaves no usage request behind ([samples_settle]).
    - Frames: both readers yield the stream's frames whatever the chunking
      ([read_refines_stream], [async_reader_stream]) and back-pressure neither deadlocks nor
      holds more than the high watermark, plus one delivery on a transport that respects a pause
      ([async_reader_backpressure]).
    - Source: the policy scan finds a name however it is spelled ([forbidden_name_found]), is
      total ([tokenizer_total]), and in the default mode blocks before an entry point runs
      ([static_gate_blocks]);
      gates fail closed ([gate_fails_closed]) and combine exactly ([combinators_exact]).
    - Data: signatures, journals and modules round-trip and admit nothing else
      ([verify_exactly_signed], [journal_open_exact], [parse_encode_module]); captured output and
      results are bounded, typed and free of control and format characters ([capture_refines], [to_jsonable_typed],
      [execution_result_shape]); retries are the host's decision ([retry_decided_by_host]).
    - The HTTP tool makes only connections to public addresses of allowed targets
      ([fetch_ssrf_safe], [address_policy]).
    - Bridges: exact budgets, exact attach and detach ([tool_budget_exact],
      [attach_detach_exact]).
    - Tools and what is said of them: texts of a schema, a docstring or an annotation cannot leave
      their comment or literal ([schema_text_confined], [stubs_confined]); names are valid and
      apart ([js_tool_names_valid]); a catalog tool is called only after an answer told of it
      ([catalog_calls_found]), a search finds the best and makes exactly these callable
      ([search_answer_learnt]), and a call runs the tool of its name except for one clash with
      the session's own ([catalog_names_resolve]); the listing of namespaces uses its budget
      ([catalog_budget_used]); calls are held back to a limit and issued in order
      ([calls_limited_in_order]).  [shared_declaration_mixes_references] and
      [placeholder_cuts_literal] are texts that come out wrong.
    - Tool threads: tool threads and serving loops are never more than a pool's or the process's
      budget ([tool_threads_capped]; a loop that waits for cancelled tasks is not counted,
      [winding_loop_uncounted]), each
      call once and none after it was given up ([tool_calls_run_once]), stuck calls counted
      exactly ([stuck_calls_capped]); [closed_session_leaks_thread] is a run that loses a thread and its
      places.
    - Pools and sessions, over every interleaving: the worker cap and single use ([worker_cap],
      [single_use]); one lease per session and final drops where leases end through
      [session(...)], no lost wake-up, capped sessions ([lease_exclusive], [drop_final_interleaved], [waiters_progress], [live_sessions_capped]);
      no rollback and the store round trip ([restore_no_rollback], [write_then_restore]); exact
      replay ([replay_plan_exact]).  [cancelled_get_keeps_lease] is a run in which a cancelled
      [get] loses a lease for good.
    - Agent sessions: values survive a journal ([journal_value_roundtrip]), and a session dumped
      at any point of a life without unjournaled answers is restored by its journal, a dead one as
      of its last good run with everything it spent charged ([journal_restores]);
      [unjournaled_answer_breaks]: a tool result the journal cannot hold makes every journal that
      keeps its run unloadable.
    - Tool processes: a finished child leaves only calls that the watcher is about to settle, and every
      call can be settled whatever the child does ([calls_all_settled],
      [accepted_call_answered]) and answers are never mixed up ([answers_own_frames]).
    - The fork template: a pid is not given away while its owner may signal it
      ([signals_hit_own_worker]), exit codes are the own worker's ([return_code_own]), forks per
      template are bounded ([rotation_bounded]) and none is refused by a retire
      ([reserved_forks_served]).  [retired_templates_leak] and [stale_signals] are runs in which a
      retired template stays for good and in which a signal reaches another process.
    - The front door: preparing a feed only adds to it ([completion_only_inserts]) and code that
      the rewriting breaks runs as written ([feed_falls_back]); only declared functions reach the
      caller of a feed, other calls get a [ReferenceError] ([only_declared_surfaced]); loading
      replaces a session or keeps its journal, and stops a worker only for a state that passed
      its checks ([load_replaces_or_keeps]); the default printer is capped ([default_print_capped]);
      [late_refusal_strands]: an answer refused after its snapshot was taken.

    ** Bounds and fuel

    Recursion is structural almost everywhere (on text, frames, events, inputs).  The loops that
    are not get fuel and a proof that it suffices: the tokenizers run one turn per character of
    the source ([tokenizer_total], [completion_only_inserts]); decoding a journal value takes its
    depth ([JournalValue.levels]); refused calls in [FrontSession._step] take one element of
    [fates] each, for lists of any length; the redirect loop of [HttpFetch] runs over the hops its own
    limit allows; the depth of a Python value converted to JSON is the code's own [_MAX_DEPTH], and
    so is that of a schema ([Schema.top] levels); [Schema.free_name] tries as many names as are
    taken; [ThreadBudget.chain_from] walks a chain no longer than a budget's number;
    [CallLimit.limiter_step] gets what the waiting calls can still do ([enough_fuel]) and
    [Prompt.select] a round per block ([rounds_rounded]).
    Machine integers are [Z] with the width written out where it matters (the 32-bit operands
    and 8-bit jump offsets of the filter, LEB128, WebAssembly values, frame headers).  Times are
    integers (ticks): the rounding of float seconds is modelled only in [Limits].

    In [Lease] a cancellation reaches a task at its await, [close] is called once and leases end
    through [session(...)]; in [Isolated] commands are sequential (the runtime's lock) with
    asynchronous completions and watchdog passes between their steps, a command that finds the lock
    taken waits no longer than [_acquire_slot] says, [revoke_op] comes between commands, and
    [Waiting] is a command whose inputs end while it runs.

    ** Not modelled

    Applying the OS sandbox ([_sandbox.py] past the filter: Landlock, seatbelt, namespaces,
    rlimits) and [_status.py]: system calls whose effect is the kernel's.  The
    worker's own side ([_worker.py]): it drives the native runtime.  The value codec of [_wire.py]
    is the extension's.  [_polyfills.py], [_cli.py], [__init__.py], [integrations/pydantic_ai.py]:
    JavaScript text, argument parsing, re-exports and an adapter to another library.
    [_toolhost.py] is the child of a tool process: it runs what it is sent and is an input of
    [ToolProc].

    Of [_isolated.py] and [_aio.py]: starting processes, the handshake, forks and exit hooks,
    public methods that only wrap a command, capability tokens of the asynchronous runtime, its
    pool and its reaping.  Of [_agent.py]: freezing and preparing a worker ahead of time, the proxy
    and the compile test of the prelude's JavaScript, the rewriting of [_wrap], resolving type
    hints.  Of [_front.py]: handing its pool arguments on, and the threads of [feed_run]
    ([_bounded_external]).  The asynchronous pool, sessions and
    front door repeat the threaded ones over [asyncio] and are left out; their journals, values,
    leases and steps are the modelled ones. *)

From stdpp Require Export base option list strings gmap.
From Stdlib Require Export ZArith Lia.

#[export] Set Default Goal Selector "!".

Declare Scope py_scope.
Delimit Scope py_scope with py.
Open Scope Z_scope.
Open Scope py_scope.

(** ** Python exceptions and results

    A call that may raise returns [result exn A].  An exception is its class and
    the constant part of its message: values interpolated into a message are not
    modelled, because no caller in the modelled code branches on them. *)

Inductive result (E A : Type) : Type :=
| Ok (a : A)
| Err (e : E).
Arguments Ok {E A} a.
Arguments Err {E A} e.

Inductive exn : Type :=
| TypeError (msg : string)
| ValueError (msg : string)
| KeyError (msg : string)
| IndexError (msg : string)
| OverflowError (msg : string)
| RuntimeError (msg : string)
| StructError (msg : string)
| OSError (msg : string)
| TimeoutError (msg : string)
| AssertionError (msg : string).

#[export] Instance exn_eq_dec : EqDecision exn.
Proof. solve_decision. Defined.

#[export] Instance result_ret {E} : MRet (result E) := fun A a => Ok a.
#[export] Instance result_bind {E} : MBind (result E) := fun A B f m =>
  match m with Ok a => f a | Err e => Err e end.
#[export] Instance result_fmap {E} : FMap (result E) := fun A B f m =>
  match m with Ok a => Ok (f a) | Err e => Err e end.

(** [raise_if b e]: the statement [if b: raise e]. *)
Definition raise_if {E} (b : bool) (e : E) : result E unit :=
  if b then Err e else Ok tt.

Definition is_ok {E A} (r : result E A) : bool :=
  match r with Ok _ => true | Err _ => false end.

Lemma Ok_inj {E A} (a b : A) : @Ok E A a = Ok b -> a = b.
Proof. congruence. Qed.

Lemma result_bind_ok {E A B} (m : result E A) (f : A -> result E B) b :
  (m ≫= f) = Ok b <-> exists a, m = Ok a /\ f a = Ok b.
Proof. destruct m; cbn; naive_solver. Qed.

Lemma result_bind_err {E A B} (m : result E A) (f : A -> result E B) e :
  (m ≫= f) = Err e <-> m = Err e \/ exists a, m = Ok a /\ f a = Err e.
Proof. destruct m; cbn; naive_solver. Qed.

Lemma raise_if_ok {E} b (e : E) u : raise_if b e = Ok u <-> b = false.
Proof. destruct b, u; cbn; naive_solver. Qed.

Lemma raise_if_err {E} b (e e' : E) : raise_if b e = Err e' <-> b = true /\ e = e'.
Proof. destruct b; cbn; naive_solver. Qed.

(** ** Development tactics *)

(** Split one [match] of the goal or of a hypothesis, keeping the equation. *)
Ltac split_match :=
  match goal with
  | |- context [match ?x with _ => _ end] => let H := fresh "Hm" in destruct x eqn:H
  | _ : context [match ?x with _ => _ end] |- _ => let H := fresh "Hm" in destruct x eqn:H
  end.

(** Turn boolean tests in the context into propositions. *)
Ltac bool_prop :=
  repeat match goal with
  | H : (_ && _) = true |- _ => apply andb_true_iff in H as [? ?]
  | H : (_ || _) = false |- _ => apply orb_false_iff in H as [? ?]
  | H : negb _ = true |- _ => apply negb_true_iff in H
  | H : negb _ = false |- _ => apply negb_false_iff in H
  | H : (_ <? _) = true |- _ => apply Z.ltb_lt in H
  | H : (_ <? _) = false |- _ => apply Z.ltb_ge in H
  | H : (_ <=? _) = true |- _ => apply Z.leb_le in H
  | H : (_ <=? _) = false |- _ => apply Z.leb_gt in H
  | H : (_ =? _) = true |- _ => apply Z.eqb_eq in H
  | H : (_ =? _) = false |- _ => apply Z.eqb_neq in H
  end.

(** Break a successful monadic computation into the successes of its steps. *)
Ltac inv_ok :=
  repeat match goal with
  | H : (_ ≫= _) = Ok _ |- _ =>
      apply result_bind_ok in H; destruct H as (? & ? & H); cbn beta in H
  | H : mbind _ _ = Ok _ |- _ =>
      apply result_bind_ok in H; destruct H as (? & ? & H); cbn beta in H
  | H : raise_if _ _ = Ok _ |- _ => apply raise_if_ok in H
  | H : Ok _ = Ok _ |- _ => injection H; clear H; intros; subst
  | H : Err _ = Ok _ |- _ => discriminate H
  | H : Ok _ = Err _ |- _ => discriminate H
  | H : mret _ = Ok _ |- _ => injection H; clear H; intros; subst
  end.

(** ** Machine integers *)

Definition mem_Z (x : Z) (l : list Z) : bool := existsb (Z.eqb x) l.

Lemma mem_Z_spec x l : mem_Z x l = true <-> In x l.
Proof.
  unfold mem_Z. rewrite existsb_exists. split.
  - intros (y & Hy & ->%Z.eqb_eq). exact Hy.
  - intros H. exists x. split; [exact H | apply Z.eqb_refl].
Qed.

Lemma mem_Z_false x l : mem_Z x l = false <-> ~ In x l.
Proof. rewrite <- mem_Z_spec. destruct (mem_Z x l); split; congruence. Qed.

(** [le_bytes n x]: the [n] low bytes of [x], least significant first
    ([struct.pack] with a little-endian code of that width). *)
Fixpoint le_bytes (n : nat) (x : Z) : list Z :=
  match n with
  | O => []
  | S n' => x mod 256 :: le_bytes n' (x / 256)
  end.

Fixpoint le_int (bs : list Z) : Z :=
  match bs with
  | [] => 0
  | b :: bs' => b + 256 * le_int bs'
  end.

Definition byte_range (b : Z) : Prop := 0 <= b < 256.

Lemma le_bytes_length n x : length (le_bytes n x) = n.
Proof. revert x; induction n as [|n IH]; intros x; cbn; [done | by rewrite IH]. Qed.

Lemma le_bytes_range n x : Forall byte_range (le_bytes n x).
Proof.
  revert x; induction n as [|n IH]; intros x; cbn; constructor; [|done].
  apply Z.mod_pos_bound; lia.
Qed.

Lemma le_int_le_bytes n x :
  0 <= x < 256 ^ Z.of_nat n -> le_int (le_bytes n x) = x.
Proof.
  revert x; induction n as [|n IH]; intros x Hx.
  - cbn in *. lia.
  - cbn [le_bytes le_int]. rewrite Nat2Z.inj_succ, Z.pow_succ_r in Hx by lia.
    rewrite IH.
    + pose proof (Z.div_mod x 256 ltac:(lia)). lia.
    + split; [apply Z.div_pos; lia | apply Z.div_lt_upper_bound; lia].
Qed.

Lemma le_int_bound bs :
  Forall byte_range bs -> 0 <= le_int bs < 256 ^ Z.of_nat (length bs).
Proof.
  induction 1 as [|b bs Hb _ IH]; cbn -[Z.pow]; [lia|].
  rewrite Nat2Z.inj_succ, Z.pow_succ_r by lia. unfold byte_range in Hb. lia.
Qed.

Lemma le_bytes_le_int bs :
  Forall byte_range bs -> le_bytes (length bs) (le_int bs) = bs.
Proof.
  induction 1 as [|b bs Hb _ IH]; cbn [length le_bytes le_int]; [done|].
  unfold byte_range in Hb.
  rewrite (Z.mul_comm 256), Z_mod_plus_full, Z.mod_small, Z.div_add by lia.
  rewrite Z.div_small, Z.add_0_l by lia. by rewrite IH.
Qed.

(** ** List lemmas *)

Lemma take_app_exact {A} (l k : list A) n : n = length l -> take n (l ++ k) = l.
Proof. intros ->. apply take_app_length. Qed.

Lemma drop_app_exact {A} (l k : list A) n : n = length l -> drop n (l ++ k) = k.
Proof. intros ->. apply drop_app_length. Qed.

(** Sums over a list. *)
Fixpoint total {A} (f : A -> Z) (l : list A) : Z :=
  match l with [] => 0 | x :: l' => f x + total f l' end.

Lemma total_app {A} (f : A -> Z) l l' : total f (l ++ l') = total f l + total f l'.
Proof. induction l as [|x l IH]; cbn; lia. Qed.

Lemma total_replicate {A} (f : A -> Z) n x : f x = 0 -> total f (replicate n x) = 0.
Proof. intros H. induction n as [|n IH]; cbn; lia. Qed.

Lemma total_perm {A} (f : A -> Z) l l' : l ≡ₚ l' -> total f l = total f l'.
Proof. induction 1; cbn; lia. Qed.

Lemma total_nonneg {A} (f : A -> Z) l : (forall x, 0 <= f x) -> 0 <= total f l.
Proof. intros H. induction l as [|x l IH]; cbn; [lia|]. specialize (H x). lia. Qed.

Lemma total_le {A} (f g : A -> Z) l : (forall x, f x <= g x) -> total f l <= total g l.
Proof. intros H. induction l as [|x l IH]; cbn; [lia|]. specialize (H x). lia. Qed.

Lemma total_alter {A} (f : A -> Z) g j l t : l !! j = Some t -> total f (alter g j l) = total f l - f t + f (g t).
Proof. revert j. induction l as [|x l IH]; intros [|j] H; simplify_eq/=; [lia|]. rewrite (IH j H). lia. Qed.

Lemma total_insert {A} (f : A -> Z) l i x y : l !! i = Some x -> total f (<[i := y]> l) = total f l - f x + f y.
Proof.
  revert i. induction l as [|a l IH]; intros [|i] E; cbn in *; try done; [injection E as ->; lia|].
  change (f a + total f (<[i := y]> l) = f a + total f l - f x + f y). rewrite (IH _ E). lia.
Qed.

Lemma total_zero {A} (f : A -> Z) l : (forall x, x ∈ l -> f x = 0) -> total f l = 0.
Proof. intros H. induction l as [|x l IH]; cbn; [done|]. rewrite (H x), IH; set_solver. Qed.

Lemma total_ext {A} (f g : A -> Z) l : (forall x, x ∈ l -> f x = g x) -> total f l = total g l.
Proof.
  induction l as [|x l IH]; intros H; cbn; [done|]. rewrite (H x) by left. rewrite IH; [done|]. intros y Hy. apply H. by right.
Qed.

Create HintDb pydeno discriminated.
Create Rewrite HintDb pydeno.
#[export] Hint Rewrite @length_app @length_take @length_drop @length_map le_bytes_length : pydeno.
#[export] Hint Resolve le_bytes_range : pydeno.
