(* ===== verification/SeccompTables.v ===== *)
(** * The syscall tables of the seccomp filter ([python/pydeno/_sandbox.py])

    The tables the filter is assembled from, entry by entry: the calls refused on
    purpose ([_SYSCALLS]), those that end the process ([_KILL]), the calls allowed
    with any arguments ([_ALLOWED]) and the calls judged on their arguments.  A
    Python dict is an association list, in insertion order; a frozenset is a list
    (the assembler sorts it).  Each number pair is (x86_64, aarch64). *)

From S2P Require Import Prelude.

Definition _SYSCALLS : list (string * (option Z * option Z)) := [
  ("execve", (Some 59, Some 221));
  ("execveat", (Some 322, Some 281));
  ("fork", (Some 57, None));
  ("vfork", (Some 58, None));
  ("ptrace", (Some 101, Some 117));
  ("process_vm_readv", (Some 310, Some 270));
  ("process_vm_writev", (Some 311, Some 271));
  ("mount", (Some 165, Some 40));
  ("umount2", (Some 166, Some 39));
  ("pivot_root", (Some 155, Some 41));
  ("chroot", (Some 161, Some 51));
  ("setns", (Some 308, Some 268));
  ("unshare", (Some 272, Some 97));
  ("kexec_load", (Some 246, Some 104));
  ("init_module", (Some 175, Some 105));
  ("finit_module", (Some 313, Some 273));
  ("delete_module", (Some 176, Some 106));
  ("bpf", (Some 321, Some 280));
  ("perf_event_open", (Some 298, Some 241));
  ("userfaultfd", (Some 323, Some 282));
  ("keyctl", (Some 250, Some 219));
  ("add_key", (Some 248, Some 217));
  ("request_key", (Some 249, Some 218));
  ("open_by_handle_at", (Some 304, Some 265));
  ("name_to_handle_at", (Some 303, Some 264));
  ("io_uring_setup", (Some 425, Some 425));
  ("io_uring_enter", (Some 426, Some 426));
  ("io_uring_register", (Some 427, Some 427));
  ("connect", (Some 42, Some 203));
  ("bind", (Some 49, Some 200));
  ("listen", (Some 50, Some 201));
  ("accept", (Some 43, Some 202));
  ("accept4", (Some 288, Some 242));
  ("swapon", (Some 167, Some 224));
  ("swapoff", (Some 168, Some 225));
  ("reboot", (Some 169, Some 142));
  ("acct", (Some 163, Some 89));
  ("kcmp", (Some 312, Some 272));
  ("socket", (Some 41, Some 198));
  ("memfd_create", (Some 319, Some 279));
  ("sysinfo", (Some 99, Some 179));
  ("getpriority", (Some 140, Some 141));
  ("ioprio_get", (Some 252, Some 31));
  ("pidfd_open", (Some 434, Some 434));
  ("pidfd_getfd", (Some 438, Some 438));
  ("pidfd_send_signal", (Some 424, Some 424));
  ("process_madvise", (Some 440, Some 440));
  ("tkill", (Some 200, Some 130));
  ("syslog", (Some 103, Some 116));
  ("iopl", (Some 172, None));
  ("ioperm", (Some 173, None));
  ("chmod", (Some 90, None));
  ("fchmod", (Some 91, Some 52));
  ("fchmodat", (Some 268, Some 53));
  ("fchmodat2", (Some 452, Some 452));
  ("chown", (Some 92, None));
  ("fchown", (Some 93, Some 55));
  ("lchown", (Some 94, None));
  ("fchownat", (Some 260, Some 54));
  ("utime", (Some 132, None));
  ("utimes", (Some 235, None));
  ("futimesat", (Some 261, None));
  ("utimensat", (Some 280, Some 88));
  ("setxattr", (Some 188, Some 5));
  ("lsetxattr", (Some 189, Some 6));
  ("fsetxattr", (Some 190, Some 7));
  ("removexattr", (Some 197, Some 14));
  ("lremovexattr", (Some 198, Some 15));
  ("fremovexattr", (Some 199, Some 16));
  ("setuid", (Some 105, Some 146));
  ("setgid", (Some 106, Some 144));
  ("setreuid", (Some 113, Some 145));
  ("setregid", (Some 114, Some 143));
  ("setgroups", (Some 116, Some 159));
  ("setresuid", (Some 117, Some 147));
  ("setresgid", (Some 119, Some 149));
  ("setfsuid", (Some 122, Some 151));
  ("setfsgid", (Some 123, Some 152));
  ("capset", (Some 126, Some 91));
  ("msgget", (Some 68, Some 186));
  ("msgsnd", (Some 69, Some 189));
  ("msgrcv", (Some 70, Some 188));
  ("msgctl", (Some 71, Some 187));
  ("semget", (Some 64, Some 190));
  ("semop", (Some 65, Some 193));
  ("semctl", (Some 66, Some 191));
  ("semtimedop", (Some 220, Some 192));
  ("shmget", (Some 29, Some 194));
  ("shmat", (Some 30, Some 196));
  ("shmctl", (Some 31, Some 195));
  ("shmdt", (Some 67, Some 197));
  ("mq_open", (Some 240, Some 180));
  ("mq_unlink", (Some 241, Some 181));
  ("mq_timedsend", (Some 242, Some 182));
  ("mq_timedreceive", (Some 243, Some 183));
  ("mq_notify", (Some 244, Some 184));
  ("mq_getsetattr", (Some 245, Some 185));
  ("inotify_init", (Some 253, None));
  ("inotify_init1", (Some 294, Some 26));
  ("inotify_add_watch", (Some 254, Some 27));
  ("inotify_rm_watch", (Some 255, Some 28));
  ("fanotify_init", (Some 300, Some 262));
  ("fanotify_mark", (Some 301, Some 263));
  ("open_tree", (Some 428, Some 428));
  ("open_tree_attr", (Some 467, Some 467));
  ("mount_setattr", (Some 442, Some 442));
  ("fsconfig", (Some 431, Some 431));
  ("fsopen", (Some 430, Some 430));
  ("fsmount", (Some 432, Some 432));
  ("fspick", (Some 433, Some 433));
  ("move_mount", (Some 429, Some 429));
  ("listmount", (Some 458, Some 458));
  ("statmount", (Some 457, Some 457));
  ("settimeofday", (Some 164, Some 170));
  ("clock_settime", (Some 227, Some 112));
  ("adjtimex", (Some 159, Some 171));
  ("clock_adjtime", (Some 305, Some 266));
  ("sethostname", (Some 170, Some 161));
  ("setdomainname", (Some 171, Some 162));
  ("personality", (Some 135, Some 92));
  ("quotactl", (Some 179, Some 60));
  ("quotactl_fd", (Some 443, Some 443));
  ("lookup_dcookie", (Some 212, Some 18));
  ("nfsservctl", (Some 180, Some 42));
  ("kexec_file_load", (Some 320, Some 294));
  ("lsm_set_self_attr", (Some 460, Some 460));
  ("sync", (Some 162, Some 81));
  ("syncfs", (Some 306, Some 267));
  ("truncate", (Some 76, Some 45));
  ("io_setup", (Some 206, Some 0));
  ("io_destroy", (Some 207, Some 1));
  ("io_getevents", (Some 208, Some 4));
  ("io_submit", (Some 209, Some 2));
  ("io_cancel", (Some 210, Some 3));
  ("io_pgetevents", (Some 333, Some 292));
  ("file_getattr", (Some 468, Some 468));
  ("file_setattr", (Some 469, Some 469));
  ("listns", (Some 470, Some 470));
  ("fchroot", (Some 472, Some 472));
  ("setxattrat", (Some 463, Some 463));
  ("removexattrat", (Some 466, Some 466));
  ("getxattr", (Some 191, Some 8));
  ("lgetxattr", (Some 192, Some 9));
  ("listxattr", (Some 194, Some 11));
  ("llistxattr", (Some 195, Some 12));
  ("getxattrat", (Some 464, Some 464));
  ("listxattrat", (Some 465, Some 465));
  ("mbind", (Some 237, Some 235));
  ("set_mempolicy", (Some 238, Some 237));
  ("set_mempolicy_home_node", (Some 450, Some 450));
  ("memfd_secret", (Some 447, Some 447));
  ("mknodat", (Some 259, Some 33));
  ("linkat", (Some 265, Some 37));
  ("symlinkat", (Some 266, Some 36));
  ("renameat", (Some 264, Some 38));
  ("renameat2", (Some 316, Some 276));
  ("unlinkat", (Some 263, Some 35));
  ("mkdirat", (Some 258, Some 34));
  ("remap_file_pages", (Some 216, Some 234));
  ("copy_file_range", (Some 326, Some 285));
  ("sendfile", (Some 40, Some 71));
  ("splice", (Some 275, Some 76));
  ("tee", (Some 276, Some 77));
  ("sync_file_range", (Some 277, Some 84));
  ("readahead", (Some 187, Some 213));
  ("fallocate", (Some 285, Some 47));
  ("signalfd4", (Some 289, Some 74));
  ("timer_create", (Some 222, Some 107));
  ("timer_delete", (Some 226, Some 111));
  ("timer_settime", (Some 223, Some 110));
  ("timer_gettime", (Some 224, Some 108));
  ("timer_getoverrun", (Some 225, Some 109));
  ("pkey_alloc", (Some 330, Some 289));
  ("pkey_free", (Some 331, Some 290));
  ("pkey_mprotect", (Some 329, Some 288));
  ("process_mrelease", (Some 448, Some 448));
  ("landlock_create_ruleset", (Some 444, Some 444));
  ("landlock_add_rule", (Some 445, Some 445));
  ("landlock_restrict_self", (Some 446, Some 446));
  ("lsm_get_self_attr", (Some 459, Some 459));
  ("lsm_list_modules", (Some 461, Some 461));
  ("seccomp", (Some 317, Some 277));
  ("mkdir", (Some 83, None));
  ("rmdir", (Some 84, None));
  ("creat", (Some 85, None));
  ("link", (Some 86, None));
  ("unlink", (Some 87, None));
  ("symlink", (Some 88, None));
  ("rename", (Some 82, None));
  ("mknod", (Some 133, None));
  ("uselib", (Some 134, None));
  ("modify_ldt", (Some 154, None));
  ("_sysctl", (Some 156, None));
  ("migrate_pages", (Some 256, Some 238));
  ("move_pages", (Some 279, Some 239))
].

Definition _ALLOWED : list (string * (option Z * option Z)) := [
  ("futex", (Some 202, Some 98));
  ("epoll_pwait", (Some 281, Some 22));
  ("epoll_wait", (Some 232, None));
  ("read", (Some 0, Some 63));
  ("write", (Some 1, Some 64));
  ("recvfrom", (Some 45, Some 207));
  ("sendto", (Some 44, Some 206));
  ("madvise", (Some 28, Some 233));
  ("munmap", (Some 11, Some 215));
  ("clock_nanosleep", (Some 230, Some 115));
  ("getppid", (Some 110, Some 173));
  ("gettid", (Some 186, Some 178));
  ("pread64", (Some 17, Some 67));
  ("sched_getaffinity", (Some 204, Some 123));
  ("rt_sigprocmask", (Some 14, Some 135));
  ("clock_gettime", (Some 228, Some 113));
  ("getpid", (Some 39, Some 172));
  ("sched_yield", (Some 24, Some 124));
  ("mmap", (Some 9, Some 222));
  ("mprotect", (Some 10, Some 226));
  ("brk", (Some 12, Some 214));
  ("mremap", (Some 25, Some 216));
  ("set_robust_list", (Some 273, Some 99));
  ("rseq", (Some 334, Some 293));
  ("set_tid_address", (Some 218, Some 96));
  ("exit", (Some 60, Some 93));
  ("exit_group", (Some 231, Some 94));
  ("sched_getparam", (Some 143, Some 121));
  ("sched_getscheduler", (Some 145, Some 120));
  ("sched_getattr", (Some 315, Some 275));
  ("sched_get_priority_max", (Some 146, Some 125));
  ("sched_get_priority_min", (Some 147, Some 126));
  ("nanosleep", (Some 35, Some 101));
  ("clock_getres", (Some 229, Some 114));
  ("gettimeofday", (Some 96, Some 169));
  ("time", (Some 201, None));
  ("rt_sigaction", (Some 13, Some 134));
  ("rt_sigreturn", (Some 15, Some 139));
  ("sigaltstack", (Some 131, Some 132));
  ("restart_syscall", (Some 219, Some 128));
  ("epoll_create1", (Some 291, Some 20));
  ("epoll_create", (Some 213, None));
  ("epoll_ctl", (Some 233, Some 21));
  ("epoll_pwait2", (Some 441, Some 441));
  ("eventfd2", (Some 290, Some 19));
  ("eventfd", (Some 284, None));
  ("poll", (Some 7, None));
  ("ppoll", (Some 271, Some 73));
  ("select", (Some 23, None));
  ("pselect6", (Some 270, Some 72));
  ("pipe2", (Some 293, Some 59));
  ("pipe", (Some 22, None));
  ("readv", (Some 19, Some 65));
  ("writev", (Some 20, Some 66));
  ("pwrite64", (Some 18, Some 68));
  ("preadv", (Some 295, Some 69));
  ("pwritev", (Some 296, Some 70));
  ("lseek", (Some 8, Some 62));
  ("close", (Some 3, Some 57));
  ("dup", (Some 32, Some 23));
  ("dup2", (Some 33, None));
  ("dup3", (Some 292, Some 24));
  ("recvmsg", (Some 47, Some 212));
  ("sendmsg", (Some 46, Some 211));
  ("shutdown", (Some 48, Some 210));
  ("fsync", (Some 74, Some 82));
  ("fdatasync", (Some 75, Some 83));
  ("ftruncate", (Some 77, Some 46));
  ("openat", (Some 257, Some 56));
  ("open", (Some 2, None));
  ("fstat", (Some 5, Some 80));
  ("newfstatat", (Some 262, None));
  ("fstatat", (None, Some 79));
  ("statx", (Some 332, Some 291));
  ("stat", (Some 4, None));
  ("lstat", (Some 6, None));
  ("access", (Some 21, None));
  ("faccessat", (Some 269, Some 48));
  ("faccessat2", (Some 439, Some 439));
  ("readlinkat", (Some 267, Some 78));
  ("readlink", (Some 89, None));
  ("getcwd", (Some 79, Some 17));
  ("getrandom", (Some 318, Some 278));
  ("getrlimit", (Some 97, Some 163));
  ("getrusage", (Some 98, Some 165));
  ("getuid", (Some 102, Some 174));
  ("geteuid", (Some 107, Some 175));
  ("getgid", (Some 104, Some 176));
  ("getegid", (Some 108, Some 177));
  ("getresuid", (Some 118, Some 148));
  ("getresgid", (Some 120, Some 150));
  ("getgroups", (Some 115, Some 158));
  ("uname", (Some 63, Some 160))
].

Definition _KILL : list string := [
  "ptrace";
  "process_vm_readv";
  "process_vm_writev";
  "kcmp";
  "pidfd_getfd";
  "execve";
  "execveat";
  "mount";
  "umount2";
  "pivot_root";
  "chroot";
  "fchroot";
  "setns";
  "unshare";
  "open_tree";
  "open_tree_attr";
  "mount_setattr";
  "fsopen";
  "fsconfig";
  "fsmount";
  "fspick";
  "move_mount";
  "swapon";
  "swapoff";
  "reboot";
  "kexec_load";
  "kexec_file_load";
  "init_module";
  "finit_module";
  "delete_module";
  "bpf";
  "perf_event_open";
  "userfaultfd";
  "io_uring_setup";
  "io_uring_enter";
  "io_uring_register";
  "memfd_create";
  "memfd_secret";
  "keyctl";
  "add_key";
  "request_key";
  "open_by_handle_at";
  "name_to_handle_at";
  "acct";
  "iopl";
  "ioperm";
  "modify_ldt";
  "uselib";
  "_sysctl";
  "lookup_dcookie";
  "nfsservctl";
  "quotactl";
  "quotactl_fd";
  "syslog";
  "settimeofday";
  "clock_settime";
  "adjtimex";
  "clock_adjtime";
  "sethostname";
  "setdomainname";
  "lsm_set_self_attr"
].

Definition _SELF_PID_ARG0 : list (string * (Z * Z)) := [
  ("sched_setscheduler", (144, 119));
  ("sched_setparam", (142, 118));
  ("sched_setattr", (314, 274));
  ("sched_setaffinity", (203, 122));
  ("prlimit64", (302, 261));
  ("get_robust_list", (274, 100));
  ("getpgid", (121, 155));
  ("getsid", (124, 156))
].

Definition _SELF_PID_ARG1 : list (string * (Z * Z)) := [
  ("setpriority", (141, 140));
  ("ioprio_set", (251, 30))
].

Definition _SIGNALS : list (string * (Z * Z)) := [
  ("kill", (62, 129));
  ("tgkill", (234, 131));
  ("rt_sigqueueinfo", (129, 138));
  ("rt_tgsigqueueinfo", (297, 240))
].

(** The which-selector that means a single process, per call. *)
Definition _WHICH_PROCESS : list (string * Z) := [("setpriority", 0); ("ioprio_set", 1)].

Definition _FCNTL : Z * Z := (72, 25).
Definition _IOCTL : Z * Z := (16, 29).
Definition _FCNTL_ALLOWED_CMDS : list Z :=
  [0; 1; 2; 3; 4; 5; 6; 7; 9; 11; 16; 36; 37; 38; 1025; 1030; 1032; 1034].
Definition _IOCTL_ALLOWED_CMDS : list Z :=
  [0x5401; 0x5413; 0x541B; 0x5421; 0x5450; 0x5451].
Definition _PRCTL : Z * Z := (157, 167).
Definition _SOCKETPAIR : Z * Z := (53, 199).
Definition _PRCTL_ALLOWED : list Z := [15; 16; 0x53564D41; 3].
Definition _EXEC_CHECKED : list (Z * Z) := [(9, 222); (10, 226)].
Definition _PROT_EXEC : Z := 4.
Definition _AF_UNIX : Z := 1.
Definition _SOCK_STREAM : Z := 1.
Definition _SOCK_TYPE_MASK : Z := 0xF.
Definition _FIRST_UNREVIEWED : Z := 473.
Definition _CLONE : Z * Z := (56, 220).
Definition _CLONE3 : Z * Z := (435, 435).
Definition _AUDIT_ARCH : list (string * Z) :=
  [("x86_64", 0xC000003E); ("aarch64", 0xC00000B7)].
Definition _BPF_LD_W_ABS : Z := 0x20.
Definition _BPF_JEQ_K : Z := 0x15.
Definition _BPF_JGE_K : Z := 0x35.
Definition _BPF_JSET_K : Z := 0x45.
Definition _BPF_RET_K : Z := 0x06.
Definition _BPF_AND_K : Z := 0x54.
Definition _SECCOMP_RET_ALLOW : Z := 0x7FFF0000.
Definition _SECCOMP_RET_KILL_PROCESS : Z := 0x80000000.
Definition _SECCOMP_RET_ERRNO : Z := 0x00050000.
Definition _EPERM : Z := 1.
Definition _ENOSYS : Z := 38.
Definition _CLONE_THREAD : Z := 0x10000.
Definition _CLONE_NEW_MASK : Z := 0x7E020000.
