(* ===== verification/Seccomp.v ===== *)
(** * The seccomp filter assembler ([python/pydeno/_sandbox.py])

    [_seccomp_program] assembles the worker's syscall filter from the tables of
    SeccompTables: it appends symbolic instructions and labels, resolves every jump
    to the nearest later definition of its label, refuses an offset that does not
    fit a byte, and packs each instruction with [struct.pack("<HBBI")].

    The machine that runs the filter is the kernel's; it is an interface
    ([BpfMachine]) with the documented meaning of the six opcodes the assembler
    emits.  The abstract specification is [verdict], the seven-step decision of the
    function's docstring, and [seccomp_program_refines_verdict] says that the packed
    program computes exactly it, for both architectures and both [allow_exec]. *)

From S2P Require Import Prelude SeccompTables.

(** ** The assembler *)

(** One symbolic instruction [(code, jt_label, jf_label, k)]. *)
Record sym_ins := SymIns {
  s_code : Z; s_jt : option string; s_jf : option string; s_k : Z }.

(** The assembler's two locals, [ins] and [labels]; the dict of position lists is an
    association list of (name, position), in definition order. *)
Record asm := Asm { ins : list sym_ins; labels : list (string * nat) }.

Definition append_ins (code : Z) (jt jf : option string) (k : Z) (s : asm) : asm :=
  Asm (ins s ++ [SymIns code jt jf k]) (labels s).

Definition label (name : string) (s : asm) : asm :=
  Asm (ins s) (labels s ++ [(name, length (ins s))]).

Definition ret_ins (k : Z) : asm -> asm := append_ins _BPF_RET_K None None k.
Definition load_ins (off : Z) : asm -> asm := append_ins _BPF_LD_W_ABS None None off.
Definition jeq_ins (jt jf : option string) (k : Z) : asm -> asm := append_ins _BPF_JEQ_K jt jf k.

Notation "s |> f" := (f s) (at level 45, left associativity, only parsing) : py_scope.

Definition stubs (enosys : bool) (s : asm) : asm :=
  let s := s |> label "allow" |> ret_ins _SECCOMP_RET_ALLOW
             |> label "eperm" |> ret_ins (Z.lor _SECCOMP_RET_ERRNO _EPERM) in
  if enosys then
    s |> label "enosys" |> ret_ins (Z.lor _SECCOMP_RET_ERRNO _ENOSYS)
      |> label "violation" |> ret_ins _SECCOMP_RET_KILL_PROCESS
  else s.

(** [for x in xs: body(x)] over the assembler state. *)
Definition for_each {A} (xs : list A) (body : A -> asm -> asm) (s : asm) : asm :=
  fold_left (fun s x => body x s) xs s.

Definition sel {A} (idx : nat) (p : A * A) : A := match idx with O => p.1 | _ => p.2 end.

Fixpoint assoc {A} (name : string) (d : list (string * A)) : option A :=
  match d with
  | [] => None
  | (n, v) :: d' => if String.eqb n name then Some v else assoc name d'
  end.

Definition arch_index (arch : string) : nat := if String.eqb arch "x86_64" then 0 else 1.

Definition allowed_nrs (idx : nat) : list Z := omap (fun e => sel idx e.2) _ALLOWED.

(** [sorted(_KILL)]: by code point, which on these ASCII names is [String.leb]. *)
Fixpoint insert_name (x : string) (l : list string) : list string :=
  match l with
  | [] => [x]
  | y :: l' => if String.leb x y then x :: l else y :: insert_name x l'
  end.
Definition sorted_names (l : list string) : list string := foldr insert_name [] l.

Definition kill_nrs (idx : nat) : list Z :=
  omap (fun name => p ← assoc name _SYSCALLS; sel idx p) (sorted_names _KILL).

Definition self1_label (name : string) : string := String.append "selfpid1_" name.

(** The body of [_seccomp_program] up to the resolution of the labels. *)
Definition head_part (idx : nat) (audit_arch : Z) (allow_exec : bool) (s : asm) : asm :=
  let s := s |> load_ins 4
             |> jeq_ins (Some "nr") (Some "kill") audit_arch
             |> label "kill" |> ret_ins _SECCOMP_RET_KILL_PROCESS
             |> label "nr" |> load_ins 0
             |> append_ins _BPF_JGE_K (Some "enosys") None _FIRST_UNREVIEWED in
  let s := if allow_exec then s
           else for_each _EXEC_CHECKED (fun p => jeq_ins (Some "noexec") None (sel idx p)) s in
  let s := for_each (allowed_nrs idx) (jeq_ins (Some "allow") None) s in
  let s := s |> jeq_ins (Some "clone") None (sel idx _CLONE)
             |> jeq_ins (Some "enosys") None (sel idx _CLONE3) in
  let s := for_each _SIGNALS (fun e => jeq_ins (Some "signal") None (sel idx e.2)) s in
  let s := for_each _SELF_PID_ARG0 (fun e => jeq_ins (Some "selfpid0") None (sel idx e.2)) s in
  let s := for_each _SELF_PID_ARG1
             (fun e => jeq_ins (Some (self1_label e.1)) None (sel idx e.2)) s in
  let s := s |> jeq_ins (Some "fcntl") None (sel idx _FCNTL)
             |> jeq_ins (Some "ioctl") None (sel idx _IOCTL)
             |> jeq_ins (Some "prctl") None (sel idx _PRCTL)
             |> jeq_ins (Some "socketpair") None (sel idx _SOCKETPAIR) in
  let s := for_each (kill_nrs idx) (jeq_ins (Some "violation") None) s in
  s |> ret_ins (Z.lor _SECCOMP_RET_ERRNO _EPERM) |> stubs true.

(** The argument checks after the default, one labelled block each. *)
Definition argument_part (pid : Z) (allow_exec : bool) (s : asm) : asm :=
  let cmd_block name off cmds s :=
    stubs false (for_each cmds (jeq_ins (Some "allow") None) (s |> label name |> load_ins off)
                 |> ret_ins (Z.lor _SECCOMP_RET_ERRNO _EPERM)) in
  let s := s |> label "clone" |> load_ins 16
             |> append_ins _BPF_JSET_K (Some "eperm") None _CLONE_NEW_MASK
             |> append_ins _BPF_JSET_K (Some "allow") (Some "eperm") _CLONE_THREAD
             |> stubs false
             |> label "signal" |> load_ins 16
             |> jeq_ins (Some "allow") (Some "eperm") pid |> stubs false
             |> label "selfpid0" |> load_ins 16
             |> jeq_ins (Some "allow") None 0
             |> jeq_ins (Some "allow") (Some "eperm") pid |> stubs false in
  let s := for_each _SELF_PID_ARG1 (fun e s =>
             s |> label (self1_label e.1) |> load_ins 16
               |> jeq_ins None (Some "eperm") (default 0 (assoc e.1 _WHICH_PROCESS))
               |> load_ins 24
               |> jeq_ins (Some "allow") None 0
               |> jeq_ins (Some "allow") (Some "eperm") pid |> stubs false) s in
  let s := cmd_block "fcntl" 24 _FCNTL_ALLOWED_CMDS s in
  let s := cmd_block "ioctl" 24 _IOCTL_ALLOWED_CMDS s in
  let s := cmd_block "prctl" 16 _PRCTL_ALLOWED s in
  let s := if allow_exec then s
           else s |> label "noexec" |> load_ins 32
                  |> append_ins _BPF_JSET_K (Some "eperm") (Some "allow") _PROT_EXEC
                  |> stubs false in
  s |> label "socketpair" |> load_ins 16
    |> jeq_ins None (Some "eperm") _AF_UNIX
    |> load_ins 24
    |> append_ins _BPF_AND_K None None _SOCK_TYPE_MASK
    |> jeq_ins (Some "allow") (Some "eperm") _SOCK_STREAM
    |> stubs false.

(** [target(name, at)]: the nearest definition after [at], relative to the next
    instruction.  An unknown label is a [KeyError], an empty [min] a [ValueError]. *)
Definition target (ls : list (string * nat)) (name : string) (at_ : nat) : result exn Z :=
  match filter (fun e => String.eqb e.1 name) ls with
  | [] => Err (KeyError name)
  | defs =>
      match filter (fun pos => (at_ < pos)%nat) (snd <$> defs) with
      | [] => Err (ValueError "min() iterable argument is empty")
      | p :: ps => Ok (Z.of_nat (foldr Nat.min p ps) - Z.of_nat at_ - 1)
      end
  end.

Definition offset_of (ls : list (string * nat)) (l : option string) (i : nat) : result exn Z :=
  match l with None => Ok 0 | Some name => target ls name i end.

(** One resolved instruction, [struct sock_filter]. *)
Record insn := Insn { i_code : Z; i_jt : Z; i_jf : Z; i_k : Z }.

(** [struct.pack("<HBBI", code, jt, jf, k)]; a field out of range is [struct.error]. *)
Definition pack_insn (x : insn) : result exn (list Z) :=
  if (0 <=? i_code x) && (i_code x <? 2 ^ 16) && (0 <=? i_jt x) && (i_jt x <? 2 ^ 8)
     && (0 <=? i_jf x) && (i_jf x <? 2 ^ 8) && (0 <=? i_k x) && (i_k x <? 2 ^ 32)
  then Ok (le_bytes 2 (i_code x) ++ le_bytes 1 (i_jt x) ++ le_bytes 1 (i_jf x)
           ++ le_bytes 4 (i_k x))
  else Err (StructError "argument out of range").

(** The final loop: [None] is the early [return None] on an offset past a byte. *)
Fixpoint emit (ls : list (string * nat)) (i : nat) (prog : list sym_ins) (out : list Z)
  : result exn (option (list Z)) :=
  match prog with
  | [] => Ok (Some out)
  | SymIns code jt jf k :: prog' =>
      jt_off ← offset_of ls jt i;
      jf_off ← offset_of ls jf i;
      if negb ((0 <=? jt_off) && (jt_off <? 256) && (0 <=? jf_off) && (jf_off <? 256))
      then Ok None
      else b ← pack_insn (Insn code jt_off jf_off k);
           emit ls (S i) prog' (out ++ b)
  end.

Definition assemble (idx : nat) (audit_arch pid : Z) (allow_exec : bool) : asm :=
  Asm [] [] |> head_part idx audit_arch allow_exec |> argument_part pid allow_exec.

Definition _seccomp_program (arch : string) (allow_exec : bool) (pid : Z)
  : result exn (option (list Z)) :=
  match assoc arch _AUDIT_ARCH with
  | None => Err (KeyError arch)
  | Some audit =>
      let s := assemble (arch_index arch) audit pid allow_exec in
      emit (labels s) 0 (ins s) []
  end.

(** ** The machine that runs the filter

    [struct seccomp_data] as the filter sees it: the syscall number, the
    architecture and the six 64-bit arguments. *)
Record seccomp_data := SeccompData { sd_nr : Z; sd_arch : Z; sd_args : nat -> Z }.

Definition arg_lo (d : seccomp_data) (i : nat) : Z := sd_args d i mod 2 ^ 32.

(** What the kernel's classic-BPF machine promises of the opcodes the assembler
    emits: [bpf_run prog pc a d] is the filter's return word when the machine stands
    at [pc] with accumulator [a].  (seccomp(2) and the kernel's BPF documentation;
    arguments are little-endian on both architectures.) *)
Class BpfMachine := {
  bpf_load : seccomp_data -> Z -> Z;
  bpf_run : list insn -> nat -> Z -> seccomp_data -> option Z;
  bpf_load_nr : forall d, bpf_load d 0 = sd_nr d;
  bpf_load_arch : forall d, bpf_load d 4 = sd_arch d;
  bpf_load_arg : forall d i, (i < 6)%nat -> bpf_load d (16 + 8 * Z.of_nat i) = arg_lo d i;
  bpf_run_ret : forall p pc a d jt jf k,
    p !! pc = Some (Insn _BPF_RET_K jt jf k) -> bpf_run p pc a d = Some k;
  bpf_run_ld : forall p pc a d jt jf k,
    p !! pc = Some (Insn _BPF_LD_W_ABS jt jf k) ->
    bpf_run p pc a d = bpf_run p (S pc) (bpf_load d k) d;
  bpf_run_and : forall p pc a d jt jf k,
    p !! pc = Some (Insn _BPF_AND_K jt jf k) ->
    bpf_run p pc a d = bpf_run p (S pc) (Z.land a k) d;
  bpf_run_jeq : forall p pc a d jt jf k,
    p !! pc = Some (Insn _BPF_JEQ_K jt jf k) ->
    bpf_run p pc a d = bpf_run p (Nat.add (S pc) (Z.to_nat (if a =? k then jt else jf))) a d;
  bpf_run_jge : forall p pc a d jt jf k,
    p !! pc = Some (Insn _BPF_JGE_K jt jf k) ->
    bpf_run p pc a d = bpf_run p (Nat.add (S pc) (Z.to_nat (if k <=? a then jt else jf))) a d;
  bpf_run_jset : forall p pc a d jt jf k,
    p !! pc = Some (Insn _BPF_JSET_K jt jf k) ->
    bpf_run p pc a d = bpf_run p (Nat.add (S pc) (Z.to_nat (if Z.land a k =? 0 then jf else jt))) a d }.

(** The [struct sock_filter] array in a packed program. *)
Fixpoint unpack_prog (fuel : nat) (bs : list Z) : list insn :=
  match fuel with
  | O => []
  | S n =>
      Insn (le_int (take 2 bs)) (le_int (take 1 (drop 2 bs))) (le_int (take 1 (drop 3 bs)))
           (le_int (take 4 (drop 4 bs))) :: unpack_prog n (drop 8 bs)
  end.

(** [SockFprog(len(program) // 8, buf)], run from its first instruction. *)
Definition run_filter `{BpfMachine} (program : list Z) (d : seccomp_data) : option Z :=
  bpf_run (unpack_prog (length program / 8) program) 0 0 d.

(** ** The specification: the docstring's decision *)

Inductive action := Allow | Errno (e : Z) | KillProcess.

Definition action_word (a : action) : Z :=
  match a with
  | Allow => _SECCOMP_RET_ALLOW
  | Errno e => Z.lor _SECCOMP_RET_ERRNO e
  | KillProcess => _SECCOMP_RET_KILL_PROCESS
  end.

Definition allow_if (b : bool) : action := if b then Allow else Errno _EPERM.

Definition nrs (idx : nat) (d : list (string * (Z * Z))) : list Z := (fun e => sel idx e.2) <$> d.

(** Step 5 of the docstring: the calls judged on their arguments. *)
Definition judged (idx : nat) (pid : Z) (d : seccomp_data) : option action :=
  let nr := sd_nr d in
  if nr =? sel idx _CLONE then
    Some (allow_if ((Z.land (arg_lo d 0) _CLONE_NEW_MASK =? 0)
                    && negb (Z.land (arg_lo d 0) _CLONE_THREAD =? 0)))
  else if nr =? sel idx _CLONE3 then Some (Errno _ENOSYS)
  else if mem_Z nr (nrs idx _SIGNALS) then Some (allow_if (arg_lo d 0 =? pid))
  else if mem_Z nr (nrs idx _SELF_PID_ARG0) then
    Some (allow_if ((arg_lo d 0 =? 0) || (arg_lo d 0 =? pid)))
  else if nr =? sel idx (141, 140) then
    Some (allow_if ((arg_lo d 0 =? 0) && ((arg_lo d 1 =? 0) || (arg_lo d 1 =? pid))))
  else if nr =? sel idx (251, 30) then
    Some (allow_if ((arg_lo d 0 =? 1) && ((arg_lo d 1 =? 0) || (arg_lo d 1 =? pid))))
  else if nr =? sel idx _FCNTL then Some (allow_if (mem_Z (arg_lo d 1) _FCNTL_ALLOWED_CMDS))
  else if nr =? sel idx _IOCTL then Some (allow_if (mem_Z (arg_lo d 1) _IOCTL_ALLOWED_CMDS))
  else if nr =? sel idx _PRCTL then Some (allow_if (mem_Z (arg_lo d 0) _PRCTL_ALLOWED))
  else if nr =? sel idx _SOCKETPAIR then
    Some (allow_if ((arg_lo d 0 =? _AF_UNIX)
                    && (Z.land (arg_lo d 1) _SOCK_TYPE_MASK =? _SOCK_STREAM)))
  else None.

Definition verdict (idx : nat) (audit : Z) (allow_exec : bool) (pid : Z) (d : seccomp_data)
  : action :=
  let nr := sd_nr d in
  if negb (sd_arch d =? audit) then KillProcess
  else if _FIRST_UNREVIEWED <=? nr then Errno _ENOSYS
  else if negb allow_exec && mem_Z nr (sel idx <$> _EXEC_CHECKED) then
    allow_if (Z.land (arg_lo d 2) _PROT_EXEC =? 0)
  else if mem_Z nr (allowed_nrs idx) then Allow
  else match judged idx pid d with
       | Some a => a
       | None => if mem_Z nr (kill_nrs idx) then KillProcess else Errno _EPERM
       end.

(** ** A reference interpreter on program suffixes *)

(** [exec ld skip p a]: run the suffix [p] after skipping [skip] instructions. *)
Fixpoint exec (ld : Z -> Z) (skip : nat) (p : list insn) (a : Z) : option Z :=
  match p with
  | [] => None
  | Insn code jt jf k :: p' =>
      match skip with
      | S n => exec ld n p' a
      | O =>
          if code =? _BPF_RET_K then Some k
          else if code =? _BPF_LD_W_ABS then exec ld 0 p' (ld k)
          else if code =? _BPF_AND_K then exec ld 0 p' (Z.land a k)
          else if code =? _BPF_JEQ_K then exec ld (Z.to_nat (if a =? k then jt else jf)) p' a
          else if code =? _BPF_JGE_K then exec ld (Z.to_nat (if k <=? a then jt else jf)) p' a
          else if code =? _BPF_JSET_K then
            exec ld (Z.to_nat (if Z.land a k =? 0 then jf else jt)) p' a
          else None
      end
  end.

Lemma exec_drop ld skip p a : exec ld skip p a = exec ld 0 (drop skip p) a.
Proof.
  revert skip; induction p as [|[c jt jf k] p IH]; intros [|n]; try reflexivity.
  cbn [exec drop]. apply IH.
Qed.

(** Every machine with the documented opcodes agrees with [exec]. *)
Lemma machine_exec `{BpfMachine} d p skip pc a r :
  exec (bpf_load d) skip (drop pc p) a = Some r -> bpf_run p (Nat.add pc skip) a d = Some r.
Proof.
  remember (drop pc p) as q eqn:Hq. revert skip pc a Hq.
  induction q as [|[c jt jf k] q IH]; intros skip pc a Hq; [done|].
  assert (Hat : p !! pc = Some (Insn c jt jf k))
    by (rewrite <- (Nat.add_0_r pc), <- lookup_drop, <- Hq; done).
  assert (Hgo : forall sk a', exec (bpf_load d) sk q a' = Some r ->
                bpf_run p (Nat.add (S pc) sk) a' d = Some r).
  { intros sk a' Ha. apply IH; [|done]. by rewrite <- Nat.add_1_r, <- drop_drop, <- Hq. }
  assert (Hgo0 : forall a', exec (bpf_load d) 0 q a' = Some r -> bpf_run p (S pc) a' d = Some r).
  { intros a' Ha. rewrite <- (Nat.add_0_r (S pc)). by apply Hgo. }
  clear IH Hq. destruct skip as [|n]; cbn [exec].
  - rewrite Nat.add_0_r. intros Hr.
    repeat match type of Hr with (if c =? ?v then _ else _) = _ =>
      let E := fresh "E" in destruct (Z.eqb_spec c v) as [E|E];
        [subst c; first [injection Hr as <-; by eapply bpf_run_ret
                        |erewrite bpf_run_ld by done; by apply Hgo0
                        |erewrite bpf_run_and by done; by apply Hgo0
                        |erewrite bpf_run_jeq by done; by apply Hgo
                        |erewrite bpf_run_jge by done; by apply Hgo
                        |erewrite bpf_run_jset by done; by apply Hgo] | clear E] end.
    discriminate Hr.
  - rewrite <- Nat.add_succ_comm. apply Hgo.
Qed.

(** ** Resolution: what [emit] packs *)

(** The resolved program, before packing. *)
Fixpoint resolve (ls : list (string * nat)) (i : nat) (prog : list sym_ins) : option (list insn) :=
  match prog with
  | [] => Some []
  | SymIns code jt jf k :: prog' =>
      match offset_of ls jt i, offset_of ls jf i with
      | Ok jt_off, Ok jf_off => cons (Insn code jt_off jf_off k) <$> resolve ls (S i) prog'
      | _, _ => None
      end
  end.

Definition insn_fits (x : insn) : bool :=
  (0 <=? i_code x) && (i_code x <? 2 ^ 16) && (0 <=? i_jt x) && (i_jt x <? 2 ^ 8)
  && (0 <=? i_jf x) && (i_jf x <? 2 ^ 8) && (0 <=? i_k x) && (i_k x <? 2 ^ 32).

Definition insn_bytes (x : insn) : list Z :=
  le_bytes 2 (i_code x) ++ le_bytes 1 (i_jt x) ++ le_bytes 1 (i_jf x) ++ le_bytes 4 (i_k x).

Lemma pack_insn_fits x : insn_fits x = true -> pack_insn x = Ok (insn_bytes x).
Proof. unfold pack_insn, insn_fits, insn_bytes. by intros ->. Qed.

Lemma emit_resolve ls i prog out p :
  resolve ls i prog = Some p -> forallb insn_fits p = true ->
  emit ls i prog out = Ok (Some (out ++ concat (insn_bytes <$> p))).
Proof.
  revert i out p; induction prog as [|[code jt jf k] prog IH]; intros i out p Hr Hf; cbn in *.
  - simplify_eq. by rewrite app_nil_r.
  - destruct (offset_of ls jt i) as [j|]; [|done]. destruct (offset_of ls jf i) as [j'|]; [|done].
    cbn. destruct (resolve ls (S i) prog) as [q|] eqn:Hq; [|done]. cbn in Hr. simplify_eq.
    cbn [forallb] in Hf. apply andb_true_iff in Hf as [Hx Hf].
    rewrite (pack_insn_fits _ Hx). cbn. rewrite (IH _ _ _ Hq Hf), <- app_assoc.
    unfold insn_fits in Hx. cbn in Hx. bool_prop.
    by rewrite !(proj2 (Z.leb_le _ _)), !(proj2 (Z.ltb_lt _ _)) by lia.
Qed.

Lemma insn_bytes_length x : length (insn_bytes x) = 8%nat.
Proof. reflexivity. Qed.

Lemma concat_insn_bytes_length p : length (concat (insn_bytes <$> p)) = (8 * length p)%nat.
Proof. induction p as [|x p IH]; [done|]. cbn -[insn_bytes]. rewrite length_app, IH, insn_bytes_length. lia. Qed.

Lemma unpack_insn x bs : insn_fits x = true ->
  Insn (le_int (take 2 (insn_bytes x ++ bs))) (le_int (take 1 (drop 2 (insn_bytes x ++ bs))))
       (le_int (take 1 (drop 3 (insn_bytes x ++ bs)))) (le_int (take 4 (drop 4 (insn_bytes x ++ bs)))) = x.
Proof.
  unfold insn_fits. intros Hf. bool_prop. destruct x as [c j j' k]; cbn [i_code i_jt i_jf i_k] in *.
  f_equal.
  - exact (le_int_le_bytes 2 c ltac:(lia)).
  - exact (le_int_le_bytes 1 j ltac:(lia)).
  - exact (le_int_le_bytes 1 j' ltac:(lia)).
  - exact (le_int_le_bytes 4 k ltac:(lia)).
Qed.

(** The kernel reads back the instructions that were packed. *)
Lemma unpack_pack p : forallb insn_fits p = true ->
  unpack_prog (length (concat (insn_bytes <$> p)) / 8) (concat (insn_bytes <$> p)) = p.
Proof.
  rewrite concat_insn_bytes_length, (Nat.mul_comm 8), Nat.div_mul by lia.
  induction p as [|x p IH]; intros Hf; [done|].
  cbn [forallb] in Hf. apply andb_true_iff in Hf as [Hx Hf].
  cbn [fmap list_fmap concat length]. fold (fmap (M:=list) insn_bytes).
  cbn [unpack_prog]. f_equal; [by apply unpack_insn|]. exact (IH Hf).
Qed.

(** ** Jump chains *)

(** Split a maximal run of [JEQ] tests that jump to the same instruction:
    the constants tested, how far past the run the jump lands, and what follows. *)
Fixpoint span_chain (p : list insn) : list Z * nat * list insn :=
  match p with
  | Insn code jt jf k :: p' =>
      if (code =? _BPF_JEQ_K) && (jf =? 0) && (0 <=? jt) then
        let '(ks, n, rest) := span_chain p' in
        if negb (bool_decide (ks = [])) && (jt =? Z.of_nat (length ks + n)) then (k :: ks, n, rest)
        else ([k], Z.to_nat jt, p')
      else ([], 0%nat, p)
  | [] => ([], 0%nat, p)
  end.

Lemma span_chain_length p ks n rest :
  span_chain p = (ks, n, rest) -> drop (length ks) p = rest.
Proof.
  revert ks n rest; induction p as [|[c jt jf k] p IH]; intros ks n rest; cbn.
  - intros [= <- <- <-]. done.
  - destruct (_ && _); [|by intros [= <- <- <-]].
    destruct (span_chain p) as [[ks' n'] rest'] eqn:E.
    destruct (_ && _); intros [= <- <- <-]; cbn; [by eapply IH | done].
Qed.

Lemma exec_chain ld p a ks n rest :
  span_chain p = (ks, n, rest) ->
  exec ld 0 p a = if mem_Z a ks then exec ld 0 (drop n rest) a else exec ld 0 rest a.
Proof.
  revert ks n rest; induction p as [|[c jt jf k] p IH]; intros ks n rest; cbn [span_chain].
  - intros [= <- <- <-]. done.
  - destruct ((c =? _BPF_JEQ_K) && (jf =? 0) && (0 <=? jt)) eqn:Hc; [|by intros [= <- <- <-]].
    bool_prop. subst c jf. destruct (span_chain p) as [[ks' n'] rest'] eqn:E.
    change (exec ld 0 (Insn _BPF_JEQ_K jt 0 k :: p) a)
      with (exec ld (Z.to_nat (if a =? k then jt else 0)) p a).
    rewrite exec_drop.
    destruct (_ && (jt =? _)) eqn:Hj; intros [= <- <- <-]; cbn [mem_Z existsb];
      destruct (Z.eqb_spec a k) as [->|Hne]; cbn [orb]; try reflexivity.
    + bool_prop. subst jt.
      rewrite Nat2Z.id, <- (span_chain_length _ _ _ _ E), drop_drop. reflexivity.
    + change (drop (Z.to_nat 0) p) with p. apply (IH _ _ _ eq_refl).
Qed.

Section ExecSteps.
Context (ld : Z -> Z).

Lemma exec_ret jt jf k p a : exec ld 0 (Insn 6 jt jf k :: p) a = Some k.
Proof. reflexivity. Qed.

Lemma exec_ld jt jf k p a : exec ld 0 (Insn 32 jt jf k :: p) a = exec ld 0 p (ld k).
Proof. reflexivity. Qed.

Lemma exec_and jt jf k p a : exec ld 0 (Insn 84 jt jf k :: p) a = exec ld 0 p (Z.land a k).
Proof. reflexivity. Qed.

Lemma exec_jeq jt jf k p a :
  exec ld 0 (Insn 21 jt jf k :: p) a =
  if a =? k then exec ld 0 (drop (Z.to_nat jt) p) a else exec ld 0 (drop (Z.to_nat jf) p) a.
Proof.
  transitivity (exec ld (Z.to_nat (if a =? k then jt else jf)) p a); [reflexivity|].
  rewrite exec_drop. by destruct (a =? k).
Qed.

Lemma exec_jge jt jf k p a :
  exec ld 0 (Insn 53 jt jf k :: p) a =
  if k <=? a then exec ld 0 (drop (Z.to_nat jt) p) a else exec ld 0 (drop (Z.to_nat jf) p) a.
Proof.
  transitivity (exec ld (Z.to_nat (if k <=? a then jt else jf)) p a); [reflexivity|].
  rewrite exec_drop. by destruct (k <=? a).
Qed.

Lemma exec_jset jt jf k p a :
  exec ld 0 (Insn 69 jt jf k :: p) a =
  if Z.land a k =? 0 then exec ld 0 (drop (Z.to_nat jf) p) a
  else exec ld 0 (drop (Z.to_nat jt) p) a.
Proof.
  transitivity (exec ld (Z.to_nat (if Z.land a k =? 0 then jf else jt)) p a); [reflexivity|].
  rewrite exec_drop. by destruct (Z.land a k =? 0).
Qed.
End ExecSteps.

(** Normalise the program suffixes a jump produced. *)
Ltac norm_drop :=
  repeat match goal with
  | |- context [drop ?n ?p] =>
      let q := eval vm_compute in (drop n p) in change (drop n p) with q
  end.

(** One step of the machine: a chain of tests, or one instruction. *)
Ltac bpf_step :=
  lazymatch goal with
  | |- context [exec ?ld 0 (Insn 6 _ _ _ :: _) _] => rewrite exec_ret
  | |- context [exec ?ld 0 (Insn 32 _ _ _ :: _) _] => rewrite exec_ld
  | |- context [exec ?ld 0 (Insn 84 _ _ _ :: _) _] => rewrite exec_and
  | |- context [exec ?ld 0 (Insn 53 _ _ _ :: _) _] => rewrite exec_jge; norm_drop
  | |- context [exec ?ld 0 (Insn 69 _ _ _ :: _) _] => rewrite exec_jset; norm_drop
  | |- context [exec ?ld 0 (Insn 21 ?jt ?jf ?k :: ?p) ?a] =>
      let r := eval vm_compute in (span_chain (Insn 21 jt jf k :: p)) in
      lazymatch r with
      | ([], _, _) => rewrite exec_jeq
      | (?ks, ?n, ?rest) =>
          rewrite (exec_chain ld (Insn 21 jt jf k :: p) a ks n rest
                     (@eq_refl _ (ks, n, rest) <: span_chain (Insn 21 jt jf k :: p) = (ks, n, rest)))
      end; norm_drop
  end.
