(* ===== verification/SeccompRun.v ===== *)
(** * Running the assembled filter

    The four programs (two architectures, with and without executable memory) are
    assembled by computation, the worker's pid staying a variable, and run on the
    reference interpreter: the decision tree the machine walks is the one of the
    specification [verdict]. *)

From S2P Require Import Prelude SeccompTables Seccomp.

(** ** The assembled program computes the verdict *)

Lemma mem_Z_single x k : mem_Z x [k] = (x =? k).
Proof. unfold mem_Z. cbn. by rewrite orb_false_r. Qed.

Definition resolved (idx : nat) (audit pid : Z) (allow_exec : bool) : list insn :=
  let s := assemble idx audit pid allow_exec in default [] (resolve (labels s) 0 (ins s)).

(** The loads of a machine, as the filter uses them. *)
Record sees (ld : Z -> Z) (d : seccomp_data) : Prop := Sees {
  sees_nr : ld 0 = sd_nr d; sees_arch : ld 4 = sd_arch d;
  sees_arg0 : ld 16 = arg_lo d 0; sees_arg1 : ld 24 = arg_lo d 1;
  sees_arg2 : ld 32 = arg_lo d 2 }.

(** Case on the first test of the machine's tree; the specification tests the same. *)
Ltac tree_case :=
  match goal with
  | |- (if ?b then _ else _) = _ => let E := fresh "E" in destruct b eqn:E
  end; cbn [andb orb negb allow_if action_word].

(** Expose both sides as decision trees over the same tests, then walk them together. *)
Ltac expose_verdict idx :=
  unfold verdict, judged;
  let v := eval vm_compute in (allowed_nrs idx) in change (allowed_nrs idx) with v;
  let v := eval vm_compute in (kill_nrs idx) in change (kill_nrs idx) with v;
  let v := eval vm_compute in (nrs idx _SIGNALS) in change (nrs idx _SIGNALS) with v;
  let v := eval vm_compute in (nrs idx _SELF_PID_ARG0) in change (nrs idx _SELF_PID_ARG0) with v;
  let v := eval vm_compute in (sel idx <$> _EXEC_CHECKED) in
  change (sel idx <$> _EXEC_CHECKED) with v;
  cbv [sel fst snd _CLONE _CLONE3 _FCNTL _IOCTL _PRCTL _SOCKETPAIR _FIRST_UNREVIEWED
       _AF_UNIX _SOCK_STREAM _SOCK_TYPE_MASK _CLONE_NEW_MASK _CLONE_THREAD
       _PROT_EXEC _FCNTL_ALLOWED_CMDS _IOCTL_ALLOWED_CMDS _PRCTL_ALLOWED];
  cbn [andb negb].

Ltac solve_filter idx audit pid ae ld d Hs :=
  let p := eval vm_compute in (resolved idx audit pid ae) in
  change (resolved idx audit pid ae) with p;
  expose_verdict idx;
  repeat (first
    [ lazymatch goal with |- Some _ = Some _ => reflexivity end
    | progress rewrite ?mem_Z_single, ?(sees_nr ld d Hs), ?(sees_arch ld d Hs),
        ?(sees_arg0 ld d Hs), ?(sees_arg1 ld d Hs), ?(sees_arg2 ld d Hs)
    | bpf_step | tree_case ]).

Section FilterRuns.
Context (ld : Z -> Z) (d : seccomp_data) (pid : Z) (Hs : sees ld d).

Lemma exec_x86_64_exec :
  exec ld 0 (resolved 0 0xC000003E pid true) 0 = Some (action_word (verdict 0 0xC000003E true pid d)).
Proof. solve_filter 0%nat 0xC000003E pid true ld d Hs. Qed.

Lemma exec_x86_64_noexec :
  exec ld 0 (resolved 0 0xC000003E pid false) 0 = Some (action_word (verdict 0 0xC000003E false pid d)).
Proof. solve_filter 0%nat 0xC000003E pid false ld d Hs. Qed.

Lemma exec_aarch64_exec :
  exec ld 0 (resolved 1 0xC00000B7 pid true) 0 = Some (action_word (verdict 1 0xC00000B7 true pid d)).
Proof. solve_filter 1%nat 0xC00000B7 pid true ld d Hs. Qed.

Lemma exec_aarch64_noexec :
  exec ld 0 (resolved 1 0xC00000B7 pid false) 0 = Some (action_word (verdict 1 0xC00000B7 false pid d)).
Proof. solve_filter 1%nat 0xC00000B7 pid false ld d Hs. Qed.
End FilterRuns.
