(* ===== verification/SeccompProps.v ===== *)
(** * Properties of the seccomp filter

    The refinement theorem of the assembler, and what it gives: the table of calls
    refused on purpose is refused, the never-legitimate calls end the process, a
    jitless worker gets no executable memory, and calls that name a process only act
    on the worker itself. *)

From S2P Require Import Prelude SeccompTables Seccomp SeccompRun.

(** ** A concrete machine: the interface can be met *)

Definition ref_load (d : seccomp_data) (off : Z) : Z :=
  if off =? 0 then sd_nr d else if off =? 4 then sd_arch d
  else arg_lo d (Z.to_nat ((off - 16) / 8)).

Definition ref_run (p : list insn) (pc : nat) (a : Z) (d : seccomp_data) : option Z :=
  exec (ref_load d) 0 (drop pc p) a.

Lemma ref_load_arg d i : (i < 6)%nat -> ref_load d (16 + 8 * Z.of_nat i) = arg_lo d i.
Proof.
  intros Hi. unfold ref_load.
  rewrite (proj2 (Z.eqb_neq _ 0)), (proj2 (Z.eqb_neq _ 4)) by lia.
  f_equal. rewrite Z.add_simpl_l, Z.mul_comm, Z.div_mul by lia. apply Nat2Z.id.
Qed.

Lemma ref_run_skip p pc a d n : exec (ref_load d) n (drop (S pc) p) a = ref_run p (Nat.add (S pc) n) a d.
Proof. unfold ref_run. by rewrite exec_drop, drop_drop. Qed.

#[export] Instance ref_machine : BpfMachine.
Proof.
  refine {| bpf_load := ref_load; bpf_run := ref_run; bpf_load_arg := ref_load_arg |}.
  1-2: reflexivity.
  all: intros p pc a d jt jf k Hat; unfold ref_run at 1; rewrite (drop_S _ _ _ Hat); try reflexivity.
  all: rewrite <- ref_run_skip; reflexivity.
Defined.

(** ** The refinement *)

Section Refinement.
Context `{BpfMachine}.

Lemma machine_sees d : sees (bpf_load d) d.
Proof.
  split.
  - apply bpf_load_nr.
  - apply bpf_load_arch.
  - exact (bpf_load_arg d 0 ltac:(lia)).
  - exact (bpf_load_arg d 1 ltac:(lia)).
  - exact (bpf_load_arg d 2 ltac:(lia)).
Qed.

(** Every field of the assembled program fits its width. *)
Lemma resolved_fits idx audit pid ae :
  (idx = 0%nat /\ audit = 0xC000003E) \/ (idx = 1%nat /\ audit = 0xC00000B7) ->
  0 <= pid < 2 ^ 32 ->
  let s := assemble idx audit pid ae in
  resolve (labels s) 0 (ins s) = Some (resolved idx audit pid ae) /\
  forallb insn_fits (resolved idx audit pid ae) = true.
Proof.
  intros Hi Hp. assert (Hk : (0 <=? pid) && (pid <? 2 ^ 32) = true).
  { apply andb_true_iff. split; [apply Z.leb_le | apply Z.ltb_lt]; lia. }
  apply andb_true_iff in Hk as [Hk1 Hk2].
  destruct Hi as [[-> ->]|[-> ->]], ae; (split; [vm_compute; reflexivity|]);
    match goal with |- forallb insn_fits ?r = true =>
      let p := eval vm_compute in r in change r with p end;
    unfold insn_fits; cbn [forallb i_code i_jt i_jf i_k]; rewrite ?Hk1, ?Hk2; reflexivity.
Qed.

Lemma resolved_runs idx audit pid ae d :
  (idx = 0%nat /\ audit = 0xC000003E) \/ (idx = 1%nat /\ audit = 0xC00000B7) ->
  exec (bpf_load d) 0 (resolved idx audit pid ae) 0
  = Some (action_word (verdict idx audit ae pid d)).
Proof.
  pose proof (machine_sees d) as Hs.
  intros [[-> ->]|[-> ->]]; destruct ae;
    auto using exec_x86_64_exec, exec_x86_64_noexec, exec_aarch64_exec, exec_aarch64_noexec.
Qed.

Lemma audit_arch_cases arch audit :
  assoc arch _AUDIT_ARCH = Some audit ->
  (arch_index arch = 0%nat /\ audit = 0xC000003E) \/ (arch_index arch = 1%nat /\ audit = 0xC00000B7).
Proof.
  unfold arch_index. cbn [assoc _AUDIT_ARCH].
  destruct (String.eqb_spec "x86_64" arch) as [<-|Hne]; [intros [= <-]; by left|].
  destruct (String.eqb_spec "aarch64" arch) as [<-|]; [intros [= <-]; by right|done].
Qed.

Lemma filter_verdict arch audit ae pid program d :
  assoc arch _AUDIT_ARCH = Some audit -> 0 <= pid < 2 ^ 32 ->
  _seccomp_program arch ae pid = Ok (Some program) ->
  run_filter program d = Some (action_word (verdict (arch_index arch) audit ae pid d)).
Proof.
  intros Ha Hp. unfold _seccomp_program. rewrite Ha.
  pose proof (audit_arch_cases _ _ Ha) as Hc.
  destruct (resolved_fits _ _ _ ae Hc Hp) as [Hr Hf].
  rewrite (emit_resolve _ _ _ _ _ Hr Hf). intros [= <-].
  unfold run_filter. rewrite unpack_pack by done.
  rewrite <- (Nat.add_0_r 0). apply machine_exec. by apply resolved_runs.
Qed.

Lemma program_exists arch audit ae pid :
  assoc arch _AUDIT_ARCH = Some audit -> 0 <= pid < 2 ^ 32 ->
  exists program, _seccomp_program arch ae pid = Ok (Some program).
Proof.
  intros Ha Hp. unfold _seccomp_program. rewrite Ha.
  destruct (resolved_fits _ _ _ ae (audit_arch_cases _ _ Ha) Hp) as [Hr Hf].
  rewrite (emit_resolve _ _ _ _ _ Hr Hf). by eexists.
Qed.
End Refinement.

(** ** Reading the verdict *)

(** The numbers the filter can answer with [Allow]: listed, or judged on arguments. *)
Definition judged_nrs (idx : nat) : list Z :=
  [sel idx _CLONE; sel idx _CLONE3] ++ nrs idx _SIGNALS ++ nrs idx _SELF_PID_ARG0
  ++ nrs idx _SELF_PID_ARG1 ++ [sel idx _FCNTL; sel idx _IOCTL; sel idx _PRCTL; sel idx _SOCKETPAIR].

Definition opened_nrs (idx : nat) : list Z :=
  (sel idx <$> _EXEC_CHECKED) ++ allowed_nrs idx ++ judged_nrs idx.

Lemma mem_Z_app x l k : mem_Z x (l ++ k) = mem_Z x l || mem_Z x k.
Proof. apply existsb_app. Qed.

Lemma judged_none idx pid d :
  (idx < 2)%nat -> mem_Z (sd_nr d) (judged_nrs idx) = false -> judged idx pid d = None.
Proof.
  intros Hi. unfold judged_nrs, judged. rewrite !mem_Z_app. unfold mem_Z at 1 4 5.
  destruct idx as [|[|]]; [| |lia]; cbn [sel existsb nrs fmap list_fmap fst snd _SELF_PID_ARG1].
  all: intros Hn; repeat (apply orb_false_iff in Hn; destruct Hn as [? Hn]); bool_prop.
  all: repeat match goal with H : _ || _ = false |- _ => apply orb_false_iff in H; destruct H end.
  all: repeat match goal with H : ?b = false |- context [if ?b then _ else _] => rewrite H end.
  all: bool_prop; by repeat case_match; bool_prop.
Qed.

Lemma verdict_range idx audit ae pid d :
  In (verdict idx audit ae pid d) [Allow; Errno _EPERM; Errno _ENOSYS; KillProcess].
Proof. unfold verdict, judged, allow_if. repeat case_match; simplify_eq; cbn; tauto. Qed.

Lemma verdict_word_allow idx audit ae pid d :
  action_word (verdict idx audit ae pid d) = _SECCOMP_RET_ALLOW -> verdict idx audit ae pid d = Allow.
Proof.
  intros Hw. destruct (verdict_range idx audit ae pid d) as [<-|[E|[E|[E|[]]]]];
    [done|..]; rewrite <- E in Hw; discriminate Hw.
Qed.

Lemma arch_index_lt arch : (arch_index arch < 2)%nat.
Proof. unfold arch_index. case_match; lia. Qed.

(** No number of the refused table is opened, on either architecture. *)
Lemma refused_not_opened idx name nums nr :
  (idx < 2)%nat -> In (name, nums) _SYSCALLS -> sel idx nums = Some nr ->
  nr < _FIRST_UNREVIEWED /\ mem_Z nr (opened_nrs idx) = false.
Proof.
  intros Hi Hin Hs.
  assert (Hall : forallb (fun e => match sel idx e.2 with
      | Some n => (n <? _FIRST_UNREVIEWED) && negb (mem_Z n (opened_nrs idx))
      | None => true end) _SYSCALLS = true)
    by (destruct idx as [|[|]]; [vm_compute; reflexivity.. | lia]).
  rewrite forallb_forall in Hall. specialize (Hall _ Hin). cbn [snd] in Hall. rewrite Hs in Hall.
  bool_prop. done.
Qed.

Lemma verdict_refused idx audit ae pid d name nums nr :
  (idx < 2)%nat -> In (name, nums) _SYSCALLS -> sel idx nums = Some nr -> sd_nr d = nr ->
  sd_arch d = audit ->
  verdict idx audit ae pid d = if mem_Z nr (kill_nrs idx) then KillProcess else Errno _EPERM.
Proof.
  intros Hi Hin Hs <- <-. destruct (refused_not_opened _ _ _ _ Hi Hin Hs) as [Hlt Hno].
  unfold opened_nrs in Hno. rewrite !mem_Z_app in Hno. apply orb_false_iff in Hno as [He Hno].
  apply orb_false_iff in Hno as [Ha Hj].
  unfold verdict. rewrite Z.eqb_refl, He, Ha, (judged_none _ _ _ Hi Hj), andb_false_r.
  cbn [negb]. by rewrite (proj2 (Z.leb_gt _ _) Hlt).
Qed.

(** Every name of the kill list is in the refused table, so that [_SYSCALLS[name]]
    in the assembler never raises, and its number (where the architecture has the
    call) is tested. *)
Lemma kill_listed idx name :
  (idx < 2)%nat -> In name _KILL ->
  exists nums, In (name, nums) _SYSCALLS /\ assoc name _SYSCALLS = Some nums /\
    forall nr, sel idx nums = Some nr -> mem_Z nr (kill_nrs idx) = true.
Proof.
  intros Hi Hin.
  assert (Hall : forallb (fun n => match assoc n _SYSCALLS with
      | Some p => bool_decide ((n, p) ∈ _SYSCALLS) && match sel idx p with
                  | Some nr => mem_Z nr (kill_nrs idx) | None => true end
      | None => false end) _KILL = true)
    by (destruct idx as [|[|]]; [vm_compute; reflexivity.. | lia]).
  rewrite forallb_forall in Hall. specialize (Hall _ Hin). cbv beta in Hall.
  destruct (assoc name _SYSCALLS) as [p|]; [|done]. exists p.
  apply andb_true_iff in Hall as [H1%bool_decide_eq_true H2]. rewrite list_elem_of_In in H1.
  split; [done|]. split; [done|]. intros nr E. by rewrite E in H2.
Qed.

(** A name of the refused table has one entry. *)
Lemma syscalls_functional name p q :
  In (name, p) _SYSCALLS -> In (name, q) _SYSCALLS -> p = q.
Proof.
  assert (Hnd : NoDup (fst <$> _SYSCALLS)) by (eapply bool_decide_eq_true_1; vm_compute; reflexivity).
  intros Hp%list_elem_of_In Hq%list_elem_of_In.
  apply elem_of_list_to_map_1 in Hp, Hq; [congruence|done..].
Qed.

(** ** The properties *)

(** C1. The filter [_seccomp_program] assembles is the decision its docstring states:
    for either architecture, with and without executable memory, and any worker pid,
    the assembler returns a program (never [None], never an exception), and on every
    machine with the documented opcodes that program answers every syscall with the
    word of [verdict] (kill a foreign ABI, ENOSYS past the reviewed numbers, the
    allow-list, the argument checks, the kill list, EPERM otherwise). *)
Theorem seccomp_program_refines_verdict `{BpfMachine} arch audit ae pid :
  assoc arch _AUDIT_ARCH = Some audit -> 0 <= pid < 2 ^ 32 ->
  exists program, _seccomp_program arch ae pid = Ok (Some program) /\
    forall d, run_filter program d = Some (action_word (verdict (arch_index arch) audit ae pid d)).
Proof.
  intros Ha Hp. destruct (program_exists _ _ ae _ Ha Hp) as [program Hprog].
  exists program. split; [done|]. intros d. by eapply filter_verdict.
Qed.

Lemma seccomp_program_refines_verdict_witness :
  exists program, _seccomp_program "x86_64" false 4242 = Ok (Some program) /\
    run_filter program (SeccompData 59 0xC000003E (fun _ => 0)) = Some _SECCOMP_RET_KILL_PROCESS.
Proof.
  destruct (seccomp_program_refines_verdict "x86_64" 0xC000003E false 4242 eq_refl ltac:(lia))
    as (program & Hprog & Hrun).
  exists program. split; [exact Hprog|]. rewrite Hrun. vm_compute. reflexivity.
Defined.

(** No syscall of the table of calls refused on purpose is ever allowed, whatever
    its arguments, and the never-legitimate ones of [_KILL] end the process when made
    through the native ABI. *)
Theorem refused_calls_stay_refused `{BpfMachine} arch audit ae pid program name nums nr d :
  assoc arch _AUDIT_ARCH = Some audit -> 0 <= pid < 2 ^ 32 ->
  _seccomp_program arch ae pid = Ok (Some program) ->
  In (name, nums) _SYSCALLS -> sel (arch_index arch) nums = Some nr -> sd_nr d = nr ->
  run_filter program d <> Some _SECCOMP_RET_ALLOW /\
  (In name _KILL -> sd_arch d = audit -> run_filter program d = Some _SECCOMP_RET_KILL_PROCESS).
Proof.
  intros Ha Hp Hprog Hin Hs Hnr. pose proof (arch_index_lt arch) as Hi.
  rewrite (filter_verdict _ _ _ _ _ d Ha Hp Hprog). split.
  - intros [= Hw%verdict_word_allow]. destruct (Z.eqb_spec (sd_arch d) audit) as [Ea|Ea].
    + rewrite (verdict_refused _ _ _ _ _ _ _ _ Hi Hin Hs Hnr Ea) in Hw. by case_match.
    + unfold verdict in Hw. by rewrite (proj2 (Z.eqb_neq _ _) Ea) in Hw.
  - intros Hk Ea. rewrite (verdict_refused _ _ _ _ _ _ _ _ Hi Hin Hs Hnr Ea).
    destruct (kill_listed _ _ Hi Hk) as (nums' & Hin' & _ & Hm).
    assert (nums' = nums) as -> by (eapply syscalls_functional; eauto). by rewrite (Hm _ Hs).
Qed.

Lemma refused_calls_stay_refused_witness :
  exists program, _seccomp_program "aarch64" true 77 = Ok (Some program) /\
    run_filter program (SeccompData 117 0xC00000B7 (fun _ => 0)) = Some _SECCOMP_RET_KILL_PROCESS.
Proof.
  destruct (program_exists "aarch64" 0xC00000B7 true 77 eq_refl ltac:(lia)) as [program Hprog].
  exists program. split; [exact Hprog|].
  apply (refused_calls_stay_refused "aarch64" 0xC00000B7 true 77 program "ptrace"
           (Some 101, Some 117) 117); try reflexivity; try exact Hprog; try lia;
    rewrite <- list_elem_of_In; eapply bool_decide_eq_true_1; vm_compute; reflexivity.
Defined.

(** What an allowed call may be: the specification read backwards. *)
Lemma verdict_allow_noexec idx audit pid d :
  verdict idx audit false pid d = Allow -> mem_Z (sd_nr d) (sel idx <$> _EXEC_CHECKED) = true ->
  Z.land (arg_lo d 2) _PROT_EXEC = 0.
Proof.
  unfold verdict, allow_if. intros Hv Hm. rewrite Hm in Hv. cbn [negb andb] in Hv.
  repeat case_match; bool_prop; done.
Qed.

(** A jitless worker cannot map memory executable: when the filter is assembled
    with [allow_exec=False], an allowed mmap or mprotect never has the PROT_EXEC bit in
    its protection argument. *)
Theorem jitless_no_exec_memory `{BpfMachine} arch audit pid program d :
  assoc arch _AUDIT_ARCH = Some audit -> 0 <= pid < 2 ^ 32 ->
  _seccomp_program arch false pid = Ok (Some program) ->
  run_filter program d = Some _SECCOMP_RET_ALLOW ->
  In (sd_nr d) (sel (arch_index arch) <$> _EXEC_CHECKED) ->
  Z.testbit (sd_args d 2) 2 = false.
Proof.
  intros Ha Hp Hprog Hrun Hin. rewrite (filter_verdict _ _ _ _ _ d Ha Hp Hprog) in Hrun.
  injection Hrun as Hw%verdict_word_allow. apply mem_Z_spec in Hin.
  pose proof (verdict_allow_noexec _ _ _ _ Hw Hin) as Hl.
  apply (f_equal (fun z => Z.testbit z 2)) in Hl. unfold arg_lo in Hl.
  rewrite Z.land_spec, Z.mod_pow2_bits_low, Z.bits_0, andb_true_r in Hl by lia. exact Hl.
Qed.

Lemma jitless_no_exec_memory_witness :
  exists program, _seccomp_program "x86_64" false 9 = Ok (Some program) /\
    Z.testbit 3 2 = false.
Proof.
  destruct (program_exists "x86_64" 0xC000003E false 9 eq_refl ltac:(lia)) as [program Hprog].
  exists program. split; [exact Hprog|].
  apply (jitless_no_exec_memory "x86_64" 0xC000003E 9 program
           (SeccompData 10 0xC000003E (fun _ => 3)) eq_refl ltac:(lia) Hprog).
  - rewrite (filter_verdict "x86_64" 0xC000003E false 9 program _ eq_refl ltac:(lia) Hprog).
    vm_compute. reflexivity.
  - vm_compute. auto.
Defined.

(** The calls that name a process by a pid argument. *)
Definition process_nrs (idx : nat) : list Z :=
  nrs idx _SIGNALS ++ nrs idx _SELF_PID_ARG0 ++ nrs idx _SELF_PID_ARG1.

Lemma process_nrs_judged idx audit ae pid d :
  (idx < 2)%nat -> In (sd_nr d) (process_nrs idx) -> verdict idx audit ae pid d = Allow ->
  judged idx pid d = Some Allow.
Proof.
  intros Hi Hin Hv.
  assert (Hall : forallb (fun n => negb (mem_Z n ((sel idx <$> _EXEC_CHECKED) ++ allowed_nrs idx)))
                   (process_nrs idx) = true)
    by (destruct idx as [|[|]]; [vm_compute; reflexivity.. | lia]).
  rewrite forallb_forall in Hall. specialize (Hall _ Hin). cbv beta in Hall.
  rewrite mem_Z_app in Hall. bool_prop. unfold verdict in Hv.
  repeat match goal with H : ?b = false |- _ => rewrite H in Hv; clear H end.
  rewrite andb_false_r in Hv. repeat case_match; simplify_eq; done.
Qed.

Lemma allow_if_allow b : Some (allow_if b) = Some Allow -> b = true.
Proof. by destruct b. Qed.

Lemma judged_self idx pid d :
  (idx < 2)%nat -> judged idx pid d = Some Allow ->
  (In (sd_nr d) (nrs idx _SIGNALS) -> arg_lo d 0 = pid) /\
  (In (sd_nr d) (nrs idx _SELF_PID_ARG0) -> arg_lo d 0 = 0 \/ arg_lo d 0 = pid) /\
  (In (sd_nr d) (nrs idx _SELF_PID_ARG1) -> arg_lo d 1 = 0 \/ arg_lo d 1 = pid).
Proof.
  intros Hi. unfold judged. destruct idx as [|[|]]; [| |lia].
  all: intros Hj; repeat split; cbn [nrs fmap list_fmap sel snd fst _SIGNALS _SELF_PID_ARG0 _SELF_PID_ARG1 In];
    intros Hin; repeat (destruct Hin as [Hin|Hin]; [rewrite <- Hin in Hj|]); try done.
  all: cbn -[arg_lo] in Hj; apply allow_if_allow in Hj; bool_prop;
    repeat match goal with H : _ || _ = true |- _ => apply orb_true_iff in H as [?|?] end;
    bool_prop; auto.
Qed.

(** Calls that act on a process chosen by pid reach the worker only: an allowed
    kill, tgkill or queued signal names the worker's own pid, an allowed scheduling,
    limit or process-group call names it or 0 (the caller), and so do setpriority and
    ioprio_set in their second argument. *)
Theorem process_calls_on_self_only `{BpfMachine} arch audit ae pid program d :
  assoc arch _AUDIT_ARCH = Some audit -> 0 <= pid < 2 ^ 32 ->
  _seccomp_program arch ae pid = Ok (Some program) ->
  run_filter program d = Some _SECCOMP_RET_ALLOW ->
  (In (sd_nr d) (nrs (arch_index arch) _SIGNALS) -> arg_lo d 0 = pid) /\
  (In (sd_nr d) (nrs (arch_index arch) _SELF_PID_ARG0) -> arg_lo d 0 = 0 \/ arg_lo d 0 = pid) /\
  (In (sd_nr d) (nrs (arch_index arch) _SELF_PID_ARG1) -> arg_lo d 1 = 0 \/ arg_lo d 1 = pid).
Proof.
  intros Ha Hp Hprog Hrun. rewrite (filter_verdict _ _ _ _ _ d Ha Hp Hprog) in Hrun.
  injection Hrun as Hw%verdict_word_allow. pose proof (arch_index_lt arch) as Hi.
  assert (Hj : In (sd_nr d) (process_nrs (arch_index arch)) -> judged (arch_index arch) pid d = Some Allow)
    by (intros Hin; by eapply process_nrs_judged).
  unfold process_nrs in Hj. rewrite !in_app_iff in Hj.
  repeat split; intros Hin; eapply judged_self; eauto.
Qed.

Lemma process_calls_on_self_only_witness :
  exists program, _seccomp_program "x86_64" true 4242 = Ok (Some program) /\
    arg_lo (SeccompData 62 0xC000003E (fun _ => 4242)) 0 = 4242.
Proof.
  destruct (program_exists "x86_64" 0xC000003E true 4242 eq_refl ltac:(lia)) as [program Hprog].
  exists program. split; [exact Hprog|].
  apply (process_calls_on_self_only "x86_64" 0xC000003E true 4242 program
           (SeccompData 62 0xC000003E (fun _ => 4242)) eq_refl ltac:(lia) Hprog).
  - rewrite (filter_verdict "x86_64" 0xC000003E true 4242 program _ eq_refl ltac:(lia) Hprog).
    vm_compute. reflexivity.
  - vm_compute. auto.
Defined.
