(* ===== verification/Wire.v ===== *)
(** * Length-prefixed frames ([python/pydeno/_wire.py])

    [FrameWriter.send_encoded] and [FrameReader.read] over a file descriptor, with
    the operating system's answers (partial writes, a full pipe, chunks, timeouts,
    end of file) as explicit event lists.  The abstract specification of reading is
    [spec_read], a function of the whole remaining byte stream; the reader refines it
    whatever the chunking, and loses no byte on a timeout. *)

From S2P Require Import Prelude.

Definition MAX_FRAME_BYTES : Z := 16 * 1024 * 1024.
Definition MAX_DEPTH : Z := 128.
Definition MAX_NODES : Z := 2000000.

(** [_HEADER = struct.Struct("<I")]. *)
Definition _HEADER_size : nat := 4.

Inductive wire_error :=
| WireError (msg : string)
| WTimeout
| WClosed
| WBlocking
| StalledWrite.

#[export] Instance wire_error_eq_dec : EqDecision wire_error.
Proof. solve_decision. Defined.

Module Frame.

(** [_HEADER.pack(len(payload)) + payload]. *)
Definition frame (payload : list Z) : list Z :=
  le_bytes _HEADER_size (Z.of_nat (length payload)) ++ payload.

(** [_HEADER.unpack_from(buf)]. *)
Definition header_of (buf : list Z) : Z := le_int (take _HEADER_size buf).

End Frame.
Export Frame.

Module FrameWriter.

(** One [os.write]: the bytes the pipe took, or EAGAIN, with the clock read after it
    and whether [_wait] then saw the pipe writable in time. *)
Inductive wr_event :=
| Wrote (n : nat)
| WouldBlock (now : Z) (ready : bool).

Record writer := Writer { w_fd : Z; w_stall : option Z }.

Definition invalidate (w : writer) : writer := Writer (-1) (w_stall w).

(** How a send ended; [Pending] when the event list ends first. *)
Inductive sent := Sent | SendError (e : wire_error) | Pending.

(** The [while view] loop: what is left to write, the stall deadline once blocked.
    Returns the bytes the pipe took. *)
Fixpoint write_loop (stall : option Z) (view : list Z) (blocked_until : option Z)
    (evs : list wr_event) (out : list Z) : sent * list Z * list wr_event :=
  match view with
  | [] => (Sent, out, evs)
  | _ =>
      match evs with
      | [] => (Pending, out, [])
      | Wrote n :: evs' =>
          write_loop stall (drop n view) blocked_until evs' (out ++ take n view)
      | WouldBlock now ready :: evs' =>
          match stall with
          | None => (SendError WBlocking, out, evs')
          | Some s =>
              let until := default (now + s) blocked_until in
              let remaining := until - now in
              if (remaining <=? 0) || negb ready then (SendError StalledWrite, out, evs')
              else write_loop stall view (Some until) evs' out
          end
      end
  end.

(** [send_encoded]: the lock is held throughout, so one send is one step. *)
Definition send_encoded (w : writer) (payload : list Z) (evs : list wr_event)
  : sent * list Z * list wr_event :=
  let fr := frame payload in
  if w_fd w <? 0 then (SendError WClosed, [], evs)
  else match evs with
       | [] => (Pending, [], [])
       | Wrote n :: evs' =>
           if (n =? length fr)%nat then (Sent, fr, evs')
           else write_loop (w_stall w) (drop n fr) None evs' (take n fr)
       | WouldBlock _ _ :: evs' =>
           match w_stall w with
           | None => (SendError WBlocking, [], evs')
           | Some _ => write_loop (w_stall w) fr None evs' []
           end
       end.

Lemma write_loop_out stall view until evs out r o evs' :
  write_loop stall view until evs out = (r, o, evs') ->
  exists done rest, view = done ++ rest /\ o = out ++ done /\ (r = Sent -> rest = []) /\ (rest = [] -> r = Sent).
Proof.
  revert view until out; induction evs as [|e evs IH]; intros view until out; cbn.
  - destruct view as [|b v]; intros [= <- <- <-].
    + exists [], []. repeat split; by rewrite ?app_nil_r.
    + exists [], (b :: v). repeat split; by rewrite ?app_nil_r.
  - destruct view as [|b v] eqn:Hv; [intros [= <- <- <-]; exists [], []; repeat split; by rewrite ?app_nil_r|].
    rewrite <- Hv. destruct e as [n|now ready].
    + intros H%IH. destruct H as (dn & rest & Hd & -> & Hr).
      exists (take n view ++ dn), rest. rewrite <- !app_assoc, <- Hd, take_drop. done.
    + destruct stall as [s|].
      * case_match; [|apply IH].
        intros [= <- <- <-]. exists [], view. subst. repeat split; by rewrite ?app_nil_r.
      * intros [= <- <- <-]. exists [], view. subst. repeat split; by rewrite ?app_nil_r.
Qed.

(** Once the pipe was full, a send that has not ended is inside its stall window at
    every later full pipe, whatever trickles out between. *)
Lemma write_loop_window stall view until evs out r o evs' s first :
  stall = Some s -> until = Some (first + s) ->
  write_loop stall view until evs out = (r, o, evs') -> r = Sent \/ r = Pending ->
  exists used, evs = used ++ evs' /\
    forall now ready, In (WouldBlock now ready) used -> now < first + s /\ ready = true.
Proof.
  intros -> ->. revert view out; induction evs as [|e evs IH]; intros view out; cbn.
  - destruct view; intros [= <- <- <-] _; exists []; split; try done; intros ? ? [].
  - destruct view as [|b v] eqn:Hv.
    { intros [= <- <- <-] _. exists []. split; [done|intros ? ? []]. }
    rewrite <- Hv. destruct e as [n|now ready].
    + intros H Hr. destruct (IH _ _ H Hr) as (used & -> & Hall).
      exists (Wrote n :: used). split; [done|]. intros ? ? [[=]|Hin]. eauto.
    + destruct ((first + s - now <=? 0) || negb ready) eqn:Hc.
      { intros [= <- <- <-] [[=]|[=]]. }
      intros H Hr. destruct (IH _ _ H Hr) as (used & -> & Hall).
      exists (WouldBlock now ready :: used). split; [done|]. bool_prop.
      intros ? ? [[= <- <-]|Hin]; [split; [lia|done]|eauto].
Qed.

(** The same from the start of the loop: the window opens at the first full pipe. *)
Lemma write_loop_window_start s view evs out r o evs' :
  write_loop (Some s) view None evs out = (r, o, evs') -> r = Sent \/ r = Pending ->
  exists used, evs = used ++ evs' /\
    forall pre first rd post, used = pre ++ WouldBlock first rd :: post ->
      (forall now rd', ~ In (WouldBlock now rd') pre) ->
      forall now rd', In (WouldBlock now rd') post -> now < first + s.
Proof.
  revert view out; induction evs as [|e evs IH]; intros view out; cbn.
  - destruct view; intros [= <- <- <-] _; exists []; split; try done; by intros [].
  - destruct view as [|b v] eqn:Hv.
    { intros [= <- <- <-] _. exists []. split; [done|]. by intros []. }
    rewrite <- Hv. destruct e as [n|now0 ready].
    + intros H Hr. destruct (IH _ _ H Hr) as (used & -> & Hall).
      exists (Wrote n :: used). split; [done|]. intros [|e pre] first rd post; [done|].
      intros [= <- ->] Hpre. apply (Hall pre first rd post eq_refl).
      intros now rd' Hin. apply (Hpre now rd'). by right.
    + destruct ((now0 + s - now0 <=? 0) || negb ready).
      { intros [= <- <- <-] [[=]|[=]]. }
      intros H Hr.
      destruct (write_loop_window _ _ _ _ _ _ _ _ s now0 eq_refl eq_refl H Hr) as (used & -> & Hall).
      exists (WouldBlock now0 ready :: used). split; [done|]. intros [|e pre] first rd post.
      * intros [= <- <- <-] _ now rd' Hin. by apply (Hall now rd').
      * intros [= <- ->] Hpre. destruct (Hpre now0 ready). by left.
Qed.

End FrameWriter.

Module FrameReader.

(** One [_chunk]: bytes read, or the deadline passed.  The end of the list is the
    peer's end of file, on which every further read returns no bytes. *)
Inductive rd_event := RData (bs : list Z) | RTimeout.

Record reader := Reader { r_fd : Z; r_max : Z; r_buf : list Z }.

Definition invalidate (r : reader) : reader := Reader (-1) (r_max r) (r_buf r).

Definition set_buf (r : reader) (buf : list Z) : reader := Reader (r_fd r) (r_max r) buf.

(** [_chunk(deadline)]. *)
Definition _chunk (r : reader) (src : list rd_event)
  : result wire_error (list Z) * list rd_event :=
  if r_fd r <? 0 then (Err WClosed, src)
  else match src with
       | [] => (Ok [], [])
       | RTimeout :: src' => (Err WTimeout, src')
       | RData bs :: src' => (Ok bs, src')
       end.

Inductive filled := Filled | FillEof | FillError (e : wire_error).

(** [while len(self._buf) < need: if not self._fill(deadline): ...]; [_fill] appends
    one chunk and says whether there was one.  Structural on the event list, since
    each turn consumes one event (none is left at end of file, and then it stops). *)
Fixpoint fill_to (need : nat) (r : reader) (src : list rd_event)
  : filled * reader * list rd_event :=
  if (need <=? length (r_buf r))%nat then (Filled, r, src)
  else if r_fd r <? 0 then (FillError WClosed, r, src)
  else match src with
       | [] => (FillEof, r, [])
       | RTimeout :: src' => (FillError WTimeout, r, src')
       | RData [] :: src' => (FillEof, r, src')
       | RData bs :: src' => fill_to need (set_buf r (r_buf r ++ bs)) src'
       end.

Definition over_cap : wire_error := WireError "frame exceeds the byte cap".
Definition mid_header : wire_error := WireError "peer closed mid-header".
Definition mid_frame : wire_error := WireError "peer closed mid-frame".

(** The part of [read] after the fast path.  (The two ways of copying the payload
    out, below and above [_COPY_VIEW_THRESHOLD], take the same slice.) *)
Definition read_slow (r : reader) (src : list rd_event)
  : result wire_error (option (list Z)) * reader * list rd_event :=
  match fill_to _HEADER_size r src with
  | (FillError e, r, src) => (Err e, r, src)
  | (FillEof, r, src) =>
      if bool_decide (r_buf r = []) then (Ok None, r, src) else (Err mid_header, r, src)
  | (Filled, r, src) =>
      let length_ := header_of (r_buf r) in
      if r_max r <? length_ then (Err over_cap, r, src)
      else
        let end_ := (_HEADER_size + Z.to_nat length_)%nat in
        match fill_to end_ r src with
        | (FillError e, r, src) => (Err e, r, src)
        | (FillEof, r, src) => (Err mid_frame, r, src)
        | (Filled, r, src) =>
            let payload := drop _HEADER_size (take end_ (r_buf r)) in
            (Ok (Some payload), set_buf r (drop end_ (r_buf r)), src)
        end
  end.

Definition read (r : reader) (src : list rd_event)
  : result wire_error (option (list Z)) * reader * list rd_event :=
  if bool_decide (r_buf r = []) then
    match _chunk r src with
    | (Err e, src) => (Err e, r, src)
    | (Ok chunk, src) =>
        if bool_decide (chunk = []) then (Ok None, r, src)
        else if (_HEADER_size <=? length chunk)%nat then
          let length_ := header_of chunk in
          if r_max r <? length_ then (Err over_cap, r, src)
          else if Z.of_nat (length chunk) =? Z.of_nat _HEADER_size + length_
               then (Ok (Some (drop _HEADER_size chunk)), r, src)
               else read_slow (set_buf r (r_buf r ++ chunk)) src
        else read_slow (set_buf r (r_buf r ++ chunk)) src
    end
  else read_slow r src.

(** ** The specification: a function of the bytes still to come *)

Inductive read_spec := SpecFrame (payload rest : list Z) | SpecEof | SpecError (e : wire_error).

Definition spec_read (max : Z) (stream : list Z) : read_spec :=
  if bool_decide (stream = []) then SpecEof
  else if (length stream <? _HEADER_size)%nat then SpecError mid_header
  else
    let n := header_of stream in
    if max <? n then SpecError over_cap
    else if Z.of_nat (length stream) <? Z.of_nat _HEADER_size + n then SpecError mid_frame
    else SpecFrame (take (Z.to_nat n) (drop _HEADER_size stream))
                   (drop (_HEADER_size + Z.to_nat n) stream).

(** The bytes the reader has not returned yet. *)
Fixpoint pending (src : list rd_event) : list Z :=
  match src with
  | [] => []
  | RData bs :: src' => bs ++ pending src'
  | RTimeout :: src' => pending src'
  end.

Definition remaining (r : reader) (src : list rd_event) : list Z := r_buf r ++ pending src.

(** An operating system that reports end of file only at the end. *)
Definition src_ok (src : list rd_event) : Prop := ~ In (RData []) src.

Lemma src_ok_cons e src : src_ok (e :: src) -> src_ok src.
Proof. unfold src_ok. cbn. tauto. Qed.

Lemma fill_to_spec need r src o r' src' :
  0 <= r_fd r -> src_ok src -> fill_to need r src = (o, r', src') ->
  r_fd r' = r_fd r /\ r_max r' = r_max r /\ src_ok src' /\ remaining r' src' = remaining r src /\
  (exists more, r_buf r' = r_buf r ++ more) /\
  match o with
  | Filled => (need <= length (r_buf r'))%nat
  | FillEof => (length (r_buf r') < need)%nat /\ pending src' = []
  | FillError e => e = WTimeout
  end.
Proof.
  revert r; induction src as [|e src IH]; intros r Hfd Hok; cbn [fill_to];
    destruct (Nat.leb_spec need (length (r_buf r))) as [Hn|Hn];
    rewrite ?(proj2 (Z.ltb_ge _ _) Hfd).
  - intros [= <- <- <-]. split_and!; try done. exists []. by rewrite app_nil_r.
  - intros [= <- <- <-]. split_and!; try done. exists []. by rewrite app_nil_r.
  - intros [= <- <- <-]. split_and!; try done. exists []. by rewrite app_nil_r.
  - pose proof (src_ok_cons _ _ Hok) as Hok'. destruct e as [[|b bs]|].
    + exfalso. apply Hok. by left.
    + intros H. destruct (IH (set_buf r (r_buf r ++ b :: bs)) Hfd Hok' H)
        as (H1 & H2 & H3 & H4 & [more H5] & H6).
      split_and!; try done.
      * rewrite H4. unfold remaining, set_buf. cbn. by rewrite <- app_assoc.
      * exists ((b :: bs) ++ more). rewrite H5. cbn [r_buf set_buf]. by rewrite <- app_assoc.
    + intros [= <- <- <-]. split_and!; try done. exists []. by rewrite app_nil_r.
Qed.

(** A fill consumes a prefix of the events, and times out only on a timeout event. *)
Lemma fill_to_suffix need r src o r' src' :
  fill_to need r src = (o, r', src') ->
  suffix src' src /\ (o = FillError WTimeout -> In RTimeout src).
Proof.
  revert r; induction src as [|e src IH]; intros r; cbn [fill_to].
  - repeat case_match; intros [= <- <- <-]; split; try done.
  - repeat case_match; try (intros [= <- <- <-]; split; [|done || (intros _; by left)];
      first [done | by apply suffix_cons_r]).
    intros Hi. apply IH in Hi as [Hi1 Hi2]. split; [by apply suffix_cons_r|]. intros E. right. auto.
Qed.

Lemma header_of_app buf more : (_HEADER_size <= length buf)%nat ->
  header_of (buf ++ more) = header_of buf.
Proof. intros H. unfold header_of. by rewrite take_app_le. Qed.

Lemma header_of_nonneg buf : Forall byte_range buf -> 0 <= header_of buf.
Proof. intros H. apply le_int_bound. by apply Forall_take. Qed.

(** What [read] may answer on a stream, by the specification. *)
Definition read_ok (max : Z) (stream : list Z)
    (res : result wire_error (option (list Z))) (left_ : list Z) : Prop :=
  match res with
  | Err WTimeout => left_ = stream
  | Err e => spec_read max stream = SpecError e
  | Ok None => spec_read max stream = SpecEof
  | Ok (Some p) => spec_read max stream = SpecFrame p left_
  end.

Lemma spec_read_nonempty max stream : stream <> [] ->
  spec_read max stream =
    if (length stream <? _HEADER_size)%nat then SpecError mid_header
    else if max <? header_of stream then SpecError over_cap
    else if Z.of_nat (length stream) <? Z.of_nat _HEADER_size + header_of stream
         then SpecError mid_frame
    else SpecFrame (take (Z.to_nat (header_of stream)) (drop _HEADER_size stream))
                   (drop (_HEADER_size + Z.to_nat (header_of stream)) stream).
Proof. intros H. unfold spec_read. by rewrite bool_decide_false. Qed.

Lemma payload_slice (l k : list Z) n : (_HEADER_size + n <= length l)%nat ->
  take n (drop _HEADER_size (l ++ k)) = drop _HEADER_size (take (_HEADER_size + n) l).
Proof.
  intros H. rewrite skipn_firstn_comm, (Nat.add_comm _ n), Nat.add_sub, drop_app_le by lia.
  rewrite take_app_le; [done|]. rewrite length_drop. lia.
Qed.

Lemma read_slow_refines r src res r' src' :
  0 <= r_fd r -> src_ok src -> Forall byte_range (remaining r src) ->
  read_slow r src = (res, r', src') ->
  read_ok (r_max r) (remaining r src) res (remaining r' src').
Proof.
  intros Hfd Hok Hb. unfold read_slow.
  destruct (fill_to _HEADER_size r src) as [[o1 r1] src1] eqn:E1.
  destruct (fill_to_spec _ _ _ _ _ _ Hfd Hok E1) as (Hf1 & Hm1 & Hok1 & Hr1 & _ & Ho1).
  rewrite <- Hr1, <- Hm1 in *. clear E1 Hr1 Hok src. destruct o1 as [| |e].
  - destruct (Z.ltb_spec (r_max r1) (header_of (r_buf r1))) as [Hcap|Hcap].
    { intros [= <- <- <-]. cbn. rewrite spec_read_nonempty.
      - unfold remaining. rewrite header_of_app, (proj2 (Z.ltb_lt _ _) Hcap) by done.
        rewrite (proj2 (Nat.ltb_ge _ _)); [done|]. rewrite length_app. lia.
      - unfold remaining. destruct (r_buf r1); cbn in *; [unfold _HEADER_size in Ho1; lia|done]. }
    assert (Hn : 0 <= header_of (r_buf r1)).
    { apply header_of_nonneg. unfold remaining in Hb. by apply Forall_app in Hb as [? _]. }
    destruct (fill_to (_HEADER_size + _)%nat r1 src1) as [[o2 r2] src2] eqn:E2.
    assert (Hfd1 : 0 <= r_fd r1) by lia.
    destruct (fill_to_spec _ _ _ _ _ _ Hfd1 Hok1 E2) as (Hf2 & Hm2 & Hok2 & Hr2 & [more Hpre] & Ho2).
    assert (Hh : header_of (remaining r1 src1) = header_of (r_buf r1)) by (by apply header_of_app).
    assert (Hlen : (_HEADER_size <= length (remaining r1 src1))%nat)
      by (unfold remaining; rewrite length_app; lia).
    assert (Hne : remaining r1 src1 <> []) by (intros E; rewrite E in Hlen; unfold _HEADER_size in Hlen; cbn in Hlen; lia).
    destruct o2 as [| |e].
    + intros [= <- <- <-]. cbn [read_ok]. rewrite spec_read_nonempty by done.
      rewrite Hh, (proj2 (Nat.ltb_ge _ _)), (proj2 (Z.ltb_ge _ _)), (proj2 (Z.ltb_ge _ _)) by
        (try lia; rewrite <- Hr2; unfold remaining; rewrite length_app; lia).
      rewrite <- Hr2. unfold remaining. cbn [r_buf set_buf]. f_equal.
      * apply payload_slice. lia.
      * by rewrite drop_app_le by lia.
    + intros [= <- <- <-]. destruct Ho2 as [Hlt Hp]. cbn. rewrite spec_read_nonempty by done.
      rewrite Hh, (proj2 (Nat.ltb_ge _ _)), (proj2 (Z.ltb_ge _ _)) by lia.
      rewrite (proj2 (Z.ltb_lt _ _)); [done|].
      rewrite <- Hr2. unfold remaining. rewrite Hp, app_nil_r. lia.
    + intros [= <- <- <-]. rewrite Ho2. cbn. done.
  - destruct Ho1 as [Hlt Hp]. unfold remaining. rewrite Hp, app_nil_r.
    case_bool_decide as He; intros [= <- <- <-]; cbn.
    + by rewrite He.
    + rewrite spec_read_nonempty by done. by rewrite (proj2 (Nat.ltb_lt _ _)).
  - intros [= <- <- <-]. rewrite Ho1. done.
Qed.

Lemma read_refines r src res r' src' :
  0 <= r_fd r -> src_ok src -> Forall byte_range (remaining r src) ->
  read r src = (res, r', src') ->
  read_ok (r_max r) (remaining r src) res (remaining r' src').
Proof.
  intros Hfd Hok Hb. unfold read. case_bool_decide as He; [|by apply read_slow_refines].
  unfold _chunk. rewrite (proj2 (Z.ltb_ge _ _) Hfd).
  unfold remaining in Hb |- * at 1. rewrite He in Hb |- *. cbn [app] in *.
  destruct src as [|[bs|] src]; cbn [pending] in *.
  - cbn. intros [= <- <- <-]. done.
  - pose proof (src_ok_cons _ _ Hok) as Hok'.
    rewrite bool_decide_false by (intros ->; apply Hok; by left).
    assert (Hslow : read_slow (set_buf r bs) src = (res, r', src') ->
              read_ok (r_max r) (bs ++ pending src) res (remaining r' src')).
    { intros H. exact (read_slow_refines (set_buf r bs) src _ _ _ Hfd Hok' Hb H). }
    destruct (Nat.leb_spec _HEADER_size (length bs)) as [Hl|Hl]; [|exact Hslow].
    assert (Hne : bs ++ pending src <> []) by (destruct bs; cbn in *; [unfold _HEADER_size in Hl; lia|done]).
    assert (Hl2 : (_HEADER_size <= length (bs ++ pending src))%nat) by (rewrite length_app; lia).
    destruct (Z.ltb_spec (r_max r) (header_of bs)) as [Hcap|Hcap].
    { intros [= <- <- <-]. cbn. rewrite spec_read_nonempty by done.
      by rewrite header_of_app, (proj2 (Nat.ltb_ge _ _)), (proj2 (Z.ltb_lt _ _)) by done. }
    destruct (Z.eqb_spec (Z.of_nat (length bs)) (Z.of_nat _HEADER_size + header_of bs)) as [Heq|_];
      [|exact Hslow].
    intros [= <- <- <-]. cbn [read_ok]. rewrite spec_read_nonempty by done.
    rewrite header_of_app, (proj2 (Nat.ltb_ge _ _)), (proj2 (Z.ltb_ge _ _)), (proj2 (Z.ltb_ge _ _))
      by (try lia; try done; rewrite length_app; lia).
    assert (Hx : length bs = (_HEADER_size + Z.to_nat (header_of bs))%nat) by lia.
    unfold remaining. rewrite He. cbn [app]. f_equal.
    + rewrite drop_app_le by lia. rewrite take_app_le by (rewrite length_drop; lia).
      apply take_ge. rewrite length_drop. lia.
    + by rewrite <- Hx, drop_app_length.
  - intros [= <- <- <-]. cbn. unfold remaining. by rewrite He.
Qed.

Lemma read_slow_keeps r src res r' src' :
  0 <= r_fd r -> src_ok src -> read_slow r src = (res, r', src') ->
  r_fd r' = r_fd r /\ r_max r' = r_max r /\ suffix src' src /\
  (res = Err WTimeout -> In RTimeout src).
Proof.
  intros Hfd Hok. unfold read_slow.
  destruct (fill_to _HEADER_size r src) as [[o1 r1] src1] eqn:E1.
  destruct (fill_to_spec _ _ _ _ _ _ Hfd Hok E1) as (Hf1 & Hm1 & Hok1 & _ & _ & Ho1).
  destruct (fill_to_suffix _ _ _ _ _ _ E1) as [Hs1 Ht1]. destruct o1 as [| |e].
  - case_match; [intros [= <- <- <-]; by repeat split|].
    destruct (fill_to (_ + _)%nat r1 src1) as [[o2 r2] src2] eqn:E2.
    assert (Hfd1 : 0 <= r_fd r1) by lia.
    destruct (fill_to_spec _ _ _ _ _ _ Hfd1 Hok1 E2) as (Hf2 & Hm2 & _ & _ & _ & Ho2).
    destruct (fill_to_suffix _ _ _ _ _ _ E2) as [Hs2 Ht2].
    assert (Hs : suffix src2 src) by (by transitivity src1).
    destruct o2 as [| |e]; intros [= <- <- <-]; cbn [r_fd r_max set_buf]; split_and!; try congruence; try done.
    intros _. subst e. destruct Hs1 as [used ->]. apply in_app_iff. right. auto.
  - case_match; intros [= <- <- <-]; by repeat split.
  - intros [= <- <- <-]. subst e. repeat split; auto.
Qed.

(** [read] leaves the descriptor and the cap alone, consumes events in order, and
    times out only when the deadline passed. *)
Lemma read_keeps r src res r' src' :
  0 <= r_fd r -> src_ok src -> read r src = (res, r', src') ->
  r_fd r' = r_fd r /\ r_max r' = r_max r /\ suffix src' src /\
  (res = Err WTimeout -> In RTimeout src).
Proof.
  intros Hfd Hok. unfold read. case_bool_decide as He; [|by apply read_slow_keeps].
  unfold _chunk. rewrite (proj2 (Z.ltb_ge _ _) Hfd). rewrite He.
  destruct src as [|[bs|] src]; [| |intros [= <- <- <-]; repeat split; try (by apply suffix_cons_r); by left].
  - cbn. intros [= <- <- <-]. by repeat split.
  - pose proof (src_ok_cons _ _ Hok) as Hok'.
    assert (Hgo : read_slow (set_buf r bs) src = (res, r', src') ->
      r_fd r' = r_fd r /\ r_max r' = r_max r /\ suffix src' (RData bs :: src) /\
      (res = Err WTimeout -> In RTimeout (RData bs :: src))).
    { intros H. destruct (read_slow_keeps (set_buf r bs) src _ _ _ Hfd Hok' H) as (H1 & H2 & H3 & H4).
      repeat split; [done|done|by apply suffix_cons_r|right; auto]. }
    repeat case_match; try exact Hgo; intros [= <- <- <-]; repeat split; try done; by apply suffix_cons_r.
Qed.

Lemma src_ok_suffix src' src : suffix src' src -> src_ok src -> src_ok src'.
Proof. intros [used ->] H Hin. apply H, in_app_iff. by right. Qed.

End FrameReader.

(** ** Round trips *)

Lemma frame_length p : length (frame p) = (_HEADER_size + length p)%nat.
Proof. unfold frame. by rewrite length_app, le_bytes_length. Qed.

Lemma header_of_frame p more :
  Z.of_nat (length p) < 2 ^ 32 -> header_of (frame p ++ more) = Z.of_nat (length p).
Proof.
  intros H. unfold header_of, frame. rewrite <- app_assoc, take_app_exact by (by rewrite le_bytes_length).
  apply le_int_le_bytes. split; [lia|]. change (256 ^ Z.of_nat _HEADER_size) with (2 ^ 32). exact H.
Qed.

Lemma spec_read_frame max p rest :
  Z.of_nat (length p) <= max -> max < 2 ^ 32 ->
  FrameReader.spec_read max (frame p ++ rest) = FrameReader.SpecFrame p rest.
Proof.
  intros Hp Hm. rewrite FrameReader.spec_read_nonempty.
  - rewrite header_of_frame by lia. rewrite (proj2 (Nat.ltb_ge _ _)), (proj2 (Z.ltb_ge _ _)), (proj2 (Z.ltb_ge _ _))
      by (rewrite ?length_app, ?frame_length; lia).
    rewrite Nat2Z.id. f_equal.
    + unfold frame. rewrite <- app_assoc, drop_app_exact by (by rewrite le_bytes_length).
      by rewrite take_app_length.
    + by rewrite <- frame_length, drop_app_length.
  - unfold frame. cbn. done.
Qed.

Lemma spec_read_frame_inv max stream p rest :
  Forall byte_range stream ->
  FrameReader.spec_read max stream = FrameReader.SpecFrame p rest ->
  stream = frame p ++ rest /\ Z.of_nat (length p) <= max.
Proof.
  intros Hb. unfold FrameReader.spec_read. case_bool_decide; [done|].
  destruct (Nat.ltb_spec (length stream) _HEADER_size) as [|Hl]; [done|].
  destruct (Z.ltb_spec max (header_of stream)) as [|Hc]; [done|].
  destruct (Z.ltb_spec (Z.of_nat (length stream)) (Z.of_nat _HEADER_size + header_of stream)) as [|Hf]; [done|].
  intros [= <- <-]. pose proof (FrameReader.header_of_nonneg _ Hb) as Hn.
  assert (Hlen : length (take (Z.to_nat (header_of stream)) (drop _HEADER_size stream)) = Z.to_nat (header_of stream))
    by (rewrite length_take, length_drop; lia).
  split; [|rewrite Hlen; lia].
  unfold frame. rewrite Hlen, Z2Nat.id by done.
  assert (Hh : le_bytes _HEADER_size (header_of stream) = take _HEADER_size stream).
  { unfold header_of. rewrite <- (le_bytes_le_int (take _HEADER_size stream)) at 2 by (by apply Forall_take).
    by rewrite length_take, Nat.min_l. }
  change (S (S (S (S (Z.to_nat (header_of stream)))))) with (_HEADER_size + Z.to_nat (header_of stream))%nat.
  by rewrite Hh, <- app_assoc, <- drop_drop, take_drop, take_drop.
Qed.

(** Read until the stream ends: the payloads in order, and how it ended. *)
Fixpoint read_all (fuel : nat) (r : FrameReader.reader) (src : list FrameReader.rd_event)
  : list (list Z) * result wire_error unit :=
  match fuel with
  | O => ([], Err WTimeout)
  | S n =>
      match FrameReader.read r src with
      | (Ok None, _, _) => ([], Ok tt)
      | (Ok (Some p), r, src) => let '(ps, e) := read_all n r src in (p :: ps, e)
      | (Err e, _, _) => ([], Err e)
      end
  end.


Lemma frames_range ps :
  Forall (fun p => Forall byte_range p) ps -> Forall byte_range (concat (frame <$> ps)).
Proof.
  induction 1 as [|p ps Hp _ IH]; [constructor|]. apply Forall_app. split; [|exact IH].
  unfold frame. apply Forall_app. split; [apply le_bytes_range|done].
Qed.

(** The invariant of [read_all]: the bytes still to come are the frames still to come. *)
Lemma read_all_frames_from max fuel : max < 2 ^ 32 -> forall ps r src,
  FrameReader.r_fd r = 3 -> FrameReader.r_max r = max ->
  Forall (fun p => Z.of_nat (length p) <= max) ps -> Forall (fun p => Forall byte_range p) ps ->
  FrameReader.src_ok src -> ~ In FrameReader.RTimeout src ->
  FrameReader.remaining r src = concat (frame <$> ps) -> (length ps < fuel)%nat ->
  read_all fuel r src = (ps, Ok tt).
Proof.
  intros Hmax. induction fuel as [|fuel IH]; intros ps r src Hfd Hm Hl Hps Hok Hto Hrem Hf; [lia|].
  cbn [read_all]. destruct (FrameReader.read r src) as [[res r'] src'] eqn:E.
  assert (Hfd' : 0 <= FrameReader.r_fd r) by lia.
  destruct (FrameReader.read_keeps _ _ _ _ _ Hfd' Hok E) as (Hf' & Hm' & Hsuf & Hnt).
  assert (Hb : Forall byte_range (FrameReader.remaining r src)) by (rewrite Hrem; by apply frames_range).
  pose proof (FrameReader.read_refines _ _ _ _ _ Hfd' Hok Hb E) as Href. rewrite Hrem, Hm in Href.
  destruct ps as [|p ps]; cbn [fmap list_fmap concat] in Href.
  - destruct res as [[p|]|[]]; cbn in Href; try discriminate Href; [done|]. destruct Hto. auto.
  - apply Forall_cons in Hl as [Hlen Hl]. apply Forall_cons in Hps as [_ Hps].
    destruct res as [[q|]|[]]; cbn [FrameReader.read_ok] in Href;
      rewrite ?spec_read_frame in Href by done; try discriminate Href; [|by destruct Hto; auto].
    injection Href as <- Hrest. rewrite (IH ps r' src'); try done.
    + congruence.
    + congruence.
    + by eapply FrameReader.src_ok_suffix.
    + intros Hin. apply Hto. destruct Hsuf as [used ->]. apply in_app_iff. by right.
    + cbn in Hf. lia.
Qed.

(** Framing round trip: whatever payloads are sent and however the pipe splits
    the bytes into chunks, [FrameReader.read] returns the payloads one by one in
    order, then a clean end of file. *)
Theorem read_all_frames max ps src fuel :
  max < 2 ^ 32 -> Forall (fun p => Z.of_nat (length p) <= max) ps ->
  Forall (fun p => Forall byte_range p) ps ->
  FrameReader.src_ok src -> ~ In FrameReader.RTimeout src ->
  FrameReader.pending src = concat (frame <$> ps) -> (length ps < fuel)%nat ->
  read_all fuel (FrameReader.Reader 3 max []) src = (ps, Ok tt).
Proof. intros Hmax Hl Hps Hok Hto Hpend Hfuel. by apply (read_all_frames_from max). Qed.

Lemma read_all_frames_witness :
  read_all 3 (FrameReader.Reader 3 MAX_FRAME_BYTES [])
    [FrameReader.RData [2; 0]; FrameReader.RData [0; 0; 7; 8; 0; 0]; FrameReader.RData [0; 0]]
  = ([[7; 8]; []], Ok tt).
Proof.
  apply (read_all_frames MAX_FRAME_BYTES [[7; 8]; []]).
  - vm_compute. reflexivity.
  - repeat constructor; vm_compute; congruence.
  - repeat constructor; vm_compute; congruence.
  - intros [?|[?|[?|[]]]]; discriminate.
  - intros [?|[?|[?|[]]]]; discriminate.
  - reflexivity.
  - cbn. lia.
Defined.



(** [send_encoded] writes whole frames or reports: what the pipe took is always a
    prefix of the frame, all of it exactly when the send returned, and nothing is
    written on a closed connection. *)
Theorem send_encoded_prefix w payload evs r out evs' :
  FrameWriter.send_encoded w payload evs = (r, out, evs') ->
  (exists rest, frame payload = out ++ rest /\
     (r = FrameWriter.Sent -> rest = []) /\ (rest = [] -> r = FrameWriter.Sent)) /\
  (FrameWriter.w_fd w < 0 -> r = FrameWriter.SendError WClosed /\ out = []).
Proof.
  unfold FrameWriter.send_encoded. intros H.
  assert (Hne : frame payload <> []) by (unfold frame; cbn; done).
  split.
  - destruct (Z.ltb_spec (FrameWriter.w_fd w) 0) as [|Hfd].
    { injection H as <- <- <-. exists (frame payload). by repeat split. }
    destruct evs as [|[n|now ready] evs].
    + injection H as <- <- <-. exists (frame payload). by repeat split.
    + destruct (Nat.eqb_spec n (length (frame payload))) as [->|Hn].
      { injection H as <- <- <-. exists []. rewrite app_nil_r. by repeat split. }
      apply FrameWriter.write_loop_out in H as (dn & rest & Hd & -> & Hr).
      exists rest. split; [|exact Hr]. by rewrite <- app_assoc, <- Hd, take_drop.
    + destruct (FrameWriter.w_stall w).
      * apply FrameWriter.write_loop_out in H as (dn & rest & Hd & -> & Hr). exists rest. done.
      * injection H as <- <- <-. exists (frame payload). by repeat split.
  - intros Hfd. rewrite (proj2 (Z.ltb_lt _ _) Hfd) in H. by injection H as <- <- <-.
Qed.

Lemma send_encoded_prefix_witness :
  exists rest, frame [5; 6] = [2; 0; 0] ++ rest /\
    (FrameWriter.SendError StalledWrite = FrameWriter.Sent -> rest = []) /\
    (rest = [] -> FrameWriter.SendError StalledWrite = FrameWriter.Sent).
Proof.
  apply (send_encoded_prefix (FrameWriter.Writer 5 (Some 10)) [5; 6]
    [FrameWriter.Wrote 1; FrameWriter.Wrote 2; FrameWriter.WouldBlock 100 true;
     FrameWriter.WouldBlock 111 true] (FrameWriter.SendError StalledWrite) [2; 0; 0] []).
  reflexivity.
Defined.

(** A send cannot be held past its stall window by a peer that only drips: after the
    first full pipe of the retry loop, every later full pipe that the send survives is
    earlier than that time plus the stall limit, whatever was written in between. *)
Theorem send_encoded_stall_window w payload e evs r out evs' s :
  FrameWriter.w_stall w = Some s ->
  FrameWriter.send_encoded w payload (e :: evs) = (r, out, evs') ->
  r = FrameWriter.Sent \/ r = FrameWriter.Pending ->
  exists used, evs = used ++ evs' /\
    forall pre first rd post, used = pre ++ FrameWriter.WouldBlock first rd :: post ->
      (forall now rd', ~ In (FrameWriter.WouldBlock now rd') pre) ->
      forall now rd', In (FrameWriter.WouldBlock now rd') post -> now < first + s.
Proof.
  intros Hs H Hr. unfold FrameWriter.send_encoded in H. rewrite Hs in H.
  destruct (_ <? 0); [injection H as <- <- <-; by destruct Hr|].
  destruct e as [n|now ready]; [destruct (n =? _)%nat|].
  - injection H as <- <- <-. exists []. split; [done|]. by intros [].
  - by eapply FrameWriter.write_loop_window_start.
  - by eapply FrameWriter.write_loop_window_start.
Qed.

Lemma send_encoded_stall_window_witness :
  exists used, [FrameWriter.WouldBlock 3 true; FrameWriter.Wrote 5; FrameWriter.WouldBlock 7 true;
                FrameWriter.Wrote 9] = used ++ [] /\ 7 < 3 + 10.
Proof.
  destruct (send_encoded_stall_window (FrameWriter.Writer 4 (Some 10)) [1; 2; 3; 4]
    (FrameWriter.Wrote 1) [FrameWriter.WouldBlock 3 true; FrameWriter.Wrote 5;
       FrameWriter.WouldBlock 7 true; FrameWriter.Wrote 9]
    FrameWriter.Sent (frame [1; 2; 3; 4]) [] 10 eq_refl eq_refl (or_introl eq_refl))
    as (used & Hu & Hw).
  exists used. split; [exact Hu|]. rewrite app_nil_r in Hu. subst used.
  apply (Hw [] 3 true _ eq_refl (fun _ _ H => match H with end) 7 true). cbn. auto.
Defined.
