(* ===== verification/AioFrames.v ===== *)
(** * The asyncio frame reader ([python/pydeno/_aio.py])

    [_FrameReader], the protocol object that splits a worker's output into frames as
    bytes arrive, with its back-pressure (pause and resume of the transport).  A protocol
    object is a record; each callback is a function on it; the event loop is the step
    relation [step].  The invariant [inv] holds in every reachable state. *)

From S2P Require Import Prelude Wire.

Definition _READ_HIGH_WATER : Z := 2 * MAX_FRAME_BYTES + 8.
Definition _READ_LOW_WATER : Z := MAX_FRAME_BYTES.
Definition _READ_HIGH_FRAMES : Z := 1024.
Definition _READ_LOW_FRAMES : Z := 512.

(** [_waiter]: none, a pending future, or one already woken. *)
Inductive waiter := NoWaiter | Waiting | Woken.

Record proto := Proto {
  p_max : Z; p_buf : list Z; frames : list (list Z); _queued : Z; error : option string;
  eof : bool; _paused : bool; _transport : bool; _waiter : waiter }.

Definition init (max_frame : Z) : proto := Proto max_frame [] [] 0 None false false false NoWaiter.

Definition set_transport (p : proto) : proto :=
  Proto (p_max p) (p_buf p) (frames p) (_queued p) (error p) (eof p) (_paused p) true (_waiter p).

Definition connection_made (p : proto) : proto := set_transport p.

Definition _pause (p : proto) : proto :=
  if negb (_paused p) && _transport p then
    Proto (p_max p) (p_buf p) (frames p) (_queued p) (error p) (eof p) true (_transport p) (_waiter p)
  else p.

Definition wake (p : proto) : proto :=
  match _waiter p with
  | Waiting => Proto (p_max p) (p_buf p) (frames p) (_queued p) (error p) (eof p) (_paused p)
                     (_transport p) Woken
  | _ => p
  end.

Definition set_split (p : proto) (buf : list Z) (fs : list (list Z)) (q : Z) (e : option string)
  : proto := Proto (p_max p) buf fs q e (eof p) (_paused p) (_transport p) (_waiter p).

(** The [while len(buf) >= _HEADER.size] loop; each turn that goes on deletes at least
    the header, so [fuel] = the buffer's length plus one is enough
    ([split_loop_done]).  The boolean says whether the loop refused an oversized frame. *)
Fixpoint split_loop (fuel : nat) (max : Z) (buf : list Z) (fs : list (list Z)) (q : Z)
  : list Z * list (list Z) * Z * bool :=
  match fuel with
  | O => (buf, fs, q, false)
  | S n =>
      if (length buf <? _HEADER_size)%nat then (buf, fs, q, false)
      else
        let length_ := header_of buf in
        if max <? length_ then ([], fs, q, true)
        else
          let end_ := (_HEADER_size + Z.to_nat length_)%nat in
          if (length buf <? end_)%nat then (buf, fs, q, false)
          else split_loop n max (drop end_ buf)
                 (fs ++ [drop _HEADER_size (take end_ buf)]) (q + length_)
  end.

Definition data_received (data : list Z) (p : proto) : proto :=
  match error p with
  | Some _ => p
  | None =>
      let buf := p_buf p ++ data in
      let '(buf, fs, q, refused) := split_loop (S (length buf)) (p_max p) buf (frames p) (_queued p) in
      let p := if refused then _pause (set_split p buf fs q (Some "frame exceeds the byte cap"))
               else set_split p buf fs q None in
      let p := if (_READ_HIGH_WATER <? _queued p + Z.of_nat (length (p_buf p)))
                  || (_READ_HIGH_FRAMES <=? Z.of_nat (length (frames p)))
               then _pause p else p in
      wake p
  end.

Definition eof_received (p : proto) : proto :=
  wake (Proto (p_max p) (p_buf p) (frames p) (_queued p) (error p) true (_paused p)
              (_transport p) (_waiter p)).

Definition connection_lost (p : proto) : proto := eof_received p.

Definition partial (p : proto) : bool := negb (bool_decide (p_buf p = [])).

(** [pop]: [popleft] of an empty deque is an [IndexError]. *)
Definition pop (p : proto) : result exn (list Z * proto) :=
  match frames p with
  | [] => Err (IndexError "pop from an empty deque")
  | payload :: fs =>
      let q := _queued p - Z.of_nat (length payload) in
      let resume := _paused p && bool_decide (error p = None)
        && (bool_decide (fs = [])
            || ((q + Z.of_nat (length (p_buf p)) <? _READ_LOW_WATER)
                && (Z.of_nat (length fs) <? _READ_LOW_FRAMES))) in
      Ok (payload, Proto (p_max p) (p_buf p) fs q (error p) (eof p)
                         (if resume then false else _paused p) (_transport p) (_waiter p))
  end.

(** [wait]: the future is created, then the consumer suspends. *)
Definition wait (p : proto) : proto :=
  Proto (p_max p) (p_buf p) (frames p) (_queued p) (error p) (eof p) (_paused p) (_transport p) Waiting.

(** The decision of [AsyncIsolatedRuntime._next_frame] on a live runtime: pop a frame,
    report, or wait for the event loop. *)
Inductive next := NextFrame (payload : list Z) (p : proto) | NextError (msg : string)
                | NextEof | NextWait (p : proto).

Definition next_frame (p : proto) : next :=
  match pop p with
  | Ok (payload, p') => NextFrame payload p'
  | Err _ =>
      match error p with
      | Some e => NextError e
      | None => if eof p then (if partial p then NextError "peer closed mid-frame" else NextEof)
                else NextWait (wait p)
      end
  end.

(** ** The event loop as a step relation

    asyncio calls [connection_made] once, first, and the consumer waits only where
    [_next_frame] does.  The ghost state: the bytes delivered and the payloads popped. *)
Record world := World { w_proto : proto; delivered : list Z; popped : list (list Z) }.

Inductive step : world -> world -> Prop :=
| StepData w data : Forall byte_range data ->
    step w (World (data_received data (w_proto w)) (delivered w ++ data) (popped w))
| StepEof w : step w (World (eof_received (w_proto w)) (delivered w) (popped w))
| StepLost w : step w (World (connection_lost (w_proto w)) (delivered w) (popped w))
| StepWait w p : next_frame (w_proto w) = NextWait p -> step w (World p (delivered w) (popped w))
| StepPop w payload p : pop (w_proto w) = Ok (payload, p) ->
    step w (World p (delivered w) (popped w ++ [payload])).

Inductive reachable (max : Z) : world -> Prop :=
| ReachInit : reachable max (World (connection_made (init max)) [] [])
| ReachStep w w' : reachable max w -> step w w' -> reachable max w'.

(** The transports of asyncio: no data comes between [pause_reading] and [resume_reading], and at
    most [chunk] bytes at once. *)
Definition obeys (chunk : Z) (w w' : world) : Prop :=
  delivered w' = delivered w \/
  (_paused (w_proto w) = false /\ Z.of_nat (length (delivered w')) <= Z.of_nat (length (delivered w)) + chunk).

Inductive paced (chunk max : Z) : world -> Prop :=
| PacedInit : paced chunk max (World (connection_made (init max)) [] [])
| PacedStep w w' : paced chunk max w -> step w w' -> obeys chunk w w' -> paced chunk max w'.

Lemma paced_reachable chunk max w : paced chunk max w -> reachable max w.
Proof. induction 1; [constructor|by eapply ReachStep]. Qed.

(** ** The invariant *)

Definition sum_len (fs : list (list Z)) : Z := Z.of_nat (length (concat fs)).

(** The buffer holds no complete frame and no oversized header. *)
Definition incomplete (max : Z) (buf : list Z) : Prop :=
  (length buf < _HEADER_size)%nat \/
  (header_of buf <= max /\ Z.of_nat (length buf) < Z.of_nat _HEADER_size + header_of buf).

Record inv (max : Z) (w : world) : Prop := Inv {
  inv_max : p_max (w_proto w) = max;
  inv_queued : _queued (w_proto w) = sum_len (frames (w_proto w));
  inv_stream : error (w_proto w) = None ->
    delivered w = concat (frame <$> (popped w ++ frames (w_proto w))) ++ p_buf (w_proto w);
  inv_prefix : exists rest,
    delivered w = concat (frame <$> (popped w ++ frames (w_proto w))) ++ rest;
  inv_incomplete : error (w_proto w) = None -> incomplete max (p_buf (w_proto w));
  inv_bytes : Forall byte_range (p_buf (w_proto w));
  inv_cleared : error (w_proto w) <> None -> p_buf (w_proto w) = [];
  inv_paused : _paused (w_proto w) = true -> error (w_proto w) = None -> frames (w_proto w) <> [];
  inv_bounded : error (w_proto w) = None -> _paused (w_proto w) = false -> _transport (w_proto w) = true ->
    _queued (w_proto w) + Z.of_nat (length (p_buf (w_proto w))) <= _READ_HIGH_WATER /\
    Z.of_nat (length (frames (w_proto w))) < _READ_HIGH_FRAMES;
  inv_transport : _transport (w_proto w) = true;
  inv_waiting : _waiter (w_proto w) = Waiting ->
    frames (w_proto w) = [] /\ error (w_proto w) = None /\ eof (w_proto w) = false }.


Lemma sum_len_app fs p : sum_len (fs ++ [p]) = sum_len fs + Z.of_nat (length p).
Proof. unfold sum_len. rewrite concat_app, length_app. cbn. rewrite app_nil_r. lia. Qed.

Lemma sum_len_cons p fs : sum_len (p :: fs) = Z.of_nat (length p) + sum_len fs.
Proof. unfold sum_len. cbn. rewrite length_app. lia. Qed.

(** One complete frame at the head of a buffer. *)
Lemma split_head buf :
  Forall byte_range buf -> (_HEADER_size <= length buf)%nat ->
  (_HEADER_size + Z.to_nat (header_of buf) <= length buf)%nat ->
  let end_ := (_HEADER_size + Z.to_nat (header_of buf))%nat in
  buf = frame (drop _HEADER_size (take end_ buf)) ++ drop end_ buf /\
  Z.of_nat (length (drop _HEADER_size (take end_ buf))) = header_of buf.
Proof.
  intros Hb Hl He end_. pose proof (FrameReader.header_of_nonneg _ Hb) as Hn.
  assert (Hlen : length (drop _HEADER_size (take end_ buf)) = Z.to_nat (header_of buf))
    by (unfold end_; rewrite length_drop, length_take; lia).
  split; [|lia]. unfold frame. rewrite Hlen, Z2Nat.id by done.
  assert (Hh : le_bytes _HEADER_size (header_of buf) = take _HEADER_size (take end_ buf)).
  { unfold header_of. rewrite take_take, Nat.min_l by (unfold end_; lia).
    rewrite <- (le_bytes_le_int (take _HEADER_size buf)) at 2 by (by apply Forall_take).
    by rewrite length_take, Nat.min_l. }
  by rewrite Hh, take_drop, take_drop.
Qed.

Lemma split_loop_spec fuel max buf fs q buf' fs' q' refused :
  Forall byte_range buf -> (length buf < fuel)%nat -> q = sum_len fs ->
  split_loop fuel max buf fs q = (buf', fs', q', refused) ->
  q' = sum_len fs' /\ Forall byte_range buf' /\ (exists more, fs' = fs ++ more) /\
  (exists rest, concat (frame <$> fs) ++ buf = concat (frame <$> fs') ++ rest /\
     if refused then buf' = [] else rest = buf' /\ incomplete max buf').
Proof.
  revert buf fs q; induction fuel as [|fuel IH]; intros buf fs q Hb Hf Hq; [lia|].
  cbn [split_loop]. destruct (Nat.ltb_spec (length buf) _HEADER_size) as [Hl|Hl].
  { intros [= <- <- <- <-]. split_and!; [done|done|by exists []; rewrite app_nil_r|].
    exists buf. split; [done|]. split; [done|]. by left. }
  destruct (Z.ltb_spec max (header_of buf)) as [Hc|Hc].
  { intros [= <- <- <- <-]. split_and!; [done|constructor|by exists []; rewrite app_nil_r|]. by exists buf. }
  destruct (Nat.ltb_spec (length buf) (_HEADER_size + Z.to_nat (header_of buf))) as [Hp|Hp].
  { intros [= <- <- <- <-]. split_and!; [done|done|by exists []; rewrite app_nil_r|].
    exists buf. split; [done|]. split; [done|]. right. split; [done|]. lia. }
  destruct (split_head buf Hb Hl Hp) as [Hsplit Hlen].
  intros H. eapply IH in H.
  - destruct H as (H1 & H2 & [more H3] & (rest & H4 & H5)). split_and!; [done|done| |].
    + eexists. by rewrite H3, <- app_assoc.
    + exists rest. split; [|done]. rewrite <- H4, fmap_app, concat_app, <- app_assoc.
      f_equal. cbn [fmap list_fmap concat]. by rewrite app_nil_r.
  - by apply Forall_drop.
  - rewrite length_drop. unfold _HEADER_size in *. lia.
  - by rewrite sum_len_app, Hlen, Hq.
Qed.

(** The loop runs to its end: what is left holds no complete frame. *)
Lemma split_loop_done max buf fs q buf' fs' q' :
  Forall byte_range buf -> q = sum_len fs ->
  split_loop (S (length buf)) max buf fs q = (buf', fs', q', false) -> incomplete max buf'.
Proof.
  intros Hb Hq H. apply split_loop_spec in H as (_ & _ & _ & (rest & _ & _ & H)); [done|done|lia|done].
Qed.

(** An incomplete frame is below the high watermark, so it never pauses by itself. *)
Lemma incomplete_below max buf :
  max <= MAX_FRAME_BYTES -> incomplete max buf -> Z.of_nat (length buf) < _READ_HIGH_WATER.
Proof.
  unfold incomplete, _READ_HIGH_WATER, MAX_FRAME_BYTES, _HEADER_size. intros Hm [H|[H1 H2]]; lia.
Qed.

Section Preservation.
Context (max : Z) (Hmax : max <= MAX_FRAME_BYTES).

Lemma inv_init : inv max (World (connection_made (init max)) [] []).
Proof.
  split; cbn; try done.
  - by exists [].
  - intros _. left. unfold _HEADER_size. cbn. lia.
Qed.

Lemma inv_data w data : Forall byte_range data -> inv max w ->
  inv max (World (data_received data (w_proto w)) (delivered w ++ data) (popped w)).
Proof.
  intros Hd [Hm Hq Hs [rest Hp] Hi Hb Hc Hpa Hbo Ht Hw]. destruct w as [p dv pp]; cbn [w_proto delivered popped] in *.
  unfold data_received. destruct (error p) as [e|] eqn:He.
  { split; cbn [w_proto delivered popped]; rewrite ?He; try done. exists (rest ++ data). by rewrite Hp, <- app_assoc. }
  destruct (split_loop _ _ _ _ _) as [[[buf fs] q] refused] eqn:E.
  apply split_loop_spec in E as (Hq' & Hb' & [more Hmore] & (rest' & Hstr & Href));
    [|by apply Forall_app|lia|done].
  assert (Hdel : dv ++ data = concat (frame <$> (pp ++ fs)) ++ rest').
  { rewrite (Hs eq_refl), !fmap_app, !concat_app, <- !app_assoc. f_equal. by rewrite <- Hstr. }
  destruct p as [pm pb pf pq pe peof pp' pt pw]; cbn in Hm, He; subst pm pe.
  destruct refused.
  - subst buf. unfold _pause, set_split. cbn.
    destruct pp', pt, pw; repeat case_match; (split; cbn; try done; try by exists rest').
  - destruct Href as [-> Hinc]. pose proof (incomplete_below _ _ Hmax Hinc) as Hbelow.
    cbn in Hpa, Hbo. unfold set_split, _pause. cbn.
    assert (Hfs : (_READ_HIGH_WATER <? q + Z.of_nat (length buf)) || (_READ_HIGH_FRAMES <=? Z.of_nat (length fs)) = true -> fs <> []).
    { intros Hh ->. subst q. apply orb_true_iff in Hh as [Hh|Hh]; bool_prop;
        unfold sum_len, _READ_HIGH_FRAMES in *; cbn in *; lia. }
    assert (Hkeep : pp' = true -> fs <> []).
    { intros -> Hn. subst fs. apply app_eq_nil in Hn as [Hn _]. by apply Hpa. }
    destruct (_ || _) eqn:Hhigh; destruct pp', pt, pw; cbn; split; cbn; auto; try done; try by exists buf.
    all: intros; apply orb_false_iff in Hhigh as [Hh1 Hh2]; bool_prop; split; lia.
Qed.

Lemma inv_pop w payload p : inv max w -> pop (w_proto w) = Ok (payload, p) ->
  inv max (World p (delivered w) (popped w ++ [payload])).
Proof.
  intros [Hm Hq Hs [rest Hp] Hi Hb Hc Hpa Hbo Ht Hw] H. destruct w as [p0 dv pp]; cbn [w_proto delivered popped] in *.
  unfold pop in H. destruct (frames p0) as [|x fs] eqn:Hf; [done|]. injection H as <- <-.
  rewrite sum_len_cons in Hq.
  assert (Heq : forall l : list (list Z), (pp ++ [x]) ++ l = pp ++ x :: l) by (intros; by rewrite <- app_assoc).
  assert (Hq' : _queued p0 - Z.of_nat (length x) = sum_len fs) by lia.
  split; cbn [w_proto delivered popped p_max p_buf frames _queued error eof _paused _transport _waiter];
    rewrite ?Heq; try done; try by exists rest.
  - intros Hpd He. destruct (_paused p0) eqn:Hpd0; [|by destruct (false && _ && _)].
    rewrite He, bool_decide_true in Hpd by done. cbn in Hpd. intros ->.
    rewrite bool_decide_true in Hpd by done. done.
  - intros He Hpd _. specialize (Hi He). pose proof (incomplete_below _ _ Hmax Hi) as Hbelow.
    destruct (_paused p0) eqn:Hpd0.
    + rewrite He, bool_decide_true in Hpd by done. cbn in Hpd.
      destruct (bool_decide (fs = [])) eqn:Hfe.
      * apply bool_decide_eq_true in Hfe as ->. rewrite Hq'. unfold sum_len, _READ_HIGH_FRAMES. cbn. lia.
      * cbn in Hpd. destruct (_ && _) eqn:Hlow in Hpd; [|done]. bool_prop.
        unfold _READ_LOW_WATER, _READ_LOW_FRAMES, _READ_HIGH_WATER, _READ_HIGH_FRAMES, MAX_FRAME_BYTES in *. lia.
    + destruct (Hbo He eq_refl Ht) as [H1 H2]. cbn in H2. lia.
  - intros Hw0. destruct (Hw Hw0) as [[=] _].
Qed.

Lemma inv_wait w p : inv max w -> next_frame (w_proto w) = NextWait p ->
  inv max (World p (delivered w) (popped w)).
Proof.
  intros [Hm Hq Hs Hp Hi Hb Hc Hpa Hbo Ht Hw] H. unfold next_frame, pop in H.
  destruct (frames (w_proto w)) as [|x fs] eqn:Hf; [|done].
  destruct (error (w_proto w)) as [e|] eqn:He; [done|].
  destruct (eof (w_proto w)) eqn:Hef; [by destruct (partial _)|].
  injection H as <-. split; cbn; rewrite ?He, ?Hf; auto.
Qed.

Lemma inv_eof w : inv max w -> inv max (World (eof_received (w_proto w)) (delivered w) (popped w)).
Proof.
  intros [Hm Hq Hs Hp Hi Hb Hc Hpa Hbo Ht Hw]. destruct w as [p dv pp]. unfold eof_received, wake.
  cbn in *. destruct (_waiter p); split; cbn; auto; try discriminate.
Qed.

Lemma reachable_inv w : reachable max w -> inv max w.
Proof.
  induction 1 as [|w w' _ IH Hst]; [apply inv_init|].
  destruct Hst; auto using inv_data, inv_eof; eauto using inv_pop, inv_wait.
Qed.
End Preservation.

(** ** The memory of a paced reader *)

Lemma length_frame payload : Z.of_nat (length (frame payload)) = 4 + Z.of_nat (length payload).
Proof. unfold frame. rewrite length_app, le_bytes_length. unfold _HEADER_size. lia. Qed.

Lemma length_frames fs : Z.of_nat (length (concat (frame <$> fs))) = sum_len fs + 4 * Z.of_nat (length fs).
Proof.
  induction fs as [|x fs IH]; [done|]. cbn [fmap list_fmap concat length]. rewrite length_app, sum_len_cons. pose proof (length_frame x). lia.
Qed.

Lemma le_int_le_bytes_le n x : 0 <= x -> le_int (le_bytes n x) <= x.
Proof.
  revert x. induction n as [|n IH]; intros x Hx; cbn [le_bytes le_int]; [done|].
  specialize (IH (x / 256) ltac:(apply Z.div_pos; lia)). pose proof (Z.div_mod x 256 ltac:(lia)). lia.
Qed.

Lemma header_of_frame_le payload rest : header_of (frame payload ++ rest) <= Z.of_nat (length payload).
Proof.
  unfold header_of, frame. rewrite <- app_assoc, take_app_length' by (by rewrite le_bytes_length). apply le_int_le_bytes_le. lia.
Qed.

(** Each frame a delivery completes takes four of its bytes, but for the one begun before. *)
Lemma new_frames max buf data more rest : incomplete max buf -> buf ++ data = concat (frame <$> more) ++ rest ->
  4 * Z.of_nat (length more) <= Z.of_nat (length data) + 3.
Proof.
  intros Hi E. destruct more as [|x more]; [cbn; lia|]. cbn [fmap list_fmap concat] in E. rewrite <- app_assoc in E.
  assert (Hb : Z.of_nat (length buf) < 4 + Z.of_nat (length x)).
  { destruct (decide (length buf < _HEADER_size)%nat) as [Hl|Hl]; [unfold _HEADER_size in Hl; lia|].
    destruct Hi as [?|[_ Hi]]; [done|]. rewrite <- (FrameReader.header_of_app buf data) in Hi by lia. rewrite E in Hi.
    pose proof (header_of_frame_le x (concat (frame <$> more) ++ rest)). unfold _HEADER_size in Hi. lia. }
  apply (f_equal length) in E. rewrite !length_app in E. pose proof (length_frame x). pose proof (length_frames more).
  assert (0 <= sum_len more) by (unfold sum_len; lia). cbn [length]. lia.
Qed.

(** What a reader may hold. *)
Definition holds_at_most (chunk : Z) (p : proto) : Prop :=
  _queued p + Z.of_nat (length (p_buf p)) <= _READ_HIGH_WATER + chunk /\
  4 * Z.of_nat (length (frames p)) < 4 * _READ_HIGH_FRAMES + chunk.

Lemma pause_holds chunk p : holds_at_most chunk p -> holds_at_most chunk (_pause p).
Proof. unfold _pause. by destruct (_ && _). Qed.

Lemma wake_holds chunk p : holds_at_most chunk p -> holds_at_most chunk (wake p).
Proof. unfold wake. by destruct (_waiter p). Qed.

Lemma split_incomplete fuel max buf fs q : incomplete max buf -> split_loop (S fuel) max buf fs q = (buf, fs, q, false).
Proof.
  intros Hi. cbn [split_loop]. destruct (Nat.ltb_spec (length buf) _HEADER_size) as [Hl|Hl]; [done|].
  destruct Hi as [?|[H1 H2]]; [lia|]. rewrite (proj2 (Z.ltb_ge _ _)) by done.
  by rewrite (proj2 (Nat.ltb_lt _ _)) by lia.
Qed.

Lemma no_data_holds max chunk w : inv max w -> holds_at_most chunk (w_proto w) -> holds_at_most chunk (data_received [] (w_proto w)).
Proof.
  intros [Hm Hq Hs Hp Hi Hb Hc Hpa Hbo Ht Hw] Hh. unfold data_received. destruct (error (w_proto w)) as [e|] eqn:He; [done|].
  rewrite app_nil_r, Hm, split_incomplete by auto. apply wake_holds. case_match; [apply pause_holds|]; exact Hh.
Qed.

Lemma data_holds max chunk w data : Forall byte_range data -> inv max w -> _paused (w_proto w) = false -> Z.of_nat (length data) <= chunk ->
  holds_at_most chunk (w_proto w) -> holds_at_most chunk (data_received data (w_proto w)).
Proof.
  intros Hd [Hm Hq Hs Hp Hi Hb Hc Hpa Hbo Ht Hw] Hup Hl Hh. unfold data_received. destruct (error (w_proto w)) as [e|] eqn:He; [done|].
  destruct (Hbo eq_refl Hup Ht) as [H1 H2]. specialize (Hi eq_refl).
  destruct (split_loop _ _ _ _ _) as [[[buf fs] q] refused] eqn:E.
  apply split_loop_spec in E as (-> & _ & [more ->] & (rest & Hstr & Hr)); [|by apply Forall_app|lia|done].
  rewrite fmap_app, concat_app, <- app_assoc in Hstr. apply app_inv_head in Hstr.
  pose proof (new_frames _ _ _ _ _ Hi Hstr) as Hn. apply (f_equal length) in Hstr. rewrite !length_app in Hstr.
  assert (Hk : forall e, holds_at_most chunk (set_split (w_proto w) buf (frames (w_proto w) ++ more) (sum_len (frames (w_proto w) ++ more)) e)).
  { intros e. pose proof (length_frames more). assert (Hsum : sum_len (frames (w_proto w) ++ more) = _queued (w_proto w) + sum_len more).
    { rewrite Hq. unfold sum_len. rewrite concat_app, length_app. lia. }
    assert (Z.of_nat (length buf) <= Z.of_nat (length rest)) by (destruct refused; [subst; cbn; lia|by destruct Hr as [-> _]]).
    unfold holds_at_most, set_split. cbn [_queued p_buf frames]. rewrite Hsum, length_app. lia. }
  destruct refused; apply wake_holds; repeat case_match; auto using pause_holds.
Qed.

Lemma paced_holds chunk max w : max <= MAX_FRAME_BYTES -> 0 <= chunk -> paced chunk max w -> holds_at_most chunk (w_proto w).
Proof.
  intros Hmax Hch. induction 1 as [|w w' Hr IH Hst Hob]; [unfold holds_at_most; cbn; unfold _READ_HIGH_WATER, _READ_HIGH_FRAMES, MAX_FRAME_BYTES; lia|].
  pose proof (reachable_inv max Hmax w (paced_reachable _ _ _ Hr)) as Hinv. destruct Hst as [w data Hd|w|w|w p Hn|w payload p Hp]; cbn [w_proto delivered] in *.
  - unfold obeys in Hob. cbn [w_proto delivered] in Hob. destruct Hob as [E|[Hup Hl]].
    + assert (data = []) as -> by (by apply (app_inv_head (delivered w)); rewrite app_nil_r).
      by eapply no_data_holds.
    + rewrite length_app in Hl. eapply data_holds; [done|exact Hinv|done|lia|done].
  - unfold eof_received. by apply wake_holds.
  - unfold connection_lost, eof_received. by apply wake_holds.
  - unfold next_frame in Hn. repeat case_match; simplify_eq; done.
  - unfold pop in Hp. destruct (frames (w_proto w)) as [|x fs] eqn:Hf; [done|]. injection Hp as <- <-. destruct IH as [I1 I2].
    rewrite Hf in I2. unfold holds_at_most. cbn [_queued p_buf frames length] in *. lia.
Qed.

(** Whatever chunks the event loop delivers and whenever the consumer pops, the
    asyncio reader yields exactly the frames of the byte stream, in order: the frames
    popped and queued, re-encoded, followed by the buffered bytes, are the bytes
    delivered; the buffer never holds a complete frame; after a refused oversized frame
    the frames before it are still exactly a prefix of the stream. *)
Theorem async_reader_stream max w :
  max <= MAX_FRAME_BYTES -> reachable max w ->
  (exists rest, delivered w = concat (frame <$> (popped w ++ frames (w_proto w))) ++ rest) /\
  (error (w_proto w) = None ->
     delivered w = concat (frame <$> (popped w ++ frames (w_proto w))) ++ p_buf (w_proto w) /\
     incomplete max (p_buf (w_proto w))).
Proof.
  intros Hmax Hr. destruct (reachable_inv max Hmax w Hr). split; [done|]. auto.
Qed.

(** A delivery of one and a half frames, then a pop. *)
Definition demo_world : world :=
  World (Proto 100 [2; 0; 0; 0; 8] [] 0 None false false true NoWaiter)
        [1; 0; 0; 0; 7; 2; 0; 0; 0; 8] [[7]].

Lemma demo_paced : paced 10 100 demo_world.
Proof.
  pose (w1 := World (Proto 100 [2; 0; 0; 0; 8] [[7]] 1 None false false true NoWaiter)
                    [1; 0; 0; 0; 7; 2; 0; 0; 0; 8] []).
  apply (PacedStep 10 100 w1); [|exact (StepPop w1 [7] (w_proto demo_world) eq_refl)|by left].
  eapply PacedStep; [apply PacedInit| |right; split; [done|cbn; lia]].
  exact (StepData (World (connection_made (init 100)) [] []) [1; 0; 0; 0; 7; 2; 0; 0; 0; 8]
           ltac:(repeat constructor; vm_compute; congruence)).
Qed.

Lemma demo_reachable : reachable 100 demo_world.
Proof. exact (paced_reachable _ _ _ demo_paced). Qed.

Lemma async_reader_stream_witness :
  delivered demo_world = concat (frame <$> (popped demo_world ++ frames (w_proto demo_world)))
                         ++ p_buf (w_proto demo_world).
Proof.
  apply (async_reader_stream 100 demo_world); [vm_compute; congruence | exact demo_reachable | reflexivity].
Defined.

(** C28. Back-pressure of the asyncio reader never deadlocks and bounds its memory.  In every
    reachable state, whenever data arrives: a paused reader without an error has a frame to pop
    (popping the last one resumes the transport), a waiting consumer has nothing to consume, the
    byte count is the exact sum of the queued payloads, and a reader that is not paused and has
    no error holds at most the high watermark of bytes and frames.  On a transport that delivers
    nothing while it is paused and at most [chunk] bytes at once, as asyncio's do, the reader
    holds in every state, paused or failed too, at most [chunk] bytes more than the high
    watermark, and fewer than a quarter of [chunk] frames more than the high count. *)
Theorem async_reader_backpressure max w :
  max <= MAX_FRAME_BYTES -> reachable max w ->
  let p := w_proto w in
  _queued p = sum_len (frames p) /\
  (_paused p = true -> error p = None -> frames p <> []) /\
  (_waiter p = Waiting -> frames p = [] /\ error p = None /\ eof p = false /\ _paused p = false) /\
  (error p = None -> _paused p = false -> _transport p = true ->
     _queued p + Z.of_nat (length (p_buf p)) <= _READ_HIGH_WATER /\
     Z.of_nat (length (frames p)) < _READ_HIGH_FRAMES) /\
  (forall chunk, 0 <= chunk -> paced chunk max w ->
     _queued p + Z.of_nat (length (p_buf p)) <= _READ_HIGH_WATER + chunk /\
     4 * Z.of_nat (length (frames p)) < 4 * _READ_HIGH_FRAMES + chunk).
Proof.
  intros Hmax Hr. destruct (reachable_inv max Hmax w Hr) as [Hm Hq Hs Hp Hi Hb Hc Hpa Hbo Ht Hw].
  split_and!; try done.
  - intros H. destruct (Hw H) as (H1 & H2 & H3). split_and!; try done.
    destruct (_paused (w_proto w)) eqn:E; [|done]. by destruct (Hpa eq_refl H2).
  - intros chunk Hch Hpc. by eapply paced_holds.
Qed.

Lemma async_reader_backpressure_witness :
  let p := w_proto demo_world in
  (_queued p + Z.of_nat (length (p_buf p)) <= _READ_HIGH_WATER /\ Z.of_nat (length (frames p)) < _READ_HIGH_FRAMES) /\
  (_queued p + Z.of_nat (length (p_buf p)) <= _READ_HIGH_WATER + 10 /\ 4 * Z.of_nat (length (frames p)) < 4 * _READ_HIGH_FRAMES + 10).
Proof.
  destruct (async_reader_backpressure 100 demo_world ltac:(vm_compute; congruence) demo_reachable) as (_ & _ & _ & H1 & H2).
  split; [by apply H1|]. apply (H2 10 ltac:(lia) demo_paced).
Defined.
