(* ===== verification/Utf8.v ===== *)
(** * Text as Python has it

    A [str] is the list of its code points ([0 .. 0x10FFFF], surrogates included).
    [utf8_encode] is [str.encode("utf-8", "surrogatepass")], [utf8_decode] the strict
    [bytes.decode("utf-8")]; the two are inverse on scalar values. *)

From S2P Require Import Prelude.

(** An ASCII literal of the source as code points. *)
Definition u (s : string) : list Z :=
  (fun c => Z.of_nat (Ascii.nat_of_ascii c)) <$> String.list_ascii_of_string s.

Lemma u_inj s t : u s = u t -> s = t.
Proof.
  intros E. assert (Hf : Inj (=) (=) (fun c => Z.of_nat (Ascii.nat_of_ascii c))).
  { intros a b Hab. apply Nat2Z.inj in Hab. by rewrite <- (Ascii.ascii_nat_embedding a), Hab, Ascii.ascii_nat_embedding. }
  apply (inj (fmap _)) in E. by rewrite <- (String.string_of_list_ascii_of_string s), E, String.string_of_list_ascii_of_string.
Qed.

Definition is_surrogate (c : Z) : bool := (0xD800 <=? c) && (c <=? 0xDFFF).
Definition scalar (c : Z) : Prop := 0 <= c <= 0x10FFFF /\ is_surrogate c = false.

Definition utf8_char (c : Z) : list Z :=
  if c <? 0x80 then [c]
  else if c <? 0x800 then [0xC0 + c / 64; 0x80 + c mod 64]
  else if c <? 0x10000 then [0xE0 + c / 4096; 0x80 + (c / 64) mod 64; 0x80 + c mod 64]
  else [0xF0 + c / 262144; 0x80 + (c / 4096) mod 64; 0x80 + (c / 64) mod 64; 0x80 + c mod 64].

Definition utf8_encode (s : list Z) : list Z := concat (utf8_char <$> s).

Definition cont (b : Z) : bool := (0x80 <=? b) && (b <? 0xC0).

Fixpoint utf8_decode (bs : list Z) : option (list Z) :=
  match bs with
  | [] => Some []
  | b0 :: t =>
      if b0 <? 0x80 then cons b0 <$> utf8_decode t
      else match t with
      | [] => None
      | b1 :: t1 =>
          if negb (cont b1) then None
          else if b0 <? 0xE0 then
            let c := (b0 - 0xC0) * 64 + (b1 - 0x80) in
            if (0x80 <=? c) && (0xC0 <=? b0) then cons c <$> utf8_decode t1 else None
          else match t1 with
          | [] => None
          | b2 :: t2 =>
              if negb (cont b2) then None
              else if b0 <? 0xF0 then
                let c := (b0 - 0xE0) * 4096 + (b1 - 0x80) * 64 + (b2 - 0x80) in
                if (0x800 <=? c) && negb (is_surrogate c) then cons c <$> utf8_decode t2 else None
              else match t2 with
              | [] => None
              | b3 :: t3 =>
                  let c := (b0 - 0xF0) * 262144 + (b1 - 0x80) * 4096 + (b2 - 0x80) * 64 + (b3 - 0x80) in
                  if cont b3 && (0x10000 <=? c) && (c <=? 0x10FFFF) then cons c <$> utf8_decode t3 else None
              end
          end
      end
  end.

Ltac decide_tests :=
  repeat match goal with
  | |- context [(?a <? ?b)%Z] =>
      first [rewrite (proj2 (Z.ltb_lt a b)) by lia | rewrite (proj2 (Z.ltb_ge a b)) by lia]
  | |- context [(?a <=? ?b)%Z] =>
      first [rewrite (proj2 (Z.leb_le a b)) by lia | rewrite (proj2 (Z.leb_gt a b)) by lia]
  end; cbn [andb orb negb].

Lemma utf8_decode_char c bs : scalar c -> utf8_decode (utf8_char c ++ bs) = cons c <$> utf8_decode bs.
Proof.
  intros [Hc Hs]. unfold utf8_char.
  destruct (Z.ltb_spec c 0x80) as [H1|H1].
  { cbn [app utf8_decode]. by decide_tests. }
  pose proof (Z.mod_pos_bound c 64 ltac:(lia)) as B1.
  pose proof (Z.div_mod c 64 ltac:(lia)) as E1.
  destruct (Z.ltb_spec c 0x800) as [H2|H2].
  { assert (2 <= c / 64 < 32) by lia.
    cbn [app utf8_decode]. unfold cont. decide_tests.
    replace ((0xC0 + c / 64 - 0xC0) * 64 + (0x80 + c mod 64 - 0x80)) with c by lia. by decide_tests. }
  pose proof (Z.mod_pos_bound (c / 64) 64 ltac:(lia)) as B2.
  pose proof (Z.div_mod (c / 64) 64 ltac:(lia)) as E2.
  assert (D2 : c / 4096 = c / 64 / 64) by (rewrite Z.div_div by lia; done).
  destruct (Z.ltb_spec c 0x10000) as [H3|H3].
  { assert (0 <= c / 4096 < 16) by lia.
    cbn [app utf8_decode]. unfold cont. decide_tests.
    replace ((0xE0 + c / 4096 - 0xE0) * 4096 + (0x80 + (c / 64) mod 64 - 0x80) * 64 + (0x80 + c mod 64 - 0x80))
      with c by lia. rewrite Hs. by decide_tests. }
  pose proof (Z.mod_pos_bound (c / 4096) 64 ltac:(lia)) as B3.
  pose proof (Z.div_mod (c / 4096) 64 ltac:(lia)) as E3.
  assert (D3 : c / 262144 = c / 4096 / 64) by (rewrite Z.div_div by lia; done).
  assert (0 <= c / 262144 < 5) by lia.
  cbn [app utf8_decode]. unfold cont. decide_tests.
  replace ((0xF0 + c / 262144 - 0xF0) * 262144 + (0x80 + (c / 4096) mod 64 - 0x80) * 4096
           + (0x80 + (c / 64) mod 64 - 0x80) * 64 + (0x80 + c mod 64 - 0x80)) with c by lia.
  by decide_tests.
Qed.

Lemma utf8_decode_encode s : Forall scalar s -> utf8_decode (utf8_encode s) = Some s.
Proof.
  induction 1 as [|c s Hc _ IH]; [done|]. unfold utf8_encode. cbn [fmap list_fmap concat].
  rewrite utf8_decode_char by done. fold (utf8_encode s). by rewrite IH.
Qed.

Lemma utf8_char_range c : 0 <= c <= 0x10FFFF -> Forall byte_range (utf8_char c).
Proof.
  intros Hc. unfold utf8_char, byte_range.
  pose proof (Z.mod_pos_bound c 64 ltac:(lia)).
  pose proof (Z.mod_pos_bound (c / 64) 64 ltac:(lia)).
  pose proof (Z.mod_pos_bound (c / 4096) 64 ltac:(lia)).
  pose proof (Z.div_mod c 64 ltac:(lia)). pose proof (Z.mod_pos_bound c 4096 ltac:(lia)).
  pose proof (Z.div_mod c 4096 ltac:(lia)). pose proof (Z.mod_pos_bound c 262144 ltac:(lia)).
  pose proof (Z.div_mod c 262144 ltac:(lia)).
  repeat case_match; bool_prop; repeat constructor; lia.
Qed.

Lemma utf8_char_length c : (1 <= length (utf8_char c) <= 4)%nat.
Proof. unfold utf8_char. repeat case_match; cbn; lia. Qed.

Lemma utf8_encode_app s t : utf8_encode (s ++ t) = utf8_encode s ++ utf8_encode t.
Proof. unfold utf8_encode. by rewrite fmap_app, concat_app. Qed.
