(* ===== verification/PyVal.v ===== *)
(** * Python values

    The values host code passes around: the dynamically typed arguments of the API and
    the plain data that crosses to and from a guest.  A float is IEEE-754 binary64, as
    the Standard Library's specification floats; [PObj] is any object of another class. *)

From S2P Require Import Prelude Utf8.
From Stdlib Require Import Floats.SpecFloat DecimalString DecimalZ.

Inductive pyval : Type :=
| PNone
| PUndefined
| PBool (b : bool)
| PInt (z : Z)
| PFloat (f : spec_float)
| PStr (s : list Z)
| PBytes (bs : list Z)
| PList (l : list pyval)
| PTuple (l : list pyval)
| PSet (l : list pyval)
| PDict (kvs : list (pyval * pyval))
| PObj (cls : string).

(** [float(n)] of an int: correctly rounded, [OverflowError] past the largest double. *)
Definition float_of_int (z : Z) : result exn spec_float :=
  match binary_normalize 53 1024 z 0 false with
  | S754_infinity _ => Err (OverflowError "int too large to convert to float")
  | f => Ok f
  end.

Definition isfinite (f : spec_float) : bool :=
  match f with S754_zero _ => true | S754_finite _ _ _ => true | _ => false end.

(** [a <= f <= b] for a float and int bounds: Python compares the exact values. *)
Definition float_in (a : Z) (f : spec_float) (b : Z) : bool :=
  match f with
  | S754_zero _ => (a <=? 0) && (0 <=? b)
  | S754_finite s m e =>
      let v := if s then Z.neg m else Z.pos m in
      if 0 <=? e then (a <=? v * 2 ^ e) && (v * 2 ^ e <=? b)
      else (a * 2 ^ (- e) <=? v) && (v <=? b * 2 ^ (- e))
  | _ => false
  end.

(** [str(n)] of an int. *)
Definition str_of_int (z : Z) : string := NilZero.string_of_int (Z.to_int z).

(** [int(s)] of a decimal string. *)
Definition int_of_str (s : string) : option Z := Z.of_int <$> NilZero.int_of_string s.

Lemma int_of_str_of_int z : int_of_str (str_of_int z) = Some z.
Proof.
  unfold int_of_str, str_of_int. rewrite NilZero.isi.
  - cbn. by rewrite DecimalZ.of_to.
  - destruct z as [|p|p]; cbn; try discriminate;
      intros [= H]; pose proof (DecimalPos.Unsigned.to_uint_nonnil p); congruence.
  - destruct z as [|p|p]; cbn; try discriminate;
      intros [= H]; pose proof (DecimalPos.Unsigned.to_uint_nonnil p); congruence.
Qed.
Lemma str_of_int_inj m n : str_of_int m = str_of_int n -> m = n.
Proof. intros E. apply Some_inj. by rewrite <- !int_of_str_of_int, E. Qed.
