(* ===== verification/Wasm.v ===== *)
(** * Loading WebAssembly modules ([python/pydeno/_wasm.py])

    The bounded reader, the signature parser, the argument checks of a call, the
    byte-buffer convention, the life cycle of a module object and the queue of dropped
    instances.  The bridge that compiles and runs a module is outside this file: a call
    is modelled up to the values handed to it. *)

From S2P Require Import Prelude Utf8 PyVal.
From Stdlib Require Import Floats.SpecFloat.

Definition MAX_WASM_BYTES : Z := 8 * 1024 * 1024.
Definition MAX_BUFFER_BYTES : Z := 4 * 1024 * 1024.
Definition DEFAULT_BUFFER_BYTES : Z := 1024 * 1024.

Definition _MAGIC : list Z := [0; 0x61; 0x73; 0x6D; 1; 0; 0; 0].
Definition _MAX_PARAMS : Z := 1000.
Definition _MAX_RESULTS : Z := 1000.
Definition _F32_MAX : Z := 2 ^ 128 - 2 ^ 104.

(** The value types by name, ["?"] for an unknown code. *)
Definition _value_type (code : Z) : string :=
  if code =? 0x7F then "i32" else if code =? 0x7E then "i64"
  else if code =? 0x7D then "f32" else if code =? 0x7C then "f64"
  else if code =? 0x7B then "v128" else if code =? 0x70 then "funcref"
  else if code =? 0x6F then "externref" else "?".

Definition _INT_RANGES (kind : string) : option (Z * Z) :=
  if String.eqb kind "i32" then Some (- 2 ^ 31, 2 ^ 32)
  else if String.eqb kind "i64" then Some (- 2 ^ 63, 2 ^ 64) else None.

Definition signature : Type := list string * list string.

(** A module given to [load_wasm]: bytes in memory, a readable file, or neither. *)
Inductive module_arg := InMemory (bs : list Z) | AtPath (content : list Z) | OtherArg (cls : string).

Definition read_module (m : module_arg) (max_bytes : pyval) : result exn (list Z) :=
  match max_bytes with
  | PInt max =>
      if negb ((1 <=? max) && (max <=? MAX_WASM_BYTES))
      then Err (ValueError "max_bytes must be between 1 and MAX_WASM_BYTES")
      else
        data ← match m with
               | InMemory bs =>
                   if max <? Z.of_nat (length bs)
                   then Err (ValueError "the module is over max_bytes") else Ok bs
               | AtPath content =>
                   let data := take (Z.to_nat (max + 1)) content in
                   if max <? Z.of_nat (length data)
                   then Err (ValueError "the module file is over max_bytes") else Ok data
               | OtherArg _ => Err (TypeError "load_wasm takes the module as bytes or a path")
               end;
        if bool_decide (take 8 data = _MAGIC) then Ok data
        else Err (ValueError "not a WebAssembly binary module (version 1)")
  | _ => Err (TypeError "max_bytes must be an int")
  end.

(** ** The bounded reader *)

Record _Reader := Reader_ { data : list Z; pos : nat; end_ : nat }.

(** A method of the reader: raises, or returns a value and the moved reader. *)
Definition read_m (A : Type) : Type := _Reader -> result exn (A * _Reader).

#[export] Instance read_ret : MRet read_m := fun A a r => Ok (a, r).
#[export] Instance read_bind : MBind read_m := fun A B f m r =>
  match m r with Ok (a, r') => f a r' | Err e => Err e end.

Definition fail_m {A} (e : exn) : read_m A := fun _ => Err e.

Definition truncated : exn := ValueError "truncated WebAssembly module".
Definition malformed (what : string) : exn := ValueError (String.append "malformed WebAssembly module " what).

Definition byte : read_m Z := fun r =>
  if (end_ r <=? pos r)%nat then Err truncated
  else match data r !! pos r with
       | Some v => Ok (v, Reader_ (data r) (S (pos r)) (end_ r))
       | None => Err (IndexError "index out of range")
       end.

(** The LEB128 loop over the shifts 0, 7, ..., 28. *)
Fixpoint u32_loop (shifts : list Z) (result_ : Z) : read_m Z :=
  match shifts with
  | [] => fail_m (malformed "(integer too long)")
  | shift :: shifts' =>
      b ← byte;
      let result_ := Z.lor result_ (Z.shiftl (Z.land b 0x7F) shift) in
      if Z.land b 0x80 =? 0 then
        if 2 ^ 32 <=? result_ then fail_m (malformed "(integer too large)") else mret result_
      else u32_loop shifts' result_
  end.

Definition u32 : read_m Z := u32_loop [0; 7; 14; 21; 28] 0.

Definition take_ (length_ : Z) : read_m (list Z) := fun r =>
  if Z.of_nat (end_ r) - Z.of_nat (pos r) <? length_ then Err truncated
  else Ok (firstn (Z.to_nat length_) (skipn (pos r) (data r)),
           Reader_ (data r) (pos r + Z.to_nat length_) (end_ r)).

Definition check_count (bound n : Z) : read_m Z := fun r =>
  if (bound <? n) || (Z.of_nat (end_ r) - Z.of_nat (pos r) <? n)
  then Err (malformed "(vector too long)") else Ok (n, r).

Definition count (bound : Z) : read_m Z := n ← u32; check_count bound n.

(** [[f() for _ in range(n)]]. *)
Fixpoint repeat_m {A} (n : nat) (f : read_m A) : read_m (list A) :=
  match n with
  | O => mret []
  | S n' => x ← f; xs ← repeat_m n' f; mret (x :: xs)
  end.

Definition vec {A} (bound : Z) (f : read_m A) : read_m (list A) :=
  n ← count bound; repeat_m (Z.to_nat n) f.

(** ** The signature parser *)

(** The parser's locals. *)
Record parsed := Parsed {
  types : list signature; functions : list Z; exports : list (list Z * Z); seen : list Z }.

Definition value_type_m : read_m string := c ← byte; mret (_value_type c).

Definition type_entry : read_m signature :=
  tag ← byte;
  if negb (tag =? 0x60)
  then fail_m (ValueError "unsupported WebAssembly type section (only function types)")
  else params ← vec _MAX_PARAMS value_type_m;
       results ← vec _MAX_RESULTS value_type_m;
       mret (params, results).

(** One turn of the export loop, on the dict built so far. *)
Definition export_entry (ex : list (list Z * Z)) : read_m (list (list Z * Z)) :=
  len ← u32;
  name_bytes ← take_ len;
  match utf8_decode name_bytes with
  | None => fail_m (malformed "(export name)")
  | Some name =>
      kind ← byte;
      index ← u32;
      if existsb (fun e => bool_decide (e.1 = name)) ex then fail_m (malformed "(duplicate export)")
      else mret (if kind =? 0 then ex ++ [(name, index)] else ex)
  end.

Fixpoint export_loop (n : nat) (ex : list (list Z * Z)) : read_m (list (list Z * Z)) :=
  match n with
  | O => mret ex
  | S n' => ex ← export_entry ex; export_loop n' ex
  end.

(** The body of one section the parser knows (1, 2, 3, 7); others are skipped. *)
Definition section_body (id : Z) (p : parsed) : read_m parsed :=
  if id =? 1 then
    ts ← vec (2 ^ 20) type_entry;
    mret (Parsed (types p ++ ts) (functions p) (exports p) (seen p))
  else if id =? 2 then
    n ← u32;
    if negb (n =? 0) then fail_m (ValueError "load_wasm: modules with imports are not supported")
    else mret p
  else if id =? 3 then
    fs ← vec (2 ^ 20) u32;
    mret (Parsed (types p) fs (exports p) (seen p))
  else if id =? 7 then
    n ← count (2 ^ 20);
    ex ← export_loop (Z.to_nat n) (exports p);
    mret (Parsed (types p) (functions p) ex (seen p))
  else mret p.

(** A section of a known size: the top reader skips it, a reader of its own reads it. *)
Definition section_at (id size : Z) (p : parsed) : read_m parsed := fun top =>
  let body := Reader_ (data top) (pos top) (pos top + Z.to_nat size) in
  match take_ size top with
  | Err e => Err e
  | Ok (_, top) =>
      if id =? 0 then Ok (p, top)
      else if mem_Z id (seen p) then Err (malformed "(duplicate section)")
      else
        let p := Parsed (types p) (functions p) (exports p) (id :: seen p) in
        match section_body id p body with
        | Err e => Err e
        | Ok (p, body) =>
            if mem_Z id [1; 2; 3; 7] && negb (pos body =? end_ body)%nat
            then Err (malformed "(section size)") else Ok (p, top)
        end
  end.

(** One turn of the section loop. *)
Definition section (p : parsed) : read_m parsed :=
  id ← byte; size ← u32; section_at id size p.

(** [while top.pos < top.end]: every section takes at least its id byte, so the
    module's length in turns is enough ([sections_fuel]). *)
Fixpoint sections (fuel : nat) (p : parsed) (top : _Reader) : result exn parsed :=
  if (pos top <? end_ top)%nat then
    match fuel with
    | O => Err (AssertionError "out of fuel")
    | S n => match section p top with Err e => Err e | Ok (p, top) => sections n p top end
    end
  else Ok p.

(** The final loop: resolve every exported function. *)
Fixpoint resolve_exports (p : parsed) (ex : list (list Z * Z)) : result exn (list (list Z * signature)) :=
  match ex with
  | [] => Ok []
  | (name, index) :: ex' =>
      match functions p !! Z.to_nat index with
      | None => Err (malformed "(export index)")
      | Some f =>
          match types p !! Z.to_nat f with
          | None => Err (malformed "(export index)")
          | Some t => rest ← resolve_exports p ex'; Ok ((name, t) :: rest)
          end
      end
  end.

Definition parse_signatures (d : list Z) : result exn (list (list Z * signature)) :=
  p ← sections (length d) (Parsed [] [] [] []) (Reader_ d 8 (length d));
  resolve_exports p (exports p).

(** ** Calls *)

(** One argument against its parameter type: the value handed to the bridge and
    whether it is marked wide (an i64, which crosses as a decimal string). *)
Definition prepare_arg (kind : string) (value : pyval) : result exn (pyval * bool) :=
  match value with
  | PBool _ => Err (TypeError "a bool is not a WebAssembly value")
  | _ =>
      match _INT_RANGES kind with
      | Some (low, high) =>
          match value with
          | PInt z =>
              if negb ((low <=? z) && (z <? high)) then Err (ValueError "does not fit")
              else if String.eqb kind "i64" then Ok (PStr (u (str_of_int z)), true)
              else Ok (PInt z, false)
          | _ => Err (TypeError "takes an int")
          end
      | None =>
          if String.eqb kind "f32" || String.eqb kind "f64" then
            match value with
            | PInt z =>
                match float_of_int z with
                | Err _ => Err (ValueError "does not fit")
                | Ok number =>
                    if String.eqb kind "f32" && isfinite number
                       && negb ((- _F32_MAX <=? z) && (z <=? _F32_MAX))
                    then Err (ValueError "does not fit")
                    else Ok (PFloat number, false)
                end
            | PFloat f =>
                if String.eqb kind "f32" && isfinite f && negb (float_in (- _F32_MAX) f _F32_MAX)
                then Err (ValueError "does not fit")
                else Ok (PFloat f, false)
            | _ => Err (TypeError "takes a float or int")
            end
          else Err (TypeError "which Python cannot pass")
      end
  end.

Fixpoint prepare_loop (params : list string) (args : list pyval) : result exn (list pyval * list bool) :=
  match params, args with
  | kind :: params', value :: args' =>
      ow ← prepare_arg kind value;
      rest ← prepare_loop params' args';
      Ok (ow.1 :: rest.1, ow.2 :: rest.2)
  | _, _ => Ok ([], [])
  end.

Definition prepare_args (sig_ : signature) (args : list pyval) : result exn (list pyval * list bool) :=
  if (length args =? length sig_.1)%nat then prepare_loop sig_.1 args
  else Err (TypeError "takes another number of arguments").

(** [_typed]: a float result type gives a float back. *)
Definition _typed (kind : string) (value : pyval) : result exn pyval :=
  match value with
  | PInt z => if String.eqb kind "f32" || String.eqb kind "f64"
              then f ← float_of_int z; Ok (PFloat f) else Ok value
  | _ => Ok value
  end.

Fixpoint typed_zip (results : list string) (values : list pyval) : result exn (list pyval) :=
  match results, values with
  | k :: ks, v :: vs => x ← _typed k v; xs ← typed_zip ks vs; Ok (x :: xs)
  | _, _ => Ok []
  end.

Definition _result (results : list string) (value : pyval) : result exn pyval :=
  match value with
  | PUndefined => Ok PNone
  | PList vs => l ← typed_zip results vs; Ok (PTuple l)
  | _ => match results with [k] => _typed k value | _ => Ok value end
  end.

Definition _BYTES_FUNCTION : signature := (["i32"; "i32"; "i32"; "i32"], ["i32"]).
Definition _ALLOC : signature := (["i32"], ["i32"]).
Definition _DEALLOC : signature := (["i32"; "i32"], []).

Definition _limit (value : pyval) : result exn Z :=
  match value with
  | PInt z => if (0 <=? z) && (z <=? MAX_BUFFER_BYTES) then Ok z
              else Err (ValueError "must be between 0 and MAX_BUFFER_BYTES")
  | _ => Err (TypeError "must be an int")
  end.

Fixpoint sig_lookup (name : list Z) (sigs : list (list Z * signature)) : option signature :=
  match sigs with
  | [] => None
  | (n, s) :: sigs' => if bool_decide (n = name) then Some s else sig_lookup name sigs'
  end.

(** [prepare_buffer]: the [[bytes, result cap]] the bridge takes. *)
Definition prepare_buffer (name : list Z) (sigs : list (list Z * signature)) (data : pyval)
    (max_input_bytes max_result_bytes : pyval) : result exn (list Z * Z) :=
  max_in ← _limit max_input_bytes;
  cap ← _limit max_result_bytes;
  match data with
  | PBytes bs =>
      if max_in <? Z.of_nat (length bs) then Err (ValueError "the input is over max_input_bytes")
      else match sig_lookup name sigs with
           | None => Err (KeyError "no such export")
           | Some s =>
               if negb (bool_decide (s = _BYTES_FUNCTION))
               then Err (TypeError "is not a byte-buffer function")
               else if negb (bool_decide (sig_lookup (u "alloc") sigs = Some _ALLOC))
                       || negb (bool_decide (sig_lookup (u "dealloc") sigs = Some _DEALLOC))
               then Err (TypeError "call_bytes needs the module to export alloc and dealloc")
               else Ok (bs, cap)
           end
  | _ => Err (TypeError "takes bytes, bytearray or memoryview")
  end.

Definition buffer_result (value : pyval) : result exn (list Z) :=
  match value with
  | PBytes bs => Ok bs
  | _ => Err (TypeError "the WebAssembly bridge returned a malformed buffer")
  end.

(** ** A loaded module *)

Record wasm_module := WasmModule { _signatures : list (list Z * signature); _closed : bool }.

Definition unloaded : exn := RuntimeError "this WebAssembly module was unloaded".

Definition _prepare (m : wasm_module) (name : pyval) (args : list pyval)
  : result exn (list pyval * list bool * list string) :=
  if _closed m then Err unloaded
  else match name with
       | PStr n => match sig_lookup n (_signatures m) with
                   | None => Err (KeyError "no such export")
                   | Some s => vw ← prepare_args s args; Ok (vw.1, vw.2, s.2)
                   end
       | _ => Err (KeyError "no such export")
       end.

Definition _prepare_bytes (m : wasm_module) (name data max_in max_out : pyval) : result exn (list Z * Z) :=
  if _closed m then Err unloaded
  else match name with
       | PStr n => match sig_lookup n (_signatures m) with
                   | None => Err (KeyError "no such export")
                   | Some _ => prepare_buffer n (_signatures m) data max_in max_out
                   end
       | _ => Err (KeyError "no such export")
       end.

Section Calls.
(** The bridge's call and unload functions, which the module object holds. *)
Context (bridge_call : list pyval -> list bool -> option (list Z * Z) -> result exn pyval)
        (bridge_unload : result exn unit).

Definition call (m : wasm_module) (name : pyval) (args : list pyval) : result exn pyval :=
  vwr ← _prepare m name args;
  v ← bridge_call vwr.1.1 vwr.1.2 None;
  _result vwr.2 v.

Definition call_bytes (m : wasm_module) (name data max_in max_out : pyval) : result exn (list Z) :=
  buffer ← _prepare_bytes m name data max_in max_out;
  v ← bridge_call [] [] (Some buffer);
  buffer_result v.

(** [unload]: idempotent; when the bridge raises, the module stays open. *)
Definition unload (m : wasm_module) : result exn unit * wasm_module :=
  if _closed m then (Ok tt, m)
  else match bridge_unload with
       | Ok _ => (Ok tt, WasmModule (_signatures m) true)
       | Err e => (Err e, m)
       end.
End Calls.

(** ** The queue of dropped instances

    [drain] takes the queued ids one atomic [pop(0)] at a time, [draining] gives them
    back when its request raises, and finalizers append at any moment on any thread:
    each of these is one step. *)
Record drops := Drops {
  dropped : list Z;            (* the shared queue *)
  taken : list (list Z);       (* per draining thread, the ids it holds *)
  forgotten : list Z;          (* ids whose request was sent *)
  queued : list Z }.           (* ghost: every id ever queued *)

Inductive drop_step : drops -> drops -> Prop :=
| DropQueued s wid :
    drop_step s (Drops (dropped s ++ [wid]) (taken s) (forgotten s) (queued s ++ [wid]))
| DropTaken s i wid q ids : dropped s = wid :: q -> taken s !! i = Some ids ->
    drop_step s (Drops q (<[i := ids ++ [wid]]> (taken s)) (forgotten s) (queued s))
| DropSent s i ids : taken s !! i = Some ids ->
    drop_step s (Drops (dropped s) (<[i := []]> (taken s)) (forgotten s ++ ids) (queued s))
| DropRaised s i ids : taken s !! i = Some ids ->
    drop_step s (Drops (dropped s ++ ids) (<[i := []]> (taken s)) (forgotten s) (queued s)).

Inductive drop_reachable (threads : nat) : drops -> Prop :=
| DropInit : drop_reachable threads (Drops [] (replicate threads []) [] [])
| DropMore s s' : drop_reachable threads s -> drop_step s s' -> drop_reachable threads s'.
