(* ===== verification/WasmProps.v ===== *)
(** * Properties of the WebAssembly loader

    The parser never reads out of bounds and only ever raises [ValueError]; it inverts
    a reference encoder of modules; accepted arguments fit their parameter types and
    reach the bridge unchanged; dropped instances are neither lost nor forgotten twice. *)

From S2P Require Import Prelude Utf8 PyVal Wasm.
From Stdlib Require Import Floats.SpecFloat.

(** ** Bounded reads *)

Definition reader_ok (r : _Reader) : Prop :=
  (pos r <= end_ r)%nat /\ (end_ r <= length (data r))%nat /\ Forall byte_range (data r).

Definition is_value_error (e : exn) : Prop := exists msg, e = ValueError msg.

(** A method that stays inside its range: it moves forward, never past the end, and
    everything it raises is a [ValueError]. *)
Definition bounded {A} (m : read_m A) (Q : A -> Prop) : Prop := forall r, reader_ok r ->
  match m r with
  | Ok (a, r') => data r' = data r /\ end_ r' = end_ r /\ (pos r <= pos r' <= end_ r)%nat /\ Q a
  | Err e => is_value_error e
  end.

Lemma bounded_ret {A} (a : A) (Q : A -> Prop) : Q a -> bounded (mret a) Q.
Proof. intros HQ r [Hp He]. cbn. repeat split; try done; lia. Qed.

Lemma bounded_fail {A} msg (Q : A -> Prop) : bounded (fail_m (ValueError msg)) Q.
Proof. intros r _. by eexists. Qed.

Lemma bounded_bind {A B} (m : read_m A) (f : A -> read_m B) Q R :
  bounded m Q -> (forall a, Q a -> bounded (f a) R) -> bounded (m ≫= f) R.
Proof.
  intros Hm Hf r Hr. specialize (Hm r Hr). cbn. unfold mbind, read_bind.
  destruct (m r) as [[a r1]|e]; [|done]. destruct Hm as (Hd & He & Hp & HQ).
  assert (Hr1 : reader_ok r1) by (unfold reader_ok in *; rewrite Hd, He; intuition lia).
  specialize (Hf a HQ r1 Hr1). destruct (f a r1) as [[b r2]|e]; [|done].
  destruct Hf as (Hd2 & He2 & Hp2 & HR). repeat split; try done; try congruence; lia.
Qed.

Lemma bounded_weaken {A} (m : read_m A) (Q R : A -> Prop) :
  bounded m Q -> (forall a, Q a -> R a) -> bounded m R.
Proof.
  intros Hm HQR r Hr. specialize (Hm r Hr). destruct (m r) as [[a r']|e]; [|done]. naive_solver.
Qed.

Lemma byte_bounded : bounded byte byte_range.
Proof.
  intros r (Hp & He & Hb). unfold byte. destruct (Nat.leb_spec (end_ r) (pos r)); [by eexists|].
  destruct (data r !! pos r) as [v|] eqn:Hv.
  - cbn. repeat split; try lia. all: rewrite Forall_lookup in Hb; apply (Hb _ _ Hv).
  - apply lookup_ge_None in Hv. lia.
Qed.

(** [byte] always consumes. *)
Lemma byte_advances r v r' : byte r = Ok (v, r') -> (pos r < pos r')%nat.
Proof. unfold byte. repeat case_match; intros [= <- <-]; cbn; lia. Qed.

Lemma u32_loop_bounded shifts acc : 0 <= acc -> Forall (fun s => 0 <= s) shifts ->
  bounded (u32_loop shifts acc) (fun n => 0 <= n < 2 ^ 32).
Proof.
  intros Ha Hs; revert acc Ha; induction Hs as [|s shifts Hs _ IH]; intros acc Ha; cbn [u32_loop].
  - apply bounded_fail.
  - eapply bounded_bind; [apply byte_bounded|]. intros b Hb. unfold byte_range in Hb.
    assert (Hn : 0 <= Z.lor acc (Z.shiftl (Z.land b 127) s)).
    { apply Z.lor_nonneg. split; [done|]. apply Z.shiftl_nonneg, Z.land_nonneg. lia. }
    case_match; [|by apply IH]. destruct (Z.leb_spec (2 ^ 32) (Z.lor acc (Z.shiftl (Z.land b 127) s))).
    + apply bounded_fail.
    + by apply bounded_ret.
Qed.

Lemma u32_bounded : bounded u32 (fun n => 0 <= n < 2 ^ 32).
Proof. apply u32_loop_bounded; [lia|]. repeat constructor; lia. Qed.

Lemma take_bounded n : 0 <= n -> bounded (take_ n) (fun bs => Forall byte_range bs).
Proof.
  intros Hn r (Hp & He & Hb). unfold take_.
  destruct (Z.ltb_spec (Z.of_nat (end_ r) - Z.of_nat (pos r)) n); [by eexists|]. cbn.
  repeat split; try lia. by apply Forall_take, Forall_drop.
Qed.

Lemma count_bounded bound : bounded (count bound) (fun n => 0 <= n).
Proof.
  eapply bounded_bind; [apply u32_bounded|]. intros n Hn r (Hp & He & Hb). cbv beta in Hn. unfold check_count.
  destruct (_ || _); [by eexists|]. split_and!; [done|done|lia|lia|lia].
Qed.

Lemma repeat_bounded {A} n (f : read_m A) Q : bounded f Q -> bounded (repeat_m n f) (Forall Q).
Proof.
  intros Hf. induction n as [|n IH]; cbn [repeat_m]; [apply bounded_ret; constructor|].
  eapply bounded_bind; [exact Hf|]. intros a Ha. eapply bounded_bind; [exact IH|].
  intros l Hl. apply bounded_ret. apply Forall_cons. by split.
Qed.

Lemma vec_bounded {A} bound (f : read_m A) Q : bounded f Q -> bounded (vec bound f) (Forall Q).
Proof. intros Hf. eapply bounded_bind; [apply count_bounded|]. intros n _. by apply repeat_bounded. Qed.

Lemma type_entry_bounded : bounded type_entry (fun _ => True).
Proof.
  assert (Hv : bounded value_type_m (fun _ => True)).
  { eapply bounded_bind; [apply byte_bounded|]. intros. by apply bounded_ret. }
  eapply bounded_bind; [apply byte_bounded|]. intros tag _. cbv beta. destruct (negb (tag =? 96)).
  - apply bounded_fail.
  - eapply bounded_bind; [apply vec_bounded, Hv|]. intros ps _.
    eapply bounded_bind; [apply vec_bounded, Hv|]. intros rs _. by apply bounded_ret.
Qed.

Lemma export_entry_bounded ex : bounded (export_entry ex) (fun _ => True).
Proof.
  eapply bounded_bind; [apply u32_bounded|]. intros n Hn. cbv beta in Hn.
  eapply bounded_bind; [apply take_bounded; lia|]. intros name _. cbv beta.
  destruct (utf8_decode name); [|apply bounded_fail].
  eapply bounded_bind; [apply byte_bounded|]. intros kind _.
  eapply bounded_bind; [apply u32_bounded|]. intros index _. cbv beta.
  destruct (existsb _ ex); [apply bounded_fail | by apply bounded_ret].
Qed.

Lemma export_loop_bounded n ex : bounded (export_loop n ex) (fun _ => True).
Proof.
  revert ex; induction n as [|n IH]; intros ex; cbn [export_loop]; [by apply bounded_ret|].
  eapply bounded_bind; [apply export_entry_bounded|]. auto.
Qed.

Lemma section_body_bounded id p : bounded (section_body id p) (fun _ => True).
Proof.
  unfold section_body. repeat case_match.
  - eapply bounded_bind; [apply vec_bounded, type_entry_bounded|]. intros. by apply bounded_ret.
  - eapply bounded_bind; [apply u32_bounded|]. intros n _. cbv beta.
    destruct (negb (n =? 0)); [apply bounded_fail | by apply bounded_ret].
  - eapply bounded_bind; [apply vec_bounded, u32_bounded|]. intros. by apply bounded_ret.
  - eapply bounded_bind; [apply count_bounded|]. intros.
    eapply bounded_bind; [apply export_loop_bounded|]. intros. by apply bounded_ret.
  - by apply bounded_ret.
Qed.

Lemma section_at_bounded id size p : 0 <= size -> bounded (section_at id size p) (fun _ => True).
Proof.
  intros Hsz r Hr. pose proof (take_bounded size Hsz r Hr) as Ht. destruct Hr as (Hp & He & Hb).
  unfold section_at. unfold take_ in *.
  destruct (Z.ltb_spec (Z.of_nat (end_ r) - Z.of_nat (pos r)) size) as [|Hroom]; [done|].
  destruct (id =? 0); [cbn; repeat split; try done; lia|].
  destruct (mem_Z id (seen p)); [by eexists|].
  pose proof (section_body_bounded id (Parsed (types p) (functions p) (exports p) (id :: seen p))
    (Reader_ (data r) (pos r) (pos r + Z.to_nat size))) as Hbody.
  destruct (section_body _ _ _) as [[p' body]|e].
  - destruct (mem_Z id [1; 2; 3; 7] && _); [by eexists|]. cbn. repeat split; try done; lia.
  - apply Hbody. repeat split; cbn; try done; lia.
Qed.

Lemma section_bounded p : bounded (section p) (fun _ => True).
Proof.
  eapply bounded_bind; [apply byte_bounded|]. intros id _.
  eapply bounded_bind; [apply u32_bounded|]. intros size Hs. cbv beta in Hs.
  apply section_at_bounded. lia.
Qed.

(** Every turn of the section loop consumes at least the section's id. *)
Lemma section_advances p top p' top' :
  reader_ok top -> section p top = Ok (p', top') -> (pos top < pos top')%nat.
Proof.
  intros Hr. unfold section, mbind, read_bind. pose proof (byte_bounded top Hr) as Hb.
  destruct (byte top) as [[id r1]|] eqn:E1; [|done]. apply byte_advances in E1.
  destruct Hb as (Hd & He & Hp & _).
  assert (Hr1 : reader_ok r1) by (unfold reader_ok in *; rewrite Hd, He; intuition lia).
  pose proof (u32_bounded r1 Hr1) as Hu. destruct (u32 r1) as [[size r2]|]; [|done].
  destruct Hu as (Hd2 & He2 & Hp2 & Hs).
  assert (Hr2 : reader_ok r2) by (unfold reader_ok in *; rewrite Hd2, He2; intuition lia).
  pose proof (section_at_bounded id size p ltac:(lia) r2 Hr2) as Hsec. intros E. rewrite E in Hsec.
  destruct Hsec as (_ & _ & Hp3 & _). lia.
Qed.

Lemma sections_fuel fuel p top :
  reader_ok top -> (end_ top - pos top <= fuel)%nat ->
  match sections fuel p top with Ok _ => True | Err e => is_value_error e end.
Proof.
  revert p top; induction fuel as [|fuel IH]; intros p top Hr Hf; cbn [sections];
    destruct (Nat.ltb_spec (pos top) (end_ top)) as [Hlt|]; try done; [lia|].
  pose proof (section_bounded p top Hr) as Hs.
  destruct (section p top) as [[p' top']|e] eqn:E; [|done].
  pose proof (section_advances _ _ _ _ Hr E) as Hadv. destruct Hs as (Hd & He & Hp & _).
  apply IH; [unfold reader_ok in *; rewrite Hd, He; intuition lia | rewrite He; lia].
Qed.

Lemma resolve_exports_errors p ex :
  match resolve_exports p ex with Ok _ => True | Err e => is_value_error e end.
Proof.
  induction ex as [|[name index] ex IH]; cbn [resolve_exports]; [done|].
  destruct (functions p !! _) as [f|]; [|by eexists]. destruct (types p !! _) as [t|]; [|by eexists].
  cbn. destruct (resolve_exports p ex); done.
Qed.

(** The signature parser is total and closed on any bytes at all: it always ends
    within its bound, never indexes out of range, and everything it raises is a
    [ValueError], whatever a hostile module's lengths and counts claim. *)
Theorem parse_signatures_total d :
  Forall byte_range d ->
  match parse_signatures d with
  | Ok _ => True
  | Err e => exists msg, e = ValueError msg
  end.
Proof.
  intros Hb. unfold parse_signatures.
  assert (Hs : match sections (length d) (Parsed [] [] [] []) (Reader_ d 8 (length d)) with
               | Ok _ => True | Err e => is_value_error e end).
  { destruct (Nat.leb_spec 8 (length d)) as [Hl|Hl].
    - apply sections_fuel; cbn; [|lia]. repeat split; cbn; try done; lia.
    - destruct (length d) as [|n]; cbn [sections]; cbn [pos end_];
        rewrite (proj2 (Nat.ltb_ge _ _)) by lia; done. }
  destruct (sections _ _ _) as [p|e]; [|exact Hs]. cbn. apply resolve_exports_errors.
Qed.

Lemma parse_signatures_total_witness :
  exists msg, (fun r => match r with Ok _ => AssertionError "" | Err e => e end)
    (parse_signatures [0; 97; 115; 109; 1; 0; 0; 0; 1; 0xFF; 0xFF; 0xFF; 0xFF; 0x0F]) = ValueError msg.
Proof.
  pose proof (parse_signatures_total [0; 97; 115; 109; 1; 0; 0; 0; 1; 0xFF; 0xFF; 0xFF; 0xFF; 0x0F]
    ltac:(repeat constructor; vm_compute; congruence)) as H.
  destruct (parse_signatures _) as [a|e] eqn:E in H |- *; [discriminate E|exact H].
Defined.

(** ** A reference encoder of modules *)

Fixpoint leb (j : nat) (n : Z) : list Z :=
  match j with
  | O => []
  | S j' => if n <? 128 then [n] else (128 + n mod 128) :: leb j' (n / 128)
  end.

Definition enc_u32 (n : Z) : list Z := leb 5 n.
Definition enc_vec (encs : list (list Z)) : list Z := enc_u32 (Z.of_nat (length encs)) ++ concat encs.
Definition enc_type (t : list Z * list Z) : list Z :=
  [0x60] ++ enc_vec ((fun c => [c]) <$> t.1) ++ enc_vec ((fun c => [c]) <$> t.2).
Definition enc_export (x : list Z * Z * Z) : list Z :=
  enc_u32 (Z.of_nat (length (utf8_encode x.1.1))) ++ utf8_encode x.1.1 ++ [x.1.2] ++ enc_u32 x.2.
Definition enc_section (id : Z) (body : list Z) : list Z :=
  [id] ++ enc_u32 (Z.of_nat (length body)) ++ body.

(** A module: function types as value-type codes, the type index of each function,
    the exports (name, kind, index), and the sections the loader skips. *)
Record wmodule := WModule {
  m_types : list (list Z * list Z); m_funcs : list Z; m_exports : list (list Z * Z * Z);
  m_extra : list (Z * list Z) }.

Definition encode_module (m : wmodule) : list Z :=
  _MAGIC ++ enc_section 1 (enc_vec (enc_type <$> m_types m))
  ++ enc_section 3 (enc_vec (enc_u32 <$> m_funcs m))
  ++ enc_section 7 (enc_vec (enc_export <$> m_exports m))
  ++ concat ((fun s => enc_section s.1 s.2) <$> m_extra m).

Definition type_names (t : list Z * list Z) : signature := (_value_type <$> t.1, _value_type <$> t.2).

(** The exported functions with their types, read off the module itself. *)
Definition module_signatures (m : wmodule) : list (list Z * signature) :=
  omap (fun x => if x.1.2 =? 0 then
    f ← m_funcs m !! Z.to_nat x.2; t ← m_types m !! Z.to_nat f; Some (x.1.1, type_names t)
    else None) (m_exports m).

Record valid_module (m : wmodule) : Prop := Valid {
  v_types : Forall (fun t => Forall byte_range t.1 /\ Forall byte_range t.2 /\
              (length t.1 <= 1000)%nat /\ (length t.2 <= 1000)%nat) (m_types m);
  v_sizes : Z.of_nat (length (m_types m)) <= 2 ^ 20 /\ Z.of_nat (length (m_funcs m)) <= 2 ^ 20 /\
            Z.of_nat (length (m_exports m)) <= 2 ^ 20;
  v_funcs : Forall (fun f => 0 <= f < Z.of_nat (length (m_types m))) (m_funcs m);
  v_exports : Forall (fun x => Forall scalar x.1.1 /\ byte_range x.1.2 /\ 0 <= x.2 < 2 ^ 32 /\
      Z.of_nat (length (utf8_encode x.1.1)) < 2 ^ 32 /\
      (x.1.2 = 0 -> x.2 < Z.of_nat (length (m_funcs m)))) (m_exports m);
  v_names : NoDup ((fun x => x.1.1) <$> m_exports m);
  v_extra : Forall (fun s => 0 < s.1 < 256 /\ ~ In s.1 [1; 2; 3; 7] /\
      Z.of_nat (length s.2) < 2 ^ 32) (m_extra m);
  v_ids : NoDup (fst <$> m_extra m);
  v_bodies : Z.of_nat (length (encode_module m)) < 2 ^ 32 }.

(** ** Reading back what was encoded *)

(** The method [m] consumes exactly [bs], wherever it stands, and returns [a]. *)
Definition reads {A} (m : read_m A) (bs : list Z) (a : A) : Prop := forall pre post e,
  (length pre + length bs <= e)%nat ->
  m (Reader_ (pre ++ bs ++ post) (length pre) e)
  = Ok (a, Reader_ (pre ++ bs ++ post) (length pre + length bs) e).

Lemma reads_ret {A} (a : A) : reads (mret a) [] a.
Proof. intros pre post e _. cbn. by rewrite Nat.add_0_r. Qed.

Lemma reads_bind {A B} (m : read_m A) (f : A -> read_m B) bs1 bs2 a b :
  reads m bs1 a -> reads (f a) bs2 b -> reads (m ≫= f) (bs1 ++ bs2) b.
Proof.
  intros Hm Hf pre post e Hl. rewrite length_app in Hl. unfold mbind, read_bind.
  rewrite <- app_assoc, Hm by lia.
  rewrite (app_assoc pre bs1 (bs2 ++ post)), <- (length_app pre bs1).
  rewrite Hf by (rewrite length_app; lia).
  by rewrite !length_app, Nat.add_assoc.
Qed.

Lemma reads_bind_nil {A B} (m : read_m A) (f : A -> read_m B) bs a b :
  reads m bs a -> reads (f a) [] b -> reads (m ≫= f) bs b.
Proof. intros Hm Hf. rewrite <- (app_nil_r bs). by eapply reads_bind. Qed.

Lemma byte_reads b : reads byte [b] b.
Proof.
  intros pre post e Hl. unfold byte. cbn [pos end_ data length] in *.
  rewrite (proj2 (Nat.leb_gt _ _)) by lia.
  rewrite lookup_app_r, Nat.sub_diag by lia. cbn. by rewrite Nat.add_1_r.
Qed.

Lemma byte_bits b : 0 <= b < 256 ->
  Z.land b 0x7F = b mod 128 /\ (Z.land b 0x80 =? 0) = (b <? 128).
Proof.
  intros Hb.
  assert (Hall : forallb (fun n => let b := Z.of_nat n in
      (Z.land b 0x7F =? b mod 128) && Bool.eqb (Z.land b 0x80 =? 0) (b <? 128)) (seq 0 256) = true)
    by (vm_compute; reflexivity).
  rewrite forallb_forall in Hall. specialize (Hall (Z.to_nat b)).
  rewrite in_seq in Hall. specialize (Hall ltac:(lia)). cbv zeta in Hall. rewrite Z2Nat.id in Hall by lia.
  apply andb_true_iff in Hall as [H1%Z.eqb_eq H2%Bool.eqb_prop]. done.
Qed.

Lemma testbit_small acc s i : 0 <= acc < 2 ^ s -> 0 <= s <= i -> Z.testbit acc i = false.
Proof. intros Ha Hi. rewrite <- (Z.mod_small acc (2 ^ s)) by done. by apply Z.mod_pow2_bits_high. Qed.

Lemma lor_shiftl_add acc b s : 0 <= s -> 0 <= acc < 2 ^ s ->
  Z.lor acc (Z.shiftl b s) = acc + b * 2 ^ s.
Proof.
  intros Hs Ha. rewrite <- Z.shiftl_mul_pow2 by done. symmetry.
  rewrite Z.add_nocarry_lxor.
  - apply Z.bits_inj'. intros i Hi. rewrite Z.lxor_spec, Z.lor_spec.
    destruct (Z.ltb_spec i s) as [Hlt|Hge].
    + rewrite (Z.shiftl_spec_low _ _ _ Hlt). by destruct (Z.testbit acc i).
    + by rewrite (testbit_small acc s i) by lia.
  - apply Z.bits_inj'. intros i Hi. rewrite Z.land_spec, Z.bits_0.
    destruct (Z.ltb_spec i s) as [Hlt|Hge].
    + by rewrite (Z.shiftl_spec_low _ _ _ Hlt), andb_false_r.
    + by rewrite (testbit_small acc s i) by lia.
Qed.

Fixpoint shifts7 (s : Z) (j : nat) : list Z :=
  match j with O => [] | S j' => s :: shifts7 (s + 7) j' end.

Lemma u32_loop_reads j s acc n :
  0 <= s -> 0 <= acc < 2 ^ s -> 0 <= n < 128 ^ Z.of_nat j -> acc + n * 2 ^ s < 2 ^ 32 ->
  (0 < j)%nat -> reads (u32_loop (shifts7 s j) acc) (leb j n) (acc + n * 2 ^ s).
Proof.
  revert s acc n; induction j as [|j IH]; intros s acc n Hs Ha Hn Hfit Hj; [lia|].
  rewrite Nat2Z.inj_succ, Z.pow_succ_r in Hn by lia.
  cbn [shifts7 u32_loop leb]. destruct (Z.ltb_spec n 128) as [Hlt|Hge].
  - eapply reads_bind_nil; [apply byte_reads|]. destruct (byte_bits n ltac:(lia)) as [H1 H2].
    rewrite H1, H2, lor_shiftl_add, (Z.mod_small n 128), (proj2 (Z.ltb_lt n 128)) by lia.
    rewrite (proj2 (Z.leb_gt _ _) Hfit). apply reads_ret.
  - assert (Hm : 0 <= n mod 128 < 128) by (apply Z.mod_pos_bound; lia).
    pose proof (Z.div_mod n 128 ltac:(lia)) as Hdm.
    change ((128 + n mod 128) :: leb j (n / 128)) with ([128 + n mod 128] ++ leb j (n / 128)).
    eapply reads_bind; [apply byte_reads|]. destruct (byte_bits (128 + n mod 128) ltac:(lia)) as [H1 H2].
    rewrite H1, H2, lor_shiftl_add, (proj2 (Z.ltb_ge (128 + n mod 128) 128)) by lia.
    replace ((128 + n mod 128) mod 128) with (n mod 128)
      by (rewrite <- (Z.mod_small (n mod 128) 128) at 1 by lia; rewrite <- (Z_mod_plus_full (n mod 128) 1 128); f_equal; lia).
    assert (Hp : 2 ^ (s + 7) = 128 * 2 ^ s) by (rewrite Z.pow_add_r by lia; change (2 ^ 7) with 128; lia).
    assert (Hpos : 0 < 2 ^ s) by (apply Z.pow_pos_nonneg; lia).
    replace (acc + n * 2 ^ s) with (acc + n mod 128 * 2 ^ s + n / 128 * 2 ^ (s + 7)) by nia.
    destruct j as [|j]; [cbn in Hn; lia|].
    apply IH; try lia; rewrite ?Hp; try nia.
Qed.

Lemma u32_reads n : 0 <= n < 2 ^ 32 -> reads u32 (enc_u32 n) n.
Proof.
  intros Hn. pose proof (u32_loop_reads 5 0 0 n) as H. rewrite Z.mul_1_r in H.
  apply H; lia.
Qed.

Lemma enc_u32_nonempty n : enc_u32 n <> [].
Proof. unfold enc_u32. cbn. by case_match. Qed.

Lemma take_reads bs : reads (take_ (Z.of_nat (length bs))) bs bs.
Proof.
  intros pre post e Hl. unfold take_. cbn [pos end_ data].
  rewrite (proj2 (Z.ltb_ge _ _)), Nat2Z.id by lia.
  by rewrite drop_app_length, take_app_length.
Qed.

Lemma repeat_reads {A} (f : read_m A) encs xs :
  Forall2 (fun enc x => reads f enc x) encs xs -> reads (repeat_m (length encs) f) (concat encs) xs.
Proof.
  induction 1 as [|enc x encs xs Hx _ IH]; cbn [repeat_m length concat]; [apply reads_ret|].
  eapply reads_bind; [exact Hx|]. eapply reads_bind_nil; [exact IH|]. apply reads_ret.
Qed.

Lemma concat_length_ge {A} (encs : list (list A)) :
  Forall (fun enc => enc <> []) encs -> (length encs <= length (concat encs))%nat.
Proof.
  induction 1 as [|enc encs Hne _ IH]; cbn; [lia|]. rewrite length_app. destruct enc; [done|cbn; lia].
Qed.

Lemma count_reads bound n rest :
  0 <= n <= bound -> n < 2 ^ 32 -> (Z.to_nat n <= length rest)%nat ->
  forall pre post e, (length pre + length (enc_u32 n ++ rest) <= e)%nat ->
  count bound (Reader_ (pre ++ (enc_u32 n ++ rest) ++ post) (length pre) e)
  = Ok (n, Reader_ (pre ++ (enc_u32 n ++ rest) ++ post) (length pre + length (enc_u32 n)) e).
Proof.
  intros Hn Hn2 Hr pre post e Hl. rewrite length_app in Hl. unfold count, mbind, read_bind.
  rewrite <- (app_assoc (enc_u32 n)), (u32_reads n) by lia. unfold check_count. cbn [pos end_].
  by rewrite (proj2 (Z.ltb_ge _ _)), (proj2 (Z.ltb_ge _ _)) by lia.
Qed.

Lemma vec_reads {A} bound (f : read_m A) encs xs :
  Z.of_nat (length encs) <= bound -> Z.of_nat (length encs) < 2 ^ 32 ->
  Forall (fun enc => enc <> []) encs -> Forall2 (fun enc x => reads f enc x) encs xs ->
  reads (vec bound f) (enc_vec encs) xs.
Proof.
  intros Hb Hb2 Hne Hxs pre post e Hl. unfold vec, enc_vec in *.
  pose proof (concat_length_ge _ Hne) as Hlen. unfold mbind at 1, read_bind at 1.
  rewrite (count_reads bound _ (concat encs)) by (try lia; exact Hl).
  rewrite Nat2Z.id. rewrite <- (app_assoc (enc_u32 _)), (app_assoc pre), <- (length_app pre).
  rewrite (repeat_reads f encs xs Hxs) by (rewrite !length_app in *; lia).
  by rewrite !length_app, Nat.add_assoc.
Qed.

(** ** Sections *)

Lemma value_type_reads c : reads value_type_m [c] (_value_type c).
Proof. eapply reads_bind_nil; [apply byte_reads|]. apply reads_ret. Qed.

Lemma value_types_reads bound cs :
  (length cs <= 1000)%nat -> 1000 <= bound ->
  reads (vec bound value_type_m) (enc_vec ((fun c => [c]) <$> cs)) (_value_type <$> cs).
Proof.
  intros Hl Hb. apply vec_reads; rewrite ?length_fmap; try lia.
  - apply Forall_fmap, Forall_true. done.
  - rewrite Forall2_fmap_l, Forall2_fmap_r. apply Forall_Forall2_diag, Forall_true.
    intros c. apply value_type_reads.
Qed.

Lemma type_entry_reads t :
  (length t.1 <= 1000)%nat -> (length t.2 <= 1000)%nat -> reads type_entry (enc_type t) (type_names t).
Proof.
  intros H1 H2. unfold type_entry, enc_type. eapply reads_bind; [apply byte_reads|].
  eapply reads_bind; [apply value_types_reads; [done|unfold _MAX_PARAMS; lia]|].
  eapply reads_bind_nil; [apply value_types_reads; [done|unfold _MAX_RESULTS; lia]|]. apply reads_ret.
Qed.

Lemma export_entry_reads ex x :
  Forall scalar x.1.1 -> 0 <= x.2 < 2 ^ 32 -> Z.of_nat (length (utf8_encode x.1.1)) < 2 ^ 32 ->
  ~ In x.1.1 (fst <$> ex) ->
  reads (export_entry ex) (enc_export x) (if x.1.2 =? 0 then ex ++ [(x.1.1, x.2)] else ex).
Proof.
  intros Hs Hi Hl Hn. unfold export_entry, enc_export.
  eapply reads_bind; [apply u32_reads; lia|].
  eapply reads_bind; [apply take_reads|]. cbv beta. rewrite utf8_decode_encode by done.
  eapply reads_bind; [apply byte_reads|]. eapply reads_bind_nil; [apply u32_reads; lia|]. cbv beta.
  destruct (existsb _ ex) eqn:E; [|apply reads_ret].
  exfalso. apply Hn. apply existsb_exists in E as (y & Hy & Heq%bool_decide_eq_true).
  rewrite <- Heq. apply list_elem_of_In, list_elem_of_fmap_2. by apply list_elem_of_In.
Qed.

(** The dict the export loop builds. *)
Definition func_exports (xs : list (list Z * Z * Z)) : list (list Z * Z) :=
  omap (fun x => if x.1.2 =? 0 then Some (x.1.1, x.2) else None) xs.

Lemma func_exports_names xs n : In n (fst <$> func_exports xs) -> In n ((fun x => x.1.1) <$> xs).
Proof.
  induction xs as [|x xs IH]; cbn; [done|]. destruct (x.1.2 =? 0); cbn; [|tauto]. intros [H|H]; auto.
Qed.

Lemma export_loop_reads xs ex :
  Forall (fun x => Forall scalar x.1.1 /\ 0 <= x.2 < 2 ^ 32 /\
                   Z.of_nat (length (utf8_encode x.1.1)) < 2 ^ 32) xs ->
  NoDup ((fst <$> ex) ++ ((fun x => x.1.1) <$> xs)) ->
  reads (export_loop (length xs) ex) (concat (enc_export <$> xs)) (ex ++ func_exports xs).
Proof.
  intros Hxs; revert ex; induction Hxs as [|x xs (Hs & Hi & Hl) _ IH]; intros ex Hnd; cbn [export_loop length].
  - rewrite app_nil_r. apply reads_ret.
  - cbn [fmap list_fmap concat]. cbn [fmap list_fmap] in Hnd.
    apply NoDup_app in Hnd as (Hnd1 & Hdis & Hnd2). apply NoDup_cons in Hnd2 as [Hx Hnd2].
    eapply reads_bind.
    + apply export_entry_reads; try done. rewrite <- list_elem_of_In. intros Hin. apply (Hdis _ Hin). left.
    + unfold func_exports. cbn [omap list_omap]. fold (func_exports xs).
      destruct (x.1.2 =? 0).
      * replace (ex ++ (x.1.1, x.2) :: func_exports xs) with ((ex ++ [(x.1.1, x.2)]) ++ func_exports xs)
          by (by rewrite <- app_assoc).
        apply IH. rewrite fmap_app. cbn [fmap list_fmap].
        apply NoDup_app. split_and!; [|..|done].
        -- apply NoDup_app. split_and!; [done| |apply NoDup_singleton].
           intros y Hy Hy2%list_elem_of_singleton. subst. apply (Hdis _ Hy). left.
        -- intros y [Hy|Hy%list_elem_of_singleton]%elem_of_app Hin; [|by subst].
           apply (Hdis _ Hy). by right.
      * apply IH. apply NoDup_app. split_and!; try done. intros y Hy Hin. apply (Hdis _ Hy). by right.
Qed.

(** A known section whose body reads back to [p']. *)
Lemma section_reads id body p p' :
  0 < id < 256 -> Z.of_nat (length body) < 2 ^ 32 -> mem_Z id (seen p) = false ->
  reads (section_body id (Parsed (types p) (functions p) (exports p) (id :: seen p))) body p' ->
  reads (section p) (enc_section id body) p'.
Proof.
  intros Hid Hl Hseen Hbody. unfold section, enc_section.
  eapply reads_bind; [apply byte_reads|]. eapply reads_bind; [apply u32_reads; lia|].
  intros pre post e Hle. unfold section_at. cbn [data pos end_].
  rewrite (take_reads body) by done.
  rewrite (proj2 (Z.eqb_neq id 0)) by lia. rewrite Hseen, Nat2Z.id, Hbody by lia.
  cbn [pos end_]. by rewrite Nat.eqb_refl, andb_false_r.
Qed.

(** A section the parser skips. *)
Lemma skipped_reads id body p :
  0 < id < 256 -> ~ In id [1; 2; 3; 7] -> Z.of_nat (length body) < 2 ^ 32 -> mem_Z id (seen p) = false ->
  reads (section p) (enc_section id body) (Parsed (types p) (functions p) (exports p) (id :: seen p)).
Proof.
  intros Hid Hn Hl Hseen. unfold section, enc_section.
  eapply reads_bind; [apply byte_reads|]. eapply reads_bind; [apply u32_reads; lia|].
  intros pre post e Hle. unfold section_at. cbn [data pos end_].
  rewrite (take_reads body) by done.
  rewrite (proj2 (Z.eqb_neq id 0)) by lia. rewrite Hseen.
  cbn in Hn. unfold section_body.
  rewrite !(proj2 (Z.eqb_neq id _)) by (intros ->; tauto). cbn [mret read_ret].
  by rewrite (proj2 (mem_Z_false id _)).
Qed.

Lemma sections_step fuel p s p' pre post :
  s <> [] -> reads (section p) s p' ->
  sections (S fuel) p (Reader_ (pre ++ s ++ post) (length pre) (length (pre ++ s ++ post)))
  = sections fuel p' (Reader_ ((pre ++ s) ++ post) (length (pre ++ s)) (length ((pre ++ s) ++ post))).
Proof.
  intros Hne Hs. cbn [sections]. cbn [pos end_].
  rewrite (proj2 (Nat.ltb_lt _ _)) by (rewrite !length_app; destruct s; [done|cbn; lia]).
  rewrite Hs by (rewrite !length_app; lia). by rewrite <- app_assoc, (length_app pre s).
Qed.

Lemma enc_section_nonempty id body : enc_section id body <> [].
Proof. done. Qed.

Lemma sections_extra extras fuel p pre :
  Forall (fun s => 0 < s.1 < 256 /\ ~ In s.1 [1; 2; 3; 7] /\ Z.of_nat (length s.2) < 2 ^ 32) extras ->
  NoDup (fst <$> extras) -> (forall i, In i (seen p) -> ~ In i (fst <$> extras)) ->
  (length extras <= fuel)%nat ->
  let rest := concat ((fun s => enc_section s.1 s.2) <$> extras) in
  exists p', sections fuel p (Reader_ (pre ++ rest) (length pre) (length (pre ++ rest))) = Ok p' /\
    types p' = types p /\ functions p' = functions p /\ exports p' = exports p.
Proof.
  intros Hx; revert fuel p pre; induction Hx as [|[id body] extras (Hid & Hn & Hl) _ IH];
    intros fuel p pre Hnd Hseen Hf; cbn [fmap list_fmap concat fst snd] in *.
  - exists p. rewrite app_nil_r. destruct fuel; cbn [sections pos end_]; by rewrite Nat.ltb_irrefl.
  - apply NoDup_cons in Hnd as [Hid' Hnd]. destruct fuel as [|fuel]; [cbn in Hf; lia|].
    assert (Hns : mem_Z id (seen p) = false).
    { apply mem_Z_false. intros Hin. apply (Hseen _ Hin). by left. }
    rewrite (sections_step _ _ _ _ _ _ (enc_section_nonempty id body) (skipped_reads id body p Hid Hn Hl Hns)).
    destruct (IH fuel (Parsed (types p) (functions p) (exports p) (id :: seen p)) (pre ++ enc_section id body) Hnd)
      as (p' & Hp' & H1 & H2 & H3).
    + intros i [<-|Hi]; [by rewrite <- list_elem_of_In|]. intros Hin. apply (Hseen _ Hi). by right.
    + cbn in Hf. lia.
    + exists p'. done.
Qed.

Lemma resolve_exports_ok p m xs :
  functions p = m_funcs m -> types p = type_names <$> m_types m ->
  Forall (fun f => 0 <= f < Z.of_nat (length (m_types m))) (m_funcs m) ->
  Forall (fun x => 0 <= x.2 /\ (x.1.2 = 0 -> x.2 < Z.of_nat (length (m_funcs m)))) xs ->
  resolve_exports p (func_exports xs) =
  Ok (omap (fun x => if x.1.2 =? 0 then
    f ← m_funcs m !! Z.to_nat x.2; t ← m_types m !! Z.to_nat f; Some (x.1.1, type_names t)
    else None) xs).
Proof.
  intros Hf Ht Hfun Hxs. induction Hxs as [|x xs [H0 Hx] _ IH]; [done|].
  unfold func_exports. cbn [omap list_omap]. fold (func_exports xs).
  destruct (Z.eqb_spec x.1.2 0) as [E|E]; [|exact IH].
  cbn [resolve_exports]. rewrite Hf, Ht.
  destruct (lookup_lt_is_Some_2 (m_funcs m) (Z.to_nat x.2)) as [f Hlf]; [specialize (Hx E); lia|].
  rewrite Hlf. pose proof (Forall_lookup_1 _ _ _ _ Hfun Hlf) as Hfb. cbn in Hfb.
  destruct (lookup_lt_is_Some_2 (m_types m) (Z.to_nat f)) as [t Hlt]; [lia|].
  rewrite list_lookup_fmap, Hlt. cbn. rewrite Hlt. cbn. by rewrite IH.
Qed.

Lemma concat_sections_length extras :
  (length extras <= length (concat ((fun s : Z * list Z => enc_section s.1 s.2) <$> extras)))%nat.
Proof.
  rewrite <- (length_fmap (fun s : Z * list Z => enc_section s.1 s.2)) at 1.
  apply concat_length_ge, Forall_fmap, Forall_true. intros. apply enc_section_nonempty.
Qed.

Lemma enc_section_length id (body : list Z) : (length body <= length (enc_section id body))%nat.
Proof. unfold enc_section. rewrite !length_app. lia. Qed.

Lemma body_small m (body : list Z) : valid_module m -> (length body <= length (encode_module m))%nat ->
  Z.of_nat (length body) < 2 ^ 32.
Proof. intros Hv Hl. pose proof (v_bodies m Hv). lia. Qed.

Lemma enc_export_nonempty x : enc_export x <> [].
Proof. unfold enc_export. intros H%app_eq_nil. destruct H as [H _]. by apply enc_u32_nonempty in H. Qed.

(** The three sections the parser reads, on a valid module. *)
Section ThreeSections.
Context (m : wmodule) (Hv : valid_module m).

Let body1 := enc_vec (enc_type <$> m_types m).
Let body3 := enc_vec (enc_u32 <$> m_funcs m).
Let body7 := enc_vec (enc_export <$> m_exports m).

Lemma types_section_reads :
  reads (section (Parsed [] [] [] [])) (enc_section 1 body1)
        (Parsed (type_names <$> m_types m) [] [] [1]).
Proof.
  destruct (v_sizes m Hv) as (Hs1 & _).
  apply section_reads; [lia| |done|].
  { apply (body_small m); [done|]. unfold encode_module. rewrite !length_app.
    pose proof (enc_section_length 1 body1). unfold body1 in *. lia. }
  unfold section_body. cbn [Z.eqb Pos.eqb types functions exports seen].
  eapply reads_bind_nil; [|apply reads_ret].
  apply vec_reads; rewrite ?length_fmap; [lia|lia| |].
  - apply Forall_fmap, Forall_true. done.
  - rewrite Forall2_fmap_l, Forall2_fmap_r. apply Forall_Forall2_diag.
    eapply Forall_impl; [apply (v_types m Hv)|]. cbn. intros t (_ & _ & H1 & H2). by apply type_entry_reads.
Qed.

Lemma funcs_section_reads :
  reads (section (Parsed (type_names <$> m_types m) [] [] [1])) (enc_section 3 body3)
        (Parsed (type_names <$> m_types m) (m_funcs m) [] [3; 1]).
Proof.
  destruct (v_sizes m Hv) as (Hs1 & Hs2 & _).
  apply section_reads; [lia| |done|].
  { apply (body_small m); [done|]. unfold encode_module. rewrite !length_app.
    pose proof (enc_section_length 3 body3). unfold body3 in *. lia. }
  unfold section_body. cbn [Z.eqb Pos.eqb types functions exports seen].
  eapply reads_bind_nil; [|apply reads_ret].
  apply vec_reads; rewrite ?length_fmap; [lia|lia| |].
  - apply Forall_fmap, Forall_true. intros. apply enc_u32_nonempty.
  - rewrite Forall2_fmap_l. apply Forall_Forall2_diag.
    eapply Forall_impl; [apply (v_funcs m Hv)|]. cbn. intros f Hf. apply u32_reads. lia.
Qed.

Lemma exports_section_reads :
  reads (section (Parsed (type_names <$> m_types m) (m_funcs m) [] [3; 1])) (enc_section 7 body7)
        (Parsed (type_names <$> m_types m) (m_funcs m) (func_exports (m_exports m)) [7; 3; 1]).
Proof.
  destruct (v_sizes m Hv) as (_ & _ & Hs3).
  apply section_reads; [lia| |done|].
  { apply (body_small m); [done|]. unfold encode_module. rewrite !length_app.
    pose proof (enc_section_length 7 body7). unfold body7 in *. lia. }
  unfold section_body. cbn [Z.eqb Pos.eqb types functions exports seen].
  intros pre post e Hl. unfold mbind at 1, read_bind at 1. unfold body7, enc_vec in *.
  rewrite length_fmap in *.
  assert (Hne : (length (m_exports m) <= length (concat (enc_export <$> m_exports m)))%nat).
  { rewrite <- (length_fmap enc_export) at 1. apply concat_length_ge, Forall_fmap, Forall_true.
    intros x. apply enc_export_nonempty. }
  rewrite (count_reads (2 ^ 20) _ (concat (enc_export <$> m_exports m))) by (try lia; exact Hl).
  rewrite Nat2Z.id, <- (app_assoc (enc_u32 _)), (app_assoc pre), <- (length_app pre).
  assert (Hloop : reads (export_loop (length (m_exports m)) [] ≫= (fun ex =>
      mret (Parsed (type_names <$> m_types m) (m_funcs m) ex [7; 3; 1])))
    (concat (enc_export <$> m_exports m))
    (Parsed (type_names <$> m_types m) (m_funcs m) (func_exports (m_exports m)) [7; 3; 1])).
  { eapply reads_bind_nil; [apply export_loop_reads|apply reads_ret].
    - eapply Forall_impl; [apply (v_exports m Hv)|]. cbn. intros x (H1 & H2 & H3 & H4 & _). done.
    - apply (v_names m Hv). }
  rewrite Hloop by (rewrite !length_app in *; lia). by rewrite !length_app, Nat.add_assoc.
Qed.
End ThreeSections.

Lemma encoded_sections m fuel : valid_module m -> (3 + length (m_extra m) <= fuel)%nat ->
  exists p', sections fuel (Parsed [] [] [] [])
      (Reader_ (encode_module m) 8 (length (encode_module m))) = Ok p' /\
    types p' = type_names <$> m_types m /\ functions p' = m_funcs m /\
    exports p' = func_exports (m_exports m).
Proof.
  intros Hv Hfuel. destruct fuel as [|[|[|fuel]]]; [lia..|].
  unfold encode_module. change 8%nat with (length _MAGIC).
  rewrite (sections_step _ _ _ _ _ _ (enc_section_nonempty _ _) (types_section_reads m Hv)).
  rewrite (sections_step _ _ _ _ _ _ (enc_section_nonempty _ _) (funcs_section_reads m Hv)).
  rewrite (sections_step _ _ _ _ _ _ (enc_section_nonempty _ _) (exports_section_reads m Hv)).
  edestruct (sections_extra (m_extra m) fuel) as (p' & Hp' & H1 & H2 & H3);
    [apply (v_extra m Hv) | apply (v_ids m Hv) | | lia | exists p'; done].
  cbn [seen]. intros i Hi Hin. apply list_elem_of_In, list_elem_of_fmap in Hin as (s & -> & Hs%list_elem_of_In).
  pose proof (proj1 (List.Forall_forall _ _) (v_extra m Hv) _ Hs) as (_ & Hn & _).
  apply Hn. cbn in *. tauto.
Qed.

(** The signature parser reads back what a module contains: for every valid module
    (types, functions, exports of any kind, and sections the loader skips), parsing its
    encoding gives exactly its exported functions, in order, with their parameter and
    result types. *)
Theorem parse_encode_module m :
  valid_module m -> parse_signatures (encode_module m) = Ok (module_signatures m).
Proof.
  intros Hv. unfold parse_signatures.
  assert (Hlen : (3 + length (m_extra m) <= length (encode_module m))%nat).
  { unfold encode_module, _MAGIC, enc_section. rewrite !length_app. cbn [length].
    pose proof (concat_sections_length (m_extra m)). unfold enc_section in *. lia. }
  destruct (encoded_sections m _ Hv Hlen) as (p' & -> & Ht & Hf & Hx). cbn. rewrite Hx.
  apply resolve_exports_ok; [done|done|apply (v_funcs m Hv)|].
  eapply Forall_impl; [apply (v_exports m Hv)|]. cbn. intros x (_ & _ & H1 & _ & H2). split; [lia|done].
Qed.

(** A module of two types, three functions, three exports (one of them a memory) and a
    code section. *)
Definition demo_module : wmodule :=
  WModule [([127; 126], [127]); ([], [])] [0; 1; 0]
    [(u "add", 0, 0); (u "memory", 2, 0); (u "run", 0, 1)] [(10, [0; 1; 2])].

Lemma demo_module_valid : valid_module demo_module.
Proof.
  split.
  - repeat constructor; cbn; unfold byte_range; lia.
  - cbn. lia.
  - repeat constructor; cbn; lia.
  - repeat constructor; cbn; unfold byte_range, scalar; try lia; discriminate.
  - cbn. apply (bool_decide_unpack _). vm_compute. exact I.
  - repeat constructor; cbn; try lia; intuition lia.
  - cbn. apply (bool_decide_unpack _). vm_compute. exact I.
  - vm_compute. reflexivity.
Qed.

Lemma parse_encode_module_witness :
  valid_module demo_module /\ parse_signatures (encode_module demo_module)
    = Ok [(u "add", ([_value_type 127; _value_type 126], [_value_type 127])); (u "run", ([], []))].
Proof. split; [apply demo_module_valid|]. exact (parse_encode_module demo_module demo_module_valid). Defined.

(** ** Arguments

    What a parameter type accepts and what crosses to the bridge for it: an i32 as
    itself, an i64 as its decimal string, a float as itself and an int as the nearest
    double, where an f32 takes only finite values within the single-precision range
    (compared exactly, before any rounding), or an infinity or NaN. *)
Inductive crosses : string -> pyval -> pyval -> Prop :=
| cross_i32 z : - 2 ^ 31 <= z < 2 ^ 32 -> crosses "i32" (PInt z) (PInt z)
| cross_i64 z : - 2 ^ 63 <= z < 2 ^ 64 -> crosses "i64" (PInt z) (PStr (u (str_of_int z)))
| cross_f64_int z f : float_of_int z = Ok f -> crosses "f64" (PInt z) (PFloat f)
| cross_f64 f : crosses "f64" (PFloat f) (PFloat f)
| cross_f32_int z f : float_of_int z = Ok f -> (isfinite f = true -> - _F32_MAX <= z <= _F32_MAX) ->
    crosses "f32" (PInt z) (PFloat f)
| cross_f32 f : (isfinite f = true -> float_in (- _F32_MAX) f _F32_MAX = true) ->
    crosses "f32" (PFloat f) (PFloat f).

Lemma prepare_arg_sound kind v o w :
  prepare_arg kind v = Ok (o, w) -> crosses kind v o /\ w = String.eqb kind "i64".
Proof.
  unfold prepare_arg, _INT_RANGES.
  destruct (String.eqb_spec kind "i32") as [->|]; [|
  destruct (String.eqb_spec kind "i64") as [->|]; [|
  destruct (String.eqb_spec kind "f32") as [->|]; [|
  destruct (String.eqb_spec kind "f64") as [->|]]]]; cbn -[Z.pow _F32_MAX float_in float_of_int isfinite];
  destruct v; try discriminate; repeat case_match; intros; simplify_eq; bool_prop;
  (split; [|done]); constructor; try done.
  all: lia || idtac.
  all: intros Hf; rewrite Hf in *; cbn -[Z.pow _F32_MAX float_in] in *; bool_prop; try done.
Qed.

Lemma prepare_arg_complete kind v o : crosses kind v o ->
  prepare_arg kind v = Ok (o, String.eqb kind "i64").
Proof.
  intros []; unfold prepare_arg; cbn -[Z.pow _F32_MAX float_in float_of_int isfinite].
  - rewrite (proj2 (Z.leb_le _ _)), (proj2 (Z.ltb_lt _ _)) by lia. done.
  - rewrite (proj2 (Z.leb_le _ _)), (proj2 (Z.ltb_lt _ _)) by lia. done.
  - by rewrite H.
  - done.
  - rewrite H. destruct (isfinite f); cbn -[_F32_MAX]; [|done].
    by rewrite !(proj2 (Z.leb_le _ _)) by (specialize (H0 eq_refl); lia).
  - destruct (isfinite f); cbn -[_F32_MAX float_in]; [|done]. by rewrite H by done.
Qed.

Lemma prepare_loop_spec params args out wide : length args = length params ->
  prepare_loop params args = Ok (out, wide) <->
  Forall3 crosses params args out /\ wide = (fun k => String.eqb k "i64") <$> params.
Proof.
  revert args out wide. induction params as [|k params IH]; intros [|v args] out wide Hl; try discriminate Hl.
  - cbn. split; [intros [= <- <-]; split; [constructor|done]|].
    intros [H ->]. by inversion H.
  - injection Hl as Hl. cbn [prepare_loop]. split.
    + intros ([o w] & [Hc ->]%prepare_arg_sound & H)%result_bind_ok.
      apply result_bind_ok in H as ([os ws] & [Hf ->]%IH & H); [|done].
      cbn in H. simplify_eq. split; [by constructor|done].
    + intros [H ->]. inversion H as [|? ? o ? ? os Hc Hr]; subst.
      rewrite (prepare_arg_complete _ _ _ Hc). cbn.
      by rewrite (proj2 (IH args os _ Hl) (conj Hr eq_refl)).
Qed.

(** A call's arguments are checked exactly against the parameter types: the call
    goes ahead precisely when there are as many arguments as parameters and each one
    crosses as its type says ([crosses]), with the i64 positions, and only those, marked
    wide; and an i64 reaches the bridge without loss, since its decimal string reads
    back as the same integer. *)
Theorem prepare_args_exact sig_ args out wide :
  (prepare_args sig_ args = Ok (out, wide) <->
   Forall3 crosses sig_.1 args out /\ wide = (fun k => String.eqb k "i64") <$> sig_.1) /\
  (forall z, int_of_str (str_of_int z) = Some z).
Proof.
  split; [|intros; apply int_of_str_of_int].
  unfold prepare_args. destruct (Nat.eqb_spec (length args) (length sig_.1)) as [E|E].
  - by apply prepare_loop_spec.
  - split; [done|]. intros [H _]. pose proof (Forall3_length_lm _ _ _ _ H). congruence.
Qed.

(** ** Dropped instances *)

Lemma taken_insert (t : list (list Z)) i ids ids' : t !! i = Some ids ->
  concat (<[i := ids']> t) ≡ₚ ids' ++ concat (take i t ++ drop (S i) t) /\
  concat t ≡ₚ ids ++ concat (take i t ++ drop (S i) t).
Proof.
  intros H. pose proof (lookup_lt_Some _ _ _ H).
  rewrite insert_take_drop by done. split.
  - rewrite !concat_app. apply Permutation_app_swap_app.
  - trans (concat (take i t ++ ids :: drop (S i) t)).
    + by rewrite (take_drop_middle t i ids H).
    + rewrite !concat_app. apply Permutation_app_swap_app.
Qed.

(** However the finalizers, the draining threads, the requests that went out and
    the ones that raised interleave, every queued id is in exactly one place: still
    queued, held by one draining thread, or sent.  None is lost and none is duplicated. *)
Theorem dropped_ids_conserved threads s :
  drop_reachable threads s -> forgotten s ++ concat (taken s) ++ dropped s ≡ₚ queued s.
Proof.
  induction 1 as [|s s' _ IH Hs].
  - cbn. rewrite app_nil_r. by induction threads.
  - destruct Hs as [s wid|s i wid q ids Hq Ht|s i ids Ht|s i ids Ht]; cbn [dropped taken forgotten queued];
      rewrite <- IH; try rewrite Hq;
      try (destruct (taken_insert _ _ _ (ids ++ [wid]) Ht) as [-> ->]);
      try (destruct (taken_insert _ _ _ [] Ht) as [-> ->]); solve_Permutation.
Qed.

(** Two draining threads over three ids: the first takes two and its request raises, the
    second takes the third and sends it. *)
Lemma dropped_ids_conserved_witness :
  exists s, drop_reachable 2 s /\ s = Drops [7; 8] [[]; []] [9] [7; 8; 9] /\
  forgotten s ++ concat (taken s) ++ dropped s ≡ₚ queued s.
Proof.
  eexists. assert (H : drop_reachable 2 (Drops [7; 8] [[]; []] [9] [7; 8; 9])).
  { eapply DropMore; [|eapply (DropRaised (Drops [] [[7; 8]; []] [9] [7; 8; 9]) 0); reflexivity].
    eapply DropMore; [|eapply (DropSent (Drops [] [[7; 8]; [9]] [] [7; 8; 9]) 1); reflexivity].
    eapply DropMore; [|eapply (DropTaken (Drops [9] [[7; 8]; []] [] [7; 8; 9]) 1 9 [] []); reflexivity].
    eapply DropMore; [|eapply (DropTaken (Drops [8; 9] [[7]; []] [] [7; 8; 9]) 0 8 [9] [7]); reflexivity].
    eapply DropMore; [|eapply (DropTaken (Drops [7; 8; 9] [[]; []] [] [7; 8; 9]) 0 7 [8; 9] []); reflexivity].
    eapply DropMore; [|eapply (DropQueued (Drops [7; 8] [[]; []] [] [7; 8]))].
    eapply DropMore; [|eapply (DropQueued (Drops [7] [[]; []] [] [7]))].
    eapply DropMore; [|eapply (DropQueued (Drops [] [[]; []] [] []))].
    apply DropInit. }
  split; [exact H|]. split; [reflexivity|]. exact (dropped_ids_conserved 2 _ H).
Defined.
