(* ===== verification/Sha256.v ===== *)
(** * SHA-256 and HMAC

    The [hashlib.sha256] and [hmac] of the Python standard library (FIPS 180-4,
    RFC 2104), executable, with the digest's length.  Bytes are integers. *)

From S2P Require Import Prelude Utf8.

Definition w32 (x : Z) : Z := x mod 2 ^ 32.
Definition rotr (n x : Z) : Z := Z.lor (Z.shiftr x n) (w32 (Z.shiftl x (32 - n))).

(** The round constants are the fractional parts of the cube roots of the first primes. *)
Definition cube_root (n : Z) : Z :=
  fold_left (fun r b => if (r + 2 ^ b) ^ 3 <=? n then r + 2 ^ b else r)
    [35; 34; 33; 32; 31; 30; 29; 28; 27; 26; 25; 24; 23; 22; 21; 20; 19; 18; 17; 16; 15; 14; 13;
     12; 11; 10; 9; 8; 7; 6; 5; 4; 3; 2; 1; 0] 0.
Definition is_prime (p : nat) : bool := forallb (fun d => negb (p mod d =? 0)%nat) (seq 2 (p - 2)).
Definition primes : list Z := Eval vm_compute in Z.of_nat <$> List.filter is_prime (seq 2 310).
Definition K : list Z := Eval vm_compute in (fun p => w32 (cube_root (p * 2 ^ 96))) <$> primes.

Record state := St { sa : Z; sb : Z; sc : Z; sd : Z; se : Z; sf : Z; sg : Z; sh : Z }.
(** The initial state: the square roots of the first eight. *)
Definition H0 : state := Eval vm_compute in
  let r i := w32 (Z.sqrt (nth i primes 0 * 2 ^ 64)) in St (r 0%nat) (r 1%nat) (r 2%nat) (r 3%nat) (r 4%nat) (r 5%nat) (r 6%nat) (r 7%nat).

Definition round (s : state) (k w : Z) : state :=
  let S1 := Z.lxor (Z.lxor (rotr 6 (se s)) (rotr 11 (se s))) (rotr 25 (se s)) in
  let ch := Z.lxor (Z.land (se s) (sf s)) (Z.land (2 ^ 32 - 1 - se s) (sg s)) in
  let t1 := w32 (sh s + S1 + ch + k + w) in
  let S0 := Z.lxor (Z.lxor (rotr 2 (sa s)) (rotr 13 (sa s))) (rotr 22 (sa s)) in
  let maj := Z.lxor (Z.lxor (Z.land (sa s) (sb s)) (Z.land (sa s) (sc s))) (Z.land (sb s) (sc s)) in
  St (w32 (t1 + S0 + maj)) (sa s) (sb s) (sc s) (w32 (sd s + t1)) (se s) (sf s) (sg s).

(** The rounds, with the message schedule as a sliding window of sixteen words. *)
Fixpoint rounds (ks : list Z) (ws : list Z) (s : state) : state :=
  match ks with
  | [] => s
  | k :: ks' =>
      let w0 := nth 0 ws 0 in
      let w1 := nth 1 ws 0 in
      let w14 := nth 14 ws 0 in
      let s0 := Z.lxor (Z.lxor (rotr 7 w1) (rotr 18 w1)) (Z.shiftr w1 3) in
      let s1 := Z.lxor (Z.lxor (rotr 17 w14) (rotr 19 w14)) (Z.shiftr w14 10) in
      rounds ks' (drop 1 ws ++ [w32 (w0 + s0 + nth 9 ws 0 + s1)]) (round s k w0)
  end.

Definition be (n : nat) (x : Z) : list Z := rev (le_bytes n x).
Definition be_int (bs : list Z) : Z := le_int (rev bs).

Definition add_state (a b : state) : state :=
  St (w32 (sa a + sa b)) (w32 (sb a + sb b)) (w32 (sc a + sc b)) (w32 (sd a + sd b))
     (w32 (se a + se b)) (w32 (sf a + sf b)) (w32 (sg a + sg b)) (w32 (sh a + sh b)).

Fixpoint words (n : nat) (bs : list Z) : list Z :=
  match n with O => [] | S n' => be_int (take 4 bs) :: words n' (drop 4 bs) end.

Fixpoint blocks (n : nat) (bs : list Z) (s : state) : state :=
  match n with
  | O => s
  | S n' => blocks n' (drop 64 bs) (add_state s (rounds K (words 16 (take 64 bs)) s))
  end.

Definition pad (msg : list Z) : list Z :=
  let len := Z.of_nat (length msg) in
  msg ++ [0x80] ++ replicate (Z.to_nat ((55 - len) mod 64)) 0 ++ be 8 (8 * len).

Definition sha256 (msg : list Z) : list Z :=
  let p := pad msg in
  let s := blocks (length p / 64) p H0 in
  be 4 (sa s) ++ be 4 (sb s) ++ be 4 (sc s) ++ be 4 (sd s)
  ++ be 4 (se s) ++ be 4 (sf s) ++ be 4 (sg s) ++ be 4 (sh s).

Definition hmac (key msg : list Z) : list Z :=
  let k := if (64 <? length key)%nat then sha256 key else key in
  let k := k ++ replicate (64 - length k) 0 in
  sha256 ((Z.lxor 0x5c <$> k) ++ sha256 ((Z.lxor 0x36 <$> k) ++ msg)).

Lemma be_length n x : length (be n x) = n.
Proof. unfold be. by rewrite length_rev, le_bytes_length. Qed.

Lemma sha256_length msg : length (sha256 msg) = 32%nat.
Proof. unfold sha256. by rewrite !length_app, !be_length. Qed.


(** [hexdigest()]. *)
Definition hex_char (d : Z) : Z := if d <? 10 then 48 + d else 87 + d.
Definition sha256_hex (msg : list Z) : list Z :=
  concat ((fun b => [hex_char (b / 16); hex_char (b mod 16)]) <$> sha256 msg).

(** RFC 4231, test case 2. *)
Example hmac_rfc4231 :
  hmac (u "Jefe") (u "what do ya want for nothing?")
  = be 32 0x5bdcc146bf60754e6a042426089575c75a003f089d2739839dec58b964ec3843.
Proof. vm_compute. reflexivity. Qed.

