(* ===== verification/SnapshotAuth.v ===== *)
(** * Signed V8 snapshots ([python/pydeno/_snapshot_auth.py])

    [sign_snapshot] and [verify_snapshot] over an abstract MAC: the class [Mac] is what
    they rely on of [hmac.new(key, msg, sha256).digest()] (a deterministic function with
    digests of [_MAC_LEN] bytes).  [_build_identity], the identity compiled into the
    native extension, is a parameter.  The main theorem is the docstring's: a blob
    verifies if and only if it is what signing its payload gives under the same key and
    engine build. *)

From S2P Require Import Prelude Utf8 PyVal Sha256.

Definition _MAGIC : list Z := u "pydeno-snap2" ++ [0].
Definition _MAC_LEN : nat := 32.
Definition _MIN_KEY_BYTES : nat := 16.
Definition _MAX_ENGINE_LEN : nat := 255.

Class Mac := {
  hmac_digest : list Z -> list Z -> list Z;
  hmac_digest_length : forall key msg, length (hmac_digest key msg) = _MAC_LEN }.

(** The errors of the module: [SnapshotAuthenticationError] is a [ValueError]. *)
Inductive auth_exn := Plain (e : exn) | SnapshotAuthenticationError (msg : string).

Definition not_signed : auth_exn := SnapshotAuthenticationError "not a signed pydeno snapshot".
Definition auth_failed : auth_exn := SnapshotAuthenticationError "snapshot authentication failed".
Definition wrong_build : auth_exn := SnapshotAuthenticationError "snapshot was made by another build".

Section Auth.
Context `{Mac} (_build_identity : result exn (list Z)).

Definition _engine_version : result auth_exn (list Z) :=
  match _build_identity with
  | Err _ => Err (Plain (RuntimeError "cannot identify this pydeno engine build"))
  | Ok identity =>
      (* [.encode("ascii")] of the identity raises on anything else *)
      if negb (forallb (fun c => (0 <=? c) && (c <? 128)) identity)
      then Err (Plain (RuntimeError "cannot identify this pydeno engine build"))
      else if bool_decide (identity = []) || (_MAX_ENGINE_LEN <? length identity)%nat
      then Err (Plain (RuntimeError "cannot identify this pydeno engine build: unusable identity"))
      else Ok identity
  end.

Definition _key (key : pyval) : result auth_exn (list Z) :=
  match key with
  | PBytes bs => if (length bs <? _MIN_KEY_BYTES)%nat
                 then Err (Plain (ValueError "key must be at least 16 bytes")) else Ok bs
  | _ => Err (Plain (ValueError "key must be at least 16 bytes"))
  end.

(** The header of a blob made by [engine]. *)
Definition head_of (engine : list Z) : list Z := _MAGIC ++ [Z.of_nat (length engine)] ++ engine.

Definition sign_snapshot (snapshot key : pyval) : result auth_exn (list Z) :=
  match snapshot with
  | PBytes payload =>
      engine ← _engine_version;
      let head := head_of engine in
      k ← _key key;
      let mac := hmac_digest k (head ++ payload) in
      Ok (head ++ mac ++ payload)
  | _ => Err (Plain (TypeError "snapshot must be bytes"))
  end.

Definition verify_snapshot (blob key : pyval) : result auth_exn (list Z) :=
  secret ← _key key;
  match blob with
  | PBytes data =>
      if (length data <? length _MAGIC + 1)%nat || negb (bool_decide (take (length _MAGIC) data = _MAGIC))
      then Err not_signed
      else
        let version_len := Z.to_nat (nth (length _MAGIC) data 0) in
        let head_end := (length _MAGIC + 1 + version_len)%nat in
        if (length data <? head_end + _MAC_LEN)%nat then Err not_signed
        else
          let head := take head_end data in
          let mac := take _MAC_LEN (drop head_end data) in
          let payload := drop (head_end + _MAC_LEN) data in
          let expected := hmac_digest secret (head ++ payload) in
          if negb (bool_decide (mac = expected)) then Err auth_failed
          else
            let made_by := drop (length _MAGIC + 1) head in
            current ← _engine_version;
            if negb (bool_decide (made_by = current)) then Err wrong_build
            else Ok payload
  | _ => Err (Plain (TypeError "blob must be bytes"))
  end.

(** ** Proofs *)

Lemma engine_version_ok engine : _engine_version = Ok engine ->
  (0 < length engine <= 255)%nat.
Proof.
  unfold _engine_version, _MAX_ENGINE_LEN. destruct _build_identity as [i|]; [|done].
  case_match; [done|]. destruct (bool_decide _) eqn:E; [done|].
  destruct (_ <? _)%nat eqn:E2; [done|]. intros [= ->].
  apply bool_decide_eq_false in E. apply Nat.ltb_ge in E2. destruct engine; cbn in *; [done|lia].
Qed.

Lemma head_of_length engine : length (head_of engine) = (length _MAGIC + 1 + length engine)%nat.
Proof. unfold head_of. rewrite !length_app. cbn. lia. Qed.

(** How a blob with a given header splits. *)
Lemma blob_splits engine mac payload : length mac = _MAC_LEN ->
  let data := head_of engine ++ mac ++ payload in
  let head_end := (length _MAGIC + 1 + length engine)%nat in
  nth (length _MAGIC) data 0 = Z.of_nat (length engine) /\
  take (length _MAGIC) data = _MAGIC /\ take head_end data = head_of engine /\
  take _MAC_LEN (drop head_end data) = mac /\ drop (head_end + _MAC_LEN) data = payload /\
  length data = (head_end + _MAC_LEN + length payload)%nat.
Proof.
  intros Hm data head_end. unfold data, head_end. rewrite <- head_of_length, <- Hm.
  split_and!.
  - unfold head_of. rewrite <- app_assoc, app_nth2, Nat.sub_diag by lia. done.
  - unfold head_of. rewrite <- app_assoc. by rewrite take_app_length.
  - by rewrite take_app_length.
  - by rewrite drop_app_length, take_app_length.
  - rewrite <- drop_drop, drop_app_length. by rewrite drop_app_length.
  - rewrite !length_app. lia.
Qed.

Lemma key_bytes key k : _key key = Ok k -> key = PBytes k.
Proof. destruct key; cbn; repeat case_match; intros; by simplify_eq. Qed.

Lemma sign_shape payload key blob : sign_snapshot (PBytes payload) key = Ok blob <->
  exists engine k, _engine_version = Ok engine /\ _key key = Ok k /\
    blob = head_of engine ++ hmac_digest k (head_of engine ++ payload) ++ payload.
Proof.
  unfold sign_snapshot. destruct _engine_version as [engine|]; cbn; [|naive_solver].
  destruct (_key key) as [k|]; cbn; naive_solver.
Qed.

Lemma verify_signed engine k payload key : _engine_version = Ok engine -> _key key = Ok k ->
  verify_snapshot (PBytes (head_of engine ++ hmac_digest k (head_of engine ++ payload) ++ payload)) key
  = Ok payload.
Proof.
  intros He Hk. unfold verify_snapshot. rewrite Hk. cbn [mbind result_bind].
  destruct (blob_splits engine (hmac_digest k (head_of engine ++ payload)) payload)
    as (H1 & H2 & H3 & H4 & H5 & H6); [apply hmac_digest_length|].
  rewrite H1, H2, Nat2Z.id, H3, H4, H5, H6.
  rewrite (proj2 (Nat.ltb_ge _ _)) by lia. rewrite !bool_decide_eq_true_2 by done. cbn [orb negb].
  rewrite (proj2 (Nat.ltb_ge _ _)) by lia. rewrite He. cbn [mbind result_bind].
  unfold head_of. rewrite drop_app_ge by (rewrite ?length_app; cbn; lia).
  replace (length _MAGIC + 1 - length _MAGIC)%nat with 1%nat by lia. cbn [drop app].
  by rewrite bool_decide_eq_true_2.
Qed.

Lemma verify_inv data key payload : verify_snapshot (PBytes data) key = Ok payload ->
  exists engine k, _engine_version = Ok engine /\ _key key = Ok k /\
    data = head_of engine ++ hmac_digest k (head_of engine ++ payload) ++ payload.
Proof.
  unfold verify_snapshot. intros (k & Hk & Hv)%result_bind_ok.
  destruct (_ || _) eqn:E1; [done|]. apply orb_false_iff in E1 as [E1 E2].
  apply Nat.ltb_ge in E1. apply negb_false_iff, bool_decide_eq_true in E2.
  destruct (_ <? _)%nat eqn:E3; [done|]. apply Nat.ltb_ge in E3.
  destruct (negb _) eqn:E4 in Hv; [done|]. apply negb_false_iff, bool_decide_eq_true in E4.
  apply result_bind_ok in Hv as (engine & He & Hv).
  destruct (negb _) eqn:E5 in Hv; [done|]. apply negb_false_iff, bool_decide_eq_true in E5.
  apply Ok_inj in Hv. exists engine, k. split_and!; [done|done|].
  set (v := nth (length _MAGIC) data 0) in *.
  assert (Hhead : take (length _MAGIC + 1 + Z.to_nat v) data = head_of engine).
  { rewrite <- (take_drop (length _MAGIC + 1) (take _ data)), E5, take_take, Nat.min_l by lia.
    assert (Hl : length engine = Z.to_nat v).
    { rewrite <- E5, length_drop, length_take. lia. }
    pose proof (engine_version_ok _ He). unfold head_of. rewrite Hl, Z2Nat.id by lia.
    rewrite (app_assoc _MAGIC). f_equal. rewrite <- E2 at 2. unfold v.
    rewrite <- (take_S_r data) with (x := nth (length _MAGIC) data 0); [by rewrite Nat.add_1_r|].
    rewrite nth_lookup. destruct (lookup_lt_is_Some_2 data (length _MAGIC)) as [x Hx]; [lia|]. by rewrite Hx. }
  rewrite Hhead, Hv in E4. rewrite <- E4, <- Hhead.
  rewrite <- Hv, <- (drop_drop data _MAC_LEN), (take_drop _MAC_LEN). symmetry. apply take_drop.
Qed.
End Auth.

(** HMAC-SHA-256 is the instance the code uses. *)
#[export] Instance hmac_sha256 : Mac := {
  hmac_digest := hmac;
  hmac_digest_length key msg := sha256_length _ }.

(** C8. [verify_snapshot] returns a payload if and only if the blob is exactly what
    [sign_snapshot] makes of that payload with the same key on the same engine build:
    every other blob (cut, extended, tampered with, signed under a key whose MAC differs,
    or made by another build) is refused, and every signed one is read back. *)
Theorem verify_exactly_signed `{Mac} identity blob key payload :
  verify_snapshot identity (PBytes blob) key = Ok payload <->
  sign_snapshot identity (PBytes payload) key = Ok blob.
Proof.
  rewrite sign_shape. split; [apply verify_inv|].
  intros (engine & k & He & Hk & ->). by apply verify_signed.
Qed.
