(* ===== verification/PyStr.v ===== *)
(** * Python's string methods

    The [str] methods and regular-expression idioms the modelled modules use, on lists of
    code points: [partition], [split], [startswith], [rstrip], [lower] of ASCII text,
    character classes and [fullmatch]/[search] of a class. *)

From S2P Require Import Prelude Utf8.

(** ** Character classes *)

Definition chr (s : string) : Z := match u s with c :: _ => c | [] => 0 end.
Definition mem_chars (s : list Z) (c : Z) : bool := existsb (Z.eqb c) s.
Definition is_digit (c : Z) : bool := (48 <=? c) && (c <=? 57).
Definition is_lower (c : Z) : bool := (97 <=? c) && (c <=? 122).
Definition is_upper (c : Z) : bool := (65 <=? c) && (c <=? 90).
Definition is_alpha (c : Z) : bool := is_lower c || is_upper c.
Definition is_hex (c : Z) : bool :=
  is_digit c || ((97 <=? c) && (c <=? 102)) || ((65 <=? c) && (c <=? 70)).
Definition isascii (s : list Z) : bool := forallb (fun c => (0 <=? c) && (c <? 128)) s.

(** [str.lower] on ASCII text. *)
Definition lower_char (c : Z) : Z := if is_upper c then c + 32 else c.
Definition lower (s : list Z) : list Z := lower_char <$> s.

(** ** Cutting *)

(** The longest prefix of characters in a class, and the rest. *)
Fixpoint span (p : Z -> bool) (s : list Z) : list Z * list Z :=
  match s with
  | [] => ([], [])
  | c :: s' => if p c then let r := span p s' in (c :: r.1, r.2) else ([], s)
  end.

(** [s.partition(c)] for a one-character separator: before, whether found, after. *)
Definition partition (sep : Z) (s : list Z) : list Z * bool * list Z :=
  let r := span (fun c => negb (c =? sep)) s in
  match r.2 with [] => (r.1, false, []) | _ :: after => (r.1, true, after) end.

(** [s.split(c)]: always at least one piece. *)
Fixpoint split_on (sep : Z) (s : list Z) : list (list Z) :=
  match s with
  | [] => [[]]
  | c :: s' =>
      if c =? sep then [] :: split_on sep s'
      else match split_on sep s' with
           | [] => [[c]]
           | w :: ws => (c :: w) :: ws
           end
  end.

Definition last_piece (sep : Z) (s : list Z) : list Z := List.last (split_on sep s) [].

Fixpoint starts_with (prefix s : list Z) : bool :=
  match prefix, s with
  | [], _ => true
  | c :: prefix', d :: s' => (c =? d) && starts_with prefix' s'
  | _ :: _, [] => false
  end.

(** [needle in haystack]. *)
Fixpoint contains (needle s : list Z) : bool :=
  starts_with needle s || match s with [] => false | _ :: s' => contains needle s' end.

Fixpoint rstrip (sep : Z) (s : list Z) : list Z :=
  match s with
  | [] => []
  | c :: s' => match rstrip sep s' with
               | [] => if c =? sep then [] else [c]
               | t => c :: t
               end
  end.

(** ** Laws *)

Lemma span_app p s : (span p s).1 ++ (span p s).2 = s.
Proof. induction s as [|c s IH]; cbn; [done|]. destruct (p c); cbn; congruence. Qed.

Lemma span_fst p s : Forall (fun c => p c = true) (span p s).1.
Proof. induction s as [|c s IH]; cbn; [by constructor|]. destruct (p c) eqn:E; by constructor. Qed.

Lemma span_snd p s : match (span p s).2 with [] => True | c :: _ => p c = false end.
Proof. induction s as [|c s IH]; cbn; [done|]. destruct (p c) eqn:E; done. Qed.

Lemma span_all p s : Forall (fun c => p c = true) s -> span p s = (s, []).
Proof. induction 1 as [|c s Hc _ IH]; cbn; [done|]. by rewrite Hc, IH. Qed.

Lemma span_stop p s c t : Forall (fun c => p c = true) s -> p c = false ->
  span p (s ++ c :: t) = (s, c :: t).
Proof. induction 1 as [|d s Hd _ IH]; intros Hc; cbn; [by rewrite Hc|]. by rewrite Hd, IH. Qed.

Lemma starts_with_spec prefix s : starts_with prefix s = true <-> exists t, s = prefix ++ t.
Proof.
  revert s. induction prefix as [|c prefix IH]; intros s; cbn; [naive_solver|].
  destruct s as [|d s]; [naive_solver|]. rewrite andb_true_iff, Z.eqb_eq, IH. naive_solver.
Qed.

Lemma split_on_nonempty sep s : split_on sep s <> [].
Proof. induction s as [|c s IH]; cbn; [done|]. destruct (c =? sep); [done|]. by destruct (split_on sep s). Qed.

(** Splitting distributes over a separator. *)
Lemma split_on_app sep a b : split_on sep (a ++ sep :: b) = split_on sep a ++ split_on sep b.
Proof.
  induction a as [|c a IH]; cbn; [by rewrite Z.eqb_refl|].
  destruct (c =? sep); [by rewrite IH|]. rewrite IH.
  pose proof (split_on_nonempty sep a). by destruct (split_on sep a).
Qed.

(** No piece contains the separator. *)
Lemma split_on_no_sep sep s : Forall (fun w => ~ In sep w) (split_on sep s).
Proof.
  induction s as [|c s IH]; cbn; [by repeat constructor; intros []|].
  destruct (Z.eqb_spec c sep) as [->|Hc]; [constructor; [intros []|done]|].
  destruct (split_on sep s) as [|w ws]; inversion IH; subst; constructor; cbn; try tauto; by repeat constructor.
Qed.

Fixpoint join (sep : Z) (ws : list (list Z)) : list Z :=
  match ws with
  | [] => []
  | [w] => w
  | w :: ws' => w ++ sep :: join sep ws'
  end.

Lemma join_split sep s : join sep (split_on sep s) = s.
Proof.
  induction s as [|c s IH]; cbn; [done|].
  destruct (Z.eqb_spec c sep) as [->|Hc].
  - pose proof (split_on_nonempty sep s). cbn. by destruct (split_on sep s); [|rewrite IH].
  - pose proof (split_on_nonempty sep s). destruct (split_on sep s) as [|w [|w' ws]]; [done|..]; cbn in *; congruence.
Qed.

Lemma rstrip_spec sep s : exists n, s = rstrip sep s ++ replicate n sep.
Proof.
  induction s as [|c s [n IH]]; [by exists 0%nat|]. cbn.
  destruct (rstrip sep s) as [|d t] eqn:E.
  - destruct (Z.eqb_spec c sep) as [->|Hc]; [exists (S n)|exists n]; cbn; by rewrite IH at 1.
  - exists n. cbn in *. by rewrite IH at 1.
Qed.

Lemma lower_char_idem c : lower_char (lower_char c) = lower_char c.
Proof.
  unfold lower_char. destruct (is_upper c) eqn:E; [|by rewrite E].
  unfold is_upper in *. bool_prop. destruct (_ && _) eqn:E2; [|done]. bool_prop. lia.
Qed.

Lemma lower_idem s : lower (lower s) = lower s.
Proof. unfold lower. rewrite <- list_fmap_compose. apply list_fmap_ext. intros. apply lower_char_idem. Qed.

Lemma split_on_infix sep s w : In w (split_on sep s) -> exists a b, s = a ++ w ++ b.
Proof.
  revert w. induction s as [|c s IH]; intros w; cbn.
  { intros [<-|[]]. by exists [], []. }
  pose proof (split_on_nonempty sep s). destruct (c =? sep).
  - intros [<-|Hw]; [by exists [], (c :: s)|]. destruct (IH w Hw) as (a & b & ->). by exists (c :: a), b.
  - destruct (split_on sep s) as [|w0 ws] eqn:E; [done|]. intros [<-|Hw].
    + rewrite <- (join_split sep s), E. exists []. destruct ws; cbn; [by exists []; rewrite app_nil_r|].
      by eexists.
    + destruct (IH w (or_intror Hw)) as (a & b & ->). by exists (c :: a), b.
Qed.
