(* ===== verification/HttpFetch.v ===== *)
(** * The allow-listed HTTP tool ([python/pydeno/tools/http_fetch.py])

    The whole pipeline of a fetch: the address policy, the strict URL parser, the
    allow-list, resolution and vetting, the pinned connection, the bounded read, the
    redirect loop and the headers that go out.  Text is a list of code points.

    Of the standard library, dotted-decimal IPv4 text and the IPv4 addresses embedded in
    an IPv6 one are modelled; IPv6 text, [ipaddress]'s classification tables (which
    change between Python versions), IDNA, [urljoin] and text decoding are the interface
    [Std], about which no theorem assumes anything.  The network is a function from the
    hop number to what the resolver, the sockets and the server did. *)

From S2P Require Import Prelude Utf8 PyVal PyStr.
From Stdlib Require Import Floats.SpecFloat.

(** [HttpFetchBlocked], [HttpFetchTimeout] and [HttpFetchFailed]. *)
Inductive http_exn :=
| HttpFetchBlocked (msg : string) | HttpFetchTimeout (msg : string) | HttpFetchFailed (msg : string).

Definition blocked {A} (msg : string) : result http_exn A := Err (HttpFetchBlocked msg).

(** ** Addresses *)

(** An address as its integer; an IPv6 one with whether it has a scope id. *)
Inductive ip := V4 (n : Z) | V6 (n : Z) (scope_id : bool).

#[export] Instance ip_eq_dec : EqDecision ip.
Proof. solve_decision. Defined.

Class Std := {
  parse_v6 : list Z -> option (Z * bool);   (* [IPv6Address(text)] *)
  str_v6 : Z -> bool -> list Z;             (* its [str] *)
  is_global : ip -> bool; is_multicast : ip -> bool; is_unspecified : ip -> bool;
  is_link_local : ip -> bool; is_private : ip -> bool; is_reserved : ip -> bool;
  idna : list Z -> option (list Z);         (* [raw.encode("idna").decode("ascii")] *)
  urljoin : list Z -> list Z -> list Z;
  decode_with : list Z -> option (list Z) -> list Z }.

(** [IPv4Address(text)]: four decimal octets, no leading zero. *)
Definition dec_value (s : list Z) : Z := fold_left (fun acc c => acc * 10 + (c - 48)) s 0.
Definition parse_octet (s : list Z) : option Z :=
  if bool_decide (s = []) || negb (forallb is_digit s) || (3 <? length s)%nat
     || (negb (bool_decide (s = u "0")) && starts_with (u "0") s)
  then None
  else if 255 <? dec_value s then None else Some (dec_value s).

Definition parse_v4 (s : list Z) : option Z :=
  match split_on (chr ".") s with
  | [a; b; c; d] =>
      a ← parse_octet a; b ← parse_octet b; c ← parse_octet c; d ← parse_octet d;
      Some (((a * 256 + b) * 256 + c) * 256 + d)
  | _ => None
  end.

Definition str_v4 (n : Z) : list Z :=
  join (chr ".") (u ∘ str_of_int <$> [Z.shiftr n 24 mod 256; Z.shiftr n 16 mod 256; Z.shiftr n 8 mod 256; n mod 256]).

(** What [ipaddress] documents of IPv6: an address is a number of 128 bits, and its text is parsed
    to the same address; that text has a colon. *)
Class StdLaws `{Std} : Prop := {
  parse_v6_range : forall s n sc, parse_v6 s = Some (n, sc) -> 0 <= n < 2 ^ 128;
  parse_str_v6 : forall s n sc, parse_v6 s = Some (n, sc) -> parse_v6 (str_v6 n sc) = Some (n, sc);
  str_v6_colon : forall s n sc, parse_v6 s = Some (n, sc) -> In (chr ":") (str_v6 n sc) }.

Section Addresses.
Context `{Std}.

Definition ip_address (s : list Z) : option ip :=
  match parse_v4 s with
  | Some n => Some (V4 n)
  | None => (fun r => V6 r.1 r.2) <$> parse_v6 s
  end.

Definition str_ip (a : ip) : list Z := match a with V4 n => str_v4 n | V6 n sc => str_v6 n sc end.
End Addresses.

Definition is_loopback (a : ip) : bool :=
  match a with V4 n => Z.shiftr n 24 =? 127 | V6 n _ => n =? 1 end.

(** The IPv4 addresses inside an IPv6 one. *)
Definition ipv4_mapped (n : Z) : option Z :=
  if Z.shiftr n 32 =? 0xFFFF then Some (Z.land n 0xFFFFFFFF) else None.
Definition sixtofour (n : Z) : option Z :=
  if Z.shiftr n 112 =? 0x2002 then Some (Z.land (Z.shiftr n 80) 0xFFFFFFFF) else None.
Definition teredo (n : Z) : option (Z * Z) :=
  if Z.shiftr n 96 =? 0x20010000
  then Some (Z.land (Z.shiftr n 64) 0xFFFFFFFF, Z.land (Z.lnot n) 0xFFFFFFFF) else None.

(** A network: its width, its prefix length and its prefix bits. *)
Record net := Net { net_width : Z; net_len : Z; net_bits : Z }.
Definition in_net (n : Z) (w : net) : bool := Z.shiftr n (net_width w - net_len w) =? net_bits w.

Definition net4 (a b c d len : Z) : net :=
  Net 32 len (Z.shiftr (((a * 256 + b) * 256 + c) * 256 + d) (32 - len)).
(** An IPv6 network given by its two first groups of 32 bits. *)
Definition net6 (hi lo len : Z) : net := Net 128 len (Z.shiftr (Z.shiftl hi 96 + Z.shiftl lo 64) (128 - len)).

Definition _REFUSED_V4 : list net :=
  [net4 0 0 0 0 8; net4 10 0 0 0 8; net4 100 64 0 0 10; net4 127 0 0 0 8; net4 169 254 0 0 16;
   net4 172 16 0 0 12; net4 192 0 0 0 24; net4 192 0 2 0 24; net4 192 88 99 0 24;
   net4 192 168 0 0 16; net4 198 18 0 0 15; net4 198 51 100 0 24; net4 203 0 113 0 24;
   net4 224 0 0 0 4; net4 240 0 0 0 4].
Definition _REFUSED_V6 : list net :=
  [net6 0 0 96; net6 0x0064ff9b 0x00010000 48; net6 0x01000000 0 64; net6 0x20010000 0 23;
   net6 0x20010db8 0 32; net6 0xfc000000 0 7; net6 0xfe800000 0 10; net6 0xfec00000 0 10;
   net6 0xff000000 0 8].
Definition _NAT64 : net := net6 0x0064ff9b 0 96.

Definition _METADATA_NAMES : list (list Z) :=
  u <$> ["metadata"; "metadata.google.internal"; "metadata.goog"; "metadata.azure.internal";
         "instance-data"; "instance-data.ec2.internal"].

Section Policy.
Context `{Std}.

(** The tail of [_ip_refused], after the embedded addresses. *)
Definition flags_refused (a : ip) (loopback : bool) : bool :=
  if loopback && is_loopback a then false
  else if negb (is_global a) || is_multicast a || is_unspecified a || is_loopback a
          || is_link_local a || is_private a || is_reserved a then true
  else match a with
       | V4 n => existsb (in_net n) _REFUSED_V4
       | V6 n _ => existsb (in_net n) _REFUSED_V6
       end.

Definition v4_refused (n : Z) : bool := flags_refused (V4 n) false.

Definition embedded (n : Z) : list Z :=
  match sixtofour n with Some e => [e] | None => [] end
  ++ match teredo n with Some (a, b) => [a; b] | None => [] end.

Definition _ip_refused (a : ip) (loopback : bool) : bool :=
  match a with
  | V4 _ => flags_refused a loopback
  | V6 n scope_id =>
      if scope_id then true
      else match ipv4_mapped n with
           | Some m => v4_refused m
           | None =>
               if in_net n _NAT64 then v4_refused (Z.land n 0xFFFFFFFF)
               else if existsb v4_refused (embedded n) then true
               else flags_refused a loopback
           end
  end.

(** [_address_refused]: [None] is an answer that is not a [str]. *)
Definition _address_refused (address : option (list Z)) (loopback : bool) : bool :=
  match address with
  | None => true
  | Some s => match ip_address s with None => true | Some a => _ip_refused a loopback end
  end.
End Policy.

(** ** URLs *)

Definition _DEFAULT_PORTS (scheme : list Z) : option Z :=
  if bool_decide (scheme = u "http") then Some 80
  else if bool_decide (scheme = u "https") then Some 443 else None.

Definition bad_char (c : Z) : bool :=
  (c <=? 0x20) || (c =? 0x7F) || mem_chars (u "\<>`{|}^" ++ [34]) c.
Definition _BAD_CHARS (s : list Z) : bool := existsb bad_char s.

Definition scheme_char (c : Z) : bool := is_alpha c || is_digit c || mem_chars (u "+.-") c.

(** [_URL.fullmatch]: the scheme, the authority and the rest without its fragment.  The
    classes never contain the delimiter that follows, so the match is the greedy one. *)
Definition _URL (s : list Z) : option (list Z * list Z * list Z) :=
  let (scheme, r) := span scheme_char s in
  match scheme with
  | c :: _ =>
      if is_alpha c && starts_with (u "://") r then
        let (authority, r) := span (fun c => negb (mem_chars (u "/?#") c)) (drop 3 r) in
        let (rest, _) := span (fun c => negb (c =? chr "#")) r in
        Some (scheme, authority, rest)
      else None
  | [] => None
  end.

Definition path_char (c : Z) : bool := is_alpha c || is_digit c || mem_chars (u "-._~!$&'()*+,;=:@/%") c.
Definition query_char (c : Z) : bool := path_char c || (c =? chr "?").

(** [_BAD_ESCAPE.search]. *)
Fixpoint _BAD_ESCAPE (s : list Z) : bool :=
  match s with
  | [] => false
  | c :: s' =>
      (c =? chr "%") && negb (match s' with a :: b :: _ => is_hex a && is_hex b | _ => false end)
      || _BAD_ESCAPE s'
  end.

(** Some escape of the list occurs; the alternatives are given in lower case. *)
Fixpoint has_escape (codes : list (list Z)) (s : list Z) : bool :=
  match s with
  | [] => false
  | c :: s' =>
      (c =? chr "%") && existsb (fun code => bool_decide (lower (take 2 s') = code)) codes
      || has_escape codes s'
  end.
Definition _ENCODED_SEPARATOR : list Z -> bool := has_escape [u "2f"; u "5c"].
Definition _PATH_PARAMS (s : list Z) : bool := existsb (Z.eqb (chr ";")) s || has_escape [u "3b"] s.
Definition _AMBIGUOUS_ESCAPE : list Z -> bool := has_escape [u "25"; u "00"].

Definition hex_value (c : Z) : Z :=
  if is_digit c then c - 48 else if c <? 97 then c - 55 else c - 87.

(** [unquote] of ASCII text, before the UTF-8 decoding of the bytes (which maps a byte
    sequence to dots only when it is dots). *)
Fixpoint unquote_bytes (s : list Z) : list Z :=
  match s with
  | [] => []
  | c :: s' =>
      match s' with
      | a :: b :: s'' =>
          if (c =? chr "%") && is_hex a && is_hex b
          then hex_value a * 16 + hex_value b :: unquote_bytes s''
          else c :: unquote_bytes s'
      | _ => c :: unquote_bytes s'
      end
  end.

Definition all_dots (s : list Z) : bool := negb (bool_decide (s = [])) && forallb (Z.eqb (chr ".")) s.

Definition _check_path (path : list Z) : result http_exn unit :=
  if _ENCODED_SEPARATOR path then blocked "the URL path contains an encoded '/' or '\'"
  else if _PATH_PARAMS path then blocked "the URL path contains ';' (path parameters are not allowed)"
  else if _AMBIGUOUS_ESCAPE path then blocked "the URL path contains '%25' or '%00'"
  else if existsb (fun seg => all_dots (unquote_bytes seg)) (split_on (chr "/") path)
  then blocked "the URL path contains '.' or '..' segments"
  else Ok tt.

Section Url.
Context `{Std}.

Definition label_char (c : Z) : bool := is_lower c || is_digit c || (c =? chr "-").
(** [_LABEL.fullmatch]. *)
Definition _LABEL (l : list Z) : bool :=
  negb (bool_decide (l = [])) && (length l <=? 63)%nat && forallb label_char l
  && negb (starts_with (u "-") l) && negb (List.last l 0 =? chr "-").

Definition hex_lower (c : Z) : bool := is_digit c || ((97 <=? c) && (c <=? 102)).
(** [_NUMERIC_LABEL.fullmatch]. *)
Definition _NUMERIC_LABEL (l : list Z) : bool :=
  (starts_with (u "0x") l && forallb hex_lower (drop 2 l))
  || (negb (bool_decide (l = [])) && forallb is_digit l).

Definition _hostname (raw : list Z) : result http_exn (list Z) :=
  if bool_decide (raw = []) then blocked "the URL has no host"
  else if mem_chars raw (chr "%") then blocked "percent-encoded hosts are not allowed"
  else
    raw ← (if negb (isascii raw)
           then match idna raw with
                | Some r => Ok r
                | None => blocked "the URL host is not a valid hostname"
                end
           else Ok raw);
    let host := lower raw in
    let labels := split_on (chr ".") host in
    if (253 <? length host)%nat || negb (forallb _LABEL labels)
    then blocked "the URL host is not a valid hostname"
    else if bool_decide (host ∈ _METADATA_NAMES) then blocked "cloud metadata hosts are never allowed"
    else Ok host.

(** The end of [_authority]: the port, from what follows the host. *)
Definition authority_port (host after : list Z) (is_ip : bool) : result http_exn (list Z * option Z * bool * bool) :=
  match after with
  | [] => Ok (host, None, false, is_ip)
  | c :: digits =>
      if negb ((c =? chr ":") && (1 <=? length digits)%nat && (length digits <=? 5)%nat
               && forallb is_digit digits)
         || negb ((0 <? dec_value digits) && (dec_value digits <? 65536))
      then blocked "the URL port is not valid"
      else Ok (host, Some (dec_value digits), true, is_ip)
  end.

Definition _authority (authority : list Z) : result http_exn (list Z * option Z * bool * bool) :=
  if mem_chars authority (chr "@") then blocked "credentials in the URL are not allowed"
  else if starts_with (u "[") authority then
    let (before, closing) := span (fun c => negb (c =? chr "]")) authority in
    match closing with
    | [] => blocked "malformed IPv6 address in the URL"
    | _ :: after =>
        let literal := drop 1 before in
        if mem_chars literal (chr "%") then blocked "IPv6 zone identifiers are not allowed"
        else match parse_v6 literal with
             | None => blocked "malformed IPv6 address in the URL"
             | Some (n, sc) => authority_port (str_v6 n sc) after true
             end
    end
  else
    let '(raw, sep, port_text) := partition (chr ":") authority in
    let after := if sep then chr ":" :: port_text else [] in
    host ← _hostname raw;
    if _NUMERIC_LABEL (last_piece (chr ".") host) then
      if bool_decide (str_v4 <$> parse_v4 host = Some host) then authority_port host after true
      else blocked "a numeric host must be a canonical dotted-decimal IPv4 address"
    else authority_port host after false.

Record _Target := Target {
  scheme : list Z; host : list Z; port : Z; explicit_port : bool;
  path : list Z; query : list Z; is_ip : bool }.

Definition origin (t : _Target) : list Z * list Z * Z := (scheme t, host t, port t).

Definition netloc (t : _Target) : list Z :=
  let h := if mem_chars (host t) (chr ":") then u "[" ++ host t ++ u "]" else host t in
  if bool_decide (Some (port t) = _DEFAULT_PORTS (scheme t)) then h
  else h ++ u ":" ++ u (str_of_int (port t)).

Definition request_target (t : _Target) : list Z :=
  if bool_decide (query t = []) then path t else path t ++ u "?" ++ query t.

Definition url (t : _Target) : list Z := scheme t ++ u "://" ++ netloc t ++ request_target t.

Definition _parse (url : pyval) (schemes : list (list Z)) (max_length : Z) : result http_exn _Target :=
  match url with
  | PStr url =>
      if max_length <? Z.of_nat (length url) then blocked "the URL is too long"
      else if _BAD_CHARS url
      then blocked "the URL contains whitespace or characters that are not allowed"
      else match _URL url with
      | None => blocked "not an absolute URL"
      | Some (g1, g2, rest) =>
          let scheme := lower g1 in
          if negb (bool_decide (scheme ∈ schemes)) then blocked "the URL scheme is not allowed"
          else match _DEFAULT_PORTS scheme with
          | None => blocked "the URL scheme is not allowed"
          | Some default =>
              a ← _authority g2;
              let '(host, port, explicit, is_ip) := a in
              let port := match port with Some p => p | None => default end in
              if negb (isascii rest) then blocked "the URL path must be ASCII (percent-encode it)"
              else
                let '(path, _, query) := partition (chr "?") rest in
                let path := if bool_decide (path = []) then u "/" else path in
                if negb (starts_with (u "/") path) || negb (forallb path_char path)
                then blocked "the URL path contains characters that are not allowed"
                else if negb (forallb query_char query)
                then blocked "the URL query contains characters that are not allowed"
                else if _BAD_ESCAPE path || _BAD_ESCAPE query
                then blocked "the URL contains a malformed percent escape"
                else _ ← _check_path path;
                     Ok (Target scheme host port explicit path query is_ip)
          end
      end
  | _ => blocked "the URL must be a string"
  end.

(** ** The allow-list *)

Record _Entry := Entry {
  e_scheme : option (list Z); e_host : list Z; e_port : option Z; e_prefix : list Z }.

Definition matches (e : _Entry) (t : _Target) : bool :=
  (match e_scheme e with Some s => bool_decide (s = scheme t) | None => true end)
  && bool_decide (e_host e = host t)
  && bool_decide (Some (port t) = match e_port e with Some p => Some p | None => _DEFAULT_PORTS (scheme t) end)
  && (if bool_decide (e_prefix e = u "/") then true
      else let base := rstrip (chr "/") (e_prefix e) in
           bool_decide (path t = base) || starts_with (base ++ u "/") (path t)).

Definition _entry (spec : pyval) : result exn _Entry :=
  match spec with
  | PStr s =>
      if bool_decide (s = []) then Err (TypeError "each allow entry must be a non-empty string")
      else
        let explicit_scheme := contains (u "://") s in
        let url := if explicit_scheme then s else u "https://" ++ s in
        match _parse (PStr url) [u "http"; u "https"] 2048 with
        | Err _ => Err (ValueError "invalid allow entry")
        | Ok t =>
            if negb (bool_decide (query t = []))
            then Err (ValueError "invalid allow entry: no query string allowed")
            else Ok (Entry (if explicit_scheme then Some (scheme t) else None) (host t)
                           (if explicit_port t then Some (port t) else None) (path t))
        end
  | _ => Err (TypeError "each allow entry must be a non-empty string")
  end.
End Url.

(** ** Request headers *)

Definition _RESERVED_REQUEST_HEADERS : list (list Z) :=
  u <$> ["host"; "content-length"; "transfer-encoding"; "connection"; "accept-encoding"; "te";
         "upgrade"; "trailer"; "keep-alive"; "proxy-connection"].
Definition token_char (c : Z) : bool := is_alpha c || is_digit c || mem_chars (u "!#$%&'*+-.^_`|~") c.
Definition _TOKEN (s : list Z) : bool := negb (bool_decide (s = [])) && forallb token_char s.
Definition value_char (c : Z) : bool := (c =? 9) || ((0x20 <=? c) && (c <=? 0x7E)).
Definition _HEADER_VALUE (s : list Z) : bool := forallb value_char s.
Definition _MAX_HEADER_VALUE : nat := 1024.

Definition header : Type := list Z * list Z.

Fixpoint check_headers_loop (items : list (pyval * pyval)) (fixed : list header)
  : result exn (list header) :=
  match items with
  | [] => Ok fixed
  | (PStr name, value) :: items' =>
      if negb (_TOKEN name) then Err (ValueError "invalid header name")
      else if bool_decide (lower name ∈ _RESERVED_REQUEST_HEADERS)
      then Err (ValueError "header is set by http_fetch itself")
      else match value with
           | PStr v =>
               if negb (_HEADER_VALUE v) then Err (ValueError "invalid value for header")
               else check_headers_loop items'
                      (if bool_decide (lower name = u "user-agent") then <[0%nat := (name, v)]> fixed
                       else fixed ++ [(name, v)])
           | _ => Err (ValueError "invalid value for header")
           end
  | _ :: _ => Err (ValueError "invalid header name")
  end.

Definition _check_headers (headers : list (pyval * pyval)) (user_agent : list Z)
  : result exn (list header) :=
  check_headers_loop headers
    [(u "User-Agent", user_agent); (u "Accept-Encoding", u "identity"); (u "Connection", u "close")].

(** ** The tool and its validation *)

Inductive redirect_policy := SameOrigin | AllowList | Never.

Record fetch := Fetch {
  _entries : list _Entry; _schemes : list (list Z); _headers : list header;
  _timeout : spec_float; _max_response_bytes : Z; _max_url_length : Z; _max_redirects : Z;
  _redirects : redirect_policy; _response_text : bool; _response_headers : list (list Z);
  _allow_loopback : bool }.

(** [value <= 0] of a number. *)
Definition float_le_zero (f : spec_float) : bool :=
  match f with
  | S754_zero _ => true | S754_infinity s => s | S754_finite s _ _ => s | S754_nan => false
  end.
Definition positive_number (v : pyval) : bool :=
  match v with PInt z => 0 <? z | PFloat f => negb (float_le_zero f) | _ => false end.

(** [float(v)] and [int(v)] of a number. *)
Definition to_float (v : pyval) : result exn spec_float :=
  match v with PInt z => float_of_int z | PFloat f => Ok f | _ => Err (TypeError "not a number") end.
Definition to_int (v : pyval) : result exn Z :=
  match v with
  | PInt z => Ok z
  | PFloat (S754_zero _) => Ok 0
  | PFloat (S754_finite s m e) =>
      let a := if 0 <=? e then Z.pos m * 2 ^ e else Z.pos m / 2 ^ (- e) in
      Ok (if s then - a else a)
  | PFloat (S754_infinity _) => Err (OverflowError "cannot convert float infinity to integer")
  | PFloat S754_nan => Err (ValueError "cannot convert float NaN to integer")
  | _ => Err (TypeError "not a number")
  end.

Fixpoint mapM_entries `{Std} (specs : list pyval) : result exn (list _Entry) :=
  match specs with
  | [] => Ok []
  | s :: specs' => e ← _entry s; es ← mapM_entries specs'; Ok (e :: es)
  end.

Inductive str_or_list (A : Type) := AStr | AList (l : list A).
Arguments AStr {A}.
Arguments AList {A} l.

Definition default_schemes : list (list Z) := [u "http"; u "https"].

(** [HttpFetch.__init__], in its order. *)
Definition fetch_init `{Std} (allow : str_or_list pyval) (schemes : str_or_list (list Z))
    (headers : list (pyval * pyval)) (timeout max_response_bytes max_url_length max_redirects : pyval)
    (redirects response : list Z) (response_headers : list (list Z)) (user_agent : list Z)
  : result exn fetch :=
  match allow with
  | AStr => Err (TypeError "allow must be a list of entries, not a single string")
  | AList specs =>
      entries ← mapM_entries specs;
      _ ← raise_if (bool_decide (entries = [])) (ValueError "allow must name at least one host");
      match schemes with
      | AStr => Err (TypeError "schemes must be a list, e.g. ['https']")
      | AList schemes =>
          let scheme_set := lower <$> schemes in
          _ ← raise_if (bool_decide (scheme_set = []) ||
                        negb (forallb (fun s => bool_decide (s ∈ default_schemes)) scheme_set))
                (ValueError "schemes must be a non-empty subset of {'https', 'http'}");
          _ ← raise_if (existsb (fun e => match e_scheme e with
                          | Some s => negb (bool_decide (s ∈ scheme_set)) | None => false end) entries)
                (ValueError "allow entry uses a scheme which is not in schemes");
          hs ← _check_headers headers user_agent;
          _ ← raise_if (negb (positive_number timeout)) (ValueError "timeout must be a positive number");
          _ ← raise_if (negb (positive_number max_response_bytes))
                (ValueError "max_response_bytes must be a positive number");
          _ ← raise_if (negb (positive_number max_url_length))
                (ValueError "max_url_length must be a positive number");
          match max_redirects with
          | PInt n =>
              _ ← raise_if (n <? 0) (ValueError "max_redirects must be non-negative");
              policy ← (if bool_decide (redirects = u "same-origin") then Ok SameOrigin
                        else if bool_decide (redirects = u "allow-list") then Ok AllowList
                        else if bool_decide (redirects = u "never") then Ok Never
                        else Err (ValueError "redirects must be 'same-origin', 'allow-list' or 'never'"));
              _ ← raise_if (negb (bool_decide (response = u "text")) && negb (bool_decide (response = u "bytes")))
                    (ValueError "response must be 'text' or 'bytes'");
              t ← to_float timeout;
              b ← to_int max_response_bytes;
              l ← to_int max_url_length;
              Ok (Fetch entries scheme_set hs t b l n policy (bool_decide (response = u "text"))
                        (lower <$> response_headers) false)
          | _ => Err (TypeError "max_redirects must be an int")
          end
      end
  end.

(** ** What the network does

    One [hop] per request: the outcome of the lookup, of connecting to each address, and
    the exchange.  [transport_exc] is the class of an exception [_transport_error]
    distinguishes, with whether the deadline had passed by then. *)
Inductive transport_exc := ExTimeout | ExCert | ExSSL | ExHttp | ExOther.

Inductive dns_outcome :=
| DnsTooMany                                   (* [_DnsPool.submit] refused *)
| DnsTimeout                                   (* [future.result] timed out *)
| DnsHttpError (e : http_exn)                  (* e.g. the deadline, before waiting *)
| DnsFailed                                    (* the resolver raised *)
| DnsAnswers (answers : list (option (list Z))).

Inductive conn_outcome := ConnDeadline | ConnError (e : transport_exc) | ConnOk.

(** One turn of the read loop: what [deadline.remaining()] and [read1] did. *)
Inductive read_event :=
| RdDeadline
| RdData (bs : list Z)
| RdEof (passed : bool) (missing : bool)       (* [missing]: [resp.length] still positive *)
| RdIncomplete (passed : bool) (partial : list Z)
| RdError (e : transport_exc) (passed : bool).

Inductive reply :=
| ReplyError (e : transport_exc) (passed : bool)
| Reply (status : Z) (location : option (list Z)) (resp_headers : list header)
        (body : list read_event) (charset : option (list Z)).

Record hop := Hop {
  h_dns : dns_outcome; h_connect : list Z -> conn_outcome; h_passed : bool; h_reply : reply }.

Definition timed_out : http_exn := HttpFetchTimeout "the request timed out".

Definition _transport_error (e : transport_exc) (passed : bool) : http_exn :=
  match e with
  | ExTimeout => timed_out
  | _ => if passed then timed_out
         else match e with
              | ExCert => HttpFetchFailed "the server's TLS certificate could not be verified"
              | ExSSL => HttpFetchFailed "the TLS handshake failed"
              | ExHttp => HttpFetchFailed "the server sent an invalid HTTP response"
              | _ => HttpFetchFailed "the connection failed"
              end
  end.

(** What goes out: a connection attempt to an address and port, and a request with its
    headers on an open connection. *)
Inductive event :=
| EvConnect (t : _Target) (addr : list Z)
| EvSend (t : _Target) (addr : list Z) (hs : list header).

Record _Response := Response {
  status : Z; resp_headers : list header; body : list Z; truncated : bool; charset : option (list Z) }.

Definition _REDIRECTS : list Z := [301; 302; 303; 307; 308].

(** [_read]'s loop, on the chunks so far and their total.  [None]: still reading. *)
Fixpoint read_body (cap : Z) (evs : list read_event) (chunks : list Z) (total : Z)
  : option (result http_exn (list Z * bool)) :=
  match evs with
  | [] => None
  | RdDeadline :: _ => Some (Err timed_out)
  | RdError e passed :: _ => Some (Err (_transport_error e passed))
  | RdIncomplete passed partial :: _ =>
      Some (if passed then Err timed_out
            else Ok (chunks ++ take (Z.to_nat (cap - total)) partial, true))
  | RdEof passed missing :: _ => Some (if passed then Err timed_out else Ok (chunks, missing))
  | RdData bs :: evs' =>
      let total' := total + Z.of_nat (length bs) in
      if cap <? total'
      then Some (Ok (chunks ++ take (Z.to_nat (Z.of_nat (length bs) - (total' - cap))) bs, true))
      else read_body cap evs' (chunks ++ bs) total'
  end.

Section Pipeline.
Context `{Std} (f : fetch).

Definition _target (url : pyval) : result http_exn _Target :=
  t ← _parse url (_schemes f) (_max_url_length f);
  if negb (existsb (fun e => matches e t) (_entries f)) then blocked "the URL is not in the allow-list"
  else Ok t.

(** The part of a relative reference before its query and fragment. *)
Definition reference_path (location : list Z) : list Z :=
  (span (fun c => negb (mem_chars (u "?#") c)) location).1.

Definition _redirect (current : _Target) (origin0 : list Z * list Z * Z) (location : list Z)
  : result http_exn _Target :=
  location ← (if negb (_BAD_CHARS location) && isascii location then
                _ ← (if bool_decide (_URL location = None) && negb (starts_with (u "//") location)
                     then _check_path (reference_path location) else Ok tt);
                Ok (urljoin (url current) location)
              else Ok location);
  new ← _target (PStr location);
  if bool_decide (scheme current = u "https") && negb (bool_decide (scheme new = u "https"))
  then blocked "a redirect from https to http is not allowed"
  else if (match _redirects f with SameOrigin => true | _ => false end)
          && negb (bool_decide (origin new = origin0))
  then blocked "a redirect to a different host is not allowed"
  else Ok new.

(** The texts of the vetted answers, without repetitions, in order. *)
Fixpoint distinct (answers : list (option (list Z))) (seen : list (list Z)) : list (list Z) :=
  match answers with
  | [] => seen
  | Some a :: rest =>
      match ip_address a with
      | Some x => let text := str_ip x in
                  distinct rest (if bool_decide (text ∈ seen) then seen else seen ++ [text])
      | None => distinct rest seen   (* not reached: such an answer is refused *)
      end
  | None :: rest => distinct rest seen
  end.

Definition _vet (t : _Target) (h : hop) : result http_exn (list (list Z)) :=
  answers ← (if is_ip t then Ok [Some (host t)]
             else match h_dns h with
                  | DnsTooMany => Err (HttpFetchFailed "too many host name lookups are in progress; try again later")
                  | DnsTimeout => Err timed_out
                  | DnsHttpError e => Err e
                  | DnsFailed => Err (HttpFetchFailed "the host name could not be resolved")
                  | DnsAnswers answers => Ok answers
                  end);
  if bool_decide (answers = []) then Err (HttpFetchFailed "the host name could not be resolved")
  else if existsb (fun a => _address_refused a (_allow_loopback f)) answers
  then blocked "the host resolves to an address that is not allowed"
  else Ok (distinct answers []).

(** The connection loop of [_request]: the attempts made, and the address connected. *)
Fixpoint connect_loop (t : _Target) (h : hop) (addrs : list (list Z)) (last : transport_exc)
  : list event * result http_exn (list Z) :=
  match addrs with
  | [] => ([], Err (_transport_error last (h_passed h)))
  | a :: addrs' =>
      match h_connect h a with
      | ConnDeadline => ([], Err timed_out)
      | ConnOk => ([EvConnect t a], Ok a)
      | ConnError e => let r := connect_loop t h addrs' e in (EvConnect t a :: r.1, r.2)
      end
  end.

(** [_request]: what went out and its outcome; [None]: the body is still arriving. *)
Definition _request (t : _Target) (h : hop) (headers : list header) (follow : bool)
  : list event * option (result http_exn (_Response * option (list Z))) :=
  match _vet t h with
  | Err e => ([], Some (Err e))
  | Ok addresses =>
      let c := connect_loop t h addresses ExOther in
      match c.2 with
      | Err e => (c.1, Some (Err e))
      | Ok a =>
          let sent := c.1 ++ [EvSend t a ((u "Host", netloc t) :: headers)] in
          (sent, match h_reply h with
           | ReplyError e passed => Some (Err (_transport_error e passed))
           | Reply st location rhs evs cs =>
               let location := if follow then location else None in
               if bool_decide (st ∈ _REDIRECTS) && bool_decide (location <> None)
               then Some (Ok (Response st [] [] false None, location))
               else match read_body (_max_response_bytes f) evs [] 0 with
                    | None => None
                    | Some (Err e) => Some (Err e)
                    | Some (Ok (b, tr)) => Some (Ok (Response st rhs b tr cs, None))
                    end
           end)
      end
  end.

Definition _transport_headers : list header :=
  filter (fun h => lower h.1 ∈ [u "user-agent"; u "accept-encoding"; u "connection"]) (_headers f).

(** The result handed to the guest. *)
Record fetched := Fetched {
  r_status : Z; r_headers : list header; r_body : list Z; r_truncated : bool; r_url : list Z }.

Definition clean_value (v : list Z) : list Z :=
  take _MAX_HEADER_VALUE (filter (fun c => 32 <= c <= 126) v).

(** [headers[key] = ...] on a dict kept in insertion order. *)
Fixpoint merge_header (key value : list Z) (hs : list header) : list header :=
  match hs with
  | [] => [(key, value)]
  | (k, v) :: hs' => if bool_decide (k = key) then (k, v ++ u ", " ++ value) :: hs'
                     else (k, v) :: merge_header key value hs'
  end.

Definition result_headers (hs : list header) : list header :=
  fold_left (fun acc h => let key := lower h.1 in
    if bool_decide (key ∈ _response_headers f) then merge_header key (clean_value h.2) acc else acc) hs [].

Definition _result (t : _Target) (r : _Response) : fetched :=
  Fetched (status r) (result_headers (resp_headers r))
    (if _response_text f then decode_with (body r) (charset r) else body r) (truncated r) (url t).

(** The loop of [__call__], with the redirects still allowed. *)
Fixpoint call_loop (left : nat) (net : list hop) (origin0 : list Z * list Z * Z) (target : _Target)
  {struct net} : list event * option (result http_exn fetched) :=
  match net with
  | [] => ([], None)
  | h :: net' =>
      let fixed := if bool_decide (origin target = origin0) then _headers f else _transport_headers in
      let follow := match _redirects f with Never => false | _ => true end in
      let r := _request target h fixed follow in
      match r.2 with
      | None => (r.1, None)
      | Some (Err e) => (r.1, Some (Err e))
      | Some (Ok (resp, None)) => (r.1, Some (Ok (_result target resp)))
      | Some (Ok (_, Some location)) =>
          match left with
          | O => (r.1, Some (blocked "too many redirects"))
          | S left' =>
              match _redirect target origin0 location with
              | Err e => (r.1, Some (Err e))
              | Ok target' => let r' := call_loop left' net' origin0 target' in (r.1 ++ r'.1, r'.2)
              end
          end
      end
  end.

Definition call_fetch (url : pyval) (net : list hop) : list event * option (result http_exn fetched) :=
  match _target url with
  | Err e => ([], Some (Err e))
  | Ok target => call_loop (Z.to_nat (_max_redirects f)) net (origin target) target
  end.
End Pipeline.

(** ** The lookup pool

    Each caller, the finishing lookups and the cancellations are steps; [in_flight] are
    the lookups submitted and not yet ended, which [pending] counts. *)
Record dns_pool := DnsPool { limit : Z; pending : Z; in_flight : Z }.

Definition dns_init (threads max_pending : Z) : dns_pool := DnsPool (Z.max max_pending threads) 0 0.

(** [submit]: refused, failed in the executor (counted back), or running. *)
Definition submit (p : dns_pool) (executor_ok : bool) : result http_exn dns_pool :=
  if limit p <=? pending p
  then Err (HttpFetchFailed "too many host name lookups are in progress; try again later")
  else let p := DnsPool (limit p) (pending p + 1) (in_flight p) in
       Ok (if executor_ok then DnsPool (limit p) (pending p) (in_flight p + 1)
           else DnsPool (limit p) (pending p - 1) (in_flight p)).

Definition _done (p : dns_pool) : dns_pool := DnsPool (limit p) (pending p - 1) (in_flight p - 1).

Inductive dns_reachable (threads max_pending : Z) : dns_pool -> Prop :=
| DnsStart : dns_reachable threads max_pending (dns_init threads max_pending)
| DnsSubmit p ok p' : dns_reachable threads max_pending p -> submit p ok = Ok p' ->
    dns_reachable threads max_pending p'
| DnsDone p : dns_reachable threads max_pending p -> 0 < in_flight p ->
    dns_reachable threads max_pending (_done p).
