(* ===== verification/HttpFetchProps.v ===== *)
(** * Properties of the HTTP tool

    Server-side request forgery safety of [HttpFetch]: which addresses are refused,
    which connections a call can make and what it sends on them, what the path prefix of
    an allow entry means, how much is read, and the bounds of the lookup pool. *)

From S2P Require Import Prelude Utf8 PyVal PyStr HttpFetch.
From Stdlib Require Import Floats.SpecFloat.

(** ** Addresses *)

(** The specification: ranges of special-purpose IPv4 and IPv6 addresses, by their first
    and last address, that no connection may go to. *)
Definition dotted (a b c d : Z) : Z := ((a * 256 + b) * 256 + c) * 256 + d.

Definition special_v4 : list (Z * Z) :=
  [(dotted 0 0 0 0, dotted 0 255 255 255); (dotted 10 0 0 0, dotted 10 255 255 255); (dotted 100 64 0 0, dotted 100 127 255 255);
   (dotted 127 0 0 0, dotted 127 255 255 255); (dotted 169 254 0 0, dotted 169 254 255 255); (dotted 172 16 0 0, dotted 172 31 255 255);
   (dotted 192 0 0 0, dotted 192 0 0 255); (dotted 192 0 2 0, dotted 192 0 2 255); (dotted 192 88 99 0, dotted 192 88 99 255);
   (dotted 192 168 0 0, dotted 192 168 255 255); (dotted 198 18 0 0, dotted 198 19 255 255); (dotted 198 51 100 0, dotted 198 51 100 255);
   (dotted 203 0 113 0, dotted 203 0 113 255); (dotted 224 0 0 0, dotted 239 255 255 255); (dotted 240 0 0 0, dotted 255 255 255 255)].

(** The addresses without a network and the IPv4-compatible ones (loopback and unspecified among
    them), local NAT64, discard, the IETF's and Teredo, documentation, unique local, link local,
    site local, multicast. *)
Definition special_v6 : list (Z * Z) :=
  [(0x0, 0xffffffff);
   (0x0064ff9b000100000000000000000000, 0x0064ff9b0001ffffffffffffffffffff);
   (0x01000000000000000000000000000000, 0x0100000000000000ffffffffffffffff);
   (0x20010000000000000000000000000000, 0x200101ffffffffffffffffffffffffff);
   (0x20010db8000000000000000000000000, 0x20010db8ffffffffffffffffffffffff);
   (0xfc000000000000000000000000000000, 0xfdffffffffffffffffffffffffffffff);
   (0xfe800000000000000000000000000000, 0xfebfffffffffffffffffffffffffffff);
   (0xfec00000000000000000000000000000, 0xfeffffffffffffffffffffffffffffff);
   (0xff000000000000000000000000000000, 0xffffffffffffffffffffffffffffffff)].

Definition outside (ranges : list (Z * Z)) (n : Z) : Prop := Forall (fun r => ~ (r.1 <= n <= r.2)) ranges.

(** The IPv4 addresses an IPv6 one stands for: mapped, NAT64, 6to4, both of Teredo. *)
Definition stands_for (n : Z) : list Z :=
  (if n / 2 ^ 32 =? 0xffff then [n mod 2 ^ 32] else [])
  ++ (if n / 2 ^ 32 =? 0x0064ff9b * 2 ^ 64 then [n mod 2 ^ 32] else [])
  ++ (if n / 2 ^ 112 =? 0x2002 then [n / 2 ^ 80 mod 2 ^ 32] else [])
  ++ (if n / 2 ^ 96 =? 0x20010000 then [n / 2 ^ 64 mod 2 ^ 32; 2 ^ 32 - 1 - n mod 2 ^ 32] else []).

(** An address of its own width a connection may go to. *)
Definition public (a : ip) : Prop :=
  match a with
  | V4 n => 0 <= n < 2 ^ 32 /\ outside special_v4 n
  | V6 n sc => 0 <= n < 2 ^ 128 /\ sc = false /\ outside special_v6 n /\ Forall (outside special_v4) (stands_for n)
  end.

(** The same with the code's networks. *)
Definition embedded_v4 (n : Z) : list Z :=
  match ipv4_mapped n with Some m => [m] | None => [] end
  ++ (if in_net n _NAT64 then [Z.land n 0xFFFFFFFF] else [])
  ++ embedded n.

Definition clear_of (nets : list net) (n : Z) : Prop := Forall (fun w => in_net n w = false) nets.

Definition cleared (a : ip) : Prop :=
  is_loopback a = false /\
  match a with
  | V4 n => clear_of _REFUSED_V4 n
  | V6 n sc => sc = false /\ clear_of _REFUSED_V6 n /\ Forall (clear_of _REFUSED_V4) (embedded_v4 n)
  end.

Definition net_range (w : net) : Z * Z :=
  let size := 2 ^ (net_width w - net_len w) in (net_bits w * size, net_bits w * size + size - 1).

Lemma in_net_range n w : 0 <= net_width w - net_len w -> in_net n w = true <-> (net_range w).1 <= n <= (net_range w).2.
Proof.
  intros Hk. unfold in_net, net_range. cbn. rewrite Z.eqb_eq, Z.shiftr_div_pow2 by done.
  assert (0 < 2 ^ (net_width w - net_len w)) by (apply Z.pow_pos_nonneg; lia). split; intros E; [|]; Z.to_euclidean_division_equations; nia.
Qed.

Lemma clear_outside nets ranges n : ranges = net_range <$> nets -> Forall (fun w => 0 <= net_width w - net_len w) nets -> clear_of nets n -> outside ranges n.
Proof.
  intros -> Hw Hc. unfold outside. apply Forall_fmap. eapply Forall_impl; [apply Forall_and; split; [exact Hw|exact Hc]|]. cbn. intros w [Hk Hn] Hr.
  apply in_net_range in Hr; [congruence|done].
Qed.

Lemma clear_v4 n : clear_of _REFUSED_V4 n -> outside special_v4 n.
Proof. apply clear_outside; [by vm_compute|repeat constructor; by vm_compute]. Qed.
Lemma clear_v6 n : clear_of _REFUSED_V6 n -> outside special_v6 n.
Proof. apply clear_outside; [by vm_compute|repeat constructor; by vm_compute]. Qed.

Lemma low_bits n : Z.land n 0xFFFFFFFF = n mod 2 ^ 32.
Proof. exact (Z.land_ones n 32 ltac:(lia)). Qed.

Lemma stands_for_embedded n : stands_for n = embedded_v4 n.
Proof.
  unfold stands_for, embedded_v4, embedded, ipv4_mapped, sixtofour, teredo, in_net. change (net_width _NAT64 - net_len _NAT64) with 32.
  change (net_bits _NAT64) with (0x0064ff9b * 2 ^ 64). rewrite !low_bits, !Z.shiftr_div_pow2 by lia.
  assert (E : Z.lnot n mod 2 ^ 32 = 2 ^ 32 - 1 - n mod 2 ^ 32) by (unfold Z.lnot; Z.to_euclidean_division_equations; lia). rewrite E.
  by repeat match goal with |- context [if ?b then _ else _] => destruct b end.
Qed.

(** An address of its width. *)
Definition ip_wide (a : ip) : Prop := match a with V4 n => 0 <= n < 2 ^ 32 | V6 n _ => 0 <= n < 2 ^ 128 end.

Lemma cleared_public a : ip_wide a -> cleared a -> public a.
Proof.
  destruct a as [n|n sc]; cbn; intros Hw [_ Hc]; [split; [done|by apply clear_v4]|]. destruct Hc as (-> & Hc & He).
  split; [done|]. split; [done|]. split; [by apply clear_v6|]. rewrite stands_for_embedded. eapply Forall_impl; [exact He|]. intros m. apply clear_v4.
Qed.

(** ** The text of an address *)

Lemma octet_texts : forallb (fun k => bool_decide (parse_octet (u (str_of_int k)) = Some k) && forallb is_digit (u (str_of_int k))) (seqZ 0 256) = true.
Proof. vm_compute. reflexivity. Qed.

Lemma octet_text k : 0 <= k < 256 -> parse_octet (u (str_of_int k)) = Some k /\ forallb is_digit (u (str_of_int k)) = true.
Proof.
  intros Hk. pose proof octet_texts as Ho. rewrite forallb_forall in Ho. specialize (Ho k). rewrite <- list_elem_of_In, elem_of_seqZ in Ho.
  apply andb_true_iff in Ho as [H1%bool_decide_eq_true H2]; [done|lia].
Qed.

Lemma split_plain sep s : ~ In sep s -> split_on sep s = [s].
Proof.
  induction s as [|c s IH]; intros Hn; [done|]. cbn [split_on]. destruct (Z.eqb_spec c sep) as [->|]; [exfalso; apply Hn; by left|].
  rewrite IH; [done|]. intros H. apply Hn. by right.
Qed.

Lemma digits_no_dot s : forallb is_digit s = true -> ~ In (chr ".") s.
Proof. rewrite forallb_forall. intros Hs Hi%Hs. vm_compute in Hi. discriminate. Qed.

Lemma parse_str_v4 n : 0 <= n < 2 ^ 32 -> parse_v4 (str_v4 n) = Some n.
Proof.
  intros Hn. unfold parse_v4, str_v4. rewrite !Z.shiftr_div_pow2 by lia.
  assert (Hb : forall k, 0 <= k mod 256 < 256) by (intros k; apply Z.mod_pos_bound; lia).
  destruct (octet_text _ (Hb (n / 2 ^ 24))) as [P1 D1], (octet_text _ (Hb (n / 2 ^ 16))) as [P2 D2], (octet_text _ (Hb (n / 2 ^ 8))) as [P3 D3], (octet_text _ (Hb n)) as [P4 D4].
  cbn [fmap list_fmap compose join]. rewrite !split_on_app, !split_plain by by apply digits_no_dot. cbn [app]. rewrite P1, P2, P3, P4. cbn. f_equal.
  Z.to_euclidean_division_equations; lia.
Qed.

Lemma existsb_false_Forall {A} (p : A -> bool) l : existsb p l = false <-> Forall (fun x => p x = false) l.
Proof.
  induction l as [|x l IH]; cbn; [split; [by constructor|done]|].
  rewrite orb_false_iff, IH, Forall_cons. done.
Qed.

Lemma clear_of_high nets n k : 0 <= k ->
  Forall (fun w => net_width w = 128 /\ net_len w <= 128 - k) nets ->
  Forall (fun w => (Z.shiftr (Z.shiftr n k) (128 - net_len w - k) =? net_bits w) = false) nets ->
  clear_of nets n.
Proof.
  intros Hk Hw Hn. unfold clear_of. eapply Forall_impl; [apply Forall_and; split; [exact Hw|exact Hn]|].
  cbn. intros w ((E & Hl) & Hb). unfold in_net. rewrite E.
  rewrite Z.shiftr_shiftr in Hb by lia. replace (128 - net_len w) with (k + (128 - net_len w - k)) by lia. done.
Qed.

Section WithStd.
Context `{Std}.

Lemma flags_clear a : flags_refused a false = false ->
  is_loopback a = false /\
  match a with V4 n => clear_of _REFUSED_V4 n | V6 n _ => clear_of _REFUSED_V6 n end.
Proof.
  unfold flags_refused. cbn [andb]. destruct (_ || _) eqn:E; [done|]. bool_prop.
  intros Hn. split; [done|]. destruct a; by apply existsb_false_Forall.
Qed.

Lemma v4_clear n : v4_refused n = false -> clear_of _REFUSED_V4 n.
Proof. intros Hn. by apply (flags_clear (V4 n)). Qed.

Lemma mapped_facts n m : ipv4_mapped n = Some m ->
  is_loopback (V6 n false) = false /\ clear_of _REFUSED_V6 n /\ in_net n _NAT64 = false /\ embedded n = [].
Proof.
  unfold ipv4_mapped. destruct (Z.eqb_spec (Z.shiftr n 32) 0xFFFF) as [E|]; [|done]. intros _.
  assert (Hs : forall k, 32 <= k -> Z.shiftr n k = Z.shiftr 0xFFFF (k - 32)).
  { intros k Hk. rewrite <- E, Z.shiftr_shiftr by lia. f_equal. lia. }
  split_and!.
  - cbn. apply Z.eqb_neq. intros ->. discriminate E.
  - apply (clear_of_high _ n 32); [lia| |]; rewrite ?E; repeat constructor; cbn; lia.
  - unfold in_net. change (net_width _NAT64 - net_len _NAT64) with 32. by rewrite E.
  - unfold embedded, sixtofour, teredo. by rewrite !Hs by lia.
Qed.

Lemma nat64_facts n : in_net n _NAT64 = true ->
  is_loopback (V6 n false) = false /\ clear_of _REFUSED_V6 n /\ embedded n = [].
Proof.
  unfold in_net. change (net_width _NAT64 - net_len _NAT64) with 32. change (net_bits _NAT64) with 122099644659926101980610560.
  intros E%Z.eqb_eq.
  assert (Hs : forall k, 32 <= k -> Z.shiftr n k = Z.shiftr 122099644659926101980610560 (k - 32)).
  { intros k Hk. rewrite <- E, Z.shiftr_shiftr by lia. f_equal. lia. }
  split_and!.
  - cbn. apply Z.eqb_neq. intros ->. discriminate E.
  - apply (clear_of_high _ n 32); [lia| |]; rewrite ?E; repeat constructor; cbn; lia.
  - unfold embedded, sixtofour, teredo. by rewrite !Hs by lia.
Qed.

Lemma ip_refused_cleared a : _ip_refused a false = false -> cleared a.
Proof.
  destruct a as [n|n sc]; cbn [_ip_refused].
  - intros Hr. by apply flags_clear in Hr.
  - destruct sc; [done|]. unfold cleared, embedded_v4.
    destruct (ipv4_mapped n) as [m|] eqn:Em.
    { intros Hm%v4_clear. destruct (mapped_facts n m Em) as (H1 & H2 & -> & ->).
      split_and!; try done. by apply Forall_singleton. }
    destruct (in_net n _NAT64) eqn:En.
    { intros Hm%v4_clear. destruct (nat64_facts n En) as (H1 & H2 & ->).
      split_and!; try done. by apply Forall_singleton. }
    destruct (existsb v4_refused _) eqn:Ee; [done|]. intros [Hl Hc]%flags_clear.
    split_and!; try done. cbn [app]. apply existsb_false_Forall in Ee.
    exact (Forall_impl _ _ _ Ee v4_clear).
Qed.

(** What [ip_address] gives is an address of its width, and its text is read as that address. *)
Lemma octet_range s k : parse_octet s = Some k -> 0 <= k < 256 /\ forallb is_digit s = true.
Proof.
  unfold parse_octet. destruct (_ || _) eqn:E; [done|]. bool_prop. destruct (255 <? dec_value s) eqn:Ev; [done|]. bool_prop. intros [= <-].
  split; [|done]. split; [|lia]. unfold dec_value. assert (Hg : forall l acc, forallb is_digit l = true -> 0 <= acc -> 0 <= fold_left (fun acc c => acc * 10 + (c - 48)) l acc).
  { induction l as [|c l IH]; intros acc Hl Ha; cbn; [done|]. cbn in Hl. unfold is_digit in Hl at 1. bool_prop. apply IH; [done|lia]. }
  by apply Hg.
Qed.

Lemma parse_v4_facts s n : parse_v4 s = Some n -> 0 <= n < 2 ^ 32 /\ ~ In (chr ":") s.
Proof.
  unfold parse_v4. pose proof (join_split (chr ".") s) as Hj. destruct (split_on _ s) as [|a [|b [|c [|d [|? ?]]]]]; try done.
  intros E. apply bind_Some in E as (ka & [Ha Da]%octet_range & E). apply bind_Some in E as (kb & [Hb Db]%octet_range & E).
  apply bind_Some in E as (kc & [Hc Dc]%octet_range & E). apply bind_Some in E as (kd & [Hd Dd]%octet_range & [= <-]). split; [lia|].
  assert (Hn : forall l, forallb is_digit l = true -> ~ In (chr ":") l) by (intros l; rewrite forallb_forall; intros Hl Hi%Hl; by vm_compute in Hi).
  rewrite <- Hj. cbn [join]. intros Hin. repeat (apply in_app_or in Hin as [Hin|Hin]; [by eapply Hn in Hin|]; destruct Hin as [Hin|Hin]; [by vm_compute in Hin|]). by eapply Hn in Hin.
Qed.

Lemma ip_address_text `{!StdLaws} s x : ip_address s = Some x -> ip_wide x /\ ip_address (str_ip x) = Some x.
Proof.
  unfold ip_address. destruct (parse_v4 s) as [n|] eqn:E4; cbn.
  - intros [= <-]. apply parse_v4_facts in E4 as [Hn _]. split; [done|]. cbn [str_ip]. by rewrite parse_str_v4.
  - destruct (parse_v6 s) as [[n sc]|] eqn:E6; [|done]. intros [= <-]. cbn. split; [by eapply parse_v6_range|].
    destruct (parse_v4 (str_v6 n sc)) as [m|] eqn:E; [|by rewrite (parse_str_v6 s n sc E6)]. apply parse_v4_facts in E as [_ E]. exfalso. by eapply E, str_v6_colon.
Qed.

(** ** Parsed URLs *)

Lemma parse_inv url sch len t : _parse url sch len = Ok t ->
  In (scheme t) sch /\ starts_with (u "/") (path t) = true /\ forallb path_char (path t) = true /\
  forallb query_char (query t) = true /\ _check_path (path t) = Ok tt.
Proof.
  unfold _parse, blocked. intros Hp. destruct url as [| | | | |s| | | | | |]; try discriminate Hp.
  destruct (_ <? _); [discriminate Hp|]. destruct (_BAD_CHARS s); [discriminate Hp|].
  destruct (_URL s) as [[[g1 g2] rest]|]; [|discriminate Hp]. cbv zeta in Hp.
  destruct (negb _) eqn:Es in Hp; [discriminate Hp|].
  destruct (_DEFAULT_PORTS (lower g1)) as [default|]; [|discriminate Hp].
  apply result_bind_ok in Hp as ([[[h p] ex] i] & _ & Hp).
  destruct (isascii rest); [|discriminate Hp]. cbn [negb] in Hp.
  destruct (partition _ rest) as [[pa b] q].
  destruct (_ || _) eqn:E1 in Hp; [discriminate Hp|].
  destruct (forallb query_char q) eqn:E2; [|discriminate Hp]. cbn [negb] in Hp.
  destruct (_ || _) in Hp; [discriminate Hp|].
  apply result_bind_ok in Hp as ([] & Hc & Hp). apply Ok_inj in Hp as <-. cbn.
  apply orb_false_iff in E1 as [E3 E4]. apply negb_false_iff in E3, E4, Es.
  apply bool_decide_eq_true, list_elem_of_In in Es. done.
Qed.

(** ** What a call does on the network *)

Section Trace.
Context (f : fetch).

(** An address text that passed the policy. *)
Definition vetted (a : list Z) : Prop :=
  exists s x, ip_address s = Some x /\ a = str_ip x /\ _ip_refused x (_allow_loopback f) = false.

(** A text [ipaddress] reads as a public address. *)
Definition goes_public (a : list Z) : Prop := exists x, ip_address a = Some x /\ public x.

Lemma vetted_public `{!StdLaws} a : _allow_loopback f = false -> vetted a -> goes_public a.
Proof.
  intros Hl (s & x & Hx & -> & Hr). rewrite Hl in Hr. apply ip_address_text in Hx as [Hw Ht]. exists x. split; [done|]. by apply cleared_public, ip_refused_cleared.
Qed.

(** A target the allow-list and the schemes admit. *)
Definition allowed (t : _Target) : Prop :=
  In (scheme t) (_schemes f) /\ exists e, In e (_entries f) /\ matches e t = true.

Definition ev_target (ev : event) : _Target := match ev with EvConnect t _ => t | EvSend t _ _ => t end.

(** What one event of a call that started at origin [o] may be. *)
Definition ev_ok (o : list Z * list Z * Z) (ev : event) : Prop :=
  allowed (ev_target ev) /\
  match ev with
  | EvConnect _ a => vetted a
  | EvSend t a hs =>
      vetted a /\ hs = (u "Host", netloc t) ::
        (if bool_decide (origin t = o) then _headers f else _transport_headers f)
  end.

Definition is_send (ev : event) : bool := match ev with EvSend _ _ _ => true | _ => false end.
Definition sends (evs : list event) : nat := length (List.filter is_send evs).

Lemma target_allowed url t : _target f url = Ok t -> allowed t.
Proof.
  unfold _target. intros (t' & Hp & Ht)%result_bind_ok.
  destruct (negb _) eqn:E; [done|]. simplify_eq. split; [by apply parse_inv in Hp as (? & ? & _)|].
  apply negb_false_iff, existsb_exists in E. done.
Qed.

Lemma redirect_facts cur o loc t : _redirect f cur o loc = Ok t ->
  allowed t /\ (scheme cur = u "https" -> scheme t = u "https") /\
  (_redirects f = SameOrigin -> origin t = o).
Proof.
  unfold _redirect. intros (loc' & _ & Hr)%result_bind_ok.
  apply result_bind_ok in Hr as (new & Ht & Hr).
  destruct (_ && _) eqn:E1 in Hr; [done|]. destruct (_ && _) eqn:E2 in Hr; [done|].
  simplify_eq. split; [by eapply target_allowed|].
  apply andb_false_iff in E1. apply andb_false_iff in E2. rewrite negb_false_iff in E1, E2.
  rewrite bool_decide_eq_true, bool_decide_eq_false in E1. rewrite bool_decide_eq_true in E2.
  split; [tauto|]. intros E; rewrite E in E2. by destruct E2.
Qed.

Lemma distinct_vetted answers seen :
  Forall (fun a => _address_refused a (_allow_loopback f) = false) answers -> Forall vetted seen ->
  Forall vetted (distinct answers seen).
Proof.
  intros Ha. revert seen. induction Ha as [|a answers Hr _ IH]; intros seen Hs; cbn [distinct]; [done|].
  destruct a as [a|]; [|by apply IH]. cbn in Hr. destruct (ip_address a) as [x|] eqn:Ex; [|done].
  apply IH. case_match; [done|]. apply Forall_app. split; [done|]. apply Forall_singleton. by exists a, x.
Qed.

Lemma vet_vetted t h addrs : _vet f t h = Ok addrs -> Forall vetted addrs.
Proof.
  unfold _vet. intros (answers & _ & Hv)%result_bind_ok.
  case_match; [done|]. destruct (existsb _ _) eqn:E; [done|]. simplify_eq.
  apply distinct_vetted; [by apply existsb_false_Forall|constructor].
Qed.

Lemma connect_vetted o t h addrs last :
  allowed t -> Forall vetted addrs ->
  Forall (ev_ok o) (connect_loop t h addrs last).1 /\ sends (connect_loop t h addrs last).1 = 0%nat /\
  (forall ev, In ev (connect_loop t h addrs last).1 -> ev_target ev = t) /\
  (forall a, (connect_loop t h addrs last).2 = Ok a -> vetted a).
Proof.
  intros Ht Ha. revert last. induction Ha as [|a addrs Hv _ IH]; intros last; cbn [connect_loop];
    [by split_and!|].
  destruct (h_connect h a); [by split_and!| |].
  - destruct (IH e) as (H1 & H2 & H3 & H4). cbn [fst snd]. split_and!; [|done| |done].
    + constructor; [by split|done].
    + intros ev [<-|Hin]; [done|by apply H3].
  - cbn. split_and!; [|done| |by intros ? [= <-]].
    + constructor; [by split|constructor].
    + intros ev [<-|[]]. done.
Qed.

Lemma request_ok o t h follow :
  allowed t ->
  let fixed := if bool_decide (origin t = o) then _headers f else _transport_headers f in
  Forall (ev_ok o) (_request f t h fixed follow).1 /\ (sends (_request f t h fixed follow).1 <= 1)%nat /\
  (forall ev, In ev (_request f t h fixed follow).1 -> ev_target ev = t).
Proof.
  intros Ht fixed. unfold _request. destruct (_vet f t h) as [addrs|e] eqn:Ev.
  2:{ split_and!; [constructor|cbn; lia|by intros ? []]. }
  apply vet_vetted in Ev. destruct (connect_vetted o t h addrs ExOther Ht Ev) as (H1 & H2 & H3 & H4).
  destruct (connect_loop t h addrs ExOther).2 as [a|e] eqn:E.
  - cbn [fst]. split_and!.
    + apply Forall_app. split; [done|]. apply Forall_singleton. split; [done|]. split; [by apply H4|done].
    + unfold sends in *. rewrite List.filter_app, length_app, H2. cbn. lia.
    + intros ev [Hin|[<-|[]]]%in_app_or; [by apply H3|done].
  - cbn [fst]. split_and!; [done|lia|done].
Qed.

Lemma request_no_follow t h fixed resp location :
  (_request f t h fixed false).2 <> Some (Ok (resp, Some location)).
Proof.
  unfold _request. destruct (_vet f t h); [|done]. destruct (connect_loop _ _ _ _).2; [|done]. cbn.
  destruct (h_reply h); [done|]. rewrite andb_false_r. by repeat case_match.
Qed.

Lemma call_loop_ok o net left t :
  allowed t ->
  let evs := (call_loop f left net o t).1 in
  Forall (ev_ok o) evs /\ (sends evs <= S left)%nat /\
  (scheme t = u "https" -> Forall (fun ev => scheme (ev_target ev) = u "https") evs) /\
  (_redirects f = SameOrigin -> origin t = o -> Forall (fun ev => origin (ev_target ev) = o) evs) /\
  (_redirects f = Never -> Forall (fun ev => ev_target ev = t) evs).
Proof.
  revert left t. induction net as [|h net IH]; intros left t Ht; cbn [call_loop];
    [split_and!; [constructor|cbn; lia|intros; constructor..]|].
  set (fixed := if bool_decide _ then _ else _).
  set (follow := match _redirects f with Never => false | _ => true end).
  destruct (request_ok o t h follow Ht) as (H1 & H2 & H3). fold fixed in H1, H2, H3.
  assert (Hone : Forall (ev_ok o) (_request f t h fixed follow).1 /\
    (sends (_request f t h fixed follow).1 <= S left)%nat /\
    (scheme t = u "https" -> Forall (fun ev => scheme (ev_target ev) = u "https") (_request f t h fixed follow).1) /\
    (_redirects f = SameOrigin -> origin t = o -> Forall (fun ev => origin (ev_target ev) = o) (_request f t h fixed follow).1) /\
    (_redirects f = Never -> Forall (fun ev => ev_target ev = t) (_request f t h fixed follow).1)).
  { split_and!; [done|lia|..]; intros; apply List.Forall_forall; intros ev Hev; by rewrite (H3 ev Hev). }
  destruct (_request f t h fixed follow).2 as [[[resp [location|]]|e]|] eqn:Er; [|exact Hone..].
  destruct left as [|left']; [exact Hone|].
  destruct (_redirect f t o location) as [t'|e] eqn:Ed; [|exact Hone].
  destruct (redirect_facts _ _ _ _ Ed) as (Ha & Hs & Ho).
  destruct (IH left' t' Ha) as (I1 & I2 & I3 & I4 & I5). destruct Hone as (O1 & O2 & O3 & O4 & O5).
  cbn [fst]. split_and!.
  - by apply Forall_app.
  - unfold sends in *. rewrite List.filter_app, length_app. lia.
  - intros E. apply Forall_app. auto.
  - intros E E'. apply Forall_app. auto.
  - intros E. exfalso. unfold follow in Er. rewrite E in Er. by apply request_no_follow in Er.
Qed.
End Trace.
End WithStd.

(** The address policy holds for every address and every table [ipaddress] may
    have: an address that is not refused lies in none of the special-purpose ranges, has
    no scope id, and stands (mapped, NAT64, 6to4, Teredo) only for IPv4 addresses outside
    these ranges. *)
Theorem address_policy `{Std} a : ip_wide a -> _ip_refused a false = false -> public a.
Proof. intros Hw Hr. by apply cleared_public, ip_refused_cleared. Qed.


(** ** Reading the body *)

(** The bytes the server sent before the exchange ended. *)
Fixpoint received (evs : list read_event) : list Z :=
  match evs with
  | RdData bs :: evs' => bs ++ received evs'
  | RdIncomplete _ partial :: _ => partial
  | _ => []
  end.

Lemma read_body_from cap evs chunks total b tr :
  total = Z.of_nat (length chunks) -> total <= cap ->
  read_body cap evs chunks total = Some (Ok (b, tr)) ->
  Z.of_nat (length b) <= cap /\ exists rest, chunks ++ received evs = b ++ rest /\ (tr = false -> rest = []).
Proof.
  revert chunks total. induction evs as [|ev evs IH]; intros chunks total Ht Hc Hr; cbn in Hr; [done|].
  destruct ev as [|bs|passed missing|passed partial|e passed]; try done.
  - destruct (cap <? _) eqn:E; bool_prop.
    + simplify_eq. set (n := Z.to_nat _). split.
      { rewrite length_app, length_take. lia. }
      exists (drop n bs ++ received evs). split; [|done]. cbn. rewrite <- !app_assoc. f_equal.
      by rewrite app_assoc, take_drop.
    + destruct (IH (chunks ++ bs) (total + Z.of_nat (length bs))) as (Hl & rest & He & Htr);
        [rewrite length_app; lia|lia|done|]. split; [done|]. exists rest. cbn. by rewrite app_assoc.
  - destruct passed; simplify_eq. split; [lia|]. exists []. cbn. by rewrite !app_nil_r.
  - destruct passed; simplify_eq. split; [rewrite length_app, length_take; lia|].
    exists (drop (Z.to_nat (cap - Z.of_nat (length chunks))) partial). cbn.
    rewrite <- app_assoc, take_drop. done.
Qed.

(** The body handed back is a prefix of what the server sent, never longer than
    [max_response_bytes] whatever the server or its [Content-Length] claims, and it is
    all of it when [truncated] is false. *)
Theorem body_bounded cap evs b tr :
  0 <= cap -> read_body cap evs [] 0 = Some (Ok (b, tr)) ->
  Z.of_nat (length b) <= cap /\ exists rest, received evs = b ++ rest /\ (tr = false -> rest = []).
Proof. intros Hc. by apply read_body_from. Qed.

Lemma body_bounded_witness :
  0 <= 5 /\ read_body 5 [RdData [1; 2; 3]; RdData [4; 5; 6]] [] 0 = Some (Ok ([1; 2; 3; 4; 5], true)) /\
  Z.of_nat (length [1; 2; 3; 4; 5]) <= 5.
Proof.
  split; [lia|]. split; [reflexivity|].
  exact (proj1 (body_bounded 5 [RdData [1; 2; 3]; RdData [4; 5; 6]] [1; 2; 3; 4; 5] true
    ltac:(lia) ltac:(reflexivity))).
Defined.

(** ** The lookup pool *)

(** The lookup pool never loses or leaks a slot: in every reachable state the
    counter is exactly the number of lookups in flight, never negative and never above
    the cap, even when the executor refuses a submission. *)
Theorem dns_pool_bounded threads max_pending p :
  0 <= threads -> dns_reachable threads max_pending p ->
  pending p = in_flight p /\ 0 <= pending p <= limit p /\ limit p = Z.max max_pending threads.
Proof.
  intros Hth. induction 1 as [|p ok p' _ IH Hs|p _ IH Hp]; cbn; [lia| |lia].
  unfold submit in Hs. destruct (limit p <=? pending p) eqn:E; [done|]. bool_prop.
  apply Ok_inj in Hs as <-. destruct ok; cbn; lia.
Qed.

Lemma dns_pool_bounded_witness :
  exists p, dns_reachable 8 64 p /\ pending p = 1 /\ pending p = in_flight p.
Proof.
  assert (H : dns_reachable 8 64 (DnsPool 64 1 1)).
  { apply (DnsSubmit 8 64 (DnsPool 64 0 0) true); [apply DnsStart|reflexivity]. }
  exists (DnsPool 64 1 1). split; [exact H|]. split; [reflexivity|].
  exact (proj1 (dns_pool_bounded 8 64 _ ltac:(lia) H)).
Defined.

(** ** Headers *)

Definition clean_header (h : header) : Prop := _TOKEN h.1 = true /\ _HEADER_VALUE h.2 = true.
Definition reserved (h : header) : bool := bool_decide (lower h.1 ∈ _RESERVED_REQUEST_HEADERS).

Lemma check_headers_loop_inv items first rest out :
  reserved first = false -> clean_header first ->
  Forall clean_header rest -> check_headers_loop items (first :: rest) = Ok out ->
  Forall clean_header out /\ List.filter reserved out = List.filter reserved rest /\
  (length rest <= length out)%nat.
Proof.
  revert first rest. induction items as [|[name value] items IH]; intros first rest Hf Hc Hr Ho;
    cbn [check_headers_loop] in Ho.
  { apply Ok_inj in Ho as <-. cbn [List.filter length]. rewrite Hf. split_and!; [by constructor|done|lia]. }
  destruct name as [| | | | |name| | | | | |]; try done.
  destruct (_TOKEN name) eqn:Et; [|done]. cbn [negb] in Ho.
  destruct (bool_decide (lower name ∈ _)) eqn:Er in Ho; [done|].
  destruct value as [| | | | |v| | | | | |]; try done.
  destruct (_HEADER_VALUE v) eqn:Ev; [|done]. cbn [negb] in Ho.
  destruct (bool_decide _) eqn:Eu in Ho.
  - destruct (IH (name, v) rest) as (H1 & H2 & H3); [done|done|done|done|]. done.
  - destruct (IH first (rest ++ [(name, v)])) as (H1 & H2 & H3); [done|done| |done|].
    { apply Forall_app. split; [done|]. by apply Forall_singleton. }
    split_and!; [done| |rewrite length_app in H3; lia].
    rewrite H2, List.filter_app. cbn [List.filter].
    change (reserved (name, v) = false) in Er. by rewrite Er, app_nil_r.
Qed.

(** The fixed headers cannot smuggle a request: every name is an HTTP token, no
    value holds a CR, LF or other control character, and the headers that belong to the
    transport are exactly the tool's own [Accept-Encoding] and [Connection], once each. *)
Theorem headers_no_smuggling headers user_agent out :
  _HEADER_VALUE user_agent = true ->
  _check_headers headers user_agent = Ok out ->
  Forall (fun h => _TOKEN h.1 = true /\ ~ In 13 h.2 /\ ~ In 10 h.2) out /\
  List.filter reserved out = [(u "Accept-Encoding", u "identity"); (u "Connection", u "close")].
Proof.
  intros Hu Hc. destruct (check_headers_loop_inv headers (u "User-Agent", user_agent)
    [(u "Accept-Encoding", u "identity"); (u "Connection", u "close")] out) as (H1 & H2 & _);
    [reflexivity|by split| |exact Hc|].
  { by repeat constructor. }
  split; [|exact H2]. eapply Forall_impl; [exact H1|]. intros h [Ht Hv]. split; [done|].
  unfold _HEADER_VALUE in Hv. rewrite forallb_forall in Hv. split; intros Hin%Hv; discriminate.
Qed.

Lemma headers_no_smuggling_witness :
  exists out, _check_headers [(PStr (u "Authorization"), PStr (u "Bearer x"))] (u "pydeno-http-fetch") = Ok out /\
  List.filter reserved out = [(u "Accept-Encoding", u "identity"); (u "Connection", u "close")].
Proof.
  eexists. split; [reflexivity|].
  refine (proj2 (headers_no_smuggling [(PStr (u "Authorization"), PStr (u "Bearer x"))]
    (u "pydeno-http-fetch") _ _ _)); reflexivity.
Defined.

(** ** Paths *)

Lemma hex_cases c : is_hex c = true ->
  (48 <= c <= 57 /\ hex_value c = c - 48) \/ (65 <= c <= 70 /\ hex_value c = c - 55) \/
  (97 <= c <= 102 /\ hex_value c = c - 87).
Proof.
  unfold is_hex, hex_value, is_digit. rewrite !orb_true_iff, !andb_true_iff, !Z.leb_le.
  destruct (_ && _) eqn:E; bool_prop; [lia|]. apply andb_false_iff in E. rewrite !Z.leb_gt in E.
  destruct (c <? 97) eqn:E2; bool_prop; lia.
Qed.

Lemma hex_separator a b : is_hex a = true -> is_hex b = true ->
  hex_value a * 16 + hex_value b = 47 \/ hex_value a * 16 + hex_value b = 92 ->
  existsb (fun code => bool_decide (lower [a; b] = code)) [u "2f"; u "5c"] = true.
Proof.
  intros Ha%hex_cases Hb%hex_cases Hv.
  assert (Hab : (a = 50 /\ (b = 70 \/ b = 102)) \/ (a = 53 /\ (b = 67 \/ b = 99))) by lia.
  by destruct Hab as [[-> [-> | ->]]|[-> [-> | ->]]].
Qed.

(** Decoding makes a separator only of a separator or of its escape. *)
Lemma unquote_separator n s v : (length s <= n)%nat -> v = 47 \/ v = 92 ->
  In v (unquote_bytes s) -> In v s \/ _ENCODED_SEPARATOR s = true.
Proof.
  intros Hn Hv. revert s Hn. induction n as [|n IH]; intros s Hn.
  { destruct s; [by left|cbn in Hn; lia]. }
  destruct s as [|c s]; [by left|].
  assert (Htail : In v (unquote_bytes s) -> In v (c :: s) \/ _ENCODED_SEPARATOR (c :: s) = true).
  { intros Hi. destruct (IH s) as [Hs|Hs]; [cbn in Hn; lia|done|left; by right|right].
    unfold _ENCODED_SEPARATOR in *. cbn [has_escape]. rewrite Hs. apply orb_true_r. }
  destruct s as [|a [|b s]]; cbn [unquote_bytes].
  - intros [<-|[]]. left. by left.
  - intros [<-|Hi]; [left; by left|]. by apply Htail.
  - destruct ((c =? chr "%") && is_hex a && is_hex b) eqn:E.
    + apply andb_true_iff in E as [[Ec Ea]%andb_true_iff Eb]. intros [Hx|Hi].
      * right. unfold _ENCODED_SEPARATOR. cbn [has_escape take]. rewrite Ec.
        rewrite hex_separator; [done|done|done|]. by rewrite Hx.
      * destruct (IH s) as [Hs|Hs]; [cbn in Hn; lia|done|left; by do 3 right|right].
        unfold _ENCODED_SEPARATOR in *. cbn [has_escape]. rewrite Hs, !orb_true_r. done.
    + intros [<-|Hi]; [left; by left|]. by apply Htail.
Qed.

Lemma has_escape_app_l codes s t : Forall (fun c => length c = 2%nat) codes ->
  has_escape codes s = true -> has_escape codes (s ++ t) = true.
Proof.
  intros Hc. induction s as [|c s IH]; cbn; [done|]. rewrite !orb_true_iff. intros [E|E]; [left|right; auto].
  apply andb_true_iff in E as [-> (code & Hin & Hb)%existsb_exists]. cbn. apply existsb_exists. exists code.
  split; [done|]. apply bool_decide_eq_true in Hb. apply bool_decide_eq_true.
  pose proof (proj1 (List.Forall_forall _ _) Hc code Hin) as Hl. rewrite <- Hb in Hl.
  unfold lower in Hl. rewrite length_fmap, length_take in Hl. rewrite take_app_le by lia. done.
Qed.

Lemma has_escape_app_r codes s t : has_escape codes t = true -> has_escape codes (s ++ t) = true.
Proof. intros Ht. induction s as [|c s IH]; cbn; [done|]. rewrite IH. apply orb_true_r. Qed.

Lemma check_path_segments path : _check_path path = Ok tt ->
  Forall (fun seg => ~ In 47 (unquote_bytes seg) /\ ~ In 92 (unquote_bytes seg) /\
                     all_dots (unquote_bytes seg) = false) (split_on (chr "/") path) \/ In 92 path.
Proof.
  unfold _check_path, blocked. destruct (_ENCODED_SEPARATOR path) eqn:E1; [done|].
  destruct (_PATH_PARAMS path); [done|]. destruct (_AMBIGUOUS_ESCAPE path); [done|].
  destruct (existsb _ _) eqn:E2; [done|]. intros _.
  destruct (in_dec Z.eq_dec 92 path) as [?|Hb]; [by right|left].
  apply existsb_false_Forall in E2. apply List.Forall_forall. intros seg Hs.
  pose proof (proj1 (List.Forall_forall _ _) E2 seg Hs) as Hd.
  pose proof (proj1 (List.Forall_forall _ _) (split_on_no_sep (chr "/") path) seg Hs) as Hn.
  destruct (split_on_infix _ _ _ Hs) as (a & b & Hp).
  assert (Hne : _ENCODED_SEPARATOR seg = true -> False).
  { intros He. rewrite Hp in E1. unfold _ENCODED_SEPARATOR in *.
    rewrite has_escape_app_r in E1; [done|]. apply has_escape_app_l; [by repeat constructor|done]. }
  split_and!; [| |done]; intros Hi.
  - destruct (unquote_separator (length seg) seg 47) as [Hx|Hx]; [lia|by left|done| |by apply Hne].
    by apply Hn.
  - destruct (unquote_separator (length seg) seg 92) as [Hx|Hx]; [lia|by right|done| |by apply Hne].
    apply Hb. rewrite Hp. apply in_or_app. right. apply in_or_app. by left.
Qed.

(** An allow entry's path prefix means what it says, for every server: a target the
    parser accepts and the entry matches has the entry's path segments as a prefix of
    its own, and no segment of it, even percent-decoded, contains a slash or backslash
    or is a dot segment, so no party can read it as a path outside the prefix. *)
Theorem allow_prefix_on_segments `{Std} url sch len t e :
  _parse url sch len = Ok t -> matches e t = true ->
  split_on (chr "/") (rstrip (chr "/") (e_prefix e)) `prefix_of` split_on (chr "/") (path t) /\
  Forall (fun seg => ~ In 47 (unquote_bytes seg) /\ ~ In 92 (unquote_bytes seg) /\
                     all_dots (unquote_bytes seg) = false) (split_on (chr "/") (path t)).
Proof.
  intros (_ & Hs & Hpc & _ & Hc)%parse_inv Hm. split.
  - unfold matches in Hm. apply andb_true_iff in Hm as [_ Hm].
    assert (Hp : path t = rstrip (chr "/") (e_prefix e) \/
                 starts_with (rstrip (chr "/") (e_prefix e) ++ u "/") (path t) = true).
    { destruct (bool_decide (e_prefix e = u "/")) eqn:E.
      - apply bool_decide_eq_true in E. rewrite E. right. exact Hs.
      - apply orb_true_iff in Hm as [Hm|Hm]; [left; by apply bool_decide_eq_true in Hm|by right]. }
    destruct Hp as [->|(r & ->)%starts_with_spec]; [done|].
    rewrite <- app_assoc. cbn [app u]. change (u "/" ++ r) with (chr "/" :: r).
    rewrite split_on_app. by apply prefix_app_r.
  - destruct (check_path_segments _ Hc) as [Hf|Hb]; [done|].
    rewrite forallb_forall in Hpc. by specialize (Hpc 92 Hb).
Qed.

(** ** A concrete tool *)

(** A standard library with the classification of IPv4 addresses reduced to [is_global]
    for all, and the two IPv6 literals [::1] and [64:ff9b::7f00:1]. *)
Definition demo_std : Std := {|
  parse_v6 s := if bool_decide (s = u "::1") then Some (1, false)
                else if bool_decide (s = u "64:ff9b::7f00:1") then Some (Z.shiftl 0x0064ff9b 96 + 0x7f000001, false)
                else None;
  str_v6 n _ := if n =? 1 then u "::1" else u "64:ff9b::7f00:1";
  is_global _ := true; is_multicast _ := false; is_unspecified _ := false;
  is_link_local _ := false; is_private _ := false; is_reserved _ := false;
  idna _ := None; urljoin base loc := loc; decode_with b _ := b |}.

#[local] Instance demo_laws : @StdLaws demo_std.
Proof.
  constructor; intros s n sc; cbn [parse_v6 str_v6 demo_std]; destruct (bool_decide (s = u "::1")); [|destruct (bool_decide _); [|done]| |destruct (bool_decide _); [|done]| |destruct (bool_decide _); [|done]];
    intros [= <- <-]; first [done | lia | by vm_compute; auto 9].
Qed.

Definition demo_init `{Std} (timeout : pyval) : result exn fetch :=
  fetch_init (AList [PStr (u "api.example.com/v1/")]) (AList [u "https"])
    [(PStr (u "Authorization"), PStr (u "Bearer x"))] timeout (PInt 1024) (PInt 2048) (PInt 5)
    (u "same-origin") (u "bytes") [u "Content-Type"] (u "pydeno-http-fetch").

Definition demo_fetch : fetch :=
  match @demo_init demo_std (PInt 10) with
  | Ok f => f
  | Err _ => Fetch [] [] [] S754_nan 0 0 0 Never false [] true
  end.

Definition demo_url : pyval := PStr (u "https://API.example.com/v1/items?x=1").

(** The first server redirects; the resolver's answer to the second lookup has changed to
    a loopback address. *)
Definition demo_net : list hop :=
  [Hop (DnsAnswers [Some (u "93.184.216.34")]) (fun _ => ConnOk) false
       (Reply 302 (Some (u "https://api.example.com/v1/next")) [] [] None);
   Hop (DnsAnswers [Some (u "93.184.216.34"); Some (u "127.0.0.1")]) (fun _ => ConnOk) false
       (Reply 200 None [] [RdEof false false] None)].

Definition demo_target (p q : string) : _Target :=
  Target (u "https") (u "api.example.com") 443 false (u p) (u q) false.

(** One connection and one request to the vetted address, then the changed answer stops
    the call. *)
Example demo_rebinding :
  @call_fetch demo_std demo_fetch demo_url demo_net =
  ([EvConnect (demo_target "/v1/items" "x=1") (u "93.184.216.34");
    EvSend (demo_target "/v1/items" "x=1") (u "93.184.216.34")
      [(u "Host", u "api.example.com"); (u "User-Agent", u "pydeno-http-fetch");
       (u "Accept-Encoding", u "identity"); (u "Connection", u "close"); (u "Authorization", u "Bearer x")]],
   Some (blocked "the host resolves to an address that is not allowed")).
Proof. vm_compute. reflexivity. Qed.


Lemma address_policy_witness :
  @_ip_refused demo_std (V4 1572395042) false = false /\ public (V4 1572395042).
Proof.
  split; [vm_compute; reflexivity|]. apply (@address_policy demo_std); [by vm_compute|]. vm_compute. reflexivity.
Defined.

Lemma allow_prefix_on_segments_witness :
  exists e, nth_error (_entries demo_fetch) 0 = Some e /\
  split_on (chr "/") (rstrip (chr "/") (e_prefix e))
    `prefix_of` split_on (chr "/") (path (demo_target "/v1/items" "x=1")).
Proof.
  eexists. split; [vm_compute; reflexivity|].
  refine (proj1 (@allow_prefix_on_segments demo_std demo_url [u "https"] 2048
    (demo_target "/v1/items" "x=1") _ _ _)); vm_compute; reflexivity.
Defined.

(** The next step of a computation that succeeds in [H] succeeds in the goal too. *)
Ltac follow_ok H :=
  let E := fresh "E" in
  apply result_bind_ok in H as (? & E & H); rewrite E; cbn [mbind result_bind].

(** The constructor does not refuse a NaN [timeout], since every comparison with NaN
    is false: whatever tool can be built with a timeout can also be built with NaN, which
    then is its time limit. *)
Theorem nan_timeout_accepted `{Std} allow schemes headers timeout mb ml mr redirects response rh ua f :
  fetch_init allow schemes headers timeout mb ml mr redirects response rh ua = Ok f ->
  exists f', fetch_init allow schemes headers (PFloat S754_nan) mb ml mr redirects response rh ua = Ok f' /\
             _timeout f' = S754_nan.
Proof.
  unfold fetch_init. intros Hi. destruct allow as [|specs]; [done|].
  follow_ok Hi. follow_ok Hi. destruct schemes as [|schemes]; [done|].
  follow_ok Hi. follow_ok Hi. follow_ok Hi.
  apply result_bind_ok in Hi as (? & _ & Hi). cbn [positive_number float_le_zero negb raise_if mbind result_bind].
  follow_ok Hi. follow_ok Hi. destruct mr; try done. follow_ok Hi. follow_ok Hi. follow_ok Hi.
  apply result_bind_ok in Hi as (? & _ & Hi). cbn [to_float mbind result_bind].
  follow_ok Hi. follow_ok Hi. by eexists.
Qed.

Lemma nan_timeout_accepted_witness :
  exists f', @demo_init demo_std (PFloat S754_nan) = Ok f' /\ _timeout f' = S754_nan.
Proof.
  apply (@nan_timeout_accepted demo_std _ _ _ (PInt 10) _ _ _ _ _ _ _ demo_fetch).
  vm_compute. reflexivity.
Defined.
