(* ===== verification/Limits.v ===== *)
(** * Limit values ([python/pydeno/_limits.py])

    The validation of time and size limits.  A value is [None], a bool, a real number
    ([numbers.Real] or [Decimal], by what [float()] makes of it), a [timedelta], an
    integer-like, or anything else.  [MAX_SECONDS] depends on the platform's
    [threading.TIMEOUT_MAX] and is a parameter. *)

From S2P Require Import Prelude PyVal.
From Stdlib Require Import Floats.SpecFloat.

Definition MAX_WIRE_INT : Z := 2 ^ 53 - 1.

(** The argument of [limit_seconds]; [LReal] carries [float(value)], which may raise. *)
Inductive seconds_arg :=
| SNone | SBool (b : bool) | SReal (conv : result exn spec_float) | SDelta (total : spec_float)
| SOther (cls : string).

Definition pos_zero : spec_float := S754_zero false.

Section Seconds.
Context (MAX_SECONDS : spec_float).

(** The checks on the converted value, and the normalized result. *)
Definition check_seconds (seconds : spec_float) (allow_zero : bool) : result exn (option spec_float) :=
  if negb (isfinite seconds) || SFltb seconds pos_zero
     || (SFeqb seconds pos_zero && negb allow_zero) || SFltb MAX_SECONDS seconds
  then Err (ValueError "must be a finite number of seconds")
  else Ok (Some (if SFeqb seconds pos_zero then pos_zero else seconds)).

Definition limit_seconds (value : seconds_arg) (allow_zero : bool) : result exn (option spec_float) :=
  match value with
  | SNone => Ok None
  | SBool _ | SOther _ => Err (TypeError "must be a number of seconds, a timedelta, or None")
  | SDelta total => check_seconds total allow_zero
  | SReal (Ok f) => check_seconds f allow_zero
  | SReal (Err _) => check_seconds S754_nan allow_zero
  end.

Lemma check_seconds_inv f az r : check_seconds f az = Ok r ->
  exists g, r = Some g /\ isfinite g = true /\ SFltb MAX_SECONDS g = false /\
    ((g = pos_zero /\ az = true) \/ exists m e, g = S754_finite false m e).
Proof.
  unfold check_seconds. destruct (_ || _) eqn:E; [done|]. bool_prop. intros Hr.
  apply Ok_inj in Hr as <-. eexists. split; [done|].
  destruct f as [s|s| |[] m e]; try done; split_and!; try done.
  - left. split; [done|]. by destruct az.
  - right. by exists m, e.
Qed.

(** A time limit that passes the check can fire: it is finite, not negative, at
    most the maximum, never a NaN and never a negative zero, and zero only where zero is
    allowed; a bool or another type is a [TypeError], everything else refused a
    [ValueError]. *)
Theorem limit_seconds_usable value az :
  match limit_seconds value az with
  | Ok None => value = SNone
  | Ok (Some g) => isfinite g = true /\ SFltb MAX_SECONDS g = false /\
      ((g = pos_zero /\ az = true) \/ exists m e, g = S754_finite false m e)
  | Err (TypeError _) => (exists b, value = SBool b) \/ (exists c, value = SOther c)
  | Err (ValueError _) => (exists c, value = SReal c) \/ (exists t, value = SDelta t)
  | Err _ => False
  end.
Proof.
  assert (Hc : forall f, match check_seconds f az with
    | Ok None => False
    | Ok (Some g) => isfinite g = true /\ SFltb MAX_SECONDS g = false /\
        ((g = pos_zero /\ az = true) \/ exists m e, g = S754_finite false m e)
    | Err (ValueError _) => True
    | Err _ => False
    end).
  { intros f. destruct (check_seconds f az) eqn:E.
    - apply check_seconds_inv in E as (g & -> & Hf & Hm & Hg). done.
    - unfold check_seconds in E. case_match; [by simplify_eq|done]. }
  destruct value as [|b|[f|e]|t|c]; cbn [limit_seconds];
    [done|left; by eexists| | | |right; by eexists].
  - specialize (Hc f). destruct (check_seconds f az) as [[g|]|[]]; try done. left. by eexists.
  - specialize (Hc S754_nan). destruct (check_seconds S754_nan az) as [[g|]|[]]; try done. left. by eexists.
  - specialize (Hc t). destruct (check_seconds t az) as [[g|]|[]]; try done. right. by eexists.
Qed.
End Seconds.

(** The argument of [limit_int]: [IIndex] is any object with [__index__]. *)
Inductive int_arg := INone | IBool (b : bool) | IIndex (n : Z) | IOther (cls : string).

Definition limit_int (value : int_arg) (minimum maximum : Z) : result exn (option Z) :=
  match value with
  | INone => Ok None
  | IBool _ => Err (TypeError "must be an int or None, not a bool")
  | IOther _ => Err (TypeError "must be an int or None")
  | IIndex number =>
      if number <? minimum then Err (ValueError "must be at least the minimum")
      else if maximum <? number then Err (ValueError "must be at most the maximum")
      else Ok (Some number)
  end.
