(* ===== verification/Gate.v ===== *)
(** * Gates ([python/pydeno/_gate.py])

    How a gate's answer becomes a decision: the exact source, the size limit, the
    fail-closed reading of whatever the gate did, the combinators [all_of] and [any_of],
    the hook an entry point holds, and the thread pool that runs sync gates for async
    callers.

    A gate is a function from the source and the context to what calling it did
    ([gate_run]).  Time is an input: the seconds a call took, as the clock measured it.
    [check_source], of the static gate, is a parameter here. *)

From S2P Require Import Prelude Utf8 PyVal PyStr Sha256 Limits.
From Stdlib Require Import Floats.SpecFloat.

Definition MAX_GATE_SOURCE_BYTES : Z := 16 * 1024 * 1024.
Definition TOO_LARGE_LABEL : list Z := u "source-too-large".

Record Verdict := MkVerdict { allow : bool; reason : list Z; labels : list (list Z) }.

Record GateContext := Context_ {
  mode : list Z; entry_point : list Z; tools : list (list Z); source_length : Z;
  source_sha256 : list Z; specifier : option (list Z) }.


(** What a gate returned: an exact [Verdict] with its fields (a frozen dataclass can be
    tampered with), an awaitable with what awaiting it does, or another object. *)
Inductive gate_value :=
| GVerdict (allow reason labels : pyval)
| GAwaitable (inner : gate_run)
| GOther (cls : string)
with gate_run :=
| GReturned (v : gate_value)
| GRaisedDenied (reason : list Z) (labels : list (list Z))
| GRaisedUnavailable (reason : list Z)
| GRaised (cls : string)          (* any other [Exception] *)
| GBase (cls : string).           (* [CancelledError], [KeyboardInterrupt], ... *)

Definition gate : Type := list Z -> GateContext -> gate_run.

(** A decision: an allowing verdict, [GateDenied], [GateUnavailable], or a
    [BaseException] that passes through. *)
Inductive decision :=
| Allowed (v : Verdict)
| Denied (reason : list Z) (labels : list (list Z))
| Unavailable (reason : list Z)
| Propagated (cls : string).

(** ** Reading an answer *)

(** The elements of a tuple of [str]. *)
Fixpoint all_str (l : list pyval) : option (list (list Z)) :=
  match l with
  | [] => Some []
  | PStr s :: l' => cons s <$> all_str l'
  | _ :: _ => None
  end.

Definition malformed_verdict : decision := Unavailable (u "the gate returned a malformed Verdict").

Definition _accept (result : gate_value) : decision :=
  match result with
  | GVerdict a (PStr r) (PTuple ls) =>
      match all_str ls with
      | None => malformed_verdict
      | Some ls => match a with
                   | PBool true => Allowed (MkVerdict true r ls)
                   | PBool false => Denied r ls
                   | _ => malformed_verdict
                   end
      end
  | GVerdict _ _ _ => malformed_verdict
  | _ => Unavailable (u "the gate returned something that is not a Verdict")
  end.

Definition _late : decision := Unavailable (u "the gate took longer than gate_timeout").
Definition _raised : decision := Unavailable (u "the gate raised").

(** [elapsed > timeout], with no timeout never. *)
Definition over (elapsed : spec_float) (timeout : option spec_float) : bool :=
  match timeout with Some t => SFltb t elapsed | None => false end.

Definition _decide (g : gate) (source : list Z) (context : GateContext)
    (timeout : option spec_float) (elapsed : spec_float) : decision :=
  match g source context with
  | GRaisedDenied r ls => Denied r ls
  | GRaisedUnavailable r => Unavailable r
  | GRaised _ => _raised
  | GBase c => Propagated c
  | GReturned (GAwaitable _) =>
      Unavailable (u "the gate returned an awaitable, which a synchronous entry point cannot await")
  | GReturned v => if over elapsed timeout then _late else _accept v
  end.

(** What is left once an awaitable was awaited. *)
Definition awaited (r : gate_run) : gate_run :=
  match r with GReturned (GAwaitable inner) => inner | _ => r end.

(** [_adecide]: the deadline raises into the gate as a [TimeoutError], which is one of
    the exceptions of [GRaised]. *)
Definition _adecide (g : gate) (source : list Z) (context : GateContext)
    (timeout : option spec_float) (elapsed : spec_float) : decision :=
  match awaited (g source context) with
  | GRaisedDenied r ls => Denied r ls
  | GRaisedUnavailable r => Unavailable r
  | GRaised _ => match timeout with
                 | Some t => if SFleb t elapsed then _late else _raised
                 | None => _raised
                 end
  | GBase c => Propagated c
  | GReturned v => if over elapsed timeout then _late else _accept v
  end.

(** ** Preparing a source *)

(** The argument: an exact [str], an instance of a subclass (by its data), or neither. *)
Inductive source_arg := ExactStr (s : list Z) | SubStr (s : list Z) | NotStr.

Definition _exact (source : source_arg) : result exn (list Z) :=
  match source with
  | ExactStr s | SubStr s => Ok s
  | NotStr => Err (TypeError "code must be a string")
  end.

Definition _utf8 : list Z -> list Z := utf8_encode.

Definition _too_large : decision :=
  Denied (u "the code is over the limit of bytes; send a shorter program") [TOO_LARGE_LABEL].

(** [_prepare]: the exact source and its context, or the refusal for size. *)
Definition _prepare (source : source_arg) (mode entry_point : list Z) (tools : list (list Z))
    (specifier : option (list Z)) : result exn (list Z * GateContext + decision) :=
  s ← _exact source;
  if MAX_GATE_SOURCE_BYTES <? Z.of_nat (length s) then Ok (inr _too_large)
  else
    let data := _utf8 s in
    if MAX_GATE_SOURCE_BYTES <? Z.of_nat (length data) then Ok (inr _too_large)
    else Ok (inl (s, Context_ mode entry_point tools (Z.of_nat (length data)) (sha256_hex data) specifier)).

Definition _check_context (context : option GateContext) (source : list Z) : result exn GateContext :=
  match context with
  | None => Err (TypeError "context must be a GateContext")
  | Some c =>
      let data := _utf8 source in
      if negb (source_length c =? Z.of_nat (length data)) || negb (bool_decide (source_sha256 c = sha256_hex data))
      then Err (ValueError "context was made for another source") else Ok c
  end.

(** [gate_check] on a validated gate and timeout. *)
Definition gate_check (g : gate) (source : source_arg) (context : option GateContext)
    (timeout : option spec_float) (elapsed : spec_float) : result exn decision :=
  p ← _prepare source (u "check") (u "gate_check") [] None;
  match p with
  | inr refusal => Ok refusal
  | inl (exact, made) =>
      c ← match context with None => Ok made | Some c => _check_context (Some c) exact end;
      Ok (_decide g exact c timeout elapsed)
  end.

(** ** The hook of an entry point *)

Record _Hook := Hook { h_gate : gate; h_timeout : option spec_float; h_who : list Z }.

(** [_Hook.check]: the source to run, or the decision that refused it. *)
Definition check_with (decide_ : gate -> list Z -> GateContext -> option spec_float -> spec_float -> decision)
    (h : _Hook) (source : source_arg) (mode : list Z) (tools : list (list Z))
    (specifier : option (list Z)) (elapsed : spec_float) : result exn (list Z + decision) :=
  p ← _prepare source mode (h_who h ++ u "." ++ mode) tools specifier;
  match p with
  | inr refusal => Ok (inr refusal)
  | inl (exact, context) =>
      match decide_ (h_gate h) exact context (h_timeout h) elapsed with
      | Allowed _ => Ok (inl exact)
      | d => Ok (inr d)
      end
  end.
Definition check := check_with _decide.
Definition acheck := check_with _adecide.

(** ** Combinators *)

Inductive kind := all_of | any_of.

(** [dict.fromkeys]: the first of each, in order. *)
Fixpoint fromkeys (seen l : list (list Z)) : list (list Z) :=
  match l with
  | [] => []
  | x :: l' => if bool_decide (x ∈ seen) then fromkeys seen l' else x :: fromkeys (x :: seen) l'
  end.
Definition _merge (groups : list (list (list Z))) : list (list Z) := fromkeys [] (concat groups).

Record _Fold := Fold {
  f_allowed : list Verdict; f_denied : list (list Z * list (list Z)); f_unavailable : option (list Z) }.

(** The result of [_Fold.add]: the verdict or the exception decided, or go on. *)
Inductive added := Decided (r : gate_run) | GoOn (f : _Fold).

Definition verdict_value (v : Verdict) : gate_value :=
  GVerdict (PBool (allow v)) (PStr (reason v)) (PTuple (PStr <$> labels v)).

(** [add] on the outcome of one gate; a [BaseException] never reaches it. *)
Definition add (k : kind) (f : _Fold) (outcome : decision) : added :=
  match outcome with
  | Propagated c => Decided (GBase c)
  | Unavailable r =>
      match k with
      | all_of => Decided (GRaisedUnavailable r)
      | any_of => GoOn (Fold (f_allowed f) (f_denied f)
                     (match f_unavailable f with Some r0 => Some r0 | None => Some r end))
      end
  | Denied r ls =>
      match k with
      | all_of => Decided (GReturned (verdict_value (MkVerdict false r (_merge (ls :: (labels <$> f_allowed f))))))
      | any_of => GoOn (Fold (f_allowed f) (f_denied f ++ [(r, ls)]) (f_unavailable f))
      end
  | Allowed v =>
      match k with
      | any_of => Decided (GReturned (verdict_value v))
      | all_of => GoOn (Fold (f_allowed f ++ [v]) (f_denied f) (f_unavailable f))
      end
  end.

Fixpoint join_text (sep : list Z) (ws : list (list Z)) : list Z :=
  match ws with [] => [] | [w] => w | w :: ws' => w ++ sep ++ join_text sep ws' end.
Definition nonempty (ws : list (list Z)) : list (list Z) := filter (fun w => w <> []) ws.

Definition end_ (k : kind) (f : _Fold) : gate_run :=
  match k with
  | all_of => GReturned (verdict_value (MkVerdict true
      (join_text (u "; ") (nonempty (reason <$> f_allowed f))) (_merge (labels <$> f_allowed f))))
  | any_of =>
      match f_unavailable f with
      | Some r => GRaisedUnavailable r
      | None => GReturned (verdict_value (MkVerdict false
          (join_text [10] (nonempty (fst <$> f_denied f))) (_merge (snd <$> f_denied f))))
      end
  end.

(** The loop of [_SyncCombined.__call__] and [_AsyncCombined.__call__]: the gates called,
    and what the combined call did.  Inner gates have no deadline of their own. *)
Fixpoint combined_loop (decide_ : gate -> decision) (k : kind) (f : _Fold) (gates : list gate)
  : nat * gate_run :=
  match gates with
  | [] => (O, end_ k f)
  | g :: gates' =>
      match add k f (decide_ g) with
      | Decided r => (1%nat, r)
      | GoOn f' => let r := combined_loop decide_ k f' gates' in (S r.1, r.2)
      end
  end.

Definition _SyncCombined (k : kind) (gates : list gate) : gate := fun source context =>
  (combined_loop (fun g => _decide g source context None S754_nan) k (Fold [] [] None) gates).2.
Definition _AsyncCombined (k : kind) (gates : list gate) : gate := fun source context =>
  GReturned (GAwaitable
    (combined_loop (fun g => _adecide g source context None S754_nan) k (Fold [] [] None) gates).2).

(** ** The static gate *)

Definition _MAX_REASON_FINDINGS : nat := 20.

Record finding := Finding {
  fi_rule : list Z; fi_line : Z; fi_column : Z; fi_message : list Z; fi_error : bool }.

Definition num (n : Z) : list Z := u (str_of_int n).

Definition StaticGate (check_source : list Z -> list finding) : gate := fun source _ =>
  let errors := List.filter fi_error (check_source source) in
  GReturned (verdict_value
    (if bool_decide (errors = []) then MkVerdict true [] []
     else
       let lines := (fun f => num (fi_line f) ++ u ":" ++ num (fi_column f) ++ u " [" ++ fi_rule f
                              ++ u "] " ++ fi_message f) <$> take _MAX_REASON_FINDINGS errors in
       let lines := if (_MAX_REASON_FINDINGS <? length errors)%nat
                    then lines ++ [u "... and " ++ num (Z.of_nat (length errors - _MAX_REASON_FINDINGS))
                                   ++ u " more findings"] else lines in
       MkVerdict false (join_text [10] lines) (fromkeys [] (fi_rule <$> errors)))).

(** ** The gate threads ([_GatePool])

    One process, between forks.  A pool thread is starting (before it takes the lock),
    idle (counted, waiting for a job), holding a job it has not yet uncounted, or running
    it.  Every step is one atomic region of the code. *)
Definition MAX_GATE_THREADS : Z := 256.

Inductive tstate := TStart | TIdle | TTook | TRun.
#[export] Instance tstate_eq_dec : EqDecision tstate.
Proof. solve_decision. Defined.

Record pool := Pool {
  size : Z; threads : Z; idle : Z; pending : Z; jobs : nat; workers : list tstate }.

Definition pool_init (size : Z) : pool := Pool size 0 0 0 0 [].

Definition pool_submit (p : pool) : pool :=
  let pending' := pending p + 1 in
  if (idle p <? pending') && (threads p <? size p)
  then Pool (size p) (threads p + 1) (idle p) pending' (S (jobs p)) (workers p ++ [TStart])
  else Pool (size p) (threads p) (idle p) pending' (S (jobs p)) (workers p).

(** The top of [_work]'s loop, for worker [i]. *)
Definition pool_enter (i : nat) (p : pool) : pool :=
  if size p <? threads p
  then Pool (size p) (threads p - 1) (idle p) (pending p) (jobs p) (delete i (workers p))
  else Pool (size p) (threads p) (idle p + 1) (pending p) (jobs p) (<[i := TIdle]> (workers p)).

(** [jobs.get()], then the second locked region, then the job and the next turn. *)
Definition pool_take (i : nat) (p : pool) : pool :=
  Pool (size p) (threads p) (idle p) (pending p) (pred (jobs p)) (<[i := TTook]> (workers p)).
Definition pool_begin (i : nat) (p : pool) : pool :=
  Pool (size p) (threads p) (idle p - 1) (pending p - 1) (jobs p) (<[i := TRun]> (workers p)).
Definition pool_finish (i : nat) (p : pool) : pool :=
  Pool (size p) (threads p) (idle p) (pending p) (jobs p) (<[i := TStart]> (workers p)).

Definition set_gate_threads (count : pyval) (p : pool) : result exn pool :=
  match count with
  | PInt n => if (1 <=? n) && (n <=? MAX_GATE_THREADS)
              then Ok (Pool n (threads p) (idle p) (pending p) (jobs p) (workers p))
              else Err (ValueError "set_gate_threads takes 1 to 256 threads")
  | _ => Err (TypeError "set_gate_threads takes an int")
  end.

Definition _default_gate_threads (env : option Z) : Z :=
  match env with
  | Some value => if (0 <? value) && (value <=? MAX_GATE_THREADS) then value else 32
  | None => 32
  end.

(** The states of the pool; [raises] says whether the limit may also be raised. *)
Inductive pool_reachable (raises : bool) : pool -> Prop :=
| PoolInit env : pool_reachable raises (pool_init (_default_gate_threads env))
| PoolSubmit p : pool_reachable raises p -> pool_reachable raises (pool_submit p)
| PoolEnter p i : pool_reachable raises p -> workers p !! i = Some TStart ->
    pool_reachable raises (pool_enter i p)
| PoolTake p i : pool_reachable raises p -> workers p !! i = Some TIdle -> (0 < jobs p)%nat ->
    pool_reachable raises (pool_take i p)
| PoolBegin p i : pool_reachable raises p -> workers p !! i = Some TTook ->
    pool_reachable raises (pool_begin i p)
| PoolFinish p i : pool_reachable raises p -> workers p !! i = Some TRun ->
    pool_reachable raises (pool_finish i p)
| PoolResize p n p' : pool_reachable raises p -> set_gate_threads (PInt n) p = Ok p' ->
    raises = true \/ n <= size p -> pool_reachable raises p'.
