(* ===== verification/GateProps.v ===== *)
(** * Properties of gates

    Fail-closed decisions, the meaning of the combinators, and the thread pool. *)

From S2P Require Import Prelude Utf8 PyVal PyStr Sha256 Limits Gate.
From Stdlib Require Import Floats.SpecFloat.

(** ** Fail closed *)

(** The answer is an exact [Verdict] whose [allow] is [True], well formed. *)
Definition says_yes (r : gate_run) : Prop :=
  exists reason ls labels, r = GReturned (GVerdict (PBool true) (PStr reason) (PTuple ls)) /\
    all_str ls = Some labels.

Lemma accept_allowed v x : _accept v = Allowed x -> says_yes (GReturned v).
Proof.
  unfold _accept, malformed_verdict. intros Ha. destruct v as [a r l|inner|c]; try discriminate Ha.
  destruct r as [| | | | |r| | | | | |]; try discriminate Ha.
  destruct l as [| | | | | | | |l| | |]; try discriminate Ha.
  destruct (all_str l) as [ls|] eqn:E; try discriminate Ha.
  destruct a as [| |[]| | | | | | | | |]; try discriminate Ha. by exists r, l, ls.
Qed.

Lemma yes_accepted r timeout elapsed : says_yes r -> over elapsed timeout = false ->
  exists v x, r = GReturned v /\ _accept v = Allowed x /\ forall inner, v <> GAwaitable inner.
Proof. 
  intros (re & ls & labels & -> & E) _. exists (GVerdict (PBool true) (PStr re) (PTuple ls)), (MkVerdict true re labels).
  split_and!; [done| |done]. unfold _accept. by rewrite E.
Qed.

Lemma decide_allows g s c timeout elapsed :
  (exists v, _decide g s c timeout elapsed = Allowed v) <-> says_yes (g s c) /\ over elapsed timeout = false.
Proof.
  split.
  - intros [v Hd]. unfold _decide, _late, _raised in Hd.
    destruct (g s c) as [[a r l|inner|cls]| | | |]; try discriminate Hd;
      destruct (over elapsed timeout); try discriminate Hd; by apply accept_allowed in Hd.
  - intros [Hy Ho]. destruct (yes_accepted _ timeout elapsed Hy Ho) as (v & x & E & Ha & Hn).
    exists x. unfold _decide. rewrite E, Ho. destruct v; [done| |done]. by edestruct Hn.
Qed.

Lemma adecide_allows g s c timeout elapsed :
  (exists v, _adecide g s c timeout elapsed = Allowed v)
  <-> says_yes (awaited (g s c)) /\ over elapsed timeout = false.
Proof.
  split.
  - intros [v Hd]. unfold _adecide, _late, _raised in Hd. destruct (awaited (g s c)) as [w| | | |]; try discriminate Hd.
    + destruct (over elapsed timeout); [discriminate Hd|]. by apply accept_allowed in Hd.
    + by repeat case_match.
  - intros [Hy Ho]. destruct (yes_accepted _ timeout elapsed Hy Ho) as (v & x & E & Ha & _).
    exists x. unfold _adecide. by rewrite E, Ho.
Qed.

Definition context_of (h : _Hook) (s mode : list Z) (tools : list (list Z)) (spec : option (list Z)) : GateContext :=
  Context_ mode (h_who h ++ u "." ++ mode) tools (Z.of_nat (length (_utf8 s))) (sha256_hex (_utf8 s)) spec.

Lemma utf8_length s : (length s <= length (utf8_encode s))%nat.
Proof.
  unfold utf8_encode. induction s as [|c s IH]; cbn; [lia|].
  rewrite length_app. pose proof (utf8_char_length c). lia.
Qed.

Lemma check_with_ok decide_ says h source mode tools spec elapsed s :
  (forall g s c timeout elapsed, (exists v, decide_ g s c timeout elapsed = Allowed v)
     <-> says (g s c) /\ over elapsed timeout = false) ->
  check_with decide_ h source mode tools spec elapsed = Ok (inl s) <->
  (source = ExactStr s \/ source = SubStr s) /\
  Z.of_nat (length (_utf8 s)) <= MAX_GATE_SOURCE_BYTES /\
  says (h_gate h s (context_of h s mode tools spec)) /\ over elapsed (h_timeout h) = false.
Proof.
  intros Hd. unfold check_with, _prepare. split.
  - intros Hc. destruct source as [x|x|]; try discriminate Hc; cbn [_exact mbind result_bind] in Hc;
      destruct (MAX_GATE_SOURCE_BYTES <? _); try discriminate Hc;
      destruct (MAX_GATE_SOURCE_BYTES <? _) eqn:E in Hc; try discriminate Hc; bool_prop;
      cbn [mbind result_bind] in Hc; fold (context_of h x mode tools spec) in Hc;
      destruct (decide_ _ _ _ _ _) eqn:Ed in Hc; try discriminate Hc; simplify_eq;
      (split; [auto|split; [done|]]); apply Hd; by eexists.
  - intros (Hs & Hl & Hy & Ho). pose proof (utf8_length s) as Hu. fold _utf8 in Hu.
    destruct (proj2 (Hd (h_gate h) s (context_of h s mode tools spec) (h_timeout h) elapsed) (conj Hy Ho)) as [v Hv].
    destruct Hs as [-> | ->]; cbn [_exact mbind result_bind];
      rewrite (proj2 (Z.ltb_ge _ _)) by lia; rewrite (proj2 (Z.ltb_ge _ _)) by lia;
      cbn [mbind result_bind]; fold (context_of h s mode tools spec); by rewrite Hv.
Qed.

(** C9. A gated entry point fails closed, sync and async: it gets a source to run
    exactly when the argument was a string with that text, within the size limit, and
    the gate (awaited, in the async form), called on that very text and its own context,
    answered a well-formed [Verdict] with [allow] true within its deadline.  Every other
    answer, exception, lateness or size refuses. *)
Theorem gate_fails_closed h source mode tools spec elapsed s :
  (check h source mode tools spec elapsed = Ok (inl s) <->
   (source = ExactStr s \/ source = SubStr s) /\
   Z.of_nat (length (_utf8 s)) <= MAX_GATE_SOURCE_BYTES /\
   says_yes (h_gate h s (context_of h s mode tools spec)) /\ over elapsed (h_timeout h) = false) /\
  (acheck h source mode tools spec elapsed = Ok (inl s) <->
   (source = ExactStr s \/ source = SubStr s) /\
   Z.of_nat (length (_utf8 s)) <= MAX_GATE_SOURCE_BYTES /\
   says_yes (awaited (h_gate h s (context_of h s mode tools spec))) /\ over elapsed (h_timeout h) = false).
Proof.
  split.
  - apply (check_with_ok _decide says_yes). intros. apply decide_allows.
  - apply (check_with_ok _adecide (fun r => says_yes (awaited r))). intros. apply adecide_allows.
Qed.

(** ** Combinators *)

Lemma all_str_map ls : all_str (PStr <$> ls) = Some ls.
Proof. induction ls as [|l ls IH]; [done|]. rewrite fmap_cons. cbn [all_str]. by rewrite IH. Qed.

Lemma accept_verdict_value v : _accept (verdict_value v) =
  if allow v then Allowed v else Denied (reason v) (labels v).
Proof.
  unfold _accept, verdict_value. rewrite all_str_map. destruct v as [[] r ls]; done.
Qed.

Lemma accept_true v x : _accept v = Allowed x -> allow x = true.
Proof.
  unfold _accept, malformed_verdict. intros H. repeat (case_match; try discriminate H); by simplify_eq.
Qed.

(** What a caller without a deadline decides on the run of a combined gate. *)
Definition outer (r : gate_run) : decision :=
  match r with
  | GReturned v => _accept v
  | GRaisedDenied r ls => Denied r ls
  | GRaisedUnavailable r => Unavailable r
  | GRaised _ => _raised
  | GBase c => Propagated c
  end.

Definition refusing (d : decision) : Prop :=
  match d with Denied _ _ | Unavailable _ => True | _ => False end.
Definition denials (ds : list decision) : list (list Z * list (list Z)) :=
  omap (fun d => match d with Denied r ls => Some (r, ls) | _ => None end) ds.
Definition first_unavailable (ds : list decision) : option (list Z) :=
  head (omap (fun d => match d with Unavailable r => Some r | _ => None end) ds).

(** The meaning of a combined gate on the decisions of its parts: how many are called
    and the decision.  [all_of]: everything allows, or the first that does not decides.
    [any_of]: the first that allows (or raises through) decides, or everything refuses. *)
Inductive combines : kind -> list decision -> nat -> decision -> Prop :=
| all_allow vs : combines all_of (Allowed <$> vs) (length vs)
    (Allowed (MkVerdict true (join_text (u "; ") (nonempty (reason <$> vs))) (_merge (labels <$> vs))))
| all_denied vs r ls rest : combines all_of ((Allowed <$> vs) ++ Denied r ls :: rest) (S (length vs))
    (Denied r (_merge (ls :: (labels <$> vs))))
| all_unavailable vs r rest :
    combines all_of ((Allowed <$> vs) ++ Unavailable r :: rest) (S (length vs)) (Unavailable r)
| all_propagated vs c rest :
    combines all_of ((Allowed <$> vs) ++ Propagated c :: rest) (S (length vs)) (Propagated c)
| any_allowed ds v rest : Forall refusing ds ->
    combines any_of (ds ++ Allowed v :: rest) (S (length ds)) (Allowed v)
| any_propagated ds c rest : Forall refusing ds ->
    combines any_of (ds ++ Propagated c :: rest) (S (length ds)) (Propagated c)
| any_unavailable ds r : Forall refusing ds -> first_unavailable ds = Some r ->
    combines any_of ds (length ds) (Unavailable r)
| any_denied ds : Forall refusing ds -> first_unavailable ds = None ->
    combines any_of ds (length ds)
      (Denied (join_text [10] (nonempty (fst <$> denials ds))) (_merge (snd <$> denials ds))).

Section Loop.
Context (decide_ : gate -> decision) (Htrue : forall g v, decide_ g = Allowed v -> allow v = true).

Lemma all_of_loop gates vs0 :
  exists d, outer (combined_loop decide_ all_of (Fold vs0 [] None) gates).2 = d /\
  combines all_of ((Allowed <$> vs0) ++ (decide_ <$> gates))
    (length vs0 + (combined_loop decide_ all_of (Fold vs0 [] None) gates).1) d.
Proof.
  eexists. split; [reflexivity|]. revert vs0.
  induction gates as [|g gates IH]; intros vs0; cbn [combined_loop end_ f_allowed fst snd fmap list_fmap].
  - rewrite app_nil_r, Nat.add_0_r. cbn [outer]. rewrite accept_verdict_value. apply all_allow.
  - destruct (decide_ g) as [v|r ls|r|c] eqn:E; cbn [add f_allowed fst snd].
    + specialize (IH (vs0 ++ [v])). rewrite fmap_app, <- app_assoc, length_app in IH. cbn [length] in IH.
      rewrite <- Nat.add_assoc in IH. exact IH.
    + cbn [outer]. rewrite accept_verdict_value, Nat.add_1_r. apply all_denied.
    + rewrite Nat.add_1_r. apply all_unavailable.
    + rewrite Nat.add_1_r. apply all_propagated.
Qed.

Lemma any_of_loop gates ds0 f :
  f_denied f = denials ds0 -> f_unavailable f = first_unavailable ds0 -> Forall refusing ds0 ->
  combines any_of (ds0 ++ (decide_ <$> gates))
    (length ds0 + (combined_loop decide_ any_of f gates).1) (outer (combined_loop decide_ any_of f gates).2).
Proof.
  revert ds0 f. induction gates as [|g gates IH]; intros ds0 f Hd Hu Hr;
    cbn [combined_loop end_ fst snd fmap list_fmap].
  - rewrite app_nil_r, Nat.add_0_r, Hu, Hd. destruct (first_unavailable ds0) as [r|] eqn:E.
    + by apply any_unavailable.
    + cbn [outer]. rewrite accept_verdict_value. by apply any_denied.
  - destruct (decide_ g) as [v|r ls|r|c] eqn:E; cbn [add f_allowed fst snd].
    + cbn [outer]. rewrite accept_verdict_value, (Htrue _ _ E), Nat.add_1_r. by apply any_allowed.
    + rewrite cons_middle, app_assoc. replace (length ds0 + S _)%nat with
        (length (ds0 ++ [Denied r ls]) + (combined_loop decide_ any_of
          (Fold (f_allowed f) (f_denied f ++ [(r, ls)]) (f_unavailable f)) gates).1)%nat
        by (rewrite length_app; cbn; lia).
      apply IH; cbn [f_denied f_unavailable].
      * unfold denials. rewrite omap_app. cbn. unfold denials in Hd. by rewrite Hd.
      * unfold first_unavailable in *. rewrite omap_app. cbn. by rewrite app_nil_r.
      * apply Forall_app. split; [done|]. by apply Forall_singleton.
    + rewrite cons_middle, app_assoc. replace (length ds0 + S _)%nat with
        (length (ds0 ++ [Unavailable r]) + (combined_loop decide_ any_of
          (Fold (f_allowed f) (f_denied f)
             (match f_unavailable f with Some r0 => Some r0 | None => Some r end)) gates).1)%nat
        by (rewrite length_app; cbn; lia).
      apply IH; cbn [f_denied f_unavailable].
      * unfold denials in *. rewrite omap_app. cbn. by rewrite app_nil_r.
      * rewrite Hu. unfold first_unavailable in *. rewrite omap_app. cbn. by destruct (omap _ ds0).
      * apply Forall_app. split; [done|]. by apply Forall_singleton.
    + rewrite Nat.add_1_r. by apply any_propagated.
Qed.

Lemma combined_loop_combines k gates :
  combines k (decide_ <$> gates) (combined_loop decide_ k (Fold [] [] None) gates).1
    (outer (combined_loop decide_ k (Fold [] [] None) gates).2).
Proof.
  destruct k.
  - destruct (all_of_loop gates []) as (d & <- & Hc). exact Hc.
  - by apply (any_of_loop gates [] (Fold [] [] None)).
Qed.
End Loop.

(** A combined run never returns a bare awaitable. *)
Lemma combined_not_awaitable decide_ k f gates inner :
  (combined_loop decide_ k f gates).2 <> GReturned (GAwaitable inner).
Proof.
  revert f. induction gates as [|g gates IH]; intros f; cbn [combined_loop snd].
  - unfold end_, verdict_value. by repeat case_match.
  - destruct (add k f (decide_ g)) as [r|f'] eqn:E; [|apply IH]. cbn [snd].
    intros ->. unfold add, verdict_value in E. repeat (case_match; try discriminate E).
Qed.

Lemma decide_true g s c t e v : _decide g s c t e = Allowed v -> allow v = true.
Proof.
  unfold _decide, _late, _raised. intros H. repeat (case_match; try discriminate H); by eapply accept_true.
Qed.

Lemma adecide_true g s c t e v : _adecide g s c t e = Allowed v -> allow v = true.
Proof.
  unfold _adecide, _late, _raised. intros H. repeat (case_match; try discriminate H); by eapply accept_true.
Qed.

(** [all_of] and [any_of] mean what they say, sync and async, for any gates: the
    decision and the number of gates called are those of [combines].  In particular the
    whole allows if and only if every part does ([all_of]); a part that cannot decide
    never turns into an allow; and no gate after the deciding one is called. *)
Theorem combinators_exact k gates s c elapsed :
  (let ds := (fun g => _decide g s c None S754_nan) <$> gates in
   let run := combined_loop (fun g => _decide g s c None S754_nan) k (Fold [] [] None) gates in
   combines k ds run.1 (_decide (_SyncCombined k gates) s c None elapsed)) /\
  (let ds := (fun g => _adecide g s c None S754_nan) <$> gates in
   let run := combined_loop (fun g => _adecide g s c None S754_nan) k (Fold [] [] None) gates in
   combines k ds run.1 (_adecide (_AsyncCombined k gates) s c None elapsed)).
Proof.
  split; cbv zeta.
  - pose proof (combined_loop_combines (fun g => _decide g s c None S754_nan)
      (fun g v => decide_true g s c None S754_nan v) k gates) as Hc.
    unfold _decide at 3, _SyncCombined. destruct (combined_loop _ k _ gates).2 as [[| |]| | | |] eqn:E; try exact Hc.
    exfalso. by eapply combined_not_awaitable.
  - pose proof (combined_loop_combines (fun g => _adecide g s c None S754_nan)
      (fun g v => adecide_true g s c None S754_nan v) k gates) as Hc.
    unfold _adecide at 3, _AsyncCombined, awaited. destruct (combined_loop _ k _ gates).2; exact Hc.
Qed.

(** ** The pool *)

Definition is_ (t x : tstate) : Z :=
  match t, x with
  | TStart, TStart | TIdle, TIdle | TTook, TTook | TRun, TRun => 1
  | _, _ => 0
  end.
Fixpoint count (t : tstate) (ws : list tstate) : Z :=
  match ws with [] => 0 | x :: ws' => is_ t x + count t ws' end.

Lemma count_app t a b : count t (a ++ b) = count t a + count t b.
Proof. induction a as [|x a IH]; cbn [app count]; lia. Qed.

Lemma count_delete t ws i x : ws !! i = Some x ->
  count t ws = is_ t x + count t (delete i ws).
Proof.
  revert i. induction ws as [|w ws IH]; intros [|i] Hx; try done; cbn in Hx.
  - simplify_eq. done.
  - change (delete (S i) (w :: ws)) with (w :: delete i ws). cbn [count]. rewrite (IH _ Hx). lia.
Qed.

Lemma count_insert t ws i x y : ws !! i = Some x ->
  count t (<[i := y]> ws) = count t ws - is_ t x + is_ t y.
Proof.
  revert i. induction ws as [|w ws IH]; intros [|i] Hx; try done; cbn in Hx.
  - simplify_eq. change (<[0%nat := y]> (x :: ws)) with (y :: ws). cbn [count]. lia.
  - change (<[S i := y]> (w :: ws)) with (w :: <[i := y]> ws). cbn [count]. rewrite (IH _ Hx). lia.
Qed.

Lemma count_nonneg t ws : 0 <= count t ws.
Proof. induction ws as [|[] ws IH]; destruct t; cbn [count is_]; lia. Qed.

Record pool_inv (raises : bool) (p : pool) : Prop := PoolInv {
  i_threads : threads p = Z.of_nat (length (workers p));
  i_idle : idle p = count TIdle (workers p) + count TTook (workers p);
  i_pending : pending p = Z.of_nat (jobs p) + count TTook (workers p);
  i_size : 1 <= size p <= MAX_GATE_THREADS;
  i_max : threads p <= MAX_GATE_THREADS;
  i_served : raises = false ->
    pending p <= idle p + count TStart (workers p) \/ size p <= threads p }.

(** Rewrite the counts of an updated pool and decide. *)
Ltac pool_counts :=
  repeat match goal with p : pool |- _ =>
    match goal with H : 0 <= count TStart (workers p) |- _ => fail 1
    | _ => pose proof (count_nonneg TStart (workers p)); pose proof (count_nonneg TIdle (workers p));
           pose proof (count_nonneg TTook (workers p)) end end;
  cbn [threads workers idle pending jobs size] in *;
  rewrite ?length_app, ?length_insert, ?count_app in *;
  repeat match goal with
  | H : workers ?p !! ?i = Some ?x |- context [count ?t (<[?i := ?y]> (workers ?p))] =>
      rewrite (count_insert t (workers p) i x y H)
  end;
  repeat match goal with
  | H : workers ?p !! ?i = Some ?x |- context [count ?t (delete ?i (workers ?p))] =>
      let E := fresh in pose proof (count_delete t (workers p) i x H) as E; cbn [is_] in E;
      replace (count t (delete i (workers p))) with (count t (workers p) - is_ t x) by (cbn [is_]; lia);
      clear E
  end;
  unfold MAX_GATE_THREADS in *; cbn [length is_ count] in *;
  try match goal with I : ?r = false -> _ |- ?r = false -> _ =>
    let Hf := fresh in intros Hf; specialize (I Hf) end; try lia.

Lemma gate_pool_inv_reachable raises p : pool_reachable raises p -> pool_inv raises p.
Proof.
  induction 1 as [env|p _ [I1 I2 I3 I4 I5 I6]|p i _ [I1 I2 I3 I4 I5 I6] Hi|p i _ [I1 I2 I3 I4 I5 I6] Hi Hj
    |p i _ [I1 I2 I3 I4 I5 I6] Hi|p i _ [I1 I2 I3 I4 I5 I6] Hi|p n p' _ [I1 I2 I3 I4 I5 I6] Hs Hr].
  - split; cbn; try done; unfold count, MAX_GATE_THREADS; cbn; try lia.
    unfold _default_gate_threads, MAX_GATE_THREADS. repeat case_match; bool_prop; lia.
  - unfold pool_submit. destruct (_ && _) eqn:E; bool_prop.
    + split; pool_counts.
    + apply andb_false_iff in E. rewrite !Z.ltb_ge in E. split; pool_counts.
  - unfold pool_enter. pose proof (lookup_lt_Some _ _ _ Hi). destruct (_ <? _) eqn:E; bool_prop.
    + pose proof (length_delete (workers p) i ltac:(by eexists)). split; pool_counts.
    + split; pool_counts.
  - unfold pool_take. split; pool_counts.
  - unfold pool_begin. split; pool_counts.
  - unfold pool_finish. split; pool_counts.
  - unfold set_gate_threads in Hs. destruct (_ && _) eqn:E; [|done]. bool_prop.
    apply Ok_inj in Hs as <-. split; pool_counts.
    destruct Hr as [Hr|Hr]; [congruence|]. lia.
Qed.

(** The gate threads' counters are exact and no queued check is left without a
    thread: in every reachable state [idle] and [pending] are the threads waiting and the
    jobs not yet taken over, there are never more than 256 threads, and, as long as the
    limit is not raised in between, either the pool is at its limit or there is a free
    thread (idle, or about to be) for every queued job. *)
Theorem gate_pool_serves raises p :
  pool_reachable raises p ->
  idle p = count TIdle (workers p) + count TTook (workers p) /\
  pending p = Z.of_nat (jobs p) + count TTook (workers p) /\
  threads p = Z.of_nat (length (workers p)) /\ threads p <= MAX_GATE_THREADS /\
  (raises = false -> threads p < size p ->
   Z.of_nat (jobs p) <= count TIdle (workers p) + count TStart (workers p)).
Proof.
  intros [I1 I2 I3 I4 I5 I6]%gate_pool_inv_reachable. split_and!; try done.
  intros Hf Hs. specialize (I6 Hf). lia.
Qed.

(** Two checks submitted at once to an empty pool: two threads. *)
Lemma gate_pool_serves_witness :
  let p := pool_submit (pool_submit (pool_init 32)) in
  pool_reachable false p /\ threads p < size p /\
  Z.of_nat (jobs p) <= count TIdle (workers p) + count TStart (workers p).
Proof.
  assert (H : pool_reachable false (pool_submit (pool_submit (pool_init 32)))).
  { apply PoolSubmit, PoolSubmit. exact (PoolInit false None). }
  split; [exact H|]. split; [vm_compute; reflexivity|].
  apply (proj2 (proj2 (proj2 (proj2 (gate_pool_serves false _ H))))); [reflexivity|vm_compute; reflexivity].
Defined.
