(* ===== verification/Preflight.v ===== *)
(** * The source policy scan ([python/pydeno/_preflight.py], [_preflight_reference.py])

    [SourcePolicy] and the default, fail-closed scan of the reference implementation: every
    escape of the text is decoded wherever it stands, and the decoded text is read word by
    word.  The precise mode's tokenizer is in [Tokenizer].

    What the scan relies on of Python's Unicode database is the interface [Unicode]: the
    predicates of [str], with their documented values on ASCII. *)

From S2P Require Import Prelude Utf8 PyVal PyStr.

Class Unicode := {
  uni_isalnum : Z -> bool; uni_isspace : Z -> bool; uni_isdigit : Z -> bool;
  uni_isidentifier : Z -> bool;
  alnum_ascii : forall c, 0 <= c < 128 -> uni_isalnum c = is_alpha c || is_digit c;
  digit_ascii : forall c, 0 <= c < 128 -> uni_isdigit c = is_digit c;
  space_ascii : forall c, 0 <= c < 128 ->
    uni_isspace c = ((9 <=? c) && (c <=? 13)) || ((28 <=? c) && (c <=? 32)) }.

Definition _EXACT_SIZE_UP_TO : Z := 16 * 1024 * 1024.
Definition DEFAULT_POLICY_MAX_SOURCE_BYTES : Z := 1024 * 1024.
Definition MAX_POLICY_FINDINGS : nat := 1000.
Definition _BACK : Z := 64.
Definition _PARAMS : Z := 1024.

(** The line terminators of JavaScript: LF, CR, U+2028, U+2029. *)
Definition _LINE_TERMINATORS : list Z := [10; 13; 0x2028; 0x2029].

Record SourcePolicy := Policy {
  forbidden_identifiers : list (list Z); forbidden_globals : list (list Z);
  forbid_dynamic_import : bool; forbid_eval : bool; forbid_function : bool;
  forbid_webassembly : bool; max_source_bytes : option Z; include_preflight_rules : bool;
  forbid_computed_global_access : bool; ignore_strings_and_comments : bool }.

(** [_names]: a collection of non-empty [str]. *)
Fixpoint str_names (l : list pyval) : option (list (list Z)) :=
  match l with
  | [] => Some []
  | PStr s :: l' => if bool_decide (s = []) then None else cons s <$> str_names l'
  | _ :: _ => None
  end.
Definition _names (value : pyval) : result exn (list (list Z)) :=
  match value with
  | PStr _ => Err (TypeError "takes a collection of names, not a str")
  | PList l | PTuple l | PSet l =>
      match str_names l with
      | Some ns => Ok ns
      | None => Err (TypeError "takes non-empty str names")
      end
  | _ => Err (TypeError "takes a collection of names")
  end.

(** ** Decoding escapes *)

(** [\n] and the like; the character itself otherwise. *)
Definition _SIMPLE_ESCAPES (c : Z) : Z :=
  if c =? chr "n" then 10 else if c =? chr "r" then 13 else if c =? chr "t" then 9
  else if c =? chr "b" then 8 else if c =? chr "f" then 12 else if c =? chr "v" then 11
  else if c =? chr "0" then 0 else c.

Definition hex_digit (c : Z) : Z :=
  if is_digit c then c - 48 else if c <? 97 then c - 55 else c - 87.
Definition hex_int (ds : list Z) : Z := fold_left (fun acc c => acc * 16 + hex_digit c) ds 0.
Definition oct_int (ds : list Z) : Z := fold_left (fun acc c => acc * 8 + (c - 48)) ds 0.
Definition is_octal (c : Z) : bool := (48 <=? c) && (c <=? 55).

Definition strip_zeros (ds : list Z) : list Z := (span (Z.eqb 48) ds).2.

(** The braced form after [\u]: its value and the characters it takes, counted from the
    [u]. *)
Definition braced_escape (r : list Z) : option (Z * nat) :=
  match r with
  | o :: r' =>
      let (ds, r'') := span is_hex r' in
      if (o =? chr "{") && starts_with (u "}") r'' && negb (bool_decide (ds = []))
         && (length (strip_zeros ds) <=? 6)%nat
      then Some (hex_int ds, (3 + length ds)%nat) else None
  | [] => None
  end.

(** What one match of [_ESCAPE] after its backslash is: the text it stands for (with
    [None] for a line continuation) and the characters it takes.  [None] when nothing
    follows the backslash. *)
Definition escape_at (s : list Z) : option (option (list Z) * nat) :=
  match s with
  | [] => None
  | c :: r =>
      let simple := Some (Some [_SIMPLE_ESCAPES c], 1%nat) in
      if c =? chr "u" then
        let four := take 4 r in
        match braced_escape r with
        | Some (v, n) => Some (Some (if v <=? 0x10FFFF then [v] else u "u"), n)
        | None => if (length four =? 4)%nat && forallb is_hex four then Some (Some [hex_int four], 5%nat)
                  else simple
        end
      else if c =? chr "x" then
        let two := take 2 r in
        if (length two =? 2)%nat && forallb is_hex two then Some (Some [hex_int two], 3%nat) else simple
      else if (48 <=? c) && (c <=? 51) then
        let more := (span is_octal (take 2 r)).1 in
        Some (Some [oct_int (c :: more)], S (length more))
      else if (52 <=? c) && (c <=? 55) then
        let more := (span is_octal (take 1 r)).1 in
        Some (Some [oct_int (c :: more)], S (length more))
      else if (c =? 13) && starts_with [10] r then Some (None, 2%nat)
      else if mem_chars _LINE_TERMINATORS c then Some (None, 1%nat)
      else simple
  end.

(** The scan's view of the code: the decoded text, the anchors from decoded to original
    offsets, and whether a line continuation was seen. *)
Record view := View { v_text : list Z; norm_at : list Z; orig_at : list Z; continued : bool }.

(** [_decoded]'s loop over the matches, at the original offset [pos] and decoded offset
    [size]; every turn takes at least one character, so the length is fuel enough. *)
Fixpoint decode_loop (fuel : nat) (continuation code : list Z) (pos size : Z) : view :=
  match fuel, code with
  | S n, c :: code' =>
      match (if c =? 92 then escape_at code' else None) with
      | Some (t, k) =>
          let text := match t with Some text => text | None => continuation end in
          let size' := size + Z.of_nat (length text) in
          let pos' := pos + 1 + Z.of_nat k in
          let v := decode_loop n continuation (drop k code') pos' size' in
          View (text ++ v_text v) (size :: size' :: norm_at v) (pos :: pos' :: orig_at v)
               (match t with None => true | Some _ => continued v end)
      | None =>
          let v := decode_loop n continuation code' (pos + 1) (size + 1) in
          View (c :: v_text v) (norm_at v) (orig_at v) (continued v)
      end
  | _, _ => View [] [] [] false
  end.

Definition _decoded (code continuation : list Z) : view :=
  let v := decode_loop (length code) continuation code 0 0 in
  View (v_text v) (0 :: norm_at v) (0 :: orig_at v) (continued v).

(** [original(at)]: through the last anchor at or before [at]. *)
Fixpoint last_anchor (norm orig : list Z) (at_ : Z) (best : Z * Z) : Z * Z :=
  match norm, orig with
  | n :: norm', o :: orig' => if n <=? at_ then last_anchor norm' orig' at_ (n, o) else best
  | _, _ => best
  end.
Definition original (v : view) (at_ : Z) : Z :=
  let a := last_anchor (norm_at v) (orig_at v) at_ (0, 0) in a.2 + at_ - a.1.

(** ** Reading the decoded text *)

Section Scan.
Context `{Unicode}.

(** [\w] or [$]. *)
Definition word_char (c : Z) : bool := uni_isalnum c || (c =? chr "_") || (c =? chr "$").

Definition char_at (s : list Z) (i : Z) : Z := nth (Z.to_nat i) s (-1).
Definition slice (s : list Z) (a b : Z) : list Z := drop (Z.to_nat a) (take (Z.to_nat b) s).
Definition from (s : list Z) (i : Z) : list Z := drop (Z.to_nat i) s.

(** [_WORDS.finditer]: the spans of the maximal runs of word characters. *)
Fixpoint words_loop (s : list Z) (i : Z) (cur : option Z) : list (Z * Z) :=
  match s with
  | [] => match cur with Some st => [(st, i)] | None => [] end
  | c :: s' =>
      if word_char c then words_loop s' (i + 1) (Some (match cur with Some st => st | None => i end))
      else match cur with Some st => [(st, i)] | None => [] end ++ words_loop s' (i + 1) None
  end.
Definition _WORDS (s : list Z) : list (Z * Z) := words_loop s 0 None.

Definition skip_spaces (s : list Z) : list Z := (span uni_isspace s).2.

Definition _BRACKET (s : list Z) : bool := starts_with (u "[") (skip_spaces s).
Definition _STRING_ARGUMENT (s : list Z) : bool :=
  match skip_spaces s with
  | c :: r => (c =? chr "(") &&
      match skip_spaces r with q :: _ => mem_chars (u "'`" ++ [34]) q | [] => false end
  | [] => false
  end.
(** The first character after spaces, if any. *)
Definition _NEXT (s : list Z) : option Z := head (skip_spaces s).
Definition _DOTTED (s : list Z) : bool :=
  let s := skip_spaces s in
  let s := if starts_with (u "?") s then drop 1 s else s in
  match s with
  | c :: r => (c =? chr ".") && match skip_spaces r with w :: _ => word_char w | [] => false end
  | [] => false
  end.
Definition _STATIC_IMPORT_STARTS (c : Z) : bool := word_char c || mem_chars (u "{*'." ++ [34]) c.

Definition _GLOBAL_VALUES : list (list Z) := u <$> ["globalThis"; "self"; "window"; "global"; "this"].
Definition _TIMER_NAMES : list (list Z) := u <$> ["setTimeout"; "setInterval"].
Definition is_in (w : list Z) (ws : list (list Z)) : bool := bool_decide (w ∈ ws).

(** *** The constructor test *)

(** [while i > floor and code[i].isspace(): i -= 1]. *)
Fixpoint back_over_spaces (fuel : nat) (code : list Z) (i floor : Z) : Z :=
  match fuel with
  | S n => if (floor <? i) && uni_isspace (char_at code i)
           then back_over_spaces n code (i - 1) floor else i
  | O => i
  end.

(** [max(code.rfind(t, window, i + 1) for t in _LINE_TERMINATORS)]. *)
Fixpoint rfind_terminator (fuel : nat) (code : list Z) (window i : Z) : Z :=
  match fuel with
  | S n => if i <? window then -1
           else if mem_chars _LINE_TERMINATORS (char_at code i) then i
           else rfind_terminator n code window (i - 1)
  | O => -1
  end.

Definition window_fuel : nat := Z.to_nat (_BACK + 2).

(** [_before]: [[]] at the start of the text, ["?"] when a window runs out. *)
Fixpoint before_loop (hops : nat) (code : list Z) (i : Z) : list Z :=
  match hops with
  | O => u "?"
  | S hops' =>
      let floor := Z.max (-1) (i - _BACK) in
      let i := back_over_spaces window_fuel code i floor in
      if i <? 0 then []
      else if i =? floor then u "?"
      else
        let line_start := rfind_terminator window_fuel code (Z.max 0 (i - _BACK)) i in
        if (line_start <? 0) || negb (starts_with (u "//") (skip_spaces (slice code (line_start + 1) (i + 1))))
        then [char_at code i]
        else before_loop hops' code line_start
  end.
Definition _before (code : list Z) (start : Z) : list Z := before_loop 3 code (start - 1).

(** The string inside a parameter list, from just after its opening quote [q]: the index
    of the closing quote, or [None]. *)
Fixpoint string_end (fuel : nat) (code : list Z) (q j limit : Z) : option Z :=
  match fuel with
  | S n =>
      if limit <=? j then None
      else let c := char_at code j in
           if c =? q then Some j
           else if mem_chars _LINE_TERMINATORS c then None
           else string_end n code q (if c =? 92 then j + 2 else j + 1) limit
  | O => None
  end.

Fixpoint parameters_loop (fuel : nat) (code : list Z) (j limit depth : Z) : option Z :=
  match fuel with
  | S n =>
      if limit <=? j then None
      else let c := char_at code j in
           if mem_chars (u "([{") c then parameters_loop n code (j + 1) limit (depth + 1)
           else if mem_chars (u ")]}") c then
             let depth := depth - 1 in
             if depth =? 0 then (if c =? chr ")" then Some (j + 1) else None)
             else if depth <? 0 then None
             else parameters_loop n code (j + 1) limit depth
           else if (c =? 39) || (c =? 34) then
             match string_end (Z.to_nat _PARAMS) code c (j + 1) limit with
             | None => None
             | Some e => parameters_loop n code (e + 1) limit depth
             end
           else if (c =? chr "/") || (c =? 96) then None
           else parameters_loop n code (j + 1) limit depth
  | O => None
  end.

Definition _parameters_end (code : list Z) (i : Z) : option Z :=
  parameters_loop (Z.to_nat _PARAMS) code i (Z.min (Z.of_nat (length code)) (i + _PARAMS)) 0.

(** [while j < limit and p(code[j]): j += 1]. *)
Fixpoint forward_over (fuel : nat) (p : Z -> bool) (code : list Z) (j limit : Z) : Z :=
  match fuel with
  | S n => if (j <? limit) && p (char_at code j) then forward_over n p code (j + 1) limit else j
  | O => j
  end.

(** Spaces that end no line: space, tab, VT, FF, no-break space, BOM. *)
Definition line_space (c : Z) : bool := mem_chars [32; 9; 11; 12; 0xA0; 0xFEFF] c.

Definition _method_definition (code : list Z) (start end_ : Z) : bool :=
  let n := Z.of_nat (length code) in
  if negb (bool_decide (_before code start ∈ [u "{"; u "}"; u ";"])) then false
  else
    let limit := Z.min n (end_ + _BACK) in
    let j := forward_over window_fuel uni_isspace code end_ limit in
    if (limit <=? j) || negb (char_at code j =? chr "(") then false
    else match _parameters_end code j with
         | None => false
         | Some close =>
             let close := forward_over window_fuel line_space code close (Z.min n (close + _BACK)) in
             (close <? n) && (char_at code close =? chr "{")
         end.

(** *** The scan *)

(** A report: its rule, the name it carries, and the offset in the decoded text. *)
Record report := Report { r_rule : list Z; r_name : list Z; r_at : Z }.

Definition interest (p : SourcePolicy) : list (list Z) :=
  forbidden_identifiers p ++ forbidden_globals p
  ++ (if forbid_eval p then u "eval" :: _TIMER_NAMES else [])
  ++ (if forbid_function p then [u "Function"; u "constructor"] else [])
  ++ (if forbid_webassembly p then [u "WebAssembly"] else [])
  ++ (if forbid_dynamic_import p then [u "import"] else [])
  ++ (if forbid_computed_global_access p
      then _GLOBAL_VALUES ++ [u "Reflect"; u "constructor"; u "Function"] else []).

Definition when (b : bool) (rule : string) (name : list Z) (at_ : Z) : list report :=
  if b then [Report (u rule) name at_] else [].

(** The reports for one word of interest of the view. *)
Definition word_reports (p : SourcePolicy) (code : list Z) (v : view) (start end_ : Z) : list report :=
  let text := v_text v in
  let word := slice text start end_ in
  let after := from text end_ in
  let after_dot := (0 <? start) && (char_at text (start - 1) =? chr ".")
    && negb ((3 <=? start) && bool_decide (slice text (start - 3) start = u "...")) in
  when (is_in word (forbidden_identifiers p)) "forbidden-identifier" word start
  ++ when (is_in word (forbidden_globals p)) "forbidden-global" word start
  ++ (if forbid_eval p then
        if bool_decide (word = u "eval") then [Report (u "forbidden-eval") [] start]
        else when (is_in word _TIMER_NAMES && _STRING_ARGUMENT after) "forbidden-string-timer" word start
      else [])
  ++ when (forbid_function p &&
           (bool_decide (word = u "Function")
            || (bool_decide (word = u "constructor")
                && negb (_method_definition code (original v start) (original v end_)))))
       "forbidden-function-constructor" [] start
  ++ when (forbid_webassembly p && bool_decide (word = u "WebAssembly")) "forbidden-webassembly" [] start
  ++ when (forbid_dynamic_import p && bool_decide (word = u "import") && negb after_dot
           && match _NEXT after with Some c => negb (_STATIC_IMPORT_STARTS c) | None => false end)
       "forbidden-dynamic-import" [] start
  ++ when (forbid_computed_global_access p &&
           ((is_in word _GLOBAL_VALUES && negb after_dot && negb (_DOTTED after))
            || bool_decide (word = u "Reflect")
            || (is_in word [u "constructor"; u "Function"] && _BRACKET after)))
       "forbidden-computed-global-access" [] start.

(** The loop over the words: it stops once [MAX_POLICY_FINDINGS] were reported. *)
Fixpoint scan_words (p : SourcePolicy) (code : list Z) (v : view) (ws : list (Z * Z)) (reported : nat)
  : list report :=
  match ws with
  | [] => []
  | (start, end_) :: ws' =>
      if negb (is_in (slice (v_text v) start end_) (interest p)) then scan_words p code v ws' reported
      else if (MAX_POLICY_FINDINGS <=? reported)%nat then []
      else let rs := word_reports p code v start end_ in
           rs ++ scan_words p code v ws' (reported + length rs)
  end.

Definition _scan_view (p : SourcePolicy) (code : list Z) (v : view) : list (list Z * list Z * Z) :=
  (fun r => (r_rule r, r_name r, original v (r_at r))) <$> scan_words p code v (_WORDS (v_text v)) 0.

(** [_scan_text]: the rule, name and original offset of every report, both readings. *)
Definition _scan_text (p : SourcePolicy) (code : list Z) : list (list Z * list Z * Z) :=
  let v := _decoded code [] in
  _scan_view p code v ++ (if continued v then _scan_view p code (_decoded code [10]) else []).

(** *** Locations and size *)

(** [line_starts] and [bisect_right]: the line of an offset and where it starts. *)
Fixpoint locate (code : list Z) (i line start offset : Z) : Z * Z :=
  match code with
  | [] => (line, start)
  | c :: code' =>
      if (c =? 10) && (i + 1 <=? offset) then locate code' (i + 1) (line + 1) (i + 1) offset
      else locate code' (i + 1) line start offset
  end.

(** [max_source_bytes], counted exactly unless the text is huge. *)
Definition source_too_large (p : SourcePolicy) (code : list Z) : bool :=
  match max_source_bytes p with
  | None => false
  | Some limit =>
      let n := Z.of_nat (length code) in
      if (n <=? limit) || (n <=? _EXACT_SIZE_UP_TO)
      then limit <? Z.of_nat (length (utf8_encode code)) else true
  end.
End Scan.
