(* ===== verification/Tokenizer.v ===== *)
(** * The reference tokenizer and [check_source] ([python/pydeno/_preflight_reference.py])

    The tokenizer of the usability rules and of the precise policy mode, those two rule
    sets, and [check_source] itself, over the policy scan of [Preflight].  The scanning
    helpers work on the rest of the text from the current position and return how many
    characters they take; [tokenize_loop] is the main loop, one token or skip per turn. *)

From S2P Require Import Prelude Utf8 PyVal PyStr Preflight.

Inductive tkind := _ID | _NUM | _STR | _TPL | _RE | _P.
#[export] Instance tkind_eq_dec : EqDecision tkind.
Proof. solve_decision. Defined.

Record _Tok := Tok { t_kind : tkind; t_text : list Z; t_off : Z }.

Definition words_of (l : list string) : list (list Z) := u <$> l.
Definition _REGEX_AFTER_WORD : list (list Z) :=
  words_of ["return"; "typeof"; "instanceof"; "in"; "of"; "new"; "delete"; "void"; "throw"; "case";
            "do"; "else"; "yield"; "await"].
Definition _POLICY_REGEX_AFTER_WORD : list (list Z) :=
  words_of ["return"; "typeof"; "instanceof"; "in"; "new"; "delete"; "void"; "throw"; "case"; "do"; "else"].
Definition _CONTROL_HEADS : list (list Z) := words_of ["if"; "while"; "for"; "with"].
Definition _GLOBALS : list (list Z) := words_of ["globalThis"; "self"; "window"; "global"].
Definition _ACCESS : list (list Z) := words_of ["."; "?."].
Definition _MAX_BRACE_DIGITS : nat := 8.

(** A backslash-u escape at the head of [s] (its backslash included): the character and
    the characters taken. *)
Definition _unicode_escape (s : list Z) : option (Z * nat) :=
  if starts_with (u "\u{") s then
    let window := take (S _MAX_BRACE_DIGITS) (drop 3 s) in
    let (digits, r) := span (fun c => negb (c =? chr "}")) window in
    match r with
    | [] => None
    | _ :: _ =>
        if negb (bool_decide (digits = [])) && (length digits <=? 8)%nat && forallb is_hex digits
           && (hex_int digits <=? 0x10FFFF)
        then Some (hex_int digits, (length digits + 4)%nat) else None
    end
  else
    let digits := take 4 (drop 2 s) in
    if starts_with (u "\u") s && (length digits =? 4)%nat && forallb is_hex digits
    then Some (hex_int digits, 6%nat) else None.

(** [_cooked]: a literal's text as the engine reads it. *)
Fixpoint cooked_loop (fuel : nat) (raw : list Z) : list Z :=
  match fuel with
  | O => []
  | S n =>
      match raw with
      | [] => []
      | c :: rest =>
          match rest with
          | [] => [c]
          | nxt :: rest' =>
              if negb (c =? 92) then c :: cooked_loop n rest
              else
                let simple := _SIMPLE_ESCAPES nxt :: cooked_loop n rest' in
                let hex2 := take 2 rest' in
                if nxt =? chr "u" then
                  match _unicode_escape raw with
                  | Some (d, k) => d :: cooked_loop n (drop k raw)
                  | None => simple
                  end
                else if (nxt =? chr "x") && (length hex2 =? 2)%nat && forallb is_hex hex2
                then hex_int hex2 :: cooked_loop n (drop 4 raw)
                else if mem_chars _LINE_TERMINATORS nxt
                then cooked_loop n (drop (if starts_with [92; 13; 10] raw then 3 else 2) raw)
                else simple
          end
      end
  end.
Definition _cooked (raw : list Z) : list Z := cooked_loop (length raw) raw.

Section Tokenizer.
Context `{Unicode} (policy : bool).

Definition _is_id_char (c : Z) : bool :=
  uni_isalnum c || (c =? chr "_") || (c =? chr "$") || ((127 <? c) && uni_isidentifier c).

(** ** The scanning helpers *)

Fixpoint string_span (q : Z) (s : list Z) : nat :=
  match s with
  | [] => 0
  | c :: s' =>
      if (c =? q) || (c =? 10) || (c =? 13) then 0%nat
      else if c =? 92 then match s' with [] => 2%nat | _ :: s'' => (2 + string_span q s'')%nat end
      else S (string_span q s')
  end.

(** From just after a backtick or a closing brace: the characters up to and including the
    backtick ([true]) or [${]; [None] when neither comes. *)
Fixpoint template_span (s : list Z) : option (nat * bool) :=
  match s with
  | [] => None
  | c :: s' =>
      if c =? 92 then match s' with
                      | [] => None
                      | _ :: s'' => (fun r => (2 + r.1, r.2)%nat) <$> template_span s''
                      end
      else if c =? 96 then Some (1%nat, true)
      else if (c =? chr "$") && starts_with (u "{") s' then Some (2%nat, false)
      else (fun r => (S r.1, r.2)) <$> template_span s'
  end.
Definition scan_template (s : list Z) : nat * bool :=
  match template_span s with Some r => r | None => (length s, true) end.

(** A regex body from just after its slash: the characters before the closing slash and
    whether there is one on this line. *)
Fixpoint regex_span (in_class : bool) (s : list Z) : nat * bool :=
  match s with
  | [] => (0%nat, false)
  | c :: s' =>
      if (c =? 10) || (c =? 13) then (0%nat, false)
      else if c =? 92 then
        match s' with
        | [] => (2%nat, false)
        | _ :: s'' => let r := regex_span in_class s'' in ((2 + r.1)%nat, r.2)
        end
      else if (c =? chr "/") && negb in_class then (0%nat, true)
      else let in_class := if c =? chr "[" then true else if c =? chr "]" then false else in_class in
           let r := regex_span in_class s' in (S r.1, r.2)
  end.

(** [src.find("*/")] in the rest after the comment's opening: the characters taken. *)
Fixpoint comment_span (s : list Z) : nat :=
  match s with
  | [] => 0%nat
  | c :: s' => if (c =? chr "*") && starts_with (u "/") s' then 2%nat else S (comment_span s')
  end.

(** The policy's identifier loop: the decoded name and the characters taken. *)
Fixpoint ident_loop (fuel : nat) (s : list Z) : list Z * nat :=
  match fuel, s with
  | S n, c :: s' =>
      if _is_id_char c then let r := ident_loop n s' in (c :: r.1, S r.2)
      else if c =? 92 then
        match _unicode_escape s with
        | Some (d, k) => let r := ident_loop n (drop k s) in (d :: r.1, (k + r.2)%nat)
        | None => ([], 0%nat)
        end
      else ([], 0%nat)
  | _, _ => ([], 0%nat)
  end.

(** ** The state and what it says of the next slash or brace *)

Inductive open_ := OBlock | OObject | OTemplate.

(** [toks] and the two stacks have their last element first. *)
Record tstate := TState {
  toks : list _Tok; stack : list open_; parens : list bool; no_regex_before : Z;
  closes_expression : list Z; closes_control : list Z }.

Definition push (st : tstate) (k : tkind) (text : list Z) (off : Z) : tstate :=
  TState (Tok k text off :: toks st) (stack st) (parens st) (no_regex_before st)
         (closes_expression st) (closes_control st).

(** [after_access] of the newest token: it follows [.] or [?.]. *)
Definition after_access (ts : list _Tok) : bool :=
  match ts with
  | _ :: t :: _ => bool_decide (t_kind t = _P) && is_in (t_text t) _ACCESS
  | _ => false
  end.

(** The token before the newest is [text] and ends right before it. *)
Definition doubled (text : list Z) (off : Z) (ts : list _Tok) : bool :=
  match ts with
  | _ :: t :: _ => bool_decide (t_text t = text) && (t_off t =? off - 1)
  | _ => false
  end.

Definition regex_allowed (st : tstate) : bool :=
  match toks st with
  | [] => true
  | t :: _ =>
      match t_kind t with
      | _NUM | _STR | _TPL | _RE => false
      | _ID => if negb policy then is_in (t_text t) _REGEX_AFTER_WORD
               else is_in (t_text t) _POLICY_REGEX_AFTER_WORD && negb (after_access (toks st))
      | _P =>
          if policy && (is_in (t_text t) [u "+"; u "-"]) && doubled (t_text t) (t_off t) (toks st) then false
          else if policy && bool_decide (t_text t = u "}") then negb (mem_Z (t_off t) (closes_expression st))
          else if policy && bool_decide (t_text t = u ")") then mem_Z (t_off t) (closes_control st)
          else negb (is_in (t_text t) [u ")"; u "]"])
      end
  end.

Definition expression_expected (st : tstate) : bool :=
  match toks st with
  | [] => false
  | t :: _ =>
      match t_kind t with
      | _ID => is_in (t_text t) _POLICY_REGEX_AFTER_WORD && negb (after_access (toks st))
      | _P => if bool_decide (t_text t = u ">") && doubled (u "=") (t_off t) (toks st) then false
              else match t_text t with [c] => mem_chars (u "([,=:?!~+-*%&|^<>/") c | _ => false end
      | _ => false
      end
  end.

Definition control_head (ts : list _Tok) : bool :=
  match ts with
  | t :: _ => bool_decide (t_kind t = _ID) && is_in (t_text t) _CONTROL_HEADS && negb (after_access ts)
  | [] => false
  end.

(** ** One turn of the main loop *)

Definition is_blank (c : Z) : bool :=
  mem_chars [32; 9; 13; 10; 12; 11; 0xA0; 0xFEFF; 0x2028; 0x2029] c || (policy && uni_isspace c).

Definition set_stack (st : tstate) (sk : list open_) (ce : list Z) : tstate :=
  TState (toks st) sk (parens st) (no_regex_before st) ce (closes_control st).
Definition set_parens (st : tstate) (ps : list bool) (cc : list Z) : tstate :=
  TState (toks st) (stack st) ps (no_regex_before st) (closes_expression st) cc.
Definition set_no_regex (st : tstate) (j : Z) : tstate :=
  TState (toks st) (stack st) (parens st) j (closes_expression st) (closes_control st).

(** A template from the character after the backtick at [i]. *)
Definition template_step (st : tstate) (i : Z) (s' : list Z) : tstate * nat :=
  let (k, closed) := scan_template s' in
  let text := if policy && closed then take (k - 1) s' else [] in
  let st := push st _TPL text i in
  (if closed then st else set_stack st (OTemplate :: stack st) (closes_expression st), S k).

Definition close_brace_step (st : tstate) (i : Z) (s' : list Z) : tstate * nat :=
  match stack st with
  | OTemplate :: sk =>
      let (k, closed) := scan_template s' in
      (set_stack st (if closed then sk else OTemplate :: sk) (closes_expression st), S k)
  | OObject :: sk => (push (set_stack st sk (i :: closes_expression st)) _P (u "}") i, 1%nat)
  | OBlock :: sk => (push (set_stack st sk (closes_expression st)) _P (u "}") i, 1%nat)
  | [] => (push st _P (u "}") i, 1%nat)
  end.

Definition paren_step (st : tstate) (i c : Z) : tstate * nat :=
  let st := if c =? chr "(" then set_parens st (control_head (toks st) :: parens st) (closes_control st)
            else match parens st with
                 | b :: ps => set_parens st ps (if b then i :: closes_control st else closes_control st)
                 | [] => st
                 end in
  (push st _P [c] i, 1%nat).

Definition slash_step (st : tstate) (i : Z) (s' : list Z) : tstate * nat :=
  let (k, closed) := regex_span false s' in
  if closed then
    let flags := length (span _is_id_char (drop (S k) s')).1 in
    (push st _RE [] i, (2 + k + flags)%nat)
  else (push (set_no_regex st (i + 1 + Z.of_nat k)) _P (u "/") i, 1%nat).

(** One turn at offset [i], on the rest [c :: s'] of the text: the new state and the
    characters taken. *)
Definition tok_step (st : tstate) (i c : Z) (s' : list Z) : tstate * nat :=
  let s := c :: s' in
  if is_blank c then (st, 1%nat)
  else if starts_with (u "//") s then
    (st, length (span (fun c => negb (mem_chars _LINE_TERMINATORS c)) s).1)
  else if starts_with (u "/*") s then (st, (2 + comment_span (drop 2 s))%nat)
  else if (c =? 39) || (c =? 34) then
    let k := string_span c s' in
    (push st _STR (take k s') i, Nat.min (2 + k) (length s))
  else if c =? 96 then template_step st i s'
  else if c =? chr "{" then
    (push (set_stack st ((if policy && expression_expected st then OObject else OBlock) :: stack st)
             (closes_expression st)) _P (u "{") i, 1%nat)
  else if c =? chr "}" then close_brace_step st i s'
  else if policy && mem_chars (u "()") c then paren_step st i c
  else if (c =? chr "/") && (no_regex_before st <=? i) && regex_allowed st then slash_step st i s'
  else if _is_id_char c && negb (uni_isdigit c) && negb policy then
    let k := length (span _is_id_char s').1 in (push st _ID (take (S k) s) i, S k)
  else if policy && ((_is_id_char c && negb (uni_isdigit c)) || starts_with (u "\u") s) then
    let (name, k) := ident_loop (length s) s in
    if (k =? 0)%nat then (push st _P [c] i, 1%nat) else (push st _ID name i, k)
  else if uni_isdigit c || ((c =? chr ".") && match s' with d :: _ => uni_isdigit d | [] => false end) then
    let k := length (span (fun c => _is_id_char c || (c =? chr ".")) s').1 in
    (push st _NUM (take (S k) s) i, S k)
  else if starts_with (u "?.") s && negb (match s' with _ :: d :: _ => uni_isdigit d | _ => false end)
  then (push st _P (u "?.") i, 2%nat)
  else (push st _P [c] i, 1%nat).

(** The main loop: the final state and the text left when the fuel ran out. *)
Fixpoint tokenize_loop (fuel : nat) (st : tstate) (i : Z) (s : list Z) : tstate * list Z :=
  match fuel, s with
  | S n, c :: s' => let r := tok_step st i c s' in
                    tokenize_loop n r.1 (i + Z.of_nat r.2) (drop r.2 s)
  | _, _ => (st, s)
  end.

Definition _tokenize (src : list Z) : list _Tok :=
  rev (toks (tokenize_loop (length src) (TState [] [] [] 0 [] []) 0 src).1).
End Tokenizer.

(** ** The usability rules *)

(** [_NAMES]: the rule of a name and the token it needs after it. *)
Definition _NAMES (name : list Z) : option (string * option (list Z)) :=
  if bool_decide (name = u "require") then Some ("require", Some (u "("))
  else if bool_decide (name = u "fetch") then Some ("fetch", Some (u "("))
  else if bool_decide (name = u "XMLHttpRequest") then Some ("xhr", None)
  else if bool_decide (name = u "WebSocket") then Some ("websocket", None)
  else if bool_decide (name = u "process") then Some ("process", Some (u "."))
  else if bool_decide (name = u "Deno") then Some ("deno", Some (u "."))
  else if bool_decide (name = u "child_process") then Some ("child-process", None)
  else None.

Inductive severity := SError | SWarning | SInfo.

(** A finding before it is located: its rule, its severity, the name it carries, and the
    offset. *)
Record raised := Raised { ra_rule : list Z; ra_sev : severity; ra_name : list Z; ra_off : Z }.

Definition flag (b : bool) (rule : string) (sev : severity) (name : list Z) (off : Z) : list raised :=
  if b then [Raised (u rule) sev name off] else [].

Definition at_ (ts : list _Tok) (k : Z) : option _Tok := if 0 <=? k then ts !! Z.to_nat k else None.
Definition has_kind (k : tkind) (t : option _Tok) : bool :=
  match t with Some t => bool_decide (t_kind t = k) | None => false end.
Definition has_text (s : list Z) (t : option _Tok) : bool :=
  match t with Some t => bool_decide (t_text t = s) | None => false end.
Definition text_in (ws : list (list Z)) (t : option _Tok) : bool :=
  match t with Some t => is_in (t_text t) ws | None => false end.
Definition is_access (t : option _Tok) : bool := has_kind _P t && text_in _ACCESS t.
Definition is_global_name (t : option _Tok) : bool := has_kind _ID t && text_in _GLOBALS t.

Record options := Options { allow_import : bool; allow_dynamic_import : bool; report_eval : bool }.

Definition import_rules (o : options) (text : list Z) (nxt : option _Tok) (off : Z) : list raised :=
  if bool_decide (text = u "export") then flag (negb (allow_import o)) "static-export" SError [] off
  else if has_text (u "(") nxt then flag (negb (allow_dynamic_import o)) "dynamic-import" SError [] off
  else flag (negb (allow_import o)) "static-import" SError [] off.

(** The usability findings of token [k]. *)
Definition usability_at (o : options) (ts : list _Tok) (k : Z) (t : _Tok) : list raised :=
  let text := t_text t in
  let off := t_off t in
  let prev := at_ ts (k - 1) in
  let nxt := at_ ts (k + 1) in
  let p2 := at_ ts (k - 2) in
  let after_dot := is_access prev in
  let via_global := after_dot && is_global_name p2 in
  match t_kind t with
  | _STR =>
      flag (has_text (u "[") prev && is_global_name p2 && bool_decide (_NAMES text <> None))
        "global-alias" SError text off
      ++ flag (bool_decide (text = u "__proto__")) "proto" SWarning [] off
  | _ID =>
      if after_dot && negb via_global then
        flag (bool_decide (text = u "constructor") && has_kind _ID p2 && has_text (u "constructor") p2)
          "constructor-constructor" SWarning [] off
        ++ flag (bool_decide (text = u "__proto__")) "proto" SWarning [] off
      else if bool_decide (text = u "__proto__") then flag true "proto" SWarning [] off
      else if is_in text [u "import"; u "export"] then import_rules o text nxt off
      else match _NAMES text with
           | Some (rule, needs) =>
               if via_global then flag true "global-alias" SError text off
               else flag (match needs with
                          | None => true
                          | Some n => has_text n nxt || has_text (u "?.") nxt
                          end) rule SError text off
           | None =>
               flag (bool_decide (text = u "eval") && report_eval o && has_text (u "(") nxt) "eval" SInfo [] off
               ++ flag (bool_decide (text = u "Function") && report_eval o && has_kind _ID prev
                        && has_text (u "new") prev && has_text (u "(") nxt) "eval" SInfo [] off
           end
  | _ => []
  end.

(** ** The precise policy mode *)

Definition _GLOBAL_BASES : list (list Z) := _GLOBALS ++ [u "this"].
Definition _CONSTRUCTOR_BASES : list (list Z) := words_of ["constructor"; "Function"].

Definition is_text_kind (t : option _Tok) : bool := has_kind _STR t || has_kind _TPL t.

Definition _computed_global (ts : list _Tok) (k : Z) : bool :=
  let before := at_ ts (k - 1) in
  let base_at := if has_kind _P before && has_text (u "?.") before then k - 2 else k - 1 in
  let base := at_ ts base_at in
  if negb (has_kind _ID base) then false
  else if text_in _GLOBAL_BASES base && is_access (at_ ts (base_at - 1)) then false
  else if negb (text_in _GLOBAL_BASES base) && negb (text_in _CONSTRUCTOR_BASES base) then false
  else
    let key := at_ ts (k + 1) in
    let close := at_ ts (k + 2) in
    negb ((is_text_kind key || has_kind _NUM key) && has_kind _P close && has_text (u "]") close).

(** The policy's findings on a name read at token [k]. *)
Definition name_rules (p : SourcePolicy) (name : list Z) (off : Z) (on_global called after_dot is_id : bool)
    (first : option _Tok) : list raised :=
  flag (is_in name (forbidden_identifiers p)) "forbidden-identifier" SError name off
  ++ flag (on_global && is_in name (forbidden_globals p)) "forbidden-global" SError name off
  ++ (if forbid_eval p then
        if bool_decide (name = u "eval") then flag true "forbidden-eval" SError [] off
        else flag (is_in name _TIMER_NAMES && on_global && called && is_id && is_text_kind first)
               "forbidden-string-timer" SError name off
      else [])
  ++ flag (forbid_function p && (bool_decide (name = u "Function")
             || (bool_decide (name = u "constructor") && called && (after_dot || negb is_id))))
       "forbidden-function-constructor" SError [] off
  ++ flag (forbid_webassembly p && bool_decide (name = u "WebAssembly")) "forbidden-webassembly" SError [] off
  ++ flag (forbid_dynamic_import p && is_id && bool_decide (name = u "import") && negb after_dot && called)
       "forbidden-dynamic-import" SError [] off.

Definition policy_at (p : SourcePolicy) (ts : list _Tok) (k : Z) (t : _Tok) : list raised :=
  let prev := at_ ts (k - 1) in
  let nxt := at_ ts (k + 1) in
  let p2 := at_ ts (k - 2) in
  let after_dot := is_access prev in
  match t_kind t with
  | _P => if bool_decide (t_text t = u "[")
          then flag (forbid_computed_global_access p && _computed_global ts k)
                 "forbidden-computed-global-access" SError [] (t_off t)
          else []
  | _STR | _TPL =>
      if has_text (u "[") prev && has_text (u "]") nxt
      then name_rules p (_cooked (t_text t)) (t_off t) (is_global_name p2)
             (has_text (u "(") (at_ ts (k + 2))) after_dot false (at_ ts (k + 2))
      else []
  | _ID =>
      name_rules p (t_text t) (t_off t) (negb after_dot || is_global_name p2)
        (has_text (u "(") nxt) after_dot true (at_ ts (k + 2))
  | _ => []
  end.

(** [for k, ... in enumerate(toks)]. *)
Fixpoint each_token (f : Z -> _Tok -> list raised) (k : Z) (ts : list _Tok) : list raised :=
  match ts with [] => [] | t :: ts' => f k t ++ each_token f (k + 1) ts' end.

(** ** [check_source] *)

Record finding := MkFound {
  fd_rule : list Z; fd_sev : severity; fd_name : list Z; fd_line : Z; fd_column : Z }.

Definition locate_finding (code : list Z) (r : raised) : finding :=
  let l := locate code 0 1 0 (ra_off r) in
  MkFound (ra_rule r) (ra_sev r) (ra_name r) l.1 (ra_off r - l.2 + 1).

(** [add] over everything raised, in order. *)
Fixpoint add_raised (code : list Z) (seen : list (list Z * Z)) (rs : list raised) : list finding :=
  match rs with
  | [] => []
  | r :: rs' =>
      if bool_decide ((ra_rule r, ra_off r) ∈ seen) then add_raised code seen rs'
      else locate_finding code r :: add_raised code ((ra_rule r, ra_off r) :: seen) rs'
  end.

(** [findings.sort(key=...)]: stable, by line and column. *)
Definition before_ (a b : finding) : bool :=
  (fd_line a <? fd_line b) || ((fd_line a =? fd_line b) && (fd_column a <=? fd_column b)).
Fixpoint insert_finding (f : finding) (l : list finding) : list finding :=
  match l with [] => [f] | g :: l' => if before_ f g then f :: l else g :: insert_finding f l' end.
Definition sort_findings (l : list finding) : list finding := fold_right insert_finding [] l.

Definition is_error (f : finding) : bool := match fd_sev f with SError => true | _ => false end.

Record PreflightResult := Preflight_ { ok : bool; findings : list finding }.

Definition result_of (fs : list finding) : PreflightResult := Preflight_ (negb (existsb is_error fs)) fs.

Section Check.
Context `{Unicode}.

Definition policy_raised (p : SourcePolicy) (ts : list _Tok) (code : list Z) : list raised :=
  if ignore_strings_and_comments p then each_token (policy_at p ts) 0 ts
  else (fun r => Raised r.1.1 SError r.1.2 r.2) <$> _scan_text p code.

Definition check_source (code : list Z) (o : options) (policy : option SourcePolicy) : PreflightResult :=
  if match policy with Some p => source_too_large p code | None => false end
  then Preflight_ false [MkFound (u "source-too-large") SError [] 1 1]
  else
    let precise := match policy with Some p => ignore_strings_and_comments p | None => false end in
    let usability := match policy with Some p => include_preflight_rules p | None => true end in
    let ts := if usability || precise
              then _tokenize (match policy with Some _ => true | None => false end) code else [] in
    let rs := (if usability then each_token (usability_at o ts) 0 ts else [])
              ++ match policy with Some p => policy_raised p ts code | None => [] end in
    result_of (sort_findings (add_raised code [] rs)).
End Check.
