(* ===== verification/PreflightProps.v ===== *)
(** * Properties of the source scan

    The default policy scan finds a forbidden name however it is spelled, the tokenizer
    is total, and the findings are well formed. *)

From S2P Require Import Prelude Utf8 PyVal PyStr Preflight Tokenizer.
From stdpp Require Import sorting.
Open Scope Z_scope.

(** ** Spellings

    [spells code text]: JavaScript reads [code] as [text] once its escapes are decoded.
    Every character may stand for itself (unless it is a backslash) or be written as a
    four-digit, braced, two-digit, octal or identity escape, and line continuations may
    be inserted anywhere. *)
Inductive spells : list Z -> list Z -> Prop :=
| sp_nil : spells [] []
| sp_char c code text : c <> 92 -> spells code text -> spells (c :: code) (c :: text)
| sp_u4 a b c d code text : forallb is_hex [a; b; c; d] = true -> spells code text ->
    spells (92 :: 117 :: a :: b :: c :: d :: code) (hex_int [a; b; c; d] :: text)
| sp_brace ds code text : ds <> [] -> forallb is_hex ds = true -> (length (strip_zeros ds) <= 6)%nat ->
    hex_int ds <= 0x10FFFF -> spells code text ->
    spells (92 :: 117 :: 123 :: ds ++ 125 :: code) (hex_int ds :: text)
| sp_x2 a b code text : forallb is_hex [a; b] = true -> spells code text ->
    spells (92 :: 120 :: a :: b :: code) (hex_int [a; b] :: text)
| sp_octal a b c code text : 48 <= a <= 51 -> 48 <= b <= 55 -> 48 <= c <= 55 -> spells code text ->
    spells (92 :: a :: b :: c :: code) (oct_int [a; b; c] :: text)
| sp_line t code text : t = 10 \/ t = 0x2028 \/ t = 0x2029 -> spells code text ->
    spells (92 :: t :: code) text
| sp_crlf code text : spells code text -> spells (92 :: 13 :: 10 :: code) text
| sp_identity c code text : c <> 117 -> c <> 120 -> is_octal c = false ->
    mem_chars _LINE_TERMINATORS c = false -> spells code text ->
    spells (92 :: c :: code) (_SIMPLE_ESCAPES c :: text).

Lemma hex_not_brace c : is_hex c = true -> c <> 123 /\ c <> 125.
Proof. intros Hc. split; intros ->; discriminate Hc. Qed.

Lemma escape_u4 a b c d r : forallb is_hex [a; b; c; d] = true ->
  escape_at (117 :: a :: b :: c :: d :: r) = Some (Some [hex_int [a; b; c; d]], 5%nat).
Proof.
  intros Hx. destruct (hex_not_brace a) as [Ha _]; [by apply andb_true_iff in Hx as [? _]|].
  assert (Hb : braced_escape (a :: b :: c :: d :: r) = None).
  { unfold braced_escape. destruct (span is_hex _) as [ds r'']. by rewrite (proj2 (Z.eqb_neq a (chr "{"))). }
  unfold escape_at. change (117 =? chr "u") with true. cbv beta iota. rewrite Hb.
  change (take 4 (a :: b :: c :: d :: r)) with [a; b; c; d]. cbv zeta. by rewrite Hx.
Qed.

Lemma escape_brace ds r : ds <> [] -> forallb is_hex ds = true -> (length (strip_zeros ds) <= 6)%nat ->
  hex_int ds <= 0x10FFFF ->
  escape_at (117 :: 123 :: ds ++ 125 :: r) = Some (Some [hex_int ds], (3 + length ds)%nat).
Proof.
  intros Hne Hx Hl Hv. unfold escape_at. change (117 =? chr "u") with true. cbv beta iota.
  assert (Hb : braced_escape (123 :: ds ++ 125 :: r) = Some (hex_int ds, (3 + length ds)%nat)).
  { unfold braced_escape. rewrite span_stop; [|by apply List.Forall_forall, forallb_forall|done].
    rewrite bool_decide_eq_false_2 by done. by rewrite (proj2 (Nat.leb_le _ _)). }
  rewrite Hb. by rewrite (proj2 (Z.leb_le _ _)).
Qed.

Lemma escape_octal a b c r : 48 <= a <= 51 -> 48 <= b <= 55 -> 48 <= c <= 55 ->
  escape_at (a :: b :: c :: r) = Some (Some [oct_int [a; b; c]], 3%nat).
Proof.
  intros Ha Hb Hc. unfold escape_at.
  change (chr "u") with 117. change (chr "x") with 120.
  rewrite (proj2 (Z.eqb_neq a 117)), (proj2 (Z.eqb_neq a 120)) by lia.
  rewrite (proj2 (Z.leb_le _ _)), (proj2 (Z.leb_le _ _)) by lia.
  change (take 2 (b :: c :: r)) with [b; c]. cbv zeta. cbn [andb].
  rewrite (span_all is_octal [b; c]); [done|]. unfold is_octal.
  repeat constructor; rewrite andb_true_iff, !Z.leb_le; lia.
Qed.

Lemma escape_line t r : t = 10 \/ t = 0x2028 \/ t = 0x2029 -> escape_at (t :: r) = Some (None, 1%nat).
Proof. by intros [-> | [-> | ->]]. Qed.

Lemma escape_identity c r : c <> 117 -> c <> 120 -> is_octal c = false ->
  mem_chars _LINE_TERMINATORS c = false -> escape_at (c :: r) = Some (Some [_SIMPLE_ESCAPES c], 1%nat).
Proof.
  intros Hu Hx Ho Hl. unfold escape_at.
  rewrite (proj2 (Z.eqb_neq c (chr "u"))), (proj2 (Z.eqb_neq c (chr "x"))) by done.
  unfold is_octal in Ho. apply andb_false_iff in Ho. rewrite !Z.leb_gt in Ho.
  destruct ((48 <=? c) && (c <=? 51)) eqn:E1; [bool_prop; lia|].
  destruct ((52 <=? c) && (c <=? 55)) eqn:E2; [bool_prop; lia|].
  rewrite Hl. destruct (Z.eqb_spec c 13) as [->|]; [discriminate Hl|done].
Qed.

(** Decoding a spelling gives the text, from any offsets and with enough fuel. *)
Lemma decode_spells code text : spells code text -> forall fuel pos size,
  (length code <= fuel)%nat -> v_text (decode_loop fuel [] code pos size) = text.
Proof.
  induction 1; intros fuel pos size Hf; (destruct fuel as [|fuel]; [cbn in Hf; try lia|]); try done;
    cbn [decode_loop].
  - destruct (Z.eqb_spec c 92) as [|_]; [done|]. cbn [v_text]. rewrite IHspells; [done|cbn in Hf; lia].
  - change (92 =? 92) with true. cbv iota. rewrite escape_u4 by done. cbn [v_text drop app].
    rewrite IHspells; [done|cbn in Hf; lia].
  - change (92 =? 92) with true. cbv iota. rewrite escape_brace by done. cbn [v_text app]. f_equal.
    replace (drop (3 + length ds) (117 :: 123 :: ds ++ 125 :: code)) with code
      by (rewrite cons_middle, app_assoc; cbn; by rewrite drop_app_length' by (rewrite length_app; cbn; lia)).
    apply IHspells. cbn in Hf. rewrite length_app in Hf. cbn in Hf. lia.
  - change (92 =? 92) with true. cbv iota. unfold escape_at. change (120 =? chr "u") with false.
    change (120 =? chr "x") with true. cbv iota zeta. change (take 2 (a :: b :: code)) with [a; b].
    rewrite H. cbn [v_text app length Nat.eqb andb drop]. rewrite IHspells; [done|cbn in Hf; lia].
  - change (92 =? 92) with true. cbv iota. rewrite escape_octal by done. cbn [v_text drop app].
    rewrite IHspells; [done|cbn in Hf; lia].
  - change (92 =? 92) with true. cbv iota. rewrite escape_line by done. cbn [v_text drop app].
    apply IHspells. cbn in Hf; lia.
  - change (92 =? 92) with true. cbv iota. cbn [v_text drop app]. apply IHspells. cbn in Hf; lia.
  - change (92 =? 92) with true. cbv iota. rewrite escape_identity by done. cbn [v_text drop app].
    rewrite IHspells; [done|cbn in Hf; lia].
Qed.

(** ** The words of a text *)

Section Words.
Context `{Unicode}.

Definition no_word_end (a : list Z) : Prop := match last a with Some c => word_char c = false | None => True end.
Definition no_word_start (b : list Z) : Prop := match b with c :: _ => word_char c = false | [] => True end.

Lemma words_run w b i st : Forall (fun c => word_char c = true) w -> no_word_start b ->
  In (st, i + Z.of_nat (length w)) (words_loop (w ++ b) i (Some st)).
Proof.
  intros Hw Hb. revert i. induction Hw as [|c w Hc _ IH]; intros i.
  - rewrite Z.add_0_r. cbn [app]. destruct b as [|c b]; cbn; [by left|]. cbn in Hb. rewrite Hb. by left.
  - cbn [app words_loop]. rewrite Hc. cbn [length]. rewrite Nat2Z.inj_succ.
    replace (i + Z.succ (Z.of_nat (length w))) with (i + 1 + Z.of_nat (length w)) by lia. apply IH.
Qed.

(** A run of word characters between others is one of the words. *)
Lemma word_found a w b i cur :
  w <> [] -> Forall (fun c => word_char c = true) w -> no_word_end a -> no_word_start b ->
  cur = None \/ a <> [] ->
  In (i + Z.of_nat (length a), i + Z.of_nat (length a) + Z.of_nat (length w)) (words_loop (a ++ w ++ b) i cur).
Proof.
  intros Hne Hw Ha Hb. revert i cur. induction a as [|c a IH]; intros i cur Hc.
  - destruct Hc as [->|]; [|done]. destruct w as [|c w]; [done|]. inversion Hw; subst.
    cbn [app words_loop length]. rewrite H2, Z.add_0_r, Nat2Z.inj_succ.
    replace (i + Z.succ (Z.of_nat (length w))) with (i + 1 + Z.of_nat (length w)) by lia. by apply words_run.
  - assert (Ha' : no_word_end a) by (destruct a; [done|exact Ha]).
    cbn [app words_loop length]. rewrite Nat2Z.inj_succ.
    replace (i + Z.succ (Z.of_nat (length a))) with (i + 1 + Z.of_nat (length a)) by lia.
    destruct (word_char c) eqn:E.
    + apply IH; [done|]. right. destruct a; [|done]. unfold no_word_end in Ha. cbn in Ha. congruence.
    + apply in_or_app. right. apply IH; [done|by left].
Qed.

Lemma slice_middle (a w b : list Z) :
  slice (a ++ w ++ b) (Z.of_nat (length a)) (Z.of_nat (length a) + Z.of_nat (length w)) = w.
Proof.
  unfold slice. rewrite <- Nat2Z.inj_add, !Nat2Z.id, app_assoc, <- length_app, take_app_length.
  apply drop_app_length.
Qed.

(** ** The scan reports *)

(** A name the policy refuses wherever it stands as a word. *)
Definition refused_name (p : SourcePolicy) (w : list Z) : Prop :=
  In w (forbidden_identifiers p) \/ In w (forbidden_globals p) \/
  (forbid_eval p = true /\ w = u "eval") \/ (forbid_function p = true /\ w = u "Function") \/
  (forbid_webassembly p = true /\ w = u "WebAssembly") \/
  (forbid_computed_global_access p = true /\ w = u "Reflect").

Lemma refused_interest p w : refused_name p w -> is_in w (interest p) = true.
Proof.
  intros Hr. apply bool_decide_eq_true, list_elem_of_In. unfold interest. rewrite !in_app_iff.
  destruct Hr as [Hr|[Hr|[[-> ->]|[[-> ->]|[[-> ->]|[-> ->]]]]]]; [tauto|tauto|..]; cbv iota.
  - do 2 right. left. by left.
  - do 3 right. left. by left.
  - do 4 right. left. by left.
  - do 6 right. apply in_or_app. right. by left.
Qed.

Lemma when_true b rule name at_ : b = true -> when b rule name at_ <> [].
Proof. by intros ->. Qed.

Lemma app_nonempty_l {A} (x y : list A) : x <> [] -> x ++ y <> [].
Proof. by destruct x. Qed.
Lemma app_nonempty_r {A} (x y : list A) : y <> [] -> x ++ y <> [].
Proof. by destruct x, y. Qed.

Lemma refused_reported p code v start end_ :
  refused_name p (slice (v_text v) start end_) -> word_reports p code v start end_ <> [].
Proof.
  unfold word_reports. set (w := slice (v_text v) start end_). cbv zeta.
  intros [Hr|[Hr|[[Hp Hw]|[[Hp Hw]|[[Hp Hw]|[Hp Hw]]]]]].
  - apply app_nonempty_l, when_true, bool_decide_eq_true, list_elem_of_In, Hr.
  - apply app_nonempty_r, app_nonempty_l, when_true, bool_decide_eq_true, list_elem_of_In, Hr.
  - do 2 apply app_nonempty_r. apply app_nonempty_l. rewrite Hp, bool_decide_eq_true_2 by done. done.
  - do 3 apply app_nonempty_r. apply app_nonempty_l, when_true. by rewrite Hp, bool_decide_eq_true_2.
  - do 4 apply app_nonempty_r. apply app_nonempty_l, when_true. by rewrite Hp, bool_decide_eq_true_2.
  - do 6 apply app_nonempty_r. apply when_true. rewrite Hp, (bool_decide_eq_true_2 (w = u "Reflect")) by done.
    cbn [andb]. rewrite orb_true_iff, orb_true_iff. tauto.
Qed.

Lemma scan_words_found p code v ws start end_ :
  In (start, end_) ws -> refused_name p (slice (v_text v) start end_) ->
  scan_words p code v ws 0 <> [].
Proof.
  intros Hin Hr. induction ws as [|[s e] ws IH]; [done|]. cbn [scan_words].
  destruct (is_in (slice (v_text v) s e) (interest p)) eqn:Ei; cbn [negb].
  - change (MAX_POLICY_FINDINGS <=? 0)%nat with false. cbv iota zeta.
    destruct Hin as [[= -> ->]|Hin]; [by apply app_nonempty_l, refused_reported|].
    destruct (word_reports p code v s e) as [|r rs] eqn:E; [|done]. by apply IH.
  - destruct Hin as [[= -> ->]|Hin]; [|by apply IH]. by rewrite refused_interest in Ei.
Qed.

Lemma scan_text_found p code a w b :
  spells code (a ++ w ++ b) -> w <> [] -> Forall (fun c => word_char c = true) w ->
  no_word_end a -> no_word_start b -> refused_name p w -> _scan_text p code <> [].
Proof.
  intros Hs Hne Hw Ha Hb Hr. unfold _scan_text. apply app_nonempty_l. unfold _scan_view.
  assert (Ht : v_text (_decoded code []) = a ++ w ++ b) by (apply (decode_spells _ _ Hs); lia).
  intros Hn%fmap_nil_inv. revert Hn.
  apply (scan_words_found p code _ _ (Z.of_nat (length a)) (Z.of_nat (length a) + Z.of_nat (length w))).
  - rewrite Ht. unfold _WORDS. apply (word_found a w b 0 None); auto.
  - by rewrite Ht, slice_middle.
Qed.
End Words.

(** ** Findings *)

Definition policy_rule (rule : list Z) : bool := starts_with (u "forbidden-") rule.

Lemma flag_rule b rule sev name off (P : raised -> Prop) :
  P (Raised (u rule) sev name off) -> Forall P (flag b rule sev name off).
Proof. intros Hp. destruct b; cbn; [by apply Forall_singleton|constructor]. Qed.

Lemma names_rule text rule needs : _NAMES text = Some (rule, needs) -> policy_rule (u rule) = false.
Proof. unfold _NAMES. repeat case_match; intros; by simplify_eq. Qed.

Lemma usability_rules o ts k t : Forall (fun r => policy_rule (ra_rule r) = false) (usability_at o ts k t).
Proof.
  unfold usability_at, import_rules. destruct (t_kind t); try constructor.
  - destruct (_ && _); [apply Forall_app; split; by apply flag_rule|].
    destruct (bool_decide _); [by apply flag_rule|].
    destruct (is_in _ _); [repeat case_match; by apply flag_rule|].
    destruct (_NAMES (t_text t)) as [[rule needs]|] eqn:E.
    + apply names_rule in E. destruct (_ && _); by apply flag_rule.
    + apply Forall_app; split; by apply flag_rule.
  - apply Forall_app; split; by apply flag_rule.
Qed.

Lemma each_token_Forall (P : raised -> Prop) f k ts :
  (forall k t, Forall P (f k t)) -> Forall P (each_token f k ts).
Proof.
  intros Hf. revert k. induction ts as [|t ts IH]; intros k; cbn; [constructor|].
  apply Forall_app. split; [apply Hf|apply IH].
Qed.

Lemma add_raised_error code seen rs r :
  In r rs -> ra_sev r = SError ->
  Forall (fun r' => ra_rule r' = ra_rule r -> ra_sev r' = SError) rs ->
  (ra_rule r, ra_off r) ∉ seen -> existsb is_error (add_raised code seen rs) = true.
Proof.
  intros Hin Hs. revert seen. induction rs as [|r0 rs IH]; intros seen Hc Hn; [done|].
  apply Forall_cons in Hc as [H0 Hc]. cbn [add_raised].
  destruct (bool_decide _) eqn:E.
  - apply bool_decide_eq_true in E. destruct Hin as [->|Hin]; [done|]. by apply IH.
  - cbn [existsb]. apply orb_true_iff.
    destruct (decide ((ra_rule r, ra_off r) = (ra_rule r0, ra_off r0))) as [Heq|Hne].
    + left. simplify_eq. unfold is_error, locate_finding. cbn. by rewrite H0.
    + right. destruct Hin as [->|Hin]; [done|]. apply IH; [done|done|]. set_solver.
Qed.

Lemma insert_finding_error f l : existsb is_error (insert_finding f l) = is_error f || existsb is_error l.
Proof.
  induction l as [|g l IH]; cbn; [done|]. destruct (before_ f g); cbn; [done|]. rewrite IH.
  rewrite !orb_assoc. f_equal. apply orb_comm.
Qed.

Lemma sort_findings_error l : existsb is_error (sort_findings l) = existsb is_error l.
Proof.
  induction l as [|f l IH]; [done|]. change (sort_findings (f :: l)) with (insert_finding f (sort_findings l)).
  cbn [existsb]. by rewrite insert_finding_error, IH.
Qed.

Section Found.
Context `{Unicode}.

Lemma when_rule b rule name at_ (P : report -> Prop) :
  P (Report (u rule) name at_) -> Forall P (when b rule name at_).
Proof. intros Hp. destruct b; cbn; [by apply Forall_singleton|constructor]. Qed.

Lemma scan_words_rules p code v ws n :
  Forall (fun r => policy_rule (r_rule r) = true) (scan_words p code v ws n).
Proof.
  revert n. induction ws as [|[s e] ws IH]; intros n; cbn [scan_words]; [constructor|].
  repeat case_match; [apply IH|constructor|]. apply Forall_app. split; [|apply IH].
  unfold word_reports. repeat (apply Forall_app; split); try by apply when_rule.
  destruct (forbid_eval p); [|constructor]. case_bool_decide; [by apply Forall_singleton|by apply when_rule].
Qed.

Lemma scan_text_rules p code : Forall (fun r => policy_rule r.1.1 = true) (_scan_text p code).
Proof.
  assert (Hv : forall v, Forall (fun r => policy_rule r.1.1 = true) (_scan_view p code v)).
  { intros v. unfold _scan_view. apply Forall_fmap. eapply Forall_impl; [apply scan_words_rules|]. done. }
  unfold _scan_text. apply Forall_app. split; [apply Hv|]. case_match; [apply Hv|constructor].
Qed.

Lemma reported_not_ok p code o : ignore_strings_and_comments p = false ->
  _scan_text p code <> [] -> ok (check_source code o (Some p)) = false.
Proof.
  intros Hi Hne. unfold check_source. destruct (source_too_large p code); [done|]. rewrite Hi.
  cbv zeta. unfold result_of, policy_raised. cbn [ok]. rewrite Hi, sort_findings_error.
  pose proof (scan_text_rules p code) as Hr. destruct (_scan_text p code) as [|[[rule name] off] rest]; [done|].
  apply Forall_cons in Hr as [Hrule Hrest]. cbn [fst] in Hrule. apply negb_false_iff.
  apply (add_raised_error _ _ _ (Raised rule SError name off)); [|done| |set_solver].
  - apply in_or_app. right. by left.
  - cbn [ra_rule]. apply Forall_app. split.
    + destruct (include_preflight_rules p); [|constructor].
      eapply Forall_impl; [apply each_token_Forall, usability_rules|]. cbv beta. intros r Hf E. congruence.
    + apply Forall_fmap, Forall_true. done.
Qed.
End Found.

(** The default policy scan fails closed on spelling: if the code, read by the
    escape rules of JavaScript ([spells], including escapes and line continuations
    anywhere), contains a refused name as a whole word, then whatever surrounds it
    (strings, comments, a thousand other findings, the usability rules) the result is
    not ok. *)
Theorem forbidden_name_found `{Unicode} p o code a w b :
  ignore_strings_and_comments p = false ->
  spells code (a ++ w ++ b) -> w <> [] -> Forall (fun c => word_char c = true) w ->
  no_word_end a -> no_word_start b -> refused_name p w ->
  ok (check_source code o (Some p)) = false.
Proof. intros. apply reported_not_ok; [done|]. by eapply scan_text_found. Qed.

(** The Unicode database restricted to ASCII. *)
Definition ascii_space (c : Z) : bool := ((9 <=? c) && (c <=? 13)) || ((28 <=? c) && (c <=? 32)).
Definition ascii_unicode : Unicode.
Proof.
  refine {| uni_isalnum c := is_alpha c || is_digit c; uni_isspace := ascii_space;
            uni_isdigit := is_digit; uni_isidentifier _ := false |}; intros; reflexivity.
Defined.

Definition demo_policy : SourcePolicy :=
  Policy [u "process"] [] true true true true (Some 1048576) false false false.
Definition demo_options : options := Options false false true.

(** [a=\u0065v\x61l;] is [a=eval;]. *)
Definition demo_code : list Z := u "a=\u0065v\x61l;".

Lemma demo_code_spells : spells demo_code (u "a=" ++ u "eval" ++ u ";").
Proof.
  apply sp_char; [discriminate|]. apply sp_char; [discriminate|].
  apply (sp_u4 48 48 54 53 (u "v\x61l;") (u "val;")); [reflexivity|].
  apply sp_char; [discriminate|]. apply (sp_x2 54 49 (u "l;") (u "l;")); [reflexivity|].
  apply sp_char; [discriminate|]. apply sp_char; [discriminate|]. apply sp_nil.
Qed.

Lemma forbidden_name_found_witness :
  spells demo_code (u "a=" ++ u "eval" ++ u ";") /\
  ok (@check_source ascii_unicode demo_code demo_options (Some demo_policy)) = false.
Proof.
  split; [exact demo_code_spells|].
  apply (@forbidden_name_found ascii_unicode demo_policy demo_options demo_code (u "a=") (u "eval") (u ";"));
    [reflexivity|exact demo_code_spells|discriminate|repeat constructor|reflexivity|reflexivity|].
  right. right. left. split; reflexivity.
Defined.

(** ** The tokenizer *)

Section Tokens.
Context `{Unicode} (policy : bool).

Definition grows (st st' : tstate) (i : Z) : Prop :=
  toks st' = toks st \/ exists k text, toks st' = Tok k text i :: toks st.

Lemma grows_push st st0 k text i : toks st0 = toks st -> grows st (push st0 k text i) i.
Proof. intros E. right. exists k, text. cbn. by rewrite E. Qed.

Lemma sub_step_ok st i c s' :
  (1 <= (template_step policy st i s').2)%nat /\ grows st (template_step policy st i s').1 i /\
  (1 <= (close_brace_step st i s').2)%nat /\ grows st (close_brace_step st i s').1 i /\
  (1 <= (paren_step st i c).2)%nat /\ grows st (paren_step st i c).1 i /\
  (1 <= (slash_step st i s').2)%nat /\ grows st (slash_step st i s').1 i.
Proof.
  unfold template_step, close_brace_step, paren_step, slash_step.
  destruct (scan_template s') as [k closed]. destruct (regex_span false s') as [j cl].
  split_and!.
  - cbn. lia.
  - destruct closed; cbn [fst]; right; by eexists _, _.
  - destruct (stack st) as [|[] sk]; cbn; lia.
  - destruct (stack st) as [|[] sk]; cbn [fst]; try by apply grows_push. by left.
  - cbn. lia.
  - cbn [fst]. apply grows_push. repeat case_match; done.
  - destruct cl; cbn; lia.
  - destruct cl; cbn [fst]; by apply grows_push.
Qed.

Lemma tok_step_ok st i c s' :
  (1 <= (tok_step policy st i c s').2)%nat /\ grows st (tok_step policy st i c s').1 i.
Proof.
  destruct (sub_step_ok st i c s') as (T1 & T2 & B1 & B2 & P1 & P2 & S1 & S2).
  unfold tok_step. destruct (is_blank policy c); [split; [cbn; lia|by left]|].
  destruct (starts_with (u "//") (c :: s')) eqn:E.
  { split; [|by left]. apply andb_true_iff in E as [E _]. apply Z.eqb_eq in E.
    assert (Hc : c = 47) by (symmetry; exact E). clear E. subst c.
    change (1 <= length (47%Z :: (span (fun c => negb (mem_chars _LINE_TERMINATORS c)) s').1))%nat. cbn [length]. lia. }
  destruct (starts_with (u "/*") (c :: s')); [split; [cbn; lia|by left]|].
  destruct (_ || _); [split; [cbn; lia|by apply grows_push]|].
  destruct (c =? 96); [done|].
  destruct (c =? chr "{"); [split; [cbn; lia|by apply grows_push]|].
  destruct (c =? chr "}"); [done|].
  destruct (policy && mem_chars (u "()") c); [done|].
  destruct (_ && regex_allowed policy st); [done|].
  destruct (_ && negb policy); [split; [cbn; lia|by apply grows_push]|].
  destruct (policy && _).
  { destruct (ident_loop _ _) as [name k]. destruct (Nat.eqb_spec k 0); cbn [fst snd];
      (split; [lia|by apply grows_push]). }
  destruct (_ || _); [split; [cbn; lia|by apply grows_push]|].
  destruct (_ && _); (split; [cbn; lia|by apply grows_push]).
Qed.

(** Offsets increase, and lie before the current position and within the text. *)
Definition tokens_ok (n : Z) (ts : list _Tok) (i : Z) : Prop :=
  StronglySorted Z.lt (t_off <$> rev ts) /\ Forall (fun t => 0 <= t_off t < i /\ t_off t < n) ts.

Lemma tokens_ok_step n st st' i j : 0 <= i < j -> i < n ->
  tokens_ok n (toks st) i -> grows st st' i -> tokens_ok n (toks st') j.
Proof.
  intros Hi Hn [Hs Hf] [->|(k & text & ->)].
  - split; [done|]. eapply Forall_impl; [exact Hf|]. cbn. lia.
  - split.
    + cbn [rev]. rewrite fmap_app. apply StronglySorted_app_2; [|done|cbn; repeat constructor].
      intros x y Hx Hy. apply list_elem_of_fmap in Hx as (t & -> & Ht). cbn in Hy.
      apply list_elem_of_singleton in Hy as ->. rewrite list_elem_of_In in Ht. apply in_rev in Ht.
      apply (proj1 (List.Forall_forall _ _) Hf) in Ht. lia.
    + constructor; [cbn; lia|]. eapply Forall_impl; [exact Hf|]. cbn. lia.
Qed.

Lemma tokenize_loop_ok n fuel st i s :
  (length s <= fuel)%nat -> 0 <= i -> s = [] \/ i + Z.of_nat (length s) = n -> tokens_ok n (toks st) i ->
  (tokenize_loop policy fuel st i s).2 = [] /\
  exists j, tokens_ok n (toks (tokenize_loop policy fuel st i s).1) j.
Proof.
  revert st i s. induction fuel as [|fuel IH]; intros st i s Hf Hi Hn Ht.
  { destruct s; [|cbn in Hf; lia]. split; [done|]. by exists i. }
  destruct s as [|c s']; [split; [done|]; by exists i|]. destruct Hn as [|Hn]; [done|].
  cbn [tokenize_loop]. destruct (tok_step_ok st i c s') as [H1 H2].
  set (r := tok_step policy st i c s') in *. cbn [length] in Hf, Hn. apply IH.
  - rewrite length_drop. cbn [length]. lia.
  - lia.
  - destruct (decide (length (c :: s') <= r.2)%nat) as [Hl|Hl]; [left; by apply drop_ge|right].
    rewrite length_drop. cbn [length] in *. lia.
  - eapply tokens_ok_step; [| |exact Ht|exact H2]; lia.
Qed.
End Tokens.

(** C34. The tokenizer is total on every text in both modes: its loop, which takes at
    least one character a turn, consumes the whole text within its length in turns, and
    the tokens it yields lie in the text, at strictly increasing offsets. *)
Theorem tokenizer_total `{Unicode} policy src :
  (tokenize_loop policy (length src) (TState [] [] [] 0 [] []) 0 src).2 = [] /\
  StronglySorted Z.lt (t_off <$> _tokenize policy src) /\
  Forall (fun t => 0 <= t_off t < Z.of_nat (length src)) (_tokenize policy src).
Proof.
  destruct (tokenize_loop_ok policy (Z.of_nat (length src)) (length src) (TState [] [] [] 0 [] []) 0 src)
    as (H1 & j & Hs & Hf); [lia|lia|right; lia|split; [constructor|constructor]|].
  split; [done|]. split; [exact Hs|]. unfold _tokenize. apply Forall_rev.
  eapply Forall_impl; [exact Hf|]. cbn. lia.
Qed.
