(* ===== verification/NativeScan.v ===== *)
(** * Dispatching a source check ([python/pydeno/_preflight.py], [check_source], [_native_check])

    [check_source] hands the text to the native scanner, turns its rows into findings, and falls
    back to the reference implementation ([Tokenizer.check_source]) when the native one does not
    take the text.  The native scanner is the interface [NativeScanner]; what its documentation
    promises, the findings of the reference, is [NativeLaws]. *)

From S2P Require Import Prelude Utf8 PyVal PyStr Preflight Tokenizer.

(** A row of [_scan_source]. *)
Record row := Row { r_kind : Z; r_line : Z; r_column : Z; r_arg : Z }.

(** [unicode_covered]: [_UNICODE is not None]; [scan_source] is [None] where it raises
    [ValueError].  Its policy is the two lists of names and the flags. *)
Class NativeScanner := {
  unicode_covered : bool;
  scan_source : list Z -> option (list (list Z) * list (list Z) * Z) -> options -> option (list row) }.

Definition _NATIVE_MAX_SOURCE_BYTES : Z := 16 * 1024 * 1024.

Definition bit (n : Z) (b : bool) : Z := if b then n else 0.
Definition policy_flags (p : SourcePolicy) : Z :=
  Z.lor (Z.lor (Z.lor (bit 1 (forbid_dynamic_import p)) (bit 2 (forbid_eval p))) (Z.lor (bit 4 (forbid_function p)) (bit 8 (forbid_webassembly p))))
        (Z.lor (Z.lor (bit 16 (forbid_computed_global_access p)) (bit 32 (include_preflight_rules p))) (bit 64 (ignore_strings_and_comments p))).
Definition native_spec (policy : option SourcePolicy) : option (list (list Z) * list (list Z) * Z) :=
  (fun p => (forbidden_identifiers p, forbidden_globals p, policy_flags p)) <$> policy.

Definition _NATIVE_NAMES : list (string * string) :=
  [("require", "require"); ("fetch", "fetch"); ("XMLHttpRequest", "xhr"); ("WebSocket", "websocket"); ("process", "process");
   ("Deno", "deno"); ("child_process", "child-process")]%string.
Definition _NATIVE_GLOBALS : list string := ["globalThis"; "self"; "window"; "global"]%string.
Definition _TIMER_NAMES : list string := ["setTimeout"; "setInterval"]%string.

(** The fixed findings: rule and severity. *)
Definition _FIXED (kind : Z) : option (string * severity) :=
  if kind =? 3 then Some ("forbidden-dynamic-import"%string, SError)
  else if kind =? 4 then Some ("forbidden-eval"%string, SError)
  else if kind =? 6 then Some ("forbidden-function-constructor"%string, SError)
  else if kind =? 7 then Some ("forbidden-webassembly"%string, SError)
  else if kind =? 8 then Some ("forbidden-computed-global-access"%string, SError)
  else if (kind =? 22) || (kind =? 23) then Some ("proto"%string, SWarning)
  else if kind =? 24 then Some ("constructor-constructor"%string, SWarning)
  else if kind =? 25 then Some ("static-export"%string, SError)
  else if kind =? 26 then Some ("dynamic-import"%string, SError)
  else if (kind =? 27) || (kind =? 28) then Some ("static-import"%string, SError)
  else if (kind =? 30) || (kind =? 31) then Some ("eval"%string, SInfo)
  else None.

(** [l[i]]: a negative index counts from the end. *)
Definition index {A} (l : list A) (i : Z) : result exn A :=
  let j := if i <? 0 then i + Z.of_nat (length l) else i in
  match (if j <? 0 then None else l !! Z.to_nat j) with Some x => Ok x | None => Err (IndexError "index out of range") end.

(** One row as a finding; [fd_name]: the name its message carries. *)
Definition finding_of_row (policy : option SourcePolicy) (r : row) : result exn finding :=
  let found rule sev name := Ok (MkFound rule sev name r.(r_line) r.(r_column)) in
  let identifiers := match policy with Some p => forbidden_identifiers p | None => [] end in
  let globals := match policy with Some p => forbidden_globals p | None => [] end in
  match _FIXED r.(r_kind) with
  | Some (rule, sev) => found (u rule) sev []
  | None =>
      if r.(r_kind) =? 1 then name ← index identifiers r.(r_arg); found (u "forbidden-identifier") SError name
      else if r.(r_kind) =? 2 then name ← index globals r.(r_arg); found (u "forbidden-global") SError name
      else if r.(r_kind) =? 5 then name ← index _TIMER_NAMES r.(r_arg); found (u "forbidden-string-timer") SError (u name)
      else if r.(r_kind) =? 20 then _ ← index _NATIVE_GLOBALS (r.(r_arg) / 16); name ← index _NATIVE_NAMES (r.(r_arg) mod 16); found (u "global-alias") SError (u name.1)
      else if r.(r_kind) =? 21 then name ← index _NATIVE_NAMES r.(r_arg); found (u "global-alias") SError (u name.1)
      else if r.(r_kind) =? 29 then name ← index _NATIVE_NAMES r.(r_arg); found (u name.2) SError (u name.1)
      else Err (AssertionError "unknown native finding")
  end.

Section Dispatch.
Context `{Unicode, NativeScanner}.

Definition _native_check (code : list Z) (o : options) (policy : option SourcePolicy) : result exn (option PreflightResult) :=
  if negb unicode_covered || (_NATIVE_MAX_SOURCE_BYTES <? Z.of_nat (length code)) then Ok None
  else
    match scan_source code (native_spec policy) o with
    | None => Ok None
    | Some rows => fs ← mapM (finding_of_row policy) rows; Ok (Some (result_of fs))
    end.

Definition too_large (policy : option SourcePolicy) (code : list Z) : bool := match policy with Some p => source_too_large p code | None => false end.

Definition check_source_native (code : list Z) (o : options) (policy : option SourcePolicy) : result exn PreflightResult :=
  if too_large policy code then Ok (Preflight_ false [MkFound (u "source-too-large") SError [] 1 1])
  else
    found ← _native_check code o policy;
    Ok (match found with Some r => r | None => Tokenizer.check_source code o policy end).
End Dispatch.

(** What of a finding the two scanners agree on. *)
Definition finding_key (f : finding) : list Z * severity * Z * Z := (fd_rule f, fd_sev f, fd_line f, fd_column f).

(** The native scanner gives the findings of the reference, whose text is not too large. *)
Class NativeLaws `{Unicode, NativeScanner} : Prop := {
  native_agrees : forall code o policy rows, scan_source code (native_spec policy) o = Some rows -> too_large policy code = false ->
    exists fs, mapM (finding_of_row policy) rows = Ok fs /\ finding_key <$> fs = finding_key <$> findings (Tokenizer.check_source code o policy) }.

Section Agreement.
Context `{Unicode, NativeScanner, !NativeLaws}.

Lemma errors_by_key fs gs : finding_key <$> fs = finding_key <$> gs -> existsb is_error fs = existsb is_error gs.
Proof.
  revert gs. induction fs as [|f fs IH]; intros [|g gs] E; try done. rewrite !fmap_cons in E. injection E as _ E _ _ Er. cbn. rewrite (IH gs Er). f_equal.
  unfold is_error. by rewrite E.
Qed.

(** Whichever scanner runs, the check returns a result, and an error is found exactly when the
    reference finds one. *)
Lemma dispatch_agrees code o policy : exists r, check_source_native code o policy = Ok r /\
  existsb is_error (findings r) = existsb is_error (findings (Tokenizer.check_source code o policy)).
Proof.
  unfold check_source_native. destruct (too_large policy code) eqn:Et.
  { eexists. split; [done|]. unfold Tokenizer.check_source. unfold too_large in Et. by rewrite Et. }
  unfold _native_check. destruct (_ || _); [by eexists|]. destruct (scan_source _ _ _) as [rows|] eqn:Es; [|by eexists].
  destruct (native_agrees code o policy rows Es Et) as (fs & -> & Hk). eexists. split; [done|]. by apply errors_by_key.
Qed.
End Agreement.
