(* ===== verification/StaticGateProps.v ===== *)
(** * The static gate in front of an entry point

    [static_gate(policy)] ([_gate.py]) over [check_source] ([_preflight.py], with its native
    scanner), held by an entry point's hook: the components' theorems composed. *)

From S2P Require Import Prelude Utf8 PyVal PyStr Sha256 Limits Gate GateProps Preflight Tokenizer PreflightProps NativeScan.

(** [StaticGate.check]: [check_source(source, policy=self.policy)], with the message of
    each finding. *)
Definition static_check `{Unicode, NativeScanner} (p : SourcePolicy) (message : Tokenizer.finding -> list Z) (source : list Z)
  : result exn (list Gate.finding) :=
  r ← check_source_native source (Options false false true) (Some p);
  Ok ((fun f => Gate.Finding (fd_rule f) (fd_line f) (fd_column f) (message f) (is_error f)) <$> findings r).

(** An exception of the check is one of the gate. *)
Definition static_gate `{Unicode, NativeScanner} (p : SourcePolicy) (message : Tokenizer.finding -> list Z) : gate := fun source c =>
  match static_check p message source with
  | Ok fs => StaticGate (fun _ => fs) source c
  | Err _ => GRaised "Exception"
  end.

Lemma check_source_consistent `{Unicode} code o p :
  ok (check_source code o p) = negb (existsb is_error (findings (check_source code o p))).
Proof. unfold check_source. case_match; done. Qed.

Lemma existsb_filter {A} (p : A -> bool) l : existsb p l = true -> List.filter p l <> [].
Proof. induction l as [|x l IH]; cbn; [done|]. destruct (p x); [done|]. exact IH. Qed.

Lemma static_gate_denies `{Unicode, NativeScanner, !NativeLaws} p message source c :
  ok (check_source source (Options false false true) (Some p)) = false ->
  ~ says_yes (static_gate p message source c).
Proof.
  rewrite check_source_consistent. intros Ho%negb_false_iff (r & ls & labels & Hr & _).
  destruct (dispatch_agrees source (Options false false true) (Some p)) as (res & Ec & He). rewrite Ho in He.
  unfold static_gate, static_check in Hr. rewrite Ec in Hr. cbn [mbind result_bind] in Hr. unfold StaticGate in Hr. rewrite bool_decide_eq_false_2 in Hr; [done|].
  apply existsb_filter. rewrite existsb_exists in He. destruct He as (f & Hin & Hf). apply existsb_exists.
  exists (Gate.Finding (fd_rule f) (fd_line f) (fd_column f) (message f) (is_error f)). split; [|exact Hf].
  apply list_elem_of_In, list_elem_of_fmap. exists f. split; [reflexivity|]. by apply list_elem_of_In.
Qed.


(** A native scanner that takes one text. *)
#[local] Existing Instance ascii_unicode.
#[local] Instance demo_scanner : NativeScanner := {|
  unicode_covered := true;
  scan_source code spec o := if bool_decide (code = demo_code) && bool_decide (spec = native_spec (Some demo_policy)) then Some [Row 4 1 3 0] else None |}.

Lemma demo_policy_only p : native_spec p = native_spec (Some demo_policy) -> exists m, p = Some (Policy [u "process"] [] true true true true m false false false).
Proof.
  destruct p as [[ids gs d e f w m i c ig]|]; [|done]. cbn. intros [= -> -> Hf]. exists m. destruct d, e, f, w, i, c, ig; try discriminate Hf; done.
Qed.

#[local] Instance demo_scanner_laws : NativeLaws.
Proof.
  constructor. intros code o policy rows. cbn [scan_source demo_scanner]. destruct (_ && _) eqn:E; [|done]. intros [= <-] Hl.
  apply andb_true_iff in E as [->%bool_decide_eq_true E%bool_decide_eq_true]. destruct (demo_policy_only policy E) as [m ->].
  eexists. split; [reflexivity|]. unfold check_source. unfold too_large in Hl. rewrite Hl. destruct o. by vm_compute.
Qed.

