(* ===== verification/Template.v ===== *)
(** * The fork template ([python/pydeno/_template.py])

    A template process forks workers for the host; the host signals them by pid, so a pid must not
    be given away while the host may still use it.  The model is the two processes, the frames in
    flight between them and the kernel's table of pids, all interleaved: one request or one reaped
    child of the template at a time, one lock section, one signal or one frame of the host at a
    time.  Frames arrive whole and in order; a fork request comes with its three descriptors. *)

From S2P Require Import Prelude.

(** ** The kernel *)

(** What a pid names: the [inst]-th worker that was forked, running or with the code it exited
    with and not reaped yet, or another program's process. *)
Inductive occupant := Worker (inst : nat) (exited : option Z) | Stranger.

(** Who sends a signal; with the number of the fork request where the code has one. *)
Inductive sender := ByProc (seq : Z) | ByReader (seq : Z) | ByFork (seq : Z) | ByEof | ByClose.

Record signal := Signal { by_ : sender; to_pid : Z; hit : option occupant; template_was_up : bool }.

(** [forked] and [died] are the history: the worker each request got, the code each exited with. *)
Record kernel := Kernel {
  pids : gmap Z occupant; next_inst : nat; forked : gmap Z nat; died : gmap nat Z; signals : list signal
}.

(** ** The template process *)

Inductive request := _FORK (seq : Z) | _RETIRE | _ACK (pid : Z).
#[export] Instance request_eq_dec : EqDecision request.
Proof. solve_decision. Defined.
Inductive event := EP (seq pid : Z) | EE (seq errno : Z) | EX (pid code : Z).

Record template := Tmpl {
  up : bool; running : gset Z; zombies : gset Z; early_acks : gset Z; retiring : bool;
  inbox : list request; outbox : list event
}.

Inductive fork_outcome := Forked (pid : Z) | ForkFails (errno : Z).

Definition reap_pid (pid : Z) (k : kernel) : kernel :=
  Kernel (delete pid k.(pids)) k.(next_inst) k.(forked) k.(died) k.(signals).

(** [_fork_worker], in the template; a new process gets a pid that is free. *)
Definition _fork_worker (seq : Z) (o : fork_outcome) (k : kernel) (t : template) : option (kernel * template) :=
  match o with
  | ForkFails errno =>
      Some (k, Tmpl t.(up) t.(running) t.(zombies) t.(early_acks) t.(retiring) t.(inbox) (t.(outbox) ++ [EE seq errno]))
  | Forked pid =>
      match k.(pids) !! pid with
      | Some _ => None
      | None =>
          Some (Kernel (<[pid := Worker k.(next_inst) None]> k.(pids)) (S k.(next_inst)) (<[seq := k.(next_inst)]> k.(forked)) k.(died) k.(signals),
                Tmpl t.(up) ({[pid]} ∪ t.(running)) t.(zombies) t.(early_acks) t.(retiring) t.(inbox) (t.(outbox) ++ [EP seq pid]))
      end
  end.

(** One frame of [template_main]'s loop. *)
Definition handle_request (o : fork_outcome) (k : kernel) (t : template) : option (kernel * template) :=
  match t.(inbox) with
  | [] => None
  | r :: rest =>
      let t := Tmpl t.(up) t.(running) t.(zombies) t.(early_acks) t.(retiring) rest t.(outbox) in
      match r with
      | _RETIRE => Some (k, Tmpl t.(up) t.(running) t.(zombies) t.(early_acks) true rest t.(outbox))
      | _ACK pid =>
          if decide (pid ∈ t.(zombies)) then
            Some (reap_pid pid k, Tmpl t.(up) t.(running) (t.(zombies) ∖ {[pid]}) t.(early_acks) t.(retiring) rest t.(outbox))
          else if decide (pid ∈ t.(running)) then
            Some (k, Tmpl t.(up) t.(running) t.(zombies) ({[pid]} ∪ t.(early_acks)) t.(retiring) rest t.(outbox))
          else Some (k, t)
      | _FORK seq =>
          if t.(retiring) then
            Some (k, Tmpl t.(up) t.(running) t.(zombies) t.(early_acks) t.(retiring) rest (t.(outbox) ++ [EE seq 22]))
          else _fork_worker seq o k t
      end
  end.

(** [_reap], for one child that [waitid] reports. *)
Definition _reap (pid : Z) (k : kernel) (t : template) : option (kernel * template) :=
  match k.(pids) !! pid with
  | Some (Worker _ (Some code)) =>
      if decide (pid ∈ t.(running)) then
        let running := t.(running) ∖ {[pid]} in
        let outbox := t.(outbox) ++ [EX pid code] in
        if decide (pid ∈ t.(early_acks)) then
          Some (reap_pid pid k, Tmpl t.(up) running t.(zombies) (t.(early_acks) ∖ {[pid]}) t.(retiring) t.(inbox) outbox)
        else Some (k, Tmpl t.(up) running ({[pid]} ∪ t.(zombies)) t.(early_acks) t.(retiring) t.(inbox) outbox)
      else None
  | _ => None
  end.

Definition leave (t : template) : template :=
  Tmpl false t.(running) t.(zombies) t.(early_acks) t.(retiring) t.(inbox) t.(outbox).
Definition send_request (r : request) (t : template) : template :=
  Tmpl t.(up) t.(running) t.(zombies) t.(early_acks) t.(retiring) (t.(inbox) ++ [r]) t.(outbox).

(** ** The host *)

Inductive reply := ReplyP (pid : Z) | ReplyE (errno : Z).

Record _Template := Host {
  max_forks : Z; forks : Z; _exits : gmap Z Z; _started : gset Z; _replies : gmap Z reply; _waiting : gset Z;
  _seq : Z; dead : bool; eof : bool; broken : bool; retire_requested : bool; _retire_sent : bool; _outstanding : Z; _closing : bool
}.

(** Where a thread is in [fork_worker]: reserved; about to send its request; waiting; on its way
    out with an exception, with the pid it had got; cleaned up, about to kill; about to ack; in
    [finally]; about to send the retire; returned.  [retire] is a thread that starts at
    [Retiring]. *)
Inductive caller :=
| Reserved
| Sending (seq : Z)
| Waiting (seq : Z)
| Raised (seq : Z) (pid : option Z)
| Killing (seq pid : Z)
| Acking (seq pid : Z)
| Finally
| Retiring
| Returned.

Record ForkedProc := Proc { p_seq : Z; p_pid : Z; returncode : option Z; _acked : bool; dropped : bool }.

(** The reader thread: at the socket; having found a worker nobody waits for; about to ack it;
    signalling what a lost template left; done. *)
Inductive reading := AtSocket | Abandoned (seq pid : Z) | AbandonedAck (seq pid : Z) | Orphans (lost : list Z) | ReaderDone.

(** The thread that closes the template. *)
Inductive closing := NotClosing | Workers (lost : list Z) | Shutdown | Shut | ClosedAll.

(** [reads]: an exit code [exit_code] returned to a thread that has not resolved its proc yet. *)
Record world := World {
  K : kernel; T : template; H : _Template; callers : list caller; procs : list ForkedProc;
  reads : list (nat * Z); rdr : reading; closer : closing
}.

Definition init_host (n : Z) : _Template := Host n 0 ∅ ∅ ∅ ∅ 0 false false false false false 0 false.
Definition init (n : Z) (others : gset Z) : world :=
  World (Kernel (set_to_map (fun pid => (pid, Stranger)) others) 0 ∅ ∅ []) (Tmpl true ∅ ∅ ∅ false [] []) (init_host n) [] [] [] AtSocket NotClosing.

Definition on_K (f : kernel -> kernel) (w : world) : world := World (f w.(K)) w.(T) w.(H) w.(callers) w.(procs) w.(reads) w.(rdr) w.(closer).
Definition on_T (f : template -> template) (w : world) : world := World w.(K) (f w.(T)) w.(H) w.(callers) w.(procs) w.(reads) w.(rdr) w.(closer).
Definition on_H (f : _Template -> _Template) (w : world) : world := World w.(K) w.(T) (f w.(H)) w.(callers) w.(procs) w.(reads) w.(rdr) w.(closer).
Definition set_caller (i : nat) (c : caller) (w : world) : world := World w.(K) w.(T) w.(H) (<[i := c]> w.(callers)) w.(procs) w.(reads) w.(rdr) w.(closer).
Definition add_caller (c : caller) (w : world) : world := World w.(K) w.(T) w.(H) (w.(callers) ++ [c]) w.(procs) w.(reads) w.(rdr) w.(closer).
Definition set_procs (ps : list ForkedProc) (w : world) : world := World w.(K) w.(T) w.(H) w.(callers) ps w.(reads) w.(rdr) w.(closer).
Definition set_reads (rs : list (nat * Z)) (w : world) : world := World w.(K) w.(T) w.(H) w.(callers) w.(procs) rs w.(rdr) w.(closer).
Definition set_rdr (r : reading) (w : world) : world := World w.(K) w.(T) w.(H) w.(callers) w.(procs) w.(reads) r w.(closer).
Definition set_closer (c : closing) (w : world) : world := World w.(K) w.(T) w.(H) w.(callers) w.(procs) w.(reads) w.(rdr) c.

(** [_killpg_or_kill]: whatever the pid names is killed (the group of a worker is its own); what it
    hit is logged. *)
Definition _killpg_or_kill (s : sender) (pid : Z) (w : world) : world :=
  on_K (fun k =>
    Kernel k.(pids) k.(next_inst) k.(forked) k.(died) (k.(signals) ++ [Signal s pid (k.(pids) !! pid) w.(T).(up)])) w.

Definition ack (pid : Z) : world -> world := on_T (send_request (_ACK pid)).

Definition set_events (ex : gmap Z Z) (st : gset Z) (rs : gmap Z reply) (h : _Template) : _Template :=
  Host h.(max_forks) h.(forks) ex st rs h.(_waiting) h.(_seq) h.(dead) h.(eof) h.(broken) h.(retire_requested) h.(_retire_sent) h.(_outstanding) h.(_closing).
Definition set_waiting (ws : gset Z) (h : _Template) : _Template :=
  Host h.(max_forks) h.(forks) h.(_exits) h.(_started) h.(_replies) ws h.(_seq) h.(dead) h.(eof) h.(broken) h.(retire_requested) h.(_retire_sent) h.(_outstanding) h.(_closing).
Definition set_dead (h : _Template) : _Template :=
  Host h.(max_forks) h.(forks) h.(_exits) h.(_started) h.(_replies) h.(_waiting) h.(_seq) true h.(eof) h.(broken) h.(retire_requested) h.(_retire_sent) h.(_outstanding) h.(_closing).
Definition set_broken (h : _Template) : _Template :=
  Host h.(max_forks) h.(forks) h.(_exits) h.(_started) h.(_replies) h.(_waiting) h.(_seq) h.(dead) h.(eof) true h.(retire_requested) h.(_retire_sent) h.(_outstanding) h.(_closing).
Definition set_retire (requested sent : bool) (h : _Template) : _Template :=
  Host h.(max_forks) h.(forks) h.(_exits) h.(_started) h.(_replies) h.(_waiting) h.(_seq) h.(dead) h.(eof) h.(broken) requested sent h.(_outstanding) h.(_closing).

(** *** Reading *)

(** The lock section of [_on_event], and whether the worker is abandoned. *)
Definition _on_event (e : event) (w : world) : world :=
  let h := w.(H) in
  match e with
  | EX pid code => on_H (set_events (<[pid := code]> h.(_exits)) h.(_started) h.(_replies)) w
  | EP seq pid =>
      let ex := delete pid h.(_exits) in
      if decide (seq ∈ h.(_waiting)) then on_H (set_events ex ({[pid]} ∪ h.(_started)) (<[seq := ReplyP pid]> h.(_replies))) w
      else set_rdr (Abandoned seq pid) (on_H (set_events ex h.(_started) h.(_replies)) w)
  | EE seq errno =>
      if decide (seq ∈ h.(_waiting)) then on_H (set_events h.(_exits) h.(_started) (<[seq := ReplyE errno]> h.(_replies))) w else w
  end.

Definition _unresolved (h : _Template) : list Z := filter (fun pid => h.(_exits) !! pid = None) (elements h.(_started)).

Definition set_eof (h : _Template) : _Template :=
  Host h.(max_forks) h.(forks) h.(_exits) h.(_started) h.(_replies) h.(_waiting) h.(_seq) h.(dead) true h.(broken) h.(retire_requested) h.(_retire_sent) h.(_outstanding) h.(_closing).

(** [_on_eof], up to the signals. *)
Definition _on_eof (w : world) : world :=
  let w := on_H set_eof w in
  set_rdr (Orphans (if w.(H).(_closing) then [] else _unresolved w.(H))) w.

(** [exit_code] with no time left to wait. *)
Definition exit_code (pid : Z) (h : _Template) : option Z :=
  match h.(_exits) !! pid with
  | Some code => Some code
  | None => if h.(dead) then Some (-9) else None
  end.

(** *** Forking *)

Definition reserve (h : _Template) : _Template :=
  Host h.(max_forks) (h.(forks) + 1) h.(_exits) h.(_started) h.(_replies) h.(_waiting) h.(_seq) h.(dead) h.(eof) h.(broken) h.(retire_requested) h.(_retire_sent)
    (h.(_outstanding) + 1) h.(_closing).

Definition next_seq (h : _Template) : _Template :=
  let s := h.(_seq) + 1 in
  Host h.(max_forks) h.(forks) h.(_exits) h.(_started) h.(_replies) ({[s]} ∪ h.(_waiting)) s h.(dead) h.(eof) h.(broken) h.(retire_requested) h.(_retire_sent)
    h.(_outstanding) h.(_closing).

Definition settled (h : _Template) : _Template :=
  Host h.(max_forks) h.(forks) h.(_exits) h.(_started) h.(_replies) h.(_waiting) h.(_seq) h.(dead) h.(eof) h.(broken) h.(retire_requested) h.(_retire_sent)
    (h.(_outstanding) - 1) h.(_closing).

Definition _retire_due (h : _Template) : bool * _Template :=
  if h.(retire_requested) && (h.(_outstanding) =? 0) && negb h.(_retire_sent) then (true, set_retire h.(retire_requested) true h) else (false, h).

Definition start_closing (h : _Template) : _Template :=
  Host h.(max_forks) h.(forks) h.(_exits) h.(_started) h.(_replies) h.(_waiting) h.(_seq) h.(dead) h.(eof) h.(broken) h.(retire_requested) h.(_retire_sent) h.(_outstanding) true.

(** *** One step *)

Inductive action :=
| WorkerExits (pid code : Z) | StrangerStarts (pid : Z) | StrangerEnds (pid : Z) | OrphanReaped (pid : Z)
| TRequest (o : fork_outcome) | TReap (pid : Z) | TLeaves | TDies
| HReserve | HRetire
| FPipe (i : nat) | FBegin (i : nat) | FSend (i : nat) (ok : bool) | FReply (i : nat) (wraps : bool) | FRaise (i : nat) | FCleanup (i : nat)
| FKill (i : nat) | FAck (i : nat) | FFinally (i : nat) | FRetire (i : nat)
| REvent | RKill | RAck | REof | REofKill | REofEnd
| PRead (j : nat) | PResolve | PKill (j : nat) | PDrop (j : nat)
| CClose | CKill | CWorkersDone | CShutdown | CEnd.

(** The processes themselves. *)
Definition kernel_step (a : action) (w : world) : option world :=
  let k := w.(K) in
  match a with
  | WorkerExits pid code =>
      match k.(pids) !! pid with
      | Some (Worker i None) =>
          Some (on_K (fun _ => Kernel (<[pid := Worker i (Some code)]> k.(pids)) k.(next_inst) k.(forked) (<[i := code]> k.(died)) k.(signals)) w)
      | _ => None
      end
  | StrangerStarts pid =>
      match k.(pids) !! pid with
      | None => Some (on_K (fun _ => Kernel (<[pid := Stranger]> k.(pids)) k.(next_inst) k.(forked) k.(died) k.(signals)) w)
      | Some _ => None
      end
  | StrangerEnds pid => match k.(pids) !! pid with Some Stranger => Some (on_K (reap_pid pid) w) | _ => None end
  | OrphanReaped pid =>
      match w.(T).(up), k.(pids) !! pid with
      | false, Some (Worker _ (Some _)) => Some (on_K (reap_pid pid) w)
      | _, _ => None
      end
  | _ => None
  end.

Definition with_KT (r : option (kernel * template)) (w : world) : option world :=
  match r with Some (k, t) => Some (on_K (fun _ => k) (on_T (fun _ => t) w)) | None => None end.

Definition template_step (a : action) (w : world) : option world :=
  if negb w.(T).(up) then None
  else
    match a with
    | TRequest o => with_KT (handle_request o w.(K) w.(T)) w
    | TReap pid => with_KT (_reap pid w.(K) w.(T)) w
    | TLeaves =>
        if w.(T).(retiring) && bool_decide (w.(T).(running) = ∅) && bool_decide (w.(T).(zombies) = ∅) then Some (on_T leave w) else None
    | TDies => Some (on_T leave w)
    | _ => None
    end.

(** [_retire_due] and, if it is, a thread that sends it. *)
Definition finish_call (i : nat) (w : world) : world :=
  let '(send, h) := _retire_due (settled w.(H)) in
  set_caller i (if send then Retiring else Returned) (on_H (fun _ => h) w).

(** [HReserve] is [reserve] as [spawn] calls it (see [exhausted]); [FPipe]: [os.pipe] raises, before
    the [try]. *)
Definition fork_step (a : action) (w : world) : option world :=
  match a with
  | HReserve =>
      if w.(H).(retire_requested) || negb (w.(H).(forks) <? w.(H).(max_forks)) then None else Some (add_caller Reserved (on_H reserve w))
  | HRetire =>
      let '(send, h) := _retire_due (set_retire true w.(H).(_retire_sent) w.(H)) in
      Some (add_caller (if send then Retiring else Returned) (on_H (fun _ => h) w))
  | FPipe i => match w.(callers) !! i with Some Reserved => Some (set_caller i Returned w) | _ => None end
  | FBegin i =>
      match w.(callers) !! i with
      | Some Reserved =>
          if w.(H).(dead) || w.(H).(broken) || w.(H).(_closing) then Some (set_caller i Finally w)
          else Some (set_caller i (Sending (w.(H).(_seq) + 1)) (on_H next_seq w))
      | _ => None
      end
  | FSend i ok =>
      match w.(callers) !! i with
      | Some (Sending s) =>
          if ok then Some (set_caller i (Waiting s) (on_T (send_request (_FORK s)) w)) else Some (set_caller i (Raised s None) w)
      | _ => None
      end
  | FReply i wraps =>
      match w.(callers) !! i with
      | Some (Waiting s) =>
          match w.(H).(_replies) !! s with
          | None => None
          | Some r =>
              let w := on_H (fun h => set_waiting (h.(_waiting) ∖ {[s]}) (set_events h.(_exits) h.(_started) (delete s h.(_replies)) h)) w in
              match r with
              | ReplyE _ => Some (set_caller i Finally w)
              | ReplyP pid =>
                  if wraps then Some (set_caller i Finally (set_procs (w.(procs) ++ [Proc s pid None false false]) w))
                  else Some (set_caller i (Raised s (Some pid)) w)
              end
          end
      | _ => None
      end
  | FRaise i =>
      match w.(callers) !! i with
      | Some (Waiting s) => match w.(H).(_replies) !! s with None => Some (set_caller i (Raised s None) w) | Some _ => None end
      | _ => None
      end
  | FCleanup i =>
      match w.(callers) !! i with
      | Some (Raised s p) =>
          Some (set_caller i (match p with Some pid => Killing s pid | None => Finally end)
                  (on_H (fun h => set_waiting (h.(_waiting) ∖ {[s]}) (set_events h.(_exits) h.(_started) (delete s h.(_replies)) (set_broken h))) w))
      | _ => None
      end
  | FKill i =>
      match w.(callers) !! i with Some (Killing s pid) => Some (set_caller i (Acking s pid) (_killpg_or_kill (ByFork s) pid w)) | _ => None end
  | FAck i => match w.(callers) !! i with Some (Acking s pid) => Some (set_caller i Finally (ack pid w)) | _ => None end
  | FFinally i => match w.(callers) !! i with Some Finally => Some (finish_call i w) | _ => None end
  | FRetire i => match w.(callers) !! i with Some Retiring => Some (set_caller i Returned (on_T (send_request _RETIRE) w)) | _ => None end
  | _ => None
  end.

Definition reader_step (a : action) (w : world) : option world :=
  match a, w.(rdr) with
  | REvent, AtSocket =>
      match w.(T).(outbox) with
      | e :: rest =>
          Some (_on_event e (on_T (fun t => Tmpl t.(up) t.(running) t.(zombies) t.(early_acks) t.(retiring) t.(inbox) rest) w))
      | [] => None
      end
  | RKill, Abandoned s pid => Some (set_rdr (AbandonedAck s pid) (_killpg_or_kill (ByReader s) pid w))
  | RAck, AbandonedAck s pid => Some (set_rdr AtSocket (ack pid w))
  | REof, AtSocket =>
      match w.(closer) with
      | Shut => Some (_on_eof w)
      | _ => match w.(T).(up), w.(T).(outbox) with false, [] => Some (_on_eof w) | _, _ => None end
      end
  | REofKill, Orphans (pid :: lost) => Some (set_rdr (Orphans lost) (_killpg_or_kill ByEof pid w))
  | REofEnd, Orphans [] => Some (set_rdr ReaderDone (on_H set_dead w))
  | _, _ => None
  end.

(** [_ack_once]. *)
Definition acked (p : ForkedProc) : ForkedProc := Proc p.(p_seq) p.(p_pid) p.(returncode) true p.(dropped).
Definition _ack_once (j : nat) (p : ForkedProc) (w : world) : world :=
  let w := set_procs (<[j := acked p]> w.(procs)) w in if p.(_acked) then w else ack p.(p_pid) w.

(** The procs' holders; a dropped proc has none. *)
Definition proc_step (a : action) (w : world) : option world :=
  match a with
  | PRead j =>
      match w.(procs) !! j with
      | Some p =>
          if p.(dropped) then None
          else match p.(returncode), exit_code p.(p_pid) w.(H) with None, Some code => Some (set_reads (w.(reads) ++ [(j, code)]) w) | _, _ => None end
      | None => None
      end
  | PResolve =>
      match w.(reads) with
      | (j, code) :: rest =>
          match w.(procs) !! j with
          | Some p =>
              let p := Proc p.(p_seq) p.(p_pid) (match p.(returncode) with Some c => Some c | None => Some code end) p.(_acked) p.(dropped) in
              Some (_ack_once j p (set_reads rest w))
          | None => None
          end
      | [] => None
      end
  | PKill j =>
      match w.(procs) !! j with
      | Some p => if p.(dropped) then None else Some (if p.(_acked) then w else _killpg_or_kill (ByProc p.(p_seq)) p.(p_pid) w)
      | None => None
      end
  | PDrop j =>
      match w.(procs) !! j with
      | Some p => if p.(dropped) then None else Some (_ack_once j (Proc p.(p_seq) p.(p_pid) p.(returncode) p.(_acked) true) w)
      | None => None
      end
  | _ => None
  end.

(** [close]; killing the template and the wait for its end are one step. *)
Definition close_step (a : action) (w : world) : option world :=
  match a, w.(closer) with
  | CClose, NotClosing => Some (set_closer (Workers (_unresolved w.(H))) (on_H start_closing w))
  | CKill, Workers (pid :: lost) => Some (set_closer (Workers lost) (_killpg_or_kill ByClose pid w))
  | CWorkersDone, Workers [] => Some (set_closer Shutdown (on_T leave w))
  | CShutdown, Shutdown => Some (set_closer Shut w)
  | CEnd, Shut => Some (set_closer ClosedAll (on_H set_dead w))
  | _, _ => None
  end.

Definition exec (a : action) (w : world) : option world :=
  match a with
  | WorkerExits _ _ | StrangerStarts _ | StrangerEnds _ | OrphanReaped _ => kernel_step a w
  | TRequest _ | TReap _ | TLeaves | TDies => template_step a w
  | HReserve | HRetire | FPipe _ | FBegin _ | FSend _ _ | FReply _ _ | FRaise _ | FCleanup _ | FKill _ | FAck _ | FFinally _ | FRetire _ => fork_step a w
  | REvent | RKill | RAck | REof | REofKill | REofEnd => reader_step a w
  | PRead _ | PResolve | PKill _ | PDrop _ => proc_step a w
  | CClose | CKill | CWorkersDone | CShutdown | CEnd => close_step a w
  end.

Definition step (w w' : world) : Prop := exists a, exec a w = Some w'.
Definition reachable (n : Z) (others : gset Z) (w : world) : Prop := rtc step (init n others) w.

Fixpoint run (acts : list action) (w : world) : option world :=
  match acts with [] => Some w | a :: acts => match exec a w with Some w => run acts w | None => None end end.

(** ** The manager *)

(** [exhausted]; [gone]: the template's process has ended, or it is too old. *)
Definition exhausted (gone : bool) (h : _Template) : bool :=
  h.(dead) || h.(broken) || h.(_closing) || gone || (h.(max_forks) <=? h.(forks)).

(** [retire], its lock section. *)
Definition retire (h : _Template) : bool * _Template := _retire_due (set_retire true h.(_retire_sent) h).

(** Every template there was, and the ones whose process has ended or that are too old;
    [_current] and [_retired] are indices. *)
Record TemplateManager := Manager {
  enabled : bool; m_max_forks : Z; fallbacks : Z; _current : option nat; _retired : list nat; templates : list _Template; gone : gset nat
}.

Definition manager_init : TemplateManager := Manager false 64 0 None [] [] ∅.

Definition enable (n : Z) (m : TemplateManager) : TemplateManager := Manager true n m.(fallbacks) m.(_current) m.(_retired) m.(templates) m.(gone).

Definition set_current (c : option nat) (m : TemplateManager) : TemplateManager :=
  Manager m.(enabled) m.(m_max_forks) m.(fallbacks) c m.(_retired) m.(templates) m.(gone).

(** The current template is retired. *)
Definition retire_current (m : TemplateManager) : TemplateManager :=
  match m.(_current) with
  | Some i => Manager m.(enabled) m.(m_max_forks) m.(fallbacks) m.(_current) (m.(_retired) ++ [i]) (alter (fun h => (retire h).2) i m.(templates)) m.(gone)
  | None => m
  end.

Definition disable (m : TemplateManager) : TemplateManager :=
  let m := set_current None (retire_current m) in Manager false m.(m_max_forks) m.(fallbacks) m.(_current) m.(_retired) m.(templates) m.(gone).

Definition new_template (m : TemplateManager) : TemplateManager :=
  Manager m.(enabled) m.(m_max_forks) m.(fallbacks) (Some (length m.(templates))) m.(_retired) (m.(templates) ++ [init_host m.(m_max_forks)]) m.(gone).

(** [starts]: whether a new template's process can be started. *)
Definition prestart (starts : bool) (m : TemplateManager) : TemplateManager :=
  if m.(enabled) && match m.(_current) with None => true | Some _ => false end && starts then new_template m else m.

(** [_reap_retired]: the ones that are [closable] are closed. *)
Definition _reap_retired (closable : nat -> bool) (m : TemplateManager) : TemplateManager :=
  Manager m.(enabled) m.(m_max_forks) m.(fallbacks) m.(_current) (filter (fun i => closable i = false) m.(_retired))
    (imap (fun i h => if bool_decide (i ∈ m.(_retired)) && closable i then set_dead (start_closing h) else h) m.(templates)) m.(gone).

Definition reserve_on (i : nat) (m : TemplateManager) : TemplateManager :=
  Manager m.(enabled) m.(m_max_forks) m.(fallbacks) m.(_current) m.(_retired) (alter reserve i m.(templates)) m.(gone).

(** [spawn], up to the fork outside the lock: the template it reserved on.  When no template can be
    started the exception leaves the old one in [_current], retired. *)
Definition spawn (starts : bool) (closable : nat -> bool) (m : TemplateManager) : option nat * TemplateManager :=
  match (i ← m.(_current); h ← m.(templates) !! i; if exhausted (bool_decide (i ∈ m.(gone))) h then None else Some i) with
  | Some i => (Some i, reserve_on i m)
  | None =>
      let m := _reap_retired closable (retire_current m) in
      if starts then (Some (length m.(templates)), reserve_on (length m.(templates)) (new_template m)) else (None, m)
  end.

Definition note_fallback (m : TemplateManager) : TemplateManager :=
  Manager m.(enabled) m.(m_max_forks) (m.(fallbacks) + 1) m.(_current) m.(_retired) m.(templates) m.(gone).

Definition shutdown (m : TemplateManager) : TemplateManager :=
  let closed i := bool_decide (m.(_current) = Some i) || bool_decide (i ∈ m.(_retired)) in
  Manager m.(enabled) m.(m_max_forks) m.(fallbacks) None [] (imap (fun i h => if closed i then set_dead (start_closing h) else h) m.(templates)) m.(gone).

(** In a forked copy of the host. *)
Definition forget (m : TemplateManager) : TemplateManager := Manager m.(enabled) m.(m_max_forks) m.(fallbacks) None [] m.(templates) m.(gone).

Definition enable_fork_template (starts : bool) (n : Z) (m : TemplateManager) : result exn TemplateManager :=
  if n <? 1 then Err (ValueError "max_forks must be a positive integer") else Ok (prestart starts (enable n m)).

(** What the other threads do to a template: they neither count its forks nor bring it back. *)
Definition lesser (h h' : _Template) : Prop :=
  h'.(max_forks) = h.(max_forks) /\ h'.(forks) = h.(forks) /\ h'.(retire_requested) = h.(retire_requested) /\
  (h.(dead) = true -> h'.(dead) = true) /\ (h.(broken) = true -> h'.(broken) = true) /\ (h.(_closing) = true -> h'.(_closing) = true).

Inductive manager_step : TemplateManager -> TemplateManager -> Prop :=
| ms_enable m m' starts n : enable_fork_template starts n m = Ok m' -> manager_step m m'
| ms_disable m : manager_step m (disable m)
| ms_prestart m starts : manager_step m (prestart starts m)
| ms_spawn m starts closable : manager_step m (spawn starts closable m).2
| ms_reap m closable : manager_step m (_reap_retired closable m)
| ms_fallback m : manager_step m (note_fallback m)
| ms_shutdown m : manager_step m (shutdown m)
| ms_forget m : manager_step m (forget m)
| ms_gone m i : manager_step m (Manager m.(enabled) m.(m_max_forks) m.(fallbacks) m.(_current) m.(_retired) m.(templates) ({[i]} ∪ m.(gone)))
| ms_other m i h h' : m.(templates) !! i = Some h -> lesser h h' ->
    manager_step m (Manager m.(enabled) m.(m_max_forks) m.(fallbacks) m.(_current) m.(_retired) (<[i := h']> m.(templates)) m.(gone)).
