(* ===== verification/TemplateInv.v ===== *)
(** * The fork template: who owns a worker

    Every fork request is at one place of the system at a time, and whoever has it there and has
    not acked it owns the worker it got: the template holds on to the pid. *)

From S2P Require Import Prelude Template.

(** ** Places *)

Inductive place :=
| Unsent (i : nat)
| InInbox
| InOutbox (pid : Z)
| InReplies (pid : Z)
| WithCaller (i : nat) (pid : Z)
| WithReader (pid : Z)
| WithProc (j : nat) (pid : Z)
| Spent.

(** The worker an unacked place stands for. *)
Definition pid_of (p : place) : option Z :=
  match p with
  | InOutbox pid | InReplies pid | WithCaller _ pid | WithReader pid | WithProc _ pid => Some pid
  | Unsent _ | InInbox | Spent => None
  end.
Definition forked_place (p : place) : Prop := match p with Unsent _ | InInbox => False | _ => True end.

Definition caller_holds (c : caller) : option (Z * Z) :=
  match c with Raised s (Some pid) | Killing s pid | Acking s pid => Some (s, pid) | _ => None end.
Definition reader_holds (r : reading) : option (Z * Z) :=
  match r with Abandoned s pid | AbandonedAck s pid => Some (s, pid) | _ => None end.

Inductive claims (w : world) : Z -> place -> Prop :=
| cl_sending i s : w.(callers) !! i = Some (Sending s) -> claims w s (Unsent i)
| cl_inbox s : _FORK s ∈ w.(T).(inbox) -> claims w s InInbox
| cl_outbox s pid : EP s pid ∈ w.(T).(outbox) -> claims w s (InOutbox pid)
| cl_replies s pid : w.(H).(_replies) !! s = Some (ReplyP pid) -> claims w s (InReplies pid)
| cl_caller i c s pid : w.(callers) !! i = Some c -> caller_holds c = Some (s, pid) -> claims w s (WithCaller i pid)
| cl_reader s pid : reader_holds w.(rdr) = Some (s, pid) -> claims w s (WithReader pid)
| cl_proc j p : w.(procs) !! j = Some p -> p.(_acked) = false -> claims w p.(p_seq) (WithProc j p.(p_pid)).

Definition fork_seqs (l : list request) : list Z := omap (fun r => match r with _FORK s => Some s | _ => None end) l.
Definition ack_pids (l : list request) : list Z := omap (fun r => match r with _ACK p => Some p | _ => None end) l.
Definition p_seqs (l : list event) : list Z := omap (fun e => match e with EP s _ => Some s | _ => None end) l.

Lemma fork_seqs_in s l : s ∈ fork_seqs l <-> _FORK s ∈ l.
Proof. unfold fork_seqs. rewrite list_elem_of_omap. split; [intros (r & Hr & E); destruct r; congruence | intros H; exists (_FORK s); done]. Qed.
Lemma ack_pids_in p l : p ∈ ack_pids l <-> _ACK p ∈ l.
Proof. unfold ack_pids. rewrite list_elem_of_omap. split; [intros (r & Hr & E); destruct r; congruence | intros H; exists (_ACK p); done]. Qed.
Lemma p_seqs_in s l : s ∈ p_seqs l <-> exists pid, EP s pid ∈ l.
Proof.
  unfold p_seqs. rewrite list_elem_of_omap. split; [intros (r & Hr & E); destruct r; simplify_eq; eauto | intros [pid Hp]; eexists; done].
Qed.
Lemma omap_snoc {A B} (f : A -> option B) l x : omap f (l ++ [x]) = omap f l ++ (match f x with Some y => [y] | None => [] end).
Proof. rewrite omap_app. cbn. by destruct (f x). Qed.
Lemma NoDup_snoc {A} (l : list A) x : NoDup (l ++ [x]) <-> x ∉ l /\ NoDup l.
Proof. rewrite NoDup_app. split; [intros (H1 & H2 & _); split; [intros Hx; apply (H2 x Hx); set_solver | done] | intros [Hx Hl]; split_and!; [done | set_solver | apply NoDup_singleton]]. Qed.

Record links (own : gmap Z place) (w : world) : Prop := Links {
  l_claims : forall s p, claims w s p -> own !! s = Some p;
  l_fresh : forall s, is_Some (own !! s) -> s <= w.(H).(_seq);
  l_forks : NoDup (fork_seqs w.(T).(inbox));
  l_ps : NoDup (p_seqs w.(T).(outbox))
}.

(** Nothing new is claimed. *)
Lemma links_less own w w' :
  links own w -> (forall s p, claims w' s p -> claims w s p) -> w.(H).(_seq) <= w'.(H).(_seq) ->
  NoDup (fork_seqs w'.(T).(inbox)) -> NoDup (p_seqs w'.(T).(outbox)) -> links own w'.
Proof. intros [H1 H2 H3 H4] Hc Hs Hf Hp. split; [auto | | done | done]. intros s Hs'. specialize (H2 s Hs'). lia. Qed.

(** A request moves from one place to another. *)
Lemma links_move own w w' s p p' :
  links own w -> own !! s = Some p ->
  (forall s' q, claims w' s' q -> (s' = s /\ q = p') \/ (claims w s' q /\ ~ (s' = s /\ q = p))) -> w.(H).(_seq) <= w'.(H).(_seq) ->
  NoDup (fork_seqs w'.(T).(inbox)) -> NoDup (p_seqs w'.(T).(outbox)) -> links (<[s := p']> own) w'.
Proof.
  intros [H1 H2 H3 H4] Hp Hc Hs Hf Hps. split; [| | done | done].
  - intros s' q Hq. destruct (Hc _ _ Hq) as [[-> ->] | [Hq' Hne]]; [by rewrite lookup_insert_eq|].
    apply H1 in Hq'. rewrite lookup_insert_ne; [done | intros <-]. apply Hne. split; [done | congruence].
  - intros s'. rewrite lookup_insert_is_Some. intros [<- | [_ Hs']]; [|specialize (H2 _ Hs'); lia]. specialize (H2 s (ex_intro _ _ Hp)). lia.
Qed.

(** ** The kernel and the template *)

Record kernel_ok (k : kernel) : Prop := KernelOk {
  k_inst : forall pid i c, k.(pids) !! pid = Some (Worker i c) -> (i < k.(next_inst))%nat;
  k_forked : forall s i, k.(forked) !! s = Some i -> (i < k.(next_inst))%nat;
  k_inj : forall s s' i, k.(forked) !! s = Some i -> k.(forked) !! s' = Some i -> s = s';
  k_one : forall pid pid' i c c', k.(pids) !! pid = Some (Worker i c) -> k.(pids) !! pid' = Some (Worker i c') -> pid = pid';
  k_code : forall pid i c, k.(pids) !! pid = Some (Worker i (Some c)) -> k.(died) !! i = Some c;
  k_running : forall pid i, k.(pids) !! pid = Some (Worker i None) -> k.(died) !! i = None;
  k_died : forall i, is_Some (k.(died) !! i) -> (i < k.(next_inst))%nat
}.

Record template_ok (k : kernel) (t : template) : Prop := TemplateOk {
  t_worker : forall pid, pid ∈ t.(running) ∪ t.(zombies) -> exists i c, k.(pids) !! pid = Some (Worker i c);
  t_apart : t.(running) ## t.(zombies);
  t_early : t.(early_acks) ⊆ t.(running);
  t_acks : forall pid, _ACK pid ∈ t.(inbox) -> pid ∈ t.(running) ∪ t.(zombies) /\ pid ∉ t.(early_acks);
  t_once : NoDup (ack_pids t.(inbox))
}.

(** An unacked worker's pid is taken by it, and no ack is on its way. *)
Definition owned (k : kernel) (t : template) (s pid : Z) : Prop :=
  exists i c, k.(forked) !! s = Some i /\ k.(pids) !! pid = Some (Worker i c) /\
    pid ∈ t.(running) ∪ t.(zombies) /\ pid ∉ t.(early_acks) /\ _ACK pid ∉ t.(inbox).

Record owners (own : gmap Z place) (k : kernel) (t : template) : Prop := Owners {
  o_kernel : kernel_ok k;
  o_up : t.(up) = true -> template_ok k t;
  o_live : t.(up) = true -> forall s p pid, own !! s = Some p -> pid_of p = Some pid -> owned k t s pid;
  o_known : forall s p, own !! s = Some p -> is_Some (pid_of p) -> is_Some (k.(forked) !! s);
  o_forked : forall s, is_Some (k.(forked) !! s) -> exists p, own !! s = Some p /\ forked_place p
}.

(** ** Exit codes *)

(** The exit reports that are in flight or recorded for an owned worker are its own; those in
    front of the report of its start are of a worker before it. *)
Definition codes_at (k : kernel) (ob : list event) (ex : gmap Z Z) (s pid : Z) (i : nat) (p : place) : Prop :=
  match p with
  | InOutbox _ => forall l1 l2 c, ob = l1 ++ EP s pid :: l2 -> EX pid c ∈ l2 -> k.(died) !! i = Some c
  | _ => forall c, EX pid c ∈ ob \/ ex !! pid = Some c -> k.(died) !! i = Some c
  end.
Definition own_codes (own : gmap Z place) (k : kernel) (ob : list event) (ex : gmap Z Z) : Prop :=
  forall s p pid i, own !! s = Some p -> pid_of p = Some pid -> k.(forked) !! s = Some i -> codes_at k ob ex s pid i p.

Definition right_code (k : kernel) (h : _Template) (p : ForkedProc) (c : Z) : Prop :=
  (exists i, k.(forked) !! p.(p_seq) = Some i /\ k.(died) !! i = Some c) \/ (c = -9 /\ h.(dead) = true).

Record codes_ok (w : world) : Prop := CodesOk {
  c_procs : forall j p c, w.(procs) !! j = Some p -> p.(returncode) = Some c -> right_code w.(K) w.(H) p c;
  c_reads : forall j c, (j, c) ∈ w.(reads) -> exists p, w.(procs) !! j = Some p /\ right_code w.(K) w.(H) p c;
  c_open : forall j p, w.(procs) !! j = Some p -> p.(returncode) = None -> p.(dropped) = false -> p.(_acked) = false
}.

Definition signal_ok (k : kernel) (s : signal) : Prop :=
  match s.(by_) with
  | ByProc q | ByReader q | ByFork q => s.(template_was_up) = true -> exists i c, k.(forked) !! q = Some i /\ s.(hit) = Some (Worker i c)
  | ByEof | ByClose => True
  end.

Record inv (own : gmap Z place) (w : world) : Prop := Inv {
  i_links : links own w;
  i_owners : owners own w.(K) w.(T);
  i_own_codes : own_codes own w.(K) w.(T).(outbox) w.(H).(_exits);
  i_codes : codes_ok w;
  i_signals : Forall (signal_ok w.(K)) w.(K).(signals)
}.

(** What only grows. *)
Definition grows (k k' : kernel) : Prop :=
  (forall s i, k.(forked) !! s = Some i -> k'.(forked) !! s = Some i) /\ (forall i c, k.(died) !! i = Some c -> k'.(died) !! i = Some c).

Lemma right_code_grows k k' h h' p c : grows k k' -> (h.(dead) = true -> h'.(dead) = true) -> right_code k h p c -> right_code k' h' p c.
Proof. intros [G1 G2] Hd [(i & Hi & Hc) | [-> Hdead]]; [left; eauto | right; auto]. Qed.

Lemma signals_grow k k' l : grows k k' -> Forall (signal_ok k) l -> Forall (signal_ok k') l.
Proof.
  intros [G1 G2] Hl. eapply Forall_impl; [exact Hl|]. intros s. unfold signal_ok. destruct (s.(by_)); try done;
  (intros Hs Hu; destruct (Hs Hu) as (i & c & Hi & Hh); eauto).
Qed.
