(* ===== verification/TemplateSteps.v ===== *)
(** * The fork template: every step keeps the ownership of workers *)

From S2P Require Import Prelude Template TemplateInv.

Lemma kernel_grows_refl k : grows k k.
Proof. done. Qed.
#[local] Hint Resolve kernel_grows_refl : core.

(** Results stay right as the world grows. *)
Lemma codes_keep w w' :
  codes_ok w -> grows w.(K) w'.(K) -> w'.(procs) = w.(procs) -> w'.(reads) = w.(reads) -> (w.(H).(dead) = true -> w'.(H).(dead) = true) -> codes_ok w'.
Proof.
  intros [C1 C2 C3] G Ep Er Hd. split; rewrite ?Ep, ?Er; [| | done].
  - intros j p c Hj Hr. eapply right_code_grows; eauto.
  - intros j c Hr. destruct (C2 j c Hr) as (p & Hj & Hp). exists p. split; [done|]. eapply right_code_grows; eauto.
Qed.

(** ** Moving ownership *)

Lemma owners_move own k t s p p' pid :
  owners own k t -> own !! s = Some p -> pid_of p = Some pid -> pid_of p' = Some pid -> owners (<[s := p']> own) k t.
Proof.
  intros [O1 O2 O3 O4 O5] Hs Hp Hp'. split; [done | done | | |].
  - intros Hu s' q pid'. rewrite lookup_insert_Some. intros [[<- <-] | [_ Hq]] Hpid; [|by eapply O3]. apply (O3 Hu s p pid'); congruence.
  - intros s' q. rewrite lookup_insert_Some. intros [[<- <-] | [_ Hq]] Hpid; [apply (O4 s p Hs); rewrite Hp; done | by eapply O4].
  - intros s' Hf. destruct (decide (s = s')) as [<-|Hne]; [|destruct (O5 s' Hf) as (q & Hq & Hr); exists q; by rewrite lookup_insert_ne].
    exists p'. rewrite lookup_insert_eq. split; [done|]. by destruct p'.
Qed.

Lemma owned_apart k t s s' pid pid' :
  kernel_ok k -> owned k t s pid -> owned k t s' pid' -> s <> s' -> pid <> pid'.
Proof.
  intros Hk (i & c & Hf & Hp & _) (i' & c' & Hf' & Hp' & _) Hne ->. apply Hne. simplify_eq. by eapply (k_inj _ Hk).
Qed.

Lemma owners_ack own k t s p pid :
  owners own k t -> own !! s = Some p -> pid_of p = Some pid -> owners (<[s := Spent]> own) k (send_request (_ACK pid) t).
Proof.
  intros [O1 O2 O3 O4 O5] Hs Hp. split; [done | | | |].
  - intros Hu. destruct (O2 Hu) as [T1 T2 T3 T4 T5]. destruct (O3 Hu s p pid Hs Hp) as (i & c & Hf & Hw & Hin & He & Ha).
    split; [done | done | done | | ]; cbn.
    + intros q. rewrite elem_of_app, list_elem_of_singleton. intros [Hq | [= ->]]; auto.
    + unfold ack_pids. rewrite omap_snoc. apply NoDup_snoc. split; [by rewrite ack_pids_in | done].
  - intros Hu s' q pid'. rewrite lookup_insert_Some. intros [[<- <-] | [Hne Hq]] Hpid; [done|].
    pose proof (O3 Hu s p pid Hs Hp) as Ho. pose proof (O3 Hu s' q pid' Hq Hpid) as Ho'.
    assert (pid <> pid') by (eapply owned_apart; eauto). destruct Ho' as (i & c & Hf & Hw & Hin & He & Ha).
    exists i, c. split_and!; try done. cbn. rewrite elem_of_app, list_elem_of_singleton. intros [Hx | Hx]; [done | congruence].
  - intros s' q. rewrite lookup_insert_Some. intros [[<- <-] | [_ Hq]] Hpid; [by destruct Hpid | by eapply O4].
  - intros s' Hf. destruct (decide (s = s')) as [<-|Hne]; [exists Spent; by rewrite lookup_insert_eq|].
    destruct (O5 s' Hf) as (q & Hq & Hr). exists q. by rewrite lookup_insert_ne.
Qed.

(** A request that has no worker yet. *)
Lemma owners_unforked own k t s p' :
  owners own k t -> (own !! s = None \/ exists p, own !! s = Some p /\ ~ forked_place p) -> pid_of p' = None -> owners (<[s := p']> own) k t.
Proof.
  intros [O1 O2 O3 O4 O5] Hs Hp'. split; [done | done | | |].
  - intros Hu s' q pid'. rewrite lookup_insert_Some. intros [[<- <-] | [_ Hq]] Hpid; [congruence | by eapply O3].
  - intros s' q. rewrite lookup_insert_Some. intros [[<- <-] | [_ Hq]] Hpid; [rewrite Hp' in Hpid; by destruct Hpid | by eapply O4].
  - intros s' Hf. destruct (O5 s' Hf) as (q & Hq & Hr). destruct (decide (s = s')) as [<-|Hne]; [|exists q; by rewrite lookup_insert_ne].
    destruct Hs as [Hs | (p & Hs & Hn)]; congruence.
Qed.

Lemma own_codes_set own k ob ex s p :
  own_codes own k ob ex -> (forall pid i, pid_of p = Some pid -> k.(forked) !! s = Some i -> codes_at k ob ex s pid i p) ->
  own_codes (<[s := p]> own) k ob ex.
Proof.
  intros Hc Hp s' q pid i. rewrite lookup_insert_Some. intros [[<- <-] | [Hne Hq]] Hpid Hf; [by apply Hp | by apply (Hc s' q pid i)].
Qed.

(** A worker that has left the outbox stays known by its codes wherever it goes. *)
Definition out_of_box (p : place) : Prop := match p with InOutbox _ => False | _ => True end.

Lemma codes_at_out k ob ex s pid i p :
  out_of_box p -> codes_at k ob ex s pid i p <-> (forall c, EX pid c ∈ ob \/ ex !! pid = Some c -> k.(died) !! i = Some c).
Proof. by destruct p. Qed.

Lemma own_codes_move own k ob ex s p p' pid :
  own_codes own k ob ex -> own !! s = Some p -> pid_of p = Some pid -> out_of_box p -> out_of_box p' ->
  (pid_of p' = Some pid \/ pid_of p' = None) -> own_codes (<[s := p']> own) k ob ex.
Proof.
  intros Hc Hs Hp Ho Ho' Hp'. apply own_codes_set; [done|]. intros pid' i Hpid Hf. specialize (Hc s p pid i Hs Hp Hf).
  rewrite codes_at_out in Hc |- * by done. destruct Hp' as [Hp' | Hp']; simplify_eq; done.
Qed.

(** ** Steps of the host that leave the processes and the frames alone *)

Lemma inv_host own w w' :
  inv own w -> w'.(K) = w.(K) -> w'.(T) = w.(T) -> w'.(H).(_exits) = w.(H).(_exits) -> w'.(procs) = w.(procs) -> w'.(reads) = w.(reads) ->
  (w.(H).(dead) = true -> w'.(H).(dead) = true) -> w.(H).(_seq) <= w'.(H).(_seq) -> (forall s p, claims w' s p -> claims w s p) -> inv own w'.
Proof.
  intros [I1 I2 I3 I4 I5] EK ET EE_ EP_ ER Hd Hs Hc. split; try (rewrite EK, ?ET, ?EE_; done).
  - eapply links_less; [exact I1 | done | done | rewrite ET; apply I1 | rewrite ET; apply I1].
  - apply (codes_keep w); [done | by rewrite EK | done..].
Qed.

(** What a caller claims. *)
Definition caller_claims (i : nat) (c : caller) (s : Z) (p : place) : Prop :=
  match c, p with
  | Sending s', Unsent j => s = s' /\ j = i
  | _, WithCaller j pid => caller_holds c = Some (s, pid) /\ j = i
  | _, _ => False
  end.

Lemma claims_caller w i c s p :
  claims (set_caller i c w) s p -> caller_claims i c s p \/ (claims w s p /\ p <> Unsent i /\ forall pid, p <> WithCaller i pid).
Proof.
  intros Hc. destruct Hc as [j s Hj|s Hi|s pid Ho|s pid Hr|j d s pid Hj Hh|s pid Hr|j d Hj Ha]; cbn in *; try (right; split; [by econstructor | done]).
  - apply list_lookup_insert_Some in Hj as [(<- & -> & _) | [Hne Hj]]; [by left|]. right. split; [by econstructor | naive_solver].
  - apply list_lookup_insert_Some in Hj as [(<- & -> & _) | [Hne Hj]]; [left; by destruct d|]. right. split; [by econstructor | naive_solver].
Qed.

Lemma claims_add_caller w c s p : claims (add_caller c w) s p -> (exists i, i = length w.(callers) /\ caller_claims i c s p) \/ claims w s p.
Proof.
  intros Hc. destruct Hc as [j s Hj|s Hi|s pid Ho|s pid Hr|j d s pid Hj Hh|s pid Hr|j d Hj Ha]; cbn in *; try (right; by econstructor).
  - apply lookup_app_Some in Hj as [Hj | [Hl Hj]]; [right; by econstructor|]. apply list_lookup_singleton_Some in Hj as [Hj ->]. left. eexists; split; [done|]. cbn. split; [done | lia].
  - apply lookup_app_Some in Hj as [Hj | [Hl Hj]]; [right; by econstructor|]. apply list_lookup_singleton_Some in Hj as [Hj <-]. left. eexists; split; [done|].
    assert (j = length (callers w)) as -> by lia. by destruct c.
Qed.

(** The host's other fields do not matter to the claims. *)
Lemma claims_on_H f w s p : claims (on_H f w) s p -> ((f w.(H)).(_replies) ⊆ w.(H).(_replies)) -> claims w s p.
Proof.
  intros Hc Hr. destruct Hc as [j s Hj|s Hi|s pid Ho|s pid Hx|j d s pid Hj Hh|s pid Hx|j d Hj Ha]; cbn in *; try (by econstructor).
  apply cl_replies. eapply lookup_weaken; eauto.
Qed.

(** ** Signals, and frames to the template *)

Lemma links_same own w w' :
  links own w -> (forall s p, claims w' s p -> claims w s p) -> w'.(H) = w.(H) -> fork_seqs w'.(T).(inbox) = fork_seqs w.(T).(inbox) ->
  w'.(T).(outbox) = w.(T).(outbox) -> links own w'.
Proof. intros I Hc EH Ei Eo. eapply links_less; [exact I | done | by rewrite EH | rewrite Ei; apply I | rewrite Eo; apply I]. Qed.

Lemma inv_signal own w s pid : inv own w -> signal_ok w.(K) (Signal s pid (w.(K).(pids) !! pid) w.(T).(up)) -> inv own (_killpg_or_kill s pid w).
Proof.
  intros [I1 [O1 O2 O3 O4 O5] I3 [C1 C2 C3] I5] Hs. split; [| | done | done |].
  - eapply links_same; [exact I1 | | done | done | done]. intros s' p Hc. destruct Hc; by econstructor.
  - split; [by destruct O1; split | intros Hu; by destruct (O2 Hu); split | exact O3 | exact O4 | exact O5].
  - cbn. apply Forall_app. split; [exact I5 | by apply Forall_singleton].
Qed.

Lemma owned_signal own w s p pid : inv own w -> own !! s = Some p -> pid_of p = Some pid ->
  w.(T).(up) = true -> exists i c, w.(K).(forked) !! s = Some i /\ w.(K).(pids) !! pid = Some (Worker i c).
Proof. intros I Hs Hp Hu. destruct (o_live _ _ _ (i_owners _ _ I) Hu s p pid Hs Hp) as (i & c & Hf & Hw & _). eauto. Qed.

Lemma inv_leave own w : inv own w -> inv own (on_T leave w).
Proof.
  intros [I1 [O1 O2 O3 O4 O5] I3 [C1 C2 C3] I5]. split; [| | done | done | done].
  - eapply links_same; [exact I1 | | done | done | done]. intros s' p Hc. destruct Hc; by econstructor.
  - split; [done | intros Hu; discriminate Hu | intros Hu; discriminate Hu | done | done].
Qed.

Lemma claims_send r w s p : claims (on_T (send_request r) w) s p -> (r = _FORK s /\ p = InInbox) \/ claims w s p.
Proof.
  intros Hc. destruct Hc as [j s Hj|s Hi|s pid Ho|s pid Hx|j d s pid Hj Hh|s pid Hx|j d Hj Ha]; cbn in *; try (right; by econstructor).
  apply elem_of_app in Hi as [Hi | Hi]; [right; by econstructor|]. apply list_elem_of_singleton in Hi. by left.
Qed.

Lemma owners_send own k t r : (forall pid, r <> _ACK pid) -> owners own k t -> owners own k (send_request r t).
Proof.
  intros Hr [O1 O2 O3 O4 O5]. split; [done | | | done | done].
  - intros Hu. destruct (O2 Hu) as [T1 T2 T3 T4 T5]. split; [done | done | done | |]; cbn.
    + intros q. rewrite elem_of_app, list_elem_of_singleton. intros [Hq | <-]; [auto | by destruct (Hr q)].
    + unfold ack_pids. rewrite omap_snoc. destruct r; [by rewrite app_nil_r | by rewrite app_nil_r | by destruct (Hr pid)].
  - intros Hu s p pid Hs Hp. destruct (O3 Hu s p pid Hs Hp) as (i & c & Hf & Hw & Hin & He & Ha). exists i, c. split_and!; try done.
    cbn. rewrite elem_of_app, list_elem_of_singleton. intros [Hx | Hx]; [done | by destruct (Hr pid)].
Qed.

Lemma inv_send_retire own w : inv own w -> inv own (on_T (send_request _RETIRE) w).
Proof.
  intros [I1 I2 I3 [C1 C2 C3] I5]. split; [| by apply owners_send | done | done | done].
  eapply links_same; [exact I1 | | done | | done]; [intros s p Hc; apply claims_send in Hc; naive_solver|].
  cbn. unfold fork_seqs. rewrite omap_snoc. apply app_nil_r.
Qed.

(** An ack: its sender gives the worker up. *)
Lemma inv_ack own w w' s p pid :
  inv own w -> own !! s = Some p -> pid_of p = Some pid -> out_of_box p -> (forall s' q, claims w' s' q -> claims w s' q /\ ~ (s' = s /\ q = p)) ->
  w'.(K) = w.(K) -> w'.(T) = send_request (_ACK pid) w.(T) -> w'.(H) = w.(H) -> codes_ok w' -> inv (<[s := Spent]> own) w'.
Proof.
  intros I Hs Hp Hb Hc EK ET EH Hcodes. destruct I as [I1 I2 I3 I4 I5]. split; rewrite ?EK, ?ET, ?EH; [| by eapply owners_ack | | done | done].
  - eapply (links_move own w w' s p Spent); [done | done | by right; apply Hc | by rewrite EH | | rewrite ET; apply I1].
    rewrite ET. cbn. unfold fork_seqs. rewrite omap_snoc, app_nil_r. apply I1.
  - eapply own_codes_move; [exact I3 | done | exact Hp | done | done | by right].
Qed.

(** ** The processes *)

Lemma claims_on_K f w s p : claims (on_K f w) s p -> claims w s p.
Proof. intros Hc. destruct Hc; by econstructor. Qed.

Lemma own_codes_grows own k k' ob ex :
  grows k k' -> (forall s p pid, own !! s = Some p -> pid_of p = Some pid -> k'.(forked) !! s = k.(forked) !! s) -> own_codes own k ob ex -> own_codes own k' ob ex.
Proof.
  intros [G1 G2] Hf Hc s p pid i Hs Hp Hi. rewrite (Hf s p pid Hs Hp) in Hi. specialize (Hc s p pid i Hs Hp Hi).
  destruct p; cbn in *; eauto.
Qed.

(** A step of the kernel's table: the table and the deaths change, the workers of owners stay. *)
Lemma inv_kernel own w k' :
  inv own w -> kernel_ok k' -> k'.(forked) = w.(K).(forked) -> k'.(signals) = w.(K).(signals) -> (forall i c, w.(K).(died) !! i = Some c -> k'.(died) !! i = Some c) ->
  (w.(T).(up) = true -> forall pid i c, w.(K).(pids) !! pid = Some (Worker i c) -> exists c', k'.(pids) !! pid = Some (Worker i c')) ->
  inv own (on_K (fun _ => k') w).
Proof.
  intros [I1 [O1 O2 O3 O4 O5] I3 I4 I5] Hk Hf Hsig Hd Hw.
  assert (G : grows w.(K) k') by (split; [by rewrite Hf | done]). split.
  - eapply links_same; [exact I1 | apply claims_on_K | done | done | done].
  - cbn. split; [done | | | rewrite Hf; done | rewrite Hf; done].
    + intros Hu. destruct (O2 Hu) as [T1 T2 T3 T4 T5]. split; try done. intros pid Hin. destruct (T1 pid Hin) as (i & c & Hp). destruct (Hw Hu _ _ _ Hp) as [c' Hc']. eauto.
    + intros Hu s p pid Hs Hp. destruct (O3 Hu s p pid Hs Hp) as (i & c & Hff & Hp' & Hr). destruct (Hw Hu _ _ _ Hp') as [c' Hc']. exists i, c'. rewrite Hf. done.
  - cbn. eapply own_codes_grows; [exact G | by rewrite Hf | exact I3].
  - apply (codes_keep w); [done | exact G | done..].
  - cbn. rewrite Hsig. by eapply signals_grow.
Qed.

Lemma reap_kernel_ok pid k : kernel_ok k -> kernel_ok (reap_pid pid k).
Proof.
  intros [K1 K2 K3 K4 K5 K6 K7]. split; cbn; try done; intros *; rewrite ?lookup_delete_Some; naive_solver.
Qed.

Lemma inv_kernel_step own w a w' : inv own w -> kernel_step a w = Some w' -> inv own w'.
Proof.
  intros I Hst. pose proof (o_kernel _ _ _ (i_owners _ _ I)) as Hk. destruct (Hk) as [K1 K2 K3 K4 K5 K6 K7].
  destruct a; try discriminate Hst; cbn in Hst.
  - destruct (pids (K w) !! pid) as [[i [|]|]|] eqn:E; try discriminate Hst. injection Hst as <-.
    assert (Hnone : died (K w) !! i = None) by eauto.
    apply inv_kernel; [done | | done | done | cbn; intros j c Hj; rewrite lookup_insert_ne; [done | congruence] |].
    + split; cbn; try done.
      * intros q j c. rewrite lookup_insert_Some. naive_solver.
      * intros q q' j c c'. rewrite !lookup_insert_Some. naive_solver.
      * intros q j c. rewrite lookup_insert_Some. intros [[<- [= <- <-]] | [Hne Hq]]; [by rewrite lookup_insert_eq|].
        rewrite lookup_insert_ne; [eauto|]. intros <-. by destruct (Hne (K4 _ _ _ _ _ E Hq)).
      * intros q j. rewrite lookup_insert_Some. intros [[<- [=]] | [Hne Hq]]. rewrite lookup_insert_ne; [eauto|]. intros <-. by destruct (Hne (K4 _ _ _ _ _ E Hq)).
      * intros j. rewrite lookup_insert_is_Some. intros [<- | [_ Hj]]; eauto.
    + intros Hu q j c Hq. cbn. destruct (decide (pid = q)) as [<-|Hne]; [rewrite lookup_insert_eq; simplify_eq; eauto | rewrite lookup_insert_ne by done; eauto].
  - destruct (pids (K w) !! pid) eqn:E; try discriminate Hst. injection Hst as <-.
    apply inv_kernel; [done | | done | done | done |].
    + split; cbn; try done; intros *; rewrite ?lookup_insert_Some; naive_solver.
    + intros Hu q j c Hq. cbn. exists c. rewrite lookup_insert_ne; [done | congruence].
  - destruct (pids (K w) !! pid) as [[|]|] eqn:E; try discriminate Hst. injection Hst as <-.
    apply (inv_kernel own w (reap_pid pid (K w))); [done | by apply reap_kernel_ok | done | done | done |].
    intros Hu q j c Hq. cbn. exists c. rewrite lookup_delete_ne; [done | congruence].
  - destruct (up (T w)) eqn:Eu; try discriminate Hst. destruct (pids (K w) !! pid) as [[i [|]|]|] eqn:E; try discriminate Hst. injection Hst as <-.
    apply (inv_kernel own w (reap_pid pid (K w))); [done | by apply reap_kernel_ok | done | done | done |]. intros Hu; congruence.
Qed.

(** ** The template *)

Lemma snoc_split {A} (l l1 l2 : list A) x y : l ++ [x] = l1 ++ y :: l2 -> (l2 = [] /\ x = y) \/ exists l2', l2 = l2' ++ [x] /\ l = l1 ++ y :: l2'.
Proof.
  destruct l2 as [|z l2 _] using rev_ind; intros E.
  - apply app_inj_tail in E as [_ ->]. by left.
  - rewrite app_comm_cons, app_assoc in E. apply app_inj_tail in E as [-> ->]. right. eauto.
Qed.

Definition report_ok (own : gmap Z place) (k : kernel) (e : event) : Prop :=
  match e with
  | EX pid c => forall s p i, own !! s = Some p -> pid_of p = Some pid -> k.(forked) !! s = Some i -> k.(died) !! i = Some c
  | EP s _ => forall pid, own !! s <> Some (InOutbox pid)
  | EE _ _ => True
  end.

Lemma own_codes_snoc own k ob ex e : own_codes own k ob ex -> report_ok own k e -> own_codes own k (ob ++ [e]) ex.
Proof.
  intros Hc He s p pid i Hs Hp Hi. pose proof (Hc s p pid i Hs Hp Hi) as Hold.
  assert (Hnew : forall c, e = EX pid c -> k.(died) !! i = Some c) by (intros c ->; by apply (He s p i)).
  destruct (match p with InOutbox x => inl x | _ => inr tt end) as [x|] eqn:Ep; [assert (p = InOutbox x) as -> by (by destruct p; simplify_eq)|].
  2: { assert (Ho : out_of_box p) by (by destruct p). rewrite codes_at_out in Hold |- * by done.
       intros c. rewrite elem_of_app, list_elem_of_singleton. naive_solver. }
  intros l1 l2 c El Hin. apply snoc_split in El as [[-> ->] | (l2' & -> & El)]; [set_solver|].
  apply elem_of_app in Hin as [Hin | Hin]; [by eapply Hold|]. apply list_elem_of_singleton in Hin. eauto.
Qed.

(** What the template reads or says changes no ownership by itself. *)
Lemma owners_rest own k t t' :
  owners own k t -> t'.(up) = t.(up) -> t'.(running) = t.(running) -> t'.(zombies) = t.(zombies) -> t'.(early_acks) = t.(early_acks) ->
  (exists l, t.(inbox) = l ++ t'.(inbox)) -> owners own k t'.
Proof.
  intros [O1 O2 O3 O4 O5] Eu Er Ez Ee [l Ei]. assert (Hin : forall r, r ∈ t'.(inbox) -> r ∈ t.(inbox)) by (rewrite Ei; set_solver).
  split; [done | | | done | done]; rewrite Eu.
  - intros Hu. destruct (O2 Hu) as [T1 T2 T3 T4 T5]. split; rewrite ?Er, ?Ez, ?Ee; [done | done | done | auto |].
    unfold ack_pids in *. rewrite Ei, omap_app in T5. by apply NoDup_app in T5 as (_ & _ & T5).
  - intros Hu s p pid Hs Hp. destruct (O3 Hu s p pid Hs Hp) as (i & c & Hf & Hw & Hr & He & Ha). exists i, c. rewrite Er, Ez, Ee. split_and!; eauto.
Qed.

Lemma fork_seqs_tail r l : NoDup (fork_seqs (r :: l)) -> NoDup (fork_seqs l).
Proof. unfold fork_seqs. cbn. destruct r; [by inv 1 | done | done]. Qed.
Lemma p_seqs_tail e l : NoDup (p_seqs (e :: l)) -> NoDup (p_seqs l).
Proof. unfold p_seqs. cbn. destruct e; [by inv 1 | done | done]. Qed.

Lemma owners_reap_acked own k t pid rest :
  owners own k t -> t.(up) = true -> t.(inbox) = _ACK pid :: rest -> pid ∈ t.(zombies) ->
  owners own (reap_pid pid k) (Tmpl t.(up) t.(running) (t.(zombies) ∖ {[pid]}) t.(early_acks) t.(retiring) rest t.(outbox)).
Proof.
  intros [O1 O2 O3 O4 O5] Hu Ei Hz. destruct (O2 Hu) as [T1 T2 T3 T4 T5]. split; [by apply reap_kernel_ok | | | exact O4 | exact O5].
  - intros _. rewrite Ei in *. unfold ack_pids in T5. cbn in T5. apply NoDup_cons in T5 as [Hn T5]. split; cbn.
    + intros q Hq. destruct (T1 q) as (i & c & Hw); [set_solver|]. exists i, c. rewrite lookup_delete_ne; [done | set_solver].
    + set_solver.
    + done.
    + intros q Hq. destruct (T4 q) as [Hr He]; [set_solver|]. split; [|done]. assert (q <> pid) by (intros ->; apply Hn, ack_pids_in, Hq). set_solver.
    + exact T5.
  - intros _ s p q Hs Hp. destruct (O3 Hu s p q Hs Hp) as (i & c & Hf & Hw & Hr & He & Ha). assert (q <> pid) by (intros ->; rewrite Ei in Ha; set_solver).
    exists i, c. cbn. rewrite lookup_delete_ne by done. split_and!; [done | done | set_solver | done | rewrite Ei in Ha; set_solver].
Qed.

Lemma owners_early own k t pid rest :
  owners own k t -> t.(up) = true -> t.(inbox) = _ACK pid :: rest -> pid ∈ t.(running) ->
  owners own k (Tmpl t.(up) t.(running) t.(zombies) ({[pid]} ∪ t.(early_acks)) t.(retiring) rest t.(outbox)).
Proof.
  intros [O1 O2 O3 O4 O5] Hu Ei Hz. destruct (O2 Hu) as [T1 T2 T3 T4 T5]. split; [done | | | exact O4 | exact O5].
  - intros _. rewrite Ei in *. unfold ack_pids in T5. cbn in T5. apply NoDup_cons in T5 as [Hn T5]. split; cbn; [done | done | set_solver | | exact T5].
    intros q Hq. destruct (T4 q) as [Hr He]; [set_solver|]. split; [done|]. assert (q <> pid) by (intros ->; apply Hn, ack_pids_in, Hq). set_solver.
  - intros _ s p q Hs Hp. destruct (O3 Hu s p q Hs Hp) as (i & c & Hf & Hw & Hr & He & Ha). rewrite Ei in Ha.
    exists i, c. cbn. split_and!; [done | done | done | set_solver | set_solver].
Qed.

(** The template reads a frame that is not a fork, or refuses one. *)
Lemma inv_read own w w' r rest e :
  inv own w -> w.(T).(inbox) = r :: rest -> w'.(T).(inbox) = rest -> w'.(T).(outbox) = w.(T).(outbox) ++ e -> (e = [] \/ exists s n, e = [EE s n]) ->
  w'.(H) = w.(H) -> w'.(callers) = w.(callers) -> w'.(procs) = w.(procs) -> w'.(reads) = w.(reads) -> w'.(rdr) = w.(rdr) ->
  grows w.(K) w'.(K) -> w'.(K).(forked) = w.(K).(forked) -> w'.(K).(signals) = w.(K).(signals) -> owners own w'.(K) w'.(T) -> inv own w'.
Proof.
  intros [I1 I2 I3 I4 I5] Ei Ei' Eo He EH Ec Ep Er Ed G Ef Es O. split; [| done | | | rewrite Es; by eapply signals_grow].
  - eapply links_less; [exact I1 | | by rewrite EH | rewrite Ei'; eapply fork_seqs_tail; rewrite <- Ei; apply I1 |].
    + intros s p Hc. destruct Hc as [j s Hj|s Hi|s pid Ho|s pid Hx|j d s pid Hj Hh|s pid Hx|j d Hj Ha]; rewrite ?EH, ?Ec, ?Ep, ?Ed, ?Ei', ?Eo in *; try (by econstructor).
      * apply cl_inbox. rewrite Ei. set_solver.
      * apply cl_outbox. apply elem_of_app in Ho as [Ho | Ho]; [done|]. destruct He as [-> | (s' & n & ->)]; set_solver.
    + rewrite Eo. unfold p_seqs. rewrite omap_app. destruct He as [-> | (s' & n & ->)]; cbn; rewrite app_nil_r; apply I1.
  - rewrite EH. eapply own_codes_grows; [exact G | by rewrite Ef|]. rewrite Eo. destruct He as [-> | (s' & n & ->)]; [by rewrite app_nil_r | by apply own_codes_snoc].
  - apply (codes_keep w); [done | exact G | done | done | by rewrite EH].
Qed.

(** A fork: the kernel with the new worker. *)
Definition forked_kernel (s pid : Z) (k : kernel) : kernel :=
  Kernel (<[pid := Worker k.(next_inst) None]> k.(pids)) (S k.(next_inst)) (<[s := k.(next_inst)]> k.(forked)) k.(died) k.(signals).

Lemma forked_kernel_ok s pid k : kernel_ok k -> k.(pids) !! pid = None -> kernel_ok (forked_kernel s pid k).
Proof.
  intros [K1 K2 K3 K4 K5 K6 K7] Hp. split; cbn.
  - intros q i c. rewrite lookup_insert_Some. intros [[_ [= <- <-]] | [_ Hq]]; [lia | specialize (K1 _ _ _ Hq); lia].
  - intros q i. rewrite lookup_insert_Some. intros [[_ <-] | [_ Hq]]; [lia | specialize (K2 _ _ Hq); lia].
  - intros q q' i. rewrite !lookup_insert_Some. intros [[<- <-] | [_ Hq]] [[<- E] | [_ Hq']]; [done | specialize (K2 _ _ Hq'); lia | specialize (K2 _ _ Hq); lia | by eapply K3].
  - intros q q' i c c'. rewrite !lookup_insert_Some.
    intros [[Hpq E] | [_ Hq]] [[Hpq' E'] | [_ Hq']]; simplify_eq; [done | specialize (K1 _ _ _ Hq'); lia | specialize (K1 _ _ _ Hq); lia | by eapply K4].
  - intros q i c. rewrite lookup_insert_Some. intros [[_ [=]] | [_ Hq]]. by eapply K5.
  - intros q i. rewrite lookup_insert_Some. intros [[_ [= <-]] | [_ Hq]]; [|by eapply K6].
    destruct (k.(died) !! k.(next_inst)) eqn:E; [|done]. assert (is_Some (k.(died) !! k.(next_inst))) as Hs by eauto. specialize (K7 _ Hs). lia.
  - intros i Hi. specialize (K7 _ Hi). lia.
Qed.

Lemma owners_fork own k t s pid rest :
  owners own k t -> t.(up) = true -> t.(inbox) = _FORK s :: rest -> own !! s = Some InInbox -> k.(pids) !! pid = None ->
  owners (<[s := InOutbox pid]> own) (forked_kernel s pid k) (Tmpl t.(up) ({[pid]} ∪ t.(running)) t.(zombies) t.(early_acks) t.(retiring) rest (t.(outbox) ++ [EP s pid])).
Proof.
  intros [O1 O2 O3 O4 O5] Hu Ei Hs Hp. destruct (O2 Hu) as [T1 T2 T3 T4 T5].
  assert (Hfree : forall q, q ∈ t.(running) ∪ t.(zombies) -> q <> pid) by (intros q Hq ->; destruct (T1 pid Hq) as (i & c & Hw); congruence).
  split; [by apply forked_kernel_ok | | | |].
  - intros _. split; cbn.
    + intros q Hq. destruct (decide (pid = q)) as [<-|Hne]; [rewrite lookup_insert_eq; eauto|]. rewrite lookup_insert_ne by done. apply T1. set_solver.
    + assert (pid ∉ t.(zombies)) by (intros Hz; by apply (Hfree pid); [set_solver|]). set_solver.
    + set_solver.
    + intros q Hq. destruct (T4 q) as [Hr He]; [rewrite Ei; set_solver|]. set_solver.
    + rewrite Ei in T5. exact T5.
  - intros _ s' q pid'. rewrite lookup_insert_Some. intros [[<- <-] | [Hne Hq]] Hpid.
    + cbn in Hpid. injection Hpid as <-. exists k.(next_inst), None. cbn. rewrite !lookup_insert_eq. split_and!; [done | done | set_solver | |].
      * intros He. apply (Hfree pid); [set_solver | done].
      * intros Ha. destruct (T4 pid) as [Hr _]; [rewrite Ei; set_solver|]. by apply (Hfree pid Hr).
    + destruct (O3 Hu s' q pid' Hq Hpid) as (i & c & Hf & Hw & Hr & He & Ha). exists i, c. cbn. rewrite !lookup_insert_ne by (done || congruence).
      split_and!; [done | done | set_solver | done | rewrite Ei in Ha; set_solver].
  - intros s' q. rewrite lookup_insert_Some. intros [[<- <-] | [Hne Hq]] Hpid; cbn; [rewrite lookup_insert_eq; done | rewrite lookup_insert_ne by done; by eapply O4].
  - intros s'. cbn. rewrite lookup_insert_is_Some. intros [<- | [Hne Hf]]; [exists (InOutbox pid); by rewrite lookup_insert_eq|].
    destruct (O5 s' Hf) as (q & Hq & Hr). exists q. by rewrite lookup_insert_ne.
Qed.

Lemma inv_fork own w s pid rest :
  inv own w -> w.(T).(up) = true -> w.(T).(inbox) = _FORK s :: rest -> w.(K).(pids) !! pid = None ->
  inv (<[s := InOutbox pid]> own) (on_K (fun _ => forked_kernel s pid w.(K)) (on_T (fun t => Tmpl t.(up) ({[pid]} ∪ t.(running)) t.(zombies) t.(early_acks) t.(retiring) rest (t.(outbox) ++ [EP s pid])) w)).
Proof.
  intros I Hu Ei Hp. destruct (I) as [I1 I2 I3 I4 I5]. pose proof (l_claims _ _ I1) as Hcl.
  assert (Hs : own !! s = Some InInbox) by (apply Hcl; constructor; rewrite Ei; set_solver).
  assert (Hn : w.(K).(forked) !! s = None).
  { destruct (w.(K).(forked) !! s) eqn:E; [|done]. destruct (o_forked _ _ _ I2 s) as (p & Hp' & Hf); [by rewrite E|]. by simplify_eq. }
  assert (Hno : forall q, EP s q ∉ w.(T).(outbox)) by (intros q Hq; assert (own !! s = Some (InOutbox q)) by (apply Hcl; by constructor); congruence).
  assert (G : grows w.(K) (forked_kernel s pid w.(K))) by (split; [cbn; intros s' i Hi; rewrite lookup_insert_ne; [done | congruence] | done]).
  split; [| by apply owners_fork | | | cbn; by eapply signals_grow].
  - pose proof (l_forks _ _ I1) as Hnd. rewrite Ei in Hnd. unfold fork_seqs in Hnd. cbn in Hnd. apply NoDup_cons in Hnd as [Hnin Hnd].
    eapply (links_move own w _ s InInbox); [done | done | | done | done |].
    + intros s' q Hc. destruct Hc as [j s' Hj|s' Hi|s' pid' Ho|s' pid' Hx|j d s' pid' Hj Hh|s' pid' Hx|j d Hj Ha]; cbn in *; try (right; split; [by econstructor | by intros [? ?]]).
      * right. split; [constructor; rewrite Ei; set_solver|]. intros [-> _]. by apply Hnin, fork_seqs_in.
      * apply elem_of_app in Ho as [Ho | Ho]; [right; split; [by constructor | by intros [? ?]] | left; apply list_elem_of_singleton in Ho; by simplify_eq].
    + cbn. unfold p_seqs. rewrite omap_snoc. apply NoDup_snoc. split; [|apply I1]. rewrite p_seqs_in. intros [q Hq]. by apply (Hno q).
  - cbn. apply own_codes_set.
    + apply own_codes_snoc; [|cbn; intros q; congruence]. eapply own_codes_grows; [exact G | | exact I3].
      intros s' q pid' Hq Hpid. cbn. rewrite lookup_insert_ne; [done|]. intros <-. rewrite Hs in Hq. by simplify_eq.
    + intros pid' i [= <-] _ l1 l2 c El Hin. apply snoc_split in El as [[-> _] | (l2' & _ & El)]; [set_solver|]. destruct (Hno pid). rewrite El. set_solver.
  - apply (codes_keep w); [done | exact G | done..].
Qed.

Lemma owners_reap own k t pid i code (early : bool) :
  owners own k t -> t.(up) = true -> k.(pids) !! pid = Some (Worker i (Some code)) -> pid ∈ t.(running) -> (early = true <-> pid ∈ t.(early_acks)) ->
  owners own (if early then reap_pid pid k else k)
    (Tmpl t.(up) (t.(running) ∖ {[pid]}) (if early then t.(zombies) else {[pid]} ∪ t.(zombies)) (if early then t.(early_acks) ∖ {[pid]} else t.(early_acks))
       t.(retiring) t.(inbox) (t.(outbox) ++ [EX pid code])).
Proof.
  intros [O1 O2 O3 O4 O5] Hu Hw Hr He. destruct (O2 Hu) as [T1 T2 T3 T4 T5].
  assert (Hz : pid ∉ t.(zombies)) by set_solver.
  split; [destruct early; [by apply reap_kernel_ok | done] | | | by destruct early | by destruct early].
  - intros _. destruct early; split; cbn.
    + intros q Hq. rewrite lookup_delete_ne by set_solver. apply T1. set_solver.
    + set_solver.
    + set_solver.
    + intros q Hq. destruct (T4 q Hq) as [H1 H2]. assert (q <> pid) by (intros ->; apply H2, He; done). set_solver.
    + done.
    + intros q Hq. apply T1. set_solver.
    + set_solver.
    + assert (pid ∉ t.(early_acks)) by (intros Hx; apply He in Hx; done). set_solver.
    + intros q Hq. destruct (T4 q Hq) as [H1 H2]. destruct (decide (q = pid)); set_solver.
    + done.
  - intros _ s p q Hs Hp. destruct (O3 Hu s p q Hs Hp) as (i' & c & Hf & Hq & Hr' & He' & Ha). exists i', c.
    destruct early; cbn.
    + assert (q <> pid) by (intros ->; apply He', He; done). rewrite lookup_delete_ne by done. split_and!; [done | done | set_solver | set_solver | done].
    + split_and!; [done | done | destruct (decide (q = pid)); set_solver | done | done].
Qed.

Lemma inv_reap own w pid k t : inv own w -> w.(T).(up) = true -> _reap pid w.(K) w.(T) = Some (k, t) -> inv own (on_K (fun _ => k) (on_T (fun _ => t) w)).
Proof.
  intros [I1 I2 I3 I4 I5] Hu Hst. unfold _reap in Hst. destruct (pids (K w) !! pid) as [[i [code|]|]|] eqn:Ep; try discriminate Hst.
  destruct (decide (pid ∈ running (T w))) as [Hr|]; [|discriminate Hst].
  set (early := bool_decide (pid ∈ early_acks (T w))).
  pose proof (owners_reap own (K w) (T w) pid i code early I2 Hu Ep Hr (bool_decide_eq_true _)) as Ho.
  assert (k = (if early then reap_pid pid (K w) else K w) /\ t = Tmpl (up (T w)) (running (T w) ∖ {[pid]}) (if early then zombies (T w) else {[pid]} ∪ zombies (T w))
     (if early then early_acks (T w) ∖ {[pid]} else early_acks (T w)) (retiring (T w)) (inbox (T w)) (outbox (T w) ++ [EX pid code])) as [-> ->].
  { unfold early. destruct (decide (pid ∈ early_acks (T w))) as [He|He]; [rewrite bool_decide_eq_true_2 by done | rewrite bool_decide_eq_false_2 by done]; by simplify_eq. }
  assert (G : grows (K w) (if early then reap_pid pid (K w) else K w)) by (by destruct early).
  assert (Ef : forked (if early then reap_pid pid (K w) else K w) = forked (K w)) by (by destruct early).
  split; [| exact Ho | | | cbn; destruct early; exact I5].
  - eapply links_less; [exact I1 | | done | apply I1 | cbn; unfold p_seqs; rewrite omap_snoc, app_nil_r; apply I1].
    intros s p Hc. destruct Hc as [j s Hj|s Hi|s q Hx|s q Hx|j d s q Hj Hh|s q Hx|j d Hj Ha]; cbn in *; try (by econstructor).
    apply cl_outbox. set_solver.
  - cbn. apply own_codes_snoc; [eapply own_codes_grows; [exact G | by rewrite Ef | exact I3]|].
    intros s p i' Hs Hp Hi'. rewrite Ef in Hi'. apply G. destruct (o_live _ _ _ I2 Hu s p pid Hs Hp) as (i2 & c & Hf & Hw & _).
    simplify_eq. by eapply (k_code _ (o_kernel _ _ _ I2)).
  - apply (codes_keep w); [done | exact G | done..].
Qed.

Lemma inv_template_step own w a w' : inv own w -> template_step a w = Some w' -> exists own', inv own' w'.
Proof.
  intros I Hst. unfold template_step in Hst. destruct (up (T w)) eqn:Hu; [|discriminate Hst]. cbn in Hst. pose proof (i_owners _ _ I) as O.
  destruct a; try discriminate Hst.
  - unfold handle_request in Hst. destruct (inbox (T w)) as [|r rest] eqn:Ei; [discriminate Hst|]. cbv zeta in Hst. cbn in Hst.
    assert (Hrest : forall t', up t' = up (T w) -> running t' = running (T w) -> zombies t' = zombies (T w) -> early_acks t' = early_acks (T w) -> inbox t' = rest -> owners own (K w) t').
    { intros t' Eu Er Ez Ee Ei'. apply (owners_rest own (K w) (T w)); [done..|]. exists [r]. by rewrite Ei, Ei'. }
    destruct r as [s| |pid].
    + destruct (retiring (T w)) eqn:Ert; cbn in Hst.
      { simplify_eq. exists own. eapply (inv_read own w _ _ _ [EE s 22]); [done | done | done | done | eauto | done..| apply Hrest; done]. }
      destruct o as [pid|errno]; cbn in Hst.
      { destruct (pids (K w) !! pid) eqn:Ep; [discriminate Hst|]. cbn in Hst. simplify_eq. eexists. rewrite <- Ert. exact (inv_fork own w s pid rest I Hu Ei Ep). }
      simplify_eq. exists own. eapply (inv_read own w _ _ _ [EE s errno]); [done | done | done | done | eauto | done..| apply Hrest; done].
    + cbn in Hst. simplify_eq. exists own. eapply (inv_read own w _ _ _ []); [done | done | done | symmetry; apply app_nil_r | by left | done..| apply Hrest; done].
    + exists own. destruct (decide (pid ∈ zombies (T w))) as [Hz|Hz]; [|destruct (decide (pid ∈ running (T w))) as [Hr|Hr]]; cbn in Hst; simplify_eq;
      (eapply (inv_read own w _ _ _ []); [done | done | done | symmetry; apply app_nil_r | by left | done..|]).
      * by apply owners_reap_acked.
      * by apply owners_early.
      * by apply Hrest.
  - destruct (_reap pid (K w) (T w)) as [[k t]|] eqn:Er; [|discriminate Hst]. cbn in Hst. simplify_eq. exists own. by eapply inv_reap.
  - destruct (_ && _); [|discriminate Hst]. simplify_eq. exists own. by apply inv_leave.
  - simplify_eq. exists own. by apply inv_leave.
Qed.
