(* ===== verification/TemplateHost.v ===== *)
(** * The fork template: the host's steps keep the ownership of workers *)

From S2P Require Import Prelude Template TemplateInv TemplateSteps.

Lemma inv_set_caller own w i c : inv own w -> (forall s p, caller_claims i c s p -> claims w s p) -> inv own (set_caller i c w).
Proof.
  intros I Hc. apply (inv_host own w); [done..| |]; [cbn; lia|]. intros s p Hp. apply claims_caller in Hp as [Hp | [Hp _]]; auto.
Qed.

Lemma inv_add_caller own w c : inv own w -> (forall i s p, ~ caller_claims i c s p) -> inv own (add_caller c w).
Proof.
  intros I Hc. apply (inv_host own w); [done..| |]; [cbn; lia|]. intros s p Hp. apply claims_add_caller in Hp as [(i & _ & Hp) | Hp]; [by destruct (Hc i s p) | done].
Qed.

Lemma inv_on_H own w f :
  inv own w -> (f w.(H)).(_exits) = w.(H).(_exits) -> (f w.(H)).(_replies) ⊆ w.(H).(_replies) -> (w.(H).(dead) = true -> (f w.(H)).(dead) = true) ->
  w.(H).(_seq) <= (f w.(H)).(_seq) -> inv own (on_H f w).
Proof. intros I He Hr Hd Hs. apply (inv_host own w); [done..|]. intros s p Hp. by eapply claims_on_H. Qed.

(** Callers that have nothing. *)
Lemma no_claims i c s p : (forall q, c <> Sending q) -> caller_holds c = None -> ~ caller_claims i c s p.
Proof. intros Hs Hh. destruct c, p; cbn in *; try done; try (by destruct (Hs seq)); intros Hx; first [destruct Hx as [? ?]; congruence | destruct Hx]. Qed.

Lemma inv_idle_caller own w i c : inv own w -> (forall q, c <> Sending q) -> caller_holds c = None -> inv own (set_caller i c w).
Proof. intros I Hs Hh. apply inv_set_caller; [done|]. intros s p Hc. by destruct (no_claims i c s p Hs Hh). Qed.

Lemma retire_due_host h send h' : _retire_due h = (send, h') ->
  h'.(_exits) = h.(_exits) /\ h'.(_replies) = h.(_replies) /\ h'.(dead) = h.(dead) /\ h'.(_seq) = h.(_seq).
Proof. unfold _retire_due. intros E. by case_match; simplify_eq. Qed.

Lemma inv_finish own w i : inv own w -> inv own (finish_call i w).
Proof.
  intros I. unfold finish_call. destruct (_retire_due (settled (H w))) as [send h] eqn:E. apply retire_due_host in E as (E1 & E2 & E3 & E4).
  apply inv_idle_caller; [|by destruct send|by destruct send]. apply inv_on_H; [done | by rewrite E1 | by rewrite E2 | by rewrite E3 | by rewrite E4].
Qed.

(** A new request. *)
Lemma inv_begin own w i : inv own w -> inv (<[w.(H).(_seq) + 1 := Unsent i]> own) (set_caller i (Sending (w.(H).(_seq) + 1)) (on_H next_seq w)).
Proof.
  intros [I1 I2 I3 [C1 C2 C3] I5]. assert (Hn : own !! (w.(H).(_seq) + 1) = None).
  { destruct (own !! (w.(H).(_seq) + 1)) eqn:E; [|done]. assert (w.(H).(_seq) + 1 <= w.(H).(_seq)) by (apply (l_fresh _ _ I1); eauto). lia. }
  split; [| apply owners_unforked; [done | by left | done] | by apply own_codes_set | done | done].
  split; [| | apply I1 | apply I1].
  - intros s p Hc. apply claims_caller in Hc as [Hc | [Hc _]]; [destruct p; cbn in Hc; try done; destruct Hc as [E1 E2]; simplify_eq; by rewrite lookup_insert_eq|].
    apply claims_on_H in Hc; [|done]. apply (l_claims _ _ I1) in Hc. rewrite lookup_insert_ne; [done | congruence].
  - intros s. cbn. rewrite lookup_insert_is_Some. intros [<- | [_ Hs]]; [lia | apply (l_fresh _ _ I1) in Hs; lia].
Qed.

Lemma inv_send_fork own w i s : inv own w -> w.(callers) !! i = Some (Sending s) ->
  inv (<[s := InInbox]> own) (set_caller i (Waiting s) (on_T (send_request (_FORK s)) w)).
Proof.
  intros [I1 I2 I3 [C1 C2 C3] I5] Hi. assert (Hs : own !! s = Some (Unsent i)) by (apply (l_claims _ _ I1); by constructor).
  split; [| apply owners_unforked; [by apply owners_send | right; exists (Unsent i); split; [done | by intros []] | done] | by apply own_codes_set | done | done].
  apply (links_move own w _ s (Unsent i)); [done | done | | cbn; lia | | apply I1].
  - intros s' q Hc. apply claims_caller in Hc as [Hc | [Hc [Hne _]]]; [exfalso; by apply no_claims in Hc|].
    apply claims_send in Hc as [[[= ->] ->] | Hc]; [by left | right; split; [done | by intros [_ ->]]].
  - cbn. unfold fork_seqs. rewrite omap_snoc. apply NoDup_snoc. split; [|apply I1]. rewrite fork_seqs_in. intros Hin.
    assert (own !! s = Some InInbox) by (apply (l_claims _ _ I1); by constructor). congruence.
Qed.

(** A worker changes hands inside the host. *)
Lemma inv_pass own w w' s p p' pid :
  inv own w -> own !! s = Some p -> pid_of p = Some pid -> pid_of p' = Some pid -> out_of_box p -> out_of_box p' ->
  (forall s' q, claims w' s' q -> (s' = s /\ q = p') \/ (claims w s' q /\ ~ (s' = s /\ q = p))) ->
  w'.(K) = w.(K) -> w'.(T) = w.(T) -> w'.(H).(_exits) = w.(H).(_exits) -> w.(H).(_seq) <= w'.(H).(_seq) -> codes_ok w' -> inv (<[s := p']> own) w'.
Proof.
  intros [I1 I2 I3 I4 I5] Hs Hp Hp' Hb Hb' Hc EK ET Ex Hq Hcodes. split; rewrite ?EK, ?ET, ?Ex; [| by eapply owners_move | | done | done].
  - eapply links_move; [exact I1 | exact Hs | exact Hc | done | rewrite ET; apply I1 | rewrite ET; apply I1].
  - eapply own_codes_move; [exact I3 | done | exact Hp | done | done | by left].
Qed.

Definition take_reply (s : Z) (h : _Template) : _Template :=
  set_waiting (h.(_waiting) ∖ {[s]}) (set_events h.(_exits) h.(_started) (delete s h.(_replies)) h).

Lemma claims_take s w s' p : claims (on_H (take_reply s) w) s' p -> claims w s' p /\ forall pid, ~ (s' = s /\ p = InReplies pid).
Proof.
  intros Hc. destruct Hc as [j s' Hj|s' Hi|s' q Hx|s' q Hx|j d s' q Hj Hh|s' q Hx|j d Hj Ha]; cbn in *; try (split; [by econstructor | by intros ? [? ?]]).
  apply lookup_delete_Some in Hx as [Hne Hx]. split; [by constructor | intros ? [? _]; congruence].
Qed.

Lemma inv_wrap own w i s pid : inv own w -> w.(H).(_replies) !! s = Some (ReplyP pid) ->
  exists own', inv own' (set_caller i Finally (set_procs (w.(procs) ++ [Proc s pid None false false]) (on_H (take_reply s) w))).
Proof.
  intros I Hr. assert (Hs : own !! s = Some (InReplies pid)) by (apply (l_claims _ _ (i_links _ _ I)); by constructor).
  eexists. eapply (inv_pass own w _ s (InReplies pid) (WithProc (length w.(procs)) pid)); [exact I | exact Hs | done | done | done | done | | done | done | done | cbn; lia |].
  - intros s' q Hc. apply claims_caller in Hc as [Hc | [Hc _]]; [by apply no_claims in Hc|].
    assert (Hc' : (s' = s /\ q = WithProc (length w.(procs)) pid) \/ claims (on_H (take_reply s) w) s' q).
    { destruct Hc as [j s' Hj|s' Hi|s' x Hx|s' x Hx|j d s' x Hj Hh|s' x Hx|j d Hj Ha]; cbn in *; try (right; by econstructor).
      apply lookup_app_Some in Hj as [Hj | [Hl Hj]]; [right; by econstructor|]. apply list_lookup_singleton_Some in Hj as [Hj <-]. left. cbn. split; [done|]. f_equal. lia. }
    destruct Hc' as [Hc' | Hc']; [by left|]. apply claims_take in Hc' as [Hc' Hne]. right. split; [done | apply Hne].
  - destruct (i_codes _ _ I) as [C1 C2 C3]. split; cbn.
    + intros j p c Hj Hc. apply lookup_app_Some in Hj as [Hj | [_ Hj]]; [by eapply C1|]. apply list_lookup_singleton_Some in Hj as [_ <-]. discriminate Hc.
    + intros j c Hc. destruct (C2 j c Hc) as (p & Hj & Hp). exists p. split; [by apply lookup_app_l_Some | done].
    + intros j p Hj. apply lookup_app_Some in Hj as [Hj | [_ Hj]]; [by eapply C3|]. by apply list_lookup_singleton_Some in Hj as [_ <-].
Qed.

Lemma inv_unwrapped own w i s pid : inv own w -> w.(H).(_replies) !! s = Some (ReplyP pid) ->
  exists own', inv own' (set_caller i (Raised s (Some pid)) (on_H (take_reply s) w)).
Proof.
  intros I Hr. assert (Hs : own !! s = Some (InReplies pid)) by (apply (l_claims _ _ (i_links _ _ I)); by constructor).
  eexists. eapply (inv_pass own w _ s (InReplies pid) (WithCaller i pid)); [exact I | exact Hs | done | done | done | done | | done | done | done | cbn; lia | by destruct (i_codes _ _ I); split].
  intros s' q Hc. apply claims_caller in Hc as [Hc | [Hc _]].
  - left. destruct q; cbn in Hc; try done. destruct Hc as [[= -> ->] ->]. done.
  - right. apply claims_take in Hc as [Hc Hne]. split; [done | apply Hne].
Qed.

Lemma inv_fork_ack own w i s pid : inv own w -> w.(callers) !! i = Some (Acking s pid) -> exists own', inv own' (set_caller i Finally (ack pid w)).
Proof.
  intros I Hi. assert (Hs : own !! s = Some (WithCaller i pid)) by (apply (l_claims _ _ (i_links _ _ I)); by econstructor).
  eexists. eapply (inv_ack own w _ s (WithCaller i pid) pid); [exact I | exact Hs | done | done | | done | done | done | by destruct (i_codes _ _ I); split].
  intros s' q Hc. apply claims_caller in Hc as [Hc | [Hc [_ Hne]]]; [by apply no_claims in Hc|].
  apply claims_send in Hc as [[[=] _] | Hc]. split; [done | intros [_ ->]; by apply (Hne pid)].
Qed.

Lemma inv_fork_step own w a w' : inv own w -> fork_step a w = Some w' -> exists own', inv own' w'.
Proof.
  intros I Hst. destruct a; try discriminate Hst; cbn in Hst;
    repeat match type of Hst with context [callers w !! ?i] => destruct (callers w !! i) as [[]|] eqn:Hi; try discriminate Hst end.
  - destruct (_ || _); [discriminate Hst|]. simplify_eq. exists own. apply inv_add_caller; [|intros; by apply no_claims]. apply inv_on_H; [done..| cbn; lia].
  - destruct (_retire_due _) as [send h] eqn:E in Hst. simplify_eq. apply retire_due_host in E as (E1 & E2 & E3 & E4). exists own.
    apply inv_add_caller; [|intros; apply no_claims; by destruct send]. apply inv_on_H; [done | by rewrite E1 | by rewrite E2 | by rewrite E3 | rewrite E4; cbn; lia].
  - simplify_eq. exists own. by apply inv_idle_caller.
  - destruct (_ || _); simplify_eq; [exists own; by apply inv_idle_caller | eexists; by apply inv_begin].
  - destruct ok; simplify_eq; [eexists; by apply inv_send_fork | exists own; by apply inv_idle_caller].
  - destruct (_replies (H w) !! seq) as [[pid|errno]|] eqn:Er; [|simplify_eq|discriminate Hst].
    + destruct wraps; simplify_eq; [by apply (inv_wrap own) | by apply (inv_unwrapped own)].
    + exists own. apply inv_idle_caller; [|done..]. apply inv_on_H; [done | done | cbn; apply delete_subseteq | done | cbn; lia].
  - destruct (_replies (H w) !! seq); [discriminate Hst|]. simplify_eq. exists own. by apply inv_idle_caller.
  - simplify_eq. exists own. set (w1 := on_H _ w). assert (I1 : inv own w1) by (apply inv_on_H; [done | done | cbn; apply delete_subseteq | done | cbn; lia]).
    destruct pid as [pid|]; [|by apply inv_idle_caller]. apply inv_set_caller; [done|]. intros s p Hc.
    destruct p; cbn in Hc; try done. destruct Hc as [[= -> ->] ->]. by econstructor.
  - simplify_eq. exists own. assert (Hs : own !! seq = Some (WithCaller i pid)) by (apply (l_claims _ _ (i_links _ _ I)); by econstructor).
    apply inv_set_caller; [apply inv_signal; [done|]; intros Hu; by eapply owned_signal|]. intros s p Hc.
    destruct p; cbn in Hc; try done. destruct Hc as [[= -> ->] ->]. by econstructor.
  - simplify_eq. by eapply inv_fork_ack.
  - simplify_eq. exists own. by apply inv_finish.
  - simplify_eq. exists own. apply inv_idle_caller; [by apply inv_send_retire | done..].
Qed.

(** ** The reader *)

Definition popped (rest : list event) (t : template) : template := Tmpl t.(up) t.(running) t.(zombies) t.(early_acks) t.(retiring) t.(inbox) rest.

Lemma own_codes_pop own k e rest ex ex' :
  own_codes own k (e :: rest) ex -> (forall q c, ex' !! q = Some c -> ex !! q = Some c \/ e = EX q c) -> own_codes own k rest ex'.
Proof.
  intros Hc Hex s p pid i Hs Hp Hi. specialize (Hc s p pid i Hs Hp Hi). destruct p; cbn in *; try done.
  1: intros l1 l2 c El; apply (Hc (e :: l1) l2); by rewrite El.
  all: intros c [Hin | Hx]; apply Hc; [left; set_solver | destruct (Hex _ _ Hx) as [Ho | ->]; [by right | left; set_solver]].
Qed.

Lemma owners_popped own k t rest : owners own k t -> owners own k (popped rest t).
Proof. intros O. apply (owners_rest own k t); [done..|]. by exists []. Qed.

Lemma inv_event own w e rest w' :
  inv own w -> w.(T).(outbox) = e :: rest -> w'.(K) = w.(K) -> w'.(T) = popped rest w.(T) -> w'.(procs) = w.(procs) -> w'.(reads) = w.(reads) ->
  w'.(H).(dead) = w.(H).(dead) -> w'.(H).(_seq) = w.(H).(_seq) -> (forall q c, w'.(H).(_exits) !! q = Some c -> w.(H).(_exits) !! q = Some c \/ e = EX q c) ->
  (forall s p, claims w' s p -> claims w s p) -> inv own w'.
Proof.
  intros [I1 I2 I3 I4 I5] Eo EK ET Ep Er Ed Es Hex Hc. split; rewrite ?EK, ?ET; [| by apply owners_popped | | | done].
  - eapply links_less; [exact I1 | done | by rewrite Es | rewrite ET; apply I1 | rewrite ET; cbn [popped outbox]; apply (p_seqs_tail e); rewrite <- Eo; apply I1].
  - eapply (own_codes_pop _ _ e rest); [rewrite <- Eo; exact I3 | done].
  - apply (codes_keep w); [done | by rewrite EK | done | done | by rewrite Ed].
Qed.

(** A started worker leaves the socket. *)
Lemma inv_started own w s pid rest p' w' :
  inv own w -> w.(T).(outbox) = EP s pid :: rest -> pid_of p' = Some pid -> out_of_box p' ->
  (forall s' q, claims w' s' q -> (s' = s /\ q = p') \/ (claims w s' q /\ (EP s pid ∈ rest \/ ~ (s' = s /\ q = InOutbox pid)))) ->
  w'.(K) = w.(K) -> w'.(T) = popped rest w.(T) -> w'.(procs) = w.(procs) -> w'.(reads) = w.(reads) ->
  w'.(H).(dead) = w.(H).(dead) -> w'.(H).(_seq) = w.(H).(_seq) -> w'.(H).(_exits) = delete pid w.(H).(_exits) -> inv (<[s := p']> own) w'.
Proof.
  intros [I1 I2 I3 I4 I5] Eo Hp Hb Hc EK ET Ep Er Ed Es Ex.
  assert (Hs : own !! s = Some (InOutbox pid)) by (apply (l_claims _ _ I1); constructor; rewrite Eo; set_solver).
  pose proof (l_ps _ _ I1) as Hnd. rewrite Eo in Hnd. assert (Hnin : EP s pid ∉ rest).
  { unfold p_seqs in Hnd. cbn in Hnd. apply NoDup_cons in Hnd as [Hn _]. intros Hin. apply Hn, p_seqs_in. eauto. }
  split; rewrite ?EK, ?ET, ?Ex; [| apply owners_popped; by eapply owners_move | | | done].
  - eapply links_move; [exact I1 | exact Hs | | by rewrite Es | rewrite ET; apply I1 | rewrite ET; by eapply p_seqs_tail].
    intros s' q Hq. destruct (Hc s' q Hq) as [? | [? [? | ?]]]; [by left | done | by right].
  - apply own_codes_set.
    + eapply (own_codes_pop _ _ (EP s pid) rest); [rewrite <- Eo; exact I3|]. intros q c Hq. apply lookup_delete_Some in Hq as [_ Hq]. by left.
    + intros q i Hq Hi. rewrite Hp in Hq. injection Hq as <-. apply codes_at_out; [done|]. pose proof (I3 s _ pid i Hs eq_refl Hi) as Hold. cbn in Hold.
      intros c [Hin | Hx]; [by apply (Hold [] rest) | by rewrite lookup_delete_eq in Hx].
  - apply (codes_keep w); [done | by rewrite EK | done | done | by rewrite Ed].
Qed.

Lemma claims_popped w e rest s p : w.(T).(outbox) = e :: rest -> claims (on_T (popped rest) w) s p -> claims w s p /\ (forall pid, p = InOutbox pid -> EP s pid ∈ rest).
Proof.
  intros Eo Hc. destruct Hc as [j s Hj|s Hi|s q Hx|s q Hx|j d s q Hj Hh|s q Hx|j d Hj Ha]; cbn in *; try (split; [by econstructor | done]).
  split; [constructor; rewrite Eo; set_solver | intros pid [= ->]; done].
Qed.

Lemma inv_on_event own w e rest : inv own w -> w.(T).(outbox) = e :: rest -> w.(rdr) = AtSocket -> exists own', inv own' (_on_event e (on_T (popped rest) w)).
Proof.
  intros I Eo Hr. destruct e as [s pid|s errno|pid code]; cbn [_on_event].
  - set (w1 := on_T (popped rest) w). destruct (decide (s ∈ _waiting (H w1))) as [Hw|Hw]; eexists.
    + eapply (inv_started own w s pid rest (InReplies pid)); [exact I | exact Eo | done | done | | done..]. intros s' q Hc.
      destruct Hc as [j s' Hj|s' Hi|s' x Hx|s' x Hx|j d s' x Hj Hh|s' x Hx|j d Hj Ha]; cbn in *; try (right; split; [by econstructor | right; by intros [? ?]]).
      * right. split; [constructor; rewrite Eo; set_solver|]. destruct (decide (s' = s /\ x = pid)) as [[-> ->]|]; [by left | right; naive_solver].
      * apply lookup_insert_Some in Hx as [[<- [= <-]] | [_ Hx]]; [by left | right; split; [by constructor | right; by intros [? ?]]].
    + eapply (inv_started own w s pid rest (WithReader pid)); [exact I | exact Eo | done | done | | done..]. intros s' q Hc.
      destruct Hc as [j s' Hj|s' Hi|s' x Hx|s' x Hx|j d s' x Hj Hh|s' x Hx|j d Hj Ha]; cbn in *; try (right; split; [by econstructor | right; by intros [? ?]]).
      * right. split; [constructor; rewrite Eo; set_solver|]. destruct (decide (s' = s /\ x = pid)) as [[-> ->]|]; [by left | right; naive_solver].
      * left. by simplify_eq.
  - exists own. destruct (decide _); (eapply (inv_event own w _ rest); [exact I | exact Eo | done..| by left |]).
    + intros s' q Hc. destruct Hc as [j s' Hj|s' Hi|s' x Hx|s' x Hx|j d s' x Hj Hh|s' x Hx|j d Hj Ha]; cbn in *; try (by econstructor); [constructor; rewrite Eo; set_solver|].
      apply lookup_insert_Some in Hx as [[_ [=]] | [_ Hx]]. by constructor.
    + intros s' q Hc. by eapply claims_popped in Hc as [Hc _].
  - exists own. eapply (inv_event own w _ rest); [exact I | exact Eo | done..| |].
    + cbn. intros q c Hq. apply lookup_insert_Some in Hq as [[-> ->] | [_ Hq]]; [by right | by left].
    + intros s' q Hc. apply claims_on_H in Hc; [|done]. by eapply claims_popped in Hc as [Hc _].
Qed.

Lemma claims_rdr r w s p : claims (set_rdr r w) s p -> (exists pid, p = WithReader pid /\ reader_holds r = Some (s, pid)) \/ (claims w s p /\ forall pid, p <> WithReader pid).
Proof. intros Hc. destruct Hc; cbn in *; try (right; split; [by econstructor | done]). left. eauto. Qed.

Lemma inv_set_rdr own w r : inv own w -> (reader_holds r = None \/ reader_holds r = reader_holds w.(rdr)) -> inv own (set_rdr r w).
Proof.
  intros I Hr. apply (inv_host own w); [done..| cbn; lia |]. intros s p Hc. apply claims_rdr in Hc as [(pid & -> & Hp) | [Hc _]]; [|done].
  destruct Hr as [Hr | Hr]; [congruence|]. constructor. congruence.
Qed.

Lemma inv_on_eof own w : inv own w -> inv own (_on_eof w).
Proof. intros I. apply inv_set_rdr; [|by left]. apply inv_on_H; [done..| cbn; lia]. Qed.

Lemma inv_reader_step own w a w' : inv own w -> reader_step a w = Some w' -> exists own', inv own' w'.
Proof.
  intros I Hst. destruct a; try discriminate Hst; cbn in Hst; destruct (rdr w) as [|s pid|s pid|lost|] eqn:Hr; try discriminate Hst.
  - destruct (outbox (T w)) as [|e rest] eqn:Eo; [discriminate Hst|]. injection Hst as <-. by eapply inv_on_event.
  - injection Hst as <-. exists own. assert (Hs : own !! s = Some (WithReader pid)) by (apply (l_claims _ _ (i_links _ _ I)); constructor; by rewrite Hr).
    apply inv_set_rdr; [apply inv_signal; [done|]; intros Hu; by eapply owned_signal | right; cbn; by rewrite Hr].
  - injection Hst as <-. assert (Hs : own !! s = Some (WithReader pid)) by (apply (l_claims _ _ (i_links _ _ I)); constructor; by rewrite Hr).
    eexists. eapply (inv_ack own w _ s (WithReader pid) pid); [exact I | exact Hs | done | done | | done | done | done | by destruct (i_codes _ _ I); split].
    intros s' q Hc. apply claims_rdr in Hc as [(x & _ & [=]) | [Hc Hne]]. apply claims_send in Hc as [[[=] _] | Hc]. split; [done | intros [_ ->]; by apply (Hne pid)].
  - exists own. destruct (closer w); try (injection Hst as <-; by apply inv_on_eof); destruct (up (T w)), (outbox (T w)); try discriminate Hst; injection Hst as <-; by apply inv_on_eof.
  - destruct lost as [|pid lost]; [discriminate Hst|]. injection Hst as <-. exists own. apply inv_set_rdr; [by apply inv_signal | by left].
  - destruct lost; [|discriminate Hst]. injection Hst as <-. exists own. apply inv_set_rdr; [|by left]. apply inv_on_H; [done..| cbn; lia].
Qed.

(** ** The procs, and closing *)

Lemma claims_procs ps w s p : claims (set_procs ps w) s p ->
  (exists j q, ps !! j = Some q /\ q.(_acked) = false /\ s = q.(p_seq) /\ p = WithProc j q.(p_pid)) \/ (claims w s p /\ forall j pid, p <> WithProc j pid).
Proof. intros Hc. destruct Hc; cbn in *; try (right; split; [by econstructor | done]). left. eauto 7. Qed.

Lemma inv_ack_once own w j p p' :
  inv own w -> w.(procs) !! j = Some p -> p'.(p_seq) = p.(p_seq) -> p'.(p_pid) = p.(p_pid) -> p'.(_acked) = p.(_acked) ->
  codes_ok (set_procs (<[j := acked p']> w.(procs)) w) -> exists own', inv own' (_ack_once j p' w).
Proof.
  intros I Hj Es Ep Ea Hcodes. unfold _ack_once. set (w1 := set_procs _ w).
  assert (Hless : forall s q, claims w1 s q -> claims w s q /\ forall pid, q <> WithProc j pid).
  { intros s q Hc. apply claims_procs in Hc as [(i & x & Hi & Hx & -> & ->) | [Hc Hn]]; [|by split].
    apply list_lookup_insert_Some in Hi as [(-> & <- & _) | [Hne Hi]]; [discriminate Hx|]. split; [by econstructor | intros pid [= E _]; congruence]. }
  destruct (p'.(_acked)) eqn:E.
  - exists own. destruct I as [I1 I2 I3 I4 I5]. split; [| done | done | done | done].
    eapply links_same; [exact I1 | intros s q Hc; by apply Hless | done | done | done].
  - assert (Hs : own !! p.(p_seq) = Some (WithProc j p.(p_pid))) by (apply (l_claims _ _ (i_links _ _ I)); constructor; congruence).
    eexists. eapply (inv_ack own w _ p.(p_seq) (WithProc j p.(p_pid)) p.(p_pid)); [exact I | exact Hs | done | done | | done | by rewrite Ep | done | by destruct Hcodes; split].
    intros s q Hc. apply claims_send in Hc as [[[=] _] | Hc]. apply Hless in Hc as [Hc Hn]. split; [done | intros [_ ->]; by eapply Hn].
Qed.

Lemma right_code_same k h p p' c : p'.(p_seq) = p.(p_seq) -> right_code k h p c -> right_code k h p' c.
Proof. unfold right_code. by intros ->. Qed.

Lemma codes_update w j p p' rs :
  codes_ok w -> w.(procs) !! j = Some p -> p'.(p_seq) = p.(p_seq) -> (forall c, p'.(returncode) = Some c -> right_code w.(K) w.(H) p c) ->
  (p'.(returncode) = None -> p'.(dropped) = false -> p'.(_acked) = false) -> (forall x, x ∈ rs -> x ∈ w.(reads)) ->
  codes_ok (set_procs (<[j := p']> w.(procs)) (set_reads rs w)).
Proof.
  intros [C1 C2 C3] Hj Es Hr Ho Hrs. split; cbn.
  - intros i q c Hi Hc. apply list_lookup_insert_Some in Hi as [(-> & <- & _) | [_ Hi]]; [eapply right_code_same; eauto | by eapply C1].
  - intros i c Hi. destruct (C2 i c (Hrs _ Hi)) as (q & Hq & Hc). destruct (decide (j = i)) as [<-|Hne].
    + exists p'. split; [by apply list_lookup_insert_eq, lookup_lt_is_Some_1; eauto|]. simplify_eq. by eapply right_code_same.
    + exists q. by rewrite list_lookup_insert_ne.
  - intros i q Hi. apply list_lookup_insert_Some in Hi as [(-> & <- & _) | [_ Hi]]; [done | by eapply C3].
Qed.

(** What [exit_code] says of an open proc is right. *)
Lemma exit_code_right own w j p c : inv own w -> w.(procs) !! j = Some p -> p.(_acked) = false -> exit_code p.(p_pid) w.(H) = Some c -> right_code w.(K) w.(H) p c.
Proof.
  intros [I1 I2 I3 I4 I5] Hj Ha Hc. assert (Hs : own !! p.(p_seq) = Some (WithProc j p.(p_pid))) by (apply (l_claims _ _ I1); by constructor).
  destruct (o_known _ _ _ I2 _ _ Hs) as [i Hi]; [done|]. unfold exit_code in Hc.
  destruct (_exits (H w) !! p_pid p) as [x|] eqn:Ex; [|destruct (dead (H w)) eqn:Ed; [injection Hc as <-; by right | discriminate Hc]].
  injection Hc as <-. left. exists i. split; [done|]. apply (I3 _ _ _ _ Hs eq_refl Hi). by right.
Qed.

Lemma inv_set_reads own w rs : inv own w -> (forall j c, (j, c) ∈ rs -> exists p, w.(procs) !! j = Some p /\ right_code w.(K) w.(H) p c) -> inv own (set_reads rs w).
Proof.
  intros [I1 I2 I3 [C1 C2 C3] I5] Hr. split; [| done | done | by split | done]. eapply links_same; [exact I1 | intros s q Hc; destruct Hc; by econstructor | done | done | done].
Qed.

Lemma inv_proc_step own w a w' : inv own w -> proc_step a w = Some w' -> exists own', inv own' w'.
Proof.
  intros I Hst. destruct (i_codes _ _ I) as [C1 C2 C3]. destruct a; try discriminate Hst; cbn in Hst.
  - destruct (procs w !! j) as [p|] eqn:Hj; [|discriminate Hst]. destruct (dropped p) eqn:Ed; [discriminate Hst|].
    destruct (returncode p) eqn:Er; [discriminate Hst|]. destruct (exit_code (p_pid p) (H w)) as [c|] eqn:Ec; [|discriminate Hst]. injection Hst as <-.
    exists own. apply inv_set_reads; [done|]. intros i x. rewrite elem_of_app, list_elem_of_singleton. intros [Hx | [= -> ->]]; [by apply C2|].
    exists p. split; [done|]. eapply exit_code_right; eauto.
  - destruct (reads w) as [|[j c] rest] eqn:Er; [discriminate Hst|]. destruct (procs w !! j) as [p|] eqn:Hj; [|discriminate Hst]. injection Hst as <-.
    assert (Hin : forall x, x ∈ rest -> x ∈ reads w) by (rewrite Er; set_solver).
    eapply (inv_ack_once own (set_reads rest w) j p); [apply inv_set_reads; [done | intros i x Hx; apply C2; set_solver] | done | done | done | done|].
    apply (codes_update w j p); [apply I | done | done | | cbn; by case_match | done].
    cbn. intros x Hx. case_match; simplify_eq; [by eapply C1|]. destruct (C2 j x) as (q & Hq & Hc); [set_solver|]. by simplify_eq.
  - destruct (procs w !! j) as [p|] eqn:Hj; [|discriminate Hst]. destruct (dropped p); [discriminate Hst|]. injection Hst as <-. exists own.
    destruct (_acked p) eqn:Ea; [done|]. apply inv_signal; [done|]. intros Hu. eapply owned_signal; [done | apply (l_claims _ _ (i_links _ _ I)); by constructor | done | done].
  - destruct (procs w !! j) as [p|] eqn:Hj; [|discriminate Hst]. destruct (dropped p) eqn:Ed; [discriminate Hst|]. injection Hst as <-.
    eapply (inv_ack_once own w j p); [done | done | done | done | done|].
    apply (codes_update w j p _ (reads w)); [apply I | done | done | cbn; intros x Hx; by eapply C1 | done | done].
Qed.

Lemma inv_set_closer own w c : inv own w -> inv own (set_closer c w).
Proof. intros I. apply (inv_host own w); [done..| cbn; lia |]. intros s p Hc. destruct Hc; by econstructor. Qed.

Lemma inv_close_step own w a w' : inv own w -> close_step a w = Some w' -> inv own w'.
Proof.
  intros I Hst. destruct a; try discriminate Hst; cbn in Hst; destruct (closer w) as [|[|pid lost]| | |]; try discriminate Hst; injection Hst as <-; apply inv_set_closer.
  - apply inv_on_H; [done..| cbn; lia].
  - by apply inv_signal.
  - by apply inv_leave.
  - done.
  - apply inv_on_H; [done..| cbn; lia].
Qed.

Lemma template_inv_init n others : inv ∅ (init n others).
Proof.
  assert (Hk : forall pid i c, pids (K (init n others)) !! pid <> Some (Worker i c)).
  { intros pid i c Hp. cbn in Hp. apply lookup_set_to_map in Hp as (x & _ & E); [|done]. congruence. }
  split; [split; cbn | split | | split; cbn | constructor]; cbn; try done; try (intros; set_solver).
  - intros s p Hc. destruct Hc; cbn in *; try done; try (by rewrite lookup_empty in *); set_solver.
  - intros s [x Hx]. by rewrite lookup_empty in Hx.
  - constructor.
  - constructor.
  - split; try (intros; exfalso; eapply Hk; eassumption); cbn; try done. intros i [x Hx]. by rewrite lookup_empty in Hx.
  - intros _. split; cbn; [intros; set_solver | set_solver | set_solver | intros; set_solver | constructor].
  - intros s [x Hx]. by rewrite lookup_empty in Hx.
Qed.

Lemma exec_inv own w a w' : inv own w -> exec a w = Some w' -> exists own', inv own' w'.
Proof.
  intros I Hst. destruct a; unfold exec in Hst;
    first [ by eapply inv_template_step | by eapply inv_fork_step | by eapply inv_reader_step | by eapply inv_proc_step
          | exists own; by eapply inv_kernel_step | exists own; by eapply inv_close_step ].
Qed.

Lemma template_reachable_inv n others w : reachable n others w -> exists own, inv own w.
Proof.
  unfold reachable. generalize (template_inv_init n others). generalize (∅ : gmap Z place). intros own I Hr. revert own I.
  induction Hr as [w|w1 w2 w3 [a Ha] _ IH]; intros own I; [eauto|]. destruct (exec_inv own w1 a w2 I Ha) as [own' I']. eauto.
Qed.
