(* ===== verification/TemplateProps.v ===== *)
(** * Properties of the fork template

    Whose pid a signal hits, whose exit code a proc reports, what becomes of a retired template. *)

From S2P Require Import Prelude Template TemplateInv TemplateSteps TemplateHost.

(** C14. While the template is up, a signal that a [ForkedProc], a failing [fork_worker] or the
    reader's clean-up sends reaches the very worker its fork request got, running or still a
    zombie of the template, and never a process that was given the pid after it: for every
    interleaving of the host's threads, the template, its workers and the other processes. *)
Theorem signals_hit_own_worker n others w s q :
  reachable n others w -> s ∈ w.(K).(signals) -> s.(template_was_up) = true ->
  s.(by_) = ByProc q \/ s.(by_) = ByReader q \/ s.(by_) = ByFork q ->
  exists i c, w.(K).(forked) !! q = Some i /\ s.(hit) = Some (Worker i c).
Proof.
  intros Hr Hs Hu Hb. destruct (template_reachable_inv _ _ _ Hr) as [own [_ _ _ _ I5]]. rewrite Forall_forall in I5. specialize (I5 s Hs). unfold signal_ok in I5.
  destruct Hb as [E | [E | E]]; rewrite E in I5; by apply I5.
Qed.

(** The return code of a [ForkedProc] is the code its own worker exited with, however often
    its pid was used before or after, or -9 once the template is gone. *)
Theorem return_code_own n others w j p c :
  reachable n others w -> w.(procs) !! j = Some p -> p.(returncode) = Some c ->
  (exists i, w.(K).(forked) !! p.(p_seq) = Some i /\ w.(K).(died) !! i = Some c) \/ (c = -9 /\ w.(H).(dead) = true).
Proof. intros Hr Hj Hc. destruct (template_reachable_inv _ _ _ Hr) as [own I]. exact (c_procs _ (i_codes _ _ I) j p c Hj Hc). Qed.

Lemma run_reachable n others acts w : run acts (init n others) = Some w -> reachable n others w.
Proof.
  unfold reachable. generalize (init n others). induction acts as [|a acts IH]; cbn; intros w0 E; [injection E as <-; apply rtc_refl|].
  destruct (exec a w0) as [w1|] eqn:Ea; [|discriminate E]. eapply rtc_l; [exists a; exact Ea | by apply IH].
Qed.

(** One worker, forked and handed out. *)
Definition one_worker : list action := [HReserve; FBegin 0; FSend 0 true; TRequest (Forked 100); REvent; FReply 0 true; FFinally 0].

(** A fork request whose reply arrives between the host's giving up and its clean-up. *)
Definition late_reply : list action :=
  [HReserve; FBegin 0; FSend 0 true; TRequest (Forked 100); FRaise 0; REvent; FCleanup 0; FFinally 0; HRetire; FRetire 1; TRequest (Forked 0);
   WorkerExits 100 0; TReap 100; REvent].

(** A worker whose proc was dropped, and one whose template died. *)
Definition dropped_then_closed : list action :=
  one_worker ++ [PDrop 0; TRequest (Forked 0); WorkerExits 100 0; TReap 100; StrangerStarts 100; CClose; CKill].
Definition template_lost : list action := one_worker ++ [TDies; WorkerExits 100 0; OrphanReaped 100; StrangerStarts 100; PKill 0].

(** ** A reply nobody takes *)

(** The template holds a zombie that nobody will ack. *)
Record stuck (pid : Z) (w : world) : Prop := Stuck {
  s_zombie : w.(T).(up) = true -> pid ∈ w.(T).(zombies);
  s_running : w.(T).(running) = ∅;
  s_inbox : w.(T).(inbox) = [];
  s_outbox : w.(T).(outbox) = [];
  s_callers : Forall (eq Returned) w.(callers);
  s_procs : w.(procs) = [];
  s_reads : w.(reads) = [];
  s_reader : reader_holds w.(rdr) = None;
  s_retired : w.(H).(retire_requested) = true /\ w.(H).(_retire_sent) = true
}.

(** Steps that leave the template and the callers as they are, or end the template. *)
Lemma stuck_same pid w w' :
  stuck pid w -> w'.(T) = w.(T) \/ w'.(T) = leave w.(T) -> (w'.(callers) = w.(callers) \/ w'.(callers) = w.(callers) ++ [Returned]) -> w'.(procs) = w.(procs) ->
  w'.(reads) = w.(reads) -> reader_holds w'.(rdr) = None -> w'.(H).(retire_requested) = true -> w'.(H).(_retire_sent) = true -> stuck pid w'.
Proof.
  intros [S1 S2 S3 S4 S5 S6 S7 S8 S9] HT Hc Ep Er Hr H1 H2. split; rewrite ?Ep, ?Er; try done; try (destruct HT as [-> | ->]; done).
  destruct Hc as [-> | ->]; [done|]. apply Forall_app. by split; [|constructor].
Qed.

Lemma stuck_caller pid w i : stuck pid w -> w.(callers) !! i = None \/ w.(callers) !! i = Some Returned.
Proof. intros S. destruct (callers w !! i) as [c|] eqn:E; [right; by rewrite <- (Forall_lookup_1 _ _ _ _ (s_callers _ _ S) E) | by left]. Qed.

Lemma fork_stuck pid a w w' : stuck pid w -> fork_step a w = Some w' -> stuck pid w'.
Proof.
  intros S Hst. destruct (s_retired _ _ S) as [S1 S2]. destruct a; try discriminate Hst; cbn in Hst;
    try match type of Hst with context [callers w !! ?i] => destruct (stuck_caller pid w i S) as [E | E]; rewrite E in Hst; discriminate Hst end.
  - rewrite S1 in Hst. discriminate Hst.
  - unfold _retire_due in Hst. cbn in Hst. rewrite S2, andb_false_r in Hst. simplify_eq. apply (stuck_same pid w); try done; [by left | by right | apply S].
Qed.

Lemma exec_stuck pid a w w' : stuck pid w -> exec a w = Some w' -> stuck pid w'.
Proof.
  intros S Hst. destruct (S) as [S1 S2 S3 S4 S5 S6 S7 S8 [S9 S10]]. destruct a; unfold exec in Hst; try (by eapply fork_stuck);
    unfold kernel_step, template_step, handle_request, _reap, reader_step, proc_step, close_step in Hst; rewrite ?S2, ?S3, ?S4, ?S6, ?S7 in Hst; cbn in Hst.
  1-4: repeat (case_match; try discriminate Hst); simplify_eq; apply (stuck_same pid w); try done; by left.
  all: repeat (case_match; try discriminate Hst; try done); simplify_eq; apply (stuck_same pid w); try done; first [by left | by right].
Qed.

Lemma run_stuck pid acts w w' : stuck pid w -> run acts w = Some w' -> stuck pid w'.
Proof.
  revert w. induction acts as [|a acts IH]; cbn; intros w S E; [by simplify_eq|]. destruct (exec a w) as [w1|] eqn:Ea; [|discriminate E].
  eapply IH; [by eapply exec_stuck | done].
Qed.

(** Two signals that can reach a stranger: [close] signals a worker whose proc was dropped and
    which the template, acked in advance, has reaped before its report arrived, and a [ForkedProc]
    that has not seen its template's death signals a pid that its worker has already left. *)
Theorem stale_signals :
  (exists w s, reachable 64 ∅ w /\ s ∈ w.(K).(signals) /\ s.(by_) = ByClose /\ s.(template_was_up) = true /\ s.(hit) = Some Stranger) /\
  (exists w s, reachable 64 ∅ w /\ s ∈ w.(K).(signals) /\ s.(by_) = ByProc 1 /\ s.(hit) = Some Stranger).
Proof.
  split.
  - destruct (run dropped_then_closed (init 64 ∅)) as [w|] eqn:E; [|vm_compute in E; discriminate E].
    exists w, (Signal ByClose 100 (Some Stranger) true). split; [by eapply run_reachable|]. vm_compute in E. injection E as <-. split; [apply list_elem_of_singleton; reflexivity | done].
  - destruct (run template_lost (init 64 ∅)) as [w|] eqn:E; [|vm_compute in E; discriminate E].
    exists w, (Signal (ByProc 1) 100 (Some Stranger) false). split; [by eapply run_reachable|]. vm_compute in E. injection E as <-. split; [apply list_elem_of_singleton; reflexivity | done].
Qed.

(** ** Retiring *)

Definition active (c : caller) : bool := match c with Retiring | Returned => false | _ => true end.
Definition actives (cs : list caller) : Z := Z.of_nat (length (filter (fun c => active c = true) cs)).

(** No fork request behind a retire, [r] telling whether one was read. *)
Fixpoint ordered (r : bool) (l : list request) : Prop :=
  match l with
  | [] => True
  | _FORK _ :: l => r = false /\ ordered r l
  | _RETIRE :: l => ordered true l
  | _ACK _ :: l => ordered r l
  end.

Lemma ordered_app r l l' : ordered r (l ++ l') <-> ordered r l /\ ordered (r || bool_decide (_RETIRE ∈ l)) l'.
Proof.
  revert r. induction l as [|[s| |p] l IH]; intros r; cbn; [rewrite bool_decide_eq_false_2, orb_false_r by set_solver; tauto | | |].
  - rewrite IH. rewrite (bool_decide_ext (_RETIRE ∈ _FORK s :: l) (_RETIRE ∈ l)) by set_solver. tauto.
  - rewrite IH, (bool_decide_eq_true_2 (_RETIRE ∈ _RETIRE :: l)) by set_solver. cbn. by rewrite orb_true_r.
  - rewrite IH. rewrite (bool_decide_ext (_RETIRE ∈ _ACK p :: l) (_RETIRE ∈ l)) by set_solver. tauto.
Qed.

Lemma actives_snoc cs c : actives (cs ++ [c]) = actives cs + (if active c then 1 else 0).
Proof. unfold actives. rewrite filter_app, length_app, filter_cons, filter_nil. destruct (active c); case_decide; cbn; done || lia. Qed.

Lemma actives_set cs i c c' : cs !! i = Some c -> actives (<[i := c']> cs) = actives cs - (if active c then 1 else 0) + (if active c' then 1 else 0).
Proof.
  intros Hi. unfold actives. rewrite <- (take_drop_middle cs i c Hi) at 2. rewrite (insert_take_drop _ _ _ (lookup_lt_Some _ _ _ Hi)).
  rewrite !filter_app, !length_app, !filter_cons. destruct (active c), (active c'); repeat case_decide; cbn; done || lia.
Qed.

Lemma actives_nonneg cs i c : cs !! i = Some c -> active c = true -> 1 <= actives cs.
Proof. intros Hi Ha. unfold actives. pose proof (list_elem_of_filter (fun c => active c = true) cs c) as Hf.
  assert (c ∈ filter (fun c => active c = true) cs) as Hin by (apply Hf; split; [done | by eapply list_elem_of_lookup_2]).
  destruct (filter _ cs); [set_solver | cbn; lia].
Qed.

(** [d]: reservations whose thread left without giving them back. *)
Record retire_ok (d : Z) (w : world) : Prop := RetireOk {
  ro_count : w.(H).(_outstanding) = actives w.(callers) + d;
  ro_lost : 0 <= d;
  ro_sent : w.(H).(_retire_sent) = true -> w.(H).(retire_requested) = true /\ w.(H).(_outstanding) = 0;
  ro_flight : Retiring ∈ w.(callers) \/ _RETIRE ∈ w.(T).(inbox) \/ w.(T).(retiring) = true -> w.(H).(_retire_sent) = true;
  ro_order : ordered w.(T).(retiring) w.(T).(inbox)
}.

(** Steps that say nothing of retiring and give nobody a fork to send. *)
Lemma retire_same d w w' :
  retire_ok d w -> w'.(H).(_outstanding) = w.(H).(_outstanding) -> w'.(H).(_retire_sent) = w.(H).(_retire_sent) -> w'.(H).(retire_requested) = w.(H).(retire_requested) ->
  actives w'.(callers) = actives w.(callers) -> (Retiring ∈ w'.(callers) -> Retiring ∈ w.(callers)) ->
  w'.(T).(retiring) = w.(T).(retiring) -> (w'.(T).(inbox) = w.(T).(inbox) \/ exists pid, w'.(T).(inbox) = w.(T).(inbox) ++ [_ACK pid]) -> retire_ok d w'.
Proof.
  intros [R1 R0 R2 R3 R4] Eo Es Er Ea Hc Et Ei. split; rewrite ?Eo, ?Es, ?Er, ?Ea, ?Et; [done | done | done | |].
  - intros [Hx | [Hx | Hx]]; apply R3; [auto | | auto]. right; left. destruct Ei as [Ei | [pid Ei]]; rewrite Ei in Hx; set_solver.
  - destruct Ei as [-> | [pid ->]]; [done|]. by apply ordered_app.
Qed.

Lemma retire_set_caller d w i c c' :
  retire_ok d w -> w.(callers) !! i = Some c -> active c' = active c -> c' <> Retiring -> retire_ok d (set_caller i c' w).
Proof.
  intros R Hi Ha Hn. apply (retire_same d w); [done | done | done | done | | | done | by left]; cbn.
  - rewrite (actives_set _ _ _ _ Hi), Ha. destruct (active c); lia.
  - intros Hin. apply list_elem_of_lookup in Hin as [j Hj]. apply list_lookup_insert_Some in Hj as [(_ & -> & _) | [_ Hj]]; [done | by eapply list_elem_of_lookup_2].
Qed.

Lemma retire_due_cases h send h' : _retire_due h = (send, h') ->
  (send = true /\ h' = set_retire true true h /\ h.(retire_requested) = true /\ h.(_outstanding) = 0) \/ (send = false /\ h' = h).
Proof.
  unfold _retire_due. destruct (_ && _ && _) eqn:E; intros [= <- <-]; [left | by right]. apply andb_prop in E as [E _]. apply andb_prop in E as [E1 E2].
  rewrite E1. split_and!; [done | done | done | lia].
Qed.

Lemma retire_template_step d a w w' : retire_ok d w -> template_step a w = Some w' -> retire_ok d w'.
Proof.
  intros R Hst. destruct (R) as [R1 R0 R2 R3 R4]. unfold template_step in Hst. destruct (up (T w)) eqn:Hu; [|discriminate Hst]. cbn in Hst.
  destruct a; try discriminate Hst.
  - unfold handle_request in Hst. destruct (inbox (T w)) as [|r rest] eqn:Ei; [discriminate Hst|]. cbv zeta in Hst. cbn in Hst.
    assert (Hrest : forall w1, H w1 = H w -> callers w1 = callers w -> inbox (T w1) = rest -> retiring (T w1) = retiring (T w) -> r <> _RETIRE -> retire_ok d w1).
    { intros w1 EH Ec Ei1 Et Hr. split; rewrite ?EH, ?Ec, ?Ei1, ?Et; [done | done | done | | destruct r; cbn in R4; naive_solver].
      intros [Hx | [Hx | Hx]]; apply R3; [auto | set_solver | auto]. }
    destruct r as [s| |pid]; repeat (case_match; try discriminate Hst); cbn in Hst; simplify_eq; try (by apply Hrest).
    + destruct o; cbn in Hst; repeat (case_match; try discriminate Hst); cbn in Hst; simplify_eq; by apply Hrest.
    + split; cbn; [done | done | done | | exact R4]. intros _. apply R3. set_solver.
  - unfold _reap in Hst. repeat (case_match; try discriminate Hst); cbn in Hst; simplify_eq; apply (retire_same d w); try done; by left.
  - destruct (_ && _); [|discriminate Hst]. simplify_eq. apply (retire_same d w); try done; by left.
  - simplify_eq. apply (retire_same d w); try done; by left.
Qed.

Lemma retire_finish d w i : retire_ok d w -> w.(callers) !! i = Some Finally -> retire_ok d (finish_call i w).
Proof.
  intros [R1 R0 R2 R3 R4] Hi. pose proof (actives_nonneg _ _ _ Hi eq_refl) as Hpos. assert (Hs : w.(H).(_retire_sent) = false).
  { destruct (w.(H).(_retire_sent)) eqn:E; [|done]. destruct (R2 eq_refl). lia. }
  unfold finish_call. destruct (_retire_due (settled (H w))) as [send h] eqn:E. apply retire_due_cases in E as [(-> & -> & Er & Eo) | (-> & ->)]; split; cbn in *; try done;
    try (rewrite (actives_set _ _ _ _ Hi); cbn; lia); [by rewrite Hs|].
  intros [Hx | Hx]; [|apply R3; by right]. apply R3. left. apply list_elem_of_lookup in Hx as [j Hj].
  apply list_lookup_insert_Some in Hj as [(_ & [=] & _) | [_ Hj]]. by eapply list_elem_of_lookup_2.
Qed.

Lemma retire_fork_step d a w w' : retire_ok d w -> fork_step a w = Some w' -> (forall i, a <> FPipe i) -> retire_ok d w'.
Proof.
  intros R Hst Hp. destruct (R) as [R1 R0 R2 R3 R4]. destruct a; try discriminate Hst; cbn in Hst;
    repeat match type of Hst with context [callers w !! ?i] => destruct (callers w !! i) as [[]|] eqn:Hi; try discriminate Hst end.
  - destruct (retire_requested (H w)) eqn:Er; [discriminate Hst|]. destruct (negb _); [discriminate Hst|]. cbn in Hst. simplify_eq. split; cbn.
    + rewrite actives_snoc. cbn. lia.
    + done.
    + rewrite Er. intros Hs. destruct (R2 Hs). done.
    + intros [Hx | Hx]; apply R3; [left; set_solver | by right].
    + done.
  - destruct (_retire_due _) as [send h] eqn:E in Hst. simplify_eq. apply retire_due_cases in E as [(-> & -> & Er & Eo) | (-> & ->)]; split; cbn in *;
      rewrite ?actives_snoc; cbn; try done; try lia; [|intros [Hx | Hx]; apply R3; [left; set_solver | by right]].
    intros Hs. split; [done | by apply R2].
  - by destruct (Hp i).
  - destruct (_ || _); simplify_eq; [by eapply retire_set_caller|]. eapply (retire_set_caller d _ i Reserved); [|done|done|done]. apply (retire_same d w); try done; by left.
  - destruct ok; simplify_eq; [|by eapply retire_set_caller]. pose proof (actives_nonneg _ _ _ Hi eq_refl) as Hpos.
    assert (Hs : w.(H).(_retire_sent) = false) by (destruct (w.(H).(_retire_sent)) eqn:E; [destruct (R2 eq_refl); lia | done]).
    assert (Hno : _RETIRE ∉ w.(T).(inbox) /\ w.(T).(retiring) = false).
    { split; [intros Hx; rewrite R3 in Hs by auto; done | destruct (w.(T).(retiring)) eqn:E; [rewrite R3 in Hs by auto; done | done]]. }
    eapply (retire_set_caller d _ i (Sending seq)); [|done|done|done]. split; cbn; [done | done | done | intros [Hx | Hx]; apply R3; set_solver |].
    apply ordered_app. split; [done|]. rewrite (proj2 Hno), bool_decide_eq_false_2 by apply Hno. done.
  - destruct (_replies (H w) !! seq) as [[pid|errno]|] eqn:Er; [destruct wraps| |discriminate Hst]; simplify_eq;
      (eapply (retire_set_caller d _ i (Waiting seq)); [|done|done|done]); apply (retire_same d w); try done; by left.
  - destruct (_replies (H w) !! seq); [discriminate Hst|]. simplify_eq. by eapply retire_set_caller.
  - simplify_eq. destruct pid; (eapply (retire_set_caller d _ i (Raised seq _)); [|done|done|done]); apply (retire_same d w); try done; by left.
  - simplify_eq. eapply (retire_set_caller d _ i (Killing seq pid)); [|done|done|done]. apply (retire_same d w); try done; by left.
  - simplify_eq. eapply (retire_set_caller d _ i (Acking seq pid)); [|done|done|done]. apply (retire_same d w); try done; right; by eexists.
  - simplify_eq. by apply retire_finish.
  - simplify_eq. assert (Hs : w.(H).(_retire_sent) = true) by (apply R3; left; by eapply list_elem_of_lookup_2).
    split; cbn; [rewrite (actives_set _ _ _ _ Hi); cbn; lia | done | done | done |]. apply ordered_app. split; [done|]. cbn. done.
Qed.

Lemma retire_on_event d e w : retire_ok d w -> retire_ok d (_on_event e w).
Proof. intros R. unfold _on_event. destruct e; repeat case_match; try done; apply (retire_same d w); try done; by left. Qed.

(** A thread that leaves before the [try] keeps its reservation. *)
Lemma retire_pipe d w i : retire_ok d w -> w.(callers) !! i = Some Reserved -> retire_ok (d + 1) (set_caller i Returned w).
Proof.
  intros [R1 R0 R2 R3 R4] Hi. split; cbn; [rewrite (actives_set _ _ _ _ Hi); cbn; lia | lia | done | | done].
  intros [Hx | Hx]; [|apply R3; by right]. apply R3. left. apply list_elem_of_lookup in Hx as [j Hj].
  apply list_lookup_insert_Some in Hj as [(_ & [=] & _) | [_ Hj]]. by eapply list_elem_of_lookup_2.
Qed.

Lemma exec_retire d a w w' : retire_ok d w -> exec a w = Some w' -> exists d', d <= d' /\ retire_ok d' w'.
Proof.
  intros R Hst. destruct a; unfold exec in Hst;
    try (exists d; split; [lia|]; first [by eapply retire_template_step | by eapply retire_fork_step | idtac];
      unfold kernel_step, reader_step, proc_step, close_step, _ack_once in Hst; repeat (case_match; try discriminate Hst); cbn in Hst; simplify_eq; try done;
      by (first [apply retire_on_event | idtac]; apply (retire_same d w); try done; first [by left | right; by eexists])).
  cbn in Hst. destruct (callers w !! i) as [[]|] eqn:Hi; try discriminate Hst. simplify_eq. exists (d + 1). split; [lia | by apply retire_pipe].
Qed.

Lemma run_retire d acts w w' : retire_ok d w -> run acts w = Some w' -> exists d', d <= d' /\ retire_ok d' w'.
Proof.
  revert d w. induction acts as [|a acts IH]; cbn; intros d w R E; [simplify_eq; exists d; split; [lia | done]|].
  destruct (exec a w) as [w1|] eqn:Ea; [|discriminate E]. destruct (exec_retire d a w w1 R Ea) as (d1 & Hd & R1).
  destruct (IH d1 w1 R1 E) as (d2 & Hd2 & R2). exists d2. split; [lia | done].
Qed.

Lemma retire_init n others : retire_ok 0 (init n others).
Proof. split; cbn; [done | lia | done | set_solver | done]. Qed.

(** A fork that was reserved is never refused because the template was retired: the request to
    retire goes out once every reserved fork has been dealt with, and no fork request is ever
    behind it, so a template that has read it has none left to read. *)
Theorem reserved_forks_served n others w s : reachable n others w -> w.(T).(retiring) = true -> _FORK s ∉ w.(T).(inbox).
Proof.
  intros Hr Ht. assert (exists d, retire_ok d w) as [d R].
  { pose proof (retire_init n others) as R0. revert R0. generalize 0. unfold reachable in Hr.
    induction Hr as [|w1 w2 w3 [a Ha] _ IH]; intros d R0; [eauto|]. destruct (exec_retire d a w1 w2 R0 Ha) as (d1 & _ & R1). eauto. }
  pose proof (ro_order _ _ R) as Ho. rewrite Ht in Ho. clear -Ho. induction (T w).(inbox) as [|[q| |q] l IH]; cbn in Ho; [set_solver | destruct Ho; done | |];
    (specialize (IH Ho); set_solver).
Qed.

Lemma late_reply_lost :
  exists w, reachable 64 ∅ w /\ w.(T).(retiring) = true /\ w.(K).(signals) = [] /\
    forall acts w', run acts w = Some w' -> w'.(T).(up) = true -> 100 ∈ w'.(T).(zombies).
Proof.
  destruct (run late_reply (init 64 ∅)) as [w|] eqn:E; [|vm_compute in E; discriminate E].
  exists w. split; [by eapply run_reachable|]. vm_compute in E. injection E as <-. split; [done|]. split; [done|].
  intros acts w' Hrun Hu. eapply s_zombie; [|exact Hu]. eapply run_stuck; [|exact Hrun]. by split; try (repeat constructor); vm_compute.
Qed.

(** A template retired after a fork whose pipes could not be made. *)
Definition no_pipes : list action := [HReserve; FPipe 0; HRetire].

Lemma pipe_failure_lost :
  exists w, reachable 64 ∅ w /\ w.(H).(retire_requested) = true /\ Forall (eq Returned) w.(callers) /\
    forall acts w', run acts w = Some w' -> w'.(H).(_retire_sent) = false.
Proof.
  destruct (run no_pipes (init 64 ∅)) as [w|] eqn:E; [|vm_compute in E; discriminate E]. exists w. split; [by eapply run_reachable|].
  destruct (run_retire 0 no_pipes _ w (retire_init 64 ∅) E) as (d & _ & R). vm_compute in E. injection E as <-. split; [done|]. split; [by repeat constructor|].
  assert (Hd : d = 1) by (pose proof (ro_count _ _ R) as Hc; change (1 = 0 + d) in Hc; lia).
  intros acts w' Hrun. destruct (run_retire d acts _ w' R Hrun) as (d' & Hd' & [C1 C0 C2 _ _]). destruct (_retire_sent (H w')); [|done].
  destruct (C2 eq_refl) as [_ Ho]. unfold actives in C1. lia.
Qed.

(** Two runs that leave a retired template running for as long as it is not killed.  A reply that
    arrives between [fork_worker]'s giving up and its clean-up is dropped: the worker is neither
    killed nor acked, nothing that can happen from there acks it, and the template holds its zombie.
    And when [os.pipe] raises in [fork_worker], the reservation is never given back: the request to
    retire is never sent, though no fork is under way. *)
Theorem retired_templates_leak :
  (exists w, reachable 64 ∅ w /\ w.(T).(retiring) = true /\ w.(K).(signals) = [] /\
    forall acts w', run acts w = Some w' -> w'.(T).(up) = true -> 100 ∈ w'.(T).(zombies)) /\
  (exists w, reachable 64 ∅ w /\ w.(H).(retire_requested) = true /\ Forall (eq Returned) w.(callers) /\
    forall acts w', run acts w = Some w' -> w'.(H).(_retire_sent) = false).
Proof. split; [exact late_reply_lost | exact pipe_failure_lost]. Qed.

(** ** Rotation *)

Record manager_ok (m : TemplateManager) : Prop := ManagerOk {
  m_limit : 1 <= m.(m_max_forks);
  m_bound : Forall (fun h => h.(forks) <= h.(max_forks)) m.(templates);
  m_current : forall i h, m.(_current) = Some i -> m.(templates) !! i = Some h -> h.(retire_requested) = true -> exhausted (bool_decide (i ∈ m.(gone))) h = true
}.

Lemma exhausted_lesser g h h' : lesser h h' -> exhausted g h = true -> exhausted g h' = true.
Proof. intros (Em & Ef & _ & Hd & Hb & Hc). unfold exhausted. rewrite Em, Ef. rewrite !orb_true_iff. naive_solver. Qed.

Lemma retire_forks h : (retire h).2.(forks) = h.(forks) /\ (retire h).2.(max_forks) = h.(max_forks) /\ forall g, exhausted g (retire h).2 = exhausted g h.
Proof. unfold retire, _retire_due. by case_match. Qed.

Lemma alter_Some {A} (f : A -> A) (l : list A) (i j : nat) x : alter f i l !! j = Some x -> (j = i /\ exists y, l !! i = Some y /\ x = f y) \/ (i <> j /\ l !! j = Some x).
Proof.
  destruct (decide (i = j)) as [<-|Hne]; [|rewrite list_lookup_alter_ne by done; by right]. rewrite list_lookup_alter_eq.
  destruct (l !! i); [|done]. intros [= <-]. left. eauto.
Qed.

Lemma manager_reap closable m : manager_ok m -> manager_ok (_reap_retired closable m).
Proof.
  intros [M1 M2 M3]. split; cbn; [done | |].
  - rewrite Forall_lookup in M2 |- *. intros i h. rewrite list_lookup_imap. destruct (templates m !! i) as [h0|] eqn:E; [|done]. cbn. intros [= <-].
    specialize (M2 _ _ E). by case_match.
  - intros i h Hi. rewrite list_lookup_imap. destruct (templates m !! i) as [h0|] eqn:E; [|done]. cbn. intros [= <-] Hr.
    assert (Hr0 : h0.(retire_requested) = true) by (by case_match). specialize (M3 i h0 Hi E Hr0). case_match; [|done]. by unfold exhausted.
Qed.

(** Retiring the current template, which is exhausted or about to be forgotten. *)
Lemma manager_retire m : manager_ok m ->
  (forall i h, m.(_current) = Some i -> m.(templates) !! i = Some h -> exhausted (bool_decide (i ∈ m.(gone))) h = true) -> manager_ok (retire_current m).
Proof.
  intros [M1 M2 M3] Hx. unfold retire_current. destruct (_current m) as [i|] eqn:Ei; [|by split; rewrite ?Ei]. split; cbn; [done | |].
  - rewrite Forall_lookup in M2 |- *. intros j h. intros Hg; apply alter_Some in Hg as [(-> & h0 & E & ->) | [_ E]]; [|by eapply M2].
    destruct (retire_forks h0) as (-> & -> & _). by eapply M2.
  - intros j h [= <-]. rewrite list_lookup_alter_eq. destruct (templates m !! i) as [h0|] eqn:E; [|done]. cbn. intros [= <-] _.
    destruct (retire_forks h0) as (_ & _ & ->). by apply Hx.
Qed.

Lemma manager_new m : manager_ok m -> manager_ok (new_template m).
Proof.
  intros [M1 M2 M3]. split; cbn; [done | |].
  - apply Forall_app. split; [done|]. constructor; [cbn; lia | constructor].
  - intros i h [= <-]. rewrite lookup_app_r, Nat.sub_diag by lia. cbn. by intros [= <-].
Qed.

Lemma manager_reserve m i h : manager_ok m -> m.(templates) !! i = Some h -> h.(forks) < h.(max_forks) -> h.(retire_requested) = false -> manager_ok (reserve_on i m).
Proof.
  intros [M1 M2 M3] Hi Hf Hr. split; cbn; [done | |].
  - rewrite Forall_lookup in M2 |- *. intros j g. intros Hg; apply alter_Some in Hg as [(-> & h0 & E & ->) | [_ E]]; [|by eapply M2]. simplify_eq. cbn. lia.
  - intros j g Hc. intros Hg; apply alter_Some in Hg as [(-> & h0 & E & ->) | [_ E]]; [simplify_eq; cbn; congruence | by eapply M3].
Qed.

(** What [spawn] reserves on. *)
Lemma manager_spawn starts closable m : manager_ok m ->
  manager_ok (spawn starts closable m).2 /\
  forall i, (spawn starts closable m).1 = Some i -> exists h, (spawn starts closable m).2.(templates) !! i = Some h /\ h.(retire_requested) = false.
Proof.
  intros M. unfold spawn. destruct (_ ≫= _) as [i|] eqn:E.
  - destruct (_current m) as [i'|] eqn:Ec; [|discriminate E]. cbn in E. destruct (templates m !! i') as [h|] eqn:Eh; [|discriminate E]. cbn in E.
    destruct (exhausted _ h) eqn:Ex; [discriminate E|]. injection E as ->.
    assert (Hr : h.(retire_requested) = false) by (destruct (h.(retire_requested)) eqn:Er; [rewrite (m_current _ M i h Ec Eh Er) in Ex; discriminate Ex | done]).
    split; [eapply manager_reserve; [done | done | unfold exhausted in Ex; rewrite !orb_false_iff in Ex; lia | done]|].
    intros j [= <-]. exists (reserve h). cbn. rewrite list_lookup_alter_eq, Eh. done.
  - assert (M1 : manager_ok (_reap_retired closable (retire_current m))).
    { apply manager_reap, manager_retire; [done|]. intros i h Hi Hh. rewrite Hi in E. cbn in E. rewrite Hh in E. cbn in E. destruct (exhausted _ h); done. }
    destruct starts; [|by split]. set (m1 := _reap_retired closable (retire_current m)) in *.
    assert (Hn : (new_template m1).(templates) !! length m1.(templates) = Some (init_host m1.(m_max_forks))) by (cbn; by rewrite lookup_app_r, Nat.sub_diag by lia).
    split; [eapply manager_reserve; [by apply manager_new | exact Hn | cbn; destruct M1; cbn in *; lia | done]|].
    intros i [= <-]. exists (reserve (init_host m1.(m_max_forks))). cbn [fst snd reserve_on templates]. rewrite list_lookup_alter_eq, Hn. done.
Qed.

Lemma manager_prestart starts m : manager_ok m -> manager_ok (prestart starts m).
Proof. intros M. unfold prestart. destruct (_ && _ && _); [by apply manager_new | done]. Qed.

Lemma manager_steps_ok m m' : manager_ok m -> manager_step m m' -> manager_ok m'.
Proof.
  intros M Hst. destruct (M) as [M1 M2 M3]. destruct Hst as [m m' starts n E|m|m starts|m starts closable|m closable|m|m|m|m i|m i h h' Hi Hl].
  - unfold enable_fork_template in E. destruct (n <? 1) eqn:En; [discriminate E|]. injection E as <-. apply manager_prestart. split; cbn; [lia | done | done].
  - unfold disable. split; cbn; unfold retire_current; destruct (_current m) as [i|] eqn:Ei; cbn; try done.
    rewrite Forall_lookup in M2 |- *. intros j h Hg. apply alter_Some in Hg as [(-> & h0 & E & ->) | [_ E]]; [|by eapply M2].
    destruct (retire_forks h0) as (-> & -> & _). by eapply M2.
  - by apply manager_prestart.
  - by apply manager_spawn.
  - by apply manager_reap.
  - by split.
  - split; cbn; [done | | done]. rewrite Forall_lookup in M2 |- *. intros i h. rewrite list_lookup_imap. destruct (templates m !! i) as [h0|] eqn:E; [|done]. cbn. intros [= <-].
    specialize (M2 _ _ E). by case_match.
  - by split.
  - split; cbn; [done | done |]. intros j h Hj Hh Hr. specialize (M3 j h Hj Hh Hr). unfold exhausted in *. rewrite !orb_true_iff in *. rewrite !bool_decide_eq_true in *. set_solver.
  - split; cbn; [done | |].
    + rewrite Forall_lookup in M2 |- *. intros j g Hg. apply list_lookup_insert_Some in Hg as [(-> & <- & _) | [_ Hg]]; [|by eapply M2].
      destruct Hl as (-> & -> & _). by eapply M2.
    + intros j g Hj Hg Hr. apply list_lookup_insert_Some in Hg as [(-> & <- & _) | [_ Hg]]; [|by eapply M3].
      eapply exhausted_lesser; [exact Hl|]. apply M3; [done | done|]. destruct Hl as (_ & _ & Hl & _). congruence.
Qed.

(** However enabling, disabling, spawning, reaping, failures to start and the end of template
    processes interleave: no template is ever asked for more workers than its [max_forks], and
    [spawn] only ever reserves on a template that has not been retired, also when starting a new
    one failed and the retired one stayed the current one. *)
Theorem rotation_bounded m :
  rtc manager_step manager_init m ->
  Forall (fun h => h.(forks) <= h.(max_forks)) m.(templates) /\
  forall starts closable i m', spawn starts closable m = (Some i, m') ->
    exists h, m'.(templates) !! i = Some h /\ h.(forks) <= h.(max_forks) /\ h.(retire_requested) = false.
Proof.
  intros Hr. assert (M : manager_ok m).
  { assert (M0 : manager_ok manager_init) by (split; cbn; [lia | constructor | done]). revert M0. induction Hr; eauto using manager_steps_ok. }
  split; [apply M|]. intros starts closable i m' E. destruct (manager_spawn starts closable m M) as [[_ M2 _] Hs]. rewrite E in *. cbn in *.
  destruct (Hs i eq_refl) as (h & Hh & Hq). exists h. split_and!; [done | by eapply (Forall_lookup_1 _ _ _ _ M2) | done].
Qed.

(** ** On concrete runs *)

Definition after (acts : list action) : world := default (init 64 ∅) (run acts (init 64 ∅)).

Lemma template_after_reachable acts : reachable 64 ∅ (after acts).
Proof. unfold after. destruct (run acts (init 64 ∅)) eqn:E; [by eapply run_reachable | apply rtc_refl]. Qed.

Definition exited_worker : list action := one_worker ++ [WorkerExits 100 7; TReap 100; REvent; PRead 0; PResolve].

Lemma signals_hit_own_worker_witness :
  exists i c, (after (one_worker ++ [PKill 0])).(K).(forked) !! 1 = Some i /\ (Signal (ByProc 1) 100 (Some (Worker 0 None)) true).(hit) = Some (Worker i c).
Proof.
  apply (signals_hit_own_worker 64 ∅ (after (one_worker ++ [PKill 0])) (Signal (ByProc 1) 100 (Some (Worker 0 None)) true) 1).
  - apply template_after_reachable.
  - assert (E : (after (one_worker ++ [PKill 0])).(K).(signals) = [Signal (ByProc 1) 100 (Some (Worker 0 None)) true]) by (vm_compute; reflexivity).
    rewrite E. apply list_elem_of_singleton. reflexivity.
  - reflexivity.
  - left. reflexivity.
Defined.

Lemma return_code_own_witness :
  (exists i, (after exited_worker).(K).(forked) !! 1 = Some i /\ (after exited_worker).(K).(died) !! i = Some 7) \/ (7 = -9 /\ (after exited_worker).(H).(dead) = true).
Proof. apply (return_code_own 64 ∅ (after exited_worker) 0 (Proc 1 100 (Some 7) true false) 7); [apply template_after_reachable | vm_compute; reflexivity | reflexivity]. Defined.

Lemma reserved_forks_served_witness : _FORK 1 ∉ (after (one_worker ++ [HRetire; FRetire 1; TRequest (ForkFails 0)])).(T).(inbox).
Proof. apply (reserved_forks_served 64 ∅); [apply template_after_reachable | vm_compute; reflexivity]. Defined.

Lemma rotation_bounded_witness :
  let m := (spawn true (fun _ => false) manager_init).2 in Forall (fun h => h.(forks) <= h.(max_forks)) m.(templates) /\ length m.(templates) = 1%nat.
Proof.
  intros m. split; [|reflexivity]. apply (rotation_bounded m). eapply rtc_l; [apply (ms_spawn manager_init true (fun _ => false)) | apply rtc_refl].
Defined.
