(* ===== verification/SandboxPool.v ===== *)
(** * Sandbox pool ([python/pydeno/_sandbox_pool.py])

    The threaded pool of pre-started, single-use runtimes: the worker capacity
    ([_WorkerCapacity]), the shared core with its filler threads ([_Core]) and
    [SandboxPool].  Every block the code runs under the core's condition is one
    definition and one atomic turn of a thread; a thread is the program point it has
    reached ([point]), and [step] interleaves the turns of all threads with process
    exits, runtimes closed by their owners, new calls, [close()] and [fork()].

    A runtime and its worker process have one identity ([pid]); a slot token
    ([object()]) is a fresh number.  The monotonic clock is read as a [Z] at each turn, and
    [ticks] converts a number of seconds.  Session options are opaque values. *)

From S2P Require Import Prelude PyVal Limits.
From Stdlib Require Import Floats.SpecFloat.

Definition token := Z.
Definition pid := Z.

(** ** Worker capacity *)

(** A value of [_WorkerCapacity.workers]: [None], a process, or a [_Handover]. *)
Inductive slot := Reserved | Running (p : pid) | Handover (p : pid).

#[export] Instance slot_eq_dec : EqDecision slot.
Proof. solve_decision. Defined.

Record _WorkerCapacity := mk_capacity {
  maximum : option Z;
  timeout : spec_float;
  workers : list (token * slot);
  waiters : Z;
  timeouts : Z
}.

Definition capacity_init (maximum : option Z) (timeout : spec_float) : _WorkerCapacity :=
  mk_capacity maximum timeout [] 0 0.

Definition set_workers (ws : list (token * slot)) (c : _WorkerCapacity) : _WorkerCapacity :=
  mk_capacity (maximum c) (timeout c) ws (waiters c) (timeouts c).
Definition add_waiters (d : Z) (c : _WorkerCapacity) : _WorkerCapacity :=
  mk_capacity (maximum c) (timeout c) (workers c) (waiters c + d) (timeouts c).
Definition add_timeout (c : _WorkerCapacity) : _WorkerCapacity :=
  mk_capacity (maximum c) (timeout c) (workers c) (waiters c) (timeouts c + 1).

(** [dict.get], [dict[k] = v] (in place, or at the end) and [dict.pop]. *)
Fixpoint get_slot (tk : token) (ws : list (token * slot)) : option slot :=
  match ws with
  | [] => None
  | (k, s) :: ws' => if k =? tk then Some s else get_slot tk ws'
  end.

Fixpoint set_slot (tk : token) (s : slot) (ws : list (token * slot)) : list (token * slot) :=
  match ws with
  | [] => [(tk, s)]
  | (k, s') :: ws' => if k =? tk then (k, s) :: ws' else (k, s') :: set_slot tk s ws'
  end.

Definition pop_slot (tk : token) (ws : list (token * slot)) : list (token * slot) :=
  filter (fun e => e.1 <> tk) ws.

Section Poll.
(** [exited p]: [p.poll()] is not [None]. *)
Context (exited : pid -> bool).

(** [proc is None or proc.poll() is None]; a [_Handover]'s [poll] is always [None]. *)
Definition slot_kept (s : slot) : bool :=
  match s with
  | Reserved | Handover _ => true
  | Running p => negb (exited p)
  end.

Definition live (c : _WorkerCapacity) : Z * _WorkerCapacity :=
  let c := set_workers (filter (fun e => slot_kept e.2 = true) (workers c)) c in
  (Z.of_nat (length (workers c)), c).

Definition available (c : _WorkerCapacity) : bool * _WorkerCapacity :=
  match maximum c with
  | None => (true, c)
  | Some m => let '(n, c) := live c in (n <? m, c)
  end.

Definition replacement_pending (c : _WorkerCapacity) (tk : token) : bool :=
  match get_slot tk (workers c) with
  | Some (Handover p) => negb (exited p)
  | _ => false
  end.

Definition release (tk : option token) (c : _WorkerCapacity) : _WorkerCapacity :=
  match tk with
  | None => c
  | Some tk =>
      match get_slot tk (workers c) with
      | Some (Handover p) =>
          if exited p then set_workers (pop_slot tk (workers c)) c
          else set_workers (set_slot tk (Running p) (workers c)) c
      | _ => set_workers (pop_slot tk (workers c)) c
      end
  end.
End Poll.

Fixpoint holder (p : pid) (ws : list (token * slot)) : option token :=
  match ws with
  | [] => None
  | (k, Running q) :: ws' => if q =? p then Some k else holder p ws'
  | _ :: ws' => holder p ws'
  end.

Definition hand_over (p : pid) (c : _WorkerCapacity) : option token * _WorkerCapacity :=
  match holder p (workers c) with
  | Some tk => (Some tk, set_workers (set_slot tk (Handover p) (workers c)) c)
  | None => (None, c)
  end.

Definition reserve (tk : token) (c : _WorkerCapacity) : _WorkerCapacity :=
  match maximum c with
  | None => c
  | Some _ => set_workers (set_slot tk Reserved (workers c)) c
  end.

(** ** Options *)

Section Options.
Context (MAX_SECONDS : spec_float).

Definition _capacity (max_workers : int_arg) (checkout_timeout : seconds_arg)
    : result exn _WorkerCapacity :=
  maximum ← limit_int max_workers 1 MAX_WIRE_INT;
  match checkout_timeout with
  | SNone => Err (TypeError "checkout_timeout must be a number of seconds or a timedelta, not None")
  | _ =>
      match limit_seconds MAX_SECONDS checkout_timeout false with
      | Ok (Some timeout) => Ok (capacity_init maximum timeout)
      | Ok None => Err (AssertionError "timeout is not None")
      | Err (TypeError _) => Err (TypeError "checkout_timeout must be a number of seconds or a timedelta")
      | Err _ => Err (ValueError "checkout_timeout must be a finite number of seconds > 0")
      end
  end.
End Options.

Definition check_size (value : int_arg) : result exn Z :=
  match value with
  | INone => Err (TypeError "must be a positive int")
  | _ =>
      n ← limit_int value 1 MAX_WIRE_INT;
      match n with Some n => Ok n | None => Err (AssertionError "unreachable") end
  end.

Definition _check_sizes (size max_concurrent_starts : int_arg) : result exn (Z * Z) :=
  size ← check_size size;
  starts ← check_size max_concurrent_starts;
  Ok (size, starts).

(** ** The core and its threads *)

Section Pool.
(** [V]: a session option's value; [settings]: what [_session_options] makes of a
    session's options (or its error); [session_names]: [SESSION_OPTIONS]. *)
Context {V settings : Type} (session_names : list string)
  (_session_options : gmap string V -> result exn settings) (ticks : spec_float -> Z).

Definition _session_for (defaults overrides : gmap string V) : result exn (gmap string V) :=
  if forallb (fun k => bool_decide (k ∈ session_names)) (map_to_list overrides).*1
  then Ok (overrides ∪ defaults)
  else Err (TypeError "cannot be set per checkout").

Record _Core := mk_core {
  capacity : _WorkerCapacity;
  session : gmap string V;
  core_size : Z;
  fillers : Z;
  ready : list pid;
  starting : Z;
  closed : bool;
  checkouts : Z;
  cold_starts : Z;
  last_error : option exn;
  forked : bool
}.

Definition set_capacity c k := mk_core c (session k) (core_size k) (fillers k) (ready k) (starting k)
  (closed k) (checkouts k) (cold_starts k) (last_error k) (forked k).
Definition set_ready r k := mk_core (capacity k) (session k) (core_size k) (fillers k) r (starting k)
  (closed k) (checkouts k) (cold_starts k) (last_error k) (forked k).
Definition add_starting d k := mk_core (capacity k) (session k) (core_size k) (fillers k) (ready k)
  (starting k + d) (closed k) (checkouts k) (cold_starts k) (last_error k) (forked k).
Definition set_closed k := mk_core (capacity k) (session k) (core_size k) (fillers k) (ready k)
  (starting k) true (checkouts k) (cold_starts k) (last_error k) (forked k).
Definition add_checkouts d k := mk_core (capacity k) (session k) (core_size k) (fillers k) (ready k)
  (starting k) (closed k) (checkouts k + d) (cold_starts k) (last_error k) (forked k).
Definition add_cold_starts d k := mk_core (capacity k) (session k) (core_size k) (fillers k) (ready k)
  (starting k) (closed k) (checkouts k) (cold_starts k + d) (last_error k) (forked k).
Definition set_last_error e k := mk_core (capacity k) (session k) (core_size k) (fillers k) (ready k)
  (starting k) (closed k) (checkouts k) (cold_starts k) (Some e) (forked k).
Definition set_forked b k := mk_core (capacity k) (session k) (core_size k) (fillers k) (ready k)
  (starting k) (closed k) (checkouts k) (cold_starts k) (last_error k) b.

(** The sizes [SandboxPool.__init__] gives its core. *)
Definition core_init (defaults : gmap string V) (size max_concurrent_starts : Z)
    (cap : _WorkerCapacity) : _Core :=
  mk_core cap defaults
    (match maximum cap with Some m => Z.min size m | None => size end)
    (Z.min size max_concurrent_starts) [] 0 false 0 0 None false.

(** [SandboxPool.__init__] up to its first start. *)
Definition sandbox_pool_init (MAX_SECONDS : spec_float) (defaults : gmap string V)
    (size max_concurrent_starts max_workers : int_arg) (checkout_timeout : seconds_arg)
    : result exn _Core :=
  cap ← _capacity MAX_SECONDS max_workers checkout_timeout;
  '(size, starts) ← _check_sizes size max_concurrent_starts;
  _ ← _session_options defaults;
  Ok (core_init defaults size starts cap).

(** Who called [new]: the constructor, a filler (with its backoff), a [checkout] that
    found nothing ready (with its session options), or a session that brings its own
    factory. *)
Inductive caller :=
| CInit
| CFill (backoff : Z)
| CCheckout (s : gmap string V)
| CFactory.

(** How [new]'s capacity wait ends, before its [finally]. *)
Inductive outcome := OBreak (tk : token) | OReturn (p : pid) | ORaise (e : exn).

(** The point a thread has reached.  Between two points a thread holds the condition, or
    does one thing outside it (starting a worker, closing runtimes). *)
Inductive point :=
| PCheckout (overrides : gmap string V)
| PDead (dead : list pid) (found : option pid) (s : gmap string V) (options : option settings)
| PEnter (c : caller) (tk : option token)
| PWait (c : caller) (deadline : Z)
| PRetire (c : caller) (deadline : Z) (p : pid)
| PLeave (c : caller) (o : outcome)
| PPending (c : caller) (deadline : Z) (tk : token)
| PStart (c : caller) (tk : token)
| PStarted (c : caller) (tk : token) (p : pid)
| PReturned (c : caller) (r : result exn pid)
| PFill (backoff : Z)
| PClose (ps : list pid) (backoff : option Z)
| PHandOver (p : pid)
| PHanded (tk : option token)
| PEnd.

(** The whole system.  [published]: the constructor has returned; [exits], [closes] and
    [applied]: the processes that have exited, the closed runtimes and the session settings
    of each runtime; [owned]: the processes this pool started; [handed]: the runtimes its
    callers got, with the session options of the checkout. *)
Record world := mk_world {
  core : _Core;
  published : bool;
  threads : list point;
  exits : list pid;
  closes : list pid;
  applied : gmap pid settings;
  next_token : Z;
  next_pid : Z;
  owned : list pid;
  handed : list (pid * option (gmap string V))
}.

Definition set_core k w := mk_world k (published w) (threads w) (exits w) (closes w) (applied w)
  (next_token w) (next_pid w) (owned w) (handed w).
Definition set_threads t w := mk_world (core w) (published w) t (exits w) (closes w) (applied w)
  (next_token w) (next_pid w) (owned w) (handed w).
Definition set_published w := mk_world (core w) true (threads w) (exits w) (closes w) (applied w)
  (next_token w) (next_pid w) (owned w) (handed w).
Definition add_exit p w := mk_world (core w) (published w) (threads w) (p :: exits w) (closes w)
  (applied w) (next_token w) (next_pid w) (owned w) (handed w).
Definition add_closes ps w := mk_world (core w) (published w) (threads w) (exits w) (ps ++ closes w)
  (applied w) (next_token w) (next_pid w) (owned w) (handed w).
Definition apply_session p s w := mk_world (core w) (published w) (threads w) (exits w) (closes w)
  (<[p := s]> (applied w)) (next_token w) (next_pid w) (owned w) (handed w).
Definition next_tok w := mk_world (core w) (published w) (threads w) (exits w) (closes w)
  (applied w) (next_token w + 1) (next_pid w) (owned w) (handed w).
Definition spawn w := mk_world (core w) (published w) (threads w) (exits w) (closes w)
  (applied w) (next_token w) (next_pid w + 1) (next_pid w :: owned w) (handed w).
Definition hand p s w := mk_world (core w) (published w) (threads w) (exits w) (closes w)
  (applied w) (next_token w) (next_pid w) (owned w) ((p, s) :: handed w).
Definition disown w := mk_world (core w) (published w) (threads w) (exits w) (closes w)
  (applied w) (next_token w) (next_pid w) [] (handed w).

Definition on_core (f : _Core -> _Core) (w : world) : world := set_core (f (core w)) w.
Definition on_capacity (f : _WorkerCapacity -> _WorkerCapacity) (w : world) : world :=
  on_core (fun k => set_capacity (f (capacity k)) k) w.

Definition exitedb (w : world) (p : pid) : bool := mem_Z p (exits w).
Definition is_closed (w : world) (p : pid) : bool := mem_Z p (closes w).

(** [not rt.is_closed() and rt._proc.poll() is None] *)
Definition usable (w : world) (p : pid) : bool := negb (is_closed w p) && negb (exitedb w p).

(** [available()], which drops the exited processes from [workers] when there is a cap. *)
Definition check_available (w : world) : bool * world :=
  let '(b, c) := available (exitedb w) (capacity (core w)) in
  (b, on_core (set_capacity c) w).

(** [token = capacity.reserve()] *)
Definition take_slot (w : world) : token * world :=
  (next_token w, next_tok (on_capacity (reserve (next_token w)) w)).

Definition is_factory (c : caller) : bool := match c with CFactory => true | _ => false end.
Definition closed_error : exn := RuntimeError "this SandboxPool is closed".
Definition timeout_error : exn := TimeoutError "no worker slot became free".

(** [take]'s loop: the first usable runtime, the unusable ones before it, the rest. *)
Fixpoint take_ready (ok : pid -> bool) (ready : list pid) : option pid * list pid * list pid :=
  match ready with
  | [] => (None, [], [])
  | p :: rest =>
      if ok p then (Some p, [], rest)
      else let '(found, dead, rest) := take_ready ok rest in (found, p :: dead, rest)
  end.

Definition start_fillers (w : world) : list point := replicate (Z.to_nat (fillers (core w))) (PFill 0).

Definition refill_after_fork (w : world) : world * list point :=
  if forked (core w) && negb (closed (core w))
  then (on_core (set_forked false) w, start_fillers w)
  else (w, []).

(** [take()] under the condition: the runtime found and the dead ones, or the error. *)
Definition take (w : world) : result exn (option pid * list pid) * world * list point :=
  if closed (core w) then (Err closed_error, w, [])
  else
    let '(w, started) := refill_after_fork w in
    let '(found, dead, rest) := take_ready (usable w) (ready (core w)) in
    let w := on_core (set_ready rest) w in
    let w := match found with Some _ => on_core (add_checkouts 1) w | None => w end in
    (Ok (found, dead), w, started).

(** One turn of [new]'s wait for capacity: an outcome, a runtime to retire, or a wait. *)
Definition wait_turn (now : Z) (c : caller) (deadline : Z) (w : world) : world * point :=
  if closed (core w) then (w, PLeave c (ORaise closed_error))
  else
    let '(b, w) := check_available w in
    if b then let '(tk, w) := take_slot w in (w, PLeave c (OBreak tk))
    else
      match ready (core w) with
      | p :: rest =>
          let w := on_core (set_ready rest) w in
          if negb (is_factory c) && usable w p then
            match c with
            | CCheckout s =>
                match _session_options s with
                | Ok o => (apply_session p o (on_core (add_checkouts 1) w), PLeave c (OReturn p))
                | Err e => (w, PLeave c (ORaise e))
                end
            | _ => (w, PLeave c (OReturn p))
            end
          else (w, PRetire c deadline p)
      | [] =>
          if deadline <=? now then (on_capacity add_timeout w, PLeave c (ORaise timeout_error))
          else (w, PWait c deadline)
      end.

(** One turn of the wait for a handed-over slot's previous process to exit. *)
Definition pending_turn (now : Z) (c : caller) (deadline : Z) (tk : token) (w : world) : world * point :=
  let abandon e w :=
    (on_capacity (fun k => add_waiters (-1) (release (exitedb w) (Some tk) k)) w, PReturned c (Err e)) in
  if replacement_pending (exitedb w) (capacity (core w)) tk then
    if closed (core w) then abandon closed_error w
    else if deadline - now <=? 0 then abandon timeout_error (on_capacity add_timeout w)
    else (w, PPending c deadline tk)
  else (on_capacity (add_waiters (-1)) w, PStart c tk).

(** [factory()] or [_create(session)]: [started] says whether the worker came up.  A
    failure releases the slot. *)
Definition create (started : bool) (c : caller) (tk : token) (w : world) : world * point :=
  let fail e := (on_capacity (release (exitedb w) (Some tk)) w, PReturned c (Err e)) in
  let s := match c with CCheckout s => s | _ => session (core w) end in
  if negb started then fail (RuntimeError "the worker did not start")
  else if is_factory c then (spawn w, PStarted c tk (next_pid w))
  else match _session_options s with
       | Ok o => (apply_session (next_pid w) o (spawn w), PStarted c tk (next_pid w))
       | Err e => fail e
       end.

(** The last block of [new]: the slot now holds the process. *)
Definition register (c : caller) (tk : token) (p : pid) (w : world) : world :=
  let w := match maximum (capacity (core w)) with
           | Some _ => on_capacity (fun k => set_workers (set_slot tk (Running p) (workers k)) k) w
           | None => w
           end in
  match c with
  | CCheckout _ => on_core (fun k => add_cold_starts 1 (add_checkouts 1 k)) w
  | _ => w
  end.

Definition _FIRST_BACKOFF : Z := 100.
Definition _MAX_BACKOFF : Z := 30000.
Definition next_backoff (backoff : Z) : Z := Z.min (Z.max _FIRST_BACKOFF (backoff * 2)) _MAX_BACKOFF.

(** The head of [fill]'s loop: return, reserve a slot and start, or wait. *)
Definition fill_turn (backoff : Z) (w : world) : world * point :=
  if closed (core w) then (w, PEnd)
  else if (Z.of_nat (length (ready (core w))) + starting (core w) <? core_size (core w))
          && (waiters (capacity (core w)) =? 0)
  then
    let '(b, w) := check_available w in
    if b then
      let w := on_core (add_starting 1) w in
      let '(tk, w) := take_slot w in (w, PEnter (CFill backoff) (Some tk))
    else (w, PFill backoff)
  else (w, PFill backoff).

(** The end of a filler's turn, after [new] returned or raised. *)
Definition fill_end (backoff : Z) (r : result exn pid) (w : world) : world * point :=
  let w := on_core (add_starting (-1)) w in
  match r with
  | Ok p =>
      if closed (core w) then (w, PClose [p] (Some backoff))
      else (on_core (fun k => set_ready (ready k ++ [p]) k) w, PFill 0)
  | Err e => (on_core (set_last_error e) w, PFill (next_backoff backoff))
  end.

(** [checkout] up to the end of [take]'s locked block. *)
Definition checkout (overrides : gmap string V) (w : world) : world * list point :=
  match _session_for (session (core w)) overrides with
  | Err _ => (w, [PEnd])
  | Ok s =>
      let options := if decide (overrides = ∅) then Ok None else Some <$> _session_options s in
      match options with
      | Err _ => (w, [PEnd])
      | Ok options =>
          match take w with
          | (Err _, w, started) => (w, PEnd :: started)
          | (Ok (found, dead), w, started) => (w, PDead dead found s options :: started)
          end
      end
  end.

(** One turn of a thread: the new state and the points that replace it (its own next one,
    and those of threads it started). *)
Definition turn (now : Z) (started : bool) (w : world) (pt : point) : world * list point :=
  match pt with
  | PCheckout overrides => checkout overrides w
  | PDead dead found s options =>
      let w := add_closes dead w in
      match found with
      | None => (w, [PEnter (CCheckout s) None])
      | Some p =>
          let w := match options with Some o => apply_session p o w | None => w end in
          (hand p (Some s) w, [PEnd])
      end
  | PEnter c tk =>
      let deadline := now + ticks (timeout (capacity (core w))) in
      (on_capacity (add_waiters 1) w,
       [match tk with None => PWait c deadline | Some tk => PPending c deadline tk end])
  | PWait c deadline => let '(w, pt) := wait_turn now c deadline w in (w, [pt])
  | PRetire c deadline p => (add_closes [p] w, [PWait c deadline])
  | PLeave c o =>
      (on_capacity (add_waiters (-1)) w,
       [match o with
        | OBreak tk => PStart c tk
        | OReturn p => PReturned c (Ok p)
        | ORaise e => PReturned c (Err e)
        end])
  | PPending c deadline tk => let '(w, pt) := pending_turn now c deadline tk w in (w, [pt])
  | PStart c tk => let '(w, pt) := create started c tk w in (w, [pt])
  | PStarted c tk p => (register c tk p w, [PReturned c (Ok p)])
  | PReturned (CFill backoff) r => let '(w, pt) := fill_end backoff r w in (w, [pt])
  | PReturned CInit (Ok p) =>
      (set_published (on_core (fun k => set_ready (ready k ++ [p]) k) w), PEnd :: start_fillers w)
  | PReturned (CCheckout s) (Ok p) => (hand p (Some s) w, [PEnd])
  | PReturned CFactory (Ok p) => (hand p None w, [PEnd])
  | PReturned _ (Err _) => (w, [PEnd])
  | PFill backoff => let '(w, pt) := fill_turn backoff w in (w, [pt])
  | PClose ps backoff =>
      (add_closes ps w, [match backoff with Some b => PFill b | None => PEnd end])
  | PHandOver p =>
      let '(tk, c) := hand_over p (capacity (core w)) in
      (on_core (set_capacity c) w, [PHanded tk])
  | PHanded tk =>
      if started then (w, [PEnter CFactory tk])
      else (on_capacity (release (exitedb w) tk) w, [PEnd])
  | PEnd => (w, [])
  end.

(** [close()] under the condition; the runtimes are closed afterwards. *)
Definition pool_close (w : world) : world * point :=
  (on_core (fun k => set_ready [] (set_closed k)) w, PClose (ready (core w)) None).

(** [forget_parents()]: in a forked child, which has none of the parent's threads. *)
Definition forget_parents (w : world) : world :=
  let w := add_closes (ready (core w)) w in
  let w := on_core (fun k => set_forked true
    (set_capacity (capacity_init (maximum (capacity k)) (timeout (capacity k)))
      (add_starting (- starting k) (set_ready [] k)))) w in
  disown (set_threads [] w).

Inductive step : world -> world -> Prop :=
| step_turn w now started l1 pt l2 w' pts :
    threads w = l1 ++ pt :: l2 -> turn now started w pt = (w', pts) ->
    step w (set_threads (l1 ++ pts ++ l2) w')
| step_exit w p : step w (add_exit p w)
| step_owner_close w p : step w (add_closes [p] w)
| step_checkout w overrides : published w = true ->
    step w (set_threads (PCheckout overrides :: threads w) w)
| step_custom w : published w = true ->
    step w (set_threads (PEnter CFactory None :: threads w) w)
| step_hand_over w p : published w = true -> maximum (capacity (core w)) <> None ->
    step w (set_threads (PHandOver p :: threads w) w)
| step_close w w' pt : published w = true -> pool_close w = (w', pt) ->
    step w (set_threads (pt :: threads w) w')
| step_fork w : published w = true -> step w (forget_parents w).

Definition init (k : _Core) : world :=
  mk_world k false [PEnter CInit None] [] [] ∅ 0 0 [] [].

Definition reachable (k : _Core) (w : world) : Prop := rtc step (init k) w.
End Pool.
