(* ===== verification/SandboxPoolCap.v ===== *)
(** * Sandbox pool: slots and runtimes over every interleaving ([python/pydeno/_sandbox_pool.py])

    Two invariants of [SandboxPool.step], each proved turn by turn: the slot table against
    the threads that hold slots ([cap_state], [cap_step]), and the places a runtime can be
    in ([rt_inv_at], [rt_step]).  [charged] counts the live processes by slots. *)

From S2P Require Import Prelude PyVal Limits SandboxPool.
From Stdlib Require Import Floats.SpecFloat.

(** ** The slot table *)

Lemma get_slot_elem tk s ws : get_slot tk ws = Some s -> (tk, s) ∈ ws.
Proof.
  induction ws as [|[k s'] ws IH]; cbn; [done|].
  destruct (Z.eqb_spec k tk); intros; simplify_eq; [left|right; auto].
Qed.

Lemma get_slot_keys tk ws : get_slot tk ws <> None <-> tk ∈ ws.*1.
Proof.
  induction ws as [|[k s] ws IH]; cbn; [by rewrite elem_of_nil|].
  rewrite elem_of_cons. destruct (Z.eqb_spec k tk); [naive_solver|]. rewrite IH. naive_solver.
Qed.

Lemma get_slot_elem_iff tk s ws : NoDup ws.*1 -> get_slot tk ws = Some s <-> (tk, s) ∈ ws.
Proof.
  intros Hn. split; [apply get_slot_elem|].
  induction ws as [|[k s'] ws IH]; cbn; [intros H; inversion H|].
  apply NoDup_cons in Hn as [Hk Hn]. rewrite elem_of_cons. intros [?|H]; simplify_eq.
  - by rewrite Z.eqb_refl.
  - destruct (Z.eqb_spec k tk) as [->|]; [|auto]. destruct Hk. apply list_elem_of_fmap.
    by exists (tk, s).
Qed.

Lemma get_set_slot tk tk' s ws :
  get_slot tk' (set_slot tk s ws) = if tk =? tk' then Some s else get_slot tk' ws.
Proof.
  induction ws as [|[k s'] ws IH]; cbn; [done|].
  destruct (Z.eqb_spec k tk) as [->|Hk]; cbn; [by destruct (_ =? _)|]. rewrite IH.
  destruct (Z.eqb_spec k tk') as [->|]; [|done]. by destruct (Z.eqb_spec tk tk') as [->|].
Qed.

Lemma get_pop_slot tk tk' ws :
  get_slot tk' (pop_slot tk ws) = if tk =? tk' then None else get_slot tk' ws.
Proof.
  unfold pop_slot. induction ws as [|[k s'] ws IH]; [cbn; by destruct (_ =? _)|].
  rewrite filter_cons. cbn [fst get_slot]. destruct (decide (k <> tk)); cbn [get_slot]; rewrite IH;
    destruct (Z.eqb_spec k tk'), (Z.eqb_spec tk tk'); done || lia.
Qed.

Lemma keys_set_slot tk s ws :
  (set_slot tk s ws).*1 = if decide (tk ∈ ws.*1) then ws.*1 else ws.*1 ++ [tk].
Proof.
  induction ws as [|[k s'] ws IH]; cbn; [done|].
  destruct (Z.eqb_spec k tk) as [->|Hne]; cbn.
  - rewrite decide_True by left. done.
  - rewrite IH. destruct (decide (tk ∈ ws.*1)) as [Hi|Hi].
    + by rewrite decide_True by by right.
    + rewrite decide_False; [done|]. rewrite elem_of_cons. naive_solver.
Qed.

Lemma keys_filter (P : token * slot -> Prop) `{forall e, Decision (P e)} ws :
  (filter P ws).*1 `sublist_of` ws.*1.
Proof. apply fmap_sublist, sublist_filter. Qed.

Lemma length_set_slot tk s ws :
  length (set_slot tk s ws) = if decide (tk ∈ ws.*1) then length ws else S (length ws).
Proof.
  rewrite <- (length_fmap fst), keys_set_slot.
  destruct (decide _); rewrite ?length_app, length_fmap; cbn; lia.
Qed.

Lemma get_slot_filter (f : slot -> bool) tk ws : NoDup ws.*1 ->
  get_slot tk (filter (fun e => f e.2 = true) ws)
  = get_slot tk ws ≫= fun s => if f s then Some s else None.
Proof.
  induction ws as [|[k s] ws IH]; [done|]. rewrite fmap_cons, NoDup_cons. intros [Hk Hn].
  specialize (IH Hn). rewrite filter_cons. cbn [fst snd get_slot].
  destruct (decide (f s = true)) as [Hf|Hf%not_true_is_false]; cbn [get_slot];
    (destruct (Z.eqb_spec k tk) as [->|]; [|exact IH]); cbn; rewrite Hf; [done|].
  rewrite IH. destruct (get_slot tk ws) eqn:E; [|done].
  destruct Hk. apply get_slot_keys. cbn. congruence.
Qed.

Lemma holder_spec p ws tk : NoDup ws.*1 -> holder p ws = Some tk -> get_slot tk ws = Some (Running p).
Proof.
  intros Hn Hh. apply get_slot_elem_iff; [done|]. clear Hn. revert Hh.
  induction ws as [|[k [|q|q]] ws IH]; cbn; intros; try done; [right; auto| |right; auto].
  destruct (Z.eqb_spec q p); simplify_eq; [left|right; auto].
Qed.

(** ** The capacity, against the threads that hold slots *)

Section Props.
Context {V settings : Type} (session_names : list string)
  (_session_options : gmap string V -> result exn settings) (ticks : spec_float -> Z).
Local Abbreviation point := (@point V settings).
Local Abbreviation world := (@world V settings).
Local Abbreviation step := (step session_names _session_options ticks).
Local Abbreviation turn := (turn session_names _session_options ticks).
Local Abbreviation reachable := (reachable session_names _session_options ticks).

(** The slot a thread will fill or give back. *)
Definition pt_token (pt : point) : option token :=
  match pt with
  | PEnter _ tk | PHanded tk => tk
  | PLeave _ (OBreak tk) | PPending _ _ tk | PStart _ tk | PStarted _ tk _ => Some tk
  | _ => None
  end.

(** The slots whose previous process must be gone. *)
Definition pt_settled (pt : point) : option token :=
  match pt with PLeave _ (OBreak tk) | PStart _ tk | PStarted _ tk _ => Some tk | _ => None end.

(** A process that runs and is not yet in the table. *)
Definition pt_started (pt : point) : option (token * pid) :=
  match pt with PStarted _ tk p => Some (tk, p) | _ => None end.

Definition held (ws : list (token * slot)) (tk : token) : Prop :=
  get_slot tk ws = Some Reserved \/ exists q, get_slot tk ws = Some (Handover q).

Record cap_state (mx : option Z) (ws : list (token * slot)) (pts : list point) (ex : list pid)
    (nt : Z) (ow : list pid) : Prop := {
  cs_nodup : NoDup (omap pt_token pts);
  cs_fresh : Forall (fun tk => tk < nt) (omap pt_token pts ++ ws.*1);
  cs_keys : NoDup ws.*1;
  cs_held : mx <> None -> forall tk, tk ∈ omap pt_token pts <-> held ws tk;
  cs_none : mx = None -> ws = [];
  cs_len : forall m, mx = Some m -> Z.of_nat (length ws) <= m;
  cs_settled : forall tk q, tk ∈ omap pt_settled pts -> get_slot tk ws = Some (Handover q) ->
    mem_Z q ex = true;
  cs_cover : mx <> None -> forall p, p ∈ ow -> mem_Z p ex = false ->
    (exists tk, get_slot tk ws = Some (Running p) \/ get_slot tk ws = Some (Handover p)) \/
    p ∈ (omap pt_started pts).*2
}.

#[local] Instance cap_state_perm mx ws :
  Proper ((≡ₚ) ==> (=) ==> (=) ==> (=) ==> iff) (cap_state mx ws).
Proof.
  assert (Hp : forall pts pts' ex nt ow, pts ≡ₚ pts' ->
    cap_state mx ws pts ex nt ow -> cap_state mx ws pts' ex nt ow).
  { intros pts pts' ex nt ow Hp []. split; intros; try rewrite <- Hp in *; eauto. }
  intros pts pts' Hpt ex ? <- nt ? <- ow ? <-. split; apply Hp; [done|by symmetry].
Qed.

Lemma settled_token (pts : list point) tk : tk ∈ omap pt_settled pts -> tk ∈ omap pt_token pts.
Proof.
  rewrite !list_elem_of_omap. intros (pt & Hin & He). exists pt. split; [done|].
  destruct pt as [ | | | | |? []| | | | | | | | |]; by simplify_eq/=.
Qed.

Lemma omap_cons_opt {A B} (f : A -> option B) x l :
  omap f (x :: l) = option_list (f x) ++ omap f l.
Proof. cbn. by destruct (f x). Qed.

Lemma quiet_settled pt : pt_token pt = None -> pt_settled pt = None /\ pt_started pt = None.
Proof. by destruct pt as [ | | | | |? []| | | | | | | | |]. Qed.

Lemma cap_quiet mx ws pts rest ex nt ow : Forall (fun pt => pt_token pt = None) pts ->
  cap_state mx ws (pts ++ rest) ex nt ow <-> cap_state mx ws rest ex nt ow.
Proof.
  intros Hq.
  assert (H : omap pt_token (pts ++ rest) = omap pt_token rest /\
    omap pt_settled (pts ++ rest) = omap pt_settled rest /\
    omap pt_started (pts ++ rest) = omap pt_started rest).
  { induction Hq as [|pt pts Ht Hq (IH1 & IH2 & IH3)]; [done|].
    destruct (quiet_settled pt Ht) as [Hs Hd].
    rewrite <- app_comm_cons, !omap_cons_opt, Ht, Hs, Hd. done. }
  destruct H as (H1 & H2 & H3). split; intros []; split; intros; rewrite ?H1, ?H2, ?H3 in *; eauto.
Qed.

Lemma cap_quiet1 mx ws pt rest ex nt ow : pt_token pt = None ->
  cap_state mx ws (pt :: rest) ex nt ow <-> cap_state mx ws rest ex nt ow.
Proof. intros H. apply (cap_quiet mx ws [pt]). by constructor. Qed.

(** A thread that keeps its slot and moves on. *)
Lemma cap_move mx ws pt pt' rest ex nt ow tk :
  pt_token pt = Some tk -> pt_token pt' = Some tk -> pt_started pt = None -> pt_started pt' = None ->
  (pt_settled pt' <> None -> forall q, get_slot tk ws = Some (Handover q) -> mem_Z q ex = true) ->
  cap_state mx ws (pt :: rest) ex nt ow -> cap_state mx ws (pt' :: rest) ex nt ow.
Proof.
  intros Ht Ht' Hd Hd' Hs [C1 C2 C3 C4 C5 C6 C7 C8]. rewrite !omap_cons_opt, ?Ht, ?Hd in *.
  assert (Hs' : pt_settled pt' = None \/ pt_settled pt' = Some tk).
  { destruct pt' as [ | | | | |? []| | | | | | | | |]; cbn in *; auto. }
  split; rewrite ?omap_cons_opt, ?Ht', ?Hd'; eauto.
  intros tk' q Hin Hg. destruct Hs' as [E|E]; rewrite E in *; cbn in Hin.
  - eapply C7; [|done]. apply elem_of_app. by right.
  - apply elem_of_cons in Hin as [->|Hin]; [by apply Hs|].
    eapply C7; [|done]. apply elem_of_app. by right.
Qed.

Lemma cap_exit mx ws pts ex nt ow p :
  cap_state mx ws pts ex nt ow -> cap_state mx ws pts (p :: ex) nt ow.
Proof.
  intros []. split; eauto.
  - intros tk q Hi Hg. unfold mem_Z. cbn. apply orb_true_iff. right. by eapply cs_settled0.
  - intros Hm q Ho Hx. unfold mem_Z in Hx. cbn in Hx. apply orb_false_iff in Hx as [_ Hx]. eauto.
Qed.

(** [live()] drops only what has exited. *)
Lemma cap_prune mx ws pts ex nt ow : cap_state mx ws pts ex nt ow ->
  cap_state mx (filter (fun e => slot_kept (fun p => mem_Z p ex) e.2 = true) ws) pts ex nt ow.
Proof.
  intros [C1 C2 C3 C4 C5 C6 C7 C8]. set (ws' := filter _ ws).
  assert (Hg : forall tk, get_slot tk ws' = get_slot tk ws ≫= fun s =>
    if slot_kept (fun p => mem_Z p ex) s then Some s else None) by (intros; by apply get_slot_filter).
  assert (Hk : ws'.*1 `sublist_of` ws.*1) by apply keys_filter.
  split; [done| |by eapply sublist_NoDup| | | | |].
  - rewrite Forall_app in *. destruct C2 as [? C2]. split; [done|].
    rewrite Forall_forall in *. intros tk Hi. apply C2. by eapply elem_of_sublist.
  - intros Hm tk. rewrite (C4 Hm). unfold held. rewrite Hg.
    destruct (get_slot tk ws) as [[|q|q]|]; cbn; try case_match; naive_solver.
  - intros ->. subst ws'. by rewrite C5.
  - intros m Hm. specialize (C6 m Hm). apply sublist_length in Hk. rewrite !length_fmap in Hk. lia.
  - intros tk q Hi. rewrite Hg. intros H. eapply C7; [done|].
    destruct (get_slot tk ws) as [[|q'|q']|]; cbn in H; try case_match; naive_solver.
  - intros Hm p Ho Hx. destruct (C8 Hm p Ho Hx) as [(tk & [H|H])|H]; [left; exists tk|left; exists tk|by right];
      rewrite Hg, H; cbn; rewrite ?Hx; auto.
Qed.

(** The two tables agree everywhere but at [tk]. *)
Definition same_slots (ws ws' : list (token * slot)) (tk : token) : Prop :=
  forall tk', tk' <> tk -> get_slot tk' ws' = get_slot tk' ws.

Lemma same_set tk s ws : same_slots ws (set_slot tk s ws) tk.
Proof. intros tk' H. rewrite get_set_slot. by destruct (Z.eqb_spec tk tk'). Qed.

Lemma same_pop tk ws : same_slots ws (pop_slot tk ws) tk.
Proof. intros tk' H. rewrite get_pop_slot. by destruct (Z.eqb_spec tk tk'). Qed.

Lemma held_same ws ws' tk tk' : same_slots ws ws' tk -> tk' <> tk -> held ws' tk' <-> held ws tk'.
Proof. intros H Hn. unfold held. by rewrite (H tk' Hn). Qed.

(** One slot changes: the thread that held [tk] (or will hold it) is the only one
    affected. *)
Lemma cap_slot mx ws ws' pts pts' ex nt nt' ow tk :
  cap_state mx ws pts ex nt ow -> same_slots ws ws' tk -> NoDup ws'.*1 -> nt <= nt' ->
  Forall (fun k => k < nt') (ws'.*1) ->
  (mx = None -> ws' = []) -> (forall m, mx = Some m -> Z.of_nat (length ws') <= m) ->
  NoDup (omap pt_token pts') ->
  (forall tk', tk' <> tk -> tk' ∈ omap pt_token pts' <-> tk' ∈ omap pt_token pts) ->
  (tk ∈ omap pt_token pts' -> tk < nt') ->
  (mx <> None -> tk ∈ omap pt_token pts' <-> held ws' tk) ->
  (forall tk', tk' ∈ omap pt_settled pts' -> tk' ∈ omap pt_settled pts \/ tk' = tk) ->
  (forall q, tk ∈ omap pt_settled pts' -> get_slot tk ws' = Some (Handover q) -> mem_Z q ex = true) ->
  (forall p, p ∈ (omap pt_started pts).*2 -> mem_Z p ex = false ->
     p ∈ (omap pt_started pts').*2 \/ get_slot tk ws' = Some (Running p)) ->
  (mx <> None -> forall p, mem_Z p ex = false ->
     get_slot tk ws = Some (Running p) \/ get_slot tk ws = Some (Handover p) ->
     get_slot tk ws' = Some (Running p) \/ get_slot tk ws' = Some (Handover p)) ->
  cap_state mx ws' pts' ex nt' ow.
Proof.
  intros [C1 C2 C3 C4 C5 C6 C7 C8] Hs Hk Hnt Hf Hnone Hlen Hnd Htok Htk Hheld Hset Hset' Hst Hold.
  apply Forall_app in C2 as [C2 _]. rewrite Forall_forall in C2.
  split; [done| |done| |done|done| |].
  - apply Forall_app. split; [|done]. apply Forall_forall. intros tk' Hi.
    destruct (decide (tk' = tk)) as [->|Hne]; [auto|]. apply Htok in Hi; [|done]. specialize (C2 _ Hi). lia.
  - intros Hm tk'. destruct (decide (tk' = tk)) as [->|Hne]; [auto|].
    rewrite Htok, (held_same ws ws' tk) by done. auto.
  - intros tk' q Hi Hg. destruct (decide (tk' = tk)) as [->|Hne]; [eauto|].
    rewrite (Hs tk' Hne) in Hg. destruct (Hset tk' Hi) as [?|?]; [eauto|done].
  - intros Hm p Ho Hx. destruct (C8 Hm p Ho Hx) as [(tk' & H)|H].
    + destruct (decide (tk' = tk)) as [->|Hne]; [left; exists tk; eauto|].
      left. exists tk'. by rewrite (Hs tk' Hne).
    + destruct (Hst p H Hx) as [?|?]; [by right|left; exists tk; by left].
Qed.

Lemma NoDup_set_slot tk s ws : NoDup ws.*1 -> NoDup (set_slot tk s ws).*1.
Proof.
  intros H. rewrite keys_set_slot. destruct (decide _); [done|].
  apply NoDup_app. split_and!; [done| |apply NoDup_singleton]. intros x Hx ->%list_elem_of_singleton. done.
Qed.

Lemma fresh_set_slot tk s ws nt : Forall (fun k => k < nt) (ws.*1) -> tk < nt ->
  Forall (fun k => k < nt) (set_slot tk s ws).*1.
Proof.
  intros H Ht. rewrite keys_set_slot. destruct (decide _); [done|].
  apply Forall_app. split; [done|]. by constructor.
Qed.

Lemma cap_keys_fresh mx ws pts ex nt ow : cap_state mx ws pts ex nt ow -> Forall (fun k => k < nt) (ws.*1).
Proof. intros [_ C2 _ _ _ _ _ _]. by apply Forall_app in C2 as [_ ?]. Qed.

Lemma cap_reserve c pts ex nt ow pt :
  cap_state (maximum c) (workers c) pts ex nt ow ->
  (forall m, maximum c = Some m -> Z.of_nat (length (workers c)) < m) ->
  pt_token pt = Some nt -> pt_started pt = None ->
  cap_state (maximum (reserve nt c)) (workers (reserve nt c)) (pt :: pts) ex (nt + 1) ow.
Proof.
  intros H Hlen Ht Hd. pose proof (cap_keys_fresh _ _ _ _ _ _ H) as Hf.
  pose proof (cs_fresh _ _ _ _ _ _ H) as Hfr. apply Forall_app in Hfr as [Hfr _].
  assert (Hnew : nt ∉ omap pt_token pts).
  { intros Hi. rewrite Forall_forall in Hfr. apply Hfr in Hi. lia. }
  assert (Hmx : maximum (reserve nt c) = maximum c) by (unfold reserve; destruct (maximum c) eqn:E; cbn; congruence).
  assert (Hws : workers (reserve nt c)
    = match maximum c with Some _ => set_slot nt Reserved (workers c) | None => workers c end)
    by (unfold reserve; by destruct (maximum c)).
  assert (Hn : get_slot nt (workers c) = None).
  { destruct (get_slot nt (workers c)) eqn:E; [|done]. rewrite Forall_forall in Hf.
    ospecialize (Hf nt _); [apply get_slot_keys; congruence|lia]. }
  assert (Hnk : nt ∉ (workers c).*1) by (rewrite <- get_slot_keys, Hn; naive_solver).
  rewrite Hmx, Hws. eapply (cap_slot _ _ _ _ _ _ _ _ _ nt); [exact H|..]; rewrite ?omap_cons_opt, ?Ht, ?Hd.
  - case_match; [apply same_set|by intros ??].
  - case_match; [apply NoDup_set_slot|]; apply (cs_keys _ _ _ _ _ _ H).
  - lia.
  - assert (Hf' : Forall (fun k => k < nt + 1) (workers c).*1) by (eapply Forall_impl; [done|cbn; lia]).
    case_match; [apply fresh_set_slot; [done|lia]|done].
  - intros E. rewrite E. by apply (cs_none _ _ _ _ _ _ H).
  - intros m E. rewrite E, length_set_slot, decide_False by done. specialize (Hlen m E). lia.
  - cbn. apply NoDup_cons. split; [done|apply (cs_nodup _ _ _ _ _ _ H)].
  - intros tk' Hne. cbn. rewrite elem_of_cons. naive_solver.
  - lia.
  - intros Hm. cbn. destruct (maximum c); [|done]. unfold held. rewrite get_set_slot, Z.eqb_refl.
    split; [auto|]. intros _. left.
  - intros tk'. destruct pt as [ | | | | |? []| | | | | | | | |]; cbn in *; simplify_eq;
      rewrite ?elem_of_cons; naive_solver.
  - intros q _. case_match; [|by rewrite Hn]. by rewrite get_set_slot, Z.eqb_refl.
  - intros p Hp _. by left.
  - intros _ p _. rewrite Hn. naive_solver.
Qed.

(** Giving a slot back. *)
Lemma cap_release c pt rest ex nt ow tk :
  cap_state (maximum c) (workers c) (pt :: rest) ex nt ow ->
  pt_token pt = Some tk -> pt_started pt = None ->
  let c' := release (fun p => mem_Z p ex) (Some tk) c in
  cap_state (maximum c') (workers c') rest ex nt ow.
Proof.
  intros H Ht Hd c'. pose proof (cap_keys_fresh _ _ _ _ _ _ H) as Hf.
  assert (Hmx : maximum c' = maximum c) by (subst c'; cbn; repeat case_match; done). rewrite Hmx.
  assert (Hws : workers c' = match get_slot tk (workers c) with
    | Some (Handover p) => if mem_Z p ex then pop_slot tk (workers c)
                           else set_slot tk (Running p) (workers c)
    | _ => pop_slot tk (workers c) end) by (subst c'; cbn; repeat case_match; done).
  assert (Hsub : (pop_slot tk (workers c)).*1 `sublist_of` (workers c).*1) by apply keys_filter.
  pose proof (cs_held _ _ _ _ _ _ H) as Hh. pose proof (cs_nodup _ _ _ _ _ _ H) as Hnd.
  assert (Htok : omap pt_token (pt :: rest) = tk :: omap pt_token rest) by by rewrite omap_cons_opt, Ht.
  rewrite Htok in Hnd. apply NoDup_cons in Hnd as [Hni Hnd].
  eapply (cap_slot _ _ _ _ _ _ _ _ _ tk); [exact H|..]; rewrite ?Htok; rewrite ?Hws.
  - repeat case_match; apply same_set || apply same_pop.
  - repeat case_match; (apply NoDup_set_slot || (eapply sublist_NoDup; [|exact Hsub]));
      apply (cs_keys _ _ _ _ _ _ H).
  - lia.
  - assert (Hp : Forall (fun k => k < nt) (pop_slot tk (workers c)).*1).
    { rewrite Forall_forall in *. intros k Hk. eapply Hf, elem_of_sublist; done. }
    pose proof (cs_fresh _ _ _ _ _ _ H) as Hfr. rewrite Htok in Hfr. inversion Hfr; subst.
    repeat case_match; first [by apply fresh_set_slot|done].
  - intros E. rewrite (cs_none _ _ _ _ _ _ H E). done.
  - intros m E. pose proof (cs_len _ _ _ _ _ _ H m E) as Hl.
    apply sublist_length in Hsub. rewrite !length_fmap in Hsub.
    assert (E' : forall p, get_slot tk (workers c) = Some (Handover p) ->
      length (set_slot tk (Running p) (workers c)) = length (workers c)).
    { intros p Hg. rewrite length_set_slot, decide_True; [done|]. apply get_slot_keys. congruence. }
    repeat case_match; rewrite ?E' by done; lia.
  - done.
  - intros tk' Hne. rewrite elem_of_cons. naive_solver.
  - done.
  - intros Hm. split; [done|]. unfold held. repeat case_match; subst;
      rewrite ?get_set_slot, ?get_pop_slot, ?Z.eqb_refl; naive_solver.
  - intros tk' Hi. left. rewrite omap_cons_opt. apply elem_of_app. by right.
  - intros q Hi. by apply settled_token in Hi.
  - intros p Hp Hx. left. by rewrite omap_cons_opt, Hd in Hp.
  - intros Hm p Hx [Hg|Hg].
    + specialize (Hh Hm tk). rewrite Htok in Hh. destruct Hh as [Hh _].
      destruct Hh as [?|[? ?]]; [left| |]; congruence.
    + rewrite Hg, Hx, get_set_slot, Z.eqb_refl. by left.
Qed.

(** The started process takes its slot. *)
Lemma cap_register m ws k tk p rest ex nt ow :
  cap_state (Some m) ws (PStarted k tk p :: rest) ex nt ow ->
  cap_state (Some m) (set_slot tk (Running p) ws) rest ex nt ow.
Proof.
  intros H. pose proof (cap_keys_fresh _ _ _ _ _ _ H) as Hf.
  pose proof (cs_held _ _ _ _ _ _ H ltac:(done)) as Hh. pose proof (cs_nodup _ _ _ _ _ _ H) as Hnd.
  pose proof (cs_fresh _ _ _ _ _ _ H) as Hfr.
  cbn in Hnd, Hfr. apply NoDup_cons in Hnd as [Hni Hnd]. inversion Hfr; subst.
  assert (Hheld : held ws tk) by (apply Hh; left).
  assert (Hin : tk ∈ ws.*1) by (apply get_slot_keys; destruct Hheld as [?|[? ?]]; congruence).
  eapply (cap_slot _ _ _ _ _ _ _ _ _ tk); [exact H|..]; cbn; try done.
  - apply same_set.
  - apply NoDup_set_slot, (cs_keys _ _ _ _ _ _ H).
  - by apply fresh_set_slot.
  - intros m' [= <-]. rewrite length_set_slot, decide_True by done. by apply (cs_len _ _ _ _ _ _ H).
  - intros tk' Hne. rewrite elem_of_cons. naive_solver.
  - intros _. unfold held. rewrite get_set_slot, Z.eqb_refl. naive_solver.
  - intros tk' Hi. left. by right.
  - intros q Hi. by apply settled_token in Hi.
  - intros p' [->|Hp]%elem_of_cons Hx; [right; by rewrite get_set_slot, Z.eqb_refl|by left].
  - intros _ p' Hx [Hg|Hg].
    + destruct Hheld as [?|[? ?]]; congruence.
    + enough (mem_Z p' ex = true) by congruence. eapply (cs_settled _ _ _ _ _ _ H); [left|done].
Qed.

(** A running process's slot is reserved for its replacement. *)
Lemma cap_hand_over c p pts ex nt ow :
  cap_state (maximum c) (workers c) pts ex nt ow ->
  let '(tk, c') := hand_over p c in
  cap_state (maximum c') (workers c') (PHanded tk :: pts) ex nt ow.
Proof.
  intros H. unfold hand_over. destruct (holder p (workers c)) as [tk|] eqn:Eh; [|by apply cap_quiet1].
  apply holder_spec in Eh; [|apply (cs_keys _ _ _ _ _ _ H)]. cbn.
  pose proof (cap_keys_fresh _ _ _ _ _ _ H) as Hf.
  assert (Hin : tk ∈ (workers c).*1) by (apply get_slot_keys; congruence).
  assert (Htk : tk < nt) by (rewrite Forall_forall in Hf; auto).
  assert (Hmx : maximum c <> None).
  { intros E. rewrite (cs_none _ _ _ _ _ _ H E) in Eh. done. }
  assert (Hni : tk ∉ omap pt_token pts).
  { rewrite (cs_held _ _ _ _ _ _ H Hmx). intros [?|[? ?]]; congruence. }
  eapply (cap_slot _ _ _ _ _ _ _ _ _ tk); [exact H|..]; cbn; try done.
  - apply same_set.
  - apply NoDup_set_slot, (cs_keys _ _ _ _ _ _ H).
  - by apply fresh_set_slot.
  - intros m E. rewrite length_set_slot, decide_True by done. by apply (cs_len _ _ _ _ _ _ H).
  - apply NoDup_cons. split; [done|apply (cs_nodup _ _ _ _ _ _ H)].
  - intros tk' Hne. rewrite elem_of_cons. naive_solver.
  - intros _. unfold held. rewrite get_set_slot, Z.eqb_refl. split; [eauto|]. intros _. left.
  - intros tk' Hi. by left.
  - intros q Hi. by apply settled_token in Hi.
  - intros p' Hp _. by left.
  - intros _ p' Hx [Hg|Hg]; rewrite Eh in Hg; simplify_eq. rewrite get_set_slot, Z.eqb_refl. by right.
Qed.

Lemma cap_spawn mx ws c tk p rest ex nt ow :
  cap_state mx ws (PStart c tk :: rest) ex nt ow -> cap_state mx ws (PStarted c tk p :: rest) ex nt (p :: ow).
Proof.
  intros [C1 C2 C3 C4 C5 C6 C7 C8]. split; try done. cbn. intros Hm p' [->|Ho]%elem_of_cons Hx.
  - right. left.
  - destruct (C8 Hm p' Ho Hx); [by left|]. right. by right.
Qed.

(** ** The invariant of every reachable state *)

Definition cap_inv (w : world) : Prop :=
  cap_state (maximum (capacity (core w))) (workers (capacity (core w))) (threads w) (exits w)
    (next_token w) (owned w).

Definition cap_at (w : world) (pts : list point) : Prop := cap_inv (set_threads pts w).

Lemma cap_check_available w pts b w' : check_available w = (b, w') -> cap_at w pts ->
  cap_at w' pts /\ (b = true -> forall m, maximum (capacity (core w')) = Some m ->
    Z.of_nat (length (workers (capacity (core w')))) < m).
Proof.
  unfold check_available, available. intros E H.
  destruct (maximum (capacity (core w))) as [m|] eqn:Em; cbn in E; simplify_eq.
  - split; [by apply cap_prune|]. cbn. intros Hb m'. rewrite Em. intros [= <-]. by apply Z.ltb_lt in Hb.
  - split; [done|]. cbn. congruence.
Qed.

Lemma cap_take_slot w pts tk w' pt : take_slot w = (tk, w') -> cap_at w pts ->
  (forall m, maximum (capacity (core w)) = Some m -> Z.of_nat (length (workers (capacity (core w)))) < m) ->
  pt_token pt = Some tk -> pt_started pt = None -> cap_at w' (pt :: pts).
Proof. unfold take_slot. intros [= <- <-] H Hl Ht Hd. by apply cap_reserve. Qed.

Lemma cap_wait now c d w rest w' pt : cap_at w rest ->
  wait_turn _session_options now c d w = (w', pt) -> cap_at w' (pt :: rest).
Proof.
  intros H. unfold wait_turn. destruct (closed (core w)); [intros [= <- <-]; by apply cap_quiet1|].
  destruct (check_available w) as [b w1] eqn:Ea. destruct (cap_check_available _ _ _ _ Ea H) as [H1 Hb].
  destruct b.
  - destruct (take_slot w1) as [tk w2] eqn:Et. intros [= <- <-]. by eapply cap_take_slot; eauto.
  - intros E. repeat case_match; simplify_eq; by apply cap_quiet1.
Qed.

Lemma cap_fill b w rest w' pt : cap_at w rest -> fill_turn b w = (w', pt) -> cap_at w' (pt :: rest).
Proof.
  intros H. unfold fill_turn. destruct (closed (core w)); [intros [= <- <-]; by apply cap_quiet1|].
  case_match; [|intros [= <- <-]; by apply cap_quiet1].
  destruct (check_available w) as [a w1] eqn:Ea. destruct (cap_check_available _ _ _ _ Ea H) as [H1 Hb].
  destruct a; [|intros [= <- <-]; by apply cap_quiet1].
  destruct (take_slot _) as [tk w2] eqn:Et. intros [= <- <-]. by eapply cap_take_slot; eauto.
Qed.

Lemma cap_abandon w pt rest tk pt' : cap_at w (pt :: rest) -> pt_token pt = Some tk ->
  pt_started pt = None -> pt_token pt' = None ->
  cap_at (on_capacity (release (exitedb w) (Some tk)) w) (pt' :: rest).
Proof. intros H Ht Hd Hq. apply cap_quiet1; [done|]. exact (cap_release _ _ _ _ _ _ _ H Ht Hd). Qed.

Lemma cap_pending now c d tk w rest w' pt : cap_at w (PPending c d tk :: rest) ->
  pending_turn now c d tk w = (w', pt) -> cap_at w' (pt :: rest).
Proof.
  intros H. unfold pending_turn. destruct (replacement_pending _ _ _) eqn:Ep.
  - destruct (closed _); [|case_match]; intros [= <- <-]; [| |done];
      (apply cap_quiet1; [done|]);
      [exact (cap_release (capacity (core w)) _ _ _ _ _ _ H eq_refl eq_refl)
      |exact (cap_release (add_timeout (capacity (core w))) _ _ _ _ _ _ H eq_refl eq_refl)].
  - intros [= <- <-]. revert H. apply (cap_move _ _ _ _ _ _ _ _ tk); try done. cbn. intros _ q Hg.
    unfold replacement_pending in Ep. rewrite Hg in Ep. by apply negb_false_iff in Ep.
Qed.

Lemma cap_create st c tk w rest w' pt : cap_at w (PStart c tk :: rest) ->
  create _session_options st c tk w = (w', pt) -> cap_at w' (pt :: rest).
Proof.
  intros H. unfold create. intros E. repeat case_match; simplify_eq;
    first [by eapply cap_abandon; eauto | by apply cap_spawn].
Qed.

Lemma cap_register_turn c tk p w rest : cap_at w (PStarted c tk p :: rest) ->
  cap_at (register c tk p w) rest.
Proof.
  unfold register, cap_at, cap_inv. intros H.
  destruct (maximum (capacity (core w))) as [m|] eqn:Em; destruct c; cbn in *; rewrite ?Em in *;
    first [by eapply cap_register | idtac].
  all: destruct H as [C1 C2 C3 C4 C5 C6 C7 C8]; cbn in *.
  all: apply NoDup_cons in C1 as [_ C1]; inversion C2; subst; split; try done.
  all: intros tk' q Hi; apply C7; by right.
Qed.

Lemma fillers_quiet w : Forall (fun pt => pt_token pt = None) (@start_fillers V settings w).
Proof. by apply Forall_replicate. Qed.

Lemma refill_spec w w' started : @refill_after_fork V settings w = (w', started) ->
  (exists b, w' = on_core (set_forked b) w) /\ exists n, started = replicate n (PFill 0).
Proof.
  unfold refill_after_fork, start_fillers. intros E. case_match; simplify_eq; split; eauto.
  - exists (forked (core w')). by destruct w' as [[]].
  - by exists 0%nat.
Qed.

Lemma cap_checkout o w rest w' pts : cap_at w rest ->
  checkout session_names _session_options o w = (w', pts) -> cap_at w' (pts ++ rest).
Proof.
  intros H. unfold checkout, take. intros E.
  destruct (refill_after_fork w) as [w1 started] eqn:Er.
  destruct (refill_spec _ _ _ Er) as [[b ->] [n ->]].
  repeat case_match; simplify_eq; apply cap_quiet; try done;
    repeat constructor; by apply Forall_replicate.
Qed.

Lemma cap_turn now st w pt rest w' pts : cap_at w (pt :: rest) -> turn now st w pt = (w', pts) ->
  cap_at w' (pts ++ rest).
Proof.
  intros H E.
  assert (Hq : pt_token pt = None -> cap_at w rest) by (intros; by eapply cap_quiet1).
  destruct pt as [o|dead found s o|c [tk|]|c d|c d p|c [tk|p|e]|c d tk|c tk|c tk p|c r|b|ps b|p|[tk|]|];
    cbn [turn] in E; try specialize (Hq eq_refl).
  all: try (simplify_eq; apply cap_quiet1; done).
  - by eapply cap_checkout.
  - destruct found; simplify_eq; apply cap_quiet1; try done. by destruct o.
  - simplify_eq. revert H. by apply (cap_move _ _ _ _ _ _ _ _ tk).
  - destruct (wait_turn _ _ _ _ _) as [w1 pt1] eqn:Ew. simplify_eq. by eapply cap_wait.
  - simplify_eq. pose proof H as H'. revert H. apply (cap_move _ _ _ _ _ _ _ _ tk); try done.
    intros _ q Hg. eapply (cs_settled _ _ _ _ _ _ H'); [left|exact Hg].
  - destruct (pending_turn _ _ _ _ _) as [w1 pt1] eqn:Ew. simplify_eq. by eapply cap_pending.
  - destruct (create _ _ _ _ _) as [w1 pt1] eqn:Ew. simplify_eq. by eapply cap_create.
  - simplify_eq. apply cap_quiet1; [done|]. exact (cap_register_turn _ _ _ _ _ H).
  - unfold fill_end in E. destruct c, r as [p|e]; repeat case_match; simplify_eq;
      apply cap_quiet; try done; repeat constructor. apply fillers_quiet.
  - destruct (fill_turn _ _) as [w1 pt1] eqn:Ew. simplify_eq. by eapply cap_fill.
  - simplify_eq. apply cap_quiet1; [|done]. by destruct b.
  - pose proof (cap_hand_over (capacity (core w)) p _ _ _ _ Hq) as Hh.
    destruct (hand_over _ _) as [tk c]. simplify_eq. exact Hh.
  - destruct st; simplify_eq; [revert H; by apply (cap_move _ _ _ _ _ _ _ _ tk)|].
    by eapply (cap_abandon _ _ _ tk).
  - destruct st; simplify_eq; by apply cap_quiet1.
  - by simplify_eq.
Qed.

Lemma cap_perm (w : world) pts pts' : pts ≡ₚ pts' -> cap_at w pts -> cap_at w pts'.
Proof. unfold cap_at, cap_inv. cbn. by intros ->. Qed.

Lemma cap_step w w' : step w w' -> cap_inv w -> cap_inv w'.
Proof.
  destruct 1 as [w now st l1 pt l2 w' pts Ht E|w p|w p|w o _|w _|w p _ _|w w' pt _ E|w _]; intros H.
  - apply (cap_perm w' (pts ++ l1 ++ l2)); [by rewrite !app_assoc, (Permutation_app_comm pts)|].
    eapply cap_turn; [|done]. apply (cap_perm w (threads w)); [rewrite Ht; solve_Permutation|].
    by destruct w.
  - by apply cap_exit.
  - done.
  - by apply cap_quiet1.
  - by apply cap_quiet1.
  - by apply cap_quiet1.
  - unfold pool_close in E. simplify_eq. by apply cap_quiet1.
  - pose proof (cs_len _ _ _ _ _ _ H) as Hl. split; cbn; try by constructor.
    + intros Hm tk. rewrite elem_of_nil. unfold held. naive_solver.
    + intros m Hm. specialize (Hl m Hm). lia.
    + intros tk q Hi. by apply elem_of_nil in Hi.
Qed.

(** ** Constants, and the runtimes' places *)


(** What a turn never changes. *)
Definition params (w : world) := (maximum (capacity (core w)), session (core w), core_size (core w)).

Lemma params_reserve (w : world) tk : params (next_tok (on_capacity (reserve tk) w)) = params w.
Proof. unfold params, reserve. cbn. by destruct (maximum (capacity (core w))) eqn:E; cbn; rewrite ?E. Qed.

Lemma params_available (w w' : world) b : check_available w = (b, w') -> params w' = params w.
Proof. unfold check_available, available. destruct (maximum _) eqn:E; intros; by simplify_eq/=. Qed.

Lemma params_release f (w : world) tk : params (on_capacity (release f tk) w) = params w.
Proof. unfold params, release. cbn. repeat case_match; done. Qed.

Lemma params_turn now st w pt w' pts : turn now st w pt = (w', pts) -> params w' = params w.
Proof.
  intros E. destruct pt as [o|dead found s o|c tk|c d|c d p|c r|c d tk|c tk|c tk p|c r|b|ps b|p|tk|];
    cbn in E.
  - unfold checkout, take in E. destruct (refill_after_fork w) as [w1 ?] eqn:Er.
    apply refill_spec in Er as [[b ->] _]. repeat (case_match; simplify_eq/=); done.
  - repeat (case_match; simplify_eq/=); done.
  - by simplify_eq.
  - unfold wait_turn in E. destruct (closed _); [by simplify_eq|].
    destruct (check_available w) as [b w1] eqn:Ea. rewrite <- (params_available _ _ _ Ea).
    destruct b; [simplify_eq/=; apply params_reserve|]. repeat (case_match; simplify_eq/=); done.
  - by simplify_eq.
  - by simplify_eq.
  - unfold pending_turn in E. destruct (replacement_pending _ _ _); [|by simplify_eq].
    destruct (closed _); [|destruct (_ <=? _)]; simplify_eq; try done;
      first [exact (params_release _ (on_capacity add_timeout w) (Some tk))
            |exact (params_release _ w (Some tk))].
  - unfold create in E. repeat (case_match; simplify_eq); try done; apply params_release.
  - unfold register in E. repeat (case_match; simplify_eq/=); unfold params; cbn; congruence.
  - unfold fill_end in E. repeat (case_match; simplify_eq/=); done.
  - unfold fill_turn in E. destruct (closed _); [by simplify_eq|].
    destruct (_ && _); [|by simplify_eq].
    destruct (check_available w) as [a w1] eqn:Ea. rewrite <- (params_available _ _ _ Ea).
    destruct a; simplify_eq/=; [apply (params_reserve (on_core (add_starting 1) w1))|done].
  - by simplify_eq.
  - unfold hand_over in E. repeat (case_match; simplify_eq/=); done.
  - case_match; simplify_eq; [done|apply params_release].
  - by simplify_eq.
Qed.

Lemma params_step w w' : step w w' -> params w' = params w.
Proof.
  destruct 1 as [w now st l1 pt l2 w' pts Ht E|w p|w p|w o _|w _|w p _ _|w w' pt _ E|w _]; try done.
  - by apply params_turn in E.
  - unfold pool_close in E. by simplify_eq.
Qed.

(** The runtimes a thread has at hand. *)
Definition pt_rts (pt : point) : list pid :=
  match pt with
  | PDead dead found _ _ => dead ++ option_list found
  | PRetire _ _ p | PLeave _ (OReturn p) | PStarted _ _ p | PReturned _ (Ok p) => [p]
  | PClose ps _ => ps
  | _ => []
  end.

Definition places (pts : list point) (w : world) : list pid :=
  (pts ≫= pt_rts) ++ ready (core w) ++ (handed w).*1.

Record rt_inv_at (w : world) (pts : list point) : Prop := {
  rt_nodup : NoDup (places pts w);
  rt_fresh : Forall (fun p => p < next_pid w) (places pts w);
  rt_owned : NoDup (owned w);
  rt_owned_fresh : Forall (fun p => p < next_pid w) (owned w)
}.

Lemma rt_sub w w' pts pts' : rt_inv_at w pts -> places pts' w' ⊆+ places pts w ->
  next_pid w' = next_pid w -> owned w' = owned w -> rt_inv_at w' pts'.
Proof.
  intros [R1 R2 R3 R4] (k & Hp)%submseteq_Permutation Hn Ho. rewrite Hp in R1, R2.
  apply NoDup_app in R1 as [R1 _]. apply Forall_app in R2 as [R2 _].
  split; rewrite ?Hn, ?Ho; done.
Qed.

Lemma rt_spawn w w' pts pts' : rt_inv_at w pts -> places pts' w' ≡ₚ next_pid w :: places pts w ->
  next_pid w' = next_pid w + 1 -> owned w' = next_pid w :: owned w -> rt_inv_at w' pts'.
Proof.
  intros [R1 R2 R3 R4] Hp Hn Ho.
  assert (Hw : forall l, Forall (fun p => p < next_pid w) l -> next_pid w ∉ l /\
    Forall (fun p => p < next_pid w + 1) l).
  { intros l Hl. split; [|eapply Forall_impl; [done|cbn; lia]].
    intros Hi. rewrite Forall_forall in Hl. specialize (Hl _ Hi). lia. }
  destruct (Hw _ R2), (Hw _ R4).
  split; rewrite ?Hn, ?Ho, ?Hp; first [by apply NoDup_cons|constructor; [lia|done]].
Qed.

Lemma take_ready_spec ok l found dead rest : take_ready ok l = (found, dead, rest) ->
  l = dead ++ option_list found ++ rest /\ Forall (fun p => ok p = false) dead /\
  (forall p, found = Some p -> ok p = true) /\ (found = None -> rest = []).
Proof.
  revert found dead rest. induction l as [|p l IH]; cbn; intros found dead rest E; [by simplify_eq|].
  destruct (ok p) eqn:Ho; [simplify_eq/=; split_and!; naive_solver|].
  destruct (take_ready ok l) as [[f d] r]. simplify_eq.
  destruct (IH _ _ _ eq_refl) as (-> & Hd & Hf & Hn). split_and!; try done. by constructor.
Qed.

Lemma bind_replicate n : replicate n (PFill 0) ≫= pt_rts = [].
Proof. by induction n. Qed.

Ltac places_tac := unfold places; cbn [core ready handed threads on_core set_core set_ready set_threads
    add_checkouts add_closes apply_session on_capacity set_capacity hand add_starting set_closed
    set_last_error set_published next_tok spawn add_cold_starts disown set_forked];
  rewrite ?bind_app, ?bind_cons, ?bind_replicate; cbn [pt_rts fmap list_fmap fst mbind list_bind app option_list];
  rewrite ?app_nil_l; try solve_submseteq.

Lemma rt_checkout o w rest w' pts : rt_inv_at w rest ->
  checkout session_names _session_options o w = (w', pts) -> rt_inv_at w' (pts ++ rest).
Proof.
  intros H. unfold checkout, take. intros E.
  destruct (refill_after_fork w) as [w1 started] eqn:Er.
  destruct (refill_spec _ _ _ Er) as [[b ->] [n ->]].
  destruct (take_ready _ _) as [[found dead] r] eqn:Et. apply take_ready_spec in Et as (Et & _).
  cbn in Et. repeat case_match; simplify_eq; (eapply rt_sub; [exact H| |done..]); places_tac.
  all: rewrite Et; cbn; solve_submseteq.
Qed.

Lemma rt_available w rest b w' : check_available w = (b, w') -> rt_inv_at w rest ->
  rt_inv_at w' rest /\ ready (core w') = ready (core w).
Proof.
  unfold check_available. destruct (available _ _). intros [= <- <-] H. split; [|done].
  by apply (rt_sub w _ _ _ H).
Qed.

Lemma rt_wait now c d w rest w' pt : rt_inv_at w (PWait c d :: rest) ->
  wait_turn _session_options now c d w = (w', pt) -> rt_inv_at w' (pt :: rest).
Proof.
  intros H. unfold wait_turn.
  destruct (closed (core w)); [intros [= <- <-]; by apply (rt_sub w _ _ _ H)|].
  destruct (check_available w) as [b w1] eqn:Ea. destruct (rt_available _ _ _ _ Ea H) as [H1 Hr].
  destruct b; [intros [= <- <-]; by apply (rt_sub w1 _ _ _ H1)|].
  destruct (ready (core w1)) as [|p r] eqn:Er; intros E; repeat case_match; simplify_eq;
    (eapply rt_sub; [exact H1| |done..]); places_tac; rewrite Er; solve_submseteq.
Qed.

Lemma rt_fill b w rest w' pt : rt_inv_at w (PFill b :: rest) -> fill_turn b w = (w', pt) ->
  rt_inv_at w' (pt :: rest).
Proof.
  intros H. unfold fill_turn.
  destruct (closed (core w)); [intros [= <- <-]; by apply (rt_sub w _ _ _ H)|].
  destruct (_ && _); [|intros [= <- <-]; by apply (rt_sub w _ _ _ H)].
  destruct (check_available w) as [a w1] eqn:Ea. destruct (rt_available _ _ _ _ Ea H) as [H1 Hr].
  destruct a; intros [= <- <-]; by apply (rt_sub w1 _ _ _ H1).
Qed.

Lemma rt_turn now st w pt rest w' pts : rt_inv_at w (pt :: rest) -> turn now st w pt = (w', pts) ->
  rt_inv_at w' (pts ++ rest).
Proof.
  intros H E.
  destruct pt as [o|dead found s o|c tk|c d|c d p|c r|c d tk|c tk|c tk p|c r|b|ps b|p|tk|]; cbn [turn] in E.
  - eapply rt_checkout; [|done]. by apply (rt_sub w _ _ _ H).
  - destruct found, o; simplify_eq; (eapply rt_sub; [exact H| |done..]); places_tac.
  - simplify_eq. eapply rt_sub; [exact H| |done..]. destruct tk; places_tac.
  - destruct (wait_turn _ _ _ _ _) as [w1 pt1] eqn:Ew. simplify_eq. by eapply rt_wait.
  - simplify_eq. eapply rt_sub; [exact H| |done..]. places_tac.
  - simplify_eq. eapply rt_sub; [exact H| |done..]. destruct r; places_tac.
  - destruct (pending_turn _ _ _ _ _) as [w1 pt1] eqn:Ew. unfold pending_turn in Ew.
    repeat case_match; simplify_eq; (eapply rt_sub; [exact H| |done..]); places_tac.
  - unfold create in E. repeat case_match; simplify_eq;
      first [eapply rt_spawn; [exact H| |done..]; places_tac; solve_Permutation
            |eapply rt_sub; [exact H| |done..]; places_tac].
  - simplify_eq. apply (rt_sub w _ _ _ H); unfold register; [|repeat case_match; done..].
    repeat case_match; places_tac.
  - unfold fill_end in E. destruct c, r as [p|e]; repeat case_match; simplify_eq;
      (eapply rt_sub; [exact H| |done..]); unfold start_fillers; places_tac.
  - destruct (fill_turn _ _) as [w1 pt1] eqn:Ew. simplify_eq. by eapply rt_fill.
  - simplify_eq. eapply rt_sub; [exact H| |done..]. destruct b; places_tac.
  - unfold hand_over in E. repeat case_match; simplify_eq; (eapply rt_sub; [exact H| |done..]); places_tac.
  - destruct st, tk; simplify_eq; (eapply rt_sub; [exact H| |done..]); places_tac.
  - simplify_eq. by apply (rt_sub w' _ _ _ H).
Qed.

Lemma rt_perm w pts pts' : pts ≡ₚ pts' -> rt_inv_at w pts -> rt_inv_at w pts'.
Proof.
  intros Hp H. apply (rt_sub w _ _ _ H); [|done..]. unfold places. rewrite Hp. done.
Qed.

Lemma rt_step w w' : step w w' -> rt_inv_at w (threads w) -> rt_inv_at w' (threads w').
Proof.
  destruct 1 as [w now st l1 pt l2 w' pts Ht E|w p|w p|w o _|w _|w p _ _|w w' pt _ E|w _]; intros H.
  - assert (H' : rt_inv_at w' (pts ++ l1 ++ l2)).
    { eapply rt_turn; [|done]. apply (rt_perm w (threads w)); [rewrite Ht; solve_Permutation|done]. }
    apply (rt_sub w' _ _ _ H'); [|done..]. places_tac.
  - by apply (rt_sub w _ _ _ H).
  - by apply (rt_sub w _ _ _ H).
  - by apply (rt_sub w _ _ _ H).
  - by apply (rt_sub w _ _ _ H).
  - by apply (rt_sub w _ _ _ H).
  - unfold pool_close in E. simplify_eq. apply (rt_sub w _ _ _ H); [|done..]. places_tac.
  - destruct H as [R1 R2 R3 R4]. unfold places in *. apply NoDup_app in R1 as (_ & _ & R1).
    apply NoDup_app in R1 as (_ & _ & R1). rewrite !Forall_app in R2. split; cbn; [done|naive_solver|..];
    constructor.
Qed.

(** ** The cap *)

Lemma bind_length_le {A B} (f : A -> list B) l : (forall x, (length (f x) <= 1)%nat) ->
  (length (l ≫= f) <= length l)%nat.
Proof.
  intros Hf. induction l as [|x l IH]; [done|]. rewrite bind_cons, length_app. cbn. specialize (Hf x). lia.
Qed.

Lemma started_tokens pts : (omap pt_started pts).*1 `sublist_of` omap pt_token pts.
Proof.
  induction pts as [|pt pts IH]; [done|]. rewrite !omap_cons_opt, fmap_app.
  apply sublist_app; [|done]. destruct pt; cbn; try apply sublist_nil_l. done.
Qed.

Lemma keyed_once {A} (l : list (Z * A)) k : NoDup l.*1 ->
  (length (filter (fun e => e.1 = k) l).*2 <= 1)%nat.
Proof.
  rewrite length_fmap. induction l as [|[k' a] l IH]; [cbn; lia|].
  rewrite fmap_cons, NoDup_cons. cbn [fst]. intros [Hk Hn]. rewrite filter_cons. cbn [fst].
  destruct (decide (k' = k)) as [->|]; [|auto]. cbn.
  enough (H : filter (fun e : Z * A => e.1 = k) l = []) by by rewrite H.
  clear IH. induction l as [|[k' b] l IH]; [done|]. rewrite filter_cons. cbn [fst].
  rewrite fmap_cons in Hk, Hn. apply not_elem_of_cons in Hk as [? ?]. apply NoDup_cons in Hn as [? ?].
  rewrite decide_False by (cbn in *; congruence). auto.
Qed.

(** The process counted by a slot. *)
Definition charge (pts : list point) (ex : list pid) (e : token * slot) : list pid :=
  let starting := (filter (fun x => x.1 = e.1) (omap pt_started pts)).*2 in
  match e.2 with
  | Running p => [p]
  | Handover p => if mem_Z p ex then starting else [p]
  | Reserved => starting
  end.

Lemma charge_once mx ws pts ex nt ow e : cap_state mx ws pts ex nt ow -> (length (charge pts ex e) <= 1)%nat.
Proof.
  intros H. assert (Hs : (length (filter (fun x => x.1 = e.1) (omap pt_started pts)).*2 <= 1)%nat).
  { apply keyed_once. eapply sublist_NoDup; [apply (cs_nodup _ _ _ _ _ _ H)|apply started_tokens]. }
  unfold charge. repeat case_match; cbn; lia.
Qed.

Lemma charged m ws pts ex nt ow p : cap_state (Some m) ws pts ex nt ow -> p ∈ ow -> mem_Z p ex = false ->
  p ∈ ws ≫= charge pts ex.
Proof.
  intros H Ho Hx. rewrite list_elem_of_bind.
  destruct (cs_cover _ _ _ _ _ _ H ltac:(done) p Ho Hx) as [(tk & Hg)|Hs].
  - destruct Hg as [Hg|Hg]; apply get_slot_elem in Hg; eexists; (split; [|exact Hg]); cbn; rewrite ?Hx; left.
  - apply list_elem_of_fmap in Hs as ([tk p'] & -> & Hs). cbn in *.
    assert (Hp : p' ∈ (filter (fun x => x.1 = tk) (omap pt_started pts)).*2).
    { apply list_elem_of_fmap. exists (tk, p'). split; [done|]. by apply list_elem_of_filter. }
    assert (Hst : tk ∈ omap pt_settled pts).
    { apply list_elem_of_omap in Hs as (pt & Hi & E). apply list_elem_of_omap. exists pt.
      split; [done|]. destruct pt; by simplify_eq/=. }
    pose proof (settled_token _ _ Hst) as Ht. apply (cs_held _ _ _ _ _ _ H ltac:(done)) in Ht.
    destruct Ht as [Hg|[q Hg]]; pose proof (get_slot_elem _ _ _ Hg) as Hi; eexists; (split; [|exact Hi]); cbn.
    + done.
    + by rewrite (cs_settled _ _ _ _ _ _ H _ _ Hst Hg).
Qed.

Definition live_workers (w : world) : list pid := filter (fun p => mem_Z p (exits w) = false) (owned w).

Lemma pool_init_ok MS defaults sz st mw ct k :
  sandbox_pool_init _session_options MS defaults sz st mw ct = Ok k ->
  exists cap size starts, k = core_init defaults size starts cap /\ workers cap = [] /\ waiters cap = 0 /\
    1 <= size /\ 1 <= starts /\ (forall m, maximum cap = Some m -> 1 <= m) /\
    is_ok (_session_options defaults) = true.
Proof.
  unfold sandbox_pool_init, _capacity, _check_sizes. intros E.
  apply result_bind_ok in E as (cap & Hc & E). apply result_bind_ok in E as ([s t] & Hs & E).
  apply result_bind_ok in E as (o & Ho & E). apply Ok_inj in E as <-. exists cap, s, t.
  apply result_bind_ok in Hc as (m & Hm & Hc).
  assert (Hcap : exists f, cap = capacity_init m f) by (repeat (case_match; simplify_eq); eauto).
  assert (Hlim : forall v n, limit_int v 1 MAX_WIRE_INT = Ok (Some n) -> 1 <= n).
  { intros [|?|i|?] n H; try done. unfold limit_int in H.
    destruct (i <? 1) eqn:E; [done|]. destruct (_ <? i); simplify_eq. by apply Z.ltb_ge. }
  assert (Hsz : forall v n, check_size v = Ok n -> 1 <= n).
  { intros v n Hv. unfold check_size in Hv. destruct v; try done; inv_ok;
      (case_match; [|done]); simplify_eq; eauto. }
  destruct Hcap as [f ->]. apply result_bind_ok in Hs as (s' & Hs1 & Hs).
  apply result_bind_ok in Hs as (t' & Ht1 & Hs). apply Ok_inj in Hs as [= <- <-]. rewrite Ho.
  split_and!; try done; [eauto|eauto|]. cbn. intros m' ->. eauto.
Qed.
End Props.
