(* ===== verification/SandboxPoolProps.v ===== *)
(** * Sandbox pool: its theorems ([python/pydeno/_sandbox_pool.py])

    On [SandboxPool.step], over every interleaving: the worker cap holds and no slot leaks
    ([worker_cap]), a runtime is handed out at most once and with the options of the call
    ([single_use]), and the counters are exact and bounded ([pool_counters]). *)

From S2P Require Import Prelude PyVal Limits SandboxPool SandboxPoolCap.
From Stdlib Require Import Floats.SpecFloat.

Section Props.
Context {V settings : Type} (session_names : list string)
  (_session_options : gmap string V -> result exn settings) (ticks : spec_float -> Z).
Local Abbreviation point := (@point V settings).
Local Abbreviation world := (@world V settings).
Local Abbreviation step := (step session_names _session_options ticks).
Local Abbreviation turn := (turn session_names _session_options ticks).
Local Abbreviation reachable := (reachable session_names _session_options ticks).

(** ** The counters *)

Lemma release_frame f tk c : exists ws, release f tk c = set_workers ws c.
Proof. unfold release. repeat case_match; eauto. exists (workers c). by destruct c. Qed.

Lemma reserve_frame tk c : exists ws, reserve tk c = set_workers ws c.
Proof. unfold reserve. case_match; eauto. exists (workers c). by destruct c. Qed.

Lemma hand_over_frame p c : exists tk ws, hand_over p c = (tk, set_workers ws c).
Proof. unfold hand_over. case_match; eauto. exists None, (workers c). by destruct c. Qed.

Lemma available_frame (w : world) : exists b ws, check_available w = (b, on_capacity (set_workers ws) w).
Proof.
  unfold check_available, available, live. destruct (maximum _) as [m|]; cbn; [eauto|].
  exists true, (workers (capacity (core w))). by destruct w as [[[] ? ? ? ? ? ? ? ? ? ?]].
Qed.

Lemma register_frame c tk p (w : world) : exists ws, register c tk p w =
  match c with
  | CCheckout _ => on_core (fun k => add_cold_starts 1 (add_checkouts 1 k)) (on_capacity (set_workers ws) w)
  | _ => on_capacity (set_workers ws) w
  end.
Proof.
  unfold register. destruct (maximum _); [eauto|]. exists (workers (capacity (core w))).
  assert (E : on_capacity (set_workers (workers (capacity (core w)))) w = w)
    by by destruct w as [[[] ? ? ? ? ? ? ? ? ? ?]]. by rewrite E.
Qed.

(** Unfold a turn into its cases, every change of the slot table abstracted. *)
Ltac turn_cases E :=
  cbn [turn] in E;
  unfold checkout, take, wait_turn, pending_turn, create, fill_turn, fill_end, take_slot in E;
  repeat match type of E with
  | context [check_available ?w] =>
      let b := fresh "b" in let ws := fresh "ws" in let H := fresh "Hav" in
      destruct (available_frame w) as (b & ws & H); rewrite H in E; clear H
  | context [refill_after_fork ?w] =>
      let w1 := fresh "w1" in let st := fresh "st" in let H := fresh "Hr" in
      destruct (refill_after_fork w) as [w1 st] eqn:H; apply refill_spec in H as [[? ->] [? ->]]
  | context [hand_over ?p ?c] =>
      let H := fresh "Hh" in destruct (hand_over_frame p c) as (? & ? & H); rewrite H in E; clear H
  | context [register ?c ?tk ?p ?w] =>
      let H := fresh "Hg" in destruct (register_frame c tk p w) as (? & H); rewrite H in E; clear H
  end;
  simplify_eq/=; repeat (case_match; simplify_eq/=);
  repeat match goal with
  | |- context [release ?f ?tk ?c] => let H := fresh "Hrel" in destruct (release_frame f tk c) as (? & H); rewrite H; clear H
  | |- context [reserve ?tk ?c] => let H := fresh "Hres" in destruct (reserve_frame tk c) as (? & H); rewrite H; clear H
  end.

(** A thread inside [new]'s wait, and a filler inside [new]. *)
Definition waiting (pt : point) : Z :=
  match pt with PWait _ _ | PRetire _ _ _ | PLeave _ _ | PPending _ _ _ => 1 | _ => 0 end.

Definition pt_caller (pt : point) : option caller :=
  match pt with
  | PEnter c _ | PWait c _ | PRetire c _ _ | PLeave c _ | PPending c _ _ | PStart c _ | PStarted c _ _
  | PReturned c _ => Some c
  | _ => None
  end.

Definition filling (pt : point) : Z := match pt_caller pt with Some (CFill _) => 1 | _ => 0 end.


Lemma waiters_turn now st w pt w' pts : turn now st w pt = (w', pts) ->
  waiters (capacity (core w')) = waiters (capacity (core w)) + total waiting pts - waiting pt.
Proof.
  intros E. destruct pt; turn_cases E; cbn; unfold start_fillers; rewrite ?total_replicate by done; lia.
Qed.

Lemma starting_turn now st w pt w' pts : turn now st w pt = (w', pts) ->
  starting (core w') = starting (core w) + total filling pts - filling pt.
Proof.
  intros E. destruct pt; turn_cases E; unfold filling, start_fillers; cbn;
    rewrite ?total_replicate by done; lia.
Qed.

Lemma closed_turn now st w pt w' pts : turn now st w pt = (w', pts) ->
  closed (core w') = closed (core w) /\
  (published w' = published w \/ published w' = true /\ exists p, pt = PReturned CInit (Ok p)).
Proof. intros E. destruct pt; turn_cases E; eauto. Qed.

(** The ready queue grows only where a filler or the constructor adds to it. *)
Lemma ready_turn now st w pt w' pts : turn now st w pt = (w', pts) ->
  (exists dropped, ready (core w) = dropped ++ ready (core w')) \/
  (exists p b, pt = PReturned (CFill b) (Ok p) /\ closed (core w) = false /\
     ready (core w') = ready (core w) ++ [p]) \/
  (exists p, pt = PReturned CInit (Ok p) /\ ready (core w') = ready (core w) ++ [p]).
Proof.
  intros E. destruct pt; turn_cases E; try (left; by exists []); eauto 10.
  all: left.
  all: try match goal with H : take_ready _ _ = _ |- _ =>
    apply take_ready_spec in H as (H & _); cbn in H; rewrite H end.
  all: match goal with
       | |- exists d, ?a ++ ?p :: ?b = d ++ ?b => exists (a ++ [p]); by rewrite <- app_assoc
       | |- exists d, ?a ++ ?b = d ++ ?b => by exists a
       | |- exists d, ?p :: ?b = d ++ ?b => by exists [p]
       end.
Qed.

Lemma fill_guard now st w b w' pts : turn now st w (PFill b) = (w', pts) ->
  Z.of_nat (length (ready (core w'))) + starting (core w')
  <= Z.max (core_size (core w)) (Z.of_nat (length (ready (core w))) + starting (core w)).
Proof. intros E. turn_cases E; bool_prop; lia. Qed.

Definition init_point (pt : point) : Prop := pt_caller pt = Some CInit \/ pt = PEnd.

Lemma init_turn now st w pt w' pts : turn now st w pt = (w', pts) -> init_point pt ->
  (exists p, pt = PReturned CInit (Ok p)) \/ pts = [] \/ exists pt', pts = [pt'] /\ init_point pt'.
Proof.
  intros E [Hc| ->]; [|cbn in E; simplify_eq; eauto]. unfold init_point.
  destruct pt; cbn in Hc; simplify_eq; turn_cases E; eauto 10.
Qed.

Lemma later_turn now st w pt w' pts : turn now st w pt = (w', pts) -> pt_caller pt <> Some CInit ->
  Forall (fun pt => pt_caller pt <> Some CInit) pts.
Proof.
  intros E Hc. destruct pt; turn_cases E; repeat constructor; cbn; try done; by apply Forall_replicate.
Qed.

Lemma published_turn now st w p w' pts : turn now st w (PReturned CInit (Ok p)) = (w', pts) ->
  published w' = true /\ Forall (fun pt => pt_caller pt <> Some CInit) pts.
Proof. intros E. turn_cases E. split; [done|]. constructor; [done|]. by apply Forall_replicate. Qed.

Record counts_at (w : world) (pts : list point) : Prop := {
  ct_starting : starting (core w) = total filling pts;
  ct_waiters : waiters (capacity (core w)) = total waiting pts;
  ct_bound : Z.of_nat (length (ready (core w))) + starting (core w) <= core_size (core w);
  ct_closed : closed (core w) = true -> ready (core w) = [] /\ published w = true;
  ct_unpub : published w = false -> ready (core w) = [] /\
    (pts = [] \/ exists pt, pts = [pt] /\ init_point pt);
  ct_pub : published w = true -> Forall (fun pt => pt_caller pt <> Some CInit) pts
}.

Lemma filling_range pt : 0 <= filling pt <= 1.
Proof. unfold filling. repeat case_match; lia. Qed.

Lemma counts_perm w pts pts' : pts ≡ₚ pts' -> counts_at w pts -> counts_at w pts'.
Proof.
  intros Hp []. split; rewrite <- ?(total_perm _ _ _ Hp); auto.
  - intros E. destruct (ct_unpub0 E) as [? [->|(pt & -> & ?)]]; (split; [done|]).
    + left. by apply Permutation_nil.
    + right. exists pt. split; [|done]. symmetry. by apply Permutation_singleton_l.
  - intros E. rewrite <- Hp. auto.
Qed.

(** Ready runtimes and starts in progress stay within the size. *)
Lemma bound_turn now st w pt rest w' pts : turn now st w pt = (w', pts) -> counts_at w (pt :: rest) ->
  1 <= core_size (core w) ->
  Z.of_nat (length (ready (core w'))) + starting (core w') <= core_size (core w).
Proof.
  intros E H Hs. pose proof (starting_turn _ _ _ _ _ _ E) as Est. pose proof (ct_bound _ _ H) as Hb.
  assert (Hd : (exists b, pt = PFill b) \/ ~ exists b, pt = PFill b)
    by (destruct pt; first [left; by eexists|right; by intros [? ?]]).
  destruct Hd as [[b ->]|Hf].
  { apply fill_guard in E. lia. }
  assert (Hle : total filling pts <= filling pt).
  { clear Est Hb H. destruct pt; turn_cases E; unfold filling, start_fillers; cbn;
      rewrite ?total_replicate by done; try lia; exfalso; eauto. }
  destruct (ready_turn _ _ _ _ _ _ E) as [[d Hd]|[(p & b & -> & _ & Hr)|(p & -> & Hr)]].
  - rewrite Hd, length_app in Hb. lia.
  - rewrite Hr, length_app. cbn. clear Hle. cbn in E. unfold fill_end in E.
    repeat case_match; simplify_eq/=; lia.
  - pose proof (ct_starting _ _ H) as Hst. cbn in Est.
    destruct (published w) eqn:Ep; [apply (ct_pub _ _ H) in Ep; inversion Ep; by subst|].
    destruct (ct_unpub _ _ H Ep) as [Hn [?|(pt & Hpt & _)]]; [done|]. injection Hpt as <- ->.
    rewrite Hr, Hn. cbn in *. lia.
Qed.

Lemma counts_turn now st w pt rest w' pts : turn now st w pt = (w', pts) -> counts_at w (pt :: rest) ->
  1 <= core_size (core w) -> counts_at w' (pts ++ rest).
Proof.
  intros E H Hs. pose proof (starting_turn _ _ _ _ _ _ E) as Est.
  pose proof (waiters_turn _ _ _ _ _ _ E) as Ew. pose proof (closed_turn _ _ _ _ _ _ E) as [Ec Ep].
  pose proof (bound_turn _ _ _ _ _ _ _ E H Hs) as Hb.
  pose proof (params_turn _ _ _ _ _ _ _ _ _ E) as Hpar. injection Hpar as _ _ Hsz.
  destruct H as [C1 C2 C3 C4 C5 C6]. cbn in C1, C2. split; rewrite ?total_app, ?Hsz; try lia.
  - rewrite Ec. intros Hc. destruct (C4 Hc) as [Hn Hp]. split; [|destruct Ep as [->|[? _]]; done].
    destruct (ready_turn _ _ _ _ _ _ E) as [[d Hd]|[(p & b & -> & Hc' & Hr)|(p & -> & Hr)]].
    + rewrite Hn in Hd. symmetry in Hd. by apply app_eq_nil in Hd as [_ ?].
    + congruence.
    + apply C6 in Hp. inversion Hp; by subst.
  - intros Hp'. destruct Ep as [Ep|[? _]]; [|congruence]. rewrite Ep in Hp'.
    destruct (C5 Hp') as [Hn [?|(pt' & Hpt & Hi)]]; [done|]. injection Hpt as <- ->.
    assert (Hnr : forall p, pt <> PReturned CInit (Ok p)).
    { intros p ->. apply published_turn in E as [? _]. congruence. }
    destruct (init_turn _ _ _ _ _ _ E Hi) as [[p ->]|Hpts]; [by destruct (Hnr p)|].
    rewrite app_nil_r. split; [|done].
    destruct (ready_turn _ _ _ _ _ _ E) as [[d Hd]|[(p & b & -> & _ & Hr)|(p & -> & Hr)]].
    + rewrite Hn in Hd. symmetry in Hd. by apply app_eq_nil in Hd as [_ ?].
    + by destruct Hi.
    + by destruct (Hnr p).
  - intros Hp'. destruct (published w) eqn:Epw.
    + specialize (C6 eq_refl). inversion C6; subst. apply Forall_app. split; [|done]. by eapply later_turn.
    + destruct (C5 eq_refl) as [Hn [?|(pt' & Hpt & Hi)]]; [done|]. injection Hpt as <- ->.
      destruct Ep as [Ep|[_ [p ->]]]; [congruence|]. rewrite app_nil_r. by eapply published_turn.
Qed.

Lemma counts_add w pt : waiting pt = 0 -> filling pt = 0 -> pt_caller pt <> Some CInit ->
  published w = true -> counts_at w (threads w) -> counts_at w (pt :: threads w).
Proof.
  intros Hw Hf Hc Hp []. split; cbn; try lia; try done; [congruence|]. constructor; auto.
Qed.

Lemma counts_step w w' : step w w' -> 1 <= core_size (core w) -> counts_at w (threads w) ->
  counts_at w' (threads w').
Proof.
  destruct 1 as [w now st l1 pt l2 w' pts Ht E|w p|w p|w o Hp|w Hp|w p Hp _|w w' pt Hp E|w Hp]; intros Hs H.
  - assert (H' : counts_at w' (pts ++ l1 ++ l2)).
    { eapply counts_turn; [done| |done]. apply (counts_perm w (threads w)); [|done].
      rewrite Ht. solve_Permutation. }
    apply (counts_perm w' _ (l1 ++ pts ++ l2)) in H'; [|solve_Permutation]. by destruct H'.
  - by destruct H.
  - by destruct H.
  - by destruct (counts_add w (PCheckout o) eq_refl eq_refl ltac:(done) Hp H).
  - by destruct (counts_add w (PEnter CFactory None) eq_refl eq_refl ltac:(done) Hp H).
  - by destruct (counts_add w (PHandOver p) eq_refl eq_refl ltac:(done) Hp H).
  - unfold pool_close in E. simplify_eq.
    destruct (counts_add w (PClose (ready (core w)) None) eq_refl eq_refl ltac:(done) Hp H).
    split; cbn; try done; try lia. congruence.
  - destruct H. split; cbn; try done; try lia; congruence.
Qed.

(** ** Session options *)

(** [p] runs with the settings of the session options [s]. *)
Definition set_ok (A : gmap pid settings) (p : pid) (s : gmap string V) : Prop :=
  exists o, _session_options s = Ok o /\ A !! p = Some o.

(** The options the caller of [new] asked for; a factory brings its own. *)
Definition caller_ok (A : gmap pid settings) (D : gmap string V) (c : caller) (p : pid) : Prop :=
  match c with
  | CInit | CFill _ => set_ok A p D
  | CCheckout s => set_ok A p s
  | CFactory => True
  end.

Definition pt_sess (A : gmap pid settings) (D : gmap string V) (pt : point) : Prop :=
  match pt with
  | PStarted c _ p | PReturned c (Ok p) | PLeave c (OReturn p) => caller_ok A D c p
  | PDead _ (Some p) s options =>
      set_ok A p D /\ match options with None => s = D | Some o => _session_options s = Ok o end
  | _ => True
  end.

Definition hand_ok (A : gmap pid settings) (e : pid * option (gmap string V)) : Prop :=
  match e.2 with Some s => set_ok A e.1 s | None => True end.

Record sess_at (w : world) (pts : list point) : Prop := {
  ss_ready : Forall (fun p => set_ok (applied w) p (session (core w))) (ready (core w));
  ss_pts : Forall (pt_sess (applied w) (session (core w))) pts;
  ss_handed : Forall (hand_ok (applied w)) (handed w)
}.

Lemma set_ok_other A p q o s : p <> q -> set_ok A p s -> set_ok (<[q := o]> A) p s.
Proof. intros Hn (o' & ? & ?). exists o'. by rewrite lookup_insert_ne. Qed.

Lemma set_ok_new A p o s : _session_options s = Ok o -> set_ok (<[p := o]> A) p s.
Proof. exists o. by rewrite lookup_insert_eq. Qed.

Lemma pt_sess_other A D q o pt : q ∉ pt_rts pt -> pt_sess A D pt -> pt_sess (<[q := o]> A) D pt.
Proof.
  destruct pt as [ |dead [p|]| | | |c []| | |c|c []| | | | |]; cbn; intros Hq H; try done.
  - destruct H as [H Ho]. split; [|done]. apply set_ok_other; [|done]. intros ->. apply Hq, elem_of_app.
    right. left.
  - destruct c; try done; (apply set_ok_other; [|done]); intros ->; apply Hq; left.
  - destruct c; try done; (apply set_ok_other; [|done]); intros ->; apply Hq; left.
  - destruct c; try done; (apply set_ok_other; [|done]); intros ->; apply Hq; left.
Qed.

(** New settings for a runtime that nobody else has. *)
Lemma sess_apply w pts p o : p ∉ places pts w -> sess_at w pts -> sess_at (apply_session p o w) pts.
Proof.
  unfold places. rewrite !elem_of_app. intros Hp [S1 S2 S3]. split; cbn.
  - rewrite Forall_forall in *. intros q Hq. apply set_ok_other; [|auto]. intros ->. tauto.
  - rewrite Forall_forall in *. intros pt Hpt. apply pt_sess_other; [|auto]. intros Hi.
    apply Hp. left. apply list_elem_of_bind. eauto.
  - rewrite Forall_forall in *. intros [q [s|]] Hq; [|done]. specialize (S3 _ Hq). cbn in *.
    apply set_ok_other; [|done]. intros ->. apply Hp. right. right. apply list_elem_of_fmap. by exists (p, Some s).
Qed.

(** Everything but the settings, the ready queue, the points and what was handed out. *)
Lemma sess_frame w w' pts pts' : sess_at w pts ->
  applied w' = applied w -> session (core w') = session (core w) ->
  ready (core w') ⊆ ready (core w) -> handed w' = handed w ->
  Forall (pt_sess (applied w) (session (core w))) pts' -> sess_at w' pts'.
Proof.
  intros [S1 S2 S3] Ea Es Er Eh Hp. split; rewrite ?Ea, ?Es, ?Eh; try done.
  rewrite Forall_forall in *. auto.
Qed.

Lemma sess_drop w pt rest : sess_at w (pt :: rest) -> sess_at w rest.
Proof. intros [S1 S2 S3]. inversion S2; subst. done. Qed.

Lemma fillers_sess A D n : Forall (pt_sess A D) (replicate n (PFill 0)).
Proof. by apply Forall_replicate. Qed.


Lemma sess_cons w pt rest : pt_sess (applied w) (session (core w)) pt -> sess_at w rest ->
  sess_at w (pt :: rest).
Proof. intros Hp [S1 S2 S3]. split; [done|by constructor|done]. Qed.

Lemma sess_wait now c d w rest w' pt : rt_inv_at w (PWait c d :: rest) -> sess_at w rest ->
  wait_turn _session_options now c d w = (w', pt) -> sess_at w' (pt :: rest).
Proof.
  intros HR H E. pose proof (ss_pts _ _ H) as Hp. pose proof (ss_ready _ _ H) as Hrd. turn_cases E.
  all: try (eapply sess_frame; [exact H|done|done| |done|]; cbn;
    [|constructor; [|done]]; try done; rewrite ?H1; try set_solver; inversion Hrd; by subst).
  apply sess_cons; [by apply set_ok_new|]. apply sess_apply.
  - pose proof (rt_nodup _ _ HR) as Hn. unfold places in *. cbn in *. rewrite H1 in Hn.
    apply NoDup_app in Hn as (_ & Hd & [Hl _]%NoDup_cons). rewrite elem_of_app. intros [Hi|Hi]; [|done].
    apply (Hd p Hi). left.
  - eapply sess_frame; [exact H|done|done| |done|done]. cbn. rewrite H1. set_solver.
Qed.

Lemma sess_create st c tk w rest w' pt : rt_inv_at w (PStart c tk :: rest) -> sess_at w rest ->
  create _session_options st c tk w = (w', pt) -> sess_at w' (pt :: rest).
Proof.
  intros HR H E.
  assert (Hn : next_pid w ∉ places rest w).
  { pose proof (rt_fresh _ _ HR) as Hf. rewrite Forall_forall in Hf. intros Hi. specialize (Hf _ Hi). lia. }
  turn_cases E; apply sess_cons; try done; cbn.
  all: try by apply set_ok_new.
  all: try (by apply sess_apply; [|destruct H; split]).
  all: first [by destruct c|by destruct H; split].
Qed.

Lemma session_for_empty (D s : gmap string V) : _session_for session_names D ∅ = Ok s -> s = D.
Proof. unfold _session_for. case_match; [|done]. intros [= <-]. by rewrite (left_id_L ∅ (∪)). Qed.


Lemma sess_take w rest r w' started : sess_at w rest -> take w = (r, w', started) ->
  sess_at w' (started ++ rest) /\ session (core w') = session (core w) /\
  match r with
  | Ok (Some p, _) => set_ok (applied w') p (session (core w))
  | _ => True
  end.
Proof.
  intros H. unfold take. destruct (closed _); [intros [= <- <- <-]; by split_and!|].
  destruct (refill_after_fork w) as [w1 st] eqn:Er. apply refill_spec in Er as [[b ->] [n ->]].
  destruct (take_ready _ _) as [[found dead] rdy] eqn:Et. apply take_ready_spec in Et as (Et & _).
  cbn in Et. intros [= <- <- <-]. pose proof (ss_ready _ _ H) as Hr. rewrite Et, !Forall_app in Hr.
  destruct Hr as (_ & Hf & _). split_and!.
  - eapply sess_frame; [exact H|by destruct found..| | |].
    + destruct found; cbn; rewrite Et; set_solver.
    + by destruct found.
    + apply Forall_app. split; [apply fillers_sess|apply (ss_pts _ _ H)].
  - by destruct found.
  - destruct found as [p|]; [|done]. by inversion Hf; subst.
Qed.

Lemma sess_checkout o w rest w' pts : sess_at w rest ->
  checkout session_names _session_options o w = (w', pts) -> sess_at w' (pts ++ rest).
Proof.
  intros H. unfold checkout. destruct (_session_for _ _ _) as [s|] eqn:Es; [|intros [= <- <-]; by apply sess_cons].
  destruct (if decide _ then _ else _) as [options|] eqn:Eo; [|intros [= <- <-]; by apply sess_cons].
  destruct (take w) as [[r w1] started] eqn:Et. destruct (sess_take _ _ _ _ _ H Et) as (H1 & Hs & Hr).
  destruct r as [[found dead]|]; intros [= <- <-]; (apply sess_cons; [|done]); [|done].
  destruct found as [p|]; [|done]. cbn. rewrite Hs. split; [done|].
  destruct (decide (o = ∅)) as [->|Hne]; simplify_eq/=; [by eapply session_for_empty|].
  destruct (_session_options s); by simplify_eq/=.
Qed.

Lemma sess_append w rest p : sess_at w rest -> set_ok (applied w) p (session (core w)) ->
  sess_at (on_core (fun k => set_ready (ready k ++ [p]) k) w) rest.
Proof.
  intros [S1 S2 S3] Hp. split; cbn; try done. apply Forall_app. split; [done|]. by constructor.
Qed.

Lemma sess_hand w rest p s : sess_at w rest -> hand_ok (applied w) (p, s) -> sess_at (hand p s w) rest.
Proof. intros [S1 S2 S3] Hp. split; cbn; try done. by constructor. Qed.

Lemma sess_turn now st w pt rest w' pts : rt_inv_at w (pt :: rest) -> sess_at w (pt :: rest) ->
  turn now st w pt = (w', pts) -> sess_at w' (pts ++ rest).
Proof.
  intros HR H0 E. pose proof (sess_drop _ _ _ H0) as H. pose proof (ss_pts _ _ H) as Hp.
  pose proof (ss_pts _ _ H0) as Hpt. apply Forall_cons in Hpt as [Hpt _].
  destruct pt as [o|dead found s o|c tk|c d|c d p|c r|c d tk|c tk|c tk p|c r|b|ps b|p|tk|]; cbn [turn] in E.
  - by eapply sess_checkout.
  - destruct found as [p|]; simplify_eq; apply sess_cons; try done; [|by destruct H; split].
    destruct Hpt as [Hd Ho]. pose proof (rt_nodup _ _ HR) as Hn.
    assert (Hni : p ∉ places rest w).
    { unfold places in *. rewrite bind_cons in Hn. cbn in Hn. rewrite <- !app_assoc in Hn.
      apply NoDup_app in Hn as (_ & _ & Hn). cbn in Hn. by apply NoDup_cons in Hn as [? _]. }
    destruct o as [o|]; apply sess_hand; cbn.
    + apply sess_apply; [done|]. by destruct H; split.
    + by apply set_ok_new.
    + by destruct H; split.
    + by subst s.
  - simplify_eq. destruct tk; by apply sess_cons; [|destruct H; split].
  - destruct (wait_turn _ _ _ _ _) as [w1 pt1] eqn:Ew. simplify_eq. by eapply sess_wait.
  - simplify_eq. by apply sess_cons; [|destruct H; split].
  - simplify_eq. destruct r; by apply sess_cons; [|destruct H; split].
  - turn_cases E; by apply sess_cons; [|destruct H; split].
  - destruct (create _ _ _ _ _) as [w1 pt1] eqn:Ew. simplify_eq. by eapply sess_create.
  - turn_cases E; by apply sess_cons; [|destruct H; split].
  - turn_cases E; apply sess_cons; try done; try (by apply sess_append); try (by apply sess_hand);
      try by destruct H; split.
    + eapply (sess_frame (on_core (fun k => set_ready (ready k ++ [a]) k) w)); try done; [by apply sess_append|].
      apply Forall_app. split; [apply fillers_sess|done].
    + eapply (sess_frame (on_core (fun k => set_ready (ready k ++ [a]) k) w)); try done. by apply sess_append.
  - turn_cases E; by apply sess_cons; [|destruct H; split].
  - simplify_eq. destruct b; by apply sess_cons; [|destruct H; split].
  - turn_cases E. by apply sess_cons; [|destruct H; split].
  - turn_cases E; by apply sess_cons; [|destruct H; split].
  - by simplify_eq.
Qed.

Lemma sess_step w w' : step w w' -> rt_inv_at w (threads w) -> sess_at w (threads w) -> sess_at w' (threads w').
Proof.
  destruct 1 as [w now st l1 pt l2 w' pts Ht E|w p|w p|w o Hp|w Hp|w p Hp _|w w' pt Hp E|w Hp]; intros HR H.
  - assert (Hperm : threads w ≡ₚ pt :: l1 ++ l2) by (rewrite Ht; solve_Permutation).
    assert (H' : sess_at w' (pts ++ l1 ++ l2)).
    { eapply sess_turn; [by eapply rt_perm| |done]. destruct H as [S1 S2 S3]. by split; rewrite <- ?Hperm. }
    destruct H' as [S1 S2 S3]. split; cbn; try done. rewrite !Forall_app in *. tauto.
  - by destruct H; split.
  - by destruct H; split.
  - by apply sess_cons; [|destruct H; split].
  - by apply sess_cons; [|destruct H; split].
  - by apply sess_cons; [|destruct H; split].
  - unfold pool_close in E. simplify_eq. destruct H. split; cbn; try done; by constructor.
  - destruct H. split; cbn; try done; by constructor.
Qed.

(** The session options of a checkout are the pool's defaults, overridden by the call's. *)
Definition asked (D s : gmap string V) : Prop := exists o, _session_for session_names D o = Ok s.

Definition pt_asked (D : gmap string V) (pt : point) : Prop :=
  match pt_caller pt, pt with
  | Some (CCheckout s), _ => asked D s
  | _, PDead _ _ s _ => asked D s
  | _, _ => True
  end.

Definition asked_at (w : world) (pts : list point) : Prop :=
  Forall (pt_asked (session (core w))) pts /\
  forall p s, (p, Some s) ∈ handed w -> asked (session (core w)) s.

Lemma asked_turn now st w pt w' pts : turn now st w pt = (w', pts) -> pt_asked (session (core w)) pt ->
  Forall (pt_asked (session (core w))) pts /\
  (handed w' = handed w \/ exists p s, handed w' = (p, s) :: handed w /\
     match s with Some s => asked (session (core w)) s | None => True end).
Proof.
  intros E Hp. destruct pt; turn_cases E; (split; [|eauto 10]);
    repeat constructor; unfold pt_asked in *; cbn in *; try done; try (by apply Forall_replicate);
    try (by eexists); by destruct c.
Qed.

Lemma asked_step w w' : step w w' -> asked_at w (threads w) -> asked_at w' (threads w').
Proof.
  destruct 1 as [w now st l1 pt l2 w' pts Ht E|w p|w p|w o Hp|w Hp|w p Hp _|w w' pt Hp E|w Hp]; intros [H Hh];
    try (by split); try (by split; [constructor|]).
  - pose proof (params_turn _ _ _ _ _ _ _ _ _ E) as Hpar. injection Hpar as _ Es _.
    rewrite Ht in H. apply Forall_app in H as [H1 [H2 H3]%Forall_cons].
    destruct (asked_turn _ _ _ _ _ _ E H2) as [Hpts Hd]. unfold asked_at. cbn. rewrite Es. split.
    + rewrite !Forall_app. done.
    + intros p s Hi. destruct Hd as [Hd|(q & s' & Hd & Ha)]; rewrite Hd in Hi; [eauto|].
      apply elem_of_cons in Hi as [?|Hi]; simplify_eq; eauto.
  - unfold pool_close in E. simplify_eq. by split; [constructor|].
Qed.

(** ** The theorems *)

Record pool_inv (k : _Core) (w : world) : Prop := {
  pi_params : params w = (maximum (capacity k), session k, core_size k);
  pi_cap : cap_inv w;
  pi_rt : rt_inv_at w (threads w);
  pi_counts : counts_at w (threads w);
  pi_sess : sess_at w (threads w);
  pi_asked : asked_at w (threads w)
}.

Lemma pool_inv_init MS defaults sz st mw ct k :
  sandbox_pool_init _session_options MS defaults sz st mw ct = Ok k -> pool_inv k (init k) /\ 1 <= core_size k.
Proof.
  intros (cap & size & starts & -> & Hw & Hwt & Hsz & Hst & Hm & Ho)%pool_init_ok.
  assert (Hcs : 1 <= core_size (core_init defaults size starts cap)).
  { cbn. destruct (maximum cap) as [m|]; [specialize (Hm m eq_refl)|]; lia. }
  split; [|done]. split; [done|..].
  - split; cbn; rewrite ?Hw; try by constructor.
    + intros _ tk. rewrite elem_of_nil. unfold held. cbn. naive_solver.
    + intros m E. specialize (Hm m E). cbn. lia.
    + intros tk q Hi. by apply elem_of_nil in Hi.
  - split; by constructor.
  - cbn in Hcs. split; cbn; try done; try lia. intros _. split; [done|]. right. eexists. split; [done|]. by left.
  - split; by repeat constructor.
  - split; [by repeat constructor|]. intros p s Hp. by apply elem_of_nil in Hp.
Qed.

Lemma pool_inv_reachable MS defaults sz st mw ct k w :
  sandbox_pool_init _session_options MS defaults sz st mw ct = Ok k -> reachable k w -> pool_inv k w.
Proof.
  intros Hi Hr. apply pool_inv_init in Hi as [Hi Hs]. unfold reachable in Hr.
  revert w Hr. apply (rtc_ind_r (pool_inv k)); [done|]. intros w1 w2 _ Hst [I1 I2 I3 I4 I5 I6].
  split.
  - rewrite <- I1. by eapply params_step.
  - by eapply cap_step.
  - by eapply rt_step.
  - injection I1 as _ _ E. eapply counts_step; [done| |done]. by rewrite E.
  - by eapply sess_step.
  - by eapply asked_step.
Qed.

(** An executable schedule, for concrete runs. *)
Inductive action :=
| ATurn (i : nat) (now : Z) (started : bool)
| AExit (p : pid)
| ACheckout (o : gmap string V)
| AHandOver (p : pid).

Definition act (a : action) (w : world) : option world :=
  match a with
  | ATurn i now started =>
      pt ← threads w !! i;
      let '(w', pts) := turn now started w pt in
      Some (set_threads (firstn i (threads w) ++ pts ++ skipn (S i) (threads w)) w')
  | AExit p => Some (add_exit p w)
  | ACheckout o => if published w then Some (set_threads (PCheckout o :: threads w) w) else None
  | AHandOver p =>
      if published w then
        match maximum (capacity (core w)) with
        | Some _ => Some (set_threads (PHandOver p :: threads w) w)
        | None => None
        end
      else None
  end.

Fixpoint run (acts : list action) (w : world) : option world :=
  match acts with [] => Some w | a :: acts => act a w ≫= run acts end.

Lemma run_steps acts w w' : run acts w = Some w' -> rtc step w w'.
Proof.
  revert w. induction acts as [|a acts IH]; cbn; intros w E; [by simplify_eq|].
  destruct (act a w) as [w1|] eqn:Ea; cbn in E; [|done].
  apply (rtc_l _ _ w1); [|auto]. destruct a as [i now st|p|o|p]; cbn in Ea.
  - destruct (threads w !! i) as [pt|] eqn:Ei; cbn in Ea; [|done].
    destruct (turn now st w pt) as [w2 pts] eqn:Et. simplify_eq.
    apply (step_turn _ _ _ _ now st _ pt); [|done]. symmetry. by apply take_drop_middle.
  - simplify_eq. constructor.
  - case_match; simplify_eq. by constructor.
  - repeat case_match; simplify_eq. constructor; [done|congruence].
Qed.


(** Single use: in every reachable state the runtimes handed out are pairwise
    distinct, none of them is still in the pool or in another thread's hands, and a runtime
    a checkout handed out runs with exactly the options of that checkout (the pool's
    defaults, overridden by the call's). *)
Theorem single_use MS defaults sz st mw ct k w :
  sandbox_pool_init _session_options MS defaults sz st mw ct = Ok k -> reachable k w ->
  NoDup (handed w).*1 /\
  (forall p, p ∈ (handed w).*1 ->
     (p ∉ ready (core w)) /\ (forall pt, pt ∈ threads w -> p ∉ pt_rts pt)) /\
  (forall p s, (p, Some s) ∈ handed w ->
     (exists overrides, _session_for session_names (session k) overrides = Ok s) /\
     exists o, _session_options s = Ok o /\ applied w !! p = Some o).
Proof.
  intros Hi Hr. destruct (pool_inv_reachable _ _ _ _ _ _ _ _ Hi Hr) as [I1 _ I3 _ I5 [_ I6]].
  injection I1 as _ Es _. rewrite Es in I6.
  pose proof (rt_nodup _ _ I3) as Hn. unfold places in Hn. apply NoDup_app in Hn as (_ & Hd & Hn).
  apply NoDup_app in Hn as (_ & Hd' & Hn). split_and!; [done|..].
  - intros p Hp. split; [intros Hx; by apply (Hd' p)|]. intros pt Hpt Hx. apply (Hd p); [|set_solver].
    apply list_elem_of_bind. eauto.
  - intros p s Hp. split; [by eapply I6|].
    pose proof (ss_handed _ _ I5) as Hs. rewrite Forall_forall in Hs. apply (Hs _ Hp).
Qed.

(** The counters of the pool are exact in every reachable state: [starting] is the
    number of fillers that are starting a worker, [waiters] the number of callers that wait
    for capacity, the ready runtimes and the starts in progress together never exceed the
    size, and a closed pool has nothing ready. *)
Theorem pool_counters MS defaults sz st mw ct k w :
  sandbox_pool_init _session_options MS defaults sz st mw ct = Ok k -> reachable k w ->
  starting (core w) = total filling (threads w) /\
  waiters (capacity (core w)) = total waiting (threads w) /\
  Z.of_nat (length (ready (core w))) + starting (core w) <= core_size k /\
  (closed (core w) = true -> ready (core w) = []).
Proof.
  intros Hi Hr. destruct (pool_inv_reachable _ _ _ _ _ _ _ _ Hi Hr) as [I1 _ _ I4 _ _].
  injection I1 as _ _ E. destruct I4 as [C1 C2 C3 C4 _ _]. rewrite E in C3. naive_solver.
Qed.
End Props.

(** A pool of one worker with a cap of one: it starts, its runtime is checked out and its
    slot handed over, the old process exits, and the replacement starts in the same slot. *)
Definition w_options (s : gmap string Z) : result exn (gmap string Z) := Ok s.
Definition w_seconds : spec_float := S754_finite false 30 0.
Definition w_pool : result exn (@_Core Z) :=
  sandbox_pool_init w_options w_seconds ∅ (IIndex 1) (IIndex 1) (IIndex 1) (SDelta w_seconds).
Definition w_core : @_Core Z := match w_pool with Ok k => k | Err _ => core_init ∅ 0 0 (capacity_init None w_seconds) end.
Definition w_acts : list (@action Z) :=
  replicate 6 (ATurn 0 0 true) ++ [ATurn 0 0 true; ACheckout {["request_timeout" := 5]};
   ATurn 0 0 true; ATurn 0 0 true; ATurn 0 0 true; AHandOver 0; ATurn 0 0 true; ATurn 0 0 true;
   ATurn 0 0 true; AExit 0; ATurn 0 0 true; ATurn 0 0 true; ATurn 0 0 true].
Definition w_world : world :=
  match run ["request_timeout"] w_options (fun _ => 30) w_acts (init w_core) with
  | Some w => w
  | None => init w_core
  end.

Lemma w_reachable : reachable ["request_timeout"] w_options (fun _ => 30) w_core w_world.
Proof. apply (run_steps _ _ _ w_acts). vm_compute. reflexivity. Qed.


Lemma single_use_witness :
  (handed w_world).*1 = [0] /\ NoDup (handed w_world).*1.
Proof.
  split; [vm_compute; reflexivity|].
  apply (single_use ["request_timeout"] w_options (fun _ => 30) w_seconds ∅ (IIndex 1) (IIndex 1)
    (IIndex 1) (SDelta w_seconds) w_core w_world); [vm_compute; reflexivity|apply w_reachable].
Defined.

Lemma pool_counters_witness :
  starting (core w_world) = total filling (threads w_world) /\
  waiters (capacity (core w_world)) = total waiting (threads w_world).
Proof.
  destruct (pool_counters ["request_timeout"] w_options (fun _ => 30) w_seconds ∅ (IIndex 1) (IIndex 1)
    (IIndex 1) (SDelta w_seconds) w_core w_world) as (H1 & H2 & _);
    [vm_compute; reflexivity|apply w_reachable|exact (conj H1 H2)].
Defined.
