(* ===== verification/Journal.v ===== *)
(** * Signed session journals ([python/pydeno/_agent.py])

    How an agent session's journal is sealed, opened, checked and replayed: [_seal] and
    [_open] over the MAC interface of SnapshotAuth, the shape check [_parse] of the
    authenticated value (what [json.loads] returned), and the generator [_replay_plan],
    which turns the records into inputs for a session and compares its outcomes with the
    recorded ones. *)

From S2P Require Import Prelude Utf8 PyVal PyStr Sha256 SnapshotAuth.

Inductive journal_exn :=
| JPlain (e : exn)
| JournalError (msg : string)
| StaleJournal
| ReplayDivergence (index : nat).

#[export] Instance journal_exn_eq_dec : EqDecision journal_exn.
Proof. solve_decision. Defined.

Definition _MAGIC : list Z := u "pydeno-agent2" ++ [0].
Definition _MAX_ASSOCIATED_DATA : nat := 4096.
Definition _JOURNAL_FORMAT : Z := 1.
Definition _MAX_LOST_CALLS : Z := 2 ^ 53.
Definition DEFAULT_MAX_RESULT_BYTES : Z := 1024 * 1024.

(** [n.to_bytes(4, "big")] *)
Definition be4 (n : Z) : list Z := reverse (le_bytes 4 n).

(** ** Sealing *)

Section Seal.
Context `{Mac}.

Definition _bound (associated_data : pyval) : result journal_exn (list Z) :=
  match associated_data with
  | PBytes ad =>
      if (_MAX_ASSOCIATED_DATA <? length ad)%nat
      then Err (JPlain (ValueError "associated_data is limited"))
      else Ok (be4 (Z.of_nat (length ad)) ++ ad)
  | _ => Err (JPlain (TypeError "associated_data must be bytes"))
  end.

Definition _checked_key (key : pyval) : result journal_exn (list Z) :=
  match SnapshotAuth._key key with
  | Ok k => Ok k
  | Err (Plain e) => Err (JPlain e)
  | Err (SnapshotAuthenticationError m) => Err (JPlain (ValueError m))
  end.

Definition _seal (payload : list Z) (key associated_data : pyval) : result journal_exn (list Z) :=
  k ← _checked_key key;
  b ← _bound associated_data;
  Ok (_MAGIC ++ hmac_digest k (_MAGIC ++ b ++ payload) ++ payload).

Definition _open (blob : list Z) (key associated_data : pyval) : result journal_exn (list Z) :=
  secret ← _checked_key key;
  if (length blob <? length _MAGIC + _MAC_LEN)%nat || negb (starts_with _MAGIC blob)
  then Err (JournalError "not a signed pydeno agent journal")
  else
    let mac := take _MAC_LEN (drop (length _MAGIC) blob) in
    let payload := drop (length _MAGIC + _MAC_LEN) blob in
    b ← _bound associated_data;
    if negb (bool_decide (mac = hmac_digest secret (_MAGIC ++ b ++ payload)))
    then Err (JournalError "journal authentication failed")
    else Ok payload.

(** The messages the MAC is taken of. *)
Definition mac_message (ad payload : list Z) : list Z :=
  _MAGIC ++ (be4 (Z.of_nat (length ad)) ++ ad) ++ payload.

Lemma seal_shape payload key ad blob : _seal payload key ad = Ok blob <->
  exists k a, _checked_key key = Ok k /\ ad = PBytes a /\ (length a <= _MAX_ASSOCIATED_DATA)%nat /\
    blob = _MAGIC ++ hmac_digest k (mac_message a payload) ++ payload.
Proof.
  unfold _seal, mac_message. destruct (_checked_key key) as [k|]; cbn [mbind result_bind]; [|naive_solver].
  destruct ad as [| | | | | |a| | | | |]; cbn [_bound mbind result_bind]; try (split; [done|naive_solver]).
  destruct (_ <? _)%nat eqn:E; cbn [mbind result_bind].
  - apply Nat.ltb_lt in E. split; [done|]. intros (? & ? & ? & [= <-] & ? & _). lia.
  - apply Nat.ltb_ge in E. naive_solver.
Qed.

Lemma open_inv blob key ad payload : _open blob key ad = Ok payload -> _seal payload key ad = Ok blob.
Proof.
  unfold _open. intros (k & Hk & E)%result_bind_ok.
  destruct (_ || _) eqn:E1; [done|]. apply orb_false_iff in E1 as [E1 E2].
  apply Nat.ltb_ge in E1. apply negb_false_iff, starts_with_spec in E2 as [t ->].
  rewrite length_app in E1. apply result_bind_ok in E as (b & Hb & E).
  destruct (negb _) eqn:E3 in E; [done|]. apply negb_false_iff, bool_decide_eq_true in E3.
  apply Ok_inj in E. rewrite E, drop_app_length in E3.
  unfold _seal. rewrite Hk, Hb. cbn [mbind result_bind]. do 2 f_equal. rewrite <- E3, <- E.
  rewrite <- drop_drop, drop_app_length. apply take_drop.
Qed.

Lemma open_seal payload key ad blob : _seal payload key ad = Ok blob -> _open blob key ad = Ok payload.
Proof.
  intros Hs. pose proof Hs as (k & a & Hk & -> & Ha & ->)%seal_shape. unfold _open. rewrite Hk. cbn [mbind result_bind].
  rewrite (proj2 (Nat.ltb_ge _ _)) by (rewrite !length_app, hmac_digest_length; lia).
  rewrite (proj2 (starts_with_spec _ _)) by eauto. cbn [orb negb].
  rewrite drop_app_length, <- drop_drop, drop_app_length.
  rewrite take_app_exact, drop_app_exact by by rewrite hmac_digest_length.
  cbn [_bound]. rewrite (proj2 (Nat.ltb_ge _ _)) by done. cbn [mbind result_bind].
  by rewrite bool_decide_eq_true_2.
Qed.
End Seal.

(** ** The shape check *)

(** [d.get(k)] of a dict with string keys. *)
Fixpoint dict_get (k : list Z) (kvs : list (pyval * pyval)) : option pyval :=
  match kvs with
  | [] => None
  | (PStr k', v) :: kvs' => if bool_decide (k' = k) then Some v else dict_get k kvs'
  | _ :: kvs' => dict_get k kvs'
  end.

Definition get_or (d : pyval) (k : string) (kvs : list (pyval * pyval)) : pyval :=
  default d (dict_get (u k) kvs).

(** [value == n] for an int [n]; a bool and a float compare by their values. *)
Definition eq_int (v : pyval) (n : Z) : bool :=
  match v with
  | PInt z => z =? n
  | PBool b => (if b then 1 else 0) =? n
  | PFloat f => float_in n f n
  | _ => false
  end.

Definition is_str (v : pyval) : bool := match v with PStr _ => true | _ => false end.
Definition is_none (v : pyval) : bool := match v with PNone => true | _ => false end.
Definition str_in (v : pyval) (names : list string) : bool :=
  match v with PStr s => existsb (fun n => bool_decide (s = u n)) names | _ => false end.
Definition str_list (v : pyval) : bool := match v with PList l => forallb is_str l | _ => false end.
Definition plain_int (v : pyval) (p : Z -> bool) : bool := match v with PInt z => p z | _ => false end.

Definition word_start (c : Z) : bool := is_alpha c || (c =? chr "_").
Definition _SAFE_ERROR_NAME (s : list Z) : bool :=
  match s with
  | c :: cs => word_start c && (length cs <=? 63)%nat && forallb (fun c => word_start c || is_digit c) cs
  | [] => false
  end.

Definition hex_policy (v : pyval) : bool :=
  match v with
  | PStr s => (length s =? 64)%nat && forallb (fun c => is_digit c || ((97 <=? c) && (c <=? 102))) s
  | _ => false
  end.

Definition malformed (what : string) : journal_exn := JournalError what.

Definition check_config (config : list (pyval * pyval)) : result journal_exn unit :=
  let get := get_or PNone in
  let fails (b : bool) what := raise_if b (malformed what) in
  _ ← fails (negb (plain_int (get "clock_ms" config) (fun z => Z.abs z <=? 8640000000000000))) "clock";
  _ ← fails (negb (plain_int (get "random_seed" config) (fun z => (0 <=? z) && (z <? 2 ^ 31)))) "seed";
  let budget := get "max_tool_calls" config in
  _ ← fails (negb (is_none budget) && negb (plain_int budget (Z.leb 0))) "max_tool_calls";
  _ ← fails (negb (is_str (get "release" config))
             || negb (match get "redact" config with PBool _ => true | _ => false end)) "release or redact";
  let namespace := get "namespace" config in
  _ ← fails (negb (is_none namespace) && negb (is_str namespace)) "namespace";
  _ ← fails (negb (str_list (get "tools" config))) "tools";
  _ ← fails (negb (plain_int (get_or (PInt DEFAULT_MAX_RESULT_BYTES) "max_result_bytes" config) (Z.ltb 0)))
        "max_result_bytes";
  _ ← fails (negb (str_list (get_or (PList []) "catalog" config))) "catalog";
  let recorded_policy := get "gate_policy" config in
  _ ← fails (negb (is_none recorded_policy) && negb (hex_policy recorded_policy)) "gate_policy";
  _ ← fails (match dict_get (u "strict_eval") config with
             | None | Some (PBool true) => false
             | Some _ => true
             end) "strict_eval";
  fails (negb (str_in (get_or (PStr (u "function")) "mode" config) ["function"; "script"])) "mode".

(** A record, as the replay reads it. *)
Inductive record :=
| RRun (code : list Z)
| RLost (calls : Z) (reason : list Z)
| RObs (kind digest : list Z)
| RAnsV (value : pyval)
| RAnsE (cls message : list Z).

Definition check_record (r : pyval) : option record :=
  match r with
  | PList (PStr op :: rest) =>
      if bool_decide (op = u "run") then
        match rest with [PStr code] => Some (RRun code) | _ => None end
      else if bool_decide (op = u "lost") then
        match rest with
        | [PInt n; PStr reason] =>
            if (0 <=? n) && (n <=? _MAX_LOST_CALLS) && _SAFE_ERROR_NAME reason
            then Some (RLost n reason) else None
        | _ => None
        end
      else if bool_decide (op = u "obs") then
        match rest with
        | [PStr kind; PStr digest] =>
            if str_in (PStr kind) ["call"; "done"; "failed"] then Some (RObs kind digest) else None
        | _ => None
        end
      else if bool_decide (op = u "ans") then
        match rest with
        | [PStr tag; v] => if bool_decide (tag = u "v") then Some (RAnsV v) else None
        | [PStr tag; PStr cls; PStr message] =>
            if bool_decide (tag = u "e") then Some (RAnsE cls message) else None
        | _ => None
        end
      else None
  | _ => None
  end.

Fixpoint check_records (rs : list pyval) : result journal_exn (list record) :=
  match rs with
  | [] => Ok []
  | r :: rs' =>
      match check_record r with
      | None => Err (malformed "record")
      | Some r => rs' ← check_records rs'; Ok (r :: rs')
      end
  end.

Section Parse.
(** [json.loads] of the payload, or nothing where it raises. *)
Context `{Mac} (json_loads : list Z -> option pyval).

Definition _parse (payload : list Z) : result journal_exn (list (pyval * pyval) * list record) :=
  match json_loads payload with
  | None => Err (JournalError "journal is not valid JSON")
  | Some (PDict journal) =>
      if negb (eq_int (get_or PNone "format" journal) _JOURNAL_FORMAT) then Err (malformed "unknown format")
      else
        match get_or PNone "config" journal, get_or PNone "records" journal with
        | PDict config, PList records =>
            _ ← check_config config;
            records ← check_records records;
            Ok (config, records)
        | _, _ => Err (malformed "missing config or records")
        end
  | Some _ => Err (malformed "unknown format")
  end.

Definition _open_journal (blob key associated_data : pyval) (max_journal_bytes : Z)
    : result journal_exn (list (pyval * pyval) * list record) :=
  match blob with
  | PBytes data =>
      if max_journal_bytes * 2 + Z.of_nat (length _MAGIC + _MAC_LEN) + 4096 <? Z.of_nat (length data)
      then Err (JournalError "journal is larger than max_journal_bytes allows")
      else payload ← _open data key associated_data; _parse payload
  | _ => Err (JPlain (TypeError "blob must be bytes"))
  end.
End Parse.

(** ** Replay *)

(** A step: what a run stopped with.  [Failed] has the error's class, its message and the
    stable name [error_type] gives it. *)
Inductive Step :=
| ToolCall (name : list Z) (args : list pyval) (call_id session : Z)
| Done (value : pyval)
| Failed (cls message error_type : list Z).

Definition is_call (s : option Step) : bool := match s with Some (ToolCall _ _ _ _) => true | _ => false end.

(** The class [_error_class] makes, by its name. *)
Definition _error_class (name : list Z) : list Z := if _SAFE_ERROR_NAME name then name else u "Exception".

Section Replay.
(** The session that is driven: its state, what a run, an answer and a lost run do to it
    ([_start], [_resume], [_replay_lost]), the decoding of a recorded answer and the hash of
    an outcome. *)
Context {S V : Type} (start : S -> list Z -> result journal_exn (S * Step))
  (resume : S -> Step -> V + (list Z * list Z) -> result journal_exn (S * Step)) (charge : S -> Z -> list Z -> S)
  (_decode : pyval -> result journal_exn V) (_digest : list pyval -> list Z).

Definition _outcome (s : Step) : list Z * list Z :=
  match s with
  | ToolCall name args _ _ => (u "call", _digest [PStr (u "call"); PStr name; PList args])
  | Done value => (u "done", _digest [PStr (u "done"); value])
  | Failed cls message _ => (u "failed", _digest [PStr (u "failed"); PStr cls; PStr message])
  end.

(** The recorded answer, as the session gets it. *)
Definition answer (r : record) : result journal_exn (V + (list Z * list Z)) :=
  match r with
  | RAnsV v => inl <$> _decode v
  | RAnsE cls message => Ok (inr (_error_class cls, message))
  | _ => Err (JournalError "not an answer")
  end.

(** Apply an input; [step] is the call an answer belongs to. *)
Definition feed (input : record) (step : option Step) (s : S) : result journal_exn (S * Step) :=
  match input, step with
  | RRun code, _ => start s code
  | _, Some st => v ← answer input; resume s st v
  | _, None => Err (JPlain (AssertionError "isinstance(step, ToolCall)"))
  end.

(** [_replay] driving [_replay_plan]: [step] is the last step, [pending] the input whose
    outcome comes next. *)
Fixpoint _replay_plan (index : nat) (records : list record) (step : option Step)
    (pending : option record) (s : S) : result journal_exn (S * option Step) :=
  match records with
  | [] =>
      match pending with
      | Some _ => Err (JournalError "the journal ends with an input that has no outcome")
      | None => Ok (s, step)
      end
  | r :: records =>
      let next := Datatypes.S index in
      let busy := (match pending with Some _ => true | None => false end) in
      match r with
      | RLost calls reason =>
          if busy || is_call step then Err (JournalError "a lost run in the middle of another one")
          else _replay_plan next records None None (charge s calls reason)
      | RRun _ =>
          if busy || is_call step then Err (JournalError "a run starts before the last one ended")
          else _replay_plan next records step (Some r) s
      | RAnsV _ | RAnsE _ _ =>
          if busy || negb (is_call step) then Err (JournalError "an answer with no tool call to answer")
          else _replay_plan next records step (Some r) s
      | RObs kind digest =>
          match pending with
          | None => Err (JournalError "an outcome with no input before it")
          | Some input =>
              '(s, st) ← feed input step s;
              if bool_decide (_outcome st = (kind, digest))
              then _replay_plan next records (Some st) None s
              else Err (ReplayDivergence index)
          end
      end
  end.

(** The specification: a journal is a sequence of lost runs and of runs, each an input
    and its outcome, answered as long as it stops at a tool call; and the session does at
    each input exactly what was recorded. *)
Inductive replays : S -> option Step -> list record -> S -> option Step -> Prop :=
| replays_end s step : replays s step [] s step
| replays_lost s step calls reason rs s' step' :
    is_call step = false -> replays (charge s calls reason) None rs s' step' ->
    replays s step (RLost calls reason :: rs) s' step'
| replays_run s step code s1 st rs s' step' :
    is_call step = false -> start s code = Ok (s1, st) -> replays s1 (Some st) rs s' step' ->
    replays s step (RRun code :: RObs (_outcome st).1 (_outcome st).2 :: rs) s' step'
| replays_answer s call r v s1 st rs s' step' :
    is_call (Some call) = true -> answer r = Ok v -> resume s call v = Ok (s1, st) -> replays s1 (Some st) rs s' step' ->
    replays s (Some call) (r :: RObs (_outcome st).1 (_outcome st).2 :: rs) s' step'.

Lemma outcome_pair st kind digest : _outcome st = (kind, digest) ->
  RObs kind digest = RObs (_outcome st).1 (_outcome st).2.
Proof. by intros ->. Qed.

Lemma replay_complete s step rs s' step' : replays s step rs s' step' ->
  forall index, _replay_plan index rs step None s = Ok (s', step').
Proof.
  induction 1 as [s step|s step calls reason rs s' step' Hc _ IH|s step code s1 st rs s' step' Hc Hs _ IH
    |s call r v s1 st rs s' step' Hc Ha Hr _ IH]; intros index.
  - done.
  - cbn. by rewrite Hc.
  - cbn. rewrite Hc, Hs. cbn. rewrite bool_decide_eq_true_2 by by destruct (_outcome st). done.
  - destruct r; try done; cbn [_replay_plan negb orb feed]; rewrite Hc; cbn [negb orb]; rewrite Ha;
      cbn [mbind result_bind]; rewrite Hr; cbn [mbind result_bind];
      (rewrite bool_decide_eq_true_2; [apply IH|by destruct (_outcome st)]).
Qed.

Lemma replay_sound n : forall rs index step s s' step', (length rs <= n)%nat ->
  _replay_plan index rs step None s = Ok (s', step') -> replays s step rs s' step'.
Proof.
  induction n as [|n IH]; intros [|r rs] index step s s' step' Hn E; cbn in Hn; try lia;
    try (cbn in E; simplify_eq; constructor).
  assert (Hobs : forall k, _replay_plan k rs step (Some r) s = Ok (s', step') ->
    exists kind digest rs' s1 st, rs = RObs kind digest :: rs' /\ feed r step s = Ok (s1, st) /\
      _outcome st = (kind, digest) /\ replays s1 (Some st) rs' s' step').
  { intros k Ek. destruct rs as [|o rs']; cbn in Ek; [done|]. destruct o; cbn in Ek; try done.
    apply result_bind_ok in Ek as ([s1 st] & Hf & Ek). case_bool_decide; [|done].
    exists kind, digest, rs', s1, st. split_and!; try done. eapply (IH rs'); [cbn in Hn; lia|done]. }
  assert (Hans : forall v, answer r = v -> is_call step = true ->
    (forall k, feed r (Some k) s = v' ← v; resume s k v') ->
    forall k, _replay_plan k rs step (Some r) s = Ok (s', step') -> replays s step (r :: rs) s' step').
  { intros v Hv Hc Hfeed k Ek. destruct (Hobs _ Ek) as (kd & d' & rs' & s1 & st & -> & Hf & Ho & Hr).
    destruct step as [call|]; [|done]. rewrite Hfeed in Hf. apply result_bind_ok in Hf as (a & Ha & Hf).
    rewrite (outcome_pair _ _ _ Ho). eapply replays_answer; [done|by rewrite Hv|done|done]. }
  cbn in E. destruct r as [code|calls reason|kind digest|v|cls message]; cbn in E.
  - destruct (is_call step) eqn:Hc; [done|]. destruct (Hobs _ E) as (k & d & rs' & s1 & st & -> & Hf & Ho & Hr).
    rewrite (outcome_pair _ _ _ Ho). by eapply replays_run.
  - destruct (is_call step) eqn:Hc; [done|]. apply replays_lost; [done|]. eapply IH; [lia|done].
  - done.
  - destruct (is_call step) eqn:Hc; [|done]. eapply Hans; [reflexivity|done|reflexivity|exact E].
  - destruct (is_call step) eqn:Hc; [|done]. eapply Hans; [reflexivity|done|reflexivity|exact E].
Qed.
End Replay.
