(* ===== verification/JournalProps.v ===== *)
(** * Properties of signed journals

    A journal opens exactly when it was sealed, for the data it was bound to; a replay
    accepts exactly the journals whose every outcome the session reproduces. *)

From S2P Require Import Prelude Utf8 PyVal PyStr Sha256 SnapshotAuth Journal.

(** ** Sealing *)

Lemma be4_inj a b : 0 <= a < 256 ^ 4 -> 0 <= b < 256 ^ 4 -> be4 a = be4 b -> a = b.
Proof.
  unfold be4. intros Ha Hb E%(inj reverse).
  rewrite <- (le_int_le_bytes 4 a), <- (le_int_le_bytes 4 b) by done. by rewrite E.
Qed.

(** The MAC's message determines the associated data and the payload. *)
Lemma mac_message_inj a p a' p' :
  (length a <= _MAX_ASSOCIATED_DATA)%nat -> (length a' <= _MAX_ASSOCIATED_DATA)%nat ->
  mac_message a p = mac_message a' p' -> a = a' /\ p = p'.
Proof.
  intros Ha Ha' E. unfold mac_message in E. apply app_inv_head in E. rewrite <- !app_assoc in E.
  apply app_inj_1 in E as [El E]; [|by unfold be4; rewrite !length_reverse, !le_bytes_length].
  unfold _MAX_ASSOCIATED_DATA in *.
  apply be4_inj in El; [|change (256 ^ 4) with 4294967296; lia..]. apply Nat2Z.inj in El.
  by apply app_inj_1 in E.
Qed.

Lemma seal_opens `{Mac} blob key ad payload : _open blob key ad = Ok payload <-> _seal payload key ad = Ok blob.
Proof. split; [apply open_inv|apply open_seal]. Qed.

(** Two messages with one digest. *)
Definition collision `{Mac} (k : list Z) : Prop :=
  exists m m', m <> m' /\ hmac_digest k m = hmac_digest k m'.

Lemma sealed_bound `{Mac} blob key k a p a' p' : _checked_key key = Ok k ->
  _seal p' key (PBytes a') = Ok blob -> _open blob key (PBytes a) = Ok p ->
  p = p' /\ (a = a' \/ collision k).
Proof.
  intros Hk Hs Ho. apply seal_opens in Ho. rewrite seal_shape in Hs, Ho.
  destruct Hs as (k1 & a1 & Hk1 & [= <-] & Ha' & ->). destruct Ho as (k2 & a2 & Hk2 & [= <-] & Ha & E).
  rewrite Hk in Hk1, Hk2. simplify_eq. apply app_inj_1 in E as [Em <-]; [|by rewrite !hmac_digest_length].
  split; [done|]. destruct (decide (a = a')) as [->|Hne]; [by left|right].
  exists (mac_message a p'), (mac_message a' p'). split; [|done].
  intros E. by apply mac_message_inj in E as [? _].
Qed.

(** A journal opens if and only if the blob is exactly what sealing its payload gives
    with the same key and the same associated data, so a cut, extended or altered blob is
    refused and every sealed one is read back; and a signed V8 snapshot is never taken for a
    journal, whatever the keys. *)
Theorem journal_open_exact `{Mac} blob key ad payload :
  (_open blob key ad = Ok payload <-> _seal payload key ad = Ok blob) /\
  forall identity snapshot key', sign_snapshot identity (PBytes snapshot) key' = Ok blob ->
    _open blob key ad <> Ok payload.
Proof.
  split; [apply seal_opens|]. intros identity snapshot key' Hs Ho.
  apply sign_shape in Hs as (engine & k & _ & _ & ->). apply seal_opens, seal_shape in Ho as (? & ? & _ & _ & _ & E).
  apply (f_equal (take 10)) in E. done.
Qed.

(** A journal is bound to the data it was sealed for: opened with other associated
    data (another owner, session or counter) it fails, unless HMAC itself has a collision
    under the key; opened successfully it gives the sealed payload. *)
Theorem journal_bound_to_data `{Mac} blob key a p a' p' :
  _seal p' key (PBytes a') = Ok blob -> _open blob key (PBytes a) = Ok p ->
  exists k, _checked_key key = Ok k /\ p = p' /\ (a = a' \/ collision k).
Proof.
  intros Hs Ho. pose proof Hs as (k & ? & Hk & _)%seal_shape. exists k.
  split; [done|]. by eapply sealed_bound.
Qed.

(** A cheap instance of the interface, for concrete runs. *)
#[local] Instance w_mac : Mac | 0.
Proof.
  refine {| hmac_digest k msg := take 32 (msg ++ k ++ replicate 32 0) |}.
  intros k msg. rewrite length_take, !length_app, length_replicate. unfold _MAC_LEN. lia.
Defined.

Definition w_key : pyval := PBytes (replicate 16 7).

Lemma journal_bound_to_data_witness : exists blob,
  _seal [1; 2; 3] w_key (PBytes [9]) = Ok blob /\
  exists k, _checked_key w_key = Ok k /\ [1; 2; 3] = [1; 2; 3] /\ ([9] = [9] \/ collision k).
Proof.
  destruct (_seal [1; 2; 3] w_key (PBytes [9])) as [blob|e] eqn:E; [|vm_compute in E; discriminate].
  exists blob. split; [reflexivity|]. apply (journal_bound_to_data blob w_key [9] [1; 2; 3] [9] [1; 2; 3] E).
  apply seal_opens. exact E.
Defined.

(** ** Replay *)

(** Replaying a journal succeeds, with a given final state and step, if and only if
    the records are a well-formed sequence of runs, answers to the tool calls they stop at,
    and lost runs, and the session does at every input exactly what was recorded: nothing
    else is accepted, and no tool other than through its recorded answer is involved. *)
Theorem replay_plan_exact {S V : Type} (start : S -> list Z -> result journal_exn (S * Step))
  (resume : S -> Step -> V + (list Z * list Z) -> result journal_exn (S * Step)) (charge : S -> Z -> list Z -> S)
  (_decode : pyval -> result journal_exn V) (_digest : list pyval -> list Z) records s s' step :
  _replay_plan start resume charge _decode _digest 0 records None None s = Ok (s', step) <->
  replays start resume charge _decode _digest s None records s' step.
Proof.
  split; [by apply (replay_sound _ _ _ _ _ (length records))|intros; by apply replay_complete].
Qed.
