(* ===== verification/JournalValue.v ===== *)
(** * Values in a journal ([python/pydeno/_agent.py], [_encode], [_decode], [_digest])

    The tagged JSON form of a tool's answer and the hash of an outcome.  Of Python, the text of
    large integers, of floats and of datetimes, base64 and JSON text are the interface [TextForms], with the round trips its
    documentation promises.  [PObj] stands for a datetime where [isoformat] has a text for it
    and for the classes outside the vocabulary otherwise. *)

From S2P Require Import Prelude Utf8 PyVal PyStr Sha256 Journal.
From Stdlib Require Import Floats.SpecFloat.

Class TextForms := {
  int_str : Z -> result journal_exn (list Z);
  py_int : pyval -> result journal_exn Z;
  py_float : pyval -> result journal_exn spec_float;
  b64encode : list Z -> list Z;
  b64decode : pyval -> result journal_exn (list Z);
  isoformat : string -> option (list Z);
  fromisoformat : pyval -> result journal_exn string;
  json_sorted : pyval -> list Z;
  json_compact : pyval -> list Z;
  py_int_str : forall z s, int_str z = Ok s -> py_int (PStr s) = Ok z;
  py_float_special : py_float (PStr (u "nan")) = Ok S754_nan /\ py_float (PStr (u "inf")) = Ok (S754_infinity false) /\
    py_float (PStr (u "-inf")) = Ok (S754_infinity true) /\ py_float (PStr (u "-0.0")) = Ok (S754_zero true);
  b64_inv : forall bs, b64decode (PStr (b64encode bs)) = Ok bs;
  fromisoformat_inv : forall o s, isoformat o = Some s -> fromisoformat (PStr s) = Ok o
}.

Definition type_error {A} (msg : string) : result journal_exn A := Err (JPlain (TypeError msg)).

(** [repr] of the floats JSON has no number for. *)
Definition special_repr (f : spec_float) : option (list Z) :=
  match f with
  | S754_nan => Some (u "nan")
  | S754_infinity s => Some (if s then u "-inf" else u "inf")
  | S754_zero true => Some (u "-0.0")
  | _ => None
  end.

Definition tagged (tag : string) (v : pyval) : pyval := PDict [(PStr (u "$"), PStr (u tag)); (PStr (u "v"), v)].

(** Depths 0 to 200. *)
Definition max_levels : nat := 201.

Section Codec.
Context `{TextForms}.

(** [for x in l: f(x)], stopping at the first that raises. *)
Fixpoint each {A B} (f : A -> result journal_exn B) (l : list A) : result journal_exn (list B) :=
  match l with
  | [] => Ok []
  | x :: l' => y ← f x; ys ← each f l'; Ok (y :: ys)
  end.

(** [members.sort(key=lambda m: json.dumps(m, sort_keys=True))] *)
Fixpoint text_le (a b : list Z) : bool :=
  match a, b with
  | [], _ => true
  | _ :: _, [] => false
  | x :: a', y :: b' => (x <? y) || ((x =? y) && text_le a' b')
  end.
Fixpoint insert_by (m : pyval) (l : list pyval) : list pyval :=
  match l with
  | [] => [m]
  | m' :: l' => if text_le (json_sorted m) (json_sorted m') then m :: l else m' :: insert_by m l'
  end.
Definition sort_members (l : list pyval) : list pyval := foldr insert_by [] l.

(** [room]: the levels left of the two hundred. *)
Fixpoint _encode (canonical : bool) (room : nat) (value : pyval) : result journal_exn pyval :=
  match room with
  | O => type_error "value is nested too deeply"
  | S room =>
      match value with
      | PNone | PBool _ | PStr _ => Ok value
      | PInt z => if Z.abs z <? 2 ^ 53 then Ok value else s ← int_str z; Ok (tagged "int" (PStr s))
      | PFloat f => match special_repr f with None => Ok value | Some s => Ok (tagged "f" (PStr s)) end
      | PUndefined => Ok (PDict [(PStr (u "$"), PStr (u "u"))])
      | PBytes bs => Ok (tagged "b" (PStr (b64encode bs)))
      | PList l | PTuple l => ms ← each (_encode canonical room) l; Ok (PList ms)
      | PSet l => ms ← each (_encode canonical room) l; Ok (tagged "set" (PList (if canonical then sort_members ms else ms)))
      | PDict kvs =>
          ms ← each (fun '(k, v) => k ← _encode canonical room k; v ← _encode canonical room v; Ok (PList [k; v])) kvs;
          Ok (tagged "d" (PList ms))
      | PObj o =>
          match isoformat o with
          | Some s => Ok (tagged "dt" (PStr s))
          | None => type_error "cannot cross into the sandbox"
          end
      end
  end.

(** Hashing and equality of what a decoded key can be. *)
Definition hashable (v : pyval) : bool :=
  match v with PList _ | PSet _ | PDict _ => false | _ => true end.

Definition as_number (v : pyval) : option (Z + spec_float) :=
  match v with PInt z => Some (inl z) | PBool b => Some (inl (Z.b2z b)) | PFloat f => Some (inr f) | _ => None end.

Definition atom_eq (a b : pyval) : bool :=
  match as_number a, as_number b with
  | Some (inl x), Some (inl y) => x =? y
  | Some (inl x), Some (inr f) | Some (inr f), Some (inl x) => float_in x f x
  | Some (inr f), Some (inr g) => SFeqb f g
  | None, None =>
      match a, b with
      | PStr s, PStr t => bool_decide (s = t)
      | PBytes s, PBytes t => bool_decide (s = t)
      | PObj s, PObj t => bool_decide (s = t)
      | PNone, PNone | PUndefined, PUndefined => true
      | _, _ => false
      end
  | _, _ => false
  end.

Definition set_add (l : list pyval) (x : pyval) : result journal_exn (list pyval) :=
  if negb (hashable x) then type_error "unhashable type"
  else Ok (if existsb (atom_eq x) l then l else l ++ [x]).

Fixpoint dict_put (k v : pyval) (kvs : list (pyval * pyval)) : list (pyval * pyval) :=
  match kvs with
  | [] => [(k, v)]
  | (k', v') :: kvs' => if atom_eq k k' then (k', v) :: kvs' else (k', v') :: dict_put k v kvs'
  end.
Definition dict_add (kvs : list (pyval * pyval)) (k v : pyval) : result journal_exn (list (pyval * pyval)) :=
  if negb (hashable k) then type_error "unhashable type" else Ok (dict_put k v kvs).

Fixpoint fold_result {A B} (f : B -> A -> result journal_exn B) (l : list A) (acc : B) : result journal_exn B :=
  match l with [] => Ok acc | x :: l' => acc ← f acc x; fold_result f l' acc end.

(** Iterating over a JSON value. *)
Definition items_of (v : pyval) : result journal_exn (list pyval) :=
  match v with
  | PList l => Ok l
  | PDict kvs => Ok kvs.*1
  | PStr s => Ok ((fun c => PStr [c]) <$> s)
  | _ => type_error "object is not iterable"
  end.
(** [k, v = item] *)
Definition pair_of (item : pyval) : result journal_exn (pyval * pyval) :=
  l ← items_of item; match l with [a; b] => Ok (a, b) | _ => Err (JPlain (ValueError "unpacking")) end.

Definition field (name : string) (kvs : list (pyval * pyval)) : result journal_exn pyval :=
  match dict_get (u name) kvs with Some v => Ok v | None => Err (JPlain (KeyError "v")) end.

Definition tag_is (tag : string) (kvs : list (pyval * pyval)) : bool :=
  match dict_get (u "$") kvs with Some (PStr t) => bool_decide (t = u tag) | _ => false end.

(** [fuel]: levels of the node. *)
Fixpoint decode_fuel (fuel : nat) (node : pyval) : result journal_exn pyval :=
  match fuel with
  | O => Err (JournalError "malformed value in journal")
  | S fuel =>
      match node with
      | PNone | PBool _ | PInt _ | PFloat _ | PStr _ => Ok node
      | PList l => PList <$> each (decode_fuel fuel) l
      | PDict kvs =>
          if tag_is "int" kvs then v ← field "v" kvs; PInt <$> py_int v
          else if tag_is "f" kvs then v ← field "v" kvs; PFloat <$> py_float v
          else if tag_is "u" kvs then Ok PUndefined
          else if tag_is "b" kvs then v ← field "v" kvs; PBytes <$> b64decode v
          else if tag_is "dt" kvs then v ← field "v" kvs; PObj <$> fromisoformat v
          else if tag_is "set" kvs then
            v ← field "v" kvs; l ← items_of v;
            PSet <$> fold_result (fun acc x => x ← decode_fuel fuel x; set_add acc x) l []
          else if tag_is "d" kvs then
            v ← field "v" kvs; l ← items_of v;
            PDict <$> fold_result (fun acc item =>
                        '(k, v) ← pair_of item; k ← decode_fuel fuel k; v ← decode_fuel fuel v; dict_add acc k v) l []
          else Err (JournalError "malformed value in journal")
      | _ => Err (JournalError "malformed value in journal")
      end
  end.

Fixpoint maximum (l : list nat) : nat := match l with [] => 0%nat | n :: l' => Nat.max n (maximum l') end.

Fixpoint levels (v : pyval) : nat :=
  match v with
  | PList l | PTuple l | PSet l => S (maximum (levels <$> l))
  | PDict kvs => S (maximum ((fun '(k, v) => Nat.max (levels k) (levels v)) <$> kvs))
  | _ => 1%nat
  end.

Definition _decode (node : pyval) : result journal_exn pyval := decode_fuel (levels node) node.

(** The type's name, for a value outside the vocabulary. *)
Definition type_name (v : pyval) : list Z := match v with PObj cls => u cls | _ => u "?" end.
Definition digest_part (v : pyval) : result journal_exn pyval :=
  match _encode true max_levels v with
  | Err (JPlain (TypeError _)) => Ok (tagged "?" (PStr (type_name v)))
  | r => r
  end.
Definition _digest (parts : list pyval) : result journal_exn (list Z) :=
  parts ← each digest_part parts; Ok (sha256_hex (json_compact (PList parts))).
End Codec.

(** ** The round trip *)

(** A key or a set member that stays hashable in a journal: a scalar, or a date. *)
Definition atom (v : pyval) : bool :=
  match v with PNone | PUndefined | PBool _ | PInt _ | PFloat _ | PStr _ | PBytes _ | PObj _ => true | _ => false end.

(** No two equal ones, as in a Python set or dict. *)
Fixpoint distinct (l : list pyval) : bool :=
  match l with [] => true | x :: l' => forallb (fun y => negb (atom_eq y x)) l' && distinct l' end.

Fixpoint portable (v : pyval) : bool :=
  match v with
  | PList l | PTuple l => forallb portable l
  | PSet l => forallb atom l && distinct l
  | PDict kvs => forallb (fun '(k, v) => atom k && portable v) kvs && distinct kvs.*1
  | _ => true
  end.

(** What Python data is always: the members of a set and the keys of a dict differ. *)
Fixpoint well_built (v : pyval) : bool :=
  match v with
  | PList l | PTuple l => forallb well_built l
  | PSet l => forallb well_built l && distinct l
  | PDict kvs => forallb (fun '(k, v) => well_built k && well_built v) kvs && distinct kvs.*1
  | _ => true
  end.

(** Tuples come back as lists. *)
Fixpoint untuple (v : pyval) : pyval :=
  match v with
  | PList l | PTuple l => PList (untuple <$> l)
  | PDict kvs => PDict ((fun '(k, v) => (k, untuple v)) <$> kvs)
  | _ => v
  end.

Section RoundTrip.
Context `{TextForms}.

Lemma each_Forall2 {A B} (f : A -> result journal_exn B) l ms : each f l = Ok ms <-> Forall2 (fun x y => f x = Ok y) l ms.
Proof.
  revert ms. induction l as [|x l IH]; intros ms; cbn.
  - split; [by intros [= <-]|by intros ->%Forall2_nil_inv_l].
  - rewrite result_bind_ok. split.
    + intros (y & Hy & E). apply result_bind_ok in E as (ys & Hys & [= <-]). constructor; [done|by apply IH].
    + intros (y & ms' & Hy & Hms & ->)%Forall2_cons_inv_l. exists y. split; [done|]. apply result_bind_ok. exists ms'. split; [by apply IH|done].
Qed.

Lemma decode_each n l ms : Forall2 (fun v m => forall k, (levels m <= k)%nat -> decode_fuel k m = Ok (untuple v)) l ms ->
  (maximum (levels <$> ms) <= n)%nat -> each (decode_fuel n) ms = Ok (untuple <$> l).
Proof.
  intros Hf Hn. apply each_Forall2. induction Hf as [|v m l ms Hv Hf IH]; [constructor|]. rewrite fmap_cons in *. cbn in Hn.
  constructor; [apply Hv; lia|apply IH; lia].
Qed.

Lemma atom_untuple v : atom v = true -> untuple v = v.
Proof. by destruct v. Qed.
Lemma atom_hashable v : atom v = true -> hashable v = true.
Proof. by destruct v. Qed.

(** [x] is equal to no member of [acc]. *)
Definition apart (acc : list pyval) (x : pyval) : Prop := existsb (atom_eq x) acc = false.

Lemma distinct_apart acc l : (forall x, x ∈ l -> apart acc x) -> distinct l = true ->
  match l with [] => True | x :: l' => (forall y, y ∈ l' -> apart (acc ++ [x]) y) /\ distinct l' = true end.
Proof.
  destruct l as [|x l]; [done|]. cbn. intros Ha [Hx Hd]%andb_true_iff. split; [|done]. intros y Hy. unfold apart.
  rewrite existsb_app. cbn. rewrite (Ha y) by (by right). cbn. rewrite orb_false_r. rewrite forallb_forall in Hx.
  by apply negb_true_iff, Hx, list_elem_of_In.
Qed.

Lemma decode_set n l ms acc : Forall2 (fun v m => forall k, (levels m <= k)%nat -> decode_fuel k m = Ok (untuple v)) l ms ->
  (maximum (levels <$> ms) <= n)%nat -> forallb atom l = true -> distinct l = true -> (forall x, x ∈ l -> apart acc x) ->
  fold_result (fun acc x => x ← decode_fuel n x; set_add acc x) ms acc = Ok (acc ++ l).
Proof.
  intros Hf. revert acc. induction Hf as [|v m l ms Hv Hf IH]; intros acc Hn Ha Hd Hap; cbn [fold_result]; [by rewrite app_nil_r|].
  cbn in Hn, Ha. apply andb_true_iff in Ha as [Ha1 Ha2]. rewrite (Hv n) by lia. cbn [mbind result_bind].
  rewrite (atom_untuple v Ha1). unfold set_add. rewrite (atom_hashable v Ha1). cbn [negb].
  rewrite (Hap v) by (left). cbn [mbind result_bind]. apply distinct_apart with (acc := acc) in Hd as [Hd1 Hd2]; [|done].
  rewrite IH; [by rewrite <- app_assoc|lia|done|done|done].
Qed.

Lemma dict_put_new k v acc : apart acc.*1 k -> dict_put k v acc = acc ++ [(k, v)].
Proof.
  unfold apart. induction acc as [|[k' v'] acc IH]; cbn; [done|]. intros [E1 E2]%orb_false_iff. rewrite E1. by rewrite IH.
Qed.

Lemma decode_dict n kvs ms (acc : list (pyval * pyval)) :
  Forall2 (fun '(k, v) m => exists a b, m = PList [a; b] /\
    (forall j, (levels a <= j)%nat -> decode_fuel j a = Ok (untuple k)) /\ (forall j, (levels b <= j)%nat -> decode_fuel j b = Ok (untuple v))) kvs ms ->
  (maximum (levels <$> ms) <= S n)%nat -> forallb (fun '(k, v) => atom k && portable v) kvs = true ->
  distinct kvs.*1 = true -> (forall x, x ∈ kvs.*1 -> apart acc.*1 x) ->
  fold_result (fun acc item => '(k, v) ← pair_of item; k ← decode_fuel n k; v ← decode_fuel n v; dict_add acc k v) ms acc =
    Ok (acc ++ ((fun '(k, v) => (k, untuple v)) <$> kvs)).
Proof.
  intros Hf. revert acc. induction Hf as [|[k v] m kvs ms (a & b & -> & Hk & Hv) Hf IH]; intros acc Hn Ha Hd Hap; cbn [fold_result]; [by rewrite app_nil_r|].
  cbn [fmap list_fmap fst maximum levels forallb] in Hn, Ha, Hd, Hap. apply andb_true_iff in Ha as [[Ha1 _]%andb_true_iff Ha2].
  cbn [pair_of items_of mbind result_bind]. rewrite (Hk n), (Hv n) by lia. cbn [mbind result_bind].
  rewrite (atom_untuple k Ha1). unfold dict_add. rewrite (atom_hashable k Ha1). cbn [negb mbind result_bind].
  rewrite dict_put_new by (apply Hap; left).
  apply (distinct_apart acc.*1 (k :: kvs.*1)) in Hd as [Hd1 Hd2]; [|done].
  rewrite IH; [by rewrite fmap_cons, <- app_assoc|lia|done|done|]. intros x Hx. rewrite fmap_app. by apply Hd1.
Qed.

Lemma tag_field tag v : tag_is tag [(PStr (u "$"), PStr (u tag)); (PStr (u "v"), v)] = true /\
  field "v" [(PStr (u "$"), PStr (u tag)); (PStr (u "v"), v)] = Ok v.
Proof. split; [unfold tag_is; cbn [dict_get]; rewrite bool_decide_true by done; by rewrite bool_decide_true|]. by vm_compute. Qed.

Lemma Forall2_with {A B} (P Q : A -> Prop) (R S : A -> B -> Prop) l (ms : list B) :
  Forall2 R l ms -> (forall x, x ∈ l -> P x) -> (forall x y, P x -> R x y -> S x y) -> Forall2 S l ms.
Proof.
  intros Hf. induction Hf as [|x y l ms Hr Hf IH]; intros HP HS; constructor.
  - apply HS; [apply HP; left|done].
  - apply IH; [|done]. intros z Hz. apply HP. by right.
Qed.

Lemma decode_encode room v enc n : _encode false room v = Ok enc -> portable v = true -> (levels enc <= n)%nat ->
  decode_fuel n enc = Ok (untuple v).
Proof.
  revert v enc n. induction room as [|room IH]; [done|]. intros v enc n E Hp Hn.
  destruct n as [|n]; [destruct enc; cbn in Hn; lia|].
  assert (Hlist : forall l ms, each (_encode false room) l = Ok ms -> (forall x, x ∈ l -> portable x = true) ->
    Forall2 (fun v m => forall k, (levels m <= k)%nat -> decode_fuel k m = Ok (untuple v)) l ms).
  { intros l ms Hl%each_Forall2 Hx. eapply (Forall2_with (fun x => portable x = true)); [exact (fun _ => True)|exact Hl|done|].
    intros x y Hpx Hxy k Hk. by eapply IH. }
  assert (Hin : forall (f : pyval -> bool) l x, forallb f l = true -> x ∈ l -> f x = true).
  { intros f l x Hf Hx. rewrite forallb_forall in Hf. by apply Hf, list_elem_of_In. }
  destruct v as [| |b|z|f|s|bs|l|l|l|kvs|cls]; cbn [_encode] in E; try (by simplify_eq); cbn [portable] in Hp; try done.
  - destruct (Z.abs z <? 2 ^ 53); [by simplify_eq|]. apply result_bind_ok in E as (s & Hs & [= <-]).
    cbn [decode_fuel tagged]. destruct (tag_field "int" (PStr s)) as [-> ->]. cbn [mbind result_bind]. by rewrite (py_int_str _ _ Hs).
  - destruct py_float_special as (F1 & F2 & F3 & F4).
    destruct (special_repr f) as [s|] eqn:Es; [|by simplify_eq]. injection E as <-. cbn [decode_fuel tagged].
    change (tag_is "int" _) with false. cbn match. destruct (tag_field "f" (PStr s)) as [-> ->]. cbn [mbind result_bind].
    destruct f as [[]|[]| |]; cbn [special_repr] in Es; try discriminate Es; injection Es as <-; cbn [untuple]; rewrite ?F1, ?F2, ?F3, ?F4; reflexivity.
  - injection E as <-. cbn [decode_fuel tagged]. change (tag_is "int" _) with false. change (tag_is "f" _) with false. change (tag_is "u" _) with false.
    cbn match. destruct (tag_field "b" (PStr (b64encode bs))) as [-> ->]. cbn [mbind result_bind]. by rewrite b64_inv.
  - apply result_bind_ok in E as (ms & Hms & [= <-]). cbn [levels] in Hn. cbn [decode_fuel untuple].
    erewrite decode_each; [done|apply Hlist; [done|intros x; by apply Hin]|lia].
  - apply result_bind_ok in E as (ms & Hms & [= <-]). cbn [levels] in Hn. cbn [decode_fuel untuple].
    erewrite decode_each; [done|apply Hlist; [done|intros x; by apply Hin]|lia].
  - apply result_bind_ok in E as (ms & Hms & [= <-]). apply andb_true_iff in Hp as [Ha Hd]. cbn [decode_fuel tagged].
    change (tag_is "int" _) with false. change (tag_is "f" _) with false. change (tag_is "u" _) with false. change (tag_is "b" _) with false.
    change (tag_is "dt" _) with false. cbn match.
    destruct (tag_field "set" (PList ms)) as [-> ->]. cbn [mbind result_bind items_of]. cbn [levels tagged fmap list_fmap maximum] in Hn.
    erewrite (decode_set n l ms []); [done|apply Hlist; [done|]|lia|done|done|done].
    intros x Hx. specialize (Hin _ _ _ Ha Hx). by destruct x.
  - apply result_bind_ok in E as (ms & Hms & [= <-]). apply andb_true_iff in Hp as [Ha Hd]. cbn [decode_fuel tagged].
    change (tag_is "int" _) with false. change (tag_is "f" _) with false. change (tag_is "u" _) with false. change (tag_is "b" _) with false.
    change (tag_is "dt" _) with false. change (tag_is "set" _) with false. cbn match.
    destruct (tag_field "d" (PList ms)) as [-> ->]. cbn [mbind result_bind items_of]. cbn [levels tagged fmap list_fmap maximum] in Hn.
    erewrite (decode_dict n kvs ms []); [done| |lia|done|done|done].
    apply each_Forall2 in Hms. eapply (Forall2_with (fun '(k, v) => atom k = true /\ portable v = true)); [exact (fun _ => True)|exact Hms| |].
    + intros [k x] Hx. rewrite forallb_forall in Ha. apply list_elem_of_In in Hx. specialize (Ha _ Hx). by apply andb_true_iff in Ha.
    + intros [k x] m [Hk Hx] E. apply result_bind_ok in E as (a & Ea & E). apply result_bind_ok in E as (b & Eb & [= <-]).
      exists a, b. split; [done|]. split; intros j Hj; (eapply IH; [done| |done]); [by destruct k|done].
  - destruct (isoformat cls) as [s|] eqn:Es; [|done]. injection E as <-. cbn [decode_fuel tagged].
    change (tag_is "int" _) with false. change (tag_is "f" _) with false. change (tag_is "u" _) with false. change (tag_is "b" _) with false. cbn match.
    destruct (tag_field "dt" (PStr s)) as [-> ->]. cbn [mbind result_bind]. by rewrite (fromisoformat_inv _ _ Es).
Qed.

(** What is encoded and decodes again is portable: a key or a member that is a container comes
    back as one that cannot be hashed. *)
Lemma each_portable (room n : nat) l ms ys : (forall v enc n y, _encode false room v = Ok enc -> (levels enc <= n)%nat -> decode_fuel n enc = Ok y ->
    well_built v = true -> portable v = true) ->
  each (_encode false room) l = Ok ms -> (maximum (levels <$> ms) <= n)%nat -> each (decode_fuel n) ms = Ok ys -> forallb well_built l = true -> forallb portable l = true.
Proof.
  intros IH He%each_Forall2 Hn Hd Hw. revert n ys Hn Hd Hw. induction He as [|v m l ms Hv He IHl]; intros n ys Hn Hd Hw; [done|].
  cbn in Hn, Hw |- *. cbn [each] in Hd. apply result_bind_ok in Hd as (y & Hy & Hd). apply result_bind_ok in Hd as (ys' & Hys & _).
  apply andb_true_iff in Hw as [Hw1 Hw2]. apply andb_true_iff. split; [eapply IH; [exact Hv| |exact Hy|done]; lia|]. eapply IHl; [|exact Hys|done]. lia.
Qed.

Lemma hashable_untuple v : portable v = true -> hashable (untuple v) = true -> atom v = true.
Proof. by destruct v. Qed.

Lemma set_portable (room n : nat) l ms acc ys : (forall v enc n y, _encode false room v = Ok enc -> (levels enc <= n)%nat -> decode_fuel n enc = Ok y ->
    well_built v = true -> portable v = true) ->
  each (_encode false room) l = Ok ms -> (maximum (levels <$> ms) <= n)%nat ->
  fold_result (fun acc x => x ← decode_fuel n x; set_add acc x) ms acc = Ok ys -> forallb well_built l = true -> forallb atom l = true.
Proof.
  intros IH He%each_Forall2. revert acc. induction He as [|v m l ms Hv He IHl]; intros acc Hn Hd Hw; [done|].
  cbn in Hn, Hw |- *. cbn [fold_result] in Hd. apply result_bind_ok in Hd as (acc' & Ha & Hd). apply result_bind_ok in Ha as (x & Hx & Ha).
  apply andb_true_iff in Hw as [Hw1 Hw2]. apply andb_true_iff. split; [|eapply IHl; [lia|exact Hd|done]].
  assert (Hp : portable v = true) by (eapply IH; [exact Hv| |exact Hx|done]; lia).
  rewrite (decode_encode _ _ _ _ Hv Hp) in Hx by lia. injection Hx as <-. apply hashable_untuple; [done|].
  unfold set_add in Ha. by destruct (hashable (untuple v)).
Qed.

Lemma dict_portable (room n : nat) kvs ms acc ys : (forall v enc n y, _encode false room v = Ok enc -> (levels enc <= n)%nat -> decode_fuel n enc = Ok y ->
    well_built v = true -> portable v = true) ->
  each (fun '(k, v) => k ← _encode false room k; v ← _encode false room v; Ok (PList [k; v])) kvs = Ok ms -> (maximum (levels <$> ms) <= S n)%nat ->
  fold_result (fun acc item => '(k, v) ← pair_of item; k ← decode_fuel n k; v ← decode_fuel n v; dict_add acc k v) ms acc = Ok ys ->
  forallb (fun '(k, v) => well_built k && well_built v) kvs = true -> forallb (fun '(k, v) => atom k && portable v) kvs = true.
Proof.
  intros IH He%each_Forall2. revert acc. induction He as [|[k v] m l ms Hv He IHl]; intros acc Hn Hd Hw; [done|].
  apply result_bind_ok in Hv as (a & Hk & Hv). apply result_bind_ok in Hv as (b & Hv & [= <-]).
  cbn [fmap list_fmap maximum levels forallb] in Hn, Hw |- *. cbn [fold_result pair_of items_of mbind result_bind] in Hd.
  apply result_bind_ok in Hd as (acc' & Ha & Hd). cbn [mbind result_bind] in Ha.
  apply result_bind_ok in Ha as (k' & Hk' & Ha). apply result_bind_ok in Ha as (v' & Hv' & Ha).
  apply andb_true_iff in Hw as [[Hw1 Hw2]%andb_true_iff Hw3]. rewrite !andb_true_iff.
  split; [split|eapply IHl; [lia|exact Hd|done]]; [|eapply IH; [exact Hv| |exact Hv'|done]; lia].
  assert (Hp : portable k = true) by (eapply IH; [exact Hk| |exact Hk'|done]; lia).
  rewrite (decode_encode _ _ _ _ Hk Hp) in Hk' by lia. injection Hk' as <-. apply hashable_untuple; [done|].
  unfold dict_add in Ha. by destruct (hashable (untuple k)).
Qed.

Lemma decodable_portable room v enc n y : _encode false room v = Ok enc -> (levels enc <= n)%nat -> decode_fuel n enc = Ok y ->
  well_built v = true -> portable v = true.
Proof.
  revert v enc n y. induction room as [|room IH]; [done|]. intros v enc n y E Hn Hd Hw.
  destruct n as [|n]; [destruct enc; cbn in Hn; lia|].
  destruct v as [| |b|z|f|s|bs|l|l|l|kvs|cls]; cbn [_encode] in E; cbn [portable well_built] in *; try done.
  - apply result_bind_ok in E as (ms & Hms & [= <-]). cbn [levels] in Hn. cbn [decode_fuel] in Hd.
    destruct (each (decode_fuel n) ms) eqn:Ed; [|done]. eapply (each_portable room n); [done|exact Hms|lia|exact Ed|done].
  - apply result_bind_ok in E as (ms & Hms & [= <-]). cbn [levels] in Hn. cbn [decode_fuel] in Hd.
    destruct (each (decode_fuel n) ms) eqn:Ed; [|done]. eapply (each_portable room n); [done|exact Hms|lia|exact Ed|done].
  - apply result_bind_ok in E as (ms & Hms & [= <-]). apply andb_true_iff in Hw as [Hw Hx]. rewrite Hx, andb_true_r. cbn [decode_fuel tagged] in Hd.
    change (tag_is "int" _) with false in Hd. change (tag_is "f" _) with false in Hd. change (tag_is "u" _) with false in Hd. change (tag_is "b" _) with false in Hd.
    change (tag_is "dt" _) with false in Hd. cbn match in Hd.
    destruct (tag_field "set" (PList ms)) as [T1 T2]. rewrite T1, T2 in Hd. cbn [mbind result_bind items_of] in Hd. cbn [levels tagged fmap list_fmap maximum] in Hn.
    destruct (fold_result _ ms []) eqn:Ed in Hd; [|done]. eapply (set_portable room n); [done|exact Hms|lia|exact Ed|done].
  - apply result_bind_ok in E as (ms & Hms & [= <-]). apply andb_true_iff in Hw as [Hw Hx]. rewrite Hx, andb_true_r. cbn [decode_fuel tagged] in Hd.
    change (tag_is "int" _) with false in Hd. change (tag_is "f" _) with false in Hd. change (tag_is "u" _) with false in Hd. change (tag_is "b" _) with false in Hd.
    change (tag_is "dt" _) with false in Hd. change (tag_is "set" _) with false in Hd. cbn match in Hd.
    destruct (tag_field "d" (PList ms)) as [T1 T2]. rewrite T1, T2 in Hd. cbn [mbind result_bind items_of] in Hd. cbn [levels tagged fmap list_fmap maximum] in Hn.
    destruct (fold_result _ ms []) eqn:Ed in Hd; [|done]. eapply (dict_portable room n); [done|exact Hms|lia|exact Ed|done].
Qed.

(** What is journaled of the decoded value is what was journaled of the original. *)
Lemma each_fmap {A B C} (f : A -> result journal_exn B) (g : C -> A) l : each f (g <$> l) = each (f ∘ g) l.
Proof. induction l as [|x l IH]; cbn; [done|]. cbn in IH. by rewrite IH. Qed.

Lemma each_ext {A B} (f g : A -> result journal_exn B) l : (forall x, x ∈ l -> f x = g x) -> each f l = each g l.
Proof.
  induction l as [|x l IH]; cbn; [done|]. intros E. rewrite (E x) by left. rewrite IH; [done|]. intros y Hy. apply E. by right.
Qed.

Lemma encode_untuple c room v : _encode c room (untuple v) = _encode c room v.
Proof.
  revert v. induction room as [|room IH]; [done|]. intros v. destruct v as [| |b|z|f|s|bs|l|l|l|kvs|cls]; cbn [_encode untuple]; try done.
  - rewrite each_fmap. by rewrite (each_ext _ (_encode c room)) by (intros; apply IH).
  - rewrite each_fmap. by rewrite (each_ext _ (_encode c room)) by (intros; apply IH).
  - rewrite each_fmap. erewrite each_ext; [done|]. intros [k v] _. cbn. by rewrite IH.
Qed.

End RoundTrip.

(** A tool's answer survives its journal: plain data that is encoded (sets and dicts with
    scalars and dates as keys, any nesting up to the limit, integers of any size, the floats JSON has no
    number for, bytes) decodes to the same value, tuples as lists; so what a replay sends is
    what the live session sent. *)
Theorem journal_value_roundtrip `{TextForms} room v enc :
  _encode false room v = Ok enc -> portable v = true -> _decode enc = Ok (untuple v).
Proof. intros E Hp. unfold _decode. by eapply decode_encode. Qed.

(** Text forms that keep the round trips. *)
Definition plain_text : TextForms.
Proof.
  refine {| int_str := fun z => if Z.abs z <? 2 ^ 100 then Ok [z] else Err (JPlain (ValueError "Exceeds the limit"));
    py_int := fun v => match v with PStr [z] => Ok z | _ => Err (JPlain (ValueError EmptyString)) end;
    py_float := fun v => match v with
      | PStr s => if bool_decide (s = u "nan") then Ok S754_nan else if bool_decide (s = u "inf") then Ok (S754_infinity false)
          else if bool_decide (s = u "-inf") then Ok (S754_infinity true) else Ok (S754_zero true)
      | _ => Err (JPlain (ValueError EmptyString)) end;
    b64encode := fun bs => bs;
    b64decode := fun v => match v with PStr s => Ok s | _ => Err (JPlain (ValueError EmptyString)) end;
    isoformat := fun _ => None; fromisoformat := fun _ => Err (JPlain (ValueError EmptyString));
    json_sorted := fun _ => []; json_compact := fun _ => [1; 2; 3] |}.
  - intros z s. destruct (_ <? _); [by intros [= <-]|done].
  - done.
  - done.
  - done.
Defined.

#[local] Existing Instance plain_text.

Lemma journal_value_roundtrip_witness : exists enc,
  _encode false max_levels (PDict [(PStr (u "a"), PTuple [PInt (2 ^ 60); PFloat (S754_zero true)]); (PInt 3, PSet [PNone; PBytes [255]])]) = Ok enc /\
  _decode enc = Ok (PDict [(PStr (u "a"), PList [PInt (2 ^ 60); PFloat (S754_zero true)]); (PInt 3, PSet [PNone; PBytes [255]])]).
Proof.
  eexists. split; [reflexivity|].
  exact (journal_value_roundtrip 4 (PDict [(PStr (u "a"), PTuple [PInt (2 ^ 60); PFloat (S754_zero true)]); (PInt 3, PSet [PNone; PBytes [255]])])
    _ eq_refl eq_refl).
Defined.
