(* ===== verification/AgentSession.v ===== *)
(** * The session state machine ([python/pydeno/_agent.py], [_SessionBase] and [AgentSandbox])

    What an agent session keeps besides its worker: the journal, the checkpoint of the last run
    that ended with the worker alive, the call it is paused at, and what a run that killed the
    worker had spent.  The guest is the interface [Guest]: a deterministic program (its clock and
    its random numbers are frozen) that runs until it calls a tool or ends. *)

From S2P Require Import Prelude Utf8 PyVal PyStr Journal JournalValue.

(** What the host keeps of a session's worker: the guest, the tool calls charged so far and the
    catalog tools found. *)
Record core (G : Type) := Core { guest : G; calls_made : Z; discovered : list (list Z) }.
Arguments Core {G}. Arguments guest {G}. Arguments calls_made {G}. Arguments discovered {G}.

Definition sent : Type := pyval + (list Z * list Z).

(** What the guest does next: its new state, the number of tool calls charged on the way, and
    the step it stops at. *)
Class Guest (G : Type) := {
  run_code : core G -> list Z -> G * nat * Step;
  deliver : core G -> sent -> G * nat * Step
}.

(** The worker is still there when the step arrives, or is gone: then the step is the failure. *)
Inductive fate (G : Type) := Lives | Dies (g : G) (calls : nat) (cls message error_type : list Z).
Arguments Lives {G}. Arguments Dies {G}.

(** An exception of the host, by what the session reads of it. *)
Record host_error := HostError { err_cls : list Z; err_message : list Z; is_exception : bool; public : bool }.

(** [expose]: the policy of [expose_host_errors]; [room]: the levels of a value [_encode] takes
    ([max_levels] in the code). *)
Record config := Config {
  max_journal_bytes : Z; redact : bool; expose : host_error -> bool; catalog : list (list Z); room : nat
}.

Record session (G : Type) := Session {
  session_id : Z;
  score : core G;
  records : option (list record);
  journal_size : Z;
  checkpoint : nat;
  checkpoint_calls : Z;
  dead : bool;
  closed : bool;
  lost : option (Z * list Z);
  paused : option Step;
  lost_runs : Z
}.
Arguments Session {G}. Arguments session_id {G}. Arguments score {G}. Arguments records {G}.
Arguments journal_size {G}. Arguments checkpoint {G}. Arguments checkpoint_calls {G}. Arguments dead {G}.
Arguments closed {G}. Arguments lost {G}. Arguments paused {G}. Arguments lost_runs {G}.

(** What a tool did. *)
Inductive tool_result := Returned (v : pyval) | Raised (e : host_error).

Definition _SEARCH : list Z := u "search_tools".
Definition _DESCRIBE : list Z := u "describe_tool".
Definition _MAX_SEARCH_RESULTS : nat := 50.

(** A record, as it is written. *)
Definition record_value (r : record) : pyval :=
  match r with
  | RRun code => PList [PStr (u "run"); PStr code]
  | RLost calls reason => PList [PStr (u "lost"); PInt calls; PStr reason]
  | RObs kind digest => PList [PStr (u "obs"); PStr kind; PStr digest]
  | RAnsV value => PList [PStr (u "ans"); PStr (u "v"); value]
  | RAnsE cls message => PList [PStr (u "ans"); PStr (u "e"); PStr cls; PStr message]
  end.

Definition runtime_error {A} (msg : string) : result journal_exn A := Err (JPlain (RuntimeError msg)).

Definition safe_reason (name : list Z) : list Z := if _SAFE_ERROR_NAME name then name else u "Error".

(** The step with the session's own id on a tool call. *)
Definition stamp (sid : Z) (st : Step) : Step :=
  match st with ToolCall name args call_id _ => ToolCall name args call_id sid | _ => st end.

Definition _lost_reason (st : Step) : list Z :=
  safe_reason (match st with Failed _ _ error_type => error_type | _ => u "WorkerCrashed" end).

(** Catalog names in an answer of [search_tools] or [describe_tool]. *)
Definition _found (answer : pyval) (catalog : list (list Z)) : list (list Z) :=
  let items := match answer with PList l => l | _ => [answer] end in
  omap (fun item =>
    match item with
    | PDict kvs =>
        match dict_get (u "name") kvs with
        | Some (PStr name) => if bool_decide (name ∈ catalog) then Some name else None
        | _ => None
        end
    | _ => None
    end) (take _MAX_SEARCH_RESULTS items).

Section Session.
Context `{TextForms} {G : Type} `{Guest G} (digest : list pyval -> list Z) (cfg : config).
Implicit Types (s : session G).

Definition with_score (c : core G) s : session G :=
  Session s.(session_id) c s.(records) s.(journal_size) s.(checkpoint) s.(checkpoint_calls) s.(dead) s.(closed)
    s.(lost) s.(paused) s.(lost_runs).
Definition with_paused (p : option Step) s : session G :=
  Session s.(session_id) s.(score) s.(records) s.(journal_size) s.(checkpoint) s.(checkpoint_calls) s.(dead) s.(closed)
    s.(lost) p s.(lost_runs).
Definition with_records (rs : option (list record)) (size : Z) s : session G :=
  Session s.(session_id) s.(score) rs size s.(checkpoint) s.(checkpoint_calls) s.(dead) s.(closed) s.(lost) s.(paused) s.(lost_runs).
Definition with_checkpoint s : session G :=
  match s.(records) with
  | None => s
  | Some rs =>
      Session s.(session_id) s.(score) s.(records) s.(journal_size) (length rs) s.(score).(calls_made) s.(dead) s.(closed)
        s.(lost) s.(paused) s.(lost_runs)
  end.
(** [_core.shutdown()] *)
Definition shutdown s : session G :=
  Session s.(session_id) s.(score) s.(records) s.(journal_size) s.(checkpoint) s.(checkpoint_calls) s.(dead) true s.(lost) s.(paused)
    s.(lost_runs).

Definition new_session (sid : Z) (g : G) : session G := Session sid (Core g 0 []) (Some []) 0 0 0 false false None None 0.

Definition _check_usable s : result journal_exn unit :=
  if s.(dead) then runtime_error "the session's worker is gone (crashed, killed or timed out)"
  else if s.(closed) then runtime_error "the session is closed"
  else Ok tt.

Definition _record (r : record) s : session G :=
  match s.(records) with
  | None => s
  | Some rs =>
      let size := s.(journal_size) + Z.of_nat (length (json_compact (record_value r))) in
      if cfg.(max_journal_bytes) <? size then with_records None size s else with_records (Some (rs ++ [r])) size s
  end.

Definition _mark_dead (reason : option (list Z)) s : session G :=
  if s.(dead) then s
  else
    Session s.(session_id) s.(score) s.(records) s.(journal_size) s.(checkpoint) s.(checkpoint_calls) true s.(closed)
      (match reason with
       | Some reason => Some (Z.min (s.(score).(calls_made) - s.(checkpoint_calls)) _MAX_LOST_CALLS, safe_reason reason)
       | None => s.(lost)
       end) None s.(lost_runs).

(** [gone]: [rt.is_closed()]. *)
Definition _observe (st : Step) (gone : bool) s : session G :=
  let '(kind, d) := _outcome digest st in
  let s := _record (RObs kind d) s in
  match st with
  | ToolCall _ _ _ _ => with_paused (Some st) s
  | _ =>
      let s := with_paused None s in
      if gone then shutdown (_mark_dead (Some (_lost_reason st)) s) else with_checkpoint s
  end.

(** The guest's next stop, from its new state; a step of a worker that is gone is its failure. *)
Definition next_step (f : fate G) (r : G * nat * Step) s : session G * Step :=
  let '(g, n, st, gone) :=
    match f with
    | Lives => (r, false)
    | Dies g n cls message error_type => (g, n, Failed cls message error_type, true)
    end in
  let st := stamp s.(session_id) st in
  let c := s.(score) in
  (_observe st gone (with_score (Core g (c.(calls_made) + Z.of_nat n) c.(discovered)) s), st).

Definition _start (code : list Z) (f : fate G) s : result journal_exn (session G * Step) :=
  _ ← _check_usable s;
  match s.(paused) with
  | Some _ => runtime_error "the session is paused at a tool call; resume it first"
  | None => let s := _record (RRun code) s in Ok (next_step f (run_code s.(score) code) s)
  end.

(** The message a guest gets of a host error. *)
Definition shown (e : host_error) : list Z :=
  if cfg.(redact) && negb e.(public) && negb (cfg.(expose) e) then u "host function failed" else e.(err_message).

Definition learn (call_name : list Z) (v : pyval) s : session G :=
  if negb (bool_decide (cfg.(catalog) = [])) && (bool_decide (call_name = _SEARCH) || bool_decide (call_name = _DESCRIBE))
  then with_score (Core s.(score).(guest) s.(score).(calls_made) (s.(score).(discovered) ++ _found v cfg.(catalog))) s
  else s.

Definition _answer (step : Step) (value : option pyval) (error : option host_error) s : result journal_exn (session G * sent) :=
  match step with
  | ToolCall name _ call_id sid =>
      _ ← _check_usable s;
      let matches :=
        match s.(paused) with
        | Some (ToolCall _ _ id _) => (sid =? s.(session_id)) && (call_id =? id)
        | _ => false
        end in
      if negb matches then runtime_error "that tool call is not the one this session is paused at"
      else
        match value, error with
        | None, Some e =>
            if negb e.(is_exception) then type_error "error must be an Exception instance"
            else Ok (with_paused None (_record (RAnsE e.(err_cls) (shown e)) s), inr (_error_class e.(err_cls), shown e))
        | Some v, None =>
            encoded ← _encode false cfg.(room) v;
            v ← _decode encoded;
            Ok (with_paused None (_record (RAnsV encoded) (learn name v s)), inl v)
        | _, _ => type_error "resume() takes exactly one of value= or error="
        end
  | _ => type_error "resume() takes the ToolCall the session is paused at"
  end.

Definition _resume (step : Step) (value : option pyval) (error : option host_error) (f : fate G) s
    : result journal_exn (session G * Step) :=
  '(s, a) ← _answer step value error s; Ok (next_step f (deliver s.(score) a) s).

(** An exception the model raises, as an object. *)
Definition exn_error (e : journal_exn) : host_error :=
  let '(cls, msg) :=
    match e with
    | JPlain (TypeError m) => ("TypeError", m)
    | JPlain (ValueError m) => ("ValueError", m)
    | JPlain (KeyError m) => ("KeyError", m)
    | JPlain (OverflowError m) => ("OverflowError", m)
    | JPlain (RuntimeError m) => ("RuntimeError", m)
    | JPlain (AssertionError m) => ("AssertionError", m)
    | JournalError m => ("JournalError", m)
    | _ => ("Exception", EmptyString)
    end%string in
  HostError (u cls) (u msg) true false.

(** [_check_result]: the tool's result, or the exception it becomes. *)
Definition _check_result (r : tool_result) : pyval + host_error :=
  match r with
  | Raised e => inr e
  | Returned v =>
      match _encode false cfg.(room) v with
      | Ok _ => inl v
      | Err (JPlain (TypeError _)) => inr (exn_error (JPlain (TypeError "tool returned a value the sandbox cannot hold")))
      | Err e => inr (exn_error e)
      end
  end.

(** The end of a tool call during [_drive]: the call is the one the session is paused at, and
    what [_answer] raises goes to the guest as the call's error. *)
Definition _inline_call (call : Step) (r : tool_result) (f : fate G) s : session G * Step :=
  let answered := match _check_result r with inl v => _answer call (Some v) None s | inr e => _answer call None (Some e) s end in
  match answered with
  | Ok (s, a) => next_step f (deliver s.(score) a) s
  | Err e => let e := exn_error e in next_step f (deliver s.(score) (inr (e.(err_cls), shown e))) s
  end.

(** The worker is killed while a tool runs ([_stop_run], a timeout): no answer. *)
Definition _stop_run (g : G) (n : nat) (cls message error_type : list Z) s : session G :=
  let c := s.(score) in
  _observe (Failed cls message error_type) true (with_score (Core g (c.(calls_made) + Z.of_nat n) c.(discovered)) s).

(** [KeyboardInterrupt] in [_drive], while the guest runs [code] or at a tool call. *)
Definition interrupt (code : option (list Z)) (g : G) (n : nat) s : session G :=
  let s := match code with Some code => _record (RRun code) s | None => s end in
  let c := s.(score) in
  shutdown (_mark_dead (Some (u "WorkerCrashed")) (with_score (Core g (c.(calls_made) + Z.of_nat n) c.(discovered)) s)).

Definition _replay_lost (calls : Z) (reason : list Z) s : session G :=
  let c := s.(score) in
  let s := with_score (Core c.(guest) (c.(calls_made) + calls) c.(discovered)) s in
  let s := Session s.(session_id) s.(score) s.(records) s.(journal_size) s.(checkpoint) s.(checkpoint_calls) s.(dead) s.(closed)
             s.(lost) s.(paused) (s.(lost_runs) + 1) in
  with_checkpoint (_record (RLost calls reason) s).

Definition close s : session G := shutdown (with_paused None s).

(** The records [dump] signs. *)
Definition _journal s : result journal_exn (list record) :=
  match s.(records) with
  | None => Err (JournalError "the journal grew past max_journal_bytes")
  | Some rs =>
      Ok (if s.(dead)
          then take s.(checkpoint) rs ++ match s.(lost) with Some (n, reason) => [RLost n reason] | None => [] end
          else rs)
  end.

Definition _spent_journal (reason : list Z) s : list record := [RLost (Z.min s.(score).(calls_made) _MAX_LOST_CALLS) reason].

(** [load]: the records replayed on a new session. *)
Definition replay_answer (call : Step) (a : sent) s : result journal_exn (session G * Step) :=
  match a with
  | inl v => _resume call (Some v) None Lives s
  | inr (cls, message) => _resume call None (Some (HostError cls message true true)) Lives s
  end.
Definition _replay (rs : list record) s : result journal_exn (session G * option Step) :=
  _replay_plan (fun s code => _start code Lives s) (fun s call a => replay_answer call a s)
    (fun s calls reason => _replay_lost calls reason s) _decode digest 0 rs None None s.
End Session.
