(* ===== verification/AgentSessionProps.v ===== *)
(** * What a session's journal restores

    A session that is dumped, at any point of its life, and loaded again is the session it was:
    the same guest, paused at the same call, with the same tool calls spent; after its worker
    died, the session as of the last run that ended well, with what the lost run spent. *)

From S2P Require Import Prelude Utf8 PyVal PyStr Journal JournalValue AgentSession.

Section Life.
Context `{TextForms} {G : Type} `{Guest G} (digest : list pyval -> list Z) (cfg : config) (sid : Z) (g0 : G).
Implicit Types (s c : session G).

(** Data as Python has it. *)
Definition answerable (v : option pyval) : bool := match v with Some v => well_built v | None => true end.
(** What a tool of a [run] may end with: anything but data that is encoded and does not decode
    (see [unjournaled_answer_breaks]). *)
Definition tool_answers (r : tool_result) : bool :=
  match r with
  | Returned v => well_built v && match _encode false cfg.(room) v with Ok enc => is_ok (_decode enc) | Err _ => true end
  | Raised e => is_exception e
  end.

(** The last state at rest with its worker alive. *)
Definition settle (c s : session G) : session G :=
  if negb s.(dead) && match s.(paused) with None => true | Some _ => false end then s else c.

(** The states [s] a session passes through, with the last one at rest, [c]. *)
Inductive life : session G -> session G -> Prop :=
| life_new : life (new_session sid g0) (new_session sid g0)
| life_start c s code f s' st : life c s ->
    _start digest cfg code f s = Ok (s', st) -> life (settle c s') s'
| life_resume c s step v e f s' st : life c s -> answerable v = true -> s.(paused) = Some step ->
    _resume digest cfg step v e f s = Ok (s', st) -> life (settle c s') s'
| life_inline c s call r f s' st : life c s -> tool_answers r = true ->
    s.(closed) = false -> s.(paused) = Some call -> _inline_call digest cfg call r f s = (s', st) -> life (settle c s') s'
| life_stop c s call g n cls message error_type : life c s ->
    s.(closed) = false -> s.(paused) = Some call -> life c (_stop_run digest cfg g n cls message error_type s)
| life_interrupt c s code g n : life c s -> s.(closed) = false ->
    match code with Some _ => s.(paused) = None | None => s.(paused) <> None end -> life c (interrupt cfg code g n s)
| life_lost c s n reason : life c s -> s.(closed) = false -> s.(paused) = None ->
    0 <= n <= _MAX_LOST_CALLS -> _SAFE_ERROR_NAME reason = true ->
    life (settle c (_replay_lost cfg n reason s)) (_replay_lost cfg n reason s)
| life_close c s : life c s -> life c (close s).
End Life.

(** What a journal may hold. *)
Definition well_formed (x : record) : bool :=
  match x with
  | RLost n reason => (0 <=? n) && (n <=? _MAX_LOST_CALLS) && _SAFE_ERROR_NAME reason
  | RObs kind _ => str_in (PStr kind) ["call"; "done"; "failed"]
  | _ => true
  end.

Lemma check_record_reads x : well_formed x = true -> check_record (record_value x) = Some x.
Proof.
  destruct x as [code|n reason|kind d|v|cls message]; cbn [well_formed record_value]; intros E; unfold check_record.
  all: repeat match goal with |- context [bool_decide (u ?a = u ?b)] =>
    let v := eval vm_compute in (bool_decide (u a = u b)) in change (bool_decide (u a = u b)) with v end; cbn match.
  all: rewrite ?E; try done. by destruct v.
Qed.

Lemma check_records_read rs : Forall (fun x => well_formed x = true) rs -> check_records (record_value <$> rs) = Ok rs.
Proof.
  induction 1 as [|x rs Hx _ IH]; [done|]. rewrite fmap_cons. cbn [check_records]. rewrite (check_record_reads x Hx).
  cbn [mbind result_bind]. by rewrite IH.
Qed.

Ltac fields := unfold _record, with_checkpoint; repeat case_match; try done.

Section Fields.
Context `{TextForms} {G : Type} (cfg : config).
Implicit Types (s : session G).

Lemma record_fields x s : let s' := _record cfg x s in
  s'.(session_id) = s.(session_id) /\ s'.(score) = s.(score) /\ s'.(checkpoint) = s.(checkpoint) /\
  s'.(checkpoint_calls) = s.(checkpoint_calls) /\ s'.(dead) = s.(dead) /\ s'.(closed) = s.(closed) /\ s'.(lost) = s.(lost) /\
  s'.(paused) = s.(paused) /\ s'.(lost_runs) = s.(lost_runs).
Proof. fields. Qed.

Lemma checkpoint_fields s : let s' := with_checkpoint s in
  s'.(session_id) = s.(session_id) /\ s'.(score) = s.(score) /\ s'.(records) = s.(records) /\ s'.(dead) = s.(dead) /\
  s'.(closed) = s.(closed) /\ s'.(lost) = s.(lost) /\ s'.(paused) = s.(paused) /\ s'.(lost_runs) = s.(lost_runs).
Proof. fields. Qed.

Lemma record_some x s rs : records (_record cfg x s) = Some rs -> exists rs0, records s = Some rs0 /\ rs = rs0 ++ [x].
Proof. unfold _record. case_match; [|congruence]. case_match; cbn; [done|]. intros [= <-]. eauto. Qed.

Lemma checkpoint_some s rs : s.(records) = Some rs ->
  (with_checkpoint s).(checkpoint) = length rs /\ (with_checkpoint s).(checkpoint_calls) = s.(score).(calls_made).
Proof. intros E. unfold with_checkpoint. by rewrite E. Qed.
End Fields.

Section Steps.
Context `{TextForms} {G : Type} `{Guest G} (digest : list pyval -> list Z) (cfg : config).
Implicit Types (s : session G).

(** What is appended to the journal. *)
Definition extends (s s' : session G) (ext : list record) : Prop :=
  forall rs, s'.(records) = Some rs -> exists rs0, s.(records) = Some rs0 /\ rs = rs0 ++ ext.

Lemma extends_trans s s1 s2 e1 e2 : extends s s1 e1 -> extends s1 s2 e2 -> extends s s2 (e1 ++ e2).
Proof. intros H1 H2 rs (rs1 & (rs0 & E0 & ->)%H1 & ->)%H2. exists rs0. by rewrite app_assoc. Qed.

Lemma extends_record x s : extends s (_record cfg x s) [x].
Proof. intros rs. apply record_some. Qed.

Definition obs (st : Step) : record := RObs (_outcome digest st).1 (_outcome digest st).2.

Definition stop_of (st : Step) : option Step := if is_call (Some st) then Some st else None.

(** A step the worker lives through. *)
Lemma next_step_lives g n st s s' st' : next_step digest cfg Lives (g, n, st) s = (s', st') ->
  st' = stamp s.(session_id) st /\ s'.(session_id) = s.(session_id) /\ s'.(closed) = s.(closed) /\ s'.(dead) = s.(dead) /\
  s'.(lost) = s.(lost) /\ s'.(lost_runs) = s.(lost_runs) /\
  s'.(score) = Core g (s.(score).(calls_made) + Z.of_nat n) s.(score).(discovered) /\ s'.(paused) = stop_of st' /\
  extends s s' [obs st'] /\
  (forall rs, s'.(records) = Some rs -> if is_call (Some st') then s'.(checkpoint) = s.(checkpoint) /\ s'.(checkpoint_calls) = s.(checkpoint_calls)
    else s'.(checkpoint) = length rs /\ s'.(checkpoint_calls) = s'.(score).(calls_made)).
Proof.
  unfold next_step, _observe. set (s1 := with_score _ s). set (st1 := stamp _ st). destruct (_outcome digest st1) as [kind d] eqn:Eo.
  pose proof (record_fields cfg (RObs kind d) s1) as F. cbv zeta in F. destruct F as (F1 & F2 & F3 & F4 & F5 & F6 & F7 & F8 & F9).
  assert (Hobs : obs st1 = RObs kind d) by (unfold obs; by rewrite Eo).
  pose proof (extends_record (RObs kind d) s1) as He.
  destruct (is_call (Some st1)) eqn:Hc.
  - assert (E : (match st1 with ToolCall _ _ _ _ => with_paused (Some st1) (_record cfg (RObs kind d) s1)
      | _ => with_checkpoint (with_paused None (_record cfg (RObs kind d) s1)) end) = with_paused (Some st1) (_record cfg (RObs kind d) s1))
      by (by destruct st1).
    rewrite E. intros [= <- <-]. unfold stop_of. rewrite Hc, Hobs. cbn. rewrite ?F1, ?F2, ?F5, ?F6, ?F7, ?F9. split_and!; try done.
  - set (s2 := with_paused None (_record cfg (RObs kind d) s1)).
    assert (E : (match st1 with ToolCall _ _ _ _ => with_paused (Some st1) (_record cfg (RObs kind d) s1)
      | _ => with_checkpoint s2 end) = with_checkpoint s2) by (by destruct st1).
    rewrite E. intros [= <- <-]. unfold stop_of. rewrite Hc, Hobs.
    destruct (checkpoint_fields s2) as (C1 & C2 & C3 & C4 & C5 & C6 & C7 & C8). rewrite C1, C2, C4, C5, C6, C7, C8.
    subst s2. cbn. rewrite ?F1, ?F2, ?F5, ?F6, ?F7, ?F9. split_and!; try done.
    + intros rs. rewrite C3. apply He.
    + intros rs Hrs. rewrite C3 in Hrs. pose proof (checkpoint_some _ _ Hrs) as [-> ->]. cbn. by rewrite F2.
Qed.

(** A step the worker does not live through. *)
Definition fails (s s' : session G) (extra : Z) : Prop :=
  s'.(session_id) = s.(session_id) /\ s'.(dead) = true /\ s'.(closed) = true /\ s'.(paused) = None /\ s'.(lost_runs) = s.(lost_runs) /\
  s'.(score).(calls_made) = s.(score).(calls_made) + extra /\
  s'.(checkpoint) = s.(checkpoint) /\ s'.(checkpoint_calls) = s.(checkpoint_calls) /\
  exists reason, _SAFE_ERROR_NAME reason = true /\
    s'.(lost) = Some (Z.min (s'.(score).(calls_made) - s.(checkpoint_calls)) _MAX_LOST_CALLS, reason).

Lemma safe_reason_safe name : _SAFE_ERROR_NAME (safe_reason name) = true.
Proof. unfold safe_reason. destruct (_SAFE_ERROR_NAME name) eqn:E; [done|]. by vm_compute. Qed.

Lemma stop_run_fails g n cls message et s : s.(dead) = false -> let s' := _stop_run digest cfg g n cls message et s in
  fails s s' (Z.of_nat n) /\ extends s s' [obs (Failed cls message et)].
Proof.
  intros Hd. unfold _stop_run, _observe. set (s1 := with_score _ s). cbn [_outcome].
  match goal with |- context [RObs ?k ?d] => set (x := RObs k d) end.
  pose proof (record_fields cfg x s1) as F. cbv zeta in F. destruct F as (F1 & F2 & F3 & F4 & F5 & F6 & F7 & F8 & F9).
  unfold _mark_dead. cbn [dead with_paused]. rewrite F5. change (s1.(dead)) with s.(dead). rewrite Hd. cbn zeta. split.
  - unfold fails. cbn. rewrite F1, F2, F3, F4, F9. split_and!; try done. exists (safe_reason (_lost_reason (Failed cls message et))).
    split; [apply safe_reason_safe|done].
  - exact (extends_record x s1).
Qed.

Lemma interrupt_fails code g n s : s.(dead) = false -> let s' := interrupt cfg code g n s in
  fails s s' (Z.of_nat n) /\ extends s s' (match code with Some code => [RRun code] | None => [] end).
Proof.
  intros Hd. unfold interrupt. set (s1 := match code with Some code => _record cfg (RRun code) s | None => s end).
  assert (F : s1.(session_id) = s.(session_id) /\ s1.(score) = s.(score) /\ s1.(checkpoint) = s.(checkpoint) /\
    s1.(checkpoint_calls) = s.(checkpoint_calls) /\ s1.(dead) = s.(dead) /\ s1.(lost_runs) = s.(lost_runs)).
  { destruct code as [code|]; [|done]. by destruct (record_fields cfg (RRun code) s) as (?&?&?&?&?&?&?&?&?). }
  destruct F as (F1 & F2 & F3 & F4 & F5 & F6). unfold _mark_dead. cbn [dead with_score]. rewrite F5, Hd. cbn zeta. split.
  - unfold fails. cbn. rewrite F1, F2, F3, F4, F6. split_and!; try done. exists (safe_reason (u "WorkerCrashed")). split; [apply safe_reason_safe|done].
  - subst s1. destruct code as [code|]; [exact (extends_record (RRun code) s)|]. intros rs Hrs. exists rs. by rewrite app_nil_r.
Qed.

(** An answer that is accepted. *)
Lemma answer_inv step v e s s' a : _answer cfg step v e s = Ok (s', a) ->
  s.(dead) = false /\ s.(closed) = false /\
  exists name args args' name' call_id sid', step = ToolCall name args call_id s.(session_id) /\
    s.(paused) = Some (ToolCall name' args' call_id sid') /\
    ((exists err, v = None /\ e = Some err /\ err.(is_exception) = true /\ a = inr (_error_class err.(err_cls), shown cfg err) /\
        s' = with_paused None (_record cfg (RAnsE err.(err_cls) (shown cfg err)) s)) \/
     (exists x enc y, v = Some x /\ e = None /\ _encode false cfg.(room) x = Ok enc /\ _decode enc = Ok y /\ a = inl y /\
        s' = with_paused None (_record cfg (RAnsV enc) (learn cfg name y s)))).
Proof.
  unfold _answer. destruct step as [name args call_id sid'| |]; [|done|done]. intros (ok & Hu & E)%result_bind_ok.
  unfold _check_usable in Hu. destruct (dead s); [done|]. destruct (closed s); [done|]. split_and!; [done..|].
  destruct (paused s) as [[name' args' id' sid''| |]|]; cbn [negb] in E; try done.
  destruct (negb _) eqn:Em in E; [done|]. apply negb_false_iff, andb_true_iff in Em as [->%Z.eqb_eq ->%Z.eqb_eq].
  exists name, args, args', name', id', sid''. split_and!; [done..|].
  destruct v as [x|], e as [err|]; try done.
  - right. apply result_bind_ok in E as (enc & He & E). apply result_bind_ok in E as (y & Hy & [= <- <-]). by exists x, enc, y.
  - left. destruct (negb _) eqn:Ee in E; [done|]. apply negb_false_iff in Ee. injection E as <- <-. by exists err.
Qed.

(** It is one record, which the replay reads back as what was sent. *)
Lemma answer_records step v e s s' a : _answer cfg step v e s = Ok (s', a) -> exists x,
  answer _decode x = Ok a /\ extends s s' [x] /\ s'.(session_id) = s.(session_id) /\ s'.(paused) = None /\
  s'.(dead) = s.(dead) /\ s'.(closed) = s.(closed) /\ s'.(lost_runs) = s.(lost_runs) /\ s'.(checkpoint) = s.(checkpoint) /\
  s'.(checkpoint_calls) = s.(checkpoint_calls) /\ s'.(score).(calls_made) = s.(score).(calls_made) /\
  well_formed x = true.
Proof.
  intros E%answer_inv. destruct E as (_ & _ & name & args & args' & name' & id & sid' & -> & _ &
    [(err & -> & -> & _ & -> & ->)|(v' & enc & y & -> & -> & He & Hd & -> & ->)]).
  - exists (RAnsE err.(err_cls) (shown cfg err)).
    destruct (record_fields cfg (RAnsE err.(err_cls) (shown cfg err)) s) as (F1 & F2 & F3 & F4 & F5 & F6 & F7 & F8 & F9).
    cbn. rewrite F1, F2, F3, F4, F5, F6, F9. split_and!; try done. exact (extends_record _ s).
  - exists (RAnsV enc).
    assert (L : let s1 := learn cfg name y s in s1.(session_id) = s.(session_id) /\ s1.(records) = s.(records) /\ s1.(checkpoint) = s.(checkpoint) /\
      s1.(checkpoint_calls) = s.(checkpoint_calls) /\ s1.(dead) = s.(dead) /\ s1.(closed) = s.(closed) /\ s1.(lost_runs) = s.(lost_runs) /\
      s1.(score).(calls_made) = s.(score).(calls_made)) by (unfold learn; by case_match).
    destruct L as (L1 & L2 & L3 & L4 & L5 & L6 & L7 & L8).
    destruct (record_fields cfg (RAnsV enc) (learn cfg name y s)) as (F1 & F2 & F3 & F4 & F5 & F6 & F7 & F8 & F9).
    cbn. rewrite F1, F2, F3, F4, F5, F6, F9, Hd, L1, L3, L4, L5, L6, L7, L8. split_and!; try done.
    intros rs Hrs. rewrite <- L2. exact (extends_record _ (learn cfg name y s) rs Hrs).
Qed.
End Steps.

(** ** Replaying *)

Section Replays.
Context {S V : Type} (start : S -> list Z -> result journal_exn (S * Step))
  (resume : S -> Step -> V + (list Z * list Z) -> result journal_exn (S * Step)) (charge : S -> Z -> list Z -> S)
  (dec : pyval -> result journal_exn V) (dig : list pyval -> list Z).
Abbreviation reps_ := (replays start resume charge dec dig).

Lemma replays_app s st rs s1 st1 rs' s2 st2 : reps_ s st rs s1 st1 -> reps_ s1 st1 rs' s2 st2 -> reps_ s st (rs ++ rs') s2 st2.
Proof.
  induction 1 as [s step|s step calls reason rs s' step' Hc _ IH|s step code s1' st' rs s' step' Hc Hs _ IH
    |s call r v s1' st' rs s' step' Hc Ha Hr _ IH]; intros H2; cbn.
  - done.
  - apply replays_lost; auto.
  - eapply replays_run; eauto.
  - eapply replays_answer; eauto.
Qed.
End Replays.

Section Restore.
Context `{TextForms} {G : Type} `{Guest G} (digest : list pyval -> list Z) (cfg cfg' : config) (sid sid' : Z) (g0 : G).
Context (same_catalog : cfg'.(catalog) = cfg.(catalog)) (same_room : cfg'.(room) = cfg.(room)).
Implicit Types (s c r : session G).

Definition reps : session G -> option Step -> list record -> session G -> option Step -> Prop :=
  replays (fun r code => _start digest cfg' code Lives r) (fun r call a => replay_answer digest cfg' call a r)
    (fun r calls reason => _replay_lost cfg' calls reason r) _decode digest.

(** [r], reached by a replay, is [s]: ready, with the same guest, at the same call. *)
Definition same s r : Prop :=
  r.(score) = s.(score) /\ r.(lost_runs) = s.(lost_runs) /\ r.(dead) = false /\ r.(closed) = false /\ r.(session_id) = sid' /\
  r.(paused) = stamp sid' <$> s.(paused).

Lemma outcome_stamp st i : _outcome digest (stamp i st) = _outcome digest st.
Proof. by destruct st. Qed.
Lemma stamp_stamp st i j : stamp i (stamp j st) = stamp i st.
Proof. by destruct st. Qed.
Lemma stop_stamp st i j : stop_of (stamp i st) = stamp i <$> stop_of (stamp j st).
Proof. by destruct st. Qed.

(** Both sessions let the guest go on. *)
Lemma next_same gr s r s' st : next_step digest cfg Lives gr s = (s', st) ->
  r.(score) = s.(score) -> r.(lost_runs) = s.(lost_runs) -> r.(dead) = false -> r.(closed) = false -> r.(session_id) = sid' ->
  exists r', next_step digest cfg' Lives gr r = (r', stamp sid' st) /\ same s' r'.
Proof.
  intros E Hs Hl Hd Hc Hi. destruct gr as [[g n] st0]. destruct (next_step digest cfg' Lives (g, n, st0) r) as [r' st'] eqn:E'.
  apply next_step_lives in E as (-> & _ & _ & _ & _ & L & S & P & _). apply next_step_lives in E' as (-> & I' & C' & D' & _ & L' & S' & P' & _).
  exists r'. rewrite Hi, stamp_stamp. split; [done|]. unfold same. rewrite S', S, L', L, D', C', I', P', P, Hs, Hl, Hi.
  split_and!; try done. by apply stop_stamp.
Qed.

Lemma start_same code s r s' st : _start digest cfg code Lives s = Ok (s', st) -> same s r ->
  exists r', _start digest cfg' code Lives r = Ok (r', stamp sid' st) /\ same s' r' /\ extends s s' [RRun code; obs digest st].
Proof.
  unfold _start. intros (ok & _ & E)%result_bind_ok (R1 & R2 & R3 & R4 & R5 & R6).
  unfold _check_usable. rewrite R3, R4. cbn [mbind result_bind]. destruct (paused s); [done|]. rewrite R6. cbn [fmap option_fmap option_map].
  injection E as E. destruct (record_fields cfg (RRun code) s) as (F1 & F2 & _ & _ & F5 & F6 & _ & F8 & F9).
  destruct (record_fields cfg' (RRun code) r) as (F1' & F2' & _ & _ & F5' & F6' & _ & F8' & F9'). rewrite F2', R1, <- F2.
  edestruct (next_same _ _ (_record cfg' (RRun code) r) _ _ E) as (r' & -> & Hs); [congruence..|].
  exists r'. split_and!; [done..|]. destruct (run_code _ code) as [[g n] st0]. apply next_step_lives in E as (_ & _ & _ & _ & _ & _ & _ & _ & He & _).
  exact (extends_trans _ _ _ [_] [_] (extends_record cfg _ s) He).
Qed.

Lemma error_class_twice cls : _error_class (_error_class cls) = _error_class cls.
Proof. unfold _error_class. destruct (_SAFE_ERROR_NAME cls) eqn:E; [by rewrite E|]. done. Qed.

Lemma shown_public cls message : shown cfg' (HostError cls message true true) = message.
Proof. unfold shown. cbn. by rewrite andb_false_r. Qed.

Lemma learn_same name y s r : r.(score) = s.(score) ->
  score (learn cfg' name y r) = score (learn cfg name y s) /\ lost_runs (learn cfg' name y r) = lost_runs r /\
  dead (learn cfg' name y r) = dead r /\ closed (learn cfg' name y r) = closed r /\ session_id (learn cfg' name y r) = session_id r /\
  lost_runs (learn cfg name y s) = lost_runs s.
Proof. intros E. unfold learn. rewrite same_catalog, E. by case_match. Qed.

(** Both sessions take the answer, the replaying one the decoded record of it. *)
Lemma answer_same step v e s s1 a r : _answer cfg step v e s = Ok (s1, a) -> s.(paused) = Some step -> answerable v = true -> same s r ->
  exists r1, _answer cfg' (stamp sid' step) (match a with inl y => Some y | inr _ => None end)
      (match a with inl _ => None | inr (cls, message) => Some (HostError cls message true true) end) r = Ok (r1, a) /\
    r1.(score) = s1.(score) /\ r1.(lost_runs) = s1.(lost_runs) /\ r1.(dead) = false /\ r1.(closed) = false /\ r1.(session_id) = sid'.
Proof.
  intros E Hp Hv (R1 & R2 & R3 & R4 & R5 & R6). apply answer_inv in E as (_ & _ & name & args & args' & name' & id & sid1 & -> & Hp' & E).
  rewrite Hp in R6, Hp'. injection Hp' as <- <- <-. cbn [stamp fmap option_fmap option_map] in R6 |- *.
  unfold _answer, _check_usable. rewrite R3, R4, R6, R5, !Z.eqb_refl. cbn [mbind result_bind andb negb].
  destruct E as [(err & -> & -> & _ & -> & ->)|(x & enc & y & -> & -> & He & Hd & -> & ->)].
  - cbn [is_exception negb err_cls]. rewrite error_class_twice. rewrite shown_public. eexists. split; [done|]. cbn [score lost_runs dead closed session_id with_paused].
    destruct (record_fields cfg (RAnsE (err_cls err) (shown cfg err)) s) as (_ & F2 & _ & _ & _ & _ & _ & _ & F9).
    match goal with |- context [_record cfg' ?x r] => destruct (record_fields cfg' x r) as (F1' & F2' & _ & _ & F5' & F6' & _ & _ & F9') end.
    rewrite F2, F9, F1', F2', F5', F6', F9'. done.
  - cbn in Hv. assert (y = untuple x) as ->.
    { unfold _decode in Hd. assert (Hpx := decodable_portable _ _ _ _ _ He (Nat.le_refl _) Hd Hv).
      rewrite (decode_encode cfg.(room) x enc _ He Hpx (Nat.le_refl _)) in Hd. congruence. }
    rewrite same_room, encode_untuple, He. cbn [mbind result_bind]. rewrite Hd. cbn [mbind result_bind].
    eexists. split; [done|]. cbn [score lost_runs dead closed session_id with_paused].
    destruct (learn_same name (untuple x) s r R1) as (L1 & L2 & L3 & L4 & L5 & L6).
    destruct (record_fields cfg (RAnsV enc) (learn cfg name (untuple x) s)) as (_ & F2 & _ & _ & _ & _ & _ & _ & F9).
    destruct (record_fields cfg' (RAnsV enc) (learn cfg' name (untuple x) r)) as (F1' & F2' & _ & _ & F5' & F6' & _ & _ & F9').
    rewrite F2, F9, F1', F2', F5', F6', F9', L1, L2, L3, L4, L5, L6. done.
Qed.

Lemma resume_same step v e s s1 a s' st r : _answer cfg step v e s = Ok (s1, a) -> next_step digest cfg Lives (deliver s1.(score) a) s1 = (s', st) ->
  s.(paused) = Some step -> answerable v = true -> same s r ->
  exists r', replay_answer digest cfg' (stamp sid' step) a r = Ok (r', stamp sid' st) /\ same s' r'.
Proof.
  intros Ha En Hp Hv Hr. destruct (answer_same _ _ _ _ _ _ _ Ha Hp Hv Hr) as (r1 & Er & S1 & L1 & D1 & C1 & I1).
  destruct (next_same _ _ r1 _ _ En S1 L1 D1 C1 I1) as (r' & En' & Hs). exists r'. split; [|done].
  unfold replay_answer, _resume. destruct a as [y|[cls message]]; rewrite Er; cbn [mbind result_bind]; by rewrite S1, En'.
Qed.

Definition fresh : session G := new_session sid' g0.
Definition at_stop r (st : option Step) : Prop := r.(paused) = st ≫= stop_of.

(** [r] is ready for the next record. *)
Definition ready r (st : option Step) : Prop := at_stop r st /\ r.(dead) = false /\ r.(closed) = false /\ r.(session_id) = sid'.

Record inv c s : Prop := {
  i_sid : s.(session_id) = sid;
  i_paused : forall st, s.(paused) = Some st -> is_call (Some st) = true /\ stamp sid st = st;
  i_calls : c.(score).(calls_made) <= s.(score).(calls_made);
  i_gone : s.(dead) = true -> s.(closed) = true;
  i_well : forall rs, s.(records) = Some rs -> Forall (fun x => well_formed x = true) rs;
  i_live : s.(dead) = false -> forall rs, s.(records) = Some rs -> exists r st, reps fresh None rs r st /\ ready r st /\
    r.(score) = s.(score) /\ r.(lost_runs) = s.(lost_runs) /\ (s.(closed) = false -> same s r);
  i_rest : forall rs, s.(records) = Some rs -> (s.(checkpoint) <= length rs)%nat /\ s.(checkpoint_calls) = c.(score).(calls_made) /\
    exists r st, reps fresh None (take s.(checkpoint) rs) r st /\ ready r st /\ is_call st = false /\
      r.(score) = c.(score) /\ r.(lost_runs) = s.(lost_runs);
  i_dead : s.(dead) = true -> exists reason, _SAFE_ERROR_NAME reason = true /\
    s.(lost) = Some (Z.min (s.(score).(calls_made) - s.(checkpoint_calls)) _MAX_LOST_CALLS, reason)
}.

Lemma obs_well st : well_formed (obs digest st) = true.
Proof. by destruct st. Qed.

Lemma settle_dead c s : s.(dead) = true -> settle c s = c.
Proof. intros E. unfold settle. by rewrite E. Qed.

(** The worker dies. *)
Lemma inv_fails c s s' n ext : inv c s -> s.(dead) = false -> fails s s' (Z.of_nat n) -> extends s s' ext ->
  Forall (fun x => well_formed x = true) ext -> inv c s'.
Proof.
  intros Hi Hd (F1 & F2 & F3 & F4 & F5 & F6 & F7 & F8 & reason & F9 & F10) He Hx. split.
  - rewrite F1. apply Hi.
  - rewrite F4. done.
  - rewrite F6. pose proof (i_calls _ _ Hi). lia.
  - done.
  - intros rs (rs0 & E0 & ->)%He. apply Forall_app. split; [by apply (i_well _ _ Hi)|done].
  - congruence.
  - intros rs (rs0 & E0 & ->)%He. destruct (i_rest _ _ Hi rs0 E0) as (H1 & H2 & r & st & H3 & H4 & H5 & H6 & H7).
    rewrite F7, F8, length_app. split_and!; [lia|done|]. exists r, st. rewrite take_app_le by done. rewrite F5. by split_and!.
  - intros _. exists reason. rewrite F8. done.
Qed.

(** The worker lives. *)
Lemma inv_lives c s s1 gr s' st x : inv c s -> s.(closed) = false ->
  next_step digest cfg Lives gr s1 = (s', st) -> extends s s1 [x] -> well_formed x = true ->
  s1.(session_id) = s.(session_id) -> s1.(dead) = s.(dead) -> s1.(closed) = s.(closed) -> s1.(lost_runs) = s.(lost_runs) ->
  s1.(checkpoint) = s.(checkpoint) -> s1.(checkpoint_calls) = s.(checkpoint_calls) -> s1.(score).(calls_made) = s.(score).(calls_made) ->
  (forall r, same s r -> forall stp, ready r stp -> exists r', reps r stp [x; obs digest st] r' (Some (stamp sid' st)) /\ same s' r') ->
  inv (settle c s') s'.
Proof.
  intros Hi Hcl En He1 Hx S1 D1 C1 L1 K1 KC1 CM1 Hrep. destruct gr as [[g n] st0].
  assert (Hd : s.(dead) = false). { destruct (dead s) eqn:E; [|done]. by rewrite (i_gone _ _ Hi E) in Hcl. }
  apply next_step_lives in En as (Est & N1 & N2 & N3 & _ & N5 & N6 & N7 & He2 & Hck).
  pose proof (extends_trans _ _ _ _ _ He1 He2) as He. cbn in He.
  assert (Hlive : forall rs, s'.(records) = Some rs -> exists r stp, reps fresh None rs r stp /\ ready r stp /\ same s' r).
  { intros rs (rs0 & E0 & ->)%He. destruct (i_live _ _ Hi Hd rs0 E0) as (r & stp & Hr & Hrd & _ & _ & Hs). specialize (Hs Hcl).
    destruct (Hrep r Hs stp Hrd) as (r' & Hr' & Hs'). exists r', (Some (stamp sid' st)).
    split; [by eapply replays_app|]. split; [|done]. destruct Hs' as (_ & _ & R3 & R4 & R5 & R6). split_and!; [|done..].
    unfold at_stop. rewrite R6, N7. cbn. rewrite (stop_stamp st sid' s1.(session_id)), Est, stamp_stamp. done. }
  assert (Hcalls : s.(score).(calls_made) <= s'.(score).(calls_made)) by (rewrite N6; cbn; lia).
  assert (Hsettle : settle c s' = if is_call (Some st) then c else s').
  { unfold settle. rewrite N3, D1, Hd, N7. unfold stop_of. by destruct (is_call (Some st)). }
  rewrite Hsettle. split.
  - rewrite N1, S1. apply Hi.
  - intros st'. rewrite N7. unfold stop_of. destruct (is_call (Some st)) eqn:Ec; [|done]. intros [= <-]. split; [done|].
    rewrite Est, stamp_stamp. f_equal. rewrite S1. symmetry. apply Hi.
  - pose proof (i_calls _ _ Hi). destruct (is_call (Some st)); lia.
  - rewrite N3, D1, Hd. done.
  - intros rs (rs0 & E0 & ->)%He. apply Forall_app. split; [by apply (i_well _ _ Hi)|]. repeat constructor; [done|apply obs_well].
  - intros _ rs Hrs. destruct (Hlive rs Hrs) as (r & stp & Hr & Hrd & Hs). exists r, stp. split_and!; [done|done|apply Hs|apply Hs|done].
  - intros rs Hrs. specialize (Hck rs Hrs). destruct (is_call (Some st)) eqn:Ec.
    + destruct Hck as [-> ->]. destruct (He rs Hrs) as (rs0 & E0 & ->).
      destruct (i_rest _ _ Hi rs0 E0) as (H1 & H2 & r & stp & H3 & H4 & H5 & H6 & H7).
      rewrite K1, KC1, length_app. split_and!; [lia|done|]. exists r, stp. rewrite take_app_le by done. rewrite N5, L1. by split_and!.
    + destruct Hck as [-> ->]. split_and!; [lia|done|]. rewrite take_ge by lia.
      destruct (Hlive rs Hrs) as (r & stp & Hr & Hrd & Hs). exists r, stp. split_and!; [done|done| |apply Hs|apply Hs].
      destruct Hs as (_ & _ & _ & _ & _ & R6). rewrite N7 in R6. unfold stop_of in R6. rewrite Ec in R6. cbn in R6.
      destruct Hrd as [Ha _]. unfold at_stop in Ha. rewrite R6 in Ha. destruct stp as [[]|]; done.
  - rewrite N3, D1, Hd. done.
Qed.

Lemma fails_from s s1 s' k : fails s1 s' k -> s1.(session_id) = s.(session_id) -> s1.(lost_runs) = s.(lost_runs) ->
  s1.(checkpoint) = s.(checkpoint) -> s1.(checkpoint_calls) = s.(checkpoint_calls) -> s1.(score).(calls_made) = s.(score).(calls_made) ->
  fails s s' k.
Proof. unfold fails. intros F <- <- <- <- <-. exact F. Qed.

(** An input is recorded, then the guest goes on, whatever becomes of its worker. *)
Lemma inv_input c s s1 f gr s' st x : inv c s -> s.(closed) = false ->
  next_step digest cfg f gr s1 = (s', st) -> extends s s1 [x] -> well_formed x = true ->
  s1.(session_id) = s.(session_id) -> s1.(dead) = s.(dead) -> s1.(closed) = s.(closed) -> s1.(lost_runs) = s.(lost_runs) ->
  s1.(checkpoint) = s.(checkpoint) -> s1.(checkpoint_calls) = s.(checkpoint_calls) -> s1.(score).(calls_made) = s.(score).(calls_made) ->
  (f = Lives -> forall r, same s r -> forall stp, ready r stp ->
    exists r', reps r stp [x; obs digest st] r' (Some (stamp sid' st)) /\ same s' r') ->
  inv (settle c s') s'.
Proof.
  intros Hi Hcl En He Hx S1 D1 C1 L1 K1 KC1 CM1 Hrep. destruct f as [|g n cls message et].
  - by eapply inv_lives; eauto.
  - assert (Hd : s.(dead) = false). { destruct (dead s) eqn:E; [|done]. by rewrite (i_gone _ _ Hi E) in Hcl. }
    change (next_step digest cfg _ gr s1) with (_stop_run digest cfg g n cls message et s1, Failed cls message et) in En.
    apply pair_equal_spec in En as [<- <-]. rewrite <- D1 in Hd.
    destruct (stop_run_fails digest cfg g n cls message et s1 Hd) as [F Fe].
    rewrite settle_dead by exact (proj1 (proj2 F)). eapply inv_fails; [done|congruence|by apply (fails_from s s1)|by eapply extends_trans|].
    constructor; [done|]. constructor; [apply obs_well|constructor].
Qed.

Lemma ready_call s r stp call : same s r -> ready r stp -> s.(paused) = Some call -> is_call (Some call) = true -> stp = Some (stamp sid' call).
Proof.
  intros (_ & _ & _ & _ & _ & R6) [Ha _] Hp Hc. unfold at_stop in Ha. rewrite R6, Hp in Ha. cbn in Ha.
  destruct stp as [st|]; [|done]. cbn in Ha. unfold stop_of in Ha. destruct (is_call (Some st)); [congruence|done].
Qed.

Lemma ready_rest s r stp : same s r -> ready r stp -> s.(paused) = None -> is_call stp = false.
Proof. intros (_ & _ & _ & _ & _ & R6) [Ha _] Hp. unfold at_stop in Ha. rewrite R6, Hp in Ha. destruct stp as [[]|]; done. Qed.

Lemma inv_start c s code f s' st : inv c s -> _start digest cfg code f s = Ok (s', st) -> inv (settle c s') s'.
Proof.
  intros Hi E. pose proof E as E0. unfold _start in E. apply result_bind_ok in E as (ok & Hu & E). unfold _check_usable in Hu.
  destruct (dead s) eqn:Hd; [done|]. destruct (closed s) eqn:Hcl; [done|]. destruct (paused s) eqn:Hp; [done|]. injection E as E.
  destruct (record_fields cfg (RRun code) s) as (F1 & F2 & F3 & F4 & F5 & F6 & F7 & F8 & F9).
  eapply (inv_input c s _ f _ s' st (RRun code)); [done|done|exact E|apply extends_record|done|congruence..|].
  intros -> r Hr stp Hrd. destruct (start_same _ _ _ _ _ E0 Hr) as (r' & Er & Hs & _). exists r'. split; [|done].
  unfold obs. rewrite <- (outcome_stamp st sid'). eapply replays_run; [exact (ready_rest _ _ _ Hr Hrd Hp)|exact Er|constructor].
Qed.

(** An answer that is accepted, then the guest goes on. *)
Lemma inv_answer c s step v e s1 a f s' st : inv c s -> answerable v = true -> s.(paused) = Some step ->
  _answer cfg step v e s = Ok (s1, a) -> next_step digest cfg f (deliver s1.(score) a) s1 = (s', st) -> inv (settle c s') s'.
Proof.
  intros Hi Hv Hp Ha En. pose proof (answer_inv _ _ _ _ _ _ _ Ha) as (Hd & Hcl & _).
  destruct (answer_records _ _ _ _ _ _ _ Ha) as (x & Hx & He & A1 & A2 & A3 & A4 & A5 & A6 & A7 & A8 & A9).
  eapply (inv_input c s s1 f _ s' st x); [done|done|exact En|done..|].
  intros -> r Hr stp Hrd. destruct (resume_same _ _ _ _ _ _ _ _ _ Ha En Hp Hv Hr) as (r' & Er & Hs). exists r'. split; [|done].
  destruct (i_paused _ _ Hi _ Hp) as [Hc _]. rewrite (ready_call s r stp step Hr Hrd Hp Hc).
  unfold obs. rewrite <- (outcome_stamp st sid'). eapply replays_answer; [|exact Hx|exact Er|constructor].
  by destruct step.
Qed.

Lemma replay_lost_fields cfg0 n reason s : let s' := _replay_lost cfg0 n reason s in
  s'.(session_id) = s.(session_id) /\ s'.(dead) = s.(dead) /\ s'.(closed) = s.(closed) /\ s'.(paused) = s.(paused) /\
  s'.(score) = Core s.(score).(guest) (s.(score).(calls_made) + n) s.(score).(discovered) /\ s'.(lost_runs) = s.(lost_runs) + 1 /\
  extends s s' [RLost n reason] /\
  (forall rs, s'.(records) = Some rs -> s'.(checkpoint) = length rs /\ s'.(checkpoint_calls) = s'.(score).(calls_made)).
Proof.
  unfold _replay_lost. match goal with |- context [_record cfg0 ?x ?s1] => set (s2 := s1);
    destruct (record_fields cfg0 x s2) as (F1 & F2 & _ & _ & F5 & F6 & _ & F8 & F9); pose proof (extends_record cfg0 x s2) as He end.
  cbv zeta. match goal with |- context [with_checkpoint ?s3] => destruct (checkpoint_fields s3) as (C1 & C2 & C3 & C4 & C5 & C6 & C7 & C8) end.
  rewrite C1, C2, C4, C5, C7, C8, F1, F2, F5, F6, F8, F9. split_and!; try done.
  - intros rs. rewrite C3. apply He.
  - intros rs Hrs. rewrite C3 in Hrs. pose proof (checkpoint_some _ _ Hrs) as [-> ->]. by rewrite F2.
Qed.

Lemma inv_lost c s n reason : inv c s -> s.(closed) = false -> s.(paused) = None -> 0 <= n <= _MAX_LOST_CALLS ->
  _SAFE_ERROR_NAME reason = true -> let s' := _replay_lost cfg n reason s in inv (settle c s') s'.
Proof.
  intros Hi Hcl Hp Hn Hr. assert (Hd : s.(dead) = false). { destruct (dead s) eqn:E; [|done]. by rewrite (i_gone _ _ Hi E) in Hcl. }
  destruct (replay_lost_fields cfg n reason s) as (L1 & L2 & L3 & L4 & L5 & L6 & He & Hck). cbv zeta. set (s' := _replay_lost cfg n reason s) in *.
  assert (settle c s' = s') as -> by (unfold settle; by rewrite L2, L4, Hd, Hp).
  assert (Hlive : forall rs, s'.(records) = Some rs -> exists r st, reps fresh None rs r st /\ ready r st /\ is_call st = false /\ same s' r).
  { intros rs (rs0 & E0 & ->)%He. destruct (i_live _ _ Hi Hd rs0 E0) as (r & st & Hrep & Hrd & _ & _ & Hs). specialize (Hs Hcl).
    destruct (replay_lost_fields cfg' n reason r) as (R1 & R2 & R3 & R4 & R5 & R6 & _). cbv zeta in *.
    pose proof (ready_rest _ _ _ Hs Hrd Hp) as Hrest. destruct Hs as (S1 & S2 & S3 & S4 & S5 & S6).
    exists (_replay_lost cfg' n reason r), None. split_and!.
    - eapply replays_app; [exact Hrep|]. apply replays_lost; [done|constructor].
    - unfold ready, at_stop. rewrite R1, R2, R3, R4, S3, S4, S5, S6, Hp. done.
    - done.
    - unfold same. rewrite R1, R2, R3, R4, R5, R6, L4, L5, L6, S1, S2, S3, S4, S5, S6, Hp. done. }
  split.
  - rewrite L1. apply Hi.
  - rewrite L4, Hp. done.
  - lia.
  - by rewrite L2, Hd.
  - intros rs (rs0 & E0 & ->)%He. apply Forall_app. split; [by apply (i_well _ _ Hi)|]. constructor; [|constructor]. cbn.
    rewrite Hr. by rewrite (proj2 (Z.leb_le 0 n)), (proj2 (Z.leb_le n _)) by lia.
  - intros _ rs Hrs. destruct (Hlive rs Hrs) as (r & st & H1 & H2 & _ & H3). exists r, st. split_and!; [done|done|apply H3|apply H3|done].
  - intros rs Hrs. destruct (Hck rs Hrs) as [-> ->]. destruct (Hlive rs Hrs) as (r & st & H1 & H2 & H3 & H4).
    split_and!; [lia|done|]. exists r, st. rewrite take_ge by lia. split_and!; [done|done|done|apply H4|apply H4].
  - by rewrite L2, Hd.
Qed.

Lemma inv_close c s : inv c s -> inv c (close s).
Proof.
  intros Hi. split; cbn; try apply Hi; try done.
  intros Hd rs Hrs. destruct (i_live _ _ Hi Hd rs Hrs) as (r & st & H1 & H2 & H3 & H4 & _). by exists r, st.
Qed.

Lemma inv_new : inv (new_session sid g0) (new_session sid g0).
Proof.
  split; cbn; try done.
  - by intros rs [= <-].
  - intros _ rs [= <-]. exists fresh, None. split_and!; try done. constructor.
  - intros rs [= <-]. split_and!; [done|done|]. exists fresh, None. split_and!; try done. constructor.
Qed.

Lemma check_result_answers (r : tool_result) s call : tool_answers cfg r = true -> s.(closed) = false -> s.(dead) = false -> s.(paused) = Some call ->
  is_call (Some call) = true -> stamp s.(session_id) call = call ->
  exists v e s1 a, answerable v = true /\ _answer cfg call v e s = Ok (s1, a) /\
    (match _check_result cfg r with inl v => _answer cfg call (Some v) None s | inr e => _answer cfg call None (Some e) s end) = Ok (s1, a).
Proof.
  intros Ht Hcl Hd Hp Hc Hst. destruct call as [name args id i| |]; try done. cbn in Hst. injection Hst as <-.
  unfold _answer, _check_usable. rewrite Hd, Hcl, Hp, !Z.eqb_refl. cbn [mbind result_bind andb negb].
  destruct r as [v|e]; cbn [_check_result tool_answers] in *.
  - destruct (_encode false cfg.(room) v) as [enc|err] eqn:Ee.
    + apply andb_true_iff in Ht as [Hw Ht]. destruct (_decode enc) as [y|] eqn:Ed; [|done].
      exists (Some v), None. rewrite Ee. cbn [mbind result_bind]. rewrite Ed. cbn [mbind result_bind]. eauto.
    + assert (exists e, (match err with JPlain (TypeError _) => inr (exn_error (JPlain (TypeError "tool returned a value the sandbox cannot hold")))
        | e => inr (exn_error e) end : pyval + host_error) = inr (exn_error e)) as [e ->] by (repeat case_match; eauto).
      exists None, (Some (exn_error e)). assert (is_exception (exn_error e) = true) as -> by (unfold exn_error; by repeat case_match).
      cbn [negb]. eauto.
  - exists None, (Some e). rewrite Ht. cbn [negb]. eauto.
Qed.

Lemma life_inv c s : life digest cfg sid g0 c s -> inv c s.
Proof.
  induction 1 as [|c s code f s' st _ IH E|c s step v e f s' st _ IH Hv Hp E|c s call r f s' st _ IH Ht Hcl Hp E
    |c s call g n cls message et _ IH Hcl Hp|c s code g n _ IH Hcl Hcode|c s n reason _ IH Hcl Hp Hn Hr|c s _ IH].
  - apply inv_new.
  - by eapply inv_start.
  - unfold _resume in E. apply result_bind_ok in E as ([s1 a] & Ha & [= E]). by eapply inv_answer.
  - assert (Hd : s.(dead) = false). { destruct (dead s) eqn:Ed; [|done]. by rewrite (i_gone _ _ IH Ed) in Hcl. }
    destruct (i_paused _ _ IH _ Hp) as [Hc Hst]. rewrite <- (i_sid _ _ IH) in Hst.
    destruct (check_result_answers r s call Ht Hcl Hd Hp Hc Hst) as (v & e & s1 & a & Hv & Ha & Er).
    unfold _inline_call in E. rewrite Er in E. by eapply inv_answer.
  - assert (Hd : s.(dead) = false). { destruct (dead s) eqn:Ed; [|done]. by rewrite (i_gone _ _ IH Ed) in Hcl. }
    destruct (stop_run_fails digest cfg g n cls message et s Hd) as [F Fe]. eapply inv_fails; [done|done|exact F|exact Fe|].
    constructor; [apply obs_well|constructor].
  - assert (Hd : s.(dead) = false). { destruct (dead s) eqn:Ed; [|done]. by rewrite (i_gone _ _ IH Ed) in Hcl. }
    destruct (interrupt_fails cfg code g n s Hd) as [F Fe]. eapply inv_fails; [done|done|exact F|exact Fe|].
    destruct code; repeat constructor.
  - by apply inv_lost.
  - by apply inv_close.
Qed.

(** The replay of a journal's first part is the replay of the rest from where it leads. *)
Lemma replay_prefix r st rs r1 st1 : reps r st rs r1 st1 -> forall i rs',
  _replay_plan (fun r code => _start digest cfg' code Lives r) (fun r call a => replay_answer digest cfg' call a r)
    (fun r calls reason => _replay_lost cfg' calls reason r) _decode digest i (rs ++ rs') st None r =
  _replay_plan (fun r code => _start digest cfg' code Lives r) (fun r call a => replay_answer digest cfg' call a r)
    (fun r calls reason => _replay_lost cfg' calls reason r) _decode digest (length rs + i) rs' st1 None r1.
Proof.
  induction 1 as [r st|r st calls reason rs r' st' Hc _ IH|r st code r1 st1 rs r' st' Hc Hs _ IH|r call x v r1 st1 rs r' st' Hc Ha Hr _ IH];
    intros i rs'; cbn [app length].
  - done.
  - cbn [_replay_plan orb]. rewrite Hc, IH. f_equal. lia.
  - cbn [_replay_plan orb feed]. rewrite Hc, Hs. cbn [mbind result_bind]. rewrite bool_decide_eq_true_2 by (by destruct (_outcome digest st1)).
    rewrite IH. f_equal. lia.
  - destruct x; try done; cbn [_replay_plan orb feed]; rewrite Hc; cbn [negb]; rewrite Ha; cbn [mbind result_bind]; rewrite Hr; cbn [mbind result_bind];
      rewrite bool_decide_eq_true_2 by (by destruct (_outcome digest st1)); rewrite IH; f_equal; lia.
Qed.

Lemma restore_live c s rs : inv c s -> s.(dead) = false -> s.(records) = Some rs -> exists r st,
  _replay digest cfg' rs fresh = Ok (r, st) /\ r.(dead) = false /\ r.(closed) = false /\
  r.(score) = s.(score) /\ r.(lost_runs) = s.(lost_runs) /\ (s.(closed) = false -> r.(paused) = stamp sid' <$> s.(paused)).
Proof.
  intros Hi Hd Hrs. destruct (i_live _ _ Hi Hd rs Hrs) as (r & st & H1 & (H2 & H3 & H4 & H5) & H6 & H7 & H8). exists r, st.
  split_and!; [by apply replay_complete|done..|]. intros Hc. by apply H8.
Qed.

Lemma restore_dead c s rs n reason : inv c s -> s.(records) = Some rs -> s.(lost) = Some (n, reason) -> exists r,
  _replay digest cfg' (take s.(checkpoint) rs ++ [RLost n reason]) fresh = Ok (r, None) /\ r.(dead) = false /\ r.(closed) = false /\
  r.(score) = Core c.(score).(guest) (c.(score).(calls_made) + n) c.(score).(discovered) /\ r.(lost_runs) = s.(lost_runs) + 1 /\ r.(paused) = None.
Proof.
  intros Hi Hrs Hl. destruct (i_rest _ _ Hi rs Hrs) as (_ & _ & r & st & H1 & (H2 & H3 & H4 & H5) & H6 & H7 & H8).
  destruct (replay_lost_fields cfg' n reason r) as (R1 & R2 & R3 & R4 & R5 & R6 & _). exists (_replay_lost cfg' n reason r).
  rewrite R2, R3, R4, R5, R6, H7, H8. split_and!; try done.
  - unfold _replay. rewrite (replay_prefix _ _ _ _ _ H1). cbn [_replay_plan orb]. by rewrite H6.
  - unfold at_stop in H2. rewrite H2. destruct st as [[]|]; done.
Qed.
End Restore.

(** C6. What [dump] writes, [load] reads back: at any point of the life of a session in which no
    tool called by [run] has returned data that is encoded and does not decode (for which see
    [unjournaled_answer_breaks]), if its journal is within its size, [_parse] takes every record of
    it and replaying them on a new session succeeds.  The new session has the guest, the tool calls spent, the tools found and the lost
    runs of the old one, paused at the same call; or, when the worker of the old one had died,
    the guest and the tools as of the last run that ended well and, all the same, every tool
    call charged that the old one had made: dying refunds nothing. *)
Theorem journal_restores `{TextForms} {G} `{Guest G} digest cfg cfg' sid sid' (g0 : G) c s rs :
  cfg'.(catalog) = cfg.(catalog) -> cfg'.(room) = cfg.(room) -> life digest cfg sid g0 c s -> _journal s = Ok rs ->
  check_records (record_value <$> rs) = Ok rs /\
  exists r st, _replay digest cfg' rs (new_session sid' g0) = Ok (r, st) /\ r.(dead) = false /\ r.(closed) = false /\
    if s.(dead)
    then r.(score).(guest) = c.(score).(guest) /\ r.(score).(discovered) = c.(score).(discovered) /\ r.(paused) = None /\
      r.(lost_runs) = s.(lost_runs) + 1 /\
      (s.(score).(calls_made) - c.(score).(calls_made) <= _MAX_LOST_CALLS -> r.(score).(calls_made) = s.(score).(calls_made))
    else r.(score) = s.(score) /\ r.(lost_runs) = s.(lost_runs) /\
      (s.(closed) = false -> r.(paused) = stamp sid' <$> s.(paused)).
Proof.
  intros Hcat Hroom Hl Hj. pose proof (life_inv digest cfg cfg' sid sid' g0 Hcat Hroom c s Hl) as Hi.
  unfold _journal in Hj. destruct (records s) as [rs0|] eqn:Hrs; [|done]. apply Ok_inj in Hj. subst rs.
  pose proof (i_well _ _ _ _ _ _ _ Hi rs0 Hrs) as Hw. destruct (dead s) eqn:Hd.
  - destruct (i_dead _ _ _ _ _ _ _ Hi Hd) as (reason & Hr & E). rewrite E.
    destruct (restore_dead digest cfg cfg' sid sid' g0 Hroom c s rs0 _ reason Hi Hrs E) as (r & H1 & H2 & H3 & H4 & H5 & H6).
    destruct (i_rest _ _ _ _ _ _ _ Hi rs0 Hrs) as (_ & Hk & _). pose proof (i_calls _ _ _ _ _ _ _ Hi) as Hc. split.
    + apply check_records_read, Forall_app. split; [by apply Forall_take|]. constructor; [|constructor].
      cbn. rewrite Hr. unfold _MAX_LOST_CALLS in *. by rewrite (proj2 (Z.leb_le 0 _)), (proj2 (Z.leb_le _ (2 ^ 53))) by lia.
    + exists r, None. rewrite H4. split_and!; try done. cbn. rewrite Hk. lia.
  - split; [by apply check_records_read|]. by eapply restore_live.
Qed.

(** C40. An answer the journal cannot hold breaks it: when a tool called during [run] returns
    data [_encode] takes and [_decode] does not (a dict with a tuple as a key, which comes back
    as a list), the guest is told of an error and goes on, but no answer is recorded.  The next
    outcome stands in the journal with no input before it, and no journal that holds it, now or
    grown by later runs, can be loaded.  Only if the worker dies before that run is over is the
    outcome dropped again, with the run: the journal of the death is loaded. *)
Theorem unjournaled_answer_breaks `{TextForms} {G} `{Guest G} digest cfg cfg' sid sid' (g0 : G) c s call v enc e s' st rs :
  cfg'.(catalog) = cfg.(catalog) -> cfg'.(room) = cfg.(room) -> life digest cfg sid g0 c s ->
  s.(closed) = false -> s.(paused) = Some call -> _encode false cfg.(room) v = Ok enc -> _decode enc = Err e ->
  _inline_call digest cfg call (Returned v) Lives s = (s', st) -> s'.(records) = Some rs ->
  (forall later, _replay digest cfg' (rs ++ later) (new_session sid' g0) = Err (JournalError "an outcome with no input before it")) /\
  (if is_call (Some st)
   then forall calls reason, exists r, _replay digest cfg' (take s'.(checkpoint) rs ++ [RLost calls reason]) (new_session sid' g0) = Ok (r, None)
   else s'.(checkpoint) = length rs).
Proof.
  intros Hcat Hroom Hl Hcl Hp He Hd E Hrs. pose proof (life_inv digest cfg cfg' sid sid' g0 Hcat Hroom c s Hl) as Hi.
  assert (Hdead : s.(dead) = false). { destruct (dead s) eqn:Ed; [|done]. by rewrite (i_gone _ _ _ _ _ _ _ Hi Ed) in Hcl. }
  destruct (i_paused _ _ _ _ _ _ _ Hi _ Hp) as [Hc Hst]. destruct call as [name args id i| |]; try done. cbn in Hst. injection Hst as <-.
  unfold _inline_call, _check_result in E. rewrite He in E. unfold _answer, _check_usable in E.
  rewrite Hdead, Hcl, Hp, (i_sid _ _ _ _ _ _ _ Hi), !Z.eqb_refl in E. cbn [mbind result_bind andb negb] in E. rewrite He in E. cbn [mbind result_bind] in E.
  rewrite Hd in E. cbn [mbind result_bind] in E. destruct (deliver _ _) as [[g n] st0] in E.
  apply next_step_lives in E as (_ & _ & _ & _ & _ & _ & _ & _ & Hx & Hck). specialize (Hck rs Hrs). destruct (Hx rs Hrs) as (rs0 & E0 & ->).
  change (new_session sid' g0) with (fresh sid' g0). split.
  - intros later. destruct (i_live _ _ _ _ _ _ _ Hi Hdead rs0 E0) as (r & stp & H1 & H2 & _ & _ & Hs). specialize (Hs Hcl).
    unfold _replay. rewrite <- app_assoc. erewrite replay_prefix; [|exact Hroom|exact H1]. done.
  - destruct (is_call (Some st)); [|by destruct Hck]. intros calls reason. destruct Hck as [-> _].
    destruct (i_rest _ _ _ _ _ _ _ Hi rs0 E0) as (Hlen & _ & r & stp & H1 & _ & H3 & _). cbn [checkpoint with_paused] in *.
    rewrite take_app_le by done. eexists. unfold _replay. erewrite replay_prefix; [|exact Hroom|exact H1]. cbn [_replay_plan orb]. by rewrite H3.
Qed.

(** ** A session, dumped and loaded *)

#[local] Existing Instance plain_text.

(** A guest that calls a tool, keeps the answer and ends with it. *)
#[local] Instance asking_guest : Guest (list pyval) := {|
  run_code c _ := (c.(guest), 1%nat, ToolCall (u "t") [] 1 0);
  deliver c a := match a with inl v => (v :: c.(guest), 0%nat, Done v) | inr (cls, m) => (c.(guest), 0%nat, Failed cls m cls) end
|}.

Definition w_cfg : config := Config 1000 true (fun _ => false) [] 5.
Definition w_digest (_ : list pyval) : list Z := [7].
Definition w_value : pyval := PDict [(PStr (u "a"), PTuple [PInt (2 ^ 60); PFloat SpecFloat.S754_nan])].

Lemma journal_restores_witness : exists (c s : session (list pyval)) rs r,
  life w_digest w_cfg 1 [] c s /\ s.(dead) = true /\ _journal s = Ok rs /\
  _replay w_digest w_cfg rs (new_session 2 []) = Ok (r, None) /\ r.(score).(calls_made) = 2.
Proof.
  destruct (_start w_digest w_cfg (u "x") Lives (new_session 1 [])) as [[s1 t1]|] eqn:E1; [|vm_compute in E1; discriminate].
  destruct (_resume w_digest w_cfg t1 (Some w_value) None Lives s1) as [[s2 t2]|] eqn:E2;
    [|vm_compute in E1; injection E1 as <- <-; vm_compute in E2; discriminate].
  destruct (_start w_digest w_cfg (u "y") Lives s2) as [[s3 t3]|] eqn:E3;
    [|vm_compute in E1; injection E1 as <- <-; vm_compute in E2; injection E2 as <- <-; vm_compute in E3; discriminate].
  set (s4 := _stop_run w_digest w_cfg [] 0 (u "Timeout") [] (u "Timeout") s3).
  assert (L1 : life w_digest w_cfg 1 [] (settle (new_session 1 []) s1) s1) by exact (life_start _ _ _ _ _ _ _ _ _ _ (life_new _ _ _ _) E1).
  vm_compute in E1. injection E1 as <- <-.
  assert (L2 := life_resume _ _ _ _ _ _ _ (Some w_value) _ _ _ _ L1 eq_refl eq_refl E2). vm_compute in E2. injection E2 as <- <-.
  assert (L3 := life_start _ _ _ _ _ _ _ _ _ _ L2 E3). vm_compute in E3. injection E3 as <- <-.
  assert (L4 := life_stop _ _ _ _ _ _ _ [] 0 (u "Timeout") [] (u "Timeout") L3 eq_refl eq_refl).
  destruct (_journal s4) as [rs|] eqn:Ej; [|vm_compute in Ej; discriminate].
  destruct (journal_restores w_digest w_cfg w_cfg 1 2 [] _ _ rs eq_refl eq_refl L4 Ej) as (_ & r & st & Hr & _ & _ & Hrest).
  eexists _, _, rs, r. split_and!; [exact L4|reflexivity|exact Ej| |].
  - vm_compute in Ej. injection Ej as <-. vm_compute in Hr. injection Hr as <- <-. reflexivity.
  - destruct Hrest as (_ & _ & _ & _ & Hc). rewrite Hc; vm_compute; [reflexivity|discriminate].
Defined.

Lemma unjournaled_answer_breaks_witness : exists rs,
  _replay w_digest w_cfg (rs ++ []) (new_session (G := list pyval) 2 []) = Err (JournalError "an outcome with no input before it").
Proof.
  destruct (_start w_digest w_cfg (u "x") Lives (new_session 1 [])) as [[s1 t1]|] eqn:E1; [|vm_compute in E1; discriminate].
  assert (L1 : life w_digest w_cfg 1 [] (settle (new_session 1 []) s1) s1) by exact (life_start _ _ _ _ _ _ _ _ _ _ (life_new _ _ _ _) E1).
  vm_compute in E1. injection E1 as <- <-. eexists.
  apply (proj1 (unjournaled_answer_breaks w_digest w_cfg w_cfg 1 2 [] _ _ _ (PDict [(PTuple [PInt 1], PInt 2)]) _ _ _ _ _
    eq_refl eq_refl L1 eq_refl eq_refl eq_refl eq_refl eq_refl eq_refl)).
Defined.
