(* ===== verification/ToolProc.v ===== *)
(** * Tool processes ([python/pydeno/_toolproc.py])

    A supervised child process that runs host tools.  Three threads of the parent work on one
    [_Child]: callers that submit, the reader of the child's frames, and the watcher of deadlines,
    memory and CPU; anyone may kill it.  The model is their interleaving, one lock section or one
    settled future at a time; what the child sends and how the clock runs are inputs.  Of a frame
    only a dict arrives ([_wire.loads_decoded]). *)

From S2P Require Import Prelude Utf8 PyVal PyStr Journal.

(** What a call's future is settled with. *)
Inductive settled :=
| Value (v : pyval)
| Remote (cls message : list Z)
| ToolResultTooLarge
| ToolProcessDied (message : list Z)
| ToolProcessStartError (message : list Z)
| TimedOut
| Cancelled.

Record call := Call { deadline : option Z; cpu_start : option Z }.

(** The reader: waiting for a frame, about to settle the call a frame answers (and to kill, for
    an invalid one), about to blame the protocol, out of its loop, with the death described, with
    the error chosen, failing what was in flight, done. *)
Inductive reader :=
| Reading
| Settling (cid : Z) (w : settled) (kill_with : option (list Z))
| Blaming (why : list Z)
| Broke
| Described (message : list Z)
| Taking (w : settled)
| Failing (cids : list Z) (w : settled)
| Ended.

(** The watcher: between two looks, having found late calls, failing the ones it took, done
    with deadlines. *)
Inductive watcher :=
| Waiting
| Late (cids : list Z) (calls : list (Z * call))
| Expiring (cids : list Z) (calls : list (Z * call))
| Usage (calls : list (Z * call))
| Stopped.

(** [futures]: every call registered, and what it was settled with. *)
Record _Child := Child {
  max_memory : option Z; cpu_seconds : option Z;
  pending : gmap Z call; next_cid : Z; dead : bool; reason : option (list Z); start_error : option (list Z); sandbox : list Z;
  gone : bool; stop : bool; is_ready : bool; finished : bool;
  futures : gmap Z (option settled); rd : reader; wt : watcher
}.

Definition child_init (mem cpu : option Z) : _Child :=
  Child mem cpu ∅ 1 false None None (u "none") false false false false ∅ Reading Waiting.

Definition with_pending (p : gmap Z call) (c : _Child) : _Child :=
  Child c.(max_memory) c.(cpu_seconds) p c.(next_cid) c.(dead) c.(reason) c.(start_error) c.(sandbox) c.(gone) c.(stop) c.(is_ready) c.(finished) c.(futures) c.(rd) c.(wt).
Definition with_rd (r : reader) (c : _Child) : _Child :=
  Child c.(max_memory) c.(cpu_seconds) c.(pending) c.(next_cid) c.(dead) c.(reason) c.(start_error) c.(sandbox) c.(gone) c.(stop) c.(is_ready) c.(finished) c.(futures) r c.(wt).
Definition with_wt (w : watcher) (c : _Child) : _Child :=
  Child c.(max_memory) c.(cpu_seconds) c.(pending) c.(next_cid) c.(dead) c.(reason) c.(start_error) c.(sandbox) c.(gone) c.(stop) c.(is_ready) c.(finished) c.(futures) c.(rd) w.
Definition with_reason (r : option (list Z)) (c : _Child) : _Child :=
  Child c.(max_memory) c.(cpu_seconds) c.(pending) c.(next_cid) c.(dead) r c.(start_error) c.(sandbox) c.(gone) c.(stop) c.(is_ready) c.(finished) c.(futures) c.(rd) c.(wt).

(** [_terminate]: the process is killed and reaped. *)
Definition _terminate (c : _Child) : _Child :=
  Child c.(max_memory) c.(cpu_seconds) c.(pending) c.(next_cid) c.(dead) c.(reason) c.(start_error) c.(sandbox) true c.(stop) c.(is_ready) c.(finished) c.(futures) c.(rd) c.(wt).

(** [_Call.fail] and [_Call.succeed]: nothing on a future that is done. *)
Definition settle (cid : Z) (w : settled) (c : _Child) : _Child :=
  match c.(futures) !! cid with
  | Some None =>
      Child c.(max_memory) c.(cpu_seconds) c.(pending) c.(next_cid) c.(dead) c.(reason) c.(start_error) c.(sandbox) c.(gone) c.(stop) c.(is_ready) c.(finished)
        (<[cid := Some w]> c.(futures)) c.(rd) c.(wt)
  | _ => c
  end.

Definition kill (why : list Z) (c : _Child) : _Child :=
  _terminate (with_reason (match c.(reason) with Some r => Some r | None => Some why end) c).

(** [submit], up to the send: the call's id, or nothing for a child that is dying. *)
Definition submit (dl cpu : option Z) (c : _Child) : option Z * _Child :=
  if c.(dead) || match c.(reason) with Some _ => true | None => false end then (None, c)
  else
    let cid := c.(next_cid) in
    (Some cid,
     Child c.(max_memory) c.(cpu_seconds) (<[cid := Call dl cpu]> c.(pending)) (cid + 1) c.(dead) c.(reason) c.(start_error) c.(sandbox) c.(gone) c.(stop) c.(is_ready)
       c.(finished) (<[cid := None]> c.(futures)) c.(rd) c.(wt)).

(** What the send raised: [StalledWrite] or another error. *)
Definition send_failed (stalled : bool) (c : _Child) : _Child :=
  kill (u (if stalled then "the tool process stopped reading its calls" else "the tool process died before it could be sent the call")) c.

(** ** Frames *)

Definition _MAX_REMOTE_MESSAGE : nat := 64 * 1024.

Definition int_of (v : pyval) : option Z := match v with PInt z => Some z | PBool b => Some (Z.b2z b) | _ => None end.
Definition is_text (t : string) (v : pyval) : bool := match v with PStr s => bool_decide (s = u t) | _ => false end.
Definition text_or (d : string) (v : pyval) : list Z := match v with PStr s => s | _ => u d end.

Definition _remote_class (name : pyval) : list Z :=
  match name with PStr s => if _SAFE_ERROR_NAME s then s else u "Exception" | _ => u "Exception" end.

Definition cut_message (t : list Z) : list Z := if (_MAX_REMOTE_MESSAGE <? length t)%nat then take _MAX_REMOTE_MESSAGE t ++ u "..." else t.

Definition invalid_frame : list Z := u "the tool process sent a frame that is not valid".

(** What a frame that answers a call settles it with, and the kill that follows. *)
Definition frame_outcome (message : list (pyval * pyval)) : settled * option (list Z) :=
  let kind := get_or PNone "t" message in
  if is_text "result" kind then (Value (get_or PNone "v" message), None)
  else if is_text "error" kind then
    (Remote (_remote_class (get_or PNone "etype" message)) (cut_message (text_or "" (get_or PNone "msg" message))), None)
  else if is_text "toolarge" kind then (ToolResultTooLarge, None)
  else (ToolProcessDied invalid_frame, Some invalid_frame).

Definition _on_frame (message : list (pyval * pyval)) (c : _Child) : _Child :=
  let kind := get_or PNone "t" message in
  let cid := get_or PNone "cid" message in
  if is_text "ready" kind then
    Child c.(max_memory) c.(cpu_seconds) c.(pending) c.(next_cid) c.(dead) c.(reason) c.(start_error) (text_or "none" (get_or PNone "sandbox" message)) c.(gone) c.(stop) true c.(finished) c.(futures) c.(rd) c.(wt)
  else if is_text "error" kind && eq_int cid 0 then
    let t := text_or "error" (get_or PNone "etype" message) ++ u ": " ++ text_or "" (get_or PNone "msg" message) in
    Child c.(max_memory) c.(cpu_seconds) c.(pending) c.(next_cid) c.(dead) c.(reason) (Some (take _MAX_REMOTE_MESSAGE t)) c.(sandbox) c.(gone) c.(stop) c.(is_ready)
      c.(finished) c.(futures) c.(rd) c.(wt)
  else
    match int_of cid with
    | Some cid =>
        match c.(pending) !! cid with
        | Some _ => let '(w, k) := frame_outcome message in with_rd (Settling cid w k) (with_pending (delete cid c.(pending)) c)
        | None => c
        end
    | None => c
    end.

(** ** The end *)

(** [returncode], by what [_describe_death] reads of it. *)
Inductive exit_status := Signalled (name : list Z) | ExitCode (code : Z).

Definition _describe_death (code : option exit_status) (c : _Child) : list Z :=
  match c.(reason) with
  | Some r => r
  | None =>
      match c.(start_error) with
      | Some e => u "the tool process failed to start: " ++ e
      | None =>
          match code with
          | Some (Signalled name) => u "the tool process died (killed by signal " ++ name ++ u ")"
          | Some (ExitCode n) => if n =? 0 then u "the tool process exited" else u ("the tool process died (exit code " ++ str_of_int n ++ ")")
          | None => u "the tool process exited"
          end
      end
  end.

(** [_finish], step by step: the process is reaped and the death described, the error chosen, what
    is in flight taken. *)
Definition finish_describe (code : option exit_status) (c : _Child) : _Child :=
  let c := _terminate c in with_rd (Described (_describe_death code c)) c.

Definition finish_choose (message : list Z) (c : _Child) : _Child :=
  with_rd (Taking (match c.(start_error), c.(reason) with Some _, None => ToolProcessStartError message | _, _ => ToolProcessDied message end)) c.

Definition finish_take (w : settled) (c : _Child) : _Child :=
  Child c.(max_memory) c.(cpu_seconds) ∅ c.(next_cid) true c.(reason) c.(start_error) c.(sandbox) c.(gone) c.(stop) c.(is_ready) c.(finished) c.(futures)
    (Failing (map_to_list c.(pending)).*1 w) c.(wt).

Definition finish_tail (c : _Child) : _Child :=
  Child c.(max_memory) c.(cpu_seconds) c.(pending) c.(next_cid) c.(dead) c.(reason) c.(start_error) c.(sandbox) c.(gone) true true true c.(futures) Ended c.(wt).

(** ** The watcher *)

Definition late_calls (now : Z) (calls : list (Z * call)) : list Z :=
  (filter (fun x => match x.2.(deadline) with Some d => d <=? now | None => false end = true) calls).*1.

Definition watch_look (now : Z) (c : _Child) : _Child :=
  let calls := map_to_list c.(pending) in
  with_wt (match late_calls now calls with [] => Usage calls | late => Late late calls end) c.

(** [expire], its lock section: the late calls that are still pending are taken. *)
Definition expire_take (cids : list Z) (calls : list (Z * call)) (c : _Child) : _Child :=
  let taken := filter (fun cid => is_Some (c.(pending) !! cid)) cids in
  with_wt (Expiring taken calls) (with_pending (foldr delete c.(pending) taken) c).

Definition over_cpu (cpu : Z) (limit : Z) (calls : list (Z * call)) : bool :=
  existsb (fun x => match x.2.(cpu_start) with Some s => limit <? cpu - s | None => false end) calls.

Definition over_memory (rss : option Z) (c : _Child) : option (Z * Z) :=
  match c.(max_memory), rss with Some m, Some r => if m <? r then Some (r, m) else None | _, _ => None end.

(** [cpu_seconds] is a number of clock ticks; the message leaves it out. *)
Definition watch_usage (rss cpu : option Z) (calls : list (Z * call)) (c : _Child) : _Child :=
  let c := with_wt Waiting c in
  match over_memory rss c with
  | Some (r, m) => kill (u ("the tool process was killed: it used " ++ str_of_int r ++ " bytes, over max_memory=" ++ str_of_int m)) c
  | None =>
      match c.(cpu_seconds), cpu with
      | Some l, Some n =>
          if over_cpu n l calls then kill (u "the tool process was killed: it used more than cpu_seconds of CPU in one call") c else c
      | _, _ => c
      end
  end.

Definition deadline_kill : list Z := u "the tool process was killed: a call outlasted its deadline".

(** ** The interleaving *)

Inductive step : _Child -> _Child -> Prop :=
| st_submit c dl cpu : step c (submit dl cpu c).2
| st_send_failed c stalled : step c (send_failed stalled c)
| st_cancel c cid : step c (settle cid Cancelled c)
| st_kill c why : step c (kill why c)
| st_exits c : step c (_terminate c)
| st_settle c cid w k : c.(rd) = Settling cid w k ->
    step c (with_rd Reading (match k with Some why => kill why (settle cid w c) | None => settle cid w c end))
| st_invalid c : c.(rd) = Reading -> step c (with_rd Broke (kill invalid_frame c))
| st_protocol c why : c.(rd) = Reading -> step c (with_rd (match c.(reason) with None => Blaming why | Some _ => Broke end) c)
| st_blame c why : c.(rd) = Blaming why -> step c (with_rd Broke (with_reason (Some why) c))
| st_eof c : c.(rd) = Reading -> step c (with_rd Broke c)
| st_describe c code : c.(rd) = Broke -> step c (finish_describe code c)
| st_choose c message : c.(rd) = Described message -> step c (finish_choose message c)
| st_take c w : c.(rd) = Taking w -> step c (finish_take w c)
| st_finish_fail c cid cids w : c.(rd) = Failing (cid :: cids) w -> step c (with_rd (Failing cids w) (settle cid w c))
| st_finish_tail c w : c.(rd) = Failing [] w -> step c (finish_tail c)
| st_look c now : c.(wt) = Waiting -> c.(stop) = false -> step c (watch_look now c)
| st_watch_stop c : c.(wt) = Waiting -> c.(stop) = true -> step c (with_wt Stopped c)
| st_expire c cids calls : c.(wt) = Late cids calls -> step c (expire_take cids calls c)
| st_expire_fail c cid cids calls : c.(wt) = Expiring (cid :: cids) calls -> step c (with_wt (Expiring cids calls) (settle cid TimedOut c))
| st_expire_kill c calls : c.(wt) = Expiring [] calls -> step c (with_wt (Usage calls) (kill deadline_kill c))
| st_usage c rss cpu calls : c.(wt) = Usage calls -> step c (watch_usage rss cpu calls c).

(** [frames]: what the child has sent. *)
Inductive reachable (mem cpu : option Z) : list (list (pyval * pyval)) -> _Child -> Prop :=
| reach_init : reachable mem cpu [] (child_init mem cpu)
| reach_frame frames c message : reachable mem cpu frames c -> c.(rd) = Reading ->
    reachable mem cpu (frames ++ [message]) (_on_frame message c)
| reach_step frames c c' : reachable mem cpu frames c -> step c c' -> reachable mem cpu frames c'.

(** ** The tool process *)

(** Names like [module:function]. *)
Definition name_run (s : list Z) : option (list Z) :=
  match s with
  | c :: s' => if word_start c then Some (span (fun c => word_start c || is_digit c) s').2 else None
  | [] => None
  end.
Fixpoint dotted (fuel : nat) (s : list Z) : option (list Z) :=
  match fuel, name_run s with
  | S fuel, Some (c :: s') => if c =? chr "." then dotted fuel s' else Some (c :: s')
  | _, r => r
  end.
Definition _SPEC (s : list Z) : bool :=
  match dotted (length s) s with
  | Some (c :: s') => (c =? chr ":") && match dotted (length s') s' with Some [] => true | _ => false end
  | _ => false
  end.

(** A tool as it was given: text, or a function by its names and whether its module exports it
    under them, or another object. *)
Inductive target := Named (s : list Z) | Function_ (name module qualname : list Z) (exported : bool) | OtherObject.

Definition _spec_of (t : target) : result exn (list Z) :=
  match t with
  | Named s =>
      if negb (_SPEC s) then Err (ValueError "is not a tool name")
      else if bool_decide ((partition (chr ":") s).1.1 = u "__main__") then Err (ValueError "'__main__' cannot be imported by the tool host")
      else Ok s
  | OtherObject => Err (TypeError "a tool process runs importable module-level functions")
  | Function_ name module qualname exported =>
      if bool_decide (name = u "<lambda>") || contains (u "<locals>") qualname then Err (TypeError "a tool process cannot receive it")
      else if bool_decide (module = u "__main__") then Err (TypeError "is defined in __main__")
      else if negb exported then Err (TypeError "is not the function that module exports under that name")
      else Ok (module ++ u ":" ++ qualname)
  end.

(** The children a process ever started, and the index of the one in its box: a caller that was
    handed a child keeps it when the box has moved on. *)
Record ToolProcess := ToolProc {
  p_memory : option Z; p_cpu : option Z; sandboxed : bool; specs : list (list Z);
  p_closed : bool; foreign : bool; started_once : bool; starts : Z; children : list _Child; box : option nat
}.
Definition with_box (b : option nat) (p : ToolProcess) : ToolProcess :=
  ToolProc p.(p_memory) p.(p_cpu) p.(sandboxed) p.(specs) p.(p_closed) p.(foreign) p.(started_once) p.(starts) p.(children) b.
Definition on_child (i : nat) (f : _Child -> _Child) (p : ToolProcess) : ToolProcess :=
  ToolProc p.(p_memory) p.(p_cpu) p.(sandboxed) p.(specs) p.(p_closed) p.(foreign) p.(started_once) p.(starts) (alter f i p.(children)) p.(box).

Definition process_init (mem cpu : option Z) (sb : bool) : ToolProcess := ToolProc mem cpu sb [] false false false 0 [] None.

Definition tool (t : target) (p : ToolProcess) : result exn (list Z) * ToolProcess :=
  match _spec_of t with
  | Err e => (Err e, p)
  | Ok spec =>
      if bool_decide (spec ∈ p.(specs)) then (Ok spec, p)
      else if p.(sandboxed) && p.(started_once) then (Err (RuntimeError "register every tool before the first call"), p)
      else (Ok spec, ToolProc p.(p_memory) p.(p_cpu) p.(sandboxed) (p.(specs) ++ [spec]) p.(p_closed) p.(foreign) p.(started_once) p.(starts) p.(children) p.(box))
  end.

(** What a [ToolProcess] itself raises; [SpawnFailed] is what starting the child raised. *)
Inductive tool_exn := ToolProcessError (msg : string) | KeptDying | NotReady | StartError (message : list Z) | SpawnFailed.

Definition usable_child (c : _Child) : bool := negb c.(dead) && match c.(reason) with None => true | Some _ => false end.

(** [_child]; [spawns]: whether a child can be started. *)
Definition _child (spawns : bool) (p : ToolProcess) : result tool_exn nat * ToolProcess :=
  if p.(p_closed) then (Err (ToolProcessError "the tool process is closed"), p)
  else if p.(foreign) then (Err (ToolProcessError "this ToolProcess belongs to another process"), p)
  else
    match (i ← p.(box); c ← p.(children) !! i; if usable_child c then Some i else None) with
    | Some i => (Ok i, p)
    | None =>
        let cs := if spawns then p.(children) ++ [child_init p.(p_memory) p.(p_cpu)] else p.(children) in
        let i := length p.(children) in
        let b := if spawns then Some i else p.(box) in
        (if spawns then Ok i else Err SpawnFailed,
         ToolProc p.(p_memory) p.(p_cpu) p.(sandboxed) p.(specs) p.(p_closed) p.(foreign) true (p.(starts) + 1) cs b)
    end.

(** One attempt of [_submit], its arguments encoded: [others] is what the other threads did between
    handing out the child and registering the call. *)
Definition attempt (spawns : bool) (others : ToolProcess -> ToolProcess) (dl cpu : option Z) (p : ToolProcess) : result tool_exn (option (nat * Z)) * ToolProcess :=
  match _child spawns p with
  | (Err e, p) => (Err e, p)
  | (Ok i, p) =>
      let p := others p in
      match (p.(children) !! i) with
      | None => (Ok None, p)
      | Some c =>
          let '(r, c') := submit dl cpu c in
          (Ok ((fun cid => (i, cid)) <$> r), on_child i (fun _ => c') p)
      end
  end.

Fixpoint submit_tries (tries : list (bool * (ToolProcess -> ToolProcess))) (dl cpu : option Z) (p : ToolProcess) : result tool_exn (nat * Z) * ToolProcess :=
  match tries with
  | [] => (Err KeptDying, p)
  | (spawns, others) :: tries =>
      match attempt spawns others dl cpu p with
      | (Err e, p) => (Err e, p)
      | (Ok (Some h), p) => (Ok h, p)
      | (Ok None, p) => submit_tries tries dl cpu p
      end
  end.
Definition _submit (t1 t2 t3 : bool * (ToolProcess -> ToolProcess)) : option Z -> option Z -> ToolProcess -> result tool_exn (nat * Z) * ToolProcess :=
  submit_tries [t1; t2; t3].

(** [start], once the wait for [ready] is over. *)
Definition start_end (code : option exit_status) (c : _Child) : result tool_exn unit :=
  if negb c.(is_ready) then Err NotReady else if c.(dead) then Err (StartError (_describe_death code c)) else Ok tt.

Definition applied_sandbox (p : ToolProcess) : list Z :=
  match (i ← p.(box); p.(children) !! i) with Some c => c.(sandbox) | None => u "none" end.

Definition pid (p : ToolProcess) : option nat :=
  i ← p.(box); c ← p.(children) !! i; if c.(dead) then None else Some i.

(** In a forked process: its copy of the child is let go. *)
Definition drop_inherited (c : _Child) : _Child :=
  Child c.(max_memory) c.(cpu_seconds) c.(pending) c.(next_cid) true c.(reason) c.(start_error) c.(sandbox) c.(gone) true c.(is_ready) c.(finished) c.(futures) c.(rd) c.(wt).

(** [close] up to waiting for the reader, and after it; a forked copy only lets go. *)
Definition close (p : ToolProcess) : ToolProcess :=
  let p := ToolProc p.(p_memory) p.(p_cpu) p.(sandboxed) p.(specs) true p.(foreign) p.(started_once) p.(starts) p.(children) p.(box) in
  match p.(box) with
  | None => p
  | Some i => if p.(foreign) then with_box None (on_child i drop_inherited p) else on_child i (kill (u "the tool process was closed")) p
  end.
Definition close_end : ToolProcess -> ToolProcess := with_box None.
