(* ===== verification/ToolProcProps.v ===== *)
(** * Properties of tool processes

    Whatever the child sends and whenever it dies, every call is settled, and with its own answer. *)

From stdpp Require Import relations.
From S2P Require Import Prelude Utf8 PyVal PyStr Journal ToolProc.

(** ** The invariant: an open call is in somebody's hands *)

Definition reader_holds (r : reader) (cid : Z) : Prop :=
  match r with Settling cid' _ _ => cid = cid' | Failing cids _ => cid ∈ cids | _ => False end.
Definition watcher_holds (w : watcher) (cid : Z) : Prop :=
  match w with Expiring cids _ => cid ∈ cids | _ => False end.
Definition held (c : _Child) (cid : Z) : Prop :=
  is_Some (c.(pending) !! cid) \/ reader_holds c.(rd) cid \/ watcher_holds c.(wt) cid.

Definition leaving (r : reader) : Prop := match r with Failing _ _ | Ended => True | _ => False end.

Record child_ok (c : _Child) : Prop := ChildOk {
  ok_held : forall cid, c.(futures) !! cid = Some None -> held c cid;
  ok_fresh : forall cid, is_Some (c.(futures) !! cid) -> cid < c.(next_cid);
  ok_dead : leaving c.(rd) -> c.(dead) = true /\ c.(pending) = ∅;
  ok_finished : c.(finished) = true -> c.(rd) = Ended
}.

Lemma child_ok_init mem cpu : child_ok (child_init mem cpu).
Proof. split; cbn; try done; intros cid [? Hx]; done. Qed.

(** What settling leaves alone, and what it does to the futures. *)
Lemma settle_fields cid w c :
  let c' := settle cid w c in
  c'.(pending) = c.(pending) /\ c'.(next_cid) = c.(next_cid) /\ c'.(dead) = c.(dead) /\ c'.(finished) = c.(finished) /\
  c'.(rd) = c.(rd) /\ c'.(wt) = c.(wt) /\
  c'.(futures) = (match c.(futures) !! cid with Some None => <[cid := Some w]> c.(futures) | _ => c.(futures) end).
Proof. cbn. unfold settle. destruct (c.(futures) !! cid) as [[?|]|]; done. Qed.

Lemma settle_open cid w c x :
  (settle cid w c).(futures) !! x = Some None <-> c.(futures) !! x = Some None /\ x <> cid.
Proof.
  destruct (settle_fields cid w c) as (_&_&_&_&_&_&->).
  destruct (c.(futures) !! cid) as [[?|]|] eqn:E; [| rewrite lookup_insert_Some |]; naive_solver.
Qed.

Lemma settle_known cid w c x : is_Some ((settle cid w c).(futures) !! x) <-> is_Some (c.(futures) !! x).
Proof.
  destruct (settle_fields cid w c) as (_&_&_&_&_&_&->).
  destruct (c.(futures) !! cid) as [[?|]|] eqn:E; [done | | done].
  rewrite lookup_insert_is_Some. destruct (decide (cid = x)) as [<-|]; [rewrite E; naive_solver | naive_solver].
Qed.

(** The call of a settled future is no longer needed. *)
Lemma settle_ok cid w c c' :
  child_ok c -> c'.(futures) = (settle cid w c).(futures) -> c'.(next_cid) = c.(next_cid) ->
  (leaving c'.(rd) -> c'.(dead) = true /\ c'.(pending) = ∅) -> (c'.(finished) = true -> c'.(rd) = Ended) ->
  (forall x, x <> cid -> held c x -> held c' x) -> child_ok c'.
Proof.
  intros [H1 H2 H3 H4] Hf Hn Hd Hfin Hh. split; [| | done | done].
  - intros x. rewrite Hf, settle_open. intros [Hx Hne]. auto.
  - intros x. rewrite Hf, settle_known, Hn. apply H2.
Qed.

(** Steps that leave the futures alone. *)
Lemma same_ok c c' :
  child_ok c -> c'.(futures) = c.(futures) -> c'.(next_cid) = c.(next_cid) ->
  (leaving c'.(rd) -> c'.(dead) = true /\ c'.(pending) = ∅) -> (c'.(finished) = true -> c'.(rd) = Ended) ->
  (forall x, held c x -> held c' x) -> child_ok c'.
Proof.
  intros [H1 H2 H3 H4] Hf Hn Hd Hfin Hh. split; [| | done | done].
  - intros x. rewrite Hf. auto.
  - intros x. rewrite Hf, Hn. apply H2.
Qed.

(** Closes the goals a step leaves: what moved hands is still held. *)
Ltac hands := intros; unfold held, leaving in *; cbn in *; repeat match goal with E : rd _ = _ |- _ => rewrite E in * | E : wt _ = _ |- _ => rewrite E in * end; cbn in *; try naive_solver.

Lemma kill_ok why c : child_ok c -> child_ok (kill why c).
Proof. intros H; apply (same_ok c); [done | done | done | exact (ok_dead _ H) | exact (ok_finished _ H) | hands]. Qed.

Lemma submit_ok dl cpu c : child_ok c -> child_ok (submit dl cpu c).2.
Proof.
  intros H. unfold submit. destruct (c.(dead) || _) eqn:E; [done|]. apply orb_false_iff in E as [Ed _].
  destruct H as [H1 H2 H3 H4]. split; cbn.
  - intros x. rewrite lookup_insert_Some. intros [[<- _] | [Hne Hx]]; [left; cbn; rewrite lookup_insert_eq; done|].
    destruct (H1 x Hx) as [Hp | Hh]; [left; cbn; rewrite lookup_insert_ne by done; done | right; exact Hh].
  - intros x. rewrite lookup_insert_is_Some. intros [<- | [_ Hx]]; [lia | specialize (H2 _ Hx); lia].
  - intros Hl. destruct (H3 Hl) as [Hd _]. congruence.
  - exact H4.
Qed.

Lemma watch_usage_kill rss cpu calls c : watch_usage rss cpu calls c = with_wt Waiting c \/ exists why, watch_usage rss cpu calls c = kill why (with_wt Waiting c).
Proof. unfold watch_usage. cbv zeta. destruct (over_memory _ _) as [[r m]|]; [eauto|]. destruct (cpu_seconds _), cpu as [n|]; try case_match; eauto. Qed.

Lemma foldr_delete_lookup (p : gmap Z call) cids x : foldr delete p cids !! x = if decide (x ∈ cids) then None else p !! x.
Proof.
  induction cids as [|y cids IH]; cbn; [case_decide as E; [set_solver | done]|].
  destruct (decide (x = y)) as [->|Hne]; [rewrite lookup_delete_eq, decide_True by set_solver; done|].
  rewrite lookup_delete_ne, IH by done. repeat case_decide; set_solver.
Qed.

Lemma expire_ok cids calls c : child_ok c -> c.(wt) = Late cids calls -> child_ok (expire_take cids calls c).
Proof.
  intros H E. apply (same_ok c); [done | done | done | | exact (ok_finished _ H) |].
  - cbn. intros Hl. destruct (ok_dead _ H Hl) as [Hd Hp]. split; [done|]. apply map_eq; intros x. rewrite foldr_delete_lookup, Hp. case_decide; done.
  - intros x [Hp | [Hr | Hw]]; [| right; left; exact Hr | rewrite E in Hw; done]. unfold held; cbn. rewrite foldr_delete_lookup.
    case_decide as Hin; [right; right; exact Hin | left; exact Hp].
Qed.

Lemma take_ok w c : child_ok c -> c.(rd) = Taking w -> child_ok (finish_take w c).
Proof.
  intros H E. apply (same_ok c); [done | done | done | done | |].
  - cbn. intros Hf. rewrite (ok_finished _ H Hf) in E. done.
  - intros x [Hp | [Hr | Hw]]; [| rewrite E in Hr; done | right; right; exact Hw].
    right; left. cbn. apply list_elem_of_fmap. destruct Hp as [cl Hp]. exists (x, cl). split; [done|]. apply elem_of_map_to_list. exact Hp.
Qed.

Lemma on_frame_ok message c : child_ok c -> c.(rd) = Reading -> child_ok (_on_frame message c).
Proof.
  intros H E. unfold _on_frame. cbv zeta.
  case_match; [apply (same_ok c); [done | done | done | exact (ok_dead _ H) | exact (ok_finished _ H) | hands]|].
  case_match; [apply (same_ok c); [done | done | done | exact (ok_dead _ H) | exact (ok_finished _ H) | hands]|].
  destruct (int_of _) as [cid|]; [|done]. destruct (c.(pending) !! cid) eqn:Ep; [|done].
  destruct (frame_outcome message) as [w k]. apply (same_ok c); [done | done | done | done | |].
  - cbn. intros Hf. rewrite (ok_finished _ H Hf) in E. done.
  - intros x [Hp | [Hr | Hw]]; [| rewrite E in Hr; done | right; right; exact Hw].
    destruct (decide (x = cid)) as [->|Hne]; [right; left; done | left; cbn; rewrite lookup_delete_ne by done; exact Hp].
Qed.

Lemma child_step_ok c c' : child_ok c -> step c c' -> child_ok c'.
Proof.
  intros H Hst. pose proof (ok_dead _ H) as Hd. pose proof (ok_finished _ H) as Hf.
  destruct Hst as [c dl cpu|c stalled|c cid|c why|c|c cid w k E|c E|c why E|c why E|c E|c code E|c m E|c w E|c cid cids w E|c w E|c now E _|c E _|c cids calls E|c cid cids calls E|c calls E|c rss cpu calls E].
  7-12: by (apply (same_ok c); [done | done | done | cbn; try case_match; done | hands | hands]).
  - by apply submit_ok.
  - by apply kill_ok.
  - destruct (settle_fields cid Cancelled c) as (P1&P2&P3&P4&P5&P6&_).
    apply (settle_ok cid Cancelled c); [done | done | done | by rewrite P5, P3, P1 | by rewrite P4, P5 |].
    intros x _. unfold held. rewrite P1, P5, P6. done.
  - by apply kill_ok.
  - apply (same_ok c); [done | done | done | exact Hd | exact Hf | hands].
  - destruct (settle_fields cid w c) as (P1&P2&P3&P4&P5&P6&_).
    apply (settle_ok cid w c); [done | by destruct k | by destruct k | done | |].
    + intros Hfin. assert (c.(finished) = true) as Hfin' by (rewrite <- P4; destruct k; exact Hfin). rewrite (Hf Hfin') in E. done.
    + intros x Hne [Hp | [Hr | Hw]]; [left; destruct k; cbn; rewrite P1; exact Hp | rewrite E in Hr; done | right; right; destruct k; cbn; rewrite P6; exact Hw].
  - by apply take_ok.
  - destruct (settle_fields cid w c) as (P1&P2&P3&P4&P5&P6&_).
    apply (settle_ok cid w c); [done | done | done | cbn; rewrite P3, P1; intros _; apply Hd; by rewrite E | |].
    + cbn. rewrite P4. intros Hfin. rewrite (Hf Hfin) in E. done.
    + intros x Hne [Hp | [Hr | Hw]]; [left; cbn; rewrite P1; exact Hp | | right; right; cbn; rewrite P6; exact Hw].
      right; left. rewrite E in Hr. cbn in *. set_solver.
  - apply (same_ok c); [done | done | done | cbn; intros _; apply Hd; by rewrite E | done |].
    intros x [Hp | [Hr | Hw]]; [left; exact Hp | rewrite E in Hr; cbn in Hr; set_solver | right; right; exact Hw].
  - apply (same_ok c); [done | done | done | exact Hd | exact Hf | hands].
  - apply (same_ok c); [done | done | done | exact Hd | exact Hf | hands].
  - by apply expire_ok.
  - destruct (settle_fields cid TimedOut c) as (P1&P2&P3&P4&P5&P6&_).
    apply (settle_ok cid TimedOut c); [done | done | done | by cbn; rewrite P5, P3, P1 | by cbn; rewrite P4, P5 |].
    intros x Hne [Hp | [Hr | Hw]]; [left; cbn; rewrite P1; exact Hp | right; left; cbn; rewrite P5; exact Hr |].
    right; right. rewrite E in Hw. cbn in *. set_solver.
  - apply (same_ok c); [done | done | done | exact Hd | exact Hf |].
    intros x [Hp | [Hr | Hw]]; [left; exact Hp | right; left; exact Hr | rewrite E in Hw; cbn in Hw; set_solver].
  - destruct (watch_usage_kill rss cpu calls c) as [-> | [why ->]]; [|apply kill_ok];
      (apply (same_ok c); [done | done | done | exact Hd | exact Hf | hands]).
Qed.

Lemma child_reachable_ok mem cpu frames c : reachable mem cpu frames c -> child_ok c.
Proof. induction 1; [apply child_ok_init | by apply on_frame_ok | by eapply child_step_ok]. Qed.

Lemma rtc_child_ok c c' : rtc step c c' -> child_ok c -> child_ok c'.
Proof. induction 1; [done|]. intros; eauto using child_step_ok. Qed.

(** A call in nobody's hands is settled. *)
Definition all_settled (c : _Child) : Prop := forall cid w, c.(futures) !! cid = Some w -> is_Some w.
Definition not_expiring (c : _Child) : Prop := match c.(wt) with Expiring _ _ => False | _ => True end.

(** The calls the watcher has taken to fail as timed out. *)
Definition expiring (c : _Child) : list Z := match c.(wt) with Expiring cids _ => cids | _ => [] end.

(** The watcher fails the first of them. *)
Definition expires (c c' : _Child) : Prop := exists cid cids calls,
  c.(wt) = Expiring (cid :: cids) calls /\ c' = with_wt (Expiring cids calls) (settle cid TimedOut c).

Lemma finished_expiring c cid : child_ok c -> c.(finished) = true -> c.(futures) !! cid = Some None -> cid ∈ expiring c.
Proof.
  intros H Hf Hw. assert (Hrd := ok_finished _ H Hf). destruct (ok_dead _ H) as [_ Hp]; [by rewrite Hrd|]. unfold expiring.
  destruct (ok_held _ H cid Hw) as [Hx | [Hx | Hx]]; [rewrite Hp in Hx; by destruct Hx | by rewrite Hrd in Hx |].
  by destruct c.(wt).
Qed.

Lemma finished_settled c : child_ok c -> c.(finished) = true -> not_expiring c -> all_settled c.
Proof.
  intros H Hf Hn cid [w|] Hw; [eauto|]. exfalso. pose proof (finished_expiring c cid H Hf Hw) as Hx.
  unfold not_expiring in Hn. unfold expiring in Hx. destruct c.(wt); by try apply not_elem_of_nil in Hx.
Qed.

Lemma finished_expires c : child_ok c -> c.(finished) = true -> exists c', rtc expires c c' /\ all_settled c'.
Proof.
  intros H Hf. remember (expiring c) as cids eqn:E. symmetry in E. revert c H Hf E.
  induction cids as [|cid cids IH]; intros c H Hf E.
  - exists c. split; [apply rtc_refl|]. intros x [w|] Hw; [eauto|]. pose proof (finished_expiring c x H Hf Hw) as Hx.
    rewrite E in Hx. by apply not_elem_of_nil in Hx.
  - unfold expiring in E. destruct c.(wt) as [|? ?|cids' calls| |] eqn:Ew; try done. subst cids'.
    pose proof (st_expire_fail c cid cids calls Ew) as Hst. destruct (settle_fields cid TimedOut c) as (_&_&_&Pf&_).
    destruct (IH _ (child_step_ok _ _ H Hst)) as (c' & Hs & Ha); [by cbn; rewrite Pf|done|].
    exists c'. split; [|done]. eapply rtc_l; [|exact Hs]. by exists cid, cids, calls.
Qed.

(** A settled future keeps what it was settled with. *)
Lemma settle_keeps cid w c x r : c.(futures) !! x = Some (Some r) -> (settle cid w c).(futures) !! x = Some (Some r).
Proof.
  intros Hx. destruct (settle_fields cid w c) as (_&_&_&_&_&_&->).
  destruct (c.(futures) !! cid) as [[?|]|] eqn:E; [done | | done]. rewrite lookup_insert_ne; [done | intros ->; congruence].
Qed.

Lemma step_keeps c c' x r : child_ok c -> step c c' -> c.(futures) !! x = Some (Some r) -> c'.(futures) !! x = Some (Some r).
Proof.
  intros H Hst Hx. destruct Hst; try done; try (by apply settle_keeps).
  - unfold submit. destruct (_ || _); [done|]. cbn. rewrite lookup_insert_ne; [done|]. intros <-.
    assert (next_cid c < next_cid c) by (apply (ok_fresh _ H); eauto). lia.
  - destruct k; by apply (settle_keeps cid).
  - destruct (watch_usage_kill rss cpu calls c) as [-> | [why ->]]; done.
Qed.

Lemma steps_keep c c' x r : child_ok c -> rtc step c c' -> c.(futures) !! x = Some (Some r) -> c'.(futures) !! x = Some (Some r).
Proof. intros H Hst. revert H. induction Hst as [|c1 c2 c3 H12 H23 IH]; [done|]. eauto using child_step_ok, step_keeps. Qed.

(** A registered call stays registered. *)
Lemma step_known c c' x : step c c' -> is_Some (c.(futures) !! x) -> is_Some (c'.(futures) !! x).
Proof.
  intros Hst Hx. destruct Hst; try done; try (by apply settle_known).
  - unfold submit. destruct (_ || _); [done|]. cbn. rewrite lookup_insert_is_Some'. by right.
  - destruct k; by apply (settle_known cid).
  - destruct (watch_usage_kill rss cpu calls c) as [-> | [why ->]]; done.
Qed.

Lemma steps_known c c' x : rtc step c c' -> is_Some (c.(futures) !! x) -> is_Some (c'.(futures) !! x).
Proof. induction 1; eauto using step_known. Qed.

(** ** Progress *)

Lemma drain_expiring cids calls c : c.(wt) = Expiring cids calls -> exists c', rtc step c c' /\ not_expiring c'.
Proof.
  revert c; induction cids as [|cid cids IH]; intros c E.
  - eexists; split; [eapply rtc_once, st_expire_kill, E | done].
  - destruct (IH (with_wt (Expiring cids calls) (settle cid TimedOut c)) eq_refl) as (c' & Hs & Hn).
    exists c'; split; [eapply rtc_l; [eapply st_expire_fail, E | exact Hs] | exact Hn].
Qed.

Lemma drain_failing cids w c : c.(rd) = Failing cids w -> not_expiring c -> exists c', rtc step c c' /\ c'.(finished) = true /\ not_expiring c'.
Proof.
  revert c; induction cids as [|cid cids IH]; intros c E Hn.
  - exists (finish_tail c); split; [eapply rtc_once, st_finish_tail, E | done].
  - destruct (IH (with_rd (Failing cids w) (settle cid w c)) eq_refl) as (c' & Hs & Hr).
    { unfold not_expiring. cbn. destruct (settle_fields cid w c) as (_&_&_&_&_&->&_). exact Hn. }
    exists c'; split; [eapply rtc_l; [eapply st_finish_fail, E | exact Hs] | exact Hr].
Qed.

Lemma drain_broke c : c.(rd) = Broke -> not_expiring c -> exists c', rtc step c c' /\ c'.(finished) = true /\ not_expiring c'.
Proof.
  intros E Hn. set (c1 := finish_describe None c). set (m := _describe_death None (_terminate c)).
  set (c2 := finish_choose m c1). destruct (rd c2) as [| | | | |w| |] eqn:E2; try done.
  destruct (drain_failing _ w (finish_take w c2) eq_refl) as (c' & Hs & Hr); [exact Hn|].
  exists c'; split; [|exact Hr]. eapply rtc_l; [apply (st_describe c None E)|]. eapply rtc_l; [apply (st_choose c1 m eq_refl)|].
  eapply rtc_l; [apply (st_take c2 w E2) | exact Hs].
Qed.

Lemma drain_reading c : c.(rd) = Reading -> not_expiring c -> exists c', rtc step c c' /\ c'.(finished) = true /\ not_expiring c'.
Proof.
  intros E Hn. destruct (drain_broke (with_rd Broke c) eq_refl Hn) as (c' & Hs & Hr).
  exists c'; split; [eapply rtc_l; [apply (st_eof c E) | exact Hs] | exact Hr].
Qed.

Definition ended_finished (c : _Child) : Prop := c.(rd) = Ended -> c.(finished) = true.

Lemma settle_ended cid w c : ended_finished c -> ended_finished (settle cid w c).
Proof. unfold ended_finished. destruct (settle_fields cid w c) as (_&_&_&->&->&_). done. Qed.

Lemma step_ended c c' : ended_finished c -> step c c' -> ended_finished c'.
Proof.
  intros H Hst. destruct Hst; try done; try (by apply settle_ended); try (by apply (settle_ended cid TimedOut)).
  - unfold submit. destruct (_ || _); done.
  - unfold ended_finished. cbn. case_match; done.
  - destruct (watch_usage_kill rss cpu calls c) as [-> | [why ->]]; done.
Qed.

Lemma steps_ended c c' : rtc step c c' -> ended_finished c -> ended_finished c'.
Proof. induction 1; eauto using step_ended. Qed.

Lemma reachable_ended mem cpu frames c : reachable mem cpu frames c -> ended_finished c.
Proof.
  induction 1 as [|frames c message Hr IH E|]; [done | | by eapply step_ended].
  unfold _on_frame. cbv zeta. repeat case_match; done.
Qed.

Lemma drain_reader c : not_expiring c -> ended_finished c ->
  exists c', rtc step c c' /\ c'.(finished) = true /\ not_expiring c'.
Proof.
  intros Hn He. unfold ended_finished in He. destruct c.(rd) as [|cid w k|why| |m|w|cids w|] eqn:E.
  - by apply drain_reading.
  - destruct (settle_fields cid w c) as (_&_&_&_&_&P&_).
    destruct (drain_reading (with_rd Reading (match k with Some why => kill why (settle cid w c) | None => settle cid w c end)) eq_refl) as (c' & Hs & Hr).
    { unfold not_expiring. destruct k; cbn; rewrite P; exact Hn. }
    exists c'; split; [eapply rtc_l; [exact (st_settle c cid w k E) | exact Hs] | exact Hr].
  - destruct (drain_broke (with_rd Broke (with_reason (Some why) c)) eq_refl Hn) as (c' & Hs & Hr).
    exists c'; split; [eapply rtc_l; [exact (st_blame c why E) | exact Hs] | exact Hr].
  - by apply drain_broke.
  - set (c2 := finish_choose m c). destruct (rd c2) as [| | | | |w| |] eqn:E2; try done.
    destruct (drain_failing _ w (finish_take w c2) eq_refl Hn) as (c' & Hs & Hr).
    exists c'; split; [|exact Hr]. eapply rtc_l; [exact (st_choose c m E)|]. eapply rtc_l; [exact (st_take c2 w E2) | exact Hs].
  - destruct (drain_failing _ w (finish_take w c) eq_refl Hn) as (c' & Hs & Hr).
    exists c'; split; [eapply rtc_l; [exact (st_take c w E) | exact Hs] | exact Hr].
  - by eapply drain_failing.
  - exists c; split; [apply rtc_refl | auto].
Qed.

(** From where the parent is, its threads can settle every call, keeping what is settled. *)
Lemma drain c : child_ok c -> ended_finished c ->
  exists c', rtc step c c' /\ c'.(finished) = true /\ all_settled c' /\
    (forall cid r, c.(futures) !! cid = Some (Some r) -> c'.(futures) !! cid = Some (Some r)) /\ child_ok c'.
Proof.
  intros H He. assert (exists c1, rtc step c c1 /\ not_expiring c1) as (c1 & H1 & Hn).
  { unfold not_expiring at 1. destruct c.(wt) eqn:E; try (exists c; rewrite E; split; [apply rtc_refl | done]). by eapply drain_expiring. }
  destruct (drain_reader c1 Hn (steps_ended _ _ H1 He)) as (c2 & H2 & Hf & Hn2).
  assert (H12 : rtc step c c2) by (by transitivity c1).
  assert (Hok : child_ok c2) by eauto using rtc_child_ok.
  exists c2. split; [done|]. split; [done|]. split; [by apply finished_settled|]. split; [|done]. intros cid r. by apply steps_keep.
Qed.

(** ** Whose answer it is *)

(** What only the tool host can have said. *)
Definition from_child (w : settled) : bool :=
  match w with Value _ | Remote _ _ | ToolResultTooLarge => true | _ => false end.

Definition answered (frames : list (list (pyval * pyval))) (cid : Z) (w : settled) : Prop :=
  from_child w = true -> exists message, message ∈ frames /\ int_of (get_or PNone "cid" message) = Some cid /\ (frame_outcome message).1 = w.

Definition reader_answers (frames : list (list (pyval * pyval))) (r : reader) : Prop :=
  match r with
  | Settling cid w _ => answered frames cid w
  | Taking w | Failing _ w => from_child w = false
  | _ => True
  end.

Definition answers_ok (frames : list (list (pyval * pyval))) (c : _Child) : Prop :=
  (forall cid w, c.(futures) !! cid = Some (Some w) -> answered frames cid w) /\ reader_answers frames c.(rd).

Lemma answered_more frames message cid w : answered frames cid w -> answered (frames ++ [message]) cid w.
Proof. intros H Hw. destruct (H Hw) as (m & Hm & Hr). exists m. split; [set_solver | exact Hr]. Qed.

Lemma settle_answers frames cid w c c' : answers_ok frames c -> answered frames cid w ->
  c'.(futures) = (settle cid w c).(futures) -> reader_answers frames c'.(rd) -> answers_ok frames c'.
Proof.
  intros [H1 _] Hw Hf Hr. split; [|done]. intros x r. rewrite Hf. destruct (settle_fields cid w c) as (_&_&_&_&_&_&->).
  destruct (c.(futures) !! cid) as [[?|]|] eqn:E; [apply H1 | | apply H1].
  rewrite lookup_insert_Some. intros [[<- [= <-]] | [_ Hx]]; [done | by apply H1].
Qed.

Lemma settle_reader cid w c : (settle cid w c).(rd) = c.(rd).
Proof. by destruct (settle_fields cid w c) as (_&_&_&_&->&_). Qed.

Lemma step_answers frames c c' : answers_ok frames c -> step c c' -> answers_ok frames c'.
Proof.
  intros H Hst. destruct (H) as [H1 H2].
  destruct Hst as [c dl cpu|c stalled|c cid|c why|c|c cid w k E|c E|c why E|c why E|c E|c code E|c m E|c w E|c cid cids w E|c w E|c now E _|c E _|c cids calls E|c cid cids calls E|c calls E|c rss cpu calls E];
    try (split; [exact H1 | first [exact H2 | done]]); try rewrite E in H2; cbn in H2.
  - unfold submit. destruct (_ || _); [done|]. split; [cbn; intros x r; rewrite lookup_insert_Some; naive_solver | done].
  - apply (settle_answers frames cid Cancelled c); [done | done | done | by rewrite settle_reader].
  - apply (settle_answers frames cid w c); [done | done | by destruct k | done].
  - split; [exact H1 | cbn; case_match; done].
  - split; [exact H1 | cbn; repeat case_match; done].
  - split; [exact H1 | exact H2].
  - apply (settle_answers frames cid w c); [done | intros Hx; congruence | done | done].
  - apply (settle_answers frames cid TimedOut c); [done | done | done | cbn; by rewrite settle_reader].
  - destruct (watch_usage_kill rss cpu calls c) as [-> | [why ->]]; (split; [exact H1 | exact H2]).
Qed.

Lemma on_frame_answers frames message c : answers_ok frames c -> c.(rd) = Reading -> answers_ok (frames ++ [message]) (_on_frame message c).
Proof.
  intros [H1 _] E. assert (H1' : forall cid w, c.(futures) !! cid = Some (Some w) -> answered (frames ++ [message]) cid w) by eauto using answered_more.
  unfold _on_frame. cbv zeta. repeat (case_match; [split; [exact H1' | cbn; by rewrite E]|]).
  destruct (int_of _) as [cid|] eqn:Ec; [|split; [exact H1' | by rewrite E]].
  destruct (c.(pending) !! cid); [|split; [exact H1' | by rewrite E]].
  destruct (frame_outcome message) as [w k] eqn:Ef. split; [exact H1'|]. intros _. exists message. rewrite Ef. split; [set_solver | done].
Qed.

(** ** The claims *)

(** C33. However callers, the reader and the watcher of a tool process interleave, whatever the
    child sends and whenever it dies or is killed: once the child is finished, every call that was
    ever registered is settled, but for those the watcher has just taken to fail as timed out, and
    the watcher's own next steps settle these; and from every state the threads can get to a
    finished child with every call settled, with no settled call changed on the way. *)
Theorem calls_all_settled mem cpu frames c :
  reachable mem cpu frames c ->
  (c.(finished) = true ->
     (forall cid, c.(futures) !! cid = Some None -> cid ∈ expiring c) /\ exists c', rtc expires c c' /\ all_settled c') /\
  exists c', rtc step c c' /\ c'.(finished) = true /\ all_settled c' /\
    forall cid r, c.(futures) !! cid = Some (Some r) -> c'.(futures) !! cid = Some (Some r).
Proof.
  intros Hr. pose proof (child_reachable_ok _ _ _ _ Hr) as Hok. split; [intros Hf; split; [intros cid; by apply finished_expiring|by apply finished_expires]|].
  destruct (drain c Hok (reachable_ended _ _ _ _ Hr)) as (c' & Hs & Hf & Ha & Hk & _). eauto 6.
Qed.

(** C18. A call that got a value, a remote exception or a size refusal got it from a frame the child
    sent with that call's own id: answers are never mixed up, and nothing the parent does (a
    deadline, a kill, a cancellation) is ever reported as an answer of the tool. *)
Theorem answers_own_frames mem cpu frames c cid w :
  reachable mem cpu frames c -> c.(futures) !! cid = Some (Some w) -> from_child w = true ->
  exists message, message ∈ frames /\ int_of (get_or PNone "cid" message) = Some cid /\ (frame_outcome message).1 = w.
Proof.
  intros Hr Hc. enough (answers_ok frames c) as [H _] by exact (H cid w Hc). clear Hc.
  induction Hr; [split; [intros x r Hx; cbn in Hx; rewrite lookup_empty in Hx; done | done] | by apply on_frame_answers | by eapply step_answers].
Qed.

(** A child that other threads have worked on is one a run of the steps can reach. *)
Definition children_reachable (p : ToolProcess) : Prop :=
  forall i c, p.(children) !! i = Some c -> exists mem cpu frames, reachable mem cpu frames c.
Definition keeps_reachable (others : ToolProcess -> ToolProcess) : Prop :=
  forall p, children_reachable p -> children_reachable (others p).

Lemma child_reachable spawns p : children_reachable p -> children_reachable (_child spawns p).2.
Proof.
  intros H. unfold _child. destruct p.(p_closed); [done|]. destruct p.(foreign); [done|]. destruct (_ ≫= _); [done|]. cbn. destruct spawns; [|done].
  intros i c. cbn [children]. rewrite lookup_app_Some. intros [Hi | [_ Hi]]; [by eapply H|].
  apply list_lookup_singleton_Some in Hi as [_ <-]. eexists _, _, _. apply reach_init.
Qed.

Lemma submit_registers dl cpu c cid c' : submit dl cpu c = (Some cid, c') -> c'.(futures) !! cid = Some None.
Proof. unfold submit. destruct (_ || _); [done|]. intros [= <- <-]. cbn. by rewrite lookup_insert_eq. Qed.

Lemma on_child_reachable i c' p : children_reachable p -> (exists mem cpu frames, reachable mem cpu frames c') -> children_reachable (on_child i (fun _ => c') p).
Proof.
  intros H Hc j d. cbn. destruct (decide (i = j)) as [<-|Hne]; [|rewrite list_lookup_alter_ne by done; apply H].
  rewrite list_lookup_alter_eq. destruct (p.(children) !! i); [|done]. intros [= <-]. exact Hc.
Qed.

Lemma attempt_registers spawns others dl cpu p i cid p' :
  children_reachable p -> keeps_reachable others -> attempt spawns others dl cpu p = (Ok (Some (i, cid)), p') ->
  exists c mem cm frames, p'.(children) !! i = Some c /\ reachable mem cm frames c /\ c.(futures) !! cid = Some None.
Proof.
  intros Hp Ho. unfold attempt. pose proof (child_reachable spawns p Hp) as Hp1. destruct (_child spawns p) as [[j|e] p1]; [|done].
  cbn in Hp1. specialize (Ho p1 Hp1). destruct ((others p1).(children) !! j) as [c|] eqn:Ej; [|done].
  destruct (submit dl cpu c) as [[cid'|] c'] eqn:Es; [|done]. cbn. intros [= <- <- <-].
  destruct (Ho _ _ Ej) as (mem & cm & frames & Hr). exists c', mem, cm, frames.
  split; [cbn; by rewrite list_lookup_alter_eq, Ej|]. split; [|by eapply submit_registers].
  eapply reach_step; [exact Hr|]. replace c' with ((submit dl cpu c).2) by (by rewrite Es). apply st_submit.
Qed.

Lemma attempt_none spawns others dl cpu p p' :
  children_reachable p -> keeps_reachable others -> attempt spawns others dl cpu p = (Ok None, p') -> children_reachable p'.
Proof.
  intros Hp Ho. unfold attempt. pose proof (child_reachable spawns p Hp) as Hp1. destruct (_child spawns p) as [[j|e] p1]; [|done].
  cbn in Hp1. specialize (Ho p1 Hp1). destruct ((others p1).(children) !! j) as [c|] eqn:Ej; [|by intros [= <-]].
  destruct (submit dl cpu c) as [[cid'|] c'] eqn:Es; [done|]. cbn. intros [= <-]. apply (on_child_reachable j); [done|].
  destruct (Ho _ _ Ej) as (mem & cm & frames & Hr). exists mem, cm, frames.
  eapply reach_step; [exact Hr|]. replace c' with ((submit dl cpu c).2) by (by rewrite Es). apply st_submit.
Qed.

Lemma tries_register tries dl cpu p i cid p' :
  children_reachable p -> Forall (fun t => keeps_reachable t.2) tries -> submit_tries tries dl cpu p = (Ok (i, cid), p') ->
  exists c mem cm frames, p'.(children) !! i = Some c /\ reachable mem cm frames c /\ c.(futures) !! cid = Some None.
Proof.
  intros Hp Ho. revert p Hp. induction Ho as [|[spawns others] tries Ho Hos IH]; intros p Hp; [done|]. cbn [submit_tries].
  destruct (attempt spawns others dl cpu p) as [[[[j x]|]|e] p1] eqn:E; [| |done].
  - intros [= <- <- <-]. by eapply attempt_registers.
  - apply IH. by eapply attempt_none.
Qed.

(** A call that a [ToolProcess] accepts, restarts of the child and whatever the other threads do
    in between included, is registered, open, in the child the caller was handed, and that
    child's threads can settle it; a closed process accepts none and starts no child. *)
Theorem accepted_call_answered t1 t2 t3 dl cpu p :
  children_reachable p -> Forall (fun t => keeps_reachable t.2) [t1; t2; t3] ->
  (p.(p_closed) = true -> _submit t1 t2 t3 dl cpu p = (Err (ToolProcessError "the tool process is closed"), p)) /\
  forall i cid p', _submit t1 t2 t3 dl cpu p = (Ok (i, cid), p') ->
    exists c c' r, p'.(children) !! i = Some c /\ c.(futures) !! cid = Some None /\ rtc step c c' /\ c'.(futures) !! cid = Some (Some r).
Proof.
  intros Hp Ho. split.
  - intros Hc. destruct t1 as [spawns others]. unfold _submit. cbn. unfold attempt, _child. by rewrite Hc.
  - intros i cid p' Hs. destruct (tries_register _ _ _ _ _ _ _ Hp Ho Hs) as (c & mem & cm & frames & Hi & Hr & Hf).
    destruct (drain c (child_reachable_ok _ _ _ _ Hr) (reachable_ended _ _ _ _ Hr)) as (c' & Hst & _ & Ha & _ & _).
    assert (is_Some (c'.(futures) !! cid)) as [w Hw] by (eapply steps_known; eauto).
    destruct (Ha cid w Hw) as [r ->]. exists c, c', r. done.
Qed.

(** ** On a concrete run *)

Definition one_call : _Child := (submit (Some 5) None (child_init None None)).2.
Definition its_answer : list (pyval * pyval) := [(PStr (u "t"), PStr (u "result")); (PStr (u "cid"), PInt 1); (PStr (u "v"), PInt 7)].
Definition answered_call : _Child := with_rd Reading (settle 1 (Value (PInt 7)) (_on_frame its_answer one_call)).

Lemma one_call_reachable : reachable None None [] one_call.
Proof. eapply reach_step; [apply reach_init | apply st_submit]. Qed.

Lemma answered_call_reachable : reachable None None [its_answer] answered_call.
Proof.
  eapply reach_step; [apply (reach_frame None None [] one_call its_answer one_call_reachable); vm_compute; reflexivity|].
  apply (st_settle _ 1 (Value (PInt 7)) None). vm_compute. reflexivity.
Qed.

Lemma calls_all_settled_witness : exists c', rtc step one_call c' /\ c'.(finished) = true /\ all_settled c'.
Proof. destruct (calls_all_settled None None [] one_call one_call_reachable) as [_ (c' & Hs & Hf & Ha & _)]. exists c'. split; [exact Hs | split; [exact Hf | exact Ha]]. Defined.

Lemma answers_own_frames_witness :
  exists message, message ∈ [its_answer] /\ int_of (get_or PNone "cid" message) = Some 1 /\ (frame_outcome message).1 = Value (PInt 7).
Proof. apply (answers_own_frames None None [its_answer] answered_call 1 (Value (PInt 7))); [exact answered_call_reachable | vm_compute; reflexivity | reflexivity]. Defined.

Lemma accepted_call_answered_witness :
  let p := process_init None None false in let t := (true, fun p : ToolProcess => p) in
  exists i cid p', _submit t t t (Some 5) None p = (Ok (i, cid), p') /\
    exists c c' r, p'.(children) !! i = Some c /\ c.(futures) !! cid = Some None /\ rtc step c c' /\ c'.(futures) !! cid = Some (Some r).
Proof.
  intros p t. destruct (accepted_call_answered t t t (Some 5) None p) as [_ H].
  - intros i c Hc. vm_compute in Hc. destruct i; discriminate Hc.
  - repeat constructor; intros q Hq; exact Hq.
  - eexists _, _, _. split; [reflexivity | apply H; reflexivity].
Defined.
