(* ===== verification/SessionPool.v ===== *)
(** * Persisted sessions ([python/pydeno/_pool.py])

    [SessionPool]: identifiers and associated data, the journal store, the rollback
    counters ([_stored_counter], [_restore], [_write], the store part of [drop]), and which
    entries eviction may take ([evictable], [evict_idle], [_make_room]).

    A store is the interface [JournalStore]; [HonestStore] is what its documentation
    promises, and [InMemoryJournalStore] is the instance of the module.  An operation that
    awaits between its writes takes the values it reads again after each await (whether the
    session was dropped meanwhile) as arguments.  What [AsyncAgentSandbox] makes of a fresh
    session or of an opened journal is a parameter. *)

From S2P Require Import Prelude Utf8 PyVal PyStr Sha256 SnapshotAuth Journal.

(** ** Identifiers *)

(** [[^:\x00-\x1f\x7f]{1,256}] *)
Definition id_char (c : Z) : bool := negb ((c =? chr ":") || (c <=? 31) || (c =? 127)).
Definition _ID (s : list Z) : bool := (1 <=? length s)%nat && (length s <=? 256)%nat && forallb id_char s.

(** [value.encode("utf-8")] does not raise. *)
Definition _utf8 (s : list Z) : bool := forallb (fun c => negb (is_surrogate c)) s.

Definition _check_id (value : pyval) : result journal_exn (list Z) :=
  match value with
  | PStr s => if _ID s && _utf8 s then Ok s else Err (JPlain (ValueError "must be a string of 1-256 characters"))
  | _ => Err (JPlain (ValueError "must be a string of 1-256 characters"))
  end.

Definition colon : Z := chr ":".

(** [f"{owner}:{session_id}:{counter}".encode()] *)
Definition _bound (owner session_id : list Z) (counter : Z) : list Z :=
  utf8_encode (owner ++ colon :: session_id ++ colon :: u (str_of_int counter)).

Definition _journal_key (prefix owner session_id : list Z) : list Z :=
  prefix ++ owner ++ colon :: session_id ++ u ":journal".
Definition _counter_key (prefix owner session_id : list Z) : list Z :=
  prefix ++ owner ++ colon :: session_id ++ u ":counter".

Definition _ENVELOPE : list Z := u "pydeno-session1" ++ [0].

(** [struct.Struct(">Q").pack] and [unpack_from]. *)
Definition _COUNTER_pack (n : Z) : result journal_exn (list Z) :=
  if (0 <=? n) && (n <? 2 ^ 64) then Ok (reverse (le_bytes 8 n))
  else Err (JPlain (StructError "int too large to convert")).
Definition _COUNTER_unpack (bs : list Z) : Z := le_int (reverse (take 8 bs)).

(** ** Stores *)

Class JournalStore (St : Type) := {
  store_get : list Z -> Z -> St -> option (list Z) * St;
  store_set : list Z -> list Z -> option Z -> Z -> St -> St;
  store_delete : list Z -> St -> St }.

(** [key -> (value, when it expires)], read at a time. *)
Abbreviation memory := (gmap (list Z) (list Z * option Z)).

#[export] Instance InMemoryJournalStore : JournalStore memory := {
  store_get key now m :=
    match m !! key with
    | None => (None, m)
    | Some (value, expires) =>
        match expires with
        | Some e => if e <=? now then (None, delete key m) else (Some value, m)
        | None => (Some value, m)
        end
    end;
  store_set key value ttl now m := <[key := (value, (fun t => now + t) <$> ttl)]> m;
  store_delete key m := delete key m }.

(** What [JournalStore] documents: a value that was set is read until it expires, writes to
    other keys do not change it, and reading changes nothing that can be read later. *)
Class HonestStore (St : Type) `{JournalStore St} := {
  get_set : forall key v ttl now now' s, (forall t, ttl = Some t -> now' < now + t) ->
    (store_get key now' (store_set key v ttl now s)).1 = Some v;
  get_set_other : forall key key' v ttl now now' s, key <> key' ->
    (store_get key' now' (store_set key v ttl now s)).1 = (store_get key' now' s).1;
  get_deleted : forall key now s, (store_get key now (store_delete key s)).1 = None;
  get_deleted_other : forall key key' now s, key <> key' ->
    (store_get key' now (store_delete key s)).1 = (store_get key' now s).1;
  get_get : forall key key' now now' s, now <= now' ->
    (store_get key' now' (store_get key now s).2).1 = (store_get key' now' s).1 }.

(** ** Counters, restoring and writing *)

(** [str(counter).encode()], and [int(raw)] of digits (Python refuses to read more than
    4300 of them). *)
Definition counter_text (n : Z) : list Z := u (str_of_int n).
Definition text_of (bs : list Z) : string := String.string_of_list_ascii (map (fun c => Ascii.ascii_of_N (Z.to_N c)) bs).
Definition read_counter (raw : list Z) : result journal_exn Z :=
  if bool_decide (raw = []) || negb (forallb is_digit raw)
  then Err (JournalError "malformed rollback counter")
  else if (4300 <? length raw)%nat then Err (JPlain (ValueError "Exceeds the limit for integer string conversion"))
  else match int_of_str (text_of raw) with
       | Some n => Ok n
       | None => Err (JournalError "malformed rollback counter")
       end.

Section Pool.
Context `{Mac} {St sandbox : Type} `{JournalStore St}.
Context (json_loads : list Z -> option pyval) (key : pyval) (prefix : list Z) (ttl counter_ttl : option Z)
  (max_journal_bytes : Z) (create : result journal_exn sandbox)
  (load : list (pyval * pyval) * list record -> result journal_exn sandbox).

Definition _stored_counter (owner session_id : list Z) (now : Z) (st : St) : result journal_exn Z * St :=
  let '(raw, st) := store_get (_counter_key prefix owner session_id) now st in
  (match raw with None => Ok 0 | Some raw => read_counter raw end, st).

(** What [_restore] made: a fresh session, or one loaded from a journal. *)
Inductive restored := Fresh (s : sandbox) | Loaded (s : sandbox).

(** The stored value, checked: a fresh session, or the journal of the claimed counter. *)
Definition restore_raw (owner session_id : list Z) (floor : Z) (raw : option (list Z))
    : result journal_exn (restored * Z) :=
  match raw with
  | None => s ← create; Ok (Fresh s, floor)
  | Some raw =>
      let head := (length _ENVELOPE + 8)%nat in
      if (length raw <? head)%nat || negb (starts_with _ENVELOPE raw)
      then Err (JournalError "malformed stored journal")
      else
        let counter := _COUNTER_unpack (drop (length _ENVELOPE) raw) in
        if counter <? floor then Err StaleJournal
        else
          journal ← _open_journal json_loads (PBytes (drop head raw)) key
                      (PBytes (_bound owner session_id counter)) max_journal_bytes;
          s ← load journal;
          Ok (Loaded s, counter)
  end.

(** The restored session with the entry's new counter. *)
Definition _restore (owner session_id : list Z) (counter : Z) (now : Z) (st : St)
    : result journal_exn (restored * Z) * St :=
  let '(stored, st) := _stored_counter owner session_id now st in
  match stored with
  | Err e => (Err e, st)
  | Ok stored =>
      let floor := Z.max counter stored in
      let '(raw, st) := store_get (_journal_key prefix owner session_id) now st in
      (restore_raw owner session_id floor raw, st)
  end.

(** [_write]: [d0], [d1], [d2] are [entry.dropped] as read before and after each write.
    The result, the entry's counter and the store. *)
Definition _write (owner session_id : list Z) (entry_counter counter : Z) (blob : list Z)
    (d0 d1 d2 : bool) (now : Z) (st : St) : result journal_exn bool * Z * St :=
  if d0 then (Ok false, entry_counter, st)
  else
    let journal_key := _journal_key prefix owner session_id in
    match _COUNTER_pack counter with
    | Err e => (Err e, entry_counter, st)
    | Ok packed =>
        let st := store_set journal_key (_ENVELOPE ++ packed ++ blob) ttl now st in
        if d1 then (Ok false, entry_counter, store_delete journal_key st)
        else
          let st := store_set (_counter_key prefix owner session_id) (counter_text counter) counter_ttl now st in
          if d2 then (Ok false, counter, store_delete journal_key st)
          else (Ok true, counter, st)
    end.

(** What [drop] does to the store, once nobody else is writing; [entry_counter] is the
    dropped entry's counter, if there was one. *)
Definition drop_store (owner session_id : list Z) (entry_counter : option Z) (now : Z) (st : St)
    : result journal_exn unit * St :=
  let '(stored, st) := _stored_counter owner session_id now st in
  match stored with
  | Err e => (Err e, st)
  | Ok counter =>
      let counter := match entry_counter with Some c => Z.max counter c | None => counter end in
      let st := store_delete (_journal_key prefix owner session_id) st in
      (Ok tt, store_set (_counter_key prefix owner session_id) (counter_text (counter + 1)) counter_ttl now st)
  end.
End Pool.
Arguments Fresh {sandbox} s.
Arguments Loaded {sandbox} s.

(** ** Eviction *)

(** An entry: its lock, its session (identity, journal size and whether its worker is
    gone) and the flags eviction reads. *)
Record session := Session { s_id : Z; _journal_size : Z; is_closed : bool }.

Record _Entry := Entry {
  e_owner : list Z; e_session_id : list Z; e_locked : bool; e_sandbox : option session;
  e_waiters : Z; e_dirty : bool; e_saved_size : Z; e_last_used : Z
}.

Definition idle (e : _Entry) : bool := negb (e_locked e) && (e_waiters e =? 0).
Definition unsaved (e : _Entry) : bool :=
  e_dirty e || match e_sandbox e with Some s => negb (_journal_size s =? e_saved_size e) | None => false end.
Definition evictable (e : _Entry) : bool := idle e && negb (unsaved e).

(** A due entry of a sweep at [now]. *)
Definition due (idle_timeout : option Z) (now : Z) (e : _Entry) : bool :=
  match e_sandbox e with Some s => is_closed s | None => false end
  || match idle_timeout with Some t => t <=? now - e_last_used e | None => false end.

Definition victim (idle_timeout : option Z) (now : Z) (e : _Entry) : bool :=
  evictable e && due idle_timeout now e.

(** Remove the first [n] entries that satisfy [p], oldest first. *)
Fixpoint remove_first (n : nat) (p : _Entry -> bool) (es : list _Entry) : list _Entry * list _Entry :=
  match es with
  | [] => ([], [])
  | e :: es' =>
      match n with
      | O => ([], es)
      | S n' => if p e then let '(gone, kept) := remove_first n' p es' in (e :: gone, kept)
                else let '(gone, kept) := remove_first n p es' in (gone, e :: kept)
      end
  end.

(** One sweep over the map (in LRU order): the evicted entries and the rest. *)
Definition evict_idle (idle_timeout : option Z) (max_sessions : Z) (now : Z) (es : list _Entry)
    : list _Entry * list _Entry :=
  let victims := filter (fun e => victim idle_timeout now e = true) es in
  let kept := filter (fun e => victim idle_timeout now e = false) es in
  let excess := Z.of_nat (length es) - Z.of_nat (length victims) - max_sessions in
  let '(spare, rest) := remove_first (Z.to_nat excess) evictable kept in
  (victims ++ spare, rest).

(** [_make_room] up to its final pause: [PoolFull], or whether anything was evicted; and the
    entries that stay (on [PoolFull] too, when the first cap already evicted one). *)
Inductive pool_exn := PoolFull.

Definition owned_by (owner : list Z) (e : _Entry) : bool := bool_decide (e_owner e = owner).

Definition _make_room (max_per_owner : option Z) (max_sessions : Z) (owner : list Z) (es : list _Entry)
    : result pool_exn bool * list _Entry :=
  let '(mine, es) :=
    match max_per_owner with
    | None => (Ok false, es)
    | Some cap =>
        if cap <=? Z.of_nat (length (filter (fun e => owned_by owner e = true) es)) then
          match remove_first 1 (fun e => owned_by owner e && evictable e) es with
          | ([], _) => (Err PoolFull, es)
          | (_, es) => (Ok true, es)
          end
        else (Ok false, es)
    end in
  match mine with
  | Err e => (Err e, es)
  | Ok evicted =>
      if max_sessions <=? Z.of_nat (length es) then
        match remove_first 1 evictable es with
        | ([], _) => (Err PoolFull, es)
        | (_, es) => (Ok true, es)
        end
      else (Ok evicted, es)
  end.
