(* ===== verification/SessionPoolProps.v ===== *)
(** * Properties of persisted sessions

    No rollback whatever the store answers, the round trip through an honest store, what
    [drop] makes impossible, and what eviction never touches. *)

From S2P Require Import Prelude Utf8 PyVal PyStr Sha256 SnapshotAuth Journal JournalProps SessionPool.
From Stdlib Require Import Numbers.DecimalString Numbers.DecimalFacts.

(** ** Decimal text *)

Lemma text_of_u s : text_of (u s) = s.
Proof.
  unfold text_of, u. induction s as [|c s IH]; [done|]. cbn. f_equal; [|exact IH].
  unfold Ascii.nat_of_ascii. rewrite N_nat_Z, N2Z.id. apply Ascii.ascii_N_embedding.
Qed.

Definition digits_only (s : string) : Prop := Forall (fun c => is_digit c = true) (u s).

Lemma uint_digits d : digits_only (NilEmpty.string_of_uint d).
Proof. unfold digits_only, u. induction d; cbn; constructor; done. Qed.

Lemma uint_length d : String.length (NilEmpty.string_of_uint d) = Decimal.nb_digits d.
Proof. induction d; cbn; congruence. Qed.

Lemma u_length s : length (u s) = String.length s.
Proof. unfold u. rewrite length_fmap. induction s; cbn; congruence. Qed.

Lemma double_digits d :
  (Decimal.nb_digits (Decimal.Little.double d) <= S (Decimal.nb_digits d))%nat /\
  (Decimal.nb_digits (Decimal.Little.succ_double d) <= S (Decimal.nb_digits d))%nat.
Proof. induction d as [|? [] |? [] |? [] |? [] |? [] |? [] |? [] |? [] |? [] |? []]; cbn; lia. Qed.

Lemma pos_digits p : (Decimal.nb_digits (Pos.to_uint p) <= Pos.size_nat p)%nat.
Proof.
  unfold Pos.to_uint. rewrite nb_digits_rev.
  induction p as [p IH|p IH|]; cbn; [|pose proof (double_digits (Pos.to_little_uint p)); lia|lia].
  destruct (double_digits (Pos.to_little_uint p)). lia.
Qed.

Lemma str_of_nonneg n : 0 <= n ->
  digits_only (str_of_int n) /\ str_of_int n <> ""%string /\ (String.length (str_of_int n) <= Z.to_nat (Z.log2 n) + 1)%nat.
Proof.
  intros Hn. destruct n as [|p|p]; [split_and!; [repeat constructor|done|cbn; lia]| |lia].
  assert (E : str_of_int (Z.pos p) = NilEmpty.string_of_uint (Pos.to_uint p)).
  { unfold str_of_int. cbn. pose proof (DecimalPos.Unsigned.to_uint_nonnil p) as Hp.
    by destruct (Pos.to_uint p). }
  rewrite E. split_and!.
  - apply uint_digits.
  - pose proof (DecimalPos.Unsigned.to_uint_nonnil p) as Hp. by destruct (Pos.to_uint p).
  - rewrite uint_length. etransitivity; [apply pos_digits|].
    assert (Hs : forall q, Z.of_nat (Pos.size_nat q) = Z.log2 (Z.pos q) + 1).
    { intros q. induction q as [q IH|q IH|]; [| |done]; cbn [Pos.size_nat]; rewrite Nat2Z.inj_succ, IH.
      - change (Z.pos q~1) with (2 * Z.pos q + 1). rewrite Z.log2_succ_double by lia. lia.
      - change (Z.pos q~0) with (2 * Z.pos q). rewrite Z.log2_double by lia. lia. }
    specialize (Hs p). pose proof (Z.log2_nonneg (Z.pos p)). lia.
Qed.

Lemma read_counter_text n : 0 <= n < 2 ^ 4299 -> read_counter (counter_text n) = Ok n.
Proof.
  intros [Hn Hb]. destruct (str_of_nonneg n Hn) as (Hd & Hne & Hl). unfold read_counter, counter_text.
  rewrite bool_decide_eq_false_2.
  2:{ intros E. apply Hne. by rewrite <- (text_of_u (str_of_int n)), E. }
  rewrite (proj2 (forallb_forall _ _)) by (unfold digits_only in Hd; rewrite Forall_forall in Hd;
    intros x Hx; apply Hd; by apply list_elem_of_In).
  cbn [orb negb]. rewrite (proj2 (Nat.ltb_ge _ _)).
  - rewrite text_of_u, int_of_str_of_int. done.
  - rewrite u_length. assert (Z.log2 n <= 4299).
    { destruct (decide (n = 0)) as [->|]; [done|]. apply Z.lt_succ_r, Z.log2_lt_pow2; [lia|].
      etransitivity; [done|]. apply Z.pow_lt_mono_r; lia. }
    pose proof (Z.log2_nonneg n). lia.
Qed.

(** ** Identifiers *)

(** An identifier the pool accepts (its code points are those of a Python string). *)
Definition valid_id (s : list Z) : Prop := _check_id (PStr s) = Ok s /\ Forall (fun c => c <= 0x10FFFF) s.

Lemma valid_id_chars s : valid_id s -> Forall scalar s /\ Forall (fun c => negb (c =? colon) = true) s.
Proof.
  unfold valid_id, _check_id, _ID, _utf8. intros [E Hs]. destruct (_ && _) eqn:Eb in E; [|done]. bool_prop.
  rewrite forallb_forall in *. rewrite Forall_forall in Hs. split; apply Forall_forall; intros c Hc;
    apply list_elem_of_In in Hc as Hi.
  - specialize (Hs c Hc). repeat match goal with H : forall x, _ |- _ => specialize (H c Hi) end.
    unfold id_char in *. bool_prop. unfold scalar. split; [lia|done].
  - repeat match goal with H : forall x, In x s -> _ |- _ => specialize (H c Hi) end.
    unfold id_char in *. bool_prop. apply negb_true_iff. by apply Z.eqb_neq.
Qed.

Lemma colon_split a b a' b' : Forall (fun c => negb (c =? colon) = true) a ->
  Forall (fun c => negb (c =? colon) = true) a' -> a ++ colon :: b = a' ++ colon :: b' -> a = a' /\ b = b'.
Proof.
  intros Ha Ha' E. apply (f_equal (span (fun c => negb (c =? colon)))) in E.
  rewrite !span_stop in E by done. by simplify_eq.
Qed.

Lemma ascii_scalar s : Forall scalar (u s).
Proof.
  unfold u. apply Forall_fmap, Forall_forall. intros c _. cbn.
  pose proof (Ascii.nat_ascii_bounded c). unfold scalar, is_surrogate. split; [lia|].
  apply andb_false_iff. left. apply Z.leb_gt. lia.
Qed.

Lemma utf8_encode_inj s t : Forall scalar s -> Forall scalar t -> utf8_encode s = utf8_encode t -> s = t.
Proof. intros Hs Ht E. apply Some_inj. by rewrite <- !utf8_decode_encode, E by done. Qed.

(** The associated data names one owner, one session and one counter. *)
Lemma bound_inj o s n o' s' n' : valid_id o -> valid_id s -> valid_id o' -> valid_id s' ->
  _bound o s n = _bound o' s' n' -> o = o' /\ s = s' /\ n = n'.
Proof.
  intros [Ho Co]%valid_id_chars [Hs Cs]%valid_id_chars [Ho' Co']%valid_id_chars [Hs' Cs']%valid_id_chars E.
  assert (Hc : scalar colon) by (split; [done|reflexivity]).
  assert (Hb : forall a b x, Forall scalar a -> Forall scalar b -> Forall scalar (a ++ colon :: b ++ colon :: u x)).
  { intros a b x Ha Hb. apply Forall_app. split; [done|]. constructor; [done|].
    apply Forall_app. split; [done|]. constructor; [done|]. apply ascii_scalar. }
  apply utf8_encode_inj in E; [|by apply Hb..].
  apply colon_split in E as [-> E]; [|done..]. apply colon_split in E as [-> E]; [|done..].
  split_and!; try done. by apply str_of_int_inj, u_inj.
Qed.

(** ** No rollback *)

Section Restore.
Context `{Mac} {St sandbox : Type} `{JournalStore St}.
Context (json_loads : list Z -> option pyval) (key : pyval) (prefix : list Z) (ttl counter_ttl : option Z)
  (max_journal_bytes : Z) (create : result journal_exn sandbox)
  (load : list (pyval * pyval) * list record -> result journal_exn sandbox).
Local Abbreviation restore_raw := (restore_raw json_loads key max_journal_bytes create load).
Local Abbreviation _restore := (_restore json_loads key prefix max_journal_bytes create load).

Lemma open_journal_inv blob ad mjb j : _open_journal json_loads blob key ad mjb = Ok j ->
  exists data payload, blob = PBytes data /\ _open data key ad = Ok payload /\ _parse json_loads payload = Ok j.
Proof.
  unfold _open_journal. destruct blob; try done. case_match; [done|].
  intros (payload & Ho & Hp)%result_bind_ok. eauto.
Qed.

Lemma restore_raw_loaded o s floor raw sb n : restore_raw o s floor raw = Ok (Loaded sb, n) ->
  exists bs blob payload j, raw = Some bs /\ floor <= n /\
    (exists packed, bs = _ENVELOPE ++ packed ++ blob /\ length packed = 8%nat /\ le_int (reverse packed) = n) /\
    _open blob key (PBytes (_bound o s n)) = Ok payload /\ _parse json_loads payload = Ok j /\ load j = Ok sb.
Proof.
  unfold SessionPool.restore_raw. destruct raw as [bs|]; [|destruct create; by intros].
  destruct (_ || _) eqn:E; [done|]. apply orb_false_iff in E as [E1 E2]. apply Nat.ltb_ge in E1.
  apply negb_false_iff, starts_with_spec in E2 as [t ->]. rewrite length_app in E1. rewrite drop_app_length.
  destruct (_ <? floor) eqn:Ef; [done|]. apply Z.ltb_ge in Ef.
  intros (j & Hj & E)%result_bind_ok. apply result_bind_ok in E as (sb' & Hl & E). apply Ok_inj in E.
  simplify_eq. apply open_journal_inv in Hj as (data & payload & [= <-] & Ho & Hp).
  exists (_ENVELOPE ++ t), (drop (length _ENVELOPE + 8) (_ENVELOPE ++ t)), payload, j. split_and!; try done.
  exists (take 8 t). rewrite <- drop_drop, drop_app_length, take_drop. split_and!; try done.
  rewrite length_take. lia.
Qed.

(** The recorded counter, as [_restore] reads it. *)
Definition recorded (o s : list Z) (now : Z) (st : St) : result journal_exn Z :=
  (_stored_counter prefix o s now st).1.

(** The journal value [_restore] reads. *)
Definition journal_read (o s : list Z) (now : Z) (st : St) : option (list Z) :=
  (store_get (_journal_key prefix o s) now (_stored_counter prefix o s now st).2).1.

Lemma restore_unfold o s c now st : (_restore o s c now st).1 =
  match recorded o s now st with
  | Err e => Err e
  | Ok stored => restore_raw o s (Z.max c stored) (journal_read o s now st)
  end.
Proof.
  unfold SessionPool._restore, recorded, journal_read. destruct (_stored_counter _ _ _ _ _) as [[n|e] st1]; [|done].
  cbn. by destruct (store_get _ _ _).
Qed.

(** C11. No rollback and no mix-up, whatever the store returns (including journals put back
    or moved by whoever controls it): if restoring a session loads a journal, its counter is
    at least the entry's and the recorded one, and the journal is one sealed with the pool's
    key for exactly this owner, session and counter; a journal sealed for another owner,
    session or counter only loads if HMAC has a collision under the key. *)
Theorem restore_no_rollback o s c now st sb n stored :
  recorded o s now st = Ok stored -> (_restore o s c now st).1 = Ok (Loaded sb, n) ->
  Z.max c stored <= n /\
  exists packed blob payload, journal_read o s now st = Some (_ENVELOPE ++ packed ++ blob) /\
    _open blob key (PBytes (_bound o s n)) = Ok payload /\
    forall o' s' n' payload', valid_id o -> valid_id s -> valid_id o' -> valid_id s' ->
      _seal payload' key (PBytes (_bound o' s' n')) = Ok blob ->
      (o' = o /\ s' = s /\ n' = n /\ payload' = payload) \/
      exists k, _checked_key key = Ok k /\ collision k.
Proof.
  intros Hst E. rewrite restore_unfold, Hst in E.
  apply restore_raw_loaded in E as (bs & blob & payload & j & Hj & Hf & (packed & -> & _ & _) & Ho & _ & _).
  split; [done|]. exists packed, blob, payload. split_and!; [done..|].
  intros o' s' n' payload' Vo Vs Vo' Vs' Hs. pose proof Hs as (k & a & Hk & _)%seal_shape.
  destruct (sealed_bound _ _ _ _ _ _ _ Hk Hs Ho) as [<- [Ea|Hc]]; [left|right; eauto].
  apply bound_inj in Ea as (-> & -> & ->); done.
Qed.
End Restore.

(** The store of the module keeps its promise. *)
#[export] Instance memory_honest : HonestStore memory.
Proof.
  split.
  - intros key v ttl now now' s Ht. cbn. rewrite lookup_insert_eq. destruct ttl as [t|]; cbn; [|done].
    specialize (Ht t eq_refl). by rewrite (proj2 (Z.leb_gt _ _)) by lia.
  - intros key key' v ttl now now' s Hk. cbn. rewrite lookup_insert_ne by done. by repeat case_match.
  - intros key now s. cbn. by rewrite lookup_delete_eq.
  - intros key key' now s Hk. cbn. rewrite lookup_delete_ne by done. by repeat case_match.
  - intros key key' now now' s Hn. cbn. destruct (s !! key) as [[v [e|]]|] eqn:E; cbn; try done.
    destruct (e <=? now) eqn:Ee; cbn; [|done]. apply Z.leb_le in Ee.
    destruct (decide (key = key')) as [<-|Hk]; [|by rewrite lookup_delete_ne by done; repeat case_match].
    rewrite lookup_delete_eq, E. by rewrite (proj2 (Z.leb_le _ _)) by lia.
Qed.

Lemma keys_differ prefix o s : _journal_key prefix o s <> _counter_key prefix o s.
Proof.
  unfold _journal_key, _counter_key. intros E. apply app_inv_head in E. apply app_inv_head in E.
  injection E as E. by apply app_inv_head in E.
Qed.

Lemma pack_spec n packed : _COUNTER_pack n = Ok packed ->
  0 <= n < 2 ^ 64 /\ length packed = 8%nat /\ forall rest, _COUNTER_unpack (packed ++ rest) = n.
Proof.
  unfold _COUNTER_pack, _COUNTER_unpack. destruct (_ && _) eqn:E; [|done]. bool_prop.
  intros Hp. apply Ok_inj in Hp as <-.
  assert (Hl : length (reverse (le_bytes 8 n)) = 8%nat) by by rewrite length_reverse, le_bytes_length.
  split_and!; [done..|]. intros rest.
  rewrite take_app_exact, reverse_involutive by done. apply le_int_le_bytes. change (256 ^ Z.of_nat 8) with (2 ^ 64). lia.
Qed.

Lemma counter_bound n : n <= 2 ^ 64 -> n < 2 ^ 4299.
Proof. intros H. eapply Z.le_lt_trans; [exact H|]. apply Z.pow_lt_mono_r; lia. Qed.

Section Honest.
Context `{Mac} {St sandbox : Type} `{HonestStore St}.
Context (json_loads : list Z -> option pyval) (key : pyval) (prefix : list Z) (ttl counter_ttl : option Z)
  (max_journal_bytes : Z) (create : result journal_exn sandbox)
  (load : list (pyval * pyval) * list record -> result journal_exn sandbox).
Local Abbreviation _restore := (_restore json_loads key prefix max_journal_bytes create load).
Local Abbreviation _write := (_write prefix ttl counter_ttl).
Local Abbreviation drop_store := (drop_store prefix counter_ttl).

(** What the store answers for a session, by key. *)
Definition read_journal (o s : list Z) (now : Z) (st : St) : option (list Z) :=
  (store_get (_journal_key prefix o s) now st).1.
Definition read_recorded (o s : list Z) (now : Z) (st : St) : result journal_exn Z :=
  match (store_get (_counter_key prefix o s) now st).1 with None => Ok 0 | Some raw => read_counter raw end.

Lemma restore_reads o s c now st : (_restore o s c now st).1 =
  match read_recorded o s now st with
  | Err e => Err e
  | Ok stored => restore_raw json_loads key max_journal_bytes create load o s (Z.max c stored) (read_journal o s now st)
  end.
Proof.
  rewrite restore_unfold. unfold recorded, journal_read, read_recorded, read_journal, _stored_counter.
  pose proof (get_get (_counter_key prefix o s) (_journal_key prefix o s) now now st (Z.le_refl _)) as Hg.
  destruct (store_get (_counter_key prefix o s) now st) as [raw st1]. cbn in *. rewrite Hg. done.
Qed.

Lemma write_reads o s ec c blob now st b ec' st' now' :
  _write o s ec c blob false false false now st = (Ok b, ec', st') ->
  (forall t, ttl = Some t -> now' < now + t) -> (forall t, counter_ttl = Some t -> now' < now + t) ->
  b = true /\ ec' = c /\ read_recorded o s now' st' = Ok c /\
  exists packed, _COUNTER_pack c = Ok packed /\ read_journal o s now' st' = Some (_ENVELOPE ++ packed ++ blob).
Proof.
  unfold SessionPool._write. destruct (_COUNTER_pack c) as [packed|] eqn:Ep; [|done]. cbn.
  intros [= <- <- <-] Ht Hc. destruct (pack_spec _ _ Ep) as (Hr & _ & _). split_and!; [done..| |].
  - unfold read_recorded. rewrite get_set by done. apply read_counter_text. split; [lia|]. apply counter_bound. lia.
  - exists packed. split; [done|]. unfold read_journal.
    rewrite get_set_other by (intros E; by apply (keys_differ prefix o s)). by apply get_set.
Qed.

Lemma restore_raw_sealed o s floor c packed blob payload :
  _COUNTER_pack c = Ok packed -> floor <= c ->
  _seal payload key (PBytes (_bound o s c)) = Ok blob ->
  Z.of_nat (length blob) <= max_journal_bytes * 2 + Z.of_nat (length _MAGIC + _MAC_LEN) + 4096 ->
  restore_raw json_loads key max_journal_bytes create load o s floor (Some (_ENVELOPE ++ packed ++ blob))
  = (j ← _parse json_loads payload; sb ← load j; Ok (Loaded sb, c)).
Proof.
  intros Hp Hf Hs Hl. destruct (pack_spec _ _ Hp) as (_ & Hlen & Hun). unfold restore_raw.
  rewrite (proj2 (Nat.ltb_ge _ _)) by (rewrite !length_app, Hlen; lia).
  rewrite (proj2 (starts_with_spec _ _)) by eauto. cbn [orb negb].
  rewrite drop_app_length, Hun, (proj2 (Z.ltb_ge _ _)) by lia.
  rewrite <- drop_drop, drop_app_length, (drop_app_exact packed) by done.
  unfold _open_journal. rewrite (proj2 (Z.ltb_ge _ _)) by lia.
  rewrite (open_seal _ _ _ _ Hs). cbn [mbind result_bind]. by destruct (_parse json_loads payload).
Qed.

(** What is stored is what is restored: after a complete [_write] of a sealed journal
    under a counter, restoring the session (in this pool or in another that shares the
    store and the key), before the journal or the counter expires, with an entry that is not
    ahead, opens exactly that journal and takes over its counter. *)
Theorem write_then_restore o s ec c blob payload now st b ec' st' c0 now' :
  _seal payload key (PBytes (_bound o s c)) = Ok blob ->
  Z.of_nat (length blob) <= max_journal_bytes * 2 + Z.of_nat (length _MAGIC + _MAC_LEN) + 4096 ->
  _write o s ec c blob false false false now st = (Ok b, ec', st') ->
  (forall t, ttl = Some t -> now' < now + t) -> (forall t, counter_ttl = Some t -> now' < now + t) ->
  c0 <= c ->
  b = true /\ ec' = c /\
  (_restore o s c0 now' st').1 = (j ← _parse json_loads payload; sb ← load j; Ok (Loaded sb, c)).
Proof.
  intros Hs Hl Hw Ht Hc Hc0. destruct (write_reads _ _ _ _ _ _ _ _ _ _ _ Hw Ht Hc) as (-> & -> & Hr & packed & Hp & Hj).
  split_and!; [done..|]. rewrite restore_reads, Hr, Hj. apply restore_raw_sealed; [done|lia|done..].
Qed.

Lemma drop_reads o s ec now st st' now' r :
  drop_store o s ec now st = (Ok tt, st') -> read_recorded o s now st = Ok r ->
  0 <= r < 2 ^ 64 -> (forall c, ec = Some c -> c < 2 ^ 64) -> now <= now' ->
  (forall t, counter_ttl = Some t -> now' < now + t) ->
  read_journal o s now' st' = None /\ read_recorded o s now' st' = Ok (Z.max r (default r ec) + 1).
Proof.
  unfold SessionPool.drop_store, _stored_counter. intros E Hr Hb He Hn Ht. unfold read_recorded in Hr.
  destruct (store_get (_counter_key prefix o s) now st) as [raw st1] eqn:Eg. cbn in Hr.
  rewrite Hr in E. injection E as <-. unfold read_journal, read_recorded. split.
  - rewrite get_set_other by (intros E; by apply (keys_differ prefix o s)). apply get_deleted.
  - rewrite get_set by done. replace (match ec with Some c => Z.max r c | None => r end) with (Z.max r (default r ec))
      by (destruct ec; cbn; lia).
    apply read_counter_text. split; [lia|]. apply counter_bound.
    destruct ec as [c|]; cbn; [specialize (He c eq_refl)|]; lia.
Qed.

(** Dropping a session is final: afterwards a restore starts a fresh session under a
    higher counter, and whatever journal is put back in the store, none with a counter up to
    the one reached before the drop is ever loaded again. *)
Theorem drop_is_final o s ec now st st' r c0 now' :
  drop_store o s ec now st = (Ok tt, st') -> read_recorded o s now st = Ok r ->
  0 <= r < 2 ^ 64 -> (forall c, ec = Some c -> c < 2 ^ 64) -> now <= now' ->
  (forall t, counter_ttl = Some t -> now' < now + t) ->
  let reached := Z.max r (default r ec) in
  (_restore o s c0 now' st').1 = (sb ← create; Ok (Fresh sb, Z.max c0 (reached + 1))) /\
  forall raw ttl' t' sb n,
    (_restore o s c0 now' (store_set (_journal_key prefix o s) raw ttl' t' st')).1 = Ok (Loaded sb, n) ->
    reached < n.
Proof.
  intros Hd Hr Hb He Hn Ht reached. destruct (drop_reads _ _ _ _ _ _ _ _ Hd Hr Hb He Hn Ht) as [Hj Hc]. split.
  - rewrite restore_reads, Hc, Hj. done.
  - intros raw ttl' t' sb n E. rewrite restore_reads in E. unfold read_recorded in E.
    rewrite get_set_other in E by apply keys_differ. unfold read_recorded in Hc. rewrite Hc in E.
    apply restore_raw_loaded in E as (? & ? & ? & ? & _ & Hf & _). lia.
Qed.
End Honest.

(** ** Eviction *)

Lemma remove_first_spec n p es gone kept : remove_first n p es = (gone, kept) ->
  es ≡ₚ gone ++ kept /\ kept `sublist_of` es /\ Forall (fun e => p e = true) gone /\
  (length gone <= n)%nat /\ ((length gone < n)%nat -> Forall (fun e => p e = false) kept).
Proof.
  revert n gone kept. induction es as [|e es IH]; intros n gone kept; cbn.
  { intros [= <- <-]. split_and!; [done|done|constructor|cbn; lia|constructor]. }
  destruct n as [|n]; [intros [= <- <-]; split_and!; [done|done|constructor|cbn; lia|cbn; lia]|].
  destruct (p e) eqn:Ep.
  - destruct (remove_first n p es) as [g k] eqn:Er. intros [= <- <-].
    destruct (IH _ _ _ Er) as (H1 & H2 & H3 & H4 & H5). split_and!.
    + rewrite H1. done.
    + by apply sublist_cons.
    + by constructor.
    + cbn. lia.
    + cbn. intros Hl. apply H5. lia.
  - destruct (remove_first (S n) p es) as [g k] eqn:Er. intros [= <- <-].
    destruct (IH _ _ _ Er) as (H1 & H2 & H3 & H4 & H5). split_and!; [|by apply sublist_skip|done|done|].
    + rewrite H1. by rewrite Permutation_middle.
    + intros Hl. constructor; [done|]. by apply H5.
Qed.

Lemma filter_bool_perm (f : _Entry -> bool) es :
  es ≡ₚ filter (fun e => f e = true) es ++ filter (fun e => f e = false) es.
Proof.
  induction es as [|e es IH]; [done|]. rewrite !filter_cons.
  destruct (f e) eqn:E.
  - rewrite decide_True, decide_False by done. rewrite <- app_comm_cons. by rewrite <- IH.
  - rewrite decide_False, decide_True by done. by rewrite <- Permutation_middle, <- IH.
Qed.

Lemma evict_idle_spec idle_timeout max_sessions now es : 0 <= max_sessions ->
  let '(gone, kept) := evict_idle idle_timeout max_sessions now es in
  es ≡ₚ gone ++ kept /\ kept `sublist_of` es /\
  Forall (fun e => e_locked e = false /\ e_waiters e = 0 /\ unsaved e = false) gone /\
  Forall (fun e => evictable e && due idle_timeout now e = false) kept /\
  (max_sessions < Z.of_nat (length kept) -> Forall (fun e => evictable e = false) kept).
Proof.
  intros Hm. unfold evict_idle. set (f := victim idle_timeout now).
  destruct (remove_first _ _ _) as [spare rest] eqn:Er.
  apply remove_first_spec in Er as (H1 & H2 & H3 & H4 & H5).
  assert (Hev : forall e, evictable e = true -> e_locked e = false /\ e_waiters e = 0 /\ unsaved e = false).
  { unfold evictable, idle. intros e He. bool_prop. done. }
  assert (Hsub : rest `sublist_of` es) by (etransitivity; [exact H2|apply sublist_filter]).
  split_and!.
  - rewrite (filter_bool_perm f es) at 1. by rewrite H1, app_assoc.
  - done.
  - apply Forall_app. split.
    + apply Forall_forall. intros e [He _]%list_elem_of_filter. apply Hev. unfold f, victim in He. by bool_prop.
    + eapply Forall_impl; [exact H3|]. auto.
  - apply Forall_forall. intros e He. eapply elem_of_sublist in He; [|exact H2].
    by apply list_elem_of_filter in He as [He _].
  - intros Hl. apply H5. pose proof (filter_bool_perm f es) as Hp. apply Permutation_length in Hp, H1.
    rewrite !length_app in *. lia.
Qed.

(** Eviction never loses work: a sweep evicts only entries that nobody leases or waits
    for and whose journal is stored; it evicts every such entry that is past its idle time
    or whose worker is gone; the entries that stay keep their order; and if more than
    [max_sessions] stay, none of them could have been evicted. *)
Theorem evict_idle_safe idle_timeout max_sessions now es : 0 <= max_sessions ->
  let '(gone, kept) := evict_idle idle_timeout max_sessions now es in
  es ≡ₚ gone ++ kept /\ kept `sublist_of` es /\
  Forall (fun e => e_locked e = false /\ e_waiters e = 0 /\ unsaved e = false) gone /\
  Forall (fun e => evictable e && due idle_timeout now e = false) kept /\
  (max_sessions < Z.of_nat (length kept) -> Forall (fun e => evictable e = false) kept).
Proof. apply evict_idle_spec. Qed.

Lemma make_room_spec max_per_owner max_sessions owner es :
  let '(r, es') := _make_room max_per_owner max_sessions owner es in
  (exists gone, es ≡ₚ gone ++ es' /\ Forall (fun e => evictable e = true) gone) /\ es' `sublist_of` es /\
  match r with
  | Ok false => es' = es /\ Z.of_nat (length es) + 1 <= max_sessions /\
      forall cap, max_per_owner = Some cap ->
        Z.of_nat (length (filter (fun e => owned_by owner e = true) es)) + 1 <= cap
  | Ok true => (length es' < length es)%nat
  | Err PoolFull =>
      (exists cap, max_per_owner = Some cap /\
         cap <= Z.of_nat (length (filter (fun e => owned_by owner e = true) es')) /\
         Forall (fun e => owned_by owner e && evictable e = false) es') \/
      (max_sessions <= Z.of_nat (length es') /\ Forall (fun e => evictable e = false) es')
  end.
Proof.
  unfold _make_room.
  set (first := match max_per_owner with None => _ | Some _ => _ end).
  assert (Hf : let '(r, es1) := first in
    (exists gone, es ≡ₚ gone ++ es1 /\ Forall (fun e => evictable e = true) gone) /\ es1 `sublist_of` es /\
    match r with
    | Ok false => es1 = es /\ forall cap, max_per_owner = Some cap ->
        Z.of_nat (length (filter (fun e => owned_by owner e = true) es)) + 1 <= cap
    | Ok true => (length es1 < length es)%nat
    | Err PoolFull => exists cap, max_per_owner = Some cap /\
        cap <= Z.of_nat (length (filter (fun e => owned_by owner e = true) es1)) /\
        Forall (fun e => owned_by owner e && evictable e = false) es1
    end).
  { subst first. destruct max_per_owner as [cap|]; [|split_and!; [by exists []|done..]].
    destruct (cap <=? _) eqn:Ec; [apply Z.leb_le in Ec|apply Z.leb_gt in Ec].
    2: { split_and!; [by exists []|done..|]. intros ? [= <-]. lia. }
    destruct (remove_first _ _ _) as [[|e gone] kept] eqn:Er;
      apply remove_first_spec in Er as (H1 & H2 & H3 & H4 & H5).
    - split_and!; [by exists []|done|]. exists cap. split_and!; [done..|]. rewrite H1. apply H5. cbn. lia.
    - split_and!; [|done|apply Permutation_length in H1; rewrite H1; cbn; rewrite length_app; lia].
      exists (e :: gone). split; [done|]. eapply Forall_impl; [exact H3|]. cbn. intros x Hx. by bool_prop. }
  destruct first as [[evicted|[]] es1]; destruct Hf as ((g & Hg & Hge) & Hsub & Hf);
    [|split_and!; [by exists g|done|by left]].
  destruct (max_sessions <=? _) eqn:Em; [apply Z.leb_le in Em|apply Z.leb_gt in Em].
  - destruct (remove_first 1 evictable es1) as [[|e gone] kept] eqn:Er;
      apply remove_first_spec in Er as (H1 & H2 & H3 & H4 & H5).
    + split_and!; [by exists g|done|]. right. split_and!; [done..|]. rewrite H1. apply H5. cbn. lia.
    + pose proof (sublist_length _ _ Hsub) as Hl.
      split_and!; [|by etransitivity|apply Permutation_length in H1; cbn in H1; rewrite length_app in H1; lia].
      exists (g ++ e :: gone). split; [rewrite Hg, H1; solve_Permutation|]. by apply Forall_app.
  - split_and!; [by exists g|done|]. destruct evicted; [done|]. destruct Hf as [-> Hc]. split_and!; [done|lia|done].
Qed.

(** Making room for a new session either finds room for it (and then both caps hold
    after adding it), or evicts an entry nobody uses and whose journal is stored, so that
    the caller looks again with fewer entries; [PoolFull] is raised only when a cap is
    reached and no counted entry can be evicted.  In every case only such entries go. *)
Theorem make_room_exact max_per_owner max_sessions owner es :
  let '(r, es') := _make_room max_per_owner max_sessions owner es in
  (exists gone, es ≡ₚ gone ++ es' /\ Forall (fun e => evictable e = true) gone) /\ es' `sublist_of` es /\
  match r with
  | Ok false => es' = es /\ Z.of_nat (length es) + 1 <= max_sessions /\
      forall cap, max_per_owner = Some cap ->
        Z.of_nat (length (filter (fun e => owned_by owner e = true) es)) + 1 <= cap
  | Ok true => (length es' < length es)%nat
  | Err PoolFull =>
      (exists cap, max_per_owner = Some cap /\
         cap <= Z.of_nat (length (filter (fun e => owned_by owner e = true) es')) /\
         Forall (fun e => owned_by owner e && evictable e = false) es') \/
      (max_sessions <= Z.of_nat (length es') /\ Forall (fun e => evictable e = false) es')
  end.
Proof. apply make_room_spec. Qed.

(** ** Witnesses: a pool over the in-memory store, a cheap MAC and a minimal journal *)

#[local] Existing Instance w_mac | 0.

Definition w_journal : pyval := PDict [
  (PStr (u "format"), PInt 1);
  (PStr (u "config"), PDict [(PStr (u "clock_ms"), PInt 0); (PStr (u "random_seed"), PInt 1);
     (PStr (u "release"), PStr []); (PStr (u "redact"), PBool true); (PStr (u "tools"), PList [])]);
  (PStr (u "records"), PList [])].
Definition w_loads (_ : list Z) : option pyval := Some w_journal.
Definition w_load (j : list (pyval * pyval) * list record) : result journal_exn nat := Ok (length j.2).
Definition w_create : result journal_exn nat := Ok 99%nat.
Definition w_pkey : pyval := PBytes (replicate 16 7).
Definition w_owner : list Z := u "a".
Definition w_sid : list Z := u "s".
Definition w_blob : list Z :=
  match _seal [1; 2; 3] w_pkey (PBytes (_bound w_owner w_sid 1)) with Ok b => b | Err _ => [] end.
Definition w_written : memory :=
  (_write [] (Some 10) None w_owner w_sid 0 1 w_blob false false false 0 (∅ : memory)).2.

Lemma write_then_restore_witness :
  (_restore w_loads w_pkey [] 1000 w_create w_load w_owner w_sid 0 5 w_written).1 = Ok (Loaded 0%nat, 1).
Proof.
  destruct (write_then_restore w_loads w_pkey [] (Some 10) None 1000 w_create w_load w_owner w_sid 0 1
    w_blob [1; 2; 3] 0 ∅ true 1 w_written 0 5) as (_ & _ & H);
    [vm_compute; reflexivity|vm_compute; discriminate|vm_compute; reflexivity| |done|done|].
  - intros t [= <-]. lia.
  - rewrite H. vm_compute. reflexivity.
Defined.

Lemma restore_no_rollback_witness :
  1 <= 1 /\ exists packed blob payload,
    journal_read [] w_owner w_sid 5 w_written = Some (_ENVELOPE ++ packed ++ blob) /\
    _open blob w_pkey (PBytes (_bound w_owner w_sid 1)) = Ok payload.
Proof.
  destruct (restore_no_rollback w_loads w_pkey [] 1000 w_create w_load w_owner w_sid 0 5 w_written 0%nat 1 1)
    as (H & packed & blob & payload & Hr & Ho & _); [vm_compute; reflexivity..|].
  split; [exact H|]. exists packed, blob, payload. split; [exact Hr|exact Ho].
Defined.

Definition w_dropped : memory := (drop_store [] None w_owner w_sid (Some 1) 5 w_written).2.

Lemma drop_is_final_witness :
  (_restore w_loads w_pkey [] 1000 w_create w_load w_owner w_sid 0 6 w_dropped).1 = Ok (Fresh 99%nat, 2).
Proof.
  destruct (drop_is_final w_loads w_pkey [] None 1000 w_create w_load w_owner w_sid (Some 1) 5 w_written
    w_dropped 1 0 6) as [H _]; [vm_compute; reflexivity|vm_compute; reflexivity|lia| |lia|done|].
  - intros c [= <-]. lia.
  - rewrite H. vm_compute. reflexivity.
Defined.

Definition w_entry (owner : string) (locked dirty : bool) (used : Z) : _Entry :=
  Entry (u owner) (u "s") locked (Some (Session 1 10 false)) 0 dirty 10 used.

Lemma evict_idle_safe_witness :
  let '(gone, kept) := evict_idle (Some 5) 1 9
    [w_entry "a" false false 0; w_entry "b" true false 0; w_entry "c" false true 0; w_entry "d" false false 8] in
  map e_owner gone = [u "a"; u "d"] /\ Forall (fun e => unsaved e = false) gone.
Proof.
  pose proof (evict_idle_safe (Some 5) 1 9
    [w_entry "a" false false 0; w_entry "b" true false 0; w_entry "c" false true 0; w_entry "d" false false 8]
    ltac:(lia)) as H.
  destruct (evict_idle _ _ _ _) as [gone kept] eqn:E. destruct H as (_ & _ & H & _). split.
  - vm_compute in E. injection E as <- <-. vm_compute. reflexivity.
  - eapply Forall_impl; [exact H|]. intros e (_ & _ & He). exact He.
Defined.
