(* ===== verification/Regex.v ===== *)
(** * Regular expressions

    The regular expressions of the modelled modules, on code points: their meaning as
    sets of texts ([matches]), and an executable matcher by derivatives, proved equivalent
    to it.  [re_fullmatch], [re_match] and [re_search] are the methods of a compiled
    pattern, as tests: whether the whole text, some prefix, or some part of it is in the
    set (which is what a backtracking matcher finds for patterns without look-around). *)

From S2P Require Import Prelude Utf8.

Inductive re :=
| RNone
| REps
| RChar (p : Z -> bool)
| RSeq (a b : re)
| RAlt (a b : re)
| RStar (a : re).

Inductive matches : re -> list Z -> Prop :=
| m_eps : matches REps []
| m_char p c : p c = true -> matches (RChar p) [c]
| m_seq a b s t : matches a s -> matches b t -> matches (RSeq a b) (s ++ t)
| m_alt_l a b s : matches a s -> matches (RAlt a b) s
| m_alt_r a b s : matches b s -> matches (RAlt a b) s
| m_star_nil a : matches (RStar a) []
| m_star_cons a s t : matches a s -> matches (RStar a) t -> matches (RStar a) (s ++ t).

(** Constructors that drop what cannot match, so derivatives stay small. *)
Definition seq (a b : re) : re :=
  match a, b with
  | RNone, _ | _, RNone => RNone
  | REps, _ => b
  | _, _ => RSeq a b
  end.
Definition alt (a b : re) : re :=
  match a, b with
  | RNone, _ => b
  | _, RNone => a
  | _, _ => RAlt a b
  end.

Fixpoint nullable (r : re) : bool :=
  match r with
  | RNone | RChar _ => false
  | REps | RStar _ => true
  | RSeq a b => nullable a && nullable b
  | RAlt a b => nullable a || nullable b
  end.

Fixpoint deriv (c : Z) (r : re) : re :=
  match r with
  | RNone | REps => RNone
  | RChar p => if p c then REps else RNone
  | RSeq a b => if nullable a then alt (seq (deriv c a) b) (deriv c b) else seq (deriv c a) b
  | RAlt a b => alt (deriv c a) (deriv c b)
  | RStar a => seq (deriv c a) r
  end.

Fixpoint re_fullmatch (r : re) (s : list Z) : bool :=
  match s with [] => nullable r | c :: s' => re_fullmatch (deriv c r) s' end.

Fixpoint re_match (r : re) (s : list Z) : bool :=
  nullable r || match s with [] => false | c :: s' => re_match (deriv c r) s' end.

Fixpoint re_search (r : re) (s : list Z) : bool :=
  re_match r s || match s with [] => false | _ :: s' => re_search r s' end.

(** A final [$]: the end of the text, or just before a last newline. *)
Definition re_match_end (r : re) (s : list Z) : bool :=
  re_fullmatch r s
  || match reverse s with 10 :: t => re_fullmatch r (reverse t) | _ => false end.

(** ** Notation for patterns *)

Definition any_of (l : list re) : re := foldr alt RNone l.
Definition lit_chars (s : list Z) : re := foldr (fun c r => seq (RChar (Z.eqb c)) r) REps s.
Definition lit (s : string) : re := lit_chars (u s).
Definition plus (p : Z -> bool) : re := RSeq (RChar p) (RStar (RChar p)).
Definition opt (r : re) : re := RAlt REps r.

(** ** The matcher is exact *)

#[local] Hint Constructors matches : core.

Lemma inv_none s : ~ matches RNone s.
Proof. inversion 1. Qed.
Lemma inv_eps s : matches REps s -> s = [].
Proof. by inversion 1. Qed.
Lemma inv_seq a b s : matches (RSeq a b) s -> exists x y, s = x ++ y /\ matches a x /\ matches b y.
Proof. inversion 1; subst; eauto. Qed.
Lemma inv_alt a b s : matches (RAlt a b) s -> matches a s \/ matches b s.
Proof. inversion 1; subst; eauto. Qed.

Lemma seq_spec a b s : matches (seq a b) s <-> matches (RSeq a b) s.
Proof.
  split.
  - destruct a, b; cbn; intros H; try done; try (by apply inv_none in H); by apply (m_seq REps _ []).
  - intros (x & y & -> & Ha & Hb)%inv_seq. destruct a, b; cbn; eauto;
      try (by apply inv_none in Ha); try (by apply inv_none in Hb); apply inv_eps in Ha as ->; done.
Qed.

Lemma alt_spec a b s : matches (alt a b) s <-> matches a s \/ matches b s.
Proof.
  split.
  - destruct a, b; cbn; intros H; eauto; by apply inv_alt in H.
  - intros [H|H]; destruct a, b; cbn; eauto; by apply inv_none in H.
Qed.

Lemma nullable_spec r : nullable r = true <-> matches r [].
Proof.
  induction r as [| |p|a IHa b IHb|a IHa b IHb|a IHa]; cbn; split; intros H; try done; eauto.
  - by inversion H.
  - by inversion H.
  - apply andb_true_iff in H as [Ha Hb]. apply (m_seq a b [] []); tauto.
  - apply inv_seq in H as (x & y & E & Ha & Hb). symmetry in E. apply app_eq_nil in E as [-> ->].
    apply andb_true_iff. tauto.
  - apply orb_true_iff in H as [H|H]; [apply m_alt_l|apply m_alt_r]; tauto.
  - apply inv_alt in H. apply orb_true_iff. tauto.
Qed.

(** A star that matches a nonempty text has a first nonempty turn. *)
Lemma star_first a c s : matches (RStar a) (c :: s) ->
  exists x y, s = x ++ y /\ matches a (c :: x) /\ matches (RStar a) y.
Proof.
  remember (RStar a) as r eqn:Er. remember (c :: s) as t eqn:Et. intros H. revert Er Et.
  induction H as [| | | | | |a' x y Hx _ Hy IH]; intros Er Et; try done. injection Er as ->.
  destruct x as [|d x]; [by apply IH|]. injection Et as -> <-. eauto.
Qed.

Lemma deriv_spec c r s : matches (deriv c r) s <-> matches r (c :: s).
Proof.
  revert s. induction r as [| |p|a IHa b IHb|a IHa b IHb|a IHa]; intros s; cbn.
  - split; by inversion 1.
  - split; by inversion 1.
  - destruct (p c) eqn:E; split; intros H.
    + apply inv_eps in H as ->. by constructor.
    + inversion H; subst. constructor.
    + by inversion H.
    + inversion H; congruence.
  - assert (Hs : matches (seq (deriv c a) b) s <->
      exists x y, s = x ++ y /\ matches a (c :: x) /\ matches b y).
    { rewrite seq_spec. split.
      - intros (x & y & -> & Ha & Hb)%inv_seq. exists x, y. by rewrite <- IHa.
      - intros (x & y & -> & Ha & Hb). constructor; [by apply IHa|done]. }
    destruct (nullable a) eqn:En; [rewrite alt_spec|]; rewrite Hs; split.
    + intros [(x & y & -> & Ha & Hb)|H]; [by apply (m_seq a b (c :: x))|].
      apply (m_seq a b [] (c :: s)); [by apply nullable_spec|by apply IHb].
    + intros (x & y & E & Ha & Hb)%inv_seq. destruct x as [|d x]; cbn in E.
      * right. apply IHb. by rewrite E.
      * left. injection E as <- ->. eauto.
    + intros (x & y & -> & Ha & Hb). by apply (m_seq a b (c :: x)).
    + intros (x & y & E & Ha & Hb)%inv_seq. destruct x as [|d x]; cbn in E.
      * apply nullable_spec in Ha. congruence.
      * injection E as <- ->. eauto.
  - rewrite alt_spec, IHa, IHb. split; [intros [?|?]; eauto|apply inv_alt].
  - rewrite seq_spec. split.
    + intros (x & y & -> & Ha & Hb)%inv_seq. apply (m_star_cons a (c :: x)); [by apply IHa|done].
    + intros (x & y & -> & Ha & Hb)%star_first. constructor; [by apply IHa|done].
Qed.

Lemma fullmatch_spec r s : re_fullmatch r s = true <-> matches r s.
Proof.
  revert r. induction s as [|c s IH]; intros r; cbn; [apply nullable_spec|]. by rewrite IH, deriv_spec.
Qed.

Lemma match_spec r s : re_match r s = true <-> exists x y, s = x ++ y /\ matches r x.
Proof.
  revert r. induction s as [|c s IH]; intros r; cbn; rewrite orb_true_iff, nullable_spec.
  - split; [intros [H|?]; [by exists [], []|done]|]. intros (x & y & E & H). left.
    symmetry in E. by apply app_eq_nil in E as [-> _].
  - rewrite IH. split.
    + intros [H|(x & y & -> & H)]; [by exists [], (c :: s)|]. exists (c :: x), y.
      split; [done|by apply deriv_spec].
    + intros ([|d x] & y & E & H); [by left|]. right. injection E as <- ->.
      exists x, y. split; [done|by apply deriv_spec].
Qed.

Lemma search_spec r s : re_search r s = true <-> exists w x y, s = w ++ x ++ y /\ matches r x.
Proof.
  induction s as [|c s IH]; cbn -[re_match]; rewrite orb_true_iff, match_spec.
  - split; [intros [(x & y & E & H)|?]; [by exists [], x, y|done]|].
    intros (w & x & y & E & H). left. symmetry in E. apply app_eq_nil in E as [-> E]. by exists x, y.
  - rewrite IH. split.
    + intros [(x & y & E & H)|(w & x & y & -> & H)]; [by exists [], x, y|by exists (c :: w), x, y].
    + intros ([|d w] & x & y & E & H); [left; by exists x, y|right]. injection E as <- ->. by exists w, x, y.
Qed.
