(* ===== verification/Errors.v ===== *)
(** * The error taxonomy ([python/pydeno/_errors.py])

    [classify_error]: the table of kinds, the anchored patterns of host-authored messages
    and the ordered rows.  An exception is what the classifier can observe of it: the
    answers of its [isinstance] tests, its text ([None] if [str] raises), its [name]
    attribute and the exception it wraps. *)

From S2P Require Import Prelude Utf8 PyStr Regex.

Record ErrorInfo := Info { kind : string; retryable : bool; retry_with_larger_limits : bool }.

(** [KINDS], without the summaries: kind, retryable, retry_with_larger_limits. *)
Definition KINDS : list (string * (bool * bool)) := [
  ("js_error", (false, false)); ("timeout", (false, true)); ("cpu_limit", (false, true));
  ("memory_limit", (false, true)); ("thread_limit", (false, false)); ("worker_crashed", (true, false));
  ("checkout_timeout", (true, false)); ("terminated", (false, false)); ("force_killed", (false, false));
  ("host_wait", (false, true)); ("max_pause", (false, true)); ("host_call_budget", (false, true));
  ("inflight_limit", (false, true)); ("tool_budget", (false, true)); ("tool_not_found", (false, false));
  ("tool_failed", (false, false)); ("protocol_violation", (false, false));
  ("sandbox_unavailable", (false, false)); ("sandbox_violation", (false, false));
  ("limits_unmeasurable", (false, false)); ("closed", (false, false)); ("journal_invalid", (false, false));
  ("replay_divergence", (false, false)); ("snapshot_invalid", (false, false)); ("invalid_input", (false, false));
  ("cancelled", (false, false)); ("gate_denied", (false, false)); ("gate_unavailable", (true, false));
  ("unknown", (false, false))].

Fixpoint assoc {A} (k : string) (l : list (string * A)) : option A :=
  match l with [] => None | (k', v) :: l' => if bool_decide (k' = k) then Some v else assoc k l' end.

(** [_info(kind)], which raises for a kind that is not in the table. *)
Definition _info (k : string) : option ErrorInfo := (fun '(r, l) => Info k r l) <$> assoc k KINDS.

Inductive exc := Exc {
  is_a : string -> bool;
  text : option (list Z);
  name : option (list Z);
  inner : option exc
}.

(** ** Host-authored messages *)

Section Patterns.
(** [\d] of a [str] pattern: any decimal digit of Unicode. *)
Context (isdecimal : Z -> bool).

Local Infix "+++" := RSeq (at level 60, right associativity).
Definition digits : re := plus isdecimal.
Definition _NUM : re :=
  plus (fun c => is_digit c || (c =? chr ".") || (c =? chr "e") || (c =? chr "+") || (c =? chr "-")).
Definition _DEATH_PREFIX : re :=
  any_of [lit "worker exited during startup"; lit "worker is gone"; lit "worker process died"; lit "lost the worker"].

Definition _MEMORY : re := any_of [
  lit "worker used " +++ digits +++ lit " bytes, over max_memory=" +++ digits +++ lit "; killed";
  _DEATH_PREFIX +++ lit ": worker went over max_memory=" +++ digits +++ lit " and exited";
  _DEATH_PREFIX +++ opt (lit " (" +++ RStar (RChar (fun c => negb (c =? chr ")"))) +++ lit ")")
    +++ lit ": worker reached its kernel memory ceiling (max_memory=" +++ digits
    +++ lit " plus headroom) and was stopped"].
Definition _THREADS : re := lit "worker started " +++ digits +++ lit " threads (limit " +++ digits +++ lit "); killed".
Definition _HOST_CALLS : re := lit "guest made more than max_host_calls=" +++ digits +++ lit " host calls".
Definition _UNMEASURABLE : re :=
  any_of [lit "max_memory"; lit "the CPU cap"; lit "the thread cap"]
  +++ RStar (lit " and " +++ any_of [lit "the CPU cap"; lit "the thread cap"])
  +++ lit " cannot be enforced on this system (the worker's resource usage cannot be read)"
  +++ lit " and sandbox='require' demands every protection".
(** The alternatives of [_PROTOCOL] that end with [$], and the others. *)
Definition _PROTOCOL_END : re :=
  any_of [lit "worker reused a capability token"; lit "worker returned a malformed capability token" +++ opt (lit "s")].
Definition _PROTOCOL_START : re := any_of [lit "worker broke protocol: "; lit "worker sent a malformed frame ("].
Definition _PROTOCOL (t : list Z) : bool := re_match _PROTOCOL_START t || re_match_end _PROTOCOL_END t.
Definition _CLOSED : re := any_of [
  lit "runtime is closed"; lit "Runtime has been closed"; lit "Function has been closed";
  lit "Stream has been closed"; lit "the session is closed"; lit "the session was closed";
  lit "the runtime that created this stream source has been closed or terminated";
  lit "this WebAssembly module was unloaded"].
Definition _OTHER_RUNTIME : re :=
  lit "this stream source belongs to a different runtime; a stream source can only be passed to the runtime that created it".
Definition _SANDBOX_REFUSED : re :=
  lit "worker failed to start: " +++ opt (lit "init failed: ") +++ any_of [
    lit "an OS sandbox is required but"; lit "sandbox self-test failed";
    lit "empty_root='require' but the empty-root layer could not be applied";
    lit "supervisor termination authority is unavailable"].
Definition _FREE_THREADED : re := lit "free-threaded CPython is not supported by pydeno's sandboxed runtimes".
Definition _VIOLATION : re :=
  _DEATH_PREFIX +++ lit ": sandbox violation: the worker made a system call its OS sandbox never allows and was killed (SIGSYS)".
Definition _CPU : re := lit "worker used more than " +++ _NUM +++ lit "s of CPU in one command and was killed".
Definition _HOST_WAIT : re :=
  lit "host callbacks kept the guest waiting for more than " +++ _NUM
  +++ lit "s in one command (max_host_wait); worker killed".
Definition _INFLIGHT : re := lit "more than " +++ digits +++ lit " host calls in flight".
Definition _ABANDONED : re := lit "too many abandoned tool calls in this session".

Definition _TOOL_KIND : list (string * string) :=
  [("ToolBudgetError", "tool_budget"); ("ToolNotFoundError", "tool_not_found"); ("ToolError", "tool_failed")].

(** [_JS_TOOL.match(text)], for one of its three names. *)
Definition js_tool_text (n : string) : re :=
  opt (plus (fun c => is_alpha c || (c =? chr " ")) +++ lit " failed: ") +++ lit n +++ lit ":".

(** The kind of the tool error a JavaScript error stands for, by its [name] or its text. *)
Definition _js_tool_kind (e : exc) (t : list Z) : option string :=
  match find (fun '(n, _) => match name e with Some s => bool_decide (s = u n) | None => false end) _TOOL_KIND with
  | Some (_, k) => Some k
  | None => snd <$> find (fun '(n, _) => re_match (js_tool_text n) t) _TOOL_KIND
  end.

(** ** The rows *)

Definition crashed (e : exc) : bool := is_a e "pydeno._isolated.WorkerCrashed".
Definition _crash (e : exc) (t : list Z) (r : re) : bool := crashed e && re_match r t.

(** A row's kind (the row for tool errors decides its own) and its test. *)
Definition _ROWS : list (string * (exc -> list Z -> bool -> bool)) := [
  ("cancelled", fun e t a => is_a e "asyncio.CancelledError");
  ("gate_denied", fun e t a => is_a e "pydeno._gate.GateDenied");
  ("gate_unavailable", fun e t a => is_a e "pydeno._gate.GateUnavailable");
  ("force_killed", fun e t a => is_a e "pydeno._pydeno.RuntimeForceKilled");
  ("terminated", fun e t a => is_a e "pydeno._pydeno.RuntimeTerminated");
  ("cpu_limit", fun e t a => is_a e "pydeno._pydeno.RuntimeTimeout" && re_fullmatch _CPU t);
  ("max_pause", fun e t a => a && is_a e "pydeno._pydeno.RuntimeTimeout" && re_fullmatch _HOST_WAIT t);
  ("host_wait", fun e t a => is_a e "pydeno._pydeno.RuntimeTimeout" && re_fullmatch _HOST_WAIT t);
  ("checkout_timeout", fun e t a => is_a e "pydeno._sandbox_pool.CheckoutTimeout");
  ("timeout", fun e t a => is_a e "pydeno._pydeno.RuntimeTimeout");
  ("tool_budget", fun e t a => is_a e "pydeno._tools.ToolBudgetError");
  ("tool_not_found", fun e t a => is_a e "pydeno._tools.ToolNotFoundError");
  ("tool_failed", fun e t a => is_a e "pydeno._tools.ToolError");
  ("inflight_limit", fun e t a => is_a e "pydeno._pydeno.JavaScriptError" && re_search _INFLIGHT t);
  ("_js_tool", fun e t a => is_a e "pydeno._pydeno.JavaScriptError");
  ("js_error", fun e t a => is_a e "pydeno._pydeno.JavaScriptError");
  ("limits_unmeasurable", fun e t a => _crash e t _UNMEASURABLE);
  ("memory_limit", fun e t a => _crash e t _MEMORY);
  ("thread_limit", fun e t a => _crash e t _THREADS);
  ("host_call_budget", fun e t a => _crash e t _HOST_CALLS);
  ("protocol_violation", fun e t a => crashed e && _PROTOCOL t);
  ("sandbox_unavailable", fun e t a => _crash e t _SANDBOX_REFUSED);
  ("sandbox_unavailable", fun e t a => is_a e "RuntimeError" && re_match _FREE_THREADED t);
  ("sandbox_violation", fun e t a => crashed e && re_fullmatch _VIOLATION t);
  ("closed", fun e t a => is_a e "RuntimeError" && re_fullmatch _CLOSED t);
  ("worker_crashed", fun e t a => crashed e);
  ("replay_divergence", fun e t a => is_a e "pydeno._agent.ReplayDivergence");
  ("journal_invalid", fun e t a => is_a e "pydeno._agent.JournalError");
  ("snapshot_invalid", fun e t a => is_a e "pydeno._snapshot_auth.SnapshotAuthenticationError");
  ("timeout", fun e t a => is_a e "TimeoutError" || is_a e "asyncio.TimeoutError");
  ("inflight_limit", fun e t a => is_a e "RuntimeError" && (re_fullmatch _INFLIGHT t || re_fullmatch _ABANDONED t));
  ("invalid_input", fun e t a => is_a e "TypeError" || is_a e "ValueError"
                                 || (is_a e "RuntimeError" && re_fullmatch _OTHER_RUNTIME t))].

(** The first row that applies. *)
Fixpoint first_row (rows : list (string * (exc -> list Z -> bool -> bool))) (e : exc) (t : list Z) (a : bool)
    : option string :=
  match rows with
  | [] => None
  | (k, test) :: rows' =>
      if test e t a then
        if bool_decide (k = "_js_tool") then
          match _js_tool_kind e t with Some k => Some k | None => first_row rows' e t a end
        else Some k
      else first_row rows' e t a
  end.

Definition unknown : ErrorInfo := Info "unknown" false false.

(** An error inside the classifier ([str] raising, a missing kind) is [unknown]. *)
Fixpoint classify_error (e : exc) (via_agent : bool) : ErrorInfo :=
  match inner e with
  | Some e' => classify_error e' true
  | None =>
      match text e with
      | None => unknown
      | Some t => default unknown (first_row _ROWS e t via_agent ≫= _info)
      end
  end.
End Patterns.

(** The exception that decides: the innermost one. *)
Fixpoint root (e : exc) : exc := match inner e with Some e' => root e' | None => e end.
