(* ===== verification/ErrorsProps.v ===== *)
(** * Properties of the error taxonomy

    A retry is only ever suggested because of what the host established; the text a guest
    controls cannot make an error retryable. *)

From S2P Require Import Prelude Utf8 PyStr Regex Errors.

Section Props.
Context (isdecimal : Z -> bool).
Local Abbreviation classify := (classify_error isdecimal).
Local Abbreviation rows := (_ROWS isdecimal).

Fixpoint exc_rect' (P : exc -> Prop) (Hroot : forall cls t n, P (Exc cls t n None))
  (Hwrap : forall cls t n e, P e -> P (Exc cls t n (Some e))) (e : exc) : P e :=
  match e with
  | Exc cls t n None => Hroot cls t n
  | Exc cls t n (Some e') => Hwrap cls t n e' (exc_rect' P Hroot Hwrap e')
  end.

Lemma classify_root e : forall a, exists a', classify e a = classify (root e) a' /\ inner (root e) = None.
Proof.
  induction e as [cls t n|cls t n e IH] using exc_rect'; intros a; [exists a; split; reflexivity|].
  destruct (IH true) as (a' & H & Hi). exists a'. split; [exact H|exact Hi].
Qed.

(** The kinds the rows can give, and what each says of the exception. *)
Lemma js_tool_kinds e t k : _js_tool_kind e t = Some k -> k ∈ ["tool_budget"; "tool_not_found"; "tool_failed"].
Proof.
  unfold _js_tool_kind, _TOOL_KIND. cbn -[re_match js_tool_text]. intros E.
  repeat (case_match; simplify_eq/=); set_solver.
Qed.

Lemma first_row_inv rs e t a k : first_row rs e t a = Some k ->
  (exists test, (k, test) ∈ rs /\ test e t a = true) \/ k ∈ ["tool_budget"; "tool_not_found"; "tool_failed"].
Proof.
  induction rs as [|[k' test] rs IH]; cbn; [done|]. intros E.
  destruct (test e t a) eqn:Et; [|destruct (IH E) as [(f & Hf & H)|H]; [left; exists f; split; [by right|done]|by right]].
  case_bool_decide as Ek; [|left; exists test; split; [simplify_eq; left|simplify_eq; done]].
  destruct (_js_tool_kind e t) as [k1|] eqn:Ej; [right; simplify_eq; by eapply js_tool_kinds|].
  destruct (IH E) as [(f & Hf & H)|H]; [left; exists f; split; [by right|done]|by right].
Qed.

(** The classes whose errors may be retried. *)
Definition may_retry (e : exc) : Prop :=
  is_a e "pydeno._gate.GateUnavailable" = true \/ is_a e "pydeno._sandbox_pool.CheckoutTimeout" = true \/
  crashed e = true.

Lemma info_inv k i : _info k = Some i -> kind i = k /\ assoc (kind i) KINDS = Some (retryable i, retry_with_larger_limits i).
Proof.
  unfold _info. destruct (assoc k KINDS) as [[r l]|] eqn:E; cbn; [|done]. intros [= <-]. cbn. done.
Qed.

Lemma assoc_elem {A} k (l : list (string * A)) v : assoc k l = Some v -> (k, v) ∈ l.
Proof.
  induction l as [|[k' v'] l IH]; cbn; [done|]. case_bool_decide; intros; simplify_eq; [left|right; auto].
Qed.

Lemma retryable_kinds k i : _info k = Some i -> retryable i = true ->
  k = "worker_crashed" \/ k = "checkout_timeout" \/ k = "gate_unavailable".
Proof.
  unfold _info. destruct (assoc k KINDS) as [[r l]|] eqn:E; cbn; [|done]. intros [= <-] Hr. cbn in Hr. subst r.
  assert (Hall : forallb (fun x : string * (bool * bool) => implb x.2.1
    (bool_decide (x.1 = "worker_crashed" \/ x.1 = "checkout_timeout" \/ x.1 = "gate_unavailable"))) KINDS = true)
    by reflexivity.
  rewrite forallb_forall in Hall. apply assoc_elem, list_elem_of_In in E.
  specialize (Hall _ E). cbn [fst snd implb] in Hall. by apply bool_decide_eq_true in Hall.
Qed.

Lemma retry_row e t a k : first_row rows e t a = Some k ->
  k = "worker_crashed" \/ k = "checkout_timeout" \/ k = "gate_unavailable" -> may_retry e.
Proof.
  intros Hf Hk. apply first_row_inv in Hf as [(test & Hin & Ht)|Hin].
  - unfold may_retry. apply list_elem_of_In in Hin. cbn [_ROWS In] in Hin.
    destruct Hk as [->|[->| ->]]; repeat (destruct Hin as [Hin|Hin]; [simplify_eq; auto|]); done.
  - exfalso. destruct Hk as [->|[->| ->]]; set_solver.
Qed.

(** The messages the host writes for a cause it knows. *)
Definition host_known (t : list Z) : bool :=
  re_match _UNMEASURABLE t || re_match (_MEMORY isdecimal) t || re_match (_THREADS isdecimal) t
  || re_match (_HOST_CALLS isdecimal) t || _PROTOCOL t || re_match _SANDBOX_REFUSED t
  || re_match _FREE_THREADED t || re_fullmatch _VIOLATION t || re_fullmatch _CLOSED t.

(** A plain [WorkerCrashed], a subclass of [RuntimeError] and of nothing else tested. *)
Definition only_crash (e : exc) : Prop :=
  forall c, is_a e c = String.eqb c "pydeno._isolated.WorkerCrashed" || String.eqb c "RuntimeError".

Lemma row_skip k test rs e t a : test e t a = false ->
  first_row ((k, test) :: rs) e t a = first_row rs e t a.
Proof. cbn. by intros ->. Qed.

Lemma row_test k test rs e t a b : k <> "_js_tool" -> test e t a = b ->
  first_row ((k, test) :: rs) e t a = if b then Some k else first_row rs e t a.
Proof. cbn. intros Hk ->. by rewrite bool_decide_eq_false_2. Qed.

Lemma crash_rows e t a : only_crash e ->
  first_row rows e t a =
    if re_match _UNMEASURABLE t then Some "limits_unmeasurable"
    else if re_match (_MEMORY isdecimal) t then Some "memory_limit"
    else if re_match (_THREADS isdecimal) t then Some "thread_limit"
    else if re_match (_HOST_CALLS isdecimal) t then Some "host_call_budget"
    else if _PROTOCOL t then Some "protocol_violation"
    else if re_match _SANDBOX_REFUSED t then Some "sandbox_unavailable"
    else if re_match _FREE_THREADED t then Some "sandbox_unavailable"
    else if re_fullmatch _VIOLATION t then Some "sandbox_violation"
    else if re_fullmatch _CLOSED t then Some "closed"
    else Some "worker_crashed".
Proof.
  intros Hc. assert (Hcr : crashed e = true) by (unfold crashed; by rewrite Hc).
  assert (Hrt : is_a e "RuntimeError" = true) by by rewrite Hc.
  unfold _ROWS.
  do 5 (rewrite row_skip by (cbn beta; by rewrite Hc)).
  do 3 (rewrite row_skip by (cbn beta; rewrite Hc; by rewrite ?andb_false_r)).
  do 5 (rewrite row_skip by (cbn beta; by rewrite Hc)).
  rewrite row_skip by (cbn beta; by rewrite Hc). do 2 (rewrite row_skip by (cbn beta; by rewrite Hc)).
  unfold _crash.
  do 9 (erewrite row_test; [|done|cbn beta; rewrite ?Hcr, ?Hrt; cbn [andb]; reflexivity];
    match goal with |- (if ?b then _ else _) = _ => destruct b; [reflexivity|] end).
  erewrite row_test; [|done|exact Hcr]. reflexivity.
Qed.

Lemma crash_retryable e t a : only_crash e -> inner e = None -> text e = Some t ->
  retryable (classify e a) = negb (host_known t).
Proof.
  intros Hc Hi Ht. unfold classify_error. destruct e as [cls t' n i]. cbn in Hi, Ht. subst i t'. cbn [inner text].
  rewrite (crash_rows _ t a Hc). unfold host_known.
  repeat match goal with |- context [if ?b then _ else _] =>
    destruct b; [rewrite ?orb_true_r, ?orb_false_l; reflexivity|] end.
  reflexivity.
Qed.

(** The classifier is total and its advice cannot be steered: every error gets a kind of
    the table with that kind's flags; a retry is suggested only for exceptions whose type the
    host chose ([GateUnavailable], [CheckoutTimeout], [WorkerCrashed]), so no text or name a
    guest picks for a JavaScript error makes it retryable; and for a dead worker, whatever
    text it left, the answer is retryable exactly when the message is none of those the host
    writes for a cause it knows. *)
Theorem retry_decided_by_host e a :
  let i := classify e a in
  assoc (kind i) KINDS = Some (retryable i, retry_with_larger_limits i) /\
  (retryable i = true -> may_retry (root e)) /\
  forall t, only_crash (root e) -> text (root e) = Some t -> retryable i = negb (host_known t).
Proof.
  destruct (classify_root e a) as (a' & -> & Hi). cbn zeta. split_and!.
  - destruct (root e) as [cls [t|] n [e'|]]; try done. cbn [classify_error inner text].
    destruct (first_row _ _ _ _) as [k|]; cbn [mbind option_bind default]; [|done].
    destruct (_info k) as [i|] eqn:Ei; [|done]. by apply info_inv in Ei as [_ ?].
  - destruct (root e) as [cls [t|] n [e'|]]; try done. cbn [classify_error inner text].
    destruct (first_row _ _ _ _) as [k|] eqn:Ef; cbn [mbind option_bind default]; [|done].
    destruct (_info k) as [i|] eqn:Ei; [|done]. intros Hr. cbn in Hr.
    eapply retry_row; [exact Ef|]. by eapply retryable_kinds.
  - intros t Hc Ht. by apply crash_retryable.
Qed.
End Props.

(** Concrete messages. *)
Definition w_crash (t : string) : exc :=
  Exc (fun c => String.eqb c "pydeno._isolated.WorkerCrashed" || String.eqb c "RuntimeError") (Some (u t)) None None.

Example memory_message :
  kind (classify_error is_digit (w_crash "lost the worker (exit 1): worker reached its kernel memory ceiling (max_memory=64 plus headroom) and was stopped") false)
  = "memory_limit".
Proof. vm_compute. reflexivity. Qed.

Example guest_imitation :
  kind (classify_error is_digit (w_crash "worker process died: worker used 5 bytes, over max_memory=4; killed") false)
  = "worker_crashed".
Proof. vm_compute. reflexivity. Qed.
