(* ===== verification/Results.v ===== *)
(** * Execution results ([python/pydeno/_result.py])

    The bounded capture of a run's console output ([OutputCapture]), the JSON form of a
    result with its caps, and the name an error gets.  Text is a list of code points;
    [json.dumps], [repr] of a float, base64 and the iteration order of a set are the
    parameters of the definitions that use them. *)

From S2P Require Import Prelude Utf8 PyVal PyStr Limits.
From Stdlib Require Import Floats.SpecFloat.

Definition TRUNCATED_MARKER : list Z := u "[truncated]".
Definition newline : Z := 10.

(** ** Console capture *)

(** [_CONTROL]: the code points replaced by ["?"], as ranges. *)
Definition _CONTROL_RANGES : list (Z * Z) := [
  (0x00, 0x08); (0x0b, 0x1f); (0x7f, 0x9f); (0xad, 0xad); (0x34f, 0x34f); (0x600, 0x605); (0x61c, 0x61c);
  (0x6dd, 0x6dd); (0x70f, 0x70f); (0x890, 0x891); (0x8e2, 0x8e2); (0x115f, 0x1160); (0x180b, 0x180f);
  (0x200b, 0x200f); (0x2028, 0x202e); (0x2060, 0x206f); (0x3164, 0x3164); (0xd800, 0xdfff); (0xfe00, 0xfe0f);
  (0xfeff, 0xfeff); (0xffa0, 0xffa0); (0xfff9, 0xfffb); (0x110bd, 0x110bd); (0x110cd, 0x110cd);
  (0x13430, 0x1343f); (0x1bca0, 0x1bca3); (0x1d173, 0x1d17a); (0xe0000, 0xe007f); (0xe0100, 0xe01ef)].
Definition control (c : Z) : bool := existsb (fun '(a, b) => (a <=? c) && (c <=? b)) _CONTROL_RANGES.
Definition inert (s : list Z) : list Z := (fun c => if control c then chr "?" else c) <$> s.

(** [text.encode("utf-8")[:limit].decode("utf-8", "ignore")]: whole characters only. *)
Fixpoint _cut_utf8 (text : list Z) (limit : Z) : list Z :=
  match text with
  | [] => []
  | c :: rest =>
      let n := Z.of_nat (length (utf8_char c)) in
      if n <=? limit then c :: _cut_utf8 rest (limit - n) else []
  end.

(** Whether [text.encode("utf-8")] succeeds: no lone surrogates. *)
Definition encodable (s : list Z) : bool := forallb (fun c => negb (is_surrogate c)) s.

Definition utf8_size (s : list Z) : Z := Z.of_nat (length (utf8_encode s)).

Record _Stream := Stream { parts : list (list Z); size_ : Z; cut : bool }.
Definition empty_stream : _Stream := Stream [] 0 false.

Record OutputCapture := Capture { max_bytes : Z; _out : _Stream; _err : _Stream }.
Definition capture_init (max_output_bytes : Z) : OutputCapture :=
  Capture max_output_bytes empty_stream empty_stream.

(** A positive byte count. *)
Definition check_limit (value : int_arg) : result exn Z :=
  match value with
  | INone => Err (TypeError "must be a positive int")
  | _ =>
      r ← limit_int value 1 MAX_WIRE_INT;
      match r with Some n => Ok n | None => Err (AssertionError "") end
  end.

(** [OutputCapture(max_output_bytes)]. *)
Definition capture_new (max_output_bytes : int_arg) : result exn OutputCapture :=
  n ← check_limit max_output_bytes; Ok (capture_init n).

Definition _STDOUT_LEVELS (level : list Z) : bool :=
  existsb (fun n => bool_decide (level = u n)) ["log"; "info"; "debug"].

(** One line for a stream with [max] bytes. *)
Definition write_line (max : Z) (line : list Z) (st : _Stream) : _Stream :=
  if cut st then st
  else
    let room := max - size_ st in
    let size := utf8_size line in
    if size <=? room then Stream (parts st ++ [line]) (size_ st + size) false
    else
      let head := _cut_utf8 line room in
      match head with
      | [] => Stream (parts st) (size_ st) true
      | _ => Stream (parts st ++ [head]) (size_ st + utf8_size head) true
      end.

Definition mark_stream_cut (st : _Stream) : _Stream := Stream (parts st) (size_ st) true.

Definition on_stream (level : list Z) (f : _Stream -> _Stream) (c : OutputCapture) : OutputCapture :=
  if _STDOUT_LEVELS level then Capture (max_bytes c) (f (_out c)) (_err c)
  else Capture (max_bytes c) (_out c) (f (_err c)).

(** The text of a [console] call: its arguments, formatted, joined and made inert. *)
Definition console_line (args : list (list Z)) : list Z := inert (join (chr " ") args) ++ [newline].

Definition capture_call (level : list Z) (args : list (list Z)) (c : OutputCapture) : OutputCapture :=
  on_stream level (write_line (max_bytes c) (console_line args)) c.
Definition mark_cut (level : list Z) (c : OutputCapture) : OutputCapture := on_stream level mark_stream_cut c.

Definition ends_with_newline (s : list Z) : bool := match reverse s with c :: _ => c =? newline | [] => false end.

Definition _text (st : _Stream) : list Z :=
  let text := concat (parts st) in
  if cut st then
    (if negb (bool_decide (text = [])) && negb (ends_with_newline text) then text ++ [newline] else text)
    ++ TRUNCATED_MARKER ++ [newline]
  else text.

Definition stdout (c : OutputCapture) : list Z := _text (_out c).
Definition stderr (c : OutputCapture) : list Z := _text (_err c).
Definition truncated (c : OutputCapture) : bool := cut (_out c) || cut (_err c).

(** ** Results as JSON data *)

(** [a <= b] of strings. *)
Fixpoint str_leb (a b : list Z) : bool :=
  match a, b with
  | [], _ => true
  | _, [] => false
  | x :: a', y :: b' => (x <? y) || ((x =? y) && str_leb a' b')
  end.

(** [members.sort(key=...)], a stable sort. *)
Fixpoint insert_by (key : pyval -> list Z) (v : pyval) (l : list pyval) : list pyval :=
  match l with
  | [] => [v]
  | x :: l' => if str_leb (key v) (key x) then v :: l else x :: insert_by key v l'
  end.
Definition sort_by (key : pyval -> list Z) (l : list pyval) : list pyval := foldr (insert_by key) [] l.

(** [DumpsError] is what [json.dumps] raises, [EncodeError] a [UnicodeEncodeError]. *)
Inductive result_exn := ResultTooLarge | TooDeep | DumpsError (msg : string) | EncodeError.

Section Json.
(** [repr] of a float, [json.dumps] (compact, and with sorted keys; it may raise), base64
    and [isoformat] of the date classes. *)
Context (repr_float : spec_float -> list Z) (json_dumps : pyval -> result result_exn (list Z))
  (sorted_dumps : pyval -> list Z) (b64encode : list Z -> list Z) (isoformat : string -> option (list Z)).

Definition _MAX_DEPTH : nat := 200.

(** [value.is_integer() and abs(value) < 1e21], with the integer. *)
Definition float_integer (f : spec_float) : option Z :=
  match f with
  | S754_zero _ => Some 0
  | S754_finite s m e =>
      let v := if s then Z.neg m else Z.pos m in
      let z := if 0 <=? e then v * 2 ^ e else v / 2 ^ (- e) in
      if (if 0 <=? e then true else v mod 2 ^ (- e) =? 0) && (Z.abs z <? 10 ^ 21) then Some z else None
  | _ => None
  end.

Definition _number (f : spec_float) : list Z :=
  match f with
  | S754_nan => u "NaN"
  | S754_infinity s => if s then u "-Infinity" else u "Infinity"
  | S754_zero true => u "-0"
  | _ => match float_integer f with Some z => u (str_of_int z) | None => repr_float f end
  end.

Definition leaf_text (cls : string) : list Z := u "<" ++ u cls ++ u ">".

(** A dict's keys after conversion: a later equal key replaces the value of an earlier one,
    in its place. *)
Fixpoint put (k : list Z) (v : pyval) (kvs : list (pyval * pyval)) : list (pyval * pyval) :=
  match kvs with
  | [] => [(PStr k, v)]
  | (PStr k', v') :: kvs' => if bool_decide (k' = k) then (PStr k', v) :: kvs' else (PStr k', v') :: put k v kvs'
  | e :: kvs' => e :: put k v kvs'
  end.

(** [key_text]: what becomes of a key that is not a string ([format_console_arg]). *)
Fixpoint to_jsonable (key_text : pyval -> list Z) (room : nat) (value : pyval) : result result_exn pyval :=
  match room with
  | O => Err TooDeep
  | S room =>
      let convert := fix convert (l : list pyval) : result result_exn (list pyval) :=
        match l with
        | [] => Ok []
        | v :: l' => v ← to_jsonable key_text room v; l' ← convert l'; Ok (v :: l')
        end in
      let convert_items := fix convert_items (l acc : list (pyval * pyval)) : result result_exn (list (pyval * pyval)) :=
        match l with
        | [] => Ok acc
        | (k, v) :: l' =>
            v ← to_jsonable key_text room v;
            convert_items l' (put (match k with PStr s => s | _ => key_text k end) v acc)
        end in
      match value with
      | PNone | PBool _ | PStr _ | PInt _ => Ok value
      | PFloat f => Ok (if isfinite f then value else PNone)
      | PUndefined => Ok PNone
      | PBytes bs => Ok (PStr (b64encode bs))
      | PDict kvs => PDict <$> convert_items kvs []
      | PList l | PTuple l => PList <$> convert l
      | PSet l => (fun m => PList (sort_by sorted_dumps m)) <$> convert l
      | PObj cls => Ok (PStr (match isoformat cls with Some t => t | None => leaf_text cls end))
      end
  end.

(** One argument of a [console] call. *)
Definition class_name (v : pyval) : string :=
  match v with
  | PNone => "NoneType" | PUndefined => "JsUndefined" | PBool _ => "bool" | PInt _ => "int"
  | PFloat _ => "float" | PStr _ => "str" | PBytes _ => "bytes" | PList _ => "list" | PTuple _ => "tuple"
  | PSet _ => "set" | PDict _ => "dict" | PObj cls => cls
  end.

(** [levels] bounds the nesting of non-string keys inside keys. *)
Fixpoint format_console_arg (levels : nat) (arg : pyval) : list Z :=
  match arg with
  | PStr s => s
  | PUndefined => u "undefined"
  | PNone => u "null"
  | PBool b => if b then u "true" else u "false"
  | PInt z => u (str_of_int z)
  | PFloat f => _number f
  | _ =>
      match levels with
      | O => leaf_text (class_name arg)
      | S levels =>
          match to_jsonable (format_console_arg levels) (S _MAX_DEPTH) arg ≫= json_dumps with
          | Ok t => t
          | Err _ => leaf_text (class_name arg)
          end
      end
  end.

Definition json_size (v : pyval) : result result_exn Z :=
  t ← json_dumps v; if encodable t then Ok (utf8_size t) else Err EncodeError.

Definition bounded_result (levels : nat) (value : pyval) (max_result_bytes : Z) : result result_exn pyval :=
  match (data ← to_jsonable (format_console_arg levels) (S _MAX_DEPTH) value; size ← json_size data; Ok (data, size)) with
  | Ok (data, size) => if max_result_bytes <? size then Err ResultTooLarge else Ok data
  | Err _ => Err ResultTooLarge
  end.
End Json.

(** ** Errors *)

(** A failure: a guest's error (its [name] and text) or a host exception (its class, the
    class's declared [error_type] and its text). *)
Inductive failure :=
| JavaScriptError (name : option (list Z)) (text : list Z)
| HostError (cls : list Z) (declared : option (list Z)) (text : list Z).

Definition _EVAL_PREFIX : list Z := u "Evaluation failed: ".
Definition removeprefix (p s : list Z) : list Z := if starts_with p s then drop (length p) s else s.

Definition _HOST_ONLY (name : list Z) : bool :=
  existsb (fun n => bool_decide (name = u n))
    ["ResultTooLarge"; "RuntimeTimeout"; "RuntimeTerminated"; "RuntimeForceKilled"; "WorkerCrashed";
     "JournalError"; "ReplayDivergence"].

(** [_GUEST_ERROR.match(text)]: the name it captures. *)
Definition name_start (c : Z) : bool := is_alpha c || (c =? chr "_") || (c =? chr "$").
Definition name_char (c : Z) : bool := name_start c || is_digit c.
Definition guest_name (s : list Z) : option (list Z) :=
  match s with
  | c :: _ =>
      if negb (name_start c) then None
      else
        let '(n, rest) := span name_char s in
        if (64 <? length n)%nat then None
        else match rest with
             | [] => Some n
             | d :: rest' => if (d =? chr ":") || ((d =? newline) && bool_decide (rest' = [])) then Some n else None
             end
  | [] => None
  end.
Definition _GUEST_ERROR (s : list Z) : option (list Z) :=
  let p := u "Uncaught " in
  match (if starts_with p s then guest_name (drop (length p) s) else None) with
  | Some n => Some n
  | None => guest_name s
  end.

Definition error_type (f : failure) : list Z :=
  match f with
  | JavaScriptError name text =>
      let n := match name with
               | Some (c :: n) => c :: n
               | _ => default (u "Error") (_GUEST_ERROR (removeprefix _EVAL_PREFIX text))
               end in
      if _HOST_ONLY n then u "Error" else n
  | HostError cls declared _ => default cls declared
  end.

Definition error_message (f : failure) : list Z :=
  match f with
  | JavaScriptError _ text =>
      let t := removeprefix _EVAL_PREFIX text in if bool_decide (t = []) then u "JavaScriptError" else t
  | HostError cls _ text => if bool_decide (text = []) then cls else text
  end.

Inductive status := Succeeded | Failed.
Record ExecutionResult := ExecResult {
  r_status : status; r_stdout : list Z; r_stderr : list Z; r_result : option pyval;
  r_error : option (list Z); r_error_type : option (list Z); r_truncated : bool
}.

Definition failed_result (f : failure) (out err : list Z) (was_cut : bool) (max_error_bytes : Z)
    : result result_exn ExecutionResult :=
  let message := error_message f in
  if negb (encodable message) then Err EncodeError
  else
    let is_cut := max_error_bytes <? utf8_size message in
    let message := if is_cut then _cut_utf8 message max_error_bytes ++ u " " ++ TRUNCATED_MARKER else message in
    Ok (ExecResult Failed out err None (Some message) (Some (error_type f)) (is_cut || was_cut)).

(** [too_large]: the text of the [ResultTooLarge] that [bounded_result] raised. *)
Definition capture_result (c : OutputCapture) (outcome : result failure (result result_exn pyval))
    (too_large : list Z) : result result_exn ExecutionResult :=
  let failed f := failed_result f (stdout c) (stderr c) (truncated c) (max_bytes c) in
  match outcome with
  | Err f => failed f
  | Ok (Ok data) => Ok (ExecResult Succeeded (stdout c) (stderr c) (Some data) None None (truncated c))
  | Ok (Err _) => failed (HostError (u "ResultTooLarge") (Some (u "ResultTooLarge")) too_large)
  end.
