(* ===== verification/ResultsProps.v ===== *)
(** * Properties of execution results

    The captured console output is exactly a bounded prefix of what was written, a result
    is JSON data within its cap, and a guest cannot give its error the name of a failure
    only the host can report. *)

From S2P Require Import Prelude Utf8 PyVal PyStr Limits Results.
From Stdlib Require Import Floats.SpecFloat.

(** ** Cutting *)

Lemma utf8_size_app s t : utf8_size (s ++ t) = utf8_size s + utf8_size t.
Proof. unfold utf8_size. rewrite utf8_encode_app, length_app. lia. Qed.

Lemma utf8_size_cons c s : utf8_size (c :: s) = Z.of_nat (length (utf8_char c)) + utf8_size s.
Proof.
  change (c :: s) with ([c] ++ s). rewrite utf8_size_app. f_equal. unfold utf8_size, utf8_encode.
  cbn [fmap list_fmap concat]. by rewrite app_nil_r.
Qed.

Lemma utf8_size_nonneg s : 0 <= utf8_size s.
Proof. unfold utf8_size. lia. Qed.

Lemma cut_all s n : utf8_size s <= n -> _cut_utf8 s n = s.
Proof.
  revert n. induction s as [|c s IH]; intros n Hn; cbn; [done|]. rewrite utf8_size_cons in Hn.
  pose proof (utf8_size_nonneg s). rewrite (proj2 (Z.leb_le _ _)) by lia. rewrite IH by lia. done.
Qed.

Lemma cut_app s t n : _cut_utf8 (s ++ t) n =
  if utf8_size s <=? n then s ++ _cut_utf8 t (n - utf8_size s) else _cut_utf8 s n.
Proof.
  revert n. induction s as [|c s IH]; intros n; cbn [app _cut_utf8].
  - change (utf8_size []) with 0. destruct (0 <=? n) eqn:E; [by rewrite Z.sub_0_r|].
    apply Z.leb_gt in E. destruct t as [|c t]; cbn; [done|]. pose proof (utf8_char_length c).
    by rewrite (proj2 (Z.leb_gt _ _)) by lia.
  - rewrite utf8_size_cons. pose proof (utf8_size_nonneg s). pose proof (utf8_char_length c).
    destruct (_ <=? n) eqn:E.
    + apply Z.leb_le in E. rewrite IH.
      destruct (utf8_size s <=? _) eqn:E2; [apply Z.leb_le in E2|apply Z.leb_gt in E2].
      * rewrite (proj2 (Z.leb_le _ _)) by lia. do 2 f_equal. f_equal. lia.
      * rewrite (proj2 (Z.leb_gt _ _)) by lia. done.
    + apply Z.leb_gt in E. rewrite (proj2 (Z.leb_gt _ _)) by lia. done.
Qed.

Lemma cut_size s n : 0 <= n -> utf8_size (_cut_utf8 s n) <= n.
Proof.
  revert n. induction s as [|c s IH]; intros n Hn; cbn; [done|].
  destruct (_ <=? n) eqn:E; [|done]. apply Z.leb_le in E. rewrite utf8_size_cons.
  specialize (IH (n - Z.of_nat (length (utf8_char c)))). lia.
Qed.

Lemma cut_prefix s n : exists t, s = _cut_utf8 s n ++ t.
Proof.
  revert n. induction s as [|c s IH]; intros n; cbn; [by exists []|].
  destruct (_ <=? n); [|by eexists]. destruct (IH (n - Z.of_nat (length (utf8_char c)))) as [t E].
  exists t. cbn. by rewrite <- E.
Qed.

(** ** Capture *)

(** What a guest does to the console: a call, or a call whose line the worker had to cut. *)
Inductive event := ECall (level : list Z) (args : list (list Z)) | ECut (level : list Z).

Definition feed (e : event) (c : OutputCapture) : OutputCapture :=
  match e with ECall level args => capture_call level args c | ECut level => mark_cut level c end.

Fixpoint feed_all (es : list event) (c : OutputCapture) : OutputCapture :=
  match es with [] => c | e :: es' => feed_all es' (feed e c) end.

(** The events of one stream. *)
Definition level_of (e : event) : list Z := match e with ECall l _ | ECut l => l end.
Definition for_stream (out : bool) (es : list event) : list event :=
  filter (fun e => _STDOUT_LEVELS (level_of e) = out) es.

(** The specification: everything written before a cut line, and whether it must be cut. *)
Fixpoint written (es : list event) : list Z * bool :=
  match es with
  | [] => ([], false)
  | ECut _ :: _ => ([], true)
  | ECall _ args :: es' => let '(t, m) := written es' in (console_line args ++ t, m)
  end.

Definition closed_text (t : list Z) : list Z :=
  (if negb (bool_decide (t = [])) && negb (ends_with_newline t) then t ++ [newline] else t)
  ++ TRUNCATED_MARKER ++ [newline].

Definition spec_text (max : Z) (es : list event) : list Z :=
  let '(t, m) := written es in
  if (utf8_size t <=? max) && negb m then t else closed_text (_cut_utf8 t max).

(** One stream's events, applied to it. *)
Definition stream_feed (max : Z) (e : event) (st : _Stream) : _Stream :=
  match e with
  | ECall _ args => write_line max (console_line args) st
  | ECut _ => mark_stream_cut st
  end.

Lemma stream_cut_stays max es st : cut st = true -> foldl (fun st e => stream_feed max e st) st es = st.
Proof.
  revert st. induction es as [|[l args|l] es IH]; intros st Hc; cbn; [done| |].
  - rewrite IH; unfold write_line; by rewrite Hc.
  - rewrite IH; unfold mark_stream_cut; [|done]. destruct st; cbn in *. by subst.
Qed.

Lemma concat_snoc {A} (ls : list (list A)) l : concat (ls ++ [l]) = concat ls ++ l.
Proof. rewrite concat_app. cbn. by rewrite app_nil_r. Qed.

Lemma write_fits max line st : cut st = false -> size_ st + utf8_size line <= max ->
  write_line max line st = Stream (parts st ++ [line]) (size_ st + utf8_size line) false.
Proof. intros Hc Hf. unfold write_line. rewrite Hc. by rewrite (proj2 (Z.leb_le _ _)) by lia. Qed.

Lemma write_overflows max line st : cut st = false -> max < size_ st + utf8_size line ->
  let st' := write_line max line st in
  cut st' = true /\ concat (parts st') = concat (parts st) ++ _cut_utf8 line (max - size_ st).
Proof.
  intros Hc Hf. unfold write_line. rewrite Hc. rewrite (proj2 (Z.leb_gt _ _)) by lia.
  destruct (_cut_utf8 line _) eqn:E; cbn; [by rewrite app_nil_r|]. by rewrite concat_snoc.
Qed.

(** A stream refines its specification from any open state. *)
Lemma stream_refines max es st : cut st = false -> size_ st = utf8_size (concat (parts st)) -> size_ st <= max ->
  let '(t, m) := written es in let st' := foldl (fun st e => stream_feed max e st) st es in
  let all := concat (parts st) ++ t in
  concat (parts st') = _cut_utf8 all max /\ cut st' = negb ((utf8_size all <=? max) && negb m).
Proof.
  revert st. induction es as [|[l args|l] es IH]; intros st Hc Hs Hm; cbn [written foldl].
  - rewrite app_nil_r. split; [rewrite cut_all by lia; done|]. rewrite Hc, <- Hs.
    by rewrite (proj2 (Z.leb_le _ _)) by lia.
  - destruct (written es) as [t m] eqn:Ew. cbn [stream_feed]. set (line := console_line args).
    pose proof (utf8_size_nonneg line) as Hl. pose proof (utf8_size_nonneg t) as Ht.
    destruct (decide (size_ st + utf8_size line <= max)) as [Hf|Hf].
    + rewrite write_fits by done.
      specialize (IH (Stream (parts st ++ [line]) (size_ st + utf8_size line) false) eq_refl).
      cbn [parts size_] in IH. rewrite concat_snoc, utf8_size_app in IH. rewrite <- Hs in IH.
      specialize (IH eq_refl Hf). rewrite <- app_assoc in IH. exact IH.
    + destruct (write_overflows max line st Hc) as [Hc' Hp]; [lia|].
      rewrite stream_cut_stays by done. split.
      * rewrite Hp, cut_app, <- Hs, (proj2 (Z.leb_le _ _)) by lia. f_equal.
        rewrite cut_app, (proj2 (Z.leb_gt _ _)) by lia. done.
      * rewrite Hc', !utf8_size_app, <- Hs. rewrite (proj2 (Z.leb_gt _ _)) by lia. done.
  - cbn [stream_feed]. rewrite stream_cut_stays by done. unfold mark_stream_cut. cbn.
    rewrite app_nil_r. split; [rewrite cut_all by lia; done|]. by rewrite andb_false_r.
Qed.

Lemma feed_all_streams es c :
  max_bytes (feed_all es c) = max_bytes c /\
  _out (feed_all es c) = foldl (fun st e => stream_feed (max_bytes c) e st) (_out c) (for_stream true es) /\
  _err (feed_all es c) = foldl (fun st e => stream_feed (max_bytes c) e st) (_err c) (for_stream false es).
Proof.
  revert c. induction es as [|e es IH]; intros c; [done|]. cbn [feed_all].
  destruct (IH (feed e c)) as (H1 & H2 & H3). rewrite H1, H2, H3. unfold for_stream. rewrite !filter_cons.
  destruct e as [l args|l]; cbn [feed level_of]; unfold capture_call, mark_cut, on_stream;
    destruct (_STDOUT_LEVELS l); done.
Qed.

Lemma fresh_stream_refines max es : 0 <= max ->
  _text (foldl (fun st e => stream_feed max e st) empty_stream es) = spec_text max es.
Proof.
  intros Hm. pose proof (stream_refines max es empty_stream eq_refl eq_refl Hm) as H.
  unfold spec_text. destruct (written es) as [t m]. cbn [parts empty_stream concat app] in H.
  destruct H as [Hp Hc]. unfold _text. rewrite Hp, Hc.
  destruct (_ && _) eqn:E; cbn [negb]; [|done]. bool_prop. by apply cut_all.
Qed.

Lemma closed_text_size t : utf8_size (closed_text t) <= utf8_size t + 13.
Proof.
  unfold closed_text. rewrite utf8_size_app. change (utf8_size (TRUNCATED_MARKER ++ [newline])) with 12.
  destruct (_ && _); [rewrite utf8_size_app; change (utf8_size [newline]) with 1|]; lia.
Qed.

Lemma spec_text_size max es : 0 <= max -> utf8_size (spec_text max es) <= max + 13.
Proof.
  intros Hm. unfold spec_text. destruct (written es) as [t m]. destruct (_ && _) eqn:E.
  - bool_prop. lia.
  - pose proof (closed_text_size (_cut_utf8 t max)). pose proof (cut_size t max Hm). lia.
Qed.

(** The characters a reader must not meet, by their Unicode properties and not by the filter's
    table: general category Cc but for tab and newline, Cf, Zl, Zp and Cs, and the variation
    selectors. *)
Inductive unsafe (c : Z) : Prop :=
| u_c0 : 0 <= c < 32 -> c <> 9 -> c <> 10 -> unsafe c
| u_c1 : 0x7f <= c <= 0x9f -> unsafe c
| u_soft_hyphen : c = 0xad -> unsafe c
| u_arabic : 0x600 <= c <= 0x605 \/ c = 0x6dd \/ 0x890 <= c <= 0x891 \/ c = 0x8e2 -> unsafe c
| u_syriac : c = 0x70f -> unsafe c
| u_mongolian : 0x180b <= c <= 0x180f -> unsafe c
| u_zero_width : 0x200b <= c <= 0x200d \/ c = 0xfeff -> unsafe c
| u_bidi : c = 0x61c \/ 0x200e <= c <= 0x200f \/ 0x202a <= c <= 0x202e \/ 0x2066 <= c <= 0x2069 -> unsafe c
| u_separator : 0x2028 <= c <= 0x2029 -> unsafe c
| u_invisible_op : 0x2060 <= c <= 0x2064 -> unsafe c
| u_deprecated_format : 0x206a <= c <= 0x206f -> unsafe c
| u_surrogate : 0xd800 <= c <= 0xdfff -> unsafe c
| u_variation : 0xfe00 <= c <= 0xfe0f \/ 0xe0100 <= c <= 0xe01ef -> unsafe c
| u_annotation : 0xfff9 <= c <= 0xfffb -> unsafe c
| u_number_sign : c = 0x110bd \/ c = 0x110cd -> unsafe c
| u_hieroglyph : 0x13430 <= c <= 0x1343f -> unsafe c
| u_shorthand : 0x1bca0 <= c <= 0x1bca3 -> unsafe c
| u_musical : 0x1d173 <= c <= 0x1d17a -> unsafe c
| u_tag : c = 0xe0001 \/ 0xe0020 <= c <= 0xe007f -> unsafe c.

Lemma control_spec c : control c = true <-> exists r, In r _CONTROL_RANGES /\ r.1 <= c <= r.2.
Proof.
  unfold control. rewrite existsb_exists. split; intros ([a b] & Hin & Hc); exists (a, b); cbn in *; (split; [done|]).
  - bool_prop. lia.
  - apply andb_true_intro. split; apply Z.leb_le; lia.
Qed.

Lemma control_unsafe c : unsafe c -> control c = true.
Proof.
  intros H. destruct (control c) eqn:E; [done|exfalso].
  assert (Hr : forall r, In r _CONTROL_RANGES -> c < r.1 \/ r.2 < c).
  { intros r Hin. destruct (decide (r.1 <= c <= r.2)) as [Hc|Hc]; [|lia].
    assert (control c = true) by (apply control_spec; by exists r). congruence. }
  apply List.Forall_forall in Hr. unfold _CONTROL_RANGES in Hr.
  repeat match goal with Hf : List.Forall _ (_ :: _) |- _ => inversion_clear Hf end.
  cbn [fst snd] in *. destruct H; lia.
Qed.

(** No unsafe character. *)
Definition harmless (s : list Z) : Prop := Forall (fun c => ~ unsafe c) s.

Lemma safe_char c : control c = false -> ~ unsafe c.
Proof. intros E H%control_unsafe. congruence. Qed.

Lemma inert_harmless s : harmless (inert s).
Proof.
  unfold harmless, inert. apply Forall_fmap, Forall_forall. intros c _. apply safe_char.
  change (control (if control c then chr "?" else c) = false). destruct (control c) eqn:E; [reflexivity|exact E].
Qed.

Lemma plain_harmless s : Forall (fun c => control c = false) s -> harmless s.
Proof. intros H. eapply Forall_impl; [exact H|exact safe_char]. Qed.

Lemma written_harmless es : harmless (written es).1.
Proof.
  induction es as [|[l args|l] es IH]; cbn; [constructor| |constructor].
  destruct (written es) as [t m]. cbn in *. unfold console_line. rewrite <- app_assoc.
  apply Forall_app. split; [apply inert_harmless|]. constructor; [by apply safe_char|done].
Qed.

Lemma spec_text_harmless max es : harmless (spec_text max es).
Proof.
  unfold spec_text. pose proof (written_harmless es) as Hw. destruct (written es) as [t m]. cbn in Hw.
  destruct (_ && _); [done|]. unfold closed_text.
  assert (Hc : harmless (_cut_utf8 t max)).
  { destruct (cut_prefix t max) as [r E]. rewrite E in Hw. by apply Forall_app in Hw as [? _]. }
  apply Forall_app. split; [|by apply plain_harmless; repeat constructor]. destruct (_ && _); [|done].
  apply Forall_app. split; [done|]. by apply plain_harmless; repeat constructor.
Qed.

Lemma capture_new_inv arg c : capture_new arg = Ok c -> 1 <= max_bytes c <= MAX_WIRE_INT /\ c = capture_init (max_bytes c).
Proof.
  unfold capture_new. intros (n & Hn & [= <-])%result_bind_ok. split; [|done]. cbn [capture_init max_bytes].
  destruct arg; try done. cbn [check_limit] in Hn. apply result_bind_ok in Hn as ([m|] & Hm & [= ->]).
  unfold limit_int in Hm. destruct (_ <? 1) eqn:E1; [done|]. destruct (MAX_WIRE_INT <? _) eqn:E2; [done|].
  apply Z.ltb_ge in E1, E2. simplify_eq. lia.
Qed.

(** C31. The captured console output, for any sequence of console calls, is exactly its
    specification: each stream is everything written to its levels if that fits, and
    otherwise its longest prefix of whole characters within [max_output_bytes], closed by the
    truncation line; so a stream is never more than 13 bytes over the cap, nothing is ever
    missing without the marker, and no [unsafe] character reaches the reader: no control
    character but tab and newline, no format character (bidirectional controls, zero-width
    characters, tags), no line or paragraph separator, lone surrogate or variation selector. *)
Theorem capture_refines arg c0 es :
  capture_new arg = Ok c0 ->
  let c := feed_all es c0 in
  let max := max_bytes c0 in
  stdout c = spec_text max (for_stream true es) /\ stderr c = spec_text max (for_stream false es) /\
  utf8_size (stdout c) <= max + 13 /\ utf8_size (stderr c) <= max + 13 /\
  harmless (stdout c) /\ harmless (stderr c).
Proof.
  intros [Hm ->]%capture_new_inv c max. destruct (feed_all_streams es (capture_init (max_bytes c0))) as (_ & Ho & He).
  assert (H1 : stdout c = spec_text max (for_stream true es))
    by (unfold stdout, c; rewrite Ho; apply fresh_stream_refines; cbn; lia).
  assert (H2 : stderr c = spec_text max (for_stream false es))
    by (unfold stderr, c; rewrite He; apply fresh_stream_refines; cbn; lia).
  rewrite H1, H2. assert (0 <= max) by (unfold max; cbn; lia).
  split_and!; auto using spec_text_size, spec_text_harmless.
Qed.

Lemma capture_refines_witness :
  let es := [ECall (u "log") [u "ab"]; ECall (u "error") [u "x"]; ECall (u "log") [u "cdef"]; ECall (u "log") [u "g"]] in
  stdout (feed_all es (capture_init 6)) = u "ab" ++ [10] ++ u "cde" ++ [10] ++ u "[truncated]" ++ [10] /\
  stdout (feed_all es (capture_init 6)) = spec_text 6 (for_stream true es).
Proof.
  intros es. split; [vm_compute; reflexivity|].
  apply (capture_refines (IIndex 6) (capture_init 6) es). reflexivity.
Defined.

(** ** Results *)

Section Json.
Context (repr_float : spec_float -> list Z) (json_dumps : pyval -> result result_exn (list Z))
  (sorted_dumps : pyval -> list Z) (b64encode : list Z -> list Z) (isoformat : string -> option (list Z)).

(** JSON data: what [json.dumps] can write without loss of type. *)
Inductive json_data : pyval -> Prop :=
| jd_none : json_data PNone
| jd_bool b : json_data (PBool b)
| jd_int z : json_data (PInt z)
| jd_float f : isfinite f = true -> json_data (PFloat f)
| jd_str s : json_data (PStr s)
| jd_list l : Forall json_data l -> json_data (PList l)
| jd_dict kvs : Forall (fun e => (exists s, e.1 = PStr s) /\ json_data e.2) kvs ->
    NoDup kvs.*1 -> json_data (PDict kvs).

Lemma insert_by_perm key v l : insert_by key v l ≡ₚ v :: l.
Proof.
  induction l as [|x l IH]; cbn; [done|]. destruct (str_leb _ _); [done|]. rewrite IH. apply Permutation_swap.
Qed.

Lemma sort_by_perm key l : sort_by key l ≡ₚ l.
Proof. unfold sort_by. induction l as [|x l IH]; cbn; [done|]. by rewrite insert_by_perm, IH. Qed.

Definition item_ok (e : pyval * pyval) : Prop := (exists s, e.1 = PStr s) /\ json_data e.2.

Lemma put_keys k v kvs x : x ∈ (put k v kvs).*1 -> x = PStr k \/ x ∈ kvs.*1.
Proof.
  induction kvs as [|[k' v'] kvs IH]; [cbn; rewrite list_elem_of_singleton; auto|].
  assert (x = k' \/ x ∈ (put k v kvs).*1 -> x = PStr k \/ x ∈ (k' :: kvs.*1)) by (rewrite elem_of_cons; tauto).
  destruct k'; cbn [put]; try case_bool_decide; cbn; rewrite ?elem_of_cons in *; tauto.
Qed.

Lemma put_ok k v kvs : json_data v -> Forall item_ok kvs -> NoDup kvs.*1 ->
  Forall item_ok (put k v kvs) /\ NoDup (put k v kvs).*1.
Proof.
  intros Hv. induction kvs as [|[k' v'] kvs IH]; intros Hf Hn.
  { cbn. split; [constructor; [split; [by exists k|done]|constructor]|]. apply NoDup_singleton. }
  apply Forall_cons in Hf as [[[s Hs] Hv'] Hf]. cbn in Hs. subst k'. cbn in Hv'.
  rewrite fmap_cons in Hn. apply NoDup_cons in Hn as [Hk Hn]. cbn in Hk.
  destruct (IH Hf Hn) as [IH1 IH2]. cbn [put]. case_bool_decide as E.
  - subst k. split; [constructor; [by split; [exists s|]|done]|]. rewrite fmap_cons. by apply NoDup_cons.
  - split; [constructor; [by split; [exists s|]|done]|]. rewrite fmap_cons. apply NoDup_cons. split; [|done].
    cbn. intros [H|H]%put_keys; [congruence|done].
Qed.

Lemma to_jsonable_data key_text room v j :
  to_jsonable sorted_dumps b64encode isoformat key_text room v = Ok j -> json_data j.
Proof.
  revert v j. induction room as [|room IH]; intros v j; [done|]. cbn [to_jsonable].
  set (convert := fix convert (l : list pyval) : result result_exn (list pyval) := _).
  set (items := fix convert_items (l acc : list (pyval * pyval)) : result result_exn (list (pyval * pyval)) := _).
  assert (Hc : forall l l', convert l = Ok l' -> Forall json_data l').
  { intros l. induction l as [|x l IHl]; intros l' E; cbn in E; [by simplify_eq|].
    apply result_bind_ok in E as (y & Hy & E). apply result_bind_ok in E as (ys & Hys & E). apply Ok_inj in E as <-.
    constructor; eauto. }
  assert (Hi : forall l acc l', Forall item_ok acc -> NoDup acc.*1 -> items l acc = Ok l' ->
    Forall item_ok l' /\ NoDup l'.*1).
  { intros l. induction l as [|[k x] l IHl]; intros acc l' Ha Hn E; cbn in E; [by simplify_eq|].
    apply result_bind_ok in E as (y & Hy & E).
    edestruct (put_ok (match k with PStr s => s | _ => key_text k end) y acc) as [P1 P2]; eauto. }
  destruct v as [| |b|z|f|s|bs|l|l|l|kvs|cls]; cbn; intros E; try (simplify_eq; constructor).
  - destruct (isfinite f) eqn:Ef; simplify_eq; by constructor.
  - destruct (convert l) as [l'|] eqn:El; simplify_eq/=. constructor. eauto.
  - destruct (convert l) as [l'|] eqn:El; simplify_eq/=. constructor. eauto.
  - destruct (convert l) as [l'|] eqn:El; simplify_eq/=. constructor. rewrite sort_by_perm. eauto.
  - destruct (items kvs []) as [l'|] eqn:El; simplify_eq/=.
    destruct (Hi _ _ _ ltac:(constructor) ltac:(constructor) El). by constructor.
Qed.

(** How deep the containers of a value nest (a key is not descended into). *)
Fixpoint nesting (v : pyval) : nat :=
  match v with
  | PList l | PTuple l | PSet l => foldr (fun x n => Nat.max (S (nesting x)) n) O l
  | PDict kvs => foldr (fun e n => Nat.max (S (nesting e.2)) n) O kvs
  | _ => O
  end.

Lemma to_jsonable_fits key_text room v : (room <> 0)%nat ->
  match to_jsonable sorted_dumps b64encode isoformat key_text room v with
  | Ok _ => (nesting v < room)%nat
  | Err e => e = TooDeep /\ (room <= nesting v)%nat
  end.
Proof.
  revert v. induction room as [|room IH]; intros v Hr; [done|]. clear Hr.
  assert (IH' : forall v, match to_jsonable sorted_dumps b64encode isoformat key_text room v with
    | Ok _ => (nesting v < room)%nat | Err e => e = TooDeep /\ (room <= nesting v)%nat end).
  { intros w. destruct room as [|room]; [cbn; split; [done|lia]|]. by apply IH. }
  clear IH. cbn [to_jsonable nesting].
  set (convert := fix convert (l : list pyval) : result result_exn (list pyval) := _).
  set (items := fix convert_items (l acc : list (pyval * pyval)) : result result_exn (list (pyval * pyval)) := _).
  set (deepest := foldr (fun x n => Nat.max (S (nesting x)) n) O : list pyval -> nat).
  set (deepest_value := foldr (fun e n => Nat.max (S (nesting e.2)) n) O : list (pyval * pyval) -> nat).
  assert (Hc : forall l, match convert l with
    | Ok _ => (deepest l < S room)%nat | Err e => e = TooDeep /\ (S room <= deepest l)%nat end).
  { induction l as [|x l IHl]; cbn; [lia|]. pose proof (IH' x) as Hx.
    destruct (to_jsonable _ _ _ _ room x); cbn; [|split; [tauto|lia]].
    fold convert (deepest l). destruct (convert l); cbn; [lia|split; [tauto|lia]]. }
  assert (Hi : forall l acc, match items l acc with
    | Ok _ => (deepest_value l < S room)%nat | Err e => e = TooDeep /\ (S room <= deepest_value l)%nat end).
  { induction l as [|[k x] l IHl]; intros acc; cbn; [lia|]. pose proof (IH' x) as Hx.
    destruct (to_jsonable _ _ _ _ room x) as [y|]; cbn; [|split; [tauto|lia]].
    fold items (deepest_value l). match goal with |- context [items l ?a] => specialize (IHl a); destruct (items l a) end;
      [lia|split; [tauto|lia]]. }
  destruct v as [| |b|z|f|s|bs|l|l|l|kvs|cls]; cbn [nesting fmap result_fmap]; try lia.
  1-3: by specialize (Hc l); destruct (convert l); cbn.
  specialize (Hi kvs []). by destruct (items kvs []); cbn.
Qed.

(** C39. The type of a result: [to_jsonable] gives JSON data (no undefined values, bytes,
    sets or tuples, no NaN or infinity, dicts with distinct string keys) for every value
    whose containers nest less deep than the limit, and refuses every other value. *)
Theorem to_jsonable_typed key_text v :
  match to_jsonable sorted_dumps b64encode isoformat key_text (S _MAX_DEPTH) v with
  | Ok j => json_data j /\ (nesting v <= _MAX_DEPTH)%nat
  | Err e => e = TooDeep /\ (_MAX_DEPTH < nesting v)%nat
  end.
Proof.
  pose proof (to_jsonable_fits key_text (S _MAX_DEPTH) v) as H.
  destruct (to_jsonable _ _ _ _ _ v) as [j|] eqn:E.
  - split; [by eapply to_jsonable_data|]. apply Nat.lt_succ_r, H. done.
  - destruct H as [H1 H2]; done.
Qed.

Lemma guest_error_name name text : _HOST_ONLY (error_type (JavaScriptError name text)) = false.
Proof. cbn -[_HOST_ONLY]. case_match eqn:E; [reflexivity|exact E]. Qed.

Lemma failed_result_bounded f out err was_cut max : 0 <= max ->
  match failed_result f out err was_cut max with
  | Ok r => r_status r = Failed /\ r_stdout r = out /\ r_stderr r = err /\ r_result r = None /\
      r_error_type r = Some (error_type f) /\ exists m, r_error r = Some m /\ utf8_size m <= max + 12
  | Err e => e = EncodeError /\ encodable (error_message f) = false
  end.
Proof.
  intros Hm. unfold failed_result. cbv zeta. destruct (encodable _); cbn [negb]; [|done].
  split_and!; try done. eexists. split; [done|]. destruct (max <? _) eqn:E; [|apply Z.ltb_ge in E; lia].
  rewrite utf8_size_app. pose proof (cut_size (error_message f) _ Hm).
  assert (utf8_size (u " " ++ TRUNCATED_MARKER) = 12) by reflexivity. lia.
Qed.

Lemma bounded_result_cases levels v max :
  let jsonable := to_jsonable sorted_dumps b64encode isoformat
    (format_console_arg repr_float json_dumps sorted_dumps b64encode isoformat levels) (S _MAX_DEPTH) in
  match bounded_result repr_float json_dumps sorted_dumps b64encode isoformat levels v max with
  | Ok data => exists size, jsonable v = Ok data /\ json_size json_dumps data = Ok size /\ size <= max
  | Err e => forall data size, jsonable v = Ok data -> json_size json_dumps data = Ok size -> max < size
  end.
Proof.
  intros jsonable. unfold bounded_result. fold jsonable.
  destruct (jsonable v) as [data|]; cbn [mbind result_bind]; [|done].
  destruct (json_size json_dumps data) as [size|] eqn:Es; cbn [mbind result_bind]; [|intros; congruence].
  destruct (_ <? size) eqn:El.
  - apply Z.ltb_lt in El. intros ? ? D1 D2. congruence.
  - apply Z.ltb_ge in El. by exists size.
Qed.

(** The shape of an execution result: it succeeded exactly when the run gave a value that
    fits, and then carries that value as JSON data of at most [max_result_bytes] and no
    error; otherwise it carries an error message within the cap (plus the marker).  A value
    that does not fit is reported as [ResultTooLarge]; when the guest failed, the error type
    is never one of those only the host reports (a timeout, a crash, a result over its
    cap, ...).  The only way to get no result at all is a message with a lone surrogate. *)
Theorem execution_result_shape levels c outcome max_result_bytes too_large :
  let jsonable := to_jsonable sorted_dumps b64encode isoformat
    (format_console_arg repr_float json_dumps sorted_dumps b64encode isoformat levels) (S _MAX_DEPTH) in
  let outcome' := (fun v => bounded_result repr_float json_dumps sorted_dumps b64encode isoformat levels v
                              max_result_bytes) <$> outcome in
  0 <= max_bytes c ->
  match capture_result c outcome' too_large with
  | Err _ => encodable (match outcome with Err f => error_message f | Ok _ => too_large end) = false
  | Ok r =>
      r_stdout r = stdout c /\ r_stderr r = stderr c /\
      match r_status r with
      | Succeeded => exists v data size, outcome = Ok v /\ jsonable v = Ok data /\
          r_result r = Some data /\ json_data data /\
          json_size json_dumps data = Ok size /\ size <= max_result_bytes /\
          r_error r = None /\ r_error_type r = None /\ r_truncated r = truncated c
      | Failed => r_result r = None /\ (exists m, r_error r = Some m /\ utf8_size m <= max_bytes c + 12) /\
          (forall v, outcome = Ok v -> r_error_type r = Some (u "ResultTooLarge") /\
             forall data size, jsonable v = Ok data -> json_size json_dumps data = Ok size -> max_result_bytes < size) /\
          (forall name text, outcome = Err (JavaScriptError name text) ->
             exists t, r_error_type r = Some t /\ _HOST_ONLY t = false)
      end
  end.
Proof.
  intros jsonable outcome' Hm.
  destruct outcome as [v|f]; subst outcome'; cbn [fmap result_fmap].
  - pose proof (bounded_result_cases levels v max_result_bytes) as Hb. fold jsonable in Hb.
    destruct (bounded_result _ _ _ _ _ _ v _) as [data|be]; cbn [capture_result].
    + destruct Hb as (size & Hj & Hs & Hle). split_and!; [done..|]. cbn [r_status r_result r_error r_error_type r_truncated].
      exists v, data, size. split_and!; try done. by eapply to_jsonable_data.
    + pose proof (failed_result_bounded (HostError (u "ResultTooLarge") (Some (u "ResultTooLarge")) too_large)
        (stdout c) (stderr c) (truncated c) _ Hm) as Hf.
      destruct (failed_result _ _ _ _ _) as [r|e].
      * destruct Hf as (-> & -> & -> & -> & -> & Hm'). split_and!; [done..| |done]. intros ? [= <-]. split; [done|]. apply Hb.
      * destruct Hf as [_ Hf]. cbn [error_message] in Hf. case_bool_decide as Ht; [by vm_compute in Hf|done].
  - cbn [capture_result].
    pose proof (failed_result_bounded f (stdout c) (stderr c) (truncated c) _ Hm) as Hf.
    destruct (failed_result _ _ _ _ _) as [r|e]; [|apply Hf].
    destruct Hf as (-> & -> & -> & -> & -> & Hm'). split_and!; [done..|].
    intros name text [= ->]. eexists. split; [reflexivity|]. apply guest_error_name.
Qed.
End Json.

Lemma execution_result_shape_witness :
  let dumps := fun v : pyval => Ok (match v with PStr s => s | _ => u "[...]" end) : result result_exn (list Z) in
  let r := ExecResult Failed [] [] None (Some (u "too  [truncated]")) (Some (u "Error")) true in
  capture_result (capture_init 4) (Err (JavaScriptError (Some (u "WorkerCrashed")) (u "too long"))) [] = Ok r /\
  exists t, r_error_type r = Some t /\ _HOST_ONLY t = false.
Proof.
  intros dumps r. split; [vm_compute; reflexivity|].
  refine (proj2 (proj2 (proj2 (proj2 (proj2 (execution_result_shape (fun _ => []) dumps (fun _ => []) (fun _ => [])
    (fun _ => None) 0 (capture_init 4) (Err (JavaScriptError (Some (u "WorkerCrashed")) (u "too long"))) 10 [] _)))))
    _ _ eq_refl).
  cbn. lia.
Defined.
