(* ===== verification/Lease.v ===== *)
(** * The lease protocol of the session pool ([python/pydeno/_pool.py])

    [SessionPool.get], [_acquire], [_prepare], [_release], [_persist], [drop], [evict_idle]
    and [close] on one event loop, as interleaved turns.

    A task runs from one [await] to the next without interruption, so its state is a
    [point]: where it is suspended and the locals it still needs.  [turn] runs one task from
    its point to its next one, given what the awaited operation did ([answer]: a value, an
    exception, a cancellation, a timeout).  Entries are mutable objects shared by tasks: they
    live in a heap and are named by an identity; the map of the pool ([index]) holds
    identities in LRU order.  Answers of the store and of a sandbox are the environment's
    choice, which covers other processes that share the store.

    [asyncio.Lock] is modelled with its hand-over: a release marks the first waiting
    [acquire()] and the lock stays unlocked until that task runs.  Cancelling an [acquire()]
    takes it out of the queue in one turn. *)

From S2P Require Import Prelude PyVal Journal SessionPool.

(** ** [asyncio.Lock] *)

(** [queue]: the waiting [acquire()] calls, and whether their future was set. *)
Record lock := Lock { locked : bool; queue : list (Z * bool) }.

Definition wake_up_first (l : lock) : lock :=
  match queue l with [] => l | (a, _) :: q => Lock (locked l) ((a, true) :: q) end.

(** [release()]; on an unlocked lock it raises and changes nothing. *)
Definition lock_release (l : lock) : lock := if locked l then wake_up_first (Lock false (queue l)) else l.

(** [acquire()] when it does not suspend. *)
Definition lock_acquire (l : lock) : option lock :=
  if negb (locked l) && bool_decide (queue l = []) then Some (Lock true []) else None.

(** [acquire()] as task [a] starts, resumes after its future was set, or is cancelled. *)
Definition lock_wait (a : Z) (l : lock) : lock := Lock (locked l) (queue l ++ [(a, false)]).
Definition not_waiter (a : Z) (x : Z * bool) : Prop := x.1 <> a.
#[export] Instance not_waiter_dec a x : Decision (not_waiter a x).
Proof. unfold not_waiter. apply _. Defined.
Definition lock_resume (a : Z) (l : lock) : option lock :=
  if bool_decide ((a, true) ∈ queue l) then Some (Lock true (filter (not_waiter a) (queue l))) else None.
Definition lock_cancel (a : Z) (l : lock) : lock :=
  let l := Lock (locked l) (filter (not_waiter a) (queue l)) in
  if locked l then l else wake_up_first l.

(** ** Entries *)

Abbreviation pkey := (list Z * list Z)%type.

(** [quiet] is set exactly while [persisting] is false, and [woken] exactly when [gone]. *)
Record entry := mk_entry {
  e_key : pkey; lk : lock; box : option Z; counter : Z; waiters : Z;
  gone : bool; dropped : bool; barrier : bool; dirty : bool; persisting : bool;
  saved_size : Z; last_used : Z
}.

Definition new_entry (k : pkey) (now : Z) : entry :=
  mk_entry k (Lock false []) None 0 0 false false false false false (-1) now.

Definition set_lk l x := mk_entry (e_key x) l (box x) (counter x) (waiters x) (gone x) (dropped x) (barrier x)
  (dirty x) (persisting x) (saved_size x) (last_used x).
Definition set_box b x := mk_entry (e_key x) (lk x) b (counter x) (waiters x) (gone x) (dropped x) (barrier x)
  (dirty x) (persisting x) (saved_size x) (last_used x).
Definition set_counter c x := mk_entry (e_key x) (lk x) (box x) c (waiters x) (gone x) (dropped x) (barrier x)
  (dirty x) (persisting x) (saved_size x) (last_used x).
Definition add_waiters n x := mk_entry (e_key x) (lk x) (box x) (counter x) (waiters x + n) (gone x) (dropped x)
  (barrier x) (dirty x) (persisting x) (saved_size x) (last_used x).
Definition mark_gone x := mk_entry (e_key x) (lk x) (box x) (counter x) (waiters x) true (dropped x) (barrier x)
  (dirty x) (persisting x) (saved_size x) (last_used x).
Definition mark_dropped x := mk_entry (e_key x) (lk x) (box x) (counter x) (waiters x) (gone x) true (barrier x)
  (dirty x) (persisting x) (saved_size x) (last_used x).
Definition mark_barrier x := mk_entry (e_key x) (lk x) (box x) (counter x) (waiters x) (gone x) (dropped x) true
  (dirty x) (persisting x) (saved_size x) (last_used x).
Definition set_dirty d x := mk_entry (e_key x) (lk x) (box x) (counter x) (waiters x) (gone x) (dropped x) (barrier x)
  d (persisting x) (saved_size x) (last_used x).
Definition set_persisting p x := mk_entry (e_key x) (lk x) (box x) (counter x) (waiters x) (gone x) (dropped x)
  (barrier x) (dirty x) p (saved_size x) (last_used x).
Definition set_saved n x := mk_entry (e_key x) (lk x) (box x) (counter x) (waiters x) (gone x) (dropped x) (barrier x)
  (dirty x) (persisting x) n (last_used x).
Definition set_used t x := mk_entry (e_key x) (lk x) (box x) (counter x) (waiters x) (gone x) (dropped x) (barrier x)
  (dirty x) (persisting x) (saved_size x) t.

Definition release x := set_lk (lock_release (lk x)) x.

(** ** The pool and its tasks *)

(** Who runs [_persist]: a [get] (with the arguments of its call), a [release], or [close]
    (with its list of entries and those left to store). *)
Inductive who :=
| WGet (k : pkey) (wait : option Z)
| WRelease
| WClose (all rest : list Z).

(** Where [_persist] is suspended.  The last three are [_write]'s; [spent] says it stores
    the journal of [_drop_state]. *)
Inductive stage :=
| SCounter                  (* _stored_counter *)
| SDump                     (* sandbox.dump *)
| SClose                    (* _drop_state: sandbox.close *)
| SJournal (spent : bool)   (* store.set of the journal *)
| SRecord (spent : bool)    (* store.set of the counter *)
| SDelete (spent : bool).   (* store.delete of the journal *)

(** An [acquire()] in flight: not started, in the lock's queue, or finished. *)
Inductive acquiring := NotStarted | Queued | Holding.

Definition holding (st : acquiring) : bool := match st with Holding => true | _ => false end.

Inductive pexn := PoolClosed | SessionBusy | Full | StaleJ | TooLarge | NotLeased | AssertionFailed | Raised.

Inductive point :=
| PGet (k : pkey) (wait : option Z)
| PAcq (k : pkey) (wait : option Z) (e a : Z) (st : acquiring)
| PAcqOver (k : pkey) (wait : option Z) (e : Z)
| PStored (k : pkey) (wait : option Z) (e s : Z)
| PRestore (k : pkey) (wait : option Z) (e : Z)
| PQuietClose (k : pkey) (wait : option Z) (e s : Z)
| PLeased (k : pkey) (e s : Z)
| PPersist (o : who) (e s c : Z) (st : stage)
| PRelease (k : pkey) (leased : option Z)
| PDrop (k : pkey)
| PDropClose (k : pkey) (old b s : Z)
| PDropQuiet (k : pkey) (old b : Z)
| PDropCounter (k : pkey) (old : option Z) (b : Z)
| PDropDelete (k : pkey) (old : option Z) (b n : Z)
| PDropRecord (k : pkey) (old : option Z) (b n : Z)
| PDropped (k : pkey) (old : option Z)
| PCloseStart
| PCloseBoxes (all rest : list Z)
| PClosing (all rest : list Z) (s : Z)
| PCloseStore (all rest : list Z)
| PCloseBox (s : Z)
| PEnd (r : option pexn).

(** A sandbox: the size of its journal, whether it is closed, and the entry it was made for. *)
Record sbox := SBox { b_size : Z; b_closed : bool; b_entry : Z }.

(** [stored]: the journals this pool wrote and nobody deleted, by which entry and with
    which counter. *)
Record world := mk_world {
  heap : gmap Z entry; index : list (pkey * Z); boxes : gmap Z sbox; closed : bool;
  next_id : Z; stored : gmap pkey (Z * Z); threads : list point
}.

Definition init_world : world := mk_world ∅ [] ∅ false 0 ∅ [].

Definition set_heap h w := mk_world h (index w) (boxes w) (closed w) (next_id w) (stored w) (threads w).
Definition set_index i w := mk_world (heap w) i (boxes w) (closed w) (next_id w) (stored w) (threads w).
Definition set_boxes b w := mk_world (heap w) (index w) b (closed w) (next_id w) (stored w) (threads w).
Definition set_closed w := mk_world (heap w) (index w) (boxes w) true (next_id w) (stored w) (threads w).
Definition bump w := mk_world (heap w) (index w) (boxes w) (closed w) (next_id w + 1) (stored w) (threads w).
Definition set_stored s w := mk_world (heap w) (index w) (boxes w) (closed w) (next_id w) s (threads w).
Definition set_threads t w := mk_world (heap w) (index w) (boxes w) (closed w) (next_id w) (stored w) t.

(** The entry a task holds a reference to (an identity that was never made reads as an
    entry that is gone). *)
Definition no_entry : entry := mark_gone (new_entry ([], []) 0).
Definition ent (w : world) (e : Z) : entry := default no_entry (heap w !! e).
Definition upd (e : Z) (f : entry -> entry) (w : world) : world := set_heap (alter f e (heap w)) w.
Definition upd_box (s : Z) (f : sbox -> sbox) (w : world) : world := set_boxes (alter f s (boxes w)) w.
Definition shut (b : sbox) : sbox := SBox (b_size b) true (b_entry b).
Definition box_closed (w : world) (s : Z) : bool := match boxes w !! s with Some b => b_closed b | None => true end.
Definition box_size (w : world) (s : Z) : Z := match boxes w !! s with Some b => b_size b | None => 0 end.

(** [self._entries]: an ordered dict. *)
Fixpoint lookup_index (k : pkey) (i : list (pkey * Z)) : option Z :=
  match i with [] => None | (k', e) :: i' => if bool_decide (k' = k) then Some e else lookup_index k i' end.
Definition other_key (k : pkey) (x : pkey * Z) : Prop := x.1 <> k.
#[export] Instance other_key_dec k x : Decision (other_key k x).
Proof. unfold other_key. apply _. Defined.
Definition move_to_end (k : pkey) (i : list (pkey * Z)) : list (pkey * Z) :=
  match lookup_index k i with Some e => filter (other_key k) i ++ [(k, e)] | None => i end.
Fixpoint assign (k : pkey) (e : Z) (i : list (pkey * Z)) : list (pkey * Z) :=
  match i with
  | [] => [(k, e)]
  | (k', e') :: i' => if bool_decide (k' = k) then (k', e) :: i' else (k', e') :: assign k e i'
  end.

(** What eviction reads of an entry. *)
Definition view (w : world) (e : Z) : _Entry :=
  let x := ent w e in
  Entry (e_key x).1 (e_key x).2 (locked (lk x))
    ((fun s => Session s (box_size w s) (box_closed w s)) <$> box x) (waiters x) (dirty x) (saved_size x) (last_used x).
Definition is_unsaved (w : world) (e : Z) : bool := unsaved (view w e).

Definition _forget (e : Z) (w : world) : world :=
  let k := e_key (ent w e) in
  let w := upd e mark_gone w in
  if bool_decide (lookup_index k (index w) = Some e) then set_index (filter (other_key k) (index w)) w else w.

(** With the tasks it starts. *)
Definition _evict (e : Z) (w : world) : world * list point :=
  let s := box (ent w e) in
  let w := upd e (set_box None) (_forget e w) in
  (w, match s with Some s => [PCloseBox s] | None => [] end).
Fixpoint evict_all (es : list Z) (w : world) : world * list point :=
  match es with
  | [] => (w, [])
  | e :: es => let '(w, t1) := _evict e w in let '(w, t2) := evict_all es w in (w, t1 ++ t2)
  end.

(** The entries of the index that are not among [kept]. *)
Definition kept_key (kept : list _Entry) (k : pkey) : bool :=
  existsb (fun x => bool_decide (e_owner x = k.1) && bool_decide (e_session_id x = k.2)) kept.
Definition victims (kept : list _Entry) (i : list (pkey * Z)) : list Z :=
  snd <$> filter (fun '(k, _) => kept_key kept k = false) i.
Definition views (w : world) : list _Entry := (fun '(_, e) => view w e) <$> index w.

(** What an awaited operation did.  [ARaise cancelled landed]: it raised (or the task was
    cancelled there), and [landed] says whether a write reached the store all the same. *)
Inductive answer :=
| AOk
| ARaise (cancelled landed : bool)
| ATimeout
| AWoken
| ACounter (n : Z)
| ABox (size c : Z)
| ANoBox (c : Z)
| ATooLarge.

Section Pool.
Context (max_per_owner : option Z) (max_sessions : Z) (idle_timeout : option Z).

(** *** [get] *)

Definition lease (now : Z) (k : pkey) (e : Z) (w : world) : world * list point :=
  let w := upd e (set_used now) (upd e (set_dirty true) w) in
  (w, [match box (ent w e) with Some s => PLeased k e s | None => PEnd (Some AssertionFailed) end]).

(** The lease is given back and the loop starts over. *)
Definition start_over (k : pkey) (wait : option Z) (e : Z) (w : world) : world * list point :=
  (upd e release w, [PGet k wait]).

(** The [except] clause around [_prepare]. *)
Definition prepare_raises (e : Z) (x : pexn) (w : world) : world * list point :=
  let w := match box (ent w e) with None => _forget e w | Some _ => w end in
  (upd e release w, [PEnd (Some x)]).

(** With the lease taken, up to the first [await] of [_prepare]. *)
Definition acquired (k : pkey) (wait : option Z) (e : Z) (w : world) : world * list point :=
  if gone (ent w e) then start_over k wait e w
  else match box (ent w e) with
       | Some s => (w, [PStored k wait e s])
       | None => (w, [PRestore k wait e])
       end.

(** [_acquire] up to where it suspends; [None] if the uncontended [acquire()] would. *)
Definition _acquire (k : pkey) (wait : option Z) (e : Z) (w : world) : option (world * list point) :=
  let x := ent w e in
  if negb (locked (lk x)) && (waiters x + 1 <=? 1) then
    l ← lock_acquire (lk x); Some (acquired k wait e (upd e (set_lk l) w))
  else if gone x then Some (w, [PGet k wait])
  else if match wait with Some t => t <=? 0 | None => false end then Some (w, [PEnd (Some SessionBusy)])
  else Some (bump (upd e (add_waiters 1) w), [PAcq k wait e (next_id w) NotStarted]).

Definition get_turn (now : Z) (k : pkey) (wait : option Z) (w : world) : option (world * list point) :=
  if closed w then Some (w, [PEnd (Some PoolClosed)])
  else
    match lookup_index k (index w) with
    | Some e => _acquire k wait e (set_index (move_to_end k (index w)) w)
    | None =>
        let '(r, kept) := _make_room max_per_owner max_sessions k.1 (views w) in
        let '(w, ts) := evict_all (victims kept (index w)) w in
        match r with
        | Err _ => Some (w, PEnd (Some Full) :: ts)
        | Ok true => Some (w, PGet k wait :: ts)
        | Ok false =>
            let e := next_id w in
            let w := bump (set_heap (<[e := new_entry k now]> (heap w)) w) in
            _acquire k wait e (set_index (move_to_end k (assign k e (index w))) w)
        end
    end.

(** A suspended [_acquire]. *)
Definition acq_turn (k : pkey) (wait : option Z) (e a : Z) (st : acquiring) (ans : answer) (w : world)
    : option (world * list point) :=
  let l := lk (ent w e) in
  let cancel := fun w => match st with Holding => w | _ => upd e (set_lk (lock_cancel a l)) w end in
  match ans with
  | AOk =>
      match st with
      | NotStarted =>
          match lock_acquire l with
          | Some l => Some (upd e (set_lk l) w, [PAcq k wait e a Holding])
          | None => Some (upd e (set_lk (lock_wait a l)) w, [PAcq k wait e a Queued])
          end
      | Queued => l ← lock_resume a l; Some (upd e (set_lk l) w, [PAcq k wait e a Holding])
      | Holding => Some (acquired k wait e (upd e (add_waiters (-1)) w))
      end
  | AWoken => if gone (ent w e) && negb (holding st)
              then Some (cancel w, [PAcqOver k wait e]) else None
  | ATimeout => if bool_decide (wait <> None) && negb (holding st)
                then Some (cancel w, [PAcqOver k wait e]) else None
  | ARaise _ _ => Some (upd e (add_waiters (-1)) (cancel w), [PEnd (Some Raised)])
  | _ => None
  end.

(** The end of an [_acquire] that did not get the lease. *)
Definition acq_over (k : pkey) (wait : option Z) (e : Z) (w : world) : world * list point :=
  let w := upd e (add_waiters (-1)) w in
  if gone (ent w e) then (w, [PGet k wait]) else (w, [PEnd (Some SessionBusy)]).

(** The last part of [_prepare]: the entry's session, or a restored one. *)
Definition prepared (now : Z) (k : pkey) (wait : option Z) (e : Z) (w : world) : world * list point :=
  match box (ent w e) with Some _ => lease now k e w | None => (w, [PRestore k wait e]) end.

Definition begin_persist (o : who) (e s : Z) (w : world) : world * list point :=
  (upd e (set_persisting true) w, [PPersist o e s (counter (ent w e) + 1) SCounter]).

(** [_prepare] with the recorded counter [n]. *)
Definition stored_turn (now : Z) (k : pkey) (wait : option Z) (e s n : Z) (w : world) : world * list point :=
  if gone (ent w e) then start_over k wait e w
  else if counter (ent w e) <? n then
    let '(w, ts) := prepared now k wait e (upd e (set_dirty false) (upd e (set_box None) w)) in
    (w, ts ++ [PCloseBox s])
  else if box_closed w s then begin_persist (WGet k wait) e s w
  else prepared now k wait e w.

(** [_restore] returned a sandbox with a journal of [size], under counter [c]. *)
Definition restored_turn (now : Z) (k : pkey) (wait : option Z) (e size c : Z) (w : world) : world * list point :=
  let s := next_id w in
  let w := upd e (set_counter c) (bump (set_boxes (<[s := SBox size false e]> (boxes w)) w)) in
  if gone (ent w e) then (w, [PQuietClose k wait e s])
  else lease now k e (upd e (set_saved size) (upd e (set_box (Some s)) w)).

(** *** [_persist] *)

(** Whether a failed [_persist] ends [close]. *)
Definition persist_raises (o : who) (e : Z) (x : pexn) (cancelled : bool) (w : world) : world * list point :=
  let w := upd e (set_persisting false) w in
  match o with
  | WGet k wait => prepare_raises e x w
  | WRelease => (upd e release w, [PEnd (Some x)])
  | WClose all rest => (w, [if cancelled then PEnd (Some x) else PCloseStore all rest])
  end.

Definition persist_returns (now : Z) (o : who) (e s : Z) (w : world) : world * list point :=
  let w := upd e (set_persisting false) w in
  match o with
  | WGet k wait =>
      if gone (ent w e) then start_over k wait e w
      else if bool_decide (box (ent w e) = Some s) then
        let '(w, ts) := prepared now k wait e (upd e (set_box None) w) in (w, ts ++ [PCloseBox s])
      else prepared now k wait e w
  | WRelease =>
      let drop_it := bool_decide (box (ent w e) = Some s) && box_closed w s in
      let w := if drop_it then upd e (set_box None) w else w in
      (upd e release (upd e (set_used now) w), PEnd None :: if drop_it then [PCloseBox s] else [])
  | WClose all rest => (w, [PCloseStore all rest])
  end.

(** [_write] returned [b]. *)
Definition written (now : Z) (o : who) (e s : Z) (spent b : bool) (w : world) : world * list point :=
  if spent then persist_raises o e TooLarge false (_forget e (upd e (set_dirty false) (upd e (set_box None) w)))
  else
    let w := if b then upd e (set_saved (box_size w s)) (upd e (set_dirty false) w) else w in
    persist_returns now o e s w.

Definition begin_write (now : Z) (o : who) (e s c : Z) (spent : bool) (w : world) : world * list point :=
  if dropped (ent w e) then written now o e s spent false w else (w, [PPersist o e s c (SJournal spent)]).

Definition write_journal (e c : Z) (w : world) : world :=
  set_stored (<[e_key (ent w e) := (e, c)]> (stored w)) w.
Definition delete_journal (k : pkey) (w : world) : world := set_stored (delete k (stored w)) w.

Definition persist_turn (now : Z) (o : who) (e s c : Z) (st : stage) (ans : answer) (w : world)
    : option (world * list point) :=
  let x := ent w e in
  match st, ans with
  | SCounter, ACounter n =>
      if dropped x then Some (persist_returns now o e s w)
      else if counter x <? n then
        let '(w, ts) := persist_raises o e StaleJ false (upd e (set_dirty false) (upd e (set_box None) w)) in
        Some (w, ts ++ [PCloseBox s])
      else Some (w, [PPersist o e s c SDump])
  | SDump, AOk => Some (begin_write now o e s c false w)
  | SDump, ATooLarge => Some (w, [PPersist o e s c SClose])
  | SClose, AOk => Some (begin_write now o e s c true (upd e (set_dirty true) (upd_box s shut w)))
  | SClose, ARaise false _ => Some (begin_write now o e s c true (upd e (set_dirty true) w))
  | SJournal spent, AOk =>
      let w := write_journal e c w in
      Some (w, [PPersist o e s c (if dropped x then SDelete spent else SRecord spent)])
  | SJournal _, ARaise cancelled true => Some (persist_raises o e Raised cancelled (write_journal e c w))
  | SRecord spent, AOk =>
      let w := upd e (set_counter c) w in
      if dropped x then Some (w, [PPersist o e s c (SDelete spent)]) else Some (written now o e s spent true w)
  | SDelete spent, AOk => Some (written now o e s spent false (delete_journal (e_key x) w))
  | SDelete _, ARaise cancelled true => Some (persist_raises o e Raised cancelled (delete_journal (e_key x) w))
  | _, ARaise cancelled _ => Some (persist_raises o e Raised cancelled w)
  | _, _ => None
  end.

(** *** [_release] *)

Definition release_turn (k : pkey) (leased : option Z) (w : world) : world * list point :=
  match lookup_index k (index w) with
  | None => (w, [PEnd None])
  | Some e =>
      let x := ent w e in
      if barrier x then (w, [PEnd None])
      else if match leased with Some s => negb (bool_decide (box x = Some s)) | None => false end
      then (w, [PEnd None])
      else if negb (locked (lk x)) then (w, [PEnd (Some NotLeased)])
      else if gone x then (upd e release w, [PEnd None])
      else match box x with
           | None => (upd e release w, [PEnd None])
           | Some s => begin_persist WRelease e s w
           end
  end.

(** *** [drop] *)

Definition drop_turn (now : Z) (k : pkey) (w : world) : world * list point :=
  if closed w then (w, [PEnd (Some PoolClosed)])
  else
    let old := lookup_index k (index w) in
    let b := next_id w in
    let w := bump (set_heap (<[b := set_lk (Lock true []) (mark_barrier (new_entry k now))]> (heap w)) w) in
    let w := set_index (assign k b (index w)) w in
    match old with
    | None => (w, [PDropCounter k None b])
    | Some e =>
        let s := box (ent w e) in
        let w := upd e (set_box None) (upd e mark_gone (upd e mark_dropped w)) in
        (w, [match s with Some s => PDropClose k e b s | None => PDropQuiet k e b end])
    end.

Definition drop_ends (b : Z) (p : point) (w : world) : world * list point :=
  (upd b release (_forget b w), [p]).

Definition drop_await (p : point) (ans : answer) (w : world) : option (world * list point) :=
  match p, ans with
  | PDropClose k e b s, AOk => Some (upd_box s shut w, [PDropQuiet k e b])
  | PDropQuiet k e b, AOk => if persisting (ent w e) then None else Some (w, [PDropCounter k (Some e) b])
  | PDropCounter k old b, ACounter n =>
      let n := match old with Some e => Z.max n (counter (ent w e)) | None => n end in
      Some (w, [PDropDelete k old b n])
  | PDropDelete k old b n, AOk => Some (delete_journal k w, [PDropRecord k old b n])
  | PDropDelete k old b n, ARaise _ true => Some (drop_ends b (PEnd (Some Raised)) (delete_journal k w))
  | PDropRecord k old b n, AOk => Some (drop_ends b (PDropped k old) w)
  | (PDropClose _ _ b _ | PDropQuiet _ _ b | PDropCounter _ _ b | PDropDelete _ _ b _ | PDropRecord _ _ b _), ARaise _ _ =>
      Some (drop_ends b (PEnd (Some Raised)) w)
  | _, _ => None
  end.

(** *** [close] *)

Definition gone_all (es : list Z) (w : world) : world := foldr (fun e => upd e mark_gone) w es.

Definition boxes_turn (all rest : list Z) (w : world) : world * list point :=
  match rest with
  | [] => (w, [PCloseStore all all])
  | e :: rest =>
      let x := ent w e in
      match box x with
      | Some s => if locked (lk x) && negb (persisting x) then (w, [PClosing all rest s]) else (w, [PCloseBoxes all rest])
      | None => (w, [PCloseBoxes all rest])
      end
  end.

Fixpoint empty_all (es : list Z) (w : world) : world * list point :=
  match es with
  | [] => (w, [])
  | e :: es =>
      let s := box (ent w e) in
      let '(w, ts) := empty_all es (upd e (set_box None) w) in
      (w, match s with Some s => PCloseBox s :: ts | None => ts end)
  end.

(** [None]: waiting for a [_persist] of this entry to finish. *)
Definition store_turn (all rest : list Z) (w : world) : option (world * list point) :=
  match rest with
  | [] => let '(w, ts) := empty_all all (set_index [] w) in Some (w, PEnd None :: ts)
  | e :: rest =>
      let x := ent w e in
      if persisting x then None
      else match box x with
           | None => Some (w, [PCloseStore all rest])
           | Some s =>
               if dropped x || negb (is_unsaved w e) then Some (w, [PCloseStore all rest])
               else Some (begin_persist (WClose all rest) e s w)
           end
  end.

(** ** Turns *)

Definition turn (now : Z) (ans : answer) (p : point) (w : world) : option (world * list point) :=
  match p, ans with
  | PGet k wait, AOk => get_turn now k wait w
  | PGet _ _, ARaise _ _ => Some (w, [PEnd (Some Raised)])
  | PAcq k wait e a st, _ => acq_turn k wait e a st ans w
  | PAcqOver k wait e, AOk => Some (acq_over k wait e w)
  | PStored k wait e s, ACounter n => Some (stored_turn now k wait e s n w)
  | PRestore k wait e, ABox size c => Some (restored_turn now k wait e size c w)
  | PRestore k wait e, ANoBox c => Some (prepare_raises e Raised (upd e (set_counter c) w))
  | PQuietClose k wait e s, AOk => Some (start_over k wait e (upd_box s shut w))
  | (PStored _ _ e _ | PRestore _ _ e | PQuietClose _ _ e _), ARaise _ _ => Some (prepare_raises e Raised w)
  | PLeased k e s, AOk => Some (release_turn k (Some s) w)
  | PPersist o e s c st, _ => persist_turn now o e s c st ans w
  | PRelease k leased, AOk => Some (release_turn k leased w)
  | PDrop k, AOk => Some (drop_turn now k w)
  | (PDropClose _ _ _ _ | PDropQuiet _ _ _ | PDropCounter _ _ _ | PDropDelete _ _ _ _ | PDropRecord _ _ _ _), _ =>
      drop_await p ans w
  | PCloseStart, AOk =>
      let all := snd <$> index w in Some (gone_all all w, [PCloseBoxes all all])
  | PCloseBoxes all rest, AOk => Some (boxes_turn all rest w)
  | PClosing all rest s, AOk => Some (upd_box s shut w, [PCloseBoxes all rest])
  | PCloseStore all rest, AOk => store_turn all rest w
  | (PCloseStart | PClosing _ _ _ | PCloseStore _ _), ARaise _ _ => Some (w, [PEnd (Some Raised)])
  | PCloseBox s, AOk => Some (upd_box s shut w, [PEnd None])
  | _, _ => None
  end.

(** One sweep of [evict_idle]. *)
Definition sweep (now : Z) (w : world) : world * list point :=
  let '(_, kept) := evict_idle idle_timeout max_sessions now (views w) in
  evict_all (victims kept (index w)) w.

(** [bare] says whether callers may end leases with [release(owner, session_id)], which ends
    whatever lease the session has, instead of [async with pool.session(...)].  [close] is
    called once. *)
Inductive step (bare : bool) : world -> world -> Prop :=
| step_turn now ans l1 p l2 w w' ts :
    threads w = l1 ++ p :: l2 -> turn now ans p w = Some (w', ts) ->
    step bare w (set_threads (l1 ++ ts ++ l2) w')
| step_get k wait w : step bare w (set_threads (PGet k wait :: threads w) w)
| step_drop k w : step bare w (set_threads (PDrop k :: threads w) w)
| step_release k w : bare = true -> step bare w (set_threads (PRelease k None :: threads w) w)
| step_sweep now w w' ts : sweep now w = (w', ts) -> step bare w (set_threads (ts ++ threads w) w')
| step_close w : closed w = false -> step bare w (set_threads (PCloseStart :: threads w) (set_closed w))
| step_box s f w : (forall b, b_entry (f b) = b_entry b) -> step bare w (upd_box s f w).

Inductive reachable (bare : bool) : world -> Prop :=
| reach_init : reachable bare init_world
| reach_step w w' : reachable bare w -> step bare w w' -> reachable bare w'.
End Pool.
