(* ===== verification/LeaseInv.v ===== *)
(** * Invariants of the lease protocol

    What tasks hold, wait for and write is counted by their [roles]; [good] relates an
    entry's lock, waiter count and flags to the roles of all tasks, [typed] says what a
    suspended task knows, [index_ok] is the invariant of the pool's map, and [later] is how
    the world may change under a suspended task. *)

From S2P Require Import Prelude PyVal Journal SessionPool SessionPoolProps Lease.

(** ** Roles *)

(** Holding the lock, holding it as a caller's lease, waiting, storing with the lock held,
    storing for [close], and an [acquire()] in flight. *)
Inductive role := RHold | RLease | RWait | RStore | RClose | RAcq (a : Z) (st : acquiring).

#[export] Instance acquiring_eq_dec : EqDecision acquiring.
Proof. solve_decision. Defined.
#[export] Instance role_eq_dec : EqDecision role.
Proof. solve_decision. Defined.

Definition c_hold (r : role) : Z := match r with RHold | RLease | RStore | RAcq _ Holding => 1 | _ => 0 end.
Definition c_lease (r : role) : Z := match r with RLease => 1 | _ => 0 end.
Definition c_wait (r : role) : Z := match r with RWait | RAcq _ _ => 1 | _ => 0 end.
Definition c_pers (r : role) : Z := match r with RStore | RClose => 1 | _ => 0 end.
Definition c_close (r : role) : Z := match r with RClose => 1 | _ => 0 end.
Definition id_of (r : role) : list Z := match r with RAcq a _ => [a] | _ => [] end.
Definition queued_of (r : role) : list Z := match r with RAcq a Queued => [a] | _ => [] end.
Definition ids (R : list role) : list Z := R ≫= id_of.
Definition queued (R : list role) : list Z := R ≫= queued_of.

Definition on (e e' : Z) (l : list role) : list role := if bool_decide (e' = e) then l else [].

Definition roles (e : Z) (p : point) : list role :=
  match p with
  | PAcq _ _ e' a st => on e e' [RAcq a st]
  | PAcqOver _ _ e' => on e e' [RWait]
  | PStored _ _ e' _ | PRestore _ _ e' | PQuietClose _ _ e' _ => on e e' [RHold]
  | PLeased _ e' _ => on e e' [RLease]
  | PPersist (WClose _ _) e' _ _ _ => on e e' [RClose]
  | PPersist _ e' _ _ _ => on e e' [RStore]
  | PDropClose _ _ b _ | PDropQuiet _ _ b | PDropCounter _ _ b | PDropDelete _ _ b _ | PDropRecord _ _ b _ =>
      on e b [RHold]
  | _ => []
  end.

Lemma on_same e l : on e e l = l.
Proof. unfold on. by rewrite bool_decide_true. Qed.

Lemma on_other e e' l : e' <> e -> on e e' l = [].
Proof. intros. unfold on. by rewrite bool_decide_false. Qed.

Lemma ids_perm R R' : R ≡ₚ R' -> ids R ≡ₚ ids R'.
Proof. intros H. unfold ids. by rewrite H. Qed.

Lemma queued_perm R R' : R ≡ₚ R' -> queued R ≡ₚ queued R'.
Proof. intros H. unfold queued. by rewrite H. Qed.

Lemma queued_ids R : queued R `sublist_of` ids R.
Proof.
  induction R as [|[] R IH]; cbn; try done. destruct st; cbn; [by apply sublist_cons| by apply sublist_skip|by apply sublist_cons].
Qed.

Lemma lease_hold R : total c_lease R <= total c_hold R.
Proof. apply total_le. intros []; cbn; try lia. destruct st; lia. Qed.

Lemma hold_nonneg R : 0 <= total c_hold R.
Proof. apply total_nonneg. intros []; cbn; try lia. destruct st; lia. Qed.
Lemma lease_nonneg R : 0 <= total c_lease R.
Proof. apply total_nonneg. intros []; cbn; lia. Qed.
Lemma wait_nonneg R : 0 <= total c_wait R.
Proof. apply total_nonneg. intros []; cbn; lia. Qed.
Lemma pers_nonneg R : 0 <= total c_pers R.
Proof. apply total_nonneg. intros []; cbn; lia. Qed.

Lemma pers_split R : total c_pers R <= total c_hold R + total c_close R.
Proof. induction R as [|[] R IH]; cbn; try lia. destruct st; lia. Qed.

Lemma no_wait_ids R : total c_wait R = 0 -> ids R = [].
Proof.
  induction R as [|[] R IH]; cbn; intros H; try (apply IH; lia); try done; pose proof (wait_nonneg R); lia.
Qed.

(** ** Entries *)

Definition b2z (b : bool) : Z := if b then 1 else 0.

(** The first waiter's future is set exactly while the lock is free; nobody else's is. *)
Definition woken_ok (l : lock) : Prop :=
  match queue l with [] => True | (_, f) :: q => f = negb (locked l) /\ Forall (fun x => x.2 = false) q end.

Record good (x : entry) (R : list role) : Prop := {
  g_hold : total c_hold R <= b2z (locked (lk x));
  g_wait : waiters x = total c_wait R;
  g_queue : (queue (lk x)).*1 ≡ₚ queued R;
  g_ids : NoDup (ids R);
  g_pers : total c_pers R = b2z (persisting x);
  g_woken : woken_ok (lk x)
}.

Lemma good_perm x R R' : R ≡ₚ R' -> good x R -> good x R'.
Proof.
  intros Hp []. split; rewrite <- ?(total_perm _ _ _ Hp); try done.
  - by rewrite <- (queued_perm _ _ Hp).
  - by rewrite <- (ids_perm _ _ Hp).
Qed.

Lemma good_same x x' R : lk x' = lk x -> waiters x' = waiters x -> persisting x' = persisting x ->
  good x R -> good x' R.
Proof. intros E1 E2 E3 []. split; by rewrite ?E1, ?E2, ?E3. Qed.

(** Giving up a role that only holds, keeping the lock locked. *)
Lemma good_unhold x r R : r = RHold \/ r = RLease -> good x (r :: R) -> good x R.
Proof. intros Hr []. split; destruct Hr as [-> | ->]; cbn in *; try done; lia. Qed.

Lemma good_lease x R : good x (RHold :: R) <-> good x (RLease :: R).
Proof. split; intros []; split; cbn in *; done. Qed.

Lemma wake_ok l : locked l = false -> Forall (fun x => x.2 = false) (queue l) -> woken_ok (wake_up_first l).
Proof.
  destruct l as [b q]. cbn. intros ->. unfold wake_up_first, woken_ok. cbn. destruct q as [|[a f] q]; [done|].
  cbn. intros H. apply Forall_cons in H as [_ H]. by split.
Qed.

Lemma wake_queue l : (queue (wake_up_first l)).*1 = (queue l).*1.
Proof. destruct l as [b [|[a f] q]]; done. Qed.

Lemma wake_locked l : locked (wake_up_first l) = locked l.
Proof. destruct l as [b [|[a f] q]]; done. Qed.

Lemma good_release x r R : r = RHold \/ r = RLease -> good x (r :: R) -> good (release x) R.
Proof.
  intros Hr []. assert (Hh : total c_hold (r :: R) = 1 + total c_hold R) by (destruct Hr as [-> | ->]; done).
  pose proof (hold_nonneg R).
  rewrite Hh in g_hold0.
  assert (Hl : locked (lk x) = true) by (destruct (locked (lk x)); [done|cbn [b2z] in g_hold0; lia]).
  unfold release, lock_release. rewrite Hl in *. cbn [b2z] in g_hold0. split; cbn [lk waiters persisting set_lk].
  - rewrite wake_locked. cbn. lia.
  - rewrite g_wait0. by destruct Hr as [-> | ->].
  - rewrite wake_queue. cbn. rewrite g_queue0. by destruct Hr as [-> | ->].
  - by destruct Hr as [-> | ->].
  - by destruct Hr as [-> | ->].
  - apply wake_ok; [done|]. cbn. unfold woken_ok in *. destruct (queue (lk x)) as [|[a f] q]; [done|].
    destruct g_woken0 as [-> Hq]. rewrite Hl. by constructor.
Qed.

Lemma good_free x R : good x R -> locked (lk x) = false -> total c_hold R = 0.
Proof. intros [] Hl. rewrite Hl in *. cbn in *. pose proof (hold_nonneg R). lia. Qed.

(** *** The lock's queue *)

Lemma good_acquire x R l : lock_acquire (lk x) = Some l -> good x R -> good (set_lk l x) (RHold :: R).
Proof.
  unfold lock_acquire. intros E G. destruct (negb _) eqn:El; [|done]. bool_prop.
  destruct (bool_decide _) eqn:Eq; [|done]. apply bool_decide_eq_true in Eq. injection E as <-.
  pose proof (good_free _ _ G El). destruct G. split; cbn; try done; [lia|]. by rewrite Eq in g_queue0.
Qed.

Lemma good_acq_now x R a l : lock_acquire (lk x) = Some l ->
  good x (RAcq a NotStarted :: R) -> good (set_lk l x) (RAcq a Holding :: R).
Proof.
  unfold lock_acquire. intros E G. destruct (negb _) eqn:El; [|done]. bool_prop.
  destruct (bool_decide _) eqn:Eq; [|done]. apply bool_decide_eq_true in Eq. injection E as <-.
  pose proof (good_free _ _ G El). destruct G. split; cbn in *; try done; [lia|]. by rewrite Eq in g_queue0.
Qed.

Lemma good_acq_wait x R a : lock_acquire (lk x) = None ->
  good x (RAcq a NotStarted :: R) -> good (set_lk (lock_wait a (lk x)) x) (RAcq a Queued :: R).
Proof.
  intros E []. split; cbn in *; try done.
  - rewrite fmap_app. cbn. rewrite g_queue0. by rewrite Permutation_app_comm.
  - unfold lock_acquire in E. unfold woken_ok in *. cbn. destruct (queue (lk x)) as [|[b f] q]; cbn.
    + destruct (locked (lk x)); [by split|]. cbn in E. done.
    + destruct g_woken0 as [-> Hq]. split; [done|]. apply Forall_app. by split; [|constructor].
Qed.

Lemma filter_not_waiter a q l : NoDup (a :: l) -> q.*1 ≡ₚ a :: l -> (filter (not_waiter a) q).*1 ≡ₚ l.
Proof.
  intros Hn Hp. assert (Hf : forall q' : list (Z * bool), (filter (not_waiter a) q').*1 = filter (fun x => x <> a) q'.*1).
  { induction q' as [|[b f] q' IH]; [done|]. rewrite filter_cons. cbn [fmap list_fmap fst]. rewrite filter_cons.
    unfold not_waiter at 1. cbn. destruct (decide (b <> a)); cbn; by rewrite IH. }
  rewrite Hf, Hp. rewrite filter_cons, decide_False by tauto.
  apply NoDup_cons in Hn as [Hn _]. clear -Hn. induction l as [|b l IH]; [done|].
  rewrite filter_cons, decide_True; [|intros ->; apply Hn; left].
  rewrite IH; [done|]. intros H. apply Hn. by right.
Qed.

Lemma queued_nodup R : NoDup (ids R) -> NoDup (queued R).
Proof. intros H. eapply sublist_NoDup; [exact H|apply queued_ids]. Qed.

Lemma woken_filter_tail a q : Forall (fun x : Z * bool => x.2 = false) q ->
  Forall (fun x => x.2 = false) (filter (not_waiter a) q).
Proof.
  rewrite !Forall_forall. intros H x [_ Hx]%list_elem_of_filter. auto.
Qed.

Lemma woken_in l a : woken_ok l -> (a, true) ∈ queue l -> locked l = false /\ exists q, queue l = (a, true) :: q /\
  Forall (fun x => x.2 = false) q.
Proof.
  unfold woken_ok. destruct (queue l) as [|[b f] q]; intros Hw Hin; [by apply elem_of_nil in Hin|].
  destruct Hw as [-> Hq]. apply elem_of_cons in Hin as [[= <- Hf]|Hin].
  - destruct (locked l); [done|]. split; [done|]. by exists q.
  - rewrite Forall_forall in Hq. by specialize (Hq _ Hin).
Qed.

Lemma good_acq_resume x R a l : lock_resume a (lk x) = Some l ->
  good x (RAcq a Queued :: R) -> good (set_lk l x) (RAcq a Holding :: R).
Proof.
  unfold lock_resume. intros E G. destruct (bool_decide _) eqn:Ein; [|done]. apply bool_decide_eq_true in Ein.
  injection E as <-. destruct G. destruct (woken_in _ _ g_woken0 Ein) as (Hl & q & Hq & Hf).
  pose proof (queued_nodup _ g_ids0) as Hn. split; cbn in *; try done.
  - rewrite Hl in *. cbn in *. lia.
  - by apply filter_not_waiter.
  - unfold woken_ok. cbn. rewrite Hq, filter_cons, decide_False by (unfold not_waiter; cbn; tauto).
    destruct (filter _ q) as [|[b f] q'] eqn:Ef; [done|].
    pose proof (woken_filter_tail a q Hf) as H. rewrite Ef in H. apply Forall_cons in H as [? ?]. by split.
Qed.

Lemma filter_tail_woken a l : woken_ok l -> Forall (fun x => x.2 = false) (filter (not_waiter a) (queue l)) \/
  exists b q, b <> a /\ filter (not_waiter a) (queue l) = (b, negb (locked l)) :: filter (not_waiter a) q /\
    Forall (fun x => x.2 = false) q.
Proof.
  unfold woken_ok. destruct (queue l) as [|[b f] q]; [by left|]. intros [-> Hq].
  rewrite filter_cons. destruct (decide (not_waiter a (b, negb (locked l)))) as [Hb|Hb].
  - right. exists b, q. split_and!; [exact Hb|done|done].
  - left. by apply woken_filter_tail.
Qed.

Lemma good_acq_cancel x R a st : st <> Holding ->
  good x (RAcq a st :: R) -> good (set_lk (lock_cancel a (lk x)) x) (RWait :: R).
Proof.
  intros Hst []. pose proof (queued_nodup _ g_ids0) as Hn. cbn in g_ids0. apply NoDup_cons in g_ids0 as [Ha Hi].
  assert (Hq : (filter (not_waiter a) (queue (lk x))).*1 ≡ₚ queued R).
  { destruct st; [|by apply filter_not_waiter|done]. cbn in *.
    assert (Hna : a ∉ queued R) by (intros H; apply Ha; by eapply elem_of_sublist; [exact H|apply queued_ids]).
    rewrite <- g_queue0 in Hna. rewrite <- g_queue0. clear -Hna. induction (queue (lk x)) as [|[b f] q IH]; [done|].
    rewrite filter_cons. cbn in Hna. rewrite elem_of_cons in Hna. rewrite decide_True by (unfold not_waiter; cbn; naive_solver).
    cbn. rewrite IH; [done|naive_solver]. }
  assert (Hc : c_hold (RAcq a st) = 0) by (destruct st; done). cbn in g_hold0, g_wait0, g_pers0.
  pose proof (filter_tail_woken a _ g_woken0) as Hw.
  unfold lock_cancel. cbn [locked]. destruct (locked (lk x)) eqn:El.
  - split; cbn; rewrite ?El; try done; try (cbn in *; lia).
    unfold woken_ok. cbn. destruct Hw as [Hw|(b & q & _ & -> & Hw)].
    + destruct (filter _ _) as [|[b f] q]; [done|]. apply Forall_cons in Hw as [Hb ?]. cbn in Hb. subst f. by split.
    + split; [done|]. by apply woken_filter_tail.
  - split; cbn [lk set_lk waiters persisting]; rewrite ?wake_queue, ?wake_locked; try done; try (cbn in *; lia).
    destruct Hw as [Hw|(b & q & _ & E & Hw)]; [by apply wake_ok|].
    unfold woken_ok, wake_up_first. cbn. rewrite E. cbn. split; [done|]. by apply woken_filter_tail.
Qed.

(** ** Worlds *)

Definition known (w : world) (e : Z) (k : pkey) : Prop := exists x, heap w !! e = Some x /\ e_key x = k.
Definition made (w : world) (s e : Z) : Prop := exists b, boxes w !! s = Some b /\ b_entry b = e.
Definition quiet_drop (w : world) (e : Z) : Prop := dropped (ent w e) = true /\ persisting (ent w e) = false.
Definition not_stored (w : world) (k : pkey) (e : Z) : Prop := forall c, stored w !! k <> Some (e, c).
Definition parted (w : world) (e : Z) : Prop := (exists k, known w e k) /\ gone (ent w e) = true.
Definition closing (w : world) (es : list Z) : Prop :=
  closed w = true /\ (forall k e, (k, e) ∈ index w -> gone (ent w e) = true) /\ Forall (parted w) es.

Definition who_ok (w : world) (e : Z) (o : who) : Prop :=
  match o with
  | WGet k _ => known w e k
  | WRelease => exists k, known w e k
  | WClose all rest => parted w e /\ closing w all /\ closing w rest
  end.

(** What a suspended task knows, whatever the others did meanwhile. *)
Definition typed (w : world) (p : point) : Prop :=
  match p with
  | PAcq k _ e a _ => known w e k /\ a < next_id w
  | PAcqOver k _ e | PRestore k _ e => known w e k
  | PStored k _ e s | PQuietClose k _ e s | PLeased k e s => known w e k /\ made w s e
  | PPersist o e s _ _ => made w s e /\ who_ok w e o
  | PRelease _ _ => False
  | PDropClose k old b _ | PDropQuiet k old b => known w b k /\ known w old k /\ dropped (ent w old) = true
  | PDropCounter k old b | PDropDelete k old b _ =>
      known w b k /\ match old with Some e => known w e k /\ quiet_drop w e | None => True end
  | PDropRecord k old b _ =>
      known w b k /\ match old with Some e => known w e k /\ quiet_drop w e /\ not_stored w k e | None => True end
  | PDropped k (Some e) => known w e k /\ quiet_drop w e /\ not_stored w k e
  | PCloseStart => closed w = true
  | PCloseBoxes all rest | PClosing all rest _ | PCloseStore all rest => closing w all /\ closing w rest
  | _ => True
  end.

(** How an entry may change under a task. *)
Record grows (x x' : entry) : Prop := {
  gr_key : e_key x' = e_key x;
  gr_gone : gone x = true -> gone x' = true;
  gr_dropped : dropped x = true -> dropped x' = true;
  gr_quiet : dropped x = true -> persisting x = false -> persisting x' = false;
  gr_barrier : barrier x' = barrier x
}.

Record later (w w' : world) : Prop := {
  lt_heap : forall e x, heap w !! e = Some x -> exists x', heap w' !! e = Some x' /\ grows x x';
  lt_closed : closed w = true -> closed w' = true;
  lt_index : closed w = true -> forall ke, ke ∈ index w' -> ke ∈ index w;
  lt_next : next_id w <= next_id w';
  lt_made : forall s e, made w s e -> made w' s e;
  lt_stored : forall e k c, quiet_drop w e -> stored w' !! k = Some (e, c) -> stored w !! k = Some (e, c)
}.

Lemma grows_refl x : grows x x.
Proof. by split. Qed.

Lemma ent_known w e x : heap w !! e = Some x -> ent w e = x.
Proof. unfold ent. by intros ->. Qed.

Lemma later_known w w' e k : later w w' -> known w e k -> known w' e k.
Proof. intros L (x & Hx & Hk). destruct (lt_heap _ _ L _ _ Hx) as (x' & Hx' & G). exists x'. by rewrite (gr_key _ _ G). Qed.

Lemma later_quiet w w' e : later w w' -> quiet_drop w e -> quiet_drop w' e.
Proof.
  intros L [Hd Hp]. unfold quiet_drop, ent in *. destruct (heap w !! e) as [x|] eqn:E; [|done]. cbn in *.
  destruct (lt_heap _ _ L _ _ E) as (x' & -> & []). cbn. auto.
Qed.

Lemma later_dropped w w' e : later w w' -> dropped (ent w e) = true -> dropped (ent w' e) = true.
Proof.
  intros L Hd. unfold ent in *. destruct (heap w !! e) as [x|] eqn:E; [|done].
  destruct (lt_heap _ _ L _ _ E) as (x' & -> & []). cbn in *. auto.
Qed.

Lemma later_gone w w' e k : later w w' -> known w e k -> gone (ent w e) = true -> gone (ent w' e) = true.
Proof.
  intros L (x & E & _). unfold ent. rewrite E. destruct (lt_heap _ _ L _ _ E) as (x' & -> & []). cbn in *. auto.
Qed.

Lemma later_not_stored w w' k e : later w w' -> quiet_drop w e -> not_stored w k e -> not_stored w' k e.
Proof. intros L Hq Hn c Hc. eapply Hn. by eapply lt_stored. Qed.

Lemma later_refl w : later w w.
Proof. split; try done. intros e x Hx. exists x. split; [done|apply grows_refl]. Qed.

Lemma later_trans w1 w2 w3 : later w1 w2 -> later w2 w3 -> later w1 w3.
Proof.
  intros L1 L2. split.
  - intros e x Hx. destruct (lt_heap _ _ L1 _ _ Hx) as (x2 & Hx2 & []).
    destruct (lt_heap _ _ L2 _ _ Hx2) as (x3 & Hx3 & []). exists x3. split; [done|].
    split; try (by auto); congruence.
  - intros H. by apply L2, L1.
  - intros H ke Hin. apply (lt_index _ _ L1); [done|]. apply (lt_index _ _ L2); [by apply L1|done].
  - pose proof (lt_next _ _ L1). pose proof (lt_next _ _ L2). lia.
  - intros s e H. by apply L2, L1.
  - intros e k c Hq Hs. apply (lt_stored _ _ L1); [done|]. apply (lt_stored _ _ L2); [|done]. by eapply later_quiet.
Qed.
#[export] Instance later_preorder : PreOrder later.
Proof. split; [intros w; apply later_refl|intros w1 w2 w3; apply later_trans]. Qed.

(** *** The invariant *)

Record index_ok (w : world) : Prop := {
  x_find : forall k e, (k, e) ∈ index w -> known w e k /\ (gone (ent w e) = true -> closed w = true);
  x_live : forall e x, heap w !! e = Some x -> gone x = false -> (e_key x, e) ∈ index w;
  x_keys : NoDup (index w).*1;
  x_ids : forall e x, heap w !! e = Some x -> e < next_id w;
  x_boxes : forall s b, boxes w !! s = Some b -> s < next_id w;
  x_drop : forall e x, heap w !! e = Some x -> dropped x = true -> gone x = true;
  x_box : forall e x s, heap w !! e = Some x -> box x = Some s -> made w s e
}.

(** [R]: the roles of the task that runs; [l]: the other tasks. *)
Record inv (w : world) (R : Z -> list role) (l : list point) : Prop := {
  i_good : forall e, good (ent w e) (R e ++ (l ≫= roles e));
  i_typed : Forall (typed w) l;
  i_index : index_ok w;
  i_lease : forall e, gone (ent w e) = true ->
    dropped (ent w e) = true \/ closed w = true \/ total c_lease (R e ++ (l ≫= roles e)) = 0
}.

Lemma later_parted w w' e : later w w' -> parted w e -> parted w' e.
Proof. intros L [[k Hk] Hg]. split; [exists k; by eapply later_known|]. by eapply later_gone. Qed.

Lemma later_closing w w' es : index_ok w -> later w w' -> closing w es -> closing w' es.
Proof.
  intros I L (Hc & Hg & Hes). split_and!; [by apply L| |].
  - intros k e Hin. apply (lt_index _ _ L Hc) in Hin. destruct (x_find _ I _ _ Hin) as [Hk _]. eapply later_gone; eauto.
  - eapply Forall_impl; [exact Hes|]. intros e. by apply later_parted.
Qed.

Lemma later_who w w' e o : index_ok w -> later w w' -> who_ok w e o -> who_ok w' e o.
Proof.
  intros I L. destruct o as [k wait| |all rest]; cbn.
  - by apply later_known.
  - intros [k Hk]. exists k. by eapply later_known.
  - intros (Hp & H1 & H2). split_and!; [by eapply later_parted|by eapply later_closing..].
Qed.

Lemma later_typed w w' p : index_ok w -> later w w' -> typed w p -> typed w' p.
Proof.
  intros I L. pose proof (fun e k => later_known w w' e k L) as K. pose proof (lt_made _ _ L) as M.
  pose proof (lt_next _ _ L) as N. pose proof (fun e => later_quiet w w' e L) as Q.
  pose proof (fun e => later_dropped w w' e L) as D. pose proof (fun k e => later_not_stored w w' k e L) as S.
  pose proof (fun es => later_closing w w' es I L) as C. pose proof (fun e o => later_who w w' e o I L) as P.
  destruct p; cbn; try done; auto; try (intros [H1 H2]; split; [by auto|]; auto; try lia).
  - destruct H2. split; auto.
  - destruct H2. split; auto.
  - destruct old; [|done]. split; [apply K|apply Q]; tauto.
  - destruct old; [|done]. split; [apply K|apply Q]; tauto.
  - destruct old; [|done]. split_and!; [apply K|apply Q|apply S]; tauto.
  - destruct old; [|done]. intros (? & ? & ?). split_and!; [apply K|apply Q|apply S]; tauto.
  - apply L.
Qed.

(** *** Updates of one entry *)

Definition at_ (e : Z) (rs : list role) (e' : Z) : list role := on e' e rs.

Lemma at_same e rs : at_ e rs e = rs.
Proof. apply on_same. Qed.

Lemma at_other e e' rs : e' <> e -> at_ e rs e' = [].
Proof. intros. apply on_other. congruence. Qed.

Lemma at_nil e e' : at_ e [] e' = [].
Proof. unfold at_, on. by case_bool_decide. Qed.

Lemma inv_ext w R R' l : (forall e, R e = R' e) -> inv w R l -> inv w R' l.
Proof. intros E []. split; try done; intros e; rewrite <- E; auto. Qed.

Lemma ent_upd w e f x e' : heap w !! e = Some x ->
  ent (upd e f w) e' = if decide (e' = e) then f x else ent w e'.
Proof.
  intros E. unfold ent, upd. cbn. destruct (decide (e' = e)) as [->|Hne].
  - by rewrite lookup_alter_eq, E.
  - by rewrite lookup_alter_ne.
Qed.

Lemma ent_upd_same w e f x : heap w !! e = Some x -> ent (upd e f w) e = f x.
Proof. intros E. rewrite (ent_upd _ _ _ _ _ E). by rewrite decide_True. Qed.

Lemma heap_upd w e f x e' x' : heap w !! e = Some x -> heap (upd e f w) !! e' = Some x' ->
  (e' = e /\ x' = f x) \/ (e' <> e /\ heap w !! e' = Some x').
Proof.
  intros E. unfold upd. cbn. destruct (decide (e' = e)) as [->|Hne].
  - rewrite lookup_alter_eq, E. cbn. intros [= <-]. by left.
  - rewrite lookup_alter_ne by done. by right.
Qed.

Lemma heap_upd_same w e f x : heap w !! e = Some x -> heap (upd e f w) !! e = Some (f x).
Proof. intros E. unfold upd. cbn. by rewrite lookup_alter_eq, E. Qed.

Lemma known_upd w e f x e' k : heap w !! e = Some x -> e_key (f x) = e_key x -> known w e' k -> known (upd e f w) e' k.
Proof.
  intros E Hk (y & Hy & <-). unfold known, upd. cbn. destruct (decide (e' = e)) as [->|Hne].
  - exists (f x). rewrite lookup_alter_eq, E. split; [done|]. congruence.
  - exists y. by rewrite lookup_alter_ne.
Qed.

Lemma later_upd w e f x : heap w !! e = Some x -> grows x (f x) -> later w (upd e f w).
Proof.
  intros E G. split; try done. intros e' y Hy. unfold upd. cbn. destruct (decide (e' = e)) as [->|Hne].
  - rewrite lookup_alter_eq, Hy. exists (f y). split; [done|]. congruence.
  - rewrite lookup_alter_ne by done. exists y. split; [done|apply grows_refl].
Qed.

(** An update that leaves the key, the flags and the quiet of a dropped entry alone. *)
Record plain (x x' : entry) : Prop := {
  pl_key : e_key x' = e_key x;
  pl_gone : gone x' = gone x;
  pl_dropped : dropped x' = dropped x;
  pl_quiet : dropped x = true -> persisting x = false -> persisting x' = false;
  pl_barrier : barrier x' = barrier x
}.

Lemma plain_grows x x' : plain x x' -> grows x x'.
Proof. intros []. split; congruence || auto. Qed.

Lemma index_upd w e f x : heap w !! e = Some x -> plain x (f x) -> (forall s, box (f x) = Some s -> made w s e) ->
  index_ok w -> index_ok (upd e f w).
Proof.
  intros E [P1 P2 P3 P4 P5] Hb []. split; try done.
  - intros k e' Hin. destruct (x_find0 _ _ Hin) as [Hk Hg]. split; [by eapply known_upd|].
    rewrite (ent_upd _ _ _ _ _ E). destruct (decide (e' = e)) as [->|]; [|done].
    rewrite P2, <- (ent_known _ _ _ E). done.
  - intros e' x' [[-> ->]|[Hne Hx]]%(heap_upd _ _ _ _ _ _ E) Hg; [|by apply x_live0].
    rewrite P1. apply x_live0; [done|congruence].
  - intros e' x' [[-> ->]|[Hne Hx]]%(heap_upd _ _ _ _ _ _ E); eauto.
  - intros e' x' [[-> ->]|[Hne Hx]]%(heap_upd _ _ _ _ _ _ E); [rewrite P2, P3|]; eauto.
  - intros e' x' s [[-> ->]|[Hne Hx]]%(heap_upd _ _ _ _ _ _ E) Hs; [by apply Hb|]. by eapply x_box0.
Qed.

Lemma typed_later w w' l : index_ok w -> later w w' -> Forall (typed w) l -> Forall (typed w') l.
Proof. intros I L H. eapply Forall_impl; [exact H|]. intros p. by apply later_typed. Qed.

Lemma inv_upd w l e f x rs rs' : inv w (at_ e rs) l -> heap w !! e = Some x -> plain x (f x) ->
  (forall s, box (f x) = Some s -> made w s e) ->
  (good x (rs ++ (l ≫= roles e)) -> good (f x) (rs' ++ (l ≫= roles e))) ->
  (gone x = true -> total c_lease rs' <= total c_lease rs) ->
  inv (upd e f w) (at_ e rs') l /\ later w (upd e f w).
Proof.
  intros [G T I C] E P Hb Hg Hl. assert (L : later w (upd e f w)) by (eapply later_upd; [done|by apply plain_grows]).
  split; [|done]. split.
  - intros e'. rewrite (ent_upd _ _ _ _ _ E). specialize (G e'). destruct (decide (e' = e)) as [->|Hne].
    + rewrite at_same in *. rewrite (ent_known _ _ _ E) in G. by apply Hg.
    + rewrite at_other in * by done. done.
  - by eapply typed_later.
  - by eapply index_upd.
  - intros e'. rewrite (ent_upd _ _ _ _ _ E). specialize (C e'). destruct (decide (e' = e)) as [->|Hne].
    + rewrite (ent_known _ _ _ E) in C. rewrite at_same in *. rewrite (pl_gone _ _ P), (pl_dropped _ _ P).
      intros Hx. destruct (C Hx) as [?|[?|Ht]]; [by left|by right; left|right; right].
      rewrite total_app in *. specialize (Hl Hx). pose proof (lease_nonneg rs'). pose proof (lease_nonneg (l ≫= roles e)). lia.
    + rewrite at_other in * by done. done.
Qed.

(** *** Forgetting an entry *)

Lemma lookup_index_in k i e : lookup_index k i = Some e -> (k, e) ∈ i.
Proof.
  induction i as [|[k' e'] i IH]; cbn; [done|]. case_bool_decide as E.
  - intros [= <-]. subst k'. left.
  - intros H. right. auto.
Qed.

Lemma lookup_index_none k i : lookup_index k i = None -> k ∉ i.*1.
Proof.
  induction i as [|[k' e'] i IH]; cbn; [intros _; apply not_elem_of_nil|]. case_bool_decide as E; [done|].
  intros H [->|Hin]%elem_of_cons; [done|]. by apply IH.
Qed.

Lemma index_unique (i : list (pkey * Z)) k e e' : NoDup i.*1 -> (k, e) ∈ i -> (k, e') ∈ i -> e = e'.
Proof.
  induction i as [|[k' x] i IH]; [by intros _ ?%elem_of_nil|]. cbn. intros [Hn Hd]%NoDup_cons.
  assert (Hin : forall y, (k, y) ∈ i -> k ∈ i.*1) by (intros y Hy; by apply (list_elem_of_fmap_2 fst) in Hy).
  rewrite !elem_of_cons. intros [H1|H1] [H2|H2]; simplify_eq; auto; exfalso; eauto.
Qed.

Lemma in_lookup_index k e i : NoDup i.*1 -> (k, e) ∈ i -> lookup_index k i = Some e.
Proof.
  intros Hn Hin. destruct (lookup_index k i) as [e'|] eqn:E.
  - f_equal. by eapply index_unique; [|apply lookup_index_in|].
  - apply lookup_index_none in E. destruct E. by apply (list_elem_of_fmap_2 fst) in Hin.
Qed.

Lemma filter_keys (P : pkey * Z -> Prop) `{!forall x, Decision (P x)} i : NoDup i.*1 -> NoDup (filter P i).*1.
Proof. intros Hn. eapply sublist_NoDup; [exact Hn|]. apply fmap_sublist, sublist_filter. Qed.

Lemma elem_filter_other k k' e (i : list (pkey * Z)) : (k', e) ∈ filter (other_key k) i <-> k' <> k /\ (k', e) ∈ i.
Proof. rewrite list_elem_of_filter. done. Qed.

Lemma forget_index w e x : heap w !! e = Some x -> index_ok w ->
  forall k' e', (k', e') ∈ index (_forget e w) <-> (k', e') ∈ index w /\ e' <> e.
Proof.
  intros E I k' e'. unfold _forget. rewrite (ent_known _ _ _ E).
  assert (Hk : forall k'', (k'', e) ∈ index w -> k'' = e_key x).
  { intros k'' Hin. destruct (x_find _ I _ _ Hin) as [(y & Hy & <-) _]. congruence. }
  case_bool_decide as Hl; cbn in *.
  - apply lookup_index_in in Hl. rewrite elem_filter_other. split.
    + intros [Hne Hin]. split; [done|]. intros ->. by apply Hne, Hk.
    + intros [Hin Hne]. split; [|done]. intros ->. apply Hne. by eapply index_unique; [apply I| |].
  - split; [|tauto]. intros Hin. split; [done|]. intros ->. apply Hl. pose proof (Hk _ Hin) as ->.
    by apply in_lookup_index; [apply I|].
Qed.

(** An entry leaves the map for good: [f] marks it gone, [i] is the map without it. *)
Lemma inv_part w R l e x f i : inv w R l -> heap w !! e = Some x ->
  e_key (f x) = e_key x -> gone (f x) = true -> (dropped x = true -> dropped (f x) = true) -> barrier (f x) = barrier x ->
  lk (f x) = lk x -> waiters (f x) = waiters x -> persisting (f x) = persisting x ->
  (forall s, box (f x) = Some s -> box x = Some s) ->
  (forall k' e', (k', e') ∈ i <-> (k', e') ∈ index w /\ e' <> e) -> NoDup i.*1 ->
  dropped (f x) = true \/ closed w = true \/ total c_lease (R e ++ (l ≫= roles e)) = 0 ->
  inv (set_index i (upd e f w)) R l /\ later w (set_index i (upd e f w)).
Proof.
  intros [G T I C] E Fk Fg Fd Fbar F1 F2 F3 Fb Hi Hn Hl. set (w' := set_index i (upd e f w)).
  assert (Ee : forall e', ent w' e' = if decide (e' = e) then f x else ent w e') by (intros e'; by apply ent_upd).
  assert (L : later w w').
  { destruct (later_upd w e f x E) as []; [split; congruence || auto|]. split; try done.
    intros _ [k' e'] Hin. by apply Hi in Hin as [? _]. }
  split; [|done]. split; [|by eapply typed_later| |].
  - intros e'. rewrite Ee. specialize (G e'). destruct (decide (e' = e)) as [->|]; [|done].
    rewrite (ent_known _ _ _ E) in G. by eapply good_same; [..|exact G].
  - split; cbn.
    + intros k' e' [Hin Hne]%Hi. destruct (x_find _ I _ _ Hin) as [Hk Hg]. split; [by eapply (later_known _ _ _ _ L)|].
      rewrite Ee, decide_False by done. done.
    + intros e' x' [[-> ->]|[Hne Hx]]%(heap_upd _ _ _ _ _ _ E) Hg; [congruence|]. apply Hi. split; [by apply (x_live _ I)|done].
    + done.
    + intros e' x' [[-> ->]|[Hne Hx]]%(heap_upd _ _ _ _ _ _ E); by eapply (x_ids _ I).
    + apply I.
    + intros e' x' [[-> ->]|[Hne Hx]]%(heap_upd _ _ _ _ _ _ E); [done|]. by eapply (x_drop _ I).
    + intros e' x' s [[-> ->]|[Hne Hx]]%(heap_upd _ _ _ _ _ _ E) Hs; apply (lt_made _ _ L); eapply (x_box _ I); eauto.
  - intros e'. rewrite Ee. specialize (C e'). destruct (decide (e' = e)) as [->|]; [|done]. intros _. exact Hl.
Qed.

Lemma forget_unfold e w : _forget e w = set_index (index (_forget e w)) (upd e mark_gone w).
Proof. unfold _forget. by case_bool_decide. Qed.

Lemma forget_keys e w : NoDup (index w).*1 -> NoDup (index (_forget e w)).*1.
Proof. unfold _forget. case_bool_decide; [apply filter_keys|done]. Qed.

Lemma inv_forget w R l e x : inv w R l -> heap w !! e = Some x ->
  dropped x = true \/ closed w = true \/ total c_lease (R e ++ (l ≫= roles e)) = 0 ->
  inv (_forget e w) R l /\ later w (_forget e w).
Proof.
  intros I E Hl. rewrite forget_unfold. eapply (inv_part w R l e x mark_gone); try done.
  - eapply forget_index; [done|apply I].
  - apply forget_keys, I.
Qed.

(** A holder is alone, so nobody has a lease. *)
Lemma sole_holder w l e x rs : inv w (at_ e rs) l -> heap w !! e = Some x -> 1 <= total c_hold rs ->
  total c_lease rs = 0 -> total c_lease (at_ e rs e ++ (l ≫= roles e)) = 0.
Proof.
  intros [G _ _ _] E Hh Hl. specialize (G e). rewrite at_same in *. destruct G. rewrite !total_app in *.
  pose proof (lease_hold (l ≫= roles e)). pose proof (lease_nonneg (l ≫= roles e)).
  assert (b2z (locked (lk (ent w e))) <= 1) by (unfold b2z; case_match; lia). lia.
Qed.

Lemma evicted_free w l e x R : inv w R l -> heap w !! e = Some x -> locked (lk x) = false ->
  total c_lease (R e ++ (l ≫= roles e)) = 0.
Proof.
  intros [G _ _ _] E Hl. specialize (G e). rewrite (ent_known _ _ _ E) in G. apply good_free in G; [|done].
  pose proof (lease_hold (R e ++ (l ≫= roles e))). pose proof (lease_nonneg (R e ++ (l ≫= roles e))). lia.
Qed.
