(* ===== verification/LeaseOps.v ===== *)
(** * The turns of the lease protocol keep its invariant

    One lemma per operation of [Lease]: run from a world that satisfies the invariant, with
    the roles of the running task, it leaves a world and points that satisfy it
    ([ready]). *)

From S2P Require Import Prelude PyVal Journal SessionPool SessionPoolProps Lease LeaseInv.

(** ** Operations *)

(** What a turn owes: the invariant with the points it ends in, which are typed. *)
Record ready (w w' : world) (ts l : list point) : Prop := {
  r_inv : inv w' (fun e => ts ≫= roles e) l;
  r_typed : Forall (typed w') ts;
  r_later : later w w'
}.

Lemma inv_join w R ts l : inv w (fun e => ts ≫= roles e) l -> Forall (typed w) ts -> R = (fun _ : Z => []) ->
  inv w R (ts ++ l).
Proof.
  intros [G T I C] Ht ->. split; try done; [| |].
  - intros e. cbn. rewrite bind_app. apply G.
  - by apply Forall_app.
  - intros e. cbn. rewrite bind_app. apply C.
Qed.

Lemma inv_split w p l : inv w (fun _ => []) (p :: l) -> inv w (fun e => roles e p) l /\ typed w p.
Proof.
  intros [G T I C]. apply Forall_cons in T as [Tp T]. split; [|done]. by split.
Qed.

(** One point, of roles [rs] at [e]. *)
Lemma ready_one w w' e rs p l : inv w' (at_ e rs) l -> (forall e', roles e' p = on e' e rs) -> typed w' p ->
  later w w' -> ready w w' [p] l.
Proof.
  intros I Hr T L. split; [|by constructor|done]. eapply inv_ext; [|exact I]. intros e'. cbn.
  rewrite app_nil_r. by rewrite Hr.
Qed.

Lemma ready_end w w' e p l : inv w' (at_ e []) l -> (forall e', roles e' p = []) -> typed w' p -> later w w' ->
  ready w w' [p] l.
Proof. intros I Hr T L. eapply ready_one; [exact I| |done|done]. intros e'. rewrite Hr. symmetry. apply at_nil. Qed.

(** A task that only closes a sandbox. *)
Lemma ready_snoc w w' ts l s : ready w w' ts l -> ready w w' (ts ++ [PCloseBox s]) l.
Proof.
  intros [I T L]. split; [|by apply Forall_app; split; [|constructor]|done].
  eapply inv_ext; [|exact I]. intros e. rewrite bind_app. cbn. by rewrite app_nil_r.
Qed.

Lemma ready_trans w1 w2 w3 ts l : later w1 w2 -> ready w2 w3 ts l -> ready w1 w3 ts l.
Proof. intros L [I T L2]. split; [done|done|by etransitivity]. Qed.

(** An update of a field that no count depends on. *)
Lemma inv_field w l e f x rs : inv w (at_ e rs) l -> heap w !! e = Some x ->
  (forall x, plain x (f x)) -> (forall x, lk (f x) = lk x /\ waiters (f x) = waiters x /\ persisting (f x) = persisting x) ->
  (forall s, box (f x) = Some s -> made w s e) ->
  inv (upd e f w) (at_ e rs) l /\ later w (upd e f w).
Proof.
  intros I E P F Hb. eapply inv_upd; [exact I|exact E|apply P|exact Hb| |done].
  destruct (F x) as (F1 & F2 & F3). by apply good_same.
Qed.

Lemma box_made w R l e x s : inv w R l -> heap w !! e = Some x -> box x = Some s -> made w s e.
Proof. intros [_ _ I _] E. by eapply (x_box _ I). Qed.

Lemma known_ent w e k : known w e k -> exists x, heap w !! e = Some x /\ ent w e = x /\ e_key x = k.
Proof. intros (x & E & Hk). exists x. by rewrite (ent_known _ _ _ E). Qed.

Ltac plain_tac := intros; split; try done; cbn; auto.

(** Set a field of the current entry: [I] the invariant, [E] its lookup, [K] later facts. *)
Ltac set_field I E :=
  let I' := fresh "I" in let L := fresh "L" in
  match goal with |- context [upd ?e ?f ?w] =>
    lazymatch type of I with inv w _ _ =>
      edestruct (inv_field w _ e f _ _ I E) as [I' L];
      [plain_tac|intros; done|cbn; try done; intros; by eapply box_made|];
      apply (heap_upd_same w e f) in E; clear I; rename I' into I
    end
  end.

Lemma start_over_ready w l k wait e : inv w (at_ e [RHold]) l -> known w e k ->
  let '(w', ts) := start_over k wait e w in ready w w' ts l.
Proof.
  intros I (x & E & Ex & Hk)%known_ent. cbn.
  edestruct (inv_upd w l e release x [RHold] []) as [I' L]; [done|done|plain_tac|cbn; intros; by eapply box_made| |done|].
  - apply good_release. by left.
  - by eapply ready_end.
Qed.

Lemma release_end w l e k p : inv w (at_ e [RHold]) l -> known w e k -> (forall e', roles e' p = []) ->
  (forall w, typed w p) -> ready w (upd e release w) [p] l.
Proof.
  intros I (x & E & Ex & Hk)%known_ent Hp Ht.
  edestruct (inv_upd w l e release x [RHold] []) as [I' L]; [done|done|plain_tac|cbn; intros; by eapply box_made| |done|].
  - apply good_release. by left.
  - by eapply ready_end.
Qed.

Lemma prepare_raises_ready w l k e r : inv w (at_ e [RHold]) l -> known w e k ->
  let '(w', ts) := prepare_raises e r w in ready w w' ts l.
Proof.
  intros I K. pose proof K as (x & E & Ex & Hk)%known_ent. unfold prepare_raises. rewrite Ex.
  destruct (box x) as [s|].
  - by eapply release_end.
  - destruct (inv_forget w _ l e x I E) as [I' L]; [right; right; by eapply sole_holder|].
    eapply ready_trans; [exact L|]. eapply release_end; [exact I'| |done|done]. by eapply later_known.
Qed.

(** While an entry is in use and not gone, only its holder stores it. *)
Lemma no_close w l e : Forall (typed w) l -> gone (ent w e) = false -> total c_close (l ≫= roles e) = 0.
Proof.
  intros T Hg. induction T as [|p l Hp T IH]; cbn; [done|]. rewrite total_app, IH.
  destruct p; cbn; unfold on; try (case_bool_decide; cbn; done); try done.
  destruct o; case_bool_decide as E; cbn; try done. subst e0. cbn in Hp. destruct Hp as (_ & [_ Hp] & _). congruence.
Qed.

Lemma sole_storer w l e x rs : inv w (at_ e rs) l -> heap w !! e = Some x -> gone x = false -> 1 <= total c_hold rs ->
  total c_pers (l ≫= roles e) = 0.
Proof.
  intros [G T _ _] E Hg Hh. pose proof (no_close _ _ e T) as Hc. rewrite (ent_known _ _ _ E) in Hc. specialize (Hc Hg).
  specialize (G e). rewrite at_same, (ent_known _ _ _ E) in G. destruct G. rewrite !total_app in *.
  assert (b2z (locked (lk x)) <= 1) by (unfold b2z; case_match; lia).
  pose proof (pers_split (l ≫= roles e)). pose proof (pers_nonneg (l ≫= roles e)). lia.
Qed.

(** *** [get] *)

Lemma acquired_ready w l k wait e : inv w (at_ e [RHold]) l -> known w e k ->
  let '(w', ts) := acquired k wait e w in ready w w' ts l.
Proof.
  intros I K. pose proof K as (x & E & Ex & Hk)%known_ent. unfold acquired. rewrite Ex.
  destruct (gone x); [by apply start_over_ready|].
  destruct (box x) as [s|] eqn:Eb; (eapply ready_one; [exact I|done| |reflexivity]); cbn; [|done].
  split; [done|]. by eapply box_made.
Qed.

Lemma lease_ready now w l k e : inv w (at_ e [RHold]) l -> known w e k -> gone (ent w e) = false ->
  let '(w', ts) := lease now k e w in ready w w' ts l.
Proof.
  intros I (x & E & Ex & Hk)%known_ent Hg. rewrite Ex in Hg. unfold lease.
  edestruct (inv_field w l e (set_dirty true) x _ I E) as [I1 L1]; [plain_tac|done|cbn; intros; by eapply box_made|].
  apply (heap_upd_same w e (set_dirty true)) in E.
  edestruct (inv_field _ l e (set_used now) _ _ I1 E) as [I2 L2]; [plain_tac|done|cbn; intros; by eapply (box_made _ _ _ _ _ _ I1 E)|].
  pose proof (heap_upd_same _ e (set_used now) _ E) as E2.
  rewrite (ent_known _ _ _ E2). cbn [box set_used set_dirty].
  assert (L : later w (upd e (set_used now) (upd e (set_dirty true) w))) by (by etransitivity).
  destruct I2 as [G T J C]. destruct (box x) as [s|] eqn:Eb.
  - eapply (ready_one _ _ e [RLease]); [|done| |done].
    + split; [|done|done|].
      * intros e'. specialize (G e'). unfold at_, on in *. case_bool_decide; [|done]. by apply good_lease.
      * intros e' Hg'. destruct (decide (e' = e)) as [->|Hne].
        { rewrite (ent_known _ _ _ E2) in Hg'. cbn in Hg'. congruence. }
        destruct (C e' Hg') as [?|[?|Ht]]; [by left|by right; left|right; right]. by rewrite at_other in * by done.
    + cbn. split; [eexists; split; [exact E2|done]|]. apply (lt_made _ _ L2). by eapply (box_made _ _ _ _ _ _ I1 E).
  - eapply (ready_end _ _ e); [|done..]. split; [|done|done|].
    + intros e'. specialize (G e'). unfold at_, on in *. case_bool_decide; [|done].
      eapply good_unhold; [|exact G]. by left.
    + intros e' Hg'. destruct (C e' Hg') as [?|[?|Ht]]; [by left|by right; left|right; right].
      unfold at_, on in *. case_bool_decide; [|done]. cbn in *. done.
Qed.

Lemma prepared_ready now w l k wait e : inv w (at_ e [RHold]) l -> known w e k -> gone (ent w e) = false ->
  let '(w', ts) := prepared now k wait e w in ready w w' ts l.
Proof.
  intros I K Hg. unfold prepared. destruct (box (ent w e)); [by apply lease_ready|]. by eapply ready_one.
Qed.

Lemma begin_persist_ready w l k wait e s o : inv w (at_ e [RHold]) l -> known w e k -> gone (ent w e) = false ->
  made w s e -> o = WGet k wait \/ o = WRelease ->
  let '(w', ts) := begin_persist o e s w in ready w w' ts l.
Proof.
  intros I K Hg Hs Ho. pose proof K as (x & E & Ex & Hk)%known_ent. unfold begin_persist. rewrite Ex in *.
  pose proof (sole_storer _ _ _ _ _ I E Hg ltac:(cbn; lia)) as Hp.
  assert (Hq : good x ([RHold] ++ (l ≫= roles e))) by (rewrite <- Ex, <- (at_same e [RHold]); apply I).
  edestruct (inv_upd w l e (set_persisting true) x [RHold] [RStore]) as [I' L]; [done|done| |cbn; intros; by eapply box_made| |done|].
  - split; try done. intros Hd _. destruct I as [_ _ I _]. apply (x_drop _ I _ _ E) in Hd. congruence.
  - intros []. split; cbn in *; try done. lia.
  - eapply ready_one; [exact I'| | |done].
    + intros e'. by destruct Ho as [-> | ->].
    + cbn. split; [by apply L|]. destruct Ho as [-> | ->]; [|exists k]; by eapply later_known.
Qed.

Lemma inv_later_only w w' R l : inv w R l -> later w w' -> heap w' = heap w -> index w' = index w -> closed w' = closed w ->
  (forall s b, boxes w' !! s = Some b -> s < next_id w') -> inv w' R l /\ later w w'.
Proof.
  intros [G T I C] L Hh Hi Hc Hb. assert (He : forall e, ent w' e = ent w e) by (intros e; unfold ent; by rewrite Hh).
  split; [|done]. split; try (intros e; rewrite He, ?Hc; auto).
  - by eapply typed_later.
  - destruct I. split; rewrite ?Hh, ?Hi, ?Hc; try done.
    + intros k e Hin. rewrite He. destruct (x_find _ _ Hin). split; [by eapply later_known|done].
    + intros e x Hx. pose proof (lt_next _ _ L). specialize (x_ids _ _ Hx). lia.
    + intros e x s Hx Hs. apply L. by eapply x_box.
Qed.

Lemma inv_new_box w R l size e : inv w R l ->
  let w' := bump (set_boxes (<[next_id w := SBox size false e]> (boxes w)) w) in inv w' R l /\ later w w'.
Proof.
  intros I w'. pose proof (x_boxes _ (i_index _ _ _ I)) as Hb. eapply inv_later_only; [exact I| |done..|].
  - split; try done; cbn; [|lia|].
    + intros e' x Hx. exists x. split; [done|apply grows_refl].
    + intros s e' (b & Hs & He). exists b. split; [|done]. cbn. rewrite lookup_insert_ne; [done|].
      intros <-. specialize (Hb _ _ Hs). lia.
  - cbn. intros s b. destruct (decide (s = next_id w)) as [->|Hne]; [lia|]. rewrite lookup_insert_ne by done.
    intros Hs. specialize (Hb _ _ Hs). lia.
Qed.

Lemma inv_upd_box w R l s f : (forall b, b_entry (f b) = b_entry b) -> inv w R l ->
  inv (upd_box s f w) R l /\ later w (upd_box s f w).
Proof.
  intros Hf I. eapply inv_later_only; [exact I| |done..|].
  - split; try done; cbn.
    + intros e' x Hx. exists x. split; [done|apply grows_refl].
    + intros s' e' (b & Hs & He). unfold made, upd_box. cbn. destruct (decide (s' = s)) as [->|Hne].
      * exists (f b). rewrite lookup_alter_eq, Hs. split; [done|]. by rewrite Hf.
      * exists b. by rewrite lookup_alter_ne.
  - unfold upd_box. cbn. intros s' b. destruct (decide (s' = s)) as [->|Hne].
    + rewrite lookup_alter_eq. intros (b' & Hb & _)%fmap_Some. by eapply (x_boxes _ (i_index _ _ _ I)).
    + rewrite lookup_alter_ne by done. by apply (x_boxes _ (i_index _ _ _ I)).
Qed.

Lemma inv_bump w R l : inv w R l -> inv (bump w) R l /\ later w (bump w).
Proof.
  intros I. eapply inv_later_only; [exact I| |done..|].
  - split; try done; cbn; [|lia]. intros e' x Hx. exists x. split; [done|apply grows_refl].
  - cbn. intros s b Hs. pose proof (x_boxes _ (i_index _ _ _ I) _ _ Hs). lia.
Qed.

Lemma typed_ids w l e a : Forall (typed w) l -> a ∈ ids (l ≫= roles e) -> a < next_id w.
Proof.
  induction 1 as [|p l Hp T IH]; cbn; [by intros ?%elem_of_nil|]. unfold ids. rewrite bind_app.
  intros [Hin|Hin]%elem_of_app; [|by apply IH].
  destruct p; cbn in Hin; unfold on in Hin; try (case_bool_decide; cbn in Hin; by apply elem_of_nil in Hin);
    try by apply elem_of_nil in Hin.
  - case_bool_decide; cbn in Hin; [|by apply elem_of_nil in Hin]. apply list_elem_of_singleton in Hin as ->. apply Hp.
  - destruct o; case_bool_decide; cbn in Hin; by apply elem_of_nil in Hin.
Qed.

Lemma acquire_ready w l k wait e : inv w (at_ e []) l -> known w e k ->
  exists w' ts, _acquire k wait e w = Some (w', ts) /\ ready w w' ts l.
Proof.
  intros I K. pose proof K as (x & E & Ex & Hk)%known_ent. unfold _acquire. rewrite Ex.
  assert (G : good x (l ≫= roles e)) by (rewrite <- Ex; pose proof (i_good _ _ _ I e) as G; by rewrite at_same in G).
  destruct (negb _ && _) eqn:Ec.
  - bool_prop. assert (Hq : queue (lk x) = []).
    { destruct G. pose proof (wait_nonneg (l ≫= roles e)). apply Permutation_nil. symmetry.
      assert (Hi : ids (l ≫= roles e) = []) by (apply no_wait_ids; lia).
      pose proof (queued_ids (l ≫= roles e)) as Hs. rewrite Hi in Hs. apply sublist_nil_r in Hs. rewrite Hs in g_queue.
      symmetry in g_queue. apply Permutation_nil in g_queue. by apply fmap_nil_inv in g_queue as ->. }
    assert (Ha : lock_acquire (lk x) = Some (Lock true [])) by (unfold lock_acquire; rewrite Hq; by destruct (locked (lk x))).
    rewrite Ha. cbn [mbind option_bind].
    edestruct (inv_upd w l e (set_lk (Lock true [])) x [] [RHold]) as [I' L];
      [done|done|plain_tac|cbn; intros; by eapply box_made|by apply good_acquire|done|].
    pose proof (acquired_ready _ l k wait e I' (later_known _ _ _ _ L K)) as Hr.
    destruct (acquired _ _ _ _) as [w' ts]. exists w', ts. split; [done|]. by eapply ready_trans.
  - assert (Hend : forall p, (forall e', roles e' p = []) -> typed w p -> ready w w [p] l) by
      (intros; by eapply ready_end).
    destruct (gone x); [eexists _, _; split; [done|]; by apply Hend|].
    destruct (match wait with Some _ => _ | None => _ end); [eexists _, _; split; [done|]; by apply Hend|].
    eexists _, _. split; [done|].
    edestruct (inv_upd w l e (add_waiters 1) x [] [RAcq (next_id w) NotStarted]) as [I' L];
      [done|done|plain_tac|cbn; intros; by eapply box_made| |done|].
    { intros []. split; cbn in *; try done; [lia|]. constructor; [|done]. intros Hin.
      apply (typed_ids w) in Hin; [lia|apply I]. }
    apply inv_bump in I' as [I' L']. eapply ready_one; [exact I'|done| |by etransitivity].
    cbn. split; [|lia]. eapply later_known; [exact L'|]. by eapply later_known.
Qed.

Lemma leave_queue w l k wait e a st : st <> Holding -> inv w (at_ e [RAcq a st]) l -> known w e k ->
  let w' := upd e (set_lk (lock_cancel a (lk (ent w e)))) w in
  inv w' (at_ e [RWait]) l /\ later w w' /\ ready w w' [PAcqOver k wait e] l.
Proof.
  intros Hst I K. pose proof K as (x & E & Ex & Hk)%known_ent. rewrite Ex. cbn zeta.
  edestruct (inv_upd w l e (set_lk (lock_cancel a (lk x))) x [RAcq a st] [RWait]) as [I' L];
    [done|done|plain_tac|cbn; intros; by eapply box_made|by apply good_acq_cancel|done|].
  split_and!; [done|done|]. eapply ready_one; [exact I'|done| |done]. by eapply later_known.
Qed.

(** A task stops waiting; it may keep (and lose) the lock. *)
Lemma stop_waiting w l k e r : inv w (at_ e [r]) l -> (r = RWait \/ exists a, r = RAcq a Holding) -> known w e k ->
  let w' := upd e (add_waiters (-1)) w in
  later w w' /\ inv w' (at_ e []) l /\ (r <> RWait -> inv w' (at_ e [RHold]) l).
Proof.
  intros I Hr K. pose proof K as (x & E & Ex & Hk)%known_ent. cbn zeta.
  edestruct (inv_upd w l e (add_waiters (-1)) x [r] []) as [I' L];
    [done|done|plain_tac|cbn; intros; by eapply box_made| |intros _; destruct Hr as [->|[a ->]]; cbn; lia|].
  { intros []. destruct Hr as [->|[a ->]]; split; cbn in *; try done; try lia. by apply NoDup_cons in g_ids as [_ ?]. }
  split_and!; [done|done|]. intros Hn. destruct Hr as [->|[a ->]]; [done|].
  edestruct (inv_upd w l e (add_waiters (-1)) x [RAcq a Holding] [RHold]) as [I2 _];
    [done|done|plain_tac|cbn; intros; by eapply box_made| |done|done].
  intros []; split; cbn in *; try done; try lia. by apply NoDup_cons in g_ids as [_ ?].
Qed.

Lemma acq_turn_ready w l k wait e a st ans w' ts : inv w (at_ e [RAcq a st]) l -> known w e k -> a < next_id w ->
  acq_turn k wait e a st ans w = Some (w', ts) -> ready w w' ts l.
Proof.
  intros I K Ha. pose proof K as (x & E & Ex & Hk)%known_ent. unfold acq_turn.
  pose proof (fun H => leave_queue w l k wait e a st H I K) as Hq. rewrite Ex in *. destruct ans; try done.
  - assert (Hset : forall l' st', good x ([RAcq a st] ++ (l ≫= roles e)) -> good (set_lk l' x) ([RAcq a st'] ++ (l ≫= roles e)) ->
      ready w (upd e (set_lk l') w) [PAcq k wait e a st'] l).
    { intros l' st' G0 G. edestruct (inv_upd w l e (set_lk l') x [RAcq a st] [RAcq a st']) as [I' L];
        [done|done|plain_tac|cbn; intros; by eapply box_made|intros _; exact G|done|].
      eapply ready_one; [exact I'|done| |done]. cbn. split; [by eapply later_known|]. pose proof (lt_next _ _ L). lia. }
    assert (G0 : good x ([RAcq a st] ++ (l ≫= roles e))) by (rewrite <- Ex, <- (at_same e [RAcq a st]); apply I).
    destruct st.
    + destruct (lock_acquire (lk x)) eqn:El; intros [= <- <-]; apply Hset; try done;
        [by apply good_acq_now|by apply good_acq_wait].
    + destruct (lock_resume a (lk x)) eqn:El; [|done]. intros [= <- <-]. apply Hset; [done|]. by apply good_acq_resume.
    + destruct (stop_waiting w l k e (RAcq a Holding) I ltac:(eauto) K) as (L & _ & Ih). specialize (Ih ltac:(done)).
      intros Hs. pose proof (acquired_ready _ l k wait e Ih (later_known _ _ _ _ L K)) as Hr.
      destruct (acquired _ _ _ _) as [w1 ts1]. injection Hs as <- <-. by eapply ready_trans.
  - destruct st; intros [= <- <-].
    1, 2: destruct Hq as (I1 & L1 & _); [done|];
      destruct (stop_waiting _ l k e RWait I1 ltac:(eauto) (later_known _ _ _ _ L1 K)) as (L2 & I2 & _);
      eapply ready_end; [exact I2|done|done|by etransitivity].
    destruct (stop_waiting w l k e (RAcq a Holding) I ltac:(eauto) K) as (L & I1 & _). by eapply ready_end.
  - destruct st; cbn; rewrite ?andb_false_r; try done; destruct (_ && _); intros [= <- <-];
      by destruct Hq as (_ & _ & Hr).
  - destruct st; cbn; rewrite ?andb_false_r; try done; destruct (_ && _); intros [= <- <-];
      by destruct Hq as (_ & _ & Hr).
Qed.

Lemma acq_over_ready w l k wait e : inv w (at_ e [RWait]) l -> known w e k ->
  let '(w', ts) := acq_over k wait e w in ready w w' ts l.
Proof.
  intros I K. destruct (stop_waiting w l k e RWait I ltac:(eauto) K) as (L & I1 & _). unfold acq_over.
  destruct (gone _); by eapply ready_end.
Qed.

Lemma stored_turn_ready now w l k wait e s n : inv w (at_ e [RHold]) l -> known w e k -> made w s e ->
  let '(w', ts) := stored_turn now k wait e s n w in ready w w' ts l.
Proof.
  intros I K Hs. pose proof K as (x & E & Ex & Hk)%known_ent. unfold stored_turn.
  destruct (gone (ent w e)) eqn:Hg; [by apply start_over_ready|]. rewrite Ex in Hg.
  destruct (_ <? n).
  - edestruct (inv_field w l e (set_box None) x _ I E) as [I1 L1]; [plain_tac|done|done|].
    pose proof (heap_upd_same w e (set_box None) _ E) as E1.
    edestruct (inv_field _ l e (set_dirty false) _ _ I1 E1) as [I2 L2]; [plain_tac|done|done|].
    pose proof (heap_upd_same _ e (set_dirty false) _ E1) as E2.
    pose proof (prepared_ready now _ l k wait e I2) as Hr. destruct (prepared _ _ _ _ _) as [w' ts].
    apply ready_snoc. eapply ready_trans; [transitivity (upd e (set_box None) w); [exact L1|exact L2]|].
    apply Hr; [eapply later_known; [exact L2|]; by eapply later_known|]. by rewrite (ent_known _ _ _ E2).
  - destruct (box_closed w s).
    + apply (begin_persist_ready w l k wait); eauto. by rewrite Ex.
    + apply prepared_ready; [done|done|]. by rewrite Ex.
Qed.

Lemma restored_turn_ready now w l k wait e size c : inv w (at_ e [RHold]) l -> known w e k ->
  let '(w', ts) := restored_turn now k wait e size c w in ready w w' ts l.
Proof.
  intros I K. unfold restored_turn. set (w0 := bump _).
  destruct (inv_new_box w _ l size e I) as [I0 L0]. fold w0 in I0, L0.
  assert (Hm : made w0 (next_id w) e) by (exists (SBox size false e); split; [apply lookup_insert_eq|done]).
  pose proof (later_known _ _ _ _ L0 K) as (x & E & Ex & Hk)%known_ent.
  edestruct (inv_field w0 l e (set_counter c) x _ I0 E) as [I1 L1]; [plain_tac|done|cbn; intros; by eapply (box_made _ _ _ _ _ _ I0 E)|].
  pose proof (heap_upd_same w0 e (set_counter c) _ E) as E1. rewrite (ent_known _ _ _ E1).
  set (w1 := upd e (set_counter c) w0) in *. assert (L : later w w1) by (by etransitivity).
  cbn [gone set_counter]. destruct (gone x) eqn:Hg.
  - eapply ready_one; [exact I1|done| |done]. cbn. split; [by eapply later_known|]. by apply L1.
  - edestruct (inv_field w1 l e (set_box (Some (next_id w))) _ _ I1 E1) as [I2 L2]; [plain_tac|done| |].
    { cbn. intros s [= <-]. by apply L1. }
    pose proof (heap_upd_same w1 e (set_box (Some (next_id w))) _ E1) as E2. set (w2 := upd e _ w1) in *.
    edestruct (inv_field w2 l e (set_saved size) _ _ I2 E2) as [I3 L3]; [plain_tac|done| |].
    { cbn. intros s [= <-]. by apply L2, L1. }
    pose proof (heap_upd_same w2 e (set_saved size) _ E2) as E3. set (w3 := upd e _ w2) in *.
    pose proof (lease_ready now w3 l k e I3) as Hr. destruct (lease _ _ _ _) as [w' ts].
    assert (L' : later w w3) by (transitivity w1; [done|]; by etransitivity).
    eapply ready_trans; [exact L'|]. apply Hr; [by eapply later_known|]. by rewrite (ent_known _ _ _ E3).
Qed.

(** *** [_persist] *)

Definition st_role (o : who) : role := match o with WClose _ _ => RClose | _ => RStore end.
Definition left_roles (o : who) : list role := match o with WClose _ _ => [] | _ => [RHold] end.

Lemma persist_ends w l e x o : inv w (at_ e [st_role o]) l -> heap w !! e = Some x ->
  inv (upd e (set_persisting false) w) (at_ e (left_roles o)) l /\ later w (upd e (set_persisting false) w).
Proof.
  intros I E. eapply inv_upd; [exact I|exact E|plain_tac|cbn; intros; by eapply box_made| |by destruct o].
  intros []. pose proof (pers_nonneg (l ≫= roles e)).
  assert (b2z (persisting x) <= 1) by (unfold b2z; case_match; lia).
  destruct o; split; cbn in *; try done; lia.
Qed.

Lemma ready_known w w' ts l e k : ready w w' ts l -> known w e k -> known w' e k.
Proof. intros [_ _ L]. by apply later_known. Qed.

Lemma who_known w e o : who_ok w e o -> exists k, known w e k.
Proof. destruct o; cbn; [by exists k|done|]. intros [[? _] _]. done. Qed.

Lemma persist_raises_ready w l e o r cancelled : inv w (at_ e [st_role o]) l -> who_ok w e o ->
  let '(w', ts) := persist_raises o e r cancelled w in ready w w' ts l.
Proof.
  intros I K. destruct (who_known _ _ _ K) as [k (x & E & Ex & Hk)%known_ent]. unfold persist_raises.
  destruct (persist_ends _ _ _ _ _ I E) as [I1 L1]. set (w1 := upd _ _ w) in *.
  pose proof (later_who _ _ _ _ (i_index _ _ _ I) L1 K) as K1.
  destruct o as [k' wait| |all rest]; cbn [left_roles who_ok] in *.
  - pose proof (prepare_raises_ready w1 l k' e r I1 K1) as Hr. destruct (prepare_raises _ _ _). by eapply ready_trans.
  - destruct K1 as [k' K1]. eapply ready_trans; [exact L1|]. by eapply release_end.
  - destruct cancelled; (eapply (ready_end _ _ e); [exact I1|done| |done]); [done|]. apply K1.
Qed.

Lemma unbox_ready now w l k wait e s : inv w (at_ e [RHold]) l -> known w e k -> gone (ent w e) = false ->
  let '(w', ts) := (let '(w, ts) := prepared now k wait e (upd e (set_box None) w) in (w, ts ++ [PCloseBox s])) in
  ready w w' ts l.
Proof.
  intros I K Hg. pose proof K as (x & E & Ex & Hk)%known_ent.
  edestruct (inv_field w l e (set_box None) x _ I E) as [I1 L1]; [plain_tac|done|done|].
  pose proof (heap_upd_same w e (set_box None) _ E) as E1.
  pose proof (prepared_ready now _ l k wait e I1 (later_known _ _ _ _ L1 K)) as Hr.
  destruct (prepared _ _ _ _ _) as [w' ts]. apply ready_snoc. eapply ready_trans; [exact L1|]. apply Hr.
  rewrite (ent_known _ _ _ E1). cbn. congruence.
Qed.

Lemma persist_returns_ready now w l e s o : inv w (at_ e [st_role o]) l -> who_ok w e o ->
  let '(w', ts) := persist_returns now o e s w in ready w w' ts l.
Proof.
  intros I K. destruct (who_known _ _ _ K) as [k (x & E & Ex & Hk)%known_ent]. unfold persist_returns.
  destruct (persist_ends _ _ _ _ _ I E) as [I1 L1]. pose proof (heap_upd_same w e (set_persisting false) _ E) as E1.
  set (w1 := upd _ _ w) in *. pose proof (later_who _ _ _ _ (i_index _ _ _ I) L1 K) as K1.
  destruct o as [k' wait| |all rest]; cbn [left_roles who_ok] in *.
  - destruct (gone (ent w1 e)) eqn:Hg.
    + pose proof (start_over_ready w1 l k' wait e I1 K1) as Hr. destruct (start_over _ _ _ _). by eapply ready_trans.
    + case_bool_decide.
      * pose proof (unbox_ready now w1 l k' wait e s I1 K1 Hg) as Hr. destruct (prepared _ _ _ _ _). by eapply ready_trans.
      * pose proof (prepared_ready now w1 l k' wait e I1 K1 Hg) as Hr. destruct (prepared _ _ _ _ _). by eapply ready_trans.
  - destruct K1 as [k' K1]. set (d := _ && _).
    set (w2 := if d then upd e (set_box None) w1 else w1).
    assert (H2 : inv w2 (at_ e [RHold]) l /\ later w1 w2).
    { subst w2. destruct d; [|split; [done|reflexivity]].
      edestruct (inv_field w1 l e (set_box None) _ _ I1 E1) as [? ?]; [plain_tac|done|done|]. done. }
    destruct H2 as [I2 L2]. pose proof (later_known _ _ _ _ L2 K1) as (x2 & E2 & _ & _)%known_ent.
    edestruct (inv_field w2 l e (set_used now) _ _ I2 E2) as [I3 L3]; [plain_tac|done|cbn; intros; by eapply (box_made _ _ _ _ _ _ I2 E2)|].
    assert (L : later w (upd e (set_used now) w2)) by (transitivity w1; [done|]; by etransitivity).
    assert (Hr : ready w (upd e release (upd e (set_used now) w2)) [PEnd None] l).
    { eapply ready_trans; [exact L|]. eapply (release_end _ _ _ k'); [exact I3| |done|done].
      eapply later_known; [exact L3|]. by eapply later_known. }
    destruct d; [|done]. by apply (ready_snoc _ _ [PEnd None]).
  - eapply (ready_end _ _ e); [exact I1|done| |done]. apply K1.
Qed.

(** Setting a field with the invariant and the facts about the entry carried along. *)
Lemma set_field w l e k f rs : inv w (at_ e rs) l -> known w e k -> (forall x, plain x (f x)) ->
  (forall x, lk (f x) = lk x /\ waiters (f x) = waiters x /\ persisting (f x) = persisting x) ->
  (forall x s, box (f x) = Some s -> box x = Some s) ->
  inv (upd e f w) (at_ e rs) l /\ later w (upd e f w).
Proof.
  intros I (x & E & Ex & Hk)%known_ent P F Hb. eapply inv_field; [done|done|done|done|].
  intros s Hs. eapply box_made; [done|done|]. by apply Hb.
Qed.

Lemma field_who w l e o f : inv w (at_ e [st_role o]) l -> who_ok w e o -> (forall x, plain x (f x)) ->
  (forall x, lk (f x) = lk x /\ waiters (f x) = waiters x /\ persisting (f x) = persisting x) ->
  (forall x s, box (f x) = Some s -> box x = Some s) ->
  inv (upd e f w) (at_ e [st_role o]) l /\ later w (upd e f w) /\ who_ok (upd e f w) e o.
Proof.
  intros I K P F Hb. destruct (who_known _ _ _ K) as [k Hk].
  destruct (set_field w l e k f _ I Hk P F Hb) as [I' L]. split_and!; [done|done|]. eapply later_who; [apply I|done..].
Qed.

Lemma storer_alone w l e x o : inv w (at_ e [st_role o]) l -> heap w !! e = Some x -> who_ok w e o ->
  dropped x = true \/ closed w = true \/ total c_lease (at_ e [st_role o] e ++ (l ≫= roles e)) = 0.
Proof.
  intros I E K. right. destruct o as [k wait| |all rest]; [right..|left].
  - eapply sole_holder; [done|done|cbn; lia|done].
  - eapply sole_holder; [done|done|cbn; lia|done].
  - apply K.
Qed.

Lemma written_ready now w l e s o spent b : inv w (at_ e [st_role o]) l -> who_ok w e o ->
  let '(w', ts) := written now o e s spent b w in ready w w' ts l.
Proof.
  intros I K. unfold written. destruct spent.
  - destruct (field_who w l e o (set_box None) I K) as (I1 & L1 & K1); [plain_tac|done|done|].
    destruct (field_who _ l e o (set_dirty false) I1 K1) as (I2 & L2 & K2); [plain_tac|done|done|].
    set (w2 := upd e (set_dirty false) _) in *. assert (L : later w w2) by (by etransitivity).
    destruct (who_known _ _ _ K2) as [k (x & E & Ex & Hk)%known_ent].
    destruct (inv_forget w2 _ l e x I2 E) as [I3 L3]; [by apply storer_alone|].
    pose proof (persist_raises_ready _ l e o TooLarge false I3 (later_who _ _ _ _ (i_index _ _ _ I2) L3 K2)) as Hr.
    destruct (persist_raises _ _ _ _ _). eapply ready_trans; [|exact Hr]. by etransitivity.
  - destruct b; [|by apply persist_returns_ready].
    destruct (field_who w l e o (set_dirty false) I K) as (I1 & L1 & K1); [plain_tac|done|done|].
    destruct (field_who _ l e o (set_saved (box_size w s)) I1 K1) as (I2 & L2 & K2); [plain_tac|done|done|].
    pose proof (persist_returns_ready now _ l e s o I2 K2) as Hr. destruct (persist_returns _ _ _ _ _).
    eapply ready_trans; [|exact Hr]. by etransitivity.
Qed.

Lemma stay_ready w l e s c st o : inv w (at_ e [st_role o]) l -> who_ok w e o -> made w s e ->
  ready w w [PPersist o e s c st] l.
Proof.
  intros I K Hs. eapply ready_one; [exact I| |by split|reflexivity]. intros e'. by destruct o.
Qed.

Lemma begin_write_ready now w l e s c o spent : inv w (at_ e [st_role o]) l -> who_ok w e o -> made w s e ->
  let '(w', ts) := begin_write now o e s c spent w in ready w w' ts l.
Proof.
  intros I K Hs. unfold begin_write. destruct (dropped _); [by apply written_ready|by apply stay_ready].
Qed.

Lemma storing w l e x o : inv w (at_ e [st_role o]) l -> heap w !! e = Some x -> persisting x = true.
Proof.
  intros I E. pose proof (i_good _ _ _ I e) as G. rewrite at_same, (ent_known _ _ _ E) in G. destruct G.
  rewrite total_app in g_pers. pose proof (pers_nonneg (l ≫= roles e)).
  destruct (persisting x); [done|]. destruct o; cbn in *; lia.
Qed.

Lemma write_journal_inv w l e c o : inv w (at_ e [st_role o]) l -> who_ok w e o ->
  inv (write_journal e c w) (at_ e [st_role o]) l /\ later w (write_journal e c w).
Proof.
  intros I K. destruct (who_known _ _ _ K) as [k (x & E & Ex & Hk)%known_ent].
  pose proof (storing _ _ _ _ _ I E) as Hp. eapply inv_later_only; [exact I| |done..|apply (x_boxes _ (i_index _ _ _ I))].
  split; try done; cbn.
  - intros e' y Hy. exists y. split; [done|apply grows_refl].
  - intros e' k' c' [_ Hq]. destruct (decide (k' = e_key (ent w e))) as [->|Hne]; [|by rewrite lookup_insert_ne].
    rewrite lookup_insert_eq. intros [= -> _]. rewrite Ex in Hq. congruence.
Qed.

Lemma delete_journal_inv w R l k : inv w R l ->
  inv (delete_journal k w) R l /\ later w (delete_journal k w).
Proof.
  intros I. eapply inv_later_only; [exact I| |done..|apply (x_boxes _ (i_index _ _ _ I))].
  split; try done; cbn.
  - intros e' y Hy. exists y. split; [done|apply grows_refl].
  - intros e' k' c' _. destruct (decide (k' = k)) as [->|Hne]; [by rewrite lookup_delete_eq|by rewrite lookup_delete_ne].
Qed.

Lemma persist_turn_ready now w l o e s c st ans w' ts : inv w (at_ e [st_role o]) l -> who_ok w e o -> made w s e ->
  persist_turn now o e s c st ans w = Some (w', ts) -> ready w w' ts l.
Proof.
  intros I K Hs. unfold persist_turn.
  assert (Hraise : forall r b w1, inv w1 (at_ e [st_role o]) l -> later w w1 ->
    Some (persist_raises o e r b w1) = Some (w', ts) -> ready w w' ts l).
  { intros r b w1 I1 L1. pose proof (persist_raises_ready w1 l e o r b I1 (later_who _ _ _ _ (i_index _ _ _ I) L1 K)) as Hr.
    destruct (persist_raises _ _ _ _ _). intros [= <- <-]. by eapply ready_trans. }
  assert (Hwrite : forall spent w1, inv w1 (at_ e [st_role o]) l -> later w w1 ->
    Some (begin_write now o e s c spent w1) = Some (w', ts) -> ready w w' ts l).
  { intros spent w1 I1 L1. pose proof (begin_write_ready now w1 l e s c o spent I1 (later_who _ _ _ _ (i_index _ _ _ I) L1 K)
      (lt_made _ _ L1 _ _ Hs)) as Hr. destruct (begin_write _ _ _ _ _ _ _). intros [= <- <-]. by eapply ready_trans. }
  assert (Hwritten : forall spent b w1, inv w1 (at_ e [st_role o]) l -> later w w1 ->
    Some (written now o e s spent b w1) = Some (w', ts) -> ready w w' ts l).
  { intros spent b w1 I1 L1. pose proof (written_ready now w1 l e s o spent b I1 (later_who _ _ _ _ (i_index _ _ _ I) L1 K)) as Hr.
    destruct (written _ _ _ _ _ _ _). intros [= <- <-]. by eapply ready_trans. }
  assert (Hstay : forall st' w1, inv w1 (at_ e [st_role o]) l -> later w w1 -> ready w w1 [PPersist o e s c st'] l).
  { intros st' w1 I1 L1. eapply ready_trans; [exact L1|]. apply stay_ready; [done| |by apply L1].
    eapply later_who; [apply I|done..]. }
  assert (Hrefl : later w w) by reflexivity.
  destruct (write_journal_inv w l e c o I K) as [Ij Lj]. destruct (delete_journal_inv w _ l (e_key (ent w e)) I) as [Id Ld].
  destruct st as [| | |spent|spent|spent], ans as [|cancelled landed| | |n|size c'|c'|]; try done;
    try (destruct landed); try (by apply Hraise); try (destruct cancelled; by apply Hraise).
  - destruct (dropped _).
    { pose proof (persist_returns_ready now w l e s o I K) as Hr. destruct (persist_returns _ _ _ _ _). by intros [= <- <-]. }
    destruct (_ <? n); [|intros [= <- <-]; by apply Hstay].
    destruct (field_who w l e o (set_box None) I K) as (I1 & L1 & K1); [plain_tac|done|done|].
    destruct (field_who _ l e o (set_dirty false) I1 K1) as (I2 & L2 & K2); [plain_tac|done|done|].
    pose proof (persist_raises_ready _ l e o StaleJ false I2 K2) as Hr. destruct (persist_raises _ _ _ _ _).
    intros [= <- <-]. apply ready_snoc. eapply ready_trans; [|exact Hr]. by etransitivity.
  - by apply Hwrite.
  - intros [= <- <-]. by apply Hstay.
  - destruct (inv_upd_box w _ l s shut ltac:(done) I) as [I1 L1].
    destruct (field_who _ l e o (set_dirty true) I1 (later_who _ _ _ _ (i_index _ _ _ I) L1 K)) as (I2 & L2 & K2);
      [plain_tac|done|done|]. apply Hwrite; [done|]. by etransitivity.
  - destruct cancelled; [by apply Hraise|].
    destruct (field_who _ l e o (set_dirty true) I K) as (I2 & L2 & K2); [plain_tac|done|done|]. by apply Hwrite.
  - destruct cancelled; [by apply Hraise|].
    destruct (field_who _ l e o (set_dirty true) I K) as (I2 & L2 & K2); [plain_tac|done|done|]. by apply Hwrite.
  - intros [= <- <-]. by apply Hstay.
  - destruct (field_who _ l e o (set_counter c) I K) as (I2 & L2 & K2); [plain_tac|done|done|].
    destruct (dropped _); [intros [= <- <-]; by apply Hstay|by apply Hwritten].
  - by apply Hwritten.
Qed.

(** *** [_release] *)

Lemma unlease w l e rs : inv w (at_ e [RLease]) l -> rs = [RHold] \/ rs = [] -> inv w (at_ e rs) l.
Proof.
  intros [G T I C] Hrs. split; try done.
  - intros e'. specialize (G e'). unfold at_, on in *. case_bool_decide; [|done].
    destruct Hrs as [-> | ->]; [by apply good_lease|]. eapply good_unhold; [|exact G]. by right.
  - intros e' Hg. destruct (C e' Hg) as [?|[?|Ht]]; [by left|by right; left|right; right].
    unfold at_, on in *. case_bool_decide; [|done]. pose proof (lease_nonneg (l ≫= roles e')).
    destruct Hrs as [-> | ->]; cbn in *; lia.
Qed.

Lemma release_turn_ready w l k e s : inv w (at_ e [RLease]) l -> known w e k -> made w s e ->
  let '(w', ts) := release_turn k (Some s) w in ready w w' ts l.
Proof.
  intros I K Hs. unfold release_turn.
  assert (Hend : forall r, ready w w [PEnd r] l).
  { intros r. eapply (ready_end _ _ e); [|done|done|reflexivity]. apply unlease; auto. }
  destruct (lookup_index k (index w)) as [e'|] eqn:El; [|done]. destruct (barrier _); [done|].
  destruct (negb (bool_decide _)) eqn:Eb; [done|]. apply negb_false_iff, bool_decide_eq_true in Eb.
  assert (e' = e) as ->.
  { apply lookup_index_in in El. destruct (x_find _ (i_index _ _ _ I) _ _ El) as [(x & E & Ex & _)%known_ent _].
    rewrite Ex in Eb. pose proof (box_made _ _ _ _ _ _ I E Eb) as (b & Hb & <-).
    destruct Hs as (b' & Hb' & <-). congruence. }
  destruct (negb (locked _)); [done|]. apply unlease with (rs := [RHold]) in I; [|auto].
  destruct (gone (ent w e)) eqn:Hg; [by eapply release_end|]. rewrite Eb. by eapply (begin_persist_ready w l k None); eauto.
Qed.

(** *** The map *)

Lemma inv_reindex w w' R l : inv w R l -> heap w' = heap w -> boxes w' = boxes w -> closed w' = closed w ->
  next_id w' = next_id w -> stored w' = stored w -> index w' ≡ₚ index w -> inv w' R l /\ later w w'.
Proof.
  intros [G T I C] Hh Hb Hc Hn Hs Hi.
  assert (He : forall e, ent w' e = ent w e) by (intros e; unfold ent; by rewrite Hh).
  assert (L : later w w').
  { split; rewrite ?Hc, ?Hn, ?Hs; try done; [| |].
    - intros e x Hx. rewrite Hh. exists x. split; [done|apply grows_refl].
    - intros _ ke. by rewrite Hi.
    - unfold made. by rewrite Hb. }
  split; [|done]. split; [|by eapply typed_later| |].
  - intros e. rewrite He. apply G.
  - destruct I. split; rewrite ?Hh, ?Hb, ?Hn; try done; [..|].
    + intros k e. rewrite Hi, He, Hc. intros Hin. destruct (x_find _ _ Hin). split; [by eapply later_known|done].
    + intros e x. rewrite Hi. apply x_live.
    + by rewrite Hi.
    + intros e x s Hx Hs'. apply L. by eapply x_box.
  - intros e. rewrite He, Hc. apply C.
Qed.

Lemma filter_other_id k (i : list (pkey * Z)) : k ∉ i.*1 -> filter (other_key k) i = i.
Proof.
  induction i as [|[k' e] i IH]; [done|]. rewrite fmap_cons, filter_cons, elem_of_cons. cbn [fst]. intros H.
  rewrite decide_True; [rewrite IH; tauto|]. unfold other_key. cbn. intros ->. tauto.
Qed.

Lemma filter_other_perm k e (i : list (pkey * Z)) : NoDup i.*1 -> (k, e) ∈ i -> i ≡ₚ (k, e) :: filter (other_key k) i.
Proof.
  induction i as [|[k' e'] i IH]; [by intros _ ?%elem_of_nil|]. rewrite fmap_cons, filter_cons.
  intros [Hk Hn]%NoDup_cons Hin. cbn in Hk.
  apply elem_of_cons in Hin as [[= <- <-]|Hin].
  - rewrite decide_False by (unfold other_key; cbn; tauto).
    by rewrite filter_other_id.
  - rewrite decide_True; [rewrite (IH Hn Hin) at 1; by rewrite Permutation_swap|].
    unfold other_key. cbn. intros ->. apply Hk. by apply (list_elem_of_fmap_2 fst) in Hin.
Qed.

Lemma move_perm k i : NoDup i.*1 -> move_to_end k i ≡ₚ i.
Proof.
  intros Hn. unfold move_to_end. destruct (lookup_index k i) as [e|] eqn:E; [|done]. apply lookup_index_in in E.
  rewrite (filter_other_perm k e i) at 2 by done. by rewrite Permutation_app_comm.
Qed.

Lemma assign_new k e i : lookup_index k i = None -> assign k e i = i ++ [(k, e)].
Proof.
  induction i as [|[k' e'] i IH]; cbn; [done|]. case_bool_decide as E; [done|]. intros Hn. by rewrite IH.
Qed.

Lemma assign_old k e e' i : NoDup i.*1 -> lookup_index k i = Some e' -> assign k e i ≡ₚ (k, e) :: filter (other_key k) i.
Proof.
  induction i as [|[k' x] i IH]; [done|]. cbn [assign lookup_index]. rewrite fmap_cons, filter_cons.
  intros [Hk Hn]%NoDup_cons. cbn in Hk. case_bool_decide as E.
  - intros [= ->]. subst k'. rewrite decide_False by (unfold other_key; cbn; tauto).
    by rewrite filter_other_id.
  - intros H. rewrite decide_True by (unfold other_key; done). rewrite (IH Hn H). by rewrite Permutation_swap.
Qed.

Lemma typed_known w p e : typed w p -> roles e p <> [] -> exists k, known w e k.
Proof.
  destruct p; cbn; unfold on; try done; try (case_bool_decide as E; [subst|done]; intros; exists k; tauto).
  destruct o; case_bool_decide as E; try done; subst; intros [_ H] _; by apply who_known in H.
Qed.

Lemma no_roles w l e : Forall (typed w) l -> heap w !! e = None -> (l ≫= roles e) = [].
Proof.
  intros T He. induction T as [|p l Hp T IH]; cbn; [done|]. rewrite IH, app_nil_r.
  destruct (decide (roles e p = [])) as [|Hne]; [done|].
  destruct (typed_known _ _ _ Hp Hne) as (k & x & Hx & _). congruence.
Qed.

(** A new entry in the map, its lock free or held by the running task. *)
Lemma inv_new_entry w l k x rs : inv w (fun _ => []) l -> closed w = false -> lookup_index k (index w) = None ->
  e_key x = k -> gone x = false -> dropped x = false -> persisting x = false -> box x = None -> waiters x = 0 ->
  (lk x = Lock false [] /\ rs = []) \/ (lk x = Lock true [] /\ rs = [RHold]) ->
  let w' := set_index (index w ++ [(k, next_id w)]) (bump (set_heap (<[next_id w := x]> (heap w)) w)) in
  inv w' (at_ (next_id w) rs) l /\ later w w' /\ known w' (next_id w) k.
Proof.
  intros [G T I C] Hc Hl Hk Hg Hd Hp Hb Hw Hrs w'. set (e := next_id w) in *.
  assert (He : heap w !! e = None).
  { destruct (heap w !! e) eqn:E; [|done]. apply (x_ids _ I) in E. unfold e in E. lia. }
  assert (Ee : forall e', ent w' e' = if decide (e' = e) then x else ent w e').
  { intros e'. unfold ent. cbn. destruct (decide (e' = e)) as [->|]; [by rewrite lookup_insert_eq|by rewrite lookup_insert_ne]. }
  assert (L : later w w').
  { split; cbn; try done; [|by rewrite Hc|lia].
    intros e' y Hy. exists y. rewrite lookup_insert_ne by congruence. split; [done|apply grows_refl]. }
  split_and!; [|done|exists x; cbn; by rewrite lookup_insert_eq]. split; [|by eapply typed_later| |].
  - intros e'. rewrite Ee. destruct (decide (e' = e)) as [->|Hne]; [|rewrite at_other by done; apply G].
    rewrite at_same, (no_roles w l e T He), app_nil_r.
    destruct Hrs as [[Hlk ->]|[Hlk ->]]; split; rewrite ?Hlk, ?Hp, ?Hw; cbn; try done; try constructor; lia.
  - split; cbn.
    + intros k' e' [Hin|Hin]%elem_of_app.
      * destruct (x_find _ I _ _ Hin) as [K Hgone]. split; [by eapply later_known|]. rewrite Ee.
        destruct (decide (e' = e)) as [->|]; [|done]. congruence.
      * apply list_elem_of_singleton in Hin as [= -> ->]. split; [exists x; cbn; by rewrite lookup_insert_eq|].
        rewrite Ee, decide_True by done. congruence.
    + intros e' y. destruct (decide (e' = e)) as [->|Hne].
      * rewrite lookup_insert_eq. intros [= <-] _. apply elem_of_app. right. rewrite Hk. by apply list_elem_of_singleton.
      * rewrite lookup_insert_ne by done. intros Hy Hgy. apply elem_of_app. left. by apply (x_live _ I).
    + rewrite fmap_app. apply NoDup_app. split_and!; [apply I| |apply NoDup_singleton].
      intros k' Hk' ->%list_elem_of_singleton. by apply lookup_index_none in Hl.
    + intros e' y. destruct (decide (e' = e)) as [->|Hne]; [unfold e; lia|]. rewrite lookup_insert_ne by done.
      intros Hy. apply (x_ids _ I) in Hy. lia.
    + intros s b Hs. apply (x_boxes _ I) in Hs. lia.
    + intros e' y. destruct (decide (e' = e)) as [->|Hne].
      * rewrite lookup_insert_eq. intros [= <-]. congruence.
      * rewrite lookup_insert_ne by done. apply (x_drop _ I).
    + intros e' y s. destruct (decide (e' = e)) as [->|Hne].
      * rewrite lookup_insert_eq. intros [= <-]. congruence.
      * rewrite lookup_insert_ne by done. intros Hy Hs. apply L. by eapply (x_box _ I).
  - intros e'. rewrite Ee. cbn. destruct (decide (e' = e)) as [->|Hne]; [congruence|]. rewrite at_other by done. apply C.
Qed.

(** *** Eviction *)

(** Points without a role, which know nothing. *)
Definition free_point (p : point) : Prop := (forall e, roles e p = []) /\ (forall w, typed w p).

Lemma free_bind ts e : Forall free_point ts -> (ts ≫= roles e) = [].
Proof. induction 1 as [|p ts [Hr _] _ IH]; cbn; [done|]. by rewrite Hr, IH. Qed.

Lemma ready_free w w' ts l : inv w' (fun _ => []) l -> Forall free_point ts -> later w w' -> ready w w' ts l.
Proof.
  intros I Hf L. split; [|eapply Forall_impl; [exact Hf|]; intros p [_ H]; apply H|done].
  eapply inv_ext; [|exact I]. intros e. by rewrite free_bind.
Qed.

Lemma ready_more w w' ts ts' l : ready w w' ts l -> Forall free_point ts' -> ready w w' (ts ++ ts') l.
Proof.
  intros [I T L] Hf. split; [|apply Forall_app; split; [done|]; eapply Forall_impl; [exact Hf|]; intros p [_ H]; apply H|done].
  eapply inv_ext; [|exact I]. intros e. by rewrite bind_app, (free_bind ts'), app_nil_r.
Qed.

Lemma evict_ready w l e k : inv w (fun _ => []) l -> known w e k -> total c_lease (l ≫= roles e) = 0 ->
  let '(w', ts) := _evict e w in inv w' (fun _ => []) l /\ Forall free_point ts /\ later w w'.
Proof.
  intros I K Hl. pose proof K as (x & E & Ex & Hk)%known_ent. unfold _evict.
  destruct (inv_forget w _ l e x I E) as [I1 L1]; [by right; right|].
  apply inv_ext with (R' := at_ e []) in I1; [|intros; by rewrite at_nil].
  destruct (set_field _ l e k (set_box None) _ I1 (later_known _ _ _ _ L1 K)) as [I2 L2]; [plain_tac|done|done|].
  split_and!; [|by destruct (box _); repeat constructor|by etransitivity].
  eapply inv_ext; [|exact I2]. intros. by rewrite at_nil.
Qed.

Lemma evict_all_ready w l es : inv w (fun _ => []) l ->
  Forall (fun e => (exists k, known w e k) /\ total c_lease (l ≫= roles e) = 0) es ->
  let '(w', ts) := evict_all es w in inv w' (fun _ => []) l /\ Forall free_point ts /\ later w w'.
Proof.
  intros I H. revert w I H. induction es as [|e es IH]; intros w I H; cbn [evict_all]; [split_and!; [done|constructor|reflexivity]|].
  apply Forall_cons in H as [[[k Hk] He] H]. pose proof (evict_ready w l e k I Hk He) as Hr.
  destruct (_evict e w) as [w1 t1]. destruct Hr as (I1 & F1 & L1).
  specialize (IH w1 I1). destruct (evict_all es w1) as [w2 t2]. destruct IH as (I2 & F2 & L2).
  { eapply Forall_impl; [exact H|]. intros e' [[k' ?] ?]. split; [|done]. exists k'. by eapply later_known. }
  split_and!; [done|by apply Forall_app|by etransitivity].
Qed.

Lemma view_key w e k : known w e k -> (e_owner (view w e), e_session_id (view w e)) = k.
Proof. intros (x & E & Ex & <-)%known_ent. unfold view. cbn. rewrite Ex. by destruct (e_key x). Qed.

Lemma kept_view w e k kept : known w e k -> view w e ∈ kept -> kept_key kept k = true.
Proof.
  intros <-%view_key Hin. unfold kept_key. apply existsb_exists. exists (view w e).
  split; [by apply list_elem_of_In|]. cbn. by rewrite !bool_decide_true.
Qed.

(** What eviction takes was free, so nobody has a lease on it. *)
Lemma victims_free w l gone_ kept : inv w (fun _ => []) l -> views w ≡ₚ gone_ ++ kept ->
  Forall (fun e => evictable e = true) gone_ ->
  Forall (fun e => (exists k, known w e k) /\ total c_lease (l ≫= roles e) = 0) (victims kept (index w)).
Proof.
  intros I Hp Hev. apply Forall_forall. intros e ((k & e') & -> & [Hk Hin]%list_elem_of_filter)%list_elem_of_fmap. cbn in *.
  destruct (x_find _ (i_index _ _ _ I) _ _ Hin) as [K _]. split; [by exists k|].
  assert (Hv : view w e' ∈ gone_ ++ kept).
  { rewrite <- Hp. unfold views. apply list_elem_of_fmap. by exists (k, e'). }
  apply elem_of_app in Hv as [Hv|Hv]; [|apply (kept_view _ _ _ _ K) in Hv; congruence].
  rewrite Forall_forall in Hev. specialize (Hev _ Hv). unfold evictable, idle, view in Hev. bool_prop. cbn in *.
  apply known_ent in K as (x & E & Ex & _). rewrite Ex in *. by eapply (evicted_free w l e' x (fun _ => [])).
Qed.

Lemma all_kept w l : inv w (fun _ => []) l -> victims (views w) (index w) = [].
Proof.
  intros I. unfold victims.
  assert (Hf : forall ke, ke ∈ filter (fun '(k, _) => kept_key (views w) k = false) (index w) -> False).
  { intros [k e] [Hk Hin]%list_elem_of_filter. cbn in Hk. destruct (x_find _ (i_index _ _ _ I) _ _ Hin) as [K _].
    rewrite (kept_view w e k) in Hk; [done|done|]. apply list_elem_of_fmap. by exists (k, e). }
  destruct (filter _ (index w)) as [|ke i]; [done|]. exfalso. apply (Hf ke). left.
Qed.

Section Turns.
Context (max_per_owner : option Z) (max_sessions : Z) (idle_timeout : option Z).

Lemma new_session_inv now w l k : inv w (fun _ => []) l -> closed w = false -> lookup_index k (index w) = None ->
  let e := next_id w in
  let w1 := bump (set_heap (<[e := new_entry k now]> (heap w)) w) in
  let w2 := set_index (move_to_end k (assign k e (index w1))) w1 in
  inv w2 (at_ e []) l /\ later w w2 /\ known w2 e k /\ index w2 ≡ₚ index w ++ [(k, e)].
Proof.
  intros I Hc El e w1 w2. destruct (inv_new_entry w l k (new_entry k now) [] I Hc El) as (I1 & L1 & K1); [try done; by left..|].
  fold e in I1, L1, K1. set (w0 := set_index (index w ++ [(k, e)]) _) in I1, L1, K1.
  assert (Hp : index w2 ≡ₚ index w0).
  { subst w0 w1 w2. cbn. rewrite assign_new by done. apply move_perm. apply (x_keys _ (i_index _ _ _ I1)). }
  destruct (inv_reindex w0 w2 _ l I1) as [I2 L2]; [done..|].
  split_and!; [done|by etransitivity|by eapply later_known|done].
Qed.

Lemma get_turn_ready now w l k wait : inv w (fun _ => []) l ->
  exists w' ts, get_turn max_per_owner max_sessions now k wait w = Some (w', ts) /\ ready w w' ts l.
Proof.
  intros I. unfold get_turn. destruct (closed w) eqn:Hc.
  { eexists _, _. split; [done|]. apply ready_free; [done| |reflexivity]. by repeat constructor. }
  destruct (lookup_index k (index w)) as [e|] eqn:El.
  - set (w1 := set_index _ w). destruct (inv_reindex w w1 _ l I) as [I1 L1]; [done..|apply move_perm, I|].
    apply lookup_index_in in El. destruct (x_find _ (i_index _ _ _ I) _ _ El) as [K _].
    apply inv_ext with (R' := at_ e []) in I1; [|intros; by rewrite at_nil].
    destruct (acquire_ready w1 l k wait e I1 (later_known _ _ _ _ L1 K)) as (w' & ts & -> & Hr).
    eexists _, _. split; [done|]. by eapply ready_trans.
  - pose proof (make_room_spec max_per_owner max_sessions k.1 (views w)) as Hm.
    destruct (_make_room _ _ _ _) as [r kept]. destruct Hm as ((gone_ & Hp & Hev) & _ & Hm).
    pose proof (evict_all_ready w l _ I (victims_free _ _ _ _ I Hp Hev)) as He.
    destruct r as [[]|e].
    + destruct (evict_all _ w) as [w1 t1]. destruct He as (I1 & F1 & L1). eexists _, _. split; [done|].
      apply ready_free; [done| |done]. constructor; [done|done].
    + destruct Hm as (-> & _). rewrite (all_kept w l I). cbn [evict_all].
      destruct (new_session_inv now w l k I Hc El) as (I1 & L1 & K1 & _).
      set (w1 := set_index _ _) in *. set (e := next_id w) in *.
      destruct (acquire_ready w1 l k wait e I1 K1) as (w' & ts & -> & Hr).
      eexists _, _. split; [done|]. by eapply ready_trans.
    + destruct (evict_all _ w) as [w1 t1]. destruct He as (I1 & F1 & L1). eexists _, _. split; [done|].
      apply ready_free; [done| |done]. constructor; [done|done].
Qed.

Lemma sweep_ready now w l : inv w (fun _ => []) l -> 0 <= max_sessions ->
  let '(w', ts) := sweep max_sessions idle_timeout now w in ready w w' ts l.
Proof.
  intros I Hm. unfold sweep. pose proof (evict_idle_spec idle_timeout max_sessions now (views w) Hm) as Hs.
  destruct (evict_idle _ _ _ _) as [gone_ kept]. destruct Hs as (Hp & _ & Hev & _).
  pose proof (evict_all_ready w l (victims kept (index w)) I) as He.
  destruct (evict_all _ w) as [w1 t1]. destruct He as (I1 & F1 & L1); [|by apply ready_free].
  eapply victims_free; [done|exact Hp|]. eapply Forall_impl; [exact Hev|]. cbn. intros x (H1 & H2 & H3).
  unfold evictable, idle. by rewrite H1, H2, H3.
Qed.

(** *** [drop] *)

Lemma drop_turn_ready now w l k : inv w (fun _ => []) l ->
  let '(w', ts) := drop_turn now k w in ready w w' ts l.
Proof.
  intros I. unfold drop_turn. destruct (closed w) eqn:Hc.
  { apply ready_free; [done|by repeat constructor|reflexivity]. }
  set (b := next_id w). set (x := set_lk (Lock true []) (mark_barrier (new_entry k now))).
  destruct (lookup_index k (index w)) as [e|] eqn:El.
  - pose proof (lookup_index_in _ _ _ El) as Hin. destruct (x_find _ (i_index _ _ _ I) _ _ Hin) as [K _].
    pose proof K as (y & E & Ey & Hk)%known_ent.
    set (f := fun y => set_box None (mark_gone (mark_dropped y))).
    destruct (inv_part w (fun _ => []) l e y f (filter (other_key k) (index w)) I E) as [I1 L1]; try done; [..|].
    { intros k' e'. rewrite elem_filter_other. split.
      - intros [Hne Hi]. split; [done|]. intros ->. destruct (x_find _ (i_index _ _ _ I) _ _ Hi) as [(z & Hz & <-) _]. congruence.
      - intros [Hi Hne]. split; [|done]. intros ->. apply Hne. by eapply index_unique; [apply (x_keys _ (i_index _ _ _ I))| |]. }
    { apply filter_keys, I. }
    { by left. }
    set (w1 := set_index _ _) in I1, L1.
    assert (Hl1 : lookup_index k (index w1) = None).
    { destruct (lookup_index k (index w1)) eqn:E1; [|done]. apply lookup_index_in, elem_filter_other in E1. tauto. }
    destruct (inv_new_entry w1 l k x [RHold] I1 Hc Hl1) as (I2 & L2 & K2); [try done; by right..|].
    set (w2 := set_index _ _) in I2, L2, K2.
    set (w3 := upd e _ _).
    assert (Hbe : b <> e) by (apply (x_ids _ (i_index _ _ _ I)) in E; unfold b; lia).
    destruct (inv_reindex w2 w3 _ l I2) as [I3 L3]; try done; [..|].
    { unfold w3, w2, w1, upd, f. cbn. rewrite !alter_insert_ne by done. f_equal.
      by rewrite !alter_alter_eq. }
    { unfold w3, w2, w1. cbn. rewrite (assign_old k b e) by (done || apply I). by rewrite Permutation_app_comm. }
    assert (L : later w w3) by (transitivity w1; [done|]; by etransitivity).
    assert (Hd : dropped (ent w3 e) = true).
    { eapply later_dropped; [by transitivity w2|]. unfold w1, ent. cbn. rewrite lookup_alter_eq, E. done. }
    assert (Kb : known w3 b k) by exact (later_known _ _ _ _ L3 K2). assert (Ke : known w3 e k) by exact (later_known _ _ _ _ L K).
    destruct (box _) as [s|]; (eapply (ready_one _ _ b [RHold]); [exact I3|done|done|done]).
  - destruct (inv_new_entry w l k x [RHold] I Hc El) as (I1 & L1 & K1); [try done; by right..|].
    set (w1 := set_index _ _) in I1, L1, K1. set (w2 := set_index _ _).
    destruct (inv_reindex w1 w2 _ l I1) as [I2 L2]; try done; [..|].
    { unfold w2, w1. cbn. by rewrite assign_new. }
    eapply (ready_one _ _ b [RHold]); [exact I2|done| |by etransitivity]. cbn. split; [by eapply later_known|done].
Qed.

Lemma drop_ends_ready w l b k p : inv w (at_ b [RHold]) l -> known w b k -> (forall e, roles e p = []) ->
  (forall w', later w w' -> typed w' p) -> let '(w', ts) := drop_ends b p w in ready w w' ts l.
Proof.
  intros I K Hp Ht. pose proof K as (x & E & Ex & Hk)%known_ent. unfold drop_ends.
  destruct (inv_forget w _ l b x I E) as [I1 L1]; [right; right; by eapply sole_holder|].
  pose proof (later_known _ _ _ _ L1 K) as (y & Ey & _ & _)%known_ent.
  edestruct (inv_upd _ l b release y [RHold] [] I1 Ey) as [I2 L2];
    [plain_tac|cbn; intros; by eapply (box_made _ _ _ _ _ _ I1 Ey)|apply good_release; by left|done|].
  eapply ready_end; [exact I2|done|apply Ht; by etransitivity|by etransitivity].
Qed.

Lemma drop_await_ready w l p ans w' ts : inv w (fun e => roles e p) l -> typed w p ->
  drop_await p ans w = Some (w', ts) -> ready w w' ts l.
Proof.
  intros I T.
  assert (Hend : forall b k w1, (forall e, roles e p = on e b [RHold]) -> known w b k -> inv w1 (fun e => roles e p) l -> later w w1 ->
    Some (drop_ends b (PEnd (Some Raised)) w1) = Some (w', ts) -> ready w w' ts l).
  { intros b k w1 Hr K I1 L1. apply inv_ext with (R' := at_ b [RHold]) in I1; [|done].
    pose proof (drop_ends_ready w1 l b k (PEnd (Some Raised)) I1 (later_known _ _ _ _ L1 K) ltac:(done) ltac:(done)) as H.
    destruct (drop_ends _ _ _). intros [= <- <-]. by eapply ready_trans. }
  assert (Hgo : forall b w1 p', (forall e, roles e p = on e b [RHold]) -> (forall e, roles e p' = on e b [RHold]) ->
    inv w1 (fun e => roles e p) l -> later w w1 -> typed w1 p' -> ready w w1 [p'] l).
  { intros b w1 p' Hr Hr' I1 L1 T1. eapply ready_one; [|exact Hr'|done|done]. eapply inv_ext; [|exact I1]. done. }
  destruct p, ans as [|cancelled landed| | |n'|size c'|c'|]; cbn in T; try done; cbn [drop_await];
    try (destruct T; eapply Hend; [done|done|done|reflexivity]).
  - intros [= <- <-]. destruct (inv_upd_box w _ l s shut ltac:(done) I) as [I1 L1]. eapply Hgo; [done|done|done|done|].
    by eapply (later_typed _ _ (PDropQuiet k old b)); [apply I| |].
  - destruct (persisting _) eqn:Hp; [done|]. intros [= <- <-]. eapply Hgo; [done|done|done|reflexivity|].
    cbn. destruct T as (K1 & K2 & Hd). by repeat split.
  - intros [= <- <-]. by eapply Hgo; [done|done|done|reflexivity|].
  - intros [= <- <-]. destruct (delete_journal_inv w _ l k I) as [I1 L1]. eapply Hgo; [done|done|done|done|].
    cbn. destruct T as [K1 K2]. split; [by eapply later_known|]. destruct old as [e|]; [|done]. destruct K2 as [K2 K3].
    split_and!; [by eapply later_known|by eapply later_quiet|]. intros c. cbn. by rewrite lookup_delete_eq.
  - destruct (delete_journal_inv w _ l k I) as [I1 L1]. destruct T. destruct landed; (eapply Hend; [done|done| |]); try done.
  - destruct T as [K1 K2]. intros H. apply inv_ext with (R' := at_ b [RHold]) in I; [|done].
    pose proof (drop_ends_ready w l b k (PDropped k old) I K1 ltac:(done)) as Hr. destruct (drop_ends _ _ _).
    injection H as <- <-. apply Hr. intros w1 L1. cbn. destruct old as [e|]; [|done]. destruct K2 as (K2 & K3 & K4).
    split_and!; [by eapply later_known|by eapply later_quiet|by eapply later_not_stored].
Qed.

(** *** [close] *)

Lemma inv_mark w R l e k : inv w R l -> closed w = true -> known w e k ->
  inv (upd e mark_gone w) R l /\ later w (upd e mark_gone w).
Proof.
  intros [G T I C] Hc K. pose proof K as (x & E & Ex & Hk)%known_ent.
  assert (L : later w (upd e mark_gone w)) by (eapply later_upd; [exact E|by split]).
  split; [|done]. split; [|by eapply typed_later| |].
  - intros e'. rewrite (ent_upd _ _ _ _ _ E). specialize (G e'). destruct (decide (e' = e)) as [->|]; [|done].
    rewrite Ex in G. by eapply good_same; [..|exact G].
  - destruct I. split; cbn; try done.
    + intros k' e' Hin. destruct (x_find _ _ Hin). split; [by eapply (later_known _ _ _ _ L)|done].
    + intros e' x' [[-> ->]|[Hne Hx]]%(heap_upd _ _ _ _ _ _ E); [done|]. by apply x_live.
    + intros e' x' [[-> ->]|[Hne Hx]]%(heap_upd _ _ _ _ _ _ E); by eapply x_ids.
    + intros e' x' [[-> ->]|[Hne Hx]]%(heap_upd _ _ _ _ _ _ E); [done|]. by eapply x_drop.
    + intros e' x' s [[-> ->]|[Hne Hx]]%(heap_upd _ _ _ _ _ _ E) Hs; by eapply x_box.
  - intros e' _. right. by left.
Qed.

Lemma gone_all_inv w R l es : inv w R l -> closed w = true -> Forall (fun e => exists k, known w e k) es ->
  inv (gone_all es w) R l /\ later w (gone_all es w) /\ Forall (parted (gone_all es w)) es.
Proof.
  intros I Hc. induction 1 as [|e es [k K] Hes IH]; cbn; [split_and!; [done|reflexivity|constructor]|].
  destruct IH as (I1 & L1 & P1). set (w1 := gone_all es w) in *.
  pose proof (later_known _ _ _ _ L1 K) as K1. pose proof K1 as (x & E & Ex & Hk)%known_ent.
  destruct (inv_mark w1 R l e k I1 (lt_closed _ _ L1 Hc) K1) as [I2 L2]. split_and!; [done|by etransitivity|].
  constructor; [split; [exists k; by eapply later_known|]; by rewrite (ent_upd_same _ _ _ _ E)|].
  eapply Forall_impl; [exact P1|]. intros e'. by apply later_parted.
Qed.

Lemma close_start_ready w l : inv w (fun _ => []) l -> closed w = true ->
  let all := snd <$> index w in ready w (gone_all all w) [PCloseBoxes all all] l.
Proof.
  intros I Hc all. destruct (gone_all_inv w _ l all I Hc) as (I1 & L1 & P1).
  { apply Forall_forall. intros e ((k & e') & -> & Hin)%list_elem_of_fmap. exists k. by apply (x_find _ (i_index _ _ _ I)). }
  assert (Hcl : closing (gone_all all w) all).
  { split_and!; [by apply L1| |done]. intros k e Hin. apply (lt_index _ _ L1 Hc) in Hin.
    rewrite Forall_forall in P1. apply P1, list_elem_of_fmap. by exists (k, e). }
  split; [|by constructor|done]. done.
Qed.

Lemma inv_clear w l es : inv w (fun _ => []) l -> closing w es ->
  inv (set_index [] w) (fun _ => []) l /\ later w (set_index [] w).
Proof.
  intros [G T I C] (Hc & Hg & _). assert (L : later w (set_index [] w)).
  { split; try done; cbn; [|by intros _ ke ?%elem_of_nil]. intros e x Hx. exists x. split; [done|apply grows_refl]. }
  split; [|done]. split; [done|by eapply typed_later| |done]. destruct I. split; cbn; try done.
  - by intros k e ?%elem_of_nil.
  - intros e x Hx Hgx. specialize (x_live _ _ Hx Hgx). apply Hg in x_live. rewrite (ent_known _ _ _ Hx) in x_live. congruence.
  - constructor.
Qed.

Lemma empty_all_ready w l es : inv w (fun _ => []) l -> Forall (fun e => exists k, known w e k) es ->
  let '(w', ts) := empty_all es w in inv w' (fun _ => []) l /\ Forall free_point ts /\ later w w'.
Proof.
  intros I H. revert w I H. induction es as [|e es IH]; intros w I H; cbn [empty_all].
  { split_and!; [done|constructor|reflexivity]. }
  apply Forall_cons in H as [[k K] H].
  apply inv_ext with (R' := at_ e []) in I; [|intros; by rewrite at_nil].
  destruct (set_field w l e k (set_box None) _ I K) as [I1 L1]; [plain_tac|done|done|].
  apply inv_ext with (R' := fun _ => []) in I1; [|intros; by rewrite at_nil].
  specialize (IH _ I1). destruct (empty_all es _) as [w2 t2]. destruct IH as (I2 & F2 & L2).
  { eapply Forall_impl; [exact H|]. intros e' [k' K']. exists k'. by eapply later_known. }
  split_and!; [done| |by etransitivity]. destruct (box _); [by constructor|done].
Qed.

Lemma store_turn_ready w l all rest w' ts : inv w (fun _ => []) l -> closing w all -> closing w rest ->
  store_turn all rest w = Some (w', ts) -> ready w w' ts l.
Proof.
  intros I Ha Hr. unfold store_turn. destruct rest as [|e rest].
  - destruct (inv_clear w l all I Ha) as [I1 L1].
    pose proof (empty_all_ready _ l all I1) as He. destruct (empty_all all _) as [w2 t2].
    intros [= <- <-]. destruct He as (I2 & F2 & L2).
    { destruct Ha as (_ & _ & Ha). eapply Forall_impl; [exact Ha|]. intros e [[k K] _]. exists k. by eapply later_known. }
    apply ready_free; [done|by constructor|by etransitivity].
  - destruct Hr as (Hc & Hi & [[[k K] Hg] Hr]%Forall_cons). pose proof K as (x & E & Ex & Hk)%known_ent. rewrite Ex.
    assert (Hrest : closing w rest) by done.
    assert (Hnext : ready w w [PCloseStore all rest] l).
    { split; [|by constructor|reflexivity]. done. }
    destruct (persisting x) eqn:Hp; [done|]. destruct (box x) as [s|] eqn:Hb; [|by intros [= <- <-]].
    destruct (dropped x || _) eqn:Hd; [by intros [= <- <-]|]. apply orb_false_iff in Hd as [Hd _].
    intros [= <- <-]. apply inv_ext with (R' := at_ e []) in I; [|intros; by rewrite at_nil].
    edestruct (inv_upd w l e (set_persisting true) x [] [RClose] I E) as [I1 L1]; [|cbn; intros; by eapply box_made| |done|].
    { split; try done. congruence. }
    { intros []. split; cbn in *; try done. rewrite Hp in g_pers. cbn in g_pers. lia. }
    eapply (ready_one _ _ e [RClose]); [exact I1|done| |done]. cbn. split; [apply L1; by eapply box_made|].
    eapply (later_who _ _ _ (WClose all rest)); [apply I|done|]. cbn. split_and!; [|done|done]. split; [by exists k|done].
Qed.

Lemma stay_free w l p : inv w (fun _ => []) l -> (forall e, roles e p = []) -> typed w p -> ready w w [p] l.
Proof.
  intros I Hp T. split; [|by constructor|reflexivity]. eapply inv_ext; [|exact I]. intros e. cbn. by rewrite Hp.
Qed.

(** ** Every turn *)

Lemma turn_ready now ans p w l w' ts : inv w (fun e => roles e p) l -> typed w p ->
  turn max_per_owner max_sessions now ans p w = Some (w', ts) -> ready w w' ts l.
Proof.
  intros I T.
  assert (Hpair : forall r : world * list point, (let '(w1, ts1) := r in ready w w1 ts1 l) -> Some r = Some (w', ts) -> ready w w' ts l).
  { intros [w1 ts1] H [= <- <-]. done. }
  destruct p as [k wait|k wait e a st|k wait e|k wait e s|k wait e|k wait e s|k e s|o e s c st|k leased|k|k old b s|k old b
    |k old b|k old b n|k old b n|k old| |all rest|all rest s|all rest|s|r]; cbn [typed] in T.
  - destruct ans; try done; cbn [turn].
    + destruct (get_turn_ready now w l k wait I) as (w1 & ts1 & -> & H). by intros [= <- <-].
    + intros [= <- <-]. by apply stay_free.
  - cbn [turn]. destruct T. by eapply acq_turn_ready.
  - destruct ans; try done; cbn [turn]. apply Hpair. by apply acq_over_ready.
  - destruct T. destruct ans; try done; cbn [turn]; apply Hpair; [by eapply prepare_raises_ready|by apply stored_turn_ready].
  - destruct ans; try done; cbn [turn]; apply Hpair; [by eapply prepare_raises_ready|by apply restored_turn_ready|].
    destruct (set_field w l e k (set_counter c) _ I T) as [I1 L1]; [plain_tac|done|done|].
    pose proof (prepare_raises_ready _ l k e Raised I1 (later_known _ _ _ _ L1 T)) as Hr. destruct (prepare_raises _ _ _).
    by eapply ready_trans.
  - destruct T as [K Hs]. destruct ans; try done; cbn [turn]; apply Hpair; [|by eapply prepare_raises_ready].
    destruct (inv_upd_box w _ l s shut ltac:(done) I) as [I1 L1].
    pose proof (start_over_ready _ l k wait e I1 (later_known _ _ _ _ L1 K)) as Hr. destruct (start_over _ _ _ _).
    by eapply ready_trans.
  - destruct T. destruct ans; try done; cbn [turn]; apply Hpair. by eapply release_turn_ready.
  - cbn [turn]. destruct T. eapply persist_turn_ready; try done. eapply inv_ext; [|exact I]. intros e'. by destruct o.
  - done.
  - destruct ans; try done; cbn [turn]; apply Hpair. by apply drop_turn_ready.
  - cbn [turn]. by apply drop_await_ready.
  - cbn [turn]. by apply drop_await_ready.
  - cbn [turn]. by apply drop_await_ready.
  - cbn [turn]. by apply drop_await_ready.
  - cbn [turn]. by apply drop_await_ready.
  - by destruct ans.
  - destruct ans; try done; cbn [turn]; intros [= <- <-]; [by apply close_start_ready|by apply stay_free].
  - destruct T as [T1 T2]. destruct ans; try done; cbn [turn]. apply Hpair. unfold boxes_turn.
    destruct rest as [|e rest]; [by apply stay_free|].
    assert (closing w rest) by (destruct T2 as (? & ? & [_ ?]%Forall_cons); done).
    destruct (box _); [destruct (_ && _)|]; by apply stay_free.
  - destruct T as [T1 T2]. destruct ans; try done; cbn [turn]; intros [= <- <-]; [|by apply stay_free].
    destruct (inv_upd_box w _ l s shut ltac:(done) I) as [I1 L1]. eapply ready_trans; [exact L1|]. apply stay_free; [done..|].
    cbn. split; by eapply later_closing; [apply I| |].
  - destruct T as [T1 T2]. destruct ans; try done; cbn [turn]; [by apply store_turn_ready|]. intros [= <- <-]. by apply stay_free.
  - destruct ans; try done; cbn [turn]; intros [= <- <-]. destruct (inv_upd_box w _ l s shut ltac:(done) I) as [I1 L1].
    eapply ready_trans; [exact L1|]. by apply stay_free.
  - by destruct ans.
Qed.

Lemma inv_perm w l l' : l ≡ₚ l' -> inv w (fun _ => []) l -> inv w (fun _ => []) l'.
Proof.
  intros Hp [G T I C]. assert (Hb : forall e, (l ≫= roles e) ≡ₚ (l' ≫= roles e)) by (intros e; by rewrite Hp).
  split; [|by rewrite <- Hp|done|].
  - intros e. eapply good_perm; [|apply G]. cbn. apply Hb.
  - intros e Hg. cbn. rewrite <- (total_perm _ _ _ (Hb e)). by apply C.
Qed.

(** What always holds. *)
Definition pool_ok (w : world) : Prop := inv w (fun _ => []) (threads w).

Lemma inv_threads w R l t : inv w R l -> inv (set_threads t w) R l.
Proof.
  intros I. eapply inv_reindex; done.
Qed.

Lemma pool_ok_later w ts : pool_ok w -> Forall free_point ts -> pool_ok (set_threads (ts ++ threads w) w).
Proof.
  intros I Hf. apply inv_threads. apply inv_join; [|eapply Forall_impl; [exact Hf|]; intros p [_ H]; apply H|done].
  eapply inv_ext; [|exact I]. intros e. by rewrite free_bind.
Qed.

Lemma step_ok w w' : 0 <= max_sessions -> step max_per_owner max_sessions idle_timeout false w w' -> pool_ok w -> pool_ok w'.
Proof.
  intros Hm S I. destruct S as [now ans l1 p l2 w w' ts Ht E|k wait w|k w|k w Hb|now w w' ts E|w Hc|s f w Hf].
  - unfold pool_ok in *. rewrite Ht in I. apply (inv_perm _ _ (p :: l1 ++ l2)) in I; [|solve_Permutation].
    apply inv_split in I as [I T]. destruct (turn_ready _ _ _ _ _ _ _ I T E) as [I1 T1 L1].
    apply inv_threads. cbn [threads set_threads]. apply (inv_perm _ (ts ++ l1 ++ l2)); [solve_Permutation|].
    by apply inv_join.
  - apply (pool_ok_later w [PGet k wait]); [done|by repeat constructor].
  - apply (pool_ok_later w [PDrop k]); [done|by repeat constructor].
  - done.
  - pose proof (sweep_ready now w (threads w) I Hm) as Hr. rewrite E in Hr. destruct Hr as [I1 T1 L1].
    apply inv_threads. cbn [threads set_threads]. by apply inv_join.
  - unfold pool_ok. apply inv_threads. cbn [threads set_threads].
    assert (I1 : inv (set_closed w) (fun _ => []) (threads w)).
    { destruct I as [G T J C]. assert (L : later w (set_closed w)).
      { split; try done; cbn. intros e x Hx. exists x. split; [done|apply grows_refl]. }
      split; [done|by eapply typed_later| |].
      - destruct J. split; try done. intros k e Hin. destruct (x_find _ _ Hin). split; [by eapply later_known|done].
      - intros e _. right. by left. }
    apply (inv_join _ _ [PCloseStart]); [|by constructor|done]. done.
  - unfold pool_ok. by apply inv_upd_box.
Qed.

Lemma init_ok : pool_ok init_world.
Proof.
  split; cbn; try done.
  - intros e. unfold ent. cbn. split; cbn; try done. constructor.
  - split; cbn; try done; try (by intros ? ? ?%elem_of_nil); constructor.
  - intros e _. by right; right.
Qed.

Lemma reachable_ok w : 0 <= max_sessions -> reachable max_per_owner max_sessions idle_timeout false w -> pool_ok w.
Proof. intros Hm. induction 1; [apply init_ok|by eapply step_ok]. Qed.
End Turns.
