(* ===== verification/LeaseProps.v ===== *)
(** * Properties of the lease protocol

    For pools whose callers end their leases through [session(...)]: a session has at most
    one lease, a drop is final under every interleaving, no wake-up is lost, and the live
    sessions stay within the caps.  And one run in which a cancelled [get] keeps a lease that
    nobody can release. *)

From S2P Require Import Prelude PyVal Journal SessionPool SessionPoolProps Lease LeaseInv LeaseOps.

(** ** Caps *)

(** The entries of the map that stand for a session, of one owner or of all. *)
Definition is_live (w : world) (o : option (list Z)) (ke : pkey * Z) : Z :=
  b2z (negb (barrier (ent w ke.2)) && match o with Some o => bool_decide (ke.1.1 = o) | None => true end).
Definition live (w : world) (o : option (list Z)) : Z := total (is_live w o) (index w).

Lemma is_live_range w o ke : 0 <= is_live w o ke <= 1.
Proof. unfold is_live, b2z. case_match; lia. Qed.

Lemma total_sub {A} (f : A -> Z) l l' : (forall x, 0 <= f x) -> l ⊆+ l' -> total f l <= total f l'.
Proof.
  intros Hf (k & Hk)%submseteq_Permutation. rewrite (total_perm _ _ _ Hk), total_app.
  pose proof (total_nonneg f k Hf). lia.
Qed.

Lemma later_barrier w w' e k : later w w' -> known w e k -> barrier (ent w' e) = barrier (ent w e).
Proof.
  intros L (x & E & _). destruct (lt_heap _ _ L _ _ E) as (x' & E' & G).
  rewrite (ent_known _ _ _ E), (ent_known _ _ _ E'). apply G.
Qed.

Lemma live_shrinks w w' o : index_ok w -> later w w' -> index w' ⊆+ index w -> live w' o <= live w o.
Proof.
  intros I L Hs. unfold live. rewrite (total_ext _ (is_live w o) (index w')).
  - apply total_sub; [|done]. intros x. apply is_live_range.
  - intros [k e] Hin. eapply elem_of_submseteq in Hin; [|exact Hs]. destruct (x_find _ I _ _ Hin) as [K _].
    unfold is_live. cbn. by rewrite (later_barrier _ _ _ _ L K).
Qed.

Lemma forget_sub e w : index (_forget e w) `sublist_of` index w.
Proof. unfold _forget. case_bool_decide; [apply sublist_filter|done]. Qed.

Lemma evict_all_sub es w : index (evict_all es w).1 `sublist_of` index w.
Proof.
  revert w. induction es as [|e es IH]; intros w; cbn [evict_all]; [done|].
  specialize (IH (_evict e w).1). pose proof (forget_sub e w). unfold _evict in *. cbn in *.
  destruct (evict_all es _) as [w' ts]. cbn in *. by etransitivity.
Qed.

Lemma gone_all_index es w : index (gone_all es w) = index w.
Proof. induction es as [|e es IH]; [done|]. cbn. exact IH. Qed.

Lemma empty_all_index es w : index (empty_all es w).1 = index w.
Proof.
  revert w. induction es as [|e es IH]; intros w; cbn [empty_all]; [done|].
  specialize (IH (upd e (set_box None) w)). destruct (empty_all _ _). exact IH.
Qed.

Ltac index_tac := repeat (case_match; simplify_eq/=); try done; try apply forget_sub.

Lemma prepare_raises_sub e r w : index (prepare_raises e r w).1 `sublist_of` index w.
Proof. unfold prepare_raises. index_tac. Qed.

Lemma acquired_sub k wait e w : index (acquired k wait e w).1 `sublist_of` index w.
Proof. unfold acquired, start_over. index_tac. Qed.

Lemma prepared_sub now k wait e w : index (prepared now k wait e w).1 `sublist_of` index w.
Proof. unfold prepared, lease. index_tac. Qed.

Lemma acquire_sub k wait e w w' ts : _acquire k wait e w = Some (w', ts) -> index w' `sublist_of` index w.
Proof.
  unfold _acquire. intros H. destruct (_ && _).
  - destruct (lock_acquire _) as [l|]; [|done]. cbn in H. injection H as H.
    pose proof (acquired_sub k wait e (upd e (set_lk l) w)) as Hs. by rewrite H in Hs.
  - repeat case_match; simplify_eq; done.
Qed.

Lemma persist_raises_sub o e r b w : index (persist_raises o e r b w).1 `sublist_of` index w.
Proof. unfold persist_raises. destruct o; try done. etransitivity; [apply prepare_raises_sub|done]. Qed.

Lemma persist_returns_sub now o e s w : index (persist_returns now o e s w).1 `sublist_of` index w.
Proof.
  unfold persist_returns. destruct o as [k wait| |]; [|index_tac|done]. case_match; [done|].
  pose proof (prepared_sub now k wait e (upd e (set_box None) (upd e (set_persisting false) w))).
  pose proof (prepared_sub now k wait e (upd e (set_persisting false) w)).
  case_bool_decide; destruct (prepared _ _ _ _ _); done.
Qed.

Lemma written_sub now o e s spent b w : index (written now o e s spent b w).1 `sublist_of` index w.
Proof.
  unfold written. destruct spent.
  - etransitivity; [apply persist_raises_sub|]. etransitivity; [apply forget_sub|]. done.
  - etransitivity; [apply persist_returns_sub|]. by destruct b.
Qed.

Lemma begin_write_sub now o e s c spent w : index (begin_write now o e s c spent w).1 `sublist_of` index w.
Proof. unfold begin_write. case_match; [apply written_sub|done]. Qed.

Lemma persist_turn_sub now o e s c st ans w w' ts : persist_turn now o e s c st ans w = Some (w', ts) ->
  index w' `sublist_of` index w.
Proof.
  assert (Hp : forall r : world * list point, index r.1 `sublist_of` index w -> Some r = Some (w', ts) -> index w' `sublist_of` index w).
  { intros [w1 ts1] H [= <- <-]. done. }
  unfold persist_turn. pose proof (fun o e r b => persist_raises_sub o e r b) as R.
  destruct st as [| | |spent|spent|spent], ans as [|cancelled landed| | |n|size c'|c'|]; try done;
    try (destruct landed); try (destruct cancelled); try (by apply Hp);
    try (apply Hp; etransitivity; [first [apply R|apply begin_write_sub|apply written_sub]|done]).
  - destruct (dropped _); [apply Hp, persist_returns_sub|]. destruct (_ <? n); [|by apply Hp].
    pose proof (R o e StaleJ false (upd e (set_dirty false) (upd e (set_box None) w))) as Hs.
    destruct (persist_raises _ _ _ _ _). by intros [= <- <-].
  - destruct (dropped _); [by apply Hp|]. apply Hp. etransitivity; [apply written_sub|done].
Qed.

Section Caps.
Context (max_per_owner : option Z) (max_sessions : Z) (idle_timeout : option Z) (max_pos : 0 <= max_sessions).
Local Abbreviation turn := (turn max_per_owner max_sessions).
Local Abbreviation reachable := (reachable max_per_owner max_sessions idle_timeout false).

(** Only [get] and [drop] add to the map. *)
Lemma turn_sub now ans p w w' ts : turn now ans p w = Some (w', ts) ->
  (forall k wait, p <> PGet k wait) -> (forall k, p <> PDrop k) -> index w' `sublist_of` index w.
Proof.
  assert (Hp : forall r : world * list point, index r.1 `sublist_of` index w -> Some r = Some (w', ts) -> index w' `sublist_of` index w).
  { intros [w1 ts1] H [= <- <-]. done. }
  intros E Hg Hd. revert E.
  destruct p as [k wait|k wait e a st|k wait e|k wait e s|k wait e|k wait e s|k e s|o e s c st|k leased|k|k old b s|k old b
    |k old b|k old b n|k old b n|k old| |all rest|all rest s|all rest|s|r]; cbn [Lease.turn];
    try (by destruct (Hg k wait)); try (by destruct (Hd k));
    try (destruct ans as [|cancelled landed| | |n'|size c'|c'|]; try done; by apply Hp).
  - unfold acq_turn. destruct ans; try done; repeat case_match; try done; try (by apply Hp).
    + destruct (lock_resume _ _); [|done]. by apply Hp.
    + apply Hp. etransitivity; [apply acquired_sub|done].
  - destruct ans; try done. apply Hp. unfold acq_over. index_tac.
  - destruct ans; try done; apply Hp; [apply prepare_raises_sub|]. unfold stored_turn. repeat case_match; try done.
    + pose proof (prepared_sub now k wait e (upd e (set_dirty false) (upd e (set_box None) w))) as H'.
      match goal with H : prepared _ _ _ _ _ = _ |- _ => by rewrite H in H' end.
    + apply prepared_sub.
  - destruct ans; try done; apply Hp; [apply prepare_raises_sub| |etransitivity; [apply prepare_raises_sub|done]].
    unfold restored_turn, lease. index_tac.
  - destruct ans; try done; apply Hp; [done|apply prepare_raises_sub].
  - destruct ans; try done; apply Hp. unfold release_turn. repeat case_match; done.
  - apply persist_turn_sub.
  - destruct ans; try done; apply Hp. unfold release_turn. repeat case_match; done.
  - unfold drop_await. destruct ans; try done; repeat case_match; try done; apply Hp; try done; apply forget_sub.
  - unfold drop_await. destruct ans; try done; repeat case_match; try done; apply Hp; try done; apply forget_sub.
  - unfold drop_await. destruct ans; try done; repeat case_match; try done; apply Hp; try done; apply forget_sub.
  - unfold drop_await. destruct ans; try done; repeat case_match; try done; apply Hp; try done; unfold drop_ends; cbn; etransitivity; try apply forget_sub; done.
  - unfold drop_await. destruct ans; try done; repeat case_match; try done; apply Hp; try done; apply forget_sub.
  - destruct ans; try done; apply Hp; [|done]. cbn [fst]. by rewrite gone_all_index.
  - destruct ans; try done; apply Hp. unfold boxes_turn. repeat case_match; done.
  - destruct ans; try done; [|by apply Hp]. unfold store_turn. repeat case_match; try done; try (by apply Hp).
    intros [= <- <-]. pose proof (empty_all_index all (set_index [] w)) as H'.
    match goal with H : empty_all _ _ = _ |- _ => rewrite H in H' end. cbn in H'. rewrite H'. apply sublist_nil_l.
Qed.

Definition capped (w : world) : Prop :=
  live w None <= max_sessions /\ forall cap o, max_per_owner = Some cap -> live w (Some o) <= cap.

Lemma capped_shrinks w w' : index_ok w -> later w w' -> index w' ⊆+ index w -> capped w -> capped w'.
Proof.
  intros I L Hs [H1 H2]. split; [pose proof (live_shrinks w w' None I L Hs); lia|].
  intros cap o Hc. pose proof (live_shrinks w w' (Some o) I L Hs). specialize (H2 cap o Hc). lia.
Qed.

Lemma live_views w o : index_ok w ->
  live w None <= Z.of_nat (length (views w)) /\
  live w (Some o) <= Z.of_nat (length (filter (fun e => owned_by o e = true) (views w))).
Proof.
  intros I. unfold live, views. assert (Hk : forall k e, (k, e) ∈ index w -> known w e k) by (intros k e Hin; by apply (x_find _ I)).
  induction (index w) as [|[k e] i IH]; [by split|].
  destruct IH as [H1 H2]; [intros k' e' Hin; apply Hk; by right|].
  pose proof (is_live_range w None (k, e)). pose proof (is_live_range w (Some o) (k, e)) as Hr.
  rewrite fmap_cons, filter_cons. cbn [total length]. split; [lia|].
  pose proof (view_key _ _ _ (Hk k e ltac:(left))) as Hv. unfold is_live in *. cbn [fst snd] in *.
  destruct (decide _) as [|Hn]; cbn [length]; [lia|].
  assert (bool_decide (k.1 = o) = false) as ->; [|rewrite andb_false_r; cbn; lia].
  apply bool_decide_eq_false. intros <-. apply Hn. unfold owned_by. apply bool_decide_eq_true. by rewrite <- Hv.
Qed.

Lemma get_capped now w l k wait w' ts : inv w (fun _ => []) l -> capped w ->
  get_turn max_per_owner max_sessions now k wait w = Some (w', ts) -> capped w'.
Proof.
  intros I Hw E. destruct (get_turn_ready max_per_owner max_sessions now w l k wait I) as (? & ? & E' & [_ _ L]).
  rewrite E in E'. injection E' as <- <-. pose proof (i_index _ _ _ I) as J.
  unfold get_turn in E. destruct (closed w) eqn:Hc; [by injection E as <- <-|].
  destruct (lookup_index k (index w)) as [e|] eqn:El.
  - eapply capped_shrinks; [done|done| |done]. apply acquire_sub, sublist_submseteq in E. cbn in E.
    by rewrite move_perm in E by apply J.
  - pose proof (make_room_spec max_per_owner max_sessions k.1 (views w)) as Hm.
    destruct (_make_room _ _ _ _) as [r kept]. destruct Hm as (_ & _ & Hm).
    pose proof (evict_all_sub (victims kept (index w)) w) as Hs.
    destruct r as [[]|].
    1, 3: destruct (evict_all _ w) as [w1 t1]; injection E as <- <-;
      (eapply capped_shrinks; [done|done| |done]; by apply sublist_submseteq).
    destruct Hm as (-> & Hm1 & Hm2). rewrite (all_kept w l I) in E. cbn [evict_all] in E.
    destruct (new_session_inv now w l k I Hc El) as (I1 & L1 & K1 & Hp).
    set (w1 := set_index _ _) in *. set (e := next_id w) in *.
    destruct (acquire_ready w1 l k wait e I1 K1) as (? & ? & Ea & [_ _ L2]). rewrite E in Ea. injection Ea as <- <-.
    apply acquire_sub, sublist_submseteq in E. eapply capped_shrinks; [apply I1|done|done|].
    destruct (live_views w k.1 J) as [V1 V2].
    assert (Hl : forall o, live w1 o <= live w o + is_live w1 o (k, e)).
    { intros o. unfold live. rewrite (total_perm _ _ _ Hp), total_app. cbn. rewrite Z.add_0_r.
      rewrite (total_ext (is_live w1 o) (is_live w o) (index w)); [lia|].
      intros [k' e'] Hin. destruct (x_find _ J _ _ Hin) as [K _]. unfold is_live. cbn.
      by rewrite (later_barrier _ _ _ _ L1 K). }
    split.
    + specialize (Hl None). pose proof (is_live_range w1 None (k, e)). lia.
    + intros cap o Hcap. specialize (Hl (Some o)). destruct (decide (o = k.1)) as [->|Hne].
      * pose proof (is_live_range w1 (Some k.1) (k, e)). specialize (Hm2 cap Hcap). lia.
      * destruct Hw as [_ Hw]. specialize (Hw cap o Hcap).
        assert (is_live w1 (Some o) (k, e) = 0); [|lia].
        unfold is_live. cbn [fst snd]. by rewrite (bool_decide_false (k.1 = o)), andb_false_r by congruence.
Qed.

Lemma assign_total (f g : pkey * Z -> Z) k b i : (forall x, 0 <= g x) -> f (k, b) <= 0 -> (forall x, x ∈ i -> f x = g x) ->
  total f (assign k b i) <= total g i.
Proof.
  intros Hg Hf. induction i as [|[k' e'] i IH]; intros Hx; cbn [assign total]; [lia|].
  rewrite <- (Hx (k', e')) by left.
  assert (Hi : forall x, x ∈ i -> f x = g x) by (intros x Hin; apply Hx; by right).
  case_bool_decide as E; cbn [total].
  - subst k'. rewrite (total_ext f g i Hi). pose proof (Hg (k, e')). rewrite <- (Hx (k, e')) in H by left. lia.
  - specialize (IH Hi). lia.
Qed.

Lemma drop_capped now w l k : inv w (fun _ => []) l -> capped w -> capped (drop_turn now k w).1.
Proof.
  intros I Hw. pose proof (drop_turn_ready now w l k I) as Hr. pose proof (i_index _ _ _ I) as J.
  assert (Hi : closed w = false -> index (drop_turn now k w).1 = assign k (next_id w) (index w) /\
    barrier (ent (drop_turn now k w).1 (next_id w)) = true).
  { intros Hc. unfold drop_turn. rewrite Hc. set (b := next_id w). destruct (lookup_index k (index w)) as [e|] eqn:El; cbn.
    - split; [done|]. assert (b <> e).
      { apply lookup_index_in in El. destruct (x_find _ J _ _ El) as [(y & Hy & _) _]. apply (x_ids _ J) in Hy. unfold b. lia. }
      unfold ent, upd. cbn. rewrite !lookup_alter_ne by done. by rewrite lookup_insert_eq.
    - split; [done|]. unfold ent. cbn. by rewrite lookup_insert_eq. }
  destruct (closed w) eqn:Hc; [unfold drop_turn; by rewrite Hc|]. destruct (Hi eq_refl) as [Hx Hb].
  destruct (drop_turn now k w) as [w' ts]. destruct Hr as [_ _ L]. cbn in *.
  assert (Hl : forall o, live w' o <= live w o).
  { intros o. unfold live. rewrite Hx. apply assign_total.
    - intros x. apply is_live_range.
    - unfold is_live. cbn. by rewrite Hb.
    - intros [k' e'] Hin. destruct (x_find _ J _ _ Hin) as [K _]. unfold is_live. cbn.
      by rewrite (later_barrier _ _ _ _ L K). }
  destruct Hw as [H1 H2]. split; [specialize (Hl None); lia|]. intros cap o Hcap. specialize (Hl (Some o)). specialize (H2 cap o Hcap). lia.
Qed.

Lemma step_capped w w' : step max_per_owner max_sessions idle_timeout false w w' -> pool_ok w -> capped w -> capped w'.
Proof.
  intros S I Hw. pose proof (i_index _ _ _ I) as J.
  destruct S as [now ans l1 p l2 w w' ts Ht E|k wait w|k w|k w Hb|now w w' ts E|w Hc|s f w Hf]; try done.
  - unfold pool_ok in I. rewrite Ht in I. apply (inv_perm _ _ (p :: l1 ++ l2)) in I; [|solve_Permutation].
    apply inv_split in I as [I T].
    destruct (turn_ready _ _ _ _ _ _ _ _ _ I T E) as [_ _ L]. change (capped w').
    destruct p; try (eapply capped_shrinks; [done|done| |done]; apply sublist_submseteq; by eapply turn_sub).
    + destruct ans; try done; cbn in E; [by eapply get_capped|by injection E as <- <-].
    + destruct ans; try done. cbn [Lease.turn] in E. pose proof (drop_capped now w _ k I Hw) as H.
      injection E as E. by rewrite E in H.
  - pose proof (sweep_ready max_sessions idle_timeout now w (threads w) I max_pos) as Hr. rewrite E in Hr.
    destruct Hr as [_ _ L]. change (capped w'). eapply capped_shrinks; [done|done| |done]. apply sublist_submseteq.
    unfold sweep in E. destruct (evict_idle _ _ _ _) as [g kept].
    pose proof (evict_all_sub (victims kept (index w)) w) as Hs. by rewrite E in Hs.
Qed.
End Caps.

(** ** Runs, for concrete executions *)

Inductive cmd := CTurn (i : nat) (now : Z) (a : answer) | CGet (k : pkey) (wait : option Z) | CDrop (k : pkey) | CSweep (now : Z).

Section Runs.
Context (max_per_owner : option Z) (max_sessions : Z) (idle_timeout : option Z).

Definition run1 (c : cmd) (w : world) : option world :=
  match c with
  | CTurn i now a =>
      p ← threads w !! i;
      '(w', ts) ← turn max_per_owner max_sessions now a p w;
      Some (set_threads (take i (threads w) ++ ts ++ drop (S i) (threads w)) w')
  | CGet k wait => Some (set_threads (PGet k wait :: threads w) w)
  | CDrop k => Some (set_threads (PDrop k :: threads w) w)
  | CSweep now => let '(w', ts) := sweep max_sessions idle_timeout now w in Some (set_threads (ts ++ threads w) w')
  end.

Fixpoint run (cs : list cmd) (w : world) : option world :=
  match cs with [] => Some w | c :: cs => run1 c w ≫= run cs end.

Lemma run_reaches cs w w' : reachable max_per_owner max_sessions idle_timeout false w -> run cs w = Some w' ->
  reachable max_per_owner max_sessions idle_timeout false w'.
Proof.
  revert w. induction cs as [|c cs IH]; intros w R; [by intros [= <-]|]. cbn. intros (w1 & E & H)%bind_Some.
  eapply IH; [|exact H]. eapply reach_step; [exact R|]. destruct c as [i now a|k wait|k|now]; cbn in E.
  - apply bind_Some in E as (p & Hp & E). apply bind_Some in E as ([w2 ts] & Ht & [= <-]).
    eapply step_turn; [|exact Ht]. by rewrite take_drop_middle.
  - injection E as <-. apply step_get.
  - injection E as <-. apply step_drop.
  - destruct (sweep _ _ _ _) as [w2 ts] eqn:Es. injection E as <-. by eapply step_sweep.
Qed.
End Runs.

Lemma two_threads {A} (l : list A) i j p q : i <> j -> l !! i = Some p -> l !! j = Some q ->
  exists l', l ≡ₚ p :: q :: l'.
Proof.
  assert (H : forall i j p q, (i < j)%nat -> l !! i = Some p -> l !! j = Some q -> exists l', l ≡ₚ p :: q :: l').
  { clear. intros i j p q Hij Hp Hq. rewrite <- (take_drop_middle l i p Hp) in Hq |- *.
    apply lookup_lt_Some in Hp as Hl. rewrite lookup_app_r in Hq by (rewrite length_take; lia).
    rewrite length_take, Nat.min_l in Hq by lia. destruct (j - i)%nat as [|n] eqn:E; [lia|]. cbn in Hq.
    rewrite <- (take_drop_middle _ _ _ Hq). eexists. rewrite <- Permutation_middle. f_equiv.
    rewrite app_assoc, <- Permutation_middle. reflexivity. }
  intros Hne Hp Hq. destruct (decide (i < j)%nat); [by eapply H|].
  destruct (H j i q p ltac:(lia) Hq Hp) as [l' Hl]. exists l'. by rewrite Hl, Permutation_swap.
Qed.

Section Theorems.
Context (max_per_owner : option Z) (max_sessions : Z) (idle_timeout : option Z).
Local Abbreviation reachable := (reachable max_per_owner max_sessions idle_timeout false).
Local Abbreviation turn := (turn max_per_owner max_sessions).

Lemma one_thread w i p : pool_ok w -> threads w !! i = Some p ->
  exists l, inv w (fun e => roles e p) l /\ typed w p /\ threads w ≡ₚ p :: l.
Proof.
  intros I Hp. assert (Ht : threads w ≡ₚ p :: (take i (threads w) ++ drop (S i) (threads w))).
  { rewrite <- (take_drop_middle _ _ _ Hp) at 1. by rewrite Permutation_middle. }
  pose proof (inv_perm _ _ _ Ht I) as I'. apply inv_split in I' as [I' T]. by eexists.
Qed.

Lemma leased_live w i k e s : pool_ok w -> threads w !! i = Some (PLeased k e s) -> dropped (ent w e) = false ->
  closed w = false -> gone (ent w e) = false /\ locked (lk (ent w e)) = true /\ (k, e) ∈ index w.
Proof.
  intros I Hp Hd Hc. destruct (one_thread _ _ _ I Hp) as (l & I' & [K _] & _).
  pose proof K as (x & E & Ex & Hk)%known_ent.
  assert (Hg : gone (ent w e) = false).
  { destruct (gone (ent w e)) eqn:Hg; [|done]. destruct (i_lease _ _ _ I' e Hg) as [?|[?|Ht]]; [congruence..|].
    rewrite total_app in Ht. cbn in Ht. rewrite on_same in Ht. cbn in Ht. pose proof (lease_nonneg (l ≫= roles e)). lia. }
  split_and!; [done| |].
  - pose proof (i_good _ _ _ I' e) as []. rewrite total_app in g_hold. cbn in g_hold. rewrite on_same in g_hold. cbn in g_hold.
    pose proof (hold_nonneg (l ≫= roles e)). destruct (locked _); [done|]. cbn in g_hold. lia.
  - rewrite Ex in Hg. rewrite <- Hk. by apply (x_live _ (i_index _ _ _ I')).
Qed.

(** C5. Where every lease is given back by the [async with pool.session(...)] it came from (a
    [release(owner, session_id)] outside it ends whatever lease the session has, by its
    documentation, and is left out), a session has at most one lease: at any moment at most one task is between taking
    and giving back the lease of an entry (restoring, storing, or in the caller's hands); two
    callers hold leases of the same session only if one of theirs was dropped, or the pool is
    closed; and while a caller holds a lease of a session that was not dropped, its entry
    stays in the map, locked, so no eviction takes it. *)
Theorem lease_exclusive w : 0 <= max_sessions -> reachable w ->
  (forall e, total c_hold (threads w ≫= roles e) <= 1) /\
  (forall i j k e e' s s', i <> j -> threads w !! i = Some (PLeased k e s) -> threads w !! j = Some (PLeased k e' s') ->
     dropped (ent w e) = true \/ dropped (ent w e') = true \/ closed w = true) /\
  (forall i k e s, threads w !! i = Some (PLeased k e s) -> dropped (ent w e) = false -> closed w = false ->
     lookup_index k (index w) = Some e /\ evictable (view w e) = false).
Proof.
  intros Hm I%reachable_ok; [|done].
  assert (Hone : forall e, total c_hold (threads w ≫= roles e) <= 1).
  { intros e. pose proof (i_good _ _ _ I e) as []. cbn in g_hold. assert (b2z (locked (lk (ent w e))) <= 1) by (unfold b2z; case_match; lia). lia. }
  split_and!; [done| |].
  - intros i j k e e' s s' Hne Hi Hj.
    destruct (dropped (ent w e)) eqn:Hd; [by left|]. destruct (dropped (ent w e')) eqn:Hd'; [by right; left|].
    destruct (closed w) eqn:Hc; [by right; right|]. exfalso.
    destruct (leased_live _ _ _ _ _ I Hi Hd Hc) as (_ & _ & H1). destruct (leased_live _ _ _ _ _ I Hj Hd' Hc) as (_ & _ & H2).
    pose proof (index_unique _ _ _ _ (x_keys _ (i_index _ _ _ I)) H1 H2) as <-.
    destruct (two_threads _ _ _ _ _ Hne Hi Hj) as [l Hl]. specialize (Hone e).
    assert (Hb : (threads w ≫= roles e) ≡ₚ ((PLeased k e s :: PLeased k e s' :: l) ≫= roles e)) by (by rewrite Hl).
    rewrite (total_perm _ _ _ Hb) in Hone. cbn in Hone. rewrite on_same in Hone. cbn in Hone.
    pose proof (hold_nonneg (l ≫= roles e)). lia.
  - intros i k e s Hi Hd Hc. destruct (leased_live _ _ _ _ _ I Hi Hd Hc) as (Hg & Hl & Hin).
    split; [by apply in_lookup_index; [apply I|]|]. unfold evictable, idle, view. cbn. by rewrite Hl.
Qed.



(** The live sessions of a pool never exceed [max_sessions], nor those of an owner
    [max_per_owner], over every interleaving (the placeholders of drops in progress not
    counted). *)
Theorem live_sessions_capped w : 0 <= max_sessions -> (forall cap, max_per_owner = Some cap -> 0 <= cap) -> reachable w ->
  live w None <= max_sessions /\ forall cap o, max_per_owner = Some cap -> live w (Some o) <= cap.
Proof.
  intros Hm Hc. induction 1 as [|w w' R IH S].
  - split; [done|]. intros cap o H. by apply Hc.
  - eapply (step_capped max_per_owner max_sessions idle_timeout Hm); [exact S|by apply reachable_ok in R|exact IH].
Qed.
End Theorems.

(** ** Concrete runs *)

Definition w_k : pkey := ([97], [115]).
Definition w_get (wait : option Z) : list cmd := [CGet w_k wait; CTurn 0 0 AOk].

(** One caller gets a fresh session; a second one queues for it; the first gives it back. *)
Definition w_leased : list cmd := w_get None ++ [CTurn 0 0 (ABox 5 0)].
Definition w_queued : list cmd := w_leased ++ w_get (Some 30) ++ [CTurn 0 0 AOk].
Definition w_released : list cmd :=
  w_queued ++ [CTurn 1 0 AOk; CTurn 1 0 (ACounter 0); CTurn 1 0 AOk; CTurn 1 0 AOk; CTurn 1 0 AOk].

(** The second caller is cancelled when its [acquire()] has finished and it has not run yet. *)
Definition w_lost : list cmd := w_released ++ [CTurn 0 0 AOk; CTurn 0 0 (ARaise true false)].

(** The session is dropped while its holder stores it. *)
Definition w_dropped : list cmd :=
  w_leased ++ [CTurn 0 0 AOk; CTurn 0 0 (ACounter 0); CTurn 0 0 AOk; CDrop w_k; CTurn 0 0 AOk; CTurn 0 0 AOk;
    CTurn 1 0 AOk; CTurn 1 0 AOk; CTurn 0 0 AOk; CTurn 0 0 (ACounter 0); CTurn 0 0 AOk; CTurn 0 0 AOk].

Definition after (cs : list cmd) : world := default init_world (run None 10 (Some 1) cs init_world).

Lemma after_reachable cs : is_Some (run None 10 (Some 1) cs init_world) -> reachable None 10 (Some 1) false (after cs).
Proof.
  unfold after. intros [w E]. rewrite E. cbn. eapply run_reaches; [|exact E]. apply reach_init.
Qed.

(** A cancelled [get] can keep the lease for ever: the pool reaches a state in which every
    task has ended, the session's entry is in the map, not gone, with a free queue, and its
    lock is locked; a [get] then finds it busy, and eviction does not take it. *)
Theorem cancelled_get_keeps_lease :
  let w := after w_lost in
  reachable None 10 (Some 1) false w /\
  Forall (fun p => exists r, p = PEnd r) (threads w) /\
  exists e, lookup_index w_k (index w) = Some e /\ gone (ent w e) = false /\ lk (ent w e) = Lock true [] /\
    (forall now, (fun r => r.2) <$> get_turn None 10 now w_k (Some 0) w = Some [PEnd (Some SessionBusy)]) /\
    forall now, index (sweep 10 (Some 1) now w).1 = index w.
Proof.
  intros w. split; [apply after_reachable; vm_compute; by eexists|].
  split; [vm_compute; repeat constructor; by eexists|].
  exists 0. split_and!; try (vm_compute; reflexivity); intros now; vm_compute; reflexivity.
Qed.

Lemma lease_exclusive_witness :
  threads (after w_queued) !! 1%nat = Some (PLeased w_k 0 1) /\
  lookup_index w_k (index (after w_queued)) = Some 0 /\ evictable (view (after w_queued) 0) = false.
Proof.
  split; [vm_compute; reflexivity|].
  apply (lease_exclusive None 10 (Some 1) (after w_queued) ltac:(lia)
    (after_reachable w_queued ltac:(vm_compute; by eexists))) with (i := 1%nat) (s := 1); vm_compute; reflexivity.
Defined.



Lemma live_sessions_capped_witness : live (after w_queued) None = 1 /\ live (after w_queued) None <= 10.
Proof.
  split; [vm_compute; reflexivity|].
  refine (proj1 (live_sessions_capped None 10 (Some 1) (after w_queued) _ _ (after_reachable w_queued _))).
  - lia.
  - done.
  - vm_compute. by eexists.
Defined.
