(* ===== verification/ToolBridge.v ===== *)
(** * The tool bridge ([python/pydeno/_tools.py])

    [ToolBridge]: the checks of its constructor, the call budget behind every shim, and
    binding and revoking the shims in a runtime.  A runtime is the interface [OpRegistry]
    (implemented by the native extension): binding hands out a token, and only a token that
    was handed out and not revoked leads to a shim.  [OpLaws] is what the bridge relies on. *)

From S2P Require Import Prelude Utf8 PyVal PyStr.

Definition name_first (c : Z) : bool := is_alpha c || (c =? chr "_").
Definition name_rest (c : Z) : bool := name_first c || is_digit c.

(** [[A-Za-z_][A-Za-z0-9_]*], the whole string. *)
Definition _SAFE_NAME (s : list Z) : bool :=
  match s with [] => false | c :: s' => name_first c && forallb name_rest s' end.

Definition _RESERVED_NAMES (s : list Z) : bool :=
  existsb (fun n => bool_decide (s = u n)) ["__proto__"; "constructor"; "prototype"; "hasOwnProperty"; "toString"; "valueOf"].

Definition _check_name (name : pyval) : result exn (list Z) :=
  match name with
  | PStr s =>
      if negb (_SAFE_NAME s) then Err (ValueError "must match [A-Za-z_][A-Za-z0-9_]*")
      else if _RESERVED_NAMES s then Err (ValueError "shadows a JavaScript object/prototype member")
      else Ok s
  | _ => Err (TypeError "must be a string")
  end.

(** ** Runtimes *)

(** A shim: the name it charges and the callable behind it. *)
Abbreviation shim := (list Z * Z)%type.

(** [exposed]: the shims a guest of the runtime can reach, by token. *)
Class OpRegistry (Rt : Type) := {
  bind_function : shim -> Rt -> result exn Z * Rt;
  bind_object : list Z -> list shim -> Rt -> result exn (list Z) * Rt;
  revoke_op : Z -> Rt -> result exn bool * Rt;
  exposed : Rt -> gmap Z shim }.

(** A bind that succeeds exposes its members under new tokens and nothing else; one that
    fails exposes nothing; revoking a token ends it and says whether it was live, and a
    revocation that raises has no other effect (the host's handler may be gone already). *)
Class OpLaws (Rt : Type) `{OpRegistry Rt} := {
  bind_function_ok : forall s rt t rt', bind_function s rt = (Ok t, rt') ->
    exposed rt !! t = None /\ exposed rt' = <[t := s]> (exposed rt);
  bind_function_err : forall s rt e rt', bind_function s rt = (Err e, rt') -> exposed rt' = exposed rt;
  bind_object_ok : forall ns ss rt ts rt', bind_object ns ss rt = (Ok ts, rt') ->
    length ts = length ss /\ NoDup ts /\ Forall (fun t => exposed rt !! t = None) ts /\
    exposed rt' = list_to_map (zip ts ss) ∪ exposed rt;
  bind_object_err : forall ns ss rt e rt', bind_object ns ss rt = (Err e, rt') -> exposed rt' = exposed rt;
  revoke_op_ok : forall t rt b rt', revoke_op t rt = (Ok b, rt') ->
    exposed rt' = delete t (exposed rt) /\ b = bool_decide (is_Some (exposed rt !! t));
  revoke_op_err : forall t rt e rt', revoke_op t rt = (Err e, rt') ->
    exposed rt' = exposed rt \/ exposed rt' = delete t (exposed rt) }.

(** ** The bridge *)

(** [tokens]: what the bridge installed, by runtime. *)
Record ToolBridge := Bridge {
  _tools : list shim; _namespace : option (list Z); _max_calls : option Z; _silent : bool;
  _calls : Z; _tokens : gmap Z (list Z)
}.

(** [checked[name] = func] *)
Fixpoint set_tool (name : list Z) (func : Z) (tools : list shim) : list shim :=
  match tools with
  | [] => [(name, func)]
  | (n, f) :: tools' => if bool_decide (n = name) then (n, func) :: tools' else (n, f) :: set_tool name func tools'
  end.

(** The items of the mapping: a key and the callable, if the value is one. *)
Fixpoint check_tools (items : list (pyval * option Z)) (checked : list shim) : result exn (list shim) :=
  match items with
  | [] => Ok checked
  | (name, func) :: items' =>
      name ← _check_name name;
      match func with
      | None => Err (TypeError "is not callable")
      | Some f => check_tools items' (set_tool name f checked)
      end
  end.

(** [tools] is [None] for a value that is not a mapping. *)
Definition bridge_init (tools : option (list (pyval * option Z))) (max_calls namespace on_exhausted : pyval)
    : result exn ToolBridge :=
  match tools with
  | None => Err (TypeError "tools must be a mapping of name -> callable")
  | Some items =>
      silent ← match on_exhausted with
               | PStr s => if bool_decide (s = u "raise") then Ok false
                           else if bool_decide (s = u "silent") then Ok true
                           else Err (ValueError "on_exhausted must be 'raise' or 'silent'")
               | _ => Err (ValueError "on_exhausted must be 'raise' or 'silent'")
               end;
      max_calls ← match max_calls with
                  | PNone => Ok None
                  | PInt n => if n <? 0 then Err (ValueError "max_calls must be non-negative") else Ok (Some n)
                  | _ => Err (TypeError "max_calls must be an int or None")
                  end;
      namespace ← match namespace with PNone => Ok None | _ => Some <$> _check_name namespace end;
      checked ← check_tools items [];
      Ok (Bridge checked namespace max_calls silent 0 ∅)
  end.

Definition calls_remaining (b : ToolBridge) : option Z := (fun m => Z.max 0 (m - _calls b)) <$> _max_calls b.
Definition reset_budget (b : ToolBridge) : ToolBridge :=
  Bridge (_tools b) (_namespace b) (_max_calls b) (_silent b) 0 (_tokens b).

Inductive spent := Charged | Refused | BudgetError.

Definition _spend (b : ToolBridge) : spent * ToolBridge :=
  if match _max_calls b with Some m => m <=? _calls b | None => false end
  then (if _silent b then Refused else BudgetError, b)
  else (Charged, Bridge (_tools b) (_namespace b) (_max_calls b) (_silent b) (_calls b + 1) (_tokens b)).

(** A call of a shim by the guest: the callable runs, the guest gets null, or an error. *)
Inductive call_result := Invoked (func : Z) | Null | BudgetExhausted.

Definition call_shim (s : shim) (b : ToolBridge) : call_result * ToolBridge :=
  let '(r, b) := _spend b in
  (match r with Charged => Invoked s.2 | Refused => Null | BudgetError => BudgetExhausted end, b).

Fixpoint call_all (ss : list shim) (b : ToolBridge) : list call_result * ToolBridge :=
  match ss with
  | [] => ([], b)
  | s :: ss' => let '(r, b) := call_shim s b in let '(rs, b) := call_all ss' b in (r :: rs, b)
  end.

Section Attach.
Context {Rt : Type} `{OpRegistry Rt}.

(** [for token in added: runtime.revoke_op(token)]; the exception that ended it, if any. *)
Fixpoint revoke_all (ts : list Z) (rt : Rt) : option exn * Rt :=
  match ts with
  | [] => (None, rt)
  | t :: ts' =>
      match revoke_op t rt with
      | (Ok _, rt) => revoke_all ts' rt
      | (Err e, rt) => (Some e, rt)
      end
  end.

(** One bind per tool; [added] so far.  A failure revokes what was added. *)
Fixpoint bind_each (ss : list shim) (added : list Z) (rt : Rt) : result exn (list Z) * Rt :=
  match ss with
  | [] => (Ok added, rt)
  | s :: ss' =>
      match bind_function s rt with
      | (Ok t, rt) => bind_each ss' (added ++ [t]) rt
      | (Err e, rt) => let '(e', rt) := revoke_all added rt in (Err (default e e'), rt)
      end
  end.

Definition add_tokens (r : Z) (ts : list Z) (b : ToolBridge) : ToolBridge :=
  Bridge (_tools b) (_namespace b) (_max_calls b) (_silent b) (_calls b)
    (<[r := default [] (_tokens b !! r) ++ ts]> (_tokens b)).

(** [attach] into the runtime [rt], of identity [r] (already known to be a runtime). *)
Definition attach (r : Z) (rt : Rt) (b : ToolBridge) : result exn unit * Rt * ToolBridge :=
  let '(res, rt) := match _namespace b with
                    | None => bind_each (_tools b) [] rt
                    | Some ns => bind_object ns (_tools b) rt
                    end in
  match res with
  | Ok ts => (Ok tt, rt, add_tokens r ts b)
  | Err e => (Err e, rt, b)
  end.

(** [while tokens: ...]: from the last token back.  A revocation that raises leaves its
    token and the ones before it in the list, which the bridge keeps. *)
Fixpoint revoke_back (ts : list Z) (revoked : Z) (rt : Rt) : result exn Z * list Z * Rt :=
  match ts with
  | [] => (Ok revoked, [], rt)
  | t :: ts' =>
      match revoke_op t rt with
      | (Ok b, rt) => revoke_back ts' (revoked + Z.b2z b) rt
      | (Err e, rt) => (Err e, ts, rt)
      end
  end.

Definition with_tokens (m : gmap Z (list Z)) (b : ToolBridge) : ToolBridge :=
  Bridge (_tools b) (_namespace b) (_max_calls b) (_silent b) (_calls b) m.

Definition detach (r : Z) (rt : Rt) (b : ToolBridge) : result exn Z * Rt * ToolBridge :=
  match revoke_back (reverse (default [] (_tokens b !! r))) 0 rt with
  | (Ok n, _, rt) => (Ok n, rt, with_tokens (delete r (_tokens b)) b)
  | (Err e, rest, rt) => (Err e, rt, with_tokens (<[r := reverse rest]> (_tokens b)) b)
  end.
End Attach.

(** ** Properties *)

Section Laws.
Context {Rt : Type} `{OpLaws Rt}.

Definition minus (m : gmap Z shim) (ts : list Z) : gmap Z shim := foldr delete m ts.

Lemma minus_lookup m ts t : minus m ts !! t = if bool_decide (t ∈ ts) then None else m !! t.
Proof.
  induction ts as [|t' ts IH]; [done|]. change (minus m (t' :: ts)) with (delete t' (minus m ts)).
  destruct (decide (t = t')) as [->|Hne].
  - rewrite lookup_delete_eq, bool_decide_true; [done|]. left.
  - rewrite lookup_delete_ne, IH by done. erewrite bool_decide_ext; [done|]. rewrite elem_of_cons. split; [by right|by intros [?|?]].
Qed.

Lemma minus_delete m t ts : minus (delete t m) ts = delete t (minus m ts).
Proof. induction ts as [|t' ts IH]; [done|]. cbn. change (foldr delete ?m ts) with (minus m ts). rewrite IH. apply delete_delete. Qed.

Lemma minus_bound ts ss m : length ts = length ss -> Forall (fun t => m !! t = None) ts ->
  minus (list_to_map (zip ts ss) ∪ m) ts = m.
Proof.
  intros Hl Hf. apply map_eq. intros t. rewrite minus_lookup. case_bool_decide as Hin.
  - rewrite Forall_forall in Hf. symmetry. by apply Hf.
  - rewrite lookup_union_r; [done|]. apply not_elem_of_list_to_map. by rewrite fst_zip by lia.
Qed.

Lemma minus_reverse m ts : minus m (reverse ts) = minus m ts.
Proof. apply map_eq. intros t. rewrite !minus_lookup. erewrite bool_decide_ext; [done|]. apply elem_of_reverse. Qed.

Lemma live_delete (m m' : gmap Z shim) t ts : t ∉ ts -> m' = delete t m ->
  Forall (fun t => is_Some (m !! t)) ts -> Forall (fun t => is_Some (m' !! t)) ts.
Proof.
  intros Ht ->. rewrite !Forall_forall. intros Hf x Hx. rewrite lookup_delete_ne by (intros ->; done). by apply Hf.
Qed.

(** No revocation raises. *)
Definition revocable : Prop := forall t (rt : Rt), is_ok (revoke_op t rt).1 = true.

Lemma revoke_all_exposed ts rt : revocable -> exposed (revoke_all ts rt).2 = minus (exposed rt) ts.
Proof.
  intros Hr. revert rt. induction ts as [|t ts IH]; intros rt; cbn [revoke_all]; [done|].
  pose proof (Hr t rt) as Ht. destruct (revoke_op t rt) as [[b|e] rt'] eqn:E; [|done].
  apply revoke_op_ok in E as [E _]. rewrite IH, E. apply minus_delete.
Qed.

Lemma revoke_back_exposed ts n rt : NoDup ts ->
  match revoke_back ts n rt with
  | (Ok k, _, rt') => exposed rt' = minus (exposed rt) ts /\
      (Forall (fun t => is_Some (exposed rt !! t)) ts -> k = n + Z.of_nat (length ts))
  | (Err _, rest, rt') => minus (exposed rt') rest = minus (exposed rt) ts
  end.
Proof.
  intros Hn. revert n rt. induction Hn as [|t ts Ht Hn IH]; intros n rt; cbn [revoke_back].
  { split; [done|]. intros _. cbn. lia. }
  destruct (revoke_op t rt) as [[b|e] rt1] eqn:E.
  - apply revoke_op_ok in E as [E1 E2]. specialize (IH (n + Z.b2z b) rt1).
    change (minus (exposed rt) (t :: ts)) with (delete t (minus (exposed rt) ts)).
    rewrite <- minus_delete, <- E1. destruct (revoke_back ts _ rt1) as [[[k|e] rest] rt2]; [|done].
    destruct IH as [I1 I2]. split; [done|]. intros [Hs Hf]%Forall_cons.
    rewrite I2, E2, bool_decide_true by (done || by apply (live_delete _ _ _ _ Ht E1)).
    cbn [length Z.b2z]. lia.
  - change (minus ?m (t :: ts)) with (delete t (minus m ts)).
    apply revoke_op_err in E as [->| ->]; [done|]. by rewrite minus_delete, delete_delete_eq.
Qed.

(** [zip ts ss] as a map, over what was there. *)
Definition bound_to (ts : list Z) (ss : list shim) (m : gmap Z shim) : gmap Z shim := list_to_map (zip ts ss) ∪ m.

Lemma bind_each_exact ss0 ss added rt0 rt : length added = length ss0 -> NoDup added ->
  Forall (fun t => exposed rt0 !! t = None) added -> exposed rt = bound_to added ss0 (exposed rt0) ->
  match bind_each ss added rt with
  | (Err _, rt') => revocable -> exposed rt' = exposed rt0
  | (Ok ts, rt') => length ts = length (ss0 ++ ss) /\ NoDup ts /\ Forall (fun t => exposed rt0 !! t = None) ts /\
      exposed rt' = bound_to ts (ss0 ++ ss) (exposed rt0)
  end.
Proof.
  revert ss0 added rt. induction ss as [|s ss IH]; intros ss0 added rt Hl Hn Hf He; cbn.
  { rewrite app_nil_r. done. }
  assert (Hdom : forall t, is_Some (exposed rt !! t) <-> t ∈ added \/ is_Some (exposed rt0 !! t)).
  { intros t. rewrite He. unfold bound_to. rewrite lookup_union_is_Some, <- elem_of_dom, dom_list_to_map_L.
    rewrite elem_of_list_to_set, fst_zip by lia. done. }
  destruct (bind_function s rt) as [[t|e] rt1] eqn:E.
  - apply bind_function_ok in E as [Ht E1]. assert (Hta : t ∉ added) by (intros Hin; destruct (Hdom t) as [_ Hd]; destruct Hd; [by left|congruence]).
    assert (Ht0 : exposed rt0 !! t = None) by (apply eq_None_not_Some; intros Hs; destruct (Hdom t) as [_ Hd]; destruct Hd; [by right|congruence]).
    specialize (IH (ss0 ++ [s]) (added ++ [t]) rt1). rewrite <- app_assoc in IH. apply IH.
    + rewrite !length_app. cbn. lia.
    + apply NoDup_app. split_and!; [done| |apply NoDup_singleton]. intros x Hx ->%list_elem_of_singleton. done.
    + apply Forall_app. by split; [|constructor].
    + rewrite E1, He. unfold bound_to. rewrite zip_with_app by done. cbn. rewrite list_to_map_app. cbn.
      rewrite insert_empty, <- (map_union_assoc (list_to_map _)). apply map_eq. intros t'.
      destruct (decide (t' = t)) as [->|Hne].
      * rewrite lookup_insert_eq, lookup_union_r; [by rewrite lookup_union_l', lookup_singleton_eq; [|by eexists; rewrite lookup_singleton_eq]|].
        apply not_elem_of_list_to_map. by rewrite fst_zip by lia.
      * rewrite lookup_insert_ne by done. rewrite !lookup_union. by rewrite lookup_singleton_ne, (left_id_L None _).
  - apply bind_function_err in E. pose proof (revoke_all_exposed added rt1) as Hra.
    destruct (revoke_all added rt1) as [e' rt2]. intros Hr. cbn in Hra. rewrite (Hra Hr), E, He. by apply minus_bound.
Qed.
End Laws.

Lemma check_name_ok v s : _check_name v = Ok s -> v = PStr s /\ _SAFE_NAME s = true /\ _RESERVED_NAMES s = false.
Proof.
  destruct v; try done. cbn [_check_name]. destruct (_SAFE_NAME s0) eqn:E1; [|done]. cbn [negb].
  destruct (_RESERVED_NAMES s0) eqn:E2; [done|]. by intros [= <-].
Qed.

Definition safe_tool (s : shim) : Prop := _SAFE_NAME s.1 = true /\ _RESERVED_NAMES s.1 = false.

Lemma set_tool_safe n f l : _SAFE_NAME n = true /\ _RESERVED_NAMES n = false -> Forall safe_tool l -> NoDup l.*1 ->
  Forall safe_tool (set_tool n f l) /\ NoDup (set_tool n f l).*1 /\ (forall x, x ∈ (set_tool n f l).*1 -> x = n \/ x ∈ l.*1).
Proof.
  intros Hs. induction l as [|[n' f'] l IH]; intros Hf Hn.
  { cbn [set_tool]. split_and!; [by apply Forall_singleton|apply NoDup_singleton|]. intros x ->%list_elem_of_singleton. by left. }
  apply Forall_cons in Hf as [H1 H2]. rewrite fmap_cons in Hn. apply NoDup_cons in Hn as [H3 H4].
  destruct (IH H2 H4) as (I1 & I2 & I3). cbn [set_tool]. case_bool_decide as E.
  - subst n'. split_and!; [by constructor|by rewrite fmap_cons; apply NoDup_cons|]. intros x. rewrite !fmap_cons. by right.
  - split_and!; [by constructor| |].
    + rewrite fmap_cons. apply NoDup_cons. split; [|done]. cbn. intros [?|?]%I3; [congruence|done].
    + intros x. rewrite !fmap_cons, !elem_of_cons. intros [->|Hx]; [by right; left|]. destruct (I3 _ Hx); [by left|by right; right].
Qed.

Lemma check_tools_ok items acc l : check_tools items acc = Ok l -> Forall safe_tool acc -> NoDup acc.*1 ->
  Forall safe_tool l /\ NoDup l.*1.
Proof.
  revert acc. induction items as [|[n [f|]] items IH]; intros acc E Hs Hn; cbn in E; [by simplify_eq| |].
  - apply result_bind_ok in E as (s & (_ & H1 & H2)%check_name_ok & E).
    destruct (set_tool_safe s f acc (conj H1 H2) Hs Hn) as (I1 & I2 & _). by eapply IH.
  - apply result_bind_ok in E as (s & _ & E). done.
Qed.

Lemma bridge_init_ok tools max_calls ns ex b : bridge_init tools max_calls ns ex = Ok b ->
  Forall safe_tool (_tools b) /\ NoDup (_tools b).*1 /\ _calls b = 0 /\ _tokens b = ∅ /\
  (forall m, _max_calls b = Some m -> max_calls = PInt m /\ 0 <= m).
Proof.
  destruct tools as [items|]; [|done]. cbn [bridge_init]. intros E.
  apply result_bind_ok in E as (silent & _ & E). apply result_bind_ok in E as (m & Em & E).
  apply result_bind_ok in E as (n & _ & E). apply result_bind_ok in E as (l & El & [= <-]). cbn.
  destruct (check_tools_ok _ _ _ El) as [H1 H2]; [constructor..|]. split_and!; try done.
  intros k ->. destruct max_calls; try done. destruct (z <? 0) eqn:Ez; simplify_eq. bool_prop. split; [done|lia].
Qed.

Definition refusal (b : ToolBridge) : call_result := if _silent b then Null else BudgetExhausted.

Lemma call_all_spec ss b m : _max_calls b = Some m -> 0 <= _calls b <= m ->
  let '(rs, b') := call_all ss b in
  let room := Z.to_nat (m - _calls b) in
  rs = ((fun s => Invoked s.2) <$> take room ss) ++ replicate (length ss - room) (refusal b) /\
  _max_calls b' = Some m /\ _calls b' = Z.min m (_calls b + Z.of_nat (length ss)).
Proof.
  revert b. induction ss as [|s ss IH]; intros b Hm Hc; cbn [call_all].
  { rewrite take_nil. cbn. split_and!; [done|done|lia]. }
  unfold call_shim, _spend. rewrite Hm. destruct (m <=? _calls b) eqn:E; bool_prop.
  - specialize (IH b Hm Hc). destruct (call_all ss b) as [rs b']. cbn zeta in *. destruct IH as (-> & I2 & I3).
    replace (Z.to_nat (m - _calls b)) with 0%nat by lia. rewrite !take_0, !Nat.sub_0_r. cbn [fmap list_fmap app length replicate].
    split_and!; [|done|lia]. unfold refusal. by destruct (_silent b).
  - set (b1 := Bridge _ _ _ _ _ _). specialize (IH b1 eq_refl ltac:(cbn; lia)). destruct (call_all ss b1) as [rs b'].
    cbn zeta in *. destruct IH as (-> & I2 & I3). change (_calls b1) with (_calls b + 1) in *.
    replace (Z.to_nat (m - _calls b)) with (S (Z.to_nat (m - (_calls b + 1)))) by lia.
    cbn [take fmap list_fmap app length Nat.sub]. split_and!; [done|done|lia].
Qed.

(** The budget is load-bearing: through a bridge built with [max_calls=m], of any
    sequence of guest calls exactly the first [m] reach a Python callable and every later
    one is refused (null or [ToolBudgetError], as configured), the counters agree, and every
    name the bridge exposes is a safe identifier that shadows nothing. *)
Theorem tool_budget_exact tools m ns ex b ss :
  bridge_init tools (PInt m) ns ex = Ok b ->
  Forall safe_tool (_tools b) /\ NoDup (_tools b).*1 /\
  let '(rs, b') := call_all ss b in
  rs = ((fun s => Invoked s.2) <$> take (Z.to_nat m) ss) ++ replicate (length ss - Z.to_nat m) (refusal b) /\
  _calls b' = Z.min m (Z.of_nat (length ss)) /\
  calls_remaining b' = Some (Z.max 0 (m - Z.of_nat (length ss))).
Proof.
  intros E. destruct (bridge_init_ok _ _ _ _ _ E) as (H1 & H2 & H3 & _ & H5). split_and!; [done|done|].
  assert (Hm : _max_calls b = Some m /\ 0 <= m).
  { destruct tools as [items|]; [|done]. cbn [bridge_init] in E. apply result_bind_ok in E as (? & _ & E).
    apply result_bind_ok in E as (mc & Em & E). apply result_bind_ok in E as (? & _ & E). apply result_bind_ok in E as (? & _ & [= <-]).
    cbn. destruct (m <? 0) eqn:Ez; simplify_eq. bool_prop. done. }
  destruct Hm as [Hm H0]. pose proof (call_all_spec ss b m Hm ltac:(lia)) as Hs. destruct (call_all ss b) as [rs b'].
  cbn zeta in Hs. rewrite H3, Z.sub_0_r in Hs. destruct Hs as (-> & Hm' & Hc). split_and!; [done|lia|].
  unfold calls_remaining. rewrite Hm'. cbn. f_equal. lia.
Qed.

Lemma tool_budget_exact_witness :
  let tools := Some [(PStr (u "add"), Some 1); (PStr (u "get"), Some 2)] in
  match bridge_init tools (PInt 2) PNone (PStr (u "silent")) with
  | Ok b => (call_all [(u "add", 1); (u "get", 2); (u "add", 1)] b).1 = [Invoked 1; Invoked 2; Null] /\ NoDup (_tools b).*1
  | Err _ => False
  end.
Proof.
  intros tools. destruct (bridge_init tools (PInt 2) PNone (PStr (u "silent"))) as [b|] eqn:E; [|vm_compute in E; discriminate].
  pose proof (tool_budget_exact tools 2 PNone (PStr (u "silent")) b [(u "add", 1); (u "get", 2); (u "add", 1)] E) as (_ & H & _).
  split; [|exact H]. vm_compute in E. injection E as <-. vm_compute. reflexivity.
Defined.

(** Attaching is all or nothing and detaching takes everything back: a successful
    [attach] adds exactly one new token per tool, leading to its budgeted shim; a failed one
    leaves the bridge as it was and, unless a revocation raised during the clean-up of a
    bridge without a namespace, the guest with exactly the capabilities it had; [detach]
    after an attach revokes all of them and nothing else, and when a revocation raises, every
    capability the guest still has of this bridge is on the list a second [detach] works off. *)
Theorem attach_detach_exact {Rt : Type} `{OpLaws Rt} (r : Z) (rt : Rt) (b : ToolBridge) :
  _tokens b !! r = None ->
  let '(res, rt1, b1) := attach r rt b in
  match res with
  | Err _ => b1 = b /\ (is_Some (_namespace b) \/ revocable (Rt := Rt) -> exposed rt1 = exposed rt)
  | Ok _ => exists ts, length ts = length (_tools b) /\ NoDup ts /\ Forall (fun t => exposed rt !! t = None) ts /\
      exposed rt1 = bound_to ts (_tools b) (exposed rt) /\
      match detach r rt1 b1 with
      | (Ok n, rt2, b2) => n = Z.of_nat (length (_tools b)) /\ exposed rt2 = exposed rt /\ b2 = b
      | (Err _, rt2, b2) => minus (exposed rt2) (default [] (_tokens b2 !! r)) = exposed rt
      end
  end.
Proof.
  intros Ht. unfold attach.
  assert (Hb : match (match _namespace b with None => bind_each (_tools b) [] rt | Some ns => bind_object ns (_tools b) rt end) with
    | (Err _, rt') => is_Some (_namespace b) \/ revocable (Rt := Rt) -> exposed rt' = exposed rt
    | (Ok ts, rt') => length ts = length (_tools b) /\ NoDup ts /\ Forall (fun t => exposed rt !! t = None) ts /\
        exposed rt' = bound_to ts (_tools b) (exposed rt) end).
  { destruct (_namespace b) as [ns|].
    - destruct (bind_object ns (_tools b) rt) as [[ts|e] rt'] eqn:E; [by apply bind_object_ok in E|by apply bind_object_err in E].
    - pose proof (bind_each_exact [] (_tools b) [] rt rt) as Hx. destruct (bind_each _ _ _) as [[ts|e] rt'];
        [|intros [[? [=]]|Hr]; revert Hr]; (apply Hx; try done; [constructor|]; unfold bound_to; cbn; by rewrite (left_id_L ∅ _)). }
  destruct (match _namespace b with None => _ | Some ns => _ end) as [[ts|e] rt1]; [|done].
  destruct Hb as (B1 & B2 & B3 & B4). exists ts. split_and!; try done. unfold detach, add_tokens. cbn [_tokens].
  rewrite lookup_insert_eq, Ht. cbn [default from_option app id].
  pose proof (revoke_back_exposed (reverse ts) 0 rt1 ltac:(by rewrite reverse_Permutation)) as E.
  destruct (revoke_back (reverse ts) 0 rt1) as [[[n|e] rest] rt2].
  - destruct E as [E1 E2]. rewrite length_reverse, B1 in E2. split_and!.
    + apply E2. rewrite Forall_forall. intros t Hin. rewrite B4. unfold bound_to. apply lookup_union_is_Some. left.
      rewrite <- elem_of_dom, dom_list_to_map_L, elem_of_list_to_set, fst_zip by lia. by rewrite elem_of_reverse in Hin.
    + rewrite E1, B4, minus_reverse. by apply minus_bound.
    + destruct b as [tl n1 mc si ca tk]. unfold with_tokens. cbn in *. f_equal. by apply delete_insert_id.
  - unfold with_tokens. cbn [_tokens]. rewrite lookup_insert_eq. cbn [default from_option id]. rewrite minus_reverse, E, B4, minus_reverse.
    by apply minus_bound.
Qed.

(** ** A runtime that satisfies the laws *)

(** The live shims; a new token is one that is not in use, and the name [bad] is refused. *)
#[local] Instance table_registry : OpRegistry (gmap Z shim) := {
  bind_function s m :=
    if bool_decide (s.1 = u "bad") then (Err (RuntimeError "Op registration failed"), m)
    else let t := fresh (dom m) in (Ok t, <[t := s]> m);
  bind_object _ ss m := let ts := fresh_list (length ss) (dom m) in (Ok ts, list_to_map (zip ts ss) ∪ m);
  revoke_op t m := (Ok (bool_decide (is_Some (m !! t))), delete t m);
  exposed m := m }.

#[local] Instance table_laws : OpLaws (gmap Z shim).
Proof.
  split; cbn.
  - intros s m t m'. case_bool_decide; intros [= <- <-]. split; [|done]. apply not_elem_of_dom. apply is_fresh.
  - intros s m e m'. case_bool_decide; by intros [= <- <-].
  - intros ns ss m ts m' [= <- <-]. split_and!; [apply length_fresh_list|apply NoDup_fresh_list| |done].
    apply Forall_forall. intros t Ht. apply not_elem_of_dom. by eapply fresh_list_is_fresh.
  - done.
  - by intros t m b m' [= <- <-].
  - done.
Qed.

Lemma attach_detach_exact_witness :
  let b := Bridge [(u "add", 1); (u "bad", 2)] None (Some 3) false 0 ∅ in
  let '(res, rt1, b1) := attach 7 (∅ : gmap Z shim) b in
  is_ok res = false /\ b1 = b /\ exposed rt1 = ∅.
Proof.
  intros b. pose proof (attach_detach_exact (Rt := gmap Z shim) 7 ∅ b eq_refl) as H.
  assert (Hr : is_ok (attach 7 (∅ : gmap Z shim) b).1.1 = false) by (vm_compute; reflexivity).
  destruct (attach 7 (∅ : gmap Z shim) b) as [[[u0|e] rt1] b1]; cbn in Hr; [discriminate|].
  destruct H as [H1 H2]. split; [reflexivity|]. split; [exact H1|]. apply H2. right. intros t rt. reflexivity.
Defined.
