(* ===== verification/Feed.v ===== *)
(** * Preparing a feed ([python/pydeno/_front.py], [_top_level_tokens] to [_completion])

    A feed's last statement becomes its result when it is an expression.  A scanner finds the
    tokens outside any bracket; where it does not fully understand the code, the feed runs
    unchanged.  Text is a list of code points; [\d] and [\w] of Python's [re], which know all of
    Unicode, are the interface [WordChars]. *)

From S2P Require Import Prelude Utf8 PyVal PyStr.

Class WordChars := {
  re_digit : Z -> bool;
  re_word : Z -> bool;
  re_digit_ascii : forall c, 0 <= c < 128 -> re_digit c = is_digit c;
  re_word_ascii : forall c, 0 <= c < 128 -> re_word c = is_alpha c || is_digit c || (c =? chr "_")
}.

Inductive kind := KNl | KWs | KLc | KBc | KStr | KTpl | KNum | KId | KP | KRegex.
#[export] Instance kind_eq_dec : EqDecision kind.
Proof. solve_decision. Defined.

(** [nl]: a line break separates it from the top-level token before it. *)
Record _Tok := Tok { t_kind : kind; text : list Z; t_start : nat; t_end : nat; t_nl : bool }.

Definition one_of (words : list string) (s : list Z) : bool := existsb (fun w => bool_decide (s = u w)) words.

Definition _PUNCTUATORS : list (list Z) := u <$> [
  ">>>="; "..."; "==="; "!=="; "**="; "<<="; ">>="; ">>>"; "&&="; "||="; "??="; "=>"; "=="; "!="; "<="; ">="; "&&"; "||"; "??"; "?.";
  "++"; "--"; "+="; "-="; "*="; "/="; "%="; "&="; "|="; "^="; "**"; "<<"; ">>"; "{"; "}"; "("; ")"; "["; "]"; ";"; ","; "<"; ">"; "+";
  "-"; "*"; "/"; "%"; "&"; "|"; "^"; "!"; "~"; "?"; ":"; "="; "."; "@"]%string.
Definition _BEFORE_REGEX_WORDS : list string :=
  ["return"; "typeof"; "instanceof"; "in"; "of"; "new"; "delete"; "void"; "throw"; "case"; "do"; "else"; "yield"; "await"]%string.
Definition _CONTINUING_WORDS : list string :=
  ["typeof"; "new"; "await"; "void"; "delete"; "in"; "instanceof"; "of"; "extends"; "yield"; "case"; "else"; "do"]%string.
Definition _CONTINUATION_WORDS : list string := ["in"; "instanceof"; "else"; "catch"; "finally"]%string.
Definition _STATEMENT_PUNCTUATORS : list string := ["{"; "!"; "~"; "++"; "--"; ";"]%string.
Definition _CONTROL_WORDS : list string := ["if"; "for"; "while"; "with"]%string.
Definition _ASSIGNMENTS : list string :=
  ["="; "+="; "-="; "*="; "/="; "%="; "**="; "<<="; ">>="; ">>>="; "&="; "|="; "^="; "&&="; "||="; "??="]%string.
Definition _DECLARATIONS : list string := ["var"; "let"; "const"; "function"; "class"; "async"]%string.
Definition _NOT_EXPRESSION : list string :=
  ["var"; "let"; "const"; "function"; "class"; "if"; "for"; "while"; "do"; "switch"; "try"; "throw"; "return"; "break"; "continue";
   "export"; "debugger"; "with"; "else"; "case"; "default"; "catch"; "finally"; "yield"; "enum"]%string.
Definition _EXPRESSION_PUNCTUATORS : list string := ["("; "["; "!"; "~"; "+"; "-"; "++"; "--"]%string.
Definition closers : list string := [")"; "]"; "}"; "++"; "--"]%string.

(** ** The regular expressions: the length of the match at the head of the text *)

Definition line_break (c : Z) : bool := (c =? 10) || (c =? 13) || (c =? 0x2028) || (c =? 0x2029).
Definition blank (c : Z) : bool := existsb (Z.eqb c) [32; 9; 11; 12; 0xFEFF; 0xA0].
Definition eol (c : Z) : bool := (c =? 10) || (c =? 13).

Definition run (p : Z -> bool) (s : list Z) : nat := length (span p s).1.

(** [.*?\*/] *)
Fixpoint comment_end (s : list Z) : option nat :=
  match s with
  | [] => None
  | c :: s' => if (c =? chr "*") && starts_with (u "/") s' then Some 2%nat else S <$> comment_end s'
  end.

(** A string's characters up to and with its closing quote. *)
Fixpoint string_end (q : Z) (s : list Z) : option nat :=
  match s with
  | [] => None
  | c :: s' =>
      if c =? q then Some 1%nat
      else if c =? 92 then match s' with [] => None | _ :: s'' => (fun n => S (S n)) <$> string_end q s'' end
      else if eol c then None
      else S <$> string_end q s'
  end.

(** A regular expression's body up to and with its closing slash. *)
Fixpoint regex_end (in_class : bool) (s : list Z) : option nat :=
  match s with
  | [] => None
  | c :: s' =>
      if eol c then None
      else if c =? 92 then
        match s' with [] => None | d :: s'' => if eol d then None else (fun n => S (S n)) <$> regex_end in_class s'' end
      else if in_class then S <$> regex_end (negb (c =? chr "]")) s'
      else if c =? chr "/" then Some 1%nat
      else S <$> regex_end (c =? chr "[") s'
  end.

(** [_REGEX.match], from the opening slash. *)
Definition _REGEX (s : list Z) : option nat :=
  match s with
  | [] => None
  | _ :: s' =>
      match regex_end false s' with
      | Some (S (S n)) => let n := S (S n) in Some (1 + n + run is_alpha (drop n s'))%nat
      | _ => None
      end
  end.

(** [_TEMPLATE.match]: up to the closing backtick, or up to [${] ([true]). *)
Fixpoint _TEMPLATE (s : list Z) : option (nat * bool) :=
  match s with
  | [] => None
  | c :: s' =>
      if c =? 96 then Some (1%nat, false)
      else if c =? 92 then match s' with [] => None | _ :: s'' => (fun '(n, b) => (S (S n), b)) <$> _TEMPLATE s'' end
      else if (c =? chr "$") && starts_with (u "{") s' then Some (2%nat, true)
      else (fun '(n, b) => (S n, b)) <$> _TEMPLATE s'
  end.

Definition n_suffix (s : list Z) : nat := if starts_with (u "n") s then 1%nat else 0%nat.

Section Scan.
Context `{WordChars}.

Definition digits_ (c : Z) : bool := re_digit c || (c =? chr "_").

(** The optional exponent. *)
Definition exponent (s : list Z) : nat :=
  match s with
  | c :: s' =>
      if (c =? chr "e") || (c =? chr "E") then
        let sign := match s' with d :: _ => if (d =? chr "+") || (d =? chr "-") then 1%nat else 0%nat | [] => 0%nat end in
        match drop sign s' with
        | d :: s'' => if re_digit d then (2 + sign + run digits_ s'')%nat else 0%nat
        | [] => 0%nat
        end
      else 0%nat
  | [] => 0%nat
  end.

Definition radix_number (s : list Z) : option nat :=
  match s with
  | z :: x :: s' =>
      if (z =? chr "0") && mem_chars (u "xXoObB") x then
        match run (fun c => is_hex c || (c =? chr "_")) s' with
        | O => None
        | S k => Some (3 + k + n_suffix (drop (S k) s'))%nat
        end
      else None
  | _ => None
  end.

Definition mantissa (s : list Z) : option nat :=
  match s with
  | c :: s' =>
      if re_digit c then
        let n := S (run digits_ s') in
        Some (match drop n s with d :: s'' => if d =? chr "." then (S n + run digits_ s'')%nat else n | [] => n end)
      else if c =? chr "." then
        match s' with d :: s'' => if re_digit d then Some (2 + run digits_ s'')%nat else None | [] => None end
      else None
  | [] => None
  end.

Definition number (s : list Z) : option nat :=
  match radix_number s with
  | Some n => Some n
  | None =>
      n ← mantissa s;
      let n := (n + exponent (drop n s))%nat in Some (n + n_suffix (drop n s))%nat
  end.

Definition high (c : Z) : bool := (0x80 <=? c) && (c <=? 0xFFFF).
Definition id_first (c : Z) : bool := is_alpha c || (c =? chr "_") || (c =? chr "$") || high c.
Definition id_rest (c : Z) : bool := re_word c || (c =? chr "$") || high c.

Definition identifier (s : list Z) : option nat :=
  let k := if starts_with (u "#") s then 1%nat else 0%nat in
  match drop k s with
  | c :: s' => if id_first c then Some (k + 1 + run id_rest s')%nat else None
  | [] => None
  end.

Definition punctuator (s : list Z) : option nat :=
  match list_find (fun p => starts_with p s = true) _PUNCTUATORS with Some (_, p) => Some (length p) | None => None end.

(** [_TOKEN.match]: the kind and the length. *)
Definition _TOKEN (s : list Z) : option (kind * nat) :=
  match s with
  | [] => None
  | c :: s' =>
      if line_break c then Some (KNl, 1%nat)
      else if blank c then Some (KWs, run blank s)
      else if starts_with (u "//") s then Some (KLc, 2 + run (fun c => negb (line_break c)) (drop 2 s))%nat
      else
        match (if starts_with (u "/*") s then comment_end (drop 2 s) else None) with
        | Some n => Some (KBc, 2 + n)%nat
        | None =>
            match (if (c =? 34) || (c =? 39) then string_end c s' else None) with
            | Some n => Some (KStr, S n)
            | None =>
                if c =? 96 then Some (KTpl, 1%nat)
                else
                  match number s with
                  | Some n => Some (KNum, n)
                  | None =>
                      match identifier s with
                      | Some n => Some (KId, n)
                      | None => pair KP <$> punctuator s
                      end
                  end
            end
        end
  end.

(** ** The scanner *)

(** [toks]: the top-level tokens so far, the last first; [templates]: each open [${], with the
    depth outside it, where its template began and that template's [nl]; [prev]: the last
    significant token, at any depth. *)
Record scan := Scan {
  toks : list _Tok; depth : Z; templates : list (Z * nat * bool); prev : option (kind * list Z); nl : bool
}.

Definition is_p (words : list string) (k : kind) (t : list Z) : bool := bool_decide (k = KP) && one_of words t.

Definition regex_here (p : option (kind * list Z)) : bool :=
  match p with
  | None => true
  | Some (KP, t) => negb (one_of closers t)
  | Some (KId, t) => one_of _BEFORE_REGEX_WORDS t
  | _ => false
  end.

Definition emit (b : bool) (t : _Tok) (sc : scan) : scan :=
  if b then Scan (t :: sc.(toks)) sc.(depth) sc.(templates) sc.(prev) false else sc.
Definition with_prev (p : kind * list Z) (sc : scan) : scan := Scan sc.(toks) sc.(depth) sc.(templates) (Some p) sc.(nl).
Definition with_depth (d : Z) (sc : scan) : scan := Scan sc.(toks) d sc.(templates) sc.(prev) sc.(nl).
Definition with_nl (b : bool) (sc : scan) : scan := Scan sc.(toks) sc.(depth) sc.(templates) sc.(prev) b.

(** A template literal's text part, from [end_]. *)
Definition template_part (code : list Z) (outer : Z) (start : nat) (start_nl : bool) (end_ : nat) (sc : scan) : option (scan * nat) :=
  match _TEMPLATE (drop end_ code) with
  | None => None
  | Some (n, opens) =>
      let end_ := (end_ + n)%nat in
      if opens
      then Some (Scan sc.(toks) (outer + 1) ((outer, start, start_nl) :: sc.(templates)) (Some (KP, u "${")) sc.(nl), end_)
      else Some (with_prev (KTpl, []) (emit (outer =? 0) (Tok KTpl (take (end_ - start) (drop start code)) start end_ start_nl) sc), end_)
  end.

Definition bracket_or_token (k : kind) (t : list Z) (pos end_ : nat) (sc : scan) : option scan :=
  let top := sc.(depth) =? 0 in
  let done :=
    if is_p ["("; "["; "{"]%string k t then
      Some (with_depth (sc.(depth) + 1) (emit top (Tok k t pos end_ sc.(nl)) sc))
    else if is_p [")"; "]"; "}"]%string k t then
      if sc.(depth) - 1 <? 0 then None
      else Some (emit (sc.(depth) - 1 =? 0) (Tok k t pos end_ false) (with_depth (sc.(depth) - 1) sc))
    else Some (emit top (Tok k t pos end_ sc.(nl)) sc) in
  with_prev (k, t) <$> done.

(** One token from [pos]: the state after it and where it ends. *)
Definition scan_step (code : list Z) (pos : nat) (sc : scan) : option (scan * nat) :=
  let s := drop pos code in
  if starts_with (u "/") s && regex_here sc.(prev) && negb (starts_with (u "//") s || starts_with (u "/*") s) then
    match _REGEX s with
    | None => None
    | Some n => Some (with_prev (KRegex, []) (emit (sc.(depth) =? 0) (Tok KRegex (take n s) pos (pos + n) sc.(nl)) sc), (pos + n)%nat)
    end
  else
    match _TOKEN s with
    | None => None
    | Some (k, n) =>
        let t := take n s in
        let end_ := (pos + n)%nat in
        match k with
        | KNl => Some (with_nl true sc, end_)
        | KBc => Some (with_nl (sc.(nl) || existsb line_break t) sc, end_)
        | KWs | KLc => Some (sc, end_)
        | KTpl => template_part code sc.(depth) pos sc.(nl) end_ sc
        | _ =>
            match sc.(templates) with
            | (outer, start, start_nl) :: rest =>
                if is_p ["}"]%string k t && (outer =? sc.(depth) - 1)
                then template_part code outer start start_nl end_ (Scan sc.(toks) outer rest sc.(prev) sc.(nl))
                else (fun sc => (sc, end_)) <$> bracket_or_token k t pos end_ sc
            | [] => (fun sc => (sc, end_)) <$> bracket_or_token k t pos end_ sc
            end
        end
    end.

Fixpoint scan_loop (fuel : nat) (code : list Z) (pos : nat) (sc : scan) : option scan :=
  if (length code <=? pos)%nat then Some sc
  else
    match fuel with
    | O => None
    | S fuel => match scan_step code pos sc with None => None | Some (sc, pos) => scan_loop fuel code pos sc end
    end.

(** Where a [#!] line ends. *)
Definition first_pos (code : list Z) : nat := if starts_with (u "#!") code then run (fun c => negb (c =? 10)) code else 0%nat.

Definition _top_level_tokens (code : list Z) : option (list _Tok) :=
  match scan_loop (length code) code (first_pos code) (Scan [] 0 [] None false) with
  | Some sc => if negb (sc.(depth) =? 0) || negb (bool_decide (sc.(templates) = [])) then None else Some (reverse sc.(toks))
  | None => None
  end.

(** ** The last statement *)

Definition tok_is (k : kind) (words : list string) (t : _Tok) : bool := bool_decide (t.(t_kind) = k) && one_of words t.(text).

Definition _continues (before after : _Tok) : bool :=
  if bool_decide (before.(t_kind) = KP) && negb (one_of closers before.(text)) then true
  else if tok_is KId _CONTINUING_WORDS before then true
  else if bool_decide (after.(t_kind) = KP) then negb (one_of _STATEMENT_PUNCTUATORS after.(text))
  else if bool_decide (after.(t_kind) = KTpl) then true
  else tok_is KId _CONTINUATION_WORDS after.

Definition _is_expression (ts : list _Tok) (start : nat) : bool :=
  if existsb (tok_is KP _ASSIGNMENTS) (drop start ts) then false
  else
    match drop start ts with
    | [] => false
    | first :: rest =>
        let nxt := text <$> head rest in
        let nxt_in ws := match nxt with Some t => one_of ws t | None => false end in
        match first.(t_kind) with
        | KId =>
            if one_of _NOT_EXPRESSION first.(text) || starts_with (u "#") first.(text) then false
            else if one_of ["import"]%string first.(text) && negb (nxt_in ["("; "."]%string) then false
            else if one_of ["async"]%string first.(text) && nxt_in ["function"]%string then false
            else negb (nxt_in [":"]%string)
        | KP => one_of _EXPRESSION_PUNCTUATORS first.(text)
        | _ => true
        end
    end.

(** Trailing [;] tokens. *)
Fixpoint drop_semis (rev_toks : list _Tok) : list _Tok :=
  match rev_toks with
  | t :: ts => if tok_is KP [";"]%string t then drop_semis ts else rev_toks
  | [] => []
  end.

(** A control head just before token [i]: its body is no statement of its own. *)
Definition control_before (ts : list _Tok) (i : nat) (before : _Tok) : bool :=
  tok_is KP [")"]%string before && (3 <=? i)%nat &&
  match ts !! (i - 3)%nat with
  | Some word =>
      bool_decide (word.(t_kind) = KId) &&
      (one_of _CONTROL_WORDS word.(text) ||
       (one_of ["await"]%string word.(text) && (4 <=? i)%nat &&
        match ts !! (i - 4)%nat with Some t => one_of ["for"]%string t.(text) | None => false end))
  | None => false
  end.

(** The loop over adjacent tokens: where the last statement starts, and the declarations to be
    moved to a line of their own. *)
Fixpoint statements (ts : list _Tok) (i : nat) (pairs : list (_Tok * _Tok)) (start : nat) (breaks : list nat) : nat * list nat :=
  match pairs with
  | [] => (start, breaks)
  | (before, after) :: pairs =>
      if tok_is KP [";"]%string before then
        statements ts (S i) pairs i
          (if negb after.(t_nl) && tok_is KId _DECLARATIONS after then breaks ++ [after.(t_start)] else breaks)
      else if (after.(t_nl) || tok_is KP ["}"]%string before) && negb (_continues before after) then
        statements ts (S i) pairs (if control_before ts i before then start else i) breaks
      else statements ts (S i) pairs start breaks
  end.

(** [sorted(inserts)]: by position, then text. *)
Fixpoint text_lt (a b : list Z) : bool :=
  match a, b with
  | _, [] => false
  | [], _ :: _ => true
  | x :: a', y :: b' => (x <? y) || ((x =? y) && text_lt a' b')
  end.
Definition insert_lt (a b : nat * list Z) : bool := (a.1 <? b.1)%nat || ((a.1 =? b.1)%nat && text_lt a.2 b.2).
Fixpoint sorted_insert (x : nat * list Z) (l : list (nat * list Z)) : list (nat * list Z) :=
  match l with [] => [x] | y :: l' => if insert_lt y x then y :: sorted_insert x l' else x :: l end.
Definition sorted_inserts (l : list (nat * list Z)) : list (nat * list Z) := foldr sorted_insert [] l.

Fixpoint splice (code : list Z) (last : nat) (inserts : list (nat * list Z)) : list Z :=
  match inserts with
  | [] => drop last code
  | (pos, t) :: inserts => take (pos - last) (drop last code) ++ t ++ splice code pos inserts
  end.

Definition return_open : list Z := u "return (".
Definition return_close : list Z := u ");".

Definition _completion (code : list Z) : list Z :=
  match _top_level_tokens code with
  | None => code
  | Some ts =>
      let ts := reverse (drop_semis (reverse ts)) in
      match ts, reverse ts with
      | _ :: rest, final :: _ =>
          let '(start, breaks) := statements ts 1 (zip ts rest) 0 [] in
          let inserts := (fun pos => (pos, [10])) <$> breaks in
          let inserts :=
            if _is_expression ts start
            then inserts ++ [(default 0%nat (t_start <$> ts !! start), return_open); (final.(t_end), return_close)]
            else inserts in
          match inserts with [] => code | _ => splice code 0 (sorted_inserts inserts) end
      | _, _ => code
      end
  end.
End Scan.
