(* ===== verification/FeedProps.v ===== *)
(** * What the rewriting of a feed keeps

    The scanner ends on every text, its tokens are pieces of the code, and the rewritten feed is
    the code with line breaks and one [return (...);] put in at the edges of top-level tokens. *)

From S2P Require Import Prelude Utf8 PyVal PyStr Feed.

Section Lengths.
Context `{WordChars}.

Lemma run_le p s : (run p s <= length s)%nat.
Proof. unfold run. rewrite <- (span_app p s) at 2. rewrite length_app. lia. Qed.

Lemma comment_end_le s n : comment_end s = Some n -> (1 <= n <= length s)%nat.
Proof.
  revert n. induction s as [|c s IH]; intros n; cbn [comment_end length]; [done|]. destruct (_ && _) eqn:E.
  - intros [= <-]. apply andb_true_iff in E as [_ E]. destruct s; [done|]. cbn [length]. lia.
  - destruct (comment_end s) as [k|] eqn:E'; [|done]. intros [= <-]. specialize (IH k eq_refl). lia.
Qed.

Lemma two_step {A} (P : list A -> Prop) : P [] -> (forall x, P [x]) -> (forall x y s, P s -> P (y :: s) -> P (x :: y :: s)) -> forall s, P s.
Proof.
  intros H0 H1 H2 s. enough (P s /\ (forall x, P (x :: s))) as [? _] by done. induction s as [|y s [IH1 IH2]]; [done|].
  split; [apply IH2|]. intros x. apply H2; [done|apply IH2].
Qed.

Lemma string_end_le q s : forall n, string_end q s = Some n -> (1 <= n <= length s)%nat.
Proof.
  induction s as [|c|c d s IH1 IH2] using two_step; intros n; cbn [string_end length]; [done| |].
  - repeat case_match; try done; intros [= <-]; lia.
  - destruct (c =? q); [intros [= <-]; lia|]. destruct (c =? 92).
    + destruct (string_end q s) as [k|]; [|done]. intros [= <-]. specialize (IH1 k eq_refl). lia.
    + destruct (eol c); [done|]. cbn [string_end length] in IH2. intros E. apply fmap_Some in E as (k & E & ->). apply IH2 in E. lia.
Qed.

Lemma regex_end_le s : forall b n, regex_end b s = Some n -> (1 <= n <= length s)%nat.
Proof.
  induction s as [|c|c d s IH1 IH2] using two_step; intros b n; cbn [regex_end length]; [done| |].
  - repeat case_match; try done; intros [= <-]; lia.
  - destruct (eol c); [done|]. destruct (c =? 92).
    + destruct (eol d); [done|]. intros E. apply fmap_Some in E as (k & E & ->). apply IH1 in E. lia.
    + destruct b; [|destruct (c =? chr "/"); [intros [= <-]; lia|]]; intros E; apply fmap_Some in E as (k & E & ->);
        eapply IH2 in E; cbn [length] in E; lia.
Qed.

Lemma template_le s : forall n b, _TEMPLATE s = Some (n, b) -> (1 <= n <= length s)%nat.
Proof.
  induction s as [|c|c d s IH1 IH2] using two_step; intros n b; cbn [_TEMPLATE length]; [done| |].
  - destruct (c =? 96); [intros [= <-]; lia|]. destruct (c =? 92); [done|].
    change (starts_with (u "{") []) with false. by rewrite andb_false_r.
  - destruct (c =? 96); [intros [= <-]; lia|]. destruct (c =? 92).
    + intros E. apply fmap_Some in E as ([k b'] & E & [= -> ->]). apply IH1 in E. lia.
    + destruct (_ && _); [intros [= <-]; lia|]. intros E. apply fmap_Some in E as ([k b'] & E & [= -> ->]). apply IH2 in E. cbn [length] in E. lia.
Qed.

Lemma n_suffix_le s : (n_suffix s <= length s)%nat.
Proof. unfold n_suffix. destruct (starts_with _ s) eqn:E; [|lia]. apply starts_with_spec in E as [t ->]. rewrite length_app. change (length (u "n")) with 1%nat. lia. Qed.

Lemma exponent_le s : (exponent s <= length s)%nat.
Proof.
  unfold exponent. destruct s as [|c s]; [done|]. destruct (_ || _); [|lia].
  set (sign := match s with [] => 0%nat | d :: _ => _ end). destruct (drop sign s) as [|d s'] eqn:E; [lia|]. destruct (re_digit d); [|lia].
  pose proof (run_le digits_ s') as Hr. apply (f_equal length) in E. rewrite length_drop in E. clearbody sign. cbn [length] in *. lia.
Qed.

Lemma mantissa_le s n : mantissa s = Some n -> (1 <= n <= length s)%nat.
Proof.
  unfold mantissa. destruct s as [|c s]; [done|]. destruct (re_digit c).
  - intros [= <-]. pose proof (run_le digits_ s). destruct (drop (run digits_ s) s) as [|d s'] eqn:E; [cbn [length]; lia|].
    destruct (d =? _); [|cbn [length]; lia]. pose proof (run_le digits_ s'). apply (f_equal length) in E. rewrite length_drop in E. cbn [length] in *. lia.
  - destruct (c =? _); [|done]. destruct s as [|d s]; [done|]. destruct (re_digit d); [|done]. intros [= <-]. pose proof (run_le digits_ s). cbn [length]. lia.
Qed.

Lemma number_le s n : number s = Some n -> (1 <= n <= length s)%nat.
Proof.
  unfold number. destruct (radix_number s) as [k|] eqn:Er.
  - intros [= <-]. unfold radix_number in Er. destruct s as [|z [|x s]]; try done. destruct (_ && _); [|done].
    destruct (run _ s) as [|j] eqn:Ej; [done|]. injection Er as <-. pose proof (run_le (fun c => is_hex c || (c =? chr "_")) s) as Hl. rewrite Ej in Hl.
    pose proof (n_suffix_le (drop (S j) s)) as Hn. rewrite length_drop in Hn. cbn [length]. lia.
  - destruct (mantissa s) as [k|] eqn:Em; [|done]. apply mantissa_le in Em. intros [= <-].
    pose proof (exponent_le (drop k s)) as He. rewrite length_drop in He.
    pose proof (n_suffix_le (drop (k + exponent (drop k s)) s)) as Hn. rewrite length_drop in Hn. lia.
Qed.

Lemma identifier_le s n : identifier s = Some n -> (1 <= n <= length s)%nat.
Proof.
  unfold identifier. set (k := if starts_with _ s then 1%nat else 0%nat). destruct (drop k s) as [|c s'] eqn:E; [done|]. destruct (id_first c); [|done].
  intros [= <-]. pose proof (run_le id_rest s'). apply (f_equal length) in E. rewrite length_drop in E. cbn [length] in E. lia.
Qed.

Lemma punctuator_le s n : punctuator s = Some n -> (1 <= n <= length s)%nat.
Proof.
  unfold punctuator. destruct (list_find _ _) as [[i p]|] eqn:E; [|done]. intros [= <-].
  apply list_find_Some in E as (Hi & Hp & _). apply starts_with_spec in Hp as [t ->].
  assert (Hf : forallb (fun p => (1 <=? length p)%nat) _PUNCTUATORS = true) by (by vm_compute).
  rewrite forallb_forall in Hf. specialize (Hf p (proj1 (list_elem_of_In _ _) (list_elem_of_lookup_2 _ _ _ Hi))).
  apply Nat.leb_le in Hf. rewrite length_app. cbn [snd]. lia.
Qed.

Lemma token_le s k n : _TOKEN s = Some (k, n) -> (1 <= n <= length s)%nat.
Proof.
  unfold _TOKEN. destruct s as [|c s]; [done|]. destruct (line_break c); [intros [= <- <-]; cbn [length]; lia|].
  destruct (blank c) eqn:Eb.
  { intros [= <- <-]. split; [|apply run_le]. unfold run. cbn [span]. rewrite Eb. destruct (span blank s). cbn. lia. }
  destruct (starts_with (u "//") (c :: s)) eqn:E1.
  { intros [= <- <-]. pose proof (run_le (fun c => negb (line_break c)) (drop 2 (c :: s))) as Hr. rewrite length_drop in Hr.
    apply starts_with_spec in E1 as [t E1]. apply (f_equal length) in E1. rewrite length_app in E1. change (length (u "//")) with 2%nat in E1. cbn [drop] in Hr. lia. }
  destruct (if starts_with (u "/*") (c :: s) then _ else None) as [m|] eqn:E2.
  { destruct (starts_with (u "/*") (c :: s)) eqn:E2s in E2; [|done]. apply comment_end_le in E2. rewrite length_drop in E2. intros [= <- <-]. cbn [length] in *. lia. }
  destruct (if (c =? 34) || (c =? 39) then _ else None) as [m|] eqn:E3.
  { destruct ((c =? 34) || (c =? 39)) in E3; [|done]. apply string_end_le in E3. intros [= <- <-]. cbn [length]. lia. }
  destruct (c =? 96); [intros [= <- <-]; cbn [length]; lia|].
  destruct (number _) as [m|] eqn:E4; [intros [= <- <-]; by apply number_le|].
  destruct (identifier _) as [m|] eqn:E5; [intros [= <- <-]; by apply identifier_le|].
  destruct (punctuator _) as [m|] eqn:E6; [|done]. intros [= <- <-]. by apply punctuator_le.
Qed.

Lemma regex_le s n : _REGEX s = Some n -> (1 <= n <= length s)%nat.
Proof.
  unfold _REGEX. destruct s as [|c s]; [done|]. destruct (regex_end false s) as [[|[|k]]|] eqn:E; try done. apply regex_end_le in E.
  pose proof (run_le is_alpha (drop (S (S k)) s)) as Hr. rewrite length_drop in Hr. intros [= <-]. cbn [length]. lia.
Qed.
End Lengths.

Section Scanner.
Context `{WordChars} (code : list Z).

(** A piece of the code. *)
Definition tok_ok (t : _Tok) : Prop :=
  (t.(t_start) < t.(t_end) <= length code)%nat /\ t.(text) = take (t.(t_end) - t.(t_start)) (drop t.(t_start) code).

Record scan_ok (pos : nat) (sc : scan) : Prop := {
  so_toks : Forall tok_ok sc.(toks);
  so_templates : Forall (fun '(_, start, _) => (start < pos)%nat) sc.(templates)
}.

Lemma scan_ok_later pos pos' sc : scan_ok pos sc -> (pos <= pos')%nat -> scan_ok pos' sc.
Proof. intros [H1 H2] Hp. split; [done|]. eapply Forall_impl; [exact H2|]. intros [[? ?] ?] ?. cbn in *. lia. Qed.

Lemma emit_ok b t pos sc : scan_ok pos sc -> (b = true -> tok_ok t) -> scan_ok pos (emit b t sc).
Proof. intros [H1 H2] Ht. destruct b; [|by split]. split; [|done]. constructor; auto. Qed.

Lemma piece_ok k b pos n : (pos + n <= length code)%nat -> (1 <= n)%nat -> tok_ok (Tok k (take n (drop pos code)) pos (pos + n) b).
Proof. intros H1 H2. split; cbn; [lia|]. f_equal. lia. Qed.

Lemma template_part_ok outer start b end_ sc sc' end' : template_part code outer start b end_ sc = Some (sc', end') ->
  (start < end_)%nat -> scan_ok end_ sc -> (end_ < end' <= length code)%nat /\ scan_ok end' sc'.
Proof.
  unfold template_part. intros E Hs Hok. destruct (_TEMPLATE _) as [[n opens]|] eqn:Et; [|done]. apply template_le in Et. rewrite length_drop in Et.
  pose proof (scan_ok_later _ (end_ + n) _ Hok ltac:(lia)) as Hok'.
  destruct opens; injection E as <- <-; (split; [lia|]).
  - destruct Hok' as [H1 H2]. split; [done|]. constructor; [lia|done].
  - destruct (emit_ok (outer =? 0) (Tok KTpl (take (end_ + n - start) (drop start code)) start (end_ + n) b) _ _ Hok') as [H1 H2].
    + intros _. split; cbn; [lia|done].
    + by split.
Qed.

Lemma bracket_ok k pos n sc sc' : (1 <= n)%nat -> (pos + n <= length code)%nat -> scan_ok pos sc ->
  bracket_or_token k (take n (drop pos code)) pos (pos + n) sc = Some sc' -> scan_ok (pos + n) sc'.
Proof.
  intros Hn Hl Hok E. apply (scan_ok_later _ (pos + n)) in Hok; [|lia]. unfold bracket_or_token in E. apply fmap_Some in E as (sc1 & E & ->).
  assert (Hok1 : scan_ok (pos + n) sc1); [|by destruct Hok1].
  repeat case_match; try done; simplify_eq.
  - destruct (emit_ok (depth sc =? 0) (Tok k (take n (drop pos code)) pos (pos + n) (nl sc)) _ _ Hok) as [A B]; [intros _; by apply piece_ok|]. by split.
  - apply emit_ok; [|intros _; by apply piece_ok]. by destruct Hok.
  - apply emit_ok; [done|intros _; by apply piece_ok].
Qed.

Lemma scan_step_ok pos sc sc' pos' : scan_step code pos sc = Some (sc', pos') -> scan_ok pos sc -> (pos < pos' <= length code)%nat /\ scan_ok pos' sc'.
Proof.
  unfold scan_step. intros E Hok. destruct (_ && _).
  - destruct (_REGEX _) as [n|] eqn:Er; [|done]. injection E as <- <-. apply regex_le in Er. rewrite length_drop in Er.
    apply (scan_ok_later _ (pos + n)) in Hok; [|lia].
    destruct (emit_ok (depth sc =? 0) (Tok KRegex (take n (drop pos code)) pos (pos + n) (nl sc)) _ _ Hok) as [A B]; [intros _; apply piece_ok; lia|].
    split; [lia|]. by split.
  - destruct (_TOKEN _) as [[k n]|] eqn:Et; [|done]. apply token_le in Et. rewrite length_drop in Et.
    pose proof (scan_ok_later _ (pos + n) _ Hok ltac:(lia)) as Hok'.
    assert (Hb : forall r, (fun sc => (sc, (pos + n)%nat)) <$> bracket_or_token k (take n (drop pos code)) pos (pos + n) sc = Some r ->
      r = (sc', pos') -> (pos < pos' <= length code)%nat /\ scan_ok pos' sc').
    { intros r Er ->. apply fmap_Some in Er as (sc1 & Er & [= -> ->]). split; [lia|]. eapply bracket_ok; [| |exact Hok|exact Er]; lia. }
    assert (Ht : match templates sc with
      | (outer, start, start_nl) :: rest =>
          if is_p ["}"]%string k (take n (drop pos code)) && (outer =? depth sc - 1)
          then template_part code outer start start_nl (pos + n) (Scan (toks sc) outer rest (prev sc) (nl sc))
          else (fun sc => (sc, (pos + n)%nat)) <$> bracket_or_token k (take n (drop pos code)) pos (pos + n) sc
      | [] => (fun sc => (sc, (pos + n)%nat)) <$> bracket_or_token k (take n (drop pos code)) pos (pos + n) sc
      end = Some (sc', pos') -> (pos < pos' <= length code)%nat /\ scan_ok pos' sc').
    { destruct (templates sc) as [|[[outer start] b] rest] eqn:Es; [intros Ex; by eapply Hb|].
      destruct (_ && _); [|intros Ex; by eapply Hb]. intros Ex. destruct Hok as [H1 H2]. rewrite Es in H2.
      apply Forall_cons in H2 as [H2 H3]. apply template_part_ok in Ex as [E1 E2]; [split; [lia|done]|lia|].
      split; [done|]. eapply Forall_impl; [exact H3|]. intros [[? ?] ?] ?. cbn in *. lia. }
    destruct k; try (by apply Ht).
    + injection E as <- <-. split; [lia|]. by destruct Hok'.
    + injection E as <- <-. split; [lia|done].
    + injection E as <- <-. split; [lia|done].
    + injection E as <- <-. split; [lia|]. by destruct Hok'.
    + apply template_part_ok in E as [E1 E2]; [split; [lia|done]|lia|done].
Qed.

(** The scanner ends: a step for every character is enough. *)
Lemma scan_fuel f : forall g pos sc, (length code - pos <= f)%nat -> (length code - pos <= g)%nat -> scan_ok pos sc ->
  scan_loop f code pos sc = scan_loop g code pos sc.
Proof.
  induction f as [|f IH]; intros g pos sc Hf Hg Hok.
  - destruct g; cbn [scan_loop]; rewrite (proj2 (Nat.leb_le _ _)) by lia; done.
  - destruct g as [|g]; cbn [scan_loop].
    + rewrite (proj2 (Nat.leb_le _ _)) by lia; done.
    + destruct (_ <=? _)%nat eqn:El; [done|]. apply Nat.leb_gt in El. destruct (scan_step code pos sc) as [[sc' pos']|] eqn:Es; [|done].
      apply scan_step_ok in Es as [H1 H2]; [|done]. apply IH; [lia..|done].
Qed.

Lemma scan_loop_ok f : forall pos sc sc', scan_loop f code pos sc = Some sc' -> scan_ok pos sc -> Forall tok_ok sc'.(toks).
Proof.
  induction f as [|f IH]; intros pos sc sc' E Hok; cbn [scan_loop] in E; destruct (_ <=? _)%nat; try done; try (injection E as <-; apply Hok).
  destruct (scan_step code pos sc) as [[sc1 pos1]|] eqn:Es; [|done]. apply scan_step_ok in Es as [H1 H2]; [|done]. by eapply IH.
Qed.

Lemma scan_init_ok pos : scan_ok pos (Scan [] 0 [] None false).
Proof. by split. Qed.

Lemma tokens_ok ts : _top_level_tokens code = Some ts -> Forall tok_ok ts.
Proof.
  unfold _top_level_tokens. destruct (scan_loop _ _ _ _) as [sc|] eqn:E; [|done]. destruct (_ || _); [done|]. intros [= <-].
  apply Forall_reverse. eapply scan_loop_ok; [exact E|apply scan_init_ok].
Qed.
End Scanner.

(** ** Splicing *)

Fixpoint ascending (last : nat) (ins : list (nat * list Z)) : Prop :=
  match ins with [] => True | (p, _) :: ins => (last <= p)%nat /\ ascending p ins end.

Lemma sorted_insert_perm x l : sorted_insert x l ≡ₚ x :: l.
Proof. induction l as [|y l IH]; cbn; [done|]. destruct (insert_lt y x); [|done]. rewrite IH. by constructor. Qed.
Lemma sorted_inserts_perm l : sorted_inserts l ≡ₚ l.
Proof. induction l as [|x l IH]; cbn; [done|]. rewrite sorted_insert_perm. by constructor. Qed.

Lemma sorted_insert_ascending x l : forall m, (m <= x.1)%nat -> ascending m l -> ascending m (sorted_insert x l).
Proof.
  destruct x as [p t]. induction l as [|[q w] l IH]; intros m Hm Ha; cbn in *; [done|]. destruct Ha as [Ha1 Ha2].
  destruct (insert_lt (q, w) (p, t)) eqn:E; cbn.
  - split; [done|]. apply IH; [|done]. unfold insert_lt in E. cbn in E. apply orb_true_iff in E as [E%Nat.ltb_lt|[E%Nat.eqb_eq _]%andb_true_iff]; lia.
  - split; [done|]. split; [|done]. unfold insert_lt in E. cbn in E. apply orb_false_iff in E as [E%Nat.ltb_ge _]. lia.
Qed.
Lemma sorted_inserts_ascending l : ascending 0 (sorted_inserts l).
Proof. induction l as [|x l IH]; cbn; [done|]. apply sorted_insert_ascending; [lia|done]. Qed.

Lemma splice_sublist code ins : forall last, ascending last ins -> drop last code `sublist_of` splice code last ins.
Proof.
  induction ins as [|[p t] ins IH]; intros last Ha; cbn in *; [done|]. destruct Ha as [Hp Ha].
  rewrite <- (take_drop (p - last) (drop last code)) at 1. rewrite drop_drop. replace (last + (p - last))%nat with p by lia.
  apply sublist_app; [done|]. apply sublist_inserts_l. by apply IH.
Qed.

(** At the edge of a token. *)
Definition at_edge (ts : list _Tok) (p : nat) : Prop := exists t, t ∈ ts /\ (p = t.(t_start) \/ p = t.(t_end)).

Lemma statements_breaks ts0 ts pairs : forall i start breaks start' breaks', statements ts i pairs start breaks = (start', breaks') ->
  (forall b a, (b, a) ∈ pairs -> a ∈ ts0) -> Forall (at_edge ts0) breaks -> Forall (at_edge ts0) breaks'.
Proof.
  induction pairs as [|[b a] pairs IH]; intros i start breaks start' breaks' E Hp Hb; cbn [statements] in E; [by simplify_eq|].
  assert (Hp' : forall b a, (b, a) ∈ pairs -> a ∈ ts0) by (intros ? ? ?; eapply Hp; by right).
  repeat case_match; eapply IH; try done. apply Forall_app. split; [done|]. constructor; [|done]. exists a. split; [|by left]. eapply Hp. left.
Qed.

Lemma zip_elem {A B} (l : list A) (k : list B) a b : (a, b) ∈ zip l k -> b ∈ k.
Proof.
  revert k. induction l as [|x l IH]; intros [|y k]; cbn; try (by intros ?%elem_of_nil). rewrite elem_of_cons. intros [[= -> ->]|Hz]; [left|right; eauto].
Qed.

Lemma drop_semis_elem ts t : t ∈ drop_semis ts -> t ∈ ts.
Proof. induction ts as [|x ts IH]; cbn; [done|]. destruct (tok_is _ _ _); [|done]. intros Hx. right. auto. Qed.

Lemma fmap_const {A B} (x : B) (l : list A) : ((fun _ => x) <$> l) = replicate (length l) x.
Proof. induction l as [|y l IH]; cbn; [done|]. by f_equal. Qed.

(** Preparing a feed only adds to it: the scanner ends on any text within a step per
    character; every top-level token is a piece of the code; and the prepared feed is the code,
    character by character, with nothing but line breaks and at most one [return (] and its [);]
    put in, in order, each at an edge of a top-level token (so never inside a string, a template,
    a regular expression, a comment or a bracket). *)
Theorem completion_only_inserts `{WordChars} code :
  (forall fuel, (length code <= fuel)%nat -> scan_loop fuel code (first_pos code) (Scan [] 0 [] None false) =
     scan_loop (length code) code (first_pos code) (Scan [] 0 [] None false)) /\
  code `sublist_of` _completion code /\
  (_completion code = code \/ exists ts ins n (wrapped : bool),
     _top_level_tokens code = Some ts /\ Forall (tok_ok code) ts /\
     _completion code = splice code 0 ins /\ ascending 0 ins /\ Forall (at_edge ts) ins.*1 /\
     ins.*2 ≡ₚ replicate n [10] ++ (if wrapped then [return_open; return_close] else [])).
Proof.
  split; [intros fuel Hf; apply scan_fuel; [lia..|apply scan_init_ok]|].
  assert (Hmain : _completion code = code \/ exists ts ins n (wrapped : bool),
     _top_level_tokens code = Some ts /\ Forall (tok_ok code) ts /\
     _completion code = splice code 0 ins /\ ascending 0 ins /\ Forall (at_edge ts) ins.*1 /\
     ins.*2 ≡ₚ replicate n [10] ++ (if wrapped then [return_open; return_close] else [])).
  2:{ split; [|done]. destruct Hmain as [->|(ts & ins & n & w & _ & _ & -> & Ha & _)]; [done|]. by apply (splice_sublist code ins 0). }
  unfold _completion. destruct (_top_level_tokens code) as [ts|] eqn:Et; [|by left]. pose proof (tokens_ok code ts Et) as Hok.
  set (ts' := reverse (drop_semis (reverse ts))).
  assert (Hsub : forall t, t ∈ ts' -> t ∈ ts).
  { intros t. unfold ts'. rewrite elem_of_reverse. intros Ht%drop_semis_elem. by rewrite elem_of_reverse in Ht. }
  clearbody ts'. destruct ts' as [|t0 rest] eqn:Ets; [by left|]. rewrite <- Ets in *. destruct (reverse ts') as [|final pre] eqn:Er; [by left|].
  destruct (statements _ _ _ _ _) as [start breaks] eqn:Es.
  assert (Hbreaks : Forall (at_edge ts) breaks).
  { eapply statements_breaks; [exact Es| |done]. intros b a Hz%zip_elem. apply Hsub. rewrite Ets. by right. }
  assert (Hfinal : final ∈ ts). { apply Hsub. rewrite <- (elem_of_reverse _ ts'), Er. left. }
  set (base := (fun pos => (pos, [10])) <$> breaks).
  assert (Hb1 : base.*1 = breaks) by (unfold base; rewrite <- list_fmap_compose; apply list_fmap_id).
  assert (Hb2 : base.*2 = replicate (length breaks) [10]) by (unfold base; rewrite <- list_fmap_compose; apply fmap_const).
  assert (Hgo : forall ins (w : bool), Forall (at_edge ts) ins.*1 -> ins.*2 = replicate (length breaks) [10] ++ (if w then [return_open; return_close] else []) ->
    (match ins with [] => code | _ => splice code 0 (sorted_inserts ins) end = code \/ exists ts1 ins1 n (wrapped : bool),
       Some ts = Some ts1 /\ Forall (tok_ok code) ts1 /\
       match ins with [] => code | _ => splice code 0 (sorted_inserts ins) end = splice code 0 ins1 /\ ascending 0 ins1 /\ Forall (at_edge ts1) ins1.*1 /\
       ins1.*2 ≡ₚ replicate n [10] ++ (if wrapped then [return_open; return_close] else []))).
  { intros ins w H1 H2. destruct ins as [|x ins0] eqn:Ei; [by left|]. rewrite <- Ei in *. right.
    exists ts, (sorted_inserts ins), (length breaks), w. split_and!; [done|done|by rewrite Ei|apply sorted_inserts_ascending| |].
    - by rewrite (sorted_inserts_perm ins).
    - by rewrite (sorted_inserts_perm ins), H2. }
  destruct (_is_expression ts' start) eqn:Ee.
  - apply (Hgo _ true); rewrite fmap_app.
    + rewrite Hb1. apply Forall_app. split; [done|]. cbn. constructor; [|constructor; [exists final; auto|constructor]].
      destruct (ts' !! start) as [t|] eqn:El; cbn.
      * exists t. split; [|by left]. apply Hsub. by eapply list_elem_of_lookup_2.
      * unfold _is_expression in Ee. rewrite drop_ge in Ee by (by apply lookup_ge_None). done.
    + by rewrite Hb2.
  - apply (Hgo _ false); [by rewrite Hb1|by rewrite Hb2, app_nil_r].
Qed.
