(* ===== verification/Front.v ===== *)
(** * The front door's values ([python/pydeno/_front.py])

    What surrounds a session: resolving its limits, preparing a feed from code, inputs and
    external functions, answers in Monty's form, the errors a feed ends with, and the default
    printer. *)

From S2P Require Import Prelude Utf8 PyVal PyStr Limits Results ToolBridge Feed.
From Stdlib Require Import Floats.SpecFloat.

(** ** Limits *)

(** A limit as it was given, by what [limit_seconds] and [limit_int] read of it. *)
Record limit_value := LimitValue { as_seconds : seconds_arg; as_int : int_arg }.
Definition given (v : limit_value) : bool := match v.(as_int) with INone => false | _ => true end.

Definition _LIMIT_KEYS : list string :=
  ["max_feed_duration_secs"; "max_turn_duration_secs"; "max_memory"; "max_recursion_depth"; "max_suspensions"; "gc_interval";
   "max_total_sleep_secs"; "tool_timeout_secs"; "max_host_wait_secs"]%string.

Record _Limits := Limits_ {
  timeout : option spec_float; max_pause : option spec_float; tool_timeout : option spec_float; max_memory : option Z; max_tool_calls : Z
}.

(** A layer: not a mapping, or its items. *)
Inductive layer := NotMapping | Items (kvs : list (string * limit_value)).

Fixpoint update (k : string) (v : limit_value) (kvs : list (string * limit_value)) : list (string * limit_value) :=
  match kvs with
  | [] => [(k, v)]
  | (k', v') :: kvs' => if bool_decide (k' = k) then (k, v) :: kvs' else (k', v') :: update k v kvs'
  end.
Fixpoint get (k : string) (kvs : list (string * limit_value)) : option limit_value :=
  match kvs with [] => None | (k', v) :: kvs' => if bool_decide (k' = k) then Some v else get k kvs' end.

Definition number_value (z : Z) : limit_value := LimitValue (SReal (float_of_int z)) (IIndex z).
Definition float_value (z : Z) : limit_value := LimitValue (SReal (float_of_int z)) (IOther "float").

Definition DEFAULT_LIMITS : list (string * limit_value) :=
  [("max_feed_duration_secs", float_value 30); ("max_memory", number_value (512 * (1024 * 1024))); ("max_suspensions", number_value 1000);
   ("max_host_wait_secs", float_value 600)]%string.

Section Limits.
Context (MAX_SECONDS : spec_float).

Fixpoint merge (merged : list (string * limit_value)) (layers : list (option layer)) : result exn (list (string * limit_value)) :=
  match layers with
  | [] => Ok merged
  | None :: layers => merge merged layers
  | Some NotMapping :: _ => Err (TypeError "limits must be a PydenoLimits mapping")
  | Some (Items kvs) :: layers =>
      if forallb (fun kv => existsb (fun k => bool_decide (kv.1 = k)) _LIMIT_KEYS) kvs
      then merge (foldl (fun m kv => update kv.1 kv.2 m) merged kvs) layers
      else Err (TypeError "unknown limits")
  end.

Definition seconds_limit (k : string) (merged : list (string * limit_value)) : result exn (option spec_float) :=
  limit_seconds MAX_SECONDS (match get k merged with Some v => v.(as_seconds) | None => SNone end) false.
Definition int_limit (k : string) (minimum : Z) (merged : list (string * limit_value)) : result exn (option Z) :=
  limit_int (match get k merged with Some v => v.(as_int) | None => INone end) minimum MAX_WIRE_INT.

Definition is_given (k : string) (merged : list (string * limit_value)) : bool :=
  match get k merged with Some v => given v | None => false end.

(** [min] of the caps that are there. *)
Definition least (a b : option spec_float) : option spec_float :=
  match a, b with Some x, Some y => Some (if SFltb y x then y else x) | Some x, None => Some x | None, y => y end.

Definition _resolve_limits (layers : list (option layer)) : result exn _Limits :=
  merged ← merge DEFAULT_LIMITS layers;
  _ ← raise_if (is_given "max_recursion_depth" merged) (ValueError "not supported by pydeno");
  _ ← raise_if (is_given "gc_interval" merged) (ValueError "not supported by pydeno");
  feed ← seconds_limit "max_feed_duration_secs" merged;
  turn ← seconds_limit "max_turn_duration_secs" merged;
  suspensions ← limit_int (if is_given "max_suspensions" merged
                           then match get "max_suspensions" merged with Some v => v.(as_int) | None => INone end
                           else IIndex 1000) 0 MAX_WIRE_INT;
  _ ← seconds_limit "max_total_sleep_secs" merged;
  pause ← seconds_limit "max_host_wait_secs" merged;
  tool ← seconds_limit "tool_timeout_secs" merged;
  memory ← int_limit "max_memory" 1 merged;
  Ok (Limits_ (least feed turn) pause tool memory (default 0 suspensions)).
End Limits.

(** ** Preparing a feed *)

Definition _MAX_INPUT_DEPTH : nat := 64.
Definition _MAX_SAFE_INT : Z := 2 ^ 53 - 1.
Definition _EXTERNAL : list Z := u "__pydeno_external".
Definition _RESERVED_PREFIX : list Z := u "__pydeno".
Definition _JS_RESERVED : list string :=
  ["break"; "case"; "catch"; "class"; "const"; "continue"; "debugger"; "default"; "delete"; "do"; "else"; "enum"; "export"; "extends";
   "false"; "finally"; "for"; "function"; "if"; "import"; "in"; "instanceof"; "new"; "null"; "return"; "super"; "switch"; "this"; "throw";
   "true"; "try"; "typeof"; "var"; "void"; "while"; "with"; "yield"; "let"; "static"; "implements"; "interface"; "package"; "private";
   "protected"; "public"; "await"; "arguments"; "eval"]%string.

Definition check_name (name : pyval) : result exn (list Z) :=
  s ← ToolBridge._check_name name;
  if one_of _JS_RESERVED s || starts_with _RESERVED_PREFIX s then Err (ValueError "is reserved") else Ok s.

(** [for x in l: f(x)], stopping at the first that raises. *)
Fixpoint map_result {A B} (f : A -> result exn B) (l : list A) : result exn (list B) :=
  match l with [] => Ok [] | x :: l' => y ← f x; ys ← map_result f l'; Ok (y :: ys) end.

(** [room]: the levels left. *)
Fixpoint _plain (room : nat) (value : pyval) : result exn pyval :=
  match room with
  | O => Err (TypeError "an input is nested too deeply")
  | S room =>
      match value with
      | PNone | PBool _ | PStr _ => Ok value
      | PInt z => if _MAX_SAFE_INT <? Z.abs z then Err (TypeError "outside JavaScript's safe range") else Ok value
      | PFloat f => if negb (isfinite f) then Err (TypeError "an input float must be finite") else Ok value
      | PList l | PTuple l => PList <$> map_result (_plain room) l
      | PDict kvs =>
          PDict <$> map_result (fun '(k, v) => match k with
                                               | PStr _ => v ← _plain room v; Ok (k, v)
                                               | _ => Err (TypeError "input dict keys must be strings")
                                               end) kvs
      | _ => Err (TypeError "inputs must be plain data")
      end
  end.
Definition input_levels : nat := S _MAX_INPUT_DEPTH.

(** A value of [external_lookup]. *)
Inductive external := Callable (is_async : bool) | Value (v : pyval).

Fixpoint _check_lookup (sync : bool) (lookup : list (pyval * external)) : result exn (list (list Z)) :=
  match lookup with
  | [] => Ok []
  | (name, value) :: lookup =>
      s ← check_name name;
      match value with
      | Callable is_async =>
          if sync && is_async then Err (RuntimeError "a PydenoSession cannot await it")
          else names ← _check_lookup sync lookup; Ok (s :: names)
      | Value _ => _check_lookup sync lookup
      end
  end.

Definition _values (lookup : list (pyval * external)) : list (pyval * pyval) :=
  omap (fun '(k, e) => match e with Value v => Some (k, v) | Callable _ => None end) lookup.

(** [{**values, **inputs}] *)
Fixpoint put_input (k v : pyval) (kvs : list (pyval * pyval)) : list (pyval * pyval) :=
  match kvs with
  | [] => [(k, v)]
  | (k', v') :: kvs' =>
      match k, k' with
      | PStr a, PStr b => if bool_decide (a = b) then (k', v) :: kvs' else (k', v') :: put_input k v kvs'
      | _, _ => (k', v') :: put_input k v kvs'
      end
  end.
Definition merge_inputs (values inputs : list (pyval * pyval)) : list (pyval * pyval) :=
  foldl (fun m kv => put_input kv.1 kv.2 m) values inputs.

Record _Prepared := Prepared { source : list Z; fallback : option (list Z) }.

Section Prepare.
(** [json.dumps], of data and of a string. *)
Context `{WordChars} (json_dumps : pyval -> list Z).

Definition input_js (kv : pyval * pyval) : result exn (list Z) :=
  name ← check_name kv.1;
  v ← _plain input_levels kv.2;
  Ok (u "globalThis." ++ name ++ u "=JSON.parse(" ++ json_dumps (PStr (json_dumps v)) ++ u ");").

Definition stub_js (n : list Z) : list Z :=
  u "globalThis." ++ n ++ u "=function " ++ n ++ u "(...a){return d(" ++ json_dumps (PStr n) ++ u ",...a)};".

Definition input_named (n : list Z) (inputs : list (pyval * pyval)) : bool :=
  existsb (fun kv => match kv.1 with PStr k => bool_decide (k = n) | _ => false end) inputs.

Definition _setup (inputs : list (pyval * pyval)) (names : list (list Z)) : result exn (list Z) :=
  parts ← map_result input_js inputs;
  let stubs := filter (fun n => input_named n inputs = false) names in
  let parts :=
    match stubs with
    | [] => parts
    | _ => parts ++ [u "{const d=globalThis." ++ _EXTERNAL ++ u ";" ++ concat (stub_js <$> stubs) ++ u "}"]
    end in
  Ok (match parts with [] => [] | _ => concat parts ++ [10] end).

Definition _prepare (code : list Z) (inputs : list (pyval * pyval)) (lookup : list (pyval * external)) (names : list (list Z))
    : result exn _Prepared :=
  let inputs := match _values lookup with [] => inputs | values => merge_inputs values inputs end in
  prefix ← _setup inputs names;
  let body := _completion code in
  Ok (if bool_decide (body = code) then Prepared (prefix ++ code) None else Prepared (prefix ++ body) (Some (prefix ++ code))).
End Prepare.

(** ** The default printer *)

Definition DEFAULT_PRINT_LIMIT_BYTES : Z := 1024 * 1024.

(** [text.encode("utf-8", "replace")], as text. *)
Definition replaced (s : list Z) : list Z := (fun c => if is_surrogate c then chr "?" else c) <$> s.

(** What a feed has left, whether it was cut, and what was written. *)
Record _CappedDefaultPrint := Capped { left_ : Z; done_ : bool; wrote : list (bool * list Z) }.
Definition capped_init : _CappedDefaultPrint := Capped DEFAULT_PRINT_LIMIT_BYTES false [].

Definition _default_print (stream : bool) (t : list Z) (w : list (bool * list Z)) : list (bool * list Z) := w ++ [(stream, inert t)].

Definition capped_call (stream : bool) (t : list Z) (p : _CappedDefaultPrint) : _CappedDefaultPrint :=
  if p.(done_) then p
  else
    let size := utf8_size (replaced t) in
    if size <=? p.(left_) then Capped (p.(left_) - size) false (_default_print stream t p.(wrote))
    else
      let head := _cut_utf8 (replaced t) (Z.max 0 (p.(left_) - 1)) in
      let w := _default_print stream (head ++ match head with [] => [] | _ => if ends_with_newline head then [] else [10] end) p.(wrote) in
      Capped p.(left_) true (_default_print stream (u "[truncated]" ++ [10]) w).

(** ** What a feed ends with *)

(** The class of an exception, as [_failure] tells them apart. *)
Inductive exc_class := EPydeno | EJavaScript | ETooLarge | ETimeout | ECrashed | EOther (name : list Z).
Inductive front_error :=
| PydenoRuntimeError (name message : list Z)
| PydenoSyntaxError (name message : list Z)
| PydenoCrashedError (message : list Z)
| PydenoTimeoutError (message : list Z)
| PydenoError (message : list Z)
| ToolThreadLimitError (message : list Z)
| Plain_ (e : exn).

Definition _COMPLAINT : list Z := u "Evaluation failed: ".

Fixpoint find_sub (needle s : list Z) : option nat :=
  if starts_with needle s then Some 0%nat
  else match s with [] => None | _ :: s' => S <$> find_sub needle s' end.

Section Errors.
Context `{WordChars}.

(** The name and the rest of a message [Name: rest]. *)
Definition js_message (t : list Z) : option (list Z * list Z) :=
  let t := removeprefix (u "Uncaught ") (removeprefix _COMPLAINT t) in
  match t with
  | c :: t' =>
      if is_alpha c || (c =? chr "_") || (c =? chr "$") then
        let '(more, rest) := span (fun c => re_word c || (c =? chr "$")) t' in
        if (length more <=? 63)%nat && starts_with (u ": ") rest then Some (c :: more, drop 2 rest) else None
      else None
  | [] => None
  end.

Definition _js_parts (t : list Z) (stack : option (list Z)) : list Z * list Z * option (list Z) :=
  match js_message t with
  | Some (name, message) =>
      match find_sub (10 :: u "    at ") message, stack with
      | Some k, None =>
          if (length message <=? k + 8)%nat then (name, message, None) else (name, take k message, Some (name ++ u ": " ++ message))
      | _, _ => (name, message, stack)
      end
  | None => (u "Error", removeprefix _COMPLAINT t, None)
  end.

Definition _is_js_syntax (c : exc_class) (t : list Z) : bool :=
  match c with EJavaScript => bool_decide ((_js_parts t None).1.1 = u "SyntaxError") | _ => false end.

Definition _failure (c : exc_class) (t : list Z) (compile_time : bool) : front_error :=
  match c with
  | EPydeno => PydenoError t
  | EJavaScript =>
      let '(name, message, _) := _js_parts t None in
      if compile_time && bool_decide (name = u "SyntaxError") then PydenoSyntaxError name message else PydenoRuntimeError name message
  | ETooLarge => PydenoRuntimeError (u "ResultTooLarge") t
  | ETimeout => PydenoTimeoutError t
  | ECrashed => PydenoCrashedError t
  | EOther name => PydenoRuntimeError name t
  end.

Definition is_crash (e : front_error) : bool := match e with PydenoCrashedError _ | PydenoTimeoutError _ => true | _ => false end.

(** [str(error)] *)
Definition error_text (e : front_error) : list Z :=
  match e with
  | PydenoRuntimeError name message | PydenoSyntaxError name message => name ++ u ": " ++ message
  | PydenoCrashedError m | PydenoTimeoutError m | PydenoError m | ToolThreadLimitError m => m
  | Plain_ _ => []
  end.

Definition _ended (c : exc_class) (t : list Z) (worker_gone : bool) : front_error :=
  let e := _failure c t false in
  if negb (is_crash e) && worker_gone then PydenoCrashedError (error_text e) else e.
End Errors.
