(* ===== verification/FrontSession.v ===== *)
(** * The front door's session ([python/pydeno/_front.py], [PydenoSession] and [PydenoSnapshot])

    A REPL session on one agent session (AgentSession): starting a feed, with its fallback to the
    code as written, the loop that surfaces calls of declared functions and refuses the others,
    answering a snapshot once, and replacing the session's state by a dumped one.  The class
    tests on exceptions and the session prelude's compile checker are parameters. *)

From S2P Require Import Prelude Utf8 PyVal PyStr Journal JournalValue AgentSession Feed Front.

Record snapshot := Snapshot { sn_call : Step; sn_name : list Z; sn_args : list pyval; sn_declared : option (list (list Z)) }.

(** What a feed returns to its caller. *)
Inductive outcome := Suspended (sn : snapshot) | Complete (value : pyval).

Record front (G : Type) := FrontState { agent : option (session G); entered : bool; load_failed : bool; printing : bool; busy : bool }.
Arguments FrontState {G}. Arguments agent {G}. Arguments entered {G}. Arguments load_failed {G}. Arguments printing {G}. Arguments busy {G}.

Definition _unpack (args : list pyval) : option (list Z * list pyval) :=
  match args with
  | PStr name :: rest => if (64 <? length name)%nat then None else Some (name, rest)
  | _ => None
  end.

Definition _not_available (name : option (list Z)) : host_error :=
  HostError (u "ReferenceError") (default (u "?") name ++ u " is not defined (it is not in this feed's external_lookup)") true true.

Definition _output (v : pyval) : pyval := match v with PUndefined => PNone | _ => v end.

(** [_ends_paused] *)
Definition _ends_paused (rs : list record) : bool :=
  match reverse rs with RObs kind _ :: _ => bool_decide (kind = u "call") | _ => false end.

(** Monty's results, as [_external_result] reads them. *)
Inductive resume_result :=
| ReturnValue (v : pyval)
| ExceptionValue (e : option host_error)
| ExcType (name message : list Z)
| FutureValue
| UnknownKeys
| NotResult.

Section Front.
Context `{TextForms} {G : Type} `{Guest G} `{WordChars} (digest : list pyval -> list Z) (cfg : config)
  (classify : list Z -> exc_class) (parses : list Z -> bool).
Implicit Types (s : session G) (f : front G).

Definition lift {A} (r : result journal_exn A) : result front_error A :=
  match r with
  | Ok a => Ok a
  | Err (JPlain e) => Err (Plain_ e)
  | Err (JournalError m) => Err (PydenoError (u m))
  | Err _ => Err (PydenoError [])
  end.

Definition is_closed s : bool := s.(closed) || s.(dead).

Definition _live f : result front_error (session G) :=
  match f.(agent) with
  | None => Err (Plain_ (RuntimeError (if negb f.(entered) then "the session is not checked out" else "the session is closed")))
  | Some s =>
      if is_closed s then
        Err (PydenoCrashedError (u (if f.(load_failed) then "the session's worker was stopped for a load that then failed"
                                    else "the session's worker is gone")))
      else Ok s
  end.

(** The failure of a run, when it is JavaScript that does not parse. *)
Definition syntax_error (st : Step) : bool :=
  match st with Failed cls message _ => _is_js_syntax (classify cls) message | _ => false end.
(** The checker answers whether the source parses; without a worker it raises. *)
Definition _compiles s (src : list Z) : bool := is_closed s || parses src.

Definition compile_failure (st : Step) : front_error :=
  match st with Failed cls message _ => _failure (classify cls) message true | _ => PydenoError [] end.

(** [run]: the agent's [start], or [_drive] with an answer. *)
Definition _start (p : _Prepared) (run : list Z -> session G -> result journal_exn (session G * Step)) s
    : result front_error (session G * Step) * session G :=
  match run p.(source) s with
  | Err e => (lift (Err e), s)
  | Ok (s1, st) =>
      if negb (syntax_error st) || _compiles s1 p.(source) then (Ok (s1, st), s1)
      else
        match p.(fallback) with
        | None => (Err (compile_failure st), s1)
        | Some src =>
            match run src s1 with
            | Err e => (lift (Err e), s1)
            | Ok (s2, st) =>
                if negb (syntax_error st) || _compiles s2 src then (Ok (s2, st), s2) else (Err (compile_failure st), s2)
            end
        end
  end.

(** [refused]: a call of this feed was refused for want of a thread. *)
Definition _finish (refused : option (list Z)) (st : Step) s : result front_error pyval :=
  match st with
  | Done v => Ok (_output v)
  | Failed cls message _ =>
      let e := _ended (classify cls) message (is_closed s) in
      match refused with
      | Some why => if is_crash e then Err e else Err (ToolThreadLimitError why)
      | None => Err e
      end
  | ToolCall _ _ _ _ => Err (Plain_ (AssertionError "isinstance(step, Failed)"))
  end.

(** [agent.resume] of a call, with the guest's next stop; [fates]: what becomes of the worker at
    each. *)
Definition agent_resume (st : Step) (value : option pyval) (error : option host_error) (ft : fate G) s
    : result front_error (session G * Step) := lift (AgentSession._resume digest cfg st value error ft s).

(** The loop of [_step], with whether the printer was dropped; [fates] bounds the refused calls. *)
Fixpoint _step (fates : list (fate G)) (refused : option (list Z)) (declared : option (list (list Z))) (pending : bool) (st : Step) s
    : result front_error outcome * bool * session G :=
  match st with
  | ToolCall name args call_id sid =>
      let refuse why :=
        match fates with
        | [] => (Err (Plain_ (RuntimeError "fuel")), false, s)
        | ft :: fates =>
            match agent_resume st None (Some (_not_available why)) ft s with
            | Ok (s, st) => _step fates refused declared pending st s
            | Err e => (Err e, false, s)
            end
        end in
      match _unpack args with
      | Some (fn, fargs) =>
          if pending || match declared with None => true | Some names => bool_decide (fn ∈ names) end
          then (Ok (Suspended (Snapshot st fn fargs declared)), false, s)
          else refuse (Some fn)
      | None => refuse None
      end
  | _ => (Complete <$> _finish refused st s, true, s)
  end.

(** A value the sandbox cannot hold: the guest sees why. *)
Definition _resume (call : Step) (value : option pyval) (error : option host_error) (ft : fate G) s
    : result front_error (session G * Step) :=
  match error, value with
  | None, Some v =>
      match AgentSession._resume digest cfg call (Some v) None ft s with
      | Err (JPlain (TypeError m)) => agent_resume call None (Some (exn_error (JPlain (TypeError m)))) ft s
      | r => lift r
      end
  | _, _ => agent_resume call None error ft s
  end.

Definition with_agent s f : front G := FrontState (Some s) f.(entered) f.(load_failed) f.(printing) f.(busy).
Definition with_printing (b : bool) f : front G := FrontState f.(agent) f.(entered) f.(load_failed) b f.(busy).

Definition exclusive {A} (body : front G -> result front_error A * front G) f : result front_error A * front G :=
  if f.(busy) then (Err (PydenoError (u "the session is busy")), f) else body f.

(** [feed_start], from the prepared feed and the functions it declares; [ft]: the worker's fate
    in the runs of [_start]. *)
Definition feed_start (p : _Prepared) (names : list (list Z)) (ft : fate G) (fates : list (fate G)) (refused : option (list Z))
    : front G -> result front_error outcome * front G :=
  exclusive (fun f =>
    match _live f with
    | Err e => (Err e, f)
    | Ok s =>
        let f := with_printing true f in
        match _start p (fun src s => AgentSession._start digest cfg src ft s) s with
        | (Err e, s) => (Err e, with_printing false (with_agent s f))
        | (Ok (s, st), _) =>
            let '(r, dropped, s) := _step fates refused (Some names) false st s in
            (r, with_printing (is_ok r && negb dropped) (with_agent s f))
        end
    end).

(** [PydenoSession._answer] *)
Definition _answer (sn : snapshot) (value : option pyval) (error : option host_error) (ft : fate G) (fates : list (fate G))
    (refused : option (list Z)) : front G -> result front_error outcome * front G :=
  exclusive (fun f =>
    match _live f with
    | Err e => (Err e, f)
    | Ok s =>
        match _resume sn.(sn_call) value error ft s with
        | Err e => (Err e, with_printing false f)
        | Ok (s, st) =>
            let '(r, dropped, s) := _step fates refused sn.(sn_declared) false st s in
            (r, with_printing (f.(printing) && negb dropped) (with_agent s f))
        end
    end).

Definition _external_result (result_ : option resume_result) (value : option pyval) (error : option host_error)
    : result front_error (option pyval * option host_error) :=
  let type_error m := Err (Plain_ (TypeError m)) in
  match result_ with
  | Some r =>
      match value, error with
      | None, None =>
          match r with
          | ReturnValue v => Ok (Some v, None)
          | ExceptionValue e => Ok (None, e)
          | ExcType name message => Ok (None, Some (HostError (_error_class (last_piece (chr ".") name)) message true false))
          | FutureValue => Err (Plain_ (ValueError "pending futures are not supported"))
          | UnknownKeys => type_error "unknown resume result keys"
          | NotResult => type_error "resume(result) takes a result"
          end
      | _, _ => type_error "resume() takes a result dict or value=/error=, not both"
      end
  | None =>
      match value, error with
      | Some _, None | None, Some _ => Ok (value, error)
      | _, _ => type_error "resume() takes exactly one of value= or error="
      end
  end.

Definition _checked_answer (result_ : option resume_result) (value : option pyval) (error : option host_error)
    : result front_error (option pyval * option host_error) :=
  '(value, error) ← _external_result result_ value error;
  match error with
  | Some e => if e.(is_exception) then Ok (value, error) else Err (Plain_ (TypeError "the error to resume with must be an Exception instance"))
  | None => Ok (value, error)
  end.

(** [PydenoSnapshot.resume]: the answer is checked, the snapshot taken, the answer given. *)
Definition resume (sn : snapshot) (used : bool) (result_ : option resume_result) (value : option pyval) (error : option host_error)
    (ft : fate G) (fates : list (fate G)) (refused : option (list Z)) f : result front_error outcome * bool * front G :=
  match _checked_answer result_ value error with
  | Err e => (Err e, used, f)
  | Ok (value, error) =>
      if used then (Err (Plain_ (RuntimeError "this snapshot has already been resumed")), true, f)
      else let '(r, f) := _answer sn value error ft fates refused f in (r, true, f)
  end.

(** The records [dump] signs, also with the worker gone. *)
Definition dump f : result front_error (list record) :=
  match f.(agent) with
  | None => _ ← _live f; Err (PydenoError [])
  | Some s => lift (_journal s)
  end.

Definition front_close f : option (session G) * front G :=
  (close <$> f.(agent), FrontState None f.(entered) f.(load_failed) f.(printing) f.(busy)).

Definition wrong_load (suspended : bool) : front_error :=
  PydenoError (u (if suspended then "this state was dumped between feeds; use load_session"
                  else "this state was dumped mid-feed; use load_snapshot")).

(** A state that was opened: its records, whether its [strict_eval] is the pool's, and its
    [random_seed]. *)
Record opened_state := Opened { o_records : list record; o_same_strict : bool; o_seed : pyval }.

Definition valid_seed (v : pyval) : bool := match v with PInt n => (0 <=? n) && (n <? 2 ^ 31) | _ => false end.

(** [_journal_seed]: what is checked before any worker is stopped or started. *)
Definition _journal_seed (opened : result front_error opened_state) (suspended : bool) : result front_error (list record) :=
  o ← opened;
  if negb (Bool.eqb (_ends_paused o.(o_records)) suspended) then Err (wrong_load suspended)
  else if negb o.(o_same_strict) then Err (PydenoError (u "cannot load this state: strict_eval"))
  else if negb (valid_seed o.(o_seed)) then Err (PydenoError (u "cannot load this state: it has no valid random seed"))
  else Ok o.(o_records).

(** [release]: the old worker is stopped and its slot handed over.  [fails]: it raises, with
    whether the old session had been closed by then. *)
Definition release (fails : option bool) (old : session G) f : front G :=
  FrontState (Some (match fails with Some false => old | _ => close old end)) f.(entered) true f.(printing) f.(busy).

(** [_replace]: [opened] is the state's journal, authenticated and parsed; [capped]: the pool has a
    worker cap; [fails]: how [release] went; [worker]: a worker started for the replay, or not. *)
Definition _replace (opened : result front_error opened_state) (suspended capped : bool) (fails : option bool) (worker : option (Z * G)) f
    : result front_error (session G) * front G :=
  match f.(agent) with
  | None => (_live f, f)
  | Some old =>
      let f := with_printing false f in
      match _journal_seed opened suspended with
      | Err e => (Err e, f)
      | Ok rs =>
          let f := if capped then release fails old f else f in
          if capped && bool_decide (is_Some fails) then (Err (PydenoError (u "release failed")), f)
          else
            match worker with
            | None => (Err (PydenoCrashedError (u "could not start a sandboxed worker")), f)
            | Some (sid, g) =>
                match _replay digest cfg rs (new_session sid g) with
                | Err _ => (Err (PydenoError (u "cannot load this state")), f)
                | Ok (new, _) =>
                    if negb (Bool.eqb (match new.(paused) with Some _ => true | None => false end) suspended)
                    then (Err (wrong_load suspended), f)
                    else (Ok new, FrontState (Some new) f.(entered) false f.(printing) f.(busy))
                end
            end
      end
  end.
End Front.
