(* ===== verification/FrontProps.v ===== *)
(** * What the front door promises *)

From S2P Require Import Prelude Utf8 PyVal PyStr Limits Results ResultsProps Journal JournalValue AgentSession AgentSessionProps Feed Front FrontSession.

(** ** The default printer *)

Definition written_size (w : list (bool * list Z)) : Z := foldr (fun t n => utf8_size t.2 + n) 0 w.

Lemma written_size_app a b : written_size (a ++ b) = written_size a + written_size b.
Proof. unfold written_size. induction a as [|x a IH]; cbn; [done|]. rewrite IH. lia. Qed.

Lemma inert_replaced_size t : utf8_size (inert t) <= utf8_size (replaced t).
Proof.
  induction t as [|c t IH]; [done|]. unfold inert, replaced in *. cbn [fmap list_fmap]. rewrite !utf8_size_cons.
  assert (length (utf8_char (if control c then chr "?" else c)) <= length (utf8_char (if is_surrogate c then chr "?" else c)))%nat; [|lia].
  destruct (control c) eqn:Ec.
  - change (length (utf8_char (chr "?"))) with 1%nat. apply utf8_char_length.
  - destruct (is_surrogate c) eqn:Es; [|done]. exfalso. unfold is_surrogate in Es. bool_prop.
    assert (control c = true); [|congruence]. unfold control, _CONTROL_RANGES. cbn [existsb].
    rewrite (proj2 (Z.leb_le 0xd800 c)), (proj2 (Z.leb_le c 0xdfff)) by lia. cbn [andb orb]. rewrite !orb_true_r. done.
Qed.

Lemma inert_size t : utf8_size (inert t) <= utf8_size t.
Proof.
  induction t as [|c t IH]; [done|]. unfold inert in *. cbn [fmap list_fmap]. rewrite !utf8_size_cons.
  destruct (control c); [|lia]. change (length (utf8_char (chr "?"))) with 1%nat. pose proof (utf8_char_length c). lia.
Qed.

Definition call_all_ (calls : list (bool * list Z)) (p : _CappedDefaultPrint) : _CappedDefaultPrint :=
  foldl (fun p c => capped_call c.1 c.2 p) p calls.

Record print_ok (p : _CappedDefaultPrint) : Prop := {
  po_left : 0 <= p.(left_);
  po_size : written_size p.(wrote) <= DEFAULT_PRINT_LIMIT_BYTES + (if p.(done_) then 12 else 0) - (if p.(done_) then 0 else p.(left_));
  po_text : Forall (fun t => harmless t.2) p.(wrote)
}.

Lemma print_ok_call stream t p : print_ok p -> print_ok (capped_call stream t p).
Proof.
  intros [H1 H2 H3]. unfold capped_call. destruct (done_ p) eqn:Ed; [split; [done|by rewrite Ed|done]|].
  destruct (_ <=? _) eqn:E; unfold _default_print.
  - apply Z.leb_le in E. split; cbn [left_ done_ wrote]; [lia| |].
    + rewrite written_size_app. cbn [written_size foldr snd]. pose proof (inert_replaced_size t). lia.
    + apply Forall_app. split; [done|]. constructor; [apply inert_harmless|constructor].
  - split; cbn [left_ done_ wrote]; [done| |].
    + rewrite !written_size_app. set (head := _cut_utf8 _ _). set (more := match head with [] => _ | _ => _ end).
      change (written_size [(stream, inert (u "[truncated]" ++ [10]))]) with 12. cbn [written_size foldr snd].
      enough (utf8_size (inert (head ++ more)) <= left_ p) by lia.
      pose proof (inert_size (head ++ more)) as Hi. rewrite utf8_size_app in Hi.
      pose proof (cut_size (replaced t) (Z.max 0 (left_ p - 1)) ltac:(lia)) as Hc. fold head in Hc.
      assert (Hm : utf8_size more <= 1) by (unfold more; repeat case_match; by vm_compute).
      destruct (decide (head = [])) as [E0|E0]; [assert (more = []) as -> by (unfold more; by rewrite E0); rewrite E0 in *; cbn in *; lia|].
      assert (1 <= utf8_size head) by (destruct head as [|c h]; [done|]; rewrite utf8_size_cons; pose proof (utf8_char_length c); unfold utf8_size; lia).
      lia.
    + rewrite !Forall_app. split_and!; [done| |]; (constructor; [apply inert_harmless|constructor]).
Qed.

(** A feed's guest cannot flood the host's terminal or disguise text on it: whatever it
    prints, the default printer writes at most its limit plus the one [[truncated]] line, in
    characters that are all harmless; and what fits is written whole. *)
Theorem default_print_capped calls :
  let p := call_all_ calls capped_init in
  written_size p.(wrote) <= DEFAULT_PRINT_LIMIT_BYTES + 12 /\ Forall (fun t => harmless t.2) p.(wrote) /\
  (foldr (fun c n => utf8_size (replaced c.2) + n) 0 calls <= DEFAULT_PRINT_LIMIT_BYTES ->
   p.(wrote) = (fun c => (c.1, inert c.2)) <$> calls).
Proof.
  cbv zeta. assert (H0 : print_ok capped_init) by (split; done).
  assert (Hok : forall cs p, print_ok p -> print_ok (call_all_ cs p)).
  { induction cs as [|c cs IH]; intros p Hp; [done|]. cbn. apply IH. by apply print_ok_call. }
  destruct (Hok calls _ H0) as [H1 H2 H3]. split_and!; [destruct (done_ _); lia|done|].
  assert (Hall : forall cs p, p.(done_) = false -> foldr (fun c n => utf8_size (replaced c.2) + n) 0 cs <= p.(left_) ->
    (call_all_ cs p).(wrote) = p.(wrote) ++ ((fun c => (c.1, inert c.2)) <$> cs)); [|intros Hs; by rewrite Hall].
  induction cs as [|[b t] cs IH]; intros p Hd Hs; [cbn; by rewrite app_nil_r|]. cbn [foldr snd] in Hs.
  change (call_all_ ((b, t) :: cs) p) with (call_all_ cs (capped_call b t p)).
  assert (Hpos : 0 <= foldr (fun c n => utf8_size (replaced c.2) + n) 0 cs).
  { clear. induction cs as [|c cs IH]; cbn; [lia|]. unfold utf8_size in *. lia. }
  unfold capped_call. rewrite Hd. rewrite (proj2 (Z.leb_le _ _)) by lia. rewrite IH; cbn [left_ done_ wrote]; [|done|lia].
  unfold _default_print. by rewrite <- app_assoc.
Qed.

Lemma default_print_capped_witness : (call_all_ [(true, u "a"); (false, [27; 98])] capped_init).(wrote) = [(true, u "a"); (false, [63; 98])].
Proof.
  destruct (default_print_capped [(true, u "a"); (false, [27; 98])]) as (_ & _ & H3). rewrite H3; [reflexivity|vm_compute; discriminate].
Defined.

(** ** Feeds *)

Section Feeds.
Context `{TextForms} {G : Type} `{Guest G} `{WordChars} (digest : list pyval -> list Z) (cfg : config)
  (classify : list Z -> exc_class) (parses : list Z -> bool).
Implicit Types (s : session G) (f : front G).

(** A call that is surfaced: of a declared function, and the one the session is paused at. *)
Definition surfaced (names : list (list Z)) (sn : snapshot) f : Prop :=
  sn.(sn_name) ∈ names /\ sn.(sn_declared) = Some names /\
  (exists name args id sid, sn.(sn_call) = ToolCall name args id sid /\ _unpack args = Some (sn.(sn_name), sn.(sn_args))) /\
  exists s, f.(agent) = Some s /\ s.(paused) = Some sn.(sn_call).

Lemma next_step_stop ft gr s s' st : next_step digest cfg ft gr s = (s', st) -> is_call (Some st) = true -> s'.(paused) = Some st.
Proof.
  destruct ft as [|g n cls message et].
  - destruct gr as [[g n] st0]. intros E Hc. apply next_step_lives in E as (_ & _ & _ & _ & _ & _ & _ & P & _). rewrite P. unfold stop_of. by rewrite Hc.
  - destruct gr as [[g' n'] st0]. cbn. intros [= <- <-]. done.
Qed.

Lemma agent_resume_stop st v e ft s s' st' : agent_resume digest cfg st v e ft s = Ok (s', st') -> is_call (Some st') = true -> s'.(paused) = Some st'.
Proof.
  unfold agent_resume, AgentSession._resume. destruct (AgentSession._answer cfg st v e s) as [[s1 a]|err]; cbn [mbind result_bind lift].
  - intros [= E]. by eapply next_step_stop.
  - destruct err; done.
Qed.

Lemma agent_start_stop src ft s s' st : AgentSession._start digest cfg src ft s = Ok (s', st) -> is_call (Some st) = true -> s'.(paused) = Some st.
Proof.
  unfold AgentSession._start. intros (ok & _ & E)%result_bind_ok. destruct (paused s); [done|]. injection E as E. by eapply next_step_stop.
Qed.

Lemma front_start_stop p ft s s' st s2 : FrontSession._start classify parses p (fun src s => AgentSession._start digest cfg src ft s) s = (Ok (s', st), s2) ->
  is_call (Some st) = true -> s'.(paused) = Some st.
Proof.
  unfold FrontSession._start. destruct (AgentSession._start digest cfg (source p) ft s) as [[s1 st1]|e] eqn:E1; [|destruct e; done].
  destruct (_ || _); [intros [= <- <- <-]; by eapply agent_start_stop|]. destruct (fallback p) as [src|]; [|done].
  destruct (AgentSession._start digest cfg src ft s1) as [[s3 st3]|e] eqn:E2; [|destruct e; done].
  destruct (_ || _); [|done]. intros [= <- <- <-]. by eapply agent_start_stop.
Qed.

Lemma front_start_same p run s s1 st s2 : FrontSession._start classify parses p run s = (Ok (s1, st), s2) -> s2 = s1.
Proof.
  unfold FrontSession._start. destruct (run (source p) s) as [[s3 st3]|e]; [|destruct e; done].
  destruct (_ || _); [by intros [= <- <- <-]|]. destruct (fallback p) as [src|]; [|done].
  destruct (run src s3) as [[s4 st4]|e]; [|destruct e; done]. destruct (_ || _); [by intros [= <- <- <-]|done].
Qed.

Lemma front_resume_stop call v e ft s s' st : FrontSession._resume digest cfg call v e ft s = Ok (s', st) -> is_call (Some st) = true -> s'.(paused) = Some st.
Proof.
  assert (Hl : forall r, r = AgentSession._resume digest cfg call v None ft s -> lift r = Ok (s', st) -> is_call (Some st) = true -> s'.(paused) = Some st).
  { intros r -> E. by apply (agent_resume_stop call v None ft s). }
  unfold FrontSession._resume. destruct e as [e|]; [apply agent_resume_stop|]. destruct v as [v|]; [|apply agent_resume_stop].
  destruct (AgentSession._resume digest cfg call (Some v) None ft s) as [[s1 st1]|err] eqn:E; [by apply Hl|].
  destruct err as [[]| | |]; try done. apply agent_resume_stop.
Qed.

(** A call of a declared function. *)
Definition declared_call (names : list (list Z)) (args : list pyval) : Prop :=
  exists fn fargs, _unpack args = Some (fn, fargs) /\ fn ∈ names.

(** From a stop to a later one, each call in between not of a declared function and answered with
    a [ReferenceError] that names it. *)
Inductive refused_until (names : list (list Z)) : Step -> session G -> Step -> session G -> Prop :=
| ru_here st s : refused_until names st s st s
| ru_refuse name args id sid ft s s1 st1 st' s' : ~ declared_call names args ->
    AgentSession._resume digest cfg (ToolCall name args id sid) None
      (Some (HostError (u "ReferenceError") (default (u "?") (fst <$> _unpack args) ++ u " is not defined (it is not in this feed's external_lookup)") true true)) ft s
      = Ok (s1, st1) ->
    refused_until names st1 s1 st' s' -> refused_until names (ToolCall name args id sid) s st' s'.

(** What a feed that declared [names] returns, from its first stop [st] on. *)
Definition returned (names : list (list Z)) (st : Step) (s : session G) (o : outcome) (f' : front G) : Prop :=
  exists st' s', refused_until names st s st' s' /\ f'.(agent) = Some s' /\
    match o with
    | Suspended sn => surfaced names sn f' /\ st' = sn.(sn_call)
    | Complete v => exists w, st' = Done w /\ v = _output w
    end.

Lemma agent_resume_lift st v e ft s r : agent_resume digest cfg st v e ft s = Ok r -> AgentSession._resume digest cfg st v e ft s = Ok r.
Proof. unfold agent_resume. destruct (AgentSession._resume _ _ _ _ _ _ _) as [x|[]]; cbn; congruence. Qed.

Lemma step_returned names fates : forall refused st s o dropped s' f',
  FrontSession._step digest cfg classify fates refused (Some names) false st s = (Ok o, dropped, s') ->
  (is_call (Some st) = true -> s.(paused) = Some st) -> f'.(agent) = Some s' -> returned names st s o f'.
Proof.
  induction fates as [|ft fates IH]; intros refused st s o dropped s' f' E Hp Hf.
  all: destruct st as [name args id sid|v|cls message et]; cbn [FrontSession._step] in E;
    [|injection E as <- _ <-; exists (Done v), s; split_and!; [apply ru_here|done|by exists v]|injection E as E _ _; unfold FrontSession._finish in E; destruct refused; cbn in E; try (case_match); done].
  all: destruct (_unpack args) as [[fn fargs]|] eqn:Eu; try done; cbn [orb] in E; try (case_bool_decide as Hin); try done.
  all: try (injection E as <- <- <-; exists (ToolCall name args id sid), s; (split; [apply ru_here|]); (split; [done|]);
    (split; [|done]); unfold surfaced; cbn; split_and!; [done|done|by exists name, args, id, sid|exists s; split; [done|by apply Hp]]).
  all: destruct (agent_resume _ _ _ _ _ _ _) as [[s1 st1]|err] eqn:Er in E; [|done];
    destruct (IH _ _ _ _ _ _ f' E (agent_resume_stop _ _ _ _ _ _ _ Er) Hf) as (st' & s2 & Hr & Hrest); exists st', s2; (split; [|done]);
    (eapply (ru_refuse names name args id sid); [|apply agent_resume_lift in Er; rewrite Eu; exact Er|exact Hr]).
  - intros (fn' & fargs' & E' & Hin'). rewrite Eu in E'. by injection E' as <- <-.
  - intros (fn' & fargs' & E' & _). congruence.
Qed.
End Feeds.


(** ** Loading *)

Section Loads.
Context `{TextForms} {G : Type} `{Guest G} (digest : list pyval -> list Z) (cfg : config) (sid : Z).
Implicit Types (r : session G).
Abbreviation ends := _ends_paused.

Lemma ends_app l rs : rs <> [] -> ends (l ++ rs) = ends rs.
Proof. intros Hn. unfold _ends_paused. rewrite reverse_app. destruct (reverse rs) eqn:E; [|done].
  apply (f_equal reverse) in E. by rewrite reverse_involutive in E. Qed.

Lemma ends_obs x st : ends [x; obs digest st] = is_call (Some st).
Proof. by destruct st. Qed.

Lemma next_step_ready gr r r' st : next_step digest cfg Lives gr r = (r', st) -> r.(dead) = false -> r.(closed) = false -> r.(session_id) = sid ->
  ready sid r' (Some st).
Proof.
  destruct gr as [[g n] st0]. intros E Hd Hc Hs. apply next_step_lives in E as (_ & I & C & D & _ & _ & _ & P & _).
  unfold ready, at_stop. by rewrite I, C, D, P.
Qed.

Lemma replay_answer_ready call a r r' st : replay_answer digest cfg call a r = Ok (r', st) -> r.(session_id) = sid -> ready sid r' (Some st).
Proof.
  assert (Hr : forall v e, AgentSession._resume digest cfg call v e Lives r = Ok (r', st) -> r.(session_id) = sid -> ready sid r' (Some st)).
  { intros v e E Hs. unfold AgentSession._resume in E. apply result_bind_ok in E as ([r1 a1] & Ea & [= E]).
    pose proof (answer_inv _ _ _ _ _ _ _ Ea) as (Hd & Hc & _).
    destruct (answer_records _ _ _ _ _ _ _ Ea) as (x & _ & _ & A1 & _ & A3 & A4 & _). eapply next_step_ready; [exact E|congruence..]. }
  destruct a as [v|[cls message]]; apply Hr.
Qed.

(** After a replay the session is ready, at the step its last record names. *)
Lemma replays_ready r st rs r' st' : reps digest cfg r st rs r' st' -> ready sid r st ->
  ready sid r' st' /\ (rs = [] /\ st' = st \/ rs <> [] /\ ends rs = is_call st').
Proof.
  induction 1 as [r st|r st calls reason rs r' st' Hc _ IH|r st code r1 st1 rs r' st' Hc Hs _ IH|r call x v r1 st1 rs r' st' Hc Ha Hr _ IH]; intros Hrd.
  - split; [done|by left].
  - destruct (replay_lost_fields cfg calls reason r) as (L1 & L2 & L3 & L4 & _). cbv zeta in *.
    destruct Hrd as (R1 & R2 & R3 & R4). destruct IH as [IH1 IH2].
    { unfold ready, at_stop in *. rewrite L1, L2, L3, L4, R1, R2, R3, R4. split_and!; try done. destruct st as [[]|]; done. }
    split; [done|]. right. split; [done|]. destruct IH2 as [[-> ->]|[Hn E]]; [done|]. rewrite <- E. exact (ends_app [_] rs Hn).
  - destruct Hrd as (R1 & R2 & R3 & R4). assert (Hrd1 : ready sid r1 (Some st1)).
    { unfold AgentSession._start in Hs. apply result_bind_ok in Hs as (ok & _ & Hs). destruct (paused r); [done|]. injection Hs as Hs.
      destruct (record_fields cfg (RRun code) r) as (F1 & F2 & _ & _ & F5 & F6 & _).
      eapply next_step_ready; [exact Hs|congruence..]. }
    destruct (IH Hrd1) as [IH1 IH2]. split; [done|]. right. split; [done|].
    destruct IH2 as [[-> ->]|[Hn E]]; [apply ends_obs|]. rewrite <- E. exact (ends_app [_; _] rs Hn).
  - destruct (IH (replay_answer_ready _ _ _ _ _ Hr (proj2 (proj2 (proj2 Hrd))))) as [IH1 IH2]. split; [done|]. right. split; [done|].
    destruct IH2 as [[-> ->]|[Hn E]]; [apply ends_obs|]. rewrite <- E. exact (ends_app [_; _] rs Hn).
Qed.

Lemma replay_ends rs g r st : _replay digest cfg rs (new_session sid g) = Ok (r, st) ->
  r.(dead) = false /\ r.(closed) = false /\ ends rs = match r.(paused) with Some _ => true | None => false end.
Proof.
  intros E. unfold _replay in E. apply (replay_sound _ _ _ _ _ (length rs)) in E; [|done].
  apply replays_ready in E as [(R1 & R2 & R3 & R4) Hor]; [|done]. split_and!; [done|done|]. unfold at_stop in R1. rewrite R1.
  destruct Hor as [[-> ->]|[_ ->]]; [done|]. destruct st as [[]|]; done.
Qed.
End Loads.

(** The journal does not depend on whether the session is still open. *)
Lemma journal_close {G} (s : session G) : _journal (close s) = _journal s.
Proof. done. Qed.

Lemma journal_seed_ok opened suspended rs : _journal_seed opened suspended = Ok rs ->
  _ends_paused rs = suspended /\ exists seed, opened = Ok (Opened rs true (PInt seed)) /\ 0 <= seed < 2 ^ 31.
Proof.
  unfold _journal_seed. intros ([rs' b v] & -> & E)%result_bind_ok. cbn [o_records o_same_strict o_seed] in E.
  destruct (Bool.eqb _ _) eqn:E1; [|done]. destruct b; [|done]. destruct (valid_seed v) eqn:E2; [|done]. injection E as <-.
  apply eqb_prop in E1. split; [done|]. destruct v as [| | |n| | | | | | | |]; try done. cbn in E2. exists n. split; [done|]. bool_prop. lia.
Qed.

(** What a load that fails leaves of a front [f] with the agent [old]. *)
Definition kept {G} (opened : result front_error opened_state) (suspended capped : bool) (fails : option bool) (old : session G) (f f' : front G) : Prop :=
  dump f' = dump f /\
  (f'.(agent) = Some old /\ f'.(load_failed) = f.(load_failed) \/
   capped = true /\ f'.(load_failed) = true /\
   (exists rs seed, opened = Ok (Opened rs true (PInt seed)) /\ _ends_paused rs = suspended /\ 0 <= seed < 2 ^ 31) /\
   (f'.(agent) = Some (close old) /\ (exists m, _live f' = Err (PydenoCrashedError m)) \/ fails = Some false /\ f'.(agent) = Some old)).

(** C27. Loading a state replaces the session's or loses nothing of it.  Whether a state was
    dumped mid-feed is known from its last record, and the replay agrees.  The load either
    succeeds, with the new session open and suspended exactly when asked, or fails and leaves the
    old one with its journal still there to be dumped and loaded: untouched, or with its worker
    stopped.  A worker is stopped only where the pool has a worker cap, and only for a state that
    was opened, is of the kind asked for, was recorded with the pool's [strict_eval] and has a
    valid seed. *)
Theorem load_replaces_or_keeps `{TextForms} {G} `{Guest G} digest cfg opened suspended capped fails worker (f : front G) old r f' :
  f.(agent) = Some old -> _replace digest cfg opened suspended capped fails worker f = (r, f') ->
  (forall rs sid g new st, _replay digest cfg rs (new_session sid g) = Ok (new, st) ->
     _ends_paused rs = match new.(paused) with Some _ => true | None => false end) /\
  match r with
  | Ok new => f'.(agent) = Some new /\ f'.(load_failed) = false /\ is_closed new = false /\
      suspended = (match new.(paused) with Some _ => true | None => false end) /\
      exists rs seed sid g st, opened = Ok (Opened rs true (PInt seed)) /\ worker = Some (sid, g) /\
        _replay digest cfg rs (new_session sid g) = Ok (new, st)
  | Err _ => kept opened suspended capped fails old f f'
  end.
Proof.
  intros Ha E. split; [intros rs sid g new st Er; by apply replay_ends in Er as (_ & _ & ->)|].
  unfold _replace in E. rewrite Ha in E.
  destruct (_journal_seed opened suspended) as [rs|e] eqn:Eo; [|injection E as <- <-; split; [done|by left]].
  apply journal_seed_ok in Eo as (Hk & seed & -> & Hseed). set (f1 := if capped then _ else _) in E.
  assert (Hkeep : kept (Ok (Opened rs true (PInt seed))) suspended capped fails old f f1).
  { unfold kept, f1. destruct capped; [|split; [done|by left]]. split; [unfold dump, release; cbn; rewrite Ha; by destruct fails as [[]|]|].
    right. split_and!; [done|done|by exists rs, seed|]. unfold release, _live. destruct fails as [[]|]; cbn; [left|right|left]; eauto. }
  destruct (capped && _) eqn:Ec; [by injection E as <- <-|].
  destruct worker as [[sid g]|]; [|by injection E as <- <-].
  destruct (_replay digest cfg rs (new_session sid g)) as [[new st]|e] eqn:Er; [|by injection E as <- <-].
  pose proof (replay_ends _ _ _ _ _ _ _ Er) as (Hd & Hc & He).
  rewrite <- He, Hk, Bool.eqb_reflx in E. cbn [negb] in E. injection E as <- <-.
  split_and!; try done; [unfold is_closed; by rewrite Hd, Hc|congruence|]. by exists rs, seed, sid, g, st.
Qed.

(** ** The code as written *)

Section AsWritten.
Context `{TextForms} {G : Type} `{Guest G} `{WordChars} (digest : list pyval -> list Z) (cfg : config)
  (classify : list Z -> exc_class) (parses : list Z -> bool).
Implicit Types (s : session G).

(** A source that does not parse: nothing of it runs. *)
Definition parse_errors : Prop := forall (c : core G) src, parses src = false ->
  exists cls message et, run_code c src = (c.(guest), 0%nat, Failed cls message et) /\ _is_js_syntax (classify cls) message = true.

(** The feed did what running [code] does. *)
Definition runs_as (code : list Z) s (r : result front_error (session G * Step)) s' : Prop :=
  exists g n st, run_code s.(score) code = (g, n, st) /\ r = Ok (s', stamp s.(session_id) st) /\
    s'.(score) = Core g (s.(score).(calls_made) + Z.of_nat n) s.(score).(discovered).

Definition run_ (src : list Z) s : result journal_exn (session G * Step) := AgentSession._start digest cfg src Lives s.

Lemma run_usable src s : s.(dead) = false -> s.(closed) = false -> s.(paused) = None -> exists s' st, run_ src s = Ok (s', st) /\
  (exists g n st0, run_code s.(score) src = (g, n, st0) /\ st = stamp s.(session_id) st0 /\
    s'.(score) = Core g (s.(score).(calls_made) + Z.of_nat n) s.(score).(discovered)) /\
  s'.(dead) = false /\ s'.(closed) = false /\ s'.(session_id) = s.(session_id) /\ s'.(paused) = stop_of st.
Proof.
  intros Hd Hc Hp. unfold run_, AgentSession._start, _check_usable. rewrite Hd, Hc, Hp. cbn [mbind result_bind].
  destruct (record_fields cfg (RRun src) s) as (F1 & F2 & _ & _ & F5 & F6 & _). rewrite F2.
  destruct (run_code (score s) src) as [[g n] st0] eqn:Er. destruct (next_step _ _ _ _ _) as [s' st] eqn:En. exists s', st. split; [done|].
  apply next_step_lives in En as (-> & I & C & D & _ & _ & S & P & _). rewrite I, C, D, S, P, F1, F2, F5, F6.
  split_and!; try done. by exists g, n, st0.
Qed.

Lemma syntax_failure cls message : _is_js_syntax (classify cls) message = true -> exists name m, _failure (classify cls) message true = PydenoSyntaxError name m.
Proof.
  unfold _is_js_syntax, _failure. destruct (classify cls); try done. destruct (_js_parts message None) as [[name m] stack]. cbn.
  intros ->%bool_decide_eq_true. rewrite bool_decide_true by done. eauto.
Qed.

(** A run of a source that does not parse leaves the session as it was. *)
Lemma run_unparsed src s : parse_errors -> parses src = false -> s.(dead) = false -> s.(closed) = false -> s.(paused) = None ->
  exists s' st, run_ src s = Ok (s', st) /\ syntax_error classify st = true /\ (exists name m, compile_failure classify st = PydenoSyntaxError name m) /\
    s'.(score) = s.(score) /\ s'.(dead) = false /\ s'.(closed) = false /\ s'.(session_id) = s.(session_id) /\ s'.(paused) = None.
Proof.
  intros Hpe Hs Hd Hc Hp. destruct (run_usable src s Hd Hc Hp) as (s' & st & E & (g & n & st0 & Er & -> & Es) & Hd' & Hc' & Hi' & Hp').
  destruct (Hpe s.(score) src Hs) as (cls & message & et & Er' & Hj). rewrite Er' in Er. injection Er as <- <- <-.
  exists s', (Failed cls message et). split_and!; try done; [by apply syntax_failure|]. rewrite Es. cbn. rewrite Z.add_0_r. by destruct (score s).
Qed.

Lemma run_parsed src s : parses src = true -> s.(dead) = false -> s.(closed) = false -> s.(paused) = None ->
  exists s' st, run_ src s = Ok (s', st) /\ (negb (syntax_error classify st) || _compiles parses s' src = true) /\ runs_as src s (Ok (s', st)) s'.
Proof.
  intros Hs Hd Hc Hp. destruct (run_usable src s Hd Hc Hp) as (s' & st & E & (g & n & st0 & Er & -> & Es) & _). exists s', (stamp s.(session_id) st0).
  split; [done|]. split; [unfold _compiles; by rewrite Hs, !orb_true_r|]. by exists g, n, st0.
Qed.

End AsWritten.

(** The rewriting of a feed's last statement cannot change what a feed means by breaking
    it: a prepared feed that parses runs; one that does not parse has run nothing, and then the
    feed runs as it was written, on the guest as it was; and only when that does not parse
    either does the caller get [PydenoSyntaxError], with the guest and its budget untouched. *)
Theorem feed_falls_back `{TextForms} {G} `{Guest G} `{WordChars} digest cfg classify parses (p : _Prepared) (s : session G) r s' :
  parse_errors (G := G) classify parses -> s.(dead) = false -> s.(closed) = false -> s.(paused) = None ->
  FrontSession._start classify parses p (run_ digest cfg) s = (r, s') ->
  let refused := (exists name m, r = Err (PydenoSyntaxError name m)) /\ s'.(score) = s.(score) in
  if parses p.(source) then runs_as p.(source) s r s'
  else match p.(fallback) with
       | Some src => if parses src then runs_as src s r s' else refused
       | None => refused
       end.
Proof.
  intros Hpe Hd Hc Hp E. cbv zeta. unfold FrontSession._start in E. destruct (parses (source p)) eqn:Ep.
  - destruct (run_parsed digest cfg classify parses _ s Ep Hd Hc Hp) as (s1 & st & Er & Hb & Ha). rewrite Er, Hb in E. by injection E as <- <-.
  - destruct (run_unparsed digest cfg classify parses _ s Hpe Ep Hd Hc Hp) as (s1 & st & Er & Hsy & Hf & Hs1 & Hd1 & Hc1 & Hi1 & Hp1).
    rewrite Er, Hsy in E. unfold _compiles at 1, is_closed in E. rewrite Hd1, Hc1, Ep in E. cbn [negb orb] in E.
    destruct (fallback p) as [src|]; [|injection E as <- <-; split; [|done]; destruct Hf as (name & m & ->); eauto].
    destruct (parses src) eqn:Es.
    + destruct (run_parsed digest cfg classify parses _ s1 Es Hd1 Hc1 Hp1) as (s2 & st2 & Er2 & Hb & Ha). rewrite Er2, Hb in E. injection E as <- <-.
      destruct Ha as (g & n & st0 & H1' & H2' & H3'). exists g, n, st0. by rewrite <- Hs1, <- Hi1.
    + destruct (run_unparsed digest cfg classify parses _ s1 Hpe Es Hd1 Hc1 Hp1) as (s2 & st2 & Er2 & Hsy2 & Hf2 & Hs2 & Hd2 & Hc2 & _).
      rewrite Er2, Hsy2 in E. unfold _compiles, is_closed in E. rewrite Hd2, Hc2, Es in E. cbn [negb orb] in E. injection E as <- <-.
      split; [|congruence]. destruct Hf2 as (name & m & ->). eauto.
Qed.

(** An answer refused too late strands its feed: a value [_encode] refuses with another
    exception than [TypeError] (an integer of more digits than Python turns to text) is refused
    by [resume] only once the snapshot is taken; the session is still paused at the call, and
    the snapshot refuses every further answer. *)
Theorem late_refusal_strands `{TextForms} {G} `{Guest G} `{WordChars} digest cfg classify (f : front G) s sn name args id v m ft fates refused :
  f.(busy) = false -> _live f = Ok s -> sn.(sn_call) = ToolCall name args id s.(session_id) -> s.(paused) = Some sn.(sn_call) ->
  _encode false cfg.(room) v = Err (JPlain (ValueError m)) ->
  resume digest cfg classify sn false None (Some v) None ft fates refused f = (Err (Plain_ (ValueError m)), true, with_printing false f) /\
  (with_printing false f).(agent) = Some s /\
  forall r' v' e' ft' fates' refused', exists e,
    resume digest cfg classify sn true r' v' e' ft' fates' refused' (with_printing false f) = (Err e, true, with_printing false f).
Proof.
  intros Hb Hl Hcall Hp He. split_and!.
  - unfold resume. cbn [_checked_answer _external_result mbind result_bind]. unfold FrontSession._answer, exclusive. rewrite Hb, Hl.
    unfold FrontSession._resume, AgentSession._resume, AgentSession._answer. rewrite Hcall.
    unfold _live in Hl. destruct (agent f) as [s0|] eqn:Ea; [|done]. destruct (is_closed s0) eqn:Ec; [done|]. injection Hl as ->.
    unfold is_closed in Ec. apply orb_false_iff in Ec as [Ec Ed]. unfold _check_usable. rewrite Ec, Ed, Hp, Hcall, !Z.eqb_refl.
    cbn [mbind result_bind andb negb]. rewrite He. done.
  - unfold _live in Hl. cbn. destruct (agent f) as [s0|]; [|done]. destruct (is_closed s0); [done|congruence].
  - intros r' v' e' ft' fates' refused'. unfold resume. destruct (_checked_answer r' v' e') as [[v1 e1]|e]; eauto.
Qed.

(** ** Witnesses *)

#[local] Existing Instance plain_text.
#[local] Instance ascii_words : WordChars.
Proof. refine {| re_digit := is_digit; re_word c := is_alpha c || is_digit c || (c =? chr "_") |}; done. Defined.

(** A guest whose feeds call the external named by the code, unless it does not parse. *)
Definition w_parses (src : list Z) : bool := negb (starts_with (u "}") src).
#[local] Instance calling_guest : Guest Z := {|
  run_code c src :=
    if w_parses src then (c.(guest) + 1, 1%nat, ToolCall _EXTERNAL [PStr src; PInt 7] 1 0)
    else (c.(guest), 0%nat, Journal.Failed (u "JavaScriptError") (u "SyntaxError: bad") (u "SyntaxError"));
  deliver c a := match a with
    | inl v => (c.(guest) + 1, 0%nat, Done v)
    | inr _ => (c.(guest), 1%nat, ToolCall _EXTERNAL [PStr (u "f")] 2 0)
    end
|}.
Definition w_classify (cls : list Z) : exc_class := if bool_decide (cls = u "JavaScriptError") then EJavaScript else EOther cls.
Definition w_digest0 (_ : list pyval) : list Z := [7].
Definition w_cfg0 : config := Config 1000 true (fun _ => false) [] 5.
Definition w_front : front Z := FrontState (Some (new_session 1 0)) true false false false.

Lemma w_parse_errors : parse_errors (G := Z) w_classify w_parses.
Proof.
  intros c src E. exists (u "JavaScriptError"), (u "SyntaxError: bad"), (u "SyntaxError"). cbn [run_code calling_guest]. rewrite E. split; reflexivity.
Defined.


Lemma load_replaces_or_keeps_witness : exists r f',
  _replace w_digest0 w_cfg0 (Ok (Opened [RRun (u "g"); RObs (u "call") [7]] true (PInt 5))) true true None (Some (2, 0)) w_front = (r, f') /\ is_ok r = true /\
  f'.(load_failed) = false.
Proof.
  destruct (_replace w_digest0 w_cfg0 (Ok (Opened [RRun (u "g"); RObs (u "call") [7]] true (PInt 5))) true true None (Some (2, 0)) w_front) as [r f'] eqn:E.
  pose proof (load_replaces_or_keeps w_digest0 w_cfg0 _ _ _ _ _ w_front (new_session 1 0) r f' eq_refl E) as [_ Hr].
  exists r, f'. split; [reflexivity|]. assert (is_ok r = true) as Hok by (vm_compute in E; injection E as <- <-; reflexivity).
  split; [exact Hok|]. destruct r; [apply Hr|discriminate Hok].
Defined.

Lemma feed_falls_back_witness : exists r s',
  FrontSession._start w_classify w_parses (Prepared (u "}x") (Some (u "x"))) (run_ w_digest0 w_cfg0) (new_session 1 0) = (r, s') /\
  runs_as (u "x") (new_session 1 0) r s'.
Proof.
  destruct (FrontSession._start w_classify w_parses (Prepared (u "}x") (Some (u "x"))) (run_ w_digest0 w_cfg0) (new_session 1 0)) as [r s'] eqn:E.
  exists r, s'. split; [reflexivity|].
  exact (feed_falls_back w_digest0 w_cfg0 w_classify w_parses (Prepared (u "}x") (Some (u "x"))) (new_session 1 0) r s'
    w_parse_errors eq_refl eq_refl eq_refl E).
Defined.

(** A feed suspended at a call of [g]. *)
Definition w_suspended : front Z :=
  (feed_start w_digest0 w_cfg0 w_classify w_parses (Prepared (u "g") None) [u "g"] Lives [] None w_front).2.
Definition w_agent : session Z := default (new_session 1 0) w_suspended.(agent).
Definition w_snapshot : snapshot := Snapshot (ToolCall _EXTERNAL [PStr (u "g"); PInt 7] 1 1) (u "g") [PInt 7] (Some [u "g"]).

Lemma late_refusal_strands_witness :
  resume w_digest0 w_cfg0 w_classify w_snapshot false None (Some (PInt (2 ^ 101))) None Lives [] None w_suspended =
  (Err (Plain_ (ValueError "Exceeds the limit")), true, with_printing false w_suspended).
Proof.
  apply (late_refusal_strands w_digest0 w_cfg0 w_classify w_suspended w_agent w_snapshot _EXTERNAL [PStr (u "g"); PInt 7] 1 (PInt (2 ^ 101))
    "Exceeds the limit" Lives [] None); vm_compute; reflexivity.
Defined.
