(* ===== verification/Pump.v ===== *)
(** * The clock of a command ([python/pydeno/_isolated.py], [_Pump])

    The hard deadline that stops while a host callback runs, the console allowance and the
    cap on time spent waiting for the host.  Times are whole clock ticks: the rounding of
    float seconds is not modelled.

    [meter] is the specification: every tick since the command began is the guest's own,
    waited for a host callback, or granted to console output.  [pump_refines_meter] says that
    the bookkeeping of [_Pump], which only looks at the clock when a callback begins or ends,
    takes the decisions of the meter. *)

From S2P Require Import Prelude.

Record _Pump := Pump {
  hard : option Z; deadline : option Z; max_host_wait : option Z;
  cpu_cap : option Z; cpu_start : option Z;
  _outstanding : Z; _paused_at : Z; _paused_total : Z;
  _console_at : Z; _console_left : option Z; _resumed_at : Z
}.

Definition pump_init (now : Z) (hard_timeout host_wait cap start : option Z) : _Pump :=
  Pump hard_timeout ((fun h => now + h) <$> hard_timeout) host_wait cap start 0 0 0 0 hard_timeout 0.

Definition begin_call (now : Z) (p : _Pump) : _Pump :=
  Pump (hard p) (deadline p) (max_host_wait p) (cpu_cap p) (cpu_start p)
    (_outstanding p + 1) (if _outstanding p =? 0 then now else _paused_at p) (_paused_total p)
    (_console_at p) (_console_left p) (_resumed_at p).

Definition end_call (now : Z) (p : _Pump) : _Pump :=
  let n := _outstanding p - 1 in
  if n =? 0 then
    let paused := now - _paused_at p in
    Pump (hard p) ((fun d => d + paused) <$> deadline p) (max_host_wait p) (cpu_cap p) (cpu_start p)
      n (_paused_at p) (_paused_total p + paused) (_console_at p) (_console_left p) now
  else
    Pump (hard p) (deadline p) (max_host_wait p) (cpu_cap p) (cpu_start p)
      n (_paused_at p) (_paused_total p) (_console_at p) (_console_left p) (_resumed_at p).

(** [not self._console_at] tests the time for zero. *)
Definition _console_grant (now : Z) (p : _Pump) : Z :=
  match _console_left p with
  | None => 0
  | Some lft =>
      if (_console_at p =? 0) || negb (_outstanding p =? 0) then 0
      else Z.max 0 (Z.min (now - Z.max (_console_at p) (_resumed_at p)) lft)
  end.

Definition begin_console (now : Z) (p : _Pump) : _Pump :=
  Pump (hard p) (deadline p) (max_host_wait p) (cpu_cap p) (cpu_start p)
    (_outstanding p) (_paused_at p) (_paused_total p) now (_console_left p) (_resumed_at p).

Definition end_console (now : Z) (p : _Pump) : _Pump :=
  let grant := _console_grant now p in
  let granted := match deadline p with Some _ => negb (grant =? 0) | None => false end in
  Pump (hard p) (if granted then (fun d => d + grant) <$> deadline p else deadline p)
    (max_host_wait p) (cpu_cap p) (cpu_start p) (_outstanding p) (_paused_at p) (_paused_total p)
    0 (if granted then (fun l => l - grant) <$> _console_left p else _console_left p) (_resumed_at p).

Definition expired (now : Z) (p : _Pump) : bool :=
  match deadline p with
  | None => false
  | Some d => if negb (_outstanding p =? 0) then false else d + _console_grant now p <? now
  end.

Definition waited_too_long (now : Z) (p : _Pump) : bool :=
  match max_host_wait p with
  | None => false
  | Some w => w <? _paused_total p + (if _outstanding p =? 0 then 0 else now - _paused_at p)
  end.

(** ** The meter *)

(** [upto]: the time accounted for; [busy]: host callbacks running; [console]: a console call
    running; then where the time went. *)
Record meter := Meter { upto : Z; busy : Z; console : bool; guest : Z; waited : Z; granted : Z }.

(** Time passes.  A running callback's time is waiting; otherwise a console call's time is
    granted as far as the [allowance] goes; the rest is the guest's. *)
Definition advance (allowance now : Z) (m : meter) : meter :=
  let dt := now - upto m in
  if negb (busy m =? 0) then Meter now (busy m) (console m) (guest m) (waited m + dt) (granted m)
  else
    let g := if console m then Z.min dt (allowance - granted m) else 0 in
    Meter now (busy m) (console m) (guest m + (dt - g)) (waited m) (granted m + g).

Inductive clock_event := BeginCall | EndCall | BeginConsole | EndConsole.

Definition meter_event (ev : clock_event) (m : meter) : meter :=
  match ev with
  | BeginCall => Meter (upto m) (busy m + 1) (console m) (guest m) (waited m) (granted m)
  | EndCall => Meter (upto m) (busy m - 1) (console m) (guest m) (waited m) (granted m)
  | BeginConsole => Meter (upto m) (busy m) true (guest m) (waited m) (granted m)
  | EndConsole => Meter (upto m) (busy m) false (guest m) (waited m) (granted m)
  end.

(** The order the runtime keeps: a callback ends after it began, and while a console call is
    handled no other call of the guest is taken. *)
Definition legal (ev : clock_event) (m : meter) : bool :=
  match ev with
  | BeginCall => negb (console m)
  | EndCall => 0 <? busy m
  | BeginConsole => negb (console m)
  | EndConsole => console m
  end.

Definition pump_event (ev : clock_event) (now : Z) (p : _Pump) : _Pump :=
  match ev with
  | BeginCall => begin_call now p
  | EndCall => end_call now p
  | BeginConsole => begin_console now p
  | EndConsole => end_console now p
  end.

(** A run of timed events, if each is legal and the clock does not go back. *)
Fixpoint run_clock (evs : list (clock_event * Z)) (p : _Pump) (m : meter) : option (_Pump * meter) :=
  match evs with
  | [] => Some (p, m)
  | (ev, now) :: evs' =>
      if (upto m <=? now) && legal ev m then
        run_clock evs' (pump_event ev now p) (meter_event ev (advance (default 0 (hard p)) now m))
      else None
  end.

(** ** Simulation *)

(** The part of a pause, or of a console call, the pump has not booked yet. *)
Definition open_pause (p : _Pump) (m : meter) : Z := if busy m =? 0 then 0 else upto m - _paused_at p.

Record sim (h : option Z) (start : Z) (p : _Pump) (m : meter) : Prop := {
  sim_hard : hard p = h;
  sim_deadline : deadline p = (fun x => start + x + _paused_total p + (x - default 0 (_console_left p))) <$> h;
  sim_left : is_Some (_console_left p) <-> is_Some h;
  sim_left_range : 0 <= default 0 (_console_left p) <= default 0 h;
  sim_busy : _outstanding p = busy m /\ 0 <= busy m;
  sim_console : console m = negb (_console_at p =? 0);
  sim_times : 0 < start <= upto m /\ _resumed_at p <= upto m /\ _console_at p <= upto m;
  sim_paused : busy m <> 0 -> _paused_at p <= upto m;
  sim_waited : waited m = _paused_total p + open_pause p m /\ 0 <= waited m;
  sim_granted : granted m = default 0 h - default 0 (_console_left p) + _console_grant (upto m) p;
  sim_total : guest m + waited m + granted m = upto m - start;
  sim_guest : 0 <= guest m
}.

Definition meter_init (now : Z) : meter := Meter now 0 false 0 0 0.

Lemma sim_init h w cap cpu now : 0 < now -> 0 <= default 0 h ->
  sim h now (pump_init now h w cap cpu) (meter_init now).
Proof.
  intros Hn Hh. destruct h; split; unfold open_pause, _console_grant; cbn in *; try done; try lia. f_equal. lia.
Qed.

Lemma console_grant_eq now p : _console_grant now p =
  if (_console_at p =? 0) || negb (_outstanding p =? 0) then 0
  else Z.max 0 (Z.min (now - Z.max (_console_at p) (_resumed_at p)) (default 0 (_console_left p))).
Proof. unfold _console_grant. destruct (_console_left p); cbn; [done|]. destruct (_ || _); lia. Qed.

(** Decide the tests of the clock against zero, dropping the impossible cases. *)
Ltac clock_cases :=
  repeat match goal with
  | |- context [?a =? 0] => destruct (Z.eqb_spec a 0); try (exfalso; lia)
  | H : context [?a =? 0] |- _ => destruct (Z.eqb_spec a 0); try (exfalso; lia)
  end; cbn [negb orb] in *.

Ltac clock_goal :=
  unfold open_pause; cbn [upto busy console guest waited granted _outstanding _paused_at _paused_total _console_at _console_left _resumed_at hard deadline];
  rewrite ?console_grant_eq; cbn [_outstanding _paused_at _paused_total _console_at _console_left _resumed_at].

Lemma sim_advance h start p m now : sim h start p m -> upto m <= now -> sim h start p (advance (default 0 h) now m).
Proof.
  intros [] Hn. destruct sim_busy0 as [Hb Hb0]. destruct sim_waited0 as [Hw Hw0]. unfold open_pause in Hw.
  rewrite console_grant_eq, Hb in sim_granted0. unfold advance. rewrite sim_console0.
  set (H := default 0 h) in *. set (l := default 0 (_console_left p)) in *.
  destruct (Z.eqb_spec (busy m) 0) as [Eb|Eb], (Z.eqb_spec (_console_at p) 0) as [Ec|Ec]; cbn [negb orb] in *.
  all: split; try done; clock_goal; fold l H; rewrite ?sim_console0, ?Hb.
  all: try (split; [done|lia]); clock_cases; try done; try lia.
Qed.

Lemma sim_begin_call h start p m : sim h start p m -> console m = false ->
  sim h start (begin_call (upto m) p) (meter_event BeginCall m).
Proof.
  intros [] Hc. destruct sim_busy0 as [Hb Hb0]. destruct sim_waited0 as [Hw Hw0]. unfold open_pause in Hw.
  rewrite console_grant_eq, Hb in sim_granted0. rewrite Hc in sim_console0.
  set (H := default 0 h) in *. set (l := default 0 (_console_left p)) in *.
  split; try done; unfold begin_call, meter_event; clock_goal; fold l H; rewrite ?Hb; try lia.
  - by rewrite Hc.
  - intros _. clock_cases; lia.
  - clock_cases; lia.
  - clock_cases; try lia.
Qed.

Lemma sim_end_call h start p m : sim h start p m -> 0 < busy m -> sim h start (end_call (upto m) p) (meter_event EndCall m).
Proof.
  intros [] Hpos. destruct sim_busy0 as [Hb Hb0]. destruct sim_waited0 as [Hw Hw0]. unfold open_pause in Hw.
  rewrite console_grant_eq, Hb in sim_granted0. specialize (sim_paused0 ltac:(lia)).
  set (H := default 0 h) in *. set (l := default 0 (_console_left p)) in *.
  unfold end_call, meter_event. rewrite Hb. destruct (Z.eqb_spec (busy m - 1) 0) as [E|E].
  all: split; try done; clock_goal; fold l H; try lia.
  all: try (clock_cases; lia).
  rewrite sim_deadline0. destruct h; cbn in *; [|done]. f_equal. clock_cases; lia.
Qed.

Lemma sim_begin_console h start p m : sim h start p m -> console m = false ->
  sim h start (begin_console (upto m) p) (meter_event BeginConsole m).
Proof.
  intros [] Hc. destruct sim_busy0 as [Hb Hb0]. destruct sim_waited0 as [Hw Hw0]. unfold open_pause in Hw.
  rewrite console_grant_eq, Hb in sim_granted0. rewrite Hc in sim_console0.
  set (H := default 0 h) in *. set (l := default 0 (_console_left p)) in *.
  split; try done; unfold begin_console, meter_event; clock_goal; fold l H; try lia.
  clock_cases; lia.
Qed.

Lemma sim_end_console h start p m : sim h start p m -> sim h start (end_console (upto m) p) (meter_event EndConsole m).
Proof.
  intros []. destruct sim_busy0 as [Hb Hb0]. destruct sim_waited0 as [Hw Hw0]. unfold open_pause in Hw.
  set (g := _console_grant (upto m) p) in *.
  assert (Hg : 0 <= g <= default 0 (_console_left p)).
  { unfold g. rewrite console_grant_eq. destruct (_ || _); lia. }
  assert (Hd : is_Some (deadline p) <-> is_Some h) by (rewrite sim_deadline0; apply fmap_is_Some).
  unfold end_console, meter_event. fold g.
  destruct h as [x|], (deadline p) as [d|], (_console_left p) as [l|]; cbn in *; simplify_eq;
    try (destruct Hd as [? Hd]; destruct Hd; [by eexists|done]); try (destruct sim_left0 as [? Hx]; destruct Hx; [by eexists|done]);
    try (destruct sim_left0 as [Hx ?]; destruct Hx; [by eexists|done]).
  - destruct (Z.eqb_spec g 0) as [E|E]; cbn [negb]; split; try done; clock_goal; cbn; try lia; f_equal; lia.
  - split; try done; clock_goal; cbn; lia.
Qed.

Lemma sim_event h start p m ev : sim h start p m -> legal ev m = true ->
  sim h start (pump_event ev (upto m) p) (meter_event ev m).
Proof.
  intros Hs Hl. destruct ev; cbn [legal pump_event] in *; bool_prop.
  - by apply sim_begin_call.
  - by apply sim_end_call.
  - by apply sim_begin_console.
  - by apply sim_end_console.
Qed.

Lemma legal_advance a now ev m : legal ev (advance a now m) = legal ev m.
Proof. unfold advance. destruct ev, (negb (busy m =? 0)); done. Qed.

Lemma upto_advance a now m : upto (advance a now m) = now.
Proof. unfold advance. by destruct (negb (busy m =? 0)). Qed.

Lemma max_host_wait_event ev now p : max_host_wait (pump_event ev now p) = max_host_wait p.
Proof. destruct ev; cbn; try done. unfold end_call. by destruct (_ =? 0). Qed.

Lemma run_clock_sim evs h start p m p' m' : run_clock evs p m = Some (p', m') -> sim h start p m ->
  sim h start p' m' /\ max_host_wait p' = max_host_wait p.
Proof.
  revert p m. induction evs as [|[ev now] evs IH]; intros p m E Hs; cbn in E; [by simplify_eq|].
  destruct (upto m <=? now) eqn:E1; [|done]. destruct (legal ev m) eqn:E2; [|done]. cbn [andb] in E. bool_prop.
  rewrite (sim_hard _ _ _ _ Hs) in E. apply IH in E as [H1 H2].
  - split; [done|]. by rewrite H2, max_host_wait_event.
  - rewrite <- (upto_advance (default 0 h) now m) at 1. apply sim_event; [by apply sim_advance|by rewrite legal_advance].
Qed.

Lemma run_clock_keeps evs p m p' m' : run_clock evs p m = Some (p', m') ->
  max_host_wait p' = max_host_wait p /\ cpu_cap p' = cpu_cap p /\ cpu_start p' = cpu_start p.
Proof.
  revert p m. induction evs as [|[ev now] evs IH]; intros p m E; cbn in E; [by simplify_eq|].
  destruct (_ && _); [|done]. apply IH in E as (-> & -> & ->).
  destruct ev; cbn [pump_event]; try done. unfold end_call. by destruct (_ =? 0).
Qed.

(** What the two checks decide, in terms of a meter at the present. *)
Lemma sim_checks h start p m : sim h start p m ->
  expired (upto m) p = (match h with None => false | Some x => (busy m =? 0) && (x <? guest m) end) /\
  waited_too_long (upto m) p = (match max_host_wait p with None => false | Some w => w <? waited m end).
Proof.
  intros []. destruct sim_busy0 as [Hb Hb0]. destruct sim_waited0 as [Hw Hw0]. split.
  - unfold expired. rewrite sim_deadline0, Hb. destruct h as [x|]; cbn [fmap option_fmap option_map]; [|done].
    destruct (Z.eqb_spec (busy m) 0) as [E|E]; cbn [negb andb]; [|done]. cbn [default from_option id] in sim_granted0.
    unfold open_pause in Hw. rewrite E in Hw. cbn in Hw. apply eq_true_iff_eq. rewrite !Z.ltb_lt. lia.
  - unfold waited_too_long, open_pause in *. rewrite Hb. destruct (max_host_wait p); [|done].
    destruct (busy m =? 0); f_equal; lia.
Qed.

(** C12. The deadline bookkeeping is right: whatever host callbacks and console calls begin
    and end while a command runs, the hard deadline has passed exactly when no callback is
    running and the guest's own time is over the limit; the host-wait cap, exactly when the
    time spent waiting for callbacks is over it; every tick since the start is the guest's,
    waiting, or granted to the console, and the console is granted at most one deadline. *)
Theorem pump_refines_meter h w cap cpu start evs p m now :
  0 < start -> 0 <= default 0 h ->
  run_clock evs (pump_init start h w cap cpu) (meter_init start) = Some (p, m) -> upto m <= now ->
  let m' := advance (default 0 h) now m in
  expired now p = (match h with None => false | Some x => (busy m' =? 0) && (x <? guest m') end) /\
  waited_too_long now p = (match w with None => false | Some y => y <? waited m' end) /\
  guest m' + waited m' + granted m' = now - start /\
  0 <= guest m' /\ 0 <= waited m' /\ granted m' <= default 0 h.
Proof.
  intros Hs Hh E Hn m'. apply (run_clock_sim _ h start) in E as [Hsim Hw]; [|by apply sim_init].
  apply (sim_advance _ _ _ _ now) in Hsim; [|done]. fold m' in Hsim. pose proof (sim_checks _ _ _ _ Hsim) as [H1 H2].
  assert (Hu : upto m' = now) by apply upto_advance. rewrite Hu, Hw in *. split_and!; [done|done|..].
  - rewrite (sim_total _ _ _ _ Hsim). lia.
  - apply (sim_guest _ _ _ _ Hsim).
  - apply (sim_waited _ _ _ _ Hsim).
  - rewrite (sim_granted _ _ _ _ Hsim), console_grant_eq. destruct (sim_left_range _ _ _ _ Hsim). destruct (_ || _); lia.
Qed.

Lemma pump_refines_meter_witness :
  exists p m, run_clock [(BeginCall, 110); (BeginConsole, 120); (EndCall, 130); (EndConsole, 150)]
      (pump_init 100 (Some 30) (Some 60) None None) (meter_init 100) = Some (p, m) /\
    expired 170 p = false /\ expired 171 p = true /\
    advance 30 171 m = Meter 171 0 false 31 20 20.
Proof.
  destruct (run_clock _ _ _) as [[p m]|] eqn:E; [|vm_compute in E; discriminate]. exists p, m. split; [reflexivity|].
  assert (Hu : upto m = 150) by (vm_compute in E; injection E as <- <-; reflexivity).
  destruct (pump_refines_meter (Some 30) (Some 60) None None 100 _ p m 170 ltac:(lia) ltac:(cbn; lia) E ltac:(lia)) as [-> _].
  vm_compute in E. injection E as <- <-. split_and!; reflexivity.
Defined.
