(* ===== verification/HostSide.v ===== *)
(** * What the host tells a worker and believes of it ([python/pydeno/_isolated.py])

    The parts of the parent's side that keep no state: the V8 flags a worker starts with, the
    checks around the handlers a worker may call, the error a host function's exception becomes
    for the guest (redaction) and the error a worker's message becomes for the host. *)

From S2P Require Import Prelude Utf8 PyVal PyStr Results.

(** ** V8 flags *)

Fixpoint lstrip (sep : Z) (s : list Z) : list Z :=
  match s with [] => [] | c :: s' => if c =? sep then lstrip sep s' else s end.
Definition replace_char (a b : Z) (s : list Z) : list Z := (fun c => if c =? a then b else c) <$> s.

Definition _HARDENING_V8_FLAGS : list (list Z) :=
  [u "--enable-experimental-regexp-engine-on-excessive-backtracks"; u "--freeze-flags-after-init"].
Definition _STRICT_EVAL_FLAG : list Z := u "--disallow-code-generation-from-strings".
Definition _STRICT_EVAL_NAME : list Z := drop 2 _STRICT_EVAL_FLAG.
Definition freeze_name : list Z := u "freeze-flags-after-init".

Definition bare_flag (flag : list Z) : list Z := replace_char (chr "_") (chr "-") (lstrip (chr "-") flag).

(** A flag of the caller's list: [None] for an item that is not a string. *)
Definition flag_mention (name : list Z) (value : option bool) (flag : option (list Z)) : option bool :=
  match flag with
  | None => value
  | Some f =>
      let bare := bare_flag f in
      if bool_decide (bare = name) then Some true
      else if bool_decide (bare = u "no-" ++ name) || bool_decide (bare = u "no" ++ name) then Some false
      else value
  end.

Definition _bool_flag_setting (flags : list (option (list Z))) (name : list Z) : option bool :=
  foldl (flag_mention name) None flags.
Definition _strict_eval_setting (flags : list (option (list Z))) : option bool := _bool_flag_setting flags _STRICT_EVAL_NAME.

Definition seed_flag (seed : Z) : list Z := u "--random-seed=" ++ u (str_of_int seed).

(** The flags before the caller's own. *)
Definition own_flags (jitless : bool) (random_seed : option Z) : list (option (list Z)) :=
  (if jitless then [Some (u "--jitless")] else []) ++ (Some <$> _HARDENING_V8_FLAGS) ++
  (match random_seed with None => [] | Some s => [Some (seed_flag s)] end).

(** [undone]: the flags of a list the engine's own start-up overrides (the native extension).
    [strict_eval] is [None] for a value that is not a bool. *)
Definition _worker_v8_flags (undone : list (list Z) -> list (list Z)) (jitless : bool) (random_seed : option Z)
    (v8_flags : list (option (list Z))) (strict_eval : option bool) : result exn (list (option (list Z))) :=
  match strict_eval with
  | None => Err (TypeError "strict_eval must be a bool")
  | Some strict =>
      _ ← raise_if (match undone (omap id v8_flags) with [] => false | _ => true end) (ValueError "these V8 flags cannot take effect");
      _ ← raise_if (strict && existsb (fun name => bool_decide (_bool_flag_setting v8_flags name = Some false)) [_STRICT_EVAL_NAME; freeze_name])
            (ValueError "strict_eval=True contradicts v8_flags");
      Ok (own_flags jitless random_seed ++ v8_flags ++ (if strict then [Some _STRICT_EVAL_FLAG] else []))
  end.

(** ** Handlers a worker may call *)

Definition _MAX_SPECIFIER : nat := 4096.
Definition specifier_ok (a : pyval) : bool :=
  match a with PStr s => (length s <=? _MAX_SPECIFIER)%nat && negb (mem_chars s 0) | _ => false end.
(** The check of [_checked_specifiers]. *)
Definition specifiers_ok (arity : nat) (args : list pyval) : bool := (length args =? arity)%nat && forallb specifier_ok args.

Definition _CONSOLE_LEVELS : list (list Z) := u <$> ["log"; "info"; "warn"; "error"; "debug"; "trace"].
(** The check of [_checked_console]. *)
Definition console_call_ok (args : list pyval) : bool :=
  match args with
  | [PStr level; PList _] => bool_decide (level ∈ _CONSOLE_LEVELS)
  | [PStr level; PList _; PBool true] => bool_decide (level ∈ _CONSOLE_LEVELS)
  | _ => false
  end.

(** ** A host function's exception, for the guest *)

(** An exception: its class name, its text, the classes it is an instance of, whether it is a
    [WireError] and whether it carries pydeno's own mark of public text. *)
Record host_exn := HostExn { etype : list Z; text : list Z; classes : list Z; is_wire_error : bool; _pydeno_public : bool }.

(** [_expose]: the predicate, which may raise. *)
Record _Redaction := Redaction { enabled : bool; _expose : option (host_exn -> result unit pyval) }.

Definition exposes (r : _Redaction) (exc : host_exn) : bool :=
  match _expose r with
  | None => false
  | Some f => match f exc with Ok (PBool true) => true | _ => false end
  end.

(** [expose_host_errors]: a member of a collection is [None] when it is not an exception class. *)
Inductive expose_arg :=
| ExposeNone
| ExposeClass (c : option Z)
| ExposeClasses (cs : list (option Z))
| ExposeCallable (f : host_exn -> result unit pyval)
| ExposeOther.

Definition _exposure (value : expose_arg) : result exn (option (host_exn -> result unit pyval)) :=
  let by_classes cs :=
    if forallb (fun c => bool_decide (is_Some c)) cs then
      Ok (match cs with
          | [] => None
          | _ => Some (fun exc => Ok (PBool (existsb (fun c => mem_Z c (classes exc)) (omap id cs))))
          end)
    else Err (TypeError "expose_host_errors must hold exception classes (or be a callable)") in
  match value with
  | ExposeNone => Ok None
  | ExposeClass c => by_classes [c]
  | ExposeClasses cs => by_classes cs
  | ExposeCallable f => Ok (Some f)
  | ExposeOther => Err (TypeError "expose_host_errors must be an exception class, a collection of them, or a callable")
  end.

Inductive reply := ReplyValue (cid : Z) (v : pyval) | ReplyError (cid : Z) (err : list Z) (name : list Z).

Definition redacted_text : list Z := u "host function failed".

Definition _error_reply (redact : _Redaction) (cid : Z) (exc : host_exn) : reply :=
  ReplyError cid
    (if enabled redact && negb (_pydeno_public exc) && negb (exposes redact exc) then redacted_text else text exc)
    (if is_wire_error exc then u "TypeError" else etype exc).

(** ** A worker's error, for the host *)

Definition _MAX_REMOTE_MESSAGE : nat := 64 * 1024.

Inductive remote_class :=
| JavaScriptError | RuntimeTimeout | RuntimeTerminated | RuntimeForceKilled | PyRuntimeError | PyValueError | PyTypeError.

Definition _ERROR_CLASSES (kind : list Z) : option remote_class :=
  if bool_decide (kind = u "JavaScriptError") then Some JavaScriptError
  else if bool_decide (kind = u "RuntimeTimeout") then Some RuntimeTimeout
  else if bool_decide (kind = u "RuntimeTerminated") then Some RuntimeTerminated
  else if bool_decide (kind = u "RuntimeForceKilled") then Some RuntimeForceKilled
  else if bool_decide (kind = u "RuntimeError") then Some PyRuntimeError
  else if bool_decide (kind = u "ValueError") then Some PyValueError
  else if bool_decide (kind = u "TypeError") then Some PyTypeError
  else None.

Definition _clean (s : list Z) (limit : nat) : list Z := take limit (inert s).

(** The needles of [_HOST_DETAIL], with the setting each note names. *)
Definition _HOST_DETAIL : list (list Z * option (list Z)) := [
  (u "Serialization size limit exceeded", Some (u "max_serialization_bytes"));
  (u "Serialization depth limit exceeded", Some (u "max_serialization_depth"));
  (u "BigInt value is too large to transfer", None);
  (u "Module resolution denied for ", None)].

(** The index of the note added, if its setting is there. *)
Definition _add_host_detail (txt : list Z) (config : list (list Z)) : option nat :=
  '(i, (_, setting)) ← list_find (fun '(needle, _) => Is_true (contains needle txt)) _HOST_DETAIL;
  match setting with
  | Some k => if bool_decide (k ∈ config) then Some i else None
  | None => Some i
  end.

Record remote_error := RemoteError { rclass : remote_class; rtext : list Z; rnote : option nat }.

(** [config]: the keys of the runtime's configuration. *)
Definition _remote_error (kind msg : pyval) (config : list (list Z)) : remote_error :=
  let cls := match kind with PStr k => default PyRuntimeError (_ERROR_CLASSES k) | _ => PyRuntimeError end in
  match msg with
  | PStr txt =>
      let txt := if (_MAX_REMOTE_MESSAGE <? length txt)%nat
                 then take _MAX_REMOTE_MESSAGE txt ++ u "... [" ++
                      u (str_of_int (Z.of_nat (length txt) - Z.of_nat _MAX_REMOTE_MESSAGE)) ++ u " more characters]"
                 else txt in
      RemoteError cls (inert txt) (_add_host_detail txt config)
  | _ => RemoteError cls (u "worker reported an error") None
  end.

(** ** Laws *)

Lemma flag_mention_last name flags f : _bool_flag_setting (flags ++ [f]) name = flag_mention name (_bool_flag_setting flags name) f.
Proof. unfold _bool_flag_setting. by rewrite foldl_app. Qed.

(** Whether a flag is mentioned by later ones or not, the setting is not lost, only overridden. *)
Lemma flag_setting_app name a b : _bool_flag_setting (a ++ b) name =
  match _bool_flag_setting b name with Some v => Some v | None => _bool_flag_setting a name end.
Proof.
  induction b as [|f b IH] using rev_ind; [by rewrite app_nil_r|].
  rewrite app_assoc, !flag_mention_last, IH. unfold flag_mention. destruct f; [|done]. by repeat case_match.
Qed.

Lemma strict_mention v : flag_mention _STRICT_EVAL_NAME v (Some _STRICT_EVAL_FLAG) = Some true.
Proof. by vm_compute. Qed.

Lemma strict_mention_freeze v : flag_mention freeze_name v (Some _STRICT_EVAL_FLAG) = v.
Proof. destruct v as [[]|]; by vm_compute. Qed.

Lemma bare_seed seed : exists t, bare_flag (seed_flag seed) = chr "r" :: t.
Proof. eexists. reflexivity. Qed.

Lemma seed_mention seed : _bool_flag_setting (match seed with None => [] | Some s => [Some (seed_flag s)] end) freeze_name = None.
Proof.
  destruct seed as [n|]; [|done]. cbn [_bool_flag_setting foldl flag_mention]. destruct (bare_seed n) as [t ->].
  by rewrite !bool_decide_false by (vm_compute; discriminate).
Qed.

Lemma own_flags_freeze jitless seed : _bool_flag_setting (own_flags jitless seed) freeze_name = Some true.
Proof.
  unfold own_flags. rewrite app_assoc, flag_setting_app, seed_mention. destruct jitless; by vm_compute.
Qed.

(** [strict_eval=True] holds: whatever V8 flags the caller adds, a list of worker flags
    that is accepted leaves code generation from strings disallowed and the flags frozen, as
    V8 reads them (the last mention wins); and the hardening and [--jitless] flags are in it. *)
Theorem strict_eval_holds undone jitless seed flags out :
  _worker_v8_flags undone jitless seed flags (Some true) = Ok out ->
  _strict_eval_setting out = Some true /\ _bool_flag_setting out freeze_name = Some true /\
  (jitless = true -> Some (u "--jitless") ∈ out).
Proof.
  unfold _worker_v8_flags. cbn [andb]. intros H. inv_ok. cbn [existsb] in *. bool_prop. split_and!.
  - unfold _strict_eval_setting. rewrite app_assoc, flag_mention_last. apply strict_mention.
  - rewrite app_assoc, flag_mention_last, strict_mention_freeze, flag_setting_app, own_flags_freeze.
    destruct (_bool_flag_setting flags freeze_name) as [[]|]; [done| |done]. by rewrite bool_decide_true in *.
  - intros ->. apply elem_of_app. left. unfold own_flags. apply elem_of_app. left. by apply list_elem_of_singleton.
Qed.

Lemma strict_eval_holds_witness :
  let flags := [Some (u "--no-freeze_flags_after_init"); Some (u "--freeze-flags-after-init")] in
  exists out, _worker_v8_flags (fun _ => []) true (Some 7) flags (Some true) = Ok out /\
    _strict_eval_setting out = Some true /\ _bool_flag_setting out freeze_name = Some true.
Proof.
  intros flags. destruct (_worker_v8_flags (fun _ => []) true (Some 7) flags (Some true)) as [out|] eqn:E;
    [|vm_compute in E; discriminate].
  exists out. split; [reflexivity|]. destruct (strict_eval_holds _ _ _ _ _ E) as (H1 & H2 & _). split; assumption.
Defined.
