(* ===== verification/Isolated.v ===== *)
(** * The parent of a worker ([python/pydeno/_isolated.py], [IsolatedRuntime])

    The commands of a runtime and what its parent does with the frames a worker sends while
    one runs: supervision, host callbacks, replies, errors, binding and revoking capabilities.
    The worker is the adversary: what it sends, when it stops reading and what the kernel
    reports of it are the [input]s of a command, in any order.  What the host's functions do
    (their outcome, how long they take) is input too.

    Commands hold the runtime's lock, so they come one after the other; a callback that ends on
    the event loop and a pass of the watchdog come between the steps of a command.  Times are
    milliseconds.  The start-up handshake is not modelled, and of a [fork()] of the host only that
    its commands are refused.

    [log] is the history of the runtime, oldest first. *)

From S2P Require Import Prelude Utf8 PyVal PyStr Results ToolBridge Pump HostSide.

Definition _POLL_SECONDS : Z := 100.
Definition _RSS_EVERY_SECONDS : Z := 50.
Definition _MAX_WORKER_THREADS : Z := 64.
Definition _REVOKED_MEMORY : nat := 4096.
Definition MAX_ABANDONED_TOOL_CALLS : Z := 8.
Definition _IDLE_CPU_LIMIT_SECONDS : Z := 2000.
Definition _CPU_CAP_FACTOR : Z := 2.
Definition DEFAULT_REQUEST_TIMEOUT : Z := 60000.

(** ** State *)

Inductive hfn := ConsoleFn | ResolverFn | LoaderFn | ToolFn | RevokedFn.
Record handler := Handler { h_fn : hfn; h_async : bool; h_untimed : bool }.

Inductive output :=
| Registered (hid : Z)
| GaveToken (token hid : Z)
| RevokeCalled (token : Z)
| SentCommand (id : Z)
| SentReply (r : reply)
| SentClose
| Invoked (hid : Z) (args : list pyval)
| Killed.

Record caps := Caps {
  _handlers : gmap Z handler; _token_to_hid : gmap Z Z; _tool_hids : gset Z;
  _revoked_hids : list Z; _next_hid : Z; _bound_names : list (list Z)
}.

(** [_running]: the asynchronous calls, each with its [cid] and its command. *)
Record counters := Counters {
  _host_calls : Z; _async_inflight : Z; _running : gmap Z (Z * Z); _next_call : Z; _outlasted : Z
}.

(** The command in flight.  [has_loop]: whether it came with an event loop. *)
Record command := Command {
  _next_cmd : Z; _current_cmd : option Z; _gate_refusals : gmap Z host_exn; pump : _Pump; has_loop : bool;
  _idle_cpu_base : option Z; _idle_since : Z
}.

Record rt := RT {
  rcaps : caps; rcnt : counters; rcmd : command;
  _closed : bool; _kill_reason : option string; _last_rss_check : Z; log : list output
}.

(** The options of a runtime that do not change once it is in use.  [request_timeout] is
    [None] for the default. *)
Record opts := Opts {
  _max_host_calls : option Z; _max_inflight : option Z; _tool_timeout : option Z; _max_memory : option Z;
  console_hid : option Z; _redact : _Redaction; config_keys : list (list Z);
  _max_host_wait : option Z; _request_timeout : option (option Z); _grace : Z
}.

(** ** Inputs *)

(** One reading of the worker's usage: resident bytes, CPU time, threads. *)
Record sample := Sample { rss : option Z; cpu : option Z; threads : option Z }.

(** How a host function ended; [Aborted]: with an exception that is not an [Exception]. *)
Inductive outcome := Returned (v : pyval) | Raised (e : host_exn) | Aborted.

(** How a write to the worker ended; [SendFails]: the message could not be encoded. *)
Inductive send_res := SendOk | SendFails (e : host_exn) | SendStalls | SendOs.

(** How a call under [tool_timeout] went: it ended in time, or as it was being abandoned, or it
    is abandoned (begun or not), or it got no thread. *)
Inductive timed := EndedInTime | EndedRacing | Stuck (started : bool) | NoThread (e : host_exn).

(** What goes with a [call] frame: the clock, the watchdog's passes while the function runs,
    what the function does and a gate's refusal it met, and the writes of the reply. *)
Record call_input := CallInput {
  ci_begin : Z; ci_end : Z; ci_passes : list (Z * sample); ci_out : outcome; ci_refused : option host_exn;
  ci_timed : timed; ci_loop : option host_exn; ci_w1 : send_res; ci_w2 : send_res
}.

Abbreviation message := (list (list Z * pyval)).

(** [message.get(key)] *)
Fixpoint get_field (m : message) (key : list Z) : pyval :=
  match m with [] => PNone | (k, v) :: m' => if bool_decide (k = key) then v else get_field m' key end.

Inductive input :=
| ReadTimeout (now : Z) (s : sample)
| ReadFrame (now : Z) (s : sample) (m : option message) (c : call_input)
| ReadEof (now : Z) (s : sample)
| ReadFault (os : bool)
| Interrupt
| AsyncEnds (key now : Z) (o : outcome) (refused : option host_exn) (w1 w2 : send_res)
| AsyncStuck (key now : Z) (w1 w2 : send_res)
| LateEnd
| Watchdog (now : Z) (s : sample).

(** What goes with a command: the clock, the CPU baseline, whether the caller is a host function
    of this runtime, whether it is a [fork()] of the process the runtime belongs to, whether the
    wait for a command of another thread runs out, the event loop, the write of the command, what
    happens then, and the clock and the CPU reading at its end. *)
Record request := Request {
  rq_now : Z; rq_cpu : option Z; rq_reentrant : bool; rq_forked : bool; rq_slot_late : bool; rq_loop : bool; rq_send : send_res; rq_inputs : list input;
  rq_end : Z; rq_end_cpu : option Z
}.

(** ** Errors and effects *)

(** [SlotTimeout]: the [RuntimeTimeout] of [_acquire_slot].  [Waiting]: the inputs end while the
    command runs.  [BudgetExceeded], [WireFault],
    [Malformed] and [OsFault] do not leave [_pump]. *)
Inductive rt_exn :=
| Crashed (msg : string) | TimedOut (msg : string) | Remote (e : remote_error) | Refused (e : host_exn)
| Python (e : exn) | SlotTimeout | Interrupted | Waiting
| BudgetExceeded | WireFault | Malformed | OsFault.

Definition M (A : Type) : Type := rt -> result rt_exn A * rt.
#[export] Instance M_ret : MRet M := fun A a st => (Ok a, st).
#[export] Instance M_bind : MBind M := fun A B f m st =>
  match m st with (Ok a, st) => f a st | (Err e, st) => (Err e, st) end.

Definition raise {A} (e : rt_exn) : M A := fun st => (Err e, st).
Definition gets {A} (f : rt -> A) : M A := fun st => (Ok (f st), st).
Definition modify (f : rt -> rt) : M unit := fun st => (Ok tt, f st).
(** [finally]: a step that does not raise, after [m] however it ended. *)
Definition finally {A} (m : M A) (f : rt -> rt) : M A := fun st => let '(r, st) := m st in (r, f st).
(** The same for a command, except while it is still running. *)
Definition unless_waiting {A} (m : M A) (f : rt -> rt) : M A := fun st =>
  match m st with (Err Waiting, st) => (Err Waiting, st) | (r, st) => (r, f st) end.
(** [except]: a handler for what [m] raised. *)
Definition except {A} (m : M A) (h : rt_exn -> M A) : M A := fun st =>
  match m st with (Ok a, st) => (Ok a, st) | (Err e, st) => h e st end.

Definition upd_caps (f : caps -> caps) (st : rt) : rt :=
  RT (f (rcaps st)) (rcnt st) (rcmd st) (_closed st) (_kill_reason st) (_last_rss_check st) (log st).
Definition upd_cnt (f : counters -> counters) (st : rt) : rt :=
  RT (rcaps st) (f (rcnt st)) (rcmd st) (_closed st) (_kill_reason st) (_last_rss_check st) (log st).
Definition upd_cmd (f : command -> command) (st : rt) : rt :=
  RT (rcaps st) (rcnt st) (f (rcmd st)) (_closed st) (_kill_reason st) (_last_rss_check st) (log st).
Definition upd_pump (f : _Pump -> _Pump) : rt -> rt :=
  upd_cmd (fun c => Command (_next_cmd c) (_current_cmd c) (_gate_refusals c) (f (pump c)) (has_loop c) (_idle_cpu_base c) (_idle_since c)).
Definition set_refusals (m : gmap Z host_exn) : rt -> rt :=
  upd_cmd (fun c => Command (_next_cmd c) (_current_cmd c) m (pump c) (has_loop c) (_idle_cpu_base c) (_idle_since c)).
Definition emit (o : output) : M unit := modify (fun st =>
  RT (rcaps st) (rcnt st) (rcmd st) (_closed st) (_kill_reason st) (_last_rss_check st) (log st ++ [o])).
Definition set_reason (why : string) : M unit := modify (fun st =>
  RT (rcaps st) (rcnt st) (rcmd st) (_closed st) (Some why) (_last_rss_check st) (log st)).

Definition _kill : M unit := modify (fun st =>
  RT (rcaps st) (rcnt st) (rcmd st) true (_kill_reason st) (_last_rss_check st) (log st ++ [Killed])).

Definition crash {A} (msg : string) : M A := _ ← _kill; raise (Crashed msg).
(** [_describe_death]: the watchdog's reason if it has one. *)
Definition crash_described {A} (prefix : string) : M A :=
  _ ← _kill; why ← gets _kill_reason; raise (Crashed (default prefix why)).

Section Runtime.
Variable o : opts.

(** ** Supervision *)

Definition over (limit value : option Z) : bool :=
  match limit, value with Some l, Some v => l <? v | _, _ => false end.

Definition _check_memory (force : bool) (now : Z) (s : sample) : M (option Z) :=
  last ← gets _last_rss_check;
  if negb force && (now - last <? _RSS_EVERY_SECONDS) then mret None
  else
    _ ← modify (fun st => RT (rcaps st) (rcnt st) (rcmd st) (_closed st) (_kill_reason st) now (log st));
    if over (Some _MAX_WORKER_THREADS) (threads s) then
      _ ← set_reason "worker started too many threads; killed"; crash "worker started too many threads; killed"
    else if over (_max_memory o) (rss s) then
      _ ← set_reason "worker used too many bytes, over max_memory; killed"; crash "worker used too many bytes, over max_memory; killed"
    else mret (cpu s).

Definition _supervise (now : Z) (s : sample) : M unit :=
  p ← gets (fun st => pump (rcmd st));
  if expired now p then _ ← _kill; raise (TimedOut "worker exceeded its hard deadline and was killed")
  else if waited_too_long now p then _ ← _kill; raise (TimedOut "host callbacks kept the guest waiting; worker killed")
  else
    now_cpu ← _check_memory true now s;
    if match cpu_start p, now_cpu with
       | Some c0, Some c => over (cpu_cap p) (Some (c - c0))
       | _, _ => false
       end
    then _ ← _kill; raise (TimedOut "worker used too much CPU in one command and was killed")
    else mret tt.

(** A pass of [_idle_check] while a host handler runs: the verdict it leaves for the pump. *)
Definition watch_pass (now : Z) (s : sample) : M (option rt_exn) :=
  closed ← gets _closed;
  if (closed : bool) then mret None
  else except (_ ← _supervise now s; mret None)
         (fun e => match e with TimedOut _ => mret (Some e) | Crashed _ => mret None | _ => raise e end).

Fixpoint watch (passes : list (Z * sample)) : M (option rt_exn) :=
  match passes with
  | [] => mret None
  | (now, s) :: passes' => v ← watch_pass now s; v' ← watch passes'; mret (match v' with Some e => Some e | None => v end)
  end.

(** ** Replies *)

Definition _error (cid : Z) (e : host_exn) : reply := _error_reply (_redact o) cid e.
Definition reply_cid (r : reply) : Z := match r with ReplyValue c _ => c | ReplyError c _ _ => c end.

(** [ends]: [pump.end_call()] afterwards, at that time. *)
Definition _send_reply (r : reply) (ends : option Z) (w1 w2 : send_res) : M unit :=
  finally (A := unit)
    (closed ← gets _closed;
     if (closed : bool) then mret tt
     else match w1 with
          | SendOk => emit (SentReply r)
          | SendFails e =>
              match w2 with
              | SendOk => emit (SentReply (_error (reply_cid r) e))
              | SendFails _ => raise Malformed
              | SendStalls => _kill
              | SendOs => mret tt
              end
          | SendStalls => _kill
          | SendOs => mret tt
          end)
    (match ends with Some now => upd_pump (end_call now) | None => id end).

Definition outcome_reply (cid : Z) (out : outcome) : option reply :=
  match out with
  | Returned v => Some (ReplyValue cid v)
  | Raised e => Some (_error cid e)
  | Aborted => None
  end.

Definition _record_refusal (cmd : option Z) (e : option host_exn) : M unit :=
  cur ← gets (fun st => _current_cmd (rcmd st));
  match e, cmd, cur with
  | Some e, Some c, Some c' =>
      if c =? c' then modify (fun st => set_refusals (match _gate_refusals (rcmd st) !! c with
                                                      | Some _ => _gate_refusals (rcmd st)
                                                      | None => <[c := e]> (_gate_refusals (rcmd st)) end) st)
      else mret tt
  | _, _, _ => mret tt
  end.

(** ** Host callbacks *)

Definition tool_timeout_error : host_exn := HostExn (u "TimeoutError") (u "host function timed out") [] false true.

(** The check of the arguments a handler makes before the host's function. *)
Definition accepts (fn : hfn) (args : list pyval) : bool :=
  match fn with
  | RevokedFn => false
  | ConsoleFn => console_call_ok args
  | ResolverFn => specifiers_ok 2 args
  | LoaderFn => specifiers_ok 1 args
  | ToolFn => true
  end.
Definition unhashable (v : pyval) : bool :=
  match v with PList _ => true | PDict _ => true | PSet _ => true | _ => false end.
Definition refusal_of (fn : hfn) (args : list pyval) : host_exn :=
  match fn with
  | RevokedFn => HostExn (u "PermissionError") (u "capability revoked") [] false false
  | ConsoleFn =>
      match args with
      | [level; _] | [level; _; _] =>
          if unhashable level then HostExn (u "TypeError") (u "unhashable type") [] false false
          else HostExn (u "ValueError") (u "invalid console call") [] false false
      | _ => HostExn (u "ValueError") (u "invalid console call") [] false false
      end
  | _ => HostExn (u "ValueError") (u "invalid module specifier") [] false false
  end.

(** Call the handler: its own check of the arguments, then the host's function.  A gated loader
    may meet a refusal. *)
Definition invoke (hid : Z) (fn : hfn) (args : list pyval) (ci : call_input) : M outcome :=
  if accepts fn args then
    _ ← emit (Invoked hid args);
    cmd ← gets (fun st => _current_cmd (rcmd st));
    _ ← (match fn with LoaderFn => _record_refusal cmd (ci_refused ci) | _ => mret tt end);
    mret (ci_out ci)
  else mret (Raised (refusal_of fn args)).

Definition _run_sync_handler (hid : Z) (fn : hfn) (args : list pyval) (cid : Z) (ends : option Z) (ci : call_input) : M (option rt_exn) :=
  out ← invoke hid fn args ci;
  verdict ← watch (ci_passes ci);
  match outcome_reply cid out with
  | None => raise Interrupted
  | Some r => _ ← _send_reply r ends (ci_w1 ci) (ci_w2 ci); mret verdict
  end.

Definition _too_many_outlasted : M unit := _ ← set_reason "too many abandoned tool calls in this session; worker killed"; _kill.

(** The abandonment of a call that has not ended: the calls now outstanding past their deadline. *)
Definition abandon (started : bool) : M Z :=
  _ ← modify (upd_cnt (fun c => Counters (_host_calls c) (_async_inflight c) (_running c) (_next_call c)
                                  (if started then _outlasted c + 1 else _outlasted c)));
  gets (fun st => _outlasted (rcnt st)).

Definition _run_timed_handler (hid : Z) (fn : hfn) (args : list pyval) (cid : Z) (ends : option Z) (ci : call_input) : M (option rt_exn) :=
  let send r := _send_reply r ends (ci_w1 ci) (ci_w2 ci) in
  let stuck started verdict :=
    count ← abandon started;
    if MAX_ABANDONED_TOOL_CALLS <? count then
      _ ← _too_many_outlasted; _ ← send (_error cid tool_timeout_error); raise (Crashed "too many abandoned tool calls in this session")
    else _ ← send (_error cid tool_timeout_error); mret verdict in
  match ci_timed ci with
  | NoThread e => verdict ← watch (ci_passes ci); _ ← send (_error cid e); mret verdict
  | Stuck false => verdict ← watch (ci_passes ci); stuck false verdict
  | Stuck true => _ ← invoke hid fn args ci; verdict ← watch (ci_passes ci); stuck true verdict
  | EndedInTime | EndedRacing =>
      out ← invoke hid fn args ci; verdict ← watch (ci_passes ci);
      match outcome_reply cid out with
      | None => raise Malformed
      | Some r => _ ← send r; mret verdict
      end
  end.

Definition _run_watched (hid : Z) (fn : hfn) (args : list pyval) (cid : Z) (ends limit : option Z) (ci : call_input) : M unit :=
  verdict ← match limit with
            | None => _run_sync_handler hid fn args cid ends ci
            | Some _ => _run_timed_handler hid fn args cid ends ci
            end;
  match verdict with Some e => raise e | None => mret tt end.

(** [isinstance(v, int)]: a bool is one. *)
Definition as_int (v : pyval) : option Z :=
  match v with PInt z => Some z | PBool b => Some (Z.b2z b) | _ => None end.
(** [v == n] for an int [n]. *)
Definition eq_int (v : pyval) (n : Z) : bool :=
  match v with PInt z => z =? n | PBool b => Z.b2z b =? n | PFloat f => float_in n f n | _ => false end.

(** [entry], from one lookup, or the stand-in for a capability revoked a moment ago. *)
Definition call_entry (hid : pyval) : M (option (Z * handler)) :=
  cs ← gets rcaps;
  match (h ← as_int hid; e ← _handlers cs !! h; Some (h, e)) with
  | Some e => mret (Some e)
  | None =>
      if unhashable hid then raise Malformed
      else mret (match List.find (eq_int hid) (_revoked_hids cs) with
                 | Some h => Some (h, Handler RevokedFn false false)
                 | None => None
                 end)
  end.

(** Start an asynchronous call on the command's loop. *)
Definition start_async (hid : Z) (fn : hfn) (args : list pyval) (cid : Z) (ci : call_input) : M unit :=
  match ci_loop ci with
  | Some e => _send_reply (_error cid e) (Some (ci_end ci)) (ci_w1 ci) (ci_w2 ci)
  | None =>
      _ ← (if accepts fn args then emit (Invoked hid args) else mret tt);
      modify (fun st => upd_cnt (fun c =>
        Counters (_host_calls c) (_async_inflight c + 1)
          (<[_next_call c := (cid, default 0 (_current_cmd (rcmd st)))]> (_running c)) (_next_call c + 1) (_outlasted c)) st)
  end.

Definition too_many_in_flight (k : Z) : list Z := u "more than " ++ u (str_of_int k) ++ u " host calls in flight".

(** Console output does not count against [max_host_calls]. *)
Definition charge_call (console : bool) : M unit :=
  if console then mret tt
  else
    _ ← modify (upd_cnt (fun c => Counters (_host_calls c + 1) (_async_inflight c) (_running c) (_next_call c) (_outlasted c)));
    n ← gets (fun st => _host_calls (rcnt st));
    if over (_max_host_calls o) (Some n) then raise BudgetExceeded else mret tt.

Definition in_flight_full (p : _Pump) (c : counters) : bool :=
  match _max_inflight o with Some k => (k <=? _outstanding p) || (k <=? _async_inflight c) | None => false end.

Definition run_call (console : bool) (hid : Z) (h : handler) (args : list pyval) (cid : Z) (ci : call_input) : M unit :=
  if console then
    _ ← modify (upd_pump (begin_console (ci_begin ci)));
    finally (_run_watched hid (h_fn h) args cid None None ci) (upd_pump (end_console (ci_end ci)))
  else
    p ← gets (fun st => pump (rcmd st)); cnt ← gets rcnt;
    if in_flight_full p cnt then
      _send_reply (ReplyError cid (too_many_in_flight (default 0 (_max_inflight o))) (u "RuntimeError")) None (ci_w1 ci) (ci_w2 ci)
    else
      tools ← gets (fun st => _tool_hids (rcaps st)); loop ← gets (fun st => has_loop (rcmd st));
      let limit := if bool_decide (hid ∈ tools) && negb (h_untimed h) then _tool_timeout o else None in
      _ ← modify (upd_pump (begin_call (ci_begin ci)));
      if h_async h && (loop : bool) then start_async hid (h_fn h) args cid ci
      else _run_watched hid (h_fn h) args cid (Some (ci_end ci)) limit ci.

Definition _on_call (m : message) (ci : call_input) : M unit :=
  entry ← call_entry (get_field m (u "hid"));
  match get_field m (u "cid"), entry, get_field m (u "args") with
  | PInt cid, Some (hid, h), PList args =>
      let console := match console_hid o with Some c => hid =? c | None => false end in
      _ ← charge_call console; run_call console hid h args cid ci
  | _, _, _ => raise WireFault
  end.

(** [_finish_async_call]: a done callback, whose own errors go nowhere. *)
Definition _finish_async_call (key now : Z) (out : outcome) (refused : option host_exn) (w1 w2 : send_res) : M unit :=
  running ← gets (fun st => _running (rcnt st));
  match running !! key with
  | None => mret tt
  | Some (cid, cmd) =>
      _ ← _record_refusal (Some cmd) refused;
      _ ← modify (upd_cnt (fun c => Counters (_host_calls c) (_async_inflight c - 1) (delete key (_running c)) (_next_call c) (_outlasted c)));
      cur ← gets (fun st => _current_cmd (rcmd st));
      let ends := if bool_decide (cur = Some cmd) then Some now else None in
      let r := match out with
               | Returned v => ReplyValue cid v
               | Raised e => _error cid e
               | Aborted => _error cid (HostExn (u "CancelledError") [] [] false false)
               end in
      except (_send_reply r ends w1 w2) (fun _ => mret tt)
  end.

(** A pass of the watchdog with no handler running: memory and threads while a command has the
    runtime; an idle worker's CPU too, which may grow by a hundredth of the idle time. *)
Definition _idle_check (now : Z) (s : sample) : M unit :=
  closed ← gets _closed; cmd ← gets rcmd;
  if (closed : bool) then mret tt
  else match _current_cmd cmd with
       | Some _ => except (_ ← _check_memory false now s; mret tt) (fun _ => mret tt)
       | None =>
           except
             (now_cpu ← _check_memory true now s;
              match _idle_cpu_base cmd, now_cpu with
              | Some base, Some c =>
                  if 100 * _IDLE_CPU_LIMIT_SECONDS + (now - _idle_since cmd) <? 100 * (c - base) then _kill else mret tt
              | _, _ => mret tt
              end)
             (fun _ => mret tt)
       end.

(** Inputs that may come at any time. *)
Definition background (i : input) : M unit :=
  match i with
  | AsyncEnds key now out refused w1 w2 => _finish_async_call key now out refused w1 w2
  | AsyncStuck key now w1 w2 =>
      running ← gets (fun st => _running (rcnt st));
      if bool_decide (is_Some (running !! key)) then
        count ← abandon true;
        _ ← (if MAX_ABANDONED_TOOL_CALLS <? count then _too_many_outlasted else mret tt);
        _finish_async_call key now (Raised tool_timeout_error) None w1 w2
      else mret tt
  | LateEnd =>
      modify (upd_cnt (fun c => Counters (_host_calls c) (_async_inflight c) (_running c) (_next_call c)
                                  (if 0 <? _outlasted c then _outlasted c - 1 else _outlasted c)))
  | Watchdog now s => _idle_check now s
  | _ => mret tt
  end.

(** ** The pump *)

(** The answer of a command: its value, or the guest's own error. *)
Abbreviation answer := (pyval + remote_error)%type.

Definition on_frame (id now : Z) (s : sample) (m : message) (c : call_input) : M (option answer) :=
  let kind := get_field m (u "t") in
  match kind with
  | PStr k =>
      if bool_decide (k = u "call") then _ ← _on_call m c; mret None
      else if (bool_decide (k = u "result") || bool_decide (k = u "error")) && eq_int (get_field m (u "id")) id then
        _ ← _check_memory true now s;
        if bool_decide (k = u "result") then mret (Some (inl (get_field m (u "v"))))
        else mret (Some (inr (_remote_error (get_field m (u "kind")) (get_field m (u "msg")) (config_keys o))))
      else raise WireFault
  | _ => raise WireFault
  end.

Fixpoint pump_loop (id last_check : Z) (inputs : list input) : M answer :=
  match inputs with
  | [] => raise Waiting
  | i :: inputs' =>
      match i with
      | ReadTimeout now s => _ ← _supervise now s; pump_loop id now inputs'
      | ReadFault os => raise (if os then OsFault else WireFault)
      | Interrupt => raise Interrupted
      | ReadEof now s =>
          _ ← (if _POLL_SECONDS <=? now - last_check then _supervise now s else mret tt);
          crash_described "worker process died"
      | ReadFrame now s m c =>
          let check := _POLL_SECONDS <=? now - last_check in
          _ ← (if check then _supervise now s else mret tt);
          match m with
          | None => raise WireFault
          | Some m =>
              r ← on_frame id now s m c;
              match r with
              | Some a => mret a
              | None => pump_loop id (if check then now else last_check) inputs'
              end
          end
      | _ => _ ← background i; pump_loop id last_check inputs'
      end
  end.

Definition _pump (id now : Z) (inputs : list input) : M pyval :=
  a ← except (pump_loop id now inputs) (fun e =>
        match e with
        | Crashed _ | TimedOut _ | Waiting => raise e
        | BudgetExceeded => crash "guest made more than max_host_calls host calls"
        | WireFault => crash "worker broke protocol"
        | OsFault => crash_described "lost the worker"
        | Interrupted => _ ← _kill; raise Interrupted
        | _ => crash "worker sent a malformed frame"
        end);
  match a with inl v => mret v | inr e => raise (Remote e) end.

Definition _raise_refusal (id : Z) : M unit :=
  refusals ← gets (fun st => _gate_refusals (rcmd st));
  _ ← modify (set_refusals (delete id refusals));
  match refusals !! id with Some e => raise (Refused e) | None => mret tt end.

Definition _hard_timeout (soft : option Z) : option Z :=
  match _request_timeout o with
  | Some t => t
  | None => Some (match soft with None => DEFAULT_REQUEST_TIMEOUT | Some s => s + _grace o end)
  end.

(** The end of a command: nothing in flight. *)
Definition end_command (id now : Z) (cpu : option Z) : rt -> rt :=
  upd_cmd (fun c => Command (_next_cmd c) None (delete id (_gate_refusals c)) (pump c) (has_loop c) cpu now).

(** The wait for the command of another thread: bounded by this command's own deadline. *)
Definition _acquire_slot (hard : option Z) (late : bool) : M unit :=
  match hard with
  | None => mret tt
  | Some _ => if late then raise SlotTimeout else mret tt
  end.

Definition _request (soft : option Z) (rq : request) : M pyval :=
  if rq_reentrant rq then raise (Python (RuntimeError "an IsolatedRuntime cannot be re-entered from its own host functions")) else
  if rq_forked rq then raise (Python (RuntimeError "this IsolatedRuntime belongs to the process that created it, not to a fork() of it")) else
  let hard := _hard_timeout soft in
  _ ← _acquire_slot hard (rq_slot_late rq);
  closed ← gets _closed;
  if (closed : bool) then raise (Crashed "runtime is closed") else
  id ← gets (fun st => _next_cmd (rcmd st));
  let p := pump_init (rq_now rq) hard (_max_host_wait o) ((fun h => h * _CPU_CAP_FACTOR) <$> hard) (rq_cpu rq) in
  _ ← modify (upd_cmd (fun c => Command (id + 1) (_current_cmd c) (_gate_refusals c) p (rq_loop rq) (_idle_cpu_base c) (_idle_since c)));
  match rq_send rq with
  | SendFails e => raise (Python (if is_wire_error e then TypeError "value cannot be sent" else ValueError "value cannot be sent"))
  | SendStalls => crash "worker stopped reading its input; killed"
  | SendOs => crash_described "worker is gone"
  | SendOk =>
      _ ← emit (SentCommand id);
      _ ← modify (upd_cmd (fun c => Command (_next_cmd c) (Some id) (_gate_refusals c) (pump c) (has_loop c) (_idle_cpu_base c) (_idle_since c)));
      unless_waiting (A := pyval)
        (v ← except (_pump id (rq_now rq) (rq_inputs rq)) (fun e =>
               match e with Interrupted | Waiting => raise e | _ => _ ← _raise_refusal id; raise e end);
         _ ← _raise_refusal id; mret v)
        (end_command id (rq_end rq) (rq_end_cpu rq))
  end.

(** ** Capabilities *)

Definition pop_handler (hid : Z) : rt -> rt := upd_caps (fun c =>
  Caps (delete hid (_handlers c)) (_token_to_hid c) (_tool_hids c) (_revoked_hids c) (_next_hid c) (_bound_names c)).
Definition pop_handlers (hids : list Z) (st : rt) : rt := foldl (fun st h => pop_handler h st) st hids.

(** [hid = next(self._hids); self._handlers[hid] = h], and [tool_hids] for a tool. *)
Definition new_handler (h : handler) (tool : bool) : M Z :=
  hid ← gets (fun st => _next_hid (rcaps st));
  _ ← modify (upd_caps (fun c =>
        Caps (<[hid := h]> (_handlers c)) (_token_to_hid c) (if tool then {[hid]} ∪ _tool_hids c else _tool_hids c)
          (_revoked_hids c) (hid + 1) (_bound_names c)));
  _ ← emit (Registered hid);
  mret hid.

(** [except BaseException: pop the handlers; raise].  A command that is still running has not raised. *)
Definition or_pop {A} (hids : list Z) (m : M A) : M A :=
  except m (fun e => match e with Waiting => raise e | _ => _ ← modify (pop_handlers hids); raise e end).

Definition _register_token (token hid : Z) : M unit :=
  tokens ← gets (fun st => _token_to_hid (rcaps st));
  match tokens !! token with
  | Some _ => _ ← modify (pop_handler hid); crash "worker reused a capability token"
  | None => modify (upd_caps (fun c =>
      Caps (_handlers c) (<[token := hid]> (_token_to_hid c)) (_tool_hids c) (_revoked_hids c) (_next_hid c) (_bound_names c)))
  end.

Definition add_name (name : list Z) : M unit := modify (upd_caps (fun c =>
  Caps (_handlers c) (_token_to_hid c) (_tool_hids c) (_revoked_hids c) (_next_hid c) (_bound_names c ++ [name]))).

Definition lift {A} (r : result exn A) : M A := match r with Ok a => mret a | Err e => raise (Python e) end.

Definition bind_function (name : pyval) (is_async untimed : bool) (rq : request) : M Z :=
  name ← lift (_check_name name);
  hid ← new_handler (Handler ToolFn is_async untimed) true;
  v ← or_pop [hid] (_request None rq);
  match v with
  | PInt token =>
      _ ← _register_token token hid; _ ← add_name name; _ ← emit (GaveToken token hid); mret token
  | _ => _ ← modify (pop_handler hid); crash "worker returned a malformed capability token"
  end.

(** An entry of the mapping: a callable (and whether it is async and untimed), or a value. *)
Abbreviation member := (pyval * option (bool * bool))%type.

Fixpoint check_keys (obj : list member) : result exn (list (list Z * option (bool * bool))) :=
  match obj with
  | [] => Ok []
  | (k, v) :: obj' => k ← _check_name k; rest ← check_keys obj'; Ok ((k, v) :: rest)
  end.

Fixpoint new_members (obj : list (list Z * option (bool * bool))) : M (list (list Z * Z)) :=
  match obj with
  | [] => mret []
  | (k, None) :: obj' => new_members obj'
  | (k, Some (is_async, untimed)) :: obj' =>
      hid ← new_handler (Handler ToolFn is_async untimed) true;
      rest ← new_members obj';
      mret ((k, hid) :: rest)
  end.

(** The worker's answer as tokens by key: a dict with exactly the callable keys, and token values. *)
Fixpoint token_items (kvs : list (pyval * pyval)) : option (list (list Z * Z)) :=
  match kvs with
  | [] => Some []
  | (PStr k, PInt t) :: kvs' => rest ← token_items kvs'; Some ((k, t) :: rest)
  | _ => None
  end.
Definition tokens_ok (hids : list (list Z * Z)) (v : pyval) : option (list (list Z * Z)) :=
  match v with
  | PDict kvs =>
      ts ← token_items kvs;
      if bool_decide (list_to_set (C := gset (list Z)) ts.*1 = list_to_set hids.*1) then Some ts else None
  | _ => None
  end.

Fixpoint register_all (hids : list (list Z * Z)) (ts : list (list Z * Z)) : M (list (Z * Z)) :=
  match ts with
  | [] => mret []
  | (k, t) :: ts' =>
      match list_find (fun e => e.1 = k) hids with
      | Some (_, (_, hid)) => _ ← _register_token t hid; rest ← register_all hids ts'; mret ((t, hid) :: rest)
      | None => raise Malformed
      end
  end.

Fixpoint give_tokens (ts : list (Z * Z)) : M unit :=
  match ts with [] => mret tt | (t, hid) :: ts' => _ ← emit (GaveToken t hid); give_tokens ts' end.

Definition bind_object (name : pyval) (obj : list member) (rq : request) : M (list (list Z * Z)) :=
  name ← lift (_check_name name);
  obj ← lift (check_keys obj);
  hids ← new_members obj;
  v ← or_pop hids.*2 (_request None rq);
  match tokens_ok hids v with
  | None => _ ← modify (pop_handlers hids.*2); crash "worker returned malformed capability tokens"
  | Some ts => pairs ← register_all hids ts; _ ← add_name name; _ ← give_tokens pairs; mret ts
  end.

(** [bool(v)] of a worker's answer. *)
Definition truthy (v : pyval) : bool :=
  match v with
  | PNone | PUndefined => false
  | PBool b => b
  | PInt z => negb (z =? 0)
  | PFloat f => negb (eq_int (PFloat f) 0)
  | PStr s => negb (bool_decide (s = []))
  | PBytes s => negb (bool_decide (s = []))
  | PList l | PTuple l | PSet l => match l with [] => false | _ => true end
  | PDict l => match l with [] => false | _ => true end
  | PObj _ => true
  end.

(** [_revoked_hids[hid] = None], the oldest dropped when there are too many. *)
Definition remember_revoked (hid : Z) (l : list Z) : list Z :=
  let l := if mem_Z hid l then l else l ++ [hid] in
  if (_REVOKED_MEMORY <? length l)%nat then drop 1 l else l.

Definition revoke_op (op_id : Z) (rq : request) : M bool :=
  _ ← emit (RevokeCalled op_id);
  _ ← modify (upd_caps (fun c =>
        match _token_to_hid c !! op_id with
        | None => c
        | Some hid => Caps (delete hid (_handlers c)) (delete op_id (_token_to_hid c)) (_tool_hids c ∖ {[hid]})
                        (remember_revoked hid (_revoked_hids c)) (_next_hid c) (_bound_names c)
        end));
  v ← _request None rq; mret (truthy v).

Definition set_module_handler (h : handler) (rq : request) : M unit :=
  hid ← new_handler h false;
  _ ← or_pop [hid] (_request None rq); mret tt.
Definition set_module_resolver (rq : request) : M unit := set_module_handler (Handler ResolverFn false false) rq.
Definition set_module_loader (is_async : bool) (rq : request) : M unit := set_module_handler (Handler LoaderFn is_async false) rq.

(** [close]: ask, then kill. *)
Definition close (send : send_res) : M unit :=
  closed ← gets _closed;
  if (closed : bool) then mret tt
  else
    _ ← modify (fun st => RT (rcaps st) (rcnt st) (rcmd st) true (_kill_reason st) (_last_rss_check st) (log st));
    _ ← (match send with SendOk => emit SentClose | _ => mret tt end);
    _kill.

(** ** Sessions *)

(** The calls a host makes of a runtime. *)
Inductive api :=
| Eval (soft : option Z) (rq : request)
| BindFunction (name : pyval) (is_async untimed : bool) (rq : request)
| BindObject (name : pyval) (obj : list member) (rq : request)
| RevokeOp (op_id : Z) (rq : request)
| SetResolver (rq : request)
| SetLoader (is_async : bool) (rq : request)
| Close (send : send_res)
| Background (i : input).

Definition run_api (a : api) : M unit :=
  match a with
  | Eval soft rq => _ ← _request soft rq; mret tt
  | BindFunction name is_async untimed rq => _ ← bind_function name is_async untimed rq; mret tt
  | BindObject name obj rq => _ ← bind_object name obj rq; mret tt
  | RevokeOp op_id rq => _ ← revoke_op op_id rq; mret tt
  | SetResolver rq => set_module_resolver rq
  | SetLoader is_async rq => set_module_loader is_async rq
  | Close send => close send
  | Background i => background i
  end.

(** A call in a [fork()] of the host: what it changes is the child's copy of the runtime. *)
Definition in_fork (a : api) : bool :=
  match a with
  | Eval _ rq | BindFunction _ _ _ rq | BindObject _ _ rq | RevokeOp _ rq | SetResolver rq | SetLoader _ rq => rq_forked rq
  | Close _ | Background _ => false
  end.

(** A session: the calls in turn, whatever they raise, until one is still running. *)
Fixpoint session (calls : list api) (st : rt) : rt :=
  match calls with
  | [] => st
  | a :: calls' =>
      if in_fork a then session calls' st
      else match run_api a st with (Err Waiting, st) => st | (_, st) => session calls' st end
  end.

(** A runtime after its start: at most the console handler is registered. *)
Definition rt_init : rt :=
  let cs := match console_hid o with
            | Some h => Caps {[h := Handler ConsoleFn false false]} ∅ ∅ [] (h + 1) []
            | None => Caps ∅ ∅ ∅ [] 1 []
            end in
  RT cs (Counters 0 0 ∅ 0 0) (Command 1 None ∅ (pump_init 0 None None None None) false None 0) false None 0
    (match console_hid o with Some h => [Registered h] | None => [] end).
End Runtime.
