(* ===== verification/IsolatedInv.v ===== *)
(** * Invariants of the parent of a worker

    What every step of a command preserves, proved once for any property of the runtime's
    state that is [stable] under the steps that do not call a host function, and that a host
    call may pass from [P] to [P' hid] (the call is in hand) and back. *)

From S2P Require Import Prelude Utf8 PyVal PyStr ToolBridge Pump HostSide Isolated.

Definition preserves {A} (P : rt -> Prop) (m : M A) : Prop := forall st, P st -> P (m st).2.

(** [m] takes a state with [P] to one with [Q a], or raises in a state with [E]. *)
Definition triple {A} (P : rt -> Prop) (m : M A) (Q : A -> rt -> Prop) (E : rt -> Prop) : Prop :=
  forall st, P st -> match m st with (Ok a, st') => Q a st' | (Err _, st') => E st' end.

Section Rules.
Context {A B : Type} (P : rt -> Prop).

Lemma preserves_ret (a : A) : preserves P (mret a : M A).
Proof. by intros st. Qed.
Lemma preserves_raise e : preserves P (raise e : M A).
Proof. by intros st. Qed.
Lemma preserves_gets (f : rt -> A) : preserves P (gets f).
Proof. by intros st. Qed.
Lemma preserves_modify f : (forall st, P st -> P (f st)) -> preserves P (modify f).
Proof. intros H st. apply H. Qed.
Lemma preserves_bind (m : M A) (f : A -> M B) : preserves P m -> (forall a, preserves P (f a)) -> preserves P (m ≫= f).
Proof.
  intros Hm Hf st Hs. unfold mbind, M_bind. pose proof (Hm st Hs) as H. destruct (m st) as [[a|e] st']; [|done]. by apply Hf.
Qed.
Lemma preserves_ret_bind (a : A) (f : A -> M B) : preserves P (f a) -> preserves P ((mret a : M A) ≫= f).
Proof. done. Qed.
Lemma preserves_finally (m : M A) f : preserves P m -> (forall st, P st -> P (f st)) -> preserves P (finally m f).
Proof. intros Hm Hf st Hs. unfold finally. pose proof (Hm st Hs). destruct (m st). by apply Hf. Qed.
Lemma preserves_unless_waiting (m : M A) f : preserves P m -> (forall st, P st -> P (f st)) -> preserves P (unless_waiting m f).
Proof.
  intros Hm Hf st Hs. unfold unless_waiting. pose proof (Hm st Hs) as H. destruct (m st) as [[a|e] st']; cbn in *; [by apply Hf|].
  destruct e; cbn; try done; by apply Hf.
Qed.
Lemma preserves_except (m : M A) h : preserves P m -> (forall e, preserves P (h e)) -> preserves P (except m h).
Proof. intros Hm Hh st Hs. unfold except. pose proof (Hm st Hs) as H. destruct (m st) as [[a|e] st']; [done|]. by apply Hh. Qed.

Lemma triple_bind (m : M A) (f : A -> M B) Q R E : triple P m Q E -> (forall a, triple (Q a) (f a) R E) -> triple P (m ≫= f) R E.
Proof.
  intros Hm Hf st Hs. unfold mbind, M_bind. specialize (Hm st Hs). destruct (m st) as [[a|e] st']; [|done]. by apply Hf.
Qed.
Lemma triple_gets (f : rt -> A) (Q : A -> rt -> Prop) E : (forall st, P st -> Q (f st) st) -> triple P (gets f) Q E.
Proof. intros H st Hs. by apply H. Qed.
Lemma triple_of_preserves (m : M A) : preserves P m -> triple P m (fun _ => P) P.
Proof. intros H st Hs. specialize (H st Hs). by destruct (m st) as [[]]. Qed.
Lemma preserves_of_triple (m : M A) : triple P m (fun _ => P) P -> preserves P m.
Proof. intros H st Hs. specialize (H st Hs). by destruct (m st) as [[]]. Qed.
End Rules.

Lemma triple_weaken {A} (P P0 : rt -> Prop) (m : M A) (Q Q0 : A -> rt -> Prop) (E E0 : rt -> Prop) :
  triple P0 m Q0 E0 -> (forall st, P st -> P0 st) -> (forall a st, Q0 a st -> Q a st) -> (forall st, E0 st -> E st) -> triple P m Q E.
Proof. intros H H1 H2 H3 st Hs. specialize (H st (H1 st Hs)). destruct (m st) as [[]]; auto. Qed.

(** ** The exceptions of a command *)

(** The parent's own. *)
Inductive own_exn : host_exn -> Prop :=
| own_timeout : own_exn tool_timeout_error
| own_refusal fn args : own_exn (refusal_of fn args)
| own_cancelled : own_exn (HostExn (u "CancelledError") [] [] false false).

(** Those the host's functions, its threads and the encoding of a reply raise. *)
Definition exn_of_send (w : send_res) : list host_exn := match w with SendFails e => [e] | _ => [] end.
Definition exn_of_outcome (out : outcome) : list host_exn := match out with Raised e => [e] | _ => [] end.
Definition exns_of_call (ci : call_input) : list host_exn :=
  exn_of_outcome (ci_out ci) ++ match ci_timed ci with NoThread e => [e] | _ => [] end ++
  match ci_loop ci with Some e => [e] | None => [] end ++ exn_of_send (ci_w1 ci).
Definition exns_of_input (i : input) : list host_exn :=
  match i with
  | ReadFrame _ _ _ c => exns_of_call c
  | AsyncEnds _ _ out _ w1 _ => exn_of_outcome out ++ exn_of_send w1
  | AsyncStuck _ _ w1 _ => exn_of_send w1
  | _ => []
  end.
Definition exns_of_request (rq : request) : list host_exn := concat (exns_of_input <$> rq_inputs rq).

(** The replies the parent sends, with the exceptions [X] they report. *)
Inductive shown (o : opts) (X : host_exn -> Prop) : reply -> Prop :=
| shown_value cid v : shown o X (ReplyValue cid v)
| shown_error cid e : own_exn e \/ X e -> shown o X (_error o cid e)
| shown_in_flight cid k name : _max_inflight o = Some k -> shown o X (ReplyError cid (too_many_in_flight k) name).

(** No exception in particular. *)
Definition any : host_exn -> Prop := fun _ => True.
Lemma Forall_any l : Forall any l.
Proof. by apply Forall_forall. Qed.

Definition push (x : output) (st : rt) : rt :=
  RT (rcaps st) (rcnt st) (rcmd st) (_closed st) (_kill_reason st) (_last_rss_check st) (log st ++ [x]).
Definition killed (st : rt) : rt :=
  RT (rcaps st) (rcnt st) (rcmd st) true (_kill_reason st) (_last_rss_check st) (log st ++ [Killed]).
Definition count_call : rt -> rt := upd_cnt (fun c =>
  Counters (_host_calls c + 1) (_async_inflight c) (_running c) (_next_call c) (_outlasted c)).

(** Stable under the steps that call no host function and change no capability. *)
Record stable (o : opts) (X : host_exn -> Prop) (P : rt -> Prop) : Prop := {
  st_cmd : forall f st, P st -> P (upd_cmd f st);
  st_cnt : forall f st, (forall c, _host_calls (f c) = _host_calls c) -> P st -> P (upd_cnt f st);
  st_misc : forall why now st, P st -> P (RT (rcaps st) (rcnt st) (rcmd st) (_closed st) why now (log st));
  st_kill : forall st, P st -> P (killed st);
  st_sent : forall r st, P st -> _closed st = false -> shown o X r -> P (push (SentReply r) st);
  st_command : forall id st, P st -> _closed st = false -> P (push (SentCommand id) st)
}.

Definition is_console (o : opts) (hid : Z) : bool := match console_hid o with Some c => hid =? c | None => false end.

(** A host call: from [P] to the call in hand, and back once it is made. *)
Record call_stable (o : opts) (X : host_exn -> Prop) (P : rt -> Prop) (P' : Z -> rt -> Prop) : Prop := {
  cs_quiet : stable o X P;
  cs_quiet' : forall hid, stable o X (P' hid);
  cs_over : forall st, P st -> P (count_call st);
  cs_begin : forall hid st, P st -> is_Some (_handlers (rcaps st) !! hid) -> is_console o hid = false ->
    over (_max_host_calls o) (Some (_host_calls (rcnt st) + 1)) = false -> P' hid (count_call st);
  cs_console : forall hid st, P st -> is_Some (_handlers (rcaps st) !! hid) -> is_console o hid = true -> P' hid st;
  cs_invoke : forall hid args st, P' hid st -> P (push (Invoked hid args) st);
  cs_weaken : forall hid st, P' hid st -> P st
}.

Section Quiet.
Context (o : opts) (X : host_exn -> Prop) (P : rt -> Prop) (HP : stable o X P).

Ltac pres :=
  repeat match goal with
  | |- preserves _ (_ ≫= _) => apply preserves_bind; [|intros ?]
  | |- preserves _ (mbind _ _) => apply preserves_bind; [|intros ?]
  | |- preserves _ (mret _) => apply preserves_ret
  | |- preserves _ (raise _) => apply preserves_raise
  | |- preserves _ (gets _) => apply preserves_gets
  | |- preserves _ (finally _ _) => apply preserves_finally; [|intros ? ?]
  | |- preserves _ (unless_waiting _ _) => apply preserves_unless_waiting; [|intros ? ?]
  | |- preserves _ (except _ _) => apply preserves_except; [|intros ?]
  | |- preserves _ (if ?b then _ else _) => destruct b
  | |- preserves _ (match ?x with _ => _ end) => destruct x
  | |- preserves _ (let '_ := ?x in _) => destruct x
  end.

Lemma kill_preserves : preserves P _kill.
Proof. apply preserves_modify. apply (st_kill _ _ _ HP). Qed.
Lemma crash_preserves {A} msg : preserves P (crash msg : M A).
Proof. unfold crash. pres. apply kill_preserves. Qed.
Lemma crash_described_preserves {A} msg : preserves P (crash_described msg : M A).
Proof. unfold crash_described. pres. apply kill_preserves. Qed.
Lemma set_reason_preserves why : preserves P (set_reason why).
Proof. apply preserves_modify. intros st H. by apply (st_misc _ _ _ HP). Qed.

Lemma check_memory_preserves force now s : preserves P (_check_memory o force now s).
Proof.
  unfold _check_memory. pres; try apply set_reason_preserves; try apply crash_preserves.
  apply preserves_modify. intros st H. by apply (st_misc _ _ _ HP).
Qed.

Lemma supervise_preserves now s : preserves P (_supervise o now s).
Proof. unfold _supervise. pres; try apply kill_preserves. apply check_memory_preserves. Qed.

Lemma watch_pass_preserves now s : preserves P (watch_pass o now s).
Proof. unfold watch_pass. pres. apply supervise_preserves. Qed.

Lemma watch_preserves passes : preserves P (watch o passes).
Proof. induction passes as [|[now s] passes IH]; cbn [watch]; pres; [apply watch_pass_preserves|apply IH]. Qed.

Lemma emit_reply_preserves st r : P st -> shown o X r -> _closed st = false -> P (emit (SentReply r) st).2.
Proof. intros H Hr Hc. by apply (st_sent _ _ _ HP r st). Qed.

Lemma send_reply_preserves r ends w1 w2 : shown o X r -> Forall X (exn_of_send w1) -> preserves P (_send_reply o r ends w1 w2).
Proof.
  intros Hr Hw. unfold _send_reply. apply preserves_finally.
  - intros st H. unfold mbind, M_bind, gets. destruct (_closed st) eqn:Ec; [done|].
    destruct w1 as [|e| |]; [by apply emit_reply_preserves| |by apply kill_preserves|done].
    destruct w2; [apply emit_reply_preserves; [done|apply shown_error; right; exact (proj1 (Forall_singleton X e) Hw)|done]|done|by apply kill_preserves|done].
  - intros st H. destruct ends; [|done]. by apply (st_cmd _ _ _ HP).
Qed.

Lemma record_refusal_preserves cmd e : preserves P (_record_refusal cmd e).
Proof. unfold _record_refusal. pres. apply preserves_modify. intros st H. by apply (st_cmd _ _ _ HP). Qed.

Lemma cnt_preserves f : (forall c, _host_calls (f c) = _host_calls c) -> preserves P (modify (upd_cnt f)).
Proof. intros H. apply preserves_modify. intros st Hs. by apply (st_cnt _ _ _ HP). Qed.

Lemma pump_preserves f : preserves P (modify (upd_pump f)).
Proof. apply preserves_modify. intros st Hs. by apply (st_cmd _ _ _ HP). Qed.

Lemma abandon_preserves b : preserves P (abandon b).
Proof. unfold abandon. pres. by apply cnt_preserves. Qed.

Lemma too_many_preserves : preserves P _too_many_outlasted.
Proof. unfold _too_many_outlasted. pres; [apply set_reason_preserves|apply kill_preserves]. Qed.

Lemma outcome_reply_shown cid out r : (forall e, out = Raised e -> own_exn e \/ X e) ->
  outcome_reply o cid out = Some r -> shown o X r.
Proof. intros Ho. destruct out; intros [= <-]; constructor. by apply Ho. Qed.

Lemma own_shown cid e : own_exn e -> shown o X (_error o cid e).
Proof. intros H. apply shown_error. by left. Qed.

Lemma stuck_preserves cid ends ci started (v : option rt_exn) : Forall X (exn_of_send (ci_w1 ci)) -> preserves P (
    count ← abandon started;
    if MAX_ABANDONED_TOOL_CALLS <? count then
      _ ← _too_many_outlasted; _ ← _send_reply o (_error o cid tool_timeout_error) ends (ci_w1 ci) (ci_w2 ci);
      raise (Crashed "too many abandoned tool calls in this session")
    else _ ← _send_reply o (_error o cid tool_timeout_error) ends (ci_w1 ci) (ci_w2 ci); mret v).
Proof.
  intros Hw. pres; try apply abandon_preserves; try apply too_many_preserves; (apply send_reply_preserves; [apply own_shown; constructor|done]).
Qed.

Lemma finish_async_preserves key now out refused w1 w2 :
  (forall e, out = Raised e -> own_exn e \/ X e) -> Forall X (exn_of_send w1) -> preserves P (_finish_async_call o key now out refused w1 w2).
Proof.
  intros Ho Hw. unfold _finish_async_call. pres; try apply record_refusal_preserves; try by apply cnt_preserves.
  apply send_reply_preserves; [|done]. destruct out; [constructor|apply shown_error; by apply Ho|apply own_shown; constructor].
Qed.

Lemma idle_check_preserves now s : preserves P (_idle_check o now s).
Proof. unfold _idle_check. pres; try apply check_memory_preserves; apply kill_preserves. Qed.

Lemma background_preserves i : Forall X (exns_of_input i) -> preserves P (background o i).
Proof.
  intros Hi. destruct i; cbn [background exns_of_input] in *; pres; try apply abandon_preserves; try apply too_many_preserves.
  - apply Forall_app in Hi as [Ho Hw]. apply finish_async_preserves; [|done]. intros e ->. right. exact (proj1 (Forall_singleton X e) Ho).
  - apply finish_async_preserves; [|done]. intros e [= <-]. left. constructor.
  - by apply cnt_preserves.
  - apply idle_check_preserves.
Qed.

Lemma raise_refusal_preserves id : preserves P (_raise_refusal id).
Proof. unfold _raise_refusal. pres. apply preserves_modify. intros st H. by apply (st_cmd _ _ _ HP). Qed.
End Quiet.

Section Calls.
Context (o : opts) (X : host_exn -> Prop) (P : rt -> Prop) (P' : Z -> rt -> Prop) (H : call_stable o X P P').

Let HP : stable o X P := cs_quiet _ _ _ _ H.

(** With the call in hand, a step that calls nothing may also let go of it. *)
Lemma let_go {A} hid (m : M A) : preserves P m -> triple (P' hid) m (fun _ => P) P.
Proof. intros Hm. eapply triple_weaken; [by apply triple_of_preserves| |done|done]. apply (cs_weaken _ _ _ _ H). Qed.

Lemma then_quiet {A B} hid (m : M A) (f : A -> M B) :
  triple (P' hid) m (fun _ => P) P -> (forall a, preserves P (f a)) -> triple (P' hid) (m ≫= f) (fun _ => P) P.
Proof. intros Hm Hf. eapply triple_bind; [exact Hm|]. intros a. by apply triple_of_preserves. Qed.

(** What a handler may answer with: the call's own exceptions, or the parent's. *)
Definition reported (out : outcome) : Prop := forall e, out = Raised e -> own_exn e \/ X e.

Lemma invoke_ok hid fn args ci : Forall X (exns_of_call ci) ->
  triple (P' hid) (invoke hid fn args ci) (fun out st => reported out /\ P st) P.
Proof.
  intros [Hx _]%Forall_app. unfold invoke. destruct (accepts fn args).
  - eapply (triple_bind _ _ _ (fun _ => P)); [intros st Hs; by apply (cs_invoke _ _ _ _ H)|]. intros _ st Hs.
    assert (Hr : reported (ci_out ci)) by (intros e E; right; rewrite E in Hx; exact (proj1 (Forall_singleton X e) Hx)).
    assert (Hp : forall e, P (_record_refusal (_current_cmd (rcmd st)) e st).2) by (intros e; by apply (record_refusal_preserves o X P HP)).
    specialize (Hp (ci_refused ci)). unfold mbind, M_bind, gets. destruct fn; try by split.
    destruct (_record_refusal _ _ st) as [[]]; [by split|done].
  - intros st Hs. split; [intros e [= <-]; left; constructor|by apply (cs_weaken _ _ _ _ H hid)].
Qed.

Lemma invoke_then {A} hid fn args ci (f : outcome -> M A) : Forall X (exns_of_call ci) -> (forall out, reported out -> preserves P (f out)) ->
  triple (P' hid) (invoke hid fn args ci ≫= f) (fun _ => P) P.
Proof.
  intros Hx Hf. eapply triple_bind; [by apply invoke_ok|]. intros out st [Hr Hs]. exact (triple_of_preserves _ _ (Hf out Hr) st Hs).
Qed.

Lemma write_exns ci : Forall X (exns_of_call ci) -> Forall X (exn_of_send (ci_w1 ci)).
Proof. unfold exns_of_call. rewrite !Forall_app. tauto. Qed.

Lemma answer_preserves cid ends ci out (v : option rt_exn) (e : rt_exn) : reported out -> Forall X (exns_of_call ci) -> preserves P
  (match outcome_reply o cid out with
   | None => raise e
   | Some r => _ ← _send_reply o r ends (ci_w1 ci) (ci_w2 ci); mret v
   end).
Proof.
  intros Hr Hx. destruct (outcome_reply o cid out) as [r|] eqn:E; [|apply preserves_raise].
  apply preserves_bind; [|intros _; apply preserves_ret]. apply (send_reply_preserves o X P HP); [by eapply outcome_reply_shown|by apply write_exns].
Qed.

Lemma run_sync_ok hid fn args cid ends ci : Forall X (exns_of_call ci) -> triple (P' hid) (_run_sync_handler o hid fn args cid ends ci) (fun _ => P) P.
Proof.
  intros Hx. unfold _run_sync_handler. apply invoke_then; [done|]. intros out Hr.
  apply preserves_bind; [apply (watch_preserves o X P HP)|]. intros v. by apply answer_preserves.
Qed.

Lemma run_timed_ok hid fn args cid ends ci : Forall X (exns_of_call ci) ->
  triple (P' hid) (_run_timed_handler o hid fn args cid ends ci) (fun _ => P) P.
Proof.
  intros Hx. assert (Hw := write_exns ci Hx). assert (Hwatch := watch_preserves o X P HP (ci_passes ci)).
  unfold _run_timed_handler. destruct (ci_timed ci) as [| |[]|e] eqn:Et.
  1, 2: apply invoke_then; [done|]; intros out Hr; apply preserves_bind; [exact Hwatch|]; intros v; by apply answer_preserves.
  - apply invoke_then; [done|]. intros out _. apply preserves_bind; [exact Hwatch|]. intros v. by apply (stuck_preserves o X P HP).
  - apply let_go. apply preserves_bind; [exact Hwatch|]. intros v. by apply (stuck_preserves o X P HP).
  - apply let_go. apply preserves_bind; [exact Hwatch|]. intros v.
    apply preserves_bind; [|intros _; apply preserves_ret]. apply (send_reply_preserves o X P HP); [|done]. apply shown_error. right.
    unfold exns_of_call in Hx. rewrite Et, !Forall_app in Hx. destruct Hx as (_ & He & _). exact (proj1 (Forall_singleton X _) He).
Qed.

Lemma run_watched_ok hid fn args cid ends limit ci : Forall X (exns_of_call ci) ->
  triple (P' hid) (_run_watched o hid fn args cid ends limit ci) (fun _ => P) P.
Proof.
  intros Hx. unfold _run_watched. apply then_quiet; [destruct limit; [by apply run_timed_ok|by apply run_sync_ok]|].
  intros [e|]; [apply preserves_raise|apply preserves_ret].
Qed.

Lemma start_async_ok hid fn args cid ci : Forall X (exns_of_call ci) -> triple (P' hid) (start_async o hid fn args cid ci) (fun _ => P) P.
Proof.
  intros Hx. unfold start_async. destruct (ci_loop ci) eqn:El.
  - apply let_go, (send_reply_preserves o X P HP); [|by apply write_exns]. apply shown_error. right.
    unfold exns_of_call in Hx. rewrite El, !Forall_app in Hx. destruct Hx as (_ & _ & He & _). exact (proj1 (Forall_singleton X _) He).
  - apply then_quiet.
    + destruct (accepts fn args); [|apply let_go, preserves_ret]. intros st Hs. by apply (cs_invoke _ _ _ _ H).
    + intros _. apply preserves_modify. intros st Hs. by apply (st_cnt _ _ _ HP).
Qed.

(** A capability revoked a moment ago: nothing is called. *)
Lemma run_watched_revoked hid args cid ends limit ci : Forall X (exns_of_call ci) -> preserves P (_run_watched o hid RevokedFn args cid ends limit ci).
Proof.
  intros Hx. unfold _run_watched, _run_sync_handler, _run_timed_handler, invoke. cbn [accepts].
  apply preserves_bind; [|intros [e|]; [apply preserves_raise|apply preserves_ret]].
  assert (Hw := watch_preserves o X P HP (ci_passes ci)). assert (Hs := write_exns ci Hx).
  assert (Hr : reported (Raised (refusal_of RevokedFn args))) by (intros e [= <-]; left; exact (own_refusal RevokedFn args)).
  destruct limit; [destruct (ci_timed ci) as [| |[]|e] eqn:Et|].
  5: { apply preserves_bind; [exact Hw|]. intros v. apply preserves_bind; [|intros _; apply preserves_ret].
       apply (send_reply_preserves o X P HP); [|done]. apply shown_error. right.
       unfold exns_of_call in Hx. rewrite Et, !Forall_app in Hx. destruct Hx as (_ & He & _). exact (proj1 (Forall_singleton X _) He). }
  all: try apply preserves_ret_bind; (apply preserves_bind; [exact Hw|]); intros v;
    first [by apply (stuck_preserves o X P HP) | by apply answer_preserves].
Qed.

Lemma call_entry_ok hid : triple P (call_entry hid)
  (fun e st => P st /\ match e with
                       | Some (h, hd) => (h_fn hd = RevokedFn /\ h_async hd = false) \/ is_Some (_handlers (rcaps st) !! h)
                       | None => True
                       end) P.
Proof.
  intros st Hs. unfold call_entry, mbind, M_bind, gets.
  destruct (option_bind _ _ _ _) as [[h hd]|] eqn:E.
  - cbn. split; [done|]. right. destruct (as_int hid) as [h'|]; [|done]. cbn in E.
    destruct (_handlers (rcaps st) !! h') eqn:E2; cbn in E; [|done]. injection E as <- <-. by rewrite E2.
  - destruct (unhashable hid); [done|]. cbn. split; [done|]. destruct (List.find _ _); [|done]. by left.
Qed.

Lemma charge_live hid : triple (fun st => P st /\ is_Some (_handlers (rcaps st) !! hid)) (charge_call o (is_console o hid)) (fun _ => P' hid) P.
Proof.
  intros st [Hs Hh]. unfold charge_call. destruct (is_console o hid) eqn:Ec; [by apply (cs_console _ _ _ _ H)|].
  unfold mbind, M_bind, modify, gets. destruct (over (_max_host_calls o) _) eqn:Eo.
  - by apply (cs_over _ _ _ _ H).
  - by apply (cs_begin _ _ _ _ H).
Qed.

Lemma charge_preserves c : preserves P (charge_call o c).
Proof.
  unfold charge_call. destruct c; [apply preserves_ret|]. apply preserves_bind; [apply preserves_modify, (cs_over _ _ _ _ H)|].
  intros _. apply preserves_bind; [apply preserves_gets|]. intros n. destruct (over _ _); [apply preserves_raise|apply preserves_ret].
Qed.

Lemma finally_ok {A} hid (m : M A) f : triple (P' hid) m (fun _ => P) P -> (forall st, P st -> P (f st)) ->
  triple (P' hid) (finally m f) (fun _ => P) P.
Proof. intros Hm Hf st Hs. unfold finally. specialize (Hm st Hs). destruct (m st) as [[]]; by apply Hf. Qed.

(** A step that keeps the call in hand. *)
Lemma still {A B} hid (m : M A) (f : A -> M B) : preserves (P' hid) m -> (forall e st, (m st).1 <> Err e) ->
  (forall a, triple (P' hid) (f a) (fun _ => P) P) -> triple (P' hid) (m ≫= f) (fun _ => P) P.
Proof.
  intros Hm Hok Hf. eapply triple_bind; [|exact Hf]. intros st Hs. specialize (Hm st Hs). specialize (Hok). 
  destruct (m st) as [[a|e] st'] eqn:E; [done|]. destruct (Hok e st). by rewrite E.
Qed.

Lemma in_flight_shown p c cid name : in_flight_full o p c = true ->
  shown o X (ReplyError cid (too_many_in_flight (default 0 (_max_inflight o))) name).
Proof. unfold in_flight_full. destruct (_max_inflight o) eqn:E; [|done]. intros _. by apply shown_in_flight. Qed.

Lemma run_call_ok c hid h args cid ci : Forall X (exns_of_call ci) -> triple (P' hid) (run_call o c hid h args cid ci) (fun _ => P) P.
Proof.
  intros Hx. assert (HP' := cs_quiet' _ _ _ _ H hid). unfold run_call. destruct c.
  - apply still; [apply (pump_preserves o X _ HP')|done|]. intros _. apply finally_ok; [by apply run_watched_ok|]. intros st Hs. by apply (st_cmd _ _ _ HP).
  - do 2 (apply still; [apply preserves_gets|done|]; intros ?).
    destruct (in_flight_full o _ _) eqn:Ef; [apply let_go, (send_reply_preserves o X P HP); [by eapply in_flight_shown|by apply write_exns]|].
    do 2 (apply still; [apply preserves_gets|done|]; intros ?).
    apply still; [apply (pump_preserves o X _ HP')|done|]. intros _.
    destruct (_ && _); [by apply start_async_ok|by apply run_watched_ok].
Qed.

Lemma run_call_revoked c hid h args cid ci : Forall X (exns_of_call ci) -> h_fn h = RevokedFn -> h_async h = false -> preserves P (run_call o c hid h args cid ci).
Proof.
  intros Hx Hf Ha. unfold run_call. rewrite Hf, Ha. destruct c.
  - apply preserves_bind; [apply (pump_preserves o X _ HP)|]. intros _. apply preserves_finally; [by apply run_watched_revoked|]. intros st Hs. by apply (st_cmd _ _ _ HP).
  - do 2 (apply preserves_bind; [apply preserves_gets|]; intros ?).
    destruct (in_flight_full o _ _) eqn:Ef; [apply (send_reply_preserves o X P HP); [by eapply in_flight_shown|by apply write_exns]|].
    do 2 (apply preserves_bind; [apply preserves_gets|]; intros ?).
    apply preserves_bind; [apply (pump_preserves o X _ HP)|]. intros _. by apply run_watched_revoked.
Qed.

Lemma on_call_preserves m ci : Forall X (exns_of_call ci) -> preserves P (_on_call o m ci).
Proof.
  intros Hx. apply preserves_of_triple. eapply triple_bind; [apply call_entry_ok|]. intros entry.
  destruct (get_field m (u "cid")) as [| | |cid| | | | | | | |]; try (by intros st [Hs _]).
  destruct entry as [[hid h]|]; [|by intros st [Hs _]].
  destruct (get_field m (u "args")) as [| | | | | | |args| | | |]; try (by intros st [Hs _]).
  fold (is_console o hid). intros st [Hs [[Hf Ha]|Hl]].
  - assert (Hp : preserves P (charge_call o (is_console o hid) ≫= fun _ => run_call o (is_console o hid) hid h args cid ci)).
    { apply preserves_bind; [apply charge_preserves|]. intros _. by apply run_call_revoked. }
    apply (triple_of_preserves _ _ Hp st Hs).
  - eapply (triple_bind _ _ _ _ _ _ (charge_live hid)); [|by split]. intros _. by apply run_call_ok.
Qed.

Lemma pump_loop_preserves id last inputs : Forall X (concat (exns_of_input <$> inputs)) -> preserves P (pump_loop o id last inputs).
Proof.
  revert last. induction inputs as [|i inputs IH]; intros last Hx; cbn [pump_loop]; [apply preserves_raise|].
  cbn [fmap list_fmap concat] in Hx. apply Forall_app in Hx as [Hi Hx].
  assert (Hsup : forall (b : bool) now s, preserves P (if b then _supervise o now s else mret tt)).
  { intros [] now s; [apply (supervise_preserves o X P HP)|apply preserves_ret]. }
  destruct i as [now s|now s m c|now s|os| |key now out re w1 w2|key now w1 w2| |now s]; try apply preserves_raise.
  - apply preserves_bind; [apply (supervise_preserves o X P HP)|]. intros _. by apply IH.
  - apply preserves_bind; [apply Hsup|]. intros _. destruct m as [m|]; [|apply preserves_raise].
    apply preserves_bind; [|intros [a|]; [apply preserves_ret|by apply IH]].
    unfold on_frame. destruct (get_field m (u "t")); try apply preserves_raise.
    destruct (bool_decide _); [apply preserves_bind; [by apply on_call_preserves|intros _; apply preserves_ret]|].
    destruct (_ && _); [|apply preserves_raise]. apply preserves_bind; [apply (check_memory_preserves o X P HP)|]. intros _.
    destruct (bool_decide _); apply preserves_ret.
  - apply preserves_bind; [apply Hsup|]. intros _. apply (crash_described_preserves o X P HP).
  - apply preserves_bind; [by apply (background_preserves o X P HP)|]. intros _. by apply IH.
  - apply preserves_bind; [by apply (background_preserves o X P HP)|]. intros _. by apply IH.
  - apply preserves_bind; [by apply (background_preserves o X P HP)|]. intros _. by apply IH.
  - apply preserves_bind; [by apply (background_preserves o X P HP)|]. intros _. by apply IH.
Qed.

Lemma pump_preserves' id now inputs : Forall X (concat (exns_of_input <$> inputs)) -> preserves P (_pump o id now inputs).
Proof.
  intros Hx. unfold _pump. apply preserves_bind; [|intros [v|e]; [apply preserves_ret|apply preserves_raise]].
  apply preserves_except; [by apply pump_loop_preserves|]. intros e.
  destruct e; try apply preserves_raise; try apply (crash_preserves o X P HP); try apply (crash_described_preserves o X P HP).
  apply preserves_bind; [apply (kill_preserves o X P HP)|]. intros _. apply preserves_raise.
Qed.

Lemma emit_then {A} x (k : unit -> M A) st : P (push x st) -> preserves P (k tt) -> P ((emit x ≫= k) st).2.
Proof. intros Hp Hk. by apply Hk. Qed.

Lemma request_preserves soft rq : Forall X (exns_of_request rq) -> preserves P (_request o soft rq).
Proof.
  intros Hx. unfold _request. destruct (rq_reentrant rq); [apply preserves_raise|]. destruct (rq_forked rq); [apply preserves_raise|].
  apply preserves_bind; [destruct (_hard_timeout o soft), (rq_slot_late rq); try apply preserves_raise; apply preserves_ret|]. intros _ st Hs.
  unfold mbind at 1, M_bind at 1, gets at 1. destruct (_closed st) eqn:Ec; [done|].
  unfold mbind at 1, M_bind at 1, gets at 1. unfold mbind at 1, M_bind at 1, modify at 1.
  set (st1 := upd_cmd _ st). assert (Hs1 : P st1) by by apply (st_cmd _ _ _ HP).
  destruct (rq_send rq) as [|e| |]; [|done|by apply (crash_preserves o X P HP)|by apply (crash_described_preserves o X P HP)].
  apply emit_then; [by apply (st_command _ _ _ HP)|]. apply preserves_bind; [apply preserves_modify; intros st' Hs'; by apply (st_cmd _ _ _ HP)|].
  intros _. apply preserves_unless_waiting.
  - apply preserves_bind; [|intros v; apply preserves_bind; [apply (raise_refusal_preserves o X P HP)|intros _; apply preserves_ret]].
    apply preserves_except; [by apply pump_preserves'|]. intros e.
    destruct e; try apply preserves_raise;
      (apply preserves_bind; [apply (raise_refusal_preserves o X P HP)|intros _; apply preserves_raise]).
  - intros st' Hs'. by apply (st_cmd _ _ _ HP).
Qed.
End Calls.
