(* ===== verification/IsolatedProps.v ===== *)
(** * Properties of the parent of a worker

    Over whole sessions, against any worker: which host functions it can reach and how often
    ([capabilities_confined], [host_calls_bounded]), what it is told of the host's errors
    ([host_errors_redacted]), and that nothing is written to it once it has been killed
    ([silent_after_kill]). *)

From S2P Require Import Prelude Utf8 PyVal PyStr ToolBridge Pump HostSide Isolated IsolatedInv.

(** The exceptions host functions raise in a session. *)
Definition exns_of_api (a : api) : list host_exn :=
  match a with
  | Eval _ rq | BindFunction _ _ _ rq | BindObject _ _ rq | RevokeOp _ rq | SetResolver rq | SetLoader _ rq => exns_of_request rq
  | Close _ => []
  | Background i => exns_of_input i
  end.
Definition raised (calls : list api) : list host_exn := concat (exns_of_api <$> calls).

Section Api.
Context (o : opts) (X : host_exn -> Prop).

(** Invariants the capabilities do not matter to. *)
Record caps_free (P : rt -> Prop) : Prop := {
  cf_caps : forall f st, P st -> P (upd_caps f st);
  cf_registered : forall hid st, P st -> P (push (Registered hid) st);
  cf_gave : forall t hid st, P st -> P (push (GaveToken t hid) st);
  cf_revoke : forall t st, P st -> P (push (RevokeCalled t) st);
  cf_close : forall send, preserves P (close send)
}.

Context (P : rt -> Prop) (P' : Z -> rt -> Prop) (H : call_stable o X P P') (HC : caps_free P).

Let HP : stable o X P := cs_quiet _ _ _ _ H.

Lemma caps_preserves f : preserves P (modify (upd_caps f)).
Proof. apply preserves_modify. intros st Hs. by apply (cf_caps _ HC). Qed.

Lemma new_handler_preserves h b : preserves P (new_handler h b).
Proof.
  unfold new_handler. apply preserves_bind; [apply preserves_gets|]. intros hid.
  apply preserves_bind; [apply caps_preserves|]. intros _. apply preserves_bind; [|intros _; apply preserves_ret].
  apply preserves_modify. intros st Hs. by apply (cf_registered _ HC).
Qed.

Lemma pop_handlers_P hids st : P st -> P (pop_handlers hids st).
Proof.
  unfold pop_handlers. revert st. induction hids as [|h hids IH]; intros st Hs; cbn; [done|]. apply IH. by apply (cf_caps _ HC).
Qed.

Lemma or_pop_preserves {A} hids (m : M A) : preserves P m -> preserves P (or_pop hids m).
Proof.
  intros Hm. apply preserves_except; [done|]. intros e. destruct e; try apply preserves_raise;
    (apply preserves_bind; [apply preserves_modify, pop_handlers_P|intros _; apply preserves_raise]).
Qed.

Lemma register_token_preserves t hid : preserves P (_register_token t hid).
Proof.
  unfold _register_token. apply preserves_bind; [apply preserves_gets|]. intros ts. destruct (ts !! t); [|apply caps_preserves].
  apply preserves_bind; [apply caps_preserves|]. intros _. apply (crash_preserves o X P HP).
Qed.

Lemma lift_preserves {A} (r : result exn A) : preserves P (lift r).
Proof. destruct r; [apply preserves_ret|apply preserves_raise]. Qed.

Lemma new_members_preserves obj : preserves P (new_members obj).
Proof.
  induction obj as [|[k [[a b]|]] obj IH]; cbn [new_members]; [apply preserves_ret| |apply IH].
  apply preserves_bind; [apply new_handler_preserves|]. intros hid. apply preserves_bind; [apply IH|]. intros rest. apply preserves_ret.
Qed.

Lemma register_all_preserves hids ts : preserves P (register_all hids ts).
Proof.
  induction ts as [|[k t] ts IH]; cbn [register_all]; [apply preserves_ret|].
  destruct (list_find _ _) as [[? [? hid]]|]; [|apply preserves_raise].
  apply preserves_bind; [apply register_token_preserves|]. intros _. apply preserves_bind; [apply IH|]. intros rest. apply preserves_ret.
Qed.

Lemma give_tokens_preserves ts : preserves P (give_tokens ts).
Proof.
  induction ts as [|[t hid] ts IH]; cbn [give_tokens]; [apply preserves_ret|].
  apply preserves_bind; [|intros _; apply IH]. apply preserves_modify. intros st Hs. by apply (cf_gave _ HC).
Qed.

Lemma run_api_preserves a : Forall X (exns_of_api a) -> preserves P (run_api o a).
Proof.
  intros Hx.
  assert (Hrq : forall soft rq, Forall X (exns_of_request rq) -> preserves P (_request o soft rq)) by (intros; by eapply request_preserves).
  destruct a as [soft rq|name is_async untimed rq|name obj rq|t rq|rq|is_async rq|send|i]; cbn [run_api exns_of_api] in *;
    unfold bind_function, bind_object, revoke_op, set_module_resolver, set_module_loader, set_module_handler, add_name;
    try apply (cf_close _ HC); try (by apply (background_preserves o X P HP));
    repeat first
      [ apply preserves_ret | (by apply Hrq) | apply lift_preserves | apply new_handler_preserves | apply or_pop_preserves
      | apply register_token_preserves | apply new_members_preserves | apply register_all_preserves | apply give_tokens_preserves
      | apply caps_preserves | apply (crash_preserves o X P HP) | apply preserves_modify; exact (pop_handlers_P _)
      | apply preserves_modify; intros ? ?; by apply (cf_gave _ HC) | apply preserves_modify; intros ? ?; by apply (cf_revoke _ HC)
      | apply preserves_bind; [|intros ?]
      | match goal with |- preserves _ (match ?x with _ => _ end) => destruct x end ].
Qed.

Lemma session_preserves calls st : Forall X (raised calls) -> P st -> P (session o calls st).
Proof.
  revert st. induction calls as [|a calls IH]; intros st Hx Hs; cbn [session]; [done|].
  unfold raised in Hx. cbn [fmap list_fmap concat] in Hx. apply Forall_app in Hx as [Hx Hx']. fold (raised calls) in Hx'.
  destruct (in_fork a); [by apply IH|]. pose proof (run_api_preserves a Hx st Hs) as Ha. destruct (run_api o a st) as [[x|e] st']; cbn in Ha; [by apply IH|].
  destruct e; try done; by apply IH.
Qed.
End Api.

Lemma close_cases send st : (close send st).2 = st \/
  exists b, (close send st).2 = killed (if b : bool then push SentClose (RT (rcaps st) (rcnt st) (rcmd st) true (_kill_reason st) (_last_rss_check st) (log st))
                                        else RT (rcaps st) (rcnt st) (rcmd st) true (_kill_reason st) (_last_rss_check st) (log st)) /\ _closed st = false.
Proof.
  unfold close, mbind, M_bind, gets. destruct (_closed st) eqn:E; [by left|]. right.
  destruct send; [exists true|exists false..]; done.
Qed.

(** ** A session to run *)

Definition demo_opts : opts :=
  Opts (Some 2) (Some 64) None None None (Redaction true None) [] (Some 60000) None 2000.
Definition demo_sample : sample := Sample (Some 1000) (Some 5) (Some 13).
Definition demo_call (out : outcome) : call_input := CallInput 110 120 [] out None EndedInTime None SendOk SendOk.
Definition demo_result (id : Z) (v : pyval) : input :=
  ReadFrame 130 demo_sample (Some [(u "t", PStr (u "result")); (u "id", PInt id); (u "v", v)]) (demo_call Aborted).
Definition demo_frame (cid hid : Z) (out : outcome) : input :=
  ReadFrame 110 demo_sample (Some [(u "t", PStr (u "call")); (u "cid", PInt cid); (u "hid", PInt hid); (u "args", PList [PInt cid])]) (demo_call out).
Definition demo_request (inputs : list input) : request := Request 100 (Some 5) false false false false SendOk inputs 140 (Some 6).

(** Bind a function, let the guest call it, revoke it; the guest calls it again, then forges a
    handler id. *)
Definition demo : list api :=
  [ BindFunction (PStr (u "add")) false false (demo_request [demo_result 1 (PInt 77)]);
    Eval None (demo_request [demo_frame 5 1 (Returned (PInt 9)); demo_result 2 PNone]);
    RevokeOp 77 (demo_request [demo_result 3 (PBool true)]);
    Eval None (demo_request [demo_frame 6 1 (Returned (PInt 9)); demo_result 4 PNone]);
    Eval None (demo_request [demo_frame 7 2 (Returned (PInt 9)); demo_result 5 PNone]);
    Eval None (demo_request [demo_result 6 PNone]) ].

Lemma demo_log : log (session demo_opts demo (rt_init demo_opts)) =
  [Registered 1; SentCommand 1; GaveToken 77 1; SentCommand 2; Invoked 1 [PInt 5]; SentReply (ReplyValue 5 (PInt 9));
   RevokeCalled 77; SentCommand 3; SentCommand 4; SentReply (ReplyError 6 redacted_text (u "PermissionError"));
   SentCommand 5; Killed].
Proof. vm_compute. reflexivity. Qed.

(** ** The budget of host calls *)

Fixpoint calls_made (o : opts) (l : list output) : Z :=
  match l with
  | [] => 0
  | Invoked hid _ :: l' => (if is_console o hid then 0 else 1) + calls_made o l'
  | _ :: l' => calls_made o l'
  end.

Lemma calls_made_app o l l' : calls_made o (l ++ l') = calls_made o l + calls_made o l'.
Proof. induction l as [|x l IH]; cbn; [done|]. destruct x; lia. Qed.

Definition within (o : opts) (extra : Z) (st : rt) : Prop :=
  calls_made o (log st) + extra <= _host_calls (rcnt st) /\
  (forall k, _max_host_calls o = Some k -> calls_made o (log st) + extra <= k).

Lemma within_push o n x st : calls_made o [x] = 0 -> within o n st -> within o n (push x st).
Proof. intros Hx [H1 H2]. split; [|intros k Hk; specialize (H2 k Hk)]; cbn [push log rcnt]; rewrite calls_made_app, Hx; lia. Qed.

Lemma within_stable o n : stable o any (within o n).
Proof.
  split; try done.
  - intros f st Hf [H1 H2]. split; [|done]. cbn. rewrite Hf. exact H1.
  - intros st Hs. by apply (within_push o n Killed st).
  - intros r st Hs _ _. by apply within_push.
  - intros id st Hs _. by apply within_push.
Qed.

Lemma within_calls o : call_stable o any (within o 0) (fun hid => within o (if is_console o hid then 0 else 1)).
Proof.
  split; [apply within_stable|intros hid; apply within_stable|..].
  - intros st [H1 H2]. split; cbn in *; [lia|done].
  - intros hid st [H1 H2] _ Hc Ho. rewrite Hc. split; cbn in *; [lia|]. intros k Hk. rewrite Hk in Ho. cbn in Ho. bool_prop.
    lia.
  - intros hid st Hs _ Hc. by rewrite Hc.
  - intros hid args st [H1 H2]. split; [|intros k Hk; specialize (H2 k Hk)]; cbn [push log rcnt] in *; rewrite calls_made_app; cbn; destruct (is_console o hid); lia.
  - intros hid st [H1 H2]. split; [|intros k Hk; specialize (H2 k Hk)]; destruct (is_console o hid); lia.
Qed.

Lemma within_caps o : caps_free (within o 0).
Proof.
  split; try done; try (intros; by apply within_push).
  intros send st Hs. destruct (close_cases send st) as [->|[b [-> _]]]; [done|].
  match goal with |- within o 0 (killed ?x) => apply (within_push o 0 Killed x) end; [done|]. destruct b; [by apply within_push|done].
Qed.

(** [max_host_calls] bounds a session: whatever the worker sends over any number of
    commands, at most that many calls reach a host function (console output apart). *)
Theorem host_calls_bounded o k calls : _max_host_calls o = Some k -> 0 <= k ->
  calls_made o (log (session o calls (rt_init o))) <= k.
Proof.
  intros Hk H0. assert (Hi : within o 0 (rt_init o)).
  { unfold rt_init. split; destruct (console_hid o); cbn; try done; intros k' Hk'; rewrite Hk in Hk'; injection Hk' as <-; lia. }
  pose proof (session_preserves o _ _ _ (within_calls o) (within_caps o) calls _ (Forall_any _) Hi) as [_ H2]. specialize (H2 k Hk). lia.
Qed.

Lemma host_calls_bounded_witness :
  log (session demo_opts demo (rt_init demo_opts)) <> [] /\ calls_made demo_opts (log (session demo_opts demo (rt_init demo_opts))) <= 2.
Proof. split; [by rewrite demo_log|]. apply (host_calls_bounded demo_opts 2 demo); [reflexivity|lia]. Defined.

(** ** What reaches the worker *)

Definition writes (x : output) : bool :=
  match x with SentCommand _ | SentReply _ | SentClose => true | _ => false end.

Definition is_kill (x : output) : bool := match x with Killed => true | _ => false end.

(** Nothing is written after a kill.  [dead]: whether there was one. *)
Fixpoint silent (dead : bool) (l : list output) : bool :=
  match l with
  | [] => true
  | x :: l' => negb (dead && writes x) && silent (dead || is_kill x) l'
  end.
Definition was_killed (l : list output) : bool := existsb is_kill l.

Lemma silent_app d l l' : silent d (l ++ l') = silent d l && silent (d || was_killed l) l'.
Proof.
  revert d. induction l as [|x l IH]; intros d; cbn; [by rewrite orb_false_r|]. rewrite IH, andb_assoc. by rewrite orb_assoc.
Qed.
Lemma was_killed_app l l' : was_killed (l ++ l') = was_killed l || was_killed l'.
Proof. apply existsb_app. Qed.

Definition quiet_dead (st : rt) : Prop := silent false (log st) = true /\ (was_killed (log st) = true -> _closed st = true).

Lemma quiet_dead_push x st : (writes x = true -> _closed st = false) -> (x = Killed -> _closed st = true) ->
  quiet_dead st -> quiet_dead (push x st).
Proof.
  intros Hw Hk [H1 H2]. split; cbn [push log _closed].
  - rewrite silent_app, H1. cbn. rewrite andb_true_r, negb_true_iff, andb_false_iff.
    destruct (writes x); [|by right]. left. destruct (was_killed (log st)); [|done]. rewrite H2 in Hw by done. by specialize (Hw eq_refl).
  - rewrite was_killed_app. cbn. intros [E|E]%orb_true_iff; [by apply H2|]. rewrite orb_false_r in E. apply Hk. by destruct x.
Qed.

Lemma quiet_dead_killed st : quiet_dead st -> quiet_dead (killed st).
Proof.
  intros [H1 H2]. split; cbn [killed log _closed]; [|done]. rewrite silent_app, H1. cbn. by rewrite andb_false_r.
Qed.

Lemma quiet_dead_stable o : stable o any quiet_dead.
Proof.
  split; try done.
  - apply quiet_dead_killed.
  - intros r st Hs Hc _. by apply quiet_dead_push.
  - intros id st Hs Hc. by apply quiet_dead_push.
Qed.

Lemma quiet_dead_calls o : call_stable o any quiet_dead (fun _ => quiet_dead).
Proof. split; try done; try (intros; apply quiet_dead_stable). intros hid args st Hs. by apply quiet_dead_push. Qed.

Lemma quiet_dead_caps : caps_free quiet_dead.
Proof.
  split; try done; try (intros; by apply quiet_dead_push).
  intros send st Hs. destruct (close_cases send st) as [->|[b [-> Hc]]]; [done|]. destruct Hs as [H1 H2].
  assert (Hk : was_killed (log st) = false) by (destruct (was_killed (log st)); [by rewrite H2 in Hc|done]).
  split; [|done]. destruct b; cbn [killed push log]; rewrite !silent_app, ?was_killed_app, H1, Hk; done.
Qed.

(** A worker that has been killed is written to no more, whatever the host and the worker
    do next: no command, no reply, no farewell (its descriptors may belong to something else). *)
Theorem silent_after_kill o calls : silent false (log (session o calls (rt_init o))) = true.
Proof.
  apply (session_preserves o any quiet_dead (fun _ => quiet_dead) (quiet_dead_calls o) quiet_dead_caps calls); [apply Forall_any|].
  unfold rt_init, quiet_dead. by destruct (console_hid o).
Qed.

(** ** What a guest learns of the host's errors *)

Section Shown.
Context (o : opts) (X : host_exn -> Prop).

Definition reply_shown (x : output) : Prop := match x with SentReply r => shown o X r | _ => True end.
Definition all_shown (st : rt) : Prop := Forall reply_shown (log st).

Lemma all_shown_push x st : reply_shown x -> all_shown st -> all_shown (push x st).
Proof. intros Hx Hs. apply Forall_app. split; [done|]. by apply Forall_singleton. Qed.

Lemma all_shown_stable : stable o X all_shown.
Proof.
  split; try done.
  - intros st Hs. by apply (all_shown_push Killed).
  - intros r st Hs _ Hr. by apply all_shown_push.
  - intros id st Hs _. by apply all_shown_push.
Qed.

Lemma all_shown_calls : call_stable o X all_shown (fun _ => all_shown).
Proof. split; try done; try (intros; apply all_shown_stable). intros hid args st Hs. by apply all_shown_push. Qed.

Lemma all_shown_caps : caps_free all_shown.
Proof.
  split; try done; try (intros; by apply all_shown_push).
  intros send st Hs. destruct (close_cases send st) as [->|[b [-> _]]]; [done|]. destruct b;
    repeat (apply Forall_app; split; [|by apply Forall_singleton]); done.
Qed.

Lemma session_shown calls : Forall X (raised calls) -> all_shown (session o calls (rt_init o)).
Proof.
  intros Hx. apply (session_preserves o _ _ (fun _ => all_shown) all_shown_calls all_shown_caps); [done|]. unfold rt_init, all_shown.
  destruct (console_hid o); cbn; [by apply Forall_singleton|constructor].
Qed.
End Shown.

(** The texts a redacting runtime may show in a session: its own fixed ones, and that of an
    exception the parent or the host's functions raised in this session, only when it carries
    pydeno's mark or the host's predicate answered [True] for it. *)
Definition may_show (o : opts) (calls : list api) (err : list Z) : Prop :=
  err = redacted_text \/ (exists k, _max_inflight o = Some k /\ err = too_many_in_flight k) \/
  exists e, (own_exn e \/ e ∈ raised calls) /\ err = text e /\ (_pydeno_public e = true \/ exposes (_redact o) e = true).

(** C17. Redaction holds over a session: every error text that reaches the worker is the fixed
    one, or the notice of too many calls in flight, or the text of an exception of this session
    (one the parent made, or one a host function, its thread or the encoding of its answer
    raised) that is marked as pydeno's own public text or that the host's
    [expose_host_errors] answered [True] for; a predicate that raises or answers anything else
    shows nothing. *)
Theorem host_errors_redacted o calls : enabled (_redact o) = true ->
  Forall (fun x => match x with SentReply (ReplyError _ err _) => may_show o calls err | _ => True end)
    (log (session o calls (rt_init o))).
Proof.
  intros He. assert (Hs := session_shown o (fun e => e ∈ raised calls) calls (proj2 (Forall_forall _ _) (fun e H => H))).
  apply (Forall_impl _ _ _ Hs). intros x Hx. destruct x as [| | | |r| | |]; try done. cbn in Hx. destruct Hx as [cid v|cid e Hin|cid k name Hk]; [done| |].
  - cbn. unfold may_show. rewrite He. cbn [andb].
    destruct (_pydeno_public e) eqn:Ep; cbn [negb andb]; [right; right; exists e; auto|].
    destruct (exposes (_redact o) e) eqn:Ee; cbn [negb]; [right; right; exists e; auto|by left].
  - right. left. by exists k.
Qed.

(** A host function fails with a text that is not for the guest. *)
Definition secret_exn : host_exn := HostExn (u "KeyError") (u "password") [] false false.
Definition secret_session : list api :=
  [ BindFunction (PStr (u "add")) false false (demo_request [demo_result 1 (PInt 77)]);
    Eval None (demo_request [demo_frame 5 1 (Raised secret_exn); demo_result 2 PNone]) ].

Lemma secret_not_shown : ~ may_show demo_opts secret_session (text secret_exn).
Proof.
  intros [E|[(k & _ & E)|(e & [Ho|Hin] & E & Hp)]]; [by vm_compute in E| | |].
  - unfold too_many_in_flight in E. by vm_compute in E.
  - destruct Ho as [|fn args|]; [by vm_compute in E| |by vm_compute in E].
    destruct fn as [| | | |]; try (by vm_compute in E). cbn [refusal_of] in E.
    destruct args as [|a [|b [|c [|]]]]; try (by vm_compute in E); destruct (unhashable a); by vm_compute in E.
  - change (raised secret_session) with [secret_exn] in Hin. apply list_elem_of_singleton in Hin as ->. by destruct Hp.
Qed.

Lemma host_errors_redacted_witness :
  ~ may_show demo_opts secret_session (text secret_exn) /\
  SentReply (ReplyError 5 redacted_text (u "KeyError")) ∈ log (session demo_opts secret_session (rt_init demo_opts)) /\
  Forall (fun x => match x with SentReply (ReplyError _ err _) => may_show demo_opts secret_session err | _ => True end)
    (log (session demo_opts secret_session (rt_init demo_opts))).
Proof.
  split_and!; [apply secret_not_shown| |apply (host_errors_redacted demo_opts secret_session); reflexivity].
  apply (list_elem_of_lookup_2 _ 5). vm_compute. reflexivity.
Defined.
