(* ===== verification/IsolatedCaps.v ===== *)
(** * Capabilities of a worker

    [ledger] is what a host believes of its capabilities, from its own calls alone: the
    functions it registered, the tokens it was given for them, and the ones it has revoked.
    [capabilities_confined] says that a worker can never make the parent call a function the
    ledger does not allow, whatever tokens it hands out and whatever frames it sends. *)

From S2P Require Import Prelude Utf8 PyVal PyStr ToolBridge Pump HostSide Isolated IsolatedInv IsolatedProps.

Record ledger := Ledger { registered : gset Z; holds : gmap Z Z; gone : gset Z; lawful : bool }.

Definition enter (L : ledger) (x : output) : ledger :=
  match x with
  | Registered hid => Ledger ({[hid]} ∪ registered L) (holds L) (gone L) (lawful L)
  | GaveToken t hid => Ledger (registered L) (<[t := hid]> (holds L)) (gone L) (lawful L)
  | RevokeCalled t =>
      match holds L !! t with
      | Some hid => Ledger (registered L) (delete t (holds L)) ({[hid]} ∪ gone L) (lawful L)
      | None => L
      end
  | Invoked hid _ => Ledger (registered L) (holds L) (gone L) (lawful L && bool_decide (hid ∈ registered L) && negb (bool_decide (hid ∈ gone L)))
  | _ => L
  end.
Definition ledger_of (l : list output) : ledger := foldl enter (Ledger ∅ ∅ ∅ true) l.

Lemma ledger_snoc l x : ledger_of (l ++ [x]) = enter (ledger_of l) x.
Proof. unfold ledger_of. by rewrite foldl_app. Qed.

(** The runtime's tables agree with the ledger. *)
Record agrees (c : caps) (L : ledger) : Prop := {
  ag_lawful : lawful L = true;
  ag_handlers : forall h, is_Some (_handlers c !! h) -> h ∈ registered L /\ h ∉ gone L;
  ag_below : forall h, h ∈ registered L -> h < _next_hid c;
  ag_gone : gone L ⊆ registered L;
  ag_holds : forall t h, holds L !! t = Some h -> _token_to_hid c !! t = Some h /\ h ∈ registered L
}.
Definition caps_inv (st : rt) : Prop := agrees (rcaps st) (ledger_of (log st)).

(** With the capabilities fixed and some functions known to be registered. *)
Definition caps_inv_at (c : caps) (R : gset Z) (st : rt) : Prop :=
  caps_inv st /\ rcaps st = c /\ R ⊆ registered (ledger_of (log st)).

Lemma caps_inv_at_push c R x st : enter (ledger_of (log st)) x = ledger_of (log st) ->
  caps_inv_at c R st -> caps_inv_at c R (push x st).
Proof. intros Hx (H1 & H2 & H3). unfold caps_inv_at, caps_inv. cbn [push rcaps log]. rewrite ledger_snoc, Hx. done. Qed.

Lemma caps_inv_at_stable o c R : stable o any (caps_inv_at c R).
Proof.
  split; try done.
  - intros st Hs. by apply (caps_inv_at_push c R Killed).
  - intros r st Hs _ _. by apply caps_inv_at_push.
  - intros id st Hs _. by apply caps_inv_at_push.
Qed.

Lemma stable_and o P (Q : caps -> Prop) : stable o any P -> stable o any (fun st => P st /\ Q (rcaps st)).
Proof.
  intros []. split.
  - intros f st [H1 H2]. split; [by apply st_cmd|done].
  - intros f st Hf [H1 H2]. split; [by apply st_cnt|done].
  - intros why now st [H1 H2]. split; [by apply st_misc|done].
  - intros st [H1 H2]. split; [by apply st_kill|done].
  - intros r st [H1 H2] Hc Hr. split; [by apply st_sent|done].
  - intros id st [H1 H2] Hc. split; [by apply st_command|done].
Qed.

Lemma caps_inv_at_calls o c R : call_stable o any (caps_inv_at c R) (fun hid st => caps_inv_at c R st /\ is_Some (_handlers (rcaps st) !! hid)).
Proof.
  split; try done.
  - apply caps_inv_at_stable.
  - intros hid. apply (stable_and o _ (fun c => is_Some (_handlers c !! hid))), caps_inv_at_stable.
  - intros hid args st [Hs Hh]. apply caps_inv_at_push; [|done]. destruct Hs as ([] & _). cbn [enter].
    destruct (ag_handlers0 hid Hh) as [H1 H2]. rewrite bool_decide_true, bool_decide_false by done.
    rewrite ag_lawful0. destruct (ledger_of (log st)); cbn in *. by subst.
  - by intros hid st [Hs _].
Qed.

Lemma request_caps o soft rq c R : preserves (caps_inv_at c R) (_request o soft rq).
Proof. eapply request_preserves; [apply caps_inv_at_calls|apply Forall_any]. Qed.

(** ** The calls that change capabilities *)

(** Run the straight-line steps of the monad. *)
Ltac exec := unfold emit, mbind, M_bind, mret, M_ret, gets, modify, raise; cbn beta iota zeta.

Lemma pop_handlers_inv hids st : caps_inv st -> caps_inv (pop_handlers hids st) /\ log (pop_handlers hids st) = log st.
Proof.
  unfold pop_handlers. revert st. induction hids as [|h hids IH]; intros st Hs; cbn; [done|].
  destruct (IH (pop_handler h st)) as [I1 I2]; [|done]. destruct Hs. split; try done. cbn. intros h' Hh'. apply ag_handlers0.
  destruct (decide (h' = h)) as [->|Hne]; [by rewrite lookup_delete_eq in Hh'; destruct Hh'|by rewrite lookup_delete_ne in Hh'].
Qed.

Lemma new_handler_caps h b (R : gset Z) : triple (fun st => caps_inv st /\ R ⊆ registered (ledger_of (log st))) (new_handler h b)
  (fun hid st => caps_inv st /\ {[hid]} ∪ R ⊆ registered (ledger_of (log st))) caps_inv.
Proof.
  intros st [Hs HR]. unfold new_handler. exec. set (hid := _next_hid (rcaps st)). unfold caps_inv. cbn [rcaps log upd_caps].
  rewrite ledger_snoc. cbn [enter registered]. split; [|set_solver]. destruct Hs.
  assert (Hn : hid ∉ registered (ledger_of (log st))) by (intros Hin%ag_below0; unfold hid in Hin; lia).
  split; cbn [enter registered holds gone lawful upd_caps rcaps log _handlers _next_hid _token_to_hid].
  - done.
  - intros h'. destruct (decide (h' = hid)) as [->|Hne]; [set_solver|]. rewrite lookup_insert_ne by done. intros Hh%ag_handlers0. set_solver.
  - intros h' [->%elem_of_singleton|Hin%ag_below0]%elem_of_union; unfold hid in *; lia.
  - set_solver.
  - intros t h' [H1 H2]%ag_holds0. set_solver.
Qed.

Lemma or_pop_caps {A} hids (m : M A) (P : rt -> Prop) Q : triple P m Q caps_inv -> triple P (or_pop hids m) Q caps_inv.
Proof.
  intros Hm st Hs. unfold or_pop, except. specialize (Hm st Hs). destruct (m st) as [[a|e] st']; [done|].
  destruct e; try done; by apply pop_handlers_inv.
Qed.

Lemma request_triple o soft rq (R : gset Z) : triple (fun st => caps_inv st /\ R ⊆ registered (ledger_of (log st))) (_request o soft rq)
  (fun _ st => caps_inv st /\ R ⊆ registered (ledger_of (log st))) caps_inv.
Proof.
  intros st [Hs HR]. pose proof (request_caps o soft rq (rcaps st) R st) as H. destruct (_request o soft rq st) as [[v|e] st']; cbn in H;
    destruct H as (H1 & H2 & H3); done.
Qed.

Lemma crash_caps {A} msg : preserves caps_inv (crash msg : M A).
Proof. intros st Hs. unfold crash, _kill, caps_inv. exec. cbn [snd rcaps log]. by rewrite ledger_snoc. Qed.

Lemma register_token_caps t hid st : caps_inv st ->
  match _register_token t hid st with
  | (Ok _, st') => caps_inv st' /\ _token_to_hid (rcaps st) ⊆ _token_to_hid (rcaps st') /\
      _token_to_hid (rcaps st') !! t = Some hid /\ log st' = log st
  | (Err _, st') => caps_inv st'
  end.
Proof.
  intros Hs. unfold _register_token, mbind, M_bind, gets. destruct (_token_to_hid (rcaps st) !! t) as [h|] eqn:E.
  - apply (crash_caps (A := unit) "worker reused a capability token" (pop_handler hid st)). by apply (pop_handlers_inv [hid]).
  - cbn. split_and!; [|by apply insert_subseteq|by rewrite lookup_insert_eq|done]. destruct Hs. split; try done. cbn.
    intros t' h [H1 H2]%ag_holds0. split; [|done]. by rewrite lookup_insert_ne by congruence.
Qed.

Lemma give_token_caps t hid st : caps_inv st -> _token_to_hid (rcaps st) !! t = Some hid -> hid ∈ registered (ledger_of (log st)) ->
  caps_inv (push (GaveToken t hid) st).
Proof.
  intros [] Ht Hr. unfold caps_inv. cbn [push rcaps log]. rewrite ledger_snoc. split; cbn [enter registered holds gone lawful]; try done.
  intros t' h. destruct (decide (t' = t)) as [->|Hne]; [rewrite lookup_insert_eq; by intros [= <-]|].
  rewrite lookup_insert_ne by done. apply ag_holds0.
Qed.

Lemma lift_triple {A} (r : result exn A) (P : rt -> Prop) : (forall st, P st -> caps_inv st) -> triple P (lift r) (fun _ => P) caps_inv.
Proof. intros HP st Hs. destruct r; cbn; [done|by apply HP]. Qed.

Lemma bind_function_caps o name is_async untimed rq : triple caps_inv (bind_function o name is_async untimed rq) (fun _ => caps_inv) caps_inv.
Proof.
  unfold bind_function. eapply triple_bind; [by apply lift_triple|]. intros n.
  eapply triple_bind; [eapply triple_weaken; [apply (new_handler_caps _ _ ∅)|intros st Hs; split; [done|set_solver]|done|done]|]. intros hid.
  eapply triple_bind; [apply or_pop_caps, request_triple|]. intros v st [Hs HR].
  assert (Hbad : caps_inv (crash (A := Z) "worker returned a malformed capability token" (pop_handler hid st)).2)
    by (apply crash_caps; by apply (pop_handlers_inv [hid])).
  destruct v as [| | |t| | | | | | | |]; try exact Hbad.
  pose proof (register_token_caps t hid st Hs) as Hr. unfold mbind at 1, M_bind at 1.
  destruct (_register_token t hid st) as [[x|e] st1]; [|done]. destruct Hr as (H1 & _ & H3 & H4). unfold add_name. exec.
  apply (give_token_caps t hid (upd_caps _ st1)); [|done|cbn; rewrite H4; set_solver]. by destruct H1.
Qed.

Lemma new_members_caps obj (R : gset Z) : triple (fun st => caps_inv st /\ R ⊆ registered (ledger_of (log st))) (new_members obj)
  (fun hids st => caps_inv st /\ R ∪ list_to_set hids.*2 ⊆ registered (ledger_of (log st))) caps_inv.
Proof.
  revert R. induction obj as [|[k [[a b]|]] obj IH]; intros R; cbn [new_members].
  - intros st [Hs HR]. split; [done|]. set_solver.
  - eapply triple_bind; [apply new_handler_caps|]. intros hid. eapply triple_bind; [apply IH|]. intros rest st [Hs HR].
    split; [done|]. rewrite fmap_cons. set_solver.
  - apply IH.
Qed.

Lemma register_all_caps (hids : list (list Z * Z)) ts st : caps_inv st -> list_to_set hids.*2 ⊆ registered (ledger_of (log st)) ->
  match register_all hids ts st with
  | (Ok pairs, st') => caps_inv st' /\ log st' = log st /\ _token_to_hid (rcaps st) ⊆ _token_to_hid (rcaps st') /\
      Forall (fun p => _token_to_hid (rcaps st') !! p.1 = Some p.2 /\ p.2 ∈ registered (ledger_of (log st'))) pairs
  | (Err _, st') => caps_inv st'
  end.
Proof.
  revert st. induction ts as [|[k t] ts IH]; intros st Hs HR; cbn [register_all]; [by split_and!|].
  destruct (list_find _ _) as [[i [k' hid]]|] eqn:Ef; [|done]. apply list_find_Some in Ef as (Hi & _ & _).
  assert (Hin : hid ∈ registered (ledger_of (log st))).
  { apply HR, elem_of_list_to_set. apply list_elem_of_fmap. exists (k', hid). split; [done|]. by apply list_elem_of_lookup_2 in Hi. }
  pose proof (register_token_caps t hid st Hs) as Hr. unfold mbind at 1, M_bind at 1.
  destruct (_register_token t hid st) as [[x|e] st1]; [|done]. destruct Hr as (H1 & H2 & H3 & H4).
  specialize (IH st1 H1). rewrite H4 in IH. specialize (IH HR). exec. destruct (register_all hids ts st1) as [[pairs|e] st2]; [|done].
  destruct IH as (I1 & I2 & I3 & I4). split_and!; [done|by rewrite I2|by etrans|]. constructor; [|done]. cbn. split.
  - by eapply lookup_weaken.
  - by rewrite I2.
Qed.

Lemma give_tokens_caps pairs st : caps_inv st ->
  Forall (fun p => _token_to_hid (rcaps st) !! p.1 = Some p.2 /\ p.2 ∈ registered (ledger_of (log st))) pairs ->
  (give_tokens pairs st).1 = Ok tt /\ caps_inv (give_tokens pairs st).2.
Proof.
  revert st. induction pairs as [|[t hid] pairs IH]; intros st Hs Hf; cbn [give_tokens]; [done|].
  apply Forall_cons in Hf as [[H1 H2] Hf]. exec. fold (push (GaveToken t hid) st). apply IH; [by apply give_token_caps|].
  apply (Forall_impl _ _ _ Hf). intros [t' h'] [H3 H4]. split; [done|]. cbn [push log]. by rewrite ledger_snoc.
Qed.

Lemma bind_object_caps o name obj rq : triple caps_inv (bind_object o name obj rq) (fun _ => caps_inv) caps_inv.
Proof.
  unfold bind_object. eapply triple_bind; [by apply lift_triple|]. intros n. eapply triple_bind; [by apply lift_triple|]. intros ks.
  eapply triple_bind; [eapply triple_weaken; [apply (new_members_caps _ ∅)|intros st Hs; split; [done|set_solver]|done|done]|]. intros hids.
  eapply triple_bind; [apply or_pop_caps, request_triple|]. intros v st [Hs HR].
  destruct (tokens_ok hids v) as [ts|].
  - pose proof (register_all_caps hids ts st Hs ltac:(set_solver)) as Hr. unfold mbind at 1, M_bind at 1.
    destruct (register_all hids ts st) as [[pairs|e] st1]; [|done]. destruct Hr as (H1 & H2 & _ & H4). unfold add_name. exec.
    destruct (give_tokens_caps pairs (upd_caps (fun c => Caps (_handlers c) (_token_to_hid c) (_tool_hids c) (_revoked_hids c) (_next_hid c) (_bound_names c ++ [n])) st1))
      as [G1 G2]; [by destruct H1|done|]. destruct (give_tokens pairs _) as [[]]; done.
  - apply (crash_caps (A := list (list Z * Z)) "worker returned malformed capability tokens"). by apply pop_handlers_inv.
Qed.

Lemma revoke_op_caps o t rq : triple caps_inv (revoke_op o t rq) (fun _ => caps_inv) caps_inv.
Proof.
  intros st Hs. unfold revoke_op. unfold emit, modify at 1 2. unfold mbind at 1, M_bind at 1. unfold mbind at 1, M_bind at 1.
  set (st1 := upd_caps _ _). assert (H1 : caps_inv st1).
  { unfold caps_inv, st1. cbn [upd_caps rcaps log]. rewrite ledger_snoc. destruct Hs. cbn [enter].
    destruct (holds (ledger_of (log st)) !! t) as [h|] eqn:E.
    - destruct (ag_holds0 _ _ E) as [-> Hr]. split; cbn; try done.
      + intros h' Hh'. destruct (decide (h' = h)) as [->|Hne]; [by rewrite lookup_delete_eq in Hh'; destruct Hh'|].
        rewrite lookup_delete_ne in Hh' by done. destruct (ag_handlers0 h' Hh'). set_solver.
      + set_solver.
      + intros t' h'. destruct (decide (t' = t)) as [->|Hne]; [by rewrite lookup_delete_eq|]. rewrite !lookup_delete_ne by done. apply ag_holds0.
    - destruct (_token_to_hid (rcaps st) !! t) as [h|]; split; try done; cbn.
      + intros h' Hh'. destruct (decide (h' = h)) as [->|Hne]; [by rewrite lookup_delete_eq in Hh'; destruct Hh'|].
        rewrite lookup_delete_ne in Hh' by done. by apply ag_handlers0.
      + intros t' h'. destruct (decide (t' = t)) as [->|Hne]; [by rewrite E|]. rewrite lookup_delete_ne by done. apply ag_holds0. }
  pose proof (request_caps o None rq (rcaps st1) ∅ st1) as Hq. exec. destruct (_request o None rq st1) as [[v|e] st2]; cbn in Hq;
    destruct Hq as [Hq _]; try done; split_and!; try done; set_solver.
Qed.

Lemma set_module_handler_caps o h rq : triple caps_inv (set_module_handler o h rq) (fun _ => caps_inv) caps_inv.
Proof.
  unfold set_module_handler.
  eapply triple_bind; [eapply triple_weaken; [apply (new_handler_caps _ _ ∅)|intros st Hs; split; [done|set_solver]|done|done]|]. intros hid.
  eapply triple_bind; [apply or_pop_caps, request_triple|]. by intros v st [Hs _].
Qed.

Lemma run_api_caps o a : preserves caps_inv (run_api o a).
Proof.
  assert (Ht : forall A (m : M A), triple caps_inv m (fun _ => caps_inv) caps_inv -> preserves caps_inv (_ ← m; mret tt)).
  { intros A m Hm. apply preserves_bind; [by apply preserves_of_triple|]. intros _. apply preserves_ret. }
  destruct a as [soft rq|name is_async untimed rq|name obj rq|t rq|rq|is_async rq|send|i]; cbn [run_api].
  - apply Ht. eapply triple_weaken; [apply (request_triple _ _ _ ∅)|intros st Hs; split; [done|set_solver]|by intros _ st [Hs _]|done].
  - apply Ht, bind_function_caps.
  - apply Ht, bind_object_caps.
  - apply Ht, revoke_op_caps.
  - unfold set_module_resolver. apply preserves_of_triple. apply set_module_handler_caps.
  - unfold set_module_loader. apply preserves_of_triple. apply set_module_handler_caps.
  - intros st Hs. destruct (close_cases send st) as [->|[b [-> _]]]; [done|]. unfold caps_inv.
    destruct b; cbn [killed push rcaps log]; rewrite !ledger_snoc; done.
  - intros st Hs. assert (Hb := background_preserves o any _ (caps_inv_at_stable o (rcaps st) ∅) i (Forall_any _) st). destruct Hb as [Hb _]; [|done]. split_and!; [done..|set_solver].
Qed.

Lemma session_caps o calls st : caps_inv st -> caps_inv (session o calls st).
Proof.
  revert st. induction calls as [|a calls IH]; intros st Hs; cbn [session]; [done|]. destruct (in_fork a); [by apply IH|].
  pose proof (run_api_caps o a st Hs) as Ha. destruct (run_api o a st) as [[x|e] st']; cbn in Ha; [by apply IH|].
  destruct e; try done; by apply IH.
Qed.

Lemma rt_init_caps o : caps_inv (rt_init o).
Proof.
  unfold caps_inv, rt_init. destruct (console_hid o) as [h|]; cbn [rcaps log].
  - split; cbn; try done.
    + intros h' Hs. destruct (decide (h' = h)) as [->|Hne]; [set_solver|]. rewrite lookup_singleton_ne in Hs by done. by destruct Hs.
    + intros h' Hin. assert (h' = h) as -> by set_solver. lia.
  - split; cbn; try done. intros h Hs. rewrite lookup_empty in Hs. by destruct Hs.
Qed.

(** C3. A worker holds exactly the capabilities its host gave it: over any session, with a
    worker that sends any frames and claims any tokens (reused ones too), every call the parent
    makes into a host function is for one the host registered, and never for one whose token the
    host has since revoked, whether or not the worker confirmed the revocation. *)
Theorem capabilities_confined o calls : lawful (ledger_of (log (session o calls (rt_init o)))) = true.
Proof. apply (ag_lawful _ _ (session_caps o calls _ (rt_init_caps o))). Qed.
