(* ===== verification/IsolatedFail.v ===== *)
(** * How a command of an isolated runtime ends

    What each ending of a command leaves: an answer is the worker's own answer to this command,
    every verdict against the worker leaves the runtime closed, a call the parent refuses itself
    changes nothing the worker sees, and only a worker that sends nothing but host calls keeps a
    command running ([request_ends_well]). *)

From S2P Require Import Prelude Utf8 PyVal PyStr ToolBridge Pump HostSide Isolated IsolatedInv.

Definition is_closed (st : rt) : Prop := _closed st = true.

(** A verdict of the parent comes with the runtime closed; a step does not wait. *)
Definition closing (e : rt_exn) (st : rt) : Prop :=
  match e with Crashed _ | TimedOut _ => is_closed st | Waiting => False | _ => True end.

(** Neither a verdict nor a wait. *)
Definition calm (e : rt_exn) : bool := match e with Crashed _ | TimedOut _ | Waiting => false | _ => true end.
Lemma calm_closing e st : calm e = true -> closing e st.
Proof. by destruct e. Qed.

(** [m] raises a verdict only with the runtime closed, and returns in a state with [Q]. *)
Definition closes {A} (m : M A) (Q : A -> rt -> Prop) : Prop := forall st,
  match m st with (Ok a, st') => Q a st' | (Err e, st') => closing e st' end.
Abbreviation closes_ok m := (closes m (fun _ _ => True)).

(** ** Closed stays closed *)

Lemma closed_stable o : stable o any is_closed.
Proof. split; try done; unfold is_closed; congruence. Qed.
Lemma closing_kept e st st' : closing e st -> (is_closed st -> is_closed st') -> closing e st'.
Proof. destruct e; cbn; auto. Qed.
Lemma closed_calls o : call_stable o any is_closed (fun _ => is_closed).
Proof. split; try done; intros; apply closed_stable. Qed.

(** ** Rules *)

Lemma closes_ret {A} (a : A) (Q : A -> rt -> Prop) : (forall st, Q a st) -> closes (mret a) Q.
Proof. intros H st. apply H. Qed.
Lemma closes_gets {A} (f : rt -> A) : closes_ok (gets f).
Proof. by intros st. Qed.
Lemma closes_modify f : closes_ok (modify f).
Proof. by intros st. Qed.
Lemma closes_raise {A} e (Q : A -> rt -> Prop) : calm e = true -> closes (raise e) Q.
Proof. intros H st. by apply calm_closing. Qed.
Lemma closes_bind {A B} (m : M A) (f : A -> M B) (R : A -> rt -> Prop) (Q : B -> rt -> Prop) : closes m R ->
  (forall a st, R a st -> match f a st with (Ok b, st') => Q b st' | (Err e, st') => closing e st' end) -> closes (m ≫= f) Q.
Proof. intros Hm Hf st. unfold mbind, M_bind. specialize (Hm st). destruct (m st) as [[a|e] st']; [by apply Hf|done]. Qed.
Lemma closes_seq {A B} (m : M A) (f : A -> M B) Q : closes_ok m -> (forall a, closes (f a) Q) -> closes (m ≫= f) Q.
Proof. intros Hm Hf. eapply closes_bind; [exact Hm|]. intros a st _. apply Hf. Qed.
Lemma closes_finally {A} (m : M A) f : closes_ok m -> (forall st, is_closed st -> is_closed (f st)) -> closes_ok (finally m f).
Proof. intros Hm Hf st. unfold finally. specialize (Hm st). destruct (m st) as [[a|e] st']; [done|]. eapply closing_kept; [exact Hm|apply Hf]. Qed.
Lemma closes_crash {A} msg (Q : A -> rt -> Prop) : closes (crash msg) Q.
Proof. by intros st. Qed.
Lemma closes_crash_described {A} msg (Q : A -> rt -> Prop) : closes (crash_described msg) Q.
Proof. by intros st. Qed.
Lemma closes_kill_raise {A} e (Q : A -> rt -> Prop) : e <> Waiting -> closes (_ ← _kill; raise e) Q.
Proof. intros He st. by destruct e. Qed.

Section Fail.
Context (o : opts).

Lemma check_memory_closes force now s : closes_ok (_check_memory o force now s).
Proof.
  unfold _check_memory. apply closes_seq; [apply closes_gets|]. intros last. destruct (_ && _); [by apply closes_ret|].
  apply closes_seq; [apply closes_modify|]. intros _.
  destruct (over (Some _) _); [apply closes_seq; [apply closes_modify|intros _; apply closes_crash]|].
  destruct (over (_max_memory o) _); [apply closes_seq; [apply closes_modify|intros _; apply closes_crash]|by apply closes_ret].
Qed.

Lemma supervise_closes now s : closes_ok (_supervise o now s).
Proof.
  unfold _supervise. apply closes_seq; [apply closes_gets|]. intros p. destruct (expired now p); [by apply closes_kill_raise|].
  destruct (waited_too_long now p); [by apply closes_kill_raise|]. apply closes_seq; [apply check_memory_closes|]. intros c.
  destruct (match cpu_start p with _ => _ end); [by apply closes_kill_raise|by apply closes_ret].
Qed.

(** A verdict the watchdog leaves for the pump. *)
Definition verdict_closed (v : option rt_exn) (st : rt) : Prop := match v with Some e => closing e st | None => True end.
Lemma verdict_kept v st st' : verdict_closed v st -> (is_closed st -> is_closed st') -> verdict_closed v st'.
Proof. destruct v; [apply closing_kept|done]. Qed.

Lemma watch_pass_closes now s : closes (watch_pass o now s) verdict_closed.
Proof.
  intros st. unfold watch_pass, mbind at 1, M_bind at 1, gets. destruct (_closed st) eqn:Ec; [done|].
  unfold except. unfold mbind, M_bind. pose proof (supervise_closes now s st) as Hs.
  destruct (_supervise o now s st) as [[a|e] st']; [done|]. by destruct e.
Qed.

Lemma watch_closes passes : closes (watch o passes) verdict_closed.
Proof.
  induction passes as [|[now s] passes IH]; cbn [watch]; [by apply closes_ret|].
  eapply closes_bind; [apply watch_pass_closes|]. intros v st Hv.
  assert (Hc := watch_preserves o any is_closed (closed_stable o) passes st). unfold mbind, M_bind. specialize (IH st).
  destruct (watch o passes st) as [[v'|e] st']; [|done]. destruct v' as [e|]; [done|]. by eapply verdict_kept.
Qed.

Lemma send_reply_closes r ends w1 w2 : closes_ok (_send_reply o r ends w1 w2).
Proof.
  unfold _send_reply. apply closes_finally.
  - apply closes_seq; [apply closes_gets|]. intros c. destruct c; [by apply closes_ret|].
    destruct w1 as [|e| |]; [apply closes_modify| |apply closes_modify|by apply closes_ret].
    destruct w2; [apply closes_modify|by apply closes_raise|apply closes_modify|by apply closes_ret].
  - intros st. by destruct ends.
Qed.

Lemma record_refusal_closes cmd e : closes_ok (_record_refusal cmd e).
Proof.
  unfold _record_refusal. apply closes_seq; [apply closes_gets|]. intros cur. destruct e; [|by apply closes_ret].
  destruct cmd, cur; try by apply closes_ret. destruct (_ =? _); [apply closes_modify|by apply closes_ret].
Qed.

Lemma invoke_closes hid fn args ci : closes_ok (invoke hid fn args ci).
Proof.
  unfold invoke. destruct (accepts fn args); [|by apply closes_ret]. apply closes_seq; [apply closes_modify|]. intros _.
  apply closes_seq; [apply closes_gets|]. intros cmd. apply closes_seq; [|intros _; by apply closes_ret].
  destruct fn; try by apply closes_ret. apply record_refusal_closes.
Qed.

(** Send a reply, then hand on the verdict. *)
Lemma send_then_verdict r ends ci v st : shown o any r -> verdict_closed v st ->
  match (_ ← _send_reply o r ends (ci_w1 ci) (ci_w2 ci); mret v) st with
  | (Ok b, st') => verdict_closed b st'
  | (Err e, st') => closing e st'
  end.
Proof.
  intros Hr Hv. unfold mbind, M_bind. pose proof (send_reply_closes r ends (ci_w1 ci) (ci_w2 ci) st) as Hc.
  pose proof (send_reply_preserves o any is_closed (closed_stable o) r ends (ci_w1 ci) (ci_w2 ci) Hr (Forall_any _) st) as Hp.
  destruct (_send_reply o r ends _ _ st) as [[a|e] st']; [|done]. by eapply verdict_kept.
Qed.

Lemma answer_closes cid ends ci out v e st : calm e = true -> verdict_closed v st ->
  match (match outcome_reply o cid out with
         | None => raise e
         | Some r => _ ← _send_reply o r ends (ci_w1 ci) (ci_w2 ci); mret v
         end : M (option rt_exn)) st with
  | (Ok b, st') => verdict_closed b st'
  | (Err e, st') => closing e st'
  end.
Proof.
  intros He Hv. destruct (outcome_reply o cid out) as [r|] eqn:E; [|by apply calm_closing].
  apply send_then_verdict; [|done]. eapply outcome_reply_shown; [|done]. by right.
Qed.

Lemma run_sync_closes hid fn args cid ends ci : closes (_run_sync_handler o hid fn args cid ends ci) verdict_closed.
Proof.
  unfold _run_sync_handler. apply closes_seq; [apply invoke_closes|]. intros out. eapply closes_bind; [apply watch_closes|].
  intros v st Hv. by apply answer_closes.
Qed.

Lemma stuck_closes cid ends ci started v st : verdict_closed v st ->
  match (count ← abandon started;
         if MAX_ABANDONED_TOOL_CALLS <? count then
           _ ← _too_many_outlasted; _ ← _send_reply o (_error o cid tool_timeout_error) ends (ci_w1 ci) (ci_w2 ci);
           raise (Crashed "too many abandoned tool calls in this session")
         else _ ← _send_reply o (_error o cid tool_timeout_error) ends (ci_w1 ci) (ci_w2 ci); mret v) st with
  | (Ok b, st') => verdict_closed b st'
  | (Err e, st') => closing e st'
  end.
Proof.
  intros Hv. unfold mbind at 1, M_bind at 1, abandon at 1. unfold mbind at 1, M_bind at 1, modify at 1, gets at 1. set (st1 := upd_cnt _ st).
  destruct (_ <? _); [|by apply send_then_verdict; [apply own_shown; constructor|]].
  unfold mbind at 1, M_bind at 1, _too_many_outlasted at 1, mbind at 1, M_bind at 1, set_reason at 1, _kill, modify. set (st2 := RT _ _ _ true _ _ _).
  unfold mbind, M_bind. pose proof (send_reply_preserves o any is_closed (closed_stable o) (_error o cid tool_timeout_error) ends (ci_w1 ci) (ci_w2 ci) ltac:(apply own_shown; constructor) (Forall_any _) st2 eq_refl) as Hp.
  pose proof (send_reply_closes (_error o cid tool_timeout_error) ends (ci_w1 ci) (ci_w2 ci) st2) as Hc.
  destruct (_send_reply o _ ends _ _ st2) as [[a|e] st3]; [exact Hp|exact Hc].
Qed.

Lemma run_timed_closes hid fn args cid ends ci : closes (_run_timed_handler o hid fn args cid ends ci) verdict_closed.
Proof.
  unfold _run_timed_handler. destruct (ci_timed ci) as [| |[]|e].
  1, 2: apply closes_seq; [apply invoke_closes|]; intros out; (eapply closes_bind; [apply watch_closes|]); intros v st Hv; by apply answer_closes.
  - apply closes_seq; [apply invoke_closes|]. intros out. eapply closes_bind; [apply watch_closes|]. intros v st Hv. by apply stuck_closes.
  - eapply closes_bind; [apply watch_closes|]. intros v st Hv. by apply stuck_closes.
  - eapply closes_bind; [apply watch_closes|]. intros v st Hv. apply send_then_verdict; [apply shown_error; by right|done].
Qed.

Lemma run_watched_closes hid fn args cid ends limit ci : closes_ok (_run_watched o hid fn args cid ends limit ci).
Proof.
  unfold _run_watched. eapply (closes_bind _ _ verdict_closed); [destruct limit; [apply run_timed_closes|apply run_sync_closes]|].
  intros [e|] st Hv; done.
Qed.

Lemma charge_closes c : closes_ok (charge_call o c).
Proof.
  unfold charge_call. destruct c; [by apply closes_ret|]. apply closes_seq; [apply closes_modify|]. intros _.
  apply closes_seq; [apply closes_gets|]. intros n. destruct (over _ _); [by apply closes_raise|by apply closes_ret].
Qed.

Lemma run_call_closes c hid h args cid ci : closes_ok (run_call o c hid h args cid ci).
Proof.
  unfold run_call. destruct c.
  - apply closes_seq; [apply closes_modify|]. intros _. apply closes_finally; [apply run_watched_closes|done].
  - do 2 (apply closes_seq; [apply closes_gets|]; intros ?). destruct (in_flight_full o _ _); [apply send_reply_closes|].
    do 2 (apply closes_seq; [apply closes_gets|]; intros ?). apply closes_seq; [apply closes_modify|]. intros _.
    destruct (_ && _); [|apply run_watched_closes]. unfold start_async. destruct (ci_loop ci); [apply send_reply_closes|].
    apply closes_seq; [|intros _; apply closes_modify]. destruct (accepts _ _); [apply closes_modify|by apply closes_ret].
Qed.

Lemma on_call_closes m ci : closes_ok (_on_call o m ci).
Proof.
  unfold _on_call. apply closes_seq.
  - unfold call_entry. apply closes_seq; [apply closes_gets|]. intros cs.
    match goal with |- closes (match ?x with _ => _ end) _ => destruct x end; [by apply closes_ret|].
    destruct (unhashable _); [by apply closes_raise|by apply closes_ret].
  - intros entry. destruct (get_field m (u "cid")); try by apply closes_raise. destruct entry as [[hid h]|]; [|by apply closes_raise].
    destruct (get_field m (u "args")); try by apply closes_raise. apply closes_seq; [apply charge_closes|]. intros _. apply run_call_closes.
Qed.

(** A frame of [inputs] that answers the command [id]. *)
Definition answers (id : Z) (inputs : list input) (kind : string) (m : message) : Prop :=
  (exists now s c, ReadFrame now s (Some m) c ∈ inputs) /\ get_field m (u "t") = PStr (u kind) /\ eq_int (get_field m (u "id")) id = true.

Definition answered (id : Z) (inputs : list input) (a : pyval + remote_error) : Prop :=
  match a with
  | inl v => exists m, answers id inputs "result" m /\ v = get_field m (u "v")
  | inr e => exists m, answers id inputs "error" m /\ e = _remote_error (get_field m (u "kind")) (get_field m (u "msg")) (config_keys o)
  end.

Lemma answered_cons id i inputs a : answered id inputs a -> answered id (i :: inputs) a.
Proof. destruct a; intros (m & [(now & s & c & Hin) Hm] & Hv); exists m; (split; [split; [|done]|done]); exists now, s, c; by right. Qed.

Lemma on_frame_closes id now s m c inputs :
  closes (on_frame o id now s m c) (fun r _ => match r with Some a => answered id (ReadFrame now s (Some m) c :: inputs) a | None => True end).
Proof.
  unfold on_frame. destruct (get_field m (u "t")) as [| | | | |k| | | | | |] eqn:Ek; try by apply closes_raise.
  destruct (bool_decide (k = u "call")) eqn:Ec; [apply closes_seq; [apply on_call_closes|intros _; by apply closes_ret]|].
  destruct (_ && _) eqn:Ea; [|by apply closes_raise]. apply andb_true_iff in Ea as [Er Ei].
  apply closes_seq; [apply check_memory_closes|]. intros _.
  assert (Hin : exists now' s' c', ReadFrame now' s' (Some m) c' ∈ ReadFrame now s (Some m) c :: inputs) by (exists now, s, c; left).
  destruct (bool_decide (k = u "result")) eqn:E1; apply closes_ret; intros _; exists m; (split; [split_and!; [done| |done]|done]); rewrite Ek; f_equal.
  - by apply bool_decide_eq_true in E1.
  - by apply orb_true_iff in Er as [?|Er%bool_decide_eq_true].
Qed.

Lemma background_closes i : closes_ok (background o i).
Proof.
  assert (Hex : forall A (m : M A) (a : A), closes_ok (except m (fun _ => mret a))).
  { intros A m a st. unfold except. by destruct (m st) as [[]]. }
  assert (Hf : forall key now out re w1 w2, closes_ok (_finish_async_call o key now out re w1 w2)).
  { intros. unfold _finish_async_call. apply closes_seq; [apply closes_gets|]. intros r. destruct (r !! key) as [[cid cmd]|]; [|by apply closes_ret].
    apply closes_seq; [apply record_refusal_closes|]. intros _. apply closes_seq; [apply closes_modify|]. intros _.
    apply closes_seq; [apply closes_gets|]. intros cur. apply Hex. }
  destruct i; cbn [background]; try by apply closes_ret.
  - apply Hf.
  - apply closes_seq; [apply closes_gets|]. intros r. destruct (bool_decide _); [|by apply closes_ret].
    apply closes_seq; [by intros st|]. intros n. apply closes_seq; [destruct (_ <? _); by intros st|]. intros _. apply Hf.
  - apply closes_modify.
  - unfold _idle_check. do 2 (apply closes_seq; [apply closes_gets|]; intros ?). destruct a; [by apply closes_ret|].
    destruct (_current_cmd a0); apply Hex.
Qed.

(** A worker that keeps a command running: it sends nothing but host calls. *)
Definition keeps_running (i : input) : Prop :=
  match i with
  | ReadFrame _ _ m _ => exists m', m = Some m' /\ get_field m' (u "t") = PStr (u "call")
  | ReadEof _ _ | ReadFault _ | Interrupt => False
  | ReadTimeout _ _ | AsyncEnds _ _ _ _ _ _ | AsyncStuck _ _ _ _ | LateEnd | Watchdog _ _ => True
  end.

(** The same for the loop, which may be still waiting. *)
Definition ends_loop {A} (inputs : list input) (m : M A) (Q : A -> Prop) : Prop := forall st,
  match m st with (Ok a, _) => Q a | (Err Waiting, _) => Forall keeps_running inputs | (Err e, st') => closing e st' end.

Lemma ends_closes {A} inputs (m : M A) (Q : A -> Prop) : closes m (fun a _ => Q a) -> ends_loop inputs m Q.
Proof. intros H st. specialize (H st). destruct (m st) as [[a|e] st']; [done|]. by destruct e. Qed.
Lemma ends_seq {A B} inputs (m : M A) (f : A -> M B) (Q : B -> Prop) : closes_ok m -> (forall a, ends_loop inputs (f a) Q) -> ends_loop inputs (m ≫= f) Q.
Proof.
  intros Hm Hf st. unfold mbind, M_bind. specialize (Hm st). destruct (m st) as [[a|e] st']; [apply Hf|]. by destruct e.
Qed.
Lemma ends_cons {A} i inputs (m : M A) (Q Q' : A -> Prop) : keeps_running i -> (forall a, Q a -> Q' a) -> ends_loop inputs m Q -> ends_loop (i :: inputs) m Q'.
Proof.
  intros Hi HQ Hm st. specialize (Hm st). destruct (m st) as [[a|e] st']; [by apply HQ|]. destruct e; try done. by constructor.
Qed.

Lemma on_frame_none id now s m c st st' : on_frame o id now s m c st = (Ok None, st') -> get_field m (u "t") = PStr (u "call").
Proof.
  unfold on_frame. destruct (get_field m (u "t")) as [| | | | |k| | | | | |]; try done.
  destruct (bool_decide (k = u "call")) eqn:E; [apply bool_decide_eq_true in E as ->; done|].
  destruct (_ && _); [|done]. unfold mbind at 1, M_bind at 1. destruct (_check_memory o true now s st) as [[x|e] st1]; [|done].
  by destruct (bool_decide (k = u "result")).
Qed.

Lemma pump_loop_ends id last inputs : ends_loop inputs (pump_loop o id last inputs) (answered id inputs).
Proof.
  revert last. induction inputs as [|i inputs IH]; intros last; cbn [pump_loop]; [intros st; constructor|].
  assert (Hrest : forall last', keeps_running i -> ends_loop (i :: inputs) (pump_loop o id last' inputs) (answered id (i :: inputs))).
  { intros last' Hi. eapply ends_cons; [done|apply answered_cons|apply IH]. }
  assert (Hsup : forall (b : bool) now s, closes_ok (if b then _supervise o now s else mret tt)).
  { intros [] now s; [apply supervise_closes|by apply closes_ret]. }
  destruct i as [now s|now s m c|now s|os| |key now out re w1 w2|key now w1 w2| |now s];
    try (apply ends_seq; [apply background_closes|intros _; by apply Hrest]).
  - apply ends_seq; [apply supervise_closes|intros _; by apply Hrest].
  - apply ends_seq; [apply Hsup|]. intros _. destruct m as [m|]; [|by apply ends_closes, closes_raise].
    intros st. unfold mbind at 1, M_bind at 1. pose proof (on_frame_closes id now s m c inputs st) as Hf. pose proof (on_frame_none id now s m c st) as Hn.
    destruct (on_frame o id now s m c st) as [[[a|]|e] st']; [done| |by destruct e]. apply Hrest. exists m. split; [done|]. by eapply Hn.
  - apply ends_seq; [apply Hsup|]. intros _. apply ends_closes, closes_crash_described.
  - apply ends_closes, closes_raise. by destruct os.
  - by apply ends_closes, closes_raise.
Qed.
End Fail.

(** How [_pump] ends: with an answer, with a verdict, or not yet. *)
Definition pump_end (o : opts) (id : Z) (inputs : list input) (r : result rt_exn pyval) (st : rt) : Prop :=
  match r with
  | Ok v => exists m, answers id inputs "result" m /\ v = get_field m (u "v")
  | Err (Remote e) => exists m, answers id inputs "error" m /\
      e = _remote_error (get_field m (u "kind")) (get_field m (u "msg")) (config_keys o)
  | Err (Crashed _ | TimedOut _ | Interrupted) => is_closed st
  | Err Waiting => Forall keeps_running inputs
  | Err _ => False
  end.

(** How a command ends, from the state [st] it began in.  [Refused]: a gate's refusal takes the
    place of the answer or of the verdict.  [Python] and [SlotTimeout]: the parent refuses the call
    itself; nothing was sent, no host function was called and the runtime is as it was, but for the
    number a message that cannot be encoded has used up and its clock. *)
Definition ends_well (o : opts) (id : Z) (inputs : list input) (st : rt) (r : result rt_exn pyval) (st' : rt) : Prop :=
  match r with
  | Err (Refused _) => is_closed st' \/ exists a, answered o id inputs a
  | Err (Python _ | SlotTimeout) => exists f, st' = upd_cmd f st /\ _current_cmd (rcmd st') = _current_cmd (rcmd st)
  | _ => pump_end o id inputs r st'
  end.

Lemma pump_ends o id now inputs st : let '(r, st') := _pump o id now inputs st in pump_end o id inputs r st'.
Proof.
  unfold _pump, except. pose proof (pump_loop_ends o id now inputs st) as Hl. unfold mbind at 1, M_bind at 1.
  destruct (pump_loop o id now inputs st) as [[[v|e]|e] st']; [done|done|]. by destruct e.
Qed.

(** End with a result at hand. *)
Definition settled {A} (r : result rt_exn A) : M A := fun st => (r, st).

Lemma refusal_ends_well o id inputs st (r : result rt_exn pyval) st1 : pump_end o id inputs r st1 -> r <> Err Waiting ->
  let '(r', st') := (_ ← _raise_refusal id; settled r) st1 in ends_well o id inputs st r' st'.
Proof.
  intros H Hw. unfold mbind, M_bind, _raise_refusal, gets, modify. cbn beta iota. unfold mbind, M_bind. cbn beta iota.
  destruct (_gate_refusals (rcmd st1) !! id); cbn.
  - destruct r as [v|e]; [right; by exists (inl v)|]. destruct e as [| |e| | | | | | | | |]; try done; try (by left). right. by exists (inr e).
  - destruct r as [v|e]; [done|]. by destruct e.
Qed.

Lemma unless_waiting_ends_well o id inputs st (m : M pyval) f st1 : (forall st, _closed (f st) = _closed st) ->
  (let '(r, st') := m st1 in ends_well o id inputs st r st' /\ (forall e, r <> Err (Python e)) /\ r <> Err SlotTimeout) ->
  let '(r, st') := unless_waiting m f st1 in ends_well o id inputs st r st'.
Proof.
  intros Hf Hm. unfold unless_waiting. destruct (m st1) as [[v|e] st']; [by destruct Hm|]. destruct Hm as (Hm & Hp & Hs).
  destruct e; try done; cbn in *; unfold is_closed in *; rewrite ?Hf; try done; by destruct (Hp e).
Qed.

Lemma guarded_ends_well o id now inputs st st1 :
  let '(r, st') := (v ← except (_pump o id now inputs) (fun e =>
                          match e with Interrupted | Waiting => raise e | _ => _ ← _raise_refusal id; raise e end);
                    _ ← _raise_refusal id; mret v) st1 in
  ends_well o id inputs st r st' /\ (forall e, r <> Err (Python e)) /\ r <> Err SlotTimeout.
Proof.
  pose proof (pump_ends o id now inputs st1) as Hp. unfold except. unfold mbind at 1, M_bind at 1.
  destruct (_pump o id now inputs st1) as [[v|e] st'].
  - pose proof (refusal_ends_well o id inputs st (Ok v) st' Hp ltac:(done)) as Hr. unfold mbind, M_bind, settled in Hr.
    unfold mbind, M_bind, mret, M_ret. revert Hr. unfold _raise_refusal, gets, modify, mbind, M_bind. cbn beta iota.
    by destruct (_gate_refusals (rcmd st') !! id).
  - destruct e; try done; (pose proof (refusal_ends_well o id inputs st (Err _) st' Hp ltac:(done)) as Hr;
      revert Hr; unfold settled, _raise_refusal, gets, modify, mbind, M_bind, raise; cbn beta iota; by destruct (_gate_refusals (rcmd st') !! id)).
Qed.


(** The limits of a command bound it together, each covering the others' way round: when a
    supervision pass lets a command go on and no host call is running, the time since its start
    is at most twice the hard deadline (console output can at most double it) plus
    [max_host_wait], the CPU it has used is at most its cap, and memory and threads are within
    their limits. *)
Theorem supervised_command_bounded o h w cap cpu0 start evs m now s st :
  0 < start -> 0 <= h ->
  run_clock evs (pump_init start (Some h) (Some w) cap cpu0) (meter_init start) = Some (pump (rcmd st), m) -> upto m <= now ->
  busy m = 0 -> (_supervise o now s st).1 = Ok tt ->
  now - start <= 2 * h + w /\
  (match cap, cpu0, cpu s with Some c, Some c0, Some c1 => c1 - c0 <= c | _, _, _ => True end) /\
  over (_max_memory o) (rss s) = false /\ over (Some _MAX_WORKER_THREADS) (threads s) = false.
Proof.
  intros Hs Hh E Hn Hb Hok. set (p := pump (rcmd st)) in *.
  assert (Hp : max_host_wait p = Some w /\ cpu_cap p = cap /\ cpu_start p = cpu0) by (by apply run_clock_keeps in E).
  destruct Hp as (Hw & Hcap & Hcpu).
  apply (run_clock_sim _ (Some h) start) in E as [Hsim _]; [|by apply sim_init].
  apply (sim_advance _ _ _ _ now) in Hsim; [|done]. pose proof (sim_checks _ _ _ _ Hsim) as [H1 H2]. rewrite upto_advance in *.
  unfold _supervise, mbind, M_bind, gets, _check_memory in Hok. fold p in Hok. unfold gets, mbind, M_bind, modify in Hok. cbn beta iota in Hok.
  destruct (expired now p) eqn:Ee; [done|]. destruct (waited_too_long now p) eqn:Ew; [done|].
  cbn [negb andb] in Hok. destruct (over (Some _MAX_WORKER_THREADS) (threads s)) eqn:Et; [done|].
  destruct (over (_max_memory o) (rss s)) eqn:Em; [done|]. cbn [mret M_ret] in Hok. split_and!; [|..|done|done].
  - assert (Hb' : busy (advance (default 0 (Some h)) now m) = 0) by (unfold advance; rewrite Hb; done).
    rewrite Hb' in H1. cbn [andb Z.eqb] in H1. symmetry in H1. bool_prop. rewrite Hw in H2. symmetry in H2. bool_prop.
    pose proof (sim_total _ _ _ _ Hsim) as Ht. rewrite upto_advance in Ht. pose proof (sim_granted _ _ _ _ Hsim) as Hg.
    pose proof (sim_left_range _ _ _ _ Hsim) as Hl. rewrite console_grant_eq in Hg. cbn [default from_option id] in *.
    destruct (_ || _) in Hg; lia.
  - rewrite Hcpu, Hcap in Hok. destruct cap as [c|], cpu0 as [c0|], (cpu s) as [c1|]; try done. cbn in Hok.
    destruct (c <? c1 - c0) eqn:Ec; [done|]. by bool_prop.
Qed.

Lemma supervised_command_bounded_witness :
  let p := pump_init 100 (Some 30) (Some 60) (Some 60) (Some 5) in
  let o := Opts None None None (Some 1000) None (Redaction true None) [] (Some 60) None 2000 in
  let st := RT (Caps ∅ ∅ ∅ [] 1 []) (Counters 0 0 ∅ 0 0) (Command 2 (Some 1) ∅ (begin_call 110 p) false None 0) false None 0 [] in
  let st' := upd_pump (end_call 150) st in
  (_supervise o 160 (Sample (Some 900) (Some 50) (Some 13)) st').1 = Ok tt /\ 160 - 100 <= 2 * 30 + 60.
Proof.
  intros p o st st'. split; [reflexivity|].
  assert (E : run_clock [(BeginCall, 110); (EndCall, 150)] p (meter_init 100) = Some (pump (rcmd st'), Meter 150 0 false 10 40 0)) by reflexivity.
  apply (supervised_command_bounded o 30 60 (Some 60) (Some 5) 100 [(BeginCall, 110); (EndCall, 150)] _ 160
           (Sample (Some 900) (Some 50) (Some 13)) st' ltac:(lia) ltac:(lia) E); [cbn; lia|reflexivity|reflexivity].
Defined.

(** A host function that ends its thread with [SystemExit] under [tool_timeout]: the reply is
    missing where the pump expects one, and the worker is blamed and killed for it.  Without
    [tool_timeout] the same exception reaches the caller of the command. *)
Lemma timed_abort_blames_worker :
  let o limit := Opts None None limit None None (Redaction true None) [] (Some 60000) None 2000 in
  let st := RT (Caps {[1 := Handler ToolFn false false]} {[7 := 1]} {[1]} [] 2 []) (Counters 0 0 ∅ 0 0)
              (Command 2 None ∅ (pump_init 0 None None None None) false None 0) false None 0 [] in
  let ci := CallInput 110 120 [] Aborted None EndedInTime None SendOk SendOk in
  let call := [(u "t", PStr (u "call")); (u "cid", PInt 1); (u "hid", PInt 1); (u "args", PList [])] in
  let rq := Request 100 None false false false false SendOk [ReadFrame 110 (Sample None None None) (Some call) ci] 130 None in
  (_request (o (Some 1000)) None rq st).1 = Err (Crashed "worker sent a malformed frame") /\
  (_request (o None) None rq st).1 = Err Interrupted.
Proof. split; vm_compute; reflexivity. Qed.
