(* ===== verification/AioRuntime.v ===== *)
(** * The asynchronous runtime ([python/pydeno/_aio.py], [AsyncIsolatedRuntime])

    A worker driven from an event loop.  Commands, the tasks of asynchronous host functions, the
    supervisor and [close] are coroutines that interleave at their awaits; synchronous host
    functions run on threads.  The model is the interleaving: one action is one turn, from one
    await to the next.  What the worker sends, how the clock runs, what a host function does, how
    full the pipe is and when a task is cancelled are inputs.  The start-up handshake is left out:
    the runtime is started and runs on its own loop.  Times are milliseconds. *)

From S2P Require Import Prelude Utf8 PyVal PyStr Pump HostSide Isolated.

(** ** State *)

(** [_Verdict]: its class ([RuntimeTimeout] or [WorkerCrashed]) and its text. *)
Record _Verdict := Verdict { is_timeout : bool; v_text : string }.

Record core := Core {
  closed : bool; killed : bool; verdict : option _Verdict; host_calls : Z; async_inflight : Z; last_id : Z;
  current_cmd : option Z; refusals : gmap Z host_exn; cmd : option nat; gen : Z; last_cpu : option Z;
  idle_cpu_base : option Z; idle_since : Z; outlasted : Z
}.

(** A call the command waits for: a console call, a synchronous host function ([s_counts]: its
    [end_call] is due), or the refusal of one. *)
Record sync_call := SyncCall { s_cid : Z; s_hid : Z; s_console : bool; s_counts : bool; s_limit : option Z }.

Inductive answer := Result (v : pyval) | RemoteFailure (e : remote_error).

(** How [_request] ended: [Refusal] before anything was sent. *)
Inductive ended :=
| Answered (a : answer) | GateRefused (e : host_exn) | Refusal (msg : string) | Cancelled | Condemned (v : _Verdict) | Crash (msg : string).

(** Where [_request] waits: for the command lock; for its message to be encoded; for the send lock;
    for the pipe to drain; for a frame; for a frame to be decoded; after the end of the stream; for
    a host function; for the send lock with a reply; for the pipe with a reply; for the last
    sample. *)
Inductive phase :=
| Locking | Encoding | SendLock | Draining | Pumping | Decoding (m : message) | AtEof
| Running (c : sync_call) | ReplyLock (c : sync_call) (r : reply) | ReplyDrain (c : sync_call) | Final (a : answer) | Ended (e : ended).

Record req := Req { q_phase : phase; q_id : Z; q_pump : nat }.

(** Where the task of an asynchronous host function waits: for the function; for the send lock; for
    its reply to be encoded; for the pipe. *)
Inductive tphase := TRun | TLock (r : reply) | TEncode (r : reply) | TDrain | TDone.
Record task := Task { t_cid : Z; t_hid : Z; t_pump : nat; t_limit : option Z; t_phase : tphase }.

Inductive holder := HReq (i : nat) | HTask (j : nat).
#[export] Instance holder_eq_dec : EqDecision holder.
Proof. solve_decision. Defined.

(** [close]: waiting for a start slot, for the worker to exit, done. *)
Inductive closer := CSlot | CWait | CDone.

(** What the worker and the host functions see: a command, a reply, the close frame; a call
    accepted for an answer, a host function called; the kill. *)
Inductive event :=
| SentCommand (id : Z) | SentReply (r : reply) | SentClose | Accepted (cid : Z) | Invoked (hid : Z) (console : bool) | Killed.

(** [got]: the frames each command has read. *)
Record world := World {
  rt : core; handlers : gmap Z handler; tool_hids : gset Z; revoked : list Z;
  lock : option nat; slock : option holder; pumps : list _Pump; reqs : list req; tasks : list task; closers : list closer;
  got : list (Z * message); log : list event
}.

Definition on_rt (f : core -> core) (w : world) : world :=
  World (f w.(rt)) w.(handlers) w.(tool_hids) w.(revoked) w.(lock) w.(slock) w.(pumps) w.(reqs) w.(tasks) w.(closers) w.(got) w.(log).
Definition set_lock (l : option nat) (w : world) : world :=
  World w.(rt) w.(handlers) w.(tool_hids) w.(revoked) l w.(slock) w.(pumps) w.(reqs) w.(tasks) w.(closers) w.(got) w.(log).
Definition set_slock (l : option holder) (w : world) : world :=
  World w.(rt) w.(handlers) w.(tool_hids) w.(revoked) w.(lock) l w.(pumps) w.(reqs) w.(tasks) w.(closers) w.(got) w.(log).
Definition on_pump (k : nat) (f : _Pump -> _Pump) (w : world) : world :=
  World w.(rt) w.(handlers) w.(tool_hids) w.(revoked) w.(lock) w.(slock) (alter f k w.(pumps)) w.(reqs) w.(tasks) w.(closers) w.(got) w.(log).
Definition set_req (i : nat) (q : req) (w : world) : world :=
  World w.(rt) w.(handlers) w.(tool_hids) w.(revoked) w.(lock) w.(slock) w.(pumps) (<[i := q]> w.(reqs)) w.(tasks) w.(closers) w.(got) w.(log).
Definition emit (e : event) (w : world) : world :=
  World w.(rt) w.(handlers) w.(tool_hids) w.(revoked) w.(lock) w.(slock) w.(pumps) w.(reqs) w.(tasks) w.(closers) w.(got) (w.(log) ++ [e]).
Definition set_closers (l : list closer) (w : world) : world :=
  World w.(rt) w.(handlers) w.(tool_hids) w.(revoked) w.(lock) w.(slock) w.(pumps) w.(reqs) w.(tasks) l w.(got) w.(log).
Definition read_frame (id : Z) (m : message) (w : world) : world :=
  World w.(rt) w.(handlers) w.(tool_hids) w.(revoked) w.(lock) w.(slock) w.(pumps) w.(reqs) w.(tasks) w.(closers) (w.(got) ++ [(id, m)]) w.(log).
Definition set_handlers (hs : gmap Z handler) (ts : gset Z) (rv : list Z) (w : world) : world :=
  World w.(rt) hs ts rv w.(lock) w.(slock) w.(pumps) w.(reqs) w.(tasks) w.(closers) w.(got) w.(log).

Definition set_phase (i : nat) (p : phase) (w : world) : world :=
  World w.(rt) w.(handlers) w.(tool_hids) w.(revoked) w.(lock) w.(slock) w.(pumps) (alter (fun q => Req p q.(q_id) q.(q_pump)) i w.(reqs)) w.(tasks) w.(closers) w.(got) w.(log).
Definition set_tphase (j : nat) (p : tphase) (w : world) : world :=
  World w.(rt) w.(handlers) w.(tool_hids) w.(revoked) w.(lock) w.(slock) w.(pumps) w.(reqs)
    (alter (fun t => Task t.(t_cid) t.(t_hid) t.(t_pump) t.(t_limit) p) j w.(tasks)) w.(closers) w.(got) w.(log).

Definition phase_of (i : nat) (w : world) : option phase := q_phase <$> w.(reqs) !! i.
Definition pump_of (i : nat) (w : world) : nat := match w.(reqs) !! i with Some q => q.(q_pump) | None => 0%nat end.
Definition id_of (i : nat) (w : world) : Z := match w.(reqs) !! i with Some q => q.(q_id) | None => 0 end.
Definition tphase_of (j : nat) (w : world) : option tphase := t_phase <$> w.(tasks) !! j.
Definition limit_of (j : nat) (w : world) : option Z := t ← w.(tasks) !! j; t.(t_limit).
Definition cid_of (j : nat) (w : world) : Z := match w.(tasks) !! j with Some t => t.(t_cid) | None => 0 end.
Definition tpump_of (j : nat) (w : world) : nat := match w.(tasks) !! j with Some t => t.(t_pump) | None => 0%nat end.

Definition upd_counts (hc infl : Z) (c : core) : core :=
  Core c.(closed) c.(killed) c.(verdict) hc infl c.(last_id) c.(current_cmd) c.(refusals) c.(cmd) c.(gen) c.(last_cpu) c.(idle_cpu_base) c.(idle_since) c.(outlasted).
Definition set_current (id : option Z) (c : core) : core :=
  Core c.(closed) c.(killed) c.(verdict) c.(host_calls) c.(async_inflight) c.(last_id) id c.(refusals) c.(cmd) c.(gen) c.(last_cpu) c.(idle_cpu_base) c.(idle_since) c.(outlasted).
Definition set_cpu (last base : option Z) (c : core) : core :=
  Core c.(closed) c.(killed) c.(verdict) c.(host_calls) c.(async_inflight) c.(last_id) c.(current_cmd) c.(refusals) c.(cmd) c.(gen) last base c.(idle_since) c.(outlasted).
Definition set_outlasted (n : Z) (c : core) : core :=
  Core c.(closed) c.(killed) c.(verdict) c.(host_calls) c.(async_inflight) c.(last_id) c.(current_cmd) c.(refusals) c.(cmd) c.(gen) c.(last_cpu) c.(idle_cpu_base) c.(idle_since) n.
Definition set_refusals (r : gmap Z host_exn) (c : core) : core :=
  Core c.(closed) c.(killed) c.(verdict) c.(host_calls) c.(async_inflight) c.(last_id) c.(current_cmd) r c.(cmd) c.(gen) c.(last_cpu) c.(idle_cpu_base) c.(idle_since) c.(outlasted).

(** ** Ending the worker *)

(** [_kill]: closed, the first verdict kept, the worker killed once. *)
Definition _kill (v : option _Verdict) (w : world) : world :=
  let c := w.(rt) in
  World (Core true true (match c.(verdict) with Some x => Some x | None => v end) c.(host_calls) c.(async_inflight) c.(last_id) c.(current_cmd) c.(refusals)
           c.(cmd) c.(gen) c.(last_cpu) c.(idle_cpu_base) c.(idle_since) c.(outlasted))
    w.(handlers) w.(tool_hids) w.(revoked) w.(lock) w.(slock) w.(pumps) w.(reqs) w.(tasks) w.(closers) w.(got)
    (w.(log) ++ if c.(killed) then [] else [Killed]).

Definition set_closed (c : core) : core :=
  Core true c.(killed) c.(verdict) c.(host_calls) c.(async_inflight) c.(last_id) c.(current_cmd) c.(refusals) c.(cmd) c.(gen) c.(last_cpu) c.(idle_cpu_base) c.(idle_since) c.(outlasted).

(** ** The supervisor's checks *)

Definition the_pump (w : world) : option _Pump := k ← w.(rt).(cmd); w.(pumps) !! k.

Definition _check_clock (now : Z) (w : world) : world :=
  match the_pump w with
  | Some p =>
      if w.(rt).(closed) then w
      else if expired now p then _kill (Some (Verdict true "worker exceeded its hard deadline and was killed")) w
      else if waited_too_long now p then _kill (Some (Verdict true "host callbacks kept the guest waiting; worker killed")) w
      else w
  | None => w
  end.

Definition idle_over (now : Z) (base c : Z) (r : core) : bool := 100 * _IDLE_CPU_LIMIT_SECONDS + (now - r.(idle_since)) <? 100 * (c - base).

(** [_apply_sample]; [None] for [sample]: nothing could be read. *)
Definition _apply_sample (o : opts) (now : Z) (s : option sample) (g : Z) (w : world) : world :=
  match s with
  | None => w
  | Some s =>
      if w.(rt).(closed) then w
      else
        let w := match s.(cpu) with Some c => on_rt (fun r => set_cpu (Some c) r.(idle_cpu_base) r) w | None => w end in
        if over (Some _MAX_WORKER_THREADS) s.(threads) then _kill (Some (Verdict false "worker started too many threads; killed")) w
        else if over o.(_max_memory) s.(rss) then _kill (Some (Verdict false "worker went over max_memory; killed")) w
        else
          match s.(cpu) with
          | None => w
          | Some c =>
              if negb (g =? w.(rt).(gen)) then w
              else
                match the_pump w with
                | Some p =>
                    match cpu_start p with
                    | Some c0 => if over (cpu_cap p) (Some (c - c0)) then _kill (Some (Verdict true "worker used too much CPU in one command and was killed")) w else w
                    | None => w
                    end
                | None =>
                    match w.(rt).(idle_cpu_base) with
                    | Some base => if idle_over now base c w.(rt) then _kill (Some (Verdict false "worker burned CPU while idle; killed")) w else w
                    | None => w
                    end
                end
          end
  end.

(** ** The frame of a command *)

(** The [finally] of [_request], with [_end]. *)
Definition _end (id now : Z) (c : core) : core :=
  Core c.(closed) c.(killed) c.(verdict) c.(host_calls) c.(async_inflight) c.(last_id) None (delete id c.(refusals)) None (c.(gen) + 1)
    c.(last_cpu) c.(idle_cpu_base) now c.(outlasted).
Definition finish (i : nat) (now : Z) (e : ended) (w : world) : world := set_phase i (Ended e) (set_lock None (on_rt (_end (id_of i w) now) w)).

(** An [Exception] of the command, or its answer: a gate's refusal it met comes first. *)
Definition conclude (i : nat) (now : Z) (e : ended) (w : world) : world :=
  finish i now (match w.(rt).(refusals) !! id_of i w with Some x => GateRefused x | None => e end) w.

(** The lock is given back before anything was begun. *)
Definition abandon_request (i : nat) (e : ended) (w : world) : world := set_phase i (Ended e) (set_lock None w).

Definition _hard_timeout (o : opts) (soft : option Z) : option Z :=
  match o.(_request_timeout) with
  | Some t => t
  | None => match soft with None => Some DEFAULT_REQUEST_TIMEOUT | Some s => Some (s + o.(_grace)) end
  end.

(** [_begin]: with no reading yet the baseline arrives later ([SBaseline]). *)
Definition _begin (o : opts) (i : nat) (now : Z) (soft : option Z) (w : world) : world :=
  let hard := _hard_timeout o soft in
  let p := pump_init now hard o.(_max_host_wait) ((fun h => h * _CPU_CAP_FACTOR) <$> hard) w.(rt).(last_cpu) in
  let c := w.(rt) in
  World (Core c.(closed) c.(killed) c.(verdict) c.(host_calls) c.(async_inflight) c.(last_id) c.(current_cmd) c.(refusals) (Some (length w.(pumps))) (c.(gen) + 1)
           c.(last_cpu) c.(idle_cpu_base) c.(idle_since) c.(outlasted))
    w.(handlers) w.(tool_hids) w.(revoked) w.(lock) w.(slock) (w.(pumps) ++ [p]) (<[i := Req SendLock (id_of i w) (length w.(pumps))]> w.(reqs)) w.(tasks) w.(closers) w.(got) w.(log).

(** [_write] raises on a worker that was killed, and when the transport is closing ([pipe]). *)
Definition writable (pipe : bool) (w : world) : bool := pipe && negb w.(rt).(killed).

Definition to_pumping (i : nat) (w : world) : world :=
  set_phase i Pumping (on_rt (set_current (Some (id_of i w))) w).

(** ** Host calls *)

Definition call_entry (hid : pyval) (w : world) : result unit (option (Z * handler)) :=
  match (h ← as_int hid; e ← w.(handlers) !! h; Some (h, e)) with
  | Some e => Ok (Some e)
  | None =>
      if unhashable hid then Err tt
      else Ok (match List.find (eq_int hid) w.(revoked) with Some h => Some (h, Handler RevokedFn false false) | None => None end)
  end.

Definition count_call (o : opts) (console : bool) (w : world) : bool * world :=
  if console then (true, w)
  else
    let n := w.(rt).(host_calls) + 1 in
    (negb (over o.(_max_host_calls) (Some n)), on_rt (fun c => upd_counts n c.(async_inflight) c) w).

Definition in_flight_full (o : opts) (p : option _Pump) (w : world) : bool :=
  match o.(_max_inflight) with
  | Some k => (k <=? match p with Some p => _outstanding p | None => 0 end) || (k <=? w.(rt).(async_inflight))
  | None => false
  end.

Definition full_reply (o : opts) (cid : Z) : reply := ReplyError cid (too_many_in_flight (default 0 o.(_max_inflight))) (u "RuntimeError").

Definition add_task (t : task) (w : world) : world :=
  World w.(rt) w.(handlers) w.(tool_hids) w.(revoked) w.(lock) w.(slock) w.(pumps) w.(reqs) (w.(tasks) ++ [t]) w.(closers) w.(got) w.(log).

(** The rest of [_on_call], once the call is known to be a valid one. *)
Definition start_call (o : opts) (i k : nat) (now : Z) (cid hid : Z) (h : handler) (console : bool) (w : world) : world :=
  let w := emit (Accepted cid) w in
  if negb console && in_flight_full o (w.(pumps) !! k) w then
    set_phase i (ReplyLock (SyncCall cid hid false false None) (full_reply o cid)) w
  else
    let limit := if console || negb (bool_decide (hid ∈ w.(tool_hids))) || h.(h_untimed) then None else o.(_tool_timeout) in
    let w := emit (Invoked hid console) (on_pump k (if console then begin_console now else begin_call now) w) in
    if h.(h_async) && negb console then
      set_phase i Pumping (add_task (Task cid hid k limit TRun) (on_rt (fun c => upd_counts c.(host_calls) (c.(async_inflight) + 1) c) w))
    else set_phase i (Running (SyncCall cid hid console (negb console) limit)) w.

Definition _on_call (o : opts) (i k : nat) (now : Z) (m : message) (w : world) : world :=
  match call_entry (get_field m (u "hid")) w with
  | Err _ => conclude i now (Crash "worker sent a malformed frame") (_kill None w)
  | Ok entry =>
      match get_field m (u "cid"), entry, get_field m (u "args") with
      | PInt cid, Some (hid, h), PList args =>
          let console := match o.(console_hid) with Some c => hid =? c | None => false end in
          let '(ok, w) := count_call o console w in
          if ok then start_call o i k now cid hid h console w
          else conclude i now (Crash "guest made more than max_host_calls host calls") (_kill None w)
      | _, _, _ => conclude i now (Crash "worker broke protocol: call for an unknown host function") (_kill None w)
      end
  end.

(** A decoded frame. *)
Definition on_frame (o : opts) (i : nat) (now : Z) (m : message) (w : world) : world :=
  let kind := get_field m (u "t") in
  let says t := match kind with PStr s => bool_decide (s = u t) | _ => false end in
  if says "call" then _on_call o i (pump_of i w) now m w
  else if (says "result" || says "error") && eq_int (get_field m (u "id")) (id_of i w) then
    set_phase i (Final (if says "result" then Result (get_field m (u "v"))
                        else RemoteFailure (_remote_error (get_field m (u "kind")) (get_field m (u "msg")) o.(config_keys)))) w
  else conclude i now (Crash "worker broke protocol: unexpected frame") (_kill None w).

(** The end of a reply: [end_call] and [end_console]. *)
Definition reply_done (k : nat) (now : Z) (c : sync_call) (w : world) : world :=
  let w := if c.(s_counts) then on_pump k (end_call now) w else w in
  if c.(s_console) then on_pump k (end_console now) w else w.

Definition stalled_verdict : _Verdict := Verdict false "worker stopped reading its input; killed".

(** How a synchronous host function ended for the command: with its reply (or its own failure, or
    the refusal to encode its value); past [tool_timeout], begun or not; with an exception that
    is not an [Exception]; without a thread. *)
Inductive sync_end := SyncReply (r : reply) | SyncTimedOut (started : bool) | SyncAborted | NoThread.

Definition sync_ends (o : opts) (i k : nat) (now : Z) (c : sync_call) (e : sync_end) (w : world) : option world :=
  let fail msg w := conclude i now (Crash msg) (_kill None (if c.(s_console) then on_pump k (end_console now) w else w)) in
  match e with
  | SyncReply r => if reply_cid r =? c.(s_cid) then Some (set_phase i (ReplyLock c r) w) else None
  | SyncAborted => Some (finish i now (Crash "a host function raised") (_kill None (if c.(s_console) then on_pump k (end_console now) w else w)))
  | NoThread => Some (fail "worker sent a malformed frame" w)
  | SyncTimedOut started =>
      match c.(s_limit) with
      | None => None
      | Some _ =>
          let n := w.(rt).(outlasted) + (if started then 1 else 0) in
          let w := on_rt (set_outlasted n) w in
          if MAX_ABANDONED_TOOL_CALLS <? n then Some (fail "too many abandoned tool calls" (_kill (Some (Verdict false "too many abandoned tool calls")) w))
          else Some (set_phase i (ReplyLock c (_error_reply o.(_redact) c.(s_cid) tool_timeout_error)) w)
      end
  end.

(** The end of an asynchronous call's task. *)
Definition task_done (j : nat) (now : Z) (w : world) : world :=
  set_tphase j TDone (on_rt (fun c => upd_counts c.(host_calls) (c.(async_inflight) - 1) c) (on_pump (tpump_of j w) (end_call now) w)).

Definition unlock_send (h : holder) (w : world) : world := set_slock (if bool_decide (w.(slock) = Some h) then None else w.(slock)) w.

(** ** One turn *)

Inductive action :=
(* a command *)
| QCall (usable : bool) | QLock (i : nat) | QLockTimeout (i : nat) | QEncoded (i : nat) (ok : bool) (now : Z) (soft : option Z)
| QSend (i : nat) (pipe paused : bool) (now : Z) | QDrained (i : nat) (stalled : bool) (now : Z)
| QFrame (i : nat) (m : message) | QDecoded (i : nat) (ok : bool) (now : Z) | QFault (i : nat) (now : Z) | QEof (i : nat) | QEofDone (i : nat) (now : Z)
| QCondemned (i : nat) (now : Z) | QGone (i : nat) (now : Z)
| QSync (i : nat) (e : sync_end) (now : Z) | QReply (i : nat) (pipe paused : bool) (now : Z) | QReplyClosed (i : nat) (now : Z) | QReplyDrained (i : nat) (stalled : bool) (now : Z)
| QFinal (i : nat) (s : option sample) (now : Z) | QCancel (i : nat) (now : Z)
(* the task of an asynchronous host function *)
| TEnds (j : nat) (r : reply) | TStuck (j : nat) | TSend (j : nat) | TClosed (j : nat) (now : Z) | TEncoded (j : nat) (fails : option host_exn) (pipe paused : bool) (now : Z)
| TDrained (j : nat) (stalled : bool) (now : Z) | TCancel (j : nat) (now : Z) (e : host_exn) | LateEnd
(* the supervisor *)
| SClock (now : Z) | SSample (s : option sample) (g now : Z) | SBaseline (k : nat) (s : option sample) | LoopEnds
(* closing, and the handlers *)
| CClose | CWrite (n : nat) (pipe : bool) | CEnd (n : nat)
| HNew (hid : Z) (h : handler) (tool : bool) | HPop (hid : Z) | HRevoke (hid : Z) | HRefused (c : Z) (e : host_exn).

Definition next_id (c : core) : core :=
  Core c.(closed) c.(killed) c.(verdict) c.(host_calls) c.(async_inflight) (c.(last_id) + 1) c.(current_cmd) c.(refusals) c.(cmd) c.(gen) c.(last_cpu) c.(idle_cpu_base)
    c.(idle_since) c.(outlasted).

(** [_request] up to the pump. *)
Definition request_step (o : opts) (a : action) (w : world) : option world :=
  match a with
  | QCall usable =>
      let q := Req (if usable then Locking else Ended (Refusal "this runtime cannot be used here")) 0 0 in
      Some (World w.(rt) w.(handlers) w.(tool_hids) w.(revoked) w.(lock) w.(slock) w.(pumps) (w.(reqs) ++ [q]) w.(tasks) w.(closers) w.(got) w.(log))
  | QLock i =>
      match phase_of i w, w.(lock) with
      | Some Locking, None =>
          if w.(rt).(closed) then Some (set_phase i (Ended (Refusal "runtime is closed")) w)
          else Some (set_req i (Req Encoding (w.(rt).(last_id) + 1) 0) (set_lock (Some i) (on_rt next_id w)))
      | _, _ => None
      end
  | QLockTimeout i => match phase_of i w with Some Locking => Some (set_phase i (Ended (Refusal "timed out waiting for another command")) w) | _ => None end
  | QEncoded i ok now soft =>
      match phase_of i w with
      | Some Encoding =>
          if negb ok then Some (abandon_request i (Refusal "the message cannot be encoded") w)
          else if w.(rt).(closed) then Some (abandon_request i (Refusal "runtime is closed") w)
          else Some (_begin o i now soft w)
      | _ => None
      end
  | QSend i pipe paused now =>
      match phase_of i w, w.(slock) with
      | Some SendLock, None =>
          if writable pipe w then
            let w := emit (SentCommand (id_of i w)) w in
            Some (if paused then set_phase i Draining (set_slock (Some (HReq i)) w) else to_pumping i w)
          else
            match w.(rt).(verdict) with
            | Some v => Some (finish i now (Condemned v) w)
            | None => Some (finish i now (Crash "worker is gone") (_kill None w))
            end
      | _, _ => None
      end
  | QDrained i stalled now =>
      match phase_of i w with
      | Some Draining =>
          let w := unlock_send (HReq i) w in
          Some (if stalled then finish i now (Crash "worker stopped reading its input; killed") (_kill None w) else to_pumping i w)
      | _ => None
      end
  | _ => None
  end.

(** [_pump]; [_next_frame] looks for a verdict first, then for frames, then for the end. *)
Definition pump_step (o : opts) (a : action) (w : world) : option world :=
  match a with
  | QFrame i m =>
      match phase_of i w, w.(rt).(verdict) with
      | Some Pumping, None => Some (set_phase i (Decoding m) (read_frame (id_of i w) m w))
      | _, _ => None
      end
  | QDecoded i ok now =>
      match phase_of i w with
      | Some (Decoding m) =>
          Some (if ok then on_frame o i now m (set_phase i Pumping w) else conclude i now (Crash "worker broke protocol") (_kill None w))
      | _ => None
      end
  | QFault i now =>
      match phase_of i w, w.(rt).(verdict) with
      | Some Pumping, None => Some (conclude i now (Crash "worker broke protocol") (_kill None w))
      | _, _ => None
      end
  | QEof i => match phase_of i w, w.(rt).(verdict) with Some Pumping, None => Some (set_phase i AtEof w) | _, _ => None end
  | QEofDone i now => match phase_of i w with Some AtEof => Some (conclude i now (Crash "worker process died") (_kill None w)) | _ => None end
  | QCondemned i now =>
      match phase_of i w, w.(rt).(verdict) with
      | Some Pumping, Some v => Some (conclude i now (Condemned v) w)
      | Some (Running c), Some v => Some (conclude i now (Condemned v) (if c.(s_console) then on_pump (pump_of i w) (end_console now) w else w))
      | _, _ => None
      end
  | QGone i now =>
      match w.(rt).(killed), w.(rt).(verdict), phase_of i w with
      | true, None, Some Pumping => Some (conclude i now (Crash "runtime is closed") w)
      | true, None, Some (Running c) => Some (conclude i now (Crash "runtime is closed") (if c.(s_console) then on_pump (pump_of i w) (end_console now) w else w))
      | _, _, _ => None
      end
  | QSync i e now =>
      match phase_of i w with
      | Some (Running c) => if w.(rt).(killed) then None else sync_ends o i (pump_of i w) now c e w
      | _ => None
      end
  | QReplyClosed i now =>
      match phase_of i w with
      | Some (ReplyLock c r) => if w.(rt).(closed) then Some (set_phase i Pumping (reply_done (pump_of i w) now c w)) else None
      | _ => None
      end
  | QReply i pipe paused now =>
      match phase_of i w, w.(slock) with
      | Some (ReplyLock c r), None =>
          if w.(rt).(closed) then None
          else if negb (writable pipe w) then Some (set_phase i Pumping (reply_done (pump_of i w) now c w))
          else
            let w := emit (SentReply r) w in
            if paused then Some (set_phase i (ReplyDrain c) (set_slock (Some (HReq i)) w)) else Some (set_phase i Pumping (reply_done (pump_of i w) now c w))
      | _, _ => None
      end
  | QReplyDrained i stalled now =>
      match phase_of i w with
      | Some (ReplyDrain c) =>
          let w := unlock_send (HReq i) w in
          let w := if stalled then _kill (Some stalled_verdict) w else w in
          Some (set_phase i Pumping (reply_done (pump_of i w) now c w))
      | _ => None
      end
  | QFinal i s now =>
      match phase_of i w with
      | Some (Final a) =>
          match w.(rt).(verdict) with
          | Some v => Some (conclude i now (Condemned v) w)
          | None =>
              let w := _apply_sample o now s (-1) w in
              match w.(rt).(verdict), s with
              | Some v, _ => Some (conclude i now (Condemned v) w)
              | None, Some s => Some (conclude i now (Answered a) (on_rt (fun c => set_cpu c.(last_cpu) s.(cpu) c) w))
              | None, None => Some (conclude i now (Answered a) w)
              end
          end
      | _ => None
      end
  | _ => None
  end.

Definition cancelled_verdict : _Verdict := Verdict false "a command was cancelled; the worker was killed".

(** A cancelled command: killed from the moment it was begun. *)
Definition cancel_step (i : nat) (now : Z) (w : world) : option world :=
  let stop w := Some (finish i now Cancelled (_kill (Some cancelled_verdict) w)) in
  match phase_of i w with
  | None | Some (Ended _) => None
  | Some Locking => Some (set_phase i (Ended Cancelled) w)
  | Some Encoding => Some (abandon_request i Cancelled w)
  | Some (Running c) => stop (if c.(s_console) then on_pump (pump_of i w) (end_console now) w else w)
  | Some (ReplyLock c _) | Some (ReplyDrain c) => stop (reply_done (pump_of i w) now c (unlock_send (HReq i) w))
  | Some _ => stop (unlock_send (HReq i) w)
  end.

(** [_async_call] and its [_send_reply]. *)
Definition task_step (o : opts) (a : action) (w : world) : option world :=
  match a with
  | TEnds j r => match tphase_of j w with Some TRun => if reply_cid r =? cid_of j w then Some (set_tphase j (TLock r) w) else None | _ => None end
  | TStuck j =>
      match tphase_of j w, limit_of j w with
      | Some TRun, Some _ =>
          let n := w.(rt).(outlasted) + 1 in
          let w' := on_rt (set_outlasted n) w in
          let w' := if MAX_ABANDONED_TOOL_CALLS <? n then _kill (Some (Verdict false "too many abandoned tool calls")) w' else w' in
          Some (set_tphase j (TLock (_error_reply o.(_redact) (cid_of j w) tool_timeout_error)) w')
      | _, _ => None
      end
  | TClosed j now => match tphase_of j w with Some (TLock _) => if w.(rt).(closed) then Some (task_done j now w) else None | _ => None end
  | TSend j =>
      match tphase_of j w, w.(slock) with
      | Some (TLock r), None => if w.(rt).(closed) then None else Some (set_tphase j (TEncode r) (set_slock (Some (HTask j)) w))
      | _, _ => None
      end
  | TEncoded j fails pipe paused now =>
      match tphase_of j w with
      | Some (TEncode r) =>
          let r := match fails with Some e => _error_reply o.(_redact) (reply_cid r) e | None => r end in
          if negb (writable pipe w) then Some (task_done j now (unlock_send (HTask j) w))
          else
            let w := emit (SentReply r) w in
            if paused then Some (set_tphase j TDrain w) else Some (task_done j now (unlock_send (HTask j) w))
      | _ => None
      end
  | TDrained j stalled now =>
      match tphase_of j w with
      | Some TDrain =>
          let w := unlock_send (HTask j) w in
          Some (task_done j now (if stalled then _kill (Some stalled_verdict) w else w))
      | _ => None
      end
  | TCancel j now e =>
      match tphase_of j w with
      | None | Some TDone => None
      | Some TRun => Some (set_tphase j (TLock (_error_reply o.(_redact) (cid_of j w) e)) w)
      | Some _ => Some (task_done j now (unlock_send (HTask j) w))
      end
  | LateEnd => if 0 <? w.(rt).(outlasted) then Some (on_rt (fun c => set_outlasted (c.(outlasted) - 1) c) w) else None
  | _ => None
  end.

Definition closed_verdict : _Verdict := Verdict false "the runtime was closed while a command was running".

Definition set_start (s : option Z) (p : _Pump) : _Pump :=
  Pump (hard p) (deadline p) (max_host_wait p) (cpu_cap p) s (_outstanding p) (_paused_at p) (_paused_total p) (_console_at p) (_console_left p) (_resumed_at p).

(** The supervisor, [close], and the handlers that commands bind and revoke. *)
Definition other_step (o : opts) (a : action) (w : world) : option world :=
  match a with
  | SClock now => Some (_check_clock now w)
  | SSample s g now => Some (_apply_sample o now s g w)
  | SBaseline k s =>
      match s with
      | Some s => if bool_decide (w.(rt).(cmd) = Some k) then Some (on_pump k (set_start s.(cpu)) w) else Some w
      | None => Some w
      end
  | LoopEnds => Some (_kill (Some (Verdict false "the event loop shut down")) w)
  | CClose =>
      if w.(rt).(closed) then Some (_kill (Some closed_verdict) w)
      else Some (set_closers (w.(closers) ++ [CSlot]) (on_rt set_closed w))
  | CWrite n pipe =>
      match w.(closers) !! n with
      | Some CSlot => Some (set_closers (<[n := CWait]> w.(closers)) (if writable pipe w then emit SentClose w else w))
      | _ => None
      end
  | CEnd n =>
      match w.(closers) !! n with
      | Some CSlot | Some CWait => Some (_kill (Some closed_verdict) (set_closers (<[n := CDone]> w.(closers)) w))
      | _ => None
      end
  | HNew hid h tool => Some (set_handlers (<[hid := h]> w.(handlers)) (if tool then {[hid]} ∪ w.(tool_hids) else w.(tool_hids)) w.(revoked) w)
  | HPop hid => Some (set_handlers (delete hid w.(handlers)) w.(tool_hids) w.(revoked) w)
  | HRevoke hid => Some (set_handlers (delete hid w.(handlers)) (w.(tool_hids) ∖ {[hid]}) (remember_revoked hid w.(revoked)) w)
  | HRefused c e =>
      if bool_decide (w.(rt).(current_cmd) = Some c) then
        Some (on_rt (fun r => match r.(refusals) !! c with Some _ => r | None => set_refusals (<[c := e]> r.(refusals)) r end) w)
      else Some w
  | _ => None
  end.

Definition exec (o : opts) (a : action) (w : world) : option world :=
  match a with
  | QCall _ | QLock _ | QLockTimeout _ | QEncoded _ _ _ _ | QSend _ _ _ _ | QDrained _ _ _ => request_step o a w
  | QCancel i now => cancel_step i now w
  | TEnds _ _ | TStuck _ | TSend _ | TClosed _ _ | TEncoded _ _ _ _ _ | TDrained _ _ _ | TCancel _ _ _ | LateEnd => task_step o a w
  | SClock _ | SSample _ _ _ | SBaseline _ _ | LoopEnds | CClose | CWrite _ _ | CEnd _ | HNew _ _ _ | HPop _ | HRevoke _ | HRefused _ _ => other_step o a w
  | _ => pump_step o a w
  end.

Definition init (now : Z) (cpu : option Z) : world :=
  World (Core false false None 0 0 0 None ∅ None 0 cpu cpu now 0) ∅ ∅ [] None None [] [] [] [] [] [].

Definition step (o : opts) (w w' : world) : Prop := exists a, exec o a w = Some w'.
Definition reachable (o : opts) (w : world) : Prop := exists now cpu, rtc (step o) (init now cpu) w.
