(* ===== verification/AioRuntimeInv.v ===== *)
(** * The asynchronous runtime: one command at a time

    The shape every reachable state has: one command at most is between its lock and its end, the
    ids are handed out in order and never twice, and the supervisor's pump is the running
    command's. *)

From S2P Require Import Prelude Utf8 PyVal PyStr Pump HostSide Isolated AioRuntime.

(** ** Shape *)

Definition holds (p : phase) : bool := match p with Locking | Ended _ => false | _ => true end.
Definition begun (p : phase) : bool := match p with Encoding => false | _ => holds p end.

Definition alive_ok (c : core) : Prop := (verdict c <> None -> killed c = true) /\ (killed c = true -> closed c = true).

Record shape (w : world) : Prop := Shape {
  sh_hold : forall i q, reqs w !! i = Some q -> holds (q_phase q) = true -> lock w = Some i /\ q_id q = last_id (rt w) /\ q_id q <> 0;
  sh_held : forall i, lock w = Some i -> exists q, reqs w !! i = Some q /\ holds (q_phase q) = true;
  sh_old : forall i q, reqs w !! i = Some q -> 0 <= q_id q <= last_id (rt w);
  sh_uniq : forall i j q q', reqs w !! i = Some q -> reqs w !! j = Some q' -> q_id q = q_id q' -> q_id q <> 0 -> i = j;
  sh_cmd : forall i q, reqs w !! i = Some q -> begun (q_phase q) = true -> cmd (rt w) = Some (q_pump q);
  sh_idle : forall k, cmd (rt w) = Some k -> exists i q, reqs w !! i = Some q /\ begun (q_phase q) = true;
  sh_pump : forall k, cmd (rt w) = Some k -> (k < length (pumps w))%nat;
  sh_fresh : forall i q, reqs w !! i = Some q -> q_phase q = Locking -> q_id q = 0;
  sh_alive : alive_ok (rt w);
  sh_pos : 0 <= last_id (rt w)
}.

Lemma lookup_alter_cases {A} (f : A -> A) (i j : nat) (l : list A) y :
  alter f i l !! j = Some y -> (j = i /\ exists x, l !! i = Some x /\ y = f x) \/ (j <> i /\ l !! j = Some y).
Proof.
  intros H. destruct (decide (j = i)) as [->|Hn].
  - left. rewrite list_lookup_alter_eq in H. destruct (l !! i) eqn:E; simplify_eq/=; naive_solver.
  - right. by rewrite list_lookup_alter_ne in H.
Qed.

Lemma lookup_insert_cases {A} (i j : nat) (l : list A) (x y : A) :
  <[i := x]> l !! j = Some y -> (j = i /\ y = x /\ is_Some (l !! i)) \/ (j <> i /\ l !! j = Some y).
Proof.
  intros H. destruct (decide (j = i)) as [->|Hn].
  - left. pose proof (lookup_lt_Some _ _ _ H) as Hl. rewrite length_insert in Hl. rewrite list_lookup_insert_eq in H by done.
    simplify_eq. split_and!; try done. by apply lookup_lt_is_Some.
  - right. by rewrite list_lookup_insert_ne in H.
Qed.

Lemma phase_of_inv i w p : phase_of i w = Some p -> exists q, reqs w !! i = Some q /\ q_phase q = p.
Proof. unfold phase_of. intros H. apply fmap_Some in H. naive_solver. Qed.
Lemma tphase_of_inv j w p : tphase_of j w = Some p -> exists t, tasks w !! j = Some t /\ t_phase t = p.
Proof. unfold tphase_of. intros H. apply fmap_Some in H. naive_solver. Qed.

(** The turns, by what they do to the commands. *)
Section turns.
Context (w w' : world) (Hw : shape w) (Hok : alive_ok (rt w')).

Lemma shape_side :
  reqs w' = reqs w -> lock w' = lock w -> last_id (rt w') = last_id (rt w) -> cmd (rt w') = cmd (rt w) -> length (pumps w') = length (pumps w) -> shape w'.
Proof using All. intros Hr Hl Hi Hc Hp. destruct Hw. split; rewrite ?Hr, ?Hl, ?Hi, ?Hc, ?Hp; done. Qed.

Lemma shape_move i q p :
  reqs w' = alter (fun q => Req p (q_id q) (q_pump q)) i (reqs w) ->
  reqs w !! i = Some q -> holds (q_phase q) = holds p -> begun (q_phase q) = begun p -> (p = Locking -> q_phase q = Locking) ->
  lock w' = lock w -> last_id (rt w') = last_id (rt w) -> cmd (rt w') = cmd (rt w) -> length (pumps w') = length (pumps w) -> shape w'.
Proof using All.
  intros Hr Hq Hh Hb Hf Hl Hi Hc Hp. destruct Hw. split; rewrite ?Hr, ?Hl, ?Hi, ?Hc, ?Hp; try done.
  - intros j q' [(-> & x & ? & ->)|[? ?]]%lookup_alter_cases Hh'; simplify_eq/=; [|by apply sh_hold0]. apply sh_hold0; congruence.
  - intros j Hj. destruct (sh_held0 j Hj) as (q' & Hq' & Hh'). destruct (decide (j = i)) as [->|Hn].
    + rewrite list_lookup_alter_eq, Hq. eexists. split; [done|]. cbn. congruence.
    + rewrite list_lookup_alter_ne by done. eauto.
  - intros j q' [(-> & x & ? & ->)|[? ?]]%lookup_alter_cases; simplify_eq/=; eauto.
  - intros j k q1 q2 [(-> & x & ? & ->)|[? ?]]%lookup_alter_cases [(-> & y & ? & ->)|[? ?]]%lookup_alter_cases; simplify_eq/=; eauto.
  - intros j q' [(-> & x & ? & ->)|[? ?]]%lookup_alter_cases Hh'; simplify_eq/=; [apply (sh_cmd0 i); congruence | eauto].
  - intros k Hk. destruct (sh_idle0 k Hk) as (j & q' & Hq' & Hb'). exists j. destruct (decide (j = i)) as [->|Hn].
    + rewrite list_lookup_alter_eq, Hq. eexists. split; [done|]. cbn. congruence.
    + rewrite list_lookup_alter_ne by done. eauto.
  - intros j q' [(-> & x & ? & ->)|[? ?]]%lookup_alter_cases Hh'; simplify_eq/=; eauto.
Qed.

(** A command that held the lock ends. *)
Lemma shape_end i q e :
  reqs w' = alter (fun q => Req (Ended e) (q_id q) (q_pump q)) i (reqs w) -> reqs w !! i = Some q -> holds (q_phase q) = true ->
  lock w' = None -> last_id (rt w') = last_id (rt w) -> (cmd (rt w') = None \/ cmd (rt w') = cmd (rt w) /\ begun (q_phase q) = false) -> length (pumps w') = length (pumps w) ->
  shape w'.
Proof using All.
  intros Hr Hq Hh Hl Hi Hc Hp. pose proof (sh_hold _ Hw _ _ Hq Hh) as (Hlk & _ & _).
  assert (Hnone : forall j q', reqs w !! j = Some q' -> j <> i -> holds (q_phase q') = false).
  { intros j q' Hj Hn. destruct (holds (q_phase q')) eqn:E; [|done]. destruct (sh_hold _ Hw _ _ Hj E). congruence. }
  assert (Hcmd : cmd (rt w') = None).
  { destruct Hc as [?|[E Hb]]; [done|]. rewrite E. destruct (cmd (rt w)) as [k|] eqn:Ek; [|done]. destruct (sh_idle _ Hw _ Ek) as (j & q' & Hj & Hb').
    destruct (decide (j = i)) as [->|Hn]; [congruence|]. specialize (Hnone _ _ Hj Hn). unfold begun in Hb'. destruct (q_phase q'); cbn in *; congruence. }
  destruct Hw. split; rewrite ?Hr, ?Hl, ?Hi, ?Hcmd, ?Hp; try done.
  - intros j q' [(-> & x & ? & ->)|[Hn Hj]]%lookup_alter_cases Hh'; simplify_eq/=. rewrite (Hnone _ _ Hj Hn) in Hh'. done.
  - intros j q' [(-> & x & ? & ->)|[? ?]]%lookup_alter_cases; simplify_eq/=; eauto.
  - intros j k q1 q2 [(-> & x & ? & ->)|[? ?]]%lookup_alter_cases [(-> & y & ? & ->)|[? ?]]%lookup_alter_cases; simplify_eq/=; eauto.
  - intros j q' [(-> & x & ? & ->)|[Hn Hj]]%lookup_alter_cases Hh'; simplify_eq/=. specialize (Hnone _ _ Hj Hn).
    unfold begun in Hh'. destruct (q_phase q'); cbn in *; congruence.
  - intros j q' [(-> & x & ? & ->)|[? ?]]%lookup_alter_cases Hh'; simplify_eq/=; eauto.
Qed.

Lemma shape_call p :
  reqs w' = reqs w ++ [Req p 0 0] -> holds p = false -> lock w' = lock w -> last_id (rt w') = last_id (rt w) -> cmd (rt w') = cmd (rt w) -> length (pumps w') = length (pumps w) ->
  shape w'.
Proof using All.
  intros Hr Hp Hl Hi Hc Hn. assert (Hnew : forall j q, (reqs w ++ [Req p 0 0]) !! j = Some q -> reqs w !! j = Some q \/ q = Req p 0 0).
  { intros j q [?|[_ H]]%lookup_app_Some; [by left|]. apply list_lookup_singleton_Some in H as [_ <-]. by right. }
  assert (Hb : begun p = false) by (unfold begun; by destruct p).
  destruct Hw. split; rewrite ?Hr, ?Hl, ?Hi, ?Hc, ?Hn; try done.
  - intros j q [?| ->]%Hnew; cbn; [by apply sh_hold0 | congruence].
  - intros j Hj. destruct (sh_held0 _ Hj) as (q & Hq & ?). exists q. split; [by apply lookup_app_l_Some | done].
  - intros j q [?| ->]%Hnew; cbn; eauto; lia.
  - intros j k q1 q2 Hj Hk. destruct (Hnew _ _ Hj) as [?| ->]; destruct (Hnew _ _ Hk) as [?| ->]; cbn; eauto; congruence.
  - intros j q [?| ->]%Hnew; cbn; [eauto | congruence].
  - intros k Hk. destruct (sh_idle0 _ Hk) as (j & q & Hq & ?). exists j, q. split; [by apply lookup_app_l_Some | done].
  - intros j q [?| ->]%Hnew; cbn; eauto.
Qed.

Lemma shape_lock i q :
  reqs w !! i = Some q -> q_phase q = Locking -> lock w = None -> reqs w' = <[i := Req Encoding (last_id (rt w) + 1) 0]> (reqs w) ->
  lock w' = Some i -> last_id (rt w') = last_id (rt w) + 1 -> cmd (rt w') = cmd (rt w) -> length (pumps w') = length (pumps w) -> shape w'.
Proof using All.
  intros Hq Hlk H0 Hr Hl Hi Hc Hp.
  assert (Hnone : forall j q', reqs w !! j = Some q' -> holds (q_phase q') = false).
  { intros j q' Hj. destruct (holds (q_phase q')) eqn:E; [|done]. destruct (sh_hold _ Hw _ _ Hj E). congruence. }
  assert (Hb : forall p, holds p = false -> begun p = false) by (by intros []).
  destruct Hw. split; rewrite ?Hr, ?Hl, ?Hi, ?Hc, ?Hp; try done; try lia.
  - intros j q' [(-> & -> & _)|[? Hj]]%lookup_insert_cases; cbn; intros Hh; [split_and!; [done|done|lia]|]. rewrite (Hnone _ _ Hj) in Hh. done.
  - intros j [= <-]. exists (Req Encoding (last_id (rt w) + 1) 0). rewrite list_lookup_insert_eq; [done | by eapply lookup_lt_Some].
  - intros j q' [(-> & -> & _)|[? Hj]]%lookup_insert_cases; cbn; [lia|]. specialize (sh_old0 _ _ Hj). lia.
  - intros j k q1 q2 [(-> & -> & _)|[? Hj]]%lookup_insert_cases [(-> & -> & _)|[? Hk]]%lookup_insert_cases; cbn; eauto; intros.
    + specialize (sh_old0 _ _ Hk). lia.
    + specialize (sh_old0 _ _ Hj). lia.
  - intros j q' [(-> & -> & _)|[? Hj]]%lookup_insert_cases; cbn; [done|]. rewrite (Hb _ (Hnone _ _ Hj)). done.
  - intros k Hk. destruct (sh_idle0 _ Hk) as (j & q' & Hq' & Hb'). rewrite (Hb _ (Hnone _ _ Hq')) in Hb'. done.
  - intros j q' [(-> & -> & _)|[? Hj]]%lookup_insert_cases; cbn; eauto. done.
Qed.

Lemma shape_begin i q :
  reqs w !! i = Some q -> q_phase q = Encoding -> reqs w' = <[i := Req SendLock (q_id q) (length (pumps w))]> (reqs w) ->
  lock w' = lock w -> last_id (rt w') = last_id (rt w) -> cmd (rt w') = Some (length (pumps w)) -> length (pumps w') = S (length (pumps w)) -> shape w'.
Proof using All.
  intros Hq He Hr Hl Hi Hc Hp. assert (Hh : holds (q_phase q) = true) by by rewrite He. pose proof (sh_hold _ Hw _ _ Hq Hh) as (Hlk & Hid & Hn0).
  assert (Hnone : forall j q', reqs w !! j = Some q' -> j <> i -> holds (q_phase q') = false).
  { intros j q' Hj Hn. destruct (holds (q_phase q')) eqn:E; [|done]. destruct (sh_hold _ Hw _ _ Hj E). congruence. }
  assert (Hb : forall p, holds p = false -> begun p = false) by (by intros []).
  destruct Hw. split; rewrite ?Hr, ?Hl, ?Hi, ?Hc, ?Hp; try done; try lia.
  - intros j q' [(-> & -> & _)|[? Hj]]%lookup_insert_cases; cbn; [by rewrite <- Hid | by apply sh_hold0].
  - intros j Hj. assert (j = i) as -> by congruence. exists (Req SendLock (q_id q) (length (pumps w))). rewrite list_lookup_insert_eq; [done | by eapply lookup_lt_Some].
  - intros j q' [(-> & -> & _)|[? Hj]]%lookup_insert_cases; cbn; eauto.
  - intros j k q1 q2 [(-> & -> & _)|[? Hj]]%lookup_insert_cases [(-> & -> & _)|[? Hk]]%lookup_insert_cases; cbn; eauto.
  - intros j q' [(-> & -> & _)|[? Hj]]%lookup_insert_cases; cbn; [done|]. rewrite (Hb _ (Hnone _ _ Hj ltac:(done))). done.
  - intros k _. exists i, (Req SendLock (q_id q) (length (pumps w))). rewrite list_lookup_insert_eq; [done | by eapply lookup_lt_Some].
  - intros k [= <-]. lia.
  - intros j q' [(-> & -> & _)|[? Hj]]%lookup_insert_cases; cbn; eauto. done.
Qed.
End turns.

(** ** What the supervisor may do *)

Definition set_last_cpu (x : option Z) (w : world) : world := on_rt (fun r => set_cpu x r.(idle_cpu_base) r) w.

Inductive supervised (w : world) : world -> Prop :=
| sv_none : supervised w w
| sv_seen x : supervised w (set_last_cpu x w)
| sv_killed v : supervised w (_kill (Some v) w)
| sv_seen_killed x v : supervised w (_kill (Some v) (set_last_cpu x w)).

Lemma check_clock_supervised now w : supervised w (_check_clock now w).
Proof. unfold _check_clock. repeat case_match; constructor. Qed.

Lemma apply_sample_supervised o now s g w : supervised w (_apply_sample o now s g w).
Proof.
  unfold _apply_sample. destruct s as [s|]; [|constructor]. destruct (closed (rt w)); [constructor|].
  destruct (cpu s) as [c|]; cbv zeta.
  - change (on_rt (fun r => set_cpu (Some c) (idle_cpu_base r) r) w) with (set_last_cpu (Some c) w). repeat case_match; constructor.
  - repeat case_match; constructor.
Qed.

Lemma conclude_is i now e w : exists e', conclude i now e w = finish i now e' w /\ (e' = e \/ exists x, e' = GateRefused x).
Proof. unfold conclude. eexists. split; [done|]. case_match; eauto. Qed.

Lemma alive_kill v w : alive_ok (rt w) -> alive_ok (rt (_kill v w)).
Proof. by intros _. Qed.

Lemma alive_supervised w w' : supervised w w' -> alive_ok (rt w) -> alive_ok (rt w').
Proof. by intros []. Qed.

(** ** The shape is kept *)

Ltac same := first [reflexivity | assumption | by (simpl; rewrite ?length_alter) | done].
Ltac to_finish := repeat match goal with |- context [conclude ?i ?n ?e ?w] => let e' := fresh "e" in destruct (conclude_is i n e w) as (e' & -> & _) end.

Lemma shape_finish i now e w w0 q :
  shape w0 -> reqs w0 !! i = Some q -> begun (q_phase q) = true -> reqs w = reqs w0 -> lock w = lock w0 -> alive_ok (rt w) -> last_id (rt w) = last_id (rt w0) ->
  length (pumps w) = length (pumps w0) -> shape (finish i now e w).
Proof.
  intros Hw Hq Hb Hr Hl Hok Hi Hp. eapply (shape_end w0) with (i := i) (q := q) (e := e); try done.
  - cbn. by rewrite Hr.
  - by destruct q as [[] ? ?].
  - by left.
Qed.

Lemma shape_phase i w w0 q p :
  shape w0 -> reqs w0 !! i = Some q -> begun (q_phase q) = true -> begun p = true -> reqs w = reqs w0 -> lock w = lock w0 -> alive_ok (rt w) ->
  last_id (rt w) = last_id (rt w0) -> cmd (rt w) = cmd (rt w0) -> length (pumps w) = length (pumps w0) -> shape (set_phase i p w).
Proof.
  intros Hw Hq Hb Hp Hr Hl Hok Hi Hc Hn. eapply (shape_move w0) with (i := i) (q := q) (p := p); try done.
  - cbn. by rewrite Hr.
  - destruct q as [[] ? ?], p; done.
  - congruence.
  - by intros ->.
Qed.

Lemma shape_on_frame o i now m w q : shape w -> reqs w !! i = Some q -> begun (q_phase q) = true -> shape (on_frame o i now m w).
Proof.
  intros Hw Hq Hb. pose proof (sh_alive _ Hw) as Hok. unfold on_frame, _on_call, start_call, count_call. repeat case_match; simplify_eq; to_finish.
  all: first [eapply (shape_finish i _ _ _ _ q Hw); same | eapply (shape_phase i _ _ q _ Hw); same].
Qed.

Lemma supervised_same w w' : supervised w w' ->
  reqs w' = reqs w /\ lock w' = lock w /\ slock w' = slock w /\ tasks w' = tasks w /\ pumps w' = pumps w /\ got w' = got w /\ last_id (rt w') = last_id (rt w) /\ cmd (rt w') = cmd (rt w).
Proof. by intros []. Qed.

Lemma shape_exec o a w w' : shape w -> exec o a w = Some w' -> shape w'.
Proof.
  intros Hw H. pose proof (sh_alive _ Hw) as Hok.
  assert (Hsv : forall w1, supervised w w1 -> shape w1) by (intros w1 []; eapply (shape_side w); same).
  destruct a; cbn [exec request_step pump_step task_step other_step] in H; unfold cancel_step, sync_ends, to_pumping, reply_done, abandon_request in H.
  all: simplify_eq; repeat (case_match; simplify_eq).
  all: repeat match goal with E : phase_of _ _ = Some _ |- _ => apply phase_of_inv in E as (q & Hq & Hqp) end.
  all: to_finish.
  all: try solve [by eapply Hsv, check_clock_supervised | by eapply Hsv, apply_sample_supervised].
  all: try solve [eapply (shape_side _ _ Hw); same].
  all: try solve [eapply (shape_finish _ _ _ _ w q); [..|same]; first [same | by rewrite Hqp]].
  all: try solve [eapply (shape_phase _ _ w q); first [same | by rewrite Hqp]].
  all: try solve [eapply (shape_move w) with (q := q); first [same | by rewrite Hqp]].
  all: try solve [eapply (shape_end w) with (q := q); first [same | by rewrite Hqp | by right; split; [|rewrite Hqp]]].
  all: try solve [eapply (shape_call w); same].
  - eapply (shape_lock w) with (q := q); same.
  - eapply (shape_begin w) with (q := q); try same; cbn; unfold id_of; rewrite ?Hq, ?length_app; cbn; [done | lia].
  - eapply shape_on_frame; [eapply (shape_phase _ _ w q); first [same | by rewrite Hqp] | cbn; by rewrite list_lookup_alter_eq, Hq | done].
  - pose proof (apply_sample_supervised o now s (-1) w) as Hs. destruct (supervised_same _ _ Hs) as (? & ? & ? & ? & Hp & ? & ? & ?).
    eapply (shape_finish _ _ _ _ w q); first [done | by rewrite Hqp | exact (alive_supervised _ _ Hs Hok) | f_equal; exact Hp].
  - pose proof (apply_sample_supervised o now (Some s0) (-1) w) as Hs. destruct (supervised_same _ _ Hs) as (? & ? & ? & ? & Hp & ? & ? & ?).
    eapply (shape_finish _ _ _ _ w q); first [done | by rewrite Hqp | exact (alive_supervised _ _ Hs Hok) | f_equal; exact Hp].
  - eapply (shape_side _ _ Hw); try same. split; [apply Hok | done].
  - eapply (shape_side _ _ Hw); try same; cbn; by case_match.
Qed.

Lemma shape_init now cpu : shape (init now cpu).
Proof. by split. Qed.

(** An invariant of the turns that may use the shape. *)
Lemma aio_reachable_inv o (P : world -> Prop) :
  (forall now cpu, P (init now cpu)) -> (forall a w w', shape w -> P w -> exec o a w = Some w' -> P w') -> forall w, reachable o w -> shape w /\ P w.
Proof.
  intros Hi Hs w (now & cpu & Hr). remember (init now cpu) as w0 eqn:E0.
  assert (H0 : shape w0 /\ P w0) by (subst; split; [apply shape_init | apply Hi]). clear E0.
  induction Hr as [|w1 w2 w3 (a & Ha) _ IH]; [done|]. apply IH. destruct H0. split; [by eapply shape_exec | by eapply Hs].
Qed.

(** One entry of a list changed, or added. *)
Definition upd {A} (l l' : list A) (i : nat) (x : A) : Prop := l' !! i = Some x /\ forall j, j <> i -> l' !! j = l !! j.

Lemma upd_alter {A} (f : A -> A) l i x : l !! i = Some x -> upd l (alter f i l) i (f x).
Proof. intros H. split; [by rewrite list_lookup_alter_eq, H | intros; by apply list_lookup_alter_ne]. Qed.
Lemma upd_insert {A} (l : list A) i x y : l !! i = Some x -> upd l (<[i := y]> l) i y.
Proof. intros H. split; [apply list_lookup_insert_eq; by eapply lookup_lt_Some | intros; by apply list_lookup_insert_ne]. Qed.
Lemma upd_snoc {A} (l : list A) x : upd l (l ++ [x]) (length l) x.
Proof.
  split; [by rewrite lookup_app_r, Nat.sub_diag by done|]. intros j Hj. destruct (decide (j < length l)%nat) as [Hl|Hl].
  - by apply lookup_app_l.
  - rewrite (lookup_ge_None_2 l j) by lia. apply lookup_ge_None_2. rewrite length_app. cbn. lia.
Qed.
Lemma upd_alter2 {A} (f g : A -> A) l i x : l !! i = Some x -> upd l (alter f i (alter g i l)) i (f (g x)).
Proof. intros H. split; [by rewrite !list_lookup_alter_eq, H | intros; by rewrite !list_lookup_alter_ne]. Qed.

Lemma upd_inv {A} (l l' : list A) i x j y : upd l l' i x -> l' !! j = Some y -> (j = i /\ y = x) \/ (j <> i /\ l !! j = Some y).
Proof. intros [H1 H2] Hj. destruct (decide (j = i)) as [->|Hn]; [left; split; congruence | right; split; [done | by rewrite <- H2]]. Qed.
Lemma upd_phase l i q p : l !! i = Some q -> upd l (alter (fun q => Req p (q_id q) (q_pump q)) i l) i (Req p (q_id q) (q_pump q)).
Proof. intros H. by apply (upd_alter (fun q => Req p (q_id q) (q_pump q))). Qed.
