(* ===== verification/AioCount.v ===== *)
(** * The asynchronous runtime: calls in flight, replies and the kill *)

From S2P Require Import Prelude Utf8 PyVal PyStr Pump HostSide Isolated AioRuntime AioRuntimeInv.

(** ** Counting *)

(** The command that holds the lock, measured by its phase. *)
Definition held (f : phase -> Z) (w : world) : Z :=
  match lock w with Some i => match phase_of i w with Some p => f p | None => 0 end | None => 0 end.

Definition b2Z (b : bool) : Z := if b then 1 else 0.

Definition active (t : task) : Z := match t_phase t with TDone => 0 | _ => 1 end.
Definition active_on (k : nat) (t : task) : Z := if decide (t_pump t = k) then active t else 0.
(** A synchronous host function the command waits for. *)
Definition waits (p : phase) : Z := match p with Running c | ReplyLock c _ | ReplyDrain c => b2Z (s_counts c) | _ => 0 end.

(** A reply that is due to the call [cid]. *)
Definition due (cid : Z) (p : phase) : Z := match p with Running c | ReplyLock c _ => b2Z (s_cid c =? cid) | _ => 0 end.
Definition task_due (cid : Z) (t : task) : Z := match t_phase t with TRun | TLock _ | TEncode _ => b2Z (t_cid t =? cid) | _ => 0 end.

Definition replies_to (cid : Z) (e : event) : Z := match e with SentReply r => b2Z (reply_cid r =? cid) | _ => 0 end.
Definition accepts (cid : Z) (e : event) : Z := match e with Accepted c => b2Z (c =? cid) | _ => 0 end.
Definition invokes (e : event) : Z := match e with Invoked _ console => b2Z (negb console) | _ => 0 end.
Definition sends (e : event) : bool := match e with SentCommand _ | SentReply _ | SentClose => true | _ => false end.

Definition out (k : nat) (ps : list _Pump) : Z := match ps !! k with Some p => _outstanding p | None => 0 end.

Lemma out_same f k k' ps : (forall p, _outstanding (f p) = _outstanding p) -> out k (alter f k' ps) = out k ps.
Proof. intros Hf. unfold out. rewrite list_lookup_alter. case_decide; subst; [|done]. by destruct (ps !! k) eqn:E; cbn; rewrite ?Hf. Qed.
Lemma out_delta f d k k' ps : (forall p, _outstanding (f p) = _outstanding p + d) -> (k' < length ps)%nat ->
  out k (alter f k' ps) = out k ps + if decide (k' = k) then d else 0.
Proof.
  intros Hf Hl. unfold out. rewrite list_lookup_alter. case_decide; subst; [|lia].
  destruct (lookup_lt_is_Some_2 _ _ Hl) as [p ->]. cbn. apply Hf.
Qed.
Lemma out_begin now p : _outstanding (begin_call now p) = _outstanding p + 1. Proof. done. Qed.
Lemma out_end now p : _outstanding (end_call now p) = _outstanding p + -1. Proof. unfold end_call. by case_match. Qed.

Lemma held_at f w i q : shape w -> reqs w !! i = Some q -> holds (q_phase q) = true -> held f w = f (q_phase q) /\ lock w = Some i.
Proof. intros Hw Hq Hh. destruct (sh_hold _ Hw _ _ Hq Hh) as [Hl _]. unfold held, phase_of. by rewrite Hl, Hq. Qed.

(** ** Nothing is sent after the kill *)

Definition after_kill (e : event) : bool := negb (sends e) && match e with Killed => false | _ => true end.

Definition silent (w : world) : Prop :=
  (killed (rt w) = false -> Killed ∉ log w) /\ forall l1 l2, log w = l1 ++ Killed :: l2 -> Forall (fun e => after_kill e = true) l2.

(** The log grows: with what may follow a kill, or (the worker alive) with anything but a kill, or
    with the kill. *)
Lemma silent_more w w' l :
  silent w -> log w' = log w ++ l -> (killed (rt w') = false -> killed (rt w) = false) ->
  (Forall (fun e => after_kill e = true) l \/ killed (rt w) = false /\ (Killed ∉ l \/ l = [Killed] /\ killed (rt w') = true)) -> silent w'.
Proof.
  intros [Hk Hs] Hl Hm Hc. unfold silent. rewrite Hl. destruct Hc as [Hq|[Ha [Hn|[-> Hd]]]].
  - assert (Hnk : Killed ∉ l) by (intros H; rewrite Forall_forall in Hq; by specialize (Hq _ H)).
    split; [intros ?; rewrite elem_of_app; naive_solver|]. intros l1 l2 E.
    assert (exists l3, log w = l1 ++ Killed :: l3 /\ l2 = l3 ++ l) as (l3 & E1 & ->); [|apply Forall_app; split; [by eapply Hs | done]].
    apply app_eq_inv in E as [(k & E1 & E2)|(k & E1 & E2)]; [destruct k as [|x k]; simplify_eq/=|].
    + exfalso. apply Hnk. set_solver.
    + rewrite E1. by exists k.
    + exfalso. apply Hnk. rewrite E2. set_solver.
  - split; [intros _; rewrite elem_of_app; naive_solver|]. intros l1 l2 E. exfalso.
    assert (Killed ∈ log w ++ l) as H by (rewrite E; set_solver). apply elem_of_app in H. naive_solver.
  - split; [congruence|]. intros l1 l2 E. specialize (Hk Ha). destruct l2 as [|x l2 _] using rev_ind; [done|]. exfalso. apply Hk.
    rewrite app_comm_cons, app_assoc in E. apply app_inj_tail in E as [-> _]. set_solver.
Qed.

Lemma silent_kill v w : silent w -> silent (_kill v w).
Proof.
  intros Hs. eapply (silent_more w); [done | reflexivity | done |]. destruct (killed (rt w)) eqn:E; [left; constructor | right; split; [done | right; by split]].
Qed.

Lemma silent_same w w' : silent w -> log w' = log w -> killed (rt w') = killed (rt w) -> silent w'.
Proof. unfold silent. by intros H -> ->. Qed.

Lemma silent_emit e w : silent w -> after_kill e = true \/ killed (rt w) = false /\ e <> Killed -> silent (emit e w).
Proof.
  intros Hs H. eapply (silent_more w); [done | reflexivity | done |]. destruct H as [?|[? ?]]; [left; by repeat constructor | right; split; [done | left; set_solver]].
Qed.
Lemma silent_supervised w w' : supervised w w' -> silent w -> silent w'.
Proof. by intros [] Hs; try apply silent_kill. Qed.
Lemma writable_alive pipe w : writable pipe w = true -> killed (rt w) = false.
Proof. unfold writable. destruct (killed (rt w)); [by destruct pipe | done]. Qed.
Lemma unwritable_alive pipe w : negb (writable pipe w) = false -> killed (rt w) = false.
Proof. rewrite negb_false_iff. apply writable_alive. Qed.

Ltac quietly :=
  repeat match goal with
  | H : silent ?w |- silent ?w => exact H
  | |- silent (_kill _ _) => apply silent_kill
  | |- silent (emit _ _) => apply silent_emit; [|first [by left | by right; split; [first [eapply writable_alive; eassumption | eapply unwritable_alive; eassumption]|]]]
  | |- silent (World _ _ _ _ _ _ _ _ _ _ _ _) => eapply silent_same; [eassumption|done|done]
  | |- silent (_apply_sample _ _ _ _ ?w) => apply (silent_supervised w); [apply apply_sample_supervised|]
  | |- silent (_check_clock _ ?w) => apply (silent_supervised w); [apply check_clock_supervised|]
  | |- silent (_begin _ _ _ _ ?w) => apply (silent_same w); [|done|done]
  | |- silent (_ ?w) => apply (silent_same w); [|done|first [done | simpl; by case_match]]
  end.

Lemma silent_on_frame o i now m w : silent w -> silent (on_frame o i now m w).
Proof. intros Hs. unfold on_frame, _on_call, start_call, count_call. repeat case_match; simplify_eq; to_finish; quietly. Qed.

Lemma silent_exec o a w w' : silent w -> exec o a w = Some w' -> silent w'.
Proof.
  intros Hs H.
  destruct a; cbn [exec request_step pump_step task_step other_step] in H; unfold cancel_step, sync_ends, to_pumping, reply_done, abandon_request in H.
  all: simplify_eq; repeat (case_match; simplify_eq).
  all: to_finish; try apply silent_on_frame; quietly.
Qed.

(** ** Calls in flight, and their replies *)

Record counted (o : opts) (w : world) : Prop := Counted {
  ct_async : async_inflight (rt w) = total active (tasks w);
  ct_range : forall j t, tasks w !! j = Some t -> (t_pump t < length (pumps w))%nat;
  ct_cmd : forall k, cmd (rt w) = Some k -> out k (pumps w) = total (active_on k) (tasks w) + held waits w;
  ct_max : forall m, _max_inflight o = Some m -> total active (tasks w) + held waits w <= Z.max 0 m;
  ct_calls : total invokes (log w) <= host_calls (rt w);
  ct_budget : forall m, _max_host_calls o = Some m -> total invokes (log w) <= Z.max 0 m;
  ct_replies : forall cid, held (due cid) w + total (task_due cid) (tasks w) + total (replies_to cid) (log w) <= total (accepts cid) (log w);
  ct_reply : forall i q c r, reqs w !! i = Some q -> q_phase q = ReplyLock c r -> reply_cid r = s_cid c;
  ct_treply : forall j t r, tasks w !! j = Some t -> t_phase t = TLock r \/ t_phase t = TEncode r -> reply_cid r = t_cid t
}.

Definition reply_ok (p : phase) : Prop := match p with ReplyLock c r => reply_cid r = s_cid c | _ => True end.

Lemma due_nonneg cid p : 0 <= due cid p.
Proof. unfold due, b2Z. repeat case_match; lia. Qed.
Lemma waits_nonneg p : 0 <= waits p.
Proof. unfold waits, b2Z. repeat case_match; lia. Qed.

Lemma task_due_nonneg cid t : 0 <= task_due cid t.
Proof. unfold task_due, b2Z. repeat case_match; lia. Qed.
Lemma held_nonneg f w : (forall p, 0 <= f p) -> 0 <= held f w.
Proof. intros Hf. unfold held. repeat case_match; try done; lia. Qed.

Section counted_turns.
Context (o : opts) (w w' : world) (Hw : shape w) (Hc : counted o w).
Context (Ht : tasks w' = tasks w) (Ha : async_inflight (rt w') = async_inflight (rt w)) (Hh : host_calls (rt w) <= host_calls (rt w')).
Context (Hp : length (pumps w') = length (pumps w)) (Hi : total invokes (log w') = total invokes (log w)).

(** The command that holds the lock goes from one phase to another. *)
Lemma counted_phase i q p :
  reqs w' = alter (fun q => Req p (q_id q) (q_pump q)) i (reqs w) -> reqs w !! i = Some q -> holds (q_phase q) = true -> lock w' = lock w -> cmd (rt w') = cmd (rt w) ->
  (forall k, cmd (rt w) = Some k -> out k (pumps w') = out k (pumps w) - waits (q_phase q) + waits p) -> waits p <= waits (q_phase q) ->
  (forall cid, due cid p + total (replies_to cid) (log w') - total (accepts cid) (log w') <= due cid (q_phase q) + total (replies_to cid) (log w) - total (accepts cid) (log w)) ->
  reply_ok p -> counted o w'.
Proof using All.
  intros Hr Hq Hq' Hl Hcm Ho Hwt Hd Hok.
  assert (H0 : forall f, held f w = f (q_phase q)) by (intros f; by apply (held_at f w i q)).
  assert (H1 : forall f, held f w' = f p).
  { intros f. destruct (held_at f w i q Hw Hq Hq') as [_ Hlk]. unfold held, phase_of. by rewrite Hl, Hlk, Hr, list_lookup_alter_eq, Hq. }
  destruct Hc. rewrite H0 in *. split; rewrite ?Ht, ?Ha, ?Hp, ?Hi, ?Hcm, ?H1; try done.
  - intros k Hk. rewrite (Ho k Hk), (ct_cmd0 k Hk). lia.
  - intros m Hm. specialize (ct_max0 m Hm). lia.
  - lia.
  - intros cid. specialize (Hd cid). specialize (ct_replies0 cid). rewrite H0 in ct_replies0. rewrite H1. lia.
  - rewrite Hr. intros j q1 c r [(-> & x & Hx & ->)|[_ Hj]]%lookup_alter_cases; [|eauto]. cbn. by intros ->.
Qed.

(** It ends. *)
Lemma counted_end : reqs w' = reqs w \/ (exists i e, reqs w' = alter (fun q => Req (Ended e) (q_id q) (q_pump q)) i (reqs w)) ->
  lock w' = None -> cmd (rt w') = None -> (forall cid, total (replies_to cid) (log w') = total (replies_to cid) (log w) /\ total (accepts cid) (log w') = total (accepts cid) (log w)) ->
  counted o w'.
Proof using All.
  intros Hr Hl Hcm Hd. assert (H1 : forall f, held f w' = 0) by (intros f; unfold held; by rewrite Hl).
  pose proof (fun f => held_nonneg f w) as H0.
  destruct Hc. split; rewrite ?Ht, ?Ha, ?Hp, ?Hi, ?Hcm, ?H1; try done.
  - intros m Hm. specialize (ct_max0 m Hm). pose proof (H0 waits waits_nonneg). lia.
  - lia.
  - intros cid. destruct (Hd cid) as [-> ->]. specialize (ct_replies0 cid). pose proof (H0 _ (due_nonneg cid)). rewrite H1. lia.
  - destruct Hr as [->|(i & e & ->)]; [done|]. intros j q1 c r [(-> & x & Hx & ->)|[_ Hj]]%lookup_alter_cases; [done|eauto].
Qed.

(** Not a turn of the command. *)
Lemma counted_side : held waits w' = held waits w -> (forall cid, held (due cid) w' = held (due cid) w) -> (forall i q c r, reqs w' !! i = Some q -> q_phase q = ReplyLock c r -> reqs w !! i = Some q) ->
  (forall k, cmd (rt w') = Some k -> cmd (rt w) = Some k /\ out k (pumps w') = out k (pumps w)) ->
  (forall cid, total (replies_to cid) (log w') = total (replies_to cid) (log w) /\ total (accepts cid) (log w') = total (accepts cid) (log w)) -> counted o w'.
Proof using All.
  intros Hhd Hhd' Hr Hcm Hd. destruct Hc. split; rewrite ?Ht, ?Ha, ?Hp, ?Hi, ?Hhd; try done.
  - intros k Hk. destruct (Hcm k Hk) as [Hk' ->]. auto.
  - lia.
  - intros cid. destruct (Hd cid) as [-> ->]. rewrite Hhd'. done.
  - intros i q c r Hq Hph. eauto.
Qed.
End counted_turns.

Definition treply_ok (t : task) : Prop := match t_phase t with TLock r | TEncode r => reply_cid r = t_cid t | _ => True end.

(** The turn of a task. *)
Lemma counted_task o w w' j t p :
  counted o w -> tasks w !! j = Some t -> tasks w' = alter (fun t => Task (t_cid t) (t_hid t) (t_pump t) (t_limit t) p) j (tasks w) ->
  let t' := Task (t_cid t) (t_hid t) (t_pump t) (t_limit t) p in
  reqs w' = reqs w -> lock w' = lock w -> cmd (rt w') = cmd (rt w) -> host_calls (rt w') = host_calls (rt w) -> length (pumps w') = length (pumps w) ->
  async_inflight (rt w') = async_inflight (rt w) - active t + active t' -> active t' <= active t ->
  (forall k, out k (pumps w') = out k (pumps w) - active_on k t + active_on k t') ->
  total invokes (log w') = total invokes (log w) -> (forall cid, total (accepts cid) (log w') = total (accepts cid) (log w)) ->
  (forall cid, task_due cid t' + total (replies_to cid) (log w') <= task_due cid t + total (replies_to cid) (log w)) -> treply_ok t' -> counted o w'.
Proof.
  intros Hc Hj Ht t' Hr Hl Hcm Hh Hp Ha Hact Ho Hi Hacc Hd Hok.
  assert (Hsum : forall f, total f (tasks w') = total f (tasks w) - f t + f t') by (intros f; rewrite Ht; by apply total_alter).
  assert (Hhd : forall f, held f w' = held f w) by (intros f; unfold held, phase_of; by rewrite Hl, Hr).
  destruct Hc. split; rewrite ?Ha, ?Hp, ?Hi, ?Hcm, ?Hhd, ?Hsum, ?Hh; try done.
  - lia.
  - rewrite Ht. intros j' t1 [(-> & x & Hx & ->)|[_ H]]%lookup_alter_cases; eauto. cbn. eauto.
  - intros k Hk. rewrite Hsum, Ho, (ct_cmd0 k Hk). lia.
  - intros m Hm. specialize (ct_max0 m Hm). lia.
  - intros cid. specialize (Hd cid). specialize (ct_replies0 cid). rewrite Hhd, Hsum, Hacc. lia.
  - rewrite Hr. done.
  - rewrite Ht. intros j' t1 r [(-> & x & Hx & ->)|[_ H]]%lookup_alter_cases; eauto. cbn. rewrite Hj in Hx. simplify_eq. subst t'. unfold treply_ok in Hok. cbn in Hok.
    by intros [->| ->].
Qed.

(** The start of a call: what the command waits for, or the new task. *)
Lemma counted_starts o w w' i q p new (n : Z) :
  shape w -> counted o w -> reqs w !! i = Some q -> q_phase q = Pumping -> reqs w' = alter (fun q => Req p (q_id q) (q_pump q)) i (reqs w) ->
  lock w' = lock w -> cmd (rt w') = cmd (rt w) -> tasks w' = tasks w ++ new -> Forall (fun t => t_pump t = q_pump q /\ t_phase t = TRun) new ->
  total active new + waits p = n -> async_inflight (rt w') = async_inflight (rt w) + total active new -> length (pumps w') = length (pumps w) ->
  out (q_pump q) (pumps w') = out (q_pump q) (pumps w) + n -> (forall m, _max_inflight o = Some m -> n = 0 \/ total active (tasks w) + n <= m) ->
  total invokes (log w') <= host_calls (rt w') -> (forall m, _max_host_calls o = Some m -> total invokes (log w') <= Z.max 0 m) ->
  (forall cid, due cid p + total (task_due cid) new + total (replies_to cid) (log w') - total (accepts cid) (log w') <= total (replies_to cid) (log w) - total (accepts cid) (log w)) ->
  reply_ok p -> counted o w'.
Proof.
  intros Hw Hc Hq Hph Hr Hl Hcm Ht Hnew Hn Ha Hp Ho Hroom Hi Hb Hd Hok. assert (Hh : holds (q_phase q) = true) by by rewrite Hph.
  assert (H0 : forall f, held f w = f Pumping) by (intros f; rewrite <- Hph; by apply (held_at f w i q)).
  assert (H1 : forall f, held f w' = f p).
  { intros f. destruct (held_at f w i q Hw Hq Hh) as [_ Hlk]. unfold held, phase_of. by rewrite Hl, Hlk, Hr, list_lookup_alter_eq, Hq. }
  assert (Hcmd : cmd (rt w) = Some (q_pump q)) by (apply (sh_cmd _ Hw i); [done | by rewrite Hph]). pose proof (sh_pump _ Hw _ Hcmd) as Hlen.
  assert (Hon : total (active_on (q_pump q)) new = total active new).
  { clear -Hnew. induction Hnew as [|t l [E _] _ IH]; cbn; [done|]. rewrite IH. unfold active_on. by rewrite E, decide_True. }
  rewrite Forall_forall in Hnew.
  destruct Hc. rewrite H0 in *. split; rewrite ?Ht, ?Ha, ?Hp, ?Hcm, ?H1, ?total_app; try done.
  - lia.
  - intros j t [H|[_ H]]%lookup_app_Some; [eauto|]. apply list_elem_of_lookup_2, Hnew in H as [-> _]. done.
  - intros k Hk. assert (k = q_pump q) as -> by congruence. rewrite Ho, total_app, Hon, (ct_cmd0 _ Hcmd). cbn. lia.
  - intros m Hm. specialize (ct_max0 m Hm). cbn in ct_max0. destruct (Hroom m Hm); lia.
  - intros cid. specialize (Hd cid). specialize (ct_replies0 cid). rewrite H0 in ct_replies0. rewrite H1, total_app. cbn in ct_replies0. lia.
  - rewrite Hr. intros j q1 c r [(-> & x & Hx & ->)|[_ Hj]]%lookup_alter_cases; [|eauto]. cbn. by intros ->.
  - intros j t r [H|[_ H]]%lookup_app_Some; [eauto|]. apply list_elem_of_lookup_2, Hnew in H as [_ ->]. intros []; done.
Qed.

Lemma counted_start_call o i now cid hid h console w q :
  shape w -> counted o w -> reqs w !! i = Some q -> q_phase q = Pumping ->
  (console = false -> total invokes (log w) + 1 <= host_calls (rt w) /\ forall m, _max_host_calls o = Some m -> host_calls (rt w) <= m) ->
  counted o (start_call o i (q_pump q) now cid hid h console w).
Proof.
  intros Hw Hc Hq Hph Hb.
  assert (Hcmd : cmd (rt w) = Some (q_pump q)) by (apply (sh_cmd _ Hw i); [done | by rewrite Hph]). pose proof (sh_pump _ Hw _ Hcmd) as Hlen.
  assert (Hinv : total invokes (log w) + (if console then 0 else 1) <= host_calls (rt w)) by (destruct console; [pose proof (ct_calls _ _ Hc) | destruct (Hb eq_refl)]; lia).
  assert (Hbud : forall m, _max_host_calls o = Some m -> total invokes (log w) + (if console then 0 else 1) <= Z.max 0 m).
  { intros m Hm. destruct console; [pose proof (ct_budget _ _ Hc m Hm); lia | destruct (Hb eq_refl) as [? Hb']; specialize (Hb' m Hm); lia]. }
  unfold start_call. destruct (negb console && in_flight_full o _ _) eqn:Ef.
  { eapply (counted_phase o w _ Hw Hc) with (i := i) (q := q); try done; cbn; rewrite ?total_app, ?Hph; cbn; try lia.
    intros c. rewrite !total_app. cbn. unfold b2Z. lia. }
  assert (Hroom : console = false -> forall m, _max_inflight o = Some m -> total active (tasks w) + 1 <= m).
  { intros -> m Hm. cbn in Ef. unfold in_flight_full in Ef. rewrite Hm in Ef. apply orb_false_iff in Ef as [_ Ef]. cbn in Ef.
    rewrite (ct_async _ _ Hc) in Ef. lia. }
  assert (Hout : out (q_pump q) (alter (if console then begin_console now else begin_call now) (q_pump q) (pumps w)) = out (q_pump q) (pumps w) + (if console then 0 else 1)).
  { destruct console; [rewrite out_same by done; lia|]. rewrite (out_delta _ 1) by done. by rewrite decide_True. }
  destruct (h_async h && negb console) eqn:Ea.
  - apply andb_true_iff in Ea as [_ Ec]. destruct console; [done|].
    eapply (counted_starts o w) with (i := i) (q := q) (n := 1); try done; cbn; rewrite ?length_alter, ?total_app; cbn; try done; try lia.
    + by repeat constructor.
    + intros m Hm. right. by apply Hroom.
    + intros m Hm. specialize (Hbud m Hm). lia.
    + intros c. unfold task_due. rewrite !total_app. cbn. lia.
  - eapply (counted_starts o w) with (i := i) (q := q) (new := []) (n := if console then 0 else 1); try done; cbn; rewrite ?length_alter, ?total_app, ?app_nil_r; cbn; try done; try (destruct console; cbn; lia).
    + intros m Hm. destruct console; [by left | right; by apply Hroom].
    + intros m Hm. specialize (Hbud m Hm). destruct console; cbn; lia.
    + intros c. rewrite !total_app. cbn. lia.
Qed.

Lemma counted_kill o v w : shape w -> counted o w -> counted o (_kill v w).
Proof.
  intros Hw Hc. assert (Hl : forall f, f Killed = 0 -> total f (log w ++ (if killed (rt w) then [] else [Killed])) = total f (log w)).
  { intros f Hf. rewrite total_app. destruct (killed (rt w)); cbn; lia. }
  eapply (counted_side o w); try done; [by apply Hl | intros cid; split; by apply Hl].
Qed.
Lemma counted_supervised o w w' : supervised w w' -> shape w -> counted o w -> counted o w'.
Proof.
  intros Hs Hw Hc. assert (Hx : forall x, counted o (set_last_cpu x w)) by (intros x; by eapply (counted_side o w)).
  assert (Hwx : forall x, shape (set_last_cpu x w)) by (intros x; eapply (shape_side w); same || apply Hw).
  destruct Hs; try done; by apply counted_kill.
Qed.

Lemma counted_finish o i now e w w1 :
  shape w -> counted o w -> tasks w1 = tasks w -> reqs w1 = reqs w -> async_inflight (rt w1) = async_inflight (rt w) -> host_calls (rt w) <= host_calls (rt w1) ->
  length (pumps w1) = length (pumps w) -> (log w1 = log w \/ log w1 = log w ++ [Killed]) -> counted o (finish i now e w1).
Proof.
  intros Hw Hc Ht Hr Ha Hh Hp Hl. assert (Hf : forall f, f Killed = 0 -> total f (log w1) = total f (log w)).
  { intros f Hf. destruct Hl as [->| ->]; [done|]. rewrite total_app. cbn. lia. }
  eapply (counted_end o w); try done; [by apply Hf | right; exists i, e; cbn; by rewrite Hr | intros cid; split; by apply Hf].
Qed.

Lemma kill_log w : log w ++ (if killed (rt w) then [] else [Killed]) = log w \/ log w ++ (if killed (rt w) then [] else [Killed]) = log w ++ [Killed].
Proof. destruct (killed (rt w)); [left; apply app_nil_r | by right]. Qed.

Ltac rd := try (unfold reply_done; repeat case_match); try done.
Ltac ends Hw Hc :=
  eapply (counted_finish _ _ _ _ _ _ Hw Hc); [by rd|by rd|by rd|first [by rd | simpl; lia]|first [done | by (simpl; rewrite ?length_alter) | by (unfold reply_done; repeat case_match; simpl; rewrite ?length_alter)]|first [by left | apply kill_log | unfold reply_done; repeat case_match; simpl; rewrite ?app_nil_r; destruct (killed _); rewrite ?app_nil_r; [by left | by right]]].

Lemma counted_on_frame o i now m w q : shape w -> counted o w -> reqs w !! i = Some q -> q_phase q = Pumping -> counted o (on_frame o i now m w).
Proof.
  intros Hw Hc Hq Hph. assert (Hbad : forall msg, counted o (conclude i now (Crash msg) (_kill None w))) by (intros msg; to_finish; ends Hw Hc).
  assert (Hk : pump_of i w = q_pump q) by (unfold pump_of; by rewrite Hq).
  assert (Hfin : forall a, counted o (set_phase i (Final a) w)).
  { intros a. eapply (counted_phase o w _ Hw Hc) with (i := i) (q := q); try done; rewrite ?Hph; try done; cbn; intros; lia. }
  unfold on_frame. rewrite Hk. destruct (get_field m (u "t")) as [] eqn:Et; try apply Hbad. repeat case_match; try apply Hbad; try apply Hfin.
  unfold _on_call. destruct (call_entry _ w) as [entry|[]]; [|apply Hbad]. destruct (get_field m (u "cid")); try apply Hbad.
  destruct entry as [[hid h]|]; [|apply Hbad]. destruct (get_field m (u "args")); try apply Hbad. unfold count_call. destruct (match console_hid o with Some c => hid =? c | None => false end).
  - by apply counted_start_call.
  - set (n := host_calls (rt w) + 1). set (w1 := on_rt _ w).
    assert (Hw1 : shape w1) by (eapply (shape_side w); same || apply Hw).
    assert (Hc1 : counted o w1) by (eapply (counted_side o w); try done; cbn; lia).
    destruct (over (_max_host_calls o) (Some n)) eqn:Eo; cbn [negb]; [to_finish; ends Hw Hc|].
    apply counted_start_call; try done. intros _. split; [pose proof (ct_calls _ _ Hc); cbn; lia|]. intros m' Hm. unfold over in Eo. rewrite Hm in Eo. cbn. lia.
Qed.

Lemma reply_done_out k now c w k' : (k < length (pumps w))%nat -> out k' (pumps (reply_done k now c w)) = out k' (pumps w) - if decide (k = k') then b2Z (s_counts c) else 0.
Proof.
  intros Hk. unfold reply_done. destruct (s_counts c), (s_console c); cbn; rewrite ?out_same by done; rewrite ?(out_delta _ (-1)) by (done || apply out_end); case_decide; cbn; lia.
Qed.

(** Commands that do not hold the lock. *)
Lemma held_other f w w' : lock w' = lock w -> (forall i, lock w = Some i -> reqs w' !! i = reqs w !! i) -> held f w' = held f w.
Proof. intros Hl Hr. unfold held, phase_of. rewrite Hl. destruct (lock w) as [i|]; [|done]. by rewrite (Hr i eq_refl). Qed.

Lemma counted_idle o w w' i q' :
  shape w -> counted o w -> upd (reqs w) (reqs w') i q' -> lock w' = lock w -> (forall q, reqs w !! i = Some q -> holds (q_phase q) = false) -> holds (q_phase q') = false ->
  tasks w' = tasks w -> rt w' = rt w -> pumps w' = pumps w -> log w' = log w -> counted o w'.
Proof.
  intros Hw Hc Hu Hl Hn Hq' Ht Hr Hp Hlog.
  assert (Hh : forall f, held f w' = held f w).
  { intros f. apply held_other; [done|]. intros j Hj. apply Hu. intros ->. destruct (sh_held _ Hw _ Hj) as (q & Hq & Hh). by rewrite (Hn q Hq) in Hh. }
  eapply (counted_side _ _ _ Hw Hc); rewrite ?Ht, ?Hr, ?Hp, ?Hlog; try done. intros j q c r Hj Hph.
  destruct (upd_inv _ _ _ _ _ _ Hu Hj) as [[-> ->]|[_ H]]; [by rewrite Hph in Hq' | done].
Qed.

Lemma encoding_idle w i q : shape w -> reqs w !! i = Some q -> q_phase q = Encoding -> cmd (rt w) = None.
Proof.
  intros Hw Hq He. destruct (cmd (rt w)) as [k|] eqn:E; [|done]. destruct (sh_idle _ Hw _ E) as (j & q' & Hj & Hb).
  assert (Hh : holds (q_phase q') = true) by (by destruct (q_phase q')). assert (Hh0 : holds (q_phase q) = true) by by rewrite He.
  destruct (sh_hold _ Hw _ _ Hj Hh) as [H1 _]. destruct (sh_hold _ Hw _ _ Hq Hh0) as [H2 _]. assert (j = i) as -> by congruence.
  rewrite Hq in Hj. simplify_eq. by rewrite He in Hb.
Qed.

Lemma counted_begin o i now soft w q : shape w -> counted o w -> reqs w !! i = Some q -> q_phase q = Encoding -> counted o (_begin o i now soft w).
Proof.
  intros Hw Hc Hq He. assert (Hh : holds (q_phase q) = true) by by rewrite He. destruct (held_at waits w i q Hw Hq Hh) as [Hwt Hlk].
  assert (Hh0 : forall f, held f w = f Encoding) by (intros f; rewrite <- He; by apply (held_at f w i q)).
  assert (Hh1 : forall f, held f (_begin o i now soft w) = f SendLock).
  { intros f. unfold held, phase_of. cbn. rewrite Hlk, list_lookup_insert_eq; [done | by eapply lookup_lt_Some]. }
  destruct Hc. split; try done; cbn [tasks rt log pumps reqs async_inflight host_calls cmd _begin].
  - intros j t Hj. rewrite length_app. specialize (ct_range0 j t Hj). lia.
  - intros k [= <-]. rewrite Hh1. unfold out. rewrite lookup_app_r, Nat.sub_diag by done. cbn. rewrite total_zero; [done|].
    intros t [j Hj]%list_elem_of_lookup. specialize (ct_range0 j t Hj). unfold active_on. rewrite decide_False; [done|lia].
  - rewrite Hh1. by rewrite Hh0 in ct_max0.
  - intros cid. rewrite Hh1. specialize (ct_replies0 cid). by rewrite Hh0 in ct_replies0.
  - intros j q' c r [(-> & -> & _)|[_ Hj]]%lookup_insert_cases; [done|eauto].
Qed.

(** The reply of a synchronous call is out. *)
Lemma counted_replied o w w1 i q c now :
  shape w -> counted o w -> reqs w !! i = Some q -> (exists r, q_phase q = ReplyLock c r) \/ q_phase q = ReplyDrain c ->
  reqs w1 = reqs w -> lock w1 = lock w -> tasks w1 = tasks w -> async_inflight (rt w1) = async_inflight (rt w) -> host_calls (rt w1) = host_calls (rt w) ->
  cmd (rt w1) = cmd (rt w) -> pumps w1 = pumps w -> total invokes (log w1) = total invokes (log w) ->
  (forall cid, total (replies_to cid) (log w1) - total (accepts cid) (log w1) <= due cid (q_phase q) + total (replies_to cid) (log w) - total (accepts cid) (log w)) ->
  counted o (set_phase i Pumping (reply_done (pump_of i w1) now c w1)).
Proof.
  intros Hw Hc Hq Hph Hr Hl Ht Ha Hh Hcm Hp Hi Hd.
  assert (Hb : begun (q_phase q) = true) by (by destruct Hph as [[r ->]| ->]).
  assert (Hwt : waits (q_phase q) = b2Z (s_counts c)) by (by destruct Hph as [[r ->]| ->]).
  assert (Hk : pump_of i w1 = q_pump q) by (unfold pump_of; by rewrite Hr, Hq). pose proof (sh_cmd _ Hw _ _ Hq Hb) as Hcmd. pose proof (sh_pump _ Hw _ Hcmd) as Hlen.
  rewrite Hk. set (w2 := reply_done (q_pump q) now c w1).
  assert (Hsame : tasks w2 = tasks w1 /\ reqs w2 = reqs w1 /\ lock w2 = lock w1 /\ rt w2 = rt w1 /\ log w2 = log w1 /\ length (pumps w2) = length (pumps w1)).
  { subst w2. unfold reply_done. repeat case_match; cbn; by rewrite ?length_alter. }
  destruct Hsame as (E1 & E2 & E3 & E4 & E5 & E6).
  eapply (counted_phase o w _ Hw Hc) with (i := i) (q := q) (p := Pumping); cbn; rewrite ?E1, ?E2, ?E3, ?E4, ?E5, ?E6, ?Hr; try done; try lia; try congruence.
  - by destruct Hph as [[r ->]| ->].
  - intros k Hk'. assert (k = q_pump q) as -> by congruence. subst w2. rewrite reply_done_out by (rewrite Hp; done). rewrite decide_True by done. rewrite Hp, Hwt. lia.
  - rewrite Hwt. unfold b2Z. case_match; lia.
Qed.

Lemma counted_done o w w1 j t now :
  counted o w -> tasks w !! j = Some t -> t_phase t <> TDone ->
  tasks w1 = tasks w -> reqs w1 = reqs w -> lock w1 = lock w -> rt w1 = rt w \/ (exists v, rt w1 = rt (_kill v w)) -> pumps w1 = pumps w ->
  (exists l, log w1 = log w ++ l /\ (forall f, f Killed = 0 -> (forall r, f (SentReply r) = 0) -> total f l = 0) /\ forall cid, total (replies_to cid) l <= task_due cid t) ->
  counted o (task_done j now w1).
Proof.
  intros Hc Hj Hph Ht Hr Hl Hrt Hp (l & Hlog & Hz & Hd). assert (Hact : active t = 1) by (unfold active; by destruct (t_phase t)).
  pose proof (ct_range _ _ Hc _ _ Hj) as Hlen. assert (Hk : tpump_of j w1 = t_pump t) by (unfold tpump_of; by rewrite Ht, Hj).
  assert (Hrt' : cmd (rt w1) = cmd (rt w) /\ host_calls (rt w1) = host_calls (rt w) /\ async_inflight (rt w1) = async_inflight (rt w)) by (by destruct Hrt as [->|[v ->]]).
  destruct Hrt' as (Hcm & Hh & Ha).
  eapply (counted_task o w _ j t TDone Hc Hj); cbn; rewrite ?Ht, ?Hr, ?Hl, ?Hcm, ?Hh, ?Ha, ?Hp, ?Hk, ?Hlog, ?total_app, ?length_alter; try done.
  - rewrite Hact. cbn. lia.
  - rewrite Hact. cbn. lia.
  - intros k. rewrite (out_delta _ (-1)) by (done || apply out_end). unfold active_on. cbn. case_decide; [rewrite Hact; cbn; lia | lia].
  - rewrite Hz by done. lia.
  - intros cid. rewrite total_app, (Hz (accepts cid)) by done. lia.
  - intros cid. specialize (Hd cid). rewrite total_app. lia.
Qed.

Lemma counted_tphase o w w1 j t p :
  counted o w -> tasks w !! j = Some t -> t_phase t <> TDone -> p <> TDone -> treply_ok (Task (t_cid t) (t_hid t) (t_pump t) (t_limit t) p) ->
  tasks w1 = tasks w -> reqs w1 = reqs w -> lock w1 = lock w -> pumps w1 = pumps w -> cmd (rt w1) = cmd (rt w) -> host_calls (rt w1) = host_calls (rt w) ->
  async_inflight (rt w1) = async_inflight (rt w) ->
  (exists l, log w1 = log w ++ l /\ (forall f, f Killed = 0 -> (forall r, f (SentReply r) = 0) -> total f l = 0) /\
     forall cid, task_due cid (Task (t_cid t) (t_hid t) (t_pump t) (t_limit t) p) + total (replies_to cid) l <= task_due cid t) ->
  counted o (set_tphase j p w1).
Proof.
  intros Hc Hj Hph Hp Hok Ht Hr Hl Hpm Hcm Hh Ha (l & Hlog & Hz & Hd).
  assert (H1 : active t = 1) by (unfold active; by destruct (t_phase t)).
  assert (H2 : active (Task (t_cid t) (t_hid t) (t_pump t) (t_limit t) p) = 1) by (unfold active; by destruct p).
  eapply (counted_task o w _ j t p Hc Hj); try done; cbn [tasks reqs lock rt pumps log set_tphase]; rewrite ?Ht, ?Hr, ?Hl, ?Hcm, ?Hh, ?Ha, ?Hpm, ?Hlog, ?total_app; try done.
  - lia.
  - lia.
  - intros k. unfold active_on. cbn [t_pump]. rewrite H1, H2. case_decide; lia.
  - rewrite Hz by done. lia.
  - intros cid. rewrite total_app, (Hz (accepts cid)) by done. lia.
  - intros cid. specialize (Hd cid). rewrite total_app. lia.
Qed.

Lemma b2Z_range b : 0 <= b2Z b <= 1.
Proof. destruct b; cbn; lia. Qed.

(** What a turn of a task adds to the log. *)
Ltac task_log t Htp Hrep := first
  [ exists []; rewrite app_nil_r; split_and!; [done | done | intros cid; cbn; unfold task_due; rewrite ?Htp; cbn; lia || (pose proof (b2Z_range (t_cid t =? cid)); lia)]
  | eexists [SentReply _]; split_and!; [done | intros f ? Hf; cbn; rewrite Hf; lia | intros cid; cbn; unfold task_due; rewrite ?Htp; cbn; rewrite ?Hrep by eauto; lia]
  | eexists; split_and!; [reflexivity | intros f Hf _; case_match; cbn; lia | intros cid; case_match; cbn; unfold task_due; rewrite ?Htp; cbn; lia] ].

Lemma counted_task_step o a w w' : shape w -> counted o w -> task_step o a w = Some w' -> counted o w'.
Proof.
  intros Hw Hc H. destruct a; cbn [task_step] in H; simplify_eq; repeat (case_match; simplify_eq).
  all: repeat match goal with E : tphase_of _ _ = Some _ |- _ => apply tphase_of_inv in E as (t & Ht & Htp) end.
  all: try (assert (Hcid : cid_of j w = t_cid t) by (unfold cid_of; by rewrite Ht); rewrite ?Hcid).
  all: try (pose proof (fun r => ct_treply _ _ Hc _ _ r Ht) as Hrep; rewrite Htp in Hrep).
  all: try solve [eapply (counted_tphase o w _ j t); first [done | by rewrite Htp | by (unfold treply_ok; cbn; first [lia | apply Hrep; eauto]) | task_log t Htp Hrep]].
  all: try solve [eapply (counted_done o w _ j t); first [done | by rewrite Htp | by left | by right; eexists | task_log t Htp Hrep]].
  eapply (counted_side _ _ _ Hw Hc); done.
Qed.

Lemma supervised_events w w' : supervised w w' -> log w' = log w \/ log w' = log w ++ [Killed].
Proof. intros []; cbn; try (by left); apply (kill_log w). Qed.

Lemma counted_final o i now e w w1 : shape w -> counted o w -> supervised w w1 -> counted o (finish i now e w1).
Proof.
  intros Hw Hc Hs. destruct (supervised_same _ _ Hs) as (? & ? & ? & ? & Hp & ? & ? & ?).
  eapply (counted_finish _ _ _ _ w); first [done | by destruct Hs | by rewrite Hp | by apply supervised_events].
Qed.

Lemma counted_lock o w w' i q q' :
  shape w -> counted o w -> reqs w !! i = Some q -> reqs w' = <[i := q']> (reqs w) -> q_phase q' = Encoding -> lock w = None -> lock w' = Some i ->
  tasks w' = tasks w -> pumps w' = pumps w -> log w' = log w -> cmd (rt w') = cmd (rt w) -> host_calls (rt w') = host_calls (rt w) -> async_inflight (rt w') = async_inflight (rt w) ->
  counted o w'.
Proof.
  intros Hw Hc Hq Hr He Hl Hl' Ht Hp Hlog Hcm Hh Ha.
  assert (Hheld : forall f, f Encoding = 0 -> held f w' = held f w).
  { intros f Hf. unfold held, phase_of. rewrite Hl, Hl', Hr, list_lookup_insert_eq by (by eapply lookup_lt_Some). cbn. by rewrite He. }
  eapply (counted_side _ _ _ Hw Hc); rewrite ?Ht, ?Hp, ?Hlog, ?Hcm, ?Hh, ?Ha; try done; [by apply Hheld | intros; by apply Hheld |].
  rewrite Hr. intros j q1 c r [(-> & -> & _)|[_ Hj]]%lookup_insert_cases Hph; [by rewrite He in Hph | done].
Qed.

Lemma counted_final_cpu o i now e w w1 x : shape w -> counted o w -> supervised w w1 -> counted o (finish i now e (on_rt (fun c => set_cpu (last_cpu c) x c) w1)).
Proof.
  intros Hw Hc Hs. destruct (supervised_same _ _ Hs) as (? & ? & ? & ? & Hp & ? & ? & ?).
  eapply (counted_finish _ _ _ _ w); first [done | by destruct Hs | by rewrite Hp | exact (supervised_events _ _ Hs)].
Qed.

Lemma counted_abandon o i e w q : shape w -> counted o w -> reqs w !! i = Some q -> q_phase q = Encoding -> counted o (set_phase i (Ended e) (set_lock None w)).
Proof. intros Hw Hc Hq He. eapply (counted_end _ w _ Hw Hc); try done; [right; exists i, e; done | exact (encoding_idle w i q Hw Hq He)]. Qed.

Lemma counted_cancel o i now e v c w k h : shape w -> counted o w -> counted o (finish i now e (_kill v (reply_done k now c (unlock_send h w)))).
Proof.
  intros Hw Hc. assert (Hl : log w ++ (if killed (rt w) then [] else [Killed]) = log w \/ log w ++ (if killed (rt w) then [] else [Killed]) = log w ++ [Killed]) by apply kill_log.
  eapply (counted_finish _ _ _ _ w); try done; unfold reply_done; destruct (s_counts c), (s_console c); cbn; rewrite ?length_alter; done.
Qed.

Lemma counted_closers o l w : shape w -> counted o w -> shape (set_closers l w) /\ counted o (set_closers l w).
Proof. intros Hw Hc. split; [eapply (shape_side w); same || apply Hw | by eapply (counted_side _ w)]. Qed.

Lemma counted_exec o a w w' : shape w -> counted o w -> exec o a w = Some w' -> counted o w'.
Proof.
  intros Hw Hc H.
  destruct a; cbn [exec] in H; try (by eapply counted_task_step); cbn [request_step pump_step other_step] in H; unfold cancel_step, sync_ends, to_pumping, abandon_request in H.
  all: simplify_eq; repeat (case_match; simplify_eq).
  all: repeat match goal with E : phase_of _ _ = Some _ |- _ => apply phase_of_inv in E as (q & Hq & Hqp) end.
  all: to_finish.
  all: try solve [ends Hw Hc].
  all: try solve [eapply (counted_side _ _ _ Hw Hc); try done; cbn; rewrite ?total_app; cbn; intros; rewrite ?total_app; cbn; try done; lia].
  all: try solve [by apply counted_kill].
  all: try solve [eapply (counted_phase _ _ _ Hw Hc) with (q := q); try done; rewrite ?Hqp; try done; cbn; rewrite ?total_app; cbn; intros; rewrite ?total_app; cbn; try done; lia].
  all: try solve [by eapply counted_begin | by eapply counted_lock].
  all: try solve [eapply (counted_supervised _ w); [apply check_clock_supervised || apply apply_sample_supervised | done | done]].
  all: try solve [by eapply (counted_final _ _ _ _ w), apply_sample_supervised].
  all: try solve [eapply (counted_idle _ _ _ _ _ Hw Hc); [first [by apply upd_phase | apply upd_snoc] | done | | done..]; intros q' Hq'; simpl in Hq'; first [by rewrite lookup_ge_None_2 in Hq' | rewrite Hq in Hq'; simplify_eq; by rewrite Hqp]].
  all: try solve [by eapply counted_abandon | by apply counted_cancel | by eapply (counted_final_cpu _ _ _ _ w), apply_sample_supervised].
  all: try (pose proof (fun c r => ct_reply _ _ Hc _ _ c r Hq) as Hrep).
  all: try solve [eapply (counted_replied _ _ _ _ q _ _ Hw Hc Hq); try done; [by eauto | ..]; cbn; intros; rewrite ?total_app; cbn; rewrite ?Hqp; cbn; try (destruct (killed (rt w))); cbn;
    rewrite ?(Hrep _ _ Hqp); match goal with |- context [s_cid ?c =? ?d] => pose proof (b2Z_range (s_cid c =? d)) | _ => idtac end; lia].
  - assert (Hh : holds (q_phase q) = true) by by rewrite Hqp.
    assert (Hw1 : shape (set_phase i Pumping w)) by (eapply (shape_phase _ w w q); first [same | by rewrite Hqp | apply Hw]).
    assert (Hc1 : counted o (set_phase i Pumping w)) by (eapply (counted_phase _ _ _ Hw Hc) with (q := q); try done; rewrite ?Hqp; try done; cbn; intros; lia).
    eapply (counted_on_frame _ _ _ _ _ (Req Pumping (q_id q) (q_pump q)) Hw1 Hc1); [cbn; by rewrite list_lookup_alter_eq, Hq | done].
  - eapply (counted_phase _ _ _ Hw Hc) with (q := q); try done; rewrite ?Hqp; try done; cbn; rewrite ?total_app; cbn; intros; rewrite ?total_app; cbn; rewrite ?(Hrep _ _ Hqp); lia.
  - eapply (counted_side _ _ _ Hw Hc); try done; cbn; [by rewrite length_alter|]. intros k' Hk. by rewrite out_same.
  - edestruct (counted_closers o) as [H1 H2]; [exact Hw | exact Hc | by apply counted_kill].
  - edestruct (counted_closers o) as [H1 H2]; [exact Hw | exact Hc | by apply counted_kill].
  - eapply (counted_side _ _ _ Hw Hc); try done; cbn; by case_match.
Qed.

Lemma reachable_counted o w : reachable o w -> shape w /\ counted o w.
Proof.
  apply aio_reachable_inv; [|intros; by eapply counted_exec]. intros. split; cbn; try done; try lia; intros; lia.
Qed.
Lemma reachable_silent o w : reachable o w -> silent w.
Proof.
  apply (aio_reachable_inv o silent); [|intros; by eapply silent_exec]. intros. split; cbn; [set_solver|]. by intros [] ? ?.
Qed.
