(* ===== verification/AioRuntimeProps.v ===== *)
(** * The asynchronous runtime: its theorems *)

From S2P Require Import Prelude Utf8 PyVal PyStr Pump HostSide Isolated AioRuntime AioRuntimeInv AioCount.

(** ** Commands and answers *)

Definition sent (p : phase) : bool :=
  match p with Locking | Encoding | SendLock | Ended _ => false | _ => true end.

Definition kind_is (m : message) (t : string) : Prop := get_field m (u "t") = PStr (u t).

(** The frame that answers a command. *)
Definition answers (o : opts) (id : Z) (a : answer) (m : message) : Prop :=
  eq_int (get_field m (u "id")) id = true /\
  (kind_is m "result" /\ a = Result (get_field m (u "v")) \/
   kind_is m "error" /\ a = RemoteFailure (_remote_error (get_field m (u "kind")) (get_field m (u "msg")) (config_keys o))).

(** [w] shows the frame, read while the command ran. *)
Definition has_answer (o : opts) (id : Z) (a : answer) (g : list (Z * message)) : Prop := exists m, (id, m) ∈ g /\ answers o id a m.

Definition phase_ok (o : opts) (q : req) (g : list (Z * message)) : Prop :=
  match q_phase q with
  | Decoding m => (q_id q, m) ∈ g
  | Final a => has_answer o (q_id q) a g
  | Ended (Answered a) => q_id q <> 0 /\ has_answer o (q_id q) a g
  | _ => True
  end.

Record synced (o : opts) (w : world) : Prop := Synced {
  sy_phase : forall i q, reqs w !! i = Some q -> phase_ok o q (got w);
  sy_sent : forall id, killed (rt w) = false -> SentCommand id ∈ log w ->
    (exists i q, reqs w !! i = Some q /\ q_id q = id /\ sent (q_phase q) = true) \/ exists a, has_answer o id a (got w)
}.

Lemma has_answer_more o id a g g' : g ⊆ g' -> has_answer o id a g -> has_answer o id a g'.
Proof. intros Hg (m & Hm & Ha). exists m. set_solver. Qed.
Lemma phase_ok_more o q g g' : g ⊆ g' -> phase_ok o q g -> phase_ok o q g'.
Proof. intros Hg. unfold phase_ok. repeat case_match; try done; [set_solver | by apply has_answer_more | intros [? ?]; split; [done | by eapply has_answer_more]]. Qed.

Lemma synced_upd o w0 w i q' :
  synced o w0 -> upd (reqs w0) (reqs w) i q' -> got w0 ⊆ got w -> (killed (rt w) = false -> killed (rt w0) = false) ->
  (forall id, SentCommand id ∈ log w -> SentCommand id ∈ log w0 \/ sent (q_phase q') = true /\ q_id q' = id) ->
  phase_ok o q' (got w) ->
  (forall q, killed (rt w) = false -> reqs w0 !! i = Some q -> sent (q_phase q) = true ->
     sent (q_phase q') = true /\ q_id q' = q_id q \/ exists a, has_answer o (q_id q) a (got w)) ->
  synced o w.
Proof.
  intros [Hp Hs] Hu Hg Hk Hl Hq Hlost. pose proof Hu as [Hu1 Hu2]. split.
  - intros j q Hj. destruct (upd_inv _ _ _ _ _ _ Hu Hj) as [[-> ->]|[_ H]]; [done|]. eapply phase_ok_more; eauto.
  - intros id Hkw Hid. destruct (Hl id Hid) as [H0|[? ?]]; [|left; eauto].
    destruct (Hs id (Hk Hkw) H0) as [(j & q & Hj & Hid' & Hsq)|[a Ha]]; [|right; eauto using has_answer_more].
    destruct (decide (j = i)) as [->|Hn]; [|left; exists j, q; by rewrite Hu2].
    destruct (Hlost q Hkw Hj Hsq) as [[? ?]|[a Ha]]; [left; exists i, q'; naive_solver | right; exists a; by rewrite <- Hid'].
Qed.

Lemma synced_side o w0 w :
  synced o w0 -> reqs w = reqs w0 -> got w = got w0 -> (killed (rt w) = false -> killed (rt w0) = false) ->
  (forall id, SentCommand id ∈ log w -> SentCommand id ∈ log w0) -> synced o w.
Proof. intros [Hp Hs] Hr Hg Hk Hl. split; rewrite ?Hr, ?Hg; [done|]. intros id Hkw Hid. apply Hs; auto. Qed.

Lemma sent_app l l' id : SentCommand id ∈ l ++ l' <-> SentCommand id ∈ l \/ SentCommand id ∈ l'.
Proof. apply elem_of_app. Qed.
Definition plain (e : ended) : Prop := match e with Answered _ => False | _ => True end.
Lemma conclude_plain i now e w : plain e -> exists e', conclude i now e w = finish i now e' w /\ plain e'.
Proof. intros He. destruct (conclude_is i now e w) as (e' & -> & [->|[x ->]]); eauto. by eexists. Qed.
Ltac to_plain :=
  repeat match goal with |- context [conclude ?i ?n ?e ?w] => let e' := fresh "e" in destruct (conclude_plain i n e w ltac:(done)) as (e' & -> & ?) end.

Lemma plain_ok o e id k g : plain e -> phase_ok o (Req (Ended e) id k) g.
Proof. by destruct e. Qed.

(** A command of a killed worker ends without an answer. *)
Lemma synced_killed o w0 w i q now e :
  synced o w0 -> reqs w0 !! i = Some q -> plain e -> reqs w = reqs w0 -> got w = got w0 -> killed (rt w) = true ->
  (forall id, SentCommand id ∈ log w -> SentCommand id ∈ log w0) -> synced o (finish i now e w).
Proof.
  intros Hs Hq He Hr Hg Hk Hl. eapply (synced_upd _ _ _ i (Req (Ended e) (q_id q) (q_pump q)) Hs).
  - cbn. rewrite Hr. by apply upd_phase.
  - cbn. by rewrite Hg.
  - cbn. congruence.
  - intros id Hid. left. by apply Hl.
  - by apply plain_ok.
  - cbn. congruence.
Qed.

(** A sent command goes on. *)
Lemma synced_phase o w0 w i q p :
  synced o w0 -> reqs w0 !! i = Some q -> sent p = true -> phase_ok o (Req p (q_id q) (q_pump q)) (got w) -> reqs w = reqs w0 -> got w0 ⊆ got w ->
  (killed (rt w) = false -> killed (rt w0) = false) -> (forall id, SentCommand id ∈ log w -> SentCommand id ∈ log w0 \/ id = q_id q) -> synced o (set_phase i p w).
Proof.
  intros Hs Hq Hp Hok Hr Hg Hk Hl. eapply (synced_upd _ _ _ i (Req p (q_id q) (q_pump q)) Hs); try done.
  - cbn. rewrite Hr. by apply upd_phase.
  - intros id Hid. destruct (Hl id Hid); [by left | by right].
  - cbn. intros q' _ Hq' _. rewrite Hq in Hq'. simplify_eq. by left.
Qed.

Ltac no_new := intros ? Hin; simpl in Hin; rewrite ?sent_app, ?list_elem_of_singleton in Hin; repeat match type of Hin with context [if ?b then _ else _] => destruct b end; set_solver.

Lemma synced_on_frame o i now m w q :
  synced o w -> reqs w !! i = Some q -> sent (q_phase q) = true -> (q_id q, m) ∈ got w -> synced o (on_frame o i now m w).
Proof.
  intros Hs Hq Hsent Hm. unfold on_frame. assert (Hid : id_of i w = q_id q) by (unfold id_of; by rewrite Hq).
  assert (Hbad : forall msg, synced o (conclude i now (Crash msg) (_kill None w))).
  { intros msg. to_plain. eapply (synced_killed _ w); try done. no_new. }
  destruct (get_field m (u "t")) as [] eqn:Et; try apply Hbad.
  repeat case_match; simplify_eq; try apply Hbad.
  - unfold _on_call, start_call, count_call; repeat case_match; simplify_eq; to_plain; try apply Hbad.
    all: first [eapply (synced_killed _ _ _ _ _ _ _ Hs Hq); [done..|no_new] | eapply (synced_phase _ _ _ _ _ _ Hs Hq); [done..|no_new]].
  - apply (synced_phase _ _ _ _ _ _ Hs Hq); try done; [|no_new]. exists m. split; [done|].
    apply andb_true_iff in H0 as [_ He]. rewrite Hid in He. apply bool_decide_eq_true_1 in H1 as ->. split; [done|]. by left.
  - apply (synced_phase _ _ _ _ _ _ Hs Hq); try done; [|no_new]. exists m. split; [done|].
    apply andb_true_iff in H0 as [He' He]. rewrite Hid in He. apply bool_decide_eq_true_1 in He' as ->. split; [done|]. by right.
Qed.

(** A command that has not been sent. *)
Lemma synced_unsent o w0 w i q' :
  synced o w0 -> upd (reqs w0) (reqs w) i q' -> (forall q, reqs w0 !! i = Some q -> sent (q_phase q) = false) -> phase_ok o q' (got w) -> got w = got w0 ->
  (killed (rt w) = false -> killed (rt w0) = false) -> (forall id, SentCommand id ∈ log w -> SentCommand id ∈ log w0) -> synced o w.
Proof.
  intros Hs Hu Hn Hok Hg Hk Hl. eapply (synced_upd _ _ _ _ _ Hs Hu); try done; [by rewrite Hg | by auto |]. intros q _ Hq Hsq. by rewrite (Hn q Hq) in Hsq.
Qed.

Lemma supervised_log w w' : supervised w w' ->
  (killed (rt w') = false -> killed (rt w) = false) /\ (verdict (rt w') <> None -> alive_ok (rt w) -> killed (rt w') = true) /\ forall id, SentCommand id ∈ log w' -> SentCommand id ∈ log w.
Proof.
  intros []; cbn; (split_and!; [done| |]).
  all: try (by intros H1 [H2 _]; auto).
  all: no_new.
Qed.

Lemma verdict_killed w v : shape w -> verdict (rt w) = Some v -> killed (rt w) = true.
Proof. intros Hw Hv. apply (sh_alive _ Hw). congruence. Qed.

(** The last check of an answered command. *)
Lemma synced_answer o w i q now a w1 :
  shape w -> synced o w -> reqs w !! i = Some q -> q_phase q = Final a -> reqs w1 = reqs w -> got w1 = got w -> (killed (rt w1) = false -> killed (rt w) = false) ->
  (forall id, SentCommand id ∈ log w1 -> SentCommand id ∈ log w) -> synced o (conclude i now (Answered a) w1).
Proof.
  intros Hw Hs Hq Hf Hr Hg Hk Hl. assert (Hn0 : q_id q <> 0) by (apply (sh_hold _ Hw i); [done | by rewrite Hf]). assert (Ha : has_answer o (q_id q) a (got w1)).
  { rewrite Hg. pose proof (sy_phase _ _ Hs _ _ Hq) as H. unfold phase_ok in H. by rewrite Hf in H. }
  destruct (conclude_is i now (Answered a) w1) as (e & -> & He).
  eapply (synced_upd _ _ _ i (Req (Ended e) (q_id q) (q_pump q)) Hs).
  - cbn. rewrite Hr. by apply upd_phase.
  - cbn. by rewrite Hg.
  - done.
  - intros id Hid. left. by apply Hl.
  - by destruct He as [->|[x ->]].
  - intros q' _ Hq' _. rewrite Hq in Hq'. simplify_eq. right. by exists a.
Qed.

Lemma synced_exec o a w w' : shape w -> synced o w -> exec o a w = Some w' -> synced o w'.
Proof.
  intros Hw Hs H.
  destruct a; cbn [exec request_step pump_step task_step other_step] in H; unfold cancel_step, sync_ends, to_pumping, reply_done, abandon_request in H.
  all: simplify_eq; repeat (case_match; simplify_eq).
  all: repeat match goal with E : phase_of _ _ = Some _ |- _ => apply phase_of_inv in E as (q & Hq & Hqp) end.
  all: try match goal with E : verdict (rt _) = Some ?v, Hw' : shape ?w0 |- _ => pose proof (verdict_killed w0 v Hw' E) end.
  all: try to_plain.
  all: try solve [eapply (synced_side _ _ _ Hs); [done|done|done|no_new]].
  all: try solve [eapply (synced_killed _ _ _ _ _ _ _ Hs Hq); [done..|no_new]].
  all: try solve [eapply (synced_phase _ _ _ _ _ _ Hs Hq); [done..|no_new]].
  all: try solve [eapply (synced_unsent _ _ _ _ _ Hs); [first [by apply upd_phase | by eapply upd_insert | apply upd_snoc] | | done..]; intros q' Hq'; simpl in Hq'; first [by rewrite lookup_ge_None_2 in Hq' | rewrite Hq in Hq'; simplify_eq; by rewrite Hqp]].
  all: try (assert (Hid : id_of i w = q_id q) by (unfold id_of; by rewrite Hq)).
  - rewrite Hid. eapply (synced_phase _ _ _ _ _ _ Hs Hq); [done..|no_new].
  - rewrite Hid. eapply (synced_phase _ _ _ _ _ _ Hs Hq); [done..|no_new].
  - rewrite Hid. eapply (synced_phase _ _ _ _ _ _ Hs Hq); try done; [unfold phase_ok; cbn; set_solver | cbn; set_solver | no_new].
  - assert (Hp : synced o (set_phase i Pumping w)) by (eapply (synced_phase _ _ _ _ _ _ Hs Hq); [done..|no_new]).
    eapply (synced_on_frame _ _ _ _ _ (Req Pumping (q_id q) (q_pump q)) Hp); [cbn; by rewrite list_lookup_alter_eq, Hq | done |].
    pose proof (sy_phase _ _ Hs _ _ Hq) as Hm. unfold phase_ok in Hm. by rewrite Hqp in Hm.
  - pose proof (apply_sample_supervised o now s (-1) w) as Hv. destruct (supervised_same _ _ Hv) as (? & ? & ? & ? & ? & ? & ? & ?).
    destruct (supervised_log _ _ Hv) as (? & Hd & ?). eapply (synced_killed _ _ _ _ _ _ _ Hs Hq); try done. apply Hd; [congruence | apply Hw].
  - pose proof (apply_sample_supervised o now (Some s0) (-1) w) as Hv. destruct (supervised_same _ _ Hv) as (? & ? & ? & ? & ? & ? & ? & ?).
    destruct (supervised_log _ _ Hv) as (? & _ & ?). by eapply (synced_answer _ w).
  - by eapply (synced_answer _ w).
  - pose proof (check_clock_supervised now w) as Hv. destruct (supervised_same _ _ Hv) as (? & ? & ? & ? & ? & ? & ? & ?).
    destruct (supervised_log _ _ Hv) as (? & _ & ?). by eapply (synced_side _ _ _ Hs).
  - pose proof (apply_sample_supervised o now s g w) as Hv. destruct (supervised_same _ _ Hv) as (? & ? & ? & ? & ? & ? & ? & ?).
    destruct (supervised_log _ _ Hv) as (? & _ & ?). by eapply (synced_side _ _ _ Hs).
  - eapply (synced_side _ _ _ Hs); try done. cbn. by case_match.
Qed.

Lemma reachable_synced o w : reachable o w -> shape w /\ synced o w.
Proof. apply aio_reachable_inv; [|intros; by eapply synced_exec]. intros. split; [done|]. cbn. set_solver. Qed.

Fixpoint run (o : opts) (l : list action) (w : world) : option world :=
  match l with [] => Some w | a :: l => w' ← exec o a w; run o l w' end.

Lemma aio_run_reachable o now cpu l w : run o l (init now cpu) = Some w -> reachable o w.
Proof.
  intros H. exists now, cpu. revert H. generalize (init now cpu). induction l as [|a l IH]; intros w0 H; [by simplify_eq/=; constructor|].
  cbn in H. destruct (exec o a w0) as [w1|] eqn:E; [|done]. cbn in H. eapply rtc_l; [by exists a | by apply IH].
Qed.

(** ** A session *)

Definition demo_opts : opts := Opts (Some 3) (Some 2) None None (Some 0) (Redaction true None) [] (Some 60000) None 2000.
Definition call_frame (cid hid : Z) : message := [(u "t", PStr (u "call")); (u "cid", PInt cid); (u "hid", PInt hid); (u "args", PList [])].
Definition result_frame (id v : Z) : message := [(u "t", PStr (u "result")); (u "id", PInt id); (u "v", PInt v)].

(** A command that calls an asynchronous function and then a synchronous one, is answered while
    the first still runs; a second command, cancelled after it was sent. *)
Definition demo : list action :=
  [HNew 1 (Handler ToolFn true false) true; HNew 2 (Handler ToolFn false false) true;
   QCall true; QCall true; QLock 0; QEncoded 0 true 0 (Some 100); QSend 0 true false 0;
   QFrame 0 (call_frame 7 1); QDecoded 0 true 1; QFrame 0 (call_frame 8 2); QDecoded 0 true 2; QSync 0 (SyncReply (ReplyValue 8 (PInt 5))) 3; QReply 0 true true 3;
   QReplyDrained 0 false 4; QFrame 0 (result_frame 1 42); QDecoded 0 true 5; QFinal 0 None 6;
   TEnds 0 (ReplyValue 7 PNone); QLock 1; QEncoded 1 true 7 None; QSend 1 true false 8; TSend 0; QCancel 1 9; TEncoded 0 None true false 10].

Definition demo_world : world := default (init 0 None) (run demo_opts demo (init 0 None)).
Lemma aio_demo_reachable : reachable demo_opts demo_world.
Proof. eapply (aio_run_reachable _ 0 None demo). vm_compute. reflexivity. Qed.

(** C19. One command of an asynchronous runtime runs at a time, and the runtime and its worker
    never get out of step: as long as the worker has not been killed, every command sent to it is
    the running one or was answered by a frame with its own id, read while it ran.  So the answer a
    command returns is the one its own frame carries, and no other command has that id. *)
Theorem aio_commands_in_sync o w :
  reachable o w ->
  (forall i j q q', reqs w !! i = Some q -> reqs w !! j = Some q' -> holds (q_phase q) = true -> holds (q_phase q') = true -> i = j) /\
  (killed (rt w) = false -> forall id, SentCommand id ∈ log w ->
     (exists i q, lock w = Some i /\ reqs w !! i = Some q /\ q_id q = id) \/ exists a, has_answer o id a (got w)) /\
  (forall i q a, reqs w !! i = Some q -> q_phase q = Ended (Answered a) ->
     has_answer o (q_id q) a (got w) /\ forall j q', reqs w !! j = Some q' -> q_id q' = q_id q -> j = i).
Proof.
  intros [Hw Hs]%reachable_synced. split_and!.
  - intros i j q q' Hi Hj H1 H2. destruct (sh_hold _ Hw _ _ Hi H1) as [E1 _]. destruct (sh_hold _ Hw _ _ Hj H2) as [E2 _]. congruence.
  - intros Hk id Hid. destruct (sy_sent _ _ Hs id Hk Hid) as [(i & q & Hq & <- & Hsent)|[a Ha]]; [left | right; by exists a].
    exists i, q. split_and!; try done. apply (sh_hold _ Hw i q Hq). by destruct (q_phase q).
  - intros i q a Hq Hph. pose proof (sy_phase _ _ Hs _ _ Hq) as Hok. unfold phase_ok in Hok. rewrite Hph in Hok. destruct Hok as [Hn Ha].
    split; [done|]. intros j q' Hj E. by apply (sh_uniq _ Hw j i q' q); rewrite ?E.
Qed.

Lemma aio_commands_in_sync_witness :
  (exists q, reqs demo_world !! 0%nat = Some q /\ has_answer demo_opts (q_id q) (Result (PInt 42)) (got demo_world)) /\ killed (rt demo_world) = true.
Proof.
  assert (E : reqs demo_world !! 0%nat = Some (Req (Ended (Answered (Result (PInt 42)))) 1 0)) by (vm_compute; reflexivity).
  split; [|vm_compute; reflexivity]. eexists. split; [exact E|].
  apply (aio_commands_in_sync demo_opts demo_world aio_demo_reachable) with (i := 0%nat); [exact E | reflexivity].
Defined.

(** ** Host calls *)

(** An asynchronous runtime's accounting of host calls is exact: the in-flight counter is the
    number of unfinished tasks of asynchronous functions; the calls outstanding on the running
    command's clock are its own tasks and the synchronous function it waits for, so its deadline
    stands still exactly while it waits for the host; and neither [max_inflight] nor
    [max_host_calls] is ever exceeded, in whatever order the turns come. *)
Theorem aio_calls_bounded o w :
  reachable o w ->
  async_inflight (rt w) = total active (tasks w) /\
  (forall k p, cmd (rt w) = Some k -> pumps w !! k = Some p -> _outstanding p = total (active_on k) (tasks w) + held waits w) /\
  (forall m, _max_inflight o = Some m -> total active (tasks w) + held waits w <= Z.max 0 m) /\
  (forall m, _max_host_calls o = Some m -> total invokes (log w) <= Z.max 0 m).
Proof.
  intros [_ Hc]%reachable_counted. split_and!; try apply Hc. intros k p Hk Hp. rewrite <- (ct_cmd _ _ Hc k Hk). unfold out. by rewrite Hp.
Qed.

Lemma aio_calls_bounded_witness :
  let w := default (init 0 None) (run demo_opts (take 11 demo) (init 0 None)) in total active (tasks w) = 1 /\ held waits w = 1 /\ total active (tasks w) + held waits w <= 2.
Proof.
  assert (Hr : reachable demo_opts (default (init 0 None) (run demo_opts (take 11 demo) (init 0 None)))).
  { eapply (aio_run_reachable _ 0 None (take 11 demo)). vm_compute. reflexivity. }
  cbv zeta. split_and!; [vm_compute; reflexivity | vm_compute; reflexivity |].
  exact (proj1 (proj2 (proj2 (aio_calls_bounded _ _ Hr))) 2 eq_refl).
Defined.

(** C29. The worker gets at most one reply for each call of a host function it makes, also when
    the function's task is cancelled, the function is abandoned past its time limit, the reply
    cannot be encoded or the command ends first; and once the worker is killed, which happens once,
    nothing is written to it: no command, no reply, no close. *)
Theorem aio_replies_matched o w :
  reachable o w ->
  (forall cid, total (replies_to cid) (log w) <= total (accepts cid) (log w)) /\
  (forall l1 l2, log w = l1 ++ Killed :: l2 -> forall e, e ∈ l2 -> sends e = false /\ e <> Killed).
Proof.
  intros Hr. destruct (reachable_counted _ _ Hr) as [_ Hc]. destruct (reachable_silent _ _ Hr) as [_ Hs]. split.
  - intros cid. pose proof (ct_replies _ _ Hc cid) as H. pose proof (held_nonneg (due cid) w (due_nonneg cid)).
    pose proof (total_nonneg (task_due cid) (tasks w) (task_due_nonneg cid)). lia.
  - intros l1 l2 E e He. specialize (Hs l1 l2 E). rewrite Forall_forall in Hs. specialize (Hs e He). unfold after_kill in Hs.
    apply andb_true_iff in Hs as [H1 H2]. split; [by apply negb_true_iff | by intros ->].
Qed.

Lemma aio_replies_matched_witness :
  total (replies_to 8) (log demo_world) = 1 /\ total (replies_to 7) (log demo_world) = 0 /\ total (replies_to 7) (log demo_world) <= total (accepts 7) (log demo_world).
Proof.
  split_and!; [vm_compute; reflexivity | vm_compute; reflexivity |]. exact (proj1 (aio_replies_matched _ _ aio_demo_reachable) 7).
Defined.
