(* ===== verification/AioSupervisor.v ===== *)
(** * The supervisor of an event loop ([python/pydeno/_aio.py], [_Supervisor], [_Writer])

    [_Supervisor.sample] batches the readings of the workers' usage: one batch is on the metrics
    thread at a time, the rest waits.  [_tick] checks every live runtime's clocks and applies the
    readings.  [_Writer] is the flow control of a worker's input.  Whether the metrics pool still
    accepts a job, what it reads and which futures are cancelled are inputs. *)

From S2P Require Import Prelude Utf8 PyVal PyStr Pump HostSide Isolated AioRuntime AioRuntimeInv.

Definition _SAMPLE_CHUNK : nat := 64.
Definition _IDLE_CHECK_SECONDS : Z := 250.

(** ** Sampling *)

Inductive fstate := FResult (s : option sample) | FCancelled.

(** [asked]: the pid of each future; [reads]: what the metrics thread has read. *)
Record sampler := Sampler {
  _pending : list (Z * nat); _sampling : option (list (Z * nat)); futs : gmap nat fstate; asked : list Z; reads : list (Z * sample)
}.

Definition set_result (s : option sample) (f : nat) (m : gmap nat fstate) : gmap nat fstate :=
  match m !! f with Some _ => m | None => <[f := FResult s]> m end.

Definition settle (batch : list (Z * nat)) (results : list (option sample)) (m : gmap nat fstate) : gmap nat fstate :=
  foldl (fun m '((_, f), r) => set_result r f m) m (zip batch results).

(** [_kick]; [pool]: the metrics pool accepts the job. *)
Definition _kick (pool : bool) (st : sampler) : sampler :=
  match st.(_sampling), st.(_pending) with
  | Some _, _ | None, [] => st
  | None, p =>
      let batch := take _SAMPLE_CHUNK p in
      let rest := drop _SAMPLE_CHUNK p in
      if pool then Sampler rest (Some batch) st.(futs) st.(asked) st.(reads)
      else Sampler rest None (settle batch (replicate (length batch) None) st.(futs)) st.(asked) st.(reads)
  end.

Definition sample_pid (pid : Z) (pool : bool) (st : sampler) : sampler :=
  _kick pool (Sampler (st.(_pending) ++ [(pid, length st.(asked))]) st.(_sampling) st.(futs) (st.(asked) ++ [pid]) st.(reads)).

(** [_finish]; [usage]: what [_sandbox.usage] reads, [None] when the job failed. *)
Definition _finish (usage : option (Z -> sample)) (pool : bool) (st : sampler) : option sampler :=
  match st.(_sampling) with
  | None => None
  | Some batch =>
      let results := match usage with Some g => (fun x => Some (g x.1)) <$> batch | None => replicate (length batch) None end in
      let seen := match usage with Some g => (fun x => (x.1, g x.1)) <$> batch | None => [] end in
      Some (_kick pool (Sampler st.(_pending) None (settle batch results st.(futs)) st.(asked) (st.(reads) ++ seen)))
  end.

Inductive sampling_action := Ask (pid : Z) (pool : bool) | Finish (usage : option (Z -> sample)) (pool : bool) | CancelFuture (f : nat).

Definition sampling_exec (a : sampling_action) (st : sampler) : option sampler :=
  match a with
  | Ask pid pool => Some (sample_pid pid pool st)
  | Finish usage pool => _finish usage pool st
  | CancelFuture f =>
      match st.(futs) !! f with
      | None => if (f <? length st.(asked))%nat then Some (Sampler st.(_pending) st.(_sampling) (<[f := FCancelled]> st.(futs)) st.(asked) st.(reads)) else None
      | Some _ => None
      end
  end.

Fixpoint sampling_run (l : list sampling_action) (st : sampler) : option sampler :=
  match l with [] => Some st | a :: l => st' ← sampling_exec a st; sampling_run l st' end.

Definition sampler_init : sampler := Sampler [] None ∅ [] [].

(** *** Every request is somewhere *)

Definition waiting (st : sampler) : list (Z * nat) := default [] st.(_sampling) ++ st.(_pending).

Record sampler_ok (st : sampler) : Prop := SamplerOk {
  so_waiting : forall pid f, (pid, f) ∈ waiting st -> asked st !! f = Some pid;
  so_settled : forall f pid, asked st !! f = Some pid -> (pid, f) ∈ waiting st \/ is_Some (futs st !! f);
  so_own : forall f s, futs st !! f = Some (FResult (Some s)) -> exists pid, asked st !! f = Some pid /\ (pid, s) ∈ reads st;
  so_batch : _sampling st <> Some []
}.

Lemma set_result_some s f m f' : is_Some (m !! f') -> is_Some (set_result s f m !! f').
Proof. unfold set_result. destruct (m !! f) eqn:E; [done|]. destruct (decide (f = f')) as [->|]; [by rewrite lookup_insert_eq | by rewrite lookup_insert_ne]. Qed.
Lemma set_result_own s f m : is_Some (set_result s f m !! f).
Proof. unfold set_result. destruct (m !! f) eqn:E; [by rewrite E | by rewrite lookup_insert_eq]. Qed.
Lemma set_result_inv s f m f' x : set_result s f m !! f' = Some x -> m !! f' = Some x \/ f' = f /\ x = FResult s.
Proof. unfold set_result. destruct (m !! f) eqn:E; [by left|]. intros [[-> <-]|[_ H]]%lookup_insert_Some; [by right | by left]. Qed.

Lemma settle_some batch rs m f : is_Some (m !! f) -> is_Some (settle batch rs m !! f).
Proof.
  unfold settle. revert m. generalize (zip batch rs). intros l. induction l as [|[[p f'] r] l IH]; intros m H; [done|]. cbn. apply IH. by apply set_result_some.
Qed.
Lemma settle_all batch rs m pid f : length rs = length batch -> (pid, f) ∈ batch -> is_Some (settle batch rs m !! f).
Proof.
  revert rs m. induction batch as [|[p f'] batch IH]; intros [|r rs] m Hl Hin; try done; [by apply elem_of_nil in Hin|]. simplify_eq/=.
  unfold settle. cbn. fold (settle batch rs (set_result r f' m)). apply elem_of_cons in Hin as [[= -> ->]|Hin]; [apply settle_some, set_result_own | by apply IH].
Qed.
Lemma settle_inv batch rs m f x : settle batch rs m !! f = Some x -> m !! f = Some x \/ exists pid r, ((pid, f), r) ∈ zip batch rs /\ x = FResult r.
Proof.
  unfold settle. revert m. generalize (zip batch rs). intros l. induction l as [|[[p f'] r] l IH]; intros m H; [by left|]. cbn in H.
  destruct (IH _ H) as [H'|(pid & r' & Hin & ->)]; [|right; exists pid, r'; set_solver].
  apply set_result_inv in H' as [H'|[-> ->]]; [by left | right; exists p, r; set_solver].
Qed.

Lemma kick_ok pool st : sampler_ok st -> sampler_ok (_kick pool st).
Proof.
  intros Hok. unfold _kick. destruct (_sampling st) as [b|] eqn:Es; [done|]. destruct (_pending st) as [|x p] eqn:Ep; [done|]. rewrite <- Ep in *. destruct Hok as [Hw Hs Ho Hb].
  assert (Ew : waiting st = take _SAMPLE_CHUNK (_pending st) ++ drop _SAMPLE_CHUNK (_pending st)) by (unfold waiting; by rewrite Es, take_drop).
  assert (Hne : take _SAMPLE_CHUNK (_pending st) <> []) by by rewrite Ep.
  destruct pool; (split; cbn -[take drop]).
  - intros pid f H. apply Hw. by rewrite Ew.
  - intros f pid H. destruct (Hs f pid H) as [H'|?]; [left; by rewrite Ew in H' | by right].
  - done.
  - congruence.
  - intros pid f H. apply Hw. rewrite Ew. apply elem_of_app. by right.
  - intros f pid H. destruct (Hs f pid H) as [H'|?]; [|right; by apply settle_some]. rewrite Ew in H'. apply elem_of_app in H' as [H'|H']; [|by left].
    right. eapply settle_all; [by rewrite length_replicate | done].
  - intros f s H. apply settle_inv in H as [H|(pid & r & Hin & [= <-])]; [eauto|]. apply elem_of_zip_r in Hin. by apply elem_of_replicate in Hin as [? _].
  - done.
Qed.

Lemma finish_settled usage batch (m : gmap nat fstate) :
  let results := match usage with Some g => (fun x => Some (g x.1)) <$> batch | None => replicate (length batch) None end in
  let seen := match usage with Some g => (fun x => (x.1, g x.1)) <$> batch | None => [] end in
  length results = length batch /\ forall f s, settle batch results m !! f = Some (FResult (Some s)) -> m !! f = Some (FResult (Some s)) \/ exists pid, (pid, f) ∈ batch /\ (pid, s) ∈ seen.
Proof.
  cbv zeta. split; [destruct usage; by rewrite ?length_fmap, ?length_replicate|]. intros f s [H|(pid & r & Hin & [= <-])]%settle_inv; [by left | right]. exists pid.
  pose proof (elem_of_zip_l _ _ _ _ Hin) as Hb. split; [done|]. destruct usage as [g|]; [|apply elem_of_zip_r, elem_of_replicate in Hin as [? _]; done].
  apply list_elem_of_lookup in Hin as [k Hk]. apply lookup_zip_with_Some in Hk as (x & y & [= <- <-] & Hx & Hy).
  rewrite list_lookup_fmap, Hx in Hy. simplify_eq/=. apply list_elem_of_fmap. exists (pid, f). split; [done | by eapply list_elem_of_lookup_2].
Qed.

Lemma sampling_exec_ok a st st' : sampler_ok st -> sampling_exec a st = Some st' -> sampler_ok st'.
Proof.
  intros Hok H. destruct a as [pid pool|usage pool|f]; cbn in H.
  - simplify_eq. apply kick_ok. destruct Hok as [Hw Hs Ho Hb]. split; cbn; try done.
    + intros p f [H|H%elem_of_app]%elem_of_app; [apply lookup_app_l_Some, Hw; unfold waiting; set_solver|]. destruct H as [H|H%list_elem_of_singleton].
      * apply lookup_app_l_Some, Hw. unfold waiting. set_solver.
      * simplify_eq. by rewrite lookup_app_r, Nat.sub_diag by done.
    + intros f p [H|[Hl H]]%lookup_app_Some; [destruct (Hs _ _ H) as [?|?]; [left; unfold waiting in *; cbn; set_solver | by right]|].
      apply list_lookup_singleton_Some in H as [Hf <-]. left. unfold waiting. cbn. replace f with (length (asked st)) by lia. set_solver.
    + intros f s H. destruct (Ho _ _ H) as (p & Hp & ?). exists p. split; [by apply lookup_app_l_Some | done].
  - unfold _finish in H. destruct (_sampling st) as [batch|] eqn:Es; simplify_eq. apply kick_ok. destruct Hok as [Hw Hs Ho Hb].
    assert (Ew : waiting st = batch ++ _pending st) by (unfold waiting; by rewrite Es). destruct (finish_settled usage batch (futs st)) as [Hlen Hown]. split; cbn; try done.
    + intros p f H. apply Hw. rewrite Ew. set_solver.
    + intros f p H. destruct (Hs _ _ H) as [H'|?]; [|right; by apply settle_some]. rewrite Ew in H'. apply elem_of_app in H' as [H'|H']; [right; by eapply settle_all | by left].
    + intros f s H. destruct (Hown f s H) as [H'|(p & Hp & Hseen)].
      * destruct (Ho _ _ H') as (p & ? & ?). exists p. set_solver.
      * exists p. split; [apply Hw; rewrite Ew; set_solver | set_solver].
  - destruct (futs st !! f) eqn:Ef; [done|]. case_match; simplify_eq. destruct Hok as [Hw Hs Ho Hb]. split; cbn; try done.
    + intros f' p H'. destruct (Hs _ _ H') as [?|?]; [by left | right]. destruct (decide (f = f')) as [->|]; [by rewrite lookup_insert_eq | by rewrite lookup_insert_ne].
    + intros f' s [[-> ?]|[_ ?]]%lookup_insert_Some; [done | eauto].
Qed.

Lemma sampling_run_ok l st st' : sampler_ok st -> sampling_run l st = Some st' -> sampler_ok st'.
Proof.
  revert st. induction l as [|a l IH]; intros st Hok H; [by simplify_eq/=|]. cbn in H. destruct (sampling_exec a st) as [st1|] eqn:E; [|done]. cbn in H.
  eapply IH; [|done]. by eapply sampling_exec_ok.
Qed.
Lemma sampler_init_ok : sampler_ok sampler_init.
Proof. split; cbn; try done; intros; set_solver. Qed.

(** *** With the pool at work, no request is stranded *)

Definition pool_works (a : sampling_action) : Prop := match a with Ask _ b | Finish _ b => b = true | CancelFuture _ => True end.
Definition busy (st : sampler) : Prop := _pending st <> [] -> _sampling st <> None.

Lemma kick_busy st : busy (_kick true st).
Proof. unfold busy, _kick. destruct (_sampling st) eqn:Es; [congruence|]. destruct (_pending st) eqn:Ep; cbn; congruence. Qed.

Lemma sampling_run_busy l st st' : Forall pool_works l -> busy st -> sampling_run l st = Some st' -> busy st'.
Proof.
  intros Hl. revert st. induction Hl as [|a l Ha _ IH]; intros st Hb H; [by simplify_eq/=|]. cbn in H. destruct (sampling_exec a st) as [st1|] eqn:E; [|done]. cbn in H.
  eapply IH; [|done]. destruct a as [pid pool|usage pool|f]; cbn in E, Ha; subst.
  - simplify_eq. apply kick_busy.
  - unfold _finish in E. destruct (_sampling st); simplify_eq. apply kick_busy.
  - repeat case_match; simplify_eq. exact Hb.
Qed.

(** Each finished batch starts the next. *)
Lemma batches_drain usage n : forall st, (length (_pending st) <= 64 * n)%nat -> busy st ->
  exists k st', (k <= S n)%nat /\ sampling_run (replicate k (Finish usage true)) st = Some st' /\ waiting st' = [] /\ asked st' = asked st.
Proof.
  induction n as [|n IH]; intros st Hl Hb.
  - assert (Ep : _pending st = []) by (apply nil_length_inv; lia). destruct (_sampling st) as [b|] eqn:Es.
    + eexists 1%nat, _. split; [lia|]. cbn. unfold _finish. rewrite Es. cbn. split; [reflexivity|]. unfold _kick. cbn. rewrite Ep. done.
    + exists 0%nat, st. split; [lia|]. split; [done|]. unfold waiting. by rewrite Es, Ep.
  - destruct (_sampling st) as [b|] eqn:Es.
    + destruct (_finish usage true st) as [st1|] eqn:Ef; [|unfold _finish in Ef; by rewrite Es in Ef].
      assert (H1 : busy st1 /\ (length (_pending st1) <= 64 * n)%nat /\ asked st1 = asked st).
      { unfold _finish in Ef. rewrite Es in Ef. injection Ef as <-. split; [apply kick_busy|]. unfold _kick. cbn -[take drop Nat.mul].
        destruct (_pending st) eqn:Ep; cbn -[take drop Nat.mul]; [ split; [lia|done]|]. rewrite length_drop. split; [|done]. unfold _SAMPLE_CHUNK. lia. }
      destruct H1 as (Hb1 & Hl1 & Ha1). destruct (IH st1 Hl1 Hb1) as (k & st' & Hk & Hr & Hw & Ha). exists (S k), st'. split_and!; try lia; try congruence.
      cbn. by rewrite Ef.
    + assert (Ep : _pending st = []) by (unfold busy in Hb; destruct (_pending st); [done|]; by destruct Hb).
      exists 0%nat, st. split_and!; try done; [lia|]. unfold waiting. by rewrite Es, Ep.
Qed.

(** ** Flow control of a worker's input *)

(** [_Writer]: the futures of the drains that wait, and the ones that are done. *)
Record _Writer := Writer { paused : bool; _waiters : list nat; w_done : gset nat; w_next : nat }.

Definition _release (x : _Writer) : _Writer := Writer x.(paused) [] (list_to_set x.(_waiters) ∪ x.(w_done)) x.(w_next).
Definition pause_writing (x : _Writer) : _Writer := Writer true x.(_waiters) x.(w_done) x.(w_next).
Definition resume_writing (x : _Writer) : _Writer := _release (Writer false x.(_waiters) x.(w_done) x.(w_next)).
Definition connection_lost (x : _Writer) : _Writer := _release (Writer false x.(_waiters) x.(w_done) x.(w_next)).
(** [drain] returns at once, or waits: the future it waits for. *)
Definition drain (x : _Writer) : _Writer * option nat :=
  if x.(paused) then (Writer true (x.(_waiters) ++ [x.(w_next)]) x.(w_done) (S x.(w_next)), Some x.(w_next)) else (x, None).
(** Its [finally], once the future is done or cancelled. *)
Definition drain_ends (f : nat) (x : _Writer) : _Writer := Writer x.(paused) (List.filter (fun g => negb (g =? f)%nat) x.(_waiters)) ({[f]} ∪ x.(w_done)) x.(w_next).

Inductive writer_action := PauseWriting | ResumeWriting | ConnectionLost | Drain | DrainEnds (f : nat).
Definition writer_exec (a : writer_action) (x : _Writer) : _Writer :=
  match a with
  | PauseWriting => pause_writing x | ResumeWriting => resume_writing x | ConnectionLost => connection_lost x
  | Drain => (drain x).1 | DrainEnds f => drain_ends f x
  end.

(** A drain that waits is woken: it waits for a transport that is paused, or its future is done. *)
Lemma drains_woken l f : let x := foldl (fun x a => writer_exec a x) (Writer false [] ∅ 0) l in
  (f < w_next x)%nat -> f ∈ w_done x \/ f ∈ _waiters x /\ paused x = true.
Proof.
  cbv zeta. set (x0 := Writer false [] ∅ 0). assert (H0 : forall f, (f < w_next x0)%nat -> f ∈ w_done x0 \/ f ∈ _waiters x0 /\ paused x0 = true) by (intros ? H; cbn in H; lia).
  revert f. generalize dependent x0. induction l as [|a l IH]; intros x0 H0; [exact H0|]. cbn. apply IH. clear IH. intros f Hf.
  destruct a as [| | | |g]; cbn in Hf |- *; try (destruct (H0 f Hf) as [?|[? ?]]; [left; set_solver | set_solver]).
  - unfold drain in *. destruct (paused x0) eqn:Ep; cbn in *; [|destruct (H0 f Hf) as [?|[? ?]]; [by left | by right]].
    destruct (decide (f = w_next x0)) as [->|Hn]; [right; set_solver|]. destruct (H0 f ltac:(lia)) as [?|[? ?]]; [by left | right; set_solver].
  - destruct (H0 f Hf) as [?|[Hin ?]]; [left; set_solver|]. destruct (decide (f = g)) as [->|Hn]; [left; set_solver | right].
    split; [|done]. apply list_elem_of_In, List.filter_In. split; [by apply list_elem_of_In | by apply negb_true_iff, Nat.eqb_neq].
Qed.

(** ** One pass of the supervisor *)

(** A runtime under supervision, with the time of its last idle sample. *)
Record watched := Watched { wo : opts; ww : world; _last_idle_sample : Z }.

(** The pass up to its samples: the clocks, and which runtimes are due, with their period. *)
Definition check_one (now : Z) (r : watched) : watched * option Z :=
  let w := _check_clock now r.(ww) in
  if w.(rt).(closed) then (Watched r.(wo) w r.(_last_idle_sample), None)
  else
    match w.(rt).(cmd) with
    | Some _ => (Watched r.(wo) w r.(_last_idle_sample), Some w.(rt).(gen))
    | None =>
        if _IDLE_CHECK_SECONDS <=? now - r.(_last_idle_sample) then (Watched r.(wo) w now, Some w.(rt).(gen))
        else (Watched r.(wo) w r.(_last_idle_sample), None)
    end.

(** [_tick]: the runtimes that are closed are not looked at. *)
Definition _tick (now : Z) (rs : list watched) : list (watched * option Z) :=
  (fun r => if r.(ww).(rt).(closed) then (r, None) else check_one now r) <$> rs.

(** The samples of the runtimes that were due, applied to what the runtimes are by then. *)
Definition apply_samples (now : Z) (due : list (watched * Z)) (samples : list (option sample)) : list watched :=
  (fun '((r, g), s) => Watched r.(wo) (_apply_sample r.(wo) now s g r.(ww)) r.(_last_idle_sample)) <$> zip due samples.

(** *** Periods: [gen] tells one command, and the idle time between two, from another *)

Definition later (w w' : world) : Prop := gen (rt w) <= gen (rt w') /\ (gen (rt w') = gen (rt w) -> cmd (rt w') = cmd (rt w)).

Lemma later_same w w' : gen (rt w') = gen (rt w) -> cmd (rt w') = cmd (rt w) -> later w w'.
Proof. intros H1 H2. split; [lia | done]. Qed.
Lemma later_next w w' : gen (rt w') = gen (rt w) + 1 -> later w w'.
Proof. intros H. split; lia. Qed.
Lemma meter_later_trans w1 w2 w3 : later w1 w2 -> later w2 w3 -> later w1 w3.
Proof. intros [H1 H2] [H3 H4]. split; [lia|]. intros E. rewrite H4, H2; lia || done. Qed.

Lemma later_supervised w w' : supervised w w' -> later w w'.
Proof. by intros []; apply later_same. Qed.
Lemma later_on_frame o i now m w : later w (on_frame o i now m w).
Proof. unfold on_frame, _on_call, start_call, count_call. repeat case_match; simplify_eq; to_finish; first [by apply later_same | by apply later_next]. Qed.

Lemma later_exec o a w w' : exec o a w = Some w' -> later w w'.
Proof.
  intros H. destruct a; cbn [exec request_step pump_step task_step other_step] in H; unfold cancel_step, sync_ends, to_pumping, reply_done, abandon_request in H.
  all: simplify_eq; repeat (case_match; simplify_eq); to_finish.
  all: try solve [by apply later_same | by apply later_next | apply later_supervised, check_clock_supervised | apply later_supervised, apply_sample_supervised].
  all: try solve [eapply meter_later_trans; [eapply later_supervised, apply_sample_supervised | by apply later_next]].
  - eapply meter_later_trans; [|apply later_on_frame]. by apply later_same.
  - apply later_same; cbn; by case_match.
Qed.

Lemma later_steps o w w' : rtc (step o) w w' -> later w w'.
Proof. induction 1 as [w|w1 w2 w3 [a Ha] _ IH]; [by apply later_same|]. eapply meter_later_trans; [by eapply later_exec | done]. Qed.

Definition overdue (now : Z) (w : world) : Prop := exists p, the_pump w = Some p /\ (expired now p = true \/ waited_too_long now p = true).

Lemma check_clock_exact now w : closed (rt w) = false -> verdict (rt w) = None -> 
  (overdue now w /\ exists v, _check_clock now w = _kill (Some v) w /\ is_timeout v = true) \/ (~ overdue now w /\ _check_clock now w = w).
Proof.
  intros Hcl Hv. unfold _check_clock, overdue. destruct (the_pump w) as [p|]; [|right; split; [by intros (p & ? & ?) | done]]. rewrite Hcl.
  destruct (expired now p) eqn:E1; [left; split; [by eauto | by eexists]|]. destruct (waited_too_long now p) eqn:E2; [left; split; [by eauto | by eexists]|].
  right. split; [|done]. intros (p' & [= <-] & [?|?]); congruence.
Qed.

Lemma check_one_exact now o w li r due :
  closed (rt w) = false -> killed (rt w) = false -> verdict (rt w) = None -> check_one now (Watched o w li) = (r, due) ->
  (killed (rt (ww r)) = true <-> overdue now w) /\
  (overdue now w -> due = None /\ exists v, verdict (rt (ww r)) = Some v /\ is_timeout v = true) /\
  (~ overdue now w -> ww r = w /\ (due = Some (gen (rt w)) <-> cmd (rt w) <> None \/ _IDLE_CHECK_SECONDS <= now - li)).
Proof.
  intros Hcl Hk Hv. unfold check_one. cbn [ww wo _last_idle_sample].
  destruct (check_clock_exact now w Hcl Hv) as [(Ho & v & -> & Hvt)|(Ho & ->)].
  - intros [= <- <-]. cbn. rewrite Hv. split; [done|]. split; [intros _; split; [done | by exists v] | done].
  - rewrite Hcl. intros H. assert (Hr : ww r = w) by (repeat case_match; simplify_eq; done). rewrite Hr, Hk. split; [done|]. split; [done|]. intros _. split; [done|].
    destruct (cmd (rt w)) eqn:Ec; [simplify_eq; split; [by left | done]|]. destruct (Z.leb_spec _IDLE_CHECK_SECONDS (now - li)); simplify_eq; split; try done; try (by right).
    intros [?|?]; [done | lia].
Qed.

(** ** Theorems *)

(** A reading of a worker's usage answers the request it was made for: a settled request
    carries what the metrics thread read for its own pid.  And none is stranded while the metrics
    pool accepts jobs: whatever was asked and cancelled before, as many finished batches as the
    requests that wait need, 64 to a batch and one more for the batch under way, leave no request
    unsettled. *)
Theorem samples_settle l st usage :
  sampling_run l sampler_init = Some st ->
  (forall f s, futs st !! f = Some (FResult (Some s)) -> exists pid, asked st !! f = Some pid /\ (pid, s) ∈ reads st) /\
  (Forall pool_works l -> exists k st', (64 * k < length (_pending st) + 192)%nat /\ sampling_run (replicate k (Finish usage true)) st = Some st' /\
     forall f, (f < length (asked st))%nat -> is_Some (futs st' !! f)).
Proof.
  intros Hr. pose proof (sampling_run_ok _ _ _ sampler_init_ok Hr) as Hok. split; [apply Hok|]. intros Hl.
  assert (Hb : busy st) by (eapply (sampling_run_busy l sampler_init); [done | by intros [] | done]).
  set (n := ((length (_pending st) + 63) / 64)%nat). assert (Hn : (length (_pending st) <= 64 * n /\ 64 * n <= length (_pending st) + 63)%nat).
  { subst n. pose proof (Nat.div_mod_eq (length (_pending st) + 63) 64). pose proof (Nat.mod_upper_bound (length (_pending st) + 63) 64 ltac:(lia)). lia. }
  destruct (batches_drain usage n st (proj1 Hn) Hb) as (k & st' & Hk & Hr' & Hw & Ha). exists k, st'. split; [lia|]. split; [done|].
  intros f Hf. rewrite <- Ha in Hf. apply lookup_lt_is_Some in Hf as [pid Hpid]. pose proof (sampling_run_ok _ _ _ Hok Hr') as Hok'.
  destruct (so_settled _ Hok' f pid Hpid) as [H|?]; [|done]. rewrite Hw in H. by apply elem_of_nil in H.
Qed.

Lemma samples_settle_witness :
  let l := (fun n => Ask (Z.of_nat n) true) <$> seq 1 70 in
  exists st, sampling_run l sampler_init = Some st /\ length (_pending st) = 69%nat /\ exists k st', sampling_run (replicate k (Finish None true)) st = Some st' /\ is_Some (futs st' !! 69%nat).
Proof.
  cbv zeta. set (l := (fun n => Ask (Z.of_nat n) true) <$> seq 1 70).
  destruct (sampling_run l sampler_init) as [st|] eqn:E; [|vm_compute in E; discriminate]. exists st. split; [reflexivity|].
  assert (Hlen : length (_pending st) = 69%nat /\ length (asked st) = 70%nat) by (vm_compute in E; injection E as <-; vm_compute; done).
  destruct Hlen as [H1 H2]. split; [exact H1|].
  destruct (samples_settle l st None E) as [_ H]. assert (Hl : Forall pool_works l) by (subst l; apply Forall_fmap, Forall_true; done).
  destruct (H Hl) as (k & st' & _ & Hr & Hall). exists k, st'. split; [exact Hr|]. apply Hall. rewrite H2. lia.
Defined.

(** C30. The supervisor ends a runtime only for what it may: a pass kills every live runtime whose
    command is past its deadline or kept waiting too long, with a timeout, and no other; and a
    reading that is applied after the runtime has gone on kills it only for too many threads or
    for memory over the limit, unless no command has begun or ended since the reading was asked
    for, and then for CPU time over the command's (or the idle time's) allowance. *)
Theorem supervisor_sound o w w' now s :
  reachable o w -> rtc (step o) w w' -> closed (rt w') = false ->
  (forall rs k li, rs !! k = Some (Watched o w' li) -> exists r due, _tick now rs !! k = Some (r, due) /\
     (killed (rt (ww r)) = true <-> overdue now w') /\
     (overdue now w' -> due = None /\ exists v, verdict (rt (ww r)) = Some v /\ is_timeout v = true) /\
     (~ overdue now w' -> ww r = w' /\ (due = Some (gen (rt w')) <-> cmd (rt w') <> None \/ _IDLE_CHECK_SECONDS <= now - li))) /\
  (killed (rt (_apply_sample o now (Some s) (gen (rt w)) w')) = true ->
     over (Some _MAX_WORKER_THREADS) (threads s) = true \/ over (_max_memory o) (rss s) = true \/
     cmd (rt w') = cmd (rt w) /\ exists c, cpu s = Some c /\
       ((exists p c0, the_pump w' = Some p /\ cpu_start p = Some c0 /\ over (cpu_cap p) (Some (c - c0)) = true) \/
        (exists base, idle_cpu_base (rt w') = Some base /\ idle_over now base c (rt w') = true))).
Proof.
  intros Hr Hs Hcl. assert (Hw' : shape w').
  { apply (aio_reachable_inv o (fun _ => True)); try done. destruct Hr as (n & c & Hr). exists n, c. by etrans. }
  assert (Hk : killed (rt w') = false) by (destruct (killed (rt w')) eqn:E; [|done]; apply (sh_alive _ Hw') in E; congruence).
  assert (Hv : verdict (rt w') = None) by (destruct (verdict (rt w')) eqn:E; [|done]; rewrite (proj1 (sh_alive _ Hw')) in Hk by congruence; done).
  split_and!.
  - intros rs k li Hk'. unfold _tick. rewrite list_lookup_fmap, Hk'. cbn. rewrite Hcl. destruct (check_one now (Watched o w' li)) as [r due] eqn:E. exists r, due.
    split; [done|]. by eapply check_one_exact.
  - pose proof (later_steps _ _ _ Hs) as [_ Hgen]. unfold _apply_sample. rewrite Hcl. cbv zeta. set (w1 := match cpu s with Some c => _ | None => w' end).
    assert (H1 : killed (rt w1) = killed (rt w') /\ gen (rt w1) = gen (rt w') /\ the_pump w1 = the_pump w' /\ idle_cpu_base (rt w1) = idle_cpu_base (rt w') /\
                 forall b c, idle_over now b c (rt w1) = idle_over now b c (rt w')) by (subst w1; by destruct (cpu s)).
    destruct H1 as (Hk1 & Hg1 & Hp1 & Hb1 & Hi1). destruct (over (Some _MAX_WORKER_THREADS) (threads s)) eqn:E1; [by left|].
    destruct (over (_max_memory o) (rss s)) eqn:E2; [by right; left|]. destruct (cpu s) as [c|] eqn:Ec; [|congruence].
    destruct (negb (gen (rt w) =? gen (rt w1))) eqn:Eg; [congruence|]. apply negb_false_iff, Z.eqb_eq in Eg. rewrite Hg1 in Eg.
    rewrite Hp1. intros H. right; right. split; [by apply Hgen|]. exists c. split; [done|]. destruct (the_pump w') as [p|].
    + destruct (cpu_start p) as [c0|] eqn:E0; [|congruence]. destruct (over (cpu_cap p) (Some (c - c0))) eqn:E3; [|congruence]. left. by exists p, c0.
    + rewrite Hb1 in H. destruct (idle_cpu_base (rt w')) as [b|]; [|congruence]. rewrite Hi1 in H. destruct (idle_over now b c (rt w')) eqn:E4; [|congruence]. right. by exists b.
Qed.

Lemma supervisor_sound_witness :
  let o := Opts None None None None None (Redaction true None) [] (Some 60000) None 2000 in
  let w := default (init 0 (Some 0)) (w ← exec o (QCall true) (init 0 (Some 0)); w ← exec o (QLock 0) w; exec o (QEncoded 0 true 0 (Some 100)) w) in
  exists r due, _tick 2200 [Watched o w 0] !! 0%nat = Some (r, due) /\ (killed (rt (ww r)) = true <-> overdue 2200 w) /\ killed (rt (ww r)) = true.
Proof.
  cbv zeta. set (o := Opts _ _ _ _ _ _ _ _ _ _). set (w := default _ _).
  assert (Hr : reachable o w).
  { exists 0, (Some 0). eapply rtc_l; [exists (QCall true); reflexivity|]. eapply rtc_l; [exists (QLock 0); vm_compute; reflexivity|].
    apply rtc_once. exists (QEncoded 0 true 0 (Some 100)). vm_compute. reflexivity. }
  destruct (supervisor_sound o w w 2200 (Sample None None None) Hr ltac:(constructor) ltac:(vm_compute; reflexivity)) as [H _].
  destruct (H [Watched o w 0] 0%nat 0 eq_refl) as (r & due & E & Hk & _). exists r, due. split; [exact E|]. split; [exact Hk|].
  vm_compute in E. injection E as <- <-. vm_compute. reflexivity.
Defined.
