(* ===== verification/Schema.v ===== *)
(** * Schema tools ([python/pydeno/_schema.py])

    Tools described by JSON Schema: their JavaScript names, and the TypeScript declarations shown
    to a model.  A schema is JSON data.  Names, descriptions, keys and literals of a schema come
    from whoever wrote it.  The text of a float ([float.__repr__]) and Python's Unicode tables are
    parameters. *)

From S2P Require Import Prelude Utf8 PyVal PyStr Preflight ToolBridge Results Feed Front.
From Stdlib Require Import Floats.SpecFloat.

#[local] Abbreviation text := (list Z).

(** ** Data *)

Inductive json := JNull | JBool (b : bool) | JInt (z : Z) | JFloat (f : spec_float) | JStr (s : text) | JArr (l : list json) | JObj (kvs : list (text * json)).

Fixpoint assoc {A} (k : text) (kvs : list (text * A)) : option A :=
  match kvs with [] => None | (k', v) :: kvs => if bool_decide (k = k') then Some v else assoc k kvs end.

(** [s.get(key)]: [None] of the code is [JNull]. *)
Definition get (kvs : list (text * json)) (k : string) : json := default JNull (assoc (u k) kvs).
Definition has (kvs : list (text * json)) (k : string) : bool := match assoc (u k) kvs with Some _ => true | None => false end.

Definition truthy (j : json) : bool :=
  match j with
  | JNull => false | JBool b => b | JInt z => negb (z =? 0) | JFloat f => match f with S754_zero _ => false | _ => true end
  | JStr s => match s with [] => false | _ => true end | JArr l => match l with [] => false | _ => true end
  | JObj l => match l with [] => false | _ => true end
  end.

Definition is_str (j : json) (s : string) : bool := match j with JStr t => bool_decide (t = u s) | _ => false end.

(** ** Strings *)

Definition join_with (sep : text) (ws : list text) : text :=
  match ws with [] => [] | w :: ws => w ++ concat ((fun x => sep ++ x) <$> ws) end.

Definition str_of (z : Z) : text := u (str_of_int z).

Definition _MAX_DEPTH : nat := 24.
Definition NON_IDENT (c : Z) : bool := negb (name_rest c).
Definition sub_ident (name : text) : text := (fun c => if NON_IDENT c then chr "_" else c) <$> name.

Definition _TS_BUILTIN_TYPES : list string :=
  ["any"; "unknown"; "never"; "object"; "string"; "number"; "boolean"; "symbol"; "bigint"; "undefined"; "null"; "void";
   "Array"; "Record"; "Promise"; "Set"; "Map"; "Date"; "Uint8Array"]%string.

(** The common start of [_js_identifier] and [_type_name]. *)
Definition ident_base (name : text) : text :=
  let ident := match sub_ident name with [] => u "_" | s => s end in
  match ident with c :: _ => if is_digit c then u "_" ++ ident else ident | [] => ident end.

Definition _js_identifier (name : text) : text :=
  let ident := ident_base name in if one_of _JS_RESERVED ident || _RESERVED_NAMES ident then ident ++ u "_" else ident.
Definition _type_name (name : text) : text :=
  let ident := ident_base name in if one_of _JS_RESERVED ident || one_of _TS_BUILTIN_TYPES ident then ident ++ u "_" else ident.

(** [while ident in taken: ident = f"{base}_{n}"; n += 1]; [fuel]: as many as are taken. *)
Definition numbered (base : text) (n : Z) : text := base ++ u "_" ++ str_of n.
Fixpoint free_name (taken : text -> bool) (fuel : nat) (base : text) (n : Z) : text :=
  match fuel with
  | O => numbered base n
  | S fuel => if taken (numbered base n) then free_name taken fuel base (n + 1) else numbered base n
  end.
Definition pick_name (taken : list text) (base : text) : text :=
  if bool_decide (base ∈ taken) then free_name (fun x => bool_decide (x ∈ taken)) (length taken) base 2 else base.

(** [js_tool_names]: the map in order, and the identifiers taken. *)
Definition add_name (st : gmap (list Z) (list Z) * list text) (name : text) : gmap (list Z) (list Z) * list text :=
  let ident := pick_name st.2 (_js_identifier name) in (<[name := ident]> st.1, st.2 ++ [ident]).
Definition js_tool_names (names : list text) : gmap (list Z) (list Z) := (foldl add_name (∅, []) names).1.

(** ** Text of JSON *)

Definition hex_digit (n : Z) : Z := if n <? 10 then 48 + n else 87 + n.
Definition hex4 (c : Z) : text := u "\u" ++ [hex_digit (c / 4096 mod 16); hex_digit (c / 256 mod 16); hex_digit (c / 16 mod 16); hex_digit (c mod 16)].

(** One character of a string; [ascii]: [ensure_ascii]. *)
Definition dumps_char (ascii : bool) (c : Z) : text :=
  if c =? 34 then [92; 34] else if c =? 92 then [92; 92] else if c =? 10 then u "\n" else if c =? 13 then u "\r" else if c =? 9 then u "\t"
  else if c =? 12 then u "\f" else if c =? 8 then u "\b" else if c <? 32 then hex4 c
  else if negb ascii || (c <? 127) then [c]
  else if c <? 0x10000 then hex4 c
  else hex4 (0xD800 + (c - 0x10000) / 1024) ++ hex4 (0xDC00 + (c - 0x10000) mod 1024).
Definition dumps_str (ascii : bool) (s : text) : text := [34] ++ concat (dumps_char ascii <$> s) ++ [34].

Section rendering.
Context `{Unicode} (json_float : spec_float -> list Z).

Fixpoint insert_pair (x : text * text) (l : list (text * text)) : list (text * text) :=
  match l with [] => [x] | y :: l' => if str_leb x.1 y.1 then x :: l else y :: insert_pair x l' end.
Definition sort_pairs (l : list (text * text)) : list (text * text) := foldr insert_pair [] l.

(** [json.dumps]; [sorted]: [sort_keys]. *)
Fixpoint dumps (ascii sorted : bool) (j : json) : text :=
  match j with
  | JNull => u "null"
  | JBool b => u (if b then "true" else "false")
  | JInt z => str_of z
  | JFloat f => json_float f
  | JStr s => dumps_str ascii s
  | JArr l => u "[" ++ join_with (u ", ") ((fix go l := match l with [] => [] | x :: l => dumps ascii sorted x :: go l end) l) ++ u "]"
  | JObj kvs =>
      let pairs := (fix go l := match l with [] => [] | (k, v) :: l => (k, dumps ascii sorted v) :: go l end) kvs in
      u "{" ++ join_with (u ", ") ((fun '(k, t) => dumps_str ascii k ++ u ": " ++ t) <$> (if sorted then sort_pairs pairs else pairs)) ++ u "}"
  end.

Definition _literal (value : json) : text :=
  match value with
  | JNull => u "null"
  | JBool b => u (if b then "true" else "false")
  | JInt z => str_of z
  | JFloat f => if isfinite f then json_float f else u "unknown"
  | JStr s => dumps_str false s
  | _ => u "unknown"
  end.

(** ** Types *)

Fixpoint dedup (seen : list text) (parts : list text) : list text :=
  match parts with [] => seen | p :: parts => dedup (if bool_decide (p ∈ seen) then seen else seen ++ [p]) parts end.

Definition _union (parts : list text) : text :=
  let seen := dedup [] parts in
  if bool_decide (u "unknown" ∈ seen) then u "unknown"
  else
    let seen := if bool_decide (u "null" ∈ seen) then List.filter (fun p => negb (bool_decide (p = u "null"))) seen ++ [u "null"] else seen in
    join_with (u " | ") seen.

Definition _paren (t : text) : text :=
  if (contains (u " | ") t || contains (u " & ") t) && negb (starts_with (u "{") t) then u "(" ++ t ++ u ")" else t.
Definition _arr (element : text) : text := _paren element ++ u "[]".

(** ** Comments *)

Fixpoint lstrip (s : text) : text := match s with c :: s' => if uni_isspace c then lstrip s' else s | [] => [] end.
Definition rstrip_space (s : text) : text := rev (lstrip (rev s)).
Definition strip (s : text) : text := rstrip_space (lstrip s).

(** [text.replace] of the end of a comment. *)
Fixpoint escape_close (s : text) : text :=
  match s with
  | c :: s' =>
      match s' with
      | d :: s'' => if (c =? 42) && (d =? 47) then [42; 92; 47] ++ escape_close s'' else c :: escape_close s'
      | [] => [c]
      end
  | [] => []
  end.

Definition is_break (c : Z) : bool := mem_Z c [10; 11; 12; 13; 28; 29; 30; 0x85; 0x2028; 0x2029].
Fixpoint splitlines (s : text) : list text :=
  match s with
  | [] => []
  | c :: s1 =>
      if is_break c then
        [] :: (match s1 with d :: s2 => if (c =? 13) && (d =? 10) then splitlines s2 else splitlines s1 | [] => [] end)
      else match splitlines s1 with [] => [[c]] | l :: ls => (c :: l) :: ls end
  end.

Definition _comment_lines (parts : list text) (indent : text) : list text :=
  let t := strip (escape_close (join_with [10] (List.filter (fun p => negb (bool_decide (p = []))) parts))) in
  match t with
  | [] => []
  | _ =>
      let lines := splitlines t in
      match lines with
      | [line] => if (Z.of_nat (length line) <=? 80) then [indent ++ u "/** " ++ line ++ u " */"]
                  else [indent ++ u "/**"] ++ [rstrip_space (indent ++ u " * " ++ line)] ++ [indent ++ u " */"]
      | _ => [indent ++ u "/**"] ++ ((fun ln => rstrip_space (indent ++ u " * " ++ ln)) <$> lines) ++ [indent ++ u " */"]
      end
  end.

Definition _schema_doc_no_default (schema : json) : list text :=
  match schema with
  | JObj s => match get s "description" with JStr d => [strip d] | _ => [] end
  | _ => []
  end.

Definition _schema_doc (schema : json) : list text :=
  match schema with
  | JObj s =>
      match get s "description" with JStr d => [strip d] | _ => [] end
      ++ match get s "format" with JStr f => [u "@format " ++ f] | _ => [] end
      ++ match assoc (u "default") s with
         | Some v =>
             let rendered := dumps false false v in
             [u "@default " ++ (if 80 <? Z.of_nat (length rendered) then take 77 rendered ++ u "..." else rendered)]
         | None => []
         end
  | _ => []
  end.

(** ** A schema as a type *)

Section types.
Context (refmap : gmap (list Z) (list Z)).
(** [ts] one level down; it may raise where a list cannot be hashed. *)
Variable sub : json -> text -> result exn text.

Definition _array (s : list (text * json)) (indent : text) : result exn text :=
  let '(prefix, rest) := match get s "items" with JArr l => (JArr l, get s "additionalItems") | r => (get s "prefixItems", r) end in
  match prefix with
  | JArr ps =>
      elements ← map_result (fun p => sub p indent) ps;
      more ← match rest with JNull | JBool false => Ok [] | _ => t ← sub rest indent; Ok [u "..." ++ _arr t] end;
      Ok (u "[" ++ join_with (u ", ") (elements ++ more) ++ u "]")
  | _ => match rest with JNull | JBool true => Ok (u "unknown[]") | _ => t ← sub rest indent; Ok (_arr t) end
  end.

Definition hashable (j : json) : bool := match j with JArr _ | JObj _ => false | _ => true end.

(** [_TS_IDENT] *)
Definition ts_first (c : Z) : bool := name_first c || (c =? chr "$").
Definition _TS_IDENT (s : text) : bool := match s with [] => false | c :: s' => ts_first c && forallb (fun c => ts_first c || is_digit c) s' end.

Definition property (required : list json) (inner : text) (kv : text * json) : result exn (list text) :=
  let '(key, prop) := kv in
  let shown := if _TS_IDENT key then key else dumps_str false key in
  let optional := if existsb (fun r => match r with JStr k => bool_decide (k = key) | _ => false end) required then [] else u "?" in
  t ← sub prop inner;
  Ok (_comment_lines (_schema_doc prop) inner ++ [inner ++ shown ++ optional ++ u ": " ++ t ++ u ";"]).

Definition _object (s : list (text * json)) (indent : text) : result exn text :=
  let props := match get s "properties" with JObj l => l | _ => [] end in
  let required := match get s "required" with JArr l => l | _ => [] end in
  if negb (forallb hashable required) then Err (TypeError "unhashable type")
  else
    let inner := indent ++ u "  " in
    index ← match get s "additionalProperties", get s "patternProperties" with
            | JObj e, _ => t ← sub (JObj e) inner; Ok (Some t)
            | _, JObj (p :: ps) => ts ← map_result (fun kv => sub kv.2 inner) (p :: ps); Ok (Some (_union ts))
            | _, _ => Ok None
            end;
    match props, index with
    | [], Some t => Ok (u "Record<string, " ++ t ++ u ">")
    | [], None => Ok (match get s "additionalProperties" with JBool false => u "{}" | _ => u "Record<string, unknown>" end)
    | _, _ =>
        lines ← map_result (property required inner) props;
        let tail := match index with Some t => [inner ++ u "[key: string]: " ++ t ++ u ";"] | None => [] end in
        Ok (join_with [10] ([u "{"] ++ concat lines ++ tail ++ [indent ++ u "}"]))
    end.

Definition simple_type (s : list (text * json)) (typ : json) (indent : text) : result exn text :=
  let typ := match typ with
             | JNull => if has s "properties" || has s "additionalProperties" || has s "patternProperties" then JStr (u "object")
                        else if has s "items" || has s "prefixItems" then JStr (u "array") else JNull
             | t => t
             end in
  if is_str typ "string" then Ok (u "string")
  else if is_str typ "integer" || is_str typ "number" then Ok (u "number")
  else if is_str typ "boolean" then Ok (u "boolean")
  else if is_str typ "null" then Ok (u "null")
  else if is_str typ "array" then _array s indent
  else if is_str typ "object" then _object s indent
  else Ok (u "unknown").

(** [type] may be a list of types, or of lists. *)
Fixpoint by_type (s : list (text * json)) (typ : json) (indent : text) : result exn text :=
  match typ with
  | JArr l => parts ← (fix go l := match l with [] => Ok [] | t :: l => x ← by_type s t indent; xs ← go l; Ok (x :: xs) end) l; Ok (_union parts)
  | t => simple_type s t indent
  end.

Definition all_of_type (parts : list text) : text :=
  match List.filter (fun p => negb (bool_decide (p = u "unknown"))) (dedup [] parts) with
  | [] => u "unknown"
  | [p] => p
  | ps => join_with (u " & ") (_paren <$> ps)
  end.

Definition options (s : list (text * json)) : list json :=
  match get s "anyOf" with JArr (x :: l) => x :: l | _ => match get s "oneOf" with JArr (x :: l) => x :: l | _ => [] end end.

Definition _ts (s : list (text * json)) (indent : text) : result exn text :=
  match get s "$ref" with
  | JStr r => Ok (default (u "unknown") (refmap !! r))
  | JNull =>
      match assoc (u "const") s with
      | Some c => Ok (_literal c)
      | None =>
          match get s "enum" with
          | JArr (x :: l) => Ok (_union (_literal <$> (x :: l)))
          | _ =>
              match options s, get s "allOf" with
              | x :: l, _ => ts ← map_result (fun o => sub o indent) (x :: l); Ok (_union ts)
              | [], JArr (x :: l) => ts ← map_result (fun o => sub o indent) (x :: l); Ok (all_of_type ts)
              | [], _ => by_type s (get s "type") indent
              end
          end
      end
  | _ => Ok (u "unknown")
  end.
End types.

(** [ts]; [levels]: how many more are rendered, [_MAX_DEPTH + 1 - depth] of the code. *)
Fixpoint ts (refmap : gmap (list Z) (list Z)) (levels : nat) (schema : json) (indent : text) : result exn text :=
  match levels, schema with
  | S levels, JObj s =>
      t ← _ts refmap (ts refmap levels) s indent;
      Ok (match get s "nullable" with JBool true => _union [t; u "null"] | _ => t end)
  | S _, JBool false => Ok (u "never")
  | _, _ => Ok (u "unknown")
  end.

Definition top : nat := S _MAX_DEPTH.

(** ** Named types *)

Record decl := Decl { canonical : text; d_schema : json; d_refs : gmap (list Z) (list Z) }.
Definition _DtsWriter := list (text * decl).

Definition found (root : json) : list (text * text * json) :=
  match root with
  | JObj r =>
      let named key := match get r key with JObj defs => (fun kv => (u "#/" ++ u key ++ u "/" ++ kv.1, kv.1, kv.2)) <$> defs | _ => [] end in
      named "$defs"%string ++ named "definitions"%string
  | _ => []
  end.

(** The name of a definition: the first that is free, or that declares the same schema already. *)
Definition other_schema (names : list (text * text)) (c ts : text) : bool := match assoc ts names with Some c' => negb (bool_decide (c' = c)) | None => false end.
Definition decl_name (names : list (text * text)) (c base : text) : text :=
  if other_schema names c base then free_name (other_schema names c) (length names) base 2 else base.

(** One definition: the names so far with their canonical text, the new ones, the references. *)
Record registering := Registering { r_names : list (text * text); r_new : list (text * (text * json)); r_refs : gmap (list Z) (list Z) }.

Definition register_one (st : registering) (f : text * text * json) : registering :=
  let '(ref, name, schema) := f in
  let c := dumps true true schema in
  let ts := decl_name st.(r_names) c (_type_name name) in
  match assoc ts st.(r_names) with
  | Some _ => Registering st.(r_names) st.(r_new) (<[ref := ts]> st.(r_refs))
  | None => Registering (st.(r_names) ++ [(ts, c)]) (st.(r_new) ++ [(ts, (c, schema))]) (<[ref := ts]> st.(r_refs))
  end.

(** [register]: the declarations it adds share its reference map, complete by the time they are
    rendered. *)
Definition register (root : json) (w : _DtsWriter) : gmap (list Z) (list Z) * _DtsWriter :=
  let st := foldl register_one (Registering ((fun d => (d.1, d.2.(canonical))) <$> w) [] ∅) (found root) in
  (st.(r_refs), w ++ ((fun n => (n.1, Decl n.2.1 n.2.2 st.(r_refs))) <$> st.(r_new))).

Definition declaration (indent : text) (d : text * decl) : result exn (list text) :=
  let '(name, d) := d in
  body ← ts d.(d_refs) top d.(d_schema) indent;
  Ok (_comment_lines (_schema_doc_no_default d.(d_schema)) indent
      ++ [if starts_with (u "{") body then indent ++ u "interface " ++ name ++ u " " ++ body else indent ++ u "type " ++ name ++ u " = " ++ body ++ u ";"]).

(** [declarations]: a blank line before each but the first. *)
Definition declarations (indent : text) (w : _DtsWriter) : result exn (list text) :=
  blocks ← map_result (declaration indent) w;
  Ok (match blocks with [] => [] | b :: bs => b ++ concat ((fun x => [] :: x) <$> bs) end).

(** ** Tools *)

(** A tool definition, as [_tool_field] reads it: [t_description] when it is a string. *)
Record tool_def := ToolDef { t_name : text; t_description : option text; t_params : json; t_returns : json; t_sequential : bool }.

Definition empty_params : json := JObj [(u "type", JStr (u "object")); (u "properties", JObj [])].
Definition optional_args (params : json) : text := match params with JObj p => if truthy (get p "required") then [] else u "?" | _ => [] end.
Definition return_type (refs : gmap (list Z) (list Z)) (returns : json) (indent : text) : result exn text := match returns with JNull => Ok (u "unknown") | r => ts refs top r indent end.

(** One tool: its declaration, and what it registers. *)
Definition tool_function (names : gmap (list Z) (list Z)) (indent : text) (t : tool_def) (w : _DtsWriter) : result exn (list text * _DtsWriter) :=
  let params := if truthy t.(t_params) then t.(t_params) else empty_params in
  let '(params_refs, w) := register params w in
  let '(returns_refs, w) := register t.(t_returns) w in
  let ident := default [] (names !! t.(t_name)) in
  let doc := match t.(t_description) with Some d => if bool_decide (strip d = []) then [] else [strip d] | None => [] end
             ++ (if bool_decide (ident = t.(t_name)) then [] else [u "(The tool `" ++ t.(t_name) ++ u "`.)"])
             ++ (if t.(t_sequential) then [u "Runs alone: other tool calls wait while it runs."] else []) in
  ptype ← ts params_refs top params indent;
  rtype ← return_type returns_refs t.(t_returns) indent;
  Ok (_comment_lines doc indent ++ [indent ++ u "function " ++ ident ++ u "(args" ++ optional_args params ++ u ": " ++ ptype ++ u "): Promise<" ++ rtype ++ u ">;"], w).

Fixpoint tool_functions (names : gmap (list Z) (list Z)) (indent : text) (tools : list tool_def) (w : _DtsWriter) : result exn (list (list text) * _DtsWriter) :=
  match tools with
  | [] => Ok ([], w)
  | t :: tools => '(f, w) ← tool_function names indent t w; '(fs, w) ← tool_functions names indent tools w; Ok (f :: fs, w)
  end.

Definition schema_tools_to_dts (tools : list tool_def) (namespace : text) : result exn text :=
  let names := js_tool_names (t_name <$> tools) in
  '(functions, w) ← tool_functions names (u "  ") tools [];
  decls ← declarations (u "  ") w;
  let blocks := List.filter (fun b => match b with [] => false | _ => true end) (decls :: functions) in
  let body := join_with [10; 10] (join_with [10] <$> blocks) in
  Ok (match body with
      | [] => u "declare namespace " ++ namespace ++ u " {}" ++ [10]
      | _ => u "declare namespace " ++ namespace ++ u " {" ++ [10] ++ body ++ [10] ++ u "}" ++ [10]
      end).

(** ** [SchemaTool] *)

Definition _MAX_SCHEMA_BYTES : Z := 256 * 1024.

(** What is given as a schema: JSON data in a mapping, a mapping that is not JSON data, or
    something else. *)
Inductive schema_arg := SMapping (kvs : list (text * json)) | SNotJson | SNone | SOther.

Definition check_schema (output : bool) (a : schema_arg) : result exn (option (list (text * json))) :=
  match a with
  | SMapping kvs => if _MAX_SCHEMA_BYTES <? Z.of_nat (length (dumps true false (JObj kvs))) then Err (ValueError "is larger than 262144 bytes") else Ok (Some kvs)
  | SNotJson => Err (TypeError "is not plain JSON")
  | SNone => if output then Ok None else Err (TypeError "must be a JSON Schema object (a mapping)")
  | SOther => Err (TypeError "must be a JSON Schema object (a mapping)")
  end.

Record SchemaTool := STool { st_name : text; st_description : text; st_input : list (text * json); st_output : option (list (text * json)) }.

(** [__post_init__] *)
Definition schema_tool (name description : pyval) (input output : schema_arg) (is_callable : bool) : result exn SchemaTool :=
  n ← ToolBridge._check_name name;
  d ← match description with PStr d => Ok d | _ => Err (TypeError "description must be a string") end;
  i ← check_schema false input;
  o ← check_schema true output;
  let i := default [] i in
  match get i "type" with
  | JNull => Ok tt
  | k => if is_str k "object" then Ok tt else Err (ValueError "input_schema must describe an object")
  end ≫= fun _ =>
  if is_callable then Ok (STool n d i o) else Err (TypeError "is not callable").

(** [schema_declarations]: one tool of it. *)
Definition schema_function (indent : text) (t : SchemaTool) (w : _DtsWriter) : result exn (list text * text * _DtsWriter) :=
  let params := JObj t.(st_input) in
  let returns := match t.(st_output) with Some o => JObj o | None => JNull end in
  let '(params_refs, w) := register params w in
  let '(returns_refs, w) := register returns w in
  ptype ← ts params_refs top params indent;
  rtype ← return_type returns_refs returns indent;
  Ok (_comment_lines [t.(st_description)] indent, t.(st_name) ++ u "(args" ++ optional_args params ++ u ": " ++ ptype ++ u "): Promise<" ++ rtype ++ u ">", w).

Fixpoint schema_functions (indent : text) (tools : list SchemaTool) (w : _DtsWriter) : result exn (list (text * (list text * text)) * _DtsWriter) :=
  match tools with
  | [] => Ok ([], w)
  | t :: tools => '(doc, sig, w) ← schema_function indent t w; '(fs, w) ← schema_functions indent tools w; Ok ((t.(st_name), (doc, sig)) :: fs, w)
  end.

Definition schema_declarations (tools : list SchemaTool) (declare : bool) (indent : text) : result exn (list text * list (text * (list text * text))) :=
  '(fs, w) ← schema_functions indent tools [];
  decls ← declarations indent w;
  Ok (if declare then (fun l : text => if starts_with (u "interface ") l || starts_with (u "type ") l then u "declare " ++ l else l) <$> (decls : list text) else decls, fs).
End rendering.
