(* ===== verification/SchemaProps.v ===== *)
(** * Schema tools: what a schema can and cannot say

    The text of a schema stays inside the comments and string literals it is put in: a scanner of
    the generated declarations finds every bracket closed by its own.  And the names. *)

From S2P Require Import Prelude Utf8 PyVal PyStr Preflight PreflightProps ToolBridge Results Feed Front Schema.
From Stdlib Require Import Floats.SpecFloat DecimalString.

#[local] Abbreviation text := (list Z).

(** ** A scanner of TypeScript text *)

Inductive lex := Code | Slash | Block | BlockStar | Str | StrEsc.

Definition closer (c : Z) : option Z := if c =? 123 then Some 125 else if c =? 91 then Some 93 else if c =? 40 then Some 41 else if c =? 60 then Some 62 else None.
Definition closes (c : Z) : bool := mem_Z c [125; 93; 41; 62].
(** Neither a quote, nor the start of a template, of an escape or of a comment. *)
Definition plain (c : Z) : bool := negb (mem_Z c [34; 39; 47; 92; 96; 123; 91; 40; 60; 125; 93; 41; 62]).

(** Outside comments and strings every bracket must be closed by its own, and nothing but double
    quotes and block comments may be opened; a string must not hold a line break. *)
Definition scan1 (st : lex * list Z) (c : Z) : option (lex * list Z) :=
  let '(s, stk) := st in
  match s with
  | Code =>
      if c =? 34 then Some (Str, stk)
      else if c =? 47 then Some (Slash, stk)
      else match closer c with
           | Some d => Some (Code, d :: stk)
           | None =>
               if closes c then match stk with d :: stk => if c =? d then Some (Code, stk) else None | [] => None end
               else if plain c then Some (Code, stk) else None
           end
  | Slash => if c =? 42 then Some (Block, stk) else None
  | Block => Some (if c =? 42 then BlockStar else Block, stk)
  | BlockStar => Some (if c =? 47 then Code else if c =? 42 then BlockStar else Block, stk)
  | Str => if (c =? 10) || (c =? 13) then None else Some (if c =? 34 then Code else if c =? 92 then StrEsc else Str, stk)
  | StrEsc => if (c =? 10) || (c =? 13) then None else Some (Str, stk)
  end.

Fixpoint scan (st : lex * list Z) (t : text) : option (lex * list Z) := match t with [] => Some st | c :: t => st' ← scan1 st c; scan st' t end.

(** A text that leaves the scanner where it was. *)
Definition closed (t : text) : Prop := forall stk, scan (Code, stk) t = Some (Code, stk).

Lemma scan_app st a b : scan st (a ++ b) = scan st a ≫= fun st' => scan st' b.
Proof. revert st. induction a as [|c a IH]; intros st; cbn; [done|]. destruct (scan1 st c); cbn; [apply IH | done]. Qed.

Lemma closed_nil : closed [].
Proof. done. Qed.
Lemma closed_app a b : closed a -> closed b -> closed (a ++ b).
Proof. intros Ha Hb stk. rewrite scan_app, Ha. apply Hb. Qed.
Lemma scan_plain c stk : plain c = true -> scan1 (Code, stk) c = Some (Code, stk).
Proof.
  intros H. assert (Hn : forall x, mem_Z x [34; 39; 47; 92; 96; 123; 91; 40; 60; 125; 93; 41; 62] = true -> (c =? x) = false).
  { intros x Hx. destruct (Z.eqb_spec c x) as [->|]; [|done]. unfold plain in H. by rewrite Hx in H. }
  cbn. unfold closer, closes, mem_Z. cbn. rewrite !Hn by done. cbn. by rewrite H.
Qed.
Lemma closed_plain t : forallb plain t = true -> closed t.
Proof. intros H stk. induction t as [|c t IH]; [done|]. cbn in H. apply andb_true_iff in H as [H1 H2]. cbn [scan]. rewrite (scan_plain c stk H1). by apply IH. Qed.
Lemma closed_bracket c d t : closer c = Some d -> closed t -> closed ([c] ++ t ++ [d]).
Proof.
  intros Hc Ht stk. cbn [app]. assert (Hs : c <> 34 /\ c <> 47 /\ closer d = None /\ closes d = true /\ d <> 34 /\ d <> 47).
  { unfold closer in Hc. destruct (Z.eqb_spec c 123) as [->|_]; [by simplify_eq|]. destruct (Z.eqb_spec c 91) as [->|_]; [by simplify_eq|].
    destruct (Z.eqb_spec c 40) as [->|_]; [by simplify_eq|]. destruct (Z.eqb_spec c 60) as [->|_]; [by simplify_eq | done]. }
  destruct Hs as (H1 & H2 & H3 & H4 & H5 & H6). apply Z.eqb_neq in H1, H2, H5, H6.
  cbn [scan scan1]. rewrite H1, H2, Hc. cbn. rewrite scan_app, Ht. cbn -[closes closer Z.eqb]. by rewrite H5, H6, H3, H4, Z.eqb_refl.
Qed.
Lemma closed_concat ts : Forall closed ts -> closed (concat ts).
Proof. induction 1; cbn; [apply closed_nil | by apply closed_app]. Qed.
Lemma closed_join sep ts : closed sep -> Forall closed ts -> closed (join_with sep ts).
Proof.
  intros Hs [|t l Ht Hl]; [apply closed_nil|]. apply closed_app; [done|]. apply closed_concat, Forall_fmap. eapply Forall_impl; [exact Hl|]. intros x Hx. by apply closed_app.
Qed.

(** ** String literals *)

Lemma hex_digit_safe n : 0 <= n < 16 -> hex_digit n <> 34 /\ hex_digit n <> 92 /\ hex_digit n <> 10 /\ hex_digit n <> 13.
Proof. intros H. unfold hex_digit. case_match; bool_prop; lia. Qed.

Lemma scan_str_char c stk : c <> 34 -> c <> 92 -> c <> 10 -> c <> 13 -> scan1 (Str, stk) c = Some (Str, stk).
Proof. intros H1 H2 H3 H4. cbn. apply Z.eqb_neq in H1, H2, H3, H4. by rewrite H1, H2, H3, H4. Qed.

Lemma scan_hex4 c stk : scan (Str, stk) (hex4 c) = Some (Str, stk).
Proof.
  unfold hex4. assert (Hd : forall n, scan1 (Str, stk) (hex_digit (n mod 16)) = Some (Str, stk)).
  { intros n. apply scan_str_char; apply hex_digit_safe; apply Z.mod_pos_bound; lia. }
  assert (Hl : forall l, (forall x, x ∈ l -> exists n, x = hex_digit (n mod 16)) -> scan (Str, stk) l = Some (Str, stk)).
  { intros l. induction l as [|x l IH]; intros Hx; [done|]. destruct (Hx x) as [n ->]; [set_solver|]. cbn [scan]. rewrite Hd. apply IH. intros y Hy. apply Hx. set_solver. }
  rewrite scan_app. change (scan (Str, stk) (u "\u")) with (Some (Str, stk)). apply Hl. intros x Hx. rewrite !elem_of_cons in Hx.
  destruct Hx as [->|[->|[->|[->|Hx%elem_of_nil]]]]; eauto. done.
Qed.

Lemma scan_dumps_char a c stk : scan (Str, stk) (dumps_char a c) = Some (Str, stk).
Proof.
  unfold dumps_char. destruct (Z.eqb_spec c 34); [reflexivity|]. destruct (Z.eqb_spec c 92); [reflexivity|]. destruct (Z.eqb_spec c 10); [reflexivity|].
  destruct (Z.eqb_spec c 13); [reflexivity|]. repeat (case_match; [first [reflexivity | apply scan_hex4 | cbn [scan]; by rewrite scan_str_char] |]).
  rewrite scan_app, scan_hex4. apply scan_hex4.
Qed.

Lemma closed_dumps_str a s : closed (dumps_str a s).
Proof.
  intros stk. unfold dumps_str. rewrite scan_app. change (scan (Code, stk) [34]) with (Some (Str, stk)). cbn [mbind option_bind].
  assert (Hs : scan (Str, stk) (concat (dumps_char a <$> s)) = Some (Str, stk)).
  { induction s as [|c s IH]; [done|]. rewrite fmap_cons. cbn [concat]. rewrite scan_app, scan_dumps_char. apply IH. }
  by rewrite scan_app, Hs.
Qed.

(** ** Comments *)

(** No end of a comment. *)
Fixpoint nc (t : text) : bool := match t with c :: t' => match t' with d :: _ => negb ((c =? 42) && (d =? 47)) && nc t' | [] => true end | [] => true end.

Lemma nc_cons c t : nc (c :: t) = true <-> (c = 42 -> head t <> Some 47) /\ nc t = true.
Proof.
  destruct t as [|d t]; [done|]. change (nc (c :: d :: t)) with (negb ((c =? 42) && (d =? 47)) && nc (d :: t)).
  rewrite andb_true_iff, negb_true_iff, andb_false_iff, !Z.eqb_neq. cbn [head]. split; intros [H1 H2]; (split; [|done]); [intros -> [= ->]; by destruct H1|].
  destruct (decide (c = 42)) as [->|]; [right; intros ->; by apply H1 | by left].
Qed.
Lemma nc_app a b : nc (a ++ b) = true -> nc a = true /\ nc b = true.
Proof.
  induction a as [|c a IH]; [done|]. cbn [app]. rewrite nc_cons. intros [H1 H2]. destruct (IH H2) as [H3 H4]. split; [|done]. apply nc_cons. split; [|done].
  intros Hc. specialize (H1 Hc). by destruct a.
Qed.
Lemma nc_join a b : nc a = true -> nc b = true -> last a <> Some 42 -> nc (a ++ b) = true.
Proof.
  induction a as [|c a IH]; [done|]. intros [H1 H2]%nc_cons Hb Hl. cbn [app]. apply nc_cons. destruct a as [|d a].
  - cbn. split; [|done]. intros ->. by destruct Hl.
  - split; [intros Hc; by apply H1 | apply IH; done].
Qed.

Lemma escape_close_head s : head (escape_close s) = Some 47 -> head s = Some 47.
Proof. destruct s as [|c [|d s]]; cbn; try done. case_match; cbn; [done | congruence]. Qed.
Lemma escape_close_nc s : nc (escape_close s) = true.
Proof.
  remember (length s) as n eqn:En. assert (Hn : (length s <= n)%nat) by lia. clear En. revert s Hn.
  induction n as [|n IH]; intros [|c [|d s]] Hn; cbn in Hn; try done; [lia..|].
  change (escape_close (c :: d :: s)) with (if (c =? 42) && (d =? 47) then [42; 92; 47] ++ escape_close s else c :: escape_close (d :: s)). destruct ((c =? 42) && (d =? 47)) eqn:E.
  - cbn [app]. apply nc_cons. split; [done|]. apply nc_cons. split; [done|]. apply nc_cons. split; [done|]. apply IH. lia.
  - apply nc_cons. split; [|apply IH; cbn; lia]. intros -> Hh. apply escape_close_head in Hh. cbn in Hh. by simplify_eq.
Qed.

Lemma lstrip_suffix `{Unicode} s : exists a, s = a ++ lstrip s.
Proof. induction s as [|c s [a IH]]; [by exists []|]. cbn. case_match; [exists (c :: a); cbn; congruence | by exists []]. Qed.
Lemma rstrip_prefix `{Unicode} s : exists b, s = rstrip_space s ++ b.
Proof. unfold rstrip_space. destruct (lstrip_suffix (rev s)) as [a Ha]. exists (rev a). rewrite <- rev_app_distr, <- Ha. by rewrite rev_involutive. Qed.
Lemma nc_rstrip `{Unicode} s : nc s = true -> nc (rstrip_space s) = true.
Proof. intros Hs. destruct (rstrip_prefix s) as [b E]. rewrite E in Hs. by apply nc_app in Hs as [? _]. Qed.
Lemma nc_strip `{Unicode} s : nc s = true -> nc (strip s) = true.
Proof. intros Hs. apply nc_rstrip. destruct (lstrip_suffix s) as [a E]. rewrite E in Hs. by apply nc_app in Hs as [_ ?]. Qed.

Lemma splitlines_head s d l ls : splitlines s = (d :: l) :: ls -> head s = Some d.
Proof. destruct s as [|c s]; cbn; [done|]. repeat case_match; intros [= ]; congruence. Qed.
Lemma splitlines_nc s : nc s = true -> Forall (fun l => nc l = true) (splitlines s).
Proof.
  remember (length s) as n eqn:En. assert (Hn : (length s <= n)%nat) by lia. clear En. revert s Hn.
  induction n as [|n IH]; intros [|c s] Hn Hs; cbn in Hn; try (constructor; done); [lia|]. apply nc_cons in Hs as [Hc Hs]. cbn [splitlines]. destruct (is_break c).
  - constructor; [done|]. destruct s as [|d s]; [constructor|]. cbn in Hn. case_match; [|apply IH; [cbn; lia | done]]. apply IH; [lia|]. by apply nc_cons in Hs as [_ ?].
  - specialize (IH s ltac:(lia) Hs). destruct (splitlines s) as [|l ls] eqn:E; [by repeat constructor|]. apply Forall_cons in IH as [Hl Hls]. constructor; [|done].
    apply nc_cons. split; [|done]. intros Hc42 Hh. destruct l as [|d l]; [done|]. simplify_eq/=. apply splitlines_head in E. by apply Hc.
Qed.

(** Lines, each with its end. *)
Definition lines_text (ls : list text) : text := concat ((fun l => l ++ [10]) <$> ls).
Definition closed_lines (ls : list text) : Prop := closed (lines_text ls).

Lemma lines_text_app a b : lines_text (a ++ b) = lines_text a ++ lines_text b.
Proof. unfold lines_text. by rewrite fmap_app, concat_app. Qed.
Lemma join_lines_tail ls b : concat ((fun x => [10] ++ x) <$> (ls ++ [b])) = [10] ++ lines_text ls ++ b.
Proof.
  induction ls as [|m ls IH]; [exact (f_equal (cons 10) (app_nil_r b))|]. change ((m :: ls) ++ [b]) with (m :: (ls ++ [b])). rewrite fmap_cons. cbn [concat]. rewrite IH.
  unfold lines_text. rewrite fmap_cons. cbn [concat]. by rewrite <- !app_assoc.
Qed.
Lemma join_lines ls b : join_with [10] (ls ++ [b]) = lines_text ls ++ b.
Proof.
  destruct ls as [|l ls]; [exact (app_nil_r b)|]. unfold join_with. cbn [app]. etrans; [exact (f_equal (app l) (join_lines_tail ls b))|].
  unfold lines_text. rewrite fmap_cons. cbn [concat]. by rewrite <- !app_assoc.
Qed.
Lemma closed_end t : closed (t ++ [10]) -> closed t.
Proof.
  intros H stk. specialize (H stk). rewrite scan_app in H. destruct (scan (Code, stk) t) as [[[] s]|]; cbn in H; congruence.
Qed.
Lemma closed_lines_app a b : closed_lines a -> closed_lines b -> closed_lines (a ++ b).
Proof. unfold closed_lines. rewrite lines_text_app. apply closed_app. Qed.
Lemma closed_line t : closed t -> closed_lines [t].
Proof. intros H. unfold closed_lines, lines_text. cbn. rewrite app_nil_r. apply closed_app; [done | by apply closed_plain]. Qed.
Lemma closed_lines_concat ls : Forall closed_lines ls -> closed_lines (concat ls).
Proof. induction 1; [apply closed_nil | by apply closed_lines_app]. Qed.
Lemma closed_join_lines ls : closed_lines ls -> closed (join_with [10] ls).
Proof.
  destruct ls as [|b ls _] using rev_ind; [done|]. rewrite join_lines. intros H. apply closed_end. unfold closed_lines in H. rewrite lines_text_app in H.
  unfold lines_text at 2 in H. cbn in H. by rewrite app_nil_r, app_assoc in H.
Qed.

(** A comment, once opened, goes on over a text with no end in it. *)
Lemma scan_block t stk : nc t = true -> forall s, s = Block \/ s = BlockStar /\ head t <> Some 47 -> exists s', (s' = Block \/ s' = BlockStar) /\ scan (s, stk) t = Some (s', stk).
Proof.
  induction t as [|c t IH]; intros Hn s Hs; [exists s; split; [naive_solver | done]|]. apply nc_cons in Hn as [Hc Hn]. cbn [scan].
  assert (E : scan1 (s, stk) c = Some (if c =? 42 then BlockStar else Block, stk)).
  { destruct Hs as [->|[-> Hh]]; [done|]. cbn. destruct (Z.eqb_spec c 47) as [->|]; [by destruct Hh | done]. }
  rewrite E. cbn. apply IH; [done|]. destruct (Z.eqb_spec c 42) as [->|]; [right; split; [done | by apply Hc] | by left].
Qed.

Definition spaces (t : text) : Prop := Forall (fun c => c = 32) t.

Lemma spaces_nc t : spaces t -> nc t = true.
Proof. induction 1 as [|c t -> _ IH]; [done|]. apply nc_cons. by split. Qed.
Lemma spaces_closed t : spaces t -> closed t.
Proof. intros H. apply closed_plain, forallb_forall. intros c Hc. unfold spaces in H. rewrite Forall_forall in H. by rewrite (H c) by (by apply list_elem_of_In). Qed.
Lemma spaces_more t : spaces t -> spaces (t ++ u "  ").
Proof. intros H. apply Forall_app. split; [done | by repeat constructor]. Qed.
Lemma scan_spaces s t stk : s = Block -> spaces t -> scan (s, stk) t = Some (Block, stk).
Proof. intros -> H. induction H as [|c t -> _ IH]; [done|]. exact IH. Qed.

Section comments.
Context `{Unicode}.

Lemma scan_middle indent ln stk : spaces indent -> nc ln = true -> scan (Block, stk) (rstrip_space (indent ++ u " * " ++ ln) ++ [10]) = Some (Block, stk).
Proof.
  intros Hi Hl. assert (Hn : nc (indent ++ u " * " ++ ln) = true).
  { rewrite app_assoc. apply nc_join; [|done|].
    - apply nc_join; [by apply spaces_nc | done|]. intros Hx. apply last_Some in Hx as [l ->]. apply Forall_app in Hi as [_ Hi]. by apply Forall_cons in Hi as [? _].
    - change (u " * ") with ([32; 42] ++ [32]). by rewrite app_assoc, last_snoc. }
  rewrite scan_app. destruct (scan_block _ stk (nc_rstrip _ Hn) Block (or_introl eq_refl)) as (s' & Hs' & ->). by destruct Hs' as [->| ->].
Qed.

Lemma scan_middles indent ls stk : spaces indent -> Forall (fun l => nc l = true) ls ->
  scan (Block, stk) (lines_text ((fun ln => rstrip_space (indent ++ u " * " ++ ln)) <$> ls)) = Some (Block, stk).
Proof.
  intros Hi Hl. induction Hl as [|l ls Hl _ IH]; [done|]. rewrite fmap_cons. unfold lines_text. rewrite fmap_cons. cbn [concat].
  rewrite scan_app, scan_middle by done. exact IH.
Qed.

Lemma closed_long indent ls : spaces indent -> Forall (fun l => nc l = true) ls ->
  closed_lines ([indent ++ u "/**"] ++ ((fun ln => rstrip_space (indent ++ u " * " ++ ln)) <$> ls) ++ [indent ++ u " */"]).
Proof.
  intros Hi Hl stk. rewrite !lines_text_app. unfold lines_text at 1 3. cbn [concat fmap list_fmap]. rewrite !app_nil_r, <- !app_assoc.
  rewrite scan_app, (spaces_closed _ Hi). cbn [mbind option_bind]. rewrite scan_app. change (scan (Code, stk) (u "/**")) with (Some (BlockStar, stk)). cbn [mbind option_bind].
  rewrite scan_app. change (scan (BlockStar, stk) [10]) with (Some (Block, stk)). cbn [mbind option_bind]. rewrite scan_app, scan_middles by done. cbn [mbind option_bind].
  by rewrite scan_app, scan_spaces.
Qed.

Lemma closed_comment parts indent : spaces indent -> closed_lines (_comment_lines parts indent).
Proof.
  intros Hi. unfold _comment_lines. set (t := strip _). assert (Ht : nc t = true) by apply nc_strip, escape_close_nc. destruct t as [|c t'] eqn:E; [done|]. rewrite <- E in *. clear E.
  pose proof (splitlines_nc t Ht) as Hl. assert (Hlong := closed_long indent (splitlines t) Hi Hl). destruct (splitlines t) as [|l [|l2 ls]]; [done| |done].
  case_match; [|done]. apply closed_line. intros stk. apply Forall_cons in Hl as [Hl _]. rewrite scan_app, (spaces_closed _ Hi). cbn [mbind option_bind].
  rewrite scan_app. change (scan (Code, stk) (u "/** ")) with (Some (Block, stk)). cbn [mbind option_bind]. rewrite scan_app.
  destruct (scan_block l stk Hl Block (or_introl eq_refl)) as (s' & Hs' & ->). by destruct Hs' as [->| ->].
Qed.
End comments.

(** ** Types *)

Lemma plain_word c : ts_first c || is_digit c || (c =? 45) = true -> plain c = true.
Proof.
  intros H. unfold plain. apply negb_true_iff. unfold mem_Z. cbn. rewrite !orb_false_iff.
  repeat split; apply Z.eqb_neq; intros ->; discriminate.
Qed.
Lemma plain_rest c : name_rest c = true -> plain c = true.
Proof. intros H. apply plain_word. unfold name_rest, ts_first in *. destruct (name_first c); cbn in *; [done|]. rewrite H. by rewrite orb_true_r. Qed.

Lemma uint_plain d : forallb plain (u (NilZero.string_of_uint d)) = true.
Proof.
  assert (H : forall d, forallb plain (u (NilEmpty.string_of_uint d)) = true) by (clear; intros d; induction d; cbn; try done; exact IHd).
  destruct d; [done|apply (H (Decimal.D0 d))..| | | | | | | | |]; try done.
  all: match goal with |- context [NilZero.string_of_uint ?x] => exact (H x) end.
Qed.
Lemma int_plain z : forallb plain (str_of z) = true.
Proof.
  unfold str_of, str_of_int, NilZero.string_of_int. destruct (Z.to_int z) as [d|d]; [apply uint_plain|].
  change (forallb plain (u ("-" ++ NilZero.string_of_uint d)%string) = true). exact (uint_plain d).
Qed.

Lemma dedup_in seen parts t : t ∈ dedup seen parts -> t ∈ seen \/ t ∈ parts.
Proof.
  revert seen. induction parts as [|p parts IH]; intros seen; cbn; [by left|]. intros [Ht|Ht]%IH; [|set_solver]. case_bool_decide; set_solver.
Qed.
Lemma dedup_closed parts : Forall closed parts -> Forall closed (dedup [] parts).
Proof. rewrite !Forall_forall. intros H t Ht. apply dedup_in in Ht as [Ht|Ht]; [set_solver | by apply H]. Qed.
Lemma filter_closed (f : text -> bool) l : Forall closed l -> Forall closed (List.filter f l).
Proof. rewrite !Forall_forall. intros H t Ht. apply H. apply list_elem_of_In in Ht. apply list_elem_of_In. by apply List.filter_In in Ht as [? _]. Qed.

Lemma closed_union parts : Forall closed parts -> closed (_union parts).
Proof.
  intros H%dedup_closed. unfold _union. case_bool_decide; [by apply closed_plain|]. apply closed_join; [by apply closed_plain|]. case_bool_decide; [|done].
  apply Forall_app. split; [by apply filter_closed | repeat constructor; by apply closed_plain].
Qed.
Lemma closed_paren t : closed t -> closed (_paren t).
Proof. intros H. unfold _paren. case_match; [by apply (closed_bracket 40 41) | done]. Qed.
Lemma closed_arr t : closed t -> closed (_arr t).
Proof. intros H. apply closed_app; [by apply closed_paren | apply (closed_bracket 91 93 []); [done | apply closed_nil]]. Qed.
Lemma closed_all_of parts : Forall closed parts -> closed (all_of_type parts).
Proof.
  intros H%dedup_closed%(filter_closed (fun p => negb (bool_decide (p = u "unknown")))). unfold all_of_type. destruct (List.filter _ _) as [|p [|q l]]; [by apply closed_plain | by apply Forall_inv in H|].
  apply closed_join; [by apply closed_plain|]. apply Forall_fmap. eapply Forall_impl; [exact H|]. intros x Hx. by apply closed_paren.
Qed.

Lemma map_result_all {A B} (f : A -> result exn B) (P : B -> Prop) l ys : map_result f l = Ok ys -> (forall x y, x ∈ l -> f x = Ok y -> P y) -> Forall P ys.
Proof.
  revert ys. induction l as [|x l IH]; intros ys E Hp; cbn in E; [simplify_eq; constructor|]. apply result_bind_ok in E as (y & Hy & E). apply result_bind_ok in E as (ys' & Hys & E).
  simplify_eq. constructor; [apply (Hp x); [set_solver | done] | apply IH; [done|]; intros x0 y0 Hx0 E0; apply (Hp x0); [set_solver | done]].
Qed.

Definition refs_ok (m : gmap (list Z) (list Z)) : Prop := forall r t, m !! r = Some t -> forallb plain t = true.

Section confined.
Context `{Unicode} (json_float : spec_float -> list Z) (Hfloat : forall f, isfinite f = true -> forallb plain (json_float f) = true).

Lemma closed_literal v : closed (_literal json_float v).
Proof. destruct v as [|[]|z|f|s|l|l]; cbn; try (by apply closed_plain); [apply closed_plain, int_plain | | apply closed_dumps_str]. case_match; apply closed_plain; [by apply Hfloat | done]. Qed.

Section level.
Context (refmap : gmap (list Z) (list Z)) (Hrefs : refs_ok refmap).
Context (sub : json -> text -> result exn text) (Hsub : forall j indent t, spaces indent -> sub j indent = Ok t -> closed t).

Lemma closed_array s indent t : spaces indent -> _array sub s indent = Ok t -> closed t.
Proof using Hsub.
  intros Hi. unfold _array. destruct (match get s "items" with JArr l => _ | _ => _ end) as [prefix rest]. destruct prefix as [| | | | |ps|].
  6: { intros E. apply result_bind_ok in E as (es & He & E). apply result_bind_ok in E as (more & Hm & E). simplify_eq.
       apply (closed_bracket 91 93); [done|]. apply closed_join; [by apply closed_plain|]. apply Forall_app. split; [eapply map_result_all; [exact He|]; intros x y _; by apply Hsub|].
       assert (Hr : more = [] \/ exists x, sub rest indent = Ok x /\ more = [u "..." ++ _arr x]).
       { destruct rest as [|[]| | | | |]; try (left; congruence); right; apply result_bind_ok in Hm as (x & Hx & Hm); exists x; split; congruence. }
       destruct Hr as [->|(x & Hx & ->)]; [by apply Forall_nil|]. apply Forall_singleton, closed_app; [by apply closed_plain | apply closed_arr; by eapply Hsub]. }
  all: destruct rest as [|[]| | | | |]; intros E; try (simplify_eq; by apply (closed_app (u "unknown") (u "[]")); [apply closed_plain | apply (closed_bracket 91 93 [])]);
    apply result_bind_ok in E as (x & Hx & E); simplify_eq; apply closed_arr; by eapply Hsub.
Qed.

Lemma closed_key key : closed (if _TS_IDENT key then key else dumps_str false key).
Proof.
  destruct (_TS_IDENT key) eqn:E; [|apply closed_dumps_str]. apply closed_plain. destruct key as [|c key]; [done|]. cbn in E |- *. apply andb_true_iff in E as [H1 H2].
  apply andb_true_iff. split; [apply plain_word; by rewrite H1|]. rewrite forallb_forall in *. intros d Hd. apply plain_word. by rewrite (H2 d Hd).
Qed.

Lemma closed_property req inner kv ls : spaces inner -> property json_float sub req inner kv = Ok ls -> closed_lines ls.
Proof using Hsub.
  intros Hi. destruct kv as [key prop]. unfold property. intros E. apply result_bind_ok in E as (t & Ht & E). simplify_eq. apply closed_lines_app; [by apply closed_comment|].
  apply closed_line. apply closed_app; [by apply spaces_closed|]. apply closed_app; [apply closed_key|]. apply closed_app; [case_match; by apply closed_plain|].
  apply (closed_app (u ": ")); [by apply closed_plain|]. apply closed_app; [by eapply Hsub | by apply closed_plain].
Qed.

Lemma closed_record t : closed t -> closed (u "Record<string, " ++ t ++ u ">").
Proof.
  intros Ht. change (u "Record<string, ") with (u "Record" ++ [60] ++ u "string, "). rewrite <- !app_assoc. apply closed_app; [by apply closed_plain|].
  rewrite (app_assoc (u "string, ")). apply (closed_bracket 60 62); [done|]. apply closed_app; [by apply closed_plain | done].
Qed.

Lemma closed_object s indent t : spaces indent -> _object json_float sub s indent = Ok t -> closed t.
Proof using Hsub.
  intros Hi. pose proof (spaces_more _ Hi) as Hin. unfold _object. case_match; [done|]. intros E. apply result_bind_ok in E as (index & Hx & E).
  assert (Hidx : forall x, index = Some x -> closed x).
  { intros x ->. clear E. repeat case_match; try discriminate Hx; apply result_bind_ok in Hx as (y & Hy & Hx); injection Hx as <-;
      first [by apply (Hsub _ _ _ Hin Hy) | apply closed_union; eapply map_result_all; [exact Hy|]; intros ka tb _ Hab; by apply (Hsub _ _ _ Hin Hab)]. }
  destruct (match get s "properties" with JObj l => l | _ => [] end) as [|p ps] eqn:Ep.
  { destruct index as [x|]; simplify_eq; [by apply closed_record, Hidx|]. destruct (get s "additionalProperties") as [|[]| | | | |]; first [by apply (closed_record (u "unknown")), closed_plain | by apply (closed_bracket 123 125 [])]. }
  apply result_bind_ok in E as (lines & Hl & E). injection E as <-.
  set (tail := match index with Some x => _ | None => [] end). assert (Htail : closed_lines tail).
  { subst tail. destruct index as [x|]; [|apply closed_nil]. apply closed_line, closed_app; [by apply spaces_closed|]. 
    apply (closed_app (u "[key: string]: ")); [by intros stk|]. apply closed_app; [by apply Hidx | by apply closed_plain]. }
  change (closed (join_with [10] ([u "{"] ++ (concat lines ++ (tail ++ [indent ++ u "}"]))))). rewrite !app_assoc, join_lines, !lines_text_app.
  change (lines_text [u "{"]) with ([123] ++ [10]). change (u "}") with [125]. rewrite <- !app_assoc.
  assert (Hin' : closed ([10] ++ lines_text (concat lines) ++ lines_text tail ++ indent)).
  { apply closed_app; [by apply closed_plain|]. apply closed_app; [apply closed_lines_concat; eapply map_result_all; [exact Hl|]; intros ka tb _; by apply closed_property|].
    apply closed_app; [done | by apply spaces_closed]. }
  apply (closed_bracket 123 125) in Hin'; [|done]. by rewrite <- !app_assoc in Hin'.
Qed.

Lemma closed_simple s typ indent t : spaces indent -> simple_type json_float sub s typ indent = Ok t -> closed t.
Proof using Hsub.
  intros Hi. unfold simple_type. lazymatch goal with |- context [is_str ?ty "string"] => generalize ty end. intros ty. cbv zeta.
  repeat (case_match; [intros E; first [injection E as <-; by apply closed_plain | by eapply closed_array | by eapply closed_object] |]). intros [= <-]. by apply closed_plain.
Qed.

Lemma closed_by_type s indent : spaces indent -> forall typ t, by_type json_float sub s typ indent = Ok t -> closed t.
Proof using Hsub.
  intros Hi. fix IH 1. intros [| | | | |l|] t; try (by apply closed_simple). cbn [by_type]. intros E. apply result_bind_ok in E as (parts & Hp & E). injection E as <-. apply closed_union.
  revert parts Hp. induction l as [|x l IHl]; intros parts Hp; [by injection Hp as <-; apply Forall_nil|].
  apply result_bind_ok in Hp as (y & Hy & Hp). apply result_bind_ok in Hp as (ys & Hys & Hp). injection Hp as <-. apply Forall_cons. split; [by eapply IH | by apply IHl].
Qed.

Lemma closed_ts1 s indent t : spaces indent -> _ts json_float refmap sub s indent = Ok t -> closed t.
Proof using All.
  intros Hi. unfold _ts. destruct (get s "$ref") as [| | | |r| |]; try (intros [= <-]; by apply closed_plain).
  2: { intros [= <-]. destruct (refmap !! r) as [x|] eqn:Er; cbn; [|by apply closed_plain]. apply closed_plain. by eapply Hrefs. }
  destruct (assoc (u "const") s) as [c|]; [intros [= <-]; apply closed_literal|].
  assert (Hmap : forall l ts, map_result (fun o => sub o indent) l = Ok ts -> Forall closed ts).
  { intros l ys Hy. eapply map_result_all; [exact Hy|]. intros a b _ Hab. by apply (Hsub _ _ _ Hi Hab). }
  destruct (get s "enum") as [| | | | |[|x l]|].
  7: { intros [= <-]. apply closed_union. change (Forall closed (_literal json_float <$> x :: l)). apply Forall_fmap, Forall_true. intros v. apply closed_literal. }
  all: destruct (options s) as [|x' l'].
  all: try (intros E; apply result_bind_ok in E as (ys & Hy & E); injection E as <-; apply closed_union; by eapply Hmap).
  all: destruct (get s "allOf") as [| | | | |[|y ys]|]; try (by apply closed_by_type).
  all: intros E; apply result_bind_ok in E as (zs & Hz & E); injection E as <-; apply closed_all_of; by eapply Hmap.
Qed.
End level.

Lemma closed_ts refmap : refs_ok refmap -> forall levels j indent t, spaces indent -> ts json_float refmap levels j indent = Ok t -> closed t.
Proof using Hfloat.
  intros Hr levels. induction levels as [|n IH]; intros j indent t Hi; [by intros [= <-]; apply closed_plain|].
  destruct j as [|[]| | | | |s]; cbn [ts]; try (intros [= <-]; by apply closed_plain). intros E. apply result_bind_ok in E as (x & Hx & E). injection E as <-.
  apply (closed_ts1 refmap Hr _ IH) in Hx; [|done]. repeat case_match; try done. apply closed_union. apply Forall_cons. split; [done|]. by apply Forall_singleton, closed_plain.
Qed.

(** ** Names *)

Lemma ident_base_word name : forallb name_rest (ident_base name) = true /\ exists c s, ident_base name = c :: s /\ name_first c = true.
Proof.
  assert (Hs : forallb name_rest (sub_ident name) = true).
  { apply forallb_forall. intros c Hc. apply list_elem_of_In in Hc. unfold sub_ident in Hc. apply list_elem_of_fmap in Hc as (d & -> & _). unfold NON_IDENT. by destruct (name_rest d) eqn:E. }
  unfold ident_base. destruct (sub_ident name) as [|c s]; [split; [done | by eexists _, _]|]. cbn [forallb] in Hs. apply andb_true_iff in Hs as [Hc Hs].
  destruct (is_digit c) eqn:Ed; (split; [cbn; by rewrite Hc, Hs|]).
  - by eexists _, _.
  - exists c, s. split; [done|]. unfold name_rest in Hc. rewrite Ed in Hc. by destruct (name_first c).
Qed.

Lemma word_plain t : forallb name_rest t = true -> forallb plain t = true.
Proof. rewrite !forallb_forall. intros H' c Hc. by apply plain_rest, H'. Qed.

Lemma type_name_plain name : forallb plain (_type_name name) = true.
Proof. destruct (ident_base_word name) as [Hb _]. apply word_plain in Hb. unfold _type_name. case_match; [by rewrite forallb_app, Hb | done]. Qed.
Lemma js_identifier_plain name : forallb plain (_js_identifier name) = true.
Proof. destruct (ident_base_word name) as [Hb _]. apply word_plain in Hb. unfold _js_identifier. case_match; [by rewrite forallb_app, Hb | done]. Qed.
Lemma numbered_plain base n : forallb plain base = true -> forallb plain (numbered base n) = true.
Proof. intros Hb. unfold numbered. rewrite !forallb_app, Hb. exact (int_plain n). Qed.
Lemma free_name_plain taken fuel base n : forallb plain base = true -> forallb plain (free_name taken fuel base n) = true.
Proof. intros Hb. revert n. induction fuel as [|fuel IH]; intros n; cbn; [by apply numbered_plain|]. case_match; [done | by apply numbered_plain]. Qed.
Lemma pick_name_plain taken base : forallb plain base = true -> forallb plain (pick_name taken base) = true.
Proof. intros Hb. unfold pick_name. case_match; [by apply free_name_plain | done]. Qed.

Definition writer_ok (w : _DtsWriter) : Prop := Forall (fun d => forallb plain d.1 = true /\ refs_ok d.2.(d_refs)) w.

Lemma register_ok root w : writer_ok w -> refs_ok (register json_float root w).1 /\ writer_ok (register json_float root w).2.
Proof.
  intros Hw. unfold register. cbv zeta. set (st0 := Registering _ _ _).
  assert (Hst : forall st, refs_ok (r_refs st) -> Forall (fun n => forallb plain n.1 = true) (r_new st) ->
    let st' := foldl (register_one json_float) st (found root) in refs_ok (r_refs st') /\ Forall (fun n => forallb plain n.1 = true) (r_new st')).
  { generalize (found root). intros l. induction l as [|[[ref name] schema] l IH]; intros st Hr Hn; [done|]. cbn [foldl]. apply IH.
    - intros r t. unfold register_one. case_match; cbn; (intros [[-> <-]|[_ Ht]]%lookup_insert_Some; [|by eapply Hr]); unfold decl_name; case_match; try apply free_name_plain; apply type_name_plain.
    - unfold register_one. case_match; cbn; [done|]. apply Forall_app. split; [done|]. repeat constructor. cbn. unfold decl_name. case_match; try apply free_name_plain; apply type_name_plain. }
  destruct (Hst st0) as [H1 H2]; [intros r t; cbn; by rewrite lookup_empty | by apply Forall_nil |]. split; [done|]. apply Forall_app. split; [done|]. apply Forall_fmap.
  eapply Forall_impl; [exact H2|]. intros n Hn. by split.
Qed.

Lemma closed_declaration indent d ls : spaces indent -> forallb plain d.1 = true -> refs_ok d.2.(d_refs) -> declaration json_float indent d = Ok ls -> closed_lines ls.
Proof using Hfloat.
  intros Hi Hn Hr. destruct d as [name d]. cbn [declaration]. intros E. apply result_bind_ok in E as (body & Hb & E). injection E as <-.
  apply closed_ts in Hb; [|done|done]. apply closed_lines_app; [by apply closed_comment|]. apply closed_line. case_match.
  - apply closed_app; [by apply spaces_closed|]. apply (closed_app (u "interface ")); [by apply closed_plain|]. apply closed_app; [by apply closed_plain|]. by apply (closed_app (u " ")); [apply closed_plain|].
  - apply closed_app; [by apply spaces_closed|]. apply (closed_app (u "type ")); [by apply closed_plain|]. apply closed_app; [by apply closed_plain|]. apply (closed_app (u " = ")); [by apply closed_plain|].
    apply closed_app; [done | by apply closed_plain].
Qed.

Lemma closed_declarations indent w ls : spaces indent -> writer_ok w -> declarations json_float indent w = Ok ls -> closed_lines ls.
Proof using Hfloat.
  intros Hi Hw E. apply result_bind_ok in E as (blocks & Hb & E). injection E as <-.
  assert (Hall : Forall closed_lines blocks).
  { eapply map_result_all; [exact Hb|]. intros d y Hd. unfold writer_ok in Hw. rewrite Forall_forall in Hw. destruct (Hw d Hd). by apply closed_declaration. }
  destruct Hall as [|b bs Hb' Hbs]; [apply closed_nil|]. apply closed_lines_app; [done|]. apply closed_lines_concat, Forall_fmap. eapply Forall_impl; [exact Hbs|].
  intros x Hx. by apply (closed_lines_app [[]] x); [apply closed_line, closed_nil|].
Qed.

(** The signature of a tool. *)
Lemma closed_signature ident opt ptype rtype : forallb plain ident = true -> forallb plain opt = true -> closed ptype -> closed rtype ->
  closed (ident ++ u "(args" ++ opt ++ u ": " ++ ptype ++ u "): Promise<" ++ rtype ++ u ">").
Proof.
  intros Hid Ho Hp Hr. apply closed_app; [by apply closed_plain|].
  assert (E : u "(args" ++ opt ++ u ": " ++ ptype ++ u "): Promise<" ++ rtype ++ u ">" = ([40] ++ (u "args" ++ opt ++ u ": " ++ ptype) ++ [41]) ++ u ": Promise" ++ ([60] ++ rtype ++ [62])).
  { change (u "(args") with ([40] ++ u "args"). change (u "): Promise<") with ([41] ++ u ": Promise" ++ [60]). change (u ">") with [62]. by rewrite <- !app_assoc. }
  rewrite E. apply closed_app; [apply (closed_bracket 40 41); [done|]|].
  - apply (closed_app (u "args")); [by apply closed_plain|]. apply closed_app; [by apply closed_plain|]. by apply (closed_app (u ": ")); [apply closed_plain|].
  - apply (closed_app (u ": Promise")); [by apply closed_plain|]. by apply (closed_bracket 60 62).
Qed.

Lemma optional_plain params : forallb plain (optional_args params) = true.
Proof. unfold optional_args. repeat case_match; done. Qed.
Lemma closed_return refs returns indent t : refs_ok refs -> spaces indent -> return_type json_float refs returns indent = Ok t -> closed t.
Proof using Hfloat. intros Hr Hi. unfold return_type. destruct returns; try (by apply closed_ts). intros [= <-]. by apply closed_plain. Qed.

Definition names_ok (names : gmap (list Z) (list Z)) : Prop := forall n t, names !! n = Some t -> forallb plain t = true.
Lemma js_tool_names_plain l : names_ok (js_tool_names l).
Proof.
  unfold js_tool_names. assert (H' : forall st, names_ok st.1 -> names_ok (foldl add_name st l).1); [|apply H'; intros n t; cbn; by rewrite lookup_empty].
  induction l as [|x l IH]; intros st Hst; [done|]. cbn [foldl]. apply IH. intros n t. cbn [add_name fst]. intros [[<- <-]|[_ Ht]]%lookup_insert_Some; [apply pick_name_plain, js_identifier_plain | by eapply Hst].
Qed.

Lemma closed_function names indent t w ls w' : names_ok names -> spaces indent -> writer_ok w -> tool_function json_float names indent t w = Ok (ls, w') -> closed_lines ls /\ writer_ok w'.
Proof using Hfloat.
  intros Hn Hi Hw. unfold tool_function. cbv zeta. set (params := if truthy (t_params t) then _ else _).
  destruct (register_ok params w Hw) as [Hr1 Hw1]. destruct (register json_float params w) as [r1 w1]. cbn [fst snd] in *.
  destruct (register_ok (t_returns t) w1 Hw1) as [Hr2 Hw2]. destruct (register json_float (t_returns t) w1) as [r2 w2]. cbn [fst snd] in *.
  intros E. apply result_bind_ok in E as (pt & Hp & E). apply result_bind_ok in E as (rt & Hrt & E). injection E as <- <-. split; [|done].
  apply closed_lines_app; [by apply closed_comment|]. apply closed_line. apply closed_app; [by apply spaces_closed|]. apply (closed_app (u "function ")); [by apply closed_plain|].
  assert (Hid : forallb plain (default [] (names !! t_name t)) = true) by (destruct (names !! t_name t) eqn:E; [by eapply Hn | done]).
  pose proof (closed_signature _ _ pt rt Hid (optional_plain params) (closed_ts r1 Hr1 _ _ _ _ Hi Hp) (closed_return _ _ _ _ Hr2 Hi Hrt)) as Hsig.
  assert (Hsemi : closed (u ";")) by (by apply closed_plain). pose proof (closed_app _ _ Hsig Hsemi) as Hall. rewrite <- !app_assoc in Hall. exact Hall.
Qed.

Lemma closed_functions names indent tools : names_ok names -> spaces indent -> forall w fs w', writer_ok w -> tool_functions json_float names indent tools w = Ok (fs, w') -> Forall closed_lines fs /\ writer_ok w'.
Proof using Hfloat.
  intros Hn Hi. induction tools as [|t tools IH]; intros w fs w' Hw E; [injection E as <- <-; by split|]. cbn [tool_functions] in E.
  apply result_bind_ok in E as ([f w1] & Hf & E). apply result_bind_ok in E as ([fs1 w2] & Hfs & E). injection E as <- <-.
  destruct (closed_function _ _ _ _ _ _ Hn Hi Hw Hf) as [H1 H2]. destruct (IH _ _ _ H2 Hfs) as [H3 H4]. split; [by constructor | done].
Qed.
End confined.

(** ** Tool names *)

Lemma numbered_inj base m n : numbered base m = numbered base n -> m = n.
Proof.
  unfold numbered. intros H%app_inv_head%app_inv_head. by apply u_inj, str_of_int_inj in H.
Qed.

Lemma free_name_fresh (taken : list text) base fuel n :
  (exists k, (k <= fuel)%nat /\ numbered base (n + Z.of_nat k) ∉ taken) -> free_name (fun x => bool_decide (x ∈ taken)) fuel base n ∉ taken.
Proof.
  revert n. induction fuel as [|fuel IH]; intros n (k & Hk & Hn); cbn [free_name].
  - replace k with 0%nat in Hn by lia. by rewrite Z.add_0_r in Hn.
  - case_bool_decide as Hin; [|done]. apply IH. destruct k as [|k]; [by rewrite Z.add_0_r in Hn|]. exists k. split; [lia|]. by replace (n + 1 + Z.of_nat k) with (n + Z.of_nat (S k)) by lia.
Qed.

(** One more number than names taken: one is free. *)
Lemma pick_name_fresh taken base : pick_name taken base ∉ taken.
Proof.
  unfold pick_name. case_bool_decide as Hin; [|done]. apply free_name_fresh.
  destruct (decide (Exists (fun k => numbered base (2 + Z.of_nat k) ∉ taken) (seq 0 (S (length taken))))) as [He|He].
  - apply Exists_exists in He as (k & Hk & Hn). exists k. split; [apply elem_of_seq in Hk; lia | done].
  - exfalso. apply not_Exists_Forall in He; [|intros k; apply _]. set (l := (fun k => numbered base (2 + Z.of_nat k)) <$> seq 0 (S (length taken))).
    assert (Hnd : NoDup l) by (apply NoDup_fmap_2; [intros i j E; apply numbered_inj in E; lia | apply NoDup_seq]).
    assert (Hsub : l ⊆+ taken).
    { apply NoDup_submseteq; [done|]. intros x Hx. apply list_elem_of_fmap in Hx as (k & -> & Hk). rewrite Forall_forall in He. specialize (He k Hk). by apply dec_stable. }
    apply submseteq_length in Hsub. subst l. rewrite length_fmap, length_seq in Hsub. lia.
Qed.

Definition valid_name (t : text) : Prop := _SAFE_NAME t = true /\ one_of _JS_RESERVED t = false /\ _RESERVED_NAMES t = false.

Definition words : list string := _JS_RESERVED ++ ["__proto__"; "constructor"; "prototype"; "hasOwnProperty"; "toString"; "valueOf"].
Lemma reserved_words t : one_of _JS_RESERVED t || _RESERVED_NAMES t = one_of words t.
Proof. unfold one_of, _RESERVED_NAMES, words. by rewrite existsb_app. Qed.
Lemma one_of_in ws t : one_of ws t = true <-> exists w, w ∈ ws /\ t = u w.
Proof. unfold one_of. rewrite existsb_exists. setoid_rewrite bool_decide_eq_true. setoid_rewrite list_elem_of_In. done. Qed.

Lemma safe_name_more t s : _SAFE_NAME t = true -> forallb name_rest s = true -> _SAFE_NAME (t ++ s) = true.
Proof. destruct t as [|c t]; [done|]. cbn. intros [Hc Ht]%andb_true_iff Hs. by rewrite Hc, forallb_app, Ht, Hs. Qed.

Lemma uint_all_digits d : forallb is_digit (u (NilEmpty.string_of_uint d)) = true.
Proof. induction d; cbn; try done; exact IHd. Qed.
Lemma str_of_digits n : 0 < n -> exists s c, str_of n = s ++ [c] /\ is_digit c = true /\ forallb is_digit s = true.
Proof.
  intros Hn. assert (Hd : forallb is_digit (str_of n) = true /\ str_of n <> []).
  { destruct n as [|p|p]; [lia| |lia]. unfold str_of, str_of_int. cbn [Z.to_int NilZero.string_of_int]. pose proof (DecimalPos.Unsigned.to_uint_nonnil p) as Hnn.
    destruct (Pos.to_uint p) as [|d|d|d|d|d|d|d|d|d|d] eqn:E; [done|..]; (split; [|done]).
    all: match goal with |- context [NilZero.string_of_uint ?x] => exact (uint_all_digits x) end. }
  destruct Hd as [Hd Hne]. destruct (str_of n) as [|c s _] using rev_ind; [done|]. rewrite forallb_app in Hd. apply andb_true_iff in Hd as [H1 H2]. cbn in H2.
  exists s, c. split; [done|]. split; [by destruct (is_digit c) | done].
Qed.

Lemma js_identifier_valid name : valid_name (_js_identifier name).
Proof.
  destruct (ident_base_word name) as [Hw (c & s & E & Hc)]. assert (Hs : _SAFE_NAME (ident_base name) = true).
  { rewrite E in *. cbn in *. by apply andb_true_iff in Hw as [_ ->]; rewrite Hc. }
  unfold _js_identifier, valid_name. rewrite reserved_words. destruct (one_of words (ident_base name)) eqn:Ew.
  - split; [by apply safe_name_more|]. apply orb_false_iff. rewrite reserved_words. apply one_of_in in Ew as (w & Hin & ->).
    assert (Hall : forallb (fun w => negb (one_of words (u w ++ u "_"))) words = true) by (vm_compute; reflexivity). rewrite forallb_forall in Hall.
    apply negb_true_iff, Hall. by apply list_elem_of_In.
  - split; [done|]. apply orb_false_iff. by rewrite reserved_words.
Qed.

Lemma numbered_valid base n : 0 < n -> valid_name base -> valid_name (numbered base n).
Proof.
  intros Hn (H1 & H2 & H3). destruct (str_of_digits n Hn) as (s & c & E & Hc & Hs). unfold numbered. rewrite E.
  assert (Hr : forall d, is_digit d = true -> name_rest d = true) by (intros d Hd; unfold name_rest; rewrite Hd; apply orb_true_r).
  split; [apply safe_name_more; [done|]; change (u "_" ++ s ++ [c]) with (chr "_" :: (s ++ [c])); cbn [forallb]; rewrite forallb_app; cbn; rewrite (Hr c Hc);
          rewrite (proj2 (forallb_forall _ _)); [done|]; rewrite forallb_forall in Hs; auto|].
  apply orb_false_iff. rewrite reserved_words. destruct (one_of words _) eqn:Ew; [|done]. apply one_of_in in Ew as (w & Hin & Ew).
  assert (Hall : forallb (fun w => match rev (u w) with d :: _ => negb (is_digit d) | [] => true end) words = true) by (vm_compute; reflexivity).
  rewrite forallb_forall in Hall. specialize (Hall w (proj1 (list_elem_of_In _ _) Hin)). rewrite <- Ew, !app_assoc, rev_app_distr in Hall. cbn in Hall. by rewrite Hc in Hall.
Qed.

Lemma pick_name_valid taken base : valid_name base -> valid_name (pick_name taken base).
Proof.
  intros Hb. unfold pick_name. case_bool_decide; [|done]. assert (Hf : forall fuel n, 0 < n -> valid_name (free_name (fun x => bool_decide (x ∈ taken)) fuel base n)); [|apply Hf; lia].
  induction fuel as [|fuel IH]; intros n Hn; cbn; [by apply numbered_valid|]. case_match; [apply IH; lia | by apply numbered_valid].
Qed.

Record named (st : gmap (list Z) (list Z) * list text) (names : list text) : Prop := Named {
  nm_all : forall n, n ∈ names -> is_Some (st.1 !! n);
  nm_only : forall n t, st.1 !! n = Some t -> n ∈ names /\ t ∈ st.2 /\ valid_name t;
  nm_inj : forall n m t, st.1 !! n = Some t -> st.1 !! m = Some t -> n = m
}.

Lemma add_name_named st names n : named st names -> named (add_name st n) (names ++ [n]).
Proof.
  intros [Ha Ho Hi]. unfold add_name. set (t := pick_name st.2 (_js_identifier n)). assert (Hfresh : t ∉ st.2) by apply pick_name_fresh.
  split; cbn [fst snd].
  - intros m [Hm|Hm%list_elem_of_singleton]%elem_of_app; [|subst; by rewrite lookup_insert_eq]. destruct (decide (n = m)) as [->|]; [by rewrite lookup_insert_eq | rewrite lookup_insert_ne by done; by apply Ha].
  - intros m x [[<- <-]|[_ Hx]]%lookup_insert_Some; [split_and!; [set_solver | set_solver | apply pick_name_valid, js_identifier_valid]|]. destruct (Ho _ _ Hx) as (? & ? & ?). set_solver.
  - intros m m' x [[<- <-]|[Hn Hx]]%lookup_insert_Some [[<- E]|[Hn' Hx']]%lookup_insert_Some; [done| | |by eapply Hi].
    + exfalso. by apply Hfresh, (Ho _ _ Hx').
    + exfalso. apply Hfresh. rewrite E. by apply (Ho _ _ Hx).
Qed.

Lemma js_tool_names_named l : named (foldl add_name (∅, []) l) l.
Proof.
  assert (H : forall l st names, named st names -> named (foldl add_name st l) (names ++ l)).
  { clear l. induction l as [|n l IH]; intros st names Hs; cbn; [by rewrite app_nil_r|]. rewrite cons_middle, app_assoc. apply IH. by apply add_name_named. }
  apply (H l (∅, []) []). split; cbn; [set_solver | intros n t; by rewrite lookup_empty | intros n m t; by rewrite lookup_empty].
Qed.

(** ** Theorems *)

(** Every tool gets a JavaScript name: an identifier that is neither a reserved word nor the
    name of an object member, and that no other tool has.  So the loop that numbers colliding
    names ends, after no more turns than there are names taken. *)
Theorem js_tool_names_valid names n :
  n ∈ names ->
  exists ident, js_tool_names names !! n = Some ident /\ valid_name ident /\ forall n', js_tool_names names !! n' = Some ident -> n' = n.
Proof.
  intros Hn. destruct (js_tool_names_named names) as [Ha Ho Hi]. destruct (Ha n Hn) as [t Ht]. exists t. split; [exact Ht|]. split; [apply (Ho n t Ht)|].
  intros n' Hn'. by apply (Hi n' n t).
Qed.

Lemma js_tool_names_valid_witness :
  let names := [u "get-x"; u "get.x"; u "delete"; u "delete_"] in
  (exists ident, js_tool_names names !! u "get.x" = Some ident /\ valid_name ident) /\ js_tool_names names !! u "get.x" = Some (u "get_x_2") /\ js_tool_names names !! u "delete_" = Some (u "delete__2").
Proof.
  cbv zeta. split; [|split; vm_compute; reflexivity].
  destruct (js_tool_names_valid [u "get-x"; u "get.x"; u "delete"; u "delete_"] (u "get.x")) as (ident & H1 & H2 & _).
  - right. left.
  - exists ident. split; [exact H1 | exact H2].
Defined.

(** C20. The declarations generated for tools are one namespace, whatever the tools' names,
    descriptions and schemas say: between the brace that opens it and the one that closes it, every
    comment and string is closed, every bracket by its own, and no other quote, template, escape or
    comment begins.  What a schema brings in stays inside the comment or the string it was put in
    and cannot end the namespace it is declared in. *)
Theorem schema_text_confined `{Unicode} json_float tools ns t :
  (forall f, isfinite f = true -> forallb plain (json_float f) = true) ->
  schema_tools_to_dts json_float tools ns = Ok t ->
  exists body, t = u "declare namespace " ++ ns ++ u " {" ++ body ++ u "}" ++ [10] /\ closed body.
Proof.
  intros Hf. unfold schema_tools_to_dts. intros E. apply result_bind_ok in E as ([fs w] & Hfs & E). apply result_bind_ok in E as (decls & Hd & E). cbv zeta in E. apply Ok_inj in E as <-.
  assert (Hsp : spaces (u "  ")) by (by repeat constructor).
  destruct (closed_functions json_float Hf _ _ tools (js_tool_names_plain (t_name <$> tools)) Hsp [] fs w) as [Hcl Hw]; [by apply Forall_nil | exact Hfs|].
  apply (closed_declarations json_float Hf _ _ _ Hsp Hw) in Hd.
  set (blocks := List.filter _ _). assert (Hbody : closed (join_with [10; 10] (join_with [10] <$> blocks))).
  { apply closed_join; [by apply closed_plain|]. apply Forall_fmap, Forall_forall. intros b Hb. apply closed_join_lines. apply list_elem_of_In, List.filter_In in Hb as [Hb _].
    apply list_elem_of_In in Hb. apply elem_of_cons in Hb as [->|Hb]; [done|]. rewrite Forall_forall in Hcl. by apply Hcl. }
  destruct (join_with [10; 10] (join_with [10] <$> blocks)) as [|c body] eqn:Eb; [by exists []|].
  exists ([10] ++ (c :: body) ++ [10]). split; [by rewrite <- !app_assoc|]. apply closed_app; [by apply closed_plain|]. apply closed_app; [done | by apply closed_plain].
Qed.

(** A schema that would end the comment, the property and the namespace. *)
Definition hostile_schema : json :=
  JObj [(u "type", JStr (u "object")); (u "description", JStr (u "*/ } declare const x: any; /*"));
        (u "properties", JObj [([34] ++ u ": any } } declare const y: any //", JObj [(u "enum", JArr [JStr ([34] ++ u "; }"); JNull]); (u "default", JStr (u "**//"))])])].

Definition hostile_tools : list tool_def := [ToolDef (u "a*/b") (Some (u "x */ y")) hostile_schema hostile_schema true].

Lemma schema_text_confined_witness :
  exists t body, schema_tools_to_dts (H := ascii_unicode) (fun _ => u "1.5") hostile_tools (u "tools") = Ok t /\
    t = u "declare namespace tools {" ++ body ++ u "}" ++ [10] /\ closed body.
Proof.
  destruct (schema_tools_to_dts (H := ascii_unicode) (fun _ => u "1.5") hostile_tools (u "tools")) as [t|e] eqn:E; [|vm_compute in E; discriminate].
  assert (Hf : forall f, isfinite f = true -> forallb plain (u "1.5") = true) by (intros f _; vm_compute; reflexivity).
  destruct (schema_text_confined (H := ascii_unicode) (fun _ => u "1.5") hostile_tools (u "tools") t Hf E) as (body & Ht & Hc).
  exists t, body. split; [reflexivity|]. split; [exact Ht | exact Hc].
Defined.

(** A schema whose first definition may refer to its second. *)
Definition two_defs (node x : json) : json := JObj [(u "$defs", JObj [(u "Node", node); (u "X", x)])].

Lemma register_new json_float names new refs ref name schema ts :
  decl_name names (dumps json_float true true schema) (_type_name name) = ts -> assoc ts names = None ->
  register_one json_float (Registering names new refs) (ref, name, schema)
  = Registering (names ++ [(ts, dumps json_float true true schema)]) (new ++ [(ts, (dumps json_float true true schema, schema))]) (<[ref := ts]> refs).
Proof. intros E Hn. cbn [register_one r_names r_new r_refs]. by rewrite E, Hn. Qed.
Lemma register_known json_float names new refs ref name schema ts c :
  decl_name names (dumps json_float true true schema) (_type_name name) = ts -> assoc ts names = Some c ->
  register_one json_float (Registering names new refs) (ref, name, schema) = Registering names new (<[ref := ts]> refs).
Proof. intros E Hn. cbn [register_one r_names r_new r_refs]. by rewrite E, Hn. Qed.

(** Two tools that define a type of the same name and the same text share its declaration,
    also where that text refers to a type they define differently: the shared declaration is read
    with the first tool's references, so the second tool's own type, which gets another name, is
    not the one its declaration uses. *)
Theorem shared_declaration_mixes_references json_float node x1 x2 :
  dumps json_float true true x1 <> dumps json_float true true x2 ->
  let w1 := (register json_float (two_defs node x1) []).2 in
  let '(refs2, w2) := register json_float (two_defs node x2) w1 in
  refs2 !! u "#/$defs/Node" = Some (u "Node") /\ refs2 !! u "#/$defs/X" = Some (u "X_2") /\
  exists d, assoc (u "Node") w2 = Some d /\ d_refs d !! u "#/$defs/X" = Some (u "X").
Proof.
  intros Hne. cbv zeta. set (cn := dumps json_float true true node). set (c1 := dumps json_float true true x1) in *. set (c2 := dumps json_float true true x2) in *.
  assert (Hf : forall x names, foldl (register_one json_float) (Registering names [] ∅) (found (two_defs node x))
    = register_one json_float (register_one json_float (Registering names [] ∅) (u "#/$defs/Node", u "Node", node)) (u "#/$defs/X", u "X", x)) by reflexivity.
  assert (H1 : (register json_float (two_defs node x1) []).2
    = let refs := <[u "#/$defs/X" := u "X"]> (<[u "#/$defs/Node" := u "Node"]> ∅) in [(u "Node", Decl cn node refs); (u "X", Decl c1 x1 refs)]).
  { unfold register. rewrite Hf, (register_new json_float _ _ _ _ _ _ (u "Node")), (register_new json_float _ _ _ _ _ _ (u "X")) by reflexivity. reflexivity. }
  rewrite H1. cbv zeta. unfold register. rewrite Hf. cbn [fmap list_fmap fst snd canonical].
  assert (Hn : decl_name [(u "Node", cn); (u "X", c1)] cn (_type_name (u "Node")) = u "Node").
  { unfold decl_name. change (other_schema _ cn (_type_name (u "Node"))) with (negb (bool_decide (cn = cn))). by rewrite bool_decide_eq_true_2. }
  assert (Hx : decl_name [(u "Node", cn); (u "X", c1)] c2 (_type_name (u "X")) = u "X_2").
  { unfold decl_name. change (other_schema _ c2 (_type_name (u "X"))) with (negb (bool_decide (c1 = c2))). by rewrite bool_decide_eq_false_2. }
  rewrite (register_known json_float _ _ _ _ _ node (u "Node") cn Hn) by reflexivity. rewrite (register_new json_float _ _ _ _ _ x2 (u "X_2") Hx) by reflexivity.
  cbn [r_refs r_new]. rewrite lookup_insert_ne by discriminate. rewrite !lookup_insert_eq. split; [done|]. split; [done|]. eexists. split; [reflexivity|]. cbn [d_refs]. by rewrite lookup_insert_eq.
Qed.

Lemma shared_declaration_mixes_references_witness :
  let x1 := JObj [(u "type", JStr (u "string"))] in let x2 := JObj [(u "type", JStr (u "number"))] in
  let node := JObj [(u "properties", JObj [(u "x", JObj [(u "$ref", JStr (u "#/$defs/X"))])])] in
  let '(refs2, w2) := register (fun _ => []) (two_defs node x2) (register (fun _ => []) (two_defs node x1) []).2 in
  refs2 !! u "#/$defs/Node" = Some (u "Node") /\ refs2 !! u "#/$defs/X" = Some (u "X_2") /\
  (exists d, assoc (u "Node") w2 = Some d /\ d_refs d !! u "#/$defs/X" = Some (u "X")).
Proof.
  apply (shared_declaration_mixes_references (fun _ => []) (JObj [(u "properties", JObj [(u "x", JObj [(u "$ref", JStr (u "#/$defs/X"))])])])
    (JObj [(u "type", JStr (u "string"))]) (JObj [(u "type", JStr (u "number"))])).
  vm_compute. discriminate.
Defined.
