(* ===== verification/ThreadBudget.v ===== *)
(** * Thread budgets ([python/pydeno/_agent.py], [_ThreadBudget]; [_front.py], [_tool_budget], [_open_pool])

    A budget caps the session threads alive at once, for one pool, and is chained to the
    process-wide ceiling.  [acquire] takes the locks of the whole chain on the way up and raises
    the counts on the way back; [release] lowers one count after the other, each under its own
    lock.  Many threads do both at once: the unit of interleaving is one critical section, or
    the part of one up to the next budget's. *)

From S2P Require Import Prelude.
From Stdlib Require Import Sorted.

(** [lock]: the thread inside [with self.lock]. *)
Record _ThreadBudget := Budget { limit : Z; parent : option nat; count : Z; lock : option nat }.

Definition _UNBOUNDED_LIMIT : Z := 2 ^ 62.
Definition MAX_TOOL_THREADS : Z := 512.
Definition _PROCESS_THREADS : _ThreadBudget := Budget MAX_TOOL_THREADS None 0 None.

(** Budgets are numbered as they are made: a parent is made before its children. *)
Definition budget_ok (bs : list _ThreadBudget) : Prop :=
  forall b x p, bs !! b = Some x -> x.(parent) = Some p -> (p < b)%nat.

Fixpoint chain_from (fuel : nat) (bs : list _ThreadBudget) (b : nat) : list nat :=
  match fuel with
  | O => []
  | S fuel =>
      match bs !! b with
      | Some x => b :: match x.(parent) with Some p => chain_from fuel bs p | None => [] end
      | None => []
      end
  end.
(** The budget, its parent, and so on up to the ceiling. *)
Definition chain (bs : list _ThreadBudget) (b : nat) : list nat := chain_from (S b) bs b.

#[global] Arguments chain : simpl never.

(** Where a thread is in [acquire] or [release].  [held]: the locks it has, the last taken
    first; [todo]: the budgets still to enter. *)
Inductive stage :=
| Free
| Locking (held todo : list nat)
| Counting (held : list nat)
| Unwinding (held : list nat)
| Held
| Releasing (todo : list nat).

#[export] Instance stage_eq_dec : EqDecision stage.
Proof. solve_decision. Defined.

(** How a step of [acquire] or [release] leaves the thread. *)
Inductive outcome := Busy | Got | _ThreadsExhausted | Freed.

Definition set_lock (l : option nat) (x : _ThreadBudget) : _ThreadBudget := Budget x.(limit) x.(parent) x.(count) l.
Definition add_count (n : Z) (x : _ThreadBudget) : _ThreadBudget := Budget x.(limit) x.(parent) (x.(count) + n) x.(lock).

Definition acquire (bs : list _ThreadBudget) (b : nat) : stage := Locking [] (chain bs b).
Definition release (bs : list _ThreadBudget) (b : nat) : stage := Releasing (chain bs b).

(** The exception leaves one [with] statement after the other. *)
Definition unwind (held : list nat) : stage * outcome :=
  match held with [] => (Free, _ThreadsExhausted) | _ => (Unwinding held, Busy) end.

(** One step of the thread [me]; [None]: it waits for a lock, or is in neither operation. *)
Definition budget_step (me : nat) (bs : list _ThreadBudget) (st : stage) : option (list _ThreadBudget * (stage * outcome)) :=
  match st with
  | Locking held (b :: todo) =>
      x ← bs !! b;
      match x.(lock) with
      | Some _ => None
      | None =>
          if x.(limit) <=? x.(count) then Some (bs, unwind held)
          else Some (<[b := set_lock (Some me) x]> bs,
                     (match todo with [] => Counting (b :: held) | _ => Locking (b :: held) todo end, Busy))
      end
  | Counting (b :: held) =>
      x ← bs !! b;
      Some (<[b := set_lock None (add_count 1 x)]> bs, match held with [] => (Held, Got) | _ => (Counting held, Busy) end)
  | Unwinding (b :: held) =>
      x ← bs !! b;
      Some (<[b := set_lock None x]> bs, unwind held)
  | Releasing (b :: todo) =>
      x ← bs !! b;
      match x.(lock) with
      | Some _ => None
      | None => Some (<[b := add_count (-1) x]> bs, match todo with [] => (Free, Freed) | _ => (Releasing todo, Busy) end)
      end
  | _ => None
  end.

(** A [fork()]ed child has none of the parent's threads. *)
Definition _after_fork (x : _ThreadBudget) : _ThreadBudget := Budget x.(limit) x.(parent) 0 None.
Definition _budgets_after_fork (bs : list _ThreadBudget) : list _ThreadBudget := _after_fork <$> bs.

(** [_front.py]: the budget of a pool, and whether its cap was clamped (a warning). *)
Definition _tool_budget (max_tool_threads : Z) : result exn (_ThreadBudget * bool) :=
  if max_tool_threads <? 1 then Err (ValueError "max_tool_threads must be at least 1")
  else Ok (if MAX_TOOL_THREADS <? max_tool_threads then (Budget MAX_TOOL_THREADS (Some 0%nat) 0 None, true)
           else (Budget max_tool_threads (Some 0%nat) 0 None, false)).

(** [_OPEN_POOLS], and whether opening warns that the caps add up to more than the ceiling.
    [fatal]: warnings are errors. *)
Definition _open_pool (fatal : bool) (bs : list _ThreadBudget) (open : gset nat) (b : nat) : result exn (gset nat * bool) :=
  match bs !! b with
  | None => Err (KeyError "no such budget")
  | Some x =>
      let sum := total (fun i => match bs !! i with Some y => y.(limit) | None => 0 end) (elements open) + x.(limit) in
      let warns := MAX_TOOL_THREADS <? sum in
      if warns && fatal then Err (RuntimeError "RuntimeWarning") else Ok ({[b]} ∪ open, warns)
  end.
Definition _close_pool (open : gset nat) (b : nat) : gset nat := open ∖ {[b]}.

(** ** Chains *)

Lemma chain_from_enough bs : budget_ok bs -> forall b f1 f2, (b < f1)%nat -> (b < f2)%nat -> chain_from f1 bs b = chain_from f2 bs b.
Proof.
  intros Hok b. induction (lt_wf b) as [b _ IH]. intros f1 f2 H1 H2.
  destruct f1 as [|f1], f2 as [|f2]; try lia. cbn. destruct (bs !! b) as [x|] eqn:E; [|done].
  destruct (parent x) as [p|] eqn:Ep; [|done]. pose proof (Hok _ _ _ E Ep). f_equal. apply IH; lia.
Qed.

Lemma chain_step bs b x : budget_ok bs -> bs !! b = Some x ->
  chain bs b = b :: match x.(parent) with Some p => chain bs p | None => [] end.
Proof.
  intros Hok E. unfold chain at 1. cbn [chain_from]. rewrite E. f_equal. destruct (parent x) as [p|] eqn:Ep; [|done].
  unfold chain. pose proof (Hok _ _ _ E Ep). apply chain_from_enough; [done|lia..].
Qed.

Lemma chain_none bs b : bs !! b = None -> chain bs b = [].
Proof. intros E. unfold chain. cbn. by rewrite E. Qed.

(** Going up a chain the numbers fall. *)
Lemma chain_down bs b : budget_ok bs -> StronglySorted (fun i j => (j < i)%nat) (chain bs b) /\ Forall (fun i => (i <= b)%nat) (chain bs b).
Proof.
  intros Hok. induction (lt_wf b) as [b _ IH]. destruct (bs !! b) as [x|] eqn:E; [|rewrite chain_none by done; by repeat constructor].
  rewrite (chain_step _ _ _ Hok E). destruct (parent x) as [p|] eqn:Ep; [|by repeat constructor].
  pose proof (Hok _ _ _ E Ep) as Hp. destruct (IH p Hp) as [H1 H2]. split.
  - constructor; [done|]. eapply Forall_impl; [exact H2|]. cbn. lia.
  - constructor; [lia|]. eapply Forall_impl; [exact H2|]. cbn. lia.
Qed.

Lemma chain_nodup bs b : budget_ok bs -> NoDup (chain bs b).
Proof.
  intros Hok. destruct (chain_down bs b Hok) as [H _]. induction H as [|i l _ IH Hi]; constructor; [|done].
  intros Hin. rewrite Forall_forall in Hi. specialize (Hi _ Hin). lia.
Qed.

Lemma chain_exists bs b i : budget_ok bs -> i ∈ chain bs b -> is_Some (bs !! i).
Proof.
  intros Hok. induction (lt_wf b) as [b _ IH]. destruct (bs !! b) as [x|] eqn:E; [|rewrite chain_none by done; intros []%elem_of_nil].
  rewrite (chain_step _ _ _ Hok E). intros [->|Hi]%elem_of_cons; [by eexists|].
  destruct (parent x) as [p|] eqn:Ep; [|by apply elem_of_nil in Hi]. apply (IH p); [by eapply Hok|done].
Qed.

(** The chain is a matter of the parents only. *)
Definition same_shape (bs bs' : list _ThreadBudget) : Prop :=
  (fun x => (x.(limit), x.(parent))) <$> bs = (fun x => (x.(limit), x.(parent))) <$> bs'.

Lemma same_shape_lookup bs bs' b : same_shape bs bs' ->
  (fun x => (x.(limit), x.(parent))) <$> bs !! b = (fun x => (x.(limit), x.(parent))) <$> bs' !! b.
Proof. intros H. rewrite <- !list_lookup_fmap. by rewrite H. Qed.

Lemma chain_shape bs bs' b : same_shape bs bs' -> chain bs b = chain bs' b.
Proof.
  intros H. unfold chain. generalize (S b) as f. intros f. revert b. induction f as [|f IH]; intros b; cbn; [done|].
  pose proof (same_shape_lookup _ _ b H) as Hb. destruct (bs !! b) as [x|], (bs' !! b) as [y|]; cbn in Hb; try done.
  injection Hb as _ Hp. rewrite Hp. f_equal. destruct (parent y); [apply IH|done].
Qed.

Lemma same_shape_insert bs b x y : bs !! b = Some x -> x.(limit) = y.(limit) -> x.(parent) = y.(parent) -> same_shape bs (<[b := y]> bs).
Proof.
  intros E H1 H2. unfold same_shape. rewrite list_fmap_insert. symmetry. apply list_insert_id.
  rewrite list_lookup_fmap, E. cbn. by rewrite H1, H2.
Qed.

Lemma same_shape_ok bs bs' : same_shape bs bs' -> budget_ok bs -> budget_ok bs'.
Proof.
  intros H Hok b y p E Ep. pose proof (same_shape_lookup _ _ b H) as Hb. rewrite E in Hb.
  destruct (bs !! b) as [x|] eqn:Ex; cbn in Hb; [|done]. injection Hb as _ Hp. eapply Hok; [exact Ex|]. congruence.
Qed.

(** ** The invariant of budgets and the threads that hold them *)

Definition locks_of (st : stage) : list nat :=
  match st with Locking held _ | Counting held | Unwinding held => held | _ => [] end.
(** The locks under which room was seen. *)
Definition promised (st : stage) : list nat := match st with Locking held _ | Counting held => held | _ => [] end.

(** Does the count of [c] include a thread with the chain [ch]? *)
Definition claims (ch : list nat) (st : stage) (c : nat) : Z :=
  match st with
  | Held => if bool_decide (c ∈ ch) then 1 else 0
  | Counting held => if bool_decide (c ∈ ch /\ c ∉ held) then 1 else 0
  | Releasing todo => if bool_decide (c ∈ todo) then 1 else 0
  | _ => 0
  end.

Definition shape (ch : list nat) (st : stage) : Prop :=
  match st with
  | Free => True
  | Locking held todo => todo <> [] /\ ch = reverse held ++ todo
  | Counting held | Unwinding held => held <> [] /\ exists rest, ch = reverse held ++ rest
  | Held => ch <> []
  | Releasing todo => todo <> [] /\ exists gone, ch = gone ++ todo
  end.

Implicit Types (bs : list _ThreadBudget) (hs : list (nat * stage)).

(** The threads counted by [c]. *)
Definition charged bs hs (c : nat) : Z := total (fun h => claims (chain bs h.1) h.2 c) hs.

Lemma charged_shape bs bs' hs c : same_shape bs bs' -> charged bs hs c = charged bs' hs c.
Proof. intros H. unfold charged. induction hs as [|h hs IH]; cbn [total]; [done|]. by rewrite IH, (chain_shape _ _ _ H). Qed.

Lemma charged_insert bs hs i b st st' c : hs !! i = Some (b, st) ->
  charged bs (<[i := (b, st')]> hs) c = charged bs hs c - claims (chain bs b) st c + claims (chain bs b) st' c.
Proof. intros H. unfold charged. by rewrite (total_insert _ _ _ _ _ H). Qed.

Record budgets_inv bs hs : Prop := {
  bi_ok : budget_ok bs;
  bi_made i b st : hs !! i = Some (b, st) -> (b < length bs)%nat;
  bi_shape i b st : hs !! i = Some (b, st) -> shape (chain bs b) st;
  bi_count c x : bs !! c = Some x -> x.(count) = charged bs hs c;
  bi_lock c x i : bs !! c = Some x -> x.(lock) = Some i <-> exists h, hs !! i = Some h /\ c ∈ locks_of h.2;
  bi_room c x i h : bs !! c = Some x -> hs !! i = Some h -> c ∈ promised h.2 -> x.(count) < x.(limit);
  bi_cap c x : bs !! c = Some x -> x.(count) <= x.(limit)
}.

Lemma promised_locks st : promised st ⊆ locks_of st.
Proof. destruct st; cbn; set_solver. Qed.

(** One budget changes, under its lock, with one thread. *)
Lemma budgets_inv_update bs hs i b st st' c x y : let ch := chain bs b in
  budgets_inv bs hs -> hs !! i = Some (b, st) -> bs !! c = Some x -> x.(limit) = y.(limit) -> x.(parent) = y.(parent) ->
  shape ch st' -> (forall d, d <> c -> claims ch st' d = claims ch st d) ->
  y.(count) = x.(count) + claims ch st' c - claims ch st c ->
  (forall d, d <> c -> d ∈ locks_of st' <-> d ∈ locks_of st) ->
  (x.(lock) = None \/ x.(lock) = Some i) ->
  (y.(lock) = None /\ c ∉ locks_of st' \/ y.(lock) = Some i /\ c ∈ locks_of st') ->
  (forall d, d <> c -> d ∈ promised st' -> d ∈ promised st) -> (c ∈ promised st' -> y.(count) < y.(limit)) -> y.(count) <= y.(limit) ->
  budgets_inv (<[c := y]> bs) (<[i := (b, st')]> hs).
Proof.
  intros ch I Hi Hc Hl Hp Hsh Hd Hcount Hlocks Hx Hy Hprom Hroom Hcap.
  pose proof (same_shape_insert _ _ _ _ Hc Hl Hp) as Hss.
  assert (Hch : forall b', chain (<[c := y]> bs) b' = chain bs b') by (intros; symmetry; by apply chain_shape).
  assert (Hlen : (i < length hs)%nat) by by eapply lookup_lt_Some.
  assert (Hclen : (c < length bs)%nat) by by eapply lookup_lt_Some.
  assert (Hothers : forall j h, j <> i -> hs !! j = Some h -> c ∉ locks_of h.2).
  { intros j h Hne Hj Hin. assert (Hlk : lock x = Some j) by (apply (bi_lock _ _ I c x j Hc); eauto).
    destruct Hx as [Hx|Hx]; congruence. }
  split.
  - eapply same_shape_ok; [exact Hss|apply I].
  - intros j b' st'' Hj. rewrite length_insert. destruct (decide (i = j)) as [<-|Hne].
    + rewrite list_lookup_insert_eq in Hj by done. injection Hj as <- <-. by eapply bi_made.
    + rewrite list_lookup_insert_ne in Hj by done. by eapply bi_made.
  - intros j b' st'' Hj. rewrite Hch. destruct (decide (i = j)) as [<-|Hne].
    + rewrite list_lookup_insert_eq in Hj by done. injection Hj as <- <-. exact Hsh.
    + rewrite list_lookup_insert_ne in Hj by done. by eapply bi_shape.
  - intros d z Hz. rewrite <- (charged_shape _ _ _ _ Hss), (charged_insert _ _ _ _ _ _ _ Hi). destruct (decide (c = d)) as [<-|Hne].
    + rewrite list_lookup_insert_eq in Hz by done. injection Hz as <-. rewrite Hcount, (bi_count _ _ I _ _ Hc). subst ch. lia.
    + rewrite list_lookup_insert_ne in Hz by done. rewrite (bi_count _ _ I _ _ Hz). specialize (Hd d ltac:(congruence)). subst ch. lia.
  - intros d z j Hz. destruct (decide (c = d)) as [<-|Hne].
    + rewrite list_lookup_insert_eq in Hz by done. injection Hz as <-. split.
      * intros Hlk. destruct Hy as [[Hy _]|[Hy Hin]]; [congruence|]. assert (j = i) as -> by congruence. exists (b, st').
        by rewrite list_lookup_insert_eq.
      * intros (h & Hj & Hin). destruct (decide (i = j)) as [<-|Hnj].
        -- rewrite list_lookup_insert_eq in Hj by done. injection Hj as <-. cbn in Hin. destruct Hy as [[_ Hy]|[Hy _]]; [by destruct Hy|done].
        -- rewrite list_lookup_insert_ne in Hj by done. destruct (Hothers j h ltac:(congruence) Hj Hin).
    + rewrite list_lookup_insert_ne in Hz by done. rewrite (bi_lock _ _ I d z j Hz). destruct (decide (i = j)) as [<-|Hnj].
      * rewrite Hi. rewrite list_lookup_insert_eq by done. split; intros (h & [= <-] & Hin); (eexists; split; [done|]; cbn in *; by apply Hlocks).
      * by rewrite list_lookup_insert_ne.
  - intros d z j h Hz Hj Hin. destruct (decide (c = d)) as [<-|Hne].
    + rewrite list_lookup_insert_eq in Hz by done. injection Hz as <-. destruct (decide (i = j)) as [<-|Hnj].
      * rewrite list_lookup_insert_eq in Hj by done. injection Hj as <-. by apply Hroom.
      * rewrite list_lookup_insert_ne in Hj by done. destruct (Hothers j h ltac:(congruence) Hj). by apply promised_locks.
    + rewrite list_lookup_insert_ne in Hz by done. destruct (decide (i = j)) as [<-|Hnj].
      * rewrite list_lookup_insert_eq in Hj by done. injection Hj as <-. eapply (bi_room _ _ I d z i (b, st)); [done..|]. cbn in *. by apply Hprom.
      * rewrite list_lookup_insert_ne in Hj by done. by eapply (bi_room _ _ I d z j h).
  - intros d z Hz. destruct (decide (c = d)) as [<-|Hne].
    + rewrite list_lookup_insert_eq in Hz by done. by injection Hz as <-.
    + rewrite list_lookup_insert_ne in Hz by done. by eapply bi_cap.
Qed.

(** What a step of a thread sees of its own budget. *)
Lemma own_lock bs hs i b st c x : budgets_inv bs hs -> hs !! i = Some (b, st) -> c ∈ locks_of st -> bs !! c = Some x -> x.(lock) = Some i.
Proof. intros I Hi Hin Hc. apply (bi_lock _ _ I c x i Hc). by exists (b, st). Qed.

Lemma shape_nodup bs hs i b st : budgets_inv bs hs -> hs !! i = Some (b, st) -> NoDup (locks_of st) /\ locks_of st ⊆ chain bs b.
Proof.
  intros I Hi. pose proof (bi_shape _ _ I _ _ _ Hi) as Hsh. pose proof (chain_nodup bs b (bi_ok _ _ I)) as Hnd.
  destruct st as [|held todo|held|held| |todo]; cbn; try (split; [constructor|set_solver]); cbn in Hsh.
  all: assert (Hr : exists rest, chain bs b = reverse held ++ rest) by naive_solver.
  all: destruct Hr as [rest Hr]; rewrite Hr in Hnd |- *; apply NoDup_app in Hnd as [Hnd _]; split; [by rewrite reverse_Permutation in Hnd|].
  all: intros d Hd; apply elem_of_app; left; by apply elem_of_reverse.
Qed.

Lemma claims_zero ch st c : shape ch st -> c ∉ ch -> claims ch st c = 0.
Proof.
  destruct st; cbn; intros Hs Hc; try done; (rewrite bool_decide_false; [done|]); [tauto|done|].
  destruct Hs as [_ [gone ->]]. set_solver.
Qed.

(** The stages a step can lead to. *)
Lemma unwind_facts ch held rest : ch = reverse held ++ rest ->
  locks_of (unwind held).1 = held /\ promised (unwind held).1 = [] /\ shape ch (unwind held).1 /\ forall d, claims ch (unwind held).1 d = 0.
Proof. intros ->. destruct held; cbn; split_and!; try done. by exists rest. Qed.

Definition locked (held todo : list nat) : stage := match todo with [] => Counting held | _ => Locking held todo end.
Lemma locked_facts ch held todo : ch = reverse held ++ todo -> held <> [] ->
  locks_of (locked held todo) = held /\ promised (locked held todo) = held /\ shape ch (locked held todo) /\
  forall d, claims ch (locked held todo) d = 0.
Proof.
  intros -> Hne. destruct todo as [|c todo]; cbn; split_and!; try done; [by exists []|].
  intros d. rewrite bool_decide_false; [done|]. rewrite app_nil_r, elem_of_reverse. tauto.
Qed.

Definition counted (held : list nat) : stage := match held with [] => Held | _ => Counting held end.
Lemma counted_facts ch held rest : ch = reverse held ++ rest -> ch <> [] ->
  locks_of (counted held) = held /\ promised (counted held) = held /\ shape ch (counted held) /\
  forall d, claims ch (counted held) d = if bool_decide (d ∈ ch /\ d ∉ held) then 1 else 0.
Proof.
  intros -> Hne. destruct held as [|c held]; cbn; split_and!; try done; [|by exists rest].
  intros d. rewrite (bool_decide_ext (d ∈ rest /\ d ∉ []) (d ∈ rest)); [done|]. rewrite elem_of_nil. tauto.
Qed.

Definition freed (todo : list nat) : stage := match todo with [] => Free | _ => Releasing todo end.
Lemma freed_facts ch todo gone : ch = gone ++ todo ->
  locks_of (freed todo) = [] /\ promised (freed todo) = [] /\ shape ch (freed todo) /\
  forall d, claims ch (freed todo) d = if bool_decide (d ∈ todo) then 1 else 0.
Proof. intros ->. destruct todo; cbn; split_and!; try done. by exists gone. Qed.

Lemma budget_step_inv bs hs i b st bs' st' o :
  budgets_inv bs hs -> hs !! i = Some (b, st) -> budget_step i bs st = Some (bs', (st', o)) ->
  budgets_inv bs' (<[i := (b, st')]> hs).
Proof.
  intros I Hi E. pose proof (bi_shape _ _ I _ _ _ Hi) as Hsh. pose proof (chain_nodup bs b (bi_ok _ _ I)) as Hnd.
  destruct st as [|held [|c todo]|[|c held]|[|c held]| |[|c todo]]; cbn in E; try done.
  all: destruct (bs !! c) as [x|] eqn:Ec; cbn in E; [|done].
  all: pose proof (bi_cap _ _ I _ _ Ec) as Hcap; pose proof (bi_room _ _ I c x i _ Ec Hi) as Hroom; pose proof (own_lock _ _ _ _ _ c x I Hi) as Hown.
  all: cbn [promised locks_of snd shape] in *.
  - destruct Hsh as [_ Hch]. assert (Hc : c ∉ held) by (rewrite Hch in Hnd; apply NoDup_app in Hnd as (_ & Hnd & _); set_solver).
    destruct (lock x) eqn:Elk; [done|]. destruct (limit x <=? count x) eqn:El; bool_prop.
    + destruct (unwind_facts _ _ _ Hch) as (Hl & Hp & Hs & Hcl). injection E as <- E. rewrite E in *. cbn [fst] in *.
      rewrite <- (list_insert_id bs c x) by done.
      eapply (budgets_inv_update _ _ _ _ _ _ _ x x); try done; rewrite ?Hl, ?Hp, ?Hcl; cbn; eauto; try set_solver; lia.
    + destruct (locked_facts (chain bs b) (c :: held) todo) as (Hl & Hp & Hs & Hcl); [by rewrite reverse_cons, <- app_assoc|done|].
      fold (locked (c :: held) todo) in E. injection E as <- <- <-.
      eapply (budgets_inv_update _ _ _ _ _ _ _ x); try done; rewrite ?Hl, ?Hp, ?Hcl; cbn; eauto; try set_solver; lia.
  - destruct Hsh as [_ [rest Hch]]. rewrite reverse_cons, <- app_assoc in Hch. cbn in Hch.
    assert (Hc : c ∉ held) by (rewrite Hch in Hnd; apply NoDup_app in Hnd as (_ & Hnd & _); set_solver).
    assert (Hin : c ∈ chain bs b) by (rewrite Hch; set_solver).
    destruct (counted_facts (chain bs b) held (c :: rest)) as (Hl & Hp & Hs & Hcl); [done|by intros Hz; rewrite Hz in Hin; apply elem_of_nil in Hin|].
    fold (counted held) in E. assert (bs' = <[c := set_lock None (add_count 1 x)]> bs /\ st' = counted held) as [-> ->] by (destruct held; by injection E as <- <- _).
    eapply (budgets_inv_update _ _ _ _ _ _ _ x); try done; rewrite ?Hl, ?Hp, ?Hcl; cbn; eauto; try set_solver.
    + intros d Hd. rewrite Hcl. erewrite bool_decide_ext; [done|]. set_solver.
    + rewrite (bool_decide_true (_ /\ c ∉ held)), bool_decide_false by set_solver. lia.
    + specialize (Hroom ltac:(left)). lia.
  - destruct Hsh as [_ [rest Hch]]. rewrite reverse_cons, <- app_assoc in Hch. cbn in Hch.
    assert (Hc : c ∉ held) by (rewrite Hch in Hnd; apply NoDup_app in Hnd as (_ & Hnd & _); set_solver).
    destruct (unwind_facts _ _ _ Hch) as (Hl & Hp & Hs & Hcl). injection E as <- E. rewrite E in *. cbn [fst] in *.
    eapply (budgets_inv_update _ _ _ _ _ _ _ x); try done; rewrite ?Hl, ?Hp, ?Hcl; cbn; eauto; try set_solver; try lia.
  - destruct Hsh as [_ [gone Hch]]. destruct (lock x) eqn:Elk; [done|].
    assert (Hc : c ∉ todo) by (rewrite Hch in Hnd; apply NoDup_app in Hnd as (_ & _ & Hnd); by apply NoDup_cons in Hnd as [? _]).
    destruct (freed_facts (chain bs b) todo (gone ++ [c])) as (Hl & Hp & Hs & Hcl); [by rewrite <- app_assoc|].
    fold (freed todo) in E. assert (bs' = <[c := add_count (-1) x]> bs /\ st' = freed todo) as [-> ->] by (destruct todo; by injection E as <- <- _).
    eapply (budgets_inv_update _ _ _ _ _ _ _ x); try done; rewrite ?Hl, ?Hp, ?Hcl; cbn; eauto; try set_solver; try lia.
    + intros d Hd. rewrite Hcl. erewrite bool_decide_ext; [done|]. set_solver.
    + rewrite bool_decide_false, bool_decide_true by set_solver. lia.
Qed.

(** ** Starting either operation, new threads, new budgets *)

Lemma lookup_insert_case {A} (l : list A) i j x y z : l !! i = Some x -> <[i := y]> l !! j = Some z -> j = i /\ z = y \/ j <> i /\ l !! j = Some z.
Proof.
  intros Hi Hj. destruct (decide (i = j)) as [<-|Hne].
  - rewrite list_lookup_insert_eq in Hj by by eapply lookup_lt_Some. left. split; congruence.
  - rewrite list_lookup_insert_ne in Hj by done. right. split; congruence.
Qed.

(** A step that touches no count and no lock. *)
Lemma budgets_inv_stage bs hs i b st st' :
  budgets_inv bs hs -> hs !! i = Some (b, st) -> shape (chain bs b) st' ->
  (forall d, claims (chain bs b) st' d = claims (chain bs b) st d) -> locks_of st' = locks_of st -> promised st' ⊆ promised st ->
  budgets_inv bs (<[i := (b, st')]> hs).
Proof.
  intros I Hi Hs Hcl Hl Hp. assert (Hlen : (i < length hs)%nat) by by eapply lookup_lt_Some. split; [apply I|..].
  - intros j b' st'' Hj. destruct (lookup_insert_case _ _ _ _ _ _ Hi Hj) as [[-> [= -> ->]]|[_ Hj']]; by eapply bi_made.
  - intros j b' st'' Hj. destruct (lookup_insert_case _ _ _ _ _ _ Hi Hj) as [[-> [= -> ->]]|[_ Hj']]; [done|by eapply bi_shape].
  - intros c x Hc. rewrite (charged_insert _ _ _ _ _ _ _ Hi), Hcl, (bi_count _ _ I _ _ Hc). lia.
  - intros c x j Hc. rewrite (bi_lock _ _ I c x j Hc). destruct (decide (i = j)) as [<-|Hne].
    + rewrite Hi, list_lookup_insert_eq by done. split; intros (h & [= <-] & Hin); (eexists; split; [done|]; cbn in *; congruence).
    + by rewrite list_lookup_insert_ne.
  - intros c x j h Hc Hj Hin. destruct (lookup_insert_case _ _ _ _ _ _ Hi Hj) as [[-> ->]|[_ Hj']].
    + eapply (bi_room _ _ I c x i); [done..|]. by apply Hp.
    + by eapply (bi_room _ _ I c x j).
  - apply I.
Qed.

Lemma budgets_inv_acquire bs hs i b : budgets_inv bs hs -> hs !! i = Some (b, Free) -> budgets_inv bs (<[i := (b, acquire bs b)]> hs).
Proof.
  intros I Hi. eapply budgets_inv_stage; try done. split; [|done].
  destruct (lookup_lt_is_Some_2 _ _ (bi_made _ _ I _ _ _ Hi)) as [x Hx]. by rewrite (chain_step _ _ _ (bi_ok _ _ I) Hx).
Qed.

Lemma budgets_inv_release bs hs i b : budgets_inv bs hs -> hs !! i = Some (b, Held) -> budgets_inv bs (<[i := (b, release bs b)]> hs).
Proof.
  intros I Hi. eapply budgets_inv_stage; try done. split; [by apply (bi_shape _ _ I _ _ _ Hi)|]. by exists [].
Qed.

Lemma budgets_inv_thread bs hs b : budgets_inv bs hs -> (b < length bs)%nat -> budgets_inv bs (hs ++ [(b, Free)]).
Proof.
  intros I Hb.
  assert (Hcase : forall j h, (hs ++ [(b, Free)]) !! j = Some h -> hs !! j = Some h \/ j = length hs /\ h = (b, Free)).
  { intros j h [?|[Hj E]]%lookup_app_Some; [by left|right]. destruct (j - length hs)%nat as [|k] eqn:Ej; [|done]. injection E as <-. split; [lia|done]. }
  split; [apply I|..].
  - intros j b' st Hj. destruct (Hcase _ _ Hj) as [Hj'|[_ [= -> ->]]]; [by eapply bi_made|done].
  - intros j b' st Hj. destruct (Hcase _ _ Hj) as [Hj'|[_ [= -> ->]]]; [by eapply bi_shape|done].
  - intros c x Hc. unfold charged. rewrite total_app. cbn [total claims]. rewrite (bi_count _ _ I _ _ Hc). unfold charged. cbn. lia.
  - intros c x j Hc. rewrite (bi_lock _ _ I c x j Hc). split; intros (h & Hj & Hin).
    + exists h. split; [by apply lookup_app_l_Some|done].
    + destruct (Hcase _ _ Hj) as [Hj'|[_ ->]]; [by exists h|by apply elem_of_nil in Hin].
  - intros c x j h Hc Hj Hin. destruct (Hcase _ _ Hj) as [Hj'|[_ ->]]; [by eapply (bi_room _ _ I c x j)|by apply elem_of_nil in Hin].
  - apply I.
Qed.

Lemma budgets_inv_thread_acquire bs hs b : budgets_inv bs hs -> (b < length bs)%nat -> budgets_inv bs (hs ++ [(b, acquire bs b)]).
Proof.
  intros I Hb. pose proof (budgets_inv_acquire _ _ (length hs) b (budgets_inv_thread _ _ _ I Hb)) as H.
  rewrite (insert_app_r_alt hs), Nat.sub_diag in H by done. apply H. by apply list_lookup_middle.
Qed.

(** The budgets at the start of a process, and a pool's. *)
Lemma budgets_inv_start : budgets_inv [_PROCESS_THREADS] [].
Proof.
  split.
  - intros [|b] x p E; [|done]. by injection E as <-.
  - intros i b st E. done.
  - done.
  - intros [|c] x E; [|done]. by injection E as <-.
  - intros [|c] x i E; [|done]. injection E as <-. cbn. naive_solver.
  - done.
  - intros [|c] x E; [|done]. injection E as <-. cbn. unfold MAX_TOOL_THREADS. lia.
Qed.

Lemma budgets_inv_pool bs hs l p : budgets_inv bs hs -> (p < length bs)%nat -> 0 <= l -> budgets_inv (bs ++ [Budget l (Some p) 0 None]) hs.
Proof.
  intros I Hp Hl. set (new := Budget l (Some p) 0 None).
  assert (Hcase : forall c x, (bs ++ [new]) !! c = Some x -> bs !! c = Some x \/ c = length bs /\ x = new).
  { intros c x [?|[Hc E]]%lookup_app_Some; [by left|right]. destruct (c - length bs)%nat eqn:Ec; [|done]. injection E as <-. split; [lia|done]. }
  assert (Hok : budget_ok (bs ++ [new])).
  { intros c x q Hc Hq. destruct (Hcase _ _ Hc) as [Hc'|[-> ->]]; [by eapply (bi_ok _ _ I)|]. by injection Hq as <-. }
  assert (Hch : forall b, (b < length bs)%nat -> chain (bs ++ [new]) b = chain bs b).
  { intros b. induction (lt_wf b) as [b _ IH]. intros Hb. destruct (lookup_lt_is_Some_2 _ _ Hb) as [x Hx].
    rewrite (chain_step _ b x Hok) by by apply lookup_app_l_Some. rewrite (chain_step _ _ _ (bi_ok _ _ I) Hx). f_equal.
    destruct (parent x) as [q|] eqn:Eq; [|done]. pose proof (bi_ok _ _ I _ _ _ Hx Eq). apply IH; lia. }
  assert (Hbelow : forall b d, d ∈ chain bs b -> (d < length bs)%nat).
  { intros b d Hd. apply lookup_lt_is_Some_1. by eapply chain_exists; [apply I|]. }
  assert (Hcharged : forall c, charged (bs ++ [new]) hs c = charged bs hs c).
  { intros c. unfold charged. assert (Hall : forall h, h ∈ hs -> chain (bs ++ [new]) h.1 = chain bs h.1).
    { intros [b st] [i Hi]%list_elem_of_lookup. apply Hch. by eapply bi_made. }
    clear -Hall. induction hs as [|h hs IH]; cbn [total]; [done|]. rewrite (Hall h) by left. rewrite IH; [done|]. intros; apply Hall; by right. }
  split; [done|..].
  - intros i b st Hi. rewrite length_app. cbn. pose proof (bi_made _ _ I _ _ _ Hi). lia.
  - intros i b st Hi. rewrite Hch by by eapply bi_made. by eapply bi_shape.
  - intros c x Hc. rewrite Hcharged. destruct (Hcase _ _ Hc) as [Hc'|[-> ->]]; [by apply I|]. cbn. symmetry. apply total_zero.
    intros [b st] [i Hi]%list_elem_of_lookup. apply claims_zero; [by eapply bi_shape|]. intros Hd. specialize (Hbelow _ _ Hd). lia.
  - intros c x i Hc. destruct (Hcase _ _ Hc) as [Hc'|[-> ->]]; [by apply I|]. split; [done|]. intros ([b st] & Hi & Hin).
    apply (shape_nodup _ _ _ _ _ I Hi), Hbelow in Hin. lia.
  - intros c x i [b st] Hc Hi Hin. destruct (Hcase _ _ Hc) as [Hc'|[-> ->]]; [by eapply (bi_room _ _ I c x i)|].
    apply promised_locks, (shape_nodup _ _ _ _ _ I Hi), Hbelow in Hin. lia.
  - intros c x Hc. destruct (Hcase _ _ Hc) as [Hc'|[-> ->]]; [by eapply bi_cap|done].
Qed.

Lemma budgets_inv_fork bs hs : budgets_inv bs hs -> (forall c x, bs !! c = Some x -> 0 <= x.(limit)) -> budgets_inv (_budgets_after_fork bs) [].
Proof.
  intros I Hl. assert (Hcase : forall c y, _budgets_after_fork bs !! c = Some y -> exists x, bs !! c = Some x /\ y = _after_fork x).
  { intros c y Hy. unfold _budgets_after_fork in Hy. rewrite list_lookup_fmap in Hy. destruct (bs !! c) as [x|]; [|done]. injection Hy as <-. by exists x. }
  split; try done.
  - intros c y p Hy Hp. destruct (Hcase _ _ Hy) as (x & Hx & ->). by eapply (bi_ok _ _ I).
  - intros c y Hy. by destruct (Hcase _ _ Hy) as (x & Hx & ->).
  - intros c y i Hy. destruct (Hcase _ _ Hy) as (x & Hx & ->). cbn. naive_solver.
  - intros c y Hy. destruct (Hcase _ _ Hy) as (x & Hx & ->). cbn. eauto.
Qed.

(** ** No deadlock *)

Definition at_rest (st : stage) : bool := match st with Free | Held => true | _ => false end.
Definition can_step bs hs : Prop := exists j b st, hs !! j = Some (b, st) /\ is_Some (budget_step j bs st).

Lemma shape_last ch c held todo c' : StronglySorted (fun i j => (j < i)%nat) ch -> ch = reverse held ++ c' :: todo -> c ∈ held -> (c' < c)%nat.
Proof.
  intros Hs -> Hc. apply elem_of_reverse in Hc. induction (reverse held) as [|d l IH]; [by apply elem_of_nil in Hc|].
  cbn in Hs. apply StronglySorted_inv in Hs as [Hs Hd]. apply elem_of_cons in Hc as [->|Hc]; [|by apply IH].
  rewrite Forall_forall in Hd. apply Hd. set_solver.
Qed.

(** A taken lock is on its way to be given back: up the chain the locks waited for get smaller. *)
Lemma lock_progress bs hs c x j : budgets_inv bs hs -> bs !! c = Some x -> x.(lock) = Some j -> can_step bs hs.
Proof.
  intros I. revert x j. induction (lt_wf c) as [c _ IH]. intros x j Hx Hj.
  destruct (proj1 (bi_lock _ _ I _ _ _ Hx) Hj) as ([b st] & Hh & Hin). cbn in Hin.
  pose proof (bi_shape _ _ I _ _ _ Hh) as Hs. destruct (chain_down bs b (bi_ok _ _ I)) as [Hsort _].
  assert (Hbs : forall d, d ∈ chain bs b -> is_Some (bs !! d)) by (intros; by eapply chain_exists; [apply I|]).
  destruct st as [|held todo|held|held| |todo]; cbn in Hin, Hs; try (by apply elem_of_nil in Hin).
  - destruct Hs as [Hne Hch]. destruct todo as [|c' todo]; [done|]. destruct (Hbs c') as [y Hy]; [rewrite Hch; set_solver|].
    destruct (lock y) as [k|] eqn:Ek; [eapply (IH c'); [by eapply shape_last|done..]|].
    exists j, b, (Locking held (c' :: todo)). split; [done|]. cbn. rewrite Hy. cbn. rewrite Ek. destruct (_ <=? _); by eexists.
  - destruct Hs as [Hne [rest Hch]]. destruct held as [|c' held]; [done|]. destruct (Hbs c') as [y Hy]; [rewrite Hch, reverse_cons; set_solver|].
    exists j, b, (Counting (c' :: held)). split; [done|]. cbn. rewrite Hy. by eexists.
  - destruct Hs as [Hne [rest Hch]]. destruct held as [|c' held]; [done|]. destruct (Hbs c') as [y Hy]; [rewrite Hch, reverse_cons; set_solver|].
    exists j, b, (Unwinding (c' :: held)). split; [done|]. cbn. rewrite Hy. by eexists.
Qed.

Lemma budgets_progress bs hs i b st : budgets_inv bs hs -> hs !! i = Some (b, st) -> at_rest st = false -> can_step bs hs.
Proof.
  intros I Hi Hr. pose proof (bi_shape _ _ I _ _ _ Hi) as Hs.
  assert (Hbs : forall d, d ∈ chain bs b -> is_Some (bs !! d)) by (intros; by eapply chain_exists; [apply I|]).
  assert (Hfirst : exists d y, bs !! d = Some y /\ (lock y = None -> can_step bs hs) \/ can_step bs hs).
  { destruct st as [|held todo|held|held| |todo]; cbn in Hr, Hs; try done.
    - destruct Hs as [Hne Hch]. destruct todo as [|c todo]; [done|]. destruct (Hbs c) as [y Hy]; [rewrite Hch; set_solver|].
      exists c, y. left. split; [done|]. intros Hl. exists i, b, (Locking held (c :: todo)). split; [done|]. cbn. rewrite Hy. cbn. rewrite Hl. destruct (_ <=? _); by eexists.
    - destruct Hs as [Hne [rest Hch]]. destruct held as [|c held]; [done|]. destruct (Hbs c) as [y Hy]; [rewrite Hch, reverse_cons; set_solver|].
      exists c, y. right. exists i, b, (Counting (c :: held)). split; [done|]. cbn. rewrite Hy. by eexists.
    - destruct Hs as [Hne [rest Hch]]. destruct held as [|c held]; [done|]. destruct (Hbs c) as [y Hy]; [rewrite Hch, reverse_cons; set_solver|].
      exists c, y. right. exists i, b, (Unwinding (c :: held)). split; [done|]. cbn. rewrite Hy. by eexists.
    - destruct Hs as [Hne [gone Hch]]. destruct todo as [|c todo]; [done|]. destruct (Hbs c) as [y Hy]; [rewrite Hch; set_solver|].
      exists c, y. left. split; [done|]. intros Hl. exists i, b, (Releasing (c :: todo)). split; [done|]. cbn. rewrite Hy. cbn. rewrite Hl. by eexists. }
  destruct Hfirst as (d & y & [[Hy Hgo]|Hgo]); [|done]. destruct (lock y) eqn:E; [by eapply lock_progress|by apply Hgo].
Qed.

(** ** What the counts mean *)

Lemma charged_capped bs hs c x : budgets_inv bs hs -> bs !! c = Some x -> charged bs hs c <= x.(limit).
Proof. intros I Hx. rewrite <- (bi_count _ _ I _ _ Hx). by eapply bi_cap. Qed.

(** With no thread inside an operation, the count is the number of threads that hold a place. *)
Lemma charged_at_rest bs hs c : Forall (fun h => at_rest h.2 = true) hs ->
  charged bs hs c = total (fun h => if bool_decide (h.2 = Held /\ c ∈ chain bs h.1) then 1 else 0) hs.
Proof.
  intros Hr. apply total_ext. intros [b st] Hin. rewrite Forall_forall in Hr. specialize (Hr _ Hin). cbn in *.
  destruct st; try done; cbn. erewrite bool_decide_ext; [done|]. tauto.
Qed.
