(* ===== verification/ToolThread.v ===== *)
(** * Tool threads ([python/pydeno/_agent.py], [_ToolThread], [_Core], [_run_tool]; [_isolated.py], [_Outlasted])

    A session runs its plain tools on a thread of its own, started at the first such call and
    counted against a budget, and its asynchronous ones on its loop, which is counted from its
    first tool on.  A call that outlasts [tool_timeout] is given up on: it goes on in its thread,
    which is replaced by a new one on the same budget.  Sessions, their threads, and whoever
    closes a session take their steps in any order. *)

From S2P Require Import Prelude ThreadBudget.

(** ** [_Outlasted] and [_TimedCall] *)

Inductive future := Unsubmitted | Queued | Cancelled | Running | Finished.

#[export] Instance future_eq_dec : EqDecision future.
Proof. solve_decision. Defined.

(** A tool call of the session [by_]: its future, and the flags of its [_TimedCall].  [plain]: it
    runs on the tool thread; [timed]: under [tool_timeout]. *)
Record call := Call {
  by_ : nat; plain : bool; timed : bool; state : future; started : bool; done : bool; abandoned : bool
}.

Definition MAX_ABANDONED_TOOL_CALLS : Z := 8.

Definition set_state (f : future) (c : call) : call :=
  Call c.(by_) c.(plain) c.(timed) f c.(started) c.(done) c.(abandoned).
Definition set_flags (s d a : bool) (c : call) : call := Call c.(by_) c.(plain) c.(timed) c.(state) s d a.

(** The calls still running past their deadline. *)
Definition stuck (c : call) : bool := c.(started) && negb c.(done) && c.(abandoned).

Definition begin (c : call) : call * bool :=
  if c.(abandoned) then (c, false) else (set_flags true c.(done) c.(abandoned) c, true).
Definition finish (c : call) (count : Z) : call * Z :=
  (set_flags c.(started) true c.(abandoned) c, if c.(abandoned) && c.(started) then count - 1 else count).
Definition abandon (c : call) (count : Z) : call * Z * option Z :=
  if c.(done) then (c, count, None)
  else
    let count := if c.(started) then count + 1 else count in
    (set_flags c.(started) c.(done) true c, count, Some count).

(** ** Threads and sessions *)

Inductive kind := ToolThread | LoopThread.

#[export] Instance kind_eq_dec : EqDecision kind.
Proof. solve_decision. Defined.

(** What the operating system's thread does: [Waiting] on its queue; having taken a call and not
    yet asked [begin]; in the tool; with its result.  A loop thread is [Waiting] while its loop runs
    and [Winding] from the end of the loop until its cancelled tasks have ended too. *)
Inductive serving := NotStarted | Waiting | Beginning (c : nat) | InTool (c : nat) | Answering (c : nat) | Winding | Exited.

#[export] Instance serving_eq_dec : EqDecision serving.
Proof. solve_decision. Defined.

(** [place]: where the thread is with its budget; [queue]: calls, and the [None] that ends it;
    [ran]: the calls whose tool it entered, in order. *)
Record _ToolThread := Thread {
  owner : nat; of_kind : kind; budget : nat; closed : bool; place : stage; queue : list (option nat); serves : serving;
  ran : list nat
}.

(** Where the session's loop thread is in [_run_tool]: in [count_loop]; about to submit; in
    [submit], waiting for a place, starting the thread, or giving the place back; awaiting the
    call; after [abandon], [cancel] and the replacement of the thread. *)
Inductive whereabouts :=
| Idle
| Charging (c : nat)
| Submitting (c : nat)
| Acquiring (c : nat)
| Starting (c : nat)
| Failing (c : nat)
| Awaiting (c : nat)
| GivenUp (c : nat) (n : option Z)
| CancelledIt (c : nat) (n : option Z)
| Replaced (n : option Z) (old : nat).

#[export] Instance whereabouts_eq_dec : EqDecision whereabouts.
Proof. solve_decision. Defined.

(** [running]: the run in progress takes calls; [stopped]: ended by [_StopRun]; [shut]:
    [shutdown] has begun, and [closing] is the thread it is about to close. *)
Record session := Session {
  tools : nat; loop : option nat; at_ : whereabouts; outlasted : Z; running : bool; stopped : bool; shut : bool;
  closing : option nat
}.

Record world := World { budgets : list _ThreadBudget; threads : list _ToolThread; sessions : list session; calls : list call }.

Definition init : world := World [_PROCESS_THREADS] [] [] [].

Definition holders (w : world) : list (nat * stage) := (fun t => (t.(budget), t.(place))) <$> w.(threads).

Definition with_budgets (bs : list _ThreadBudget) (w : world) : world := World bs w.(threads) w.(sessions) w.(calls).
Definition set_thread (i : nat) (t : _ToolThread) (w : world) : world := World w.(budgets) (<[i := t]> w.(threads)) w.(sessions) w.(calls).
Definition set_session (s : nat) (x : session) (w : world) : world := World w.(budgets) w.(threads) (<[s := x]> w.(sessions)) w.(calls).
Definition set_call (c : nat) (k : call) (w : world) : world := World w.(budgets) w.(threads) w.(sessions) (<[c := k]> w.(calls)).
Definition add_thread (t : _ToolThread) (w : world) : world := World w.(budgets) (w.(threads) ++ [t]) w.(sessions) w.(calls).
Definition add_call (k : call) (w : world) : world := World w.(budgets) w.(threads) w.(sessions) (w.(calls) ++ [k]).
Definition add_session (x : session) (w : world) : world := World w.(budgets) w.(threads) (w.(sessions) ++ [x]) w.(calls).

Definition new_thread (owner : nat) (k : kind) (b : nat) (s : serving) : _ToolThread := Thread owner k b false Free [] s [].
Definition put (q : list (option nat)) (s : serving) (t : _ToolThread) : _ToolThread :=
  Thread t.(owner) t.(of_kind) t.(budget) t.(closed) t.(place) q s t.(ran).
Definition enter (c : nat) (t : _ToolThread) : _ToolThread :=
  Thread t.(owner) t.(of_kind) t.(budget) t.(closed) t.(place) t.(queue) (InTool c) (t.(ran) ++ [c]).
Definition set_place (st : stage) (t : _ToolThread) : _ToolThread :=
  Thread t.(owner) t.(of_kind) t.(budget) t.(closed) st t.(queue) t.(serves) t.(ran).
Definition loop_over (s : serving) : bool := match s with Winding | Exited => true | _ => false end.
Definition is_started (t : _ToolThread) : bool := bool_decide (t.(serves) <> NotStarted).
(** [close()] *)
Definition close (t : _ToolThread) : _ToolThread :=
  if t.(closed) then t
  else Thread t.(owner) t.(of_kind) t.(budget) true t.(place) (if is_started t then t.(queue) ++ [None] else t.(queue)) t.(serves) t.(ran).

Definition go (a : whereabouts) (x : session) : session :=
  Session x.(tools) x.(loop) a x.(outlasted) x.(running) x.(stopped) x.(shut) x.(closing).
Definition with_loop (l : nat) (x : session) : session :=
  Session x.(tools) (Some l) x.(at_) x.(outlasted) x.(running) x.(stopped) x.(shut) x.(closing).
Definition with_tools (t : nat) (x : session) : session :=
  Session t x.(loop) x.(at_) x.(outlasted) x.(running) x.(stopped) x.(shut) x.(closing).
Definition with_outlasted (n : Z) (x : session) : session :=
  Session x.(tools) x.(loop) x.(at_) n x.(running) x.(stopped) x.(shut) x.(closing).
Definition with_running (b : bool) (x : session) : session :=
  Session x.(tools) x.(loop) x.(at_) x.(outlasted) b x.(stopped) x.(shut) x.(closing).
(** [_StopRun], when too many calls are stuck; then the call is over. *)
Definition stop_when_over (n : option Z) (x : session) : session :=
  let over := match n with Some k => MAX_ABANDONED_TOOL_CALLS <? k | None => false end in
  Session x.(tools) x.(loop) Idle x.(outlasted) (x.(running) && negb over) (x.(stopped) || over) x.(shut) x.(closing).
Definition with_closing (c : option nat) (x : session) : session :=
  Session x.(tools) x.(loop) x.(at_) x.(outlasted) x.(running) x.(stopped) true c.

(** [submit] holds the thread's lock. *)
Definition submitting (a : whereabouts) : bool := match a with Acquiring _ | Starting _ | Failing _ => true | _ => false end.

Inductive action :=
| NewPool (max_tool_threads : Z)
| NewSession (b : nat)
| RunStarts (s : nat)
| RunEnds (s : nat)
| MakeCall (s : nat) (plain timed : bool)
| Step (i : nat)
| Submit (s : nat)
| StartThread (s : nat) (ok : bool)
| Serve (i : nat)
| Begin (i : nat)
| Return (i : nat)
| Answer (i : nat)
| TaskEnds (c : nat)
| Collect (s : nat) (awaitable : bool)
| Expire (s : nat)
| Cancel (s : nat)
| Replace (s : nat)
| CloseOld (s : nat)
| Shutdown (s : nat)
| CloseTools (s : nat)
| LoopStops (s : nat)
| LoopExits (s : nat).

(** ** The steps *)

(** What the end of [acquire] or [release] means to the session: [count_loop] is over, the tool
    thread may start, the call is refused, or it failed because the thread did not start. *)
Definition settle (t : _ToolThread) (o : outcome) (x : session) : session :=
  match o, t.(of_kind), x.(at_) with
  | Got, LoopThread, Charging c => go (Submitting c) x
  | Got, ToolThread, Acquiring c => go (Starting c) x
  | _ThreadsExhausted, LoopThread, Charging _ | _ThreadsExhausted, ToolThread, Acquiring _ => go Idle x
  | Freed, ToolThread, Failing _ => if is_started t then x else go Idle x
  | _, _, _ => x
  end.

Definition step_budget (i : nat) (w : world) : option world :=
  t ← w.(threads) !! i;
  x ← w.(sessions) !! t.(owner);
  '(bs, (st, o)) ← budget_step i w.(budgets) t.(place);
  Some (set_session t.(owner) (settle t o x) (set_thread i (set_place st t) (with_budgets bs w))).

(** [_run_tool]: the loop is there, and counted from its first tool on. *)
Definition make_call (s : nat) (plain timed : bool) (w : world) : option world :=
  x ← w.(sessions) !! s;
  t ← w.(threads) !! x.(tools);
  match x.(at_) with
  | Idle =>
      if x.(running) then
        let c := length w.(calls) in
        let w := add_call (Call s plain timed Unsubmitted false false false) w in
        match x.(loop) with
        | None =>
            let l := length w.(threads) in
            let loop_thread := new_thread s LoopThread t.(budget) Waiting in
            Some (set_session s (go (Charging c) (with_loop l x))
                    (add_thread (set_place (acquire w.(budgets) t.(budget)) loop_thread) w))
        | Some l =>
            lt ← w.(threads) !! l;
            match lt.(place) with
            | Held => Some (set_session s (go (Submitting c) x) w)
            | Free =>
                if loop_over lt.(serves) then None
                else Some (set_session s (go (Charging c) x) (set_thread l (set_place (acquire w.(budgets) lt.(budget)) lt) w))
            | _ => None
            end
        end
      else None
  | _ => None
  end.

Definition submit (s : nat) (w : world) : option world :=
  x ← w.(sessions) !! s;
  match x.(at_) with
  | Submitting c =>
      k ← w.(calls) !! c;
      if k.(plain) then
        t ← w.(threads) !! x.(tools);
        if t.(closed) then Some (set_session s (go Idle x) w)
        else if is_started t then
          Some (set_session s (go (Awaiting c) x) (set_thread x.(tools) (put (t.(queue) ++ [Some c]) t.(serves) t) (set_call c (set_state Queued k) w)))
        else
          match t.(place) with
          | Free => Some (set_session s (go (Acquiring c) x) (set_thread x.(tools) (set_place (acquire w.(budgets) t.(budget)) t) w))
          | _ => None
          end
      else Some (set_session s (go (Awaiting c) x) (set_call c (set_flags true false false (set_state Running k)) w))
  | _ => None
  end.

Definition start_thread (s : nat) (ok : bool) (w : world) : option world :=
  x ← w.(sessions) !! s;
  match x.(at_) with
  | Starting c =>
      k ← w.(calls) !! c;
      t ← w.(threads) !! x.(tools);
      if ok then
        Some (set_session s (go (Awaiting c) x)
                (set_thread x.(tools) (put (t.(queue) ++ [Some c]) Waiting t) (set_call c (set_state Queued k) w)))
      else Some (set_session s (go (Failing c) x) (set_thread x.(tools) (set_place (release w.(budgets) t.(budget)) t) w))
  | _ => None
  end.

(** [_serve]: the next item of the queue. *)
Definition serve (i : nat) (w : world) : option world :=
  t ← w.(threads) !! i;
  match t.(of_kind), t.(serves), t.(queue) with
  | ToolThread, Waiting, None :: q => Some (set_thread i (set_place (release w.(budgets) t.(budget)) (put q Exited t)) w)
  | ToolThread, Waiting, Some c :: q =>
      k ← w.(calls) !! c;
      if bool_decide (k.(state) = Cancelled) then Some (set_thread i (put q Waiting t) w)
      else
        let w := set_call c (set_state Running k) w in
        Some (set_thread i (if k.(timed) then put q (Beginning c) t else enter c (put q Waiting t)) w)
  | _, _, _ => None
  end.

Definition begin_call (i : nat) (w : world) : option world :=
  t ← w.(threads) !! i;
  match t.(serves) with
  | Beginning c =>
      k ← w.(calls) !! c;
      let '(k, ok) := begin k in
      Some (set_thread i (if ok then enter c t else put t.(queue) (Answering c) t) (set_call c k w))
  | _ => None
  end.

Definition finish_call (c : nat) (k : call) (w : world) : option world :=
  if k.(timed) then
    x ← w.(sessions) !! k.(by_);
    let '(k, n) := finish k x.(outlasted) in
    Some (set_session k.(by_) (with_outlasted n x) (set_call c k w))
  else Some w.

Definition return_call (i : nat) (w : world) : option world :=
  t ← w.(threads) !! i;
  match t.(serves) with
  | InTool c =>
      k ← w.(calls) !! c;
      w ← finish_call c k w;
      Some (set_thread i (put t.(queue) (Answering c) t) w)
  | _ => None
  end.

Definition answer_call (i : nat) (w : world) : option world :=
  t ← w.(threads) !! i;
  match t.(serves) with
  | Answering c =>
      k ← w.(calls) !! c;
      Some (set_thread i (put t.(queue) Waiting t) (set_call c (set_state Finished k) w))
  | _ => None
  end.

Definition task_ends (c : nat) (w : world) : option world :=
  k ← w.(calls) !! c;
  if k.(plain) then None
  else if bool_decide (k.(state) = Running) then finish_call c (set_state Finished k) (set_call c (set_state Finished k) w)
  else None.

(** The answer has come; a plain tool may have returned an awaitable, awaited as a task. *)
Definition collect (s : nat) (awaitable : bool) (w : world) : option world :=
  x ← w.(sessions) !! s;
  match x.(at_) with
  | Awaiting c =>
      k ← w.(calls) !! c;
      if bool_decide (k.(state) = Finished) then
        if awaitable && k.(plain) then
          Some (set_session s (go (Awaiting (length w.(calls))) x) (add_call (Call s false k.(timed) Running true false false) w))
        else Some (set_session s (go Idle x) w)
      else None
  | _ => None
  end.

(** The deadline: [abandon], for a task only if it outlives its cancellation too. *)
Definition expire (s : nat) (w : world) : option world :=
  x ← w.(sessions) !! s;
  match x.(at_) with
  | Awaiting c =>
      k ← w.(calls) !! c;
      if negb k.(timed) then None
      else if negb k.(plain) && bool_decide (k.(state) = Finished) then Some (set_session s (go Idle x) w)
      else
        let '(k', n, r) := abandon k x.(outlasted) in
        let x := with_outlasted n x in
        Some (set_session s (if k.(plain) then go (GivenUp c r) x else stop_when_over r x) (set_call c k' w))
  | _ => None
  end.

Definition cancel (s : nat) (w : world) : option world :=
  x ← w.(sessions) !! s;
  match x.(at_) with
  | GivenUp c n =>
      k ← w.(calls) !! c;
      Some (set_session s (go (CancelledIt c n) x) (if bool_decide (k.(state) = Queued) then set_call c (set_state Cancelled k) w else w))
  | _ => None
  end.

(** [replace_tool_thread], up to [old.close()]. *)
Definition replace_tool_thread (s : nat) (w : world) : option world :=
  x ← w.(sessions) !! s;
  match x.(at_) with
  | CancelledIt c n =>
      t ← w.(threads) !! x.(tools);
      Some (set_session s (go (Replaced n x.(tools)) (with_tools (length w.(threads)) x)) (add_thread (new_thread s ToolThread t.(budget) NotStarted) w))
  | _ => None
  end.

Definition close_old (s : nat) (w : world) : option world :=
  x ← w.(sessions) !! s;
  match x.(at_) with
  | Replaced n old =>
      t ← w.(threads) !! old;
      Some (set_session s (stop_when_over n x) (set_thread old (close t) w))
  | _ => None
  end.

(** The end of the loop's [_serve]: the place is given back first, and the thread goes on until the
    tasks it cancels have ended. *)
Definition stop_loop (bs : list _ThreadBudget) (t : _ToolThread) : _ToolThread :=
  let t := put [] Winding t in if bool_decide (t.(place) = Held) then set_place (release bs t.(budget)) t else t.

Definition tasks_over (s : nat) (w : world) : bool :=
  forallb (fun k => negb (bool_decide (k.(by_) = s) && negb k.(plain) && bool_decide (k.(state) = Running))) w.(calls).
Definition loop_exits (s : nat) (w : world) : option world :=
  x ← w.(sessions) !! s;
  l ← x.(loop);
  t ← w.(threads) !! l;
  if bool_decide (t.(serves) = Winding) && bool_decide (t.(place) = Free) && tasks_over s w
  then Some (set_thread l (put t.(queue) Exited t) w) else None.

Definition exec (a : action) (w : world) : option world :=
  match a with
  | NewPool n =>
      match _tool_budget n with Ok (b, _) => Some (with_budgets (w.(budgets) ++ [b]) w) | Err _ => None end
  | NewSession b =>
      if bool_decide (b < length w.(budgets))%nat then
        Some (add_session (Session (length w.(threads)) None Idle 0 false false false None)
                (add_thread (new_thread (length w.(sessions)) ToolThread b NotStarted) w))
      else None
  | RunStarts s =>
      x ← w.(sessions) !! s;
      if x.(shut) || x.(stopped) || negb (bool_decide (x.(at_) = Idle)) then None
      else Some (set_session s (with_running true x) w)
  | RunEnds s => x ← w.(sessions) !! s; Some (set_session s (with_running false x) w)
  | MakeCall s plain timed => make_call s plain timed w
  | Step i => step_budget i w
  | Submit s => submit s w
  | StartThread s ok => start_thread s ok w
  | Serve i => serve i w
  | Begin i => begin_call i w
  | Return i => return_call i w
  | Answer i => answer_call i w
  | TaskEnds c => task_ends c w
  | Collect s awaitable => collect s awaitable w
  | Expire s => expire s w
  | Cancel s => cancel s w
  | Replace s => replace_tool_thread s w
  | CloseOld s => close_old s w
  | Shutdown s =>
      x ← w.(sessions) !! s;
      if x.(shut) then None else Some (set_session s (with_closing (Some x.(tools)) x) w)
  | CloseTools s =>
      x ← w.(sessions) !! s;
      i ← x.(closing);
      t ← w.(threads) !! i;
      if submitting x.(at_) && bool_decide (i = x.(tools)) then None
      else Some (set_session s (with_closing None x) (set_thread i (close t) w))
  | LoopStops s =>
      x ← w.(sessions) !! s;
      l ← x.(loop);
      t ← w.(threads) !! l;
      match x.(at_) with
      | Idle | Awaiting _ =>
          if x.(shut) && negb (loop_over t.(serves)) then
            Some (set_session s (go Idle (with_running false x))
                    (set_thread l (stop_loop w.(budgets) t) w))
          else None
      | _ => None
      end
  | LoopExits s => loop_exits s w
  end.

Definition step (w w' : world) : Prop := exists a, exec a w = Some w'.
Definition reachable (w : world) : Prop := rtc step init w.

Fixpoint run (l : list action) (w : world) : option world :=
  match l with [] => Some w | a :: l => w ← exec a w; run l w end.
