(* ===== verification/ToolThreadInv.v ===== *)
(** * Invariants of tool threads: places *)

From S2P Require Import Prelude ThreadBudget ToolThread.

(** Break a step down to its cases. *)
Ltac invert_step H :=
  repeat match type of H with
  | (_ ≫= _) = Some _ => apply bind_Some in H; destruct H as (? & ? & H)
  | mbind _ _ = Some _ => apply bind_Some in H; destruct H as (? & ? & H)
  | (let '(_, _) := ?x in _) = Some _ => destruct x eqn:?
  | (if ?b then _ else _) = Some _ => destruct b eqn:?
  | match ?x with _ => _ end = Some _ => destruct x eqn:?
  | None = Some _ => discriminate H
  | Some _ = Some _ => injection H as H
  end.

Definition acquiring (st : stage) : Prop := match st with Locking _ _ | Counting _ | Unwinding _ => True | _ => False end.
Definition releasing (st : stage) : Prop := match st with Releasing _ => True | _ => False end.
Definition alive (s : serving) : bool := match s with NotStarted | Exited => false | _ => true end.

(** What a thread's place is, by what the thread and its session do. *)
Definition place_ok (i : nat) (t : _ToolThread) (x : session) : Prop :=
  match t.(of_kind) with
  | ToolThread =>
      match t.(serves) with
      | NotStarted =>
          if bool_decide (x.(tools) = i) then
            match x.(at_) with
            | Acquiring _ => acquiring t.(place)
            | Starting _ => t.(place) = Held
            | Failing _ => releasing t.(place)
            | _ => t.(place) = Free
            end
          else t.(place) = Free
      | Exited => (t.(place) = Free \/ releasing t.(place)) /\ (x.(tools) = i -> submitting x.(at_) = false)
      | _ => t.(place) = Held /\ (x.(tools) = i -> submitting x.(at_) = false)
      end
  | LoopThread =>
      x.(loop) = Some i /\
      match t.(serves) with
      | Winding | Exited => (t.(place) = Free \/ releasing t.(place)) /\ match x.(at_) with Charging _ => False | _ => True end
      | _ => match x.(at_) with Charging _ => acquiring t.(place) | _ => t.(place) = Free \/ t.(place) = Held end
      end
  end.

Definition threads_of (w : world) (s : nat) (x : session) : Prop :=
  (exists t, w.(threads) !! x.(tools) = Some t /\ t.(owner) = s /\ t.(of_kind) = ToolThread) /\
  match x.(loop) with
  | None => match x.(at_) with Charging _ => False | _ => True end
  | Some l => exists t, w.(threads) !! l = Some t /\ t.(owner) = s /\ t.(of_kind) = LoopThread
  end.

Record placed (w : world) : Prop := {
  p_budgets : budgets_inv w.(budgets) (holders w);
  p_process : w.(budgets) !! 0%nat <> None;
  p_limits c x : w.(budgets) !! c = Some x -> 0 <= x.(limit);
  p_place i t : w.(threads) !! i = Some t -> exists x, w.(sessions) !! t.(owner) = Some x /\ place_ok i t x;
  p_sessions s x : w.(sessions) !! s = Some x -> threads_of w s x
}.

(** ** Changes *)

Lemma holders_set i t w : holders (set_thread i t w) = <[i := (t.(budget), t.(place))]> (holders w).
Proof. unfold holders, set_thread. cbn. by rewrite list_fmap_insert. Qed.

Lemma holders_lookup i t w : w.(threads) !! i = Some t -> holders w !! i = Some (t.(budget), t.(place)).
Proof. intros H. unfold holders. by rewrite list_lookup_fmap, H. Qed.

Lemma holders_same i t t' w : w.(threads) !! i = Some t -> t'.(budget) = t.(budget) -> t'.(place) = t.(place) -> holders (set_thread i t' w) = holders w.
Proof. intros H Hb Hp. rewrite holders_set, Hb, Hp. apply list_insert_id. by apply holders_lookup. Qed.

Lemma holders_add t w : holders (add_thread t w) = holders w ++ [(t.(budget), t.(place))].
Proof. unfold holders, add_thread. cbn. by rewrite fmap_app. Qed.

(** A session and one of its threads change: the session's other threads must not mind. *)
Lemma placed_update w s x x' i t t' bs :
  placed w -> w.(sessions) !! s = Some x -> w.(threads) !! i = Some t -> t.(owner) = s ->
  t'.(owner) = s -> t'.(of_kind) = t.(of_kind) ->
  budgets_inv bs (<[i := (t'.(budget), t'.(place))]> (holders w)) -> same_shape w.(budgets) bs ->
  x'.(tools) = x.(tools) -> x'.(loop) = x.(loop) -> place_ok i t' x' ->
  (forall j u, j <> i -> w.(threads) !! j = Some u -> u.(owner) = s -> place_ok j u x -> place_ok j u x') ->
  (x.(loop) = None -> match x'.(at_) with Charging _ => False | _ => True end) ->
  forall calls, placed (World bs (<[i := t']> w.(threads)) (<[s := x']> w.(sessions)) calls).
Proof.
  intros I Hs Hi Ho Ho' Hk Hb Hss Ht Hl Hp Hothers Hch ks.
  assert (Hslen : (s < length (sessions w))%nat) by by eapply lookup_lt_Some.
  split; cbn.
  - unfold holders. cbn. by rewrite list_fmap_insert.
  - pose proof (same_shape_lookup _ _ 0 Hss) as H0. pose proof (p_process _ I) as Hp0. destruct (budgets w !! 0%nat), (bs !! 0%nat); cbn in H0; done.
  - intros c y Hc. pose proof (same_shape_lookup _ _ c Hss) as H0. rewrite Hc in H0. destruct (budgets w !! c) as [y'|] eqn:E; cbn in H0; [|done].
    injection H0 as <- _. by eapply p_limits.
  - intros j u Hj. destruct (lookup_insert_case _ _ _ _ _ _ Hi Hj) as [[-> ->]|[Hne Hj']].
    + exists x'. rewrite Ho', list_lookup_insert_eq by done. done.
    + destruct (p_place _ I _ _ Hj') as (y & Hy & Hok). destruct (decide (owner u = s)) as [E|E].
      * exists x'. rewrite E, list_lookup_insert_eq by done. split; [done|]. apply Hothers; try done. congruence.
      * exists y. rewrite list_lookup_insert_ne by done. done.
  - intros s' y Hy. destruct (lookup_insert_case _ _ _ _ _ _ Hs Hy) as [[-> ->]|[Hne Hy']].
    + destruct (p_sessions _ I _ _ Hs) as [(u & Hu & Hou & Hku) Hlp]. split.
      * rewrite Ht. cbn. destruct (decide (i = tools x)) as [->|Hn].
        -- exists t'. rewrite list_lookup_insert_eq by by eapply lookup_lt_Some. split_and!; congruence.
        -- exists u. by rewrite list_lookup_insert_ne.
      * rewrite Hl. destruct (loop x) as [l|]; [|by apply Hch]. destruct Hlp as (v & Hv & Hov & Hkv). cbn. destruct (decide (i = l)) as [->|Hn].
        -- exists t'. rewrite list_lookup_insert_eq by by eapply lookup_lt_Some. split_and!; congruence.
        -- exists v. by rewrite list_lookup_insert_ne.
    + destruct (p_sessions _ I _ _ Hy') as [(u & Hu & Hou & Hku) Hlp]. split.
      * exists u. cbn. rewrite list_lookup_insert_ne by (intros ->; congruence). done.
      * destruct (loop y) as [l|]; [|done]. destruct Hlp as (v & Hv & Hov & Hkv). exists v. cbn.
        rewrite list_lookup_insert_ne by (intros ->; congruence). done.
Qed.

Definition tool_role (a : whereabouts) : nat := match a with Acquiring _ => 1 | Starting _ => 2 | Failing _ => 3 | _ => 0 end.
Definition loop_role (a : whereabouts) : bool := match a with Charging _ => true | _ => false end.

Lemma role_submitting a b : tool_role a = tool_role b -> submitting a = submitting b.
Proof. by destruct a, b. Qed.

Lemma place_ok_ext j u x x' :
  x'.(tools) = x.(tools) -> x'.(loop) = x.(loop) ->
  (u.(of_kind) = ToolThread -> x.(tools) = j -> tool_role x'.(at_) = tool_role x.(at_)) ->
  (u.(of_kind) = LoopThread -> x.(loop) = Some j -> loop_role x'.(at_) = loop_role x.(at_)) ->
  place_ok j u x -> place_ok j u x'.
Proof.
  intros Ht Hl Hr Hc. unfold place_ok. rewrite Ht, Hl. destruct (of_kind u) eqn:Ek.
  - specialize (Hr eq_refl). assert (Hs : tools x = j -> submitting (at_ x') = submitting (at_ x)) by (intros E; by apply role_submitting, Hr).
    destruct (serves u); [|naive_solver..]. case_bool_decide as E; [|done]. specialize (Hr E). by destruct (at_ x), (at_ x').
  - intros [Hj Hp]. split; [done|]. specialize (Hc eq_refl Hj). by destruct (serves u), (at_ x), (at_ x').
Qed.

(** Only the session changes, in ways its threads do not mind. *)
Lemma placed_session w s x x' ks :
  placed w -> w.(sessions) !! s = Some x -> x'.(tools) = x.(tools) -> x'.(loop) = x.(loop) ->
  tool_role x'.(at_) = tool_role x.(at_) -> loop_role x'.(at_) = loop_role x.(at_) ->
  placed (World w.(budgets) w.(threads) (<[s := x']> w.(sessions)) ks).
Proof.
  intros I Hs Ht Hl Hr Hc. destruct (p_sessions _ I _ _ Hs) as [(t & Hi & Ho & _) Hlp]. destruct (p_place _ I _ _ Hi) as (y & Hy & Hok).
  assert (y = x) as -> by congruence.
  assert (E : <[tools x := t]> (threads w) = threads w) by by apply list_insert_id. rewrite <- E.
  eapply placed_update; try done.
  - rewrite <- holders_set. unfold set_thread. rewrite E. by destruct w, I.
  - by eapply place_ok_ext.
  - intros j u _ _ _. by apply place_ok_ext.
  - intros E'. rewrite E' in Hlp. by destruct (at_ x), (at_ x').
Qed.

(** Only a thread changes, and keeps its place. *)
Lemma placed_thread w i t t' x :
  placed w -> w.(threads) !! i = Some t -> w.(sessions) !! t.(owner) = Some x -> t'.(owner) = t.(owner) -> t'.(of_kind) = t.(of_kind) -> t'.(budget) = t.(budget) ->
  t'.(place) = t.(place) -> (place_ok i t x -> place_ok i t' x) -> forall ks, placed (World w.(budgets) (<[i := t']> w.(threads)) w.(sessions) ks).
Proof.
  intros I Hi Hx Ho Hk Hb Hp Hok ks. rewrite <- (list_insert_id (sessions w) (owner t) x) by done.
  destruct (p_place _ I _ _ Hi) as (y & Hy & Hyok). assert (y = x) as -> by congruence.
  eapply placed_update; try done; eauto.
  - rewrite Hb, Hp. rewrite list_insert_id by by apply holders_lookup. apply I.
  - destruct (p_sessions _ I _ _ Hx) as [_ Hl]. intros E. by rewrite E in Hl.
Qed.

(** A new thread of a session, and the session with it. *)
Lemma placed_new_thread w s x x' t bs :
  placed w -> w.(sessions) !! s = Some x -> t.(owner) = s -> budgets_inv bs (holders w ++ [(t.(budget), t.(place))]) -> bs = w.(budgets) ->
  place_ok (length w.(threads)) t x' ->
  (forall j u, w.(threads) !! j = Some u -> u.(owner) = s -> place_ok j u x -> place_ok j u x') ->
  (x'.(tools) = x.(tools) \/ x'.(tools) = length w.(threads) /\ t.(of_kind) = ToolThread) ->
  (x'.(loop) = x.(loop) /\ (x.(loop) = None -> loop_role x'.(at_) = false) \/ x'.(loop) = Some (length w.(threads)) /\ t.(of_kind) = LoopThread) ->
  forall ks, placed (World bs (w.(threads) ++ [t]) (<[s := x']> w.(sessions)) ks).
Proof.
  intros I Hs Ho Hb -> Hok Hothers Ht Hl ks.
  assert (Hslen : (s < length (sessions w))%nat) by by eapply lookup_lt_Some.
  assert (Hnew : (threads w ++ [t]) !! length (threads w) = Some t) by by apply list_lookup_middle.
  assert (Hold : forall j u, threads w !! j = Some u -> (threads w ++ [t]) !! j = Some u) by (intros; by apply lookup_app_l_Some).
  split; cbn; try apply I.
  - unfold holders. cbn. by rewrite fmap_app.
  - intros j u [Hj|[Hge Hj]]%lookup_app_Some.
    + destruct (p_place _ I _ _ Hj) as (y & Hy & Hyok). destruct (decide (owner u = s)) as [E|E].
      * exists x'. rewrite E, list_lookup_insert_eq by done. split; [done|]. apply Hothers; try done. congruence.
      * exists y. by rewrite list_lookup_insert_ne.
    + destruct (j - length (threads w))%nat eqn:Ej; [|done]. injection Hj as <-. exists x'. rewrite Ho, list_lookup_insert_eq by done.
      split; [done|]. by replace j with (length (threads w)) by lia.
  - intros s' y Hy. destruct (lookup_insert_case _ _ _ _ _ _ Hs Hy) as [[-> ->]|[Hne Hy']].
    + destruct (p_sessions _ I _ _ Hs) as [(u & Hu & Hou & Hku) Hlp]. split; cbn.
      * destruct Ht as [->|[-> Hk]]; eauto 10.
      * destruct Hl as [[-> Hch]|[-> Hk]]; [|by eauto 10]. destruct (loop x) as [l|]; [|specialize (Hch eq_refl); by destruct (at_ x')].
        destruct Hlp as (v & Hv & ?). eauto.
    + destruct (p_sessions _ I _ _ Hy') as [(u & Hu & Hou & Hku) Hlp]. split; cbn; [eauto|]. destruct (loop y) as [l|]; [|done].
      destruct Hlp as (v & Hv & ?). eauto.
Qed.

(** ** Every step keeps the places right *)

Lemma budget_step_stage i bs st bs' st' o : budget_step i bs st = Some (bs', (st', o)) ->
  same_shape bs bs' /\
  (acquiring st /\ match o with Busy => acquiring st' | Got => st' = Held | _ThreadsExhausted => st' = Free | Freed => False end \/
   releasing st /\ match o with Busy => releasing st' | Freed => st' = Free | _ => False end).
Proof.
  intros E. assert (Hss : same_shape bs bs').
  { unfold budget_step in E. invert_step E; try (by subst); subst.
    all: try (injection E as <- _); try done; eapply same_shape_insert; [eassumption|done|done]. }
  split; [done|]. destruct st as [|held [|c todo]|[|c held]|[|c held]| |[|c todo]]; cbn in E; try done; invert_step E; subst; cbn.
  all: try (left; split; [done|]); try (right; split; [done|]).
  all: try (destruct held; cbn in *; congruence || by simplify_eq); by simplify_eq || (destruct todo; by simplify_eq).
Qed.

Definition moved (st st' : stage) (o : outcome) : Prop :=
  acquiring st /\ match o with Busy => acquiring st' | Got => st' = Held | _ThreadsExhausted => st' = Free | Freed => False end \/
  releasing st /\ match o with Busy => releasing st' | Freed => st' = Free | _ => False end.

Lemma settle_same t o x : tools (settle t o x) = tools x /\ loop (settle t o x) = loop x.
Proof. unfold settle. by destruct o, (of_kind t), (at_ x); cbn; try (destruct (is_started t)). Qed.

Lemma settle_place i t x st o : place_ok i t x -> moved (place t) st o -> place_ok i (set_place st t) (settle t o x).
Proof.
  unfold place_ok, moved, settle, is_started. destruct t as [ow k b cl pl q sv rn]; cbn. intros Hok Hm.
  assert (Hd : acquiring pl -> releasing pl -> False) by by destruct pl.
  destruct k; cbn in *.
  - destruct sv; cbn in *; [|destruct Hok as [-> _]; naive_solver..|].
    + case_bool_decide as Et; [|subst; naive_solver].
      destruct (at_ x) eqn:Ea; try (subst; naive_solver); destruct o; cbn; rewrite ?Et, ?Ea, ?bool_decide_true by done; cbn; naive_solver.
    + destruct Hok as [Hp Hs]. destruct (at_ x) eqn:Ea, o; cbn; rewrite ?Ea; naive_solver.
  - destruct Hok as [Hl Hp]. destruct sv, (at_ x) eqn:Ea, o; cbn; rewrite ?Ea; naive_solver.
Qed.

Lemma settle_others i t x st o j u : place_ok i t x -> moved (place t) st o -> j <> i -> place_ok j u x -> place_ok j u (settle t o x).
Proof.
  intros Hok Hm Hne. destruct (settle_same t o x) as [Ht Hl]. apply place_ok_ext; [done..| |].
  - intros Hk Hj. unfold settle. destruct (of_kind t) eqn:Ek; [|by destruct o, (at_ x) eqn:Ea; cbn; rewrite ?Ea].
    assert (Hold : releasing (place t) /\ is_started t = true).
    { unfold place_ok in Hok. rewrite Ek in Hok. unfold is_started. unfold moved in Hm. destruct (serves t) eqn:Es.
      1: rewrite bool_decide_false in Hok by congruence.
      all: try (rewrite Hok in Hm || (destruct Hok as [Hp _]; rewrite Hp in Hm)); cbn in Hm; try naive_solver.
      destruct Hok as [[Hp|Hp] _]; [rewrite Hp in Hm; cbn in Hm; naive_solver|done]. }
    destruct Hold as [Hrel ->]. assert (Ho : o = Busy \/ o = Freed) by (unfold moved in Hm; destruct (place t), o; naive_solver).
    destruct Ho as [-> | ->]; destruct (at_ x) eqn:Ea; cbn; by rewrite ?Ea.
  - intros Hk Hj. unfold settle. destruct (of_kind t) eqn:Ek; [by destruct o, (at_ x) eqn:Ea; cbn; rewrite ?Ea; try destruct (is_started t); cbn; rewrite ?Ea|].
    exfalso. unfold place_ok in Hok. rewrite Ek in Hok. destruct Hok as [Hl' _]. congruence.
Qed.

Lemma placed_budget i w w' : placed w -> step_budget i w = Some w' -> placed w'.
Proof.
  intros I E. unfold step_budget in E. destruct (threads w !! i) as [t|] eqn:Hi; cbn in E; [|done].
  destruct (sessions w !! owner t) as [x|] eqn:Hs; cbn in E; [|done].
  destruct (budget_step i (budgets w) (place t)) as [[bs [st o]]|] eqn:Eb; cbn in E; [|done]. injection E as <-.
  destruct (p_place _ I _ _ Hi) as (y & Hy & Hok). assert (y = x) as -> by congruence.
  pose proof (budget_step_inv _ _ _ _ _ _ _ _ (p_budgets _ I) (holders_lookup _ _ _ Hi) Eb) as Hb.
  apply budget_step_stage in Eb as [Hss Hst]. destruct (p_sessions _ I _ _ Hs) as [_ Hlp]. destruct (settle_same t o x) as [Ht Hl].
  apply (placed_update w (owner t) x (settle t o x) i t (set_place st t) bs); try done.
  - by apply settle_place.
  - intros j u Hj _ _. by eapply settle_others.
  - intros E. rewrite E in Hlp. unfold settle. by destruct o, (of_kind t), (at_ x) eqn:Ea; cbn; rewrite ?Ea; try destruct (is_started t); cbn; rewrite ?Ea.
Qed.

(** A thread takes its lock for a call, or gives its place back. *)
Lemma placed_acquire w s x a i t :
  placed w -> w.(sessions) !! s = Some x -> w.(threads) !! i = Some t -> t.(owner) = s -> t.(place) = Free ->
  place_ok i (set_place (acquire w.(budgets) t.(budget)) t) (go a x) ->
  (t.(of_kind) = ToolThread /\ i = x.(tools) /\ loop_role a = loop_role x.(at_) \/ t.(of_kind) = LoopThread /\ tool_role a = tool_role x.(at_)) ->
  forall ks, placed (World w.(budgets) (<[i := set_place (acquire w.(budgets) t.(budget)) t]> w.(threads)) (<[s := go a x]> w.(sessions)) ks).
Proof.
  intros I Hs Hi Ho Hf Hok Hr. destruct (p_place _ I _ _ Hi) as (y & Hy & Hyok). assert (y = x) as -> by congruence.
  assert (Hlast : of_kind t = LoopThread -> loop x = Some i) by (intros E; unfold place_ok in Hyok; rewrite E in Hyok; by destruct Hyok).
  apply (placed_update w s x (go a x) i t (set_place (acquire w.(budgets) t.(budget)) t)); try done.
  - cbn. apply budgets_inv_acquire; [apply I|]. rewrite <- Hf. by apply holders_lookup.
  - intros j u Hj Hu Hou. apply place_ok_ext; [done..| |]; cbn; intros Hk Hj'.
    + destruct Hr as [(_ & -> & _)|[_ Hr]]; [congruence|done].
    + destruct Hr as [(_ & _ & Hr)|[Hk' _]]; [done|]. specialize (Hlast Hk'). congruence.
  - intros E. destruct (p_sessions _ I _ _ Hs) as [_ Hl]. rewrite E in Hl. cbn. destruct Hr as [(_ & _ & Hr)|[Hk' _]]; [|specialize (Hlast Hk'); congruence].
    by destruct a, (at_ x).
Qed.

Lemma placed_make_call s plain timed w w' : placed w -> make_call s plain timed w = Some w' -> placed w'.
Proof.
  intros I E. unfold make_call in E. destruct (sessions w !! s) as [x|] eqn:Hs; cbn in E; [|done].
  destruct (p_sessions _ I _ _ Hs) as [(t & Ht & Hot & Hkt) Hlp]. rewrite Ht in E. cbn in E.
  destruct (at_ x) eqn:Ea; try done. destruct (running x); [|done].
  assert (Hmade : (budget t < length (budgets w))%nat) by (eapply bi_made; [apply I|by apply holders_lookup]).
  destruct (loop x) as [l|] eqn:El.
  - destruct Hlp as (lt & Hlt & Holt & Hklt). rewrite Hlt in E. cbn in E. destruct (p_place _ I _ _ Hlt) as (y & Hy & Hok).
    assert (y = x) as -> by congruence. unfold place_ok in Hok. rewrite Hklt in Hok. destruct Hok as [_ Hok].
    destruct (place lt) eqn:Epl; try done.
    + destruct (loop_over (serves lt)) eqn:Ex; [done|]. injection E as <-.
      apply (placed_acquire w s x (Charging (length (calls w))) l lt); try done.
      * unfold place_ok. cbn. rewrite Hklt. split; [done|]. by destruct (serves lt).
      * right. by rewrite Ea.
    + injection E as <-. apply (placed_session w s x (go (Submitting _) x)); try done; cbn; by rewrite Ea.
  - injection E as <-. eapply (placed_new_thread w s x); try done.
    + cbn. by apply budgets_inv_thread_acquire; [apply I|].
    + intros j u Hj Hou Hu. unfold place_ok in *. destruct (of_kind u); [|destruct Hu; congruence]. rewrite Ea in Hu. exact Hu.
    + by left.
    + by right.
Qed.

Lemma placed_submit s w w' : placed w -> submit s w = Some w' -> placed w'.
Proof.
  intros I E. unfold submit in E. destruct (sessions w !! s) as [x|] eqn:Hs; cbn in E; [|done].
  destruct (at_ x) eqn:Ea; try done. destruct (calls w !! c) as [k|]; cbn in E; [|done].
  destruct (p_sessions _ I _ _ Hs) as [(t & Ht & Hot & Hkt) Hlp]. destruct (p_place _ I _ _ Ht) as (y & Hy & Hok). assert (y = x) as -> by congruence.
  destruct (plain k).
  - rewrite Ht in E. cbn in E. destruct (closed t); [|destruct (is_started t) eqn:Est].
    + injection E as <-. apply (placed_session w s x (go Idle x)); try done; cbn; by rewrite Ea.
    + injection E as <-. apply bool_decide_eq_true in Est.
      apply (placed_update w s x (go (Awaiting c) x) (tools x) t (put (queue t ++ [Some c]) (serves t) t) (budgets w)); try done.
      * cbn. rewrite list_insert_id by by apply holders_lookup. apply I.
      * unfold place_ok in *. cbn. rewrite Hkt in *. rewrite Ea in Hok. destruct (serves t); naive_solver.
      * intros j u Hj Hu Hou. apply place_ok_ext; try done; cbn; intros; by rewrite Ea.
    + apply bool_decide_eq_false in Est. assert (Esv : serves t = NotStarted) by (destruct (decide (serves t = NotStarted)); [done|by destruct Est]).
      destruct (place t) eqn:Epl; try done. injection E as <-. apply (placed_acquire w s x (Acquiring c) (tools x) t); try done.
      * unfold place_ok. cbn. rewrite Hkt, Esv, bool_decide_true by done. done.
      * left. by rewrite Ea.
  - injection E as <-. apply (placed_session w s x (go (Awaiting c) x)); try done; cbn; by rewrite Ea.
Qed.

Lemma placed_start_thread s ok w w' : placed w -> start_thread s ok w = Some w' -> placed w'.
Proof.
  intros I E. unfold start_thread in E. destruct (sessions w !! s) as [x|] eqn:Hs; cbn in E; [|done].
  destruct (at_ x) eqn:Ea; try done. destruct (calls w !! c) as [k|]; cbn in E; [|done].
  destruct (p_sessions _ I _ _ Hs) as [(t & Ht & Hot & Hkt) Hlp]. destruct (p_place _ I _ _ Ht) as (y & Hy & Hok). assert (y = x) as -> by congruence.
  rewrite Ht in E. cbn in E. assert (Hpl : serves t = NotStarted /\ place t = Held).
  { unfold place_ok in Hok. rewrite Hkt, Ea in Hok. destruct (serves t); try (destruct Hok as [_ Hok]; by specialize (Hok eq_refl)).
    rewrite bool_decide_true in Hok by done. done. }
  destruct Hpl as [Hsv Hpl]. destruct ok; injection E as <-.
  - apply (placed_update w s x (go (Awaiting c) x) (tools x) t (put (queue t ++ [Some c]) Waiting t) (budgets w)); try done.
    + cbn. rewrite list_insert_id by by apply holders_lookup. apply I.
    + unfold place_ok. cbn. by rewrite Hkt, Hpl.
    + intros j u Hj Hu Hou. apply place_ok_ext; cbn; try done; intros; first [congruence | by rewrite Ea].
  - apply (placed_update w s x (go (Failing c) x) (tools x) t (set_place (release (budgets w) (budget t)) t) (budgets w)); try done.
    + cbn. apply budgets_inv_release; [apply I|]. rewrite <- Hpl. by apply holders_lookup.
    + unfold place_ok. cbn. by rewrite Hkt, Hsv, bool_decide_true by done.
    + intros j u Hj Hu Hou. apply place_ok_ext; try done; cbn; intros; first [congruence|by rewrite Ea].
Qed.

Lemma placed_serve i w w' : placed w -> serve i w = Some w' -> placed w'.
Proof.
  intros I E. unfold serve in E. destruct (threads w !! i) as [t|] eqn:Hi; cbn in E; [|done].
  destruct (p_place _ I _ _ Hi) as (x & Hs & Hok). destruct (p_sessions _ I _ _ Hs) as [_ Hlp].
  destruct (of_kind t) eqn:Hkt; [|done]. destruct (serves t) eqn:Hsv; try done.
  assert (Hheld : place t = Held /\ (tools x = i -> submitting (at_ x) = false)) by (unfold place_ok in Hok; by rewrite Hkt, Hsv in Hok).
  destruct (queue t) as [|[c|] q]; [done| |].
  - destruct (calls w !! c) as [k|]; cbn in E; [|done]. destruct (bool_decide _); [|destruct (timed k)]; injection E as <-.
    all: eapply (placed_thread w i t _ x); try done; unfold place_ok; cbn; by rewrite Hkt.
  - injection E as <-. unfold set_thread. cbn. rewrite <- (list_insert_id (sessions w) (owner t) x) by done.
    apply (placed_update w (owner t) x x i t (set_place (release (budgets w) (budget t)) (put q Exited t)) (budgets w)); try done.
    + cbn. apply budgets_inv_release; [apply I|]. rewrite <- (proj1 Hheld). by apply holders_lookup.
    + unfold place_ok. cbn. rewrite Hkt. split; [by right|apply Hheld].
    + intros E. by rewrite E in Hlp.
Qed.

Lemma placed_begin i w w' : placed w -> begin_call i w = Some w' -> placed w'.
Proof.
  intros I E. unfold begin_call in E. destruct (threads w !! i) as [t|] eqn:Hi; cbn in E; [|done].
  destruct (p_place _ I _ _ Hi) as (x & Hs & Hok). destruct (serves t) eqn:Hsv; try done.
  destruct (calls w !! c) as [k|]; cbn in E; [|done]. destruct (begin k) as [k' []]; injection E as <-.
  all: eapply (placed_thread w i t _ x); try done; unfold place_ok; cbn; by rewrite Hsv.
Qed.

Lemma placed_finish_call c k w w' : placed w -> finish_call c k w = Some w' -> placed w' /\ threads w' = threads w.
Proof.
  intros I E. unfold finish_call in E. destruct (timed k); [|by injection E as <-].
  destruct (sessions w !! by_ k) as [x|] eqn:Hs; cbn in E; [|done]. injection E as <-. split; [|done].
  by apply (placed_session w (by_ k) x (with_outlasted _ x)).
Qed.

Lemma placed_return i w w' : placed w -> return_call i w = Some w' -> placed w'.
Proof.
  intros I E. unfold return_call in E. destruct (threads w !! i) as [t|] eqn:Hi; cbn in E; [|done].
  destruct (serves t) eqn:Hsv; try done. destruct (calls w !! c) as [k|]; cbn in E; [|done].
  destruct (finish_call c k w) as [w1|] eqn:Ef; cbn in E; [|done]. injection E as <-.
  destruct (placed_finish_call _ _ _ _ I Ef) as [I1 Eth]. rewrite <- Eth in Hi. destruct (p_place _ I1 _ _ Hi) as (x & Hs & Hok).
  eapply (placed_thread w1 i t _ x); try done. unfold place_ok. cbn. by rewrite Hsv.
Qed.

Lemma placed_answer i w w' : placed w -> answer_call i w = Some w' -> placed w'.
Proof.
  intros I E. unfold answer_call in E. destruct (threads w !! i) as [t|] eqn:Hi; cbn in E; [|done].
  destruct (p_place _ I _ _ Hi) as (x & Hs & Hok). destruct (serves t) eqn:Hsv; try done.
  destruct (calls w !! c) as [k|]; cbn in E; [|done]. injection E as <-.
  eapply (placed_thread w i t _ x); try done. unfold place_ok. cbn. by rewrite Hsv.
Qed.

Lemma placed_calls w ks : placed w -> placed (World w.(budgets) w.(threads) w.(sessions) ks).
Proof. by intros []. Qed.

Lemma placed_task_ends c w w' : placed w -> task_ends c w = Some w' -> placed w'.
Proof.
  intros I E. unfold task_ends in E. destruct (calls w !! c) as [k|]; cbn in E; [|done]. destruct (plain k); [done|].
  destruct (bool_decide _); [|done]. eapply placed_finish_call; [|exact E]. by apply placed_calls.
Qed.

Lemma placed_collect s awaitable w w' : placed w -> collect s awaitable w = Some w' -> placed w'.
Proof.
  intros I E. unfold collect in E. destruct (sessions w !! s) as [x|] eqn:Hs; cbn in E; [|done].
  destruct (at_ x) eqn:Ea; try done. destruct (calls w !! c) as [k|]; cbn in E; [|done]. destruct (bool_decide _); [|done].
  destruct (awaitable && plain k); injection E as <-; apply (placed_session w s x (go _ x)); try done; cbn; by rewrite Ea.
Qed.

Lemma placed_expire s w w' : placed w -> expire s w = Some w' -> placed w'.
Proof.
  intros I E. unfold expire in E. destruct (sessions w !! s) as [x|] eqn:Hs; cbn in E; [|done].
  destruct (at_ x) eqn:Ea; try done. destruct (calls w !! c) as [k|]; cbn in E; [|done]. destruct (negb (timed k)); [done|].
  destruct (_ && _); [injection E as <-; apply (placed_session w s x (go _ x)); try done; cbn; by rewrite Ea|].
  destruct (abandon k (outlasted x)) as [[k' n] r]. injection E as <-.
  eapply (placed_session w s x); try done; destruct (plain k); cbn; by rewrite ?Ea.
Qed.

Lemma placed_cancel s w w' : placed w -> cancel s w = Some w' -> placed w'.
Proof.
  intros I E. unfold cancel in E. destruct (sessions w !! s) as [x|] eqn:Hs; cbn in E; [|done].
  destruct (at_ x) eqn:Ea; try done. destruct (calls w !! c) as [k|]; cbn in E; [|done]. injection E as <-.
  destruct (bool_decide _); apply (placed_session w s x (go _ x)); try done; cbn; by rewrite Ea.
Qed.

Lemma placed_replace s w w' : placed w -> replace_tool_thread s w = Some w' -> placed w'.
Proof.
  intros I E. unfold replace_tool_thread in E. destruct (sessions w !! s) as [x|] eqn:Hs; cbn in E; [|done].
  destruct (at_ x) eqn:Ea; try done. destruct (p_sessions _ I _ _ Hs) as [(t & Ht & Hot & Hkt) Hlp]. rewrite Ht in E. cbn in E. injection E as <-.
  eapply (placed_new_thread w s x); try done.
  - apply budgets_inv_thread; [apply I|]. apply (bi_made _ _ (p_budgets _ I) (tools x) (budget t) (place t)). by apply holders_lookup.
  - unfold place_ok. cbn. by rewrite bool_decide_true by done.
  - intros j u Hj Hou Hu. unfold place_ok in *. rewrite Ea in Hu. cbn. destruct (of_kind u); [|exact Hu].
    destruct (serves u); [|naive_solver..]. apply lookup_lt_Some in Hj. rewrite bool_decide_false by lia. by destruct (bool_decide (tools x = j)).
  - by right.
  - left. split; [done|]. done.
Qed.

Lemma close_same t : owner (close t) = owner t /\ of_kind (close t) = of_kind t /\ budget (close t) = budget t /\ place (close t) = place t /\ serves (close t) = serves t.
Proof. unfold close. by destruct (closed t). Qed.

Lemma placed_close w i t x : placed w -> threads w !! i = Some t -> sessions w !! owner t = Some x ->
  placed (set_thread i (close t) w).
Proof.
  intros I Hi Hs. destruct (close_same t) as (Ho & Hk & Hb & Hp & Hsv).
  apply (placed_thread w i t (close t) x); try done. unfold place_ok. by rewrite Hk, Hsv, Hp.
Qed.

Lemma placed_close_old s w w' : placed w -> close_old s w = Some w' -> placed w'.
Proof.
  intros I E. unfold close_old in E. destruct (sessions w !! s) as [x|] eqn:Hs; cbn in E; [|done].
  destruct (at_ x) eqn:Ea; try done. destruct (threads w !! old) as [t|] eqn:Ht; cbn in E; [|done]. injection E as <-.
  destruct (p_place _ I _ _ Ht) as (y & Hy & _). pose proof (placed_close _ _ _ _ I Ht Hy) as I'.
  apply (placed_session _ s x (stop_when_over n x) (calls w) I'); try done; cbn; by rewrite Ea.
Qed.

Lemma placed_new_pool n b r w : placed w -> _tool_budget n = Ok (b, r) -> placed (with_budgets (budgets w ++ [b]) w).
Proof.
  intros I E. assert (Hb : exists l, b = Budget l (Some 0%nat) 0 None /\ 0 <= l).
  { unfold _tool_budget in E. destruct (n <? 1) eqn:En; [done|]. bool_prop. destruct (MAX_TOOL_THREADS <? n); injection E as <- <-; (eexists; split; [done|]); [done|lia]. }
  destruct Hb as (l & -> & Hl). assert (H0 : (0 < length (budgets w))%nat).
  { destruct (budgets w !! 0%nat) eqn:E0; [by eapply lookup_lt_Some|]. by destruct (p_process _ I). }
  split; cbn; try apply I.
  - apply budgets_inv_pool; [apply I|done..].
  - rewrite lookup_app_l by done. apply I.
  - intros c x [Hc|[_ Hc]]%lookup_app_Some; [by eapply p_limits|]. destruct (c - length (budgets w))%nat; [|done]. by injection Hc as <-.
Qed.

Lemma placed_new_session b w : placed w -> (b < length (budgets w))%nat ->
  placed (add_session (Session (length w.(threads)) None Idle 0 false false false None)
            (add_thread (new_thread (length w.(sessions)) ToolThread b NotStarted) w)).
Proof.
  intros I Hb. split; cbn; try apply I.
  - unfold holders. cbn. rewrite fmap_app. by apply budgets_inv_thread; [apply I|].
  - intros i t [Hi|[Hge Hi]]%lookup_app_Some.
    + destruct (p_place _ I _ _ Hi) as (x & Hx & Hok). exists x. split; [by apply lookup_app_l_Some|done].
    + destruct (i - length (threads w))%nat eqn:Ei; [|done]. injection Hi as <-. eexists. split; [by apply list_lookup_middle|].
      unfold place_ok. cbn. by destruct (bool_decide _).
  - intros s x [Hs|[Hge Hs]]%lookup_app_Some.
    + destruct (p_sessions _ I _ _ Hs) as [(t & Ht & ?) Hlp]. split; cbn.
      * exists t. split; [by apply lookup_app_l_Some|done].
      * destruct (loop x) as [l|]; [|done]. destruct Hlp as (v & Hv & ?). exists v. split; [by apply lookup_app_l_Some|done].
    + destruct (s - length (sessions w))%nat eqn:Es; [|done]. injection Hs as <-. split; [|done]. cbn.
      eexists. split; [by apply list_lookup_middle|]. split; [cbn; lia|done].
Qed.

Lemma placed_loop_stops s w w' : placed w -> exec (LoopStops s) w = Some w' -> placed w'.
Proof.
  intros I E. cbn in E. destruct (sessions w !! s) as [x|] eqn:Hs; cbn in E; [|done]. destruct (loop x) as [l|] eqn:El; cbn in E; [|done].
  destruct (p_sessions _ I _ _ Hs) as [_ Hlp]. rewrite El in Hlp. destruct Hlp as (t & Ht & Hot & Hkt). rewrite Ht in E. cbn in E.
  assert (Ha : (exists c, at_ x = Awaiting c) \/ at_ x = Idle) by (destruct (at_ x); naive_solver).
  assert (E' : (if shut x && negb (loop_over (serves t)) then Some (set_session s (go Idle (with_running false x))
     (set_thread l (stop_loop w.(budgets) t) w)) else None) = Some w')
    by (destruct Ha as [[c Ha]|Ha]; by rewrite Ha in E).
  clear E. destruct (shut x && negb _) eqn:Eg; [|done]. injection E' as <-. bool_prop.
  destruct (p_place _ I _ _ Ht) as (y & Hy & Hok). assert (y = x) as -> by congruence. unfold place_ok in Hok. rewrite Hkt in Hok.
  assert (Hpl : place t = Free \/ place t = Held).
  { destruct Hok as [_ Hok]. destruct Ha as [[c Ha]|Ha]; rewrite Ha in Hok; by destruct (serves t). }
  apply (placed_update w s x (go Idle (with_running false x)) l t (stop_loop (budgets w) t) (budgets w)); try done; unfold stop_loop; cbn.
  1,2: destruct Hpl as [Hpl|Hpl]; [rewrite bool_decide_false by congruence|rewrite bool_decide_true by done]; done.
  - pose proof (holders_lookup _ _ _ Ht) as Hh. destruct Hpl as [Hpl|Hpl]; [rewrite bool_decide_false by congruence|rewrite bool_decide_true by done]; cbn.
    + rewrite list_insert_id by done. apply I.
    + rewrite Hpl in Hh. apply budgets_inv_release; [apply I|done].
  - unfold place_ok. destruct Hpl as [Hpl|Hpl]; [rewrite bool_decide_false by congruence|rewrite bool_decide_true by done]; cbn; rewrite Hkt; (split; [done|]); (split; [|done]); [by left|by right].
  - intros j u Hj Hu Hou. apply place_ok_ext; cbn; try done; intros; by destruct Ha as [[c ->]| ->].
Qed.

Lemma placed_loop_exits s w w' : placed w -> loop_exits s w = Some w' -> placed w'.
Proof.
  intros I E. unfold loop_exits in E. destruct (sessions w !! s) as [x|] eqn:Hs; cbn in E; [|done]. destruct (loop x) as [l|] eqn:El; cbn in E; [|done].
  destruct (p_sessions _ I _ _ Hs) as [_ Hlp]. rewrite El in Hlp. destruct Hlp as (t & Ht & Hot & Hkt). rewrite Ht in E. cbn in E.
  destruct (bool_decide (serves t = Winding)) eqn:Ew; [|done]. apply bool_decide_eq_true in Ew. destruct (_ && _); [|done]. injection E as <-.
  destruct (p_place _ I _ _ Ht) as (y & Hy & Hok). assert (y = x) as -> by congruence.
  assert (Es : <[s := x]> (sessions w) = sessions w) by by apply list_insert_id.
  unfold set_thread. rewrite <- Es.
  apply (placed_update w s x x l t (put (queue t) Exited t) (budgets w)); try done.
  - cbn. rewrite list_insert_id by by apply holders_lookup. apply I.
  - unfold place_ok in *. cbn. rewrite Hkt in *. by rewrite Ew in Hok.
  - intros En. congruence.
Qed.

Theorem placed_exec a w w' : placed w -> exec a w = Some w' -> placed w'.
Proof.
  intros I E. destruct a.
  - cbn in E. destruct (_tool_budget _) as [[b r]|] eqn:Eb; [|done]. injection E as <-. by eapply placed_new_pool.
  - cbn in E. case_bool_decide; [|done]. injection E as <-. by apply placed_new_session.
  - cbn in E. destruct (sessions w !! s) as [x|] eqn:Hs; cbn in E; [|done]. destruct (_ || _); [done|]. injection E as <-.
    by apply (placed_session w s x (with_running true x)).
  - cbn in E. destruct (sessions w !! s) as [x|] eqn:Hs; cbn in E; [|done]. injection E as <-. by apply (placed_session w s x (with_running false x)).
  - by eapply placed_make_call.
  - by eapply placed_budget.
  - by eapply placed_submit.
  - by eapply placed_start_thread.
  - by eapply placed_serve.
  - by eapply placed_begin.
  - by eapply placed_return.
  - by eapply placed_answer.
  - by eapply placed_task_ends.
  - by eapply placed_collect.
  - by eapply placed_expire.
  - by eapply placed_cancel.
  - by eapply placed_replace.
  - by eapply placed_close_old.
  - cbn in E. destruct (sessions w !! s) as [x|] eqn:Hs; cbn in E; [|done]. destruct (shut x); [done|]. injection E as <-.
    by apply (placed_session w s x (with_closing _ x)).
  - cbn in E. destruct (sessions w !! s) as [x|] eqn:Hs; cbn in E; [|done]. destruct (closing x) as [i|]; cbn in E; [|done].
    destruct (threads w !! i) as [t|] eqn:Ht; cbn in E; [|done]. destruct (_ && _); [done|]. injection E as <-.
    destruct (p_place _ I _ _ Ht) as (y & Hy & _). by apply (placed_session _ s x (with_closing None x) (calls w) (placed_close _ _ _ _ I Ht Hy)).
  - by eapply placed_loop_stops.
  - by eapply placed_loop_exits.
Qed.

Lemma placed_init : placed init.
Proof. split; cbn; try done; [apply budgets_inv_start|]. intros [|c] x E; [|done]. by injection E as <-. Qed.

Lemma reachable_placed w : reachable w -> placed w.
Proof.
  unfold reachable. intros H. assert (Hw : forall u v, rtc step u v -> placed u -> placed v).
  { induction 1 as [|u v z [a Ha] _ IH]; [done|]. intros I. apply IH. by eapply placed_exec. }
  eapply Hw; [exact H|apply placed_init].
Qed.
