(* ===== verification/ToolThreadCalls.v ===== *)
(** * Invariants of tool threads: calls

    A call is in one place: waiting in the queue of one thread, taken by it, or run by it; its
    flags only go up, and [outlasted] counts the calls that are given up on and still run. *)

From S2P Require Import Prelude ThreadBudget ToolThread ToolThreadInv.

(** The calls a thread has accepted and not entered; all it has accepted and not dropped; those
    whose [finish] is to come. *)
Definition taken (t : _ToolThread) : list nat := match t.(serves) with Beginning c => [c] | _ => [] end.
Definition pend (t : _ToolThread) : list nat := omap id t.(queue) ++ taken t.
Definition tokens (t : _ToolThread) : list nat := pend t ++ t.(ran).
Definition undone (t : _ToolThread) : list nat := pend t ++ match t.(serves) with InTool c => [c] | _ => [] end.

Record thread_calls (ks : list call) (t : _ToolThread) : Prop := {
  tc_call c : c ∈ tokens t -> exists k, ks !! c = Some k /\ k.(by_) = t.(owner) /\ k.(plain) = true /\ k.(state) <> Unsubmitted;
  tc_undone c k : c ∈ undone t -> ks !! c = Some k -> k.(done) = false;
  tc_ran c k : c ∈ t.(ran) -> ks !! c = Some k -> k.(timed) = true -> k.(started) = true;
  tc_in c : t.(serves) = InTool c -> c ∈ t.(ran);
  tc_answer c : t.(serves) = Answering c -> exists k, ks !! c = Some k /\ k.(state) <> Unsubmitted
}.

(** The call a session is about to submit. *)
Definition fresh_call (a : whereabouts) : option nat :=
  match a with Charging c | Submitting c | Acquiring c | Starting c | Failing c => Some c | _ => None end.
Definition awaited (a : whereabouts) : option nat := match a with Awaiting c => Some c | _ => None end.
Definition as_plain (a : whereabouts) : bool := match a with Acquiring _ | Starting _ => true | _ => false end.

Record session_calls (ks : list call) (s : nat) (x : session) : Prop := {
  sc_fresh c : fresh_call x.(at_) = Some c ->
    exists k, ks !! c = Some k /\ k.(by_) = s /\ k.(state) = Unsubmitted /\ (as_plain x.(at_) = true -> k.(plain) = true);
  sc_awaited c : awaited x.(at_) = Some c -> exists k, ks !! c = Some k /\ k.(by_) = s /\ k.(state) <> Unsubmitted /\ k.(abandoned) = false
}.

Record call_ok (n : nat) (k : call) : Prop := {
  co_by : (k.(by_) < n)%nat;
  co_task : k.(plain) = false -> k.(state) = Running -> k.(started) = true /\ k.(done) = false;
  co_fresh : k.(state) = Unsubmitted -> k.(started) = false /\ k.(done) = false /\ k.(abandoned) = false;
  co_timed : k.(abandoned) = true -> k.(timed) = true
}.

Definition stuck_of (s : nat) (k : call) : Z := if bool_decide (k.(by_) = s) && stuck k then 1 else 0.

(** The ninth stuck call ends the session's run. *)
Definition deciding (a : whereabouts) : option (option Z) :=
  match a with GivenUp _ n | CancelledIt _ n | Replaced n _ => Some n | _ => None end.
Record cap_ok (x : session) : Prop := {
  cap_most : x.(outlasted) <= MAX_ABANDONED_TOOL_CALLS + 1;
  cap_stop : x.(stopped) = true -> x.(running) = false /\ x.(at_) = Idle;
  cap_over : MAX_ABANDONED_TOOL_CALLS < x.(outlasted) ->
    match deciding x.(at_) with Some n => exists k, n = Some k /\ MAX_ABANDONED_TOOL_CALLS < k | None => x.(stopped) = true end
}.

Record called (w : world) : Prop := {
  d_call c k : w.(calls) !! c = Some k -> call_ok (length w.(sessions)) k;
  d_thread i t : w.(threads) !! i = Some t -> thread_calls w.(calls) t;
  d_session s x : w.(sessions) !! s = Some x -> session_calls w.(calls) s x;
  d_count s x : w.(sessions) !! s = Some x -> x.(outlasted) = total (stuck_of s) w.(calls);
  d_cap s x : w.(sessions) !! s = Some x -> cap_ok x;
  d_once : NoDup (w.(threads) ≫= tokens)
}.

(** ** Where calls are *)

Lemma bind_split {A B} (f : A -> list B) l i x : l !! i = Some x -> exists rest, l ≫= f ≡ₚ f x ++ rest /\ forall y, <[i := y]> l ≫= f ≡ₚ f y ++ rest.
Proof.
  revert i. induction l as [|a l IH]; intros [|i] E; try done.
  - injection E as ->. exists (l ≫= f). split; [done|]. intros y. done.
  - destruct (IH i E) as (rest & H1 & H2). exists (f a ++ rest). split.
    + cbn. rewrite H1. by rewrite Permutation_app_swap_app.
    + intros y. cbn. change (f a ++ (<[i := y]> l ≫= f) ≡ₚ f y ++ f a ++ rest). rewrite H2. by rewrite Permutation_app_swap_app.
Qed.

Lemma once_kept l i t t' : NoDup (l ≫= tokens) -> l !! i = Some t -> tokens t' ⊆+ tokens t -> NoDup (<[i := t']> l ≫= tokens).
Proof.
  intros Hn Hi [gone Hp]%submseteq_Permutation. destruct (bind_split tokens _ _ _ Hi) as (rest & H1 & H2).
  rewrite H2. rewrite H1, Hp in Hn. apply NoDup_app in Hn as (Ha & Hb & Hr). apply NoDup_app in Ha as (Ha & _ & _). apply NoDup_app. set_solver.
Qed.

Lemma once_new l i t t' c : NoDup (l ≫= tokens) -> l !! i = Some t -> tokens t' ≡ₚ c :: tokens t -> (forall j u, l !! j = Some u -> c ∉ tokens u) ->
  NoDup (<[i := t']> l ≫= tokens).
Proof.
  intros Hn Hi Hp Hc. destruct (bind_split tokens _ _ _ Hi) as (rest & H1 & H2). rewrite H2, Hp. cbn. constructor; [|by rewrite <- H1].
  rewrite <- H1. intros (u & Hu & [j Hj]%list_elem_of_lookup)%list_elem_of_bind. by eapply Hc.
Qed.

Lemma once_apart l i j t u c : NoDup (l ≫= tokens) -> l !! i = Some t -> l !! j = Some u -> i <> j -> c ∈ tokens t -> c ∈ tokens u -> False.
Proof.
  intros Hn Hi Hj Hne Ht Hu. destruct (bind_split tokens _ _ _ Hi) as (rest & H1 & H2). rewrite H1 in Hn. apply NoDup_app in Hn as (_ & Hn & _).
  apply (Hn c Ht). specialize (H2 (put [] NotStarted (new_thread 0 ToolThread 0 NotStarted))). cbn in H2. rewrite <- H2.
  apply list_elem_of_bind. exists u. split; [done|]. apply list_elem_of_lookup. exists j. by rewrite list_lookup_insert_ne.
Qed.

Lemma undone_tokens ks t : thread_calls ks t -> undone t ⊆ tokens t.
Proof.
  intros H c. unfold undone, tokens. rewrite !elem_of_app. intros [?|Hc]; [by left|right]. destruct (serves t) eqn:E; try by apply elem_of_nil in Hc.
  apply list_elem_of_singleton in Hc as ->. by apply (tc_in _ _ H).
Qed.

(** ** A call changes *)

Record evolves (k k' : call) : Prop := {
  ev_same : k'.(by_) = k.(by_) /\ k'.(plain) = k.(plain) /\ k'.(timed) = k.(timed);
  ev_state : k.(state) <> Unsubmitted -> k'.(state) <> Unsubmitted;
  ev_started : k.(started) = true -> k'.(started) = true
}.

Lemma thread_calls_insert ks t c k k' :
  ks !! c = Some k -> evolves k k' -> (k'.(done) = true -> k.(done) = true \/ c ∉ undone t) -> thread_calls ks t -> thread_calls (<[c := k']> ks) t.
Proof.
  intros Hk [(Hb & Hp & Ht) Hs Hst] Hd H. assert (Hlen : (c < length ks)%nat) by by eapply lookup_lt_Some.
  assert (Hcase : forall d q, <[c := k']> ks !! d = Some q -> d = c /\ q = k' \/ d <> c /\ ks !! d = Some q) by (intros d q Hq; by eapply lookup_insert_case in Hq).
  split.
  - intros d Hin. destruct (tc_call _ _ H d Hin) as (q & Hq & E1 & E2 & E3). destruct (decide (c = d)) as [<-|Hne].
    + exists k'. rewrite list_lookup_insert_eq by done. assert (q = k) as -> by congruence. split_and!; [done|congruence|congruence|by apply Hs].
    + exists q. by rewrite list_lookup_insert_ne.
  - intros d q Hin Hq. destruct (Hcase _ _ Hq) as [[-> ->]|[_ Hq']]; [|by eapply tc_undone].
    destruct (done k') eqn:E; [|done]. destruct (Hd eq_refl) as [Hd'|Hd']; [|done]. by rewrite <- Hd', (tc_undone _ _ H c k Hin Hk).
  - intros d q Hin Hq Htm. destruct (Hcase _ _ Hq) as [[-> ->]|[_ Hq']]; [|by eapply tc_ran]. apply Hst. eapply tc_ran; [done..|congruence].
  - apply H.
  - intros d Hd'. destruct (tc_answer _ _ H d Hd') as (q & Hq & E). destruct (decide (c = d)) as [<-|Hne].
    + exists k'. rewrite list_lookup_insert_eq by done. assert (q = k) as -> by congruence. split; [done|by apply Hs].
    + exists q. by rewrite list_lookup_insert_ne.
Qed.

Lemma session_calls_insert ks s x c k k' :
  ks !! c = Some k -> evolves k k' ->
  (fresh_call x.(at_) = Some c -> k'.(state) = Unsubmitted) -> (awaited x.(at_) = Some c -> k'.(abandoned) = false) ->
  session_calls ks s x -> session_calls (<[c := k']> ks) s x.
Proof.
  intros Hk [(Hb & Hp & Ht) Hs Hst] Hf Ha H. assert (Hlen : (c < length ks)%nat) by by eapply lookup_lt_Some. split.
  - intros d Hd. destruct (sc_fresh _ _ _ H d Hd) as (q & Hq & E1 & E2 & E3). destruct (decide (c = d)) as [<-|Hne].
    + exists k'. rewrite list_lookup_insert_eq by done. assert (q = k) as -> by congruence. split_and!; [done|congruence|by apply Hf|rewrite Hp; done].
    + exists q. by rewrite list_lookup_insert_ne.
  - intros d Hd. destruct (sc_awaited _ _ _ H d Hd) as (q & Hq & E1 & E2 & E3). destruct (decide (c = d)) as [<-|Hne].
    + exists k'. rewrite list_lookup_insert_eq by done. assert (q = k) as -> by congruence. split_and!; [done|congruence|by apply Hs|by apply Ha].
    + exists q. by rewrite list_lookup_insert_ne.
Qed.

Lemma called_change w s x x' i t t' ks' bs :
  called w -> w.(sessions) !! s = Some x -> w.(threads) !! i = Some t ->
  (forall c k, ks' !! c = Some k -> call_ok (length w.(sessions)) k) ->
  (forall j u, j <> i -> w.(threads) !! j = Some u -> thread_calls ks' u) -> thread_calls ks' t' ->
  (forall s' y, s' <> s -> w.(sessions) !! s' = Some y -> session_calls ks' s' y) -> session_calls ks' s x' ->
  (forall s' y, s' <> s -> w.(sessions) !! s' = Some y -> total (stuck_of s') ks' = total (stuck_of s') w.(calls)) ->
  x'.(outlasted) = total (stuck_of s) ks' -> cap_ok x' -> NoDup (<[i := t']> w.(threads) ≫= tokens) ->
  called (World bs (<[i := t']> w.(threads)) (<[s := x']> w.(sessions)) ks').
Proof.
  intros I Hs Hi Hk Hts Ht Hss Hx Hcs Hc Hcap Hn. split; cbn.
  - intros c k E. rewrite length_insert. by eapply Hk.
  - intros j u Hj. destruct (lookup_insert_case _ _ _ _ _ _ Hi Hj) as [[-> ->]|[Hne Hj']]; [done|by eapply Hts].
  - intros s' y Hy. destruct (lookup_insert_case _ _ _ _ _ _ Hs Hy) as [[-> ->]|[Hne Hy']]; [done|by eapply Hss].
  - intros s' y Hy. destruct (lookup_insert_case _ _ _ _ _ _ Hs Hy) as [[-> ->]|[Hne Hy']]; [done|]. rewrite (Hcs s' y) by done. by apply I.
  - intros s' y Hy. destruct (lookup_insert_case _ _ _ _ _ _ Hs Hy) as [[-> ->]|[Hne Hy']]; [done|by eapply d_cap].
  - done.
Qed.

(** No call changes. *)
Lemma called_simple w s x x' i t t' bs :
  called w -> w.(sessions) !! s = Some x -> w.(threads) !! i = Some t -> thread_calls w.(calls) t' -> session_calls w.(calls) s x' ->
  x'.(outlasted) = x.(outlasted) -> cap_ok x' -> tokens t' ⊆+ tokens t ->
  called (World bs (<[i := t']> w.(threads)) (<[s := x']> w.(sessions)) w.(calls)).
Proof.
  intros I Hs Hi Ht Hx Ho Hcap Hn. eapply called_change; try done.
  - intros. by eapply d_call.
  - intros. by eapply d_thread.
  - intros. by eapply d_session.
  - rewrite Ho. by apply I.
  - eapply once_kept; [apply I|done..].
Qed.

(** A call of the session changes. *)
Lemma called_update w s x x' i t t' c k k' bs :
  called w -> w.(sessions) !! s = Some x -> w.(threads) !! i = Some t -> w.(calls) !! c = Some k -> k.(by_) = s ->
  evolves k k' -> call_ok (length w.(sessions)) k' ->
  (k'.(done) = true -> k.(done) = true \/ forall j u, j <> i -> w.(threads) !! j = Some u -> c ∉ undone u) ->
  thread_calls (<[c := k']> w.(calls)) t' -> session_calls (<[c := k']> w.(calls)) s x' ->
  x'.(outlasted) = x.(outlasted) - stuck_of s k + stuck_of s k' -> cap_ok x' -> NoDup (<[i := t']> w.(threads) ≫= tokens) ->
  called (World bs (<[i := t']> w.(threads)) (<[s := x']> w.(sessions)) (<[c := k']> w.(calls))).
Proof.
  intros I Hs Hi Hk Hby Hev Hok Hd Ht Hx Ho Hcap Hn.
  assert (Hfar : forall s' y d, s' <> s -> w.(sessions) !! s' = Some y -> fresh_call y.(at_) = Some d \/ awaited y.(at_) = Some d -> d <> c).
  { intros s' y d Hne Hy [Hd'|Hd'] ->; [destruct (sc_fresh _ _ _ (d_session _ I _ _ Hy) c Hd') as (q & Hq & E & _)|
      destruct (sc_awaited _ _ _ (d_session _ I _ _ Hy) c Hd') as (q & Hq & E & _)]; congruence. }
  eapply called_change; try done.
  - intros d q Hq. destruct (lookup_insert_case _ _ _ _ _ _ Hk Hq) as [[-> ->]|[_ Hq']]; [done|by eapply d_call].
  - intros j u Hne Hj. eapply thread_calls_insert; try done; [|by eapply d_thread]. intros Hd'. destruct (Hd Hd') as [?|Hd'']; [by left|right; by eapply Hd''].
  - intros s' y Hne Hy. eapply session_calls_insert; try done; [| |by eapply d_session]; intros Hd'; (exfalso; eapply (Hfar s' y c); eauto).
  - intros s' y Hne Hy. rewrite (total_insert _ _ _ _ _ Hk). unfold stuck_of. destruct Hev as [(Hb & _) _ _].
    rewrite !bool_decide_false by congruence. cbn. lia.
  - rewrite (total_insert _ _ _ _ _ Hk), Ho, (d_count _ I _ _ Hs). lia.
Qed.

Lemma called_session w s x x' bs :
  called w -> w.(sessions) !! s = Some x -> threads_of w s x -> session_calls w.(calls) s x' -> x'.(outlasted) = x.(outlasted) -> cap_ok x' ->
  called (World bs w.(threads) (<[s := x']> w.(sessions)) w.(calls)).
Proof.
  intros I Hs [(t & Ht & _) _] Hx Ho Hc. rewrite <- (list_insert_id (threads w) (tools x) t) by done.
  eapply called_simple; try done. by eapply d_thread.
Qed.

(** A session moves on to a stop where it neither submits nor awaits anything new. *)
Lemma session_calls_go ks s x a : session_calls ks s x ->
  (fresh_call a = None \/ fresh_call a = fresh_call x.(at_) /\ (as_plain a = as_plain x.(at_) \/ as_plain a = false)) ->
  (awaited a = None \/ a = x.(at_)) -> session_calls ks s (go a x).
Proof.
  intros H Hf Ha. split; cbn; intros c Hc.
  - destruct Hf as [Hf|[Hf Hp]]; [congruence|]. rewrite Hf in Hc. destruct (sc_fresh _ _ _ H c Hc) as (k & ? & ? & ? & ?). exists k.
    split_and!; try done. destruct Hp as [-> | ->]; done.
  - destruct Ha as [Ha|Ha]; [congruence|]. subst. by apply H.
Qed.

Lemma session_calls_same ks s x x' : at_ x' = at_ x -> session_calls ks s x -> session_calls ks s x'.
Proof. intros E [H1 H2]. split; rewrite E; done. Qed.

(** A call is made. *)
Lemma thread_calls_app ks k t : thread_calls ks t -> thread_calls (ks ++ [k]) t.
Proof.
  intros H. assert (Hold : forall c, c ∈ tokens t -> forall q, (ks ++ [k]) !! c = Some q -> ks !! c = Some q).
  { intros c Hc q Hq. destruct (tc_call _ _ H c Hc) as (q' & Hq' & _). rewrite (lookup_app_l_Some _ _ _ _ Hq') in Hq. congruence. }
  split.
  - intros c Hc. destruct (tc_call _ _ H c Hc) as (q & Hq & ?). exists q. split; [by apply lookup_app_l_Some|done].
  - intros c q Hc Hq. eapply tc_undone; [done..|]. eapply Hold; [|done]. by eapply undone_tokens.
  - intros c q Hc Hq. eapply tc_ran; [done..|]. eapply Hold; [|done]. unfold tokens. set_solver.
  - apply H.
  - intros c Hc. destruct (tc_answer _ _ H c Hc) as (q & Hq & ?). exists q. split; [by apply lookup_app_l_Some|done].
Qed.

Lemma session_calls_app ks k s x : session_calls ks s x -> session_calls (ks ++ [k]) s x.
Proof.
  intros H. split; intros c Hc; [destruct (sc_fresh _ _ _ H c Hc) as (q & Hq & ?)|destruct (sc_awaited _ _ _ H c Hc) as (q & Hq & ?)];
    exists q; (split; [by apply lookup_app_l_Some|done]).
Qed.

Lemma thread_calls_same ks t t' : owner t' = owner t -> queue t' = queue t -> serves t' = serves t -> ran t' = ran t -> thread_calls ks t -> thread_calls ks t'.
Proof.
  intros Ho Hq Hs Hr [H1 H2 H3 H4 H5]. unfold tokens, undone, pend, taken in *.
  split; unfold tokens, undone, pend, taken; rewrite ?Ho, ?Hq, ?Hs, ?Hr; done.
Qed.

(** The items a thread has not reached yet do not come from nowhere. *)
Lemma thread_calls_fewer ks t t' : owner t' = owner t -> tokens t' ⊆ tokens t -> undone t' ⊆ undone t -> ran t' ⊆ ran t ->
  (forall c, serves t' = InTool c -> c ∈ ran t') -> (forall c, serves t' = Answering c -> c ∈ tokens t \/ serves t = Answering c) ->
  thread_calls ks t -> thread_calls ks t'.
Proof.
  intros Ho Ht Hu Hr Hi Ha [H1 H2 H3 H4 H5]. split; [|by eauto..|]; intros c Hc; [rewrite Ho; by apply H1, Ht|].
  destruct (Ha c Hc) as [Hc'|Hc']; [|by apply H5]. destruct (H1 c Hc') as (k & ? & _ & _ & ?). by exists k.
Qed.

Lemma called_add_thread w t : called w -> tokens t = [] -> thread_calls w.(calls) t -> called (add_thread t w).
Proof.
  intros I Ht Htc. split; cbn; try apply I.
  - intros i u [Hi|[Hge Hi]]%lookup_app_Some; [by eapply d_thread|]. destruct (i - length (threads w))%nat; [|done]. by injection Hi as <-.
  - rewrite bind_app. cbn. rewrite Ht, app_nil_r. apply I.
Qed.

Lemma called_add_call w s x x' k bs :
  called w -> w.(sessions) !! s = Some x -> session_calls (w.(calls) ++ [k]) s x' -> x'.(outlasted) = x.(outlasted) -> cap_ok x' ->
  stuck k = false -> call_ok (length w.(sessions)) k -> called (World bs w.(threads) (<[s := x']> w.(sessions)) (w.(calls) ++ [k])).
Proof.
  intros I Hs Hx Ho Hcap Hk Hok.
  assert (Htot : forall s', total (stuck_of s') (calls w ++ [k]) = total (stuck_of s') (calls w)).
  { intros s'. rewrite total_app. cbn. unfold stuck_of at 2. rewrite Hk, andb_false_r. lia. }
  split; cbn.
  - intros c q [Hc|[_ Hc]]%lookup_app_Some; rewrite length_insert; [by eapply d_call|]. destruct (c - length (calls w))%nat; [|done]. by injection Hc as <-.
  - intros i t Hi. apply thread_calls_app. by eapply d_thread.
  - intros s' y Hy. destruct (lookup_insert_case _ _ _ _ _ _ Hs Hy) as [[-> ->]|[Hne Hy']]; [done|]. apply session_calls_app. by eapply d_session.
  - intros s' y Hy. rewrite Htot. destruct (lookup_insert_case _ _ _ _ _ _ Hs Hy) as [[-> ->]|[Hne Hy']]; [rewrite Ho|]; by apply I.
  - intros s' y Hy. destruct (lookup_insert_case _ _ _ _ _ _ Hs Hy) as [[-> ->]|[Hne Hy']]; [done|by eapply d_cap].
  - apply I.
Qed.

(** The cap is a matter of few fields. *)
Lemma cap_ok_go x a : cap_ok x -> deciding x.(at_) = None -> deciding a = None -> x.(stopped) = false \/ a = Idle -> cap_ok (go a x).
Proof.
  intros [H1 H2 H3] Hx Ha Hs. rewrite Hx in H3. split; cbn; [done| |by rewrite Ha]. intros Hst. destruct (H2 Hst) as [Hr Hi].
  destruct Hs as [Hs| ->]; [congruence|done].
Qed.

Lemma not_stopped x : cap_ok x -> at_ x <> Idle \/ running x = true -> stopped x = false.
Proof. intros [_ H _] Hx. destruct (stopped x); [|done]. destruct (H eq_refl). destruct Hx; congruence. Qed.

Lemma called_thread w i t t' bs :
  called w -> w.(threads) !! i = Some t -> thread_calls w.(calls) t' -> tokens t' ⊆+ tokens t -> called (World bs (<[i := t']> w.(threads)) w.(sessions) w.(calls)).
Proof.
  intros I Hi Ht Hn. split; cbn; try apply I.
  - intros j u Hj. destruct (lookup_insert_case _ _ _ _ _ _ Hi Hj) as [[-> ->]|[_ Hj']]; [done|by eapply d_thread].
  - eapply once_kept; [apply I|done..].
Qed.

Lemma called_place w i t st bs : called w -> w.(threads) !! i = Some t -> called (World bs (<[i := set_place st t]> w.(threads)) w.(sessions) w.(calls)).
Proof. intros I Hi. eapply called_thread; try done. apply (thread_calls_same _ t); [done..|]. by eapply d_thread. Qed.

Lemma thread_calls_new ks o k b s st : taken (new_thread o k b s) = [] /\ (forall c, s <> InTool c /\ s <> Answering c) -> thread_calls ks (set_place st (new_thread o k b s)).
Proof.
  intros [Ht Hs]. split; unfold tokens, undone, pend; cbn; unfold taken in *; cbn in *; rewrite ?Ht; cbn.
  - intros c []%elem_of_nil.
  - intros c q Hc. destruct s; cbn in *; try done; try by apply elem_of_nil in Hc. by destruct (Hs c0).
  - intros c q []%elem_of_nil.
  - intros c E. by destruct (Hs c).
  - intros c E. by destruct (Hs c).
Qed.

Lemma called_make_call s plain timed w w' : placed w -> called w -> make_call s plain timed w = Some w' -> called w'.
Proof.
  intros P I E. unfold make_call in E. destruct (sessions w !! s) as [x|] eqn:Hs; cbn in E; [|done].
  pose proof (p_sessions _ P _ _ Hs) as [(t & Ht & Hot & Hkt) Hlp]. rewrite Ht in E. cbn in E.
  destruct (at_ x) eqn:Ea; try done. destruct (running x) eqn:Er; [|done].
  set (k := Call s plain timed Unsubmitted false false false) in *.
  assert (Hns : stopped x = false) by (apply not_stopped; [by eapply d_cap|by right]).
  assert (Hcall : forall bs a l, fresh_call a = Some (length (calls w)) -> as_plain a = false -> awaited a = None -> deciding a = None ->
    called (World bs w.(threads) (<[s := Session (tools x) l a (outlasted x) (running x) (stopped x) (shut x) (closing x)]> w.(sessions)) (w.(calls) ++ [k]))).
  { intros bs a l Ha Hp Hw Hd. eapply called_add_call; try done.
    - split; cbn; intros c Hc; [|congruence]. rewrite Ha in Hc. injection Hc as <-. exists k. rewrite Hp. split_and!; try done. by apply list_lookup_middle.
    - destruct (d_cap _ I _ _ Hs) as [H1 H2 H3]. rewrite Ea in H3. split; cbn; [done|by rewrite Hns|]. rewrite Hd. done.
    - split; cbn; try done. by eapply lookup_lt_Some. }
  destruct (loop x) as [l|] eqn:El.
  - destruct Hlp as (lt & Hlt & Holt & Hklt). rewrite Hlt in E. cbn in E. destruct (place lt) eqn:Epl; try done.
    + destruct (loop_over (serves lt)); [done|]. injection E as <-. pose proof (Hcall (budgets w) (Charging (length (calls w))) (Some l) eq_refl eq_refl eq_refl eq_refl) as I'.
      cbn in I'. unfold set_session, go. cbn. rewrite El. by apply (called_place _ l lt _ (budgets w) I').
    + injection E as <-. unfold set_session, go. cbn. rewrite El. by apply Hcall.
  - injection E as <-. pose proof (Hcall (budgets w) (Charging (length (calls w))) (Some (length (threads w))) eq_refl eq_refl eq_refl eq_refl) as I'.
    set (nt := set_place (acquire (budgets w) (budget t)) (new_thread s LoopThread (budget t) Waiting)).
    assert (Htc : thread_calls (calls w ++ [k]) nt) by by apply thread_calls_new.
    exact (called_add_thread _ nt I' eq_refl Htc).
Qed.

Lemma called_budget i w w' : placed w -> called w -> step_budget i w = Some w' -> called w'.
Proof.
  intros P I E. unfold step_budget in E. destruct (threads w !! i) as [t|] eqn:Hi; cbn in E; [|done].
  destruct (sessions w !! owner t) as [x|] eqn:Hs; cbn in E; [|done].
  destruct (budget_step i (budgets w) (place t)) as [[bs [st o]]|] eqn:Eb; cbn in E; [|done]. injection E as <-.
  pose proof (d_session _ I _ _ Hs) as Hsc. pose proof (d_cap _ I _ _ Hs) as Hcap.
  eapply (called_simple w (owner t) x _ i t); try done.
  - apply (thread_calls_same _ t); [done..|]. by eapply d_thread.
  - unfold settle. destruct o, (of_kind t), (at_ x) eqn:Ea; try done; try (destruct (is_started t); [done|]).
    all: apply session_calls_go; [done|rewrite Ea; cbn; auto..].
  - unfold settle. by destruct o, (of_kind t), (at_ x) eqn:Ea; try done; destruct (is_started t).
  - unfold settle. destruct o, (of_kind t), (at_ x) eqn:Ea; try done; try (destruct (is_started t); [done|]).
    all: apply cap_ok_go; try done; rewrite ?Ea; try done; left; apply not_stopped; [done|left; congruence].
Qed.

(** A call is put on the queue. *)
Lemma called_put w s x c k t sv bs :
  called w -> w.(sessions) !! s = Some x -> w.(threads) !! x.(tools) = Some t -> t.(owner) = s -> fresh_call x.(at_) = Some c ->
  w.(calls) !! c = Some k -> k.(plain) = true ->
  match sv with Beginning _ | InTool _ | Answering _ => sv = t.(serves) | Waiting | Winding | Exited => taken t = [] | NotStarted => False end ->
  called (World bs (<[x.(tools) := put (t.(queue) ++ [Some c]) sv t]> w.(threads)) (<[s := go (Awaiting c) x]> w.(sessions)) (<[c := set_state Queued k]> w.(calls))).
Proof.
  intros I Hs Ht Hot Hf Hk Hp Hsv. destruct (sc_fresh _ _ _ (d_session _ I _ _ Hs) c Hf) as (k' & Hk' & Hby & Hst & _).
  assert (k' = k) as -> by congruence. pose proof (d_call _ I _ _ Hk) as Hok. destruct (co_fresh _ _ Hok Hst) as (Hs0 & Hd0 & Ha0).
  pose proof (d_cap _ I _ _ Hs) as Hcap. assert (Hns : stopped x = false) by (apply not_stopped; [done|left; intros E; by rewrite E in Hf]).
  assert (Hfree : forall j u, threads w !! j = Some u -> c ∉ tokens u).
  { intros j u Hj Hin. destruct (tc_call _ _ (d_thread _ I _ _ Hj) c Hin) as (q & Hq & _ & _ & Hn). congruence. }
  set (t' := put (queue t ++ [Some c]) sv t).
  assert (Htk : taken t' = taken t) by (destruct sv; first [done | by rewrite Hsv | unfold taken; cbn; by rewrite <- Hsv]).
  assert (Htok : tokens t' ≡ₚ c :: tokens t).
  { unfold tokens, pend. rewrite Htk. cbn. rewrite omap_app. cbn. solve_Permutation || (rewrite <- !app_assoc; cbn; by rewrite <- Permutation_middle). }
  assert (Hund : forall d, d ∈ undone t' -> d = c \/ d ∈ undone t).
  { unfold undone, pend. rewrite Htk. cbn. rewrite omap_app. cbn. intros d. rewrite !elem_of_app, list_elem_of_singleton.
    intros [[[?|?]|?]|Hd]; [by auto..|]. right. right. destruct sv; try by apply elem_of_nil in Hd. by rewrite <- Hsv. }
  assert (Hev : evolves k (set_state Queued k)) by (split; cbn; done).
  eapply (called_update w s x _ _ t t' c k (set_state Queued k)); try done.
  - destruct Hok as [H1 H2 H3 H4]. by split.
  - cbn. by left.
  - assert (H0 : thread_calls (<[c := set_state Queued k]> (calls w)) t).
    { eapply thread_calls_insert; try done; [by left|by eapply d_thread]. }
    destruct H0 as [T1 T2 T3 T4 T5]. split.
    + intros d. rewrite Htok, elem_of_cons. intros [->|Hd]; [|by apply T1]. exists (set_state Queued k).
      rewrite list_lookup_insert_eq by by eapply lookup_lt_Some. cbn. split_and!; try done. congruence.
    + intros d q Hd Hq. destruct (Hund d Hd) as [->|Hd']; [|by eapply T2].
      rewrite list_lookup_insert_eq in Hq by by eapply lookup_lt_Some. injection Hq as <-. done.
    + exact T3.
    + cbn. intros d Hd. apply T4. destruct sv; try done. congruence.
    + cbn. intros d Hd. apply T5. destruct sv; try done. congruence.
  - split; cbn; [done|]. intros d [= <-]. exists (set_state Queued k). rewrite list_lookup_insert_eq by by eapply lookup_lt_Some. done.
  - cbn. unfold stuck_of. cbn. replace (stuck (set_state Queued k)) with (stuck k) by done. lia.
  - apply cap_ok_go; try done; [|by left]. revert Hf. by destruct (at_ x).
  - eapply once_new; [apply I|done..].
Qed.

Lemma called_idle w s x bs : placed w -> called w -> w.(sessions) !! s = Some x -> deciding x.(at_) = None -> called (World bs w.(threads) (<[s := go Idle x]> w.(sessions)) w.(calls)).
Proof.
  intros P I Hs Hd. apply (called_session w s x (go Idle x)); try done.
  - by apply P.
  - apply cap_ok_go; try done; [by eapply d_cap|by right].
Qed.

Lemma called_submit s w w' : placed w -> called w -> submit s w = Some w' -> called w'.
Proof.
  intros P I E. unfold submit in E. destruct (sessions w !! s) as [x|] eqn:Hs; cbn in E; [|done].
  destruct (at_ x) eqn:Ea; try done. destruct (calls w !! c) as [k|] eqn:Hk; cbn in E; [|done].
  destruct (p_sessions _ P _ _ Hs) as [(t & Ht & Hot & Hkt) Hlp].
  assert (Hf : fresh_call (at_ x) = Some c) by by rewrite Ea.
  destruct (plain k) eqn:Hp.
  - rewrite Ht in E. cbn in E. destruct (closed t); [|destruct (is_started t) eqn:Est].
    + injection E as <-. apply called_idle; try done. by rewrite Ea.
    + injection E as <-. apply bool_decide_eq_true in Est.
      apply (called_put w s x c k t (serves t)); try done. unfold taken. by destruct (serves t).
    + destruct (place t) eqn:Epl; try done. injection E as <-. eapply (called_simple w s x _ _ t); try done.
      * apply (thread_calls_same _ t); [done..|]. by eapply d_thread.
      * split; cbn; [|done]. intros d [= <-]. destruct (sc_fresh _ _ _ (d_session _ I _ _ Hs) c Hf) as (q & Hq & ? & ? & _).
        exists q. split_and!; try done. intros _. congruence.
      * apply cap_ok_go; try done; [by eapply d_cap|by rewrite Ea|]. left. apply not_stopped; [by eapply d_cap|left; congruence].
  - injection E as <-. destruct (sc_fresh _ _ _ (d_session _ I _ _ Hs) c Hf) as (q & Hq & Hby & Hst & _). assert (q = k) as -> by congruence.
    pose proof (d_call _ I _ _ Hk) as Hok. destruct (co_fresh _ _ Hok Hst) as (Hs0 & Hd0 & Ha0).
    set (k' := set_flags true false false (set_state Running k)). unfold set_session, set_call. cbn.
    rewrite <- (list_insert_id (threads w) (tools x) t) by done.
    assert (Hev : evolves k k') by (split; cbn; done).
    eapply (called_update w s x _ _ t t c k k'); try done.
    + destruct Hok. by split.
    + eapply thread_calls_insert; try done. by eapply d_thread.
    + split; cbn; [done|]. intros d [= <-]. exists k'. by rewrite list_lookup_insert_eq by by eapply lookup_lt_Some.
    + cbn. unfold stuck_of, stuck. cbn. rewrite Ha0, !andb_false_r. lia.
    + apply cap_ok_go; try done; [by eapply d_cap|by rewrite Ea|]. left. apply not_stopped; [by eapply d_cap|left; congruence].
    + rewrite list_insert_id by done. apply I.
Qed.

Lemma called_start_thread s ok w w' : placed w -> called w -> start_thread s ok w = Some w' -> called w'.
Proof.
  intros P I E. unfold start_thread in E. destruct (sessions w !! s) as [x|] eqn:Hs; cbn in E; [|done].
  destruct (at_ x) eqn:Ea; try done. destruct (calls w !! c) as [k|] eqn:Hk; cbn in E; [|done].
  destruct (p_sessions _ P _ _ Hs) as [(t & Ht & Hot & Hkt) Hlp]. rewrite Ht in E. cbn in E.
  assert (Hf : fresh_call (at_ x) = Some c) by by rewrite Ea.
  destruct (sc_fresh _ _ _ (d_session _ I _ _ Hs) c Hf) as (q & Hq & Hby & Hst & Hp). assert (q = k) as -> by congruence. rewrite Ea in Hp.
  assert (Hsv : serves t = NotStarted).
  { destruct (p_place _ P _ _ Ht) as (y & Hy & Hok). assert (y = x) as -> by congruence. unfold place_ok in Hok. rewrite Hkt, Ea in Hok.
    destruct (serves t); try (destruct Hok as [_ Hok]; by specialize (Hok eq_refl)). done. }
  destruct ok; injection E as <-.
  - apply (called_put w s x c k t Waiting); try done; [by apply Hp|]. unfold taken. by rewrite Hsv.
  - eapply (called_simple w s x _ _ t); try done.
    + apply (thread_calls_same _ t); [done..|]. by eapply d_thread.
    + apply session_calls_go; [by apply I|right|by left]. rewrite Ea. auto.
    + apply cap_ok_go; try done; [by eapply d_cap|by rewrite Ea|]. left. apply not_stopped; [by eapply d_cap|left; congruence].
Qed.

Lemma stuck_of_same s k k' : by_ k' = by_ k -> stuck k' = stuck k -> stuck_of s k' = stuck_of s k.
Proof. intros H1 H2. unfold stuck_of. by rewrite H1, H2. Qed.

(** A submitted call changes, neither given up on nor finished by it. *)
Lemma called_own w i t t' c k k' bs :
  called w -> w.(threads) !! i = Some t -> w.(calls) !! c = Some k -> evolves k k' -> call_ok (length w.(sessions)) k' -> k.(state) <> Unsubmitted ->
  k'.(done) = k.(done) -> k'.(abandoned) = k.(abandoned) -> stuck k' = stuck k ->
  (thread_calls (<[c := k']> w.(calls)) t -> thread_calls (<[c := k']> w.(calls)) t') -> tokens t' ⊆+ tokens t ->
  called (World bs (<[i := t']> w.(threads)) w.(sessions) (<[c := k']> w.(calls))).
Proof.
  intros I Hi Hk Hev Hok Hst Hd Ha Hsk Ht Hn.
  destruct (lookup_lt_is_Some_2 (sessions w) (by_ k)) as [x Hx]; [eapply co_by; by eapply d_call|].
  rewrite <- (list_insert_id (sessions w) (by_ k) x) by done. eapply (called_update w (by_ k) x x i t t' c k k'); try done.
  - intros E. left. congruence.
  - apply Ht. eapply thread_calls_insert; try done; [|by eapply d_thread]. intros E. left. congruence.
  - eapply session_calls_insert; try done; [| |by apply I].
    + intros Hf. destruct (sc_fresh _ _ _ (d_session _ I _ _ Hx) c Hf) as (q0 & Hq0 & _ & Hu & _). congruence.
    + intros Hw. destruct (sc_awaited _ _ _ (d_session _ I _ _ Hx) c Hw) as (q0 & Hq0 & _ & _ & Hna). congruence.
  - rewrite (stuck_of_same _ k k') by (done || apply Hev). lia.
  - by eapply d_cap.
  - eapply once_kept; [apply I|done..].
Qed.

Lemma called_serve i w w' : placed w -> called w -> serve i w = Some w' -> called w'.
Proof.
  intros P I E. unfold serve in E. destruct (threads w !! i) as [t|] eqn:Hi; cbn in E; [|done].
  destruct (p_place _ P _ _ Hi) as (x & Hs & _). destruct (of_kind t) eqn:Hkt; [|done]. destruct (serves t) eqn:Hsv; try done.
  pose proof (d_thread _ I _ _ Hi) as Ht. destruct (queue t) as [|[c|] q] eqn:Eq; [done| |].
  - destruct (calls w !! c) as [k|] eqn:Hk; cbn in E; [|done].
    assert (Htk : tokens t = c :: omap id q ++ ran t) by (unfold tokens, pend, taken; rewrite Eq, Hsv; cbn; by rewrite app_nil_r).
    assert (Hun : undone t = c :: omap id q) by (unfold undone, pend, taken; rewrite Eq, Hsv; cbn; by rewrite !app_nil_r).
    destruct (bool_decide (state k = Cancelled)) eqn:Ec.
    + injection E as <-. eapply called_thread; try done.
      * eapply thread_calls_fewer; [..|exact Ht]; try done; unfold tokens, undone, pend, taken; cbn; rewrite ?Hsv, ?Eq, ?app_nil_r; try set_solver.
      * rewrite Htk. unfold tokens, pend, taken. cbn. rewrite app_nil_r. by apply submseteq_cons.
    + destruct (tc_call _ _ Ht c ltac:(rewrite Htk; left)) as (q' & Hq' & Hby & Hp & Hst). assert (q' = k) as -> by congruence.
      assert (Hd : done k = false) by (eapply (tc_undone _ _ Ht); [|done]; rewrite Hun; left).
      assert (Hev : evolves k (set_state Running k)) by (split; cbn; done).
      set (t' := if timed k then put q (Beginning c) t else enter c (put q Waiting t)).
      assert (Htk' : tokens t' ≡ₚ tokens t).
      { rewrite Htk. unfold t'. destruct (timed k); unfold tokens, pend, taken; cbn.
        - rewrite <- app_assoc. cbn. by rewrite <- Permutation_middle.
        - rewrite app_nil_r, (Permutation_app_comm (ran t)). cbn. by rewrite <- Permutation_middle. }
      injection E as <-. apply (called_own w i t t' c k (set_state Running k)); try done.
      * pose proof (d_call _ I _ _ Hk) as [H1 H2 H3 H4]. split; cbn; try done. by rewrite Hp.
      * intros [T1 T2 T3 T4 T5]. split.
        -- intros d. rewrite Htk'. replace (owner t') with (owner t) by (unfold t'; by destruct (timed k)). apply T1.
        -- intros d q0 Hd' Hq0. apply (T2 d q0); [|done]. rewrite Hun. revert Hd'. unfold t'. destruct (timed k); unfold undone, pend, taken; cbn; rewrite ?app_nil_r; set_solver.
        -- intros d q0 Hd' Hq0 Htm. revert Hd'. unfold t'. destruct (timed k) eqn:Etm; cbn; [by intros; eapply T3|].
           rewrite elem_of_app, list_elem_of_singleton. intros [Hd'| ->]; [by eapply T3|]. rewrite list_lookup_insert_eq in Hq0 by by eapply lookup_lt_Some.
           injection Hq0 as <-. cbn in Htm. congruence.
        -- unfold t'. destruct (timed k); cbn; [done|]. intros d [= <-]. set_solver.
        -- unfold t'. by destruct (timed k).
      * by rewrite Htk'.
  - injection E as <-. eapply called_thread; try done.
    + apply (thread_calls_fewer _ t); try done; unfold tokens, undone, pend, taken; cbn; rewrite ?Hsv, ?Eq, ?app_nil_r; try set_solver.
    + unfold tokens, pend, taken. cbn. rewrite Eq, Hsv. cbn. done.
Qed.

Lemma called_begin i w w' : called w -> begin_call i w = Some w' -> called w'.
Proof.
  intros I E. unfold begin_call in E. destruct (threads w !! i) as [t|] eqn:Hi; cbn in E; [|done].
  destruct (serves t) eqn:Hsv; try done. destruct (calls w !! c) as [k|] eqn:Hk; cbn in E; [|done].
  pose proof (d_thread _ I _ _ Hi) as Ht.
  assert (Hin : c ∈ tokens t) by (unfold tokens, pend, taken; rewrite Hsv; set_solver).
  assert (Hun : c ∈ undone t) by (unfold undone, pend, taken; rewrite Hsv; set_solver).
  destruct (tc_call _ _ Ht c Hin) as (q' & Hq' & Hby & Hp & Hst). assert (q' = k) as -> by congruence.
  assert (Hd : done k = false) by by eapply (tc_undone _ _ Ht).
  unfold begin in E. destruct (abandoned k) eqn:Ha; injection E as <-.
  - unfold set_call, set_thread. cbn. rewrite (list_insert_id (calls w)) by done. eapply called_thread; try done.
    + apply (thread_calls_fewer _ t); try done; unfold tokens, undone, pend, taken; cbn; rewrite ?Hsv, ?app_nil_r; try set_solver.
    + unfold tokens, pend, taken. cbn. rewrite Hsv, app_nil_r, <- app_assoc. cbn. rewrite <- Permutation_middle. by apply submseteq_cons.
  - set (k' := set_flags true (done k) false k). apply (called_own w i t (enter c t) c k k'); try done.
    + pose proof (d_call _ I _ _ Hk) as [H1 H2 H3 H4]. split; cbn; try done.
    + unfold stuck. cbn. by rewrite Ha, !andb_false_r.
    + intros [T1 T2 T3 T4 T5]. assert (Htk : forall d, d ∈ tokens (enter c t) -> d ∈ tokens t).
      { unfold tokens, pend, taken. cbn. rewrite Hsv. set_solver. }
      split; [by intros d Hd'%Htk; apply T1| |cbn| |done].
      * intros d q0 Hd' Hq0. apply (T2 d q0); [|done]. revert Hd'. unfold undone, pend, taken. cbn. rewrite Hsv. set_solver.
      * intros d q0 Hd' Hq0 Htm. apply elem_of_app in Hd' as [Hd'|Hd']; [by eapply T3|]. apply list_elem_of_singleton in Hd' as ->.
        rewrite list_lookup_insert_eq in Hq0 by by eapply lookup_lt_Some. by injection Hq0 as <-.
      * cbn. intros d [= <-]. set_solver.
    + unfold tokens, pend, taken. cbn. rewrite Hsv, app_nil_r, <- app_assoc. cbn. rewrite (Permutation_app_comm (ran t)). done.
Qed.

Lemma once_own l i t : NoDup (l ≫= tokens) -> l !! i = Some t -> NoDup (tokens t).
Proof. intros Hn Hi. destruct (bind_split tokens _ _ _ Hi) as (rest & H1 & _). rewrite H1 in Hn. by apply NoDup_app in Hn as [? _]. Qed.

Lemma cap_ok_less n x : cap_ok x -> n <= outlasted x -> cap_ok (with_outlasted n x).
Proof. intros [H1 H2 H3] Hn. split; cbn; [lia|done|intros; apply H3; lia]. Qed.

(** A call that ends is not counted any more. *)
Lemma finish_count s k n : by_ k = s -> done k = false ->
  (if abandoned k && started k then n - 1 else n) = n - stuck_of s k + stuck_of s (set_flags (started k) true (abandoned k) k).
Proof. intros Hb Hd. unfold stuck_of, stuck. cbn. rewrite Hd, !bool_decide_true by done. destruct (abandoned k), (started k); cbn; lia. Qed.

Lemma called_return i w w' : placed w -> called w -> return_call i w = Some w' -> called w'.
Proof.
  intros P I E. unfold return_call in E. destruct (threads w !! i) as [t|] eqn:Hi; cbn in E; [|done].
  destruct (serves t) eqn:Hsv; try done. destruct (calls w !! c) as [k|] eqn:Hk; cbn in E; [|done].
  pose proof (d_thread _ I _ _ Hi) as Ht. pose proof (tc_in _ _ Ht c Hsv) as Hran.
  assert (Hin : c ∈ tokens t) by (unfold tokens; set_solver).
  assert (Hun : c ∈ undone t) by (unfold undone; rewrite Hsv; set_solver).
  destruct (tc_call _ _ Ht c Hin) as (q' & Hq' & Hby & Hp & Hst). assert (q' = k) as -> by congruence.
  assert (Hd : done k = false) by by eapply (tc_undone _ _ Ht).
  assert (Hfew : forall ks, thread_calls ks t -> thread_calls ks (put (queue t) (Answering c) t)).
  { intros ks Hks. apply (thread_calls_fewer _ t); try done; unfold tokens, undone, pend, taken; cbn; rewrite ?Hsv, ?app_nil_r; set_solver. }
  assert (Htk : tokens (put (queue t) (Answering c) t) = tokens t) by (unfold tokens, pend, taken; cbn; by rewrite Hsv).
  unfold finish_call in E. destruct (timed k) eqn:Htm.
  - destruct (p_place _ P _ _ Hi) as (x & Hs & _). rewrite <- Hby in Hs. rewrite Hs in E. cbn in E. injection E as <-.
    set (k' := set_flags (started k) true (abandoned k) k). pose proof (d_call _ I _ _ Hk) as Hok.
    assert (Hev : evolves k k') by by split.
    apply (called_update w (by_ k) x _ i t (put (queue t) (Answering c) t) c k k'); try done.
    + destruct Hok as [H1 H2 H3 H4]. split; cbn; try done. by rewrite Hp.
    + intros _. right. intros j u Hne Hj Hu. eapply (once_apart _ i j t u c (d_once _ I)); try done. eapply undone_tokens; [|done]. by eapply d_thread.
    + eapply (thread_calls_insert _ _ c k k'); [done|done| |by apply Hfew]. intros _. right. unfold undone, pend, taken. cbn. rewrite !app_nil_r.
      pose proof (once_own _ _ _ (d_once _ I) Hi) as Hn. unfold tokens, pend in Hn. apply NoDup_app in Hn as (_ & Hn & _). intros Hc.
      eapply (Hn c); [set_solver|done].
    + eapply session_calls_insert; try done; [| |apply (session_calls_same _ _ x); [done|by apply I]].
      * intros Hf. destruct (sc_fresh _ _ _ (d_session _ I _ _ Hs) c Hf) as (q0 & Hq0 & _ & Hu & _). congruence.
      * intros Hw. destruct (sc_awaited _ _ _ (d_session _ I _ _ Hs) c Hw) as (q0 & Hq0 & _ & _ & Ha). cbn. congruence.
    + cbn. by apply finish_count.
    + apply cap_ok_less; [by eapply d_cap|]. destruct (_ && _); lia.
    + eapply once_kept; [apply I|done|by rewrite Htk].
  - injection E as <-. eapply called_thread; try done; [by apply Hfew|by rewrite Htk].
Qed.

Lemma called_answer i w w' : called w -> answer_call i w = Some w' -> called w'.
Proof.
  intros I E. unfold answer_call in E. destruct (threads w !! i) as [t|] eqn:Hi; cbn in E; [|done].
  destruct (serves t) eqn:Hsv; try done. destruct (calls w !! c) as [k|] eqn:Hk; cbn in E; [|done]. injection E as <-.
  pose proof (d_thread _ I _ _ Hi) as Ht. destruct (tc_answer _ _ Ht c Hsv) as (q' & Hq' & Hst). assert (q' = k) as -> by congruence.
  assert (Hev : evolves k (set_state Finished k)) by by split.
  apply (called_own w i t (put (queue t) Waiting t) c k (set_state Finished k)); try done.
  - pose proof (d_call _ I _ _ Hk) as [H1 H2 H3 H4]. by split.
  - apply thread_calls_fewer; try done; unfold tokens, undone, pend, taken; cbn; by rewrite ?Hsv.
  - unfold tokens, pend, taken. cbn. by rewrite Hsv.
Qed.

(** No thread changes. *)
Lemma called_call w s x x' c k k' bs :
  placed w -> called w -> w.(sessions) !! s = Some x -> w.(calls) !! c = Some k -> k.(by_) = s ->
  evolves k k' -> call_ok (length w.(sessions)) k' ->
  (k'.(done) = true -> k.(done) = true \/ k.(plain) = false) ->
  session_calls (<[c := k']> w.(calls)) s x' -> x'.(outlasted) = x.(outlasted) - stuck_of s k + stuck_of s k' -> cap_ok x' ->
  called (World bs w.(threads) (<[s := x']> w.(sessions)) (<[c := k']> w.(calls))).
Proof.
  intros P I Hs Hk Hby Hev Hok Hd Hx Ho Hcap. destruct (p_sessions _ P _ _ Hs) as [(t & Ht & _) _].
  assert (Hfar : k'.(done) = true -> k.(done) = true \/ forall j u, threads w !! j = Some u -> c ∉ undone u).
  { intros E. destruct (Hd E) as [?|Hp]; [by left|right]. intros j u Hj Hin. pose proof (d_thread _ I _ _ Hj) as Hu.
    destruct (tc_call _ _ Hu c (undone_tokens _ _ Hu _ Hin)) as (q & Hq & _ & Hp' & _). congruence. }
  rewrite <- (list_insert_id (threads w) (tools x) t) by done. eapply (called_update w s x x' _ t t c k k'); try done.
  - intros E. destruct (Hfar E) as [?|H]; [by left|right; intros; by eapply H].
  - eapply thread_calls_insert; try done; [|by eapply d_thread]. intros E. destruct (Hfar E) as [?|H]; [by left|right; by eapply H].
  - rewrite list_insert_id by done. apply I.
Qed.

Lemma cap_ok_same x x' : cap_ok x -> outlasted x' = outlasted x -> at_ x' = at_ x -> stopped x' = stopped x -> running x' = running x -> cap_ok x'.
Proof. intros [H1 H2 H3] E1 E2 E3 E4. split; rewrite ?E1, ?E2, ?E3, ?E4; done. Qed.

Lemma called_task_ends c w w' : placed w -> called w -> task_ends c w = Some w' -> called w'.
Proof.
  intros P I E. unfold task_ends in E. destruct (calls w !! c) as [k|] eqn:Hk; cbn in E; [|done]. destruct (plain k) eqn:Hp; [done|].
  destruct (bool_decide (state k = Running)) eqn:Hst; [|done]. apply bool_decide_eq_true in Hst.
  pose proof (d_call _ I _ _ Hk) as Hok. destruct (co_task _ _ Hok Hp Hst) as [Hsd Hd].
  destruct (lookup_lt_is_Some_2 (sessions w) (by_ k)) as [x Hs]; [by eapply co_by|].
  assert (Hx : forall k', by_ k' = by_ k -> state k' <> Unsubmitted -> abandoned k' = abandoned k -> evolves k k' -> forall x', at_ x' = at_ x -> session_calls (<[c := k']> (calls w)) (by_ k) x').
  { intros k' _ Hs' Ha' Hev x' Hx'. eapply session_calls_insert; try done; rewrite ?Hx'; [| |by eapply session_calls_same; [|by apply I]].
    - intros Hf. destruct (sc_fresh _ _ _ (d_session _ I _ _ Hs) c Hf) as (q0 & Hq0 & _ & Hu & _). congruence.
    - intros Hw. destruct (sc_awaited _ _ _ (d_session _ I _ _ Hs) c Hw) as (q0 & Hq0 & _ & _ & Ha). cbn. congruence. }
  unfold finish_call in E. cbn [timed set_state] in E. destruct (timed k) eqn:Htm.
  - cbn in E. rewrite Hs in E. cbn in E. injection E as <-. unfold set_call, set_session. cbn. rewrite list_insert_insert_eq.
    set (k' := set_flags (started k) true (abandoned k) (set_state Finished k)). assert (Hev : evolves k k') by by split.
    apply (called_call w (by_ k) x _ c k k'); try done.
    + destruct Hok as [H1 H2 H3 H4]. by split.
    + intros _. by right.
    + by apply Hx.
    + cbn. rewrite (finish_count (by_ k)) by done. rewrite (stuck_of_same _ k' (set_flags (started k) true (abandoned k) k)) by done. done.
    + apply cap_ok_less; [by eapply d_cap|]. destruct (_ && _); lia.
  - injection E as <-. unfold set_call. cbn. rewrite <- (list_insert_id (sessions w) (by_ k) x) by done.
    assert (Hev : evolves k (set_state Finished k)) by by split.
    apply (called_call w (by_ k) x x c k (set_state Finished k)); try done.
    + destruct Hok as [H1 H2 H3 H4]. by split.
    + intros _. by right.
    + by apply Hx.
    + rewrite (stuck_of_same _ k (set_state Finished k)) by done. lia.
    + by eapply d_cap.
Qed.

Lemma called_collect s awaitable w w' : placed w -> called w -> collect s awaitable w = Some w' -> called w'.
Proof.
  intros P I E. unfold collect in E. destruct (sessions w !! s) as [x|] eqn:Hs; cbn in E; [|done].
  destruct (at_ x) eqn:Ea; try done. destruct (calls w !! c) as [k|] eqn:Hk; cbn in E; [|done]. destruct (bool_decide _); [|done].
  destruct (awaitable && plain k).
  - injection E as <-. apply (called_add_call w s x (go (Awaiting (length (calls w))) x)); try done.
    + split; cbn; [done|]. intros d [= <-]. eexists. split; [by apply list_lookup_middle|done].
    + apply cap_ok_go; try done; [by eapply d_cap|by rewrite Ea|]. left. apply not_stopped; [by eapply d_cap|left; congruence].
    + split; cbn; try done. by eapply lookup_lt_Some.
  - injection E as <-. apply called_idle; try done. by rewrite Ea.
Qed.

Lemma called_expire s w w' : placed w -> called w -> expire s w = Some w' -> called w'.
Proof.
  intros P I E. unfold expire in E. destruct (sessions w !! s) as [x|] eqn:Hs; cbn in E; [|done].
  destruct (at_ x) eqn:Ea; try done. destruct (calls w !! c) as [k|] eqn:Hk; cbn in E; [|done]. destruct (timed k) eqn:Htm; [|done]. cbn [negb] in E.
  destruct (negb (plain k) && _) eqn:Ef; [injection E as <-; apply called_idle; [done..|by rewrite Ea]|].
  destruct (sc_awaited _ _ _ (d_session _ I _ _ Hs) c ltac:(by rewrite Ea)) as (q & Hq & Hby & Hst & Hna). assert (q = k) as -> by congruence.
  pose proof (d_call _ I _ _ Hk) as Hok. pose proof (d_cap _ I _ _ Hs) as Hcap.
  assert (Hns : stopped x = false) by (apply not_stopped; [done|left; congruence]).
  assert (Hfew : outlasted x <= MAX_ABANDONED_TOOL_CALLS) by (destruct Hcap as [_ _ H]; rewrite Ea in H; cbn in H; destruct (decide (MAX_ABANDONED_TOOL_CALLS < outlasted x)) as [Hlt|]; [specialize (H Hlt); congruence|lia]).
  destruct (abandon k (outlasted x)) as [[k' n] r] eqn:Eb. injection E as <-.
  set (x' := if plain k then go (GivenUp c r) (with_outlasted n x) else stop_when_over r (with_outlasted n x)).
  assert (Hfacts : evolves k k' /\ call_ok (length (sessions w)) k' /\ done k' = done k /\ n = outlasted x - stuck_of s k + stuck_of s k' /\ n <= MAX_ABANDONED_TOOL_CALLS + 1 /\
    (MAX_ABANDONED_TOOL_CALLS < n -> r = Some n)).
  { unfold abandon in Eb. destruct (done k) eqn:Ed; injection Eb as <- <- <-.
    - split_and!; try done; try lia; by split.
    - assert (Hc : (if started k then outlasted x + 1 else outlasted x) = outlasted x - stuck_of s k + stuck_of s (set_flags (started k) false true k)).
      { unfold stuck_of, stuck. cbn. rewrite Hna, Ed, Hby, !bool_decide_true by done. destruct (started k); cbn; lia. }
      assert (Hok' : call_ok (length (sessions w)) (set_flags (started k) false true k)).
      { destruct Hok as [H1 H2 H3 H4]. split; cbn; try done. intros Hp Hr. destruct (H2 Hp Hr). done. }
      split_and!; try done; try (by split); destruct (started k); lia. }
  destruct Hfacts as (Hev & Hok' & Hd & Hn & Hmost & Hr).
  apply (called_call w s x x' c k k'); try done.
  - intros E. left. congruence.
  - unfold x'. destruct (plain k); split; cbn; done.
  - unfold x'. by destruct (plain k).
  - unfold x'. destruct (plain k).
    + split; cbn; [done|congruence|]. intros Hlt. rewrite (Hr Hlt). eauto.
    + split; cbn; [done| |].
      * rewrite Hns. cbn. destruct r as [z|]; [|done]. intros ->. by rewrite andb_false_r.
      * intros Hlt. rewrite (Hr Hlt). destruct (_ <? n) eqn:El; [by rewrite orb_true_r|]. bool_prop. lia.
Qed.

Lemma cap_ok_deciding x a : cap_ok x -> deciding x.(at_) <> None -> deciding a = deciding x.(at_) -> cap_ok (go a x).
Proof.
  intros [H1 H2 H3] Hx Ha. split; cbn; [done| |by rewrite Ha]. intros Hs. destruct (H2 Hs) as [_ Hi]. rewrite Hi in Hx. by destruct Hx.
Qed.

Lemma called_cancel s w w' : placed w -> called w -> cancel s w = Some w' -> called w'.
Proof.
  intros P I E. unfold cancel in E. destruct (sessions w !! s) as [x|] eqn:Hs; cbn in E; [|done].
  destruct (at_ x) eqn:Ea; try done. destruct (calls w !! c) as [k|] eqn:Hk; cbn in E; [|done]. injection E as <-.
  assert (Hcap : cap_ok (go (CancelledIt c n) x)) by (apply cap_ok_deciding; [by eapply d_cap|by rewrite Ea..]).
  destruct (bool_decide (state k = Queued)) eqn:Hst.
  - apply bool_decide_eq_true in Hst. unfold set_session, set_call. cbn.
    destruct (lookup_lt_is_Some_2 (sessions w) (by_ k)) as [y Hy]; [eapply co_by; by eapply d_call|].
    assert (Hev : evolves k (set_state Cancelled k)) by by split.
    assert (I' : called (World (budgets w) (threads w) (sessions w) (<[c := set_state Cancelled k]> (calls w)))).
    { rewrite <- (list_insert_id (sessions w) (by_ k) y) by done. apply (called_call w (by_ k) y y c k (set_state Cancelled k)); try done.
      - destruct (d_call _ I _ _ Hk) as [H1 H2 H3 H4]. by split.
      - by left.
      - eapply session_calls_insert; try done; [| |by apply I].
        + intros Hf. destruct (sc_fresh _ _ _ (d_session _ I _ _ Hy) c Hf) as (q0 & Hq0 & _ & Hu & _). congruence.
        + intros Hw. destruct (sc_awaited _ _ _ (d_session _ I _ _ Hy) c Hw) as (q0 & Hq0 & _ & _ & Ha). cbn. congruence.
      - rewrite (stuck_of_same _ k (set_state Cancelled k)) by done. lia.
      - by eapply d_cap. }
    by apply (called_session _ s x (go (CancelledIt c n) x) (budgets w) I' Hs (p_sessions _ P _ _ Hs)).
  - apply (called_session w s x (go (CancelledIt c n) x)); try done. by apply P.
Qed.

Lemma called_replace s w w' : placed w -> called w -> replace_tool_thread s w = Some w' -> called w'.
Proof.
  intros P I E. unfold replace_tool_thread in E. destruct (sessions w !! s) as [x|] eqn:Hs; cbn in E; [|done].
  destruct (at_ x) eqn:Ea; try done. destruct (p_sessions _ P _ _ Hs) as [(t & Ht & Hot & Hkt) Hlp]. rewrite Ht in E. cbn in E. injection E as <-.
  set (x' := go (Replaced n (tools x)) (with_tools (length (threads w)) x)).
  assert (I' : called (World (budgets w) (threads w) (<[s := x']> (sessions w)) (calls w))).
  { apply (called_session w s x x'); try done; [by apply P|]. pose proof (d_cap _ I _ _ Hs) as [H1 H2 H3]. rewrite Ea in *.
    split; cbn; [done| |done]. intros Hst. by destruct (H2 Hst). }
  set (nt := new_thread s ToolThread (budget t) NotStarted).
  assert (Htc : thread_calls (calls w) nt) by (split; cbn; try done; intros ? ? []%elem_of_nil || intros ? []%elem_of_nil).
  exact (called_add_thread _ nt I' eq_refl Htc).
Qed.

Lemma tokens_close t : tokens (close t) = tokens t /\ undone (close t) = undone t /\ ran (close t) = ran t.
Proof.
  unfold close. destruct (closed t); [done|]. unfold tokens, undone, pend, taken. cbn. destruct (is_started t); [|done].
  rewrite omap_app. cbn. by rewrite app_nil_r.
Qed.

Lemma called_close w i t bs : called w -> threads w !! i = Some t -> called (World bs (<[i := close t]> (threads w)) (sessions w) (calls w)).
Proof.
  intros I Hi. destruct (close_same t) as (Ho & _ & _ & _ & Hsv). destruct (tokens_close t) as (Ht & Hu & Hr).
  eapply called_thread; try done; [|by rewrite Ht]. pose proof (d_thread _ I _ _ Hi) as H.
  apply (thread_calls_fewer _ t); rewrite ?Ht, ?Hu, ?Hr, ?Hsv; try done; [apply H|by right].
Qed.

Lemma called_close_old s w w' : placed w -> called w -> close_old s w = Some w' -> called w'.
Proof.
  intros P I E. unfold close_old in E. destruct (sessions w !! s) as [x|] eqn:Hs; cbn in E; [|done].
  destruct (at_ x) eqn:Ea; try done. destruct (threads w !! old) as [t|] eqn:Ht; cbn in E; [|done]. injection E as <-.
  pose proof (d_cap _ I _ _ Hs) as [H1 H2 H3]. rewrite Ea in *.
  assert (I' : called (World (budgets w) (threads w) (<[s := stop_when_over n x]> (sessions w)) (calls w))).
  { apply (called_session w s x (stop_when_over n x)); try done; [by apply P|].
    assert (Hns : stopped x = false) by (destruct (stopped x); [|done]; by destruct (H2 eq_refl)). split; cbn; [done| |].
    - rewrite Hns. cbn. destruct n as [z|]; [|done]. intros ->. by rewrite andb_false_r.
    - intros Hlt. destruct (H3 Hlt) as (z & -> & Hz). apply orb_true_iff. right. by apply Z.ltb_lt. }
  exact (called_close _ old t (budgets w) I' Ht).
Qed.

Lemma called_new_session b w : called w ->
  called (add_session (Session (length w.(threads)) None Idle 0 false false false None)
            (add_thread (new_thread (length w.(sessions)) ToolThread b NotStarted) w)).
Proof.
  intros I. assert (I' : called (add_thread (new_thread (length w.(sessions)) ToolThread b NotStarted) w)).
  { apply called_add_thread; [done..|]. split; cbn; try done; intros ? ? []%elem_of_nil || intros ? []%elem_of_nil. }
  destruct I' as [D1 D2 D3 D4 D5 D6]. split; cbn; try done.
  - intros c k Hk. rewrite length_app. destruct (D1 c k Hk) as [H1 H2 H3 H4]. cbn in H1. split; try done. cbn. lia.
  - intros s x [Hs|[_ Hs]]%lookup_app_Some; [by eapply D3|]. destruct (s - length (sessions w))%nat; [|done]. injection Hs as <-. by split.
  - intros s x [Hs|[Hge Hs]]%lookup_app_Some; [by eapply D4|]. destruct (s - length (sessions w))%nat eqn:Es; [|done]. injection Hs as <-. cbn.
    symmetry. apply total_zero. intros k [c Hc]%list_elem_of_lookup. unfold stuck_of. pose proof (co_by _ _ (D1 c k Hc)) as Hb. cbn in Hb.
    rewrite bool_decide_false by lia. done.
  - intros s x [Hs|[_ Hs]]%lookup_app_Some; [by eapply D5|]. destruct (s - length (sessions w))%nat; [|done]. injection Hs as <-. by split; cbn.
Qed.

Lemma called_loop_stops s w w' : placed w -> called w -> exec (LoopStops s) w = Some w' -> called w'.
Proof.
  intros P I E. cbn in E. destruct (sessions w !! s) as [x|] eqn:Hs; cbn in E; [|done]. destruct (loop x) as [l|] eqn:El; cbn in E; [|done].
  destruct (threads w !! l) as [t|] eqn:Ht; cbn in E; [|done]. pose proof (d_thread _ I _ _ Ht) as H.
  assert (Hd : deciding (at_ x) = None) by by destruct (at_ x).
  assert (E' : exists t', w' = set_session s (go Idle (with_running false x)) (set_thread l t' w) /\ t' = stop_loop (budgets w) t) by (destruct (at_ x); try done; destruct (_ && _); [injection E as <-; eauto|done|injection E as <-; eauto|done]).
  destruct E' as (t' & -> & ->). clear E. unfold stop_loop.
  assert (Hpart : owner (put [] Winding t) = owner t /\ tokens (put [] Winding t) = ran t /\ undone (put [] Winding t) = []) by done.
  assert (Hput : thread_calls (calls w) (put [] Winding t)).
  { apply (thread_calls_fewer _ t); try done; unfold tokens, undone, pend, taken; cbn; set_solver. }
  apply (called_simple w s x (go Idle (with_running false x)) l t); try done; cbn zeta.
  - case_bool_decide; [|done]. by apply (thread_calls_same _ (put [] Winding t)).
  - destruct (d_cap _ I _ _ Hs) as [H1 H2 H3]. rewrite Hd in H3. by split.
  - case_bool_decide; unfold tokens, pend, taken; cbn; by apply submseteq_inserts_l.
Qed.

Lemma called_loop_exits s w w' : placed w -> called w -> loop_exits s w = Some w' -> called w'.
Proof.
  intros P I E. unfold loop_exits in E. destruct (sessions w !! s) as [x|] eqn:Hs; cbn in E; [|done]. destruct (loop x) as [l|] eqn:El; cbn in E; [|done].
  destruct (threads w !! l) as [t|] eqn:Ht; cbn in E; [|done]. destruct (bool_decide (serves t = Winding)) eqn:Ew; [|done].
  apply bool_decide_eq_true in Ew. destruct (_ && _); [|done]. injection E as <-. pose proof (d_thread _ I _ _ Ht) as H.
  assert (Es : <[s := x]> (sessions w) = sessions w) by by apply list_insert_id. unfold set_thread. rewrite <- Es.
  apply (called_simple w s x x l t (put (queue t) Exited t)); try done.
  - apply (thread_calls_fewer _ t); try done; unfold tokens, undone, pend, taken; cbn; rewrite Ew; set_solver.
  - by eapply d_session.
  - by eapply d_cap.
  - unfold tokens, pend, taken; cbn. by rewrite Ew.
Qed.

Theorem called_exec a w w' : placed w -> called w -> exec a w = Some w' -> called w'.
Proof.
  intros P I E. destruct a.
  - cbn in E. destruct (_tool_budget _) as [[b r]|]; [|done]. injection E as <-. by destruct I.
  - cbn in E. case_bool_decide; [|done]. injection E as <-. by apply called_new_session.
  - cbn in E. destruct (sessions w !! s) as [x|] eqn:Hs; cbn in E; [|done]. destruct (_ || _) eqn:Eg; [done|]. injection E as <-. bool_prop.
    apply (called_session w s x (with_running true x)); try done; [by apply P|by eapply session_calls_same; [|by apply I]|].
    destruct (d_cap _ I _ _ Hs) as [C1 C2 C3]. split; cbn; try done. congruence.
  - cbn in E. destruct (sessions w !! s) as [x|] eqn:Hs; cbn in E; [|done]. injection E as <-.
    apply (called_session w s x (with_running false x)); try done; [by apply P|by eapply session_calls_same; [|by apply I]|].
    destruct (d_cap _ I _ _ Hs) as [H1 H2 H3]. split; cbn; try done. intros Hst. by destruct (H2 Hst).
  - by eapply called_make_call.
  - by eapply called_budget.
  - by eapply called_submit.
  - by eapply called_start_thread.
  - by eapply called_serve.
  - by eapply called_begin.
  - by eapply called_return.
  - by eapply called_answer.
  - by eapply called_task_ends.
  - by eapply called_collect.
  - by eapply called_expire.
  - by eapply called_cancel.
  - by eapply called_replace.
  - by eapply called_close_old.
  - cbn in E. destruct (sessions w !! s) as [x|] eqn:Hs; cbn in E; [|done]. destruct (shut x); [done|]. injection E as <-.
    apply (called_session w s x (with_closing (Some (tools x)) x)); try done; [by apply P|by eapply session_calls_same; [|by apply I]|].
    by apply (cap_ok_same x); [by eapply d_cap|..].
  - cbn in E. destruct (sessions w !! s) as [x|] eqn:Hs; cbn in E; [|done]. destruct (closing x) as [i|]; cbn in E; [|done].
    destruct (threads w !! i) as [t|] eqn:Ht; cbn in E; [|done]. destruct (_ && _); [done|]. injection E as <-.
    assert (I' : called (World (budgets w) (threads w) (<[s := with_closing None x]> (sessions w)) (calls w))).
    { apply (called_session w s x (with_closing None x)); try done; [by apply P|by eapply session_calls_same; [|by apply I]|].
      by apply (cap_ok_same x); [by eapply d_cap|..]. }
    exact (called_close _ i t (budgets w) I' Ht).
  - by eapply called_loop_stops.
  - by eapply called_loop_exits.
Qed.

Lemma called_init : called init.
Proof. split; cbn; try done. constructor. Qed.

(** Everything that holds of the starting world and survives steps holds of every world. *)
Lemma later_calls w w' : rtc step w w' -> placed w -> called w -> placed w' /\ called w'.
Proof.
  induction 1 as [|u v z [a Ha] _ IH]; [done|]. intros P I. apply IH; [by eapply placed_exec|by eapply called_exec].
Qed.

Lemma reachable_calls w : reachable w -> placed w /\ called w.
Proof. intros H. by apply (later_calls _ _ H); [apply placed_init|apply called_init]. Qed.
