(* ===== verification/ToolThreadProps.v ===== *)
(** * What holds of budgets, tool threads and their calls *)

From S2P Require Import Prelude ThreadBudget ToolThread ToolThreadInv ToolThreadCalls.

(** ** Loops

    A session's loop thread holds a place of its budget from the session's first tool call on:
    whenever the session is in a call past [count_loop], or has ever submitted one, its loop
    thread is counted, until its loop ends. *)

(** Past [count_loop]. *)
Definition past_charge (a : whereabouts) : bool := match a with Idle | Charging _ => false | _ => true end.

(** The session has, or has had, a tool call that was let through. *)
Definition submitted (ks : list call) (s : nat) : Prop := exists c k, ks !! c = Some k /\ k.(by_) = s /\ k.(state) <> Unsubmitted.
Definition engaged (w : world) (s : nat) (x : session) : Prop := past_charge x.(at_) = true \/ submitted w.(calls) s.

Definition charged_thread (t : _ToolThread) : Prop := t.(place) = Held \/ loop_over t.(serves) = true.
Definition charged_loop (w : world) (x : session) : Prop :=
  exists l t, x.(loop) = Some l /\ w.(threads) !! l = Some t /\ t.(of_kind) = LoopThread /\ charged_thread t.
Definition loops_charged (w : world) : Prop := forall s x, w.(sessions) !! s = Some x -> engaged w s x -> charged_loop w x.

(** ** Threads *)

Definition charge_kept (ts ts' : list _ToolThread) : Prop := forall l t, ts !! l = Some t -> t.(of_kind) = LoopThread -> charged_thread t ->
  exists t', ts' !! l = Some t' /\ t'.(of_kind) = LoopThread /\ charged_thread t'.

Lemma charge_kept_refl ts : charge_kept ts ts.
Proof. intros l t Hl Hk Hc. by exists t. Qed.
Lemma charge_kept_app ts t : charge_kept ts (ts ++ [t]).
Proof. intros l u Hl Hk Hc. exists u. split; [by apply lookup_app_l_Some|done]. Qed.
Lemma charge_kept_insert ts i t t' : ts !! i = Some t -> (t.(of_kind) = LoopThread -> charged_thread t -> t'.(of_kind) = LoopThread /\ charged_thread t') ->
  charge_kept ts (<[i := t']> ts).
Proof.
  intros Hi Ht l u Hl Hk Hc. destruct (decide (i = l)) as [<-|Hne].
  - exists t'. rewrite list_lookup_insert_eq by by eapply lookup_lt_Some. assert (u = t) as -> by congruence. split; [done|]. by apply Ht.
  - exists u. by rewrite list_lookup_insert_ne.
Qed.

(** A change of a thread that leaves its place and does not start it again. *)
Lemma charged_same t t' : t'.(of_kind) = t.(of_kind) -> t'.(place) = t.(place) -> (loop_over t.(serves) = true -> loop_over t'.(serves) = true) ->
  t.(of_kind) = LoopThread -> charged_thread t -> t'.(of_kind) = LoopThread /\ charged_thread t'.
Proof. intros Hk Hp Ho Ht [Hc|Hc]; (split; [congruence|]); [left; congruence|right; by apply Ho]. Qed.

Lemma close_kept t : t.(of_kind) = LoopThread -> charged_thread t -> (close t).(of_kind) = LoopThread /\ charged_thread (close t).
Proof. unfold close. destruct (closed t); [done|]. by apply charged_same. Qed.

Lemma tools_kind w s x t : placed w -> w.(sessions) !! s = Some x -> w.(threads) !! x.(tools) = Some t -> t.(of_kind) = ToolThread.
Proof. intros P Hs Ht. destruct (p_sessions _ P _ _ Hs) as [(u & Hu & _ & Hk) _]. congruence. Qed.

Lemma exec_charge_kept a w w' : placed w -> exec a w = Some w' -> charge_kept w.(threads) w'.(threads).
Proof.
  intros P E. destruct a; cbn [exec] in E.
  all: try (unfold collect, cancel, expire, replace_tool_thread, close_old, start_thread, submit in E; invert_step E; simplify_eq; cbn;
    solve [apply charge_kept_refl | apply charge_kept_app
          | eapply charge_kept_insert; [eassumption|]; first [apply close_kept | intros Hk; by rewrite (tools_kind _ _ _ _ P ltac:(eassumption) ltac:(eassumption)) in Hk]]).
  - unfold make_call in E. invert_step E; simplify_eq; cbn; try apply charge_kept_refl; [|apply charge_kept_app].
    eapply charge_kept_insert; [eassumption|]. intros _ [Hc|Hc]; congruence.
  - unfold step_budget in E. destruct (threads w !! i) as [t|] eqn:Hi; cbn in E; [|done]. destruct (sessions w !! owner t); cbn in E; [|done].
    destruct (budget_step i (budgets w) (place t)) as [[bs [st o]]|] eqn:Eb; cbn in E; [|done]. simplify_eq. cbn.
    eapply charge_kept_insert; [done|]. intros Hk [Hc|Hc]; [by rewrite Hc in Eb|]. split; [done|by right].
  - unfold serve in E. destruct (threads w !! i) as [t|] eqn:Hi; cbn in E; [|done]. destruct (of_kind t) eqn:Hk; [|done].
    invert_step E; simplify_eq; cbn; (eapply charge_kept_insert; [eassumption|congruence]).
  - unfold begin_call in E. destruct (threads w !! i) as [t|] eqn:Hi; cbn in E; [|done]. destruct (serves t) eqn:Hsv; try done.
    destruct (calls w !! c) as [k|]; cbn in E; [|done]. destruct (begin k) as [k' b]. simplify_eq. cbn.
    eapply charge_kept_insert; [done|]. destruct b; apply charged_same; try done; by rewrite Hsv.
  - unfold return_call in E. destruct (threads w !! i) as [t|] eqn:Hi; cbn in E; [|done]. destruct (serves t) eqn:Hsv; try done.
    destruct (calls w !! c) as [k|]; cbn in E; [|done]. destruct (finish_call c k w) as [w1|] eqn:Ef; cbn in E; [|done]. simplify_eq. cbn.
    assert (threads w1 = threads w) as -> by (unfold finish_call in Ef; invert_step Ef; by simplify_eq).
    eapply charge_kept_insert; [done|]. apply charged_same; try done. by rewrite Hsv.
  - unfold answer_call in E. destruct (threads w !! i) as [t|] eqn:Hi; cbn in E; [|done]. destruct (serves t) eqn:Hsv; try done.
    destruct (calls w !! c) as [k|]; cbn in E; [|done]. simplify_eq. cbn.
    eapply charge_kept_insert; [done|]. apply charged_same; try done. by rewrite Hsv.
  - unfold task_ends, finish_call in E. invert_step E; simplify_eq; apply charge_kept_refl.
  - unfold cancel in E. destruct (sessions w !! s); cbn in E; [|done]. destruct (at_ s0); try done. destruct (calls w !! c); cbn in E; [|done].
    destruct (bool_decide _); simplify_eq; apply charge_kept_refl.
  - destruct (sessions w !! s) as [x|]; cbn in E; [|done]. destruct (loop x) as [l|]; cbn in E; [|done]. destruct (threads w !! l) as [t|] eqn:Hl; cbn in E; [|done].
    assert (E' : threads w' = <[l := stop_loop (budgets w) t]> (threads w)) by (destruct (at_ x); try done; destruct (_ && _); by simplify_eq).
    rewrite E'. eapply charge_kept_insert; [done|]. intros Hk _. unfold stop_loop. cbn zeta. case_bool_decide; (split; [done|by right]).
  - unfold loop_exits in E. invert_step E; simplify_eq. cbn. eapply charge_kept_insert; [eassumption|]. intros Hk _. split; [done|by right].
Qed.

(** ** Sessions *)

(** A session keeps its loop. *)
Definition loops_kept (ss ss' : list session) : Prop := forall s x l, ss !! s = Some x -> x.(loop) = Some l ->
  exists x', ss' !! s = Some x' /\ x'.(loop) = Some l.

Lemma loops_kept_refl ss : loops_kept ss ss.
Proof. intros s x l Hs Hl. by exists x. Qed.
Lemma loops_kept_app ss y : loops_kept ss (ss ++ [y]).
Proof. intros s x l Hs Hl. exists x. split; [by apply lookup_app_l_Some|done]. Qed.
Lemma loops_kept_insert ss s x x' : ss !! s = Some x -> (x.(loop) = None \/ x'.(loop) = x.(loop)) -> loops_kept ss (<[s := x']> ss).
Proof.
  intros Hs Hx s0 y l Hy Hl. destruct (decide (s = s0)) as [<-|Hne].
  - exists x'. rewrite list_lookup_insert_eq by by eapply lookup_lt_Some. assert (y = x) as -> by congruence. split; [done|]. destruct Hx; congruence.
  - exists y. by rewrite list_lookup_insert_ne.
Qed.

Lemma finish_call_loops c k w w' : finish_call c k w = Some w' -> loops_kept w.(sessions) w'.(sessions).
Proof.
  unfold finish_call. intros E. destruct (timed k); [|simplify_eq; apply loops_kept_refl].
  destruct (sessions w !! by_ k) as [x|] eqn:Hs; cbn in E; [|done]. simplify_eq. cbn. eapply loops_kept_insert; [done|by right].
Qed.

Lemma exec_loops_kept a w w' : exec a w = Some w' -> loops_kept w.(sessions) w'.(sessions).
Proof.
  intros E. destruct a; cbn [exec] in E.
  all: try (unfold make_call, collect, cancel, replace_tool_thread, close_old, start_thread, submit, serve, begin_call, answer_call, loop_exits in E; invert_step E; simplify_eq; cbn;
    solve [apply loops_kept_refl | apply loops_kept_app | eapply loops_kept_insert; [eassumption|by first [right | left]]]).
  - unfold make_call in E. destruct (sessions w !! s) as [x|] eqn:Hs; cbn in E; [|done]. destruct (threads w !! tools x); cbn in E; [|done].
    destruct (at_ x); try done. destruct (running x); [|done]. destruct (loop x) as [l|] eqn:El.
    + invert_step E; simplify_eq; cbn; (eapply loops_kept_insert; [done|by right]).
    + simplify_eq. cbn. eapply loops_kept_insert; [done|by left].
  - unfold step_budget in E. destruct (threads w !! i) as [t|]; cbn in E; [|done]. destruct (sessions w !! owner t) as [x|] eqn:Hs; cbn in E; [|done].
    destruct (budget_step _ _ _) as [[bs [st o]]|]; cbn in E; [|done]. simplify_eq. cbn. eapply loops_kept_insert; [done|right]. apply settle_same.
  - unfold return_call in E. destruct (threads w !! i) as [t|]; cbn in E; [|done]. destruct (serves t); try done.
    destruct (calls w !! c) as [k|]; cbn in E; [|done]. destruct (finish_call c k w) as [w1|] eqn:Ef; cbn in E; [|done]. simplify_eq. cbn. by eapply finish_call_loops.
  - unfold task_ends in E. destruct (calls w !! c) as [k|]; cbn in E; [|done]. destruct (plain k); [done|]. destruct (bool_decide _); [|done].
    by apply finish_call_loops in E.
  - unfold expire in E. destruct (sessions w !! s) as [x|] eqn:Hs; cbn in E; [|done]. destruct (at_ x); try done. destruct (calls w !! c) as [k|]; cbn in E; [|done].
    destruct (negb _); [done|]. destruct (_ && _); [simplify_eq; cbn; eapply loops_kept_insert; [done|by right]|].
    destruct (abandon _ _) as [[k' n] r]. simplify_eq. cbn. eapply loops_kept_insert; [done|right]. by destruct (plain k).
  - unfold cancel in E. destruct (sessions w !! s) as [x|] eqn:Hs; cbn in E; [|done]. destruct (at_ x); try done. destruct (calls w !! c); cbn in E; [|done].
    destruct (bool_decide _); simplify_eq; cbn; (eapply loops_kept_insert; [done|by right]).
Qed.

(** ** Calls *)

(** A call that is let through was let through before, or its session is past [count_loop]. *)
Definition let_through (w w' : world) : Prop := forall s, submitted w'.(calls) s ->
  submitted w.(calls) s \/ exists x, w.(sessions) !! s = Some x /\ past_charge x.(at_) = true.

Lemma let_through_same w w' : w'.(calls) = w.(calls) -> let_through w w'.
Proof. intros E s Hs. left. by rewrite <- E. Qed.

Lemma let_through_insert w w' c k k' : w.(calls) !! c = Some k -> w'.(calls) = <[c := k']> w.(calls) -> k'.(by_) = k.(by_) ->
  k.(state) <> Unsubmitted \/ (exists x, w.(sessions) !! k.(by_) = Some x /\ past_charge x.(at_) = true) \/ k'.(state) = Unsubmitted -> let_through w w'.
Proof.
  intros Hk E Hb Hor s (d & q & Hd & Hs & Hq). rewrite E in Hd. destruct (decide (c = d)) as [<-|Hne].
  - rewrite list_lookup_insert_eq in Hd by by eapply lookup_lt_Some. injection Hd as <-. rewrite Hb in Hs.
    destruct Hor as [?|[(x & Hx & Hp)|?]]; [left; by exists c, k|right; exists x; by rewrite <- Hs|done].
  - rewrite list_lookup_insert_ne in Hd by done. left. by exists d, q.
Qed.

Lemma let_through_app w w' k : w'.(calls) = w.(calls) ++ [k] ->
  k.(state) = Unsubmitted \/ (exists x, w.(sessions) !! k.(by_) = Some x /\ past_charge x.(at_) = true) -> let_through w w'.
Proof.
  intros E Hor s (d & q & Hd & Hs & Hq). rewrite E in Hd. apply lookup_app_Some in Hd as [Hd|[_ Hd]]; [left; by exists d, q|].
  apply list_lookup_singleton_Some in Hd as [_ <-]. destruct Hor as [?|(x & Hx & Hp)]; [done|]. right. exists x. by rewrite <- Hs.
Qed.

Lemma exec_let_through a w w' : called w -> exec a w = Some w' -> let_through w w'.
Proof.
  intros I E. destruct a; cbn [exec] in E.
  all: try (unfold step_budget, replace_tool_thread, close_old, loop_exits in E; invert_step E; simplify_eq; solve [by apply let_through_same]).
  - unfold make_call in E. invert_step E; simplify_eq; (eapply let_through_app; [done|by left]).
  - unfold submit in E. destruct (sessions w !! s) as [x|] eqn:Hs; cbn in E; [|done]. destruct (at_ x) eqn:Ea; try done.
    destruct (calls w !! c) as [k|] eqn:Hk; cbn in E; [|done].
    destruct (sc_fresh _ _ _ (d_session _ I _ _ Hs) c ltac:(by rewrite Ea)) as (q & Hq & Hb & _ & _). assert (q = k) as -> by congruence.
    assert (Hpast : exists x, sessions w !! by_ k = Some x /\ past_charge (at_ x) = true) by (exists x; rewrite Hb; split; [done|by rewrite Ea]).
    destruct (plain k); [invert_step E|]; simplify_eq; try (by apply let_through_same); eapply let_through_insert; try done; by auto.
  - unfold start_thread in E. destruct (sessions w !! s) as [x|] eqn:Hs; cbn in E; [|done]. destruct (at_ x) eqn:Ea; try done.
    destruct (calls w !! c) as [k|] eqn:Hk; cbn in E; [|done]. destruct (threads w !! tools x); cbn in E; [|done].
    destruct (sc_fresh _ _ _ (d_session _ I _ _ Hs) c ltac:(by rewrite Ea)) as (q & Hq & Hb & _ & _). assert (q = k) as -> by congruence.
    destruct ok; simplify_eq; [|by apply let_through_same]. eapply let_through_insert; try done. right. left. exists x. rewrite Ea. by split.
  - unfold serve in E. destruct (threads w !! i) as [t|] eqn:Hi; cbn in E; [|done]. destruct (of_kind t); [|done]. destruct (serves t); try done.
    destruct (queue t) as [|[c|] q] eqn:Eq; [done| |simplify_eq; by apply let_through_same]. destruct (calls w !! c) as [k|] eqn:Hk; cbn in E; [|done].
    destruct (bool_decide _); simplify_eq; [by apply let_through_same|]. eapply let_through_insert; try done. left.
    destruct (tc_call _ _ (d_thread _ I _ _ Hi) c) as (k' & Hk' & _ & _ & Hn); [unfold tokens, pend; rewrite Eq; cbn; set_solver|congruence].
  - unfold begin_call in E. destruct (threads w !! i) as [t|] eqn:Hi; cbn in E; [|done]. destruct (serves t) eqn:Hsv; try done.
    destruct (calls w !! c) as [k|] eqn:Hk; cbn in E; [|done].
    destruct (tc_call _ _ (d_thread _ I _ _ Hi) c) as (k' & Hk' & _ & _ & Hn); [unfold tokens, pend, taken; rewrite Hsv; set_solver|]. assert (k' = k) as -> by congruence.
    unfold begin in E. destruct (abandoned k); simplify_eq; (eapply let_through_insert; [done|done|done|by left]).
  - unfold return_call in E. destruct (threads w !! i) as [t|] eqn:Hi; cbn in E; [|done]. destruct (serves t) eqn:Hsv; try done.
    destruct (calls w !! c) as [k|] eqn:Hk; cbn in E; [|done]. unfold finish_call, finish in E. destruct (timed k); cbn in E.
    + destruct (sessions w !! by_ k) as [x|]; cbn in E; [|done]. simplify_eq. eapply let_through_insert; [done|done|done|]. left.
      destruct (tc_call _ _ (d_thread _ I _ _ Hi) c) as (k' & Hk' & _ & _ & Hn); [|congruence].
      unfold tokens. apply elem_of_app. right. by apply (tc_in _ _ (d_thread _ I _ _ Hi)).
    + simplify_eq. by apply let_through_same.
  - unfold answer_call in E. destruct (threads w !! i) as [t|] eqn:Hi; cbn in E; [|done]. destruct (serves t) eqn:Hsv; try done.
    destruct (calls w !! c) as [k|] eqn:Hk; cbn in E; [|done]. simplify_eq. eapply let_through_insert; [done|done|done|]. left.
    destruct (tc_answer _ _ (d_thread _ I _ _ Hi) c Hsv) as (k' & Hk' & Hn). congruence.
  - unfold task_ends in E. destruct (calls w !! c) as [k|] eqn:Hk; cbn in E; [|done]. destruct (plain k); [done|]. case_bool_decide as Hrun; [|done].
    assert (Hn : state k <> Unsubmitted) by congruence. unfold finish_call, finish in E. destruct (timed _); cbn in E.
    + destruct (sessions w !! by_ k) as [x|]; cbn in E; [|done]. simplify_eq. eapply (let_through_insert _ _ c k); [done|cbn; by rewrite list_insert_insert_eq|done|by left].
    + simplify_eq. eapply let_through_insert; [done|done|done|by left].
  - unfold collect in E. destruct (sessions w !! s) as [x|] eqn:Hs; cbn in E; [|done]. destruct (at_ x) eqn:Ea; try done.
    destruct (calls w !! c) as [k|] eqn:Hk; cbn in E; [|done]. destruct (bool_decide _); [|done]. destruct (_ && _); simplify_eq; [|by apply let_through_same].
    eapply let_through_app; [done|]. right. exists x. cbn. rewrite Ea. by split.
  - unfold expire in E. destruct (sessions w !! s) as [x|] eqn:Hs; cbn in E; [|done]. destruct (at_ x) eqn:Ea; try done.
    destruct (calls w !! c) as [k|] eqn:Hk; cbn in E; [|done]. destruct (negb _); [done|]. destruct (_ && _); [simplify_eq; by apply let_through_same|].
    destruct (sc_awaited _ _ _ (d_session _ I _ _ Hs) c ltac:(by rewrite Ea)) as (q & Hq & _ & Hn & _).
    unfold abandon in E. destruct (done k); simplify_eq; (eapply let_through_insert; [done|done|done|left; congruence]).
  - unfold cancel in E. destruct (sessions w !! s) as [x|]; cbn in E; [|done]. destruct (at_ x); try done. destruct (calls w !! c) as [k|] eqn:Hk; cbn in E; [|done].
    case_bool_decide as Hqd; simplify_eq; [|by apply let_through_same]. eapply let_through_insert; [done|done|done|left; congruence].
Qed.

(** ** Where sessions are *)

Definition passes (w w' : world) : Prop := forall s x', w'.(sessions) !! s = Some x' -> past_charge x'.(at_) = true ->
  (exists x, w.(sessions) !! s = Some x /\ past_charge x.(at_) = true) \/ charged_loop w' x'.

Lemma passes_insert w w' s x x' : w.(sessions) !! s = Some x -> w'.(sessions) = <[s := x']> w.(sessions) ->
  past_charge x'.(at_) = false \/ past_charge x.(at_) = true \/ charged_loop w' x' -> passes w w'.
Proof.
  intros Hs E Hor s0 y Hy Hp. rewrite E in Hy. destruct (decide (s = s0)) as [<-|Hne].
  - rewrite list_lookup_insert_eq in Hy by by eapply lookup_lt_Some. injection Hy as <-. destruct Hor as [?|[?|?]]; [congruence|left; by exists x|by right].
  - rewrite list_lookup_insert_ne in Hy by done. left. by exists y.
Qed.

Lemma passes_at w w' s x x' : w.(sessions) !! s = Some x -> w'.(sessions) = <[s := x']> w.(sessions) -> x'.(at_) = x.(at_) -> passes w w'.
Proof. intros Hs E Ha. eapply passes_insert; [done|done|]. rewrite Ha. destruct (past_charge (at_ x)); auto. Qed.

Lemma passes_same w w' : w'.(sessions) = w.(sessions) -> passes w w'.
Proof. intros E s x Hs Hp. left. exists x. by rewrite <- E. Qed.

Lemma finish_call_passes c k w w1 w' : finish_call c k w = Some w1 -> w'.(sessions) = w1.(sessions) -> passes w w'.
Proof.
  unfold finish_call, finish. intros E E'. destruct (timed k); [|simplify_eq; by apply passes_same].
  destruct (sessions w !! by_ k) as [x|] eqn:Hs; cbn in E; [|done]. simplify_eq.
  eapply passes_insert; [done|exact E'|]. cbn. destruct (past_charge (at_ x)); auto.
Qed.

Lemma exec_passes a w w' : placed w -> exec a w = Some w' -> passes w w'.
Proof.
  intros P E. destruct a; cbn [exec] in E.
  all: try (unfold replace_tool_thread, close_old, loop_exits, serve, begin_call, answer_call, collect, expire, cancel, submit, start_thread in E; invert_step E; simplify_eq;
    solve [by apply passes_same | eapply passes_insert; [eassumption|reflexivity|cbn; first [by left | right; left; by destruct (at_ _)]]]).
  - case_bool_decide; [|done]. simplify_eq. intros s x [Hs|[_ Hs]]%lookup_app_Some Hp; [left; by exists x|].
    by apply list_lookup_singleton_Some in Hs as [_ <-].
  - destruct (sessions w !! s) as [x|] eqn:Hs; cbn in E; [|done]. destruct (_ || _); [done|]. simplify_eq. by eapply passes_at.
  - destruct (sessions w !! s) as [x|] eqn:Hs; cbn in E; [|done]. simplify_eq. by eapply passes_at.
  - unfold make_call in E. destruct (sessions w !! s) as [x|] eqn:Hs; cbn in E; [|done]. destruct (threads w !! tools x); cbn in E; [|done].
    destruct (at_ x); try done. destruct (running x); [|done]. destruct (p_sessions _ P _ _ Hs) as [_ Hlp]. destruct (loop x) as [l|] eqn:El.
    + destruct Hlp as (lt & Hlt & _ & Hk). rewrite Hlt in E. cbn in E. destruct (place lt) eqn:Epl; try done.
      * destruct (loop_over _); [done|]. simplify_eq. eapply passes_insert; [done|done|by left].
      * simplify_eq. eapply passes_insert; [done|done|]. right. right. exists l, lt. split_and!; try done. by left.
    + simplify_eq. eapply passes_insert; [done|done|by left].
  - unfold step_budget in E. destruct (threads w !! i) as [t|] eqn:Hi; cbn in E; [|done]. destruct (sessions w !! owner t) as [x|] eqn:Hs; cbn in E; [|done].
    destruct (budget_step _ _ _) as [[bs [st o]]|] eqn:Eb; cbn in E; [|done]. simplify_eq. eapply passes_insert; [done|done|].
    destruct (p_place _ P _ _ Hi) as (y & Hy & Hok). assert (y = x) as -> by congruence.
    apply budget_step_stage in Eb as [_ Hst]. unfold settle. destruct o, (of_kind t) eqn:Hk, (at_ x) eqn:Ea; cbn; auto;
      try match goal with |- context [is_started t] => destruct (is_started t) end; cbn; rewrite ?Ea; auto.
    right. right. unfold place_ok in Hok. rewrite Hk in Hok. destruct Hok as [Hl _]. exists i, (set_place st t). split_and!; [done| |done|].
    + cbn. by rewrite list_lookup_insert_eq by by eapply lookup_lt_Some.
    + left. cbn. by destruct Hst as [[_ ?]|[_ ?]].
  - unfold return_call in E. destruct (threads w !! i) as [t|]; cbn in E; [|done]. destruct (serves t); try done.
    destruct (calls w !! c) as [k|]; cbn in E; [|done]. destruct (finish_call c k w) as [w1|] eqn:Ef; cbn in E; [|done]. simplify_eq.
    by eapply finish_call_passes.
  - unfold task_ends in E. destruct (calls w !! c) as [k|]; cbn in E; [|done]. destruct (plain k); [done|]. destruct (bool_decide _); [|done].
    intros s x Hs Hp. destruct (finish_call_passes _ _ _ _ w' E eq_refl s x Hs Hp) as [H|H]; [by left|by right].
  - unfold cancel in E. destruct (sessions w !! s) as [x|] eqn:Hs; cbn in E; [|done]. destruct (at_ x) eqn:Ea; try done. destruct (calls w !! c); cbn in E; [|done].
    destruct (bool_decide _); simplify_eq; (eapply passes_insert; [done|done|right; left; by rewrite Ea]).
  - destruct (sessions w !! s) as [x|] eqn:Hs; cbn in E; [|done]. destruct (shut x); [done|]. simplify_eq. by eapply passes_at.
  - destruct (sessions w !! s) as [x|] eqn:Hs; cbn in E; [|done]. destruct (closing x); cbn in E; [|done]. destruct (threads w !! n); cbn in E; [|done].
    destruct (_ && _); [done|]. simplify_eq. by eapply passes_at.
Qed.

(** ** The invariant *)

Lemma exec_loops_charged a w w' : placed w -> called w -> loops_charged w -> exec a w = Some w' -> loops_charged w'.
Proof.
  intros P I L E s x' Hs' He.
  assert (Hold : (exists x, w.(sessions) !! s = Some x /\ engaged w s x) \/ charged_loop w' x').
  { destruct He as [Hp|Hsub].
    - destruct (exec_passes _ _ _ P E s x' Hs' Hp) as [(x & Hx & Hpx)|?]; [left; exists x; split; [done|by left]|by right].
    - left. destruct (exec_let_through _ _ _ I E s Hsub) as [Hw|(x & Hx & Hp)]; [|exists x; split; [done|by left]].
      pose proof Hw as (c & k & Hk & <- & _). destruct (lookup_lt_is_Some_2 _ _ (co_by _ _ (d_call _ I _ _ Hk))) as [x Hx].
      exists x. split; [done|by right]. }
  destruct Hold as [(x & Hx & Hex)|?]; [|done]. destruct (L s x Hx Hex) as (l & t & Hl & Ht & Hk & Hc).
  destruct (exec_loops_kept _ _ _ E s x l Hx Hl) as (y & Hy & Hly). assert (y = x') as -> by congruence.
  destruct (exec_charge_kept _ _ _ P E l t Ht Hk Hc) as (t' & Ht' & Hk' & Hc'). by exists l, t'.
Qed.

Lemma reachable_loops w : reachable w -> loops_charged w.
Proof.
  intros H. assert (Hl : forall u v, rtc step u v -> placed u -> called u -> loops_charged u -> loops_charged v).
  { induction 1 as [|u v z [a Ha] _ IH]; [done|]. intros P I L. apply IH; [by eapply placed_exec|by eapply called_exec|by eapply exec_loops_charged]. }
  apply (Hl _ _ H); [apply placed_init|apply called_init|]. intros s x Hs. cbn in Hs. done.
Qed.

(** ** Budgets *)

(** A thread that holds a place: a tool thread that runs, a loop thread that is charged. *)
Definition holds_place (t : _ToolThread) : bool :=
  match t.(of_kind) with ToolThread => alive t.(serves) | LoopThread => bool_decide (t.(place) = Held) end.

(** A session with a tool call past [count_loop], or with one that was ever let through. *)
Definition served (w : world) (s : nat) : bool :=
  match w.(sessions) !! s with Some x => past_charge x.(at_) | None => false end ||
  existsb (fun k => bool_decide (k.(by_) = s) && negb (bool_decide (k.(state) = Unsubmitted))) w.(calls).

(** A thread a budget must count: a tool thread that runs, and a loop thread whose loop runs and
    whose session has had a tool call. *)
Definition counts (w : world) (t : _ToolThread) : bool :=
  match t.(of_kind) with ToolThread => alive t.(serves) | LoopThread => negb (loop_over t.(serves)) && served w t.(owner) end.

Definition threads_below (f : _ToolThread -> bool) (w : world) (c : nat) : Z :=
  total (fun t => if f t && bool_decide (c ∈ chain w.(budgets) t.(budget)) then 1 else 0) w.(threads).
Definition live_threads (w : world) (c : nat) : Z := threads_below (counts w) w c.

Definition quiet (w : world) : Prop :=
  Forall (fun t => at_rest t.(place) = true) w.(threads) /\
  Forall (fun x => match x.(at_) with Starting _ => False | _ => True end) w.(sessions).

Lemma served_engaged w s x : w.(sessions) !! s = Some x -> served w s = true -> engaged w s x.
Proof.
  intros Hs H. unfold served in H. rewrite Hs in H. apply orb_true_iff in H as [H|H]; [by left|right].
  apply existsb_exists in H as (k & Hk & H). apply andb_true_iff in H as [H1 H2]. apply bool_decide_eq_true in H1. apply negb_true_iff, bool_decide_eq_false in H2.
  apply list_elem_of_In, list_elem_of_lookup in Hk as [c Hc]. by exists c, k.
Qed.

(** What must be counted holds a place. *)
Lemma counts_holds w i t : placed w -> loops_charged w -> w.(threads) !! i = Some t -> counts w t = true -> holds_place t = true.
Proof.
  intros P L Hi Hc. unfold counts, holds_place in *. destruct (of_kind t) eqn:Hk; [done|]. apply andb_true_iff in Hc as [Ho Hs].
  destruct (p_place _ P _ _ Hi) as (x & Hx & Hok). unfold place_ok in Hok. rewrite Hk in Hok. destruct Hok as [Hl _].
  destruct (L _ _ Hx (served_engaged _ _ _ Hx Hs)) as (l & u & Hl' & Hu & _ & Hch). assert (l = i) as -> by congruence. assert (u = t) as -> by congruence.
  apply bool_decide_eq_true. destruct Hch as [?|Hov]; [done|]. by rewrite Hov in Ho.
Qed.

Lemma place_held w i t : placed w -> w.(threads) !! i = Some t -> holds_place t = true -> t.(place) = Held.
Proof.
  intros P Hi Hc. unfold holds_place in Hc. destruct (p_place _ P _ _ Hi) as (x & _ & Hok).
  unfold place_ok in Hok. destruct (of_kind t); [|by apply bool_decide_eq_true in Hc]. by destruct (serves t); try discriminate Hc; destruct Hok.
Qed.

Lemma held_place w i t : placed w -> quiet w -> w.(threads) !! i = Some t -> t.(place) = Held -> holds_place t = true.
Proof.
  intros P [_ Hq] Hi Hp. destruct (p_place _ P _ _ Hi) as (x & Hx & Hok). unfold place_ok in Hok. rewrite Hp in Hok. unfold holds_place. rewrite Hp.
  rewrite Forall_lookup in Hq. specialize (Hq _ _ Hx). cbn in Hq. destruct (of_kind t).
  - destruct (serves t); try done.
    + exfalso. case_bool_decide; [|done]. by destruct (at_ x).
    + exfalso. by destruct Hok as [[?|[]] _].
  - by rewrite bool_decide_true.
Qed.

Lemma charged_threads w c : charged w.(budgets) (holders w) c = total (fun t => claims (chain w.(budgets) t.(budget)) t.(place) c) w.(threads).
Proof. unfold charged, holders. induction (threads w) as [|t l IH]; [done|]. rewrite fmap_cons. cbn [total fst snd]. by rewrite IH. Qed.

Lemma total_le_in {A} (f g : A -> Z) l : (forall x, x ∈ l -> f x <= g x) -> total f l <= total g l.
Proof.
  intros H. induction l as [|x l IH]; cbn [total]; [done|]. pose proof (H x ltac:(by left)). specialize (IH (fun y Hy => H y (list_elem_of_further _ _ _ Hy))). lia.
Qed.

Lemma below_charged w c f : placed w -> (forall i t, w.(threads) !! i = Some t -> f t = true -> holds_place t = true) ->
  threads_below f w c <= charged w.(budgets) (holders w) c.
Proof.
  intros P Hf. rewrite charged_threads. unfold threads_below. apply total_le_in. intros t [i Hi]%list_elem_of_lookup.
  destruct (f t) eqn:E; cbn [andb].
  - rewrite (place_held _ _ _ P Hi (Hf _ _ Hi E)). cbn. by case_bool_decide.
  - destruct (place t); cbn; try lia; case_bool_decide; lia.
Qed.

(** C22. The budgets hold whatever sessions, tools and closings do.  On a budget, counting the
    pools below it, the tool threads that run and the loop threads whose loop runs and whose
    session has had a tool call are at most its limit; when no thread is inside [acquire] or
    [release] its count is the number of the threads that hold a place (the tool threads that run
    and the loop threads charged by [count_loop] whose loop has not ended), so none is lost and
    each of those threads is counted; and if some thread is inside, one of them can go on: locks
    taken up a chain do not deadlock.  A loop thread that has given its place back and still
    waits for the tasks it cancelled is not counted ([winding_loop_uncounted]). *)
Theorem tool_threads_capped w :
  reachable w ->
  (forall c x, w.(budgets) !! c = Some x -> live_threads w c <= x.(limit)) /\
  (quiet w -> forall c x, w.(budgets) !! c = Some x -> x.(count) = threads_below holds_place w c) /\
  (forall i t, w.(threads) !! i = Some t -> counts w t = true -> holds_place t = true) /\
  (forall i t, w.(threads) !! i = Some t -> t.(of_kind) = LoopThread -> holds_place t = true -> loop_over t.(serves) = false) /\
  (forall i t, w.(threads) !! i = Some t -> at_rest t.(place) = false ->
     exists j u, w.(threads) !! j = Some u /\ is_Some (exec (Step j) w)).
Proof.
  intros Hr. pose proof (reachable_placed _ Hr) as P. pose proof (reachable_loops _ Hr) as L. pose proof (p_budgets _ P) as B. split_and!.
  - intros c x Hx. pose proof (below_charged w c (counts w) P (fun i t Hi => counts_holds w i t P L Hi)). pose proof (charged_capped _ _ _ _ B Hx).
    unfold live_threads. lia.
  - intros Hq c x Hx. rewrite (bi_count _ _ B _ _ Hx), charged_threads. unfold threads_below. apply total_ext.
    intros t [i Hi]%list_elem_of_lookup. destruct (holds_place t) eqn:Ec; cbn [andb].
    + by rewrite (place_held _ _ _ P Hi Ec).
    + pose proof (proj1 (Forall_lookup _ _) (proj1 Hq) _ _ Hi) as Hrest. cbn in Hrest.
      destruct (place t) eqn:Ep; try done. by rewrite (held_place _ _ _ P Hq Hi Ep) in Ec.
  - intros i t Hi. by apply (counts_holds _ _ _ P L Hi).
  - intros i t Hi Hk Hh. destruct (p_place _ P _ _ Hi) as (x & _ & Hok). pose proof (place_held _ _ _ P Hi Hh) as Hp. unfold place_ok in Hok.
    rewrite Hk, Hp in Hok. destruct (serves t); try done; by destruct Hok as (_ & [?|?] & _).
  - intros i t Hi Ht. destruct (budgets_progress _ _ _ _ _ B (holders_lookup _ _ _ Hi) Ht) as (j & b & st & Hj & r & Hs).
    unfold holders in Hj. rewrite list_lookup_fmap in Hj. destruct (threads w !! j) as [u|] eqn:Hu; [|done]. injection Hj as <- <-.
    exists j, u. split; [done|]. cbn. unfold step_budget. rewrite Hu. cbn. destruct (p_place _ P _ _ Hu) as (x & Hx & _). rewrite Hx. cbn.
    rewrite Hs. cbn. destruct r as [bs [st o]]. by eexists.
Qed.

(** ** Calls *)

(** Calls stay; given up on stays given up on, and does not begin any more. *)
Definition keeps (ks ks' : list call) : Prop :=
  forall c k, ks !! c = Some k -> exists k', ks' !! c = Some k' /\ timed k' = timed k /\ (abandoned k = true -> abandoned k' = true /\ started k' = started k).

Lemma keeps_refl ks : keeps ks ks.
Proof. intros c k Hk. by exists k. Qed.
Lemma keeps_app ks k : keeps ks (ks ++ [k]).
Proof. intros c q Hq. exists q. split; [by apply lookup_app_l_Some|done]. Qed.
Lemma keeps_insert ks c k k' : ks !! c = Some k -> timed k' = timed k -> (abandoned k = true -> abandoned k' = true /\ started k' = started k) -> keeps ks (<[c := k']> ks).
Proof.
  intros Hk Ht Ha d q Hq. destruct (decide (c = d)) as [<-|Hne].
  - exists k'. rewrite list_lookup_insert_eq by by eapply lookup_lt_Some. split; [done|]. replace q with k by congruence. done.
  - exists q. by rewrite list_lookup_insert_ne.
Qed.

Ltac keep_call := first [apply keeps_refl | apply keeps_app | eapply keeps_insert; [eassumption | done | try done; try (intros; congruence)]].

Lemma finish_call_keeps c k w w' : calls w !! c = Some k -> finish_call c k w = Some w' -> keeps (calls w) (calls w').
Proof. intros Hk E. unfold finish_call, finish in E. invert_step E; simplify_eq; cbn; keep_call. Qed.

Lemma exec_keeps a w w' : called w -> exec a w = Some w' -> keeps (calls w) (calls w').
Proof.
  intros I E. destruct a; cbn [exec] in E.
  all: try (unfold make_call, step_budget, start_thread, serve, begin_call, begin, answer_call, collect, replace_tool_thread, close_old, cancel, loop_exits in E; invert_step E; simplify_eq; cbn; solve [keep_call]).
  - unfold submit in E. destruct (sessions w !! s) as [x|] eqn:Hs; cbn in E; [|done]. destruct (at_ x) eqn:Ea; try done.
    destruct (calls w !! c) as [k|] eqn:Hk; cbn in E; [|done].
    destruct (sc_fresh _ _ _ (d_session _ I _ _ Hs) c ltac:(by rewrite Ea)) as (q & Hq & _ & Hst & _). assert (q = k) as -> by congruence.
    destruct (co_fresh _ _ (d_call _ I _ _ Hk) Hst) as (_ & _ & Ha).
    destruct (plain k); [invert_step E|]; simplify_eq; cbn; keep_call.
  - unfold begin_call, begin in E. destruct (threads w !! i) as [t|]; cbn in E; [|done]. destruct (serves t); try done.
    destruct (calls w !! c) as [k|] eqn:Hk; cbn in E; [|done]. destruct (abandoned k) eqn:Ha; simplify_eq; cbn; keep_call.
  - unfold return_call in E. destruct (threads w !! i) as [t|]; cbn in E; [|done]. destruct (serves t); try done.
    destruct (calls w !! c) as [k|] eqn:Hk; cbn in E; [|done]. destruct (finish_call c k w) eqn:Ef; cbn in E; [|done]. simplify_eq. cbn.
    by eapply finish_call_keeps.
  - unfold task_ends in E. destruct (calls w !! c) as [k|] eqn:Hk; cbn in E; [|done]. destruct (plain k); [done|]. case_bool_decide; [|done].
    intros d q Hd. assert (H1 : keeps (calls w) (<[c := set_state Finished k]> (calls w))) by keep_call.
    destruct (H1 d q Hd) as (q1 & Hq1 & E1 & E2).
    destruct (finish_call_keeps c (set_state Finished k) (set_call c (set_state Finished k) w) w' ltac:(cbn; by rewrite list_lookup_insert_eq by by eapply lookup_lt_Some) E d q1 Hq1) as (q2 & Hq2 & E3 & E4).
    exists q2. split_and!; [done|congruence|]. intros Ha. destruct (E2 Ha) as [Ha1 ?]. destruct (E4 Ha1). split; congruence.
  - unfold expire in E. destruct (sessions w !! s) as [x|]; cbn in E; [|done]. destruct (at_ x); try done.
    destruct (calls w !! c) as [k|] eqn:Hk; cbn in E; [|done]. destruct (negb (timed k)); [done|].
    destruct (_ && _); [simplify_eq; apply keeps_refl|]. destruct (abandon k (outlasted x)) as [[k' n] r] eqn:Eb. simplify_eq. cbn.
    unfold abandon in Eb. destruct (done k); simplify_eq; keep_call.
  - unfold cancel in E. destruct (sessions w !! s) as [x|]; cbn in E; [|done]. destruct (at_ x); try done.
    destruct (calls w !! c) as [k|] eqn:Hk; cbn in E; [|done]. destruct (bool_decide _); simplify_eq; cbn; keep_call.
Qed.

Lemma later_keeps w w' : rtc step w w' -> placed w -> called w -> keeps (calls w) (calls w').
Proof.
  induction 1 as [|u v z [a Ha] _ IH]; [by intros; apply keeps_refl|]. intros P I c k Hk.
  destruct (exec_keeps _ _ _ I Ha c k Hk) as (k1 & Hk1 & E1 & E2).
  destruct (IH (placed_exec _ _ _ P Ha) (called_exec _ _ _ P I Ha) c k1 Hk1) as (k2 & Hk2 & E3 & E4).
  exists k2. split_and!; [done|congruence|]. intros A. destruct (E2 A) as [A1 ?]. destruct (E4 A1). split; congruence.
Qed.

(** C23. Tools run for their own session, once: a thread only enters calls of the session that
    owns it, no call is entered twice, by one thread or by two, and a call that was given up on
    before it began never begins, whatever happens later (its thread drops it, or it waits in
    the queue of a thread that was replaced). *)
Theorem tool_calls_run_once (w w' : world) (c : nat) (k : call) :
  reachable w -> rtc step w w' ->
  NoDup (w.(threads) ≫= ran) /\
  (forall i t d, w.(threads) !! i = Some t -> d ∈ t.(ran) -> exists q, w.(calls) !! d = Some q /\ q.(by_) = t.(owner) /\ q.(plain) = true) /\
  (w.(calls) !! c = Some k -> k.(abandoned) = true -> k.(started) = false -> c ∉ (w'.(threads) ≫= ran)).
Proof.
  intros Hr Hl. destruct (reachable_calls _ Hr) as [P I]. split_and!.
  - assert (Hn := d_once _ I). clear -Hn. induction (threads w) as [|t l IH]; cbn in *; [constructor|]. apply NoDup_app in Hn as (H1 & H2 & H3).
    unfold tokens in H1. apply NoDup_app in H1 as (_ & _ & H1). apply NoDup_app. split_and!; [done| |by apply IH].
    intros d Hd Hd'. apply (H2 d); [unfold tokens; set_solver|]. apply list_elem_of_bind in Hd' as (u & Hu & Hin). apply list_elem_of_bind.
    exists u. split; [unfold tokens; set_solver|done].
  - intros i t d Hi Hd. destruct (tc_call _ _ (d_thread _ I _ _ Hi) d ltac:(unfold tokens; set_solver)) as (q & ? & ? & ? & _). by exists q.
  - intros Hk Ha Hs (t & Hin & Ht)%list_elem_of_bind. destruct (later_calls _ _ Hl P I) as [P' I'].
    destruct (later_keeps _ _ Hl P I c k Hk) as (k' & Hk' & Htm & Hab). destruct (Hab Ha) as [Ha' Hs'].
    apply list_elem_of_lookup in Ht as [i Hi]. pose proof (tc_ran _ _ (d_thread _ I' _ _ Hi) c k' Hin Hk') as Hst.
    rewrite Hst in Hs'; [congruence|]. eapply co_timed; [|done]. by eapply d_call.
Qed.

(** C35. What [tool_timeout] leaves behind is bounded: [outlasted] is, at every moment, the number
    of the session's calls that were given up on and still run; there are never more than one
    above the limit, and from the moment the limit is passed the session takes no further call. *)
Theorem stuck_calls_capped w s x :
  reachable w -> w.(sessions) !! s = Some x ->
  x.(outlasted) = total (stuck_of s) w.(calls) /\
  x.(outlasted) <= MAX_ABANDONED_TOOL_CALLS + 1 /\
  (MAX_ABANDONED_TOOL_CALLS < x.(outlasted) -> forall plain timed, exec (MakeCall s plain timed) w = None).
Proof.
  intros Hr Hs. destruct (reachable_calls _ Hr) as [P I]. pose proof (d_cap _ I _ _ Hs) as [H1 H2 H3].
  split_and!; [by apply I|done|]. intros Hlt plain timed. specialize (H3 Hlt). cbn. unfold make_call. rewrite Hs. cbn.
  destruct (p_sessions _ P _ _ Hs) as [(t & -> & _) _]. cbn. destruct (at_ x) eqn:Ea; try done. cbn in H3. by destruct (H2 H3) as [-> _].
Qed.

(** ** A run *)

Lemma tools_run_reachable l w : run l init = Some w -> reachable w.
Proof.
  unfold reachable. generalize init as w0. induction l as [|a l IH]; intros w0 E; cbn in E; [injection E as <-; apply rtc_refl|].
  destruct (exec a w0) as [w1|] eqn:Ea; cbn in E; [|done]. eapply rtc_l; [by exists a|by apply IH].
Qed.

(** A pool of four threads and a session; a timed call whose tool does not return. *)
Definition stuck_demo : list action :=
  [NewPool 4; NewSession 1; RunStarts 0; MakeCall 0 true true; Step 1; Step 1; Step 1; Step 1; Submit 0; Step 0; Step 0; Step 0; Step 0;
   StartThread 0 true; Serve 0; Begin 0].
(** The session is closed while the deadline passes: [shutdown] closes the thread that is being
    replaced.  Another call of the run then starts the new one. *)
Definition leak_demo : list action :=
  stuck_demo ++ [Shutdown 0; CloseTools 0; Expire 0; Cancel 0; Replace 0; CloseOld 0; MakeCall 0 true true; Submit 0; Step 2; Step 2; Step 2;
   Step 2; StartThread 0 true; Serve 2; Begin 2; Return 2; Answer 2; Collect 0 false; RunEnds 0; Return 0; Answer 0; Serve 0; Step 0; Step 0;
   LoopStops 0; Step 1; Step 1; LoopExits 0].
(** A call that does not heed its cancellation: the session is closed while its task runs. *)
Definition winding_demo : list action :=
  [NewPool 4; NewSession 1; RunStarts 0; MakeCall 0 false true; Step 1; Step 1; Step 1; Step 1; Submit 0; Expire 0; Shutdown 0; CloseTools 0; RunEnds 0;
   LoopStops 0; Step 1; Step 1].
Definition world_of (l : list action) : world := default init (run l init).

Lemma world_of_reachable l : is_Some (run l init) -> reachable (world_of l).
Proof. intros [w E]. unfold world_of. rewrite E. by eapply tools_run_reachable. Qed.

Example leak_world : let w := world_of leak_demo in
  quiet w /\ (fun x => (x.(limit), x.(count))) <$> w.(budgets) = [(512, 1); (4, 1)] /\
  (fun t => (t.(serves), t.(closed), t.(place))) <$> w.(threads) = [(Exited, true, Free); (Exited, false, Free); (Waiting, false, Held)].
Proof. vm_compute. split_and!; repeat constructor. Qed.

(** With the first call stuck and the second running, the session has three threads alive. *)
Example three_threads_of_a_session :
  let w := world_of (take 31 leak_demo) in length w.(sessions) = 1%nat /\ live_threads w 1 = 3.
Proof. vm_compute. done. Qed.

(** A loop's place is given back before its tasks have ended: with a task that does not end, the
    thread of a closed session lives on and no budget counts it. *)
Example winding_loop_uncounted : let w := world_of winding_demo in
  run winding_demo init = Some w /\ (fun x => x.(count)) <$> w.(budgets) = [0; 0] /\
  (fun t => (t.(of_kind), t.(serves))) <$> w.(threads) = [(ToolThread, NotStarted); (LoopThread, Winding)] /\
  (fun k => (k.(state), stuck k)) <$> w.(calls) = [(Running, true)] /\ exec (LoopExits 0) w = None.
Proof. vm_compute. done. Qed.

Lemma tool_threads_capped_witness :
  exists w, reachable w /\ quiet w /\ forall c x, w.(budgets) !! c = Some x -> x.(count) = threads_below holds_place w c.
Proof.
  assert (Hr : reachable (world_of leak_demo)) by (apply world_of_reachable; vm_compute; by eexists).
  assert (Hq : quiet (world_of leak_demo)) by (apply leak_world).
  exists (world_of leak_demo). split; [exact Hr|]. split; [exact Hq|]. exact (proj1 (proj2 (tool_threads_capped _ Hr)) Hq).
Defined.

Lemma stuck_calls_capped_witness :
  exists w x, reachable w /\ w.(sessions) !! 0%nat = Some x /\ x.(outlasted) = 1 /\ x.(outlasted) = total (stuck_of 0) w.(calls).
Proof.
  assert (Hr : reachable (world_of (take 19 leak_demo))) by (apply world_of_reachable; vm_compute; by eexists).
  destruct (sessions (world_of (take 19 leak_demo)) !! 0%nat) as [x|] eqn:Hx; [|vm_compute in Hx; discriminate Hx].
  exists (world_of (take 19 leak_demo)), x. split; [exact Hr|]. split; [exact Hx|]. split; [|exact (proj1 (stuck_calls_capped _ _ _ Hr Hx))].
  vm_compute in Hx. injection Hx as <-. reflexivity.
Defined.

(** The call is cancelled while it waits on the queue: it never runs. *)
Lemma tool_calls_run_once_witness :
  exists w k, reachable w /\ w.(calls) !! 0%nat = Some k /\ 0%nat ∉ (w.(threads) ≫= ran).
Proof.
  assert (Hr : reachable (world_of (take 14 leak_demo ++ [Expire 0]))) by (apply world_of_reachable; vm_compute; by eexists).
  destruct (calls (world_of (take 14 leak_demo ++ [Expire 0])) !! 0%nat) as [k|] eqn:Hk; [|vm_compute in Hk; discriminate Hk].
  assert (Hf : abandoned k = true /\ started k = false) by (vm_compute in Hk; injection Hk as <-; by split).
  exists (world_of (take 14 leak_demo ++ [Expire 0])), k. split; [exact Hr|]. split; [exact Hk|].
  exact (proj2 (proj2 (tool_calls_run_once _ _ 0%nat k Hr (rtc_refl _ _))) Hk (proj1 Hf) (proj2 Hf)).
Defined.

(** ** A thread that is never closed *)

(** A session that has been closed and has no run, with a tool thread nobody will close. *)
Definition orphaned (i : nat) (w : world) : Prop :=
  exists t x, w.(threads) !! i = Some t /\ w.(sessions) !! t.(owner) = Some x /\ t.(of_kind) = ToolThread /\ t.(serves) = Waiting /\ t.(queue) = [] /\
    t.(closed) = false /\ t.(place) = Held /\ x.(at_) = Idle /\ x.(running) = false /\ x.(shut) = true /\ x.(closing) = None.

Definition same_owners (ts ts' : list _ToolThread) : Prop :=
  forall i t, ts !! i = Some t -> exists t', ts' !! i = Some t' /\ owner t' = owner t /\ of_kind t' = of_kind t.
Lemma owners_refl ts : same_owners ts ts.
Proof. intros i t Hi. by exists t. Qed.
Lemma owners_app ts t : same_owners ts (ts ++ [t]).
Proof. intros i u Hi. exists u. split; [by apply lookup_app_l_Some|done]. Qed.
Lemma owners_insert ts i t t' : ts !! i = Some t -> owner t' = owner t -> of_kind t' = of_kind t -> same_owners ts (<[i := t']> ts).
Proof.
  intros Hi Ho Hk j u Hj. destruct (decide (i = j)) as [<-|Hne].
  - exists t'. rewrite list_lookup_insert_eq by by eapply lookup_lt_Some. replace u with t by congruence. done.
  - exists u. by rewrite list_lookup_insert_ne.
Qed.

Lemma stop_loop_same bs t : owner (stop_loop bs t) = owner t /\ of_kind (stop_loop bs t) = of_kind t.
Proof. unfold stop_loop. cbn zeta. by case_bool_decide. Qed.

Ltac keep_owners := first [apply owners_refl | apply owners_app
  | eapply owners_insert; [eassumption | first [done | apply close_same | apply stop_loop_same | by destruct (timed _)]..]].

Lemma finish_call_threads c k w w' : finish_call c k w = Some w' -> threads w' = threads w.
Proof. intros E. unfold finish_call in E. invert_step E; by simplify_eq. Qed.

Lemma exec_owners a w w' : exec a w = Some w' -> same_owners (threads w) (threads w').
Proof.
  intros E. destruct a; cbn [exec] in E.
  all: try (unfold make_call, step_budget, submit, start_thread, serve, begin_call, answer_call, collect, replace_tool_thread, close_old, cancel, loop_exits in E;
            invert_step E; simplify_eq; cbn; solve [keep_owners]).
  - unfold begin_call in E. destruct (threads w !! i) as [t|] eqn:Hi; cbn in E; [|done]. destruct (serves t); try done.
    destruct (calls w !! c); cbn in E; [|done]. destruct (begin _) as [k []]; simplify_eq; cbn; keep_owners.
  - unfold return_call in E. destruct (threads w !! i) as [t|] eqn:Hi; cbn in E; [|done]. destruct (serves t); try done.
    destruct (calls w !! c) as [k|]; cbn in E; [|done]. destruct (finish_call c k w) eqn:Ef; cbn in E; [|done]. simplify_eq. cbn.
    rewrite (finish_call_threads _ _ _ _ Ef). keep_owners.
  - unfold task_ends in E. destruct (calls w !! c); cbn in E; [|done]. destruct (plain _); [done|]. case_bool_decide; [|done].
    rewrite (finish_call_threads _ _ _ _ E). apply owners_refl.
  - unfold expire in E. destruct (sessions w !! s) as [x|]; cbn in E; [|done]. destruct (at_ x); try done.
    destruct (calls w !! c) as [k|]; cbn in E; [|done]. destruct (negb (timed k)); [done|]. destruct (_ && _); [simplify_eq; apply owners_refl|].
    destruct (abandon k (outlasted x)) as [[k' n] r]. simplify_eq. apply owners_refl.
  - unfold cancel in E. destruct (sessions w !! s) as [x|]; cbn in E; [|done]. destruct (at_ x); try done.
    destruct (calls w !! c) as [k|]; cbn in E; [|done]. destruct (bool_decide _); simplify_eq; apply owners_refl.
Qed.

(** The threads a session can close are its own. *)
Definition target (x : session) : list nat :=
  match x.(at_) with Replaced _ old => [old] | _ => [] end ++ option_list x.(closing) ++ [x.(tools)].
Definition aims (ts : list _ToolThread) (s : nat) (x : session) : Prop := forall i, i ∈ target x -> exists t, ts !! i = Some t /\ owner t = s.
Definition aimed (w : world) : Prop := forall s x, w.(sessions) !! s = Some x -> aims w.(threads) s x.

Lemma aims_later ts ts' s x : same_owners ts ts' -> aims ts s x -> aims ts' s x.
Proof. intros Hts H i Hi. destruct (H i Hi) as (t & Ht & Ho). destruct (Hts i t Ht) as (t' & ? & ? & _). exists t'. split; congruence. Qed.

Lemma aimed_threads w w' : aimed w -> same_owners (threads w) (threads w') -> sessions w' = sessions w -> aimed w'.
Proof. intros H Hts Hs s x Hx. rewrite Hs in Hx. eapply aims_later; [done|]. by apply H. Qed.

Lemma aimed_session w w' s x x' : aimed w -> same_owners (threads w) (threads w') -> sessions w !! s = Some x -> sessions w' = <[s := x']> (sessions w) ->
  (forall i, i ∈ target x' -> i ∈ target x \/ exists t, threads w' !! i = Some t /\ owner t = s) -> aimed w'.
Proof.
  intros H Hts Hs Hw Ht s' y Hy. rewrite Hw in Hy. destruct (lookup_insert_case _ _ _ _ _ _ Hs Hy) as [[-> ->]|[_ Hy']].
  - intros i Hi. destruct (Ht i Hi) as [Hi'|?]; [|done]. by apply (aims_later _ _ _ _ Hts (H _ _ Hs)).
  - eapply aims_later; [done|]. by apply H.
Qed.

(** No session is closed, or aims at another thread, by these steps. *)
Lemma target_settle t o x : target (settle t o x) ⊆ target x.
Proof. unfold settle, target. destruct o, (of_kind t), (at_ x) eqn:Ea; cbn; rewrite ?Ea; try destruct (is_started t); cbn; rewrite ?Ea; set_solver. Qed.

Lemma target_fewer x x' : tools x' = tools x -> closing x' = closing x -> at_ x' = at_ x \/ (forall n o, at_ x' <> Replaced n o) -> target x' ⊆ target x.
Proof. intros E1 E2 [E3|E3]; unfold target; rewrite E1, E2; [by rewrite E3|]. destruct (at_ x') eqn:E; try (by destruct (E3 n old)); set_solver. Qed.

Ltac aim Hts := first [eapply aimed_threads; [eassumption | exact Hts | done]
  | eapply aimed_session; [eassumption | exact Hts | eassumption | done
    | intros j Hj; left; revert j Hj; apply target_fewer; [done | done | first [by left | by right]]]].

Lemma exec_aimed a w w' : placed w -> aimed w -> exec a w = Some w' -> aimed w'.
Proof.
  intros P H E. pose proof (exec_owners _ _ _ E) as Hts. destruct a; cbn [exec] in E.
  all: try (unfold make_call, submit, start_thread, serve, begin_call, answer_call, collect, close_old, loop_exits in E; cbn zeta in E;
    invert_step E; simplify_eq; solve [aim Hts]).
  - case_bool_decide; [|done]. simplify_eq. intros s x [Hs|[Hge Hs]]%lookup_app_Some.
    + eapply aims_later; [exact Hts|]. by apply H.
    + cbn in Hs, Hge. destruct (s - length (sessions w))%nat eqn:Es; [|done]. injection Hs as <-. intros i Hi. apply list_elem_of_singleton in Hi as ->.
      exists (new_thread (length (sessions w)) ToolThread b NotStarted). cbn. split; [by apply list_lookup_middle|]. lia.
  - unfold step_budget in E. destruct (threads w !! i) as [t|] eqn:Hi; cbn in E; [|done]. destruct (sessions w !! owner t) as [x|] eqn:Hs; cbn in E; [|done].
    destruct (budget_step _ _ _) as [[bs [st o]]|]; cbn in E; [|done]. simplify_eq.
    eapply aimed_session; [exact H|exact Hts|exact Hs|done|]. intros j Hj. left. by apply (target_settle t o x).
  - unfold return_call in E. destruct (threads w !! i) as [t|]; cbn in E; [|done]. destruct (serves t); try done.
    destruct (calls w !! c) as [k|]; cbn in E; [|done]. destruct (finish_call c k w) as [w1|] eqn:Ef; cbn in E; [|done].
    unfold finish_call in Ef. destruct (timed k); [|simplify_eq; aim Hts]. destruct (sessions w !! by_ k) as [x|] eqn:Hs; cbn in Ef; [|done]. simplify_eq. aim Hts.
  - unfold task_ends in E. destruct (calls w !! c) as [k|]; cbn in E; [|done]. destruct (plain _); [done|]. case_bool_decide; [|done].
    unfold finish_call in E. destruct (timed _); [|simplify_eq; aim Hts]. cbn in E. destruct (sessions w !! by_ k) as [x|] eqn:Hs; cbn in E; [|done]. simplify_eq. aim Hts.
  - unfold expire in E. destruct (sessions w !! s) as [x|] eqn:Hs; cbn in E; [|done]. destruct (at_ x) eqn:Ea; try done.
    destruct (calls w !! c) as [k|]; cbn in E; [|done]. destruct (negb (timed k)); [done|]. destruct (_ && _); [simplify_eq; aim Hts|].
    destruct (abandon k (outlasted x)) as [[k' n] r]. simplify_eq.
    eapply aimed_session; [exact H|exact Hts|exact Hs|done|]. intros j Hj. left. revert j Hj. apply target_fewer; try (by destruct (plain k)). right. by destruct (plain k).
  - unfold cancel in E. destruct (sessions w !! s) as [x|] eqn:Hs; cbn in E; [|done]. destruct (at_ x) eqn:Ea; try done.
    destruct (calls w !! c) as [k|]; cbn in E; [|done]. destruct (bool_decide _); simplify_eq; aim Hts.
  - unfold replace_tool_thread in E. destruct (sessions w !! s) as [x|] eqn:Hs; cbn in E; [|done]. destruct (at_ x) eqn:Ea; try done.
    destruct (p_sessions _ P _ _ Hs) as [(t & Ht & Ho & _) _]. rewrite Ht in E. cbn in E. simplify_eq.
    eapply aimed_session; [exact H|exact Hts|exact Hs|done|]. intros j Hj. unfold target in *. cbn in *. rewrite Ea.
    apply elem_of_cons in Hj as [->|Hj]; [left; set_solver|]. apply elem_of_app in Hj as [Hj|Hj]; [left; set_solver|]. right.
    apply list_elem_of_singleton in Hj as ->. eexists. split; [by apply list_lookup_middle|done].
  - destruct (sessions w !! s) as [x|] eqn:Hs; cbn in E; [|done]. destruct (shut x); [done|]. simplify_eq.
    eapply aimed_session; [exact H|exact Hts|exact Hs|done|]. intros j Hj. left. unfold target in *. cbn in *. set_solver.
  - destruct (sessions w !! s) as [x|] eqn:Hs; cbn in E; [|done]. destruct (closing x) as [i|]; cbn in E; [|done].
    destruct (threads w !! i) as [t|]; cbn in E; [|done]. destruct (_ && _); [done|]. simplify_eq.
    eapply aimed_session; [exact H|exact Hts|exact Hs|done|]. intros j Hj. left. unfold target in *. cbn in *. set_solver.
Qed.

(** A thread is orphaned as long as its own session and it are left alone. *)
Lemma orphaned_frame i w w' t x x' :
  w.(threads) !! i = Some t -> w.(sessions) !! t.(owner) = Some x -> t.(of_kind) = ToolThread -> t.(serves) = Waiting -> t.(queue) = [] ->
  t.(closed) = false -> t.(place) = Held -> x.(at_) = Idle -> x.(running) = false -> x.(shut) = true -> x.(closing) = None ->
  w'.(threads) !! i = Some t -> w'.(sessions) !! t.(owner) = Some x' ->
  x'.(at_) = x.(at_) -> x'.(running) = x.(running) -> x'.(shut) = x.(shut) -> x'.(closing) = x.(closing) -> orphaned i w'.
Proof. intros. exists t, x'. split_and!; congruence. Qed.

Lemma lookup_update {A} (l : list A) i j x y z : l !! i = Some x -> l !! j = Some z -> (i = j -> y = z) -> <[i := y]> l !! j = Some z.
Proof.
  intros Hi Hj Hy. destruct (decide (i = j)) as [<-|Hne]; [|by rewrite list_lookup_insert_ne]. rewrite list_lookup_insert_eq by by eapply lookup_lt_Some.
  by rewrite Hy.
Qed.

Section Orphan.
Context (w : world) (P : placed w) (A : aimed w) (i : nat) (t : _ToolThread) (x : session).
Context (Hi : w.(threads) !! i = Some t) (Hx : w.(sessions) !! t.(owner) = Some x) (Hk : t.(of_kind) = ToolThread) (Hsv : t.(serves) = Waiting).
Context (Hq : t.(queue) = []) (Hc : t.(closed) = false) (Hp : t.(place) = Held) (Ha : x.(at_) = Idle) (Hr : x.(running) = false).
Context (Hsh : x.(shut) = true) (Hcl : x.(closing) = None).

(** The world after a step of another session [s], on one of its own threads. *)
Lemma orphan_apart s y y' j u u' bs ks : s <> t.(owner) -> w.(sessions) !! s = Some y -> w.(threads) !! j = Some u -> u.(owner) = s ->
  orphaned i (World bs (<[j := u']> w.(threads)) (<[s := y']> w.(sessions)) ks).
Proof.
  intros Hs Hy Hj Hu. apply (orphaned_frame i w _ t x x); try done; cbn.
  - apply (lookup_update _ j _ u); try done. intros ->. congruence.
  - apply (lookup_update _ s _ y); try done.
Qed.

Lemma orphan_apart_session s y y' bs ks : s <> t.(owner) -> w.(sessions) !! s = Some y -> orphaned i (World bs w.(threads) (<[s := y']> w.(sessions)) ks).
Proof. intros Hs Hy. apply (orphaned_frame i w _ t x x); try done; cbn. apply (lookup_update _ s _ y); done. Qed.

Lemma orphan_apart_new s y y' u bs ks : s <> t.(owner) -> w.(sessions) !! s = Some y -> orphaned i (World bs (w.(threads) ++ [u]) (<[s := y']> w.(sessions)) ks).
Proof.
  intros Hs Hy. apply (orphaned_frame i w _ t x x); try done; cbn; [by apply lookup_app_l_Some|]. apply (lookup_update _ s _ y); done.
Qed.

(** The world after a step of another thread, which may recount a session's stuck calls. *)
Lemma orphan_thread j u u' bs ss ks : j <> i -> w.(threads) !! j = Some u -> (ss = w.(sessions) \/ exists s y n, w.(sessions) !! s = Some y /\ ss = <[s := with_outlasted n y]> w.(sessions)) ->
  orphaned i (World bs (<[j := u']> w.(threads)) ss ks).
Proof.
  intros Hj Hu [->|(s & y & n & Hy & ->)].
  - apply (orphaned_frame i w _ t x x); try done; cbn. by rewrite list_lookup_insert_ne.
  - destruct (decide (s = owner t)) as [->|Hs].
    + assert (y = x) as -> by congruence. apply (orphaned_frame i w _ t x (with_outlasted n x)); try done; cbn; [by rewrite list_lookup_insert_ne|].
      by rewrite list_lookup_insert_eq by by eapply lookup_lt_Some.
    + apply (orphaned_frame i w _ t x x); try done; cbn; [by rewrite list_lookup_insert_ne|]. by rewrite list_lookup_insert_ne.
Qed.

Lemma orphan_calls bs ss ks : (ss = w.(sessions) \/ exists s y n, w.(sessions) !! s = Some y /\ ss = <[s := with_outlasted n y]> w.(sessions)) ->
  orphaned i (World bs w.(threads) ss ks).
Proof.
  intros [->|(s & y & n & Hy & ->)]; [by apply (orphaned_frame i w _ t x x)|]. destruct (decide (s = owner t)) as [->|Hs].
  - assert (y = x) as -> by congruence. apply (orphaned_frame i w _ t x (with_outlasted n x)); try done; cbn.
    by rewrite list_lookup_insert_eq by by eapply lookup_lt_Some.
  - apply (orphaned_frame i w _ t x x); try done; cbn. by rewrite list_lookup_insert_ne.
Qed.

Lemma orphan_budget j w' : step_budget j w = Some w' -> orphaned i w'.
Proof.
  unfold step_budget. intros E. destruct (threads w !! j) as [u|] eqn:Hj; cbn in E; [|done]. destruct (sessions w !! owner u) as [y|] eqn:Hy; cbn in E; [|done].
  destruct (budget_step j (budgets w) (place u)) as [[bs [st o]]|] eqn:Eb; cbn in E; [|done]. simplify_eq.
  destruct (decide (j = i)) as [->|Hne]; [assert (u = t) as -> by congruence; by rewrite Hp in Eb|].
  destruct (decide (owner u = owner t)) as [Ho|Ho].
  - assert (y = x) as -> by congruence. assert (Hset : settle u o x = x) by (unfold settle; rewrite Ha; by destruct o, (of_kind u)).
    rewrite Hset. apply (orphaned_frame i w _ t x x); try done; cbn; [by rewrite list_lookup_insert_ne|]. rewrite Ho.
    by rewrite list_lookup_insert_eq by by eapply lookup_lt_Some.
  - by eapply orphan_apart.
Qed.
End Orphan.

Lemma orphaned_step i w w' a : placed w -> aimed w -> orphaned i w -> exec a w = Some w' -> orphaned i w'.
Proof.
  intros P A (t & x & Hi & Hx & Hk & Hsv & Hq & Hc & Hp & Ha & Hr & Hsh & Hcl) E.
  assert (Htools : forall s y, s <> owner t -> sessions w !! s = Some y -> exists u, threads w !! tools y = Some u /\ owner u = s).
  { intros s y _ Hy. destruct (p_sessions _ P _ _ Hy) as [(u & ? & ? & _) _]. by exists u. }
  destruct a; cbn [exec] in E.
  - destruct (_tool_budget _) as [[b r]|]; [|done]. simplify_eq. by apply (orphaned_frame i w _ t x x).
  - case_bool_decide; [|done]. simplify_eq. apply (orphaned_frame i w _ t x x); try done; cbn; by apply lookup_app_l_Some.
  - destruct (sessions w !! s) as [y|] eqn:Hy; cbn in E; [|done]. destruct (decide (s = owner t)) as [->|Hs].
    + assert (y = x) as -> by congruence. by rewrite Hsh in E.
    + destruct (_ || _); [done|]. simplify_eq. by eapply (orphan_apart_session w i t x).
  - destruct (sessions w !! s) as [y|] eqn:Hy; cbn in E; [|done]. simplify_eq. destruct (decide (s = owner t)) as [->|Hs].
    + assert (y = x) as -> by congruence. apply (orphaned_frame i w _ t x (with_running false x)); try done; cbn.
      by rewrite list_lookup_insert_eq by by eapply lookup_lt_Some.
    + by eapply (orphan_apart_session w i t x).
  - unfold make_call in E. destruct (sessions w !! s) as [y|] eqn:Hy; cbn in E; [|done]. destruct (decide (s = owner t)) as [->|Hs].
    { assert (y = x) as -> by congruence. destruct (threads w !! tools x); cbn in E; [|done]. by rewrite Ha, Hr in E. }
    destruct (threads w !! tools y) as [u|] eqn:Hu; cbn in E; [|done]. destruct (at_ y); try done. destruct (running y); [|done].
    destruct (p_sessions _ P _ _ Hy) as [_ Hlp]. destruct (loop y) as [l|].
    + destruct Hlp as (v & Hv & Hov & _). rewrite Hv in E. cbn in E. destruct (place v); try done; [|simplify_eq; by eapply (orphan_apart_session w i t x)].
      destruct (loop_over _); [done|]. simplify_eq. by eapply (orphan_apart w i t x).
    + simplify_eq. by eapply (orphan_apart_new w i t x).
  - by eapply (orphan_budget w i t x).
  - unfold submit in E. destruct (sessions w !! s) as [y|] eqn:Hy; cbn in E; [|done]. destruct (decide (s = owner t)) as [->|Hs].
    { assert (y = x) as -> by congruence. by rewrite Ha in E. }
    destruct (Htools s y Hs Hy) as (u & Hu & Ho). destruct (at_ y); try done. destruct (calls w !! c) as [k|]; cbn in E; [|done]. rewrite Hu in E. cbn in E.
    destruct (plain k); [|simplify_eq; by eapply (orphan_apart_session w i t x)].
    destruct (closed u); [simplify_eq; by eapply (orphan_apart_session w i t x)|].
    destruct (is_started u); [simplify_eq; by eapply (orphan_apart w i t x)|]. destruct (place u); try done. simplify_eq. by eapply (orphan_apart w i t x).
  - unfold start_thread in E. destruct (sessions w !! s) as [y|] eqn:Hy; cbn in E; [|done]. destruct (decide (s = owner t)) as [->|Hs].
    { assert (y = x) as -> by congruence. by rewrite Ha in E. }
    destruct (Htools s y Hs Hy) as (u & Hu & Ho). destruct (at_ y); try done. destruct (calls w !! c) as [k|]; cbn in E; [|done]. rewrite Hu in E. cbn in E.
    destruct ok; simplify_eq; by eapply (orphan_apart w i t x).
  - unfold serve in E. destruct (threads w !! i0) as [u|] eqn:Hu; cbn in E; [|done].
    assert (Hne : i0 <> i) by (intros ->; assert (u = t) as -> by congruence; by rewrite Hk, Hsv, Hq in E).
    destruct (of_kind u); [|done]. destruct (serves u); try done. destruct (queue u) as [|[c|] q]; [done| |simplify_eq; eapply (orphan_thread w i t x); by eauto].
    destruct (calls w !! c) as [k|]; cbn in E; [|done]. destruct (bool_decide _); simplify_eq; eapply (orphan_thread w i t x); by eauto.
  - unfold begin_call in E. destruct (threads w !! i0) as [u|] eqn:Hu; cbn in E; [|done].
    assert (Hne : i0 <> i) by (intros ->; assert (u = t) as -> by congruence; by rewrite Hsv in E).
    destruct (serves u); try done. destruct (calls w !! c) as [k|]; cbn in E; [|done]. destruct (begin k) as [k' b]. simplify_eq.
    eapply (orphan_thread w i t x); by eauto.
  - unfold return_call in E. destruct (threads w !! i0) as [u|] eqn:Hu; cbn in E; [|done].
    assert (Hne : i0 <> i) by (intros ->; assert (u = t) as -> by congruence; by rewrite Hsv in E).
    destruct (serves u); try done. destruct (calls w !! c) as [k|]; cbn in E; [|done]. unfold finish_call in E. destruct (timed k).
    + destruct (sessions w !! by_ k) as [y|] eqn:Hy; cbn in E; [|done]. simplify_eq. eapply (orphan_thread w i t x); try done. right. by eauto.
    + cbn in E. simplify_eq. eapply (orphan_thread w i t x); by eauto.
  - unfold answer_call in E. destruct (threads w !! i0) as [u|] eqn:Hu; cbn in E; [|done].
    assert (Hne : i0 <> i) by (intros ->; assert (u = t) as -> by congruence; by rewrite Hsv in E).
    destruct (serves u); try done. destruct (calls w !! c) as [k|]; cbn in E; [|done]. simplify_eq. eapply (orphan_thread w i t x); by eauto.
  - unfold task_ends in E. destruct (calls w !! c) as [k|]; cbn in E; [|done]. destruct (plain k); [done|]. case_bool_decide; [|done].
    unfold finish_call in E. destruct (timed _); cbn in E.
    + destruct (sessions w !! by_ k) as [y|] eqn:Hy; cbn in E; [|done]. simplify_eq. eapply (orphan_calls w i t x); try done. right. by eauto.
    + simplify_eq. eapply (orphan_calls w i t x); by eauto.
  - unfold collect in E. destruct (sessions w !! s) as [y|] eqn:Hy; cbn in E; [|done]. destruct (decide (s = owner t)) as [->|Hs].
    { assert (y = x) as -> by congruence. by rewrite Ha in E. }
    destruct (at_ y); try done. destruct (calls w !! c) as [k|]; cbn in E; [|done]. destruct (bool_decide _); [|done].
    destruct (_ && _); simplify_eq; by eapply (orphan_apart_session w i t x).
  - unfold expire in E. destruct (sessions w !! s) as [y|] eqn:Hy; cbn in E; [|done]. destruct (decide (s = owner t)) as [->|Hs].
    { assert (y = x) as -> by congruence. by rewrite Ha in E. }
    destruct (at_ y); try done. destruct (calls w !! c) as [k|]; cbn in E; [|done]. destruct (negb _); [done|].
    destruct (_ && _); [simplify_eq; by eapply (orphan_apart_session w i t x)|]. destruct (abandon k _) as [[k' n] r]. simplify_eq.
    by eapply (orphan_apart_session w i t x).
  - unfold cancel in E. destruct (sessions w !! s) as [y|] eqn:Hy; cbn in E; [|done]. destruct (decide (s = owner t)) as [->|Hs].
    { assert (y = x) as -> by congruence. by rewrite Ha in E. }
    destruct (at_ y); try done. destruct (calls w !! c) as [k|]; cbn in E; [|done]. destruct (bool_decide _); simplify_eq; by eapply (orphan_apart_session w i t x).
  - unfold replace_tool_thread in E. destruct (sessions w !! s) as [y|] eqn:Hy; cbn in E; [|done]. destruct (decide (s = owner t)) as [->|Hs].
    { assert (y = x) as -> by congruence. by rewrite Ha in E. }
    destruct (at_ y); try done. destruct (threads w !! tools y); cbn in E; [|done]. simplify_eq. by eapply (orphan_apart_new w i t x).
  - unfold close_old in E. destruct (sessions w !! s) as [y|] eqn:Hy; cbn in E; [|done]. destruct (decide (s = owner t)) as [->|Hs].
    { assert (y = x) as -> by congruence. by rewrite Ha in E. }
    destruct (at_ y) eqn:Ey; try done. destruct (A s y Hy old) as (u & Hu & Ho); [unfold target; rewrite Ey; set_solver|].
    rewrite Hu in E. cbn in E. simplify_eq. by eapply (orphan_apart w i t x).
  - destruct (sessions w !! s) as [y|] eqn:Hy; cbn in E; [|done]. destruct (decide (s = owner t)) as [->|Hs].
    + assert (y = x) as -> by congruence. by rewrite Hsh in E.
    + destruct (shut y); [done|]. simplify_eq. by eapply (orphan_apart_session w i t x).
  - destruct (sessions w !! s) as [y|] eqn:Hy; cbn in E; [|done]. destruct (decide (s = owner t)) as [->|Hs].
    + assert (y = x) as -> by congruence. by rewrite Hcl in E.
    + destruct (closing y) as [j|] eqn:Ey; cbn in E; [|done]. destruct (A s y Hy j) as (u & Hu & Ho); [unfold target; rewrite Ey; set_solver|].
      rewrite Hu in E. cbn in E. destruct (_ && _); [done|]. simplify_eq. by eapply (orphan_apart w i t x).
  - destruct (sessions w !! s) as [y|] eqn:Hy; cbn in E; [|done]. destruct (loop y) as [l|] eqn:El; cbn in E; [|done].
    destruct (p_sessions _ P _ _ Hy) as [_ Hlp]. rewrite El in Hlp. destruct Hlp as (v & Hv & Hov & Hkv). rewrite Hv in E. cbn in E.
    assert (E' : w' = set_session s (go Idle (with_running false y)) (set_thread l (stop_loop (budgets w) v) w))
      by (destruct (at_ y); try done; destruct (_ && _); by simplify_eq).
    subst w'. destruct (decide (s = owner t)) as [->|Hs]; [|by eapply (orphan_apart w i t x)].
    assert (y = x) as -> by congruence. apply (orphaned_frame i w _ t x (go Idle (with_running false x))); try done; cbn.
    + rewrite list_lookup_insert_ne by (intros ->; congruence). done.
    + by rewrite list_lookup_insert_eq by by eapply lookup_lt_Some.
  - unfold loop_exits in E. destruct (sessions w !! s) as [y|] eqn:Hy; cbn in E; [|done]. destruct (loop y) as [l|] eqn:El; cbn in E; [|done].
    destruct (threads w !! l) as [v|] eqn:Hv; cbn in E; [|done]. destruct (_ && _) eqn:Eg; [|done]. simplify_eq.
    apply (orphaned_frame i w _ t x x); try done; cbn. rewrite list_lookup_insert_ne; [done|]. intros ->. assert (v = t) as -> by congruence.
    by rewrite Hsv in Eg.
Qed.

Lemma orphaned_later i w w' : rtc step w w' -> placed w -> aimed w -> orphaned i w -> placed w' /\ orphaned i w'.
Proof.
  induction 1 as [|u v z [a Ha] _ IH]; [done|]. intros P A O.
  apply IH; [by eapply placed_exec|by eapply exec_aimed|by eapply orphaned_step].
Qed.

Lemma aimed_reachable w : reachable w -> placed w /\ aimed w.
Proof.
  intros H. assert (Hl : forall u v, rtc step u v -> placed u -> aimed u -> placed v /\ aimed v).
  { induction 1 as [|u v z [a Ha] _ IH]; [done|]. intros P A. apply IH; [by eapply placed_exec|by eapply exec_aimed]. }
  apply (Hl _ _ H); [apply placed_init|done].
Qed.

(** Every budget is the process ceiling or a pool right below it. *)
Definition pools (bs : list _ThreadBudget) : Prop := forall b x, bs !! b = Some x -> b = 0%nat \/ x.(parent) = Some 0%nat.

Lemma pools_shape bs bs' : same_shape bs bs' -> pools bs -> pools bs'.
Proof.
  intros H Hp b y Hy. pose proof (same_shape_lookup _ _ b H) as Hb. rewrite Hy in Hb. destruct (bs !! b) as [x|] eqn:Hx; cbn in Hb; [|done].
  injection Hb as _ Hb. destruct (Hp b x Hx) as [?|?]; [by left|right; congruence].
Qed.

Lemma exec_pools a w w' : pools w.(budgets) -> exec a w = Some w' -> pools w'.(budgets).
Proof.
  intros Hp E. assert (Hsame : w'.(budgets) = w.(budgets) -> pools w'.(budgets)) by by intros ->.
  destruct a; cbn [exec] in E.
  all: try (unfold make_call, submit, start_thread, serve, begin_call, begin, answer_call, return_call, finish_call, finish, task_ends, collect, expire, cancel,
    replace_tool_thread, close_old, loop_exits in E; invert_step E; simplify_eq; solve [by apply Hsame]).
  - destruct (_tool_budget _) as [[b r]|] eqn:Eb; [|done]. simplify_eq. intros d x [Hd|[_ Hd]]%lookup_app_Some; [by eapply Hp|].
    apply list_lookup_singleton_Some in Hd as [_ <-]. right. unfold _tool_budget in Eb. repeat case_match; by simplify_eq.
  - unfold step_budget in E. destruct (threads w !! i) as [t|]; cbn in E; [|done]. destruct (sessions w !! owner t); cbn in E; [|done].
    destruct (budget_step _ _ _) as [[bs [st o]]|] eqn:Eb; cbn in E; [|done]. simplify_eq. cbn. apply budget_step_stage in Eb as [Hss _]. by eapply pools_shape.
  - unfold return_call in E. destruct (threads w !! i) as [t|]; cbn in E; [|done]. destruct (serves t); try done.
    destruct (calls w !! c) as [k|]; cbn in E; [|done]. destruct (finish_call c k w) as [w1|] eqn:Ef; cbn in E; [|done].
    unfold finish_call in Ef. invert_step Ef; simplify_eq; by apply Hsame.
  - unfold task_ends, finish_call in E. invert_step E; simplify_eq; by apply Hsame.
  - unfold cancel in E. destruct (sessions w !! s) as [x|]; cbn in E; [|done]. destruct (at_ x); try done. destruct (calls w !! c); cbn in E; [|done].
    destruct (bool_decide _); simplify_eq; by apply Hsame.
Qed.

Lemma pools_later w w' : rtc step w w' -> pools w.(budgets) -> pools w'.(budgets).
Proof. induction 1 as [|u v z [a Ha] _ IH]; [done|]. intros Hp. apply IH. by eapply exec_pools. Qed.

Lemma pools_init : pools init.(budgets).
Proof. intros [|b] x Hx; [by left|done]. Qed.

(** The ceiling is the end of every chain. *)
Lemma ceiling_in_chain bs b x : budget_ok bs -> pools bs -> is_Some (bs !! 0%nat) -> bs !! b = Some x -> 0%nat ∈ chain bs b.
Proof.
  intros Hok Hp [y Hy] Hb. rewrite (chain_step _ _ _ Hok Hb). destruct (Hp b x Hb) as [->| ->]; [by left|]. right.
  rewrite (chain_step _ _ _ Hok Hy). by left.
Qed.

(** The place of an orphaned thread is counted up to the ceiling. *)
Lemma orphaned_counted i w c x : placed w -> orphaned i w -> w.(budgets) !! c = Some x ->
  (exists t, w.(threads) !! i = Some t /\ c ∈ chain w.(budgets) t.(budget)) -> 1 <= x.(count).
Proof.
  intros P (t & y & Hi & _ & _ & Hsv & _ & _ & Hp & _) Hx (t' & Hi' & Hin). assert (t' = t) as -> by congruence.
  pose proof (p_budgets _ P) as B. pose proof (holders_lookup _ _ _ Hi) as Hh. rewrite Hp in Hh.
  rewrite (bi_count _ _ B _ _ Hx). unfold charged. apply list_elem_of_lookup_2, elem_of_Permutation in Hh as [l Hl].
  rewrite (total_perm _ _ _ Hl). cbn [total fst snd claims]. rewrite bool_decide_true by done.
  assert (0 <= total (fun h => claims (chain (budgets w) h.1) h.2 c) l); [|lia]. apply total_nonneg.
  intros [b []]; cbn; try lia; case_bool_decide; lia.
Qed.

Lemma orphan_takes_places i w : placed w -> pools w.(budgets) -> orphaned i w ->
  exists t x y, w.(threads) !! i = Some t /\ t.(serves) = Waiting /\
    w.(budgets) !! t.(budget) = Some x /\ 1 <= x.(count) /\ w.(budgets) !! 0%nat = Some y /\ 1 <= y.(count).
Proof.
  intros P Hp O. pose proof O as (t & z & Hi & _ & _ & Hsv & _). pose proof (p_budgets _ P) as B.
  destruct (lookup_lt_is_Some_2 _ _ (bi_made _ _ B _ _ _ (holders_lookup _ _ _ Hi))) as [x Hx].
  destruct (budgets w !! 0%nat) as [y|] eqn:Hy; [|by destruct (p_process _ P)].
  exists t, x, y. split_and!; try done.
  - apply (orphaned_counted i w (budget t) x); try done. exists t. split; [done|]. rewrite (chain_step _ _ _ (bi_ok _ _ B) Hx). by left.
  - apply (orphaned_counted i w 0 y); try done. exists t. split; [done|]. eapply ceiling_in_chain; [apply B|done|by rewrite Hy|done].
Qed.

(** C38. Replacing a tool thread does not look at a closing session.  There is a run
    ([leak_demo]) in which [shutdown] closes the thread of a call whose deadline then passes, the
    thread is replaced, and the next call of the run starts the new one, which nobody closes:
    when the run and the session are over, the thread is idle.  Whatever happens after that, it
    waits for ever, and its place in the pool's budget and in the process ceiling stays taken. *)
Theorem closed_session_leaks_thread :
  exists w i, run leak_demo init = Some w /\ orphaned i w /\
    forall w', rtc step w w' -> exists t x y, w'.(threads) !! i = Some t /\ t.(serves) = Waiting /\
      w'.(budgets) !! t.(budget) = Some x /\ 1 <= x.(count) /\ w'.(budgets) !! 0%nat = Some y /\ 1 <= y.(count).
Proof.
  assert (Hr : reachable (world_of leak_demo)) by (apply world_of_reachable; vm_compute; by eexists).
  destruct (aimed_reachable _ Hr) as [P A]. exists (world_of leak_demo), 2%nat.
  assert (O : orphaned 2 (world_of leak_demo)).
  { eexists _, _. split; [vm_compute; reflexivity|]. split; [vm_compute; reflexivity|]. vm_compute. by repeat split. }
  split; [vm_compute; reflexivity|]. split; [exact O|]. intros w' Hw. destruct (orphaned_later _ _ _ Hw P A O) as [P' O'].
  apply orphan_takes_places; [done| |done]. eapply pools_later; [exact Hw|]. eapply pools_later; [exact Hr|apply pools_init].
Qed.
