(* ===== verification/Catalog.v ===== *)
(** * Tools and the lazy catalog ([python/pydeno/_agent.py]; [_schema.py], [as_schema_tool])

    Which tools a session is given and under which names, the catalog of tools that are declared
    to nobody: [search_tools] and [describe_tool] find them, and a tool that has been found can
    be called.  A callable is a number; of Python, [str.lower], the Unicode tables and the text of
    a float are parameters. *)

From S2P Require Import Prelude Utf8 PyVal PyStr Preflight Limits ToolBridge Results Feed Front Journal JournalValue AgentSession Schema.
From Stdlib Require Import Floats.SpecFloat.

#[local] Abbreviation text := (list Z).

(** ** The tools a caller gives *)

(** A mapping that describes a schema tool: which keys it has.  [SNone] is [None]. *)
Record tool_mapping := Mapping {
  m_unknown : bool; m_name : option pyval; m_description : option pyval; m_input_schema : option schema_arg; m_inputSchema : option schema_arg;
  m_output_schema : option schema_arg; m_outputSchema : option schema_arg; m_callable : option (option Z)
}.

(** [GFunc]: anything else, with its number if it is callable, its required keyword-only
    parameters, whether it is one of the package's own, and its truth value. *)
Inductive given := GSchema (t : SchemaTool) (f : Z) | GMapping (m : tool_mapping) | GFunc (f : option Z) (required_kw : list text) (internal truth : bool).

Inductive tools_arg := ToolsMapping (items : list (pyval * given)) | ToolsSequence (items : list given) | ToolsOther.

Inductive entry := EFunc (f : Z) (internal truth : bool) | ESchema (t : SchemaTool) (f : Z) | ESearch | EDescribe.

Definition entries := list (text * entry).
Definition names_of (es : entries) : list text := es.*1.

Definition is_none (a : schema_arg) : bool := match a with SNone => true | _ => false end.

Section Catalog.
Context `{Unicode} (json_float : spec_float -> list Z) (py_lower : text -> text).

(** The callable of a schema tool is checked with the rest of it. *)
Definition make_schema_tool (name description : pyval) (input output : schema_arg) (callable : option Z) : result exn (SchemaTool * Z) :=
  t ← schema_tool json_float name description input output (bool_decide (is_Some callable));
  Ok (t, default 0 callable).

Definition as_schema_tool (tool : given) (name : option pyval) : result exn (SchemaTool * Z) :=
  found ←
    match tool with
    | GSchema t f => Ok (t, f)
    | GMapping m =>
        if m.(m_unknown) then Err (TypeError "unknown keys in a schema tool")
        else
          let own := default PNone (match m.(m_name) with Some n => Some n | None => name end) in
          let input := default SNone (match m.(m_input_schema) with Some s => Some s | None => m.(m_inputSchema) end) in
          let input := if is_none input then SMapping [(u "type", JStr (u "object")); (u "properties", JObj [])] else input in
          match m.(m_callable) with
          | None => Err (TypeError "has no 'callable'")
          | Some callable =>
              make_schema_tool own (default (PStr []) m.(m_description)) input
                (default SNone (match m.(m_output_schema) with Some s => Some s | None => m.(m_outputSchema) end)) callable
          end
    | GFunc _ _ _ _ => Err (TypeError "expected a SchemaTool or a mapping describing one")
    end;
  match name with
  | Some (PStr n) => if bool_decide (found.1.(st_name) = n) then Ok found else Err (ValueError "is named differently; use one name")
  | Some _ => Err (ValueError "is named differently; use one name")
  | None => Ok found
  end.

(** [checked[name] = tool] *)
Fixpoint set_entry (n : text) (e : entry) (es : entries) : entries :=
  match es with [] => [(n, e)] | (k, old) :: es => if bool_decide (k = n) then (k, e) :: es else (k, old) :: set_entry n e es end.
Fixpoint lookup_name (n : text) (es : entries) : option entry :=
  match es with [] => None | (k, e) :: es => if bool_decide (k = n) then Some e else lookup_name n es end.
Definition has_name (n : text) (es : entries) : bool := bool_decide (is_Some (lookup_name n es)).

(** One item; [name]: its key in a mapping. *)
Definition normalize_one (checked : entries) (name : option pyval) (tool : given) : result exn entries :=
  match name, tool with
  | None, _ | _, GSchema _ _ | _, GMapping _ =>
      '(schema, f) ← as_schema_tool tool name;
      if has_name schema.(st_name) checked then Err (ValueError "is given twice") else Ok (set_entry schema.(st_name) (ESchema schema f) checked)
  | Some name, GFunc f required_kw internal truth =>
      n ← ToolBridge._check_name name;
      match f with
      | None => Err (TypeError "is not callable")
      | Some f =>
          match required_kw with
          | [] => Ok (set_entry n (EFunc f internal truth) checked)
          | _ => Err (ValueError "has required keyword-only parameters")
          end
      end
  end.

Fixpoint normalize_items (items : list (option pyval * given)) (checked : entries) : result exn entries :=
  match items with
  | [] => Ok checked
  | (name, tool) :: items => checked ← normalize_one checked name tool; normalize_items items checked
  end.

Definition _normalize_tools (tools : tools_arg) : result exn entries :=
  match tools with
  | ToolsMapping items => normalize_items ((fun x => (Some x.1, x.2)) <$> items) []
  | ToolsSequence items => normalize_items ((fun x => (None, x)) <$> items) []
  | ToolsOther => Err (TypeError "tools must be a mapping of name -> callable or SchemaTool, or a list of SchemaTools")
  end.

(** ** Names *)

Definition _RESERVED_PREFIXES : list string := ["__pydeno"; "__host_op"].
Definition _FRONT_DISPATCHER : text := u "__pydeno_external".
Definition _CATALOG_CALL : text := u "__pydeno_agent_catalog".
Definition _OBJECT_MEMBERS : list string :=
  ["__defineGetter__"; "__defineSetter__"; "__lookupGetter__"; "__lookupSetter__"; "isPrototypeOf"; "propertyIsEnumerable"; "toLocaleString"; "then"].
Definition _GUEST_GLOBALS : list string :=
  ["AggregateError"; "Array"; "ArrayBuffer"; "AsyncDisposableStack"; "Atomics"; "BigInt"; "BigInt64Array";
   "BigUint64Array"; "Boolean"; "DataView"; "Date"; "DisposableStack"; "Error"; "EvalError"; "FinalizationRegistry";
   "Float16Array"; "Float32Array"; "Float64Array"; "Function"; "Infinity"; "Int16Array"; "Int32Array"; "Int8Array"; "Intl";
   "Iterator"; "JSON"; "Map"; "Math"; "NaN"; "Number"; "Object"; "Promise"; "Proxy"; "RangeError"; "ReadableStream"; "ReferenceError";
   "Reflect"; "RegExp"; "Set"; "SharedArrayBuffer"; "String"; "SuppressedError"; "Symbol"; "SyntaxError"; "Temporal";
   "TypeError"; "URIError"; "Uint16Array"; "Uint32Array"; "Uint8Array"; "Uint8ClampedArray"; "WeakMap"; "WeakRef";
   "WeakSet"; "WebAssembly"; "console"; "decodeURI"; "decodeURIComponent"; "encodeURI"; "encodeURIComponent"; "escape";
   "eval"; "globalThis"; "isFinite"; "isNaN"; "parseFloat"; "parseInt"; "queueMicrotask"; "undefined"; "unescape"].

Definition reserved_prefix (n : text) : bool := existsb (fun p => starts_with (u p) n) _RESERVED_PREFIXES.
Definition is_internal (e : entry) : bool := match e with EFunc _ internal _ => internal | _ => false end.

Fixpoint check_entry_names (journal_tools : list text) (bare : bool) (es : entries) : result exn unit :=
  match es with
  | [] => Ok tt
  | (n, e) :: es =>
      _ ← raise_if (reserved_prefix n && negb (is_internal e) && negb (bool_decide (n = _FRONT_DISPATCHER) && bool_decide (n ∈ journal_tools)))
            (ValueError "is reserved for pydeno's own globals");
      _ ← raise_if (bare && one_of _GUEST_GLOBALS n) (ValueError "would replace the guest's global");
      check_entry_names journal_tools bare es
  end.

Definition check_namespace (ns : option text) : result exn unit :=
  match ns with
  | Some ns => raise_if (one_of _GUEST_GLOBALS ns || reserved_prefix ns) (ValueError "would replace a global the guest needs")
  | None => Ok tt
  end.

(** The set of the two namespaces is gone through in some order: either may be reported. *)
Definition _check_global_names (journal_tools : list text) (es : entries) (namespace catalog_ns : option text) : result exn unit :=
  _ ← check_entry_names journal_tools (match namespace with None => true | Some _ => false end) es;
  _ ← check_namespace namespace;
  check_namespace catalog_ns.

(** A catalog tool, with its callable. *)
Definition catalog := list (text * (SchemaTool * Z)).

Fixpoint check_catalog_entries (es : entries) : result exn catalog :=
  match es with
  | [] => Ok []
  | (n, e) :: es =>
      match e with
      | ESchema t f =>
          _ ← raise_if (one_of _OBJECT_MEMBERS n || bool_decide (n = _CATALOG_CALL)) (ValueError "cannot be a catalog tool name");
          c ← check_catalog_entries es;
          Ok ((n, (t, f)) :: c)
      | _ => Err (TypeError "must be a SchemaTool (or a mapping describing one)")
      end
  end.

Definition _normalize_catalog (given : option tools_arg) : result exn catalog :=
  match given with
  | None => Ok []
  | Some tools => es ← _normalize_tools tools; check_catalog_entries es
  end.

(** ** Searching *)

Definition _DEFAULT_SEARCH_RESULTS : Z := 10.
Definition _MAX_QUERY_CHARS : nat := 1000.
Definition _SUMMARY_CHARS : nat := 200.
Definition _MAX_TERMS : nat := 32.

(** [re.findall(r"[a-z0-9]+", s)]; [run]: the characters of the match so far, reversed. *)
Fixpoint find_words (run : text) (s : text) : list text :=
  let flush := match run with [] => [] | _ => [rev run] end in
  match s with
  | [] => flush
  | c :: s => if is_lower c || is_digit c then find_words (c :: run) s else flush ++ find_words [] s
  end.
Definition terms_of (query : text) : list text := take _MAX_TERMS (dedup [] (find_words [] (py_lower (take _MAX_QUERY_CHARS query)))).

Definition spaced (s : text) : text := (fun c => if c =? chr "_" then 32 else c) <$> s.

Definition term_score (lowered description : text) (words : list text) (term : text) : Z :=
  (if bool_decide (term ∈ words) then 4 else if contains term lowered then 2 else 0) + (if contains term description then 1 else 0).

Definition score (terms : list text) (name description : text) : Z :=
  let lowered := py_lower name in
  foldl (fun n term => n + term_score lowered (py_lower description) (find_words [] (spaced lowered)) term) 0 terms.

(** [(-a[0], a[1]) <= (-b[0], b[1])] *)
Definition ranked (a b : Z * text) : bool := (b.1 <? a.1) || ((b.1 =? a.1) && text_le a.2 b.2).
Fixpoint insert_ranked (x : Z * text) (l : list (Z * text)) : list (Z * text) :=
  match l with [] => [x] | y :: l' => if ranked x y then x :: l else y :: insert_ranked x l' end.

Definition scored (terms : list text) (c : catalog) : list (Z * text) :=
  omap (fun e => let n := score terms e.1 e.2.1.(st_description) in
                 if negb (n =? 0) || bool_decide (terms = []) then Some (n, e.1) else None) c.

Fixpoint lookup_catalog (n : text) (c : catalog) : option (SchemaTool * Z) :=
  match c with [] => None | (k, t) :: c => if bool_decide (k = n) then Some t else lookup_catalog n c end.

Definition hit (c : catalog) (name : text) : pyval :=
  PDict [(PStr (u "name"), PStr name);
         (PStr (u "description"), PStr (take _SUMMARY_CHARS (default [] ((fun t => t.1.(st_description)) <$> lookup_catalog name c))))].

Definition best (terms : list text) (limit : nat) (c : catalog) : list text := (take limit (foldr insert_ranked [] (scored terms c))).*2.

(** [search_tools]; its errors are shown to the guest. *)
Definition _search_tool (c : catalog) (query limit : pyval) : result exn pyval :=
  match query with
  | PStr query =>
      match limit with
      | PInt n =>
          if (1 <=? n) && (n <=? Z.of_nat _MAX_SEARCH_RESULTS)
          then Ok (PList (hit c <$> best (terms_of query) (Z.to_nat n) c))
          else Err (TypeError "search_tools(query, limit?): limit must be an integer from 1 to 50")
      | _ => Err (TypeError "search_tools(query, limit?): limit must be an integer from 1 to 50")
      end
  | _ => Err (TypeError "search_tools(query, limit?): query must be a string")
  end.

(** ** Describing *)

(** JSON data as Python has it. *)
Fixpoint json_value (j : json) : pyval :=
  match j with
  | JNull => PNone | JBool b => PBool b | JInt z => PInt z | JFloat f => PFloat f | JStr s => PStr s
  | JArr l => PList (json_value <$> l)
  | JObj kvs => PDict ((fun kv => (PStr kv.1, json_value kv.2)) <$> kvs)
  end.

Definition declared (ns : text) (decls doc : list text) (signature : text) : text :=
  join_with [10] ([u "declare namespace " ++ ns ++ u " {"] ++ decls ++ (match decls with [] => [] | _ => [[]] end) ++ doc
                  ++ [u "  function " ++ signature ++ u ";"; u "}"]).

(** [Err] of a [PyErr] is an error of the catalog; [ToolNotFoundError] is shown to the guest. *)
Inductive describe_error := ToolNotFound | Rendering (e : exn).

Definition _describe_tool (c : catalog) (ns : text) (name : pyval) : result describe_error pyval :=
  match (match name with PStr n => lookup_catalog n c | _ => None end) with
  | None => Err ToolNotFound
  | Some (tool, _) =>
      match schema_declarations json_float [tool] false (u "  ") with
      | Err e => Err (Rendering e)
      | Ok (decls, functions) =>
          let '(doc, signature) := default ([], []) (assoc tool.(st_name) functions) in
          Ok (PDict [(PStr (u "name"), PStr tool.(st_name));
                     (PStr (u "description"), PStr tool.(st_description));
                     (PStr (u "input_schema"), json_value (JObj tool.(st_input)));
                     (PStr (u "output_schema"), match tool.(st_output) with None => PNone | Some o => json_value (JObj o) end);
                     (PStr (u "typescript"), PStr (declared ns decls doc signature));
                     (PStr (u "usage"), PStr (u "const result = await " ++ ns ++ u "." ++ tool.(st_name) ++ u "({ ... });"))])
      end
  end.

(** ** The tools of a session *)

Record toolset := Toolset { declared_tools : entries; catalog_tools : catalog; catalog_ns : text; tools_namespace : option text }.

Definition or_tools (namespace : option text) : text := match namespace with Some ns => ns | None => u "tools" end.

Definition _configure (journal_tools : list text) (tools : tools_arg) (tools_catalog : option tools_arg) (max_tool_calls : int_arg)
    (namespace : pyval) (max_output_bytes max_result_bytes : int_arg) : result exn toolset :=
  es ← _normalize_tools tools;
  c ← _normalize_catalog tools_catalog;
  _ ← limit_int max_tool_calls 0 MAX_WIRE_INT;
  namespace ← match namespace with PNone => Ok None | _ => Some <$> ToolBridge._check_name namespace end;
  _ ← check_limit max_output_bytes;
  _ ← check_limit max_result_bytes;
  let ns := or_tools namespace in
  match c with
  | [] => _ ← _check_global_names journal_tools es namespace None; Ok (Toolset es c ns namespace)
  | _ =>
      _ ← raise_if (has_name _SEARCH es || has_name _DESCRIBE es) (ValueError "are the session's own tools; rename yours");
      _ ← raise_if (existsb (fun x => has_name x.1 es) c) (ValueError "are both declared and in the catalog");
      _ ← raise_if (match namespace with None => has_name ns es | Some _ => false end) (ValueError "would hide them");
      let es := es ++ [(_SEARCH, ESearch); (_DESCRIBE, EDescribe)] in
      _ ← _check_global_names journal_tools es namespace (Some ns);
      Ok (Toolset es c ns namespace)
  end.

(** ** A call *)

Definition is_undefined (v : pyval) : bool := match v with PUndefined => true | _ => false end.

(** [_plain]: guest data for a schema tool; [room]: the levels left. *)
Fixpoint _plain (room : nat) (value : pyval) : result exn pyval :=
  match room with
  | O => Err (ValueError "arguments are nested too deeply")
  | S room =>
      match value with
      | PDict kvs =>
          kvs ← mapM (fun kv => v ← _plain room kv.2; Ok (kv.1, v)) (List.filter (fun kv => negb (is_undefined kv.2)) kvs);
          Ok (PDict kvs)
      | PList l | PTuple l | PSet l => PList <$> mapM (_plain room) l
      | PUndefined => Ok PNone
      | _ => Ok value
      end
  end.
Definition _PLAIN_LEVELS : nat := 201.

Definition _schema_argument (args : list pyval) : result exn pyval :=
  match args with
  | [] | [PNone] | [PUndefined] => Ok (PDict [])
  | [PDict kvs] => _plain _PLAIN_LEVELS (PDict kvs)
  | _ => Err (TypeError "takes one object argument")
  end.

(** What a call is answered with: a callable and its arguments, or one of the session's
    own two tools. *)
Inductive real_call := CallFunc (f : Z) (args : list pyval) | CallSearch (args : list pyval) | CallDescribe (args : list pyval).

(** [self._tools.get(name) or self._catalog[name]]: a tool that is false is not found there. *)
Definition _check_call (ts : toolset) (name : text) (args : list pyval) : result exn real_call :=
  match lookup_name name ts.(declared_tools), lookup_catalog name ts.(catalog_tools) with
  | Some (EFunc f _ true), _ => Ok (CallFunc f args)
  | Some (EFunc f _ false), None => Err (KeyError "")
  | Some ESearch, _ => Ok (CallSearch args)
  | Some EDescribe, _ => Ok (CallDescribe args)
  | Some (ESchema _ f), _ | Some (EFunc _ _ false), Some (_, f) | None, Some (_, f) => a ← _schema_argument args; Ok (CallFunc f [a])
  | None, None => Err (TypeError "call() takes a ToolCall from this session")
  end.
End Catalog.

(** ** What the guest may call

    [Declared]: the shim of a declared tool; [Dispatcher]: the one hidden function the proxy
    calls with the name and the arguments.  The core is what the session keeps of its worker. *)
Inductive shim := Declared (name : text) | Dispatcher.

Section Calls.
Context {G : Type}.

Definition charge (max_tool_calls : option Z) (c : core G) : option (core G) :=
  if match max_tool_calls with Some m => m <=? c.(calls_made) | None => false end then None
  else Some (Core c.(guest) (c.(calls_made) + 1) c.(discovered)).

Definition check_catalog (ts : toolset) (c : core G) (name : pyval) : option text :=
  match name with
  | PStr n => if bool_decide (n ∈ ts.(catalog_tools).*1) && bool_decide (n ∈ c.(discovered)) then Some n else None
  | _ => None
  end.

Inductive call_refused := NotDiscovered | OverBudget.

(** [_Shim.__call__], [on_catalog_call], [on_tool_call]. *)
Definition shim_call (ts : toolset) (max_tool_calls : option Z) (s : shim) (args : list pyval) (c : core G)
    : result call_refused (text * list pyval * core G) :=
  '(name, args) ←
    match s with
    | Declared name => Ok (name, args)
    | Dispatcher =>
        match check_catalog ts c (default PNone (head args)) with
        | Some n => Ok (n, tail args)
        | None => Err NotDiscovered
        end
    end;
  match charge max_tool_calls c with Some c => Ok (name, args, c) | None => Err OverBudget end.

(** The answer of the session's own tools is learnt from ([_answer]). *)
Definition discover (ts : toolset) (name : text) (v : pyval) (c : core G) : core G :=
  if negb (bool_decide (ts.(catalog_tools).*1 = [])) && (bool_decide (name = _SEARCH) || bool_decide (name = _DESCRIBE))
  then Core c.(guest) c.(calls_made) (c.(discovered) ++ _found v ts.(catalog_tools).*1)
  else c.

Inductive traffic := Calls (s : shim) (args : list pyval) | Answered (name : text) (v : pyval).

(** One call or answer, and the call the host is asked to make. *)
Definition traffic_step (ts : toolset) (max_tool_calls : option Z) (e : traffic) (c : core G) : core G * list (text * list pyval) :=
  match e with
  | Calls s args => match shim_call ts max_tool_calls s args c with Ok (name, args, c) => (c, [(name, args)]) | Err _ => (c, []) end
  | Answered name v => (discover ts name v c, [])
  end.

Fixpoint traffic_run (ts : toolset) (max_tool_calls : option Z) (es : list traffic) (c : core G) : core G * list (text * list pyval) :=
  match es with
  | [] => (c, [])
  | e :: es => let '(c, calls) := traffic_step ts max_tool_calls e c in let '(c, more) := traffic_run ts max_tool_calls es c in (c, calls ++ more)
  end.
End Calls.
