(* ===== verification/CatalogProps.v ===== *)
(** * The lazy catalog: theorems

    What a session's catalog guarantees: the names a session is given are apart, a call through
    the dispatcher reaches only a tool the guest has been told of, and a search answers with the
    best matches and makes exactly these callable. *)

From stdpp Require Import sorting.
From S2P Require Import Prelude Utf8 PyVal PyStr Preflight PreflightProps Limits ToolBridge Results Feed Front Journal JournalValue AgentSession Schema Catalog.
From Stdlib Require Import Floats.SpecFloat.

#[local] Abbreviation text := (list Z).

(** ** Names *)

Section Names.
Context `{Unicode} (json_float : spec_float -> list Z).

Lemma lookup_set n m e es : lookup_name m (set_entry n e es) = if bool_decide (n = m) then Some e else lookup_name m es.
Proof.
  induction es as [|[k old] es IH]; cbn; [done|]. destruct (bool_decide_reflect (k = n)) as [->|Hk]; cbn.
  - by case_bool_decide.
  - rewrite IH. case_bool_decide as E1; case_bool_decide as E2; congruence.
Qed.

Lemma names_set n e es : names_of (set_entry n e es) = if has_name n es then names_of es else names_of es ++ [n].
Proof.
  unfold has_name. induction es as [|[k old] es IH]; cbn; [done|]. destruct (bool_decide_reflect (k = n)) as [->|Hk]; cbn; [done|].
  unfold names_of in IH |- *. cbn. rewrite IH. by case_bool_decide.
Qed.

Lemma lookup_in n es : n ∈ names_of es <-> is_Some (lookup_name n es).
Proof.
  unfold names_of. induction es as [|[k e] es IH]; cbn; [by split; [intros ?%not_elem_of_nil|intros [? [=]]]|].
  rewrite elem_of_cons, IH. case_bool_decide as Ek; [subst; naive_solver|].
  split; [intros [->|]; [done|done]|by right].
Qed.

Lemma names_set_nodup n e es : NoDup (names_of es) -> NoDup (names_of (set_entry n e es)).
Proof.
  intros Hd. rewrite names_set. unfold has_name. case_bool_decide as Hs; [done|].
  apply NoDup_app. repeat split; [done| |by apply NoDup_singleton]. intros x Hx ->%list_elem_of_singleton. by apply Hs, lookup_in.
Qed.

Lemma normalize_one_nodup checked name tool es : normalize_one json_float checked name tool = Ok es -> NoDup (names_of checked) -> NoDup (names_of es).
Proof.
  intros E Hd. unfold normalize_one in E. repeat (case_match; simplify_eq; inv_ok); eauto using names_set_nodup.
Qed.

Lemma normalize_items_nodup items checked es : normalize_items json_float items checked = Ok es -> NoDup (names_of checked) -> NoDup (names_of es).
Proof.
  revert checked. induction items as [|[name tool] items IH]; intros checked E Hd; cbn in E; [by simplify_eq|]. inv_ok. eauto using normalize_one_nodup.
Qed.

Lemma normalized_nodup tools es : _normalize_tools json_float tools = Ok es -> NoDup (names_of es).
Proof. destruct tools; cbn; [| |done]; intros E; eapply normalize_items_nodup in E; try done; apply NoDup_nil_2. Qed.
End Names.

(** ** The session's tools *)

Lemma lookup_catalog_in n c : n ∈ c.*1 <-> is_Some (lookup_catalog n c).
Proof.
  induction c as [|[k t] c IH]; cbn; [by split; [intros ?%not_elem_of_nil|intros [? [=]]]|].
  rewrite elem_of_cons, IH. case_bool_decide as Ek; [subst; naive_solver|]. split; [intros [->|]; [done|done]|by right].
Qed.

Lemma catalog_entries_names es c : check_catalog_entries es = Ok c ->
  c.*1 = names_of es /\ forall n, n ∈ c.*1 -> one_of _OBJECT_MEMBERS n = false /\ n <> _CATALOG_CALL.
Proof.
  revert c. induction es as [|[n e] es IH]; intros c E; cbn in E; [simplify_eq; split; [done|by intros ? ?%not_elem_of_nil]|].
  destruct e as [| t f | |]; try done. apply result_bind_ok in E as (? & Hr%raise_if_ok & E). apply result_bind_ok in E as (c' & Ec & [= <-]).
  destruct (IH _ Ec) as [E' Hm]. apply orb_false_iff in Hr as [Hr1 Hr2]. cbn. unfold names_of in E'. rewrite E'. split; [done|].
  intros m [->|Hin]%elem_of_cons; [by apply bool_decide_eq_false in Hr2|rewrite <- E' in Hin; by apply Hm].
Qed.

Section Tools.
Context `{Unicode} (json_float : spec_float -> list Z).
Context (journal_tools : list text) (tools : tools_arg) (tools_catalog : option tools_arg) (max_tool_calls : int_arg) (namespace : pyval)
  (max_output_bytes max_result_bytes : int_arg) (ts : toolset).
Context (Hts : _configure json_float journal_tools tools tools_catalog max_tool_calls namespace max_output_bytes max_result_bytes = Ok ts).

Lemma configured : NoDup ts.(catalog_tools).*1 /\
  (forall n, n ∈ ts.(catalog_tools).*1 -> one_of _OBJECT_MEMBERS n = false /\ n <> _CATALOG_CALL) /\
  (ts.(catalog_tools) <> [] -> exists es, NoDup (names_of es) /\ ts.(declared_tools) = es ++ [(_SEARCH, ESearch); (_DESCRIBE, EDescribe)] /\
    has_name _SEARCH es = false /\ has_name _DESCRIBE es = false /\ forall n, n ∈ ts.(catalog_tools).*1 -> lookup_name n es = None).
Proof.
  unfold _configure in Hts. apply result_bind_ok in Hts as (es & Ees & E). apply result_bind_ok in E as (c & Ec & E).
  do 4 (apply result_bind_ok in E as (? & _ & E)).
  assert (Hc : NoDup c.*1 /\ forall n, n ∈ c.*1 -> one_of _OBJECT_MEMBERS n = false /\ n <> _CATALOG_CALL).
  { destruct tools_catalog as [given|]; cbn in Ec; [|simplify_eq; split; [apply NoDup_nil_2|by intros ? ?%not_elem_of_nil]].
    apply result_bind_ok in Ec as (es' & Ees' & Ec). apply catalog_entries_names in Ec as [-> ?]. split; [by eapply normalized_nodup|done]. }
  apply normalized_nodup in Ees. destruct c as [|e1 c']; inv_ok; cbn [catalog_tools declared_tools]; [by split_and!; try apply Hc|].
  split; [apply Hc|]. split; [apply Hc|]. intros _. exists es. bool_prop. split_and!; try done.
  intros n Hn. destruct (lookup_name n es) eqn:El; [|done]. exfalso.
  match goal with He : existsb _ (e1 :: c') = false |- _ => rewrite <- not_true_iff_false, existsb_exists in He; apply He end.
  apply list_elem_of_fmap in Hn as (y & -> & Hy). exists y. split; [by apply list_elem_of_In|]. unfold has_name. by rewrite El.
Qed.

Lemma lookup_own n : n ∈ ts.(catalog_tools).*1 -> lookup_name n ts.(declared_tools) =
  if bool_decide (n = _SEARCH) then Some ESearch else if bool_decide (n = _DESCRIBE) then Some EDescribe else None.
Proof.
  intros Hn. destruct configured as (_ & _ & Hd). destruct Hd as (es & _ & -> & _ & _ & Hno); [by intros E; rewrite E in Hn; apply not_elem_of_nil in Hn|].
  specialize (Hno n Hn). induction es as [|[k e] es IH]; cbn [lookup_name app] in Hno |- *.
  - rewrite (bool_decide_ext (_SEARCH = n) (n = _SEARCH)), (bool_decide_ext (_DESCRIBE = n) (n = _DESCRIBE)) by done. done.
  - destruct (bool_decide (k = n)); [done|by apply IH].
Qed.
End Tools.

(** C37. The name of every catalog tool [_configure] accepts is none of [_OBJECT_MEMBERS] (the proxy
    would not be asked for them) and not the dispatcher's, and a call of it runs its own callable
    with one plain object, except a tool named like the session's own two: the overlap is
    looked for before these are added, and calls of it run the session's own search or
    description. *)
Theorem catalog_names_resolve `{Unicode} json_float journal_tools tools tools_catalog max_tool_calls namespace mo mr ts name tool f args :
  _configure json_float journal_tools tools tools_catalog max_tool_calls namespace mo mr = Ok ts ->
  lookup_catalog name ts.(catalog_tools) = Some (tool, f) ->
  one_of _OBJECT_MEMBERS name = false /\ name <> _CATALOG_CALL /\
  _check_call ts name args =
    if bool_decide (name = _SEARCH) then Ok (CallSearch args)
    else if bool_decide (name = _DESCRIBE) then Ok (CallDescribe args)
    else a ← _schema_argument args; Ok (CallFunc f [a]).
Proof.
  intros Hts Hl. assert (Hin : name ∈ ts.(catalog_tools).*1) by (apply lookup_catalog_in; eauto).
  destruct (configured _ _ _ _ _ _ _ _ _ Hts) as (_ & Hm & _). destruct (Hm name Hin) as [Ho Hd]. split_and!; [done|done|].
  unfold _check_call. rewrite (lookup_own _ _ _ _ _ _ _ _ _ Hts name Hin), Hl. by repeat case_bool_decide.
Qed.

(** ** Ranking *)

Lemma text_le_refl a : text_le a a = true.
Proof. induction a as [|x a IH]; cbn; [done|]. by rewrite Z.eqb_refl, IH, orb_true_r. Qed.

Lemma text_le_total a b : text_le a b = true \/ text_le b a = true.
Proof.
  revert b. induction a as [|x a IH]; intros [|y b]; cbn; [by left|by left|by right|].
  destruct (IH b) as [E|E]; rewrite E; destruct (Z.lt_total x y) as [Hx|[->|Hx]].
  1,4: left; by rewrite (proj2 (Z.ltb_lt x y) Hx). 1,3: by (left; rewrite Z.eqb_refl, orb_true_r) || by (right; rewrite Z.eqb_refl, orb_true_r).
  all: right; by rewrite (proj2 (Z.ltb_lt y x) Hx).
Qed.

Lemma text_le_trans a b c : text_le a b = true -> text_le b c = true -> text_le a c = true.
Proof.
  revert b c. induction a as [|x a IH]; intros [|y b] [|z c]; cbn; try done.
  rewrite !orb_true_iff, !andb_true_iff, !Z.ltb_lt, !Z.eqb_eq. intros [?|[-> Ha]] [?|[-> Hb]]; [left; lia|by left|by left|right; eauto].
Qed.

(** A higher score, or the same and a name that is not after the other's. *)
Definition better (a b : Z * text) : Prop := b.1 < a.1 \/ b.1 = a.1 /\ text_le a.2 b.2 = true.

Lemma ranked_better a b : ranked a b = true <-> better a b.
Proof. unfold ranked, better. by rewrite orb_true_iff, andb_true_iff, Z.ltb_lt, Z.eqb_eq. Qed.

Lemma better_total a b : better a b \/ better b a.
Proof. unfold better. destruct (text_le_total a.2 b.2); destruct (Z.lt_total a.1 b.1) as [|[|]]; auto. Qed.

Lemma better_trans a b c : better a b -> better b c -> better a c.
Proof. unfold better. intros [?|[-> Ha]] [?|[-> Hb]]; [left; lia|by left|by left|]. right. eauto using text_le_trans. Qed.

Definition rank_sort (l : list (Z * text)) : list (Z * text) := foldr insert_ranked [] l.

Lemma insert_ranked_perm x l : insert_ranked x l ≡ₚ x :: l.
Proof. induction l as [|y l IH]; cbn; [done|]. destruct (ranked x y); [done|]. rewrite IH. apply Permutation_swap. Qed.

Lemma rank_sort_perm l : rank_sort l ≡ₚ l.
Proof. induction l as [|x l IH]; cbn; [done|]. by rewrite insert_ranked_perm, IH. Qed.

Lemma insert_ranked_sorted x l : StronglySorted better l -> StronglySorted better (insert_ranked x l).
Proof.
  induction 1 as [|y l Hl IH Hy]; cbn; [by repeat constructor|]. destruct (ranked x y) eqn:E.
  - apply ranked_better in E. constructor; [by constructor|]. constructor; [done|]. eapply Forall_impl; [exact Hy|]. intros z. by apply better_trans.
  - constructor; [done|]. rewrite insert_ranked_perm. constructor; [|done]. destruct (better_total x y) as [H|H]; [apply ranked_better in H; congruence|done].
Qed.

Lemma rank_sort_sorted l : StronglySorted better (rank_sort l).
Proof. induction l; cbn; [constructor|]. by apply insert_ranked_sorted. Qed.

(** ** Searching *)

Section Search.
Context (py_lower : text -> text) (c : catalog) (Hc : NoDup c.*1) (terms : list text).

Definition description (n : text) : text := default [] ((fun t => t.1.(st_description)) <$> lookup_catalog n c).
Definition rank (n : text) : Z * text := (score py_lower terms n (description n), n).
Definition matching (n : text) : Prop := n ∈ c.*1 /\ ((rank n).1 <> 0 \/ terms = []).

(** The answer: the best, in order, as many as asked for or as there are. *)
Definition best_of (limit : nat) (hits : list text) : Prop :=
  NoDup hits /\ (length hits <= limit)%nat /\ (forall n, n ∈ hits -> matching n) /\
  StronglySorted (fun a b => better (rank a) (rank b)) hits /\
  forall n, matching n -> n ∉ hits -> length hits = limit /\ forall h, h ∈ hits -> better (rank h) (rank n).

Lemma lookup_catalog_elem n t : lookup_catalog n c = Some t <-> (n, t) ∈ c.
Proof using Hc.
  induction c as [|[k t'] l IH]; cbn in *; [by split; [|intros ?%not_elem_of_nil]|]. apply NoDup_cons in Hc as [Hk Hd]. rewrite elem_of_cons.
  case_bool_decide as E; [subst k|].
  - split; [intros [= ->]; by left|]. intros [[= ->]|Hin]; [done|]. exfalso. apply Hk. apply list_elem_of_fmap. by exists (n, t).
  - rewrite IH by done. split; [by right|]. intros [[= -> ->]|]; done.
Qed.

Lemma scored_elem x : x ∈ scored py_lower terms c <-> matching x.2 /\ x = rank x.2.
Proof using Hc.
  unfold scored. rewrite list_elem_of_omap. split.
  - intros ([n [t f]] & Hin & E). cbn in E. destruct (_ || _) eqn:Eb in E; [|done]. injection E as <-. cbn [snd].
    assert (Hr : rank n = (score py_lower terms n t.(st_description), n)).
    { unfold rank, description. by rewrite (proj2 (lookup_catalog_elem n (t, f)) Hin). }
    split; [|by rewrite Hr]. split; [apply list_elem_of_fmap; by exists (n, (t, f))|]. rewrite Hr. cbn.
    apply orb_true_iff in Eb as [Eb|Eb]; [left; by apply negb_true_iff, Z.eqb_neq in Eb|right; by apply bool_decide_eq_true in Eb].
  - intros [[Hin Hs] Hx]. apply list_elem_of_fmap in Hin as ([n t] & En & Hin). cbn in En. exists (n, t). split; [done|]. cbn.
    assert (Hr : rank n = (score py_lower terms n t.1.(st_description), n)).
    { unfold rank, description. by rewrite (proj2 (lookup_catalog_elem n t) Hin). }
    rewrite Hx, En, Hr. rewrite En, Hr in Hs. cbn in Hs |- *. rewrite (proj2 (orb_true_iff _ _)); [done|].
    destruct Hs as [Hs| ->]; [left; by apply negb_true_iff, Z.eqb_neq|by right].
Qed.

Lemma scored_names_nodup : NoDup (scored py_lower terms c).*2.
Proof using Hc.
  clear -Hc. unfold scored. induction c as [|[n t] l IH]; cbn in *; [apply NoDup_nil_2|]. apply NoDup_cons in Hc as [Hn Hd].
  destruct (_ || _); [|by apply IH]. cbn. apply NoDup_cons. split; [|by apply IH]. intros Hin. apply Hn.
  apply list_elem_of_fmap in Hin as (x & -> & Hx). apply list_elem_of_omap in Hx as (y & Hy & Ey). destruct (_ || _) in Ey; [|done].
  injection Ey as <-. apply list_elem_of_fmap. by exists y.
Qed.

Lemma sorted_by {A B} (f : A -> B) (R : B -> B -> Prop) l : StronglySorted R (f <$> l) -> StronglySorted (fun a b => R (f a) (f b)) l.
Proof using.
  induction l as [|x l IH]; cbn; [constructor|]. inversion 1 as [|? ? Hs Hx]; subst. constructor; [by apply IH|]. by rewrite Forall_fmap in Hx.
Qed.

Lemma best_is_best limit : best_of limit (best py_lower terms limit c).
Proof using Hc.
  unfold best, best_of. fold (rank_sort (scored py_lower terms c)). rewrite fmap_take.
  pose proof (rank_sort_sorted (scored py_lower terms c)) as Hs. pose proof (rank_sort_perm (scored py_lower terms c)) as Hp.
  set (l := rank_sort _) in *. set (names := l.*2).
  assert (Hr : l = rank <$> names).
  { unfold names. rewrite <- list_fmap_compose, <- (list_fmap_id l) at 1. apply list_fmap_ext. intros i x Hx%list_elem_of_lookup_2.
    rewrite Hp in Hx. by apply scored_elem in Hx as [_ ?]. }
  assert (Hn : forall n, n ∈ names <-> matching n).
  { intros n. unfold names. rewrite list_elem_of_fmap. setoid_rewrite Hp. setoid_rewrite scored_elem.
    split; [by intros (x & -> & Hm & _)|intros Hm; by exists (rank n)]. }
  rewrite Hr in Hs. apply sorted_by in Hs. rewrite <- (take_drop limit names) in Hs, Hn.
  split_and!.
  - eapply sublist_NoDup; [|apply sublist_take]. unfold names. rewrite Hp. apply scored_names_nodup.
  - rewrite length_take. lia.
  - intros n Hin. apply Hn, elem_of_app. by left.
  - by apply StronglySorted_app_1_l in Hs.
  - intros n Hm Hin. apply Hn, elem_of_app in Hm as [?|Hd]; [done|]. split.
    + rewrite length_take. apply list_elem_of_lookup in Hd as (i & Hi). apply lookup_lt_Some in Hi. rewrite length_drop in Hi. lia.
    + intros h Hh. by apply (StronglySorted_app_1_elem_of _ _ _ h n Hs).
Qed.
End Search.

(** ** An answer crosses to the guest and is learnt from *)

Section Answering.
Context `{TextForms}.

Definition hit_encoded (c : catalog) (name : text) : pyval :=
  tagged "d" (PList [PList [PStr (u "name"); PStr name];
                     PList [PStr (u "description"); PStr (take _SUMMARY_CHARS (description c name))]]).

Lemma encode_hit room c name : _encode false (S (S room)) (hit c name) = Ok (hit_encoded c name).
Proof. reflexivity. Qed.

Lemma encode_hits room c hits : _encode false (S (S (S room))) (PList (hit c <$> hits)) = Ok (PList (hit_encoded c <$> hits)).
Proof.
  change (_encode _ _ _) with (ms ← each (_encode false (S (S room))) (hit c <$> hits); Ok (PList ms)). enough (E : each (_encode false (S (S room))) (hit c <$> hits) = Ok (hit_encoded c <$> hits)) by by rewrite E.
  induction hits as [|h hits IH]; [done|]. rewrite !fmap_cons. change (each ?f (?x :: ?l)) with (y ← f x; ys ← each f l; Ok (y :: ys)). by rewrite encode_hit, IH.
Qed.

Lemma hits_portable c hits : portable (PList (hit c <$> hits)) = true.
Proof. cbn. induction hits as [|h hits IH]; [done|]. rewrite fmap_cons. cbn [forallb]. rewrite IH. by vm_compute. Qed.

Lemma hits_untuple c hits : untuple (PList (hit c <$> hits)) = PList (hit c <$> hits).
Proof. cbn. f_equal. induction hits as [|h hits IH]; [done|]. rewrite !fmap_cons, IH. reflexivity. Qed.

Lemma decode_hits c hits : _decode (PList (hit_encoded c <$> hits)) = Ok (PList (hit c <$> hits)).
Proof. rewrite <- (hits_untuple c hits) at 1. by eapply (journal_value_roundtrip 3), hits_portable; apply encode_hits. Qed.

Lemma found_hits c hits : (length hits <= _MAX_SEARCH_RESULTS)%nat -> (forall n, n ∈ hits -> n ∈ c.*1) -> _found (PList (hit c <$> hits)) c.*1 = hits.
Proof.
  intros Hl Hin. unfold _found. rewrite take_ge by by rewrite length_fmap. clear Hl.
  set (f := fun item => _). induction hits as [|h hits IH]; [done|]. rewrite fmap_cons.
  change (omap f (?x :: ?l)) with (match f x with Some y => y :: omap f l | None => omap f l end).
  assert (Hh : f (hit c h) = Some h) by (change (f (hit c h)) with (if bool_decide (h ∈ c.*1) then Some h else None); rewrite bool_decide_true; [done|apply Hin; left]).
  rewrite Hh. f_equal. apply IH. intros n Hn. apply Hin. by right.
Qed.

Lemma record_score {G} (cfg : config) (r : record) (s : session G) : AgentSession.score (_record cfg r s) = AgentSession.score s.
Proof. unfold _record. destruct (records s); [|done]. by destruct (_ <? _). Qed.
End Answering.

(** C25. A search answers with the best matches of the catalog: no name twice, at most [limit] of
    them, each a tool some term of the query matches, by falling score and then by name, and a
    match is left out only when [limit] better ones are in.  Answering the paused call with it
    succeeds, the guest receives it unchanged, and exactly the names in it become callable. *)
Theorem search_answer_learnt `{Unicode, TextForms, G : Type} json_float py_lower journal_tools tools tools_catalog max_tool_calls namespace mo mr ts
    (cfg : config) (s : session G) query limit args call_id :
  _configure json_float journal_tools tools tools_catalog max_tool_calls namespace mo mr = Ok ts ->
  cfg.(AgentSession.catalog) = ts.(catalog_tools).*1 -> (3 <= cfg.(room))%nat -> 1 <= limit <= 50 ->
  s.(dead) = false -> s.(closed) = false -> s.(paused) = Some (ToolCall _SEARCH args call_id s.(session_id)) ->
  exists hits s',
    best_of py_lower ts.(catalog_tools) (terms_of py_lower query) (Z.to_nat limit) hits /\
    _search_tool py_lower ts.(catalog_tools) (PStr query) (PInt limit) = Ok (PList (hit ts.(catalog_tools) <$> hits)) /\
    _answer cfg (ToolCall _SEARCH args call_id s.(session_id)) (Some (PList (hit ts.(catalog_tools) <$> hits))) None s
      = Ok (s', inl (PList (hit ts.(catalog_tools) <$> hits))) /\
    s'.(AgentSession.score).(discovered) = s.(AgentSession.score).(discovered) ++ hits.
Proof.
  intros Hts Hcat Hroom Hlim Hd Hcl Hp. destruct (configured _ _ _ _ _ _ _ _ _ Hts) as (Hnd & _ & _).
  set (c := ts.(catalog_tools)) in *. set (hits := best py_lower (terms_of py_lower query) (Z.to_nat limit) c).
  assert (Hb := best_is_best py_lower c Hnd (terms_of py_lower query) (Z.to_nat limit)). fold hits in Hb.
  assert (Hf : _found (PList (hit c <$> hits)) c.*1 = hits).
  { apply found_hits; [|intros n Hn; by apply Hb in Hn as [? _]]. destruct Hb as (_ & Hlen & _). unfold _MAX_SEARCH_RESULTS. lia. }
  destruct cfg as [mj rd ex cat rm]. cbn in Hcat, Hroom. subst cat. destruct rm as [|[|[|rm]]]; try lia.
  eexists hits, _. split; [done|]. split.
  { unfold _search_tool. by rewrite (proj2 (Z.leb_le 1 limit)), (proj2 (Z.leb_le limit _)) by (unfold _MAX_SEARCH_RESULTS; lia). }
  unfold _answer, _check_usable. rewrite Hd, Hcl, Hp, !Z.eqb_refl. cbn [mbind result_bind andb negb AgentSession.room].
  rewrite encode_hits. cbn [mbind result_bind]. rewrite decode_hits. cbn [mbind result_bind]. split; [reflexivity|].
  cbn [AgentSession.score with_paused]. rewrite record_score. unfold learn. cbn [AgentSession.catalog]. rewrite (bool_decide_true (_SEARCH = _SEARCH)), orb_true_l, andb_true_r by done.
  case_bool_decide as En; cbn [negb AgentSession.score with_score discovered]; [|by rewrite Hf].
  destruct hits as [|h hits']; [by rewrite app_nil_r|]. exfalso. destruct Hb as (_ & _ & Hm & _). destruct (Hm h) as [Hin _]; [left|].
  rewrite En in Hin. by apply not_elem_of_nil in Hin.
Qed.

(** ** What the guest may call *)

Section Traffic.
Context {G : Type} (ts : toolset) (max_tool_calls : option Z).
Implicit Types (c : core G) (es : list traffic).

Lemma traffic_run_app es1 es2 c : traffic_run ts max_tool_calls (es1 ++ es2) c =
  let '(c1, calls1) := traffic_run ts max_tool_calls es1 c in let '(c2, calls2) := traffic_run ts max_tool_calls es2 c1 in (c2, calls1 ++ calls2).
Proof.
  revert c. induction es1 as [|e es1 IH]; intros c; cbn [traffic_run app]; [by destruct (traffic_run _ _ es2 c)|].
  destruct (traffic_step _ _ e c) as [c1 l1]. rewrite IH. destruct (traffic_run _ _ es1 c1) as [c2 l2]. destruct (traffic_run _ _ es2 c2) as [c3 l3].
  by rewrite app_assoc.
Qed.

(** A tool named in an answer of the session's own tools. *)
Definition told (es : list traffic) (n : text) : Prop :=
  exists name v, Answered name v ∈ es /\ (name = _SEARCH \/ name = _DESCRIBE) /\ n ∈ _found v ts.(catalog_tools).*1.

Lemma told_snoc es e n : told (es ++ [e]) n <-> told es n \/ told [e] n.
Proof. unfold told. setoid_rewrite elem_of_app. naive_solver. Qed.

Lemma charge_spec c c' : charge max_tool_calls c = Some c' ->
  discovered c' = discovered c /\ calls_made c' = calls_made c + 1 /\ forall m, max_tool_calls = Some m -> calls_made c < m.
Proof.
  unfold charge. destruct max_tool_calls as [m|]; [destruct (m <=? calls_made c) eqn:E; [done|]|]; intros [= <-]; cbn; split_and!; try done.
  intros ? [= <-]. bool_prop. lia.
Qed.

Lemma found_in_catalog v cat n : n ∈ _found v cat -> n ∈ cat.
Proof.
  unfold _found. intros (x & _ & E)%list_elem_of_omap. repeat (case_match; try done). simplify_eq. by apply bool_decide_eq_true in H2.
Qed.

Lemma discovered_step e c n : n ∈ discovered (traffic_step ts max_tool_calls e c).1 <-> n ∈ discovered c \/ told [e] n.
Proof.
  assert (Ho : forall s args, ~ told [Calls s args] n) by (intros s args (? & ? & ?%list_elem_of_singleton & _); done).
  destruct e as [s args|name v]; cbn [traffic_step].
  - transitivity (n ∈ discovered c); [|naive_solver]. destruct (shim_call _ _ _ _ _) as [[[nm l] c']|] eqn:E; [|done]. cbn [fst].
    unfold shim_call in E. inv_ok. destruct x as [nm' l']. destruct (charge _ c) as [c1|] eqn:Ec; [|done]. simplify_eq.
    by apply charge_spec in Ec as [-> _].
  - cbn [fst]. unfold discover.
    assert (Ht : told [Answered name v] n <-> (name = _SEARCH \/ name = _DESCRIBE) /\ n ∈ _found v ts.(catalog_tools).*1).
    { split; [intros (? & ? & [= -> ->]%list_elem_of_singleton & ?); done|]. intros [? ?]. exists name, v. split; [by apply list_elem_of_singleton|done]. }
    rewrite Ht. repeat case_bool_decide; cbn [negb andb orb discovered]; rewrite ?elem_of_app; try tauto.
    all: split; [by left|]. all: intros [?|[? Hf]]; [done|]. all: match goal with Hn : _ = [] |- _ => apply found_in_catalog in Hf; rewrite Hn in Hf; by apply not_elem_of_nil in Hf end.
Qed.

Lemma discovered_run es c n : n ∈ discovered (traffic_run ts max_tool_calls es c).1 <-> n ∈ discovered c \/ told es n.
Proof.
  induction es as [|e es IH] using rev_ind; [cbn; split; [by left|intros [?|(? & ? & ?%not_elem_of_nil & _)]; done]|].
  rewrite traffic_run_app, told_snoc. destruct (traffic_run _ _ es c) as [c1 l1]. cbn [fst] in IH. cbn [traffic_run].
  pose proof (discovered_step e c1 n) as Hs. destruct (traffic_step _ _ e c1) as [c2 l2]. cbn [fst] in Hs |- *. rewrite Hs, IH. tauto.
Qed.

Lemma calls_step e c : calls_made (traffic_step ts max_tool_calls e c).1 = calls_made c + Z.of_nat (length (traffic_step ts max_tool_calls e c).2) /\
  forall m, max_tool_calls = Some m -> calls_made c <= m -> calls_made (traffic_step ts max_tool_calls e c).1 <= m.
Proof.
  destruct e as [s args|name v]; cbn [traffic_step].
  - destruct (shim_call _ _ _ _ _) as [[[nm l] c']|] eqn:E; cbn; [|split; [lia|done]]. unfold shim_call in E. inv_ok. destruct x as [nm' l'].
    destruct (charge _ c) as [c1|] eqn:Ec; [|done]. simplify_eq. apply charge_spec in Ec as (_ & E & Hm). split; [lia|]. intros m Em ?. specialize (Hm m Em). lia.
  - cbn. unfold discover. destruct (_ && _); cbn; split; try done; lia.
Qed.

Lemma calls_run es c : calls_made (traffic_run ts max_tool_calls es c).1 = calls_made c + Z.of_nat (length (traffic_run ts max_tool_calls es c).2) /\
  forall m, max_tool_calls = Some m -> calls_made c <= m -> calls_made (traffic_run ts max_tool_calls es c).1 <= m.
Proof.
  revert c. induction es as [|e es IH]; intros c; cbn [traffic_run]; [cbn; split; [lia|done]|].
  pose proof (calls_step e c) as Hs. destruct (traffic_step _ _ e c) as [c1 l1]. specialize (IH c1). destruct (traffic_run _ _ es c1) as [c2 l2].
  cbn [fst snd] in *. rewrite length_app. destruct Hs as [E1 H1], IH as [E2 H2]. split; [lia|eauto].
Qed.
End Traffic.

(** C7. Whatever calls and answers a session has seen, the dispatcher passes a call on exactly
    when its first argument is a name that an answer of [search_tools] or [describe_tool] has told
    the guest (such a name is in the catalog) and the budget is not spent; a call that is not
    passed on costs nothing, and no more calls are passed on than the budget allows. *)
Theorem catalog_calls_found {G} ts max_tool_calls (es : list traffic) (c : core G) args :
  discovered c = [] -> calls_made c = 0 -> (forall m, max_tool_calls = Some m -> 0 <= m) ->
  let '(c', calls) := traffic_run ts max_tool_calls es c in
  let '(c2, passed) := traffic_step ts max_tool_calls (Calls Dispatcher args) c' in
  (forall n rest, passed = [(n, rest)] <->
    args = PStr n :: rest /\ told ts es n /\ forall m, max_tool_calls = Some m -> Z.of_nat (length calls) < m) /\
  (passed = [] -> c2 = c') /\
  (forall n, told ts es n -> n ∈ ts.(catalog_tools).*1) /\
  forall m, max_tool_calls = Some m -> Z.of_nat (length calls) <= m.
Proof.
  intros Hd Hz Hmax. pose proof (calls_run ts max_tool_calls es c) as [Hcalls Hbound]. pose proof (discovered_run ts max_tool_calls es c) as Hdisc.
  destruct (traffic_run ts max_tool_calls es c) as [c' calls]. cbn [fst snd] in *. rewrite Hz in *.
  assert (Htold : forall n, told ts es n -> n ∈ ts.(catalog_tools).*1) by (intros n (? & ? & _ & _ & Hf); by eapply found_in_catalog).
  assert (Hn : forall n, n ∈ discovered c' <-> told ts es n) by (intros n; rewrite Hdisc, Hd; split; [by intros [?%not_elem_of_nil|]|by right]).
  assert (Hb : forall m, max_tool_calls = Some m -> Z.of_nat (length calls) <= m) by (intros m Em; rewrite <- (Z.add_0_l (Z.of_nat _)), <- Hcalls; by apply Hbound, Hmax).
  cbn [traffic_step]. unfold shim_call. destruct (check_catalog ts c' (default PNone (head args))) as [n0|] eqn:En.
  2: { cbn. split_and!; try done. intros n rest. split; [done|]. intros (-> & Ht & _). cbn in En.
       by rewrite !bool_decide_true in En by by (apply Htold || apply Hn). }
  assert (Ha : args = PStr n0 :: tail args /\ told ts es n0).
  { destruct args as [|[] args]; cbn in En; try done. destruct (_ && _) eqn:Eb in En; [|done]. injection En as ->. split; [done|].
    apply andb_true_iff in Eb as [_ Eb%bool_decide_eq_true]. by apply Hn. }
  destruct Ha as [Ha Ht]. cbn [mbind result_bind]. destruct (charge max_tool_calls c') as [c2|] eqn:Ec.
  - apply charge_spec in Ec as (_ & _ & Hm). split_and!; try done. intros n rest. split.
    + intros [= <- <-]. split_and!; [done|done|]. intros m Em. specialize (Hm m Em). lia.
    + intros (-> & _). by simplify_eq/=.
  - split_and!; try done. intros n rest. split; [done|]. intros (_ & _ & Hm). unfold charge in Ec. destruct max_tool_calls as [m|]; [|done].
    specialize (Hm m eq_refl). destruct (m <=? calls_made c') eqn:E; [bool_prop; lia|done].
Qed.

(** ** A session *)

#[local] Existing Instances plain_text ascii_unicode.

Definition a_tool (name description : string) : given := GSchema (STool (u name) (u description) [] None) 7.
Definition a_catalog : tools_arg :=
  ToolsSequence [a_tool "get_weather" "The weather of a city"; a_tool "search_tools" "Tools of the workshop"; a_tool "weather_map" "A map"].
Definition no_floats : spec_float -> list Z := fun _ => [].
Definition configured_tools : result exn toolset :=
  _configure no_floats [] (ToolsMapping []) (Some a_catalog) (IIndex 2) PNone (IIndex 100) (IIndex 100).
Definition the_tools : toolset := match configured_tools with Ok ts => ts | Err _ => Toolset [] [] [] None end.

Example search_weather : best lower (terms_of lower (u "Weather, map")) 10 the_tools.(catalog_tools) = [u "weather_map"; u "get_weather"].
Proof. vm_compute. reflexivity. Qed.

Lemma catalog_names_resolve_witness :
  _check_call the_tools (u "get_weather") [PDict [(PStr (u "city"), PStr (u "Bern"))]] = Ok (CallFunc 7 [PDict [(PStr (u "city"), PStr (u "Bern"))]]) /\
  _check_call the_tools (u "search_tools") [] = Ok (CallSearch []).
Proof.
  split.
  - exact (proj2 (proj2 (catalog_names_resolve no_floats [] (ToolsMapping []) (Some a_catalog) (IIndex 2) PNone (IIndex 100) (IIndex 100) the_tools
      (u "get_weather") (STool (u "get_weather") (u "The weather of a city") [] None) 7 [PDict [(PStr (u "city"), PStr (u "Bern"))]] eq_refl eq_refl))).
  - exact (proj2 (proj2 (catalog_names_resolve no_floats [] (ToolsMapping []) (Some a_catalog) (IIndex 2) PNone (IIndex 100) (IIndex 100) the_tools
      (u "search_tools") (STool (u "search_tools") (u "Tools of the workshop") [] None) 7 [] eq_refl eq_refl))).
Defined.

Definition a_session : session unit :=
  Session 5 (Core tt 1 []) (Some []) 0 0 0 false false None (Some (ToolCall _SEARCH [PStr (u "map")] 3 5)) 0.
Definition a_config : config := Config 100000 false (fun _ => false) (the_tools.(catalog_tools).*1) max_levels.

Lemma search_answer_learnt_witness : exists hits s',
  best_of lower the_tools.(catalog_tools) (terms_of lower (u "map")) 10 hits /\ _search_tool lower the_tools.(catalog_tools) (PStr (u "map")) (PInt 10) = Ok (PList (hit the_tools.(catalog_tools) <$> hits)) /\
  _answer a_config (ToolCall _SEARCH [PStr (u "map")] 3 5) (Some (PList (hit the_tools.(catalog_tools) <$> hits))) None a_session = Ok (s', inl (PList (hit the_tools.(catalog_tools) <$> hits))) /\
  discovered (AgentSession.score s') = hits.
Proof.
  apply (search_answer_learnt no_floats lower [] (ToolsMapping []) (Some a_catalog) (IIndex 2) PNone (IIndex 100) (IIndex 100) the_tools
    a_config a_session (u "map") 10 [PStr (u "map")] 3); try reflexivity; try lia. unfold a_config, room, max_levels. lia.
Defined.

(** What the guest has been told before its third call. *)
Definition told_the_map : list traffic := [Calls (Declared _SEARCH) []; Answered _SEARCH (PList (hit the_tools.(catalog_tools) <$> [u "weather_map"]))].

Lemma catalog_calls_found_witness :
  let '(c', calls) := traffic_run the_tools (Some 2) told_the_map (Core tt 0 []) in
  (traffic_step the_tools (Some 2) (Calls Dispatcher [PStr (u "weather_map")]) c').2 = [(u "weather_map", [])] /\ length calls = 1%nat.
Proof.
  pose proof (catalog_calls_found the_tools (Some 2) told_the_map (Core tt 0 []) [PStr (u "weather_map")] eq_refl eq_refl) as Hw.
  destruct (traffic_run the_tools (Some 2) told_the_map (Core tt 0 [])) as [c' calls] eqn:Er.
  destruct (traffic_step the_tools (Some 2) (Calls Dispatcher [PStr (u "weather_map")]) c') as [c2 passed].
  assert (El : calls = [(_SEARCH, [])]) by (vm_compute in Er |- *; congruence).
  destruct Hw as (Hp & _); [intros m [= <-]; lia|]. split; [|by rewrite El]. apply Hp. split_and!; [done| |intros m [= <-]; rewrite El; cbn; lia].
  exists _SEARCH, (PList (hit the_tools.(catalog_tools) <$> [u "weather_map"])). split_and!; [right; left|by left|].
  vm_compute. left.
Defined.
