(* ===== verification/CallLimit.v ===== *)
(** * The wrappers of a session's tools ([python/pydeno/_agent.py], the script of [_prelude])

    What the script does with a tool call: at most [limit] are given to the runtime at once, the
    others wait in a list and are issued as earlier ones settle, and a run does not end while one
    is in flight.  Giving a call to the runtime converts its arguments, where code of the guest can
    make further calls, and may throw; a call says what its conversion does. *)

From S2P Require Import Prelude PyVal.

(** [nested]: the calls made while it is given to the runtime; [throws]: that then throws. *)
Inductive call := Call (nested : list call) (throws : bool).

Definition _call_limit (max_inflight : pyval) : option Z :=
  match max_inflight with PInt cap => Some (Z.max 1 (cap - 1)) | _ => None end.

(** [queue]: the list from [head] to [tail]; [inflight]: the set of promises, by the call's
    number.  Numbers are given in the order of the calls; [running]: calls given to the runtime
    whose promise is not settled; [issued]: all that were given to it, in order. *)
Record limiter := Limiter {
  active : Z; queue : list (nat * call); inflight : list nat; next : nat; running : list nat; issued : list nat
}.
Definition fresh : limiter := Limiter 0 [] [] 0 [] [].

Definition set_active (n : Z) (s : limiter) : limiter := Limiter n s.(queue) s.(inflight) s.(next) s.(running) s.(issued).
Definition set_queue (q : list (nat * call)) (s : limiter) : limiter := Limiter s.(active) q s.(inflight) s.(next) s.(running) s.(issued).
Definition set_inflight (l : list nat) (s : limiter) : limiter := Limiter s.(active) s.(queue) l s.(next) s.(running) s.(issued).
Definition set_running (l : list nat) (s : limiter) : limiter := Limiter s.(active) s.(queue) s.(inflight) s.(next) l s.(issued).
Definition number (s : limiter) : nat * limiter := (s.(next), Limiter s.(active) s.(queue) s.(inflight) (S s.(next)) s.(running) s.(issued)).
Definition log_issued (id : nat) (s : limiter) : limiter := Limiter s.(active) s.(queue) s.(inflight) s.(next) s.(running) (s.(issued) ++ [id]).

Section Limiter.
Context (limit : option Z).

Definition below (n : Z) : bool := match limit with Some m => n <? m | None => true end.

(** [issue], a wrapper, the wrappers called during a conversion, [release]; [None]: out of fuel.
    [issue] says whether it threw. *)
Fixpoint issue (fuel : nat) (id : nat) (c : call) (s : limiter) : option (bool * limiter) :=
  match fuel with
  | O => None
  | S fuel =>
      let '(Call nested throws) := c in
      s ← tracks fuel nested (log_issued id (set_active (s.(active) + 1) s));
      if throws then s ← release fuel s; Some (true, s)
      else Some (false, set_running (s.(running) ++ [id]) s)
  end
with track (fuel : nat) (c : call) (s : limiter) : option limiter :=
  match fuel with
  | O => None
  | S fuel =>
      let '(id, s) := number s in
      if below s.(active) then
        '(threw, s) ← issue fuel id c s;
        Some (if threw : bool then s else set_inflight (s.(inflight) ++ [id]) s)
      else
        Some (set_inflight (s.(inflight) ++ [id]) (set_queue (s.(queue) ++ [(id, c)]) s))
  end
with tracks (fuel : nat) (cs : list call) (s : limiter) : option limiter :=
  match fuel with
  | O => None
  | S fuel => match cs with [] => Some s | c :: cs => s ← track fuel c s; tracks fuel cs s end
  end
with release (fuel : nat) (s : limiter) : option limiter :=
  match fuel with
  | O => None
  | S fuel =>
      let s := set_active (s.(active) - 1) s in
      match s.(queue) with
      | (id, c) :: q => if below s.(active) then '(_, s) ← issue fuel id c (set_queue q s); Some s else Some s
      | [] => Some s
      end
  end.

(** Fuel: what the waiting calls can still do. *)
Fixpoint weight (c : call) : nat := let '(Call nested _) := c in 4 + sum_list (S ∘ weight <$> nested).
Definition queued (s : limiter) : nat := sum_list (weight ∘ snd <$> s.(queue)).

(** The guest calls a tool; the promise of a call given to the runtime settles; the promise the
    guest has of a call settles, and [done] runs. *)
Inductive event := Called (c : call) | Settled (id : nat) | Done (id : nat).

Definition limiter_step (e : event) (s : limiter) : option limiter :=
  match e with
  | Called c => track (2 + weight c + queued s) c s
  | Settled id =>
      if bool_decide (id ∈ s.(running)) then
        release (2 + queued s) (set_running (List.filter (fun i => negb (i =? id)%nat) s.(running)) s)
      else Some s
  | Done id =>
      if bool_decide (id ∈ s.(running)) || bool_decide (id ∈ s.(queue).*1) then Some s
      else Some (set_inflight (List.filter (fun i => negb (i =? id)%nat) s.(inflight)) s)
  end.

Fixpoint limiter_run (es : list event) (s : limiter) : option limiter :=
  match es with [] => Some s | e :: es => s ← limiter_step e s; limiter_run es s end.

(** [while (size(inflight))]: the settle step of a run goes on. *)
Definition settling (s : limiter) : bool := negb (bool_decide (s.(inflight) = [])).
End Limiter.

(** ** Enough fuel *)

Section Fuel.
Context (limit : option Z).

Definition fuel_ok (fuel : nat) : Prop :=
  (forall id c s, weight c + queued s <= fuel -> exists t s', issue limit fuel id c s = Some (t, s') /\ queued s' + 4 <= queued s + weight c)%nat /\
  (forall c s, 1 + weight c + queued s <= fuel -> exists s', track limit fuel c s = Some s' /\ queued s' <= queued s + weight c)%nat /\
  (forall cs s, 1 + sum_list (S ∘ weight <$> cs) + queued s <= fuel ->
    exists s', tracks limit fuel cs s = Some s' /\ queued s' <= queued s + sum_list (S ∘ weight <$> cs))%nat /\
  (forall s, 1 + queued s <= fuel -> exists s', release limit fuel s = Some s' /\ queued s' <= queued s)%nat.

Lemma enough_fuel fuel : fuel_ok fuel.
Proof.
  induction fuel as [|fuel (Hi & Ht & Hts & Hr)].
  { split_and!; intros; try lia. destruct c as [nested throws]. cbn in *. lia. }
  split_and!.
  - intros id [nested throws] s Hf. cbn [weight issue] in *.
    destruct (Hts nested (log_issued id (set_active (active s + 1) s))) as (s1 & -> & H1); [unfold queued in *; cbn in *; lia|].
    change (queued (log_issued _ _)) with (queued s) in H1. cbn [mbind option_bind].
    destruct throws; [|by eexists _, _; split; [reflexivity|unfold queued in *; cbn in *; lia]].
    destruct (Hr s1) as (s2 & -> & H2); [lia|]. eexists _, _. split; [reflexivity|lia].
  - intros c s Hf. cbn [track number]. destruct (below _ _).
    + destruct (Hi (next s) c (number s).2) as (t & s1 & E & H1); [change (queued (number s).2) with (queued s); lia|].
      change (queued (number s).2) with (queued s) in H1. cbn [number snd] in E. rewrite E. eexists. split; [reflexivity|]. destruct t; unfold queued in *; cbn in *; lia.
    + eexists. split; [reflexivity|]. unfold queued. cbn. rewrite fmap_app, sum_list_with_app. cbn. lia.
  - intros [|c cs] s Hf; cbn [tracks]; [eexists; split; [reflexivity|lia]|]. cbn in Hf. destruct (Ht c s) as (s1 & -> & H1); [lia|]. cbn [mbind option_bind].
    destruct (Hts cs s1) as (s2 & -> & H2); [lia|]. eexists. split; [reflexivity|]. cbn. lia.
  - intros s Hf. cbn [release]. destruct (queue (set_active _ s)) as [|[id c] q] eqn:Eq; cbn in Eq; [eexists; split; [reflexivity|done]|].
    destruct (below _ _); [|eexists; split; [reflexivity|done]].
    assert (E : queued s = (weight c + queued (set_queue q (set_active (active s - 1) s)))%nat) by (unfold queued; cbn; by rewrite Eq).
    destruct (Hi id c (set_queue q (set_active (active s - 1) s))) as (t & s1 & -> & H1); [lia|]. eexists. split; [reflexivity|lia].
Qed.
End Fuel.

(** ** The invariant *)

Section Inv.
Context (limit : option Z).
Implicit Types (s : limiter) (P Q : list nat).

Definition ids s : list nat := s.(queue).*1.

(** [P]: the calls being given to the runtime; [Q]: those not in [inflight] yet. *)
Record limited P Q s : Prop := {
  l_active : s.(active) = Z.of_nat (length P + length s.(running));
  l_within : forall m, limit = Some m -> s.(active) <= m;
  l_full : s.(queue) <> [] -> below limit s.(active) = false;
  l_order : s.(issued) ++ ids s = seq 0 s.(next);
  l_nodup : NoDup (s.(running) ++ P);
  l_issued : forall id, id ∈ s.(running) ++ P -> id ∈ s.(issued);
  l_inflight : forall id, id ∈ s.(running) \/ id ∈ ids s -> id ∈ s.(inflight) \/ id ∈ Q }.

(** Before [issue]: the call is the next in order, and there is room. *)
Record issuing id P Q s : Prop := {
  i_active : s.(active) = Z.of_nat (length P + length s.(running));
  i_room : below limit s.(active) = true;
  i_full : s.(queue) <> [] -> below limit (s.(active) + 1) = false;
  i_order : s.(issued) ++ id :: ids s = seq 0 s.(next);
  i_nodup : NoDup (s.(running) ++ P);
  i_issued : forall i, i ∈ s.(running) ++ P -> i ∈ s.(issued);
  i_inflight : forall i, i ∈ s.(running) \/ i ∈ ids s -> i ∈ s.(inflight) \/ i ∈ Q }.

Lemma below_true n : below limit n = true <-> forall m, limit = Some m -> n < m.
Proof. unfold below. destruct limit as [m|]; [rewrite Z.ltb_lt; naive_solver|naive_solver]. Qed.

Lemma full_limit P Q s : limited P Q s -> s.(queue) <> [] -> limit = Some s.(active).
Proof.
  intros Hs Hq. pose proof (l_full _ _ _ Hs Hq) as Hf. pose proof (l_within _ _ _ Hs) as Hw. unfold below in Hf.
  destruct limit as [m|]; [|done]. specialize (Hw m eq_refl). bool_prop. f_equal. lia.
Qed.

Lemma issuing_starts id P Q s : issuing id P Q s -> limited (id :: P) Q (log_issued id (set_active (s.(active) + 1) s)).
Proof.
  intros [Ha Hr Hf Ho Hd Hi Hin]. pose proof (NoDup_seq 0 s.(next)) as Hn. rewrite <- Ho in Hn. apply NoDup_app in Hn as (Hn1 & Hn2 & _).
  constructor; cbn -[seq]; try done.
  - rewrite Ha. lia.
  - rewrite below_true in Hr. intros m Em. specialize (Hr m Em). lia.
  - rewrite <- Ho. unfold ids. cbn. by rewrite <- app_assoc.
  - rewrite Permutation_app_comm. cbn. rewrite Permutation_app_comm. apply NoDup_cons. split; [|done].
    intros Hx%Hi. apply (Hn2 id Hx). left.
  - intros i. rewrite !elem_of_app, elem_of_cons, list_elem_of_singleton. specialize (Hi i). rewrite elem_of_app in Hi. tauto.
Qed.

Lemma issuing_runs id P Q s : limited (id :: P) Q s -> limited P (id :: Q) (set_running (s.(running) ++ [id]) s).
Proof.
  intros [Ha Hw Hf Ho Hd Hi Hin]. constructor; cbn -[seq]; try done.
  - rewrite Ha, length_app. cbn. lia.
  - by rewrite <- app_assoc.
  - intros i Hx. apply Hi. by rewrite <- app_assoc in Hx.
  - intros i. rewrite elem_of_app, list_elem_of_singleton, elem_of_cons. specialize (Hin i). unfold ids in *. cbn. tauto.
Qed.

Definition kept s s' : Prop := forall i, i ∈ s.(inflight) -> i ∈ s'.(inflight).

Definition keeps_limit (fuel : nat) : Prop :=
  (forall id c s P Q t s', issuing id P Q s -> issue limit fuel id c s = Some (t, s') -> limited P (if t : bool then Q else id :: Q) s' /\ kept s s') /\
  (forall c s P Q s', limited P Q s -> track limit fuel c s = Some s' -> limited P Q s' /\ kept s s') /\
  (forall cs s P Q s', limited P Q s -> tracks limit fuel cs s = Some s' -> limited P Q s' /\ kept s s') /\
  (forall s id P Q s', limited (id :: P) Q s -> release limit fuel s = Some s' -> limited P Q s' /\ kept s s').

Lemma track_direct s P Q : limited P Q s -> below limit s.(active) = true -> issuing s.(next) P Q (number s).2.
Proof.
  intros Hs Hb. assert (Hq : queue s = []) by (destruct (queue s) eqn:E; [done|]; pose proof (l_full _ _ _ Hs) as Hf; rewrite E in Hf; rewrite Hf in Hb; done).
  destruct Hs as [Ha Hw Hf Ho Hd Hi Hin]. constructor; cbn -[seq]; try done.
  rewrite seq_S, <- Ho. unfold ids. cbn. rewrite Hq. cbn. by rewrite app_nil_r.
Qed.

Lemma track_waits (c : call) s P Q : limited P Q s -> below limit s.(active) = false ->
  limited P Q (set_inflight (s.(inflight) ++ [s.(next)]) (set_queue (s.(queue) ++ [(s.(next), c)]) (number s).2)).
Proof.
  intros [Ha Hw Hf Ho Hd Hi Hin] Hb. constructor; cbn -[seq]; try done.
  - rewrite seq_S, <- Ho. unfold ids. cbn. by rewrite fmap_app, <- app_assoc.
  - intros i. unfold ids in *. cbn. rewrite fmap_app, !elem_of_app. cbn. rewrite !list_elem_of_singleton. specialize (Hin i). tauto.
Qed.

Lemma known_inflight id P Q s : limited P (id :: Q) s -> id ∈ s.(inflight) \/ id ∈ Q -> limited P Q s.
Proof.
  intros [Ha Hw Hf Ho Hd Hi Hin] Hx. constructor; try done. intros i Hr. destruct (Hin i Hr) as [?|[->|?]%elem_of_cons]; tauto.
Qed.

Lemma adds_inflight id P Q s : limited P (id :: Q) s -> limited P Q (set_inflight (s.(inflight) ++ [id]) s).
Proof.
  intros [Ha Hw Hf Ho Hd Hi Hin]. constructor; cbn -[seq]; try done. intros i Hr. rewrite elem_of_app, list_elem_of_singleton.
  destruct (Hin i Hr) as [?|[->|?]%elem_of_cons]; tauto.
Qed.

Lemma release_head id P Q s i c q : limited (id :: P) Q s -> s.(queue) = (i, c) :: q ->
  below limit (s.(active) - 1) = true /\ issuing i P Q (set_queue q (set_active (s.(active) - 1) s)) /\ (i ∈ s.(inflight) \/ i ∈ Q).
Proof.
  intros Hs Hq. assert (Hl : limit = Some s.(active)) by (eapply full_limit; [done|by rewrite Hq]).
  assert (Hb : below limit (s.(active) - 1) = true) by (apply below_true; intros m Em; rewrite Hl in Em; injection Em as <-; lia).
  destruct Hs as [Ha Hw Hf Ho Hd Hi Hin]. split; [done|]. split.
  - constructor; cbn -[seq]; try done.
    + rewrite Ha. cbn. lia.
    + intros _. rewrite Z.sub_add. apply Hf. by rewrite Hq.
    + rewrite <- Ho. unfold ids. by rewrite Hq.
    + rewrite Permutation_app_comm in Hd. cbn in Hd. rewrite Permutation_app_comm in Hd. by apply NoDup_cons in Hd as [_ ?].
    + intros j Hj. apply Hi. rewrite !elem_of_app in *. rewrite elem_of_cons. tauto.
    + intros j Hj. apply Hin. unfold ids in *. cbn in *. rewrite Hq. cbn. rewrite elem_of_cons. tauto.
  - apply Hin. right. unfold ids. rewrite Hq. left.
Qed.

Lemma release_none id P Q s : limited (id :: P) Q s -> s.(queue) = [] -> limited P Q (set_active (s.(active) - 1) s).
Proof.
  intros [Ha Hw Hf Ho Hd Hi Hin] Hq. constructor; cbn -[seq]; try done.
  - rewrite Ha. cbn. lia.
  - intros m Em. specialize (Hw m Em). lia.
  - rewrite Permutation_app_comm in Hd. cbn in Hd. rewrite Permutation_app_comm in Hd. by apply NoDup_cons in Hd as [_ ?].
  - intros j Hj. apply Hi. rewrite !elem_of_app in *. rewrite elem_of_cons. tauto.
Qed.

Lemma limit_kept fuel : keeps_limit fuel.
Proof.
  induction fuel as [|fuel (Hi & Ht & Hts & Hr)]; [by split_and!|]. split_and!.
  - intros id [nested throws] s P Q t s' Hs E. cbn [issue] in E. apply bind_Some in E as (s1 & E1 & E).
    destruct (Hts nested _ _ _ _ (issuing_starts _ _ _ _ Hs) E1) as [H1 K1]. destruct throws.
    + apply bind_Some in E as (s2 & E2 & [= <- <-]). destruct (Hr _ _ _ _ _ H1 E2) as [H2 K2]. split; [done|]. intros i Hx. by apply K2, K1.
    + injection E as <- <-. split; [by apply issuing_runs|exact K1].
  - intros c s P Q s' Hs E. cbn [track] in E. destruct (number s) as [id s1] eqn:En. pose proof (f_equal snd En) as E1. pose proof (f_equal fst En) as Eid. cbn in E1, Eid.
    destruct (below limit (active s1)) eqn:Hb; subst s1 id; cbn [active] in Hb.
    + apply bind_Some in E as ([t s2] & E2 & [= <-]). destruct (Hi _ _ _ _ _ _ _ (track_direct s P Q Hs Hb) E2) as [H2 K2].
      destruct t; [done|]. split; [by apply adds_inflight|]. intros i Hx. cbn. apply elem_of_app. left. by apply K2.
    + injection E as <-. split; [by apply track_waits|].
      intros i Hx. cbn. apply elem_of_app. by left.
  - intros [|c cs] s P Q s' Hs E; cbn [tracks] in E; [injection E as <-; split; [done|by intros i]|]. apply bind_Some in E as (s1 & E1 & E).
    destruct (Ht _ _ _ _ _ Hs E1) as [H1 K1], (Hts _ _ _ _ _ H1 E) as [H2 K2]. split; [done|]. intros i Hx. by apply K2, K1.
  - intros s id P Q s' Hs E. cbn [release] in E. destruct (queue (set_active _ s)) as [|[i c] q] eqn:Eq; cbn in Eq.
    + injection E as <-. split; [by eapply release_none|by intros i].
    + destruct (release_head _ _ _ _ _ _ _ Hs Eq) as (Hb & H1 & Hk). cbn [active set_active] in E. rewrite Hb in E.
      apply bind_Some in E as ([t s1] & E1 & [= <-]). destruct (Hi _ _ _ _ _ _ _ H1 E1) as [H2 K2]. split; [|exact K2].
      destruct t; [done|]. apply (known_inflight _ _ _ _ H2). destruct Hk as [Hk|]; [left; by apply K2|by right].
Qed.

Lemma step_limited e s s' : limited [] [] s -> limiter_step limit e s = Some s' -> limited [] [] s'.
Proof.
  intros Hs E. destruct e as [c|id|id]; cbn [limiter_step] in E.
  - by apply (proj1 (proj2 (limit_kept _)) _ _ _ _ _ Hs) in E as [? _].
  - case_bool_decide as Hin; [|by simplify_eq]. apply (proj2 (proj2 (proj2 (limit_kept _))) _ id [] []) in E as [? _]; [done|].
    destruct Hs as [Ha Hw Hf Ho Hd Hi Hinf]. rewrite app_nil_r in Hd. rewrite app_nil_r in Hi.
    assert (Hp : running s ≡ₚ id :: List.filter (fun i => negb (i =? id)%nat) (running s)).
    { clear -Hin Hd. induction (running s) as [|i l IH]; [by apply not_elem_of_nil in Hin|]. apply NoDup_cons in Hd as [Hi Hd]. cbn.
      destruct (i =? id)%nat eqn:E; cbn.
      - apply Nat.eqb_eq in E as ->. f_equiv. clear -Hi.
        induction l as [|j l IH]; [done|]. cbn. rewrite not_elem_of_cons in Hi. destruct Hi as [Hn Hi]. rewrite (proj2 (Nat.eqb_neq j id)) by done. cbn. f_equiv. by apply IH.
      - apply elem_of_cons in Hin as [->|Hin]; [by rewrite Nat.eqb_refl in E|]. rewrite (IH Hd Hin) at 1. apply Permutation_swap. }
    constructor; cbn -[seq]; try done.
    + rewrite Ha, Hp at 1. cbn. lia.
    + rewrite Permutation_app_comm. cbn. by rewrite <- Hp.
    + intros i. rewrite Permutation_app_comm. cbn. rewrite <- Hp. apply Hi.
    + intros i [Hr|Hr]; apply Hinf; [left|by right]. rewrite Hp. by right.
  - destruct (_ || _) eqn:Eb in E; injection E as <-; [done|]. apply orb_false_iff in Eb as [Er%bool_decide_eq_false Eq%bool_decide_eq_false].
    destruct Hs as [Ha Hw Hf Ho Hd Hi Hinf]. constructor; cbn -[seq]; try done. intros i Hr. destruct (Hinf i Hr) as [Hx|?]; [left|by right].
    apply list_elem_of_In, filter_In. split; [by apply list_elem_of_In|]. apply negb_true_iff, Nat.eqb_neq. intros ->. unfold ids in Hr. cbn in Hr. tauto.
Qed.

Lemma step_runs e s : exists s', limiter_step limit e s = Some s'.
Proof.
  destruct e as [c|id|id]; cbn [limiter_step].
  - destruct (proj1 (proj2 (enough_fuel limit (2 + weight c + queued s))) c s) as (s' & -> & _); [lia|by exists s'].
  - case_bool_decide; [|by exists s]. match goal with |- context [release limit ?f ?s0] => destruct (proj2 (proj2 (proj2 (enough_fuel limit f))) s0) as (s' & -> & _) end;
      [unfold queued; cbn; lia|by exists s'].
  - destruct (_ || _); eauto.
Qed.

Lemma run_limited es s : limited [] [] s -> exists s', limiter_run limit es s = Some s' /\ limited [] [] s'.
Proof.
  revert s. induction es as [|e es IH]; intros s Hs; cbn [limiter_run]; [by exists s|]. destruct (step_runs e s) as (s1 & E). rewrite E. cbn.
  by apply IH, (step_limited e s).
Qed.

Lemma fresh_limited : (forall m, limit = Some m -> 0 <= m) -> limited [] [] fresh.
Proof. intros Hm. constructor; cbn; try done; try apply NoDup_nil_2; intros i; by rewrite ?elem_of_nil. Qed.
End Inv.

Lemma call_limit_pos cap m : _call_limit cap = Some m -> 1 <= m.
Proof. destruct cap; try done. intros [= <-]. lia. Qed.

(** C24. Whatever the guest calls (from the conversion of another call's arguments too), whichever
    of them throw and in whatever order they settle: the wrappers never give the runtime more
    than the limit, which is one below its own; calls reach it in the order they were made, none
    twice and none left out; a call waits only while the limit is used up by calls that will
    settle; and once nothing is in flight every call made was given to the runtime and settled. *)
Theorem calls_limited_in_order cap es : exists s, limiter_run (_call_limit cap) es fresh = Some s /\
  s.(active) = Z.of_nat (length s.(running)) /\
  (forall n, cap = PInt n -> s.(active) <= Z.max 1 (n - 1)) /\
  s.(issued) ++ s.(queue).*1 = seq 0 s.(next) /\
  (s.(queue) <> [] -> _call_limit cap = Some (Z.of_nat (length s.(running))) /\ s.(running) <> []) /\
  (settling s = false -> s.(issued) = seq 0 s.(next) /\ s.(running) = []).
Proof.
  destruct (run_limited (_call_limit cap) es fresh) as (s & E & Hs).
  { apply fresh_limited. intros m Em%call_limit_pos. lia. }
  exists s. split; [done|]. pose proof (full_limit _ _ _ _ Hs) as Hfull. destruct Hs as [Ha Hw Hf Ho Hd Hi Hin]. cbn in Ha. split_and!; try done.
  - intros n ->. by apply Hw.
  - intros Hq%Hfull. rewrite <- Ha. split; [done|]. intros Hr. apply call_limit_pos in Hq. rewrite Ha, Hr in Hq. cbn in Hq. lia.
  - unfold settling. intros Hset%negb_false_iff%bool_decide_eq_true. rewrite Hset in Hin.
    assert (Hq : ids s = []) by (destruct (ids s) as [|i l] eqn:El; [done|]; destruct (Hin i) as [H|H]; [right; left|by apply not_elem_of_nil in H..]).
    rewrite Hq, app_nil_r in Ho. split; [done|]. destruct (running s) as [|i l]; [done|]. destruct (Hin i) as [H|H]; [left; left|by apply not_elem_of_nil in H..].
Qed.

(** Two at once: the call made while the first is converted is counted before the third, which
    waits; a throwing call frees its place for the next. *)
Example limiter_demo :
  limiter_run (_call_limit (PInt 3)) [Called (Call [Call [] false] false); Called (Call [] true); Called (Call [] false); Settled 0] fresh
    = Some (Limiter 2 [] [1; 0; 2; 3]%nat 4 [1; 3]%nat [0; 1; 2; 3]%nat).
Proof. reflexivity. Qed.
