(* ===== verification/Prompt.v ===== *)
(** * The prompt and the declarations of a session's tools ([python/pydeno/_agent.py])

    [ts_type], [_spec] and [_placeholder] for tools that are Python callables, the example of a
    schema tool, [describe_tools], [typescript_stubs] and [describe_tool_catalog].  What [inspect]
    says of a callable is a parameter; an annotation is what [ts_type] tells apart. *)

From S2P Require Import Prelude Utf8 PyVal PyStr Preflight Limits ToolBridge Results Feed Front Schema Catalog.
From Stdlib Require Import Floats.SpecFloat.

#[local] Abbreviation text := (list Z).

(** ** Annotations *)

Inductive literal := LNone | LBool (b : bool) | LInt (z : Z) | LFloat (f : spec_float) | LStr (s : text) | LOther.

(** A generic one has its arguments; [AList None] is the bare class.  [AEmpty]: no annotation or
    [Any]; [AOther]: whatever cannot be expressed. *)
Inductive ann :=
| AEmpty | ANull | ABool | ANumber | AStr | ABytes | ADatetime | AUndefined
| AAnnotated (a : ann)
| AUnion (l : list ann)
| ALiteral (l : list literal)
| ATuple (l : list ann)
| ATupleVar (a : ann)
| ATupleEmpty
| AList (a : option ann)
| ASet (a : option ann)
| AMap (kv : option (ann * ann))
| AOther.

Definition _array (element : text) : text := if contains (u " | ") element then u "(" ++ element ++ u ")[]" else element ++ u "[]".

Section Prompt.
Context `{Unicode} `{WordChars} (json_float : spec_float -> list Z).

Definition literal_text (l : literal) : option text :=
  match l with
  | LNone => Some (u "null")
  | LBool b => Some (dumps json_float true false (JBool b))
  | LInt z => Some (dumps json_float true false (JInt z))
  | LFloat f => Some (dumps json_float true false (JFloat f))
  | LStr s => Some (dumps json_float true false (JStr s))
  | LOther => None
  end.

Fixpoint ts_type (a : ann) : text :=
  match a with
  | AEmpty | AOther => u "unknown"
  | ANull => u "null" | ABool => u "boolean" | ANumber => u "number" | AStr => u "string" | ABytes => u "Uint8Array"
  | ADatetime => u "Date" | AUndefined => u "undefined"
  | AAnnotated a => ts_type a
  | AUnion l => _union (ts_type <$> l)
  | ALiteral l => match mapM literal_text l with Some ts => _union ts | None => u "unknown" end
  | ATuple [] => u "unknown[]"
  | ATuple l => u "[" ++ join_with (u ", ") (ts_type <$> l) ++ u "]"
  | ATupleVar a => _array (ts_type a)
  | ATupleEmpty => u "[]"
  | AList None => u "unknown[]"
  | AList (Some a) => _array (ts_type a)
  | ASet None => u "Set<unknown>"
  | ASet (Some a) => u "Set<" ++ ts_type a ++ u ">"
  | AMap None => u "Record<string, unknown>"
  | AMap (Some (k, v)) => match k with AStr | AEmpty => u "Record<string, " ++ ts_type v ++ u ">" | _ => u "unknown" end
  end.

(** ** A callable *)

Inductive param_kind := Positional | VarPositional | KeywordOnly | VarKeyword.

(** What [inspect] says of a callable: its docstring, and its parameters and result if it has a
    signature; an annotation that stays a string counts as none. *)
Record inspected := Inspected { i_doc : text; i_signature : option (list (param_kind * text * ann * bool) * ann) }.

Record _Param := Param { p_name : text; p_ts : text; p_optional : bool; p_rest : bool }.
Record _ToolSpec := Spec { s_name : text; s_params : list _Param; s_returns : text; s_doc : text; required_keyword_only : list text }.

Definition _js_param_name (name : text) : text := if one_of _JS_RESERVED name then name ++ u "_" else name.

Definition spec_param (p : param_kind * text * ann * bool) : option _Param :=
  let '(kind, name, a, has_default) := p in
  match kind with
  | Positional => Some (Param (_js_param_name name) (ts_type a) has_default false)
  | VarPositional => Some (Param (_js_param_name name) (ts_type a) true true)
  | _ => None
  end.
Definition spec_keyword (p : param_kind * text * ann * bool) : option text :=
  match p with (KeywordOnly, name, _, false) => Some name | _ => None end.

Definition _spec (name : text) (f : inspected) : _ToolSpec :=
  match f.(i_signature) with
  | None => Spec name [Param (u "args") (u "unknown") false true] (u "unknown") f.(i_doc) []
  | Some (ps, returns) => Spec name (omap spec_param ps) (ts_type returns) f.(i_doc) (omap spec_keyword ps)
  end.

Definition rendered (p : _Param) : text :=
  if p.(p_rest) then u "..." ++ p.(p_name) ++ u ": " ++ _array p.(p_ts)
  else p.(p_name) ++ (if p.(p_optional) then u "?" else []) ++ u ": " ++ p.(p_ts).
Definition signature (s : _ToolSpec) : text :=
  s.(s_name) ++ u "(" ++ join_with (u ", ") (rendered <$> s.(s_params)) ++ u "): Promise<" ++ s.(s_returns) ++ u ">".

(** [ts.split(" | ")[0]] *)
Fixpoint before (sep s : text) : text :=
  if starts_with sep s then [] else match s with [] => [] | c :: s => c :: before sep s end.
Definition ends_with (suffix s : text) : bool := starts_with (rev suffix) (rev s).
(** [re.fullmatch(r"-?[\d.]+", s)] *)
Definition number_literal (s : text) : bool :=
  let digits := match s with c :: s' => if c =? chr "-" then s' else s | [] => [] end in
  negb (bool_decide (digits = [])) && forallb (fun c => re_digit c || (c =? chr ".")) digits.

Definition _placeholder (ts name : text) : text :=
  if ends_with (u "[]") ts || starts_with (u "[") ts then u "[]"
  else
    let first := before (u " | ") ts in
    if starts_with [34] first || one_of ["true"; "false"]%string first || number_literal first then first
    else if ends_with (u "[]") first then u "[]"
    else if bool_decide (first = u "string") then dumps_str true name
    else if bool_decide (first = u "number") then u "1"
    else if bool_decide (first = u "boolean") then u "true"
    else if bool_decide (first = u "Uint8Array") then u "new Uint8Array([1, 2, 3])"
    else if bool_decide (first = u "Date") then u "new Date()"
    else if one_of ["null"; "undefined"]%string first then first
    else if starts_with (u "Record<") first then u "{}"
    else if starts_with (u "Set<") first then u "new Set()"
    else u "null".

Definition example_args (s : _ToolSpec) : list text :=
  (fun p => _placeholder p.(p_ts) p.(p_name)) <$> List.filter (fun p => negb p.(p_optional) && negb p.(p_rest)) s.(s_params).
Definition example (s : _ToolSpec) (prefix : text) : text :=
  u "const result = await " ++ prefix ++ s.(s_name) ++ u "(" ++ join_with (u ", ") (example_args s) ++ u ");".

(** ** A schema tool's example *)

(** [JNull] stands for an absent property too. *)
Definition by_kind (kind : json) (name : text) : result exn text :=
  match kind with
  | JArr _ | JObj _ => Err (TypeError "unhashable type")
  | JStr k =>
      Ok (if bool_decide (k = u "string") then dumps_str true name
          else if one_of ["integer"; "number"]%string k then u "1"
          else if bool_decide (k = u "boolean") then u "true"
          else if bool_decide (k = u "array") then u "[]"
          else if bool_decide (k = u "object") then u "{}"
          else u "null")
  | _ => Ok (u "null")
  end.

Definition _schema_placeholder (schema : json) (name : text) : result exn text :=
  match schema with
  | JObj s =>
      match assoc (u "const") s with
      | Some c => Ok (dumps json_float true false c)
      | None =>
          match get s "enum" with
          | JArr (v :: _) => Ok (dumps json_float true false v)
          | _ =>
              by_kind (match get s "type" with
                       | JArr l => default (JStr (u "null")) (List.find (fun k => negb (is_str k "null")) l)
                       | k => k
                       end) name
          end
      end
  | _ => Ok (u "null")
  end.

(** [re.fullmatch(r"[A-Za-z_$][\w$]*", key)] *)
Definition js_key (key : text) : bool :=
  match key with [] => false | c :: s => ts_first c && forallb (fun c => re_word c || (c =? chr "$")) s end.

Fixpoint schema_fields (props : list (text * json)) (required : list json) : result exn (list text) :=
  match required with
  | [] => Ok []
  | JStr key :: required =>
      if js_key key then
        v ← _schema_placeholder (default JNull (assoc key props)) key;
        fields ← schema_fields props required;
        Ok ((key ++ u ": " ++ v) :: fields)
      else schema_fields props required
  | _ :: required => schema_fields props required
  end.

Definition _schema_example (tool : SchemaTool) (prefix : text) : result exn text :=
  fields ← match get tool.(st_input) "properties", get tool.(st_input) "required" with
           | JObj props, JArr required => schema_fields props required
           | _, _ => Ok []
           end;
  Ok (u "const result = await " ++ prefix ++ tool.(st_name) ++ u "("
      ++ (match fields with [] => u "{}" | _ => u "{ " ++ join_with (u ", ") fields ++ u " }" end) ++ u ");").

(** ** The block for a prompt *)

Context (inspect : Z -> inspected) (preamble : bool -> text).

Definition schema_tools (es : entries) : list SchemaTool := omap (fun e => match e.2 with ESchema t _ => Some t | _ => None end) es.

(** What the session's own two tools show of themselves. *)
Context (search_tool describe_tool : inspected).
Definition inspect_entry (e : entry) : inspected :=
  match e with EFunc f _ _ => inspect f | ESearch => search_tool | EDescribe => describe_tool | ESchema _ _ => Inspected [] None end.

Definition doc_lines (doc : text) : list text := (fun l => rstrip_space (u "    " ++ l)) <$> splitlines doc.

Definition tool_lines (functions : list (text * (list text * text))) (prefix : text) (e : text * entry) : result exn (list text) :=
  '(sig, doc, example) ←
    match e.2 with
    | ESchema t _ =>
        ex ← _schema_example t prefix;
        Ok ((default ([], []) (assoc e.1 functions)).2, t.(st_description), ex)
    | f => let spec := _spec e.1 (inspect_entry f) in Ok (signature spec, spec.(s_doc), example spec prefix)
    end;
  Ok ([prefix ++ sig] ++ doc_lines doc ++ [u "    Example: " ++ example; []]).

Definition prefix_of (namespace : option text) : text := match namespace with Some (c :: ns) => c :: ns ++ u "." | _ => [] end.
Definition where_of (namespace : option text) : text :=
  match namespace with Some (c :: ns) => u "on the `" ++ c :: ns ++ u "` object" | _ => u "as global functions" end.

(** [script]: the mode; both of them have a preamble. *)
Definition describe_entries (es : entries) (namespace : option text) (script : bool) : result exn text :=
  '(decls, functions) ← schema_declarations json_float (schema_tools es) false [];
  ls ← map_result (tool_lines functions (prefix_of namespace)) es;
  let lines := [preamble script; u "These tools are available " ++ where_of namespace ++ u "; each returns a Promise."; []]
    ++ (match decls with [] => [] | _ => [u "Types used by the tools below:"] ++ decls ++ [[]] end) ++ concat ls in
  Ok (rstrip 10 (join_with [10] lines) ++ [10]).

Definition describe_tools (tools : tools_arg) (namespace : option text) (mode : text) : result exn text :=
  es ← _normalize_tools json_float tools;
  _ ← raise_if (negb (one_of ["function"; "script"]%string mode)) (ValueError "mode must be one of 'function', 'script'");
  describe_entries es namespace (bool_decide (mode = u "script")).

(** ** Declarations *)

Definition _jsdoc (doc indent : text) : list text :=
  match doc with
  | [] => []
  | _ => [indent ++ u "/**"] ++ ((fun line => rstrip_space (indent ++ u " * " ++ line)) <$> splitlines (escape_close doc)) ++ [indent ++ u " */"]
  end.

Definition stub_lines (functions : list (text * (list text * text))) (indent keyword : text) (e : text * entry) : list text :=
  let '(doc, sig) :=
    match e.2 with
    | ESchema _ _ => default ([], []) (assoc e.1 functions)
    | f => let spec := _spec e.1 (inspect_entry f) in (_jsdoc spec.(s_doc) indent, signature spec)
    end in
  doc ++ [indent ++ keyword ++ u " " ++ sig ++ u ";"].

Definition stub_header : list text := [u "// Tools provided by the host. Every call returns a Promise."; []].

Definition stub_body (es : entries) (namespace : option text) : result exn (list text) :=
  let spaced := match namespace with Some (_ :: _) => true | _ => false end in
  let indent := if spaced then u "  " else [] in
  '(decls, functions) ← schema_declarations json_float (schema_tools es) (negb spaced) indent;
  let keyword := if spaced then u "function" else u "declare function" in
  Ok ((if spaced then [u "declare namespace " ++ default [] namespace ++ u " {"] else [])
      ++ (match decls with [] => [] | _ => decls ++ [[]] end)
      ++ concat (stub_lines functions indent keyword <$> es)
      ++ (if spaced then [u "}"] else [])).

Definition typescript_stubs (tools : tools_arg) (namespace : option text) : result exn text :=
  es ← _normalize_tools json_float tools;
  body ← stub_body es namespace;
  Ok (join_with [10] (stub_header ++ body) ++ [10]).

(** ** A catalog of several namespaces *)

Definition text_ltb_len (a b : text * text) : bool :=
  (length a.2 <? length b.2)%nat || ((length a.2 =? length b.2)%nat && str_leb a.1 b.1).
Fixpoint insert_block (x : text * text) (l : list (text * text)) : list (text * text) :=
  match l with [] => [x] | y :: l' => if text_ltb_len x y then x :: l else y :: insert_block x l' end.

Definition block (ns : text) (e : text * entry) : result exn (text * text) :=
  t ← describe_entries [e] (Some ns) false;
  Ok (e.1, u "### " ++ ns ++ u "." ++ e.1 ++ u " (entry-local types)" ++ [10] ++ u "```typescript" ++ [10] ++ drop (length (preamble false)) t ++ u "```" ++ [10]).

(** A namespace and its blocks, shortest first. *)
Definition blocks (ns : text) (es : entries) : result exn (list text) :=
  bs ← map_result (block ns) es; Ok (foldr insert_block [] bs).*2.

(** One round over the namespaces: the shortest block of each that fits.  The blocks taken, the
    budget left, what every namespace has left, and which go on. *)
Fixpoint round (active : list text) (pending : gmap (list Z) (list text)) (budget : Z)
    : list (text * text) * gmap (list Z) (list text) * Z * list text :=
  match active with
  | [] => ([], pending, budget, [])
  | ns :: active =>
      match default [] (pending !! ns) with
      | b :: queue =>
          if Z.of_nat (length b) <=? budget then
            let '(taken, pending, budget, next) := round active (<[ns := queue]> pending) (budget - Z.of_nat (length b)) in
            ((ns, b) :: taken, pending, budget, match queue with [] => next | _ => ns :: next end)
          else round active pending budget
      | [] => round active pending budget
      end
  end.

(** [while active]; [fuel]: one more than the blocks there are. *)
Fixpoint rounds (fuel : nat) (active : list text) (pending : gmap (list Z) (list text)) (budget : Z)
    : option (list (text * text) * gmap (list Z) (list text) * Z) :=
  match fuel, active with
  | _, [] => Some ([], pending, budget)
  | O, _ => None
  | S fuel, _ =>
      let '(taken, pending, budget, next) := round active pending budget in
      '(more, pending, budget) ← rounds fuel next pending budget;
      Some (taken ++ more, pending, budget)
  end.

Definition select (pending : list (text * list text)) (budget : Z) : option (list (text * text) * gmap (list Z) (list text) * Z) :=
  rounds (S (sum_list (length <$> pending.*2))) (sort_pairs ((fun p => (p.1, [])) <$> pending)).*1 (list_to_map pending) budget.

Fixpoint pend (namespaces : list (pyval * tools_arg)) : result exn (list (text * list text)) :=
  match namespaces with
  | [] => Ok []
  | (ns, tools) :: namespaces =>
      ns ← ToolBridge._check_name ns;
      es ← _normalize_tools json_float tools;
      bs ← blocks ns es;
      more ← pend namespaces;
      Ok ((ns, bs) :: more)
  end.

Definition shown_line (pending : list (text * list text)) (selected : list (text * text)) (ns : text) : text :=
  ns ++ u ": " ++ str_of (Z.of_nat (length (List.filter (fun x => bool_decide (x.1 = ns)) selected))) ++ u " of "
  ++ str_of (Z.of_nat (length (default [] (assoc ns pending)))) ++ u " tools shown.".

Definition catalog_text (pending : list (text * list text)) (selected : list (text * text)) : text :=
  let total := sum_list (length <$> pending.*2) in
  let used := length selected in
  join_with [10] ([rstrip_space (preamble false);
    u (if (used =? total)%nat then "COMPLETE" else "PARTIAL") ++ u ": " ++ str_of (Z.of_nat used) ++ u " of " ++ str_of (Z.of_nat total) ++ u " tools shown.";
    u "Entry budget counts characters; instructions and summaries are additional.";
    u "Only tools already bound by the host are callable; this catalog grants no access.";
    u "Types in each tool entry are local to that entry, not shared declarations."]
    ++ (shown_line pending selected <$> (sort_pairs ((fun p => (p.1, [])) <$> pending)).*1))
  ++ [10; 10] ++ u "## Tool entries" ++ [10] ++ concat selected.*2.

(** [namespaces] is [None] for a value that is not a mapping. *)
Definition describe_tool_catalog (namespaces : option (list (pyval * tools_arg))) (max_chars : int_arg) : result exn text :=
  match max_chars, namespaces with
  | INone, _ => Err (TypeError "max_chars must be a non-negative int")
  | _, _ =>
      budget ← limit_int max_chars 0 MAX_WIRE_INT;
      match namespaces with
      | None => Err (TypeError "namespaces must map namespace names to tools")
      | Some namespaces =>
          pending ← pend namespaces;
          match select pending (default 0 budget) with
          | Some (selected, _, _) => Ok (catalog_text pending selected)
          | None => Err (AssertionError "")
          end
      end
  end.
End Prompt.
