(* ===== verification/PromptProps.v ===== *)
(** * The prompt and the declarations: theorems

    What a docstring, an annotation or a schema says stays inside the comment or the string literal
    of the declarations it is put in; and [describe_tool_catalog] shows the most it can of every
    namespace within its budget. *)

From stdpp Require Import sorting.
From S2P Require Import Prelude Utf8 PyVal PyStr Preflight PreflightProps Limits ToolBridge Results Feed Front Schema SchemaProps Catalog Prompt.
From Stdlib Require Import Floats.SpecFloat.

#[local] Abbreviation text := (list Z).

(** ** Selecting under a budget *)

Definition chars (bs : list text) : Z := foldr (fun b n => Z.of_nat (length b) + n) 0 bs.
Definition of_ns (ns : text) (l : list (text * text)) : list text := (List.filter (fun x => bool_decide (x.1 = ns)) l).*2.
Definition left_of (p : gmap (list Z) (list text)) (ns : text) : list text := default [] (p !! ns).
(** The namespace has nothing more that fits. *)
Definition stuck (p : gmap (list Z) (list text)) (budget : Z) (ns : text) : Prop :=
  match left_of p ns with [] => True | b :: _ => budget < Z.of_nat (length b) end.

Lemma chars_app a b : chars (a ++ b) = chars a + chars b.
Proof. unfold chars. induction a as [|x a IH]; cbn; [done|]. lia. Qed.
Lemma of_ns_app ns a b : of_ns ns (a ++ b) = of_ns ns a ++ of_ns ns b.
Proof. unfold of_ns. by rewrite List.filter_app, fmap_app. Qed.
Lemma of_ns_cons ns n b l : of_ns ns ((n, b) :: l) = if bool_decide (n = ns) then b :: of_ns ns l else of_ns ns l.
Proof. unfold of_ns. cbn. by destruct (bool_decide (n = ns)). Qed.
Lemma left_of_insert p n q ns : left_of (<[n := q]> p) ns = if bool_decide (n = ns) then q else left_of p ns.
Proof. unfold left_of. case_bool_decide; [subst; by rewrite lookup_insert_eq|by rewrite lookup_insert_ne]. Qed.

(** What a round, and the whole selection, keeps. *)
Record rounded (active : list text) (p : gmap (list Z) (list text)) (budget : Z) (taken : list (text * text)) (p' : gmap (list Z) (list text)) (budget' : Z)
    (next : list text) : Prop := {
  r_chars : budget = chars taken.*2 + budget';
  r_left : 0 <= budget -> 0 <= budget';
  r_less : budget' <= budget;
  r_split : forall ns, left_of p ns = of_ns ns taken ++ left_of p' ns;
  r_other : forall ns, ns ∉ active -> left_of p' ns = left_of p ns;
  r_stuck : forall ns, ns ∈ active -> ns ∉ next -> stuck p' budget' ns;
  r_next : forall ns, ns ∈ next -> ns ∈ active /\ (length (left_of p' ns) < length (left_of p ns))%nat;
  r_nodup : NoDup next }.

Lemma stuck_less p b b' ns : stuck p b ns -> b' <= b -> stuck p b' ns.
Proof. unfold stuck. destruct (left_of p ns); [done|lia]. Qed.
Lemma stuck_equal p p' b ns : stuck p b ns -> left_of p' ns = left_of p ns -> stuck p' b ns.
Proof. unfold stuck. by intros ? ->. Qed.

Lemma rounded_skip ns active p b taken p' b' next : ns ∉ active -> stuck p b ns -> rounded active p b taken p' b' next -> rounded (ns :: active) p b taken p' b' next.
Proof.
  intros Hn Hs [Hc Hl Hle Hsp Ho Hst Hne Hd]. constructor; try done.
  - intros m [? ?]%not_elem_of_cons. by apply Ho.
  - intros m [->|Hm]%elem_of_cons Hx; [|by apply Hst]. apply (stuck_equal p); [by eapply stuck_less|by apply Ho].
  - intros m Hm. destruct (Hne m Hm). split; [by right|done].
Qed.

Lemma rounded_take ns active p b blk queue taken p' b' next : ns ∉ active -> left_of p ns = blk :: queue -> Z.of_nat (length blk) <= b ->
  rounded active (<[ns := queue]> p) (b - Z.of_nat (length blk)) taken p' b' next ->
  rounded (ns :: active) p b ((ns, blk) :: taken) p' b' (match queue with [] => next | _ => ns :: next end).
Proof.
  intros Hn Hq Hb [Hc Hl Hle Hsp Ho Hst Hne Hd].
  assert (Hns : left_of p' ns = queue) by (rewrite Ho, left_of_insert by done; by rewrite bool_decide_true).
  assert (Hnx : ns ∉ next) by (intros [? _]%Hne; done).
  assert (Hin : forall m, m ∈ match queue with [] => next | _ => ns :: next end -> m = ns /\ queue <> [] \/ m ∈ next).
  { destruct queue; [by right|]. intros m [->|]%elem_of_cons; [by left|by right]. }
  constructor; try lia.
  - cbn. fold (chars taken.*2). lia.
  - intros m. rewrite of_ns_cons. specialize (Hsp m). rewrite left_of_insert in Hsp. case_bool_decide as E; [subst m|done]. rewrite Hq, Hsp. done.
  - intros m [Hm1 Hm2]%not_elem_of_cons. rewrite Ho, left_of_insert by done. by rewrite bool_decide_false.
  - intros m [->|Hm]%elem_of_cons Hx.
    + unfold stuck. rewrite Hns. destruct queue; [done|]. exfalso. apply Hx. left.
    + apply Hst; [done|]. intros Hmn. apply Hx. destruct queue; [done|by right].
  - intros m Hm. apply Hin in Hm as [[-> _]|Hm]; [split; [left|rewrite Hns, Hq; cbn; lia]|].
    destruct (Hne m Hm) as [Hma Hml]. rewrite left_of_insert, bool_decide_false in Hml by (intros ->; done). split; [by right|done].
  - destruct queue; [done|]. by apply NoDup_cons.
Qed.

Lemma round_rounded active p b : NoDup active -> let '(taken, p', b', next) := round active p b in rounded active p b taken p' b' next.
Proof.
  revert p b. induction active as [|ns active IH]; intros p b Hd; cbn [round].
  { constructor; cbn; try done; try lia; try apply NoDup_nil_2; intros ns; by rewrite ?elem_of_nil. }
  apply NoDup_cons in Hd as [Hn Hd]. fold (left_of p ns). destruct (left_of p ns) as [|blk queue] eqn:Hq.
  - specialize (IH p b Hd). destruct (round active p b) as [[[taken p'] b'] next]. apply rounded_skip; [done| |done]. unfold stuck. by rewrite Hq.
  - destruct (Z.of_nat (length blk) <=? b) eqn:Hb; bool_prop.
    + specialize (IH (<[ns := queue]> p) (b - Z.of_nat (length blk)) Hd). destruct (round active _ _) as [[[taken p'] b'] next]. by eapply rounded_take.
    + specialize (IH p b Hd). destruct (round active p b) as [[[taken p'] b'] next]. apply rounded_skip; [done| |done]. unfold stuck. rewrite Hq. lia.
Qed.

Lemma rounds_rounded fuel active p b : NoDup active -> (forall ns, ns ∈ active -> length (left_of p ns) < fuel)%nat ->
  exists taken p' b', rounds fuel active p b = Some (taken, p', b') /\ rounded active p b taken p' b' [].
Proof.
  revert active p b. induction fuel as [|fuel IH]; intros active p b Hd Hf.
  { destruct active as [|ns active]; [|specialize (Hf ns ltac:(left)); lia]. exists [], p, b. split; [done|]. by apply (round_rounded [] p b). }
  destruct active as [|ns0 active0] eqn:Ea; [exists [], p, b; split; [done|]; by apply (round_rounded [] p b)|]. rewrite <- Ea in *. clear Ea.
  assert (E : rounds (S fuel) active p b = (let '(taken, p1, b1, next) := round active p b in '(more, p2, b2) ← rounds fuel next p1 b1; Some (taken ++ more, p2, b2)) \/ active = [])
    by (destruct active; [by right|by left]).
  pose proof (round_rounded active p b Hd) as Hr. destruct E as [->| ->]; [|exists [], p, b; by split; [|apply (round_rounded [] p b)]].
  destruct (round active p b) as [[[taken p1] b1] next]. destruct Hr as [Hc Hl Hle Hsp Ho Hst Hne Hnd].
  destruct (IH next p1 b1 Hnd) as (more & p2 & b2 & -> & Hr2); [intros ns Hns; destruct (Hne ns Hns) as [Ha Hlt]; specialize (Hf ns Ha); lia|].
  destruct Hr2 as [Hc2 Hl2 Hle2 Hsp2 Ho2 Hst2 _ _]. exists (taken ++ more), p2, b2. split; [done|].
  constructor; try apply NoDup_nil_2; try (by intros ns ?%elem_of_nil).
  - rewrite fmap_app, chars_app. lia.
  - lia.
  - lia.
  - intros ns. rewrite of_ns_app, <- app_assoc, <- Hsp2. apply Hsp.
  - intros ns Hns. rewrite Ho2, Ho; [done|done|]. intros Hx. by destruct (Hne ns Hx).
  - intros ns Hns _. destruct (decide (ns ∈ next)) as [Hx|Hx]; [by apply Hst2, not_elem_of_nil|]. apply (stuck_equal p1); [|by apply Ho2]. by eapply stuck_less; [apply Hst|].
Qed.

(** ** The blocks *)

Definition no_longer (a b : text) : Prop := (length a <= length b)%nat.

Lemma insert_block_perm x l : insert_block x l ≡ₚ x :: l.
Proof. induction l as [|y l IH]; cbn; [done|]. destruct (text_ltb_len x y); [done|]. rewrite IH. apply Permutation_swap. Qed.

Lemma insert_block_sorted x l : StronglySorted no_longer l.*2 -> StronglySorted no_longer (insert_block x l).*2.
Proof.
  induction l as [|y l IH]; cbn; intros Hs; [by repeat constructor|]. apply StronglySorted_inv in Hs as [Hs Hy].
  destruct (text_ltb_len x y) eqn:E; cbn.
  - assert (Hxy : no_longer x.2 y.2) by (unfold text_ltb_len in E; unfold no_longer; apply orb_true_iff in E as [E%Nat.ltb_lt|[E%Nat.eqb_eq _]%andb_true_iff]; lia).
    constructor; [by constructor|]. constructor; [done|]. eapply Forall_impl; [exact Hy|]. unfold no_longer in *. intros z ?. lia.
  - assert (Hyx : no_longer y.2 x.2) by (unfold text_ltb_len in E; apply orb_false_iff in E as [E%Nat.ltb_ge _]; done).
    constructor; [by apply IH|]. rewrite insert_block_perm. cbn. by constructor.
Qed.

Lemma blocks_sorted `{Unicode, WordChars} jf inspect preamble st dt ns es bs : blocks jf inspect preamble st dt ns es = Ok bs -> StronglySorted no_longer bs.
Proof.
  unfold blocks. intros E. apply result_bind_ok in E as (l & _ & E). injection E as <-. induction l as [|x l IH]; cbn; [constructor|]. by apply insert_block_sorted.
Qed.

Lemma head_shortest p budget ns b : StronglySorted no_longer (left_of p ns) -> stuck p budget ns -> b ∈ left_of p ns -> budget < Z.of_nat (length b).
Proof.
  unfold stuck. destruct (left_of p ns) as [|h l]; [by intros _ _ ?%elem_of_nil|]. intros [_ Hh]%StronglySorted_inv Hs [->|Hb]%elem_of_cons; [done|].
  rewrite Forall_forall in Hh. specialize (Hh b Hb). unfold no_longer in Hh. lia.
Qed.

Lemma insert_pair_perm x l : insert_pair x l ≡ₚ x :: l.
Proof. induction l as [|y l IH]; cbn; [done|]. destruct (str_leb _ _); [done|]. rewrite IH. apply Permutation_swap. Qed.
Lemma sort_pairs_perm l : sort_pairs l ≡ₚ l.
Proof. unfold sort_pairs. induction l as [|x l IH]; cbn; [done|]. by rewrite insert_pair_perm, IH. Qed.

Lemma keys_perm (pending : list (text * list text)) : (sort_pairs ((fun p => (p.1, [])) <$> pending)).*1 ≡ₚ pending.*1.
Proof. rewrite sort_pairs_perm, <- list_fmap_compose. done. Qed.

(** The selection: within the budget, of every namespace its shortest blocks, and none left out
    that would still fit. *)
Definition well_selected (pending : list (text * list text)) (budget : Z) (selected : list (text * text)) : Prop :=
  chars selected.*2 <= budget /\
  forall ns bs, (ns, bs) ∈ pending -> exists rest, bs = of_ns ns selected ++ rest /\ forall b, b ∈ rest -> budget - chars selected.*2 < Z.of_nat (length b).

Lemma select_well pending budget : NoDup pending.*1 -> 0 <= budget -> (forall ns bs, (ns, bs) ∈ pending -> StronglySorted no_longer bs) ->
  exists selected p' b', select pending budget = Some (selected, p', b') /\ well_selected pending budget selected.
Proof.
  intros Hd Hb Hs. unfold select. set (active := (sort_pairs _).*1). set (p := list_to_map pending : gmap (list Z) (list text)).
  assert (Ha : active ≡ₚ pending.*1) by apply keys_perm.
  assert (Hl : forall ns bs, (ns, bs) ∈ pending -> left_of p ns = bs) by (intros ns bs Hin; unfold left_of, p; by rewrite (elem_of_list_to_map_1 _ _ _ Hd Hin)).
  destruct (rounds_rounded (S (sum_list (length <$> pending.*2))) active p budget) as (taken & p' & b' & E & Hr).
  { by rewrite Ha. }
  { intros ns. rewrite Ha. intros ([n bs] & -> & Hin)%list_elem_of_fmap. cbn [fst]. rewrite (Hl n bs Hin). clear -Hin. induction pending as [|[m cs] l IH]; [by apply elem_of_nil in Hin|].
    cbn in *. apply elem_of_cons in Hin as [[= -> ->]|Hin]; [lia|]. specialize (IH Hin). lia. }
  exists taken, p', b'. split; [done|]. destruct Hr as [Hc Hle _ Hsp _ Hst _ _]. split; [lia|]. intros ns bs Hin. exists (left_of p' ns).
  specialize (Hsp ns). rewrite (Hl ns bs Hin) in Hsp. split; [done|]. intros b Hbin. replace (budget - chars taken.*2) with b' by lia.
  eapply head_shortest; [|apply Hst; [rewrite Ha; apply list_elem_of_fmap; by exists (ns, bs)|by apply not_elem_of_nil]|done].
  specialize (Hs ns bs Hin). rewrite Hsp in Hs. by eapply StronglySorted_app_1_r.
Qed.

(** C36. A catalog of namespaces is always made from tools that can be described, and shows a
    selection of their entries: together no longer than [max_chars], of every namespace its
    shortest ones, and no entry is left out that would still fit. *)
Theorem catalog_budget_used `{Unicode, WordChars} jf inspect preamble st dt namespaces pending n :
  pend jf inspect preamble st dt namespaces = Ok pending -> NoDup pending.*1 -> 0 <= n <= MAX_WIRE_INT ->
  exists selected, describe_tool_catalog jf inspect preamble st dt (Some namespaces) (IIndex n) = Ok (catalog_text preamble pending selected) /\
    well_selected pending n selected.
Proof.
  intros Hp Hd Hn. destruct (select_well pending n Hd) as (selected & p' & b' & E & Hw); [lia| |].
  - clear Hd Hn. revert pending Hp. induction namespaces as [|[ns tools] l IH]; intros pending Hp; cbn [pend] in Hp; [injection Hp as <-; by intros ns bs ?%elem_of_nil|].
    apply result_bind_ok in Hp as (ns' & _ & Hp). apply result_bind_ok in Hp as (es & _ & Hp). apply result_bind_ok in Hp as (bs & Hbs & Hp).
    apply result_bind_ok in Hp as (more & Hm & Hp). injection Hp as <-. intros m cs [[= -> ->]|Hin]%elem_of_cons; [by eapply blocks_sorted|by eapply IH].
  - exists selected. split; [|done]. unfold describe_tool_catalog. cbn [limit_int].
    rewrite (proj2 (Z.ltb_ge n 0)), (proj2 (Z.ltb_ge _ n)) by lia. cbn [mbind result_bind]. rewrite Hp. cbn [mbind result_bind]. change (default 0 (Some n)) with n. by rewrite E.
Qed.

(** ** Types, signatures and comments are closed *)

Lemma closed_prompt_array t : closed t -> closed (_array t).
Proof.
  intros Ht. unfold _array. destruct (contains _ t).
  - change (u "(") with [40]. change (u ")[]") with ([41] ++ u "[]"). rewrite !app_assoc. apply closed_app; [|by intros stk]. rewrite <- app_assoc. by apply (closed_bracket 40 41).
  - apply closed_app; [done|by intros stk].
Qed.

Section closing.
Context `{Unicode, WordChars} (jf : spec_float -> list Z) (Hfloat : forall f, forallb plain (jf f) = true).

Lemma closed_literal_text l t : literal_text jf l = Some t -> closed t.
Proof using Hfloat.
  destruct l as [|b|z|f|s|]; cbn; intros [= <-].
  - by apply closed_plain.
  - destruct b; by apply closed_plain.
  - apply closed_plain, int_plain.
  - by apply closed_plain.
  - apply closed_dumps_str.
Qed.

Lemma closed_angle (name t : text) : forallb plain name = true -> closed t -> closed (name ++ [60] ++ t ++ [62]).
Proof using. intros Hn Ht. apply closed_app; [by apply closed_plain|]. by apply (closed_bracket 60 62). Qed.

Lemma closed_ts_type a : closed (ts_type jf a).
Proof using Hfloat.
  revert a. fix IH 1. intros [| | | | | | | |a|l|l|l|a| |a|a|kv|].
  1-8,18: by apply closed_plain.
  - exact (IH a).
  - cbn [ts_type]. apply closed_union. induction l as [|a l IHl]; constructor; [apply IH|exact IHl].
  - cbn [ts_type]. destruct (mapM _ l) as [ts|] eqn:E; [|by apply closed_plain]. apply closed_union. clear IH. apply mapM_Some in E. induction E as [|x y l' ts' Hx _ IHE]; constructor; [by eapply closed_literal_text|exact IHE].
  - cbn [ts_type]. destruct l as [|a l]; [by intros stk|]. apply (closed_bracket 91 93); [done|]. apply closed_join; [by apply closed_plain|].
    constructor; [apply IH|]. induction l as [|b l IHl]; constructor; [apply IH|exact IHl].
  - cbn [ts_type]. apply closed_prompt_array, IH.
  - by intros stk.
  - destruct a as [a|]; [|by intros stk]. cbn [ts_type]. apply closed_prompt_array, IH.
  - destruct a as [a|]; [|by intros stk]. cbn [ts_type]. apply (closed_angle (u "Set")); [done|apply IH].
  - destruct kv as [[k v]|]; [|by intros stk]. cbn [ts_type].
    assert (Hv : closed (u "Record<string, " ++ ts_type jf v ++ u ">")).
    { apply (closed_angle (u "Record") (u "string, " ++ ts_type jf v)); [done|]. apply closed_app; [by apply closed_plain|apply IH]. }
    destruct k; try exact Hv; by apply closed_plain.
Qed.

(** The names of the parameters: Python's identifiers hold no quote, bracket or slash. *)
Definition named_plainly (f : inspected) : Prop :=
  match f.(i_signature) with Some (ps, _) => Forall (fun p => forallb plain p.1.1.2 = true) ps | None => True end.

Lemma closed_rendered p : forallb plain p.(p_name) = true -> closed p.(p_ts) -> closed (rendered p).
Proof using.
  intros Hn Ht. unfold rendered. destruct (p_rest p).
  - apply (closed_app (u "...")); [by apply closed_plain|]. apply closed_app; [by apply closed_plain|]. apply (closed_app (u ": ")); [by apply closed_plain|]. by apply closed_prompt_array.
  - apply closed_app; [by apply closed_plain|]. apply closed_app; [destruct (p_optional p); by apply closed_plain|]. by apply (closed_app (u ": ")); [apply closed_plain|].
Qed.

Lemma spec_params_closed ps : Forall (fun p : param_kind * text * ann * bool => forallb plain p.1.1.2 = true) ps ->
  Forall (fun p => forallb plain p.(p_name) = true /\ closed p.(p_ts)) (omap (spec_param jf) ps).
Proof using Hfloat.
  induction 1 as [|[[[k n] a] d] ps Hn _ IH]; [constructor|]. cbn [fst snd] in Hn. assert (Hj : forallb plain (_js_param_name n) = true).
  { unfold _js_param_name. destruct (one_of _ _); [|done]. rewrite forallb_app, Hn. done. }
  assert (Ha := closed_ts_type a). destruct k; cbn; try exact IH; (constructor; [by split|exact IH]).
Qed.

Lemma closed_call_signature (name params returns : text) : forallb plain name = true -> closed params -> closed returns ->
  closed (name ++ u "(" ++ params ++ u "): Promise<" ++ returns ++ u ">").
Proof using.
  intros Hn Hp Hr. apply closed_app; [by apply closed_plain|].
  change (u "(") with [40]. change (u "): Promise<") with ([41] ++ u ": Promise" ++ [60]). change (u ">") with [62].
  assert (E : [40] ++ params ++ ([41] ++ u ": Promise" ++ [60]) ++ returns ++ [62] = ([40] ++ params ++ [41]) ++ u ": Promise" ++ ([60] ++ returns ++ [62])) by by rewrite <- !app_assoc.
  rewrite E. apply closed_app; [by apply (closed_bracket 40 41)|]. by apply (closed_angle (u ": Promise")).
Qed.

Lemma closed_spec name f : forallb plain name = true -> named_plainly f -> closed (signature (_spec jf name f)).
Proof using Hfloat.
  intros Hn Hf. unfold _spec, named_plainly in *. destruct (i_signature f) as [[ps returns]|].
  - apply closed_call_signature; [done| |apply closed_ts_type]. apply closed_join; [by apply closed_plain|]. apply Forall_fmap.
    eapply Forall_impl; [by apply spec_params_closed|]. intros p [Hp Ht]. by apply closed_rendered.
  - apply closed_call_signature; [done|by intros stk|by apply closed_plain].
Qed.

Lemma closed_jsdoc doc indent : spaces indent -> closed_lines (_jsdoc doc indent).
Proof using.
  intros Hi. unfold _jsdoc. destruct doc as [|c doc]; [apply closed_nil|]. apply closed_long; [done|]. apply splitlines_nc, escape_close_nc.
Qed.
End closing.

(** ** The stubs are closed *)

(** The word put before a declaration at the start of a line changes nothing: there the scanner is
    outside or in a comment. *)
Definition line_start (st : lex * list Z) : Prop := st.1 = Code \/ st.1 = Block.

Lemma scan_newline st st' : scan1 st 10 = Some st' -> line_start st'.
Proof. destruct st as [[] stk]; cbn; intros [= <-]; by (left + right). Qed.

Lemma scan_line st l st' : scan st (l ++ [10]) = Some st' -> line_start st'.
Proof. rewrite scan_app. intros (s1 & _ & E)%bind_Some. cbn [scan] in E. apply bind_Some in E as (s2 & E & [= <-]). by eapply scan_newline. Qed.

Definition declared_line (l : text) : text := if starts_with (u "interface ") l || starts_with (u "type ") l then u "declare " ++ l else l.

Lemma scan_declared st ls st' : line_start st -> scan st (lines_text ls) = Some st' -> scan st (lines_text (declared_line <$> ls)) = Some st'.
Proof.
  revert st. induction ls as [|l ls IH]; intros st Hst E; [exact E|]. unfold lines_text in E |- *. rewrite !fmap_cons in *. cbn [concat] in *.
  rewrite scan_app in E |- *. apply bind_Some in E as (s1 & E1 & E). assert (Hs1 := scan_line _ _ _ E1).
  assert (E2 : scan st (declared_line l ++ [10]) = Some s1).
  { unfold declared_line. destruct (_ || _); [|done]. rewrite <- app_assoc, scan_app. destruct st as [s stk]. destruct Hst as [Hs|Hs]; cbn in Hs; subst s.
    - change (scan (Code, stk) (u "declare ")) with (Some (Code, stk)). exact E1.
    - change (scan (Block, stk) (u "declare ")) with (Some (Block, stk)). exact E1. }
  rewrite E2. by apply IH.
Qed.

Lemma closed_declared ls : closed_lines ls -> closed_lines (declared_line <$> ls).
Proof. intros Hl stk. apply scan_declared; [by left|apply Hl]. Qed.

Section stubs.
Context `{Unicode, WordChars} (jf : spec_float -> list Z) (Hfloat : forall f, forallb plain (jf f) = true).

Lemma closed_schema_function indent t w doc sig w' : spaces indent -> forallb plain t.(st_name) = true -> writer_ok w ->
  schema_function jf indent t w = Ok (doc, sig, w') -> closed_lines doc /\ closed sig /\ writer_ok w'.
Proof using Hfloat.
  intros Hi Hn Hw. assert (Hff : forall f, isfinite f = true -> forallb plain (jf f) = true) by done. unfold schema_function. cbv zeta. set (params := JObj _). set (returns := match st_output t with Some _ => _ | None => _ end).
  destruct (register_ok jf params w Hw) as [Hr1 Hw1]. destruct (register jf params w) as [r1 w1]. cbn [fst snd] in *.
  destruct (register_ok jf returns w1 Hw1) as [Hr2 Hw2]. destruct (register jf returns w1) as [r2 w2]. cbn [fst snd] in *.
  intros E. apply result_bind_ok in E as (pt & Hp & E). apply result_bind_ok in E as (rt & Hrt & E). injection E as <- <- <-. split_and!; [by apply closed_comment| |done].
  apply closed_signature; [done|apply (optional_plain params)|exact (closed_ts jf Hff r1 Hr1 _ _ _ _ Hi Hp)|exact (closed_return jf Hff _ _ _ _ Hr2 Hi Hrt)].
Qed.

Definition functions_closed (fs : list (text * (list text * text))) : Prop := Forall (fun f => closed_lines f.2.1 /\ closed f.2.2) fs.

Lemma closed_schema_functions indent tools : spaces indent -> Forall (fun t => forallb plain t.(st_name) = true) tools -> forall w fs w', writer_ok w ->
  schema_functions jf indent tools w = Ok (fs, w') -> functions_closed fs /\ writer_ok w'.
Proof using Hfloat.
  intros Hi Hn. induction Hn as [|t tools Ht _ IH]; intros w fs w' Hw E; cbn [schema_functions] in E; [injection E as <- <-; split; [constructor|done]|].
  apply result_bind_ok in E as ([[doc sig] w1] & E1 & E). apply result_bind_ok in E as ([fs' w2] & E2 & E). injection E as <- <-.
  destruct (closed_schema_function _ _ _ _ _ _ Hi Ht Hw E1) as (Hd & Hs & Hw1). destruct (IH _ _ _ Hw1 E2) as [Hf Hw2]. split; [by constructor|done].
Qed.

Lemma closed_schema_declarations tools declare indent decls fs : spaces indent -> Forall (fun t => forallb plain t.(st_name) = true) tools ->
  schema_declarations jf tools declare indent = Ok (decls, fs) -> closed_lines decls /\ functions_closed fs.
Proof using Hfloat.
  intros Hi Hn E. unfold schema_declarations in E. apply result_bind_ok in E as ([fs' w] & E1 & E). apply result_bind_ok in E as (ds & E2 & E). injection E as E3 <-.
  destruct (closed_schema_functions _ _ Hi Hn _ _ _ (Forall_nil_2 _) E1) as [Hf Hw]. split; [|done]. subst decls.
  apply (closed_declarations jf (fun f _ => Hfloat f)) in E2; [|done|done]. destruct declare; [by apply closed_declared|done].
Qed.

Lemma assoc_forall {A} (P : A -> Prop) k (l : list (text * A)) x : Forall (fun e => P e.2) l -> assoc k l = Some x -> P x.
Proof using. induction 1 as [|[k' y] l Hy _ IH]; cbn; [done|]. case_bool_decide; [by intros [= <-]|done]. Qed.

Context (inspect : Z -> inspected) (st dt : inspected) (Hinspect : forall f, named_plainly (inspect f)) (Hst : named_plainly st) (Hdt : named_plainly dt).

Lemma closed_stub fs indent keyword e : spaces indent -> forallb plain keyword = true -> functions_closed fs -> forallb plain e.1 = true ->
  closed_lines (stub_lines jf inspect st dt fs indent keyword e).
Proof using Hfloat Hinspect Hst Hdt.
  intros Hi Hk Hf Hn. unfold stub_lines.
  assert (Hboth : forall (doc : list text) (sig : text), closed_lines doc -> closed sig -> closed_lines (doc ++ [indent ++ keyword ++ u " " ++ sig ++ u ";"])).
  { intros doc sig Hd Hs. apply closed_lines_app; [done|]. apply closed_line. apply closed_app; [by apply spaces_closed|]. apply closed_app; [by apply closed_plain|].
    apply (closed_app (u " ")); [by apply closed_plain|]. apply closed_app; [done|by apply closed_plain]. }
  destruct e as [name e]. cbn [fst snd] in *.
  assert (Hcall : named_plainly (inspect_entry inspect st dt e) -> closed_lines (let '(doc, sig) := let spec := _spec jf name (inspect_entry inspect st dt e) in (_jsdoc (s_doc spec) indent, signature spec) in
     doc ++ [indent ++ keyword ++ u " " ++ sig ++ u ";"])) by (intros He; apply Hboth; [by apply closed_jsdoc|by apply closed_spec]).
  destruct e as [f i b|t f| |]; try (apply Hcall; cbn; done).
  destruct (assoc name fs) as [[doc sig]|] eqn:E; [|by apply Hboth; [apply closed_nil|apply closed_nil]].
  unfold functions_closed in Hf. pose proof (assoc_forall (fun f => closed_lines f.1 /\ closed f.2) _ _ _ Hf E) as [Hd Hs]. by apply Hboth.
Qed.

Lemma closed_stub_body es namespace body : Forall (fun e => forallb plain e.1 = true /\ match e.2 with ESchema t _ => forallb plain t.(st_name) = true | _ => True end) es ->
  (forall ns, namespace = Some ns -> forallb plain ns = true) -> stub_body jf inspect st dt es namespace = Ok body -> closed_lines body.
Proof using Hfloat Hinspect Hst Hdt.
  intros Hes Hns E. unfold stub_body in E. cbv zeta in E. apply result_bind_ok in E as ([decls fs] & E1 & E). injection E as <-.
  set (spaced := match namespace with Some (_ :: _) => true | _ => false end) in *.
  assert (Hi : spaces (if spaced then u "  " else [])) by (destruct spaced; [by repeat constructor|constructor]).
  apply closed_schema_declarations in E1 as [Hd Hf]; [|done|].
  2: { clear E1. unfold schema_tools. induction Hes as [|[n e] es [_ He] _ IH]; [constructor|]. cbn. destruct e; try exact IH. by constructor. }
  assert (Hinner : closed_lines ((match decls with [] => [] | _ => decls ++ [[]] end) ++
    concat (stub_lines jf inspect st dt fs (if spaced then u "  " else []) (if spaced then u "function" else u "declare function") <$> es))).
  { apply closed_lines_app; [destruct decls; [apply closed_nil|apply closed_lines_app; [done|apply closed_line, closed_nil]]|].
    apply closed_lines_concat, Forall_fmap. eapply Forall_impl; [exact Hes|]. intros e [Hn _]. apply closed_stub; try done. by destruct spaced. }
  destruct spaced; [|by rewrite app_nil_l, app_nil_r].
  assert (Hname : forallb plain (default [] namespace) = true) by (destruct namespace as [ns|]; [by apply Hns|done]).
  unfold closed_lines in *. rewrite !lines_text_app in *. set (a := lines_text (match decls with [] => _ | _ => _ end)) in *. set (b := lines_text (concat _)) in *.
  assert (E : lines_text [u "declare namespace " ++ default [] namespace ++ u " {"] ++ a ++ b ++ lines_text [u "}"]
    = (u "declare namespace " ++ default [] namespace ++ u " ") ++ ([123] ++ ([10] ++ a ++ b) ++ [125]) ++ [10]).
  { unfold lines_text at 1 2. cbn [concat fmap list_fmap]. change (u " {") with (u " " ++ [123]). change (u "}") with [125]. by rewrite !app_nil_r, <- !app_assoc. }
  eapply (eq_ind_r closed); [|exact E]. apply closed_app.
  - apply (closed_app (u "declare namespace ")); [by apply closed_plain|]. apply closed_app; by apply closed_plain.
  - apply closed_app; [|by apply closed_plain]. apply (closed_bracket 123 125); [done|]. by apply (closed_app [10]); [apply closed_plain|].
Qed.
End stubs.

(** ** Names *)

Lemma safe_plain s : _SAFE_NAME s = true -> forallb plain s = true.
Proof.
  destruct s as [|c s]; [done|]. cbn [_SAFE_NAME forallb]. intros [Hc Hs]%andb_true_iff. rewrite (plain_rest c) by (unfold name_rest; by rewrite Hc). by apply word_plain.
Qed.

(** A [SchemaTool] object has passed the checks of its constructor. *)
Definition well_made (g : given) : Prop := match g with GSchema t _ => _SAFE_NAME t.(st_name) = true | _ => True end.
Definition items_of (tools : tools_arg) : list given := match tools with ToolsMapping items => items.*2 | ToolsSequence items => items | ToolsOther => [] end.

Definition plainly_named (e : text * entry) : Prop := forallb plain e.1 = true /\ match e.2 with ESchema t _ => forallb plain t.(st_name) = true | _ => True end.

Lemma check_name_plain v n : ToolBridge._check_name v = Ok n -> _SAFE_NAME n = true.
Proof. unfold ToolBridge._check_name. destruct v; try done. destruct (_SAFE_NAME s) eqn:E; cbn [negb]; [|done]. destruct (_RESERVED_NAMES s); [done|]. intros [= <-]. exact E. Qed.

Section names.
Context `{Unicode} (jf : spec_float -> list Z).

Lemma schema_tool_named name d i o b t : schema_tool jf name d i o b = Ok t -> _SAFE_NAME t.(st_name) = true.
Proof.
  unfold schema_tool. intros E. apply result_bind_ok in E as (n & Hn & E). apply result_bind_ok in E as (d' & _ & E). apply result_bind_ok in E as (i' & _ & E).
  apply result_bind_ok in E as (o' & _ & E). apply result_bind_ok in E as (? & _ & E). destruct b; [|done]. injection E as <-. by eapply check_name_plain.
Qed.

Lemma as_schema_tool_named tool name t f : well_made tool -> as_schema_tool jf tool name = Ok (t, f) -> _SAFE_NAME t.(st_name) = true.
Proof.
  intros Hw E. unfold as_schema_tool in E. apply result_bind_ok in E as ([t' f'] & E1 & E).
  assert (Et : t' = t) by (repeat (case_match; simplify_eq/=; try done)). subst t'. clear E. destruct tool as [t0 f0|m|]; [by injection E1 as -> ->| |done].
  destruct (m_unknown m); [done|]. cbv zeta in E1. destruct (m_callable m); [|done]. unfold make_schema_tool in E1. apply result_bind_ok in E1 as (t1 & E1 & [= <- _]).
  by eapply schema_tool_named.
Qed.

Lemma set_entry_named n e es : plainly_named (n, e) -> Forall plainly_named es -> Forall plainly_named (set_entry n e es).
Proof.
  intros Hn. induction 1 as [|[k old] es Hk Hes IH]; cbn; [by constructor|]. destruct (bool_decide_reflect (k = n)) as [->|]; by constructor.
Qed.

Lemma normalize_one_named checked name tool es : well_made tool -> Forall plainly_named checked -> normalize_one jf checked name tool = Ok es -> Forall plainly_named es.
Proof.
  intros Hw Hc E.
  assert (Hs : forall name, ('(schema, f) ← as_schema_tool jf tool name;
      if has_name schema.(st_name) checked then Err (ValueError "is given twice") else Ok (set_entry schema.(st_name) (ESchema schema f) checked)) = Ok es -> Forall plainly_named es).
  { intros name' E'. apply result_bind_ok in E' as ([t f] & Et & E'). destruct (has_name _ _); [done|]. injection E' as <-.
    apply as_schema_tool_named in Et; [|done]. apply set_entry_named; [|done]. split; cbn; by apply safe_plain. }
  unfold normalize_one in E. destruct name as [name|]; [|by eapply Hs]. destruct tool as [t f|m|f kw internal truth]; try by eapply Hs.
  apply result_bind_ok in E as (n & Hn & E). destruct f as [f|]; [|done]. destruct kw; [|done]. injection E as <-. apply set_entry_named; [|done].
  split; [by eapply safe_plain, check_name_plain|done].
Qed.

Lemma normalized_named tools es : Forall well_made (items_of tools) -> _normalize_tools jf tools = Ok es -> Forall plainly_named es.
Proof.
  assert (Hgo : forall items checked, Forall (fun i : option pyval * given => well_made i.2) items -> Forall plainly_named checked -> normalize_items jf items checked = Ok es -> Forall plainly_named es).
  { induction items as [|[name tool] items IH]; intros checked Hw Hc E; cbn [normalize_items] in E; [by injection E as <-|]. apply Forall_cons in Hw as [Ht Hw].
    apply result_bind_ok in E as (c' & E1 & E). eapply IH; [done| |exact E]. by eapply normalize_one_named. }
  destruct tools as [items|items|]; cbn [items_of _normalize_tools]; intros Hw E; [| |done].
  - eapply Hgo; [|constructor|exact E]. apply Forall_fmap. rewrite Forall_fmap in Hw. exact Hw.
  - eapply Hgo; [|constructor|exact E]. apply Forall_fmap. exact Hw.
Qed.
End names.

Lemma join_all ls : ls <> [] -> join_with [10] ls ++ [10] = lines_text ls.
Proof.
  intros Hl. destruct (exists_last Hl) as (l & b & ->). rewrite join_lines, lines_text_app, <- app_assoc. unfold lines_text at 3. cbn [fmap list_fmap concat]. by rewrite app_nil_r.
Qed.

(** C21. The declarations made for tools, Python callables as well as schema tools: after the first
    line, every comment and string is closed, every bracket by its own, and no other quote,
    template, escape or comment begins, whatever docstrings, annotations, literals, descriptions
    and schemas say. *)
Theorem stubs_confined `{Unicode, WordChars} json_float inspect search_tool describe_tool tools namespace t :
  (forall f, forallb plain (json_float f) = true) -> (forall f, named_plainly (inspect f)) -> named_plainly search_tool -> named_plainly describe_tool ->
  Forall well_made (items_of tools) -> (forall ns, namespace = Some ns -> forallb plain ns = true) ->
  typescript_stubs json_float inspect search_tool describe_tool tools namespace = Ok t ->
  exists body, t = u "// Tools provided by the host. Every call returns a Promise." ++ [10; 10] ++ body /\ closed body.
Proof.
  intros Hf Hi Hs Hd Hw Hn E. unfold typescript_stubs in E. apply result_bind_ok in E as (es & E1 & E). apply result_bind_ok in E as (body & E2 & E). injection E as <-.
  apply normalized_named in E1; [|done]. exists (lines_text body). split; [|exact (closed_stub_body json_float Hf inspect search_tool describe_tool Hi Hs Hd es namespace body E1 Hn E2)].
  transitivity (lines_text (stub_header ++ body)); [by apply (join_all (stub_header ++ body))|]. rewrite lines_text_app. assert (Eh : lines_text stub_header = u "// Tools provided by the host. Every call returns a Promise." ++ [10; 10]) by by vm_compute.
  rewrite Eh. by rewrite <- app_assoc.
Qed.

(** ** The example of a call *)

(** The placeholder of a string literal with a bar in it is the text before the bar: an example
    with a string that is never closed. *)
Lemma placeholder_cuts_literal `{Unicode, WordChars} json_float :
  _placeholder (ts_type json_float (ALiteral [LStr (u "in | out")])) (u "direction") = [34] ++ u "in".
Proof. reflexivity. Qed.

Lemma unclosed_placeholder : ~ closed ([34] ++ u "in").
Proof. intros Hc. specialize (Hc []). vm_compute in Hc. discriminate. Qed.

(** ** A tool with hostile texts *)

#[local] Existing Instance ascii_unicode.

Definition ascii_words : WordChars.
Proof. refine {| re_digit := is_digit; re_word := fun c => is_alpha c || is_digit c || (c =? chr "_") |}; done. Defined.
#[local] Existing Instance ascii_words.

Definition hostile_callable : inspected :=
  Inspected (u "Ends */ here }") (Some ([(Positional, u "new", AUnion [ALiteral [LStr [34; 10]]; ANull], false); (VarPositional, u "rest", AMap (Some (AStr, ATuple [AStr; ABytes])), false)], ASet (Some AStr))).
Definition hostile_given : tools_arg := ToolsMapping [(PStr (u "f"), GFunc (Some 1) [] false true)].

Lemma stubs_confined_witness : exists t body, typescript_stubs (fun _ => u "1.5") (fun _ => hostile_callable) hostile_callable hostile_callable hostile_given (Some (u "tools")) = Ok t /\
  t = u "// Tools provided by the host. Every call returns a Promise." ++ [10; 10] ++ body /\ closed body.
Proof.
  destruct (typescript_stubs (fun _ => u "1.5") (fun _ => hostile_callable) hostile_callable hostile_callable hostile_given (Some (u "tools"))) as [t|e] eqn:E; [|vm_compute in E; discriminate].
  assert (Hn : named_plainly hostile_callable) by by repeat constructor.
  destruct (stubs_confined (fun _ => u "1.5") (fun _ => hostile_callable) hostile_callable hostile_callable hostile_given (Some (u "tools")) t) as (body & Ht & Hc); [done|done|done|done|by repeat constructor|by intros ns [= <-]|done|].
  exists t, body. done.
Defined.

Definition two_namespaces : list (pyval * tools_arg) := [(PStr (u "b"), hostile_given); (PStr (u "a"), hostile_given)].

Lemma catalog_budget_used_witness : exists pending selected, pend (fun _ => u "1.5") (fun _ => hostile_callable) (fun _ => []) hostile_callable hostile_callable two_namespaces = Ok pending /\
  describe_tool_catalog (fun _ => u "1.5") (fun _ => hostile_callable) (fun _ => []) hostile_callable hostile_callable (Some two_namespaces) (IIndex 500) = Ok (catalog_text (fun _ => []) pending selected) /\
  well_selected pending 500 selected.
Proof.
  destruct (pend (fun _ => u "1.5") (fun _ => hostile_callable) (fun _ => []) hostile_callable hostile_callable two_namespaces) as [pending|e] eqn:E; [|vm_compute in E; discriminate].
  destruct (catalog_budget_used (fun _ => u "1.5") (fun _ => hostile_callable) (fun _ => []) hostile_callable hostile_callable two_namespaces pending 500 E) as (selected & Hd & Hw).
  { assert (Ek : pending.*1 = [u "b"; u "a"]) by (vm_compute in E; by injection E as <-). rewrite Ek. apply NoDup_cons_2; [|apply NoDup_singleton]. intros Hx%list_elem_of_singleton. by vm_compute in Hx. }
  { unfold MAX_WIRE_INT. lia. }
  by exists pending, selected.
Defined.
